(* ===== verification/_CoqProject ===== *)
-Q . S2P
Prelude.v
StringUtil.v
ContentType.v
UrlCodec.v
ResourceNamer.v
RollingHash.v
Wildcard.v
WildcardGroup.v
FastWildcardGroup.v
LruCache.v
PurgeSet.v
PurgeSetSwap.v
Int64Text.v
PurgeContext.v
PurgeDurable.v
CacheInterface.v
WriteThroughCache.v
FallbackCache.v
SharedMemCacheData.v
SharedMemCache.v
SharedMemSector.v
SharedMemRun.v
SharedMemSpec.v
ProofwireLedger.v
CacheBatcher.v
QueuedWorkerPool.v
QueuedWorkerPoolInv.v
QueuedWorkerPoolTurn.v
QueuedWorkerPoolMoves.v
QueuedWorkerPoolSpec.v
HtmlKeywords.v
HtmlLexer.v
HtmlWriter.v
HtmlEvents.v
HtmlStack.v
HtmlTags.v
HtmlLexerInv.v
HtmlLiteral.v
HtmlTagStates.v
HtmlChunks.v
HtmlLexerSpec.v
HtmlWriterSpec.v
HtmlParse.v
HtmlParseWalk.v
HtmlParseInv.v
HtmlParseDoc.v
HtmlParseEdit.v
HtmlParseDelete.v
HtmlParseUnwrap.v
HtmlParseWrap.v
HtmlParseMove.v
HtmlParseDefer.v
HtmlParseOps.v
HtmlParseStep.v
HtmlParseFlush.v
HtmlParseSpec.v
HtmlAttribute.v
HtmlAttributeRead.v
Doctype.v
HtmlFilter.v
HtmlFilters.v
HtmlFiltersSpec.v
HtmlCollapse.v
