(* ===== verification/Prelude.v ===== *)
(** * Verification of the mod_pagespeed kernel

    mod_pagespeed rewrites web pages and their resources while a web server
    serves them. Its rewriting runs on a kernel of containers, string routines,
    caches and protocols shared by threads and by server processes. This library
    models that kernel and proves what its clients rely on. Every definition
    follows the C++ function of its name; source paths are below src/.

    ** The parts and how they interact

    Text and names.
    - StringUtil: [pagespeed/kernel/base/string_util]: splitting and joining,
      substring replacement, JSON escaping, trimming, the shell-like word parser.
    - ContentType: [kernel/http/content_type]: the MIME type table.
    - UrlCodec: [kernel/util/url_escaper], [url_segment_encoder],
      [url_multipart_encoder]: URLs as segments of other URLs.
    - ResourceNamer: [net/instaweb/rewriter/resource_namer]: the names of
      rewritten resources; it uses the three files above.
    - Int64Text: the interface (a class with its laws, and an instance) of the
      integer formatting of absl that PurgeContext uses.

    Pattern matching.
    - Wildcard: [kernel/base/wildcard], with the relation [glob] as the meaning
      of a pattern.
    - WildcardGroup: the ordered allow/disallow lists of [wildcard_group].
    - RollingHash, FastWildcardGroup: the same contract by Rabin-Karp search
      over a compiled hash table ([rolling_hash], [fast_wildcard_group]).

    Caches in one process.
    - LruCache: [kernel/cache/lru_cache_base.h] over [std::list] and a map,
      refined from an abstract list by recency ([spec_calls]).
    - CacheInterface: the asynchronous interface of [kernel/base/cache_interface]
      with its callbacks as objects, the in-memory caches, and the property
      [coherent]: what a cache promises its callers.
    - WriteThroughCache, FallbackCache: compositions of two caches; their
      theorems are about any two coherent caches and show coherence again.
    - CacheBatcher: [kernel/cache/cache_batcher]: joining and batching of
      lookups, under every interleaving of its callers.

    Purging.
    - PurgeSet, PurgeSetSwap: [kernel/cache/purge_set] on top of LruCache, and
      the lifetimes of the objects that [Swap] entangles.
    - PurgeContext: [kernel/cache/purge_context]: the purge file and the protocol
      by which several processes update and poll it.
    - PurgeDurable: what the callbacks of a purge are told, in the runs in which
      the lock keeps updates apart; and a run in which a stolen lock does not.

    Shared memory ([kernel/sharedmem/shared_mem_cache] and [_data]).
    - SharedMemCacheData: the directory, the LRU list and the block chains.
    - SharedMemCache: the operations, cut into atomic steps.
    - SharedMemSector: the invariant of a sector and the locked sections.
    - SharedMemRun: the invariant of a sector and the threads working in it.
    - SharedMemSpec: the theorems about all runs.

    Threads ([kernel/thread/queued_worker_pool]).
    - QueuedWorkerPool: the pool and its sequences, cut at their locks, and the
      relation [move] that says branch by branch what an event does.
    - QueuedWorkerPoolInv, QueuedWorkerPoolTurn: the invariants, each kept by
      every move.
    - QueuedWorkerPoolMoves, QueuedWorkerPoolSpec: events are moves, and the
      theorems about all orderly runs.

    HTML ([kernel/html]).
    - HtmlKeywords: [html_keywords], [html_name]: names, which tags close each
      other, the escaping of attribute values.
    - HtmlLexer: [html_lexer] and what it calls of [html_parse] and
      [html_element]: the state machine, the stack of open elements, the events.
    - HtmlWriter: [html_writer_filter]: the events as text again.
    - HtmlEvents: what it means that events nest and that they spell a document.
    - HtmlStack, HtmlTags: closing and opening elements keep stack, arena and
      queue in step.
    - HtmlLexerInv: the invariant, state by state; HtmlLiteral, HtmlTagStates: the
      states of scripts and of attributes keep it.
    - HtmlChunks, HtmlLexerSpec, HtmlWriterSpec: the theorems about documents.
    - HtmlParse: [html_parse], [html_node]: the window of events between two
      flushes as a linked list, the nodes with their iterators, and every
      operation by which filters edit it.
    - HtmlParseWalk, HtmlParseInv: events that nest under the right parents, and
      the invariant [Sound] that ties nodes, iterators, list and lexer stack.
    - HtmlParseDoc: the abstract document, a list of events with a cursor.
    - HtmlParseEdit, HtmlParseDelete, HtmlParseUnwrap, HtmlParseWrap,
      HtmlParseMove, HtmlParseDefer, HtmlParseOps: each operation does its
      document operation and keeps the invariant; HtmlParseStep: what the lexer
      adds; HtmlParseFlush: coalescing, [SanityCheck], the flush.
    - HtmlParseSpec: when an operation may be used, and the theorems.
    - HtmlAttribute: [html_element]: the attributes of an element, with the decoded
      values they keep; HtmlAttributeRead: the lexer reads back the attributes that the
      writer writes.
    - Doctype: [doctype]: which standard a doctype directive names.
    - HtmlFilter: [html_filter], [html_event] and [ApplyFilter] of [html_parse]: the
      callbacks of a filter and their run over the window. HtmlFilters: the filters
      [html_attribute_quote_removal], [remove_comments_filter], [explicit_close_tag],
      [canonical_attributes], [elide_attributes_filter] and
      [collapse_whitespace_filter].
    - HtmlFiltersSpec, HtmlCollapse: what they do to a page.

    Evidence.
    - ProofwireLedger: [kernel/proofwire/ledger]: the hash chain of decisions.

    ** Conventions

    A record of the model is an object of the code, with its members; an
    operation that changes the object returns the new one. [None] is an
    undefined or fatal outcome: an index outside a buffer, a failed [CHECK] or
    [DCHECK], a dangling pointer or iterator, or a loop that goes on for ever.
    Strings are lists of [ascii]; a w-bit integer is a [Z] with the reduction
    modulo 2^w written out where the code can wrap. Concurrent code is a machine
    whose events are the sections under one lock, the atomic accesses and the
    calls of callbacks; a list of events is an interleaving, and theorems about
    "every run" quantify over all of them. Facts about whole runs are proved by
    rule induction from an invariant that each event keeps. Libraries outside of
    src/ are parameters, with the laws that the code uses as hypotheses.

    ** What the theorems show

    - Meaning: [Match_decides_glob], [FastWildcardGroup_Match_correct] and
      [FastWildcardGroup_refines_WildcardGroup] (the compiled group answers as
      the linear scan), [NextRollingHash_correct],
      [GlobalReplaceSubstring_correct], [Merge_is_union];
      [events_spell_the_document] (the events of the lexer are the text that was
      read), [events_are_balanced], [chunks_do_not_matter]; [operation_ok] (the
      filters edit the document they mean), [filter_begins],
      [decoding_once_is_enough]; and of the filters [quotes_removed],
      [comments_removed], [tags_closed], [default_attributes_elided],
      [whitespace_collapsed]; [doctype_ignores_case].
    - Round trips: [UrlEscaper_roundtrip], [ResourceNamer_roundtrip],
      [JsonEscape_roundtrip], [ParseShell_roundtrip], [purge_file_roundtrip],
      [key_value_codec_correct], [Unescape_Escape], [Reserialize_faithful] (what
      is read and written again is the same document),
      [attributes_are_read_back], [defer_restore].
    - Contracts of caches: [LRUCacheBase_refines_spec], [WriteThrough_coherent],
      [Fallback_coherent], [Get_delivers_the_last_put].
    - Concurrency: [batcher_answers_exactly_once], [callbacks_exactly_once],
      [writers_exclude_everybody], [no_run_fails], [no_event_fails],
      [purge_is_permanent], [acknowledged_purge_is_durable],
      [every_function_has_one_fate], [sequence_runs_in_order]; and that
      work ends: [every_operation_ends], [batcher_drains], [pool_drains],
      [Put_then_Get_hits].
    - The editing of pages: [parse_ok] (no step fails and the document stays well
      nested), [flush_ok].
    - Evidence: [tamper_evident], [Verify_first_offender].
    - Errors of the code: [helper_dangles_after_update], [newline_url_is_lost],
      [oversized_Put_leaves_stale_value], [second_lookup_of_a_key_crashes],
      [cancellation_breaks_the_order], [Add_overtaken_by_ShutDown_fails],
      [deleted_twice], [moved_from_front], [below_deferred], [restored_outside],
      [copy_of_valueless_attribute], [slash_before_equals], [rewrites_nul],
      [evicts_out_of_order].

    ** Bounds and fuel

    Loops whose step always advances are fixpoints on the rest of the input. The
    others take fuel, and a theorem says that the fuel used is enough:
    - the string loops of StringUtil use the length of the input plus one;
      strings are shorter than 2^31 bytes (the sources index them with [int]);
    - the probes of FastWildcardGroup's table stop since the table is never full;
    - [TryAllocate] of a sector of E entries takes E^2+E+1: each pass of its loop
      frees an entry or ends a pass over the LRU list;
    - the runs of a sector have fewer than 2^31-1 events, since the reader count
      of an entry has 31 bits;
    - the lexer reads one byte at a time and its other loops follow the stack of
      open elements; [buffers_are_bounded] bounds the memory of both by the code's
      [kMaxTokenSize] and [kMaxNestingDepth];
    - counters of 64 bits (sizes, statistics, LRU bytes) do not wrap.
    A new shared-memory segment is zeroed, as [mmap] returns it.

    ** Not modelled

    - I/O and clocks: file systems, shared-memory mapping, message handlers and
      logging. What they answer is part of the events or a parameter.
    - Codecs, RE2, protobuf, zlib, the Chromium url library and cryptography:
      they are not under src/. What is glue around them (images, headers,
      CSS, Redis and memcached) has no entry here.
    - Of the HTML parser: line numbers, messages and the event listeners. An element that is deferred before its end tag has been parsed
      is modelled, but the theorems leave such deferrals out.
    - The JavaScript tokenizer, the rewrite drivers and their filters, the AMP
      detector of the kernel, and the server ports, which are callbacks of the
      servers.
    - Statistics, except where a theorem is about a counter.
    - Weak memory: a section under a lock and an atomic access are one step. *)

From stdpp Require Export base numbers list option gmap strings fin_maps.
From Stdlib Require Export Ascii.

#[global] Open Scope Z_scope.
#[global] Set Default Goal Selector "!".
#[global] Set Warnings "-clear-no-such-hyp".

(** ** Bytes and strings

    A [char] of the sources is an [ascii] (eight bits), a [GoogleString] or a
    [StringPiece] the list of its bytes. *)

Abbreviation bytes := (list ascii) (only parsing).

Declare Scope ps_scope.
Delimit Scope ps_scope with ps.
#[global] Open Scope ps_scope.

(** A C string literal. *)
Definition lit (s : string) : bytes := String.list_ascii_of_string s.

(** The value of a byte read as [unsigned char], and back. *)
Definition code (c : ascii) : Z := Z.of_N (N_of_ascii c).
Definition chr (z : Z) : ascii := ascii_of_N (Z.to_N (z mod 256)).

Notation "c1 =c c2" := (bool_decide (@eq ascii c1 c2))
  (at level 70, no associativity) : ps_scope.

(** [std::isdigit] and its siblings in the C locale. *)
Definition in_range (lo hi : ascii) (c : ascii) : bool :=
  (code lo <=? code c) && (code c <=? code hi).
Definition is_digit : ascii -> bool := in_range "0" "9".
Definition is_upper : ascii -> bool := in_range "A" "Z".
Definition is_lower : ascii -> bool := in_range "a" "z".
Definition is_alpha (c : ascii) : bool := is_upper c || is_lower c.
Definition is_alnum (c : ascii) : bool := is_alpha c || is_digit c.

(** [strings::StartsWith] and [strings::EndsWith]. *)
Definition StartsWith (s p : bytes) : bool := bool_decide (p `prefix_of` s).
Definition EndsWith (s p : bytes) : bool := bool_decide (p `suffix_of` s).

(** [memchr]: the offset of the first [c] in the buffer. *)
Fixpoint memchr (s : bytes) (c : ascii) : option nat :=
  match s with
  | [] => None
  | x :: s' => if x =c c then Some O else S <$> memchr s' c
  end.

(** [find(sub, pos)] and [find_first_of(set, pos)]: the first position at or
    after [pos], [None] for [npos]; [substr(pos, n)] with [pos] in range. *)
Fixpoint find_at (s sub : bytes) : option nat :=
  if StartsWith s sub then Some O
  else match s with
       | [] => None
       | _ :: s' => S <$> find_at s' sub
       end.
Definition find (s sub : bytes) (pos : nat) : option nat :=
  if (length s <? pos)%nat then None else Nat.add pos <$> find_at (drop pos s) sub.

Fixpoint index_of (f : ascii -> bool) (s : bytes) : option nat :=
  match s with
  | [] => None
  | c :: s' => if f c then Some O else S <$> index_of f s'
  end.
Definition one_of (set : bytes) (c : ascii) : bool := bool_decide (c ∈ set).
Definition find_first_of (s set : bytes) (pos : nat) : option nat :=
  Nat.add pos <$> index_of (one_of set) (drop pos s).

Definition substr (s : bytes) (pos n : nat) : bytes := take n (drop pos s).

(** ** Machine integers *)

Definition u64 (z : Z) : Z := z mod 2 ^ 64.
Definition u32 (z : Z) : Z := z mod 2 ^ 32.

(** ** Generic lemmas *)

Lemma code_range c : 0 <= code c < 256.
Proof.
  unfold code. pose proof (N_ascii_bounded c). lia.
Qed.

Lemma chr_code c : chr (code c) = c.
Proof.
  unfold chr. rewrite Z.mod_small by apply code_range.
  unfold code. rewrite N2Z.id. apply ascii_N_embedding.
Qed.

Lemma code_chr z : 0 <= z < 256 -> code (chr z) = z.
Proof.
  intros H. unfold chr, code. rewrite Z.mod_small by done.
  rewrite N_ascii_embedding; lia.
Qed.

Lemma code_inj c d : code c = code d -> c = d.
Proof. intros H. by rewrite <- (chr_code c), <- (chr_code d), H. Qed.

Lemma StartsWith_spec s p : StartsWith s p = true <-> exists r, s = p ++ r.
Proof. unfold StartsWith. by rewrite bool_decide_eq_true. Qed.

Lemma EndsWith_spec s p : EndsWith s p = true <-> exists r, s = r ++ p.
Proof. unfold EndsWith. by rewrite bool_decide_eq_true. Qed.

Lemma memchr_Some s c d :
  memchr s c = Some d ->
  exists s1 s2, s = s1 ++ c :: s2 /\ length s1 = d /\ c ∉ s1.
Proof.
  revert d. induction s as [|x s IH]; intros d; cbn; [done|].
  case_bool_decide as E.
  - intros [= <-]. subst. exists [], s. split; [done|]. split; [done|]. apply not_elem_of_nil.
  - destruct (memchr s c) as [d'|]; cbn; [|done]. intros [= <-].
    destruct (IH d' eq_refl) as (s1 & s2 & -> & <- & Hn).
    exists (x :: s1), s2. repeat split; [done..|].
    rewrite not_elem_of_cons. by split; [congruence|].
Qed.

Lemma memchr_None s c : memchr s c = None <-> c ∉ s.
Proof.
  induction s as [|x s IH]; cbn.
  - split; [intros _; apply not_elem_of_nil|done].
  - rewrite not_elem_of_cons. case_bool_decide as E; [subst; naive_solver|].
    rewrite fmap_None, IH. naive_solver.
Qed.

Lemma find_at_eq s sub :
  find_at s sub = if StartsWith s sub then Some O
                  else match s with [] => None | _ :: s' => S <$> find_at s' sub end.
Proof. by destruct s. Qed.

Lemma find_at_Some s sub n :
  find_at s sub = Some n ->
  exists a b, s = a ++ sub ++ b /\ length a = n /\
    forall a' b', s = a' ++ sub ++ b' -> (n <= length a')%nat.
Proof.
  revert n. induction s as [|c s IH]; intros n; rewrite find_at_eq;
    destruct (StartsWith _ sub) eqn:E.
  - intros [= <-]. apply StartsWith_spec in E as [r ->]. exists [], r. repeat split. intros; lia.
  - done.
  - intros [= <-]. apply StartsWith_spec in E as [r ->]. exists [], r. repeat split. intros; lia.
  - destruct (find_at s sub) as [m|]; [|done]. cbn. intros [= <-].
    destruct (IH m eq_refl) as (a & b & -> & <- & Hmin). exists (c :: a), b. repeat split.
    intros [|c' a'] b' Heq; cbn in *; [|injection Heq as _ Heq; apply Hmin in Heq; lia].
    assert (StartsWith (c :: a ++ sub ++ b) sub = true); [|congruence].
    apply StartsWith_spec. eauto.
Qed.

Lemma find_at_None s sub : find_at s sub = None -> forall a b, s <> a ++ sub ++ b.
Proof.
  induction s as [|c s IH]; rewrite find_at_eq; destruct (StartsWith _ sub) eqn:E; try done.
  - intros _ a b Heq. destruct a; [|done]. cbn in Heq.
    assert (StartsWith [] sub = true) by (apply StartsWith_spec; eauto). congruence.
  - destruct (find_at s sub); [done|]. intros _ [|c' a] b Heq; cbn in *.
    + assert (StartsWith (c :: s) sub = true) by (apply StartsWith_spec; eauto). congruence.
    + injection Heq as _ Heq. by apply (IH eq_refl) in Heq.
Qed.

Lemma index_of_Some f s n :
  index_of f s = Some n ->
  exists a c b, s = a ++ c :: b /\ length a = n /\ f c = true /\ Forall (fun c => f c = false) a.
Proof.
  revert n. induction s as [|c s IH]; intros n; cbn; [done|]. destruct (f c) eqn:E.
  - intros [= <-]. exists [], c, s. auto.
  - destruct (index_of f s) as [m|]; [|done]. cbn. intros [= <-].
    destruct (IH m eq_refl) as (a & d & b & -> & <- & Hd & Ha). exists (c :: a), d, b. auto.
Qed.

Lemma index_of_None f s : index_of f s = None <-> Forall (fun c => f c = false) s.
Proof.
  induction s as [|c s IH]; cbn; [by split|]. rewrite Forall_cons. destruct (f c); [naive_solver|].
  rewrite fmap_None, IH. naive_solver.
Qed.

Lemma list_filter_ext_in {A} (P Q : A -> Prop) `{!forall x, Decision (P x), !forall x, Decision (Q x)} (l : list A) :
  (forall x, x ∈ l -> P x <-> Q x) -> filter P l = filter Q l.
Proof.
  induction l as [|x l IH]; [done|]. intros HPQ. rewrite !filter_cons.
  rewrite IH by (intros; apply HPQ; by right). specialize (HPQ x ltac:(left)).
  destruct (decide (P x)), (decide (Q x)); naive_solver.
Qed.

Lemma list_filter_id {A} (P : A -> Prop) `{!forall x, Decision (P x)} (l : list A) :
  (forall x, x ∈ l -> P x) -> filter P l = l.
Proof.
  induction l as [|x l IH]; [done|]. intros HPQ. rewrite filter_cons.
  rewrite decide_True by (apply HPQ; left). f_equal. apply IH. intros; apply HPQ; by right.
Qed.

(** [decides o P]: the computation [o] ends without an error and answers
    whether [P] holds. *)
Definition decides (o : option bool) (P : Prop) : Prop :=
  exists b, o = Some b /\ (b = true <-> P).

#[export] Instance decides_proper : Proper (eq ==> iff ==> iff) decides.
Proof.
  intros o o' -> P Q HPQ. unfold decides.
  split; intros (b & H & Hb); exists b; (split; [done|]); by rewrite Hb.
Qed.

Lemma decides_true (P : Prop) : P -> decides (Some true) P.
Proof. intros. by exists true. Qed.

Lemma decides_false (P : Prop) : ~ P -> decides (Some false) P.
Proof. intros. by exists false. Qed.

Lemma decides_bool_decide P `{Decision P} : decides (Some (bool_decide P)) P.
Proof. exists (bool_decide P). split; [done|apply bool_decide_eq_true]. Qed.

Create HintDb ps.
#[export] Hint Resolve decides_true decides_false decides_bool_decide : ps.

(** Case analysis on the booleans the models test. *)
Ltac case_bool :=
  match goal with
  | |- context [bool_decide ?P] => case_bool_decide
  | |- context [if ?a <? ?b then _ else _] => destruct (Z.ltb_spec a b)
  | |- context [if ?a <=? ?b then _ else _] => destruct (Z.leb_spec a b)
  | |- context [if ?a =? ?b then _ else _] => destruct (Z.eqb_spec a b)
  end.
