(* ===== verification/StringUtil.v ===== *)
(** * String utilities

    src/pagespeed/kernel/base/string_util.{h,cc}: splitting and joining,
    substring replacement, escaping, trimming, case-insensitive and
    constant-time comparison, and the shell-like word parser.

    Loops that advance a position are fixpoints on the rest of the input where
    the position always moves, and run on fuel (the length of the input plus
    one) where the step depends on an argument: [None] is a loop that goes on. *)

From S2P Require Import Prelude.

Definition nl : ascii := chr 10.
Definition cr : ascii := chr 13.
Definition tab : ascii := chr 9.
Definition bs : ascii := chr 8.
Definition ff : ascii := chr 12.
Definition dquote : ascii := chr 34.
Definition squote : ascii := chr 39.
Definition backslash : ascii := chr 92.

(** ** Splitting and joining *)

(** [StringPiece::substr(from, to)]: the parameters are [uint32_t], [to] is a
    count, clipped to what is left. *)
Definition StringPiece_substr (s : bytes) (from to : Z) : bytes :=
  take (Z.to_nat (Z.min (u32 to) (Z.of_nat (length s)))) (drop (Z.to_nat (u32 from)) s).

Fixpoint Split_loop (fuel : nat) (sp separators : bytes) (omit_empty_strings : bool)
    (prev_pos : nat) (components : list bytes) : option (list bytes) :=
  match fuel with
  | O => None
  | S fuel' =>
      match find_first_of sp separators prev_pos with
      | Some pos =>
          let components :=
            if negb omit_empty_strings || (prev_pos <? pos)%nat
            then components ++ [StringPiece_substr sp (Z.of_nat prev_pos) (Z.of_nat (pos - prev_pos))]
            else components in
          Split_loop fuel' sp separators omit_empty_strings (S pos) components
      | None =>
          (* [prev_pos - sp.size()] is a [size_t] subtraction that wraps, and the
             difference is then cut to 32 bits *)
          Some (if negb omit_empty_strings || (prev_pos <? length sp)%nat
                then components ++
                  [StringPiece_substr sp (Z.of_nat prev_pos) (u64 (Z.of_nat prev_pos - Z.of_nat (length sp)))]
                else components)
      end
  end.

(** Every iteration moves past a separator. *)
Definition SplitStringPieceToVector (sp separators : bytes) (components : list bytes)
    (omit_empty_strings : bool) : option (list bytes) :=
  Split_loop (S (length sp)) sp separators omit_empty_strings 0 components.

Fixpoint SplitUsingSubstr_loop (fuel : nat) (full sub : bytes) (begin_index : nat)
    (result : list bytes) : option (list bytes) :=
  match fuel with
  | O => None
  | S fuel' =>
      match find full sub begin_index with
      | None => Some (result ++ [drop (Z.to_nat (u32 (Z.of_nat begin_index))) full])
      | Some end_index =>
          let term := StringPiece_substr full (Z.of_nat begin_index) (Z.of_nat (end_index - begin_index)) in
          let result := match term with [] => result | _ => result ++ [term] end in
          SplitUsingSubstr_loop fuel' full sub (end_index + length sub) result
      end
  end.

Definition SplitStringUsingSubstr (full sub : bytes) (result : list bytes) : option (list bytes) :=
  SplitUsingSubstr_loop (S (length full)) full sub 0 result.

Fixpoint AppendJoin_loop (dest : bytes) (strs : list bytes) (to_prepend sep : bytes) : bytes :=
  match strs with
  | [] => dest
  | str :: strs' => AppendJoin_loop (dest ++ to_prepend ++ str) strs' sep sep
  end.
Definition AppendJoinCollection (dest : bytes) (collection : list bytes) (sep : bytes) : bytes :=
  AppendJoin_loop dest collection [] sep.
Definition JoinCollection (collection : list bytes) (sep : bytes) : bytes :=
  AppendJoinCollection [] collection sep.

Fixpoint JoinStringStar_loop (vector : list bytes) (delim result : bytes) : bytes :=
  match vector with
  | [] => result
  | s :: vector' => JoinStringStar_loop vector' delim (result ++ delim ++ s)
  end.
Definition JoinStringStar (vector : list bytes) (delim : bytes) : bytes :=
  match vector with
  | [] => []
  | s :: vector' => JoinStringStar_loop vector' delim s
  end.

(** ** Replacing and erasing substrings *)

Fixpoint GlobalReplace_loop (fuel : nat) (sub replacement s : bytes) (pos : nat)
    (tmp : bytes) (num_replacements : Z) : option (Z * bytes) :=
  match fuel with
  | O => None
  | S fuel' =>
      match find s sub pos with
      | Some match_pos =>
          GlobalReplace_loop fuel' sub replacement s (match_pos + length sub)
            (tmp ++ substr s pos (match_pos - pos) ++ replacement) (num_replacements + 1)
      | None =>
          Some (if 0 <? num_replacements
                then (num_replacements, tmp ++ substr s pos (length s - pos))
                else (num_replacements, s))
      end
  end.

(** The number of replacements and the new value of [*s]. *)
Definition GlobalReplaceSubstring_fuel (fuel : nat) (sub replacement s : bytes) : option (Z * bytes) :=
  match s with
  | [] => Some (0, s)
  | _ => GlobalReplace_loop fuel sub replacement s 0 [] 0
  end.
Definition GlobalReplaceSubstring (sub replacement s : bytes) : option (Z * bytes) :=
  GlobalReplaceSubstring_fuel (S (length s)) sub replacement s.

Fixpoint GlobalErase_loop (fuel : nat) (left right string : bytes) (keep_start : nat)
    (keep_end : option nat) (result : bytes) (deletions : Z) : option (Z * bytes) :=
  match fuel with
  | O => None
  | S fuel' =>
      match keep_end with
      | None => Some (deletions, result ++ substr string keep_start (length string - keep_start))
      | Some ke =>
          let result := result ++ substr string keep_start (ke - keep_start) in
          match find string right (ke + length left) with
          | None => Some (deletions, result ++ substr string ke (length string - ke))
          | Some ks =>
              let keep_start := (ks + length right)%nat in
              GlobalErase_loop fuel' left right string keep_start
                (find string left keep_start) result (deletions + 1)
          end
      end
  end.

Definition GlobalEraseBracketedSubstring (left right string : bytes) : option (Z * bytes) :=
  match find string left 0 with
  | None => Some (0, string)
  | Some keep_end => GlobalErase_loop (S (length string)) left right string 0 (Some keep_end) [] 0
  end.

Fixpoint CountSubstring_loop (fuel : nat) (text sub : bytes) (pos : nat) (n : Z) : option Z :=
  match fuel with
  | O => None
  | S fuel' =>
      match find text sub pos with
      | None => Some n
      | Some match_pos => CountSubstring_loop fuel' text sub (S match_pos) (n + 1)
      end
  end.
Definition CountSubstring (text sub : bytes) : option Z :=
  CountSubstring_loop (S (S (length text))) text sub 0 0.

(** ** Escaping *)

Fixpoint BackslashEscape (src to_escape : bytes) : bytes :=
  match src with
  | [] => []
  | p :: src' =>
      if bool_decide (p ∈ to_escape) then backslash :: p :: BackslashEscape src' to_escape
      else p :: BackslashEscape src' to_escape
  end.

(** [snprintf(..., 5, "\\%03o", ch)] *)
Definition octal_escape (ch : Z) : bytes :=
  [backslash; chr (48 + ch / 64); chr (48 + (ch / 8) mod 8); chr (48 + ch mod 8)].

Definition CEscape_char (c : ascii) : bytes :=
  let ch := code c in
  if c =c nl then [backslash; "n"%char]
  else if c =c cr then [backslash; "r"%char]
  else if c =c tab then [backslash; "t"%char]
  else if c =c dquote then [backslash; dquote]
  else if c =c squote then [backslash; squote]
  else if c =c backslash then [backslash; backslash]
  else if (ch <? 32) || (127 <=? ch) then octal_escape ch
  else [c].

Fixpoint CEscape (src : bytes) : bytes :=
  match src with
  | [] => []
  | c :: src' => CEscape_char c ++ CEscape src'
  end.

(** [%04x] *)
Definition hex_digit (d : Z) : ascii := if d <? 10 then chr (48 + d) else chr (87 + d).
Definition u_escape (u : Z) : bytes :=
  [backslash; "u"%char; hex_digit (u / 4096); hex_digit ((u / 256) mod 16);
   hex_digit ((u / 16) mod 16); hex_digit (u mod 16)].

Definition JsonEscape_char (c : ascii) : bytes :=
  if c =c dquote then [backslash; dquote]
  else if c =c backslash then [backslash; backslash]
  else if c =c bs then [backslash; "b"%char]
  else if c =c ff then [backslash; "f"%char]
  else if c =c nl then [backslash; "n"%char]
  else if c =c cr then [backslash; "r"%char]
  else if c =c tab then [backslash; "t"%char]
  else if c =c "<"%char then u_escape 60
  else if c =c ">"%char then u_escape 62
  else if c =c "&"%char then u_escape 38
  else if code c <? 32 then u_escape (code c)
  else [c].

Fixpoint JsonEscape (s : bytes) : bytes :=
  match s with
  | [] => []
  | c :: s' =>
      match s' with
      | c1 :: c2 :: s'' =>
          if (code c =? 226) && (code c1 =? 128) && ((code c2 =? 168) || (code c2 =? 169))
          then (if code c2 =? 168 then u_escape 8232 else u_escape 8233) ++ JsonEscape s''
          else JsonEscape_char c ++ JsonEscape s'
      | _ => JsonEscape_char c ++ JsonEscape s'
      end
  end.

(** ** Characters, case and comparison *)

Definition UpperChar (c : ascii) : ascii := if is_lower c then chr (code c - 32) else c.
Definition LowerChar (c : ascii) : ascii := if is_upper c then chr (code c + 32) else c.
Definition UpperString (s : bytes) : bytes := map UpperChar s.
Definition LowerString (s : bytes) : bytes := map LowerChar s.
Definition IsHtmlSpace (c : ascii) : bool :=
  (c =c " "%char) || (c =c tab) || (c =c cr) || (c =c nl) || (c =c ff).
Definition IsHexDigit (c : ascii) : bool :=
  is_digit c || in_range "A" "F" c || in_range "a" "f" c.
Definition IsNonControlAscii (c : ascii) : bool := (32 <=? code c) && (code c <=? 126).

Fixpoint StringCaseCompare (s1 s2 : bytes) : Z :=
  match s1, s2 with
  | x :: s1', y :: s2' =>
      let c1 := code (UpperChar x) in
      let c2 := code (UpperChar y) in
      if c1 <? c2 then -1 else if c2 <? c1 then 1 else StringCaseCompare s1' s2'
  | [], _ :: _ => -1
  | _ :: _, [] => 1
  | [], [] => 0
  end.

Fixpoint MemCaseEqual_loop (s1 s2 : bytes) : bool :=
  match s1, s2 with
  | x :: s1', y :: s2' => if UpperChar x =c UpperChar y then MemCaseEqual_loop s1' s2' else false
  | _, _ => true
  end.
Definition StringCaseEqual (s1 s2 : bytes) : bool :=
  if bool_decide (length s1 = length s2) then MemCaseEqual_loop s1 s2 else false.

Definition StringCaseStartsWith (str prefix : bytes) : bool :=
  (length prefix <=? length str)%nat && (StringCaseCompare prefix (take (length prefix) str) =? 0).
Definition StringCaseEndsWith (str suffix : bytes) : bool :=
  (length suffix <=? length str)%nat &&
  (StringCaseCompare suffix (drop (length str - length suffix) str) =? 0).

Definition StringEqualConcat (str first second : bytes) : bool :=
  bool_decide (length str = (length first + length second)%nat) &&
  StartsWith str first && EndsWith str second.

Fixpoint CountCharacterMismatches (s1 s2 : bytes) : Z :=
  match s1, s2 with
  | x :: s1', y :: s2' => (if x =c y then 0 else 1) + CountCharacterMismatches s1' s2'
  | _, _ => Z.abs (Z.of_nat (length s1) - Z.of_nat (length s2))
  end.

(** [result |= ca ^ cb] for every index below the longer length. *)
Fixpoint ConstantTime_loop (a b : bytes) (result : Z) : Z :=
  match a, b with
  | [], [] => result
  | x :: a', [] => ConstantTime_loop a' [] (Z.lor result (Z.lxor (code x) 0))
  | [], y :: b' => (fix rest b result :=
      match b with [] => result | y :: b' => rest b' (Z.lor result (Z.lxor 0 (code y))) end) b result
  | x :: a', y :: b' => ConstantTime_loop a' b' (Z.lor result (Z.lxor (code x) (code y)))
  end.
Definition fold_size_diff (len_diff result : Z) : Z :=
  fold_left (fun result byte_idx => Z.lor result (Z.shiftr len_diff (byte_idx * 8) mod 256))
    [0; 1; 2; 3; 4; 5; 6; 7] result.
Definition ConstantTimeCompare (a b : bytes) : bool :=
  let result := ConstantTime_loop a b 0 in
  fold_size_diff (Z.lxor (Z.of_nat (length a)) (Z.of_nat (length b))) result =? 0.

Fixpoint FindIgnoreCase (haystack needle : bytes) : option nat :=
  if (length needle <=? length haystack)%nat then
    if StringCaseStartsWith haystack needle then Some O
    else match haystack with
         | [] => None
         | _ :: haystack' => S <$> FindIgnoreCase haystack' needle
         end
  else None.

(** ** Trimming: whether anything was trimmed, and the piece that is left *)

Fixpoint TrimLeadingWhitespace (str : bytes) : bool * bytes :=
  match str with
  | c :: str' => if IsHtmlSpace c then (true, (TrimLeadingWhitespace str').2) else (false, str)
  | [] => (false, [])
  end.

Fixpoint rightmost_loop (str : bytes) (rightmost : nat) : nat :=
  match rightmost with
  | O => O
  | S r => match str !! r with
           | Some c => if IsHtmlSpace c then rightmost_loop str r else S r
           | None => S r
           end
  end.
Definition TrimTrailingWhitespace (str : bytes) : bool * bytes :=
  let rightmost := rightmost_loop str (length str) in
  if bool_decide (rightmost = length str) then (false, str) else (true, take rightmost str).

Definition TrimWhitespace (str : bytes) : bool * bytes :=
  let '(trimmed_leading, str) := TrimLeadingWhitespace str in
  let '(trimmed_trailing, str) := TrimTrailingWhitespace str in
  (trimmed_leading || trimmed_trailing, str).

Definition TrimCasePattern (pattern str : bytes) : bool * bytes :=
  let '(did, str) :=
    if StringCaseStartsWith str pattern then (true, drop (length pattern) str) else (false, str) in
  if StringCaseEndsWith str pattern
  then (true, take (length str - length pattern) str) else (did, str).

Definition TrimQuote (str : bytes) : bytes :=
  let str := (TrimWhitespace str).2 in
  let str := if StartsWith str [dquote] || StartsWith str [squote] then drop 1 str else str in
  let str := if EndsWith str [dquote] || EndsWith str [squote]
             then take (length str - 1) str else str in
  (TrimWhitespace str).2.

(** The first pattern that trims something ends the [||] chain. *)
Fixpoint trim_first (patterns : list bytes) (str : bytes) : bool * bytes :=
  match patterns with
  | [] => (false, str)
  | p :: patterns' =>
      let '(did, str) := TrimCasePattern p str in
      if did then (true, str) else trim_first patterns' str
  end.
Definition url_quote_patterns : list bytes :=
  [lit "%5C%27"; lit "%5C%22"; lit "%27"; lit "%22"; [dquote]; [squote]].

Fixpoint TrimUrlQuotes_loop (fuel : nat) (str : bytes) : option bytes :=
  match fuel with
  | O => None
  | S fuel' =>
      let '(cont, str) := trim_first url_quote_patterns str in
      if cont then TrimUrlQuotes_loop fuel' str else Some str
  end.
Definition TrimUrlQuotes (str : bytes) : option bytes :=
  let str := (TrimWhitespace str).2 in
  str ← TrimUrlQuotes_loop (S (length str)) str;
  Some (TrimWhitespace str).2.

Definition PieceAfterEquals (piece : bytes) : bytes :=
  match memchr piece "=" with
  | Some index => (TrimWhitespace (drop (S index) piece)).2
  | None => []
  end.

(** ** Shell-like words *)

(** The quoted item and the input after its closing quote. *)
Fixpoint quoted_part (quote : ascii) (input : bytes) : bytes * bytes :=
  match input with
  | [] => ([], [])
  | c :: input' =>
      if c =c quote then ([], input')
      else if c =c backslash then
        match input' with
        | [] => ([], [])
        | d :: input'' => let '(part, rest) := quoted_part quote input'' in (d :: part, rest)
        end
      else let '(part, rest) := quoted_part quote input' in (c :: part, rest)
  end.

Fixpoint unquoted_part (input : bytes) : bytes * bytes :=
  match input with
  | [] => ([], [])
  | c :: input' =>
      if IsHtmlSpace c then ([], input)
      else let '(part, rest) := unquoted_part input' in (c :: part, rest)
  end.

Fixpoint ParseShell_loop (fuel : nat) (input : bytes) (output : list bytes) : option (list bytes) :=
  match fuel with
  | O => None
  | S fuel' =>
      match input with
      | [] => Some output
      | ch :: input' =>
          if (ch =c dquote) || (ch =c squote) then
            let '(part, rest) := quoted_part ch input' in
            ParseShell_loop fuel' rest (output ++ [part])
          else if negb (IsHtmlSpace ch) then
            let '(part, rest) := unquoted_part input in
            ParseShell_loop fuel' rest (output ++ [part])
          else ParseShell_loop fuel' input' output
      end
  end.

Definition ParseShellLikeString (input : bytes) : option (list bytes) :=
  ParseShell_loop (S (length input)) input [].

(** ** Splitting: the pieces between separators *)

Fixpoint pieces (is_sep : ascii -> bool) (s : bytes) : list bytes :=
  match s with
  | [] => [[]]
  | c :: s' =>
      if is_sep c then [] :: pieces is_sep s'
      else match pieces is_sep s' with
           | p :: ps => (c :: p) :: ps
           | [] => [[c]]
           end
  end.

Definition non_empty (omit_empty_strings : bool) (ps : list bytes) : list bytes :=
  if omit_empty_strings then filter (fun p => p <> []) ps else ps.

Lemma pieces_cons is_sep s : exists p ps, pieces is_sep s = p :: ps.
Proof.
  destruct s as [|c s]; cbn; [eauto|]. destruct (is_sep c); [eauto|]. destruct (pieces is_sep s); eauto.
Qed.

Lemma pieces_app is_sep a s :
  Forall (fun c => is_sep c = false) a ->
  pieces is_sep (a ++ s) =
    match pieces is_sep s with p :: ps => (a ++ p) :: ps | [] => [a] end.
Proof.
  induction a as [|c a IH]; cbn.
  - intros _. by destruct (pieces_cons is_sep s) as (p & ps & ->).
  - intros [-> Ha]%Forall_cons. rewrite IH by done. by destruct (pieces is_sep s).
Qed.

Lemma non_empty_cons omit p ps :
  non_empty omit (p :: ps) =
    (if negb omit || negb (bool_decide (p = [])) then [p] else []) ++ non_empty omit ps.
Proof.
  destruct omit; cbn [negb orb non_empty]; [|done]. rewrite filter_cons.
  case_bool_decide; by case_decide.
Qed.

Lemma StringPiece_substr_spec s from n :
  Z.of_nat (length s) <= 2 ^ 31 -> (from <= length s)%nat -> (n <= length s)%nat ->
  StringPiece_substr s (Z.of_nat from) (Z.of_nat n) = substr s from n.
Proof.
  intros Hl Hf Hn. unfold StringPiece_substr, substr, u32. rewrite !Z.mod_small by lia.
  by rewrite Z.min_l, !Nat2Z.id by lia.
Qed.

(** The last piece: its count is [2 ^ 32] less its length, and so enough as long
    as it is not longer than [2 ^ 31]. *)
Lemma substr_tail s pos :
  (pos <= length s)%nat -> Z.of_nat (length s) <= 2 ^ 31 ->
  StringPiece_substr s (Z.of_nat pos) (u64 (Z.of_nat pos - Z.of_nat (length s))) = drop pos s.
Proof.
  intros Hp Hl. unfold StringPiece_substr, u32, u64. rewrite (Z.mod_small (Z.of_nat pos)), Nat2Z.id by lia.
  destruct (decide (pos = length s)) as [->|Hne].
  - rewrite drop_ge by done. by rewrite take_nil.
  - apply take_ge. rewrite length_drop.
    rewrite <- (Z.mod_unique (_ - _) (2 ^ 64) (-1) (2 ^ 64 + (Z.of_nat pos - Z.of_nat (length s)))) by lia.
    rewrite <- (Z.mod_unique _ (2 ^ 32) (2 ^ 32 - 1) (2 ^ 32 + (Z.of_nat pos - Z.of_nat (length s)))) by lia.
    lia.
Qed.

Lemma Split_loop_pieces sp separators omit :
  Z.of_nat (length sp) <= 2 ^ 31 ->
  forall fuel prev components,
  (prev <= length sp)%nat -> (length sp - prev < fuel)%nat ->
  Split_loop fuel sp separators omit prev components =
    Some (components ++ non_empty omit (pieces (one_of separators) (drop prev sp))).
Proof.
  intros Hlen. induction fuel as [|fuel IH]; intros prev components Hp Hf; [lia|].
  cbn [Split_loop]. unfold find_first_of.
  destruct (index_of (one_of separators) (drop prev sp)) as [n|] eqn:E; cbn [fmap option_fmap option_map].
  - apply index_of_Some in E as (a & c & b & Hd & <- & Hc & Ha).
    assert (Hb : drop (S (prev + length a)) sp = b).
    { rewrite <- (Nat.add_1_r (prev + _)), <- Nat.add_assoc, <- drop_drop, Hd.
      rewrite <- drop_drop, drop_app_length. done. }
    assert (Hl : length (drop prev sp) = (length a + S (length b))%nat)
      by (rewrite Hd, length_app; done).
    rewrite length_drop in Hl. rewrite IH by lia. rewrite Hb, Hd, pieces_app by done.
    cbn [pieces]. rewrite Hc, app_nil_r, non_empty_cons. f_equal.
    replace (prev <? prev + length a)%nat with (negb (bool_decide (a = []))).
    2:{ case_bool_decide as He; [subst; cbn; symmetry; apply Nat.ltb_ge; lia|].
        destruct a; [done|]. cbn. symmetry. apply Nat.ltb_lt. lia. }
    rewrite StringPiece_substr_spec by lia. replace (substr sp prev (prev + length a - prev)) with a.
    2:{ unfold substr. rewrite Hd, Nat.add_comm, Nat.add_sub. by rewrite take_app_length. }
    destruct (negb omit || _); by rewrite <- ?app_assoc.
  - apply index_of_None in E. rewrite substr_tail by done.
    pose proof (pieces_app (one_of separators) (drop prev sp) [] E) as Hp'. rewrite app_nil_r in Hp'.
    cbn [pieces] in Hp'. rewrite Hp', app_nil_r, non_empty_cons. f_equal.
    replace (prev <? length sp)%nat with (negb (bool_decide (drop prev sp = []))).
    2:{ case_bool_decide as He.
        - apply (f_equal length) in He. rewrite length_drop in He. cbn in *. symmetry. apply Nat.ltb_ge. lia.
        - symmetry. apply Nat.ltb_lt. destruct (decide (prev = length sp)) as [->|]; [|lia].
          by rewrite drop_all in He. }
    replace (non_empty omit []) with (@nil bytes) by by destruct omit.
    destruct (negb omit || _); by rewrite ?app_nil_r.
Qed.

Lemma Split_pieces sp separators components omit :
  Z.of_nat (length sp) <= 2 ^ 31 ->
  SplitStringPieceToVector sp separators components omit =
    Some (components ++ non_empty omit (pieces (one_of separators) sp)).
Proof. intros Hl. unfold SplitStringPieceToVector. by rewrite Split_loop_pieces by lia. Qed.

Lemma Split_truncates c s :
  c ∉ s -> 2 ^ 31 < Z.of_nat (length s) < 2 ^ 32 ->
  SplitStringPieceToVector s [c] [] false = Some [take (Z.to_nat (2 ^ 32 - Z.of_nat (length s))) s].
Proof.
  intros Hc Hs. unfold SplitStringPieceToVector. cbn [Split_loop]. unfold find_first_of. rewrite drop_0.
  rewrite (proj2 (index_of_None (one_of [c]) s)).
  2:{ apply Forall_forall. intros d Hd. apply bool_decide_eq_false. rewrite list_elem_of_singleton. by intros ->. }
  cbn [fmap option_fmap option_map negb orb app]. unfold StringPiece_substr, u32, u64.
  rewrite Z.mod_0_l by done. change (Z.to_nat 0) with 0%nat. rewrite drop_0. do 3 f_equal.
  rewrite <- (Z.mod_unique (_ - _) (2 ^ 64) (-1) (2 ^ 64 - Z.of_nat (length s))) by lia.
  rewrite <- (Z.mod_unique _ (2 ^ 32) (2 ^ 32 - 1) (2 ^ 32 - Z.of_nat (length s))) by lia. lia.
Qed.

Lemma pieces_no_sep is_sep s :
  Forall (fun p => Forall (fun c => is_sep c = false) p) (pieces is_sep s).
Proof.
  induction s as [|c s IH]; cbn; [by repeat constructor|].
  destruct (is_sep c) eqn:E; [by constructor|].
  destruct (pieces is_sep s) as [|p ps]; [by repeat constructor|].
  apply Forall_cons in IH as [H1 H2]. by repeat constructor.
Qed.

Lemma AppendJoin_loop_app dest strs pre sep :
  AppendJoin_loop dest strs pre sep = dest ++ AppendJoin_loop [] strs pre sep.
Proof.
  revert dest pre. induction strs as [|s strs IH]; intros dest pre; cbn; [by rewrite app_nil_r|].
  rewrite IH, (IH (pre ++ s)). by rewrite !app_assoc.
Qed.

Lemma JoinCollection_cons s s' strs sep :
  JoinCollection (s :: s' :: strs) sep = s ++ sep ++ JoinCollection (s' :: strs) sep.
Proof.
  unfold JoinCollection, AppendJoinCollection. cbn [AppendJoin_loop app].
  rewrite AppendJoin_loop_app, (AppendJoin_loop_app s'). by rewrite <- !app_assoc.
Qed.

Lemma JoinCollection_one s sep : JoinCollection [s] sep = s.
Proof. done. Qed.

Lemma one_of_single c d : one_of [c] d = bool_decide (d = c).
Proof. unfold one_of. apply bool_decide_ext, list_elem_of_singleton. Qed.

Lemma Join_pieces c s : JoinCollection (pieces (one_of [c]) s) [c] = s.
Proof.
  induction s as [|d s IH]; [done|]. cbn [pieces]. rewrite one_of_single.
  destruct (pieces_cons (one_of [c]) s) as (p & ps & Hp). rewrite Hp in *.
  case_bool_decide as Hd.
  - subst d. by rewrite JoinCollection_cons, IH.
  - destruct ps as [|p' ps]; [cbn in *; by rewrite <- IH|].
    rewrite JoinCollection_cons in *. by rewrite <- IH.
Qed.

Lemma pieces_Join c ps :
  ps <> [] -> Forall (fun p => c ∉ p) ps -> pieces (one_of [c]) (JoinCollection ps [c]) = ps.
Proof.
  assert (Hno : forall p, c ∉ p -> Forall (fun d => one_of [c] d = false) p).
  { intros p Hp. apply Forall_forall. intros d Hd. rewrite one_of_single.
    apply bool_decide_eq_false. by intros ->. }
  induction ps as [|p ps IH]; [done|]. intros _ [Hp Hps]%Forall_cons. apply Hno in Hp.
  destruct ps as [|p' ps].
  - rewrite JoinCollection_one. pose proof (pieces_app (one_of [c]) p [] Hp) as H.
    rewrite app_nil_r in H. rewrite H. cbn. by rewrite app_nil_r.
  - rewrite JoinCollection_cons, pieces_app by done. cbn [app pieces].
    rewrite one_of_single, bool_decide_eq_true_2, IH by done. by rewrite app_nil_r.
Qed.

(** ** Replacement *)

(** [replaced sub rep s n s']: [s'] is [s] with its [n] leftmost
    non-overlapping occurrences of [sub], all there are, replaced. *)
Inductive replaced (sub rep : bytes) : bytes -> Z -> bytes -> Prop :=
| replaced_none s : (forall a b, s <> a ++ sub ++ b) -> replaced sub rep s 0 s
| replaced_first a b n b' :
    (forall a1 b1, a ++ sub ++ b = a1 ++ sub ++ b1 -> (length a <= length a1)%nat) ->
    replaced sub rep b n b' ->
    replaced sub rep (a ++ sub ++ b) (n + 1) (a ++ rep ++ b').

Lemma replaced_zero sub rep s n s' : replaced sub rep s n s' -> 0 <= n /\ (n = 0 -> s' = s).
Proof. induction 1; [done|]. lia. Qed.

Lemma substr_rest s pos : substr s pos (length s - pos) = drop pos s.
Proof. unfold substr. apply take_ge. by rewrite length_drop. Qed.

Lemma substr_before s pos a r n : drop pos s = a ++ r -> n = length a -> substr s pos n = a.
Proof. intros Hd ->. unfold substr. rewrite Hd. apply take_app_length. Qed.

Lemma find_spec s sub pos :
  (pos <= length s)%nat ->
  match find s sub pos with
  | Some m => exists a b, drop pos s = a ++ sub ++ b /\ m = (pos + length a)%nat /\
      drop (m + length sub) s = b /\ (m + length sub <= length s)%nat /\
      (forall a' b', drop pos s = a' ++ sub ++ b' -> (length a <= length a')%nat)
  | None => forall a b, drop pos s <> a ++ sub ++ b
  end.
Proof.
  intros Hp. unfold find. rewrite (proj2 (Nat.ltb_ge _ _)) by done.
  destruct (find_at (drop pos s) sub) as [n|] eqn:E; cbn.
  - apply find_at_Some in E as (a & b & Hd & <- & Hmin). exists a, b.
    assert (Hl : length (drop pos s) = (length a + (length sub + length b))%nat)
      by (by rewrite Hd, !length_app).
    rewrite length_drop in Hl. split; [done|]. split; [done|]. split; [|split; [lia|done]].
    rewrite <- !drop_drop, Hd. by rewrite !drop_app_length.
  - by apply find_at_None.
Qed.

Lemma GlobalReplace_loop_replaced sub rep s :
  sub <> [] -> forall fuel pos tmp n,
  (pos <= length s)%nat -> (length s - pos < fuel)%nat -> 0 <= n ->
  exists m r, replaced sub rep (drop pos s) m r /\
    GlobalReplace_loop fuel sub rep s pos tmp n = Some (if 0 <? n + m then (n + m, tmp ++ r) else (n + m, s)).
Proof.
  intros Hsub. assert (Hls : (0 < length sub)%nat) by (destruct sub; cbn; [done|lia]).
  induction fuel as [|fuel IH]; intros pos tmp n Hp Hf Hn; [lia|]. cbn [GlobalReplace_loop].
  pose proof (find_spec s sub pos Hp) as Hfind. destruct (find s sub pos) as [m|].
  - destruct Hfind as (a & b & Hd & -> & Hb & Hle & Hmin).
    destruct (IH (pos + length a + length sub)%nat
      (tmp ++ substr s pos (pos + length a - pos) ++ rep) (n + 1)) as (k & r & Hr & ->); [lia..|].
    exists (k + 1), (a ++ rep ++ r). rewrite Hb in Hr. rewrite Hd. split; [by constructor; [rewrite <- Hd|]|].
    rewrite (substr_before s pos a (sub ++ b)) by (done || lia). rewrite <- !app_assoc.
    by replace (n + 1 + k) with (n + (k + 1)) by lia.
  - exists 0, (drop pos s). split; [by constructor|]. rewrite Z.add_0_r, substr_rest. by destruct (0 <? n).
Qed.

Lemma GlobalReplaceSubstring_ok sub rep s :
  sub <> [] -> exists n s', GlobalReplaceSubstring sub rep s = Some (n, s') /\ replaced sub rep s n s'.
Proof.
  intros Hsub. destruct s as [|c s].
  - exists 0, []. split; [done|]. constructor. intros a b Heq.
    destruct a; [|done]. destruct sub; done.
  - unfold GlobalReplaceSubstring, GlobalReplaceSubstring_fuel.
    destruct (GlobalReplace_loop_replaced sub rep (c :: s) Hsub (S (length (c :: s))) 0 [] 0)
      as (m & r & Hr & ->); [lia..|]. rewrite drop_0 in Hr. cbn [app].
    destruct (replaced_zero _ _ _ _ _ Hr) as [Hm H0]. destruct (Z.ltb_spec 0 (0 + m)).
    + by exists (0 + m), r.
    + assert (m = 0) as -> by lia. exists 0, (c :: s). split; [done|]. by rewrite H0 in Hr.
Qed.

(** With an empty substring the loop never moves. *)
Lemma GlobalReplace_loop_stuck rep s : forall fuel pos tmp n,
  (pos <= length s)%nat -> GlobalReplace_loop fuel [] rep s pos tmp n = None.
Proof.
  induction fuel as [|fuel IH]; intros pos tmp n Hp; [done|]. cbn [GlobalReplace_loop].
  unfold find. rewrite (proj2 (Nat.ltb_ge _ _)) by done. rewrite find_at_eq.
  replace (StartsWith (drop pos s) []) with true by (symmetry; apply StartsWith_spec; by exists (drop pos s)).
  cbn [fmap option_fmap option_map length]. rewrite !Nat.add_0_r. by apply IH.
Qed.

(** ** Comparison *)

Lemma lor_eq_0 a b : Z.lor a b = 0 <-> a = 0 /\ b = 0.
Proof. apply Z.lor_eq_0_iff. Qed.

Lemma ConstantTime_rest b : forall r,
  (fix rest (b : bytes) (result : Z) :=
      match b with [] => result | y :: b' => rest b' (Z.lor result (Z.lxor 0 (code y))) end) b r = 0
  <-> r = 0 /\ Forall (fun c => code c = 0) b.
Proof.
  induction b as [|y b IH]; intros r; [by split; [split|intros [? _]]|].
  rewrite IH, lor_eq_0, Z.lxor_0_l, Forall_cons. tauto.
Qed.

Lemma ConstantTime_loop_0 a : forall b r,
  length a = length b -> ConstantTime_loop a b r = 0 <-> r = 0 /\ a = b.
Proof.
  induction a as [|x a IH]; intros [|y b] r Hl; try done; cbn [ConstantTime_loop].
  { by split; [split|intros [? _]]. }
  rewrite IH by (injection Hl; done). rewrite lor_eq_0, Z.lxor_eq_0_iff. split.
  - intros [[-> Hc] ->]. by apply code_inj in Hc as ->.
  - by intros [-> [= -> ->]].
Qed.

Lemma byte_of_size d i : 0 <= i -> Z.shiftr d (i * 8) mod 256 = Z.land (Z.shiftr d (i * 8)) 255.
Proof. intros. symmetry. apply (Z.land_ones _ 8). lia. Qed.

Lemma fold_size_diff_0 d r : 0 <= d < 2 ^ 64 -> fold_size_diff d r = 0 <-> r = 0 /\ d = 0.
Proof.
  intros Hd. unfold fold_size_diff. cbn [fold_left]. rewrite !lor_eq_0. split.
  - intros H. split; [tauto|]. apply Z.bits_inj_0. intros n.
    destruct (Z.lt_ge_cases n 0) as [Hn|Hn]; [by apply Z.testbit_neg_r|].
    destruct (Z.lt_ge_cases n 64) as [Hn'|Hn'].
    + assert (Hb : Z.shiftr d (n / 8 * 8) mod 256 = 0).
      { pose proof (Z.div_lt_upper_bound n 8 8). pose proof (Z.div_pos n 8).
        assert (n / 8 = 0 \/ n / 8 = 1 \/ n / 8 = 2 \/ n / 8 = 3 \/ n / 8 = 4 \/ n / 8 = 5 \/
                n / 8 = 6 \/ n / 8 = 7) as Hc by lia.
        repeat (destruct Hc as [->|Hc]; [tauto|]). rewrite Hc. tauto. }
      rewrite byte_of_size in Hb by (apply Z.div_pos; lia).
      apply (f_equal (fun z => Z.testbit z (n mod 8))) in Hb.
      pose proof (Z.mod_pos_bound n 8). rewrite Z.land_spec, Z.shiftr_spec, Z.bits_0 in Hb by lia.
      replace (n mod 8 + n / 8 * 8) with n in Hb by (pose proof (Z.div_mod n 8); lia).
      replace (Z.testbit 255 (n mod 8)) with true in Hb; [by rewrite andb_true_r in Hb|].
      symmetry. apply (Z.ones_spec_low 8). lia.
    + destruct (decide (d = 0)) as [->|]; [apply Z.bits_0|]. apply Z.bits_above_log2; [lia|].
      apply Z.log2_lt_pow2; [lia|]. pose proof (Z.pow_le_mono_r 2 64 n). lia.
  - intros [-> ->]. by vm_compute.
Qed.

Lemma StringCaseCompare_0 s1 : forall s2,
  StringCaseCompare s1 s2 = 0 <-> UpperString s1 = UpperString s2.
Proof.
  induction s1 as [|x s1 IH]; intros [|y s2]; cbn [StringCaseCompare UpperString map]; try done.
  destruct (Z.ltb_spec (code (UpperChar x)) (code (UpperChar y))) as [H|H];
    [split; [done|intros [= Hc _]; rewrite Hc in H; lia]|].
  destruct (Z.ltb_spec (code (UpperChar y)) (code (UpperChar x))) as [H'|H'];
    [split; [done|intros [= Hc _]; rewrite Hc in H'; lia]|].
  assert (UpperChar x = UpperChar y) as -> by (apply code_inj; lia).
  fold (UpperString s1) (UpperString s2). rewrite IH. by split; [intros ->|intros [= ->]].
Qed.

Lemma StringCaseCompare_sym s1 : forall s2, StringCaseCompare s2 s1 = - StringCaseCompare s1 s2.
Proof.
  induction s1 as [|x s1 IH]; intros [|y s2]; cbn [StringCaseCompare]; try done.
  destruct (Z.ltb_spec (code (UpperChar x)) (code (UpperChar y))),
    (Z.ltb_spec (code (UpperChar y)) (code (UpperChar x))); try lia; apply IH.
Qed.

Lemma StringCaseCompare_trans s1 : forall s2 s3,
  StringCaseCompare s1 s2 < 0 -> StringCaseCompare s2 s3 <= 0 -> StringCaseCompare s1 s3 < 0.
Proof.
  induction s1 as [|x s1 IH]; intros [|y s2] [|z s3]; cbn [StringCaseCompare]; try lia.
  destruct (Z.ltb_spec (code (UpperChar x)) (code (UpperChar y))),
    (Z.ltb_spec (code (UpperChar y)) (code (UpperChar x))),
    (Z.ltb_spec (code (UpperChar y)) (code (UpperChar z))),
    (Z.ltb_spec (code (UpperChar z)) (code (UpperChar y))),
    (Z.ltb_spec (code (UpperChar x)) (code (UpperChar z))),
    (Z.ltb_spec (code (UpperChar z)) (code (UpperChar x))); try lia. apply IH.
Qed.

Lemma MemCaseEqual_Upper s1 : forall s2,
  length s1 = length s2 -> MemCaseEqual_loop s1 s2 = true <-> UpperString s1 = UpperString s2.
Proof.
  induction s1 as [|x s1 IH]; intros [|y s2] Hl; try done.
  cbn [MemCaseEqual_loop UpperString map]. fold (UpperString s1) (UpperString s2).
  case_bool_decide as Hc; [rewrite Hc, IH by (injection Hl; done)|].
  - by split; [intros ->|intros [= ->]].
  - split; [done|]. by intros [= ? ?].
Qed.

Lemma StringCaseEqual_Upper s1 s2 : StringCaseEqual s1 s2 = true <-> UpperString s1 = UpperString s2.
Proof.
  unfold StringCaseEqual. case_bool_decide as Hl; [by apply MemCaseEqual_Upper|].
  split; [done|]. intros H. destruct Hl. apply (f_equal length) in H.
  unfold UpperString in H. by rewrite !length_map in H.
Qed.

(** ** Shell-like words *)

(** How a word is written so that it is read back. *)
Definition quote_word (w : bytes) : bytes :=
  dquote :: BackslashEscape w [dquote; backslash] ++ [dquote].

Lemma quoted_part_escape w rest :
  quoted_part dquote (BackslashEscape w [dquote; backslash] ++ dquote :: rest) = (w, rest).
Proof.
  induction w as [|c w IH]; cbn [BackslashEscape app]; [by cbn|].
  destruct (decide (c ∈ [dquote; backslash])) as [Hc|Hc].
  - rewrite bool_decide_eq_true_2 by done. cbn [app quoted_part]. by rewrite IH.
  - rewrite bool_decide_eq_false_2 by done. rewrite !not_elem_of_cons in Hc.
    cbn [app quoted_part]. rewrite !bool_decide_eq_false_2 by tauto. by rewrite IH.
Qed.

Lemma quoted_part_shorter quote : forall n input,
  (length input <= n)%nat -> (length (quoted_part quote input).2 <= length input)%nat.
Proof.
  induction n as [|n IH]; intros [|c input] Hn; cbn [quoted_part length] in *; try (cbn; lia).
  case_bool_decide; [cbn; lia|]. case_bool_decide.
  - destruct input as [|d input]; [cbn; lia|]. cbn [length] in Hn. pose proof (IH input ltac:(lia)).
    destruct (quoted_part quote input). cbn in *. lia.
  - pose proof (IH input ltac:(lia)). destruct (quoted_part quote input). cbn in *. lia.
Qed.

Lemma unquoted_part_shorter input : (length (unquoted_part input).2 <= length input)%nat.
Proof.
  induction input as [|c input IH]; cbn [unquoted_part]; [done|]. destruct (IsHtmlSpace c); [done|].
  destruct (unquoted_part input). cbn in *. lia.
Qed.

Lemma ParseShell_loop_total : forall fuel input output,
  (length input < fuel)%nat -> exists words, ParseShell_loop fuel input output = Some words.
Proof.
  induction fuel as [|fuel IH]; intros input output Hf; [lia|].
  destruct input as [|c input]; cbn [ParseShell_loop]; [eauto|]. cbn [length] in Hf.
  destruct ((c =c dquote) || (c =c squote)).
  - pose proof (quoted_part_shorter c _ input (Nat.le_refl _)).
    destruct (quoted_part c input). apply IH. cbn in *. lia.
  - destruct (IsHtmlSpace c) eqn:E; cbn [negb]; [apply IH; lia|].
    cbn [unquoted_part]. rewrite E. pose proof (unquoted_part_shorter input).
    destruct (unquoted_part input). apply IH. cbn in *. lia.
Qed.

Lemma ParseShell_loop_words ws : forall fuel output,
  (length (JoinCollection (map quote_word ws) [" "%char]) < fuel)%nat ->
  ParseShell_loop fuel (JoinCollection (map quote_word ws) [" "%char]) output = Some (output ++ ws).
Proof.
  induction ws as [|w ws IH]; intros [|fuel] output Hf; try lia; [by rewrite app_nil_r|].
  destruct ws as [|w' ws].
  - cbn [map]. rewrite JoinCollection_one. unfold quote_word. cbn [ParseShell_loop].
    rewrite bool_decide_eq_true_2 by done. cbn [orb]. rewrite quoted_part_escape.
    cbn in Hf. rewrite length_app in Hf. destruct fuel; [cbn in Hf; lia|]. done.
  - cbn [map] in *. rewrite JoinCollection_cons in *. set (rest := JoinCollection _ _) in *.
    unfold quote_word at 1. rewrite <- app_comm_cons. cbn [ParseShell_loop].
    rewrite bool_decide_eq_true_2 by done. cbn [orb]. rewrite <- (app_assoc _ [dquote]). cbn [app].
    rewrite quoted_part_escape. rewrite !length_app in Hf. cbn [length quote_word] in Hf.
    rewrite length_app in Hf. cbn [length] in Hf.
    destruct fuel as [|fuel]; [lia|]. cbn [ParseShell_loop].
    rewrite !bool_decide_eq_false_2 by done.
    change (negb (IsHtmlSpace " ")) with false. cbn [orb]. rewrite IH by lia. by rewrite <- app_assoc.
Qed.

(** ** JSON

    A decoder for the body of a JSON string (RFC 8259), to read the escapes
    back: quotes and control characters must be escaped, a [\u] escape denotes
    the UTF-8 encoding of its code point. *)

Definition hex_value (c : ascii) : option Z :=
  if is_digit c then Some (code c - 48)
  else if in_range "a" "f" c then Some (code c - 87)
  else if in_range "A" "F" c then Some (code c - 55)
  else None.

Definition hex4 (a b c d : ascii) : option Z :=
  a ← hex_value a; b ← hex_value b; c ← hex_value c; d ← hex_value d;
  Some (((a * 16 + b) * 16 + c) * 16 + d).

Definition utf8 (u : Z) : bytes :=
  if u <? 128 then [chr u]
  else if u <? 2048 then [chr (192 + u / 64); chr (128 + u mod 64)]
  else [chr (224 + u / 4096); chr (128 + (u / 64) mod 64); chr (128 + u mod 64)].

Definition json_simple_escape (c : ascii) : option ascii :=
  if c =c dquote then Some dquote
  else if c =c backslash then Some backslash
  else if c =c "/"%char then Some "/"%char
  else if c =c "b"%char then Some bs
  else if c =c "f"%char then Some ff
  else if c =c "n"%char then Some nl
  else if c =c "r"%char then Some cr
  else if c =c "t"%char then Some tab
  else None.

Fixpoint json_decode (s : bytes) : option bytes :=
  match s with
  | [] => Some []
  | c :: s' =>
      if c =c backslash then
        match s' with
        | [] => None
        | e :: s'' =>
            if e =c "u"%char then
              match s'' with
              | h1 :: h2 :: h3 :: h4 :: s3 =>
                  u ← hex4 h1 h2 h3 h4; r ← json_decode s3; Some (utf8 u ++ r)
              | _ => None
              end
            else x ← json_simple_escape e; r ← json_decode s''; Some (x :: r)
        end
      else if (c =c dquote) || (code c <? 32) then None
      else r ← json_decode s'; Some (c :: r)
  end.

(** What may appear in the output: no markup character, no control byte. *)
Definition json_safe (c : ascii) : bool :=
  (32 <=? code c) && negb (c =c "<"%char) && negb (c =c ">"%char) && negb (c =c "&"%char).

(** The three-byte line separators. *)
Definition line_separator (c c1 c2 : ascii) : bool :=
  (code c =? 226) && (code c1 =? 128) && ((code c2 =? 168) || (code c2 =? 169)).

(** Facts about single characters, by running through all of them. *)
Lemma all_ascii (P : ascii -> bool) :
  forallb (fun n => P (ascii_of_nat n)) (seq 0 256) = true -> forall c, P c = true.
Proof.
  intros H c. rewrite forallb_forall in H. rewrite <- (ascii_nat_embedding c). apply H.
  apply in_seq. pose proof (nat_ascii_bounded c). lia.
Qed.

(** The three shapes of an escaped character. *)
Definition json_shape (c : ascii) : bool :=
  match JsonEscape_char c with
  | [d] => (d =c c) && negb (c =c backslash) && negb (c =c dquote) && negb (code c <? 32)
  | [b; e] => (b =c backslash) && negb (e =c "u"%char) && bool_decide (json_simple_escape e = Some c)
  | [b; e; h1; h2; h3; h4] =>
      (b =c backslash) && (e =c "u"%char) && bool_decide (utf8 <$> hex4 h1 h2 h3 h4 = Some [c])
  | _ => false
  end.

Lemma JsonEscape_char_decode c r :
  json_decode (JsonEscape_char c ++ r) = (fun r => c :: r) <$> json_decode r.
Proof.
  pose proof (all_ascii json_shape ltac:(by vm_compute) c) as Hc. unfold json_shape in Hc.
  destruct (JsonEscape_char c) as [|b [|e [|h1 [|h2 [|h3 [|h4 []]]]]]]; try done;
    rewrite !andb_true_iff, ?negb_true_iff, ?bool_decide_eq_true, ?bool_decide_eq_false in Hc.
  - destruct Hc as [[[-> Hb] Hq] Hl]. cbn [app json_decode].
    rewrite !bool_decide_eq_false_2 by done. cbn [orb]. rewrite Hl. by destruct (json_decode r).
  - destruct Hc as [[-> He] Hs]. cbn [app json_decode]. rewrite bool_decide_eq_true_2 by done.
    rewrite bool_decide_eq_false_2 by done. rewrite Hs. by destruct (json_decode r).
  - destruct Hc as [[-> ->] Hu]. cbn [app json_decode]. rewrite !bool_decide_eq_true_2 by done.
    destruct (hex4 h1 h2 h3 h4) as [u|]; [|done]. injection Hu as Hu. cbn [mbind option_bind].
    rewrite Hu. by destruct (json_decode r).
Qed.

Lemma JsonEscape_char_safe c : forallb json_safe (JsonEscape_char c) = true.
Proof. revert c. apply all_ascii. by vm_compute. Qed.

(** The two ways the escaper consumes its input. *)
Lemma JsonEscape_ind (P : bytes -> bytes -> Prop) :
  P [] [] ->
  (forall c s, (forall c1 c2 s', s = c1 :: c2 :: s' -> line_separator c c1 c2 = false) ->
     P s (JsonEscape s) -> P (c :: s) (JsonEscape_char c ++ JsonEscape s)) ->
  (forall c c1 c2 s, line_separator c c1 c2 = true -> P s (JsonEscape s) ->
     P (c :: c1 :: c2 :: s)
       ((if code c2 =? 168 then u_escape 8232 else u_escape 8233) ++ JsonEscape s)) ->
  forall s, P s (JsonEscape s).
Proof.
  intros H0 H1 H3 s. remember (length s) as n eqn:Hn. revert s Hn.
  induction n as [n IH] using lt_wf_ind. intros [|c [|c1 [|c2 s]]] ->.
  - exact H0.
  - apply H1; [done|exact H0].
  - apply H1; [by intros ? ? ? [=]|]. apply (IH 1%nat); cbn; [lia|done].
  - cbn [JsonEscape]. fold (line_separator c c1 c2). destruct (line_separator c c1 c2) eqn:E.
    + apply H3; [done|]. apply (IH (length s)); cbn; [lia|done].
    + apply H1; [by intros ? ? ? [= <- <- _]|].
      apply (IH (length (c1 :: c2 :: s))); [cbn; lia|done].
Qed.

Lemma line_separator_cases c c1 c2 :
  line_separator c c1 c2 = true ->
  c = chr 226 /\ c1 = chr 128 /\ ((c2 = chr 168 /\ (code c2 =? 168) = true) \/ (c2 = chr 169 /\ (code c2 =? 168) = false)).
Proof.
  unfold line_separator. rewrite !andb_true_iff, orb_true_iff, !Z.eqb_eq. intros [[Hc Hc1] Hc2].
  split; [by rewrite <- (chr_code c), Hc|]. split; [by rewrite <- (chr_code c1), Hc1|].
  destruct Hc2 as [Hc2|Hc2]; rewrite <- (chr_code c2), Hc2; [left|right]; by split.
Qed.

Lemma JsonEscape_decode s : json_decode (JsonEscape s) = Some s.
Proof.
  apply JsonEscape_ind; clear s; [done| |].
  - intros c s _ IH. by rewrite JsonEscape_char_decode, IH.
  - intros c c1 c2 s (-> & -> & [[-> ->]|[-> ->]])%line_separator_cases IH; cbn; by rewrite IH.
Qed.

Lemma JsonEscape_safe s : forallb json_safe (JsonEscape s) = true.
Proof.
  apply (JsonEscape_ind (fun _ o => forallb json_safe o = true)); clear s; [done| |].
  - intros c s _ IH. by rewrite forallb_app, JsonEscape_char_safe, IH.
  - intros c c1 c2 s _ IH. rewrite forallb_app, IH. by destruct (_ =? _).
Qed.

Lemma JsonEscape_char_high c : 128 <= code c -> JsonEscape_char c = [c].
Proof.
  intros Hc. pose proof (all_ascii (fun c => (code c <? 128) || bool_decide (JsonEscape_char c = [c]))
    ltac:(by vm_compute) c) as H. cbn beta in H. rewrite (proj2 (Z.ltb_ge _ _)) in H by done.
  by apply bool_decide_eq_true in H.
Qed.

Lemma JsonEscape_char_cons c : exists d r, JsonEscape_char c = d :: r /\ (128 <= code d -> c = d).
Proof.
  destruct (Z.lt_ge_cases (code c) 128) as [H|H].
  - pose proof (all_ascii (fun c => (128 <=? code c) ||
      match JsonEscape_char c with [] => false | d :: _ => code d <? 128 end) ltac:(by vm_compute) c) as Hc.
    cbn beta in Hc. rewrite (proj2 (Z.leb_gt _ _)) in Hc by done. cbn in Hc.
    destruct (JsonEscape_char c) as [|d r]; [done|]. apply Z.ltb_lt in Hc. exists d, r. split; [done|lia].
  - rewrite JsonEscape_char_high by done. by exists c, [].
Qed.

(** A byte above 127 at the head of the output is a byte of the input. *)
Lemma JsonEscape_high_head s c r :
  JsonEscape s = c :: r -> 128 <= code c -> exists s', s = c :: s' /\ r = JsonEscape s'.
Proof.
  revert c r. apply (JsonEscape_ind (fun s o => forall c r, o = c :: r -> 128 <= code c ->
    exists s', s = c :: s' /\ r = JsonEscape s')); clear s; [done| |].
  - intros c s _ _ d r Heq Hd. destruct (JsonEscape_char_cons c) as (d' & r' & Hc & Hh).
    rewrite Hc in Heq. injection Heq as -> Heq. rewrite (Hh Hd) in *.
    rewrite JsonEscape_char_high in Hc by done. injection Hc as <-. by exists s.
  - intros c c1 c2 s _ _ d r Heq Hd. destruct (_ =? _); injection Heq as <- _; by vm_compute in Hd.
Qed.

(** A separator in [pre ++ o], where [pre] is ASCII or a single byte, lies in
    [o] or starts with that byte. *)
Lemma separator_in_app pre o : forall a c2 b,
  (forall x, x ∈ pre -> code x < 128 \/ pre = [x]) ->
  pre ++ o = a ++ chr 226 :: chr 128 :: c2 :: b ->
  (exists a', o = a' ++ chr 226 :: chr 128 :: c2 :: b) \/
  (pre = [chr 226] /\ o = chr 128 :: c2 :: b).
Proof.
  induction pre as [|x pre IHp]; intros a c2 b Hpre Heq; [left; by exists a|].
  destruct a as [|y a]; cbn in Heq; injection Heq as -> Heq.
  - destruct (Hpre (chr 226) ltac:(left)) as [H|H]; [by vm_compute in H|].
    injection H as ->. by right.
  - destruct pre as [|z pre]; [left; by exists a|].
    destruct (IHp a c2 b) as [H|[H1 H2]]; [|done|by left|].
    + intros x' Hx'. by destruct (Hpre x' ltac:(by right)) as [H|H]; [left|].
    + injection H1 as -> ->. by destruct (Hpre (chr 226) ltac:(right; left)) as [H|H]; [vm_compute in H|].
Qed.

Lemma JsonEscape_no_separator s : forall a c c1 c2 b,
  JsonEscape s = a ++ c :: c1 :: c2 :: b -> line_separator c c1 c2 = false.
Proof.
  apply (JsonEscape_ind (fun _ o => forall a c c1 c2 b,
    o = a ++ c :: c1 :: c2 :: b -> line_separator c c1 c2 = false)); clear s.
  - intros [] *; done.
  - intros d s Hd IH a c c1 c2 b Heq. destruct (line_separator c c1 c2) eqn:E; [|done].
    pose proof (line_separator_cases _ _ _ E) as (-> & -> & Hc2).
    destruct (separator_in_app (JsonEscape_char d) (JsonEscape s) a c2 b) as [[a' Ha']|[Hpre Hr]]; [|done|by rewrite (IH _ _ _ _ _ Ha') in E|].
    + intros x Hx. destruct (Z.lt_ge_cases (code d) 128) as [H|H].
      * left. pose proof (all_ascii (fun d => (128 <=? code d) || forallb (fun x => code x <? 128) (JsonEscape_char d))
          ltac:(by vm_compute) d) as Hall. cbn beta in Hall.
        rewrite (proj2 (Z.leb_gt _ _)) in Hall by done. cbn in Hall. rewrite forallb_forall in Hall.
        apply Z.ltb_lt, Hall. by apply list_elem_of_In.
      * right. rewrite JsonEscape_char_high in * by done. apply list_elem_of_singleton in Hx. by subst.
    + assert (Hd' : d = chr 226).
      { destruct (JsonEscape_char_cons d) as (d' & r' & Hc & Hh). rewrite Hpre in Hc.
        injection Hc as <- _. by apply Hh. }
      subst d. apply JsonEscape_high_head in Hr as (s' & -> & Hr); [|by vm_compute].
      symmetry in Hr. apply JsonEscape_high_head in Hr as (s'' & -> & _);
        [|destruct Hc2 as [[-> _]|[-> _]]; by vm_compute].
      by rewrite (Hd _ _ _ eq_refl) in E.
  - intros d d1 d2 s _ IH a c c1 c2 b Heq. destruct (line_separator c c1 c2) eqn:E; [|done].
    pose proof (line_separator_cases _ _ _ E) as (-> & _ & _). exfalso.
    assert (exists pre, pre ++ JsonEscape s = a ++ chr 226 :: c1 :: c2 :: b /\ Forall (fun x => code x < 128) pre)
      as (pre & Hp & Hlow).
    { destruct (code d2 =? 168); eexists; (split; [exact Heq|repeat constructor; by vm_compute]). }
    clear Heq. revert a Hp. induction Hlow as [|x pre Hx _ IHp]; intros a Hp.
    + by rewrite (IH _ _ _ _ _ Hp) in E.
    + destruct a as [|y a]; cbn in Hp; injection Hp as -> Hp; [by vm_compute in Hx|by apply (IHp a)].
Qed.

(** ** Properties *)

(** Splitting at one separator and joining are inverse: joining the pieces
    of a string gives the string back, no piece contains the separator, and
    splitting a join of separator-free pieces gives the pieces back; with
    [omit_empty_strings] exactly the empty pieces are dropped. The loop ends
    and the wrapped length of the last piece selects all that is left, up to
    [2 ^ 31] bytes: a longer last piece is cut short, as the length goes through
    32 bits. *)
Lemma split_join_roundtrip (c : ascii) :
  (forall s, Z.of_nat (length s) <= 2 ^ 31 ->
     exists ps, SplitStringPieceToVector s [c] [] false = Some ps /\
       JoinCollection ps [c] = s /\ Forall (fun p => c ∉ p) ps /\
       SplitStringPieceToVector s [c] [] true = Some (filter (fun p => p <> []) ps)) /\
  (forall ps, ps <> [] -> Forall (fun p => c ∉ p) ps ->
     Z.of_nat (length (JoinCollection ps [c])) <= 2 ^ 31 ->
     SplitStringPieceToVector (JoinCollection ps [c]) [c] [] false = Some ps) /\
  (forall s, c ∉ s -> 2 ^ 31 < Z.of_nat (length s) < 2 ^ 32 ->
     SplitStringPieceToVector s [c] [] false = Some [take (Z.to_nat (2 ^ 32 - Z.of_nat (length s))) s]).
Proof.
  split; [|split].
  - intros s Hs. exists (pieces (one_of [c]) s). rewrite !Split_pieces by done.
    split; [done|]. split; [apply Join_pieces|]. split; [|done].
    eapply Forall_impl; [apply pieces_no_sep|]. intros p Hp Hin. rewrite Forall_forall in Hp.
    specialize (Hp c Hin). rewrite one_of_single in Hp. by apply bool_decide_eq_false in Hp.
  - intros ps Hne Hps Hl. rewrite Split_pieces by done. by rewrite pieces_Join.
  - intros s Hc Hs. by apply Split_truncates.
Qed.

(** [GlobalReplaceSubstring] of a non-empty substring ends and replaces
    its leftmost non-overlapping occurrences, all of them and nothing else,
    returning their number; of an empty substring in a non-empty string it
    never ends, whatever the fuel. *)
Lemma GlobalReplaceSubstring_correct (sub rep s : bytes) :
  (sub <> [] ->
   exists n s', GlobalReplaceSubstring sub rep s = Some (n, s') /\ replaced sub rep s n s') /\
  (sub = [] -> s <> [] -> forall fuel, GlobalReplaceSubstring_fuel fuel sub rep s = None).
Proof.
  split; [apply GlobalReplaceSubstring_ok|]. intros -> Hs fuel.
  destruct s as [|c s]; [done|]. apply GlobalReplace_loop_stuck. cbn. lia.
Qed.

(** [ConstantTimeCompare] answers [true] exactly on equal strings: no
    difference of bytes or of lengths, multiples of 256 included, cancels
    out in the accumulated byte. *)
Lemma ConstantTimeCompare_correct (a b : bytes) :
  Z.of_nat (length a) < 2 ^ 64 -> Z.of_nat (length b) < 2 ^ 64 ->
  ConstantTimeCompare a b = true <-> a = b.
Proof.
  intros Ha Hb. unfold ConstantTimeCompare. rewrite Z.eqb_eq, fold_size_diff_0, Z.lxor_eq_0_iff.
  - split.
    + intros [Hr Hl]. by apply ConstantTime_loop_0 in Hr as [_ ->]; [|lia].
    + intros ->. split; [|done]. by apply ConstantTime_loop_0.
  - split; [apply Z.lxor_nonneg; lia|].
    destruct (decide (Z.lxor (Z.of_nat (length a)) (Z.of_nat (length b)) = 0)) as [->|Hne]; [lia|].
    apply Z.log2_lt_pow2; [pose proof (proj2 (Z.lxor_nonneg (Z.of_nat (length a)) (Z.of_nat (length b)))); lia|].
    pose proof (Z.log2_lxor (Z.of_nat (length a)) (Z.of_nat (length b)) ltac:(lia) ltac:(lia)) as Hl.
    assert (Hlog : forall z, 0 <= z < 2 ^ 64 -> Z.log2 z < 64).
    { intros z Hz. destruct (decide (z = 0)) as [->|]; [done|]. apply Z.log2_lt_pow2; lia. }
    pose proof (Hlog (Z.of_nat (length a)) ltac:(lia)). pose proof (Hlog (Z.of_nat (length b)) ltac:(lia)). lia.
Qed.

(** [StringCaseCompare] is a total order up to ASCII case, consistent with
    [StringCaseEqual]: zero exactly on strings equal up to case, antisymmetric
    and transitive, as [StringSetInsensitive] needs of its comparator. *)
Lemma StringCaseCompare_order (s1 s2 s3 : bytes) :
  (StringCaseCompare s1 s2 = 0 <-> StringCaseEqual s1 s2 = true) /\
  StringCaseCompare s2 s1 = - StringCaseCompare s1 s2 /\
  (StringCaseCompare s1 s2 < 0 -> StringCaseCompare s2 s3 <= 0 -> StringCaseCompare s1 s3 < 0) /\
  (StringCaseEqual s1 s2 = true <-> UpperString s1 = UpperString s2).
Proof.
  rewrite StringCaseCompare_0, StringCaseEqual_Upper. split; [done|].
  split; [apply StringCaseCompare_sym|]. split; [apply StringCaseCompare_trans|done].
Qed.

(** C27: [JsonEscape] round-trips every byte string through a JSON string
    decoder, and its output contains no control byte, no [<], [>] or [&], and
    no U+2028 or U+2029 sequence, even one put together from neighbours. *)
Theorem JsonEscape_roundtrip (s : bytes) :
  json_decode (JsonEscape s) = Some s /\ forallb json_safe (JsonEscape s) = true /\
  forall a c c1 c2 b, JsonEscape s = a ++ c :: c1 :: c2 :: b -> line_separator c c1 c2 = false.
Proof.
  split; [apply JsonEscape_decode|]. split; [apply JsonEscape_safe|]. apply JsonEscape_no_separator.
Qed.

(** [ParseShellLikeString] ends on every input, and reads back every list
    of words, empty ones included, written in double quotes with quotes and
    backslashes escaped by [BackslashEscape] and separated by spaces. *)
Lemma ParseShell_roundtrip :
  (forall input, exists words, ParseShellLikeString input = Some words) /\
  (forall ws, ParseShellLikeString (JoinCollection (map quote_word ws) [" "%char]) = Some ws).
Proof.
  split.
  - intros input. apply ParseShell_loop_total. lia.
  - intros ws. unfold ParseShellLikeString. rewrite ParseShell_loop_words by lia. done.
Qed.

(** *** Witnesses *)

