(* ===== verification/ContentType.v ===== *)
(** * Content types

    src/pagespeed/kernel/http/content_type.{h,cc}: the table of MIME types and
    file extensions, its lookups, the classification of types and the parser
    of Content-Type headers. *)

From S2P Require Import Prelude StringUtil.

Inductive Type_ :=
| kHtml | kXhtml | kCeHtml | kJavascript | kCss | kText | kXml | kPng | kGif | kJpeg | kSwf
| kWebp | kAvif | kIco | kJson | kSourceMap | kPdf | kVideo | kAudio | kOctetStream | kOther.

#[export] Instance Type_eq_dec : EqDecision Type_.
Proof. solve_decision. Defined.

Record ContentType := mkContentType {
  mime_type_ : bytes;
  file_extension_ : bytes;
  type_ : Type_
}.

#[export] Instance ContentType_eq_dec : EqDecision ContentType.
Proof. solve_decision. Defined.

Definition row (mime ext : string) (t : Type_) : ContentType := mkContentType (lit mime) (lit ext) t.

Definition kTypes : list ContentType :=
  [
   row "text/html" ".html" kHtml;
   row "application/xhtml+xml" ".xhtml" kXhtml;
   row "application/ce-html+xml" ".xhtml" kCeHtml;
   row "application/javascript" ".js" kJavascript;
   row "text/css" ".css" kCss;
   row "text/plain" ".txt" kText;
   row "text/xml" ".xml" kXml;
   row "image/png" ".png" kPng;
   row "image/gif" ".gif" kGif;
   row "image/jpeg" ".jpg" kJpeg;
   row "application/x-shockwave-flash" ".swf" kSwf;
   row "image/webp" ".webp" kWebp;
   row "image/x-icon" ".ico" kIco;
   row "application/json" ".json" kJson;
   row "application/javascript" ".map" kSourceMap;
   row "application/pdf" ".pdf" kPdf;
   row "application/octet-stream" ".bin" kOctetStream;
   row "image/svg+xml" ".svg" kXml;
   row "image/avif" ".avif" kAvif;
   row "application/x-javascript" ".js" kJavascript;
   row "text/javascript" ".js" kJavascript;
   row "text/x-javascript" ".js" kJavascript;
   row "text/ecmascript" ".js" kJavascript;
   row "text/js" ".js" kJavascript;
   row "text/jscript" ".js" kJavascript;
   row "text/x-js" ".js" kJavascript;
   row "application/ecmascript" ".js" kJavascript;
   row "application/json" ".json" kJson;
   row "application/x-json" ".json" kJson;
   row "image/jpeg" ".jpeg" kJpeg;
   row "image/jpg" ".jpg" kJpeg;
   row "image/vnd.microsoft.icon" ".ico" kIco;
   row "text/html" ".htm" kHtml;
   row "application/xml" ".xml" kXml;
   row "video/mpeg" ".mpg" kVideo;
   row "video/mp4" ".mp4" kVideo;
   row "video/3gp" ".3gp" kVideo;
   row "video/x-flv" ".flv" kVideo;
   row "video/ogg" ".ogg" kVideo;
   row "video/webm" ".webm" kVideo;
   row "video/x-ms-asf" ".asf" kVideo;
   row "video/x-ms-wmv" ".wmv" kVideo;
   row "video/quicktime" ".mov" kVideo;
   row "video/mpeg4" ".mp4" kVideo;
   row "audio/mpeg" ".mp3" kAudio;
   row "audio/ogg" ".ogg" kAudio;
   row "audio/webm" ".webm" kAudio;
   row "audio/mp4" ".mp4" kAudio;
   row "audio/x-mpeg" ".mp3" kAudio;
   row "audio/x-wav" ".wav" kAudio;
   row "audio/mp3" ".mp3" kAudio;
   row "audio/wav" ".wav" kAudio;
   row "binary/octet-stream" ".bin" kOctetStream
  ].

Definition IsCss (c : ContentType) : bool := bool_decide (type_ c = kCss).
Definition IsJsLike (c : ContentType) : bool :=
  match type_ c with kJavascript | kJson => true | _ => false end.
Definition IsHtmlLike (c : ContentType) : bool :=
  match type_ c with kHtml | kXhtml | kCeHtml => true | _ => false end.
Definition IsXmlLike (c : ContentType) : bool :=
  match type_ c with kXhtml | kXml => true | _ => false end.
Definition IsFlash (c : ContentType) : bool := match type_ c with kSwf => true | _ => false end.
Definition IsSvg (c : ContentType) : bool :=
  bool_decide (type_ c = kXml) && bool_decide (mime_type_ c = lit "image/svg+xml").
Definition IsImage (c : ContentType) : bool :=
  match type_ c with kPng | kGif | kJpeg | kWebp | kAvif => true | _ => false end.
Definition IsVideo (c : ContentType) : bool := bool_decide (type_ c = kVideo).
Definition IsAudio (c : ContentType) : bool := bool_decide (type_ c = kAudio).
Definition IsCompressible (c : ContentType) : bool :=
  IsXmlLike c || IsHtmlLike c || IsJsLike c || IsCss c || bool_decide (type_ c = kText).
Definition IsLikelyStaticResource (c : ContentType) : bool :=
  match type_ c with
  | kCeHtml | kHtml | kJson | kSourceMap | kOctetStream | kOther | kText | kXhtml | kXml => false
  | kCss | kGif | kIco | kJavascript | kJpeg | kPdf | kPng | kSwf | kVideo | kAudio | kWebp | kAvif => true
  end.

(** [rfind(c)] *)
Fixpoint rfind (s : bytes) (c : ascii) : option nat :=
  match s with
  | [] => None
  | d :: s' =>
      match rfind s' c with
      | Some n => Some (S n)
      | None => if d =c c then Some O else None
      end
  end.

(** The first row of the table that satisfies the test. *)
Definition first_type (f : ContentType -> bool) : option ContentType := List.find f kTypes.

Definition NameExtensionToContentType (name : bytes) : option ContentType :=
  match rfind name "." with
  | Some ext_pos =>
      let ext := drop ext_pos name in
      first_type (fun kType => StringCaseEqual ext (file_extension_ kType))
  | None => None
  end.

Definition MimeTypeToContentType (mime_type : bytes) : option ContentType :=
  let stripped_mime_type :=
    match memchr mime_type ";" with
    | None => mime_type
    | Some semi_colon => take semi_colon mime_type
    end in
  first_type (fun kType => StringCaseEqual stripped_mime_type (mime_type_ kType)).

(** The loop over the parameters of a Content-Type header. *)
Fixpoint charset_loop (semi_split : list bytes) : option bytes :=
  match semi_split with
  | [] => Some []
  | param :: semi_split' =>
      eq_split ← SplitStringPieceToVector param (lit "=") [] false;
      match eq_split with
      | [name; value] =>
          if StringCaseEqual (TrimWhitespace name).2 (lit "charset")
          then Some (TrimWhitespace value).2
          else charset_loop semi_split'
      | _ => charset_loop semi_split'
      end
  end.

(** The result, [*mime_type] and [*charset]. *)
Definition ParseContentType (content_type : bytes) : option (bool * bytes * bytes) :=
  match content_type with
  | [] => Some (false, [], [])
  | _ =>
      semi_split ← SplitStringPieceToVector content_type (lit ";") [] false;
      match semi_split with
      | [] => Some (false, [], [])
      | mime_type :: params =>
          charset ← charset_loop params;
          Some (negb (bool_decide (mime_type = [])) || negb (bool_decide (charset = [])), mime_type, charset)
      end
  end.

(** The set of content types, without duplicates and in the order found. *)
Fixpoint mime_list_loop (strings : list bytes) (out : list ContentType) : list ContentType :=
  match strings with
  | [] => out
  | s :: strings' =>
      match (TrimWhitespace s).2 with
      | [] => mime_list_loop strings' out
      | trimmed =>
          match MimeTypeToContentType trimmed with
          | None => mime_list_loop strings' out
          | Some ct => mime_list_loop strings' (if bool_decide (ct ∈ out) then out else out ++ [ct])
          end
      end
  end.
Definition MimeTypeListToContentTypeSet (in_ : bytes) : option (list ContentType) :=
  match in_ with
  | [] => Some []
  | _ =>
      strings ← SplitStringPieceToVector in_ (lit ",") [] true;
      Some (mime_list_loop strings [])
  end.

(** ** Lemmas *)

Lemma rfind_spec s c :
  match rfind s c with
  | Some n => exists a b, s = a ++ c :: b /\ length a = n /\ c ∉ b
  | None => c ∉ s
  end.
Proof.
  induction s as [|d s IH]; cbn; [apply not_elem_of_nil|]. destruct (rfind s c) as [n|].
  - destruct IH as (a & b & -> & <- & Hb). by exists (d :: a), b.
  - case_bool_decide as Hd.
    + subst. by exists [], s.
    + rewrite not_elem_of_cons. by split; [congruence|].
Qed.

Lemma rfind_last a b c : c ∉ b -> rfind (a ++ c :: b) c = Some (length a).
Proof.
  intros Hb. pose proof (rfind_spec (a ++ c :: b) c) as H. destruct (rfind _ c) as [n|].
  - destruct H as (a' & b' & Heq & <- & Hb'). f_equal.
    destruct (decide (length a' = length a)) as [->|Hne]; [done|exfalso].
    destruct (Nat.lt_ge_cases (length a) (length a')) as [Hlt|Hge].
    + assert (Hin : c ∈ b).
      { apply (f_equal (drop (S (length a)))) in Heq. rewrite (cons_middle c a b), app_assoc in Heq.
        rewrite drop_app_length' in Heq by (rewrite length_app; cbn; lia). rewrite Heq.
        rewrite drop_app_le by lia. apply elem_of_app. right. left. }
      done.
    + assert (Hin : c ∈ b').
      { symmetry in Heq. apply (f_equal (drop (S (length a')))) in Heq.
        rewrite (cons_middle c a' b'), app_assoc in Heq.
        rewrite drop_app_length' in Heq by (rewrite length_app; cbn; lia). rewrite Heq.
        rewrite drop_app_le by lia. apply elem_of_app. right. left. }
      done.
  - destruct H. apply elem_of_app. right. left.
Qed.

Lemma StringCaseEqual_congr_l a a' b :
  UpperString a = UpperString a' -> StringCaseEqual a b = StringCaseEqual a' b.
Proof.
  intros H. apply eq_true_iff_eq. rewrite !StringCaseEqual_Upper. by rewrite H.
Qed.

Lemma first_type_ext f g : (forall c, f c = g c) -> first_type f = first_type g.
Proof.
  intros H. unfold first_type. induction kTypes as [|c l IH]; cbn; [done|]. by rewrite H, IH.
Qed.

Lemma charset_trim cs :
  head cs <> None -> IsHtmlSpace (default "x"%char (head cs)) = false ->
  IsHtmlSpace (default "x"%char (last cs)) = false -> (TrimWhitespace cs).2 = cs.
Proof.
  destruct cs as [|c cs]; [done|]. intros _ Hh Hl. cbn in Hh. unfold TrimWhitespace.
  cbn [TrimLeadingWhitespace]. rewrite Hh. unfold TrimTrailingWhitespace. cbn [length rightmost_loop].
  assert (Hlook : (c :: cs) !! length cs = last (c :: cs)).
  { rewrite last_lookup. done. }
  rewrite Hlook. destruct (last (c :: cs)) as [d|] eqn:E; [|by destruct (last_None (c :: cs)) as [H _]; specialize (H E)].
  cbn in Hl. rewrite Hl. by rewrite bool_decide_eq_true_2.
Qed.

Lemma UpperChar_idem c : UpperChar (UpperChar c) = UpperChar c.
Proof.
  pose proof (all_ascii (fun c => bool_decide (UpperChar (UpperChar c) = UpperChar c)) ltac:(by vm_compute) c) as H.
  by apply bool_decide_eq_true in H.
Qed.

Lemma UpperString_idem s : UpperString (UpperString s) = UpperString s.
Proof. unfold UpperString. rewrite map_map. apply map_ext. intros c. apply UpperChar_idem. Qed.

Lemma UpperChar_not_dot c : c <> "."%char -> UpperChar c <> "."%char.
Proof.
  intros Hc. pose proof (all_ascii (fun c => bool_decide (c = "."%char) || negb (bool_decide (UpperChar c = "."%char)))
    ltac:(by vm_compute) c) as H. cbn beta in H. rewrite bool_decide_eq_false_2 in H by done.
  cbn in H. by apply negb_true_iff, bool_decide_eq_false in H.
Qed.

Lemma UpperString_no_dot s : "."%char ∉ s -> "."%char ∉ UpperString s.
Proof.
  induction s as [|c s IH]; cbn; [done|]. rewrite !not_elem_of_cons. intros [Hc Hs].
  split; [|by apply IH]. intros H. symmetry in H. by apply UpperChar_not_dot in H.
Qed.

Lemma pieces_single a c : c ∉ a -> pieces (one_of [c]) a = [a].
Proof.
  intros Ha. pose proof (pieces_app (one_of [c]) a []) as H. rewrite app_nil_r in H. rewrite H.
  - cbn. by rewrite app_nil_r.
  - apply Forall_forall. intros d Hd. rewrite one_of_single. apply bool_decide_eq_false. by intros ->.
Qed.

Lemma pieces_two a b c : c ∉ a -> c ∉ b -> pieces (one_of [c]) (a ++ c :: b) = [a; b].
Proof.
  intros Ha Hb. rewrite pieces_app.
  - cbn [pieces]. rewrite one_of_single, bool_decide_eq_true_2, pieces_single by done. by rewrite app_nil_r.
  - apply Forall_forall. intros d Hd. rewrite one_of_single. apply bool_decide_eq_false. by intros ->.
Qed.

(** ** Properties *)

(** The file-extension lookup looks only at what follows the last dot,
    up to case. *)
Lemma NameExtension_last_dot (a e : bytes) :
  "."%char ∉ e ->
  NameExtensionToContentType (a ++ "."%char :: e) = NameExtensionToContentType ("."%char :: UpperString e).
Proof.
  intros He. unfold NameExtensionToContentType. rewrite rfind_last by done.
  change ("."%char :: UpperString e) with ([] ++ "."%char :: UpperString e).
  rewrite (rfind_last [] (UpperString e)) by by apply UpperString_no_dot.
  rewrite drop_app_length. cbn [drop app length]. apply first_type_ext. intros c. apply StringCaseEqual_congr_l.
  cbn [UpperString map]. fold (UpperString e) (UpperString (UpperString e)). by rewrite UpperString_idem.
Qed.

(** A Content-Type header [mime; charset=cs] is parsed into its two parts,
    and the MIME lookup of the whole header is that of its MIME type. *)
Lemma ParseContentType_roundtrip (mime cs : bytes) :
  mime <> [] -> ";"%char ∉ mime -> ";"%char ∉ cs -> "="%char ∉ cs ->
  head cs <> None -> IsHtmlSpace (default "x"%char (head cs)) = false ->
  IsHtmlSpace (default "x"%char (last cs)) = false ->
  Z.of_nat (length mime) + Z.of_nat (length cs) + 10 <= 2 ^ 31 ->
  ParseContentType (mime ++ lit "; charset=" ++ cs) = Some (true, mime, cs) /\
  MimeTypeToContentType (mime ++ lit "; charset=" ++ cs) = MimeTypeToContentType mime.
Proof.
  intros Hne Hm Hc He Hh1 Hh2 Hl Hlen. split.
  - unfold ParseContentType. destruct (mime ++ _) as [|x l] eqn:E; [by destruct mime|]. rewrite <- E. clear E x l.
    rewrite Split_pieces by (rewrite !length_app; cbn [length lit]; cbn; lia).
    change (lit "; charset=" ++ cs) with (";"%char :: lit " charset=" ++ cs).
    change (lit ";") with [";"%char]. rewrite pieces_two.
    2:{ done. }
    2:{ rewrite not_elem_of_app. split; [by apply (bool_decide_unpack _); vm_compute|done]. }
    cbn [mbind option_bind app non_empty charset_loop].
    change (lit "=") with ["="%char].
    rewrite Split_pieces by (rewrite length_app; cbn; lia).
    change (lit " charset=" ++ cs) with (lit " charset" ++ "="%char :: cs).
    rewrite pieces_two; [|by apply (bool_decide_unpack _); vm_compute|done].
    cbn [mbind option_bind app non_empty]. change (StringCaseEqual (TrimWhitespace (lit " charset")).2 (lit "charset")) with true.
    rewrite charset_trim by done. cbn [mbind option_bind]. by rewrite bool_decide_eq_false_2 by done.
  - unfold MimeTypeToContentType. change (lit "; charset=" ++ cs) with (";"%char :: lit " charset=" ++ cs).
    assert (Hmem : memchr (mime ++ ";"%char :: lit " charset=" ++ cs) ";" = Some (length mime)).
    { clear -Hm. induction mime as [|d mime IH]; cbn; [done|].
      rewrite not_elem_of_cons in Hm. rewrite bool_decide_eq_false_2 by naive_solver.
      cbn in IH. rewrite IH by tauto. done. }
    rewrite Hmem, take_app_length. by rewrite (proj2 (memchr_None mime ";"%char) Hm).
Qed.

(** *** Witnesses *)

