(* ===== verification/UrlCodec.v ===== *)
(** * Encoding URLs into URL segments

    - src/pagespeed/kernel/util/url_escaper.cc: [EncodeToUrlSegment] and
      [DecodeFromUrlSegment], the escape with [,] used for rewritten resources;
    - src/pagespeed/kernel/util/url_segment_encoder.cc and
      url_multipart_encoder.cc: the encoders of one and of several URLs;
    - src/pagespeed/kernel/base/string_convert.cc: digits.

    Characters are tested as in the C locale; a byte above 127 is not
    alphanumeric. The decoders return their result and what they append to the
    output, also when they fail. *)

From S2P Require Import Prelude StringUtil.

(** ** Digits *)

Definition unicode_clamp (value : Z) : Z := if 1114112 <? value then 1114112 else value.

Definition AccumulateDecimalValue (c : ascii) (value : Z) : option Z :=
  if is_digit c then Some (unicode_clamp (u32 (u32 (value * 10) + (code c - 48)))) else None.

Definition AccumulateHexValue (c : ascii) (value : Z) : option Z :=
  let accumulate digit := Some (unicode_clamp (u32 (u32 (value * 16) + digit))) in
  if is_digit c then accumulate (code c - 48)
  else if in_range "a" "f" c then accumulate (10 + code c - 97)
  else if in_range "A" "F" c then accumulate (10 + code c - 65)
  else None.

(** ** UrlEscaper *)

Definition kPassThroughChars : bytes := lit "._=+-".

(** [isalnum(c) || strchr(kPassThroughChars, c)]: [strchr] also finds the
    terminating NUL. *)
Definition pass_through (c : ascii) : bool :=
  is_alnum c || bool_decide (c ∈ kPassThroughChars) || (code c =? 0).

Definition upper_hex_digit (d : Z) : ascii := if d <? 10 then chr (48 + d) else chr (55 + d).
(** [",%02X"] *)
Definition hex_escape (c : ascii) : bytes :=
  [","%char; upper_hex_digit (code c / 16); upper_hex_digit (code c mod 16)].

(** What one character contributes and the input left, the [switch]. *)
Definition encode_step (c : ascii) (src : bytes) : bytes * bytes :=
  if c =c "^"%char then (lit ",u", src)
  else if c =c "%"%char then (lit ",P", src)
  else if c =c "/"%char then (lit ",_", src)
  else if c =c backslash then (lit ",-", src)
  else if c =c ","%char then (lit ",,", src)
  else if c =c "?"%char then (lit ",q", src)
  else if c =c "&"%char then (lit ",a", src)
  else if c =c "h"%char then
    if StartsWith src (lit "ttp://") then (lit ",h", drop 6 src) else ([c], src)
  else if c =c "."%char then
    if StartsWith src (lit "pagespeed.") then (lit ",M", drop 10 src) else ([c], src)
  else if pass_through c then ([c], src)
  else (hex_escape c, src).

Fixpoint Encode_loop (fuel : nat) (src url_segment : bytes) : option bytes :=
  match fuel with
  | O => None
  | S fuel' =>
      match src with
      | [] => Some url_segment
      | c :: src' =>
          let '(out, rest) := encode_step c src' in
          Encode_loop fuel' rest (url_segment ++ out)
      end
  end.

Definition EncodeToUrlSegment (in_ url_segment : bytes) : option bytes :=
  Encode_loop (S (length in_)) in_ url_segment.

(** [DecodeHexEncoding] on two characters. *)
Definition DecodeHexEncoding (c d : ascii) : option ascii :=
  char_val ← AccumulateHexValue c 0;
  char_val ← AccumulateHexValue d char_val;
  Some (chr char_val).

(** The [switch] on the character after a comma. *)
Definition comma_code (c : ascii) : option bytes :=
  if c =c "_"%char then Some (lit "/")
  else if c =c "-"%char then Some [backslash]
  else if c =c ","%char then Some (lit ",")
  else if c =c "a"%char then Some (lit "&")
  else if c =c "M"%char then Some (lit ".pagespeed.")
  else if c =c "P"%char then Some (lit "%")
  else if c =c "q"%char then Some (lit "?")
  else if c =c "u"%char then Some (lit "^")
  else if c =c "c"%char then Some (lit ".com")
  else if c =c "e"%char then Some (lit ".edu")
  else if c =c "g"%char then Some (lit ".gif")
  else if c =c "h"%char then Some (lit "http://")
  else if c =c "j"%char then Some (lit ".jpg")
  else if c =c "k"%char then Some (lit ".jpeg")
  else if c =c "l"%char then Some (lit ".js")
  else if c =c "n"%char then Some (lit ".net")
  else if c =c "o"%char then Some (lit ".")
  else if c =c "p"%char then Some (lit ".png")
  else if c =c "s"%char then Some (lit ".css")
  else if c =c "t"%char then Some (lit ".html")
  else if c =c "w"%char then Some (lit "www.")
  else None.

Definition append (out : bytes) (r : bool * bytes) : bool * bytes := (r.1, out ++ r.2).

Fixpoint DecodeFromUrlSegment (url_segment : bytes) : bool * bytes :=
  match url_segment with
  | [] => (true, [])
  | c :: s1 =>
      if pass_through c then append [c] (DecodeFromUrlSegment s1)
      else
        match s1 with
        | [] => (false, [])
        | d :: s2 =>
            if c =c ","%char then
              match comma_code d with
              | Some out => append out (DecodeFromUrlSegment s2)
              | None =>
                  match s2 with
                  | [] => (false, [])
                  | e :: s3 => match DecodeHexEncoding d e with Some x => append [x] (DecodeFromUrlSegment s3) | None => (false, []) end
                  end
              end
            else if c =c "%"%char then
              match s2 with
              | [] => (false, [])
              | e :: s3 =>
                  match DecodeHexEncoding d e with None => (false, []) | Some x =>
                  let x := if x =c " "%char then "+"%char else x in
                  if negb (x =c ","%char) then append [x] (DecodeFromUrlSegment s3)
                  else
                    match s3 with
                    | [] => (false, [])
                    | f :: s4 =>
                        match comma_code f with
                        | Some out => append out (DecodeFromUrlSegment s4)
                        | None =>
                            match s4 with
                            | [] => (false, [])
                            | g :: s5 => match DecodeHexEncoding f g with Some y => append [y] (DecodeFromUrlSegment s5) | None => (false, []) end
                            end
                        end
                    end
                  end
              end
            else (false, [])
        end
  end.

(** ** UrlSegmentEncoder: exactly one URL ([DCHECK_EQ]) *)

Definition UrlSegmentEncoder_Encode (urls : list bytes) (url_segment : bytes) : option bytes :=
  match urls with
  | [url] => EncodeToUrlSegment url url_segment
  | _ => None
  end.
Definition UrlSegmentEncoder_Decode (url_segment : bytes) : bool * list bytes :=
  let '(ok, url) := DecodeFromUrlSegment url_segment in (ok, [url]).

(** ** UrlMultipartEncoder *)

Definition kEscape : ascii := "=".
Definition kEscapedEscape : bytes := lit "==".
Definition kSeparator : ascii := "+".
Definition kEscapedSeparator : bytes := lit "=+".

Fixpoint multipart_escape (url : bytes) : bytes :=
  match url with
  | [] => []
  | ch :: url' =>
      (if ch =c kEscape then kEscapedEscape else if ch =c kSeparator then kEscapedSeparator else [ch])
      ++ multipart_escape url'
  end.

Fixpoint multipart_join (first : bool) (urls : list bytes) : bytes :=
  match urls with
  | [] => []
  | url :: urls' => (if first then [] else [kSeparator]) ++ multipart_escape url ++ multipart_join false urls'
  end.

Definition MultipartEncode (urls : list bytes) (encoding : bytes) : option bytes :=
  EncodeToUrlSegment (multipart_join true urls) encoding.

Fixpoint multipart_split (buf url : bytes) (append_last : bool) (urls : list bytes)
  : bool * list bytes :=
  match buf with
  | [] => (true, if append_last || negb (bool_decide (url = [])) then urls ++ [url] else urls)
  | ch :: buf' =>
      if ch =c kSeparator then multipart_split buf' [] true (urls ++ [url])
      else if ch =c kEscape then
        match buf' with
        | [] => (false, urls)
        | ch' :: buf'' =>
            if negb (ch' =c kEscape) && negb (ch' =c kSeparator) then (false, urls)
            else multipart_split buf'' (url ++ [ch']) append_last urls
        end
      else multipart_split buf' (url ++ [ch]) append_last urls
  end.

(** [urls] is left alone when the segment cannot be unescaped. *)
Definition MultipartDecode (encoding : bytes) (urls : list bytes) : bool * list bytes :=
  let '(ok, buf) := DecodeFromUrlSegment encoding in
  if ok then multipart_split buf [] false [] else (false, urls).

(** ** Lemmas *)

Definition special (c : ascii) (src : bytes) : bool :=
  ((c =c "h"%char) && StartsWith src (lit "ttp://")) ||
  ((c =c "."%char) && StartsWith src (lit "pagespeed.")).

(** Outside the two special words a character is encoded by itself. *)
Definition encode_char (c : ascii) : bytes := (encode_step c []).1.

Lemma encode_step_plain c src : special c src = false -> encode_step c src = (encode_char c, src).
Proof.
  unfold special, encode_char, encode_step. intros [H1 H2]%orb_false_iff.
  replace (StartsWith [] (lit "ttp://")) with false by (by vm_compute).
  replace (StartsWith [] (lit "pagespeed.")) with false by (by vm_compute).
  repeat case_bool_decide; try done; cbn [andb] in *; subst; try rewrite H1; try rewrite H2; try done.
  by destruct (pass_through c).
Qed.

Lemma encode_step_special c src :
  special c src = true ->
  (c = "h"%char /\ exists r, src = lit "ttp://" ++ r /\ encode_step c src = (lit ",h", r)) \/
  (c = "."%char /\ exists r, src = lit "pagespeed." ++ r /\ encode_step c src = (lit ",M", r)).
Proof.
  unfold special. rewrite orb_true_iff, !andb_true_iff, !bool_decide_eq_true.
  intros [[-> Hs]|[-> Hs]]; [left|right]; (split; [done|]);
    pose proof Hs as [r Hr]%StartsWith_spec; subst src; exists r; (split; [reflexivity|]).
  - change (encode_step "h" (lit "ttp://" ++ r)) with
      (if StartsWith (lit "ttp://" ++ r) (lit "ttp://") then (lit ",h", r) else (["h"%char], lit "ttp://" ++ r)).
    by rewrite Hs.
  - change (encode_step "." (lit "pagespeed." ++ r)) with
      (if StartsWith (lit "pagespeed." ++ r) (lit "pagespeed.") then (lit ",M", r)
       else (["."%char], lit "pagespeed." ++ r)).
    by rewrite Hs.
Qed.

(** The three shapes of an encoded character. *)
Definition encode_shape (c : ascii) : bool :=
  match encode_char c with
  | [d] => (d =c c) && pass_through c
  | [k; x] => (k =c ","%char) && bool_decide (comma_code x = Some [c])
  | [k; h; l] => (k =c ","%char) && bool_decide (comma_code h = None) &&
      bool_decide (DecodeHexEncoding h l = Some c)
  | _ => false
  end.

Lemma encode_char_shape c : encode_shape c = true.
Proof. revert c. apply all_ascii. by vm_compute. Qed.

Lemma decode_comma d r : DecodeFromUrlSegment (","%char :: d :: r) =
  match comma_code d with
  | Some out => append out (DecodeFromUrlSegment r)
  | None => match r with
            | [] => (false, [])
            | e :: s3 => match DecodeHexEncoding d e with
                         | Some x => append [x] (DecodeFromUrlSegment s3)
                         | None => (false, [])
                         end
            end
  end.
Proof. done. Qed.

Lemma decode_char c r : DecodeFromUrlSegment (encode_char c ++ r) = append [c] (DecodeFromUrlSegment r).
Proof.
  pose proof (encode_char_shape c) as Hc. unfold encode_shape in Hc.
  destruct (encode_char c) as [|k [|x [|l []]]]; try done;
    rewrite !andb_true_iff, ?bool_decide_eq_true in Hc; cbn [app].
  - destruct Hc as [-> Hp]. cbn [DecodeFromUrlSegment]. by rewrite Hp.
  - destruct Hc as [-> Hx]. by rewrite decode_comma, Hx.
  - destruct Hc as [[-> Hx] Hh]. by rewrite decode_comma, Hx, Hh.
Qed.

(** A step consumes its character and [taken], and is decoded back to them. *)
Lemma encode_step_ok c src : exists taken,
  src = taken ++ (encode_step c src).2 /\
  forall r, DecodeFromUrlSegment ((encode_step c src).1 ++ r) = append (c :: taken) (DecodeFromUrlSegment r).
Proof.
  destruct (special c src) eqn:E.
  - destruct (encode_step_special c src E) as [(-> & r0 & -> & ->)|(-> & r0 & -> & ->)];
      eexists; (split; [done|]); intros r; cbn [fst app]; change (lit ",h" ++ r) with (","%char :: "h"%char :: r)
        || change (lit ",M" ++ r) with (","%char :: "M"%char :: r);
      by rewrite decode_comma.
  - rewrite encode_step_plain by done. exists []. split; [done|]. intros r. apply decode_char.
Qed.

(** The encoder as a relation: the steps it takes. *)
Inductive encodes : bytes -> bytes -> Prop :=
| encodes_nil : encodes [] []
| encodes_step c src r :
    encodes (encode_step c src).2 r -> encodes (c :: src) ((encode_step c src).1 ++ r).

Lemma Encode_loop_encodes : forall fuel src out,
  (length src < fuel)%nat ->
  exists r, Encode_loop fuel src out = Some (out ++ r) /\ encodes src r.
Proof.
  induction fuel as [|fuel IH]; intros [|c src] out Hf; try lia; cbn [Encode_loop].
  - exists []. rewrite app_nil_r. split; [done|constructor].
  - destruct (encode_step_ok c src) as (taken & Hs & _).
    destruct (encode_step c src) as [o rest] eqn:E. cbn [snd] in Hs.
    destruct (IH rest (out ++ o)) as (r & -> & Hr).
    { apply (f_equal length) in Hs. rewrite length_app in Hs. cbn in Hf. lia. }
    exists (o ++ r). rewrite app_assoc. split; [done|].
    pose proof (encodes_step c src r) as H. rewrite E in H. by apply H.
Qed.

Lemma Encode_encodes s out : exists r, EncodeToUrlSegment s out = Some (out ++ r) /\ encodes s r.
Proof. apply Encode_loop_encodes. lia. Qed.

Lemma encodes_decode s r : encodes s r -> DecodeFromUrlSegment r = (true, s).
Proof.
  induction 1 as [|c src r Hr IH]; [done|].
  destruct (encode_step_ok c src) as (taken & Hs & Hd). rewrite Hd, IH. unfold append. cbn [fst snd app]. by rewrite <- Hs.
Qed.

(** What the encoder emits. *)
Definition segment_char (c : ascii) : bool :=
  is_alnum c || bool_decide (c ∈ kPassThroughChars) || (code c =? 0) || (c =c ","%char).

Lemma encode_char_alphabet c : forallb segment_char (encode_char c) = true.
Proof. revert c. apply all_ascii. by vm_compute. Qed.

Lemma encodes_alphabet s r : encodes s r -> forallb segment_char r = true.
Proof.
  induction 1 as [|c src r Hr IH]; [done|]. rewrite forallb_app, IH, andb_true_r.
  destruct (special c src) eqn:E.
  - by destruct (encode_step_special c src E) as [(_ & r0 & _ & ->)|(_ & r0 & _ & ->)].
  - rewrite encode_step_plain by done. apply encode_char_alphabet.
Qed.

(** A step emits one raw character, or a comma and then no dot. *)
Lemma encode_step_raw c src :
  (encode_step c src = ([c], src) /\ c <> ","%char /\ special c src = false) \/
  (exists t, (encode_step c src).1 = ","%char :: t /\ "."%char ∉ t).
Proof.
  destruct (special c src) eqn:E.
  - right. destruct (encode_step_special c src E) as [(_ & r0 & _ & ->)|(_ & r0 & _ & ->)];
      eexists; (split; [done|]); by apply (bool_decide_unpack _); vm_compute.
  - rewrite encode_step_plain by done. cbn [fst].
    pose proof (all_ascii (fun c => match encode_char c with
      | [d] => (d =c c) && negb (c =c ","%char)
      | k :: t => (k =c ","%char) && negb (bool_decide ("."%char ∈ t))
      | [] => false end) ltac:(by vm_compute) c) as H. cbn beta in H.
    destruct (encode_char c) as [|k [|x t]]; [done|..]; rewrite andb_true_iff, negb_true_iff in H.
    + left. destruct H as [Hd Hn]. apply bool_decide_eq_true in Hd as ->. apply bool_decide_eq_false in Hn. done.
    + right. destruct H as [Hd Hn]. apply bool_decide_eq_true in Hd as ->. apply bool_decide_eq_false in Hn. eauto.
Qed.

Lemma encodes_raw_head s c r :
  encodes s (c :: r) -> c <> ","%char ->
  exists s', s = c :: s' /\ encodes s' r /\ special c s' = false.
Proof.
  intros H Hc. inversion H as [|d src r' Hr Heq1 Heq2]; subst.
  destruct (encode_step_raw d src) as [(Hst & _ & Hsp)|(t & Ht & _)].
  - rewrite Hst in *. cbn in *. injection Heq2 as -> ->. by exists src.
  - rewrite Ht in Heq2. cbn in Heq2. by injection Heq2 as <- _.
Qed.

Lemma encodes_raw_run w : forall s r,
  ","%char ∉ w -> encodes s (w ++ r) -> exists s', s = w ++ s'.
Proof.
  induction w as [|c w IH]; intros s r Hw H; [by exists s|].
  rewrite not_elem_of_cons in Hw. destruct Hw as [Hc Hw].
  apply encodes_raw_head in H as (s' & -> & H & _); [|done].
  apply IH in H as [s'' ->]; [|done]. by exists s''.
Qed.

Lemma encodes_no_marker s r : encodes s r -> forall a b, r <> a ++ lit ".pagespeed." ++ b.
Proof.
  intros H. assert (Hhead : forall s b, ~ encodes s (lit ".pagespeed." ++ b)).
  { clear. intros s b H. change (lit ".pagespeed." ++ b) with ("."%char :: lit "pagespeed." ++ b) in H.
    apply encodes_raw_head in H as (s' & -> & H & Hsp); [|done].
    apply encodes_raw_run in H as [s'' ->]; [|by apply (bool_decide_unpack _); vm_compute].
    assert (special "." (lit "pagespeed." ++ s'') = true); [|congruence].
    unfold special. apply orb_true_iff. right. apply andb_true_iff. split; [done|].
    apply StartsWith_spec. eauto. }
  induction H as [|c src r Hr IH]; intros a b Heq; [by destruct a|].
  destruct a as [|x a].
  { apply (Hhead (c :: src) b). cbn [app] in Heq. rewrite <- Heq. by constructor. }
  destruct (encode_step_raw c src) as [(Hst & _)|(t & Ht & Hdot)].
  - rewrite Hst in *. cbn in Heq. injection Heq as _ Heq. by apply (IH a b).
  - rewrite Ht in Heq. cbn [app] in Heq. injection Heq as _ Heq. clear Ht.
    revert a Heq. induction t as [|y t IHt]; intros a Heq; [by apply (IH a b)|].
    rewrite not_elem_of_cons in Hdot. destruct Hdot as [Hy Hdot].
    destruct a as [|x' a]; [injection Heq as Heq _; congruence|].
    injection Heq as _ Heq. by apply (IHt Hdot a).
Qed.

(** *** The multipart encoding *)

Lemma multipart_split_escape w : forall buf url al urls,
  multipart_split (multipart_escape w ++ buf) url al urls = multipart_split buf (url ++ w) al urls.
Proof.
  induction w as [|c w IH]; intros buf url al urls; [by rewrite app_nil_r|]. cbn [multipart_escape].
  rewrite <- app_assoc. destruct (decide (c = kEscape)) as [->|H1]; [|destruct (decide (c = kSeparator)) as [->|H2]].
  - rewrite bool_decide_eq_true_2 by done. change (multipart_split (kEscapedEscape ++ ?b) url al urls)
      with (multipart_split b (url ++ [kEscape]) al urls). by rewrite IH, <- app_assoc.
  - rewrite bool_decide_eq_false_2, bool_decide_eq_true_2 by done.
    change (multipart_split (kEscapedSeparator ++ ?b) url al urls)
      with (multipart_split b (url ++ [kSeparator]) al urls). by rewrite IH, <- app_assoc.
  - rewrite !bool_decide_eq_false_2 by done. cbn [app multipart_split].
    rewrite !bool_decide_eq_false_2 by done. by rewrite IH, <- app_assoc.
Qed.

Lemma multipart_split_join urls : forall url acc,
  multipart_split (multipart_join false urls) url true acc = (true, acc ++ [url] ++ urls).
Proof.
  induction urls as [|u urls IH]; intros url acc; [done|]. cbn [multipart_join app multipart_split].
  rewrite bool_decide_eq_true_2 by done. rewrite multipart_split_escape. cbn [app].
  rewrite IH, <- app_assoc. done.
Qed.

Lemma multipart_roundtrip urls :
  multipart_split (multipart_join true urls) [] false [] =
    (true, if bool_decide (urls = [[]]) then [] else urls).
Proof.
  destruct urls as [|u urls]; [done|]. cbn [multipart_join app]. rewrite multipart_split_escape. cbn [app].
  destruct urls as [|u' urls].
  - cbn. destruct u; [done|]. rewrite bool_decide_eq_false_2 by done. cbn.
    by rewrite bool_decide_eq_false_2.
  - cbn [multipart_join app multipart_split]. rewrite bool_decide_eq_true_2 by done.
    rewrite multipart_split_escape. cbn [app]. rewrite multipart_split_join. cbn [app].
    by rewrite bool_decide_eq_false_2.
Qed.

(** ** Properties *)

(** C25: [DecodeFromUrlSegment] inverts [EncodeToUrlSegment] on every byte
    string, and the encoder always ends. *)
Theorem UrlEscaper_roundtrip (s out : bytes) :
  exists seg, EncodeToUrlSegment s out = Some (out ++ seg) /\ DecodeFromUrlSegment seg = (true, s).
Proof.
  destruct (Encode_encodes s out) as (r & Hr & He). exists r. split; [done|]. by apply encodes_decode.
Qed.

(** An encoded segment consists of alphanumeric characters, [._=+-], commas
    and, because [strchr] also matches the terminator, raw NUL bytes; it never
    contains the marker [.pagespeed.] that delimits rewritten resource names. *)
Lemma UrlEscaper_segment_safe (s : bytes) :
  exists seg, EncodeToUrlSegment s [] = Some seg /\ forallb segment_char seg = true /\
    forall a b, seg <> a ++ lit ".pagespeed." ++ b.
Proof.
  destruct (Encode_encodes s []) as (r & Hr & He). exists r. split; [done|].
  split; [by apply (encodes_alphabet s)|by apply (encodes_no_marker s)].
Qed.

(** [UrlMultipartEncoder::Decode] inverts [Encode] on every list of URLs
    but the list of one empty URL, which is read back as no URL at all. *)
Lemma Multipart_roundtrip (urls old : list bytes) :
  exists seg, MultipartEncode urls [] = Some seg /\
    MultipartDecode seg old = (true, if bool_decide (urls = [[]]) then [] else urls).
Proof.
  destruct (Encode_encodes (multipart_join true urls) []) as (r & Hr & He). exists r. split; [done|].
  unfold MultipartDecode. rewrite (encodes_decode _ _ He). apply multipart_roundtrip.
Qed.
