(* ===== verification/ResourceNamer.v ===== *)
(** * The names of rewritten resources

    src/net/instaweb/rewriter/resource_namer.cc:
    [NAME.pagespeed[.EXPT|.OPTIONS].ID.HASH[SIG].EXT].

    The operations change the fields of the namer also when they fail, so they
    return it; [None] stands for a failed [DCHECK]/[CHECK] or the exception of
    [string_view::substr] out of range. The hasher enters only with
    [HashSizeInChars]. *)

From S2P Require Import Prelude StringUtil ContentType UrlCodec.

Record ResourceNamer := mkResourceNamer {
  id_ : bytes;
  options_ : bytes;
  name_ : bytes;
  hash_ : bytes;
  ext_ : bytes;
  experiment_ : bytes;
  signature_ : bytes;
}.

Definition new_namer : ResourceNamer := mkResourceNamer [] [] [] [] [] [] [].

Definition set_id (p : bytes) (r : ResourceNamer) : ResourceNamer :=
  mkResourceNamer p (options_ r) (name_ r) (hash_ r) (ext_ r) (experiment_ r) (signature_ r).
Definition set_options (p : bytes) (r : ResourceNamer) : ResourceNamer :=
  mkResourceNamer (id_ r) p (name_ r) (hash_ r) (ext_ r) (experiment_ r) (signature_ r).
Definition set_name (p : bytes) (r : ResourceNamer) : ResourceNamer :=
  mkResourceNamer (id_ r) (options_ r) p (hash_ r) (ext_ r) (experiment_ r) (signature_ r).
Definition set_hash (p : bytes) (r : ResourceNamer) : ResourceNamer :=
  mkResourceNamer (id_ r) (options_ r) (name_ r) p (ext_ r) (experiment_ r) (signature_ r).
Definition store_ext (p : bytes) (r : ResourceNamer) : ResourceNamer :=
  mkResourceNamer (id_ r) (options_ r) (name_ r) (hash_ r) p (experiment_ r) (signature_ r).
Definition set_experiment (p : bytes) (r : ResourceNamer) : ResourceNamer :=
  mkResourceNamer (id_ r) (options_ r) (name_ r) (hash_ r) (ext_ r) p (signature_ r).
Definition set_signature (p : bytes) (r : ResourceNamer) : ResourceNamer :=
  mkResourceNamer (id_ r) (options_ r) (name_ r) (hash_ r) (ext_ r) (experiment_ r) p.
(** The public setter checks that the extension has no leading dot. *)
Definition set_ext (e : bytes) (r : ResourceNamer) : option ResourceNamer :=
  if StartsWith e (lit ".") then None else Some (store_ext e r).

Definition has_experiment (r : ResourceNamer) : bool := negb (bool_decide (experiment_ r = [])).
Definition has_options (r : ResourceNamer) : bool := negb (bool_decide (options_ r = [])).

Definition kSystemId : bytes := lit "pagespeed".
Definition kSeparatorChar : ascii := ".".
Definition kSeparatorString : bytes := [kSeparatorChar].
Definition kOverhead : Z := 4 + Z.of_nat (length kSystemId).

Definition i32 (z : Z) : Z := (z + 2 ^ 31) mod 2 ^ 32 - 2 ^ 31.

(** ** Decoding *)

Definition legacy_hex (ch : ascii) : bool := is_digit ch || in_range "A" "F" (UpperChar ch).

Definition LegacyDecode (encoded_string : bytes) (r : ResourceNamer) : option (bool * ResourceNamer) :=
  match NameExtensionToContentType encoded_string with
  | None => Some (false, r)
  | Some _ =>
      names ← SplitStringPieceToVector encoded_string kSeparatorString [] true;
      match names with
      | [n0; n1; n2; n3] =>
          let r := set_hash n1 r in
          if negb (bool_decide (length n1 = 32%nat)) || negb (forallb legacy_hex n1) then Some (false, r)
          else Some (true, store_ext n3 (set_name n2 (set_id n0 r)))
      | _ => Some (false, r)
      end
  end.

(** The first segment that is the system ID, -1 if there is none. *)
Fixpoint system_id_loop (segments : list bytes) (i : Z) : Z :=
  match segments with
  | [] => -1
  | s :: segments' => if bool_decide (s = kSystemId) then i else system_id_loop segments' (i + 1)
  end.

(** [segments[i]] for an index in range. *)
Definition seg (segments : list bytes) (i : Z) : bytes := default [] (segments !! Z.to_nat i).
(** [AppendJoinIterator] over [segments.begin() + i .. segments.begin() + j]. *)
Definition join_range (segments : list bytes) (i j : Z) : bytes :=
  JoinCollection (take (Z.to_nat (j - i)) (drop (Z.to_nat i) segments)) kSeparatorString.

(** The experiment or the options. *)
Definition decode_middle (experiment_or_options : bytes) (r : ResourceNamer) : bool * ResourceNamer :=
  match experiment_or_options with
  | [c] => if (code "a" <=? code c) && (code c <=? code "z")
           then (true, set_experiment experiment_or_options r) else (false, r)
  | [] => (false, r)
  | _ => let '(ok, out) := DecodeFromUrlSegment experiment_or_options in
         (ok, set_options (options_ r ++ out) r)
  end.

(** The hash and the signature: [substr] throws when it starts past the end. *)
Definition decode_hash (hash_length signature_length : Z) (segment : bytes) (r : ResourceNamer)
  : option ResourceNamer :=
  let is_signed := (0 <? signature_length) &&
    (Z.of_nat (length segment) =? u32 (hash_length + signature_length)) in
  if is_signed then
    if Z.of_nat (length segment) <? u32 hash_length then None
    else Some (set_signature (drop (Z.to_nat (u32 hash_length)) segment)
                 (set_hash (take (Z.to_nat (u32 hash_length)) segment) r))
  else Some (set_hash segment r).

Definition Decode (encoded_string : bytes) (hash_length signature_length : Z) (r : ResourceNamer)
  : option (bool * ResourceNamer) :=
  segments ← SplitStringPieceToVector encoded_string kSeparatorString [] false;
  let system_id_index := system_id_loop segments 0 in
  let n := Z.of_nat (length segments) in
  let r := set_options [] (set_experiment [] r) in
  if (1 <=? system_id_index) && (4 <=? n - system_id_index) then
    let r := set_name (join_range segments 0 system_id_index) r in
    let r := store_ext (seg segments (n - 1)) r in
    r ← decode_hash hash_length signature_length (seg segments (n - 2)) r;
    let r := set_id (seg segments (n - 3)) r in
    if system_id_index + 1 <? n - 3
    then Some (decode_middle (join_range segments (system_id_index + 1) (n - 3)) r)
    else Some (true, r)
  else LegacyDecode encoded_string r.

Definition DecodeIgnoreHashAndSignature (encoded_string : bytes) (r : ResourceNamer)
  : option (bool * ResourceNamer) := Decode encoded_string (-1) (-1) r.

(** ** Encoding *)

Definition InternalEncode (r : ResourceNamer) : option bytes :=
  if has_experiment r && has_options r then None else
  middle ← (if has_experiment r then Some [experiment_ r]
            else if has_options r then
              encoded_options ← EncodeToUrlSegment (options_ r) []; Some [encoded_options]
            else Some []);
  Some (JoinCollection ([name_ r; kSystemId] ++ middle ++ [id_ r; hash_ r ++ signature_ r; ext_ r])
          kSeparatorString).

Definition no_separator (s : bytes) : bool := negb (bool_decide (kSeparatorChar ∈ s)).

Definition Encode (r : ResourceNamer) : option bytes :=
  if no_separator (id_ r) && negb (bool_decide (hash_ r = [])) && no_separator (hash_ r) &&
     no_separator (ext_ r) && no_separator (experiment_ r) && no_separator (signature_ r) &&
     negb (has_experiment r && has_options r)
  then InternalEncode r else None.

Definition EncodeIdName (r : ResourceNamer) : option bytes :=
  if no_separator (id_ r) then Some (id_ r ++ kSeparatorString ++ name_ r) else None.

Definition PrettyName (r : ResourceNamer) : option bytes := InternalEncode r.

Definition CopyFrom (other r : ResourceNamer) : ResourceNamer :=
  set_experiment (experiment_ other) (set_signature (signature_ other) (store_ext (ext_ other)
    (set_hash (hash_ other) (set_options (options_ other) (set_name (name_ other)
      (set_id (id_ other) r)))))).

Definition EventualSize (HashSizeInChars signature_length : Z) (r : ResourceNamer) : option Z :=
  let size s := Z.of_nat (length s) in
  let eventual_size := i32 (size (name_ r) + size (id_ r) + size (ext_ r) + kOverhead +
                            HashSizeInChars + signature_length) in
  if has_experiment r then Some (i32 (eventual_size + 2))
  else if has_options r then
    encoded_options ← EncodeToUrlSegment (options_ r) [];
    Some (i32 (eventual_size + (1 + size encoded_options)))
  else Some eventual_size.

(** ** Lemmas *)

Abbreviation segments_of := (pieces (one_of [kSeparatorChar])).

Lemma segments_sep a t : segments_of (a ++ kSeparatorChar :: t) = segments_of a ++ segments_of t.
Proof.
  induction a as [|d a IH]; [done|]. cbn [app pieces]. destruct (one_of [kSeparatorChar] d); [by rewrite IH|].
  rewrite IH. destruct (pieces_cons (one_of [kSeparatorChar]) a) as (p & ps & ->). done.
Qed.

Lemma segments_Join l : l <> [] -> segments_of (JoinCollection l kSeparatorString) = concat (map segments_of l).
Proof.
  induction l as [|p l IH]; [done|]. intros _. destruct l as [|p' l].
  - rewrite JoinCollection_one. cbn [map concat]. by rewrite app_nil_r.
  - rewrite JoinCollection_cons. cbn [app kSeparatorString]. rewrite segments_sep, IH by done. done.
Qed.

Lemma Join_app l1 l2 : l1 <> [] -> l2 <> [] ->
  JoinCollection (l1 ++ l2) kSeparatorString =
    JoinCollection l1 kSeparatorString ++ kSeparatorString ++ JoinCollection l2 kSeparatorString.
Proof.
  intros H1 H2. induction l1 as [|p l1 IH]; [done|]. destruct l1 as [|p' l1].
  - destruct l2 as [|q l2]; [done|]. cbn [app]. by rewrite JoinCollection_cons, JoinCollection_one.
  - cbn [app] in *. rewrite !JoinCollection_cons, IH by done. by rewrite <- !app_assoc.
Qed.

Lemma no_separator_spec s : no_separator s = true <-> kSeparatorChar ∉ s.
Proof. unfold no_separator. by rewrite negb_true_iff, bool_decide_eq_false. Qed.

Lemma system_id_loop_app pre post i :
  kSystemId ∉ pre -> system_id_loop (pre ++ kSystemId :: post) i = i + Z.of_nat (length pre).
Proof.
  revert i. induction pre as [|p pre IH]; intros i; cbn.
  - intros _. rewrite bool_decide_eq_true_2 by done. lia.
  - rewrite not_elem_of_cons. intros [Hp Hpre]. rewrite bool_decide_eq_false_2 by done. rewrite IH by done. lia.
Qed.

Lemma system_id_loop_spec l : forall i, 0 <= i ->
  (system_id_loop l i = -1 /\ kSystemId ∉ l) \/
  exists pre post, (l = pre ++ kSystemId :: post) /\ (kSystemId ∉ pre) /\
      system_id_loop l i = i + Z.of_nat (length pre).
Proof.
  induction l as [|p l IH]; intros i Hi; cbn.
  - left. split; [done|apply not_elem_of_nil].
  - case_bool_decide as E.
    + right. exists [], l. subst. split; [done|]. split; [apply not_elem_of_nil|cbn; lia].
    + destruct (IH (i + 1)) as [[-> Hl]|(pre & post & -> & Hpre & ->)]; [lia| |].
      * left. split; [done|]. rewrite not_elem_of_cons. by split; [congruence|].
      * right. exists (p :: pre), post. split; [done|]. rewrite not_elem_of_cons. split; [by split; [congruence|]|].
        cbn. lia.
Qed.

(** [Decode] on a string whose segments are known. *)
Lemma Decode_segments s hl sl r pre mid i h e :
  Z.of_nat (length s) <= 2 ^ 31 ->
  segments_of s = pre ++ kSystemId :: mid ++ [i; h; e] -> kSystemId ∉ pre -> pre <> [] ->
  Decode s hl sl r =
    (r ← decode_hash hl sl h (store_ext e (set_name (JoinCollection pre kSeparatorString)
           (set_options [] (set_experiment [] r))));
     let r := set_id i r in
     if bool_decide (mid = []) then Some (true, r)
     else Some (decode_middle (JoinCollection mid kSeparatorString) r)).
Proof.
  intros Hlen Hs Hpre Hne. unfold Decode. rewrite Split_pieces by done. cbn [mbind option_bind app non_empty].
  set (l := pre ++ kSystemId :: mid ++ [i; h; e]) in Hs.
  cbv zeta. replace (pieces (one_of kSeparatorString) s) with l by (symmetry; exact Hs).
  assert (Hid : system_id_loop l 0 = Z.of_nat (length pre)) by (unfold l; by rewrite system_id_loop_app).
  rewrite Hid.
  assert (Hl : Z.of_nat (length l) = Z.of_nat (length pre) + Z.of_nat (length mid) + 4).
  { unfold l. rewrite length_app. cbn [length]. rewrite length_app. cbn [length]. lia. }
  assert (Hp : (0 < length pre)%nat) by (destruct pre; [done|cbn; lia]).
  assert (Hj : forall k x, [i; h; e] !! k = Some x ->
    seg l (Z.of_nat (length l) - 3 + Z.of_nat k) = x).
  { intros k x Hk. unfold seg. rewrite Hl.
    replace (Z.to_nat _) with (length pre + S (length mid + k))%nat by lia. unfold l.
    rewrite lookup_app_r by lia. rewrite (Nat.add_comm (length pre)), Nat.add_sub.
    change ((kSystemId :: mid ++ [i; h; e]) !! S (length mid + k)) with ((mid ++ [i; h; e]) !! (length mid + k)%nat).
    rewrite lookup_app_r by lia. replace (length mid + k - length mid)%nat with k by lia. by rewrite Hk. }
  rewrite (proj2 (Z.leb_le 1 (Z.of_nat (length pre)))) by lia.
  rewrite (proj2 (Z.leb_le 4 (Z.of_nat (length l) - Z.of_nat (length pre)))) by lia. cbn [andb].
  pose proof (Hj 0%nat i eq_refl) as Hi. pose proof (Hj 1%nat h eq_refl) as Hh. pose proof (Hj 2%nat e eq_refl) as He.
  rewrite Z.add_0_r in Hi.
  replace (Z.of_nat (length l) - 3 + Z.of_nat 1) with (Z.of_nat (length l) - 2) in Hh by lia.
  replace (Z.of_nat (length l) - 3 + Z.of_nat 2) with (Z.of_nat (length l) - 1) in He by lia.
  rewrite Hi, Hh, He.
  replace (join_range l 0 (Z.of_nat (length pre))) with (JoinCollection pre kSeparatorString).
  2:{ unfold join_range. rewrite Z.sub_0_r, Nat2Z.id. unfold l. change (Z.to_nat 0) with 0%nat. rewrite drop_0. by rewrite take_app_length. }
  destruct (decode_hash hl sl h _) as [r'|]; [|done]. cbn [mbind option_bind].
  case_bool_decide as Hmid.
  - subst mid. replace (_ <? _) with false; [done|]. symmetry. apply Z.ltb_ge. cbn in Hl. lia.
  - replace (_ <? _) with true.
    2:{ symmetry. apply Z.ltb_lt. destruct mid; [done|]. cbn [length] in Hl. lia. }
    do 3 f_equal. unfold join_range. f_equal. rewrite Hl.
    replace (Z.to_nat (Z.of_nat (length pre) + 1)) with (length pre + 1)%nat by lia.
    replace (Z.to_nat _) with (length mid) by lia. unfold l. rewrite <- drop_drop, drop_app_length.
    change (drop 1 (kSystemId :: ?x)) with x. by rewrite take_app_length.
Qed.

Lemma segments_plain a : no_separator a = true -> segments_of a = [a].
Proof. intros H%no_separator_spec. by apply pieces_single. Qed.

(** The experiment or options part of an encoded name. *)
Definition encoded_middle (r : ResourceNamer) (m : list bytes) : Prop :=
  (m = [] /\ experiment_ r = [] /\ options_ r = []) \/
  (m = [experiment_ r] /\ experiment_ r <> [] /\ options_ r = []) \/
  (exists e, m = [e] /\ experiment_ r = [] /\ options_ r <> [] /\ EncodeToUrlSegment (options_ r) [] = Some e).

Lemma InternalEncode_spec r s :
  InternalEncode r = Some s <->
  exists m, encoded_middle r m /\
    s = JoinCollection ([name_ r; kSystemId] ++ m ++ [id_ r; hash_ r ++ signature_ r; ext_ r]) kSeparatorString.
Proof.
  unfold InternalEncode, encoded_middle, has_experiment, has_options.
  destruct (Encode_encodes (options_ r) []) as (e & He & _).
  repeat case_bool_decide; cbn [negb andb mbind option_bind]; rewrite ?He; cbn [mbind option_bind]; split.
  - intros [= <-]. exists []. split; [by left|done].
  - by intros (m & [(-> & _)|[(_ & ? & _)|(? & _ & _ & ? & _)]] & ->).
  - intros [= <-]. exists [e]. split; [|done]. right. right. by exists e.
  - intros (m & [(_ & _ & ?)|[(_ & ? & _)|(e' & -> & _ & _ & He')]] & ->); [done..|]. by simplify_eq.
  - intros [= <-]. exists [experiment_ r]. split; [|done]. right. by left.
  - by intros (m & [(_ & ? & _)|[(-> & _ & _)|(? & _ & ? & _)]] & ->).
  - done.
  - by intros (m & [(_ & ? & _)|[(_ & _ & ?)|(? & _ & ? & _)]] & _).
Qed.

Lemma Encode_spec r s :
  Encode r = Some s <->
  no_separator (id_ r) = true /\ hash_ r <> [] /\ no_separator (hash_ r) = true /\ no_separator (ext_ r) = true /\
  no_separator (experiment_ r) = true /\ no_separator (signature_ r) = true /\ InternalEncode r = Some s.
Proof.
  unfold Encode. destruct (no_separator (id_ r)); [|naive_solver]. case_bool_decide; [naive_solver|].
  destruct (no_separator (hash_ r)); [|naive_solver]. destruct (no_separator (ext_ r)); [|naive_solver].
  destruct (no_separator (experiment_ r)); [|naive_solver].
  destruct (no_separator (signature_ r)); [|naive_solver]. cbn [negb andb].
  unfold InternalEncode. destruct (has_experiment r && has_options r); cbn [negb]; naive_solver.
Qed.

Lemma no_separator_app a b : no_separator a = true -> no_separator b = true -> no_separator (a ++ b) = true.
Proof. rewrite !no_separator_spec, not_elem_of_app. done. Qed.

(** The segments of an encoded name. *)
Lemma Encode_segments r s :
  Encode r = Some s -> exists m, encoded_middle r m /\
    segments_of s = segments_of (name_ r) ++ kSystemId :: concat (map segments_of m) ++
      [id_ r; hash_ r ++ signature_ r; ext_ r].
Proof.
  intros (Hi & _ & Hh & He & _ & Hs & (m & Hm & ->)%InternalEncode_spec)%Encode_spec.
  exists m. split; [done|]. rewrite segments_Join by done. cbn [app map concat]. rewrite map_app, concat_app.
  cbn [map concat]. rewrite (segments_plain kSystemId), (segments_plain (id_ r)), (segments_plain (_ ++ _)),
    (segments_plain (ext_ r)) by auto using no_separator_app. done.
Qed.

(** How the hash segment is taken apart again. *)
Definition signature_lengths (r : ResourceNamer) (hash_length signature_length : Z) : Prop :=
  (0 < signature_length /\ Z.of_nat (length (hash_ r)) = hash_length /\
   Z.of_nat (length (signature_ r)) = signature_length) \/
  (signature_ r = [] /\ (signature_length <= 0 \/ Z.of_nat (length (hash_ r)) <> u32 (hash_length + signature_length))).

Lemma decode_hash_signed r hl sl r' :
  signature_lengths r hl sl -> Z.of_nat (length (hash_ r)) + Z.of_nat (length (signature_ r)) < 2 ^ 32 ->
  decode_hash hl sl (hash_ r ++ signature_ r) r' =
    Some (set_hash (hash_ r)
      (set_signature (if bool_decide (signature_ r = []) then signature_ r' else signature_ r) r')).
Proof.
  unfold decode_hash. intros [(Hsl & <- & <-)|(Hs & H)] Hlen.
  - rewrite (proj2 (Z.ltb_lt 0 _)) by done. unfold u32. rewrite !Z.mod_small by lia. rewrite length_app, Nat2Z.inj_add, Z.eqb_refl.
    cbn [andb]. rewrite (proj2 (Z.ltb_ge _ _)) by lia. rewrite Nat2Z.id, take_app_length, drop_app_length.
    rewrite bool_decide_eq_false_2; [by destruct r'|]. intros He. rewrite He in Hsl. done.
  - rewrite Hs, app_nil_r. replace (_ && _) with false.
    + rewrite bool_decide_eq_true_2 by done. by destruct r'.
    + symmetry. apply andb_false_iff. rewrite Z.ltb_ge, Z.eqb_neq. done.
Qed.

Lemma decode_middle_experiment c r :
  is_lower c = true -> decode_middle [c] r = (true, set_experiment [c] r).
Proof. unfold decode_middle, is_lower, in_range. by intros ->. Qed.

Lemma decode_middle_options e o r :
  DecodeFromUrlSegment e = (true, o) -> e <> [] -> length e <> 1%nat -> options_ r = [] ->
  decode_middle e r = (true, set_options o r).
Proof.
  intros Hd Hne H1 Ho. unfold decode_middle. destruct e as [|a [|b e]]; try done. by rewrite Hd, Ho.
Qed.

(** A name that [Decode] can tell apart. *)
Definition decodable (r : ResourceNamer) : Prop :=
  (kSystemId ∉ segments_of (name_ r)) /\
  (experiment_ r = [] \/ exists c, experiment_ r = [c] /\ is_lower c = true) /\
  (forall e, EncodeToUrlSegment (options_ r) [] = Some e -> length e <> 1%nat).

Definition middle_size (m : list bytes) : nat := match m with [x] => S (length x) | _ => 0 end.

Lemma EventualSize_length r s m :
  encoded_middle r m ->
  s = JoinCollection ([name_ r; kSystemId] ++ m ++ [id_ r; hash_ r ++ signature_ r; ext_ r]) kSeparatorString ->
  length s = (length (name_ r) + length (id_ r) + length (ext_ r) + 13 + length (hash_ r) + length (signature_ r) +
    middle_size m)%nat.
Proof.
  intros Hm ->. destruct Hm as [(-> & _)|[(-> & _)|(e & -> & _)]]; cbn [app];
    rewrite !JoinCollection_cons, JoinCollection_one, !length_app; cbn [middle_size length kSeparatorString kSystemId lit String.list_ascii_of_string]; lia.
Qed.

Lemma i32_small z : - 2 ^ 31 <= z < 2 ^ 31 -> i32 z = z.
Proof. intros H. unfold i32. rewrite Z.mod_small; lia. Qed.

Lemma segments_nonempty s : segments_of s <> [].
Proof. by destruct (pieces_cons (one_of [kSeparatorChar]) s) as (p & ps & ->). Qed.

(** Every byte of a segment decodes to something. *)
Lemma decode_nonempty e : e <> [] -> DecodeFromUrlSegment e <> (true, []).
Proof.
  assert (Hcode : forall c, comma_code c <> Some []).
  { intros c. unfold comma_code. by repeat case_bool_decide. }
  destruct e as [|c e]; [done|]. intros _. cbn [DecodeFromUrlSegment]. unfold append.
  destruct (pass_through c); [done|]. destruct e as [|d e]; [done|].
  case_bool_decide.
  - destruct (comma_code d) as [out|] eqn:E; [destruct out; [by apply Hcode in E|done]|].
    destruct e as [|x e]; [done|]. by destruct (DecodeHexEncoding d x).
  - case_bool_decide; [|done]. destruct e as [|x e]; [done|]. destruct (DecodeHexEncoding d x) as [y|]; [|done].
    cbv zeta. destruct (negb _); [done|]. destruct e as [|f e]; [done|].
    destruct (comma_code f) as [out|] eqn:E; [destruct out; [by apply Hcode in E|done]|].
    destruct e as [|g e]; [done|]. by destruct (DecodeHexEncoding f g).
Qed.

(** What [decode_middle] accepts. *)
Lemma decode_middle_true e r r' :
  decode_middle e r = (true, r') -> e <> [] /\
    ((r' = set_experiment e r) \/ (exists o, r' = set_options (options_ r ++ o) r /\ o <> [])).
Proof.
  unfold decode_middle. destruct e as [|c [|d e]]; [done|..].
  - destruct (_ && _); [|done]. intros [= <-]. by split; [|left].
  - intros H. split; [done|]. right. pose proof (decode_nonempty (c :: d :: e)) as Hn.
    destruct (DecodeFromUrlSegment (c :: d :: e)) as [ok out]. injection H as -> <-.
    exists out. split; [done|]. intros ->. by apply Hn.
Qed.

Lemma decode_hash_Some hl sl h r r' :
  decode_hash hl sl h r = Some r' -> exists h' s', h = h' ++ s' /\ 
    ((r' = set_signature s' (set_hash h' r)) \/ (r' = set_hash h r /\ s' = [])).
Proof.
  unfold decode_hash. destruct (_ && _).
  - destruct (_ <? _); [done|]. intros [= <-]. eexists _, _. split; [symmetry; apply take_drop|]. by left.
  - intros [= <-]. exists h, []. rewrite app_nil_r. split; [done|]. by right.
Qed.

Lemma split_last3 {A} (l : list A) : (3 <= length l)%nat -> exists mid i h e, l = mid ++ [i; h; e].
Proof.
  intros H. pose proof (take_drop (length l - 3) l) as Ht.
  assert (Hd : length (drop (length l - 3) l) = 3%nat) by (rewrite length_drop; lia).
  destruct (drop (length l - 3) l) as [|i [|h [|e []]]]; try done. by exists (take (length l - 3) l), i, h, e.
Qed.

(** [Decode] takes the current syntax or falls back to the legacy one. *)
Lemma Decode_cases s hl sl r :
  Z.of_nat (length s) <= 2 ^ 31 ->
  (exists pre mid i h e, segments_of s = pre ++ kSystemId :: mid ++ [i; h; e] /\ (kSystemId ∉ pre) /\ pre <> []) \/
  Decode s hl sl r = LegacyDecode s (set_options [] (set_experiment [] r)).
Proof.
  intros Hlen. unfold Decode. rewrite Split_pieces by done. cbn [mbind option_bind app non_empty]. cbv zeta.
  set (l := pieces _ s). destruct (_ && _) eqn:E; [left|by right].
  apply andb_true_iff in E as [H1 H2]. apply Z.leb_le in H1, H2.
  destruct (system_id_loop_spec l 0 ltac:(done)) as [[Hi _]|(pre & post & Hl & Hpre & Hi)]; [lia|].
  rewrite Hi in *. rewrite Hl, length_app in H2. cbn [length] in H2.
  destruct (split_last3 post) as (mid & i & h & e & ->); [lia|].
  exists pre, mid, i, h, e. split; [exact Hl|]. split; [done|]. intros ->. cbn in H1. lia.
Qed.

Lemma decode_middle_encoded r m r0 :
  encoded_middle r m -> decodable r -> experiment_ r0 = [] -> options_ r0 = [] ->
  (if bool_decide (concat (map segments_of m) = []) then Some (true, r0)
   else Some (decode_middle (JoinCollection (concat (map segments_of m)) kSeparatorString) r0)) =
  Some (true, set_options (options_ r) (set_experiment (experiment_ r) r0)).
Proof.
  intros Hm (_ & Hexp & Hopt) H1 H2.
  destruct Hm as [(-> & He & Ho)|[(-> & He & Ho)|(e & -> & He & Ho & Henc)]]; cbn [map concat].
  - rewrite bool_decide_eq_true_2, He, Ho by done. destruct r0; cbn in *. by subst.
  - rewrite app_nil_r, bool_decide_eq_false_2 by apply segments_nonempty. unfold kSeparatorString. rewrite Join_pieces, Ho.
    destruct Hexp as [|(c & -> & Hc)]; [done|]. rewrite decode_middle_experiment by done.
    destruct r0; cbn in *. by subst.
  - rewrite app_nil_r, bool_decide_eq_false_2 by apply segments_nonempty. unfold kSeparatorString. rewrite Join_pieces, He.
    destruct (Encode_encodes (options_ r) []) as (e' & He' & Hd%encodes_decode). rewrite He' in Henc.
    injection Henc as <-. rewrite (decode_middle_options e' (options_ r)); [|done| |by apply Hopt|done].
    + destruct r0; cbn in *. by subst.
    + intros ->. cbn in Hd. congruence.
Qed.

(** ** Properties *)

(** C24: Decoding an encoded resource name gives its fields back, whatever the
    namer held before: the name may have dots, the options any bytes, the hash
    and the signature are separated by their lengths. Only the signature keeps
    its old value when the name has none. No segment of the name is [pagespeed],
    the experiment is empty or a lower-case letter, and the options are not
    encoded in a single character ([decodable]). *)
Theorem ResourceNamer_roundtrip (r old : ResourceNamer) (s : bytes) (hash_length signature_length : Z) :
  Encode r = Some s -> decodable r -> signature_lengths r hash_length signature_length ->
  Z.of_nat (length s) < 2 ^ 31 ->
  Decode s hash_length signature_length old =
    Some (true, set_signature (if bool_decide (signature_ r = []) then signature_ old else signature_ r) r).
Proof.
  intros Henc Hdec Hsig Hlen. pose proof Henc as (m & Hm & Hseg)%Encode_segments.
  rewrite (Decode_segments s _ _ _ _ _ _ _ _ ltac:(lia) Hseg (proj1 Hdec) (segments_nonempty _)).
  rewrite decode_hash_signed; [|done|].
  2:{ apply Encode_spec in Henc as (_ & _ & _ & _ & _ & _ & (m' & Hm' & Hs)%InternalEncode_spec).
      pose proof (EventualSize_length r s m' Hm' Hs). lia. }
  cbn [mbind option_bind]. cbv zeta. rewrite (decode_middle_encoded r) by done.
  unfold kSeparatorString. rewrite Join_pieces. by destruct r, old.
Qed.

(** A name that [Decode] reads in the current syntax is encoded back to the
    same string, unless it has options, whose escaping is not unique; names
    without the system ID go through the legacy syntax. *)
Lemma Decode_Encode (s : bytes) (hash_length signature_length : Z) (old r : ResourceNamer) :
  Z.of_nat (length s) <= 2 ^ 31 -> signature_ old = [] ->
  Decode s hash_length signature_length old = Some (true, r) -> options_ r = [] ->
  InternalEncode r = Some s \/
  LegacyDecode s (set_options [] (set_experiment [] old)) = Some (true, r).
Proof.
  intros Hlen Hold Hdec Hopt.
  destruct (Decode_cases s hash_length signature_length old Hlen)
    as [(pre & mid & i & h & e & Hseg & Hpre & Hne)|Hl]; [left|right; congruence].
  rewrite (Decode_segments _ _ _ _ _ _ _ _ _ Hlen Hseg Hpre Hne) in Hdec.
  pose proof (Join_pieces kSeparatorChar s) as Hs. rewrite Hseg in Hs. fold kSeparatorString in Hs.
  destruct (decode_hash _ _ _ _) as [r'|] eqn:Hh; [|done]. cbn [mbind option_bind] in Hdec.
  apply decode_hash_Some in Hh as (h' & s' & -> & Hr').
  assert (Hr : experiment_ r' = [] /\ options_ r' = [] /\ name_ r' = JoinCollection pre kSeparatorString /\
    ext_ r' = e /\ hash_ r' ++ signature_ r' = h' ++ s').
  { destruct Hr' as [->|[-> ->]]; cbn; [done|]. by rewrite Hold, !app_nil_r. }
  destruct Hr as (H1 & H2 & H3 & H4 & H5). clear Hr' Hold old Hseg.
  rewrite (Join_app pre) in Hs by done. change (kSystemId :: mid ++ ?x) with ([kSystemId] ++ (mid ++ x)) in Hs.
  rewrite (Join_app [kSystemId]), JoinCollection_one in Hs by (done || by destruct mid).
  apply InternalEncode_spec. cbv zeta in Hdec. case_bool_decide as Hmid.
  - injection Hdec as <-. exists []. split; [by left|]. subst mid. cbn [app] in *.
    cbn [name_ id_ hash_ signature_ ext_ set_id]. rewrite H3, H4, H5, !JoinCollection_cons in *. by rewrite <- Hs.
  - injection Hdec as Hdec. apply decode_middle_true in Hdec as (Hj & [->|(o & -> & Ho)]).
    + exists [JoinCollection mid kSeparatorString]. split; [by right; left|]. cbn [app].
      cbn [name_ id_ hash_ signature_ ext_ set_id set_experiment]. rewrite H3, H4, H5.
      rewrite (Join_app mid) in Hs by done. rewrite !JoinCollection_cons in *. by rewrite <- Hs.
    + cbn in Hopt. rewrite H2 in Hopt. done.
Qed.

(** [EventualSize] computed before the hash and the signature are known is
    the length of the encoded name. *)
Lemma EventualSize_exact (r : ResourceNamer) (s : bytes) (HashSizeInChars signature_length : Z) :
  Encode r = Some s -> (length (experiment_ r) <= 1)%nat ->
  Z.of_nat (length (hash_ r)) = HashSizeInChars -> Z.of_nat (length (signature_ r)) = signature_length ->
  Z.of_nat (length s) < 2 ^ 31 ->
  EventualSize HashSizeInChars signature_length r = Some (Z.of_nat (length s)).
Proof.
  intros (_ & _ & _ & _ & _ & _ & (m & Hm & Hs)%InternalEncode_spec)%Encode_spec He <- <- Hlen.
  pose proof (EventualSize_length r s m Hm Hs) as Hl. unfold EventualSize, has_experiment, has_options.
  change kOverhead with 13.
  destruct Hm as [(-> & -> & ->)|[(-> & Hne & ->)|(e & -> & -> & Hne & Henc)]].
  - rewrite !bool_decide_eq_true_2 by done. cbn [negb middle_size length] in *. rewrite i32_small by lia. f_equal. lia.
  - rewrite bool_decide_eq_false_2 by done. cbn [negb]. destruct (experiment_ r) as [|c [|]]; [done| |cbn in He; lia].
    cbn [length middle_size] in Hl. rewrite !i32_small; [f_equal; lia|lia|]. rewrite i32_small; lia.
  - rewrite bool_decide_eq_true_2, bool_decide_eq_false_2, Henc by done. cbn [negb mbind option_bind middle_size] in *.
    rewrite !i32_small; [f_equal; lia|lia|]. rewrite i32_small; lia.
Qed.

(** Two resources have the same id-and-name key only if both parts agree. *)
Lemma EncodeIdName_injective (r1 r2 : ResourceNamer) (key : bytes) :
  EncodeIdName r1 = Some key -> EncodeIdName r2 = Some key -> id_ r1 = id_ r2 /\ name_ r1 = name_ r2.
Proof.
  unfold EncodeIdName. destruct (no_separator (id_ r1)) eqn:H1; [|done]. destruct (no_separator (id_ r2)) eqn:H2; [|done].
  apply no_separator_spec in H1, H2. intros [= <-] [= Heq]. revert H1 H2 Heq. generalize (id_ r1), (id_ r2).
  induction l as [|c l IH]; intros [|d l']; cbn; rewrite ?not_elem_of_cons.
  - by intros _ _ [= ->].
  - intros _ [Hd _] H. exfalso. apply Hd. by injection H as H _.
  - intros [Hc _] _ H. exfalso. apply Hc. by injection H as H _.
  - intros [_ Hl] [_ Hl'] [= -> Heq]. by destruct (IH l' Hl Hl' Heq) as [-> ->].
Qed.

(** Options of one pass-through character are read back as an experiment or
    rejected. *)
Lemma short_options_lost (c : ascii) (old : ResourceNamer) :
  is_lower c = true -> (c <> "h"%char) ->
  exists s, Encode (mkResourceNamer (lit "cf") [c] (lit "a.css") (lit "0") (lit "css") [] []) = Some s /\
    Decode s 1 0 old = Some (true, mkResourceNamer (lit "cf") [] (lit "a.css") (lit "0") (lit "css") [c] (signature_ old)).
Proof.
  intros Hc Hh. exists (lit "a.css.pagespeed." ++ c :: lit ".cf.0.css").
  pose proof (all_ascii (fun c => negb (is_lower c) || (c =c "h"%char) ||
    (bool_decide (Encode (mkResourceNamer (lit "cf") [c] (lit "a.css") (lit "0") (lit "css") [] []) =
       Some (lit "a.css.pagespeed." ++ c :: lit ".cf.0.css")) &&
     bool_decide (segments_of (lit "a.css.pagespeed." ++ c :: lit ".cf.0.css") =
       [lit "a"; lit "css"; kSystemId; [c]; lit "cf"; lit "0"; lit "css"]))) ltac:(by vm_compute) c) as H.
  cbn beta in H. rewrite Hc, bool_decide_eq_false_2 in H by done. cbn [negb orb] in H.
  rewrite andb_true_iff, !bool_decide_eq_true in H. destruct H as [-> H]. split; [done|].
  rewrite (Decode_segments (lit "a.css.pagespeed." ++ c :: lit ".cf.0.css") 1 0 old [lit "a"; lit "css"] [[c]] (lit "cf") (lit "0") (lit "css"));
    [|cbn; lia|exact H|by apply (bool_decide_unpack _); vm_compute|done].
  cbn [mbind option_bind decode_hash]. unfold decode_hash. cbn [Z.ltb Z.compare andb mbind option_bind].
  cbv zeta. rewrite bool_decide_eq_false_2, JoinCollection_one, decode_middle_experiment by done. done.
Qed.

(** *** Witnesses *)

Definition example_namer : ResourceNamer :=
  mkResourceNamer (lit "ic") (lit "x=1,y") (lit "50x50xcat.v2.gif") (lit "Hash012345") (lit "gif") [] (lit "Sig0").

Lemma ResourceNamer_roundtrip_witness :
  Decode (lit "50x50xcat.v2.gif.pagespeed.x=1,,y.ic.Hash012345Sig0.gif") 10 4 new_namer =
    Some (true, set_signature (if bool_decide (signature_ example_namer = []) then signature_ new_namer
                               else signature_ example_namer) example_namer).
Proof.
  apply ResourceNamer_roundtrip; [by vm_compute| |by left|done]. split; [by apply (bool_decide_unpack _); vm_compute|].
  split; [by left|]. intros e He. assert (He' : Some (lit "x=1,,y") = Some e) by (rewrite <- He; by vm_compute).
  injection He' as <-. done.
Defined.



