(* ===== verification/RollingHash.v ===== *)
(** * Rolling hash

    Model of [pagespeed/kernel/base/rolling_hash.{h,cc}]: the 64-bit
    polynomial hash that [FastWildcardGroup] slides over a string.  A
    [const char*] buffer is the list of its bytes, so that a read outside of
    it is visible ([None]); a [uint64] is a [Z] in [0, 2^64). *)

From S2P Require Import Prelude.

(** ** Definitions *)

(** [kRollingHashCharTable]. *)
Definition kRollingHashCharTable : list Z :=
  [
   0xf0dcd27e0762b251; 0xb621e668da0b3d53; 0xce8c72d316e9293c;
   0xe958017c3359bad5; 0x6b11ca3935e9bb14; 0x64f67431b8b0bcb4;
   0x8c4dd71ad988d23e; 0x24936d1c08aff78d; 0x69ecc7f3052e0396;
   0xcdc8f08d999754c5; 0x39ab6e32568685cd; 0x4e4f289b8b96e626;
   0xa3c3cb4a32546b3d; 0xe929810fec372e4d; 0xfd94f0e82a05ac37;
   0x3b71322f12f04f66; 0x8ad767cc6b92f018; 0xb4fff19004481ff1;
   0xc9a1422e55e9d8bb; 0x016fccc64de16d17; 0xd27154733cd80e3e;
   0x3f837bd6c3588413; 0x2c493e9f8c70ee0e; 0xb45526d0cdcae876;
   0xfa8778e134e91383; 0x0e8f821f8c783f69; 0xc28fd9493d9268e9;
   0xf5b90b302376dc19; 0x12d5edf71944c0b9; 0x3de65234604d9f95;
   0x6e0b7823a5ab650f; 0xf30d1b84d74f542c; 0xd59ea7a1a04daa1e;
   0xc322bb145da0eaee; 0x9f55e20e76bc821c; 0x84eb8f72c858db2c;
   0x0727b30ff9b3080f; 0x40cb8bf1f3e4114f; 0x379d10f1f0166fc2;
   0x8766af09de794470; 0x4cebe022f58b47f0; 0x75d232d0c4a94ebb;
   0xc63ba1fbd098199c; 0xa0d947c29f383a9e; 0x3bfd354a0404e6de;
   0x9d3164f90bd471a3; 0x357f031c2b1cee0e; 0x47bb2d71880becd1;
   0xc048dc946fd9dd85; 0xa21e8226ed9b2db9; 0xad06169fbe3a05a9;
   0x0a7b91d58f44e29b; 0x36bdd30c057a61ba; 0xcb78135eb2c3b107;
   0xa65907ee1f4209dd; 0x0962bb3ccf9816f2; 0xceb546dda951601e;
   0x5e5769344a1f8f21; 0x1fe188e97a0685ee; 0x59d0d4289c5edacb;
   0xaa212857bb62f723; 0xa527e223de884ece; 0x9c9a15c9aa56eba4;
   0x9b16d95901aee267; 0xf4c5b630931f11e9; 0x3df802e7e85a6750;
   0x4968f654cce17653; 0xfc3bc0ad02761567; 0xff18ec7e401c445d;
   0x2f844385f9c31b7a; 0x88d750f43c6989ed; 0x4bb020be66f231f9;
   0x12502d671fa7f487; 0x1926420bae67fb5a; 0x2acb699d19d6c4d4;
   0x5cdb79d0349158ea; 0x67e93d1bf4815342; 0x43dc874f7024e36d;
   0xb92097281fed49b6; 0x62ed4f7a0a6958a9; 0x574c6b02ae6f3626;
   0xd49b443e8932f23d; 0x7dc50d1a701aab7a; 0x48621174dff0fd92;
   0x5746557ae580c35e; 0x4bc7f97a8ebc2480; 0x07e620aad2f7b646;
   0x1285636d57e3f612; 0x9f6cd306e5514c5c; 0x0de00632f6f709d7;
   0x7aa301698adee68b; 0x2df10184f4cfd4ec; 0x5f5b744cf78e8048;
   0x88ebe0a2615fe4b3; 0xcb6f29a29401f98f; 0x9c306f274e66d287;
   0x88f632944f2ccdd9; 0x63bcf4a925db4311; 0xc6d2f5e9c0a50b72;
   0xd6a731846a17be49; 0x2fd613caa70c235e; 0x534de67031253fac;
   0x4c685e47e9592796; 0x9b153e27865bd258; 0xd614462b61589f7d;
   0x1532cb94e28d8cbf; 0x91497f579632a631; 0x26e3a246cc96fb61;
   0xb28d962661bf129b; 0x85da5d60a6ae5aa3; 0x0a9a1f6cb7c3e6a0;
   0xae039586bd8c7f11; 0x0bfd1a8454e77964; 0xd6fa6b85a423d107;
   0x015c3ab5134f69fc; 0xdab1025b8bed7c18; 0xdf404b3edca12395;
   0xad3d2d77444e1887; 0x92654b67bda1e990; 0xc412fe06d4e29f1e;
   0x2d382f434b99af46; 0x8cb666ada86575a1; 0x833d4b153f5f5405;
   0x6007f6c51629e797; 0xd8a1f922cba896e3; 0x2c9b5a1a249f9e47;
   0xd899781c79cb063b; 0x911f5c7513ea3c91; 0x0c77ae198ca79978;
   0x20ba7b1e0c97d74c; 0xb3711eccdd549521; 0x0a94dc19e59543df;
   0x3b348e9c6b0e36a6; 0x9627b15951a7a6b8; 0x9193dc839dbe7049;
   0xba707aa6a2add40e; 0x1777251ac57b2a2a; 0xca6c2edba50c4c4f;
   0xa6c43cd31526ff60; 0x310d05dff737a640; 0xa8663ab4709bdd52;
   0xd05f9d24885f3b94; 0x8c863ea5aafb221d; 0x21ef263381f8cd63;
   0x4b6fb4a8bc5458aa; 0xc1d84b559be971b0; 0x210fb1bab7f15072;
   0xe66ee09a51a55963; 0x39c21db635c08deb; 0xf05b979841675d0d;
   0x2978a9f732d96470; 0x4dce978a19c3a1f1; 0x5c0e92ab7319cd99;
   0x743b286678d9e686; 0xdaf46993e90a5e81; 0x96dc2e0adcbb0d16;
   0xd95690fe868663d8; 0x66ef0231433f2b39; 0x30774974792d96cc;
   0x44ffb0e25c47c44e; 0x4cd9b89be5889713; 0xe62e5a6014f07cf3;
   0xb56ac85a8af4dea0; 0xde92b05ba2e1b34a; 0x23fd1311f823b78c;
   0xff80ac0f287ec43c; 0x5d90a3866dd95fc0; 0xdec51083823f593f;
   0x86ad4349ac174fae; 0xaedff28454b16a41; 0x3d8bc08e3f2e0c9d;
   0xf86319f232a3c729; 0xcd5e5e0f94263499; 0x8d7ba52980b19b79;
   0xa67e8a3d335c81d2; 0x65d09ac6aa0fdab2; 0xc1795b7f5b644a20;
   0xec83e7447c32d0dc; 0x6f90245af445f4ae; 0x56d70cadcc4a28fc;
   0xaf264eb82bcc4f90; 0xa16010fce3634aff; 0x8ea336b9c2c1e45b;
   0x7680ddb84af244bb; 0xf97371315d450666; 0x8166dfa721896adc;
   0x3648e8d5b8d995d8; 0xa63975a605b31cf2; 0x35e60de4a3359ad4;
   0x9b81705b2e4be07b; 0xb9ae701a8eb85593; 0xaedecc0d138f3115;
   0x8a1fdbb92e3423c1; 0xb0c96dee77615860; 0x629b7c06bf44e634;
   0x696eb82aa746b1e1; 0x02efce1165256d4f; 0x69d7a6b7150117a6;
   0x9dcc2d6e896e5681; 0xcd815845d154cfbe; 0x28ea53acb6da26f0;
   0x7100bc4d21fe52df; 0x653e558ec969142f; 0x83d730de45a0f5d4;
   0x3831dd5c5647e4b1; 0x0f4072bf5123e9d5; 0xa642dce46ec285ee;
   0xae995373b5193c28; 0xf0f3dafb8a611288; 0xbc482a9e9b15c5ab;
   0x41668ebcdc7cc0f4; 0xcdaaef0cd5519603; 0xebc0b08ad6d7c0e5;
   0xb35073399de97c08; 0x97e4241d5f265b52; 0x2e52578c54e99676;
   0x288a75c28fad917b; 0x466e1dd37d710926; 0x25fd42c4845ce5fc;
   0xe0a1137fa3234b76; 0xfbfc21548eb90370; 0x8c4cf202e1e875fe;
   0x9b7cd1e8a5aaa1a1; 0x2dec3dc9615ca561; 0xb4458b07977eea11;
   0x75cea1e7a8560366; 0x109bf4b3b2e39a46; 0xdf8ed90441ba266b;
   0xd1856901e5f8bac7; 0x7a8b4ab2edd81a62; 0xb1ae8556c90ae5cb;
   0x42d15186c967771f; 0xa07cdf5a38a872a9; 0x986954db9832aceb;
   0xf130e68aa4fce616; 0xcc0caef3d0c76c52; 0x2c6a3fe49a7d500e;
   0x076cb3ad48ed1b85; 0xe6f8d0aecbb14027; 0x2cbe5b65d4e5c490;
   0x9dac9ec2da0d12a7; 0x14ab4abbd07e5ab0; 0xae99ca6cb4cd1e03;
   0x3bcd346450954fba; 0x2430fee89dd27a62; 0x7dc551166f0c94f8;
   0x87947cbebe2a5031; 0x67003a8dfe2fd1b0; 0xfed080735857b507;
   0x5097a42c664d9bf9; 0x9389590f671cf117; 0x9c5781b4f071956d;
   0x9c16eac9bd72017a; 0x45186d635717d743; 0x3f375208bc7ce161;
   0x768cd5d30f885c47
  ]%Z.

(** Indexing the table by [static_cast<uint8>(c)]; all 256 indices exist. *)
Definition char_hash (c : ascii) : Z :=
  nth (N.to_nat (N_of_ascii c)) kRollingHashCharTable 0.

(** [(hash << 1) | (hash >> 63)] on [uint64]. *)
Definition rotl1 (h : Z) : Z := Z.lor (u64 (Z.shiftl h 1)) (Z.shiftr h 63).

(** The loop of [RollingHash]: [n] more bytes from the start of [buf]. *)
Fixpoint RollingHash_loop (buf : bytes) (n : nat) (hash : Z) : option Z :=
  match n, buf with
  | O, _ => Some hash
  | S n', c :: buf' => RollingHash_loop buf' n' (Z.lxor (rotl1 hash) (char_hash c))
  | S _, [] => None
  end.

Definition RollingHash (buf : bytes) (start n : nat) : option Z :=
  if (start <=? length buf)%nat then RollingHash_loop (drop start buf) n 0 else None.

(** [NextRollingHash]; [None] also when [CHECK_LT(0, start)] fails. *)
Definition NextRollingHash (buf : bytes) (start n : nat) (prev : Z) : option Z :=
  if (0 <? start)%nat then
    first ← buf !! (start - 1)%nat;
    last ← buf !! (start - 1 + n)%nat;
    let start_hash := char_hash first in
    let end_hash := char_hash last in
    let prev_rot1 := rotl1 prev in
    let shift := Z.of_nat n mod 64 in
    let start_hash_rotn :=
      if shift =? 0 then start_hash
      else Z.lor (u64 (Z.shiftl start_hash shift)) (Z.shiftr start_hash (64 - shift)) in
    Some (Z.lxor (Z.lxor start_hash_rotn prev_rot1) end_hash)
  else None.

(** ** Rotations on 64-bit words *)

Definition word64 (h : Z) : Prop := 0 <= h < 2 ^ 64.

(** Rotation left by [s], [0 < s < 64], as [NextRollingHash] writes it. *)
Definition rotl (h s : Z) : Z := Z.lor (u64 (Z.shiftl h s)) (Z.shiftr h (64 - s)).

Lemma word64_high h i : word64 h -> 64 <= i -> Z.testbit h i = false.
Proof.
  intros [H0 H1] Hi. destruct (Z.eq_dec h 0) as [->|Hn]; [apply Z.testbit_0_l|].
  apply Z.bits_above_log2; [done|]. apply Z.log2_lt_pow2; [lia|].
  apply Z.lt_le_trans with (2 ^ 64); [done|]. by apply Z.pow_le_mono_r.
Qed.

Lemma word64_ext a b :
  word64 a -> word64 b ->
  (forall i, 0 <= i < 64 -> Z.testbit a i = Z.testbit b i) -> a = b.
Proof.
  intros Ha Hb H. apply Z.bits_inj'. intros i Hi.
  destruct (Z_lt_le_dec i 64) as [?|?]; [by apply H|].
  by rewrite !word64_high.
Qed.

Lemma word64_of_bits h : 0 <= h -> (forall i, 64 <= i -> Z.testbit h i = false) -> word64 h.
Proof.
  intros H0 H. split; [done|].
  destruct (Z.eq_dec h 0) as [->|Hn]; [done|].
  apply Z.log2_lt_pow2; [lia|].
  destruct (Z_lt_le_dec (Z.log2 h) 64) as [?|Hge]; [done|].
  pose proof (Z.bit_log2 h ltac:(lia)) as Hb. rewrite H in Hb by done. done.
Qed.

Lemma word64_lxor a b : word64 a -> word64 b -> word64 (Z.lxor a b).
Proof.
  intros Ha Hb. apply word64_of_bits.
  - apply Z.lxor_nonneg. destruct Ha, Hb. lia.
  - intros i Hi. by rewrite Z.lxor_spec, !word64_high.
Qed.

Lemma rotl_bit h s i :
  word64 h -> 0 < s < 64 -> 0 <= i < 64 ->
  Z.testbit (rotl h s) i = Z.testbit h ((i - s) mod 64).
Proof.
  intros Hh Hs Hi. unfold rotl, u64.
  rewrite Z.lor_spec, Z.mod_pow2_bits_low, Z.shiftl_spec, Z.shiftr_spec by lia.
  destruct (Z_lt_le_dec i s).
  - rewrite Z.testbit_neg_r by lia. cbn [orb].
    f_equal. apply Z.mod_unique with (-1); lia.
  - rewrite (word64_high h (i + _)) by (done || lia). rewrite orb_false_r.
    f_equal. rewrite Z.mod_small; lia.
Qed.

Lemma word64_rotl h s : word64 h -> 0 < s < 64 -> word64 (rotl h s).
Proof.
  intros Hh Hs. unfold rotl, u64. apply word64_of_bits.
  - apply Z.lor_nonneg. split; [apply Z.mod_pos_bound; lia|].
    apply Z.shiftr_nonneg. by destruct Hh.
  - intros i Hi. rewrite Z.lor_spec, Z.mod_pow2_bits_high, Z.shiftr_spec by lia.
    by rewrite word64_high by (done || lia).
Qed.

Lemma rotl1_rotl h : rotl1 h = rotl h 1.
Proof. reflexivity. Qed.

Lemma word64_rotl1 h : word64 h -> word64 (rotl1 h).
Proof. intros. rewrite rotl1_rotl. apply word64_rotl; [done|lia]. Qed.

(** [n] single rotations. *)
Fixpoint rotls (n : nat) (h : Z) : Z :=
  match n with
  | O => h
  | S n' => rotl1 (rotls n' h)
  end.

Lemma rotls_0 n : rotls n 0 = 0.
Proof. induction n as [|n IH]; cbn; [done|by rewrite IH]. Qed.

Lemma word64_iter n h : word64 h -> word64 (rotls n h).
Proof. intros Hh. induction n as [|n IH]; cbn; [done|by apply word64_rotl1]. Qed.

Lemma rotl1_lxor a b :
  word64 a -> word64 b -> rotl1 (Z.lxor a b) = Z.lxor (rotl1 a) (rotl1 b).
Proof.
  intros Ha Hb. rewrite !rotl1_rotl. apply word64_ext.
  - by apply word64_rotl; [apply word64_lxor|].
  - by apply word64_lxor; apply word64_rotl.
  - intros i Hi. rewrite Z.lxor_spec, !rotl_bit, Z.lxor_spec by (try apply word64_lxor; (done || lia)).
    done.
Qed.

Lemma iter_rotl1_bit n h i :
  word64 h -> 0 <= i < 64 ->
  Z.testbit (rotls n h) i = Z.testbit h ((i - Z.of_nat n) mod 64).
Proof.
  intros Hh. revert i. induction n as [|n IH]; intros i Hi.
  - cbn. by rewrite Z.sub_0_r, Z.mod_small.
  - cbn [rotls].
    rewrite rotl1_rotl, rotl_bit by (try apply word64_iter; (done || lia)).
    rewrite IH by (apply Z.mod_pos_bound; lia).
    f_equal. rewrite Zminus_mod_idemp_l. f_equal. lia.
Qed.

(** The shift trick of [NextRollingHash] is [n] single rotations. *)
Lemma rotn_iter n h :
  word64 h ->
  (if Z.of_nat n mod 64 =? 0 then h
   else Z.lor (u64 (Z.shiftl h (Z.of_nat n mod 64)))
          (Z.shiftr h (64 - Z.of_nat n mod 64)))
  = rotls n h.
Proof.
  intros Hh. pose proof (Z.mod_pos_bound (Z.of_nat n) 64 ltac:(lia)) as Hm.
  destruct (Z.eqb_spec (Z.of_nat n mod 64) 0) as [E|E].
  - apply word64_ext; [done|by apply word64_iter|]. intros i Hi.
    rewrite iter_rotl1_bit by done. f_equal.
    rewrite Zminus_mod, E, Z.sub_0_r, Z.mod_mod, Z.mod_small; lia.
  - fold (rotl h (Z.of_nat n mod 64)). apply word64_ext.
    + apply word64_rotl; [done|lia].
    + by apply word64_iter.
    + intros i Hi. rewrite rotl_bit, iter_rotl1_bit by (done || lia).
      f_equal. apply Zminus_mod_idemp_r.
Qed.

(** ** The hash of a window *)

Lemma kRollingHashCharTable_word64 :
  forallb (fun h => (0 <=? h) && (h <? 2 ^ 64)) kRollingHashCharTable = true.
Proof. vm_compute. reflexivity. Qed.

Lemma char_hash_word64 c : word64 (char_hash c).
Proof.
  unfold char_hash. pose proof kRollingHashCharTable_word64 as HT.
  rewrite List.forallb_forall in HT.
  destruct (List.nth_in_or_default (N.to_nat (N_of_ascii c)) kRollingHashCharTable 0) as [Hin| ->].
  - apply HT in Hin. unfold word64. lia.
  - done.
Qed.

(** Reference definition: one rotate-and-xor per byte. *)
Definition hash_step (h : Z) (c : ascii) : Z := Z.lxor (rotl1 h) (char_hash c).
Definition hash_of (w : bytes) : Z := fold_left hash_step w 0.

Lemma hash_step_word64 h c : word64 h -> word64 (hash_step h c).
Proof. intros. apply word64_lxor; [by apply word64_rotl1|apply char_hash_word64]. Qed.

Lemma fold_hash_word64 w h : word64 h -> word64 (fold_left hash_step w h).
Proof. revert h. induction w as [|c w IH]; intros h Hh; cbn; [done|]. by apply IH, hash_step_word64. Qed.

Lemma hash_of_word64 w : word64 (hash_of w).
Proof. by apply fold_hash_word64. Qed.

Lemma RollingHash_loop_hash_of buf n h :
  (n <= length buf)%nat ->
  RollingHash_loop buf n h = Some (fold_left hash_step (take n buf) h).
Proof.
  revert n h. induction buf as [|c buf IH]; intros [|n] h Hn; cbn in *; [done|lia|done|].
  apply IH. lia.
Qed.

Lemma RollingHash_hash_of buf start n :
  (start + n <= length buf)%nat ->
  RollingHash buf start n = Some (hash_of (take n (drop start buf))).
Proof.
  intros H. unfold RollingHash. rewrite (proj2 (Nat.leb_le _ _)) by lia.
  apply RollingHash_loop_hash_of. rewrite length_drop. lia.
Qed.

Lemma fold_hash_init w h :
  word64 h ->
  fold_left hash_step w h = Z.lxor (rotls (length w) h) (hash_of w).
Proof.
  revert h. induction w as [|c w IH] using rev_ind; intros h Hh.
  { cbn. by rewrite Z.lxor_0_r. }
  unfold hash_of. rewrite !fold_left_app. cbn [fold_left].
  rewrite (IH h), (IH 0) by done. rewrite length_app, Nat.add_comm. cbn [length Nat.add].
  unfold hash_step.
  rewrite !rotl1_lxor by (try apply word64_iter; (done || apply hash_of_word64)).
  rewrite <- !Z.lxor_assoc. repeat f_equal.
  cbn [rotls]. by rewrite rotls_0, Z.lxor_0_r.
Qed.

(** Sliding the window by one byte. *)
Lemma hash_of_slide c w e :
  Z.lxor (Z.lxor (rotls (S (length w)) (char_hash c)) (rotl1 (hash_of (c :: w))))
    (char_hash e) = hash_of (w ++ [e]).
Proof.
  unfold hash_of at 2. rewrite fold_left_app. cbn [fold_left]. fold (hash_of w).
  unfold hash_of at 1. cbn [fold_left]. unfold hash_step at 2. change (rotl1 0) with 0.
  rewrite Z.lxor_0_l, fold_hash_init by apply char_hash_word64.
  rewrite rotl1_lxor by (apply word64_iter, char_hash_word64 || apply hash_of_word64).
  cbn [rotls].
  rewrite <- Z.lxor_assoc, Z.lxor_nilpotent, Z.lxor_0_l. done.
Qed.

(** ** Correctness of the incremental hash *)

Lemma NextRollingHash_hash_of buf start n :
  (0 < start)%nat -> (start + n <= length buf)%nat ->
  NextRollingHash buf start n (hash_of (take n (drop (start - 1) buf)))
  = Some (hash_of (take n (drop start buf))).
Proof.
  intros H0 H. unfold NextRollingHash. rewrite (proj2 (Nat.ltb_lt _ _)) by done.
  destruct (lookup_lt_is_Some_2 buf (start - 1)) as [c Hc]; [lia|].
  destruct (lookup_lt_is_Some_2 buf (start - 1 + n)) as [e He]; [lia|].
  rewrite Hc, He. cbn [mbind option_bind]. rewrite rotn_iter by apply char_hash_word64.
  f_equal. destruct n as [|n].
  - rewrite Nat.add_0_r, Hc in He. injection He as ->. cbn.
    by rewrite Z.lxor_0_r, Z.lxor_nilpotent.
  - assert (Hd : drop (start - 1) buf = c :: drop start buf).
    { rewrite (drop_S buf c (start - 1)) by done. do 2 f_equal. lia. }
    rewrite Hd. cbn [take]. set (w := take n (drop start buf)).
    assert (Hw : length w = n) by (unfold w; rewrite length_take, length_drop; lia).
    rewrite <- Hw at 1. rewrite hash_of_slide. f_equal.
    rewrite (take_S_r _ n e); [done|]. rewrite lookup_drop, <- He. f_equal. lia.
Qed.

(** [NextRollingHash] on the hash of the window at [start - 1] is the hash
    of the window at [start], and neither reads outside the buffer. *)
Lemma NextRollingHash_correct buf start n :
  (0 < start)%nat -> (start + n <= length buf)%nat ->
  exists h h', RollingHash buf (start - 1) n = Some h /\ NextRollingHash buf start n h = Some h' /\
    RollingHash buf start n = Some h'.
Proof.
  intros H0 H. rewrite !RollingHash_hash_of by lia. eexists _, _. split; [done|].
  split; [|done]. by apply NextRollingHash_hash_of.
Qed.

