(* ===== verification/Wildcard.v ===== *)
(** * Wildcards

    Model of [pagespeed/kernel/base/wildcard.{h,cc}].  [InitFromSpec]
    canonicalizes a specification into blocks that each end in a star; [Match]
    locates the blocks in a candidate string.  Buffers are byte lists and
    pointers are offsets into them, so a read outside a buffer is [None], and
    so is a failed [DCHECK]. The specification is the relation [glob]; the
    results are that [Match] terminates without either and decides [glob]. *)

From S2P Require Import Prelude.

(** ** Definitions *)

Definition kMatchAny : ascii := "*".
Definition kMatchOne : ascii := "?".

(** The members of class [Wildcard]. *)
Record Wildcard : Type := mkWildcard {
  storage_ : bytes;
  num_blocks_ : nat;
  last_block_offset_ : nat;
  is_simple_ : bool
}.

(** The loop of [InitFromSpec], with its local [last_was_any]. *)
Fixpoint InitFromSpec_loop (wildcard_spec : bytes) (w : Wildcard) (last_was_any : bool)
  : Wildcard * bool :=
  match wildcard_spec with
  | [] => (w, last_was_any)
  | c :: rest =>
      if c =c kMatchAny then
        InitFromSpec_loop rest
          (mkWildcard (storage_ w) (num_blocks_ w) (last_block_offset_ w) false) true
      else if c =c kMatchOne then
        InitFromSpec_loop rest
          (mkWildcard (storage_ w ++ [c]) (num_blocks_ w) (last_block_offset_ w) false)
          last_was_any
      else
        let '(w, last_was_any) :=
          if last_was_any then
            (mkWildcard (storage_ w ++ [kMatchAny]) (S (num_blocks_ w))
               (length (storage_ w ++ [kMatchAny])) (is_simple_ w), false)
          else (w, last_was_any) in
        InitFromSpec_loop rest
          (mkWildcard (storage_ w ++ [c]) (num_blocks_ w) (last_block_offset_ w) (is_simple_ w))
          last_was_any
  end.

Definition InitFromSpec (wildcard_spec : bytes) : Wildcard :=
  let '(w, last_was_any) := InitFromSpec_loop wildcard_spec (mkWildcard [] 1 0 true) false in
  let w :=
    if last_was_any then
      mkWildcard (storage_ w ++ [kMatchAny]) (S (num_blocks_ w))
        (length (storage_ w ++ [kMatchAny])) (is_simple_ w)
    else w in
  mkWildcard (storage_ w ++ [kMatchAny]) (num_blocks_ w) (last_block_offset_ w) (is_simple_ w).

Definition IsSimple (w : Wildcard) : bool := is_simple_ w.

(** [StringPiece(storage_.data(), storage_.size() - 1)]. *)
Definition spec (w : Wildcard) : bytes := take (length (storage_ w) - 1) (storage_ w).

(** [MatchBlock(pat, str)]: the offset of the first mismatch or of the star
    that ends the block; the buffers are given from [pat] and [str] on. *)
Fixpoint MatchBlock (pat str : bytes) : option nat :=
  match pat with
  | [] => None
  | p :: pat' =>
      if p =c kMatchAny then Some O
      else
        match str with
        | [] => None
        | s :: str' =>
            if (p =c s) || (p =c kMatchOne) then S <$> MatchBlock pat' str'
            else Some O
        end
  end.

(** The [while (blocks_left > 0)] loop of [Match], with its [DCHECK]s.  [str] and
    [pat] are the offsets of the pointers of that name, [last_block_offset_] that of
    [pat_last_block]; [fuel] bounds the iterations. *)
Fixpoint Match_loop (fuel : nat) (w : Wildcard) (actual : bytes) (str_last_block : nat)
    (str pat blocks_left : nat) (chars_to_skip : Z) : option bool :=
  match blocks_left with
  | O => Some true
  | S blocks_left' =>
    match fuel with
    | O => None
    | S fuel' =>
      before ← storage_ w !! (pat - 1)%nat;
      pat0 ← storage_ w !! pat;
      if negb (kMatchAny =c before) || (kMatchAny =c pat0) || (kMatchOne =c pat0) ||
         negb (chars_to_skip + (Z.of_nat (last_block_offset_ w) - Z.of_nat pat) - Z.of_nat blocks_left =?
               Z.of_nat str_last_block - Z.of_nat str)
      then None else
      if (str_last_block <? str)%nat then None else
      match memchr (take (str_last_block - str) (drop str actual)) pat0 with
      | None => Some false
      | Some d =>
          let chars_to_skip := chars_to_skip - Z.of_nat d in
          if chars_to_skip <? 0 then Some false else
          let str := (str + d)%nat in
          m ← MatchBlock (drop (pat + 1) (storage_ w)) (drop (str + 1) actual);
          let ofs := (1 + m)%nat in
          pat_ofs ← storage_ w !! (pat + ofs)%nat;
          if pat_ofs =c kMatchAny then
            Match_loop fuel' w actual str_last_block (str + ofs) (pat + ofs + 1)
              blocks_left' chars_to_skip
          else
            let chars_to_skip := chars_to_skip - 1 in
            if chars_to_skip <? 0 then Some false
            else Match_loop fuel' w actual str_last_block (str + 1) pat
                   blocks_left chars_to_skip
      end
    end
  end.

(** [Match]: [None] would be a read outside a buffer, a failed [DCHECK] or lack of fuel. *)
Definition Match (w : Wildcard) (actual : bytes) : option bool :=
  if is_simple_ w then Some (bool_decide (actual = spec w)) else
  let chars_in_pat := Z.of_nat (length (storage_ w)) - Z.of_nat (num_blocks_ w) in
  let chars_to_skip := Z.of_nat (length actual) - chars_in_pat in
  if chars_to_skip <? 0 then Some false else
  let last_block_size := (length (storage_ w) - last_block_offset_ w - 1)%nat in
  let pat_last_block := last_block_offset_ w in
  if (length actual <? last_block_size)%nat then None else
  let str_last_block := (length actual - last_block_size)%nat in
  ofs ← MatchBlock (drop pat_last_block (storage_ w)) (drop str_last_block actual);
  p ← storage_ w !! (pat_last_block + ofs)%nat;
  if negb (p =c kMatchAny) then Some false else
  let blocks_left := (num_blocks_ w - 1)%nat in
  if (blocks_left =? 0)%nat then Some (chars_to_skip =? 0) else
  ofs ← MatchBlock (storage_ w) actual;
  p ← storage_ w !! ofs;
  if negb (p =c kMatchAny) then Some false else
  Match_loop (length actual + 1) w actual str_last_block ofs (ofs + 1)
    (blocks_left - 1) chars_to_skip.

(** [Duplicate]. *)
Definition Duplicate (w : Wildcard) : Wildcard :=
  mkWildcard (storage_ w) (num_blocks_ w) (last_block_offset_ w) (is_simple_ w).

(** ** Specification: the language of a wildcard *)

Inductive glob : bytes -> bytes -> Prop :=
| glob_nil : glob [] []
| glob_any_stop p s : glob p s -> glob (kMatchAny :: p) s
| glob_any_more p c s : glob (kMatchAny :: p) s -> glob (kMatchAny :: p) (c :: s)
| glob_one p c s : glob p s -> glob (kMatchOne :: p) (c :: s)
| glob_lit c p s : c <> kMatchAny -> c <> kMatchOne -> glob p s -> glob (c :: p) (c :: s).

Example Match_ex1 : Match (InitFromSpec (lit "a*?b*c")) (lit "aXXbbYc") = Some true.
Proof. vm_compute. reflexivity. Qed.
Example Match_ex2 : Match (InitFromSpec (lit "a*?b*c")) (lit "abc") = Some false.
Proof. vm_compute. reflexivity. Qed.

(** ** Facts about [glob] *)

(** A pattern byte against a candidate byte, inside a block. *)
Definition char_matches (p c : ascii) : Prop := p = kMatchOne \/ p = c.
Definition star_free (b : bytes) : Prop := kMatchAny ∉ b.

#[export] Instance char_matches_dec p c : Decision (char_matches p c).
Proof. unfold char_matches. apply _. Defined.

Create HintDb wildcard.
#[export] Hint Constructors glob : wildcard.

Lemma glob_any p s : glob (kMatchAny :: p) s <-> exists s1 s2, s = s1 ++ s2 /\ glob p s2.
Proof.
  split.
  - remember (kMatchAny :: p) as q eqn:Eq. intros H.
    induction H as [| p' s H _ |p' c s _ IH| |c p' s Hc]; simplify_eq.
    + by exists [], s.
    + destruct IH as (s1 & s2 & -> & ?); [done|]. by exists (c :: s1), s2.
  - intros (s1 & s2 & -> & H). induction s1; cbn; auto with wildcard.
Qed.

Lemma glob_app p q s :
  glob (p ++ q) s <-> exists s1 s2, s = s1 ++ s2 /\ glob p s1 /\ glob q s2.
Proof.
  revert s. induction p as [|c p IH]; intros s; cbn.
  - split; [intros H; exists [], s; auto with wildcard|].
    intros (s1 & s2 & -> & H1 & H2). by inversion H1.
  - destruct (decide (c = kMatchAny)) as [->|Hany].
    + rewrite glob_any. setoid_rewrite IH. split.
      * intros (s1 & s2 & -> & s3 & s4 & -> & H3 & H4).
        exists (s1 ++ s3), s4. rewrite app_assoc. repeat split; [|done].
        apply glob_any. eauto.
      * intros (s1 & s2 & -> & H1 & H2). apply glob_any in H1 as (s3 & s4 & -> & H).
        exists s3, (s4 ++ s2). rewrite app_assoc. eauto 10.
    + split.
      * intros H. inversion H as [| | |? d s' H'|? ? s' ? ? H']; simplify_eq.
        -- apply IH in H' as (s1 & s2 & -> & ? & ?).
           exists (d :: s1), s2. auto with wildcard.
        -- apply IH in H' as (s1 & s2 & -> & ? & ?).
           exists (c :: s1), s2. auto with wildcard.
      * intros (s1 & s2 & -> & H1 & H2).
        inversion H1 as [| | |? d s' H'|? ? s' ? ? H']; simplify_eq; cbn.
        -- apply glob_one, IH. eauto.
        -- apply glob_lit; [done..|]. apply IH. eauto.
Qed.

Lemma glob_star_free b s : star_free b -> glob b s <-> Forall2 char_matches b s.
Proof.
  unfold star_free. revert s. induction b as [|c b IH]; intros s Hb.
  - split; inversion 1; auto with wildcard.
  - rewrite not_elem_of_cons in Hb. destruct Hb as [Hc Hb]. split.
    + inversion 1; simplify_eq; constructor; try (by apply IH).
      * by left.
      * by right.
    + inversion 1 as [|? ? ? s' Hm HF]; simplify_eq.
      apply IH in HF; [|done]. destruct (decide (c = kMatchOne)) as [->|Hone].
      * auto with wildcard.
      * destruct Hm as [?|<-]; [done|]. auto with wildcard.
Qed.

(** Two patterns with the same language. *)
Definition glob_eq (p q : bytes) : Prop := forall s, glob p s <-> glob q s.

#[export] Instance glob_eq_equiv : Equivalence glob_eq.
Proof. split; repeat intro; unfold glob_eq in *; naive_solver. Qed.

#[export] Instance app_glob_eq : Proper (glob_eq ==> glob_eq ==> glob_eq) (@app ascii).
Proof.
  intros p p' Hp q q' Hq s. rewrite !glob_app. unfold glob_eq in *.
  setoid_rewrite Hp. by setoid_rewrite Hq.
Qed.

Lemma glob_star_star : glob_eq [kMatchAny; kMatchAny] [kMatchAny].
Proof.
  intros s. rewrite !glob_any. setoid_rewrite glob_any. split.
  - intros (s1 & ? & -> & s3 & s4 & -> & H). exists (s1 ++ s3), s4.
    by rewrite app_assoc.
  - intros (s1 & s2 & -> & H). exists s1, s2. split; [done|]. by exists [], s2.
Qed.

Lemma glob_star_one : glob_eq [kMatchAny; kMatchOne] [kMatchOne; kMatchAny].
Proof.
  intros s. split; intros H.
  - apply glob_any in H as (s1 & s2 & -> & H).
    inversion H as [| | |? c s' H'|]; simplify_eq. inversion H'; subst.
    destruct s1 as [|d s1]; cbn; apply glob_one; apply glob_any;
      eexists _, []; (split; [|constructor]); by rewrite app_nil_r.
  - inversion H as [| | |? c s' H'|]; simplify_eq.
    apply glob_any in H' as (s1 & s2 & -> & H'). inversion H'; subst. rewrite app_nil_r.
    apply glob_any. destruct s1 as [|e s1] using rev_ind.
    + exists [], [c]. auto with wildcard.
    + exists (c :: s1), [e]. auto with wildcard.
Qed.

(** ** The canonical form built by [InitFromSpec]

    [storage_] is a sequence of star-terminated blocks; every block but the
    first and the last starts with a literal. *)

Definition flat (bs : list bytes) : bytes := concat (map (fun b => b ++ [kMatchAny]) bs).

Definition mid_ok (b : bytes) : Prop := exists c b', b = c :: b' /\ c <> kMatchOne.

(** [w] before the sentinel star is appended, with blocks [ini ++ [last]]. *)
Record canon_open (w : Wildcard) (ini : list bytes) (last : bytes) : Prop := {
  co_storage : storage_ w = flat ini ++ last;
  co_blocks : num_blocks_ w = S (length ini);
  co_offset : last_block_offset_ w = length (flat ini);
  co_star_free : Forall star_free (ini ++ [last]);
  co_mid : Forall mid_ok (tail ini);
  co_last : ini = [] \/ last = [] \/ mid_ok last;
  co_simple : is_simple_ w = true -> ini = [] /\ kMatchOne ∉ last
}.

(** The finished object. *)
Record canon (w : Wildcard) (ini : list bytes) (last : bytes) : Prop := {
  ca_storage : storage_ w = flat ini ++ last ++ [kMatchAny];
  ca_blocks : num_blocks_ w = S (length ini);
  ca_offset : last_block_offset_ w = length (flat ini);
  ca_star_free : Forall star_free (ini ++ [last]);
  ca_mid : Forall mid_ok (tail ini);
  ca_simple : is_simple_ w = true -> ini = [] /\ kMatchOne ∉ last
}.

Definition star_if (b : bool) : bytes := if b then [kMatchAny] else [].

Lemma flat_app bs b : flat (bs ++ [b]) = flat bs ++ b ++ [kMatchAny].
Proof. unfold flat. by rewrite map_app, concat_app; cbn; rewrite app_nil_r. Qed.

Lemma star_free_snoc b c : star_free b -> c <> kMatchAny -> star_free (b ++ [c]).
Proof. unfold star_free. set_solver. Qed.

Lemma mid_ok_snoc b c : mid_ok b -> mid_ok (b ++ [c]).
Proof. intros (d & b' & -> & Hd). by exists d, (b' ++ [c]). Qed.

(** Closing the current block, as both a pending star and the end of the
    specification do. *)
Lemma canon_open_close w ini last :
  canon_open w ini last -> (ini = [] \/ mid_ok last) ->
  canon_open
    (mkWildcard (storage_ w ++ [kMatchAny]) (S (num_blocks_ w))
       (length (storage_ w ++ [kMatchAny])) false)
    (ini ++ [last]) [].
Proof.
  intros [Hs Hb Ho Hf Hm Hl Hsi] Hlast. split; cbn.
  - by rewrite app_nil_r, flat_app, Hs, app_assoc.
  - rewrite Hb, length_app. cbn. lia.
  - by rewrite flat_app, Hs, app_assoc.
  - apply Forall_app. split; [done|]. constructor; [|done]. apply not_elem_of_nil.
  - destruct ini as [|b ini]; [done|]. cbn in *. apply Forall_app. split; [done|].
    constructor; [|done]. by destruct Hlast.
  - auto.
  - done.
Qed.

Lemma canon_open_snoc w ini last c simple :
  canon_open w ini last -> c <> kMatchAny ->
  (ini = [] \/ mid_ok (last ++ [c])) ->
  (simple = true -> is_simple_ w = true /\ c <> kMatchOne) ->
  canon_open
    (mkWildcard (storage_ w ++ [c]) (num_blocks_ w) (last_block_offset_ w) simple)
    ini (last ++ [c]).
Proof.
  intros [Hs Hb Ho Hf Hm Hl Hsi] Hc Hmid Hsimple. split; cbn; auto.
  - by rewrite Hs, app_assoc.
  - apply Forall_app in Hf as [Hf1 Hf2]. apply Forall_app. split; [done|].
    inversion Hf2; subst. constructor; [by apply star_free_snoc|done].
  - destruct Hmid; auto.
  - intros [Hw ?]%Hsimple. destruct (Hsi Hw). set_solver.
Qed.

(** What the loop preserves: the invariant and the language of the prefix
    read so far. *)
Lemma InitFromSpec_loop_canon p w ini last flag w' flag' :
  canon_open w ini last -> ini = [] \/ mid_ok last ->
  (is_simple_ w = true -> flag = false) ->
  InitFromSpec_loop p w flag = (w', flag') ->
  exists ini' last',
    canon_open w' ini' last' /\ (ini' = [] \/ mid_ok last') /\
    (is_simple_ w' = true -> flag' = false) /\
    glob_eq (storage_ w ++ star_if flag ++ p) (storage_ w' ++ star_if flag').
Proof.
  revert w ini last flag. induction p as [|c p IH]; intros w ini last flag Hw Hl Hf; cbn.
  { intros [= <- <-]. exists ini, last. by rewrite app_nil_r. }
  case_bool_decide as Eany; [|case_bool_decide as Eone].
  - subst c. intros HL.
    eapply (IH _ ini last) in HL as (i' & l' & ? & ? & ? & HE); [|by destruct Hw; split|done|done].
    exists i', l'. repeat split_and; [done..|]. cbn in HE. rewrite <- HE.
    destruct flag; cbn; [|done].
    change (kMatchAny :: kMatchAny :: p) with ([kMatchAny; kMatchAny] ++ p).
    by rewrite glob_star_star.
  - subst c. intros HL.
    eapply (IH _ ini (last ++ [kMatchOne])) in HL as (i' & l' & ? & ? & ? & HE).
    + exists i', l'. repeat split_and; [done..|]. rewrite <- HE. cbn.
      rewrite <- app_assoc. f_equiv. destruct flag; cbn; [|done].
      change (kMatchAny :: kMatchOne :: p) with ([kMatchAny; kMatchOne] ++ p).
      by rewrite glob_star_one.
    + apply canon_open_snoc; [done..| |done].
      destruct Hl; [auto|]. right. by apply mid_ok_snoc.
    + destruct Hl; [auto|]. right. by apply mid_ok_snoc.
    + done.
  - destruct flag; intros HL.
    + eapply (IH _ (ini ++ [last]) [c]) in HL as (i' & l' & ? & ? & ? & HE).
      * exists i', l'. repeat split_and; [done..|]. rewrite <- HE. cbn.
        by rewrite <- !app_assoc.
      * destruct (is_simple_ w) eqn:Es; [by specialize (Hf eq_refl)|].
        apply (canon_open_snoc
                 (mkWildcard (storage_ w ++ [kMatchAny]) (S (num_blocks_ w))
                    (length (storage_ w ++ [kMatchAny])) false) _ []); cbn.
        -- by apply canon_open_close.
        -- done.
        -- right. by exists c, [].
        -- done.
      * right. by exists c, [].
      * done.
    + eapply (IH _ ini (last ++ [c])) in HL as (i' & l' & ? & ? & ? & HE).
      * exists i', l'. repeat split_and; [done..|]. rewrite <- HE. cbn. by rewrite <- app_assoc.
      * apply canon_open_snoc; [done..| |auto].
        destruct Hl; [auto|]. right. by apply mid_ok_snoc.
      * destruct Hl; [auto|]. right. by apply mid_ok_snoc.
      * done.
Qed.

(** [InitFromSpec] builds a canonical object with the language of its
    specification. *)
Lemma InitFromSpec_canon p :
  exists ini last, canon (InitFromSpec p) ini last /\ glob_eq (flat ini ++ last) p.
Proof.
  unfold InitFromSpec.
  destruct (InitFromSpec_loop p (mkWildcard [] 1 0 true) false) as [w flag] eqn:HL.
  apply (InitFromSpec_loop_canon _ _ [] []) in HL
    as (ini & last & Hw & Hl & Hs & HE).
  - destruct flag; cbn in HE.
    + destruct (is_simple_ w) eqn:Es; [by specialize (Hs eq_refl)|].
      destruct (canon_open_close w ini last Hw Hl) as [H1 H2 H3 H4 H5 H6 H7].
      exists (ini ++ [last]), []. split.
      * split; cbn in *; try done. rewrite app_nil_r in H1. by rewrite H1.
      * rewrite app_nil_r, flat_app, app_assoc, <- (co_storage _ _ _ Hw). by symmetry.
    + destruct Hw as [H1 H2 H3 H4 H5 H6 H7]. exists ini, last. split.
      * split; cbn; try done. by rewrite H1, app_assoc.
      * rewrite <- H1. rewrite app_nil_r in HE. by symmetry.
  - split; cbn; try done.
    + constructor; [apply not_elem_of_nil|done].
    + auto.
    + intros _. split; [done|]. apply not_elem_of_nil.
  - auto.
  - done.
Qed.

(** ** The matching loops *)

(** [MatchBlock] on a block: no read outside the buffers, and it stops at the
    star exactly when the block matches. *)
Lemma MatchBlock_spec b rest str :
  star_free b -> (length b <= length str)%nat ->
  exists k p,
    MatchBlock (b ++ kMatchAny :: rest) str = Some k /\
    (b ++ kMatchAny :: rest) !! k = Some p /\
    (p = kMatchAny <-> Forall2 char_matches b (take (length b) str)) /\
    (p = kMatchAny -> k = length b).
Proof.
  unfold star_free. revert str. induction b as [|c b IH]; intros str Hb Hlen; cbn.
  - exists 0%nat, kMatchAny. repeat split_and; [done..| |done]. split; [constructor|done].
  - rewrite not_elem_of_cons in Hb. destruct Hb as [Hc Hb].
    destruct str as [|d str]; cbn in Hlen; [lia|].
    case_bool_decide; [congruence|].
    assert (Hor : (c =c d) || (c =c kMatchOne) = bool_decide (char_matches c d)).
    { unfold char_matches. repeat case_bool_decide; naive_solver. }
    rewrite Hor. clear Hor. case_bool_decide as Hm.
    + destruct (IH str Hb ltac:(lia)) as (k & p & HM & Hk & Hiff & Hke).
      exists (S k), p. rewrite HM. cbn. repeat split_and; [done|done| |].
      * rewrite Hiff, Forall2_cons. naive_solver.
      * intros Hp. by rewrite Hke.
    + exists 0%nat, c. repeat split_and; [done..| |congruence].
      cbn [take]. rewrite Forall2_cons. naive_solver.
Qed.

(** The middle blocks of a pattern occur, in order, in [r]. *)
Fixpoint mids_match (bs : list bytes) (r : bytes) : Prop :=
  match bs with
  | [] => True
  | b :: bs' =>
      exists g s1 r', r = g ++ s1 ++ r' /\ Forall2 char_matches b s1 /\ mids_match bs' r'
  end.

Definition total_length (bs : list bytes) : nat := length (concat bs).

Lemma total_length_cons b bs : total_length (b :: bs) = (length b + total_length bs)%nat.
Proof. unfold total_length. cbn. by rewrite length_app. Qed.

Lemma mids_match_prepend bs g r : mids_match bs r -> mids_match bs (g ++ r).
Proof.
  destruct bs as [|b bs]; cbn; [done|].
  intros (g' & s1 & r' & -> & HF & HM). exists (g ++ g'), s1, r'. by rewrite app_assoc.
Qed.

Lemma mids_match_length bs r : mids_match bs r -> (total_length bs <= length r)%nat.
Proof.
  revert r. induction bs as [|b bs IH]; intros r; cbn [mids_match]; [cbn; lia|].
  intros (g & s1 & r' & -> & HF & HM). apply Forall2_length in HF. apply IH in HM.
  rewrite total_length_cons, !length_app. lia.
Qed.

(** An occurrence of a block that starts with the literal [c] cannot start
    before the first [c]. *)
Lemma mids_match_skip c b bs s1 r :
  c <> kMatchOne -> c ∉ s1 ->
  mids_match ((c :: b) :: bs) (s1 ++ r) <-> mids_match ((c :: b) :: bs) r.
Proof.
  intros Hc Hn. split; [|apply mids_match_prepend].
  intros (g & m & r' & E & HF & HM). inversion HF as [|? d ? m' Hd HF']; subst.
  destruct Hd as [?|<-]; [done|].
  apply app_eq_inv in E as [(k & -> & E)|(k & -> & E)].
  - destruct k as [|x k]; cbn in E.
    + exists [], (c :: m'), r'. by rewrite <- E.
    + injection E as <- _. set_solver.
  - exists k, (c :: m'), r'. done.
Qed.

(** Taking the leftmost occurrence of a block loses nothing. *)
Lemma mids_match_leftmost b bs r :
  Forall2 char_matches b (take (length b) r) -> (length b <= length r)%nat ->
  mids_match (b :: bs) r <-> mids_match bs (drop (length b) r).
Proof.
  intros HF Hlen. split.
  - intros (g & m & r' & -> & HF' & HM). apply Forall2_length in HF'.
    rewrite (app_assoc g m r'), drop_app_le by (rewrite length_app; lia).
    by apply mids_match_prepend.
  - intros HM. exists [], (take (length b) r), (drop (length b) r).
    by rewrite app_nil_l, take_drop.
Qed.

Lemma mids_match_fail b bs x r :
  ~ Forall2 char_matches b (take (length b) (x :: r)) ->
  mids_match (b :: bs) (x :: r) <-> mids_match (b :: bs) r.
Proof.
  intros HF. split; [|apply (mids_match_prepend _ [x])].
  intros (g & m & r' & E & HF' & HM). destruct g as [|y g].
  - destruct HF. cbn in E. rewrite E. by rewrite (Forall2_length _ _ _ HF'), take_app_length.
  - injection E as -> ->. by exists g, m, r'.
Qed.

Lemma mids_match_head c b bs r :
  c <> kMatchOne -> mids_match ((c :: b) :: bs) r -> c ∈ r.
Proof.
  intros Hc (g & m & r' & -> & HF & _). inversion HF as [|? d ? m' Hd HF']; subst.
  destruct Hd as [?|<-]; [done|]. set_solver.
Qed.

Lemma flat_cons b bs : flat (b :: bs) = b ++ kMatchAny :: flat bs.
Proof. unfold flat. cbn. by rewrite <- app_assoc. Qed.

(** The region of [actual] between two offsets. *)
Definition region (actual : bytes) (lo hi : nat) : bytes := take (hi - lo) (drop lo actual).

Lemma region_length actual lo hi :
  (lo <= hi)%nat -> (hi <= length actual)%nat -> length (region actual lo hi) = (hi - lo)%nat.
Proof. intros. unfold region. rewrite length_take, length_drop. lia. Qed.

Lemma region_drop actual lo hi k :
  (k <= hi - lo)%nat -> drop k (region actual lo hi) = region actual (lo + k) hi.
Proof.
  intros. unfold region. replace (hi - lo)%nat with (k + (hi - (lo + k)))%nat by lia.
  rewrite <- take_drop_commute, drop_drop. by f_equal.
Qed.

Lemma region_take actual lo hi k :
  (k <= hi - lo)%nat -> take k (region actual lo hi) = take k (drop lo actual).
Proof. intros. unfold region. rewrite take_take. f_equal. lia. Qed.

Lemma length_flat bs : length (flat bs) = (total_length bs + length bs)%nat.
Proof.
  induction bs as [|b bs IH]; [done|].
  rewrite flat_cons, total_length_cons, length_app. cbn [length]. rewrite IH. lia.
Qed.

(** The [DCHECK]s of the loop. *)
Lemma Loop_dchecks (c : ascii) (a b : Z) :
  c <> kMatchAny -> c <> kMatchOne -> a = b ->
  negb (kMatchAny =c kMatchAny) || (kMatchAny =c c) || (kMatchOne =c c) || negb (a =? b) = false.
Proof.
  intros Ha Ho ->. rewrite Z.eqb_refl, bool_decide_true by done.
  by rewrite !bool_decide_false by congruence.
Qed.

Lemma Match_loop_spec bs fuel w actual slb str pat skip tl :
  drop pat (storage_ w) = flat bs ++ tl -> storage_ w !! (pat - 1)%nat = Some kMatchAny ->
  last_block_offset_ w = (pat + length (flat bs))%nat ->
  Forall star_free bs -> Forall mid_ok bs ->
  (slb <= length actual)%nat -> (str <= slb)%nat ->
  skip = Z.of_nat (slb - str) - Z.of_nat (total_length bs) -> 0 <= skip ->
  (slb - str < fuel)%nat ->
  decides (Match_loop fuel w actual slb str pat (length bs) skip)
    (mids_match bs (region actual str slb)).
Proof.
  revert bs str pat skip. induction fuel as [|fuel IH];
    intros bs str pat skip Hpat Hany Hlast Hsf Hmid Hslb Hstr Hskip Hpos Hfuel; [lia|].
  destruct bs as [|b bs]; [by apply decides_true|].
  inversion Hmid as [|? ? (c & b' & -> & Hc) Hmid']; subst.
  inversion Hsf as [|? ? Hb Hsf']; subst.
  rewrite flat_cons in Hpat. cbn [length Match_loop].
  assert (storage_ w !! pat = Some c) as ->.
  { rewrite <- (Nat.add_0_r pat), <- lookup_drop, Hpat. done. }
  rewrite Hany. cbn [mbind option_bind]. rewrite length_flat in Hlast.
  rewrite Loop_dchecks; [|unfold star_free in Hb; set_solver|done|rewrite total_length_cons in *; cbn [length] in *; lia].
  rewrite (proj2 (Nat.ltb_ge _ _)) by done.
  fold (region actual str slb).
  pose proof (region_length actual str slb Hstr Hslb) as Hlen.
  rewrite total_length_cons in Hpos. cbn [length] in Hpos.
  destruct (memchr (region actual str slb) c) as [d|] eqn:Hmem.
  2:{ apply decides_false. intros HM.
      apply mids_match_head in HM; [|done]. by apply memchr_None in Hmem. }
  apply memchr_Some in Hmem as (s1 & s2 & Hr & <- & Hn).
  assert (Hd : (length s1 + 1 + length s2 = slb - str)%nat).
  { rewrite <- Hlen, Hr, length_app. cbn. lia. }
  assert (Hr2 : region actual (str + length s1) slb = c :: s2).
  { rewrite <- region_drop, Hr, drop_app_length by lia. done. }
  assert (Hs2 : region actual (str + length s1 + 1) slb = s2).
  { rewrite <- region_drop, Hr2 by lia. done. }
  rewrite Hr, mids_match_skip by done.
  destruct (Z.ltb_spec (Z.of_nat (slb - str) - Z.of_nat (total_length ((c :: b') :: bs))
                        - Z.of_nat (length s1)) 0) as [Hneg|Hnn].
  { apply decides_false. intros HM%mids_match_length.
    rewrite total_length_cons in *. cbn [length] in *. lia. }
  rewrite total_length_cons in *. cbn [length] in *.
  assert (Hpat' : drop (pat + 1) (storage_ w) = b' ++ kMatchAny :: flat bs ++ tl).
  { rewrite <- drop_drop, Hpat. cbn. by rewrite <- app_assoc. }
  rewrite Hpat'.
  destruct (MatchBlock_spec b' (flat bs ++ tl) (drop (str + length s1 + 1) actual))
    as (k & p & HM & Hk & Hiff & Hke).
  { unfold star_free in *. set_solver. }
  { rewrite length_drop. lia. }
  rewrite HM. cbn [mbind option_bind].
  assert (storage_ w !! (pat + (1 + k))%nat = Some p) as ->.
  { replace (pat + (1 + k))%nat with (pat + 1 + k)%nat by lia.
    by rewrite <- lookup_drop, Hpat'. }
  cbn [mbind option_bind].
  rewrite <- (region_take _ _ slb), Hs2 in Hiff by lia.
  case_bool_decide as Hp.
  - rewrite (Hke Hp). apply Hiff in Hp.
    rewrite mids_match_leftmost by (cbn; lia || (constructor; [by right|done])).
    cbn [length drop].
    assert (Hreg : region actual (str + length s1 + (1 + length b')) slb = drop (length b') s2).
    { rewrite Nat.add_assoc, <- region_drop, Hs2 by lia. done. }
    rewrite <- Hreg. apply (IH bs); try done; try lia.
    + replace (pat + (1 + length b') + 1)%nat with (pat + 1 + (length b' + 1))%nat by lia.
      rewrite <- drop_drop, Hpat', (cons_middle kMatchAny), app_assoc.
      rewrite drop_app_length'; [done|]. by rewrite length_app.
    + replace (pat + (1 + length b') + 1 - 1)%nat with (pat + 1 + length b')%nat by lia.
      rewrite <- lookup_drop, Hpat'. by apply list_lookup_middle.
    + rewrite length_flat. lia.
  - destruct (Z.ltb_spec (Z.of_nat (slb - str) - Z.of_nat (S (length b') + total_length bs)
                          - Z.of_nat (length s1) - 1) 0) as [Hneg|Hnn'].
    + apply decides_false. rewrite mids_match_fail.
      * intros HM'%mids_match_length. rewrite total_length_cons in HM'. cbn [length] in HM'. lia.
      * cbn. rewrite Forall2_cons. naive_solver.
    + rewrite mids_match_fail.
      2:{ cbn. rewrite Forall2_cons. naive_solver. }
      rewrite <- Hs2. apply (IH ((c :: b') :: bs)); try done; try lia.
      * by rewrite flat_cons.
      * rewrite length_flat, total_length_cons. cbn [length]. lia.
      * rewrite total_length_cons. cbn [length]. lia.
Qed.

(** ** [Match] decides the language *)

(** The language of a canonical pattern in terms of its blocks. *)
Lemma glob_blocks_tail bs last s :
  Forall star_free bs -> star_free last ->
  glob (kMatchAny :: flat bs ++ last) s <->
  exists r sl, s = r ++ sl /\ mids_match bs r /\ Forall2 char_matches last sl.
Proof.
  intros Hbs Hl. revert s. induction bs as [|b bs IH]; intros s.
  - cbn. rewrite glob_any. setoid_rewrite glob_star_free; [|done]. naive_solver.
  - inversion Hbs as [|? ? Hb Hbs']; subst. specialize (IH Hbs').
    rewrite glob_any, flat_cons, <- app_assoc. setoid_rewrite glob_app.
    setoid_rewrite (glob_star_free b); [|done]. cbn [app]. setoid_rewrite IH. cbn [mids_match]. split.
    + intros (g & ? & -> & m & ? & -> & HF & r & sl & -> & HM & HFl).
      exists (g ++ m ++ r), sl. rewrite <- !app_assoc. eauto 10.
    + intros (? & sl & -> & (g & m & r & -> & HF & HM) & HFl).
      exists g, (m ++ r ++ sl). rewrite <- !app_assoc. eauto 10.
Qed.

Lemma Forall2_take_drop b s n :
  length b = (length s - n)%nat ->
  Forall2 char_matches b (take (length b) (drop n s)) <-> Forall2 char_matches b (drop n s).
Proof. intros H. by rewrite take_ge by (rewrite length_drop; lia). Qed.

Lemma glob_blocks b bs last s :
  Forall star_free (b :: bs) -> star_free last ->
  glob (flat (b :: bs) ++ last) s <->
  (length b + total_length bs + length last <= length s)%nat /\
  Forall2 char_matches last (drop (length s - length last) s) /\
  Forall2 char_matches b (take (length b) s) /\
  mids_match bs (region s (length b) (length s - length last)).
Proof.
  intros Hf Hl. inversion Hf as [|? ? Hb Hbs]; subst.
  rewrite flat_cons, <- app_assoc, glob_app. setoid_rewrite (glob_star_free b); [|done].
  cbn [app]. setoid_rewrite glob_blocks_tail; [|done..]. split.
  - intros (m & ? & -> & HFb & r & sl & -> & HM & HFl).
    pose proof (mids_match_length _ _ HM).
    apply Forall2_length in HFb as E1. apply Forall2_length in HFl as E2.
    rewrite !length_app.
    split; [lia|]. rewrite app_assoc, drop_app_length' by (rewrite length_app; lia).
    split; [done|]. rewrite <- app_assoc, E1, take_app_length. split; [done|].
    unfold region. rewrite drop_app_length, take_app_length' by lia. done.
  - intros (Hlen & HFl & HFb & HM).
    exists (take (length b) s), (drop (length b) s). rewrite take_drop. repeat split_and; [done..|].
    exists (region s (length b) (length s - length last)), (drop (length s - length last) s).
    repeat split_and; [|done..].
    unfold region. rewrite <- (take_drop (length s - length last - length b) (drop (length b) s)) at 1.
    rewrite drop_drop. do 2 f_equal. lia.
Qed.

Lemma glob_length_blocks ini last s :
  Forall star_free (ini ++ [last]) -> glob (flat ini ++ last) s ->
  (total_length ini + length last <= length s)%nat.
Proof.
  rewrite Forall_app. intros [Hi Hl]. inversion Hl; subst. destruct ini as [|b bs].
  - cbn. rewrite glob_star_free by done. intros HF%Forall2_length. lia.
  - rewrite glob_blocks by done. rewrite total_length_cons. lia.
Qed.

Lemma spec_canon w ini last : canon w ini last -> spec w = flat ini ++ last.
Proof.
  intros Hw. unfold spec. rewrite (ca_storage _ _ _ Hw), app_assoc, length_app.
  cbn. by rewrite Nat.add_sub, take_app_length.
Qed.

(** A specification without wildcards stands for itself. *)
Lemma glob_simple last s : star_free last -> kMatchOne ∉ last -> glob last s <-> s = last.
Proof.
  intros Hsf Hone. rewrite glob_star_free by done. clear Hsf. split.
  - induction 1 as [|p c ? ? Hm ? IH]; [done|].
    rewrite not_elem_of_cons in Hone. destruct Hone as [Hp Hone].
    destruct Hm as [?|<-]; [done|]. by rewrite IH.
  - intros ->. clear. induction last; constructor; [by right|done].
Qed.

Lemma Match_canon w ini last s :
  canon w ini last -> decides (Match w s) (glob (flat ini ++ last) s).
Proof.
  intros Hw. pose proof (spec_canon _ _ _ Hw) as Hspec.
  destruct Hw as [Hst Hnb Ho Hf Hm Hsi].
  pose proof Hf as [Hfi Hfl]%Forall_app. inversion Hfl as [|? ? Hl _]; subst.
  unfold Match. destruct (is_simple_ w) eqn:Es.
  { destruct (Hsi eq_refl) as [-> Hone]. cbn in *. rewrite glob_simple, Hspec by done. auto with ps. }
  rewrite Hst, Hnb, Ho, app_assoc, length_app, length_app, length_flat. cbn [length].
  set (n := (total_length ini + length last)%nat).
  replace (Z.of_nat (total_length ini + length ini + length last + 1) - Z.of_nat (S (length ini)))
    with (Z.of_nat n) by lia.
  replace (total_length ini + length ini + length last + 1 - (total_length ini + length ini) - 1)%nat
    with (length last) by lia.
  destruct (Z.ltb_spec (Z.of_nat (length s) - Z.of_nat n) 0) as [Hneg|Hnn].
  { apply decides_false. intros HG%glob_length_blocks; [lia|done]. }
  rewrite (proj2 (Nat.ltb_ge _ _)) by lia.
  rewrite <- app_assoc. rewrite drop_app_length' by (rewrite length_flat; lia).
  destruct (MatchBlock_spec last [] (drop (length s - length last) s) Hl)
    as (k & p & HM & Hk & Hiff & Hke); [rewrite length_drop; lia|].
  rewrite HM. cbn [mbind option_bind].
  rewrite <- length_flat, lookup_app_r by lia.
  replace (length (flat ini) + k - length (flat ini))%nat with k by lia. rewrite Hk.
  cbn [mbind option_bind]. rewrite Forall2_take_drop in Hiff by lia.
  case_bool_decide as Hp; cbn [negb].
  2:{ apply decides_false. destruct ini as [|b bs].
      - cbn. rewrite glob_star_free by done. intros HF. apply Hp, Hiff.
        pose proof (Forall2_length _ _ _ HF).
        replace (length s - length last)%nat with 0%nat by lia. done.
      - rewrite glob_blocks by done. naive_solver. }
  apply Hiff in Hp. destruct ini as [|b bs].
  { cbn [length Nat.sub Nat.eqb]. exists (Z.of_nat (length s) - Z.of_nat n =? 0).
    split; [done|]. cbn [flat map concat app]. rewrite Z.eqb_eq, glob_star_free by done. split.
    - intros E. replace (length s - length last)%nat with 0%nat in Hp; [done|].
      subst n. cbn in E. lia.
    - intros HF%Forall2_length. subst n. cbn. lia. }
  assert (Hn : n = (length b + total_length bs + length last)%nat)
    by (subst n; by rewrite total_length_cons).
  cbn [length Nat.sub Nat.eqb tail] in *. inversion Hfi as [|? ? Hb Hbs]; subst.
  rewrite glob_blocks by done. rewrite flat_cons, <- app_assoc. cbn [app].
  destruct (MatchBlock_spec b (flat bs ++ last ++ [kMatchAny]) s Hb)
    as (k' & p' & HM' & Hk' & Hiff' & Hke'); [lia|].
  rewrite HM'. cbn [mbind option_bind]. rewrite Hk'. cbn [mbind option_bind].
  case_bool_decide as Hp'; cbn [negb].
  2:{ apply decides_false. naive_solver. }
  rewrite (Hke' Hp'). apply Hiff' in Hp'. rewrite Nat.sub_0_r.
  eapply decides_proper; [done| |eapply (Match_loop_spec bs _ _ _ _ _ _ _ (last ++ [kMatchAny]))];
    try done; try lia.
  - split; [naive_solver|]. intros HMM. repeat split_and; try done. lia.
  - rewrite Hst, flat_cons, <- app_assoc. cbn [app].
    rewrite (cons_middle kMatchAny), app_assoc, drop_app_length'; [done|].
    by rewrite length_app.
  - rewrite Nat.add_sub, Hst, flat_cons, <- app_assoc. by apply list_lookup_middle.
  - rewrite Ho, flat_cons, length_app. cbn [length]. lia.
Qed.

Lemma Match_InitFromSpec p s : decides (Match (InitFromSpec p) s) (glob p s).
Proof.
  destruct (InitFromSpec_canon p) as (ini & last & Hw & HE).
  rewrite <- (HE s). by apply Match_canon.
Qed.

Lemma spec_InitFromSpec p : glob_eq (spec (InitFromSpec p)) p.
Proof.
  destruct (InitFromSpec_canon p) as (ini & last & Hw & HE).
  by rewrite (spec_canon _ _ _ Hw).
Qed.

(** C26: [Match] of a wildcard built from a specification always ends, reads
    nothing outside its buffers, fails no [DCHECK], and answers exactly whether the string is in
    the language of the specification. *)
Theorem Match_decides_glob p s : decides (Match (InitFromSpec p) s) (glob p s).
Proof. apply Match_InitFromSpec. Qed.

(** the specification an object reports denotes the language of the
    specification it was built from, and a wildcard rebuilt from it gives the
    same answers. *)
Lemma spec_same_language p :
  glob_eq (spec (InitFromSpec p)) p /\
  forall s, Match (InitFromSpec (spec (InitFromSpec p))) s = Match (InitFromSpec p) s.
Proof.
  pose proof (spec_InitFromSpec p) as HS. split; [done|]. intros s.
  destruct (Match_InitFromSpec p s) as (b1 & -> & H1).
  destruct (Match_InitFromSpec (spec (InitFromSpec p)) s) as (b2 & -> & H2).
  f_equal. apply eq_bool_prop_intro. rewrite (HS s) in H2.
  destruct b1, b2; cbn; naive_solver.
Qed.
