(* ===== verification/WildcardGroup.v ===== *)
(** * Wildcard groups, by linear scan

    Model of [pagespeed/kernel/base/wildcard_group.{h,cc}]: an ordered list
    of allow and disallow rules, the last one that matches decides.  The
    source keeps two parallel vectors; so does the model.  [rules_decision]
    is the abstract specification both this class and [FastWildcardGroup]
    implement. *)

From S2P Require Import Prelude.
From S2P Require Wildcard.

(** ** Definitions *)

Record WildcardGroup : Type := mkWildcardGroup {
  wildcards_ : list Wildcard.Wildcard;
  allow_ : list bool
}.

Definition empty_group : WildcardGroup := mkWildcardGroup [] [].

Definition Clear (g : WildcardGroup) : WildcardGroup := mkWildcardGroup [] [].

Definition Allow (expr : bytes) (g : WildcardGroup) : WildcardGroup :=
  mkWildcardGroup (wildcards_ g ++ [Wildcard.InitFromSpec expr]) (allow_ g ++ [true]).

Definition Disallow (expr : bytes) (g : WildcardGroup) : WildcardGroup :=
  mkWildcardGroup (wildcards_ g ++ [Wildcard.InitFromSpec expr]) (allow_ g ++ [false]).

(** The scan from index [i - 1] down to 0 over the two vectors. *)
Fixpoint Match_from (ws : list Wildcard.Wildcard) (allows : list bool) (str : bytes)
    (allow : bool) (i : nat) : option bool :=
  match i with
  | O => Some allow
  | S i' =>
      w ← ws !! i';
      m ← Wildcard.Match w str;
      if (m : bool) then allows !! i' else Match_from ws allows str allow i'
  end.

(** [Match]; [None] when [CHECK_EQ(wildcards_.size(), allow_.size())] fails. *)
Definition Match (g : WildcardGroup) (str : bytes) (allow : bool) : option bool :=
  if (length (wildcards_ g) =? length (allow_ g))%nat then
    Match_from (wildcards_ g) (allow_ g) str allow (length (wildcards_ g))
  else None.

Definition AppendFrom (src g : WildcardGroup) : option WildcardGroup :=
  if (length (wildcards_ src) =? length (allow_ src))%nat then
    Some (mkWildcardGroup (wildcards_ g ++ map Wildcard.Duplicate (wildcards_ src))
            (allow_ g ++ allow_ src))
  else None.

Definition CopyFrom (src g : WildcardGroup) : option WildcardGroup :=
  AppendFrom src (Clear g).

Definition Signature (g : WildcardGroup) : bytes :=
  concat (zip_with (fun w (a : bool) => Wildcard.spec w ++ lit (if a then "A" else "D") ++ lit ",")
            (wildcards_ g) (allow_ g)).

(** ** Specification: the last matching rule decides *)

(** A rule: a specification and whether it allows. *)
Abbreviation rule := (bytes * bool)%type (only parsing).

Inductive rules_decision (rules : list rule) (str : bytes) (default : bool) : bool -> Prop :=
| decision_default :
    (forall r, r ∈ rules -> ~ Wildcard.glob r.1 str) ->
    rules_decision rules str default default
| decision_rule i r :
    rules !! i = Some r -> Wildcard.glob r.1 str ->
    (forall j r', (i < j)%nat -> rules !! j = Some r' -> ~ Wildcard.glob r'.1 str) ->
    rules_decision rules str default r.2.

(** The vectors hold the wildcards of the rules. *)
Definition represents (ws : list Wildcard.Wildcard) (allows : list bool) (rules : list rule) : Prop :=
  Forall2 (fun w r => forall s, decides (Wildcard.Match w s) (Wildcard.glob r.1 s)) ws rules /\
  allows = rules.*2.

(** ** Lemmas *)

Lemma represents_length ws allows rules :
  represents ws allows rules -> length ws = length rules /\ length allows = length rules.
Proof.
  intros [HF ->]. split; [by apply Forall2_length in HF|apply length_fmap].
Qed.

Lemma represents_nil : represents [] [] [].
Proof. by split. Qed.

Lemma represents_snoc ws allows rules expr b :
  represents ws allows rules ->
  represents (ws ++ [Wildcard.InitFromSpec expr]) (allows ++ [b]) (rules ++ [(expr, b)]).
Proof.
  intros [HF ->]. split.
  - apply Forall2_app; [done|]. repeat constructor. intros s. apply Wildcard.Match_InitFromSpec.
  - by rewrite fmap_app.
Qed.

Lemma represents_app ws1 a1 r1 ws2 a2 r2 :
  represents ws1 a1 r1 -> represents ws2 a2 r2 ->
  represents (ws1 ++ ws2) (a1 ++ a2) (r1 ++ r2).
Proof.
  intros [HF1 ->] [HF2 ->]. split; [by apply Forall2_app|by rewrite fmap_app].
Qed.

Lemma Duplicate_id w : Wildcard.Duplicate w = w.
Proof. by destruct w. Qed.

Lemma represents_lookup ws allows rules i r :
  represents ws allows rules -> rules !! i = Some r ->
  exists w, ws !! i = Some w /\ allows !! i = Some r.2 /\
    forall s, decides (Wildcard.Match w s) (Wildcard.glob r.1 s).
Proof.
  intros [HF ->] Hi. destruct (Forall2_lookup_r _ _ _ _ _ HF Hi) as (w & Hw & H).
  exists w. split; [done|]. by rewrite list_lookup_fmap, Hi.
Qed.

Lemma Match_from_decision ws allows rules str allow i :
  represents ws allows rules -> (i <= length rules)%nat ->
  exists b, Match_from ws allows str allow i = Some b /\
    rules_decision (take i rules) str allow b.
Proof.
  intros HR. induction i as [|i IH]; intros Hi.
  - exists allow. split; [done|]. constructor. cbn. set_solver.
  - destruct (lookup_lt_is_Some_2 rules i ltac:(lia)) as [r Hr].
    destruct (represents_lookup _ _ _ _ _ HR Hr) as (w & Hw & Ha & HM).
    cbn [Match_from]. rewrite Hw. cbn [mbind option_bind].
    destruct (HM str) as (b & -> & Hb). cbn [mbind option_bind].
    rewrite (take_S_r _ _ r) by done.
    destruct b.
    + exists r.2. split; [done|].
      apply (decision_rule _ _ _ i); [|by apply Hb|].
      * rewrite lookup_app_r, length_take by (rewrite length_take; lia).
        by rewrite Nat.min_l, Nat.sub_diag by lia.
      * intros j r' Hj Hl%lookup_lt_Some. rewrite length_app, length_take in Hl. cbn in Hl. lia.
    + destruct IH as (b & -> & Hd); [lia|]. exists b. split; [done|].
      assert (Hng : ~ Wildcard.glob r.1 str) by naive_solver.
      destruct Hd as [Hd|k r' Hk Hg Hn].
      * constructor. intros r' [?|Hr']%elem_of_app; [eauto|]. apply list_elem_of_singleton in Hr' as ->. done.
      * apply (decision_rule _ _ _ k); [|done|].
        -- by apply lookup_app_l_Some.
        -- intros j r'' Hj [Hj'|[Hj' Hj'']]%lookup_app_Some; [by eapply Hn|].
           apply list_lookup_singleton_Some in Hj'' as [_ <-]. done.
Qed.

(** The specification is functional, so two implementations agree. *)
Lemma rules_decision_unique rules str default b1 b2 :
  rules_decision rules str default b1 -> rules_decision rules str default b2 -> b1 = b2.
Proof.
  intros [H1|i1 r1 Hi1 Hg1 Hn1] [H2|i2 r2 Hi2 Hg2 Hn2]; [done|..].
  - exfalso. eapply H1; [by eapply list_elem_of_lookup_2|done].
  - exfalso. eapply H2; [by eapply list_elem_of_lookup_2|done].
  - destruct (Nat.lt_trichotomy i1 i2) as [?|[->|?]].
    + by exfalso; eapply Hn1.
    + by simplify_eq.
    + by exfalso; eapply Hn2.
Qed.

(** ** Correctness *)

Definition group_rules (g : WildcardGroup) (rules : list rule) : Prop :=
  represents (wildcards_ g) (allow_ g) rules.

Lemma Match_group_rules g rules str allow :
  group_rules g rules ->
  exists b, Match g str allow = Some b /\ rules_decision rules str allow b.
Proof.
  intros HR. destruct (represents_length _ _ _ HR) as [Hw Ha].
  unfold Match. rewrite Hw, Ha, Nat.eqb_refl.
  destruct (Match_from_decision _ _ _ str allow (length rules) HR) as (b & -> & Hd); [done|].
  rewrite firstn_all in Hd. eauto.
Qed.

(** a group built by any sequence of operations represents the list of its
    rules, and [Match] ends without a failed check and returns the verdict of
    the last matching rule. *)
Lemma WildcardGroup_Match_correct g rules str allow :
  group_rules g rules ->
  exists b, Match g str allow = Some b /\ rules_decision rules str allow b.
Proof. apply Match_group_rules. Qed.

