(* ===== verification/FastWildcardGroup.v ===== *)
(** * Wildcard groups, by Rabin-Karp search

    Model of [pagespeed/kernel/base/fast_wildcard_group.{h,cc}].  A group is
    compiled on its first match: a fixed-size window of the longest literal of
    every pattern is hashed into an open-addressing table, and [Match] slides
    the rolling hash over the candidate string, so that only patterns whose
    window occurs in the string are tried.  Compilation mutates the object, so
    [Match] returns the new state; an index outside a vector, a failed [CHECK]
    or an endless probe is [None].

    The main result is that [Match] returns the verdict of the last matching
    rule, the contract of the linear scan of [WildcardGroup], in every state a
    caller can observe: never compiled, being compiled by another thread
    ([kDontHash]), and compiled. *)

From stdpp Require Import sorting.
From S2P Require Import Prelude.
From S2P Require RollingHash Wildcard WildcardGroup.

(** ** Definitions *)

Definition kMaxRollingHashWindow : Z := 256.
Definition kNoEntry : Z := -1.
Definition kMinPatterns : Z := 11.
Definition kUncompiled : Z := -1.
Definition kDontHash : Z := 0.

(** The members of class [FastWildcardGroup]; [int] indices are [Z]. *)
Record FastWildcardGroup : Type := mkGroup {
  wildcards_ : list Wildcard.Wildcard;
  allow_ : list bool;
  rolling_hashes_ : list Z;
  effective_indices_ : list Z;
  wildcard_only_indices_ : list Z;
  pattern_hash_index_ : list Z;
  rolling_hash_length_ : Z
}.

(** Vector access and update by an [int] index. *)
Definition vget {A} (v : list A) (i : Z) : option A :=
  if 0 <=? i then v !! Z.to_nat i else None.
Definition vset {A} (v : list A) (i : Z) (x : A) : option (list A) :=
  if (0 <=? i) && (i <? Z.of_nat (length v)) then Some (<[Z.to_nat i := x]> v) else None.

(** [spec.find_first_of(wildcardChars, pos)]. *)
Definition is_wildcard_char (c : ascii) : bool :=
  (c =c Wildcard.kMatchAny) || (c =c Wildcard.kMatchOne).
Definition find_first_of (spec : bytes) (pos : nat) : option nat :=
  (fun p => (pos + p.1)%nat) <$> list_find is_wildcard_char (drop pos spec).

(** The loop of [LongestLiteralStringInWildcard]. *)
Fixpoint Longest_loop (fuel : nat) (spec : bytes) (pos longest_pos longest_len : nat)
  : nat * nat :=
  match fuel with
  | O => (longest_pos, longest_len)
  | S fuel' =>
      if (pos <? length spec)%nat then
        let next_wildcard := default (length spec) (find_first_of spec pos) in
        let len := (next_wildcard - pos)%nat in
        if (longest_len <? len)%nat
        then Longest_loop fuel' spec (next_wildcard + 1) pos len
        else Longest_loop fuel' spec (next_wildcard + 1) longest_pos longest_len
      else (longest_pos, longest_len)
  end.

Definition LongestLiteralStringInWildcard (w : Wildcard.Wildcard) : bytes :=
  let spec := Wildcard.spec w in
  let '(longest_pos, longest_len) := Longest_loop (S (length spec)) spec 0 0 0 in
  take longest_len (drop longest_pos spec).

(** [pattern_hash_index(rolling_hash)]: the slot is the hash masked with the
    size minus one. *)
Definition slot (table : list Z) (rolling_hash : Z) : Z :=
  Z.land rolling_hash (Z.of_nat (length table) - 1).
Definition pattern_hash_index (table : list Z) (rolling_hash : Z) : option Z :=
  vget table (slot table rolling_hash).

Definition Uncompile (g : FastWildcardGroup) : FastWildcardGroup :=
  if rolling_hash_length_ g =? kUncompiled then g
  else mkGroup (wildcards_ g) (allow_ g) [] [] [] [] kUncompiled.

Definition Clear (g : FastWildcardGroup) : FastWildcardGroup :=
  let g := Uncompile g in
  mkGroup [] [] (rolling_hashes_ g) (effective_indices_ g)
    (wildcard_only_indices_ g) (pattern_hash_index_ g) (rolling_hash_length_ g).

Definition new_group : FastWildcardGroup := mkGroup [] [] [] [] [] [] kUncompiled.

(** *** Compilation *)

(** First loop of [CompileNonTrivial]: the longest literals, how many are not
    empty, and the window length. *)
Definition count_literal (acc : Z * Z) (literal : bytes) : Z * Z :=
  let '(num_nontrivial_patterns, rolling_hash_length) := acc in
  let length := Z.of_nat (length literal) in
  if 0 <? length
  then (num_nontrivial_patterns + 1, Z.min rolling_hash_length length)
  else (num_nontrivial_patterns, rolling_hash_length).

(** [for (hash_index_size = 8; ...; hash_index_size *= 2)]. *)
Fixpoint hash_index_size_loop (fuel : nat) (hash_index_size num_nontrivial_patterns : Z) : Z :=
  match fuel with
  | O => hash_index_size
  | S fuel' =>
      if hash_index_size <? 2 * num_nontrivial_patterns
      then hash_index_size_loop fuel' (hash_index_size * 2) num_nontrivial_patterns
      else hash_index_size
  end.

(** The search for a window of the literal whose slot is free. *)
Fixpoint choose_hash (fuel : nat) (table : list Z) (literal : bytes)
    (start max_start rolling_hash_length : nat) (rolling_hash : Z) : option Z :=
  if (start <=? max_start)%nat then
    e ← pattern_hash_index table rolling_hash;
    if e =? kNoEntry then Some rolling_hash else
    match fuel with
    | O => None
    | S fuel' =>
        rolling_hash ← RollingHash.NextRollingHash literal start rolling_hash_length rolling_hash;
        choose_hash fuel' table literal (start + 1) max_start rolling_hash_length rolling_hash
    end
  else Some rolling_hash.

(** [while (pattern_hash_index(rolling_hash) != kNoEntry) ++rolling_hash], and
    the insertion. *)
Fixpoint insert_entry (fuel : nat) (table : list Z) (rolling_hash i : Z) : option (list Z) :=
  match fuel with
  | O => None
  | S fuel' =>
      e ← pattern_hash_index table rolling_hash;
      if e =? kNoEntry then vset table (slot table rolling_hash) i
      else insert_entry fuel' table (u64 (rolling_hash + 1)) i
  end.

(** The mutable vectors and locals of the main loop. *)
Record CompileState : Type := mkCompile {
  cs_hashes : list Z;
  cs_effective : list Z;
  cs_only : list Z;
  cs_table : list Z;
  cs_current_effective_index : Z;
  cs_current_allow : bool
}.

(** One iteration, for index [i]. *)
Definition compile_step (allow : list bool) (literals : list bytes) (rolling_hash_length : nat)
    (i : nat) (s : CompileState) : option CompileState :=
  literal ← literals !! i;
  allow_i ← allow !! i;
  let changed := negb (Bool.eqb allow_i (cs_current_allow s)) in
  let current_effective_index := if changed then Z.of_nat i else cs_current_effective_index s in
  let current_allow := if changed then allow_i else cs_current_allow s in
  effective ← vset (cs_effective s) (Z.of_nat i) current_effective_index;
  if (length literal =? 0)%nat then
    hashes ← vset (cs_hashes s) (Z.of_nat i) 0;
    Some (mkCompile hashes effective (cs_only s ++ [Z.of_nat i]) (cs_table s)
            current_effective_index current_allow)
  else
    let max_start := (length literal - rolling_hash_length)%nat in
    rolling_hash ← RollingHash.RollingHash literal 0 rolling_hash_length;
    rolling_hash ← choose_hash (length literal) (cs_table s) literal 1 max_start
                     rolling_hash_length rolling_hash;
    hashes ← vset (cs_hashes s) (Z.of_nat i) rolling_hash;
    table ← insert_entry (length (cs_table s)) (cs_table s) rolling_hash (Z.of_nat i);
    Some (mkCompile hashes effective (cs_only s) table current_effective_index current_allow).

(** [for (int i = longest_literal_strings.size() - 1; i >= 0; --i)]. *)
Fixpoint compile_loop (allow : list bool) (literals : list bytes) (rolling_hash_length : nat)
    (i : nat) (s : CompileState) : option CompileState :=
  match i with
  | O => Some s
  | S i' =>
      s ← compile_step allow literals rolling_hash_length i' s;
      compile_loop allow literals rolling_hash_length i' s
  end.

Definition CompileNonTrivial (g : FastWildcardGroup) : option FastWildcardGroup :=
  let literals := map LongestLiteralStringInWildcard (wildcards_ g) in
  let '(num_nontrivial_patterns, rolling_hash_length) :=
    fold_left count_literal literals (0, kMaxRollingHashWindow) in
  if num_nontrivial_patterns <? kMinPatterns then Some g else
  let hash_index_size :=
    hash_index_size_loop (Z.to_nat (2 * num_nontrivial_patterns)) 8 num_nontrivial_patterns in
  let table := replicate (Z.to_nat hash_index_size) kNoEntry in
  let n := length (wildcards_ g) in
  current_allow ← vget (allow_ g) (Z.of_nat (length (allow_ g)) - 1);
  s ← compile_loop (allow_ g) literals (Z.to_nat rolling_hash_length) (length literals)
        (mkCompile (replicate n 0) (replicate (length (allow_ g)) 0)
           (wildcard_only_indices_ g) table (Z.of_nat (length (allow_ g)) - 1) current_allow);
  Some (mkGroup (wildcards_ g) (allow_ g) (cs_hashes s) (cs_effective s) (cs_only s)
          (cs_table s) rolling_hash_length).

(** What [Compile] checks when it is done. *)
Definition sensible (g : FastWildcardGroup) : bool :=
  let size {A} (v : list A) := Z.of_nat (length v) in
  negb (rolling_hash_length_ g =? kUncompiled) &&
  if rolling_hash_length_ g =? kDontHash then
    (size (rolling_hashes_ g) =? 0) && (size (effective_indices_ g) =? 0) &&
    (size (wildcard_only_indices_ g) =? 0) && (size (pattern_hash_index_ g) =? 0)
  else
    let hash_pats := size (wildcards_ g) - size (wildcard_only_indices_ g) in
    (0 <? rolling_hash_length_ g) && (size (wildcards_ g) =? size (rolling_hashes_ g)) &&
    (size (wildcards_ g) =? size (effective_indices_ g)) &&
    (kMinPatterns <=? hash_pats) && (2 * hash_pats <=? size (pattern_hash_index_ g)).

(** [Compile], with its [CHECK]s and [DCHECK]s; the caller has set [kDontHash]. *)
Definition Compile (g : FastWildcardGroup) : option FastWildcardGroup :=
  if bool_decide (length (wildcards_ g) = length (allow_ g))
     && bool_decide (length (rolling_hashes_ g) = 0%nat)
     && bool_decide (length (effective_indices_ g) = 0%nat)
     && bool_decide (length (wildcard_only_indices_ g) = 0%nat)
     && bool_decide (length (pattern_hash_index_ g) = 0%nat)
     && bool_decide (rolling_hash_length_ g = kDontHash)
  then
    g ← (if kMinPatterns <=? Z.of_nat (length (wildcards_ g)) then CompileNonTrivial g else Some g);
    if sensible g then Some g else None
  else None.

Definition Allow (expr : bytes) (g : FastWildcardGroup) : FastWildcardGroup :=
  let g := Uncompile g in
  mkGroup (wildcards_ g ++ [Wildcard.InitFromSpec expr]) (allow_ g ++ [true])
    (rolling_hashes_ g) (effective_indices_ g) (wildcard_only_indices_ g)
    (pattern_hash_index_ g) (rolling_hash_length_ g).

Definition Disallow (expr : bytes) (g : FastWildcardGroup) : FastWildcardGroup :=
  let g := Uncompile g in
  mkGroup (wildcards_ g ++ [Wildcard.InitFromSpec expr]) (allow_ g ++ [false])
    (rolling_hashes_ g) (effective_indices_ g) (wildcard_only_indices_ g)
    (pattern_hash_index_ g) (rolling_hash_length_ g).

(** *** Matching *)

(** The first loop: all-wildcard patterns, latest first. *)
Fixpoint match_only (g : FastWildcardGroup) (str : bytes) (only : list Z) : option Z :=
  match only with
  | [] => Some kNoEntry
  | index :: rest =>
      w ← vget (wildcards_ g) index;
      m ← Wildcard.Match w str;
      if (m : bool) then vget (effective_indices_ g) index else match_only g str rest
  end.

(** The probe loop for one window; the source asserts that it ends within the
    table, and [fuel] is the size of the table. *)
Fixpoint probe_loop (fuel : nat) (g : FastWildcardGroup) (str : bytes)
    (rolling_hash probe max_effective_index : Z) : option Z :=
  match fuel with
  | O => None
  | S fuel' =>
      index ← pattern_hash_index (pattern_hash_index_ g) (u64 (rolling_hash + probe));
      if index <=? max_effective_index then Some max_effective_index else
      hash_i ← vget (rolling_hashes_ g) index;
      matched ← (if rolling_hash =? hash_i then
                   w ← vget (wildcards_ g) index; Wildcard.Match w str
                 else Some false);
      if (matched : bool) then vget (effective_indices_ g) index
      else probe_loop fuel' g str rolling_hash (probe + 1) max_effective_index
  end.

(** The Rabin-Karp loop over the windows of [str]. *)
Fixpoint roll_loop (fuel : nat) (g : FastWildcardGroup) (str : bytes)
    (exit_effective_index rolling_end rolling_hash ofs max_effective_index : Z) : option Z :=
  if (max_effective_index <? exit_effective_index) && (ofs <=? rolling_end) then
    match fuel with
    | O => None
    | S fuel' =>
        max_effective_index ← probe_loop (length (pattern_hash_index_ g)) g str rolling_hash 0
                                max_effective_index;
        let ofs := ofs + 1 in
        rolling_hash ←
          (if ofs <=? rolling_end then
             RollingHash.NextRollingHash str (Z.to_nat ofs) (Z.to_nat (rolling_hash_length_ g))
               rolling_hash
           else Some rolling_hash);
        roll_loop fuel' g str exit_effective_index rolling_end rolling_hash ofs max_effective_index
    end
  else Some max_effective_index.

(** The part of [Match] after the length has been read: [rolling_hash_length]
    is the value of the atomic that this call acquired. *)
Definition Match_with (g : FastWildcardGroup) (rolling_hash_length : Z) (str : bytes) (allow : bool)
  : option bool :=
  if rolling_hash_length =? kDontHash then
    WildcardGroup.Match_from (wildcards_ g) (allow_ g) str allow (length (wildcards_ g))
  else
    max_effective_index ← match_only g str (wildcard_only_indices_ g);
    let exit_effective_index := Z.of_nat (length (wildcards_ g)) - 1 in
    let rolling_end := Z.of_nat (length str) - rolling_hash_length in
    max_effective_index ←
      (if (max_effective_index <? exit_effective_index) && (0 <=? rolling_end) then
         rolling_hash ← RollingHash.RollingHash str 0 (Z.to_nat rolling_hash_length);
         roll_loop (length str + 1) g str exit_effective_index rolling_end rolling_hash 0
           max_effective_index
       else Some max_effective_index);
    if max_effective_index =? kNoEntry then Some allow
    else vget (allow_ g) max_effective_index.

Definition set_rolling_hash_length (l : Z) (g : FastWildcardGroup) : FastWildcardGroup :=
  mkGroup (wildcards_ g) (allow_ g) (rolling_hashes_ g) (effective_indices_ g)
    (wildcard_only_indices_ g) (pattern_hash_index_ g) l.

(** [Match], run to completion by one thread: the verdict and the new state. *)
Definition Match (g : FastWildcardGroup) (str : bytes) (allow : bool)
  : option (bool * FastWildcardGroup) :=
  g ← (if rolling_hash_length_ g =? kUncompiled
       then Compile (set_rolling_hash_length kDontHash g) else Some g);
  b ← Match_with g (rolling_hash_length_ g) str allow;
  Some (b, g).

Definition AppendFrom (src g : FastWildcardGroup) : option FastWildcardGroup :=
  let g := Uncompile g in
  if (length (wildcards_ src) =? length (allow_ src))%nat then
    Some (mkGroup (wildcards_ g ++ map Wildcard.Duplicate (wildcards_ src))
            (allow_ g ++ allow_ src) (rolling_hashes_ g) (effective_indices_ g)
            (wildcard_only_indices_ g) (pattern_hash_index_ g) (rolling_hash_length_ g))
  else None.

Definition CopyFrom (src g : FastWildcardGroup) : option FastWildcardGroup :=
  AppendFrom src (Clear g).

Definition Signature (g : FastWildcardGroup) : bytes :=
  concat (zip_with (fun w (a : bool) => Wildcard.spec w ++ lit (if a then "A" else "D") ++ lit ",")
            (wildcards_ g) (allow_ g)).

(** A compiled group, evaluated. *)
Definition example_specs : list (bytes * bool) :=
  [(lit "*.cc", true); (lit "*.h", true); (lit "a*.h", false); (lit "ab*.h", true);
   (lit "c*.cc", false); (lit "??", true); (lit "*foo*", true); (lit "*bar*", false);
   (lit "baz", true); (lit "qu*x", false); (lit "n?n", true); (lit "zz*", true);
   (lit "*yy", false)].
Definition example_group : FastWildcardGroup :=
  fold_left (fun g r => if (r.2 : bool) then Allow r.1 g else Disallow r.1 g) example_specs new_group.

Example example_group_compiles :
  (fun r => (r.1, rolling_hash_length_ r.2)) <$> Match example_group (lit "c.cc") true
  = Some (false, 1).
Proof. vm_compute. reflexivity. Qed.

(** ** The longest literal *)

Definition literal_range (spec : bytes) (pos len : nat) : Prop :=
  (pos + len <= length spec)%nat /\
  Forall (fun c => is_wildcard_char c = false) (take len (drop pos spec)).

Lemma find_first_of_literal spec pos :
  (pos < length spec)%nat ->
  let next := default (length spec) (find_first_of spec pos) in
  (pos <= next)%nat /\ literal_range spec pos (next - pos).
Proof.
  intros Hpos. cbn zeta. unfold find_first_of, literal_range.
  destruct (list_find _ _) as [[i c]|] eqn:E; cbn.
  - apply list_find_Some in E as (Hi & _ & Hn).
    apply lookup_lt_Some in Hi as Hlt. rewrite length_drop in Hlt.
    split; [lia|]. split; [lia|]. rewrite Nat.add_comm, Nat.add_sub.
    apply Forall_lookup_2. intros j x Hj.
    apply lookup_take_Some in Hj as [Hj Hji]. specialize (Hn j x Hj Hji).
    by destruct (is_wildcard_char x).
  - apply list_find_None in E. split; [lia|]. split; [lia|].
    rewrite take_ge by (rewrite length_drop; lia).
    eapply Forall_impl; [exact E|]. intros x Hx. cbn in Hx. by destruct (is_wildcard_char x).
Qed.

Lemma Longest_loop_literal fuel spec pos lp ll :
  literal_range spec lp ll ->
  let '(p, l) := Longest_loop fuel spec pos lp ll in literal_range spec p l.
Proof.
  revert pos lp ll. induction fuel as [|fuel IH]; intros pos lp ll H; cbn [Longest_loop]; [done|].
  destruct (Nat.ltb_spec pos (length spec)) as [Hpos|_]; [|done].
  destruct (find_first_of_literal spec pos Hpos) as [Hle Hlit].
  destruct (ll <? _)%nat; by apply IH.
Qed.

(** The literal of a wildcard occurs in every string the wildcard matches. *)
Lemma longest_literal_occurs w s :
  Wildcard.glob (Wildcard.spec w) s ->
  exists a b, s = a ++ LongestLiteralStringInWildcard w ++ b.
Proof.
  intros HG. unfold LongestLiteralStringInWildcard.
  assert (H0 : literal_range (Wildcard.spec w) 0 0) by (split; [lia|constructor]).
  pose proof (Longest_loop_literal (S (length (Wildcard.spec w))) (Wildcard.spec w) 0 0 0 H0) as HL.
  destruct (Longest_loop _ _ _ _ _) as [p l]. destruct HL as [Hlen HF].
  set (literal := take l (drop p (Wildcard.spec w))) in *.
  rewrite <- (take_drop p (Wildcard.spec w)), <- (take_drop l (drop p (Wildcard.spec w))) in HG.
  apply Wildcard.glob_app in HG as (a & ? & -> & _ & HG).
  apply Wildcard.glob_app in HG as (m & b & -> & HG & _).
  apply Wildcard.glob_simple in HG as ->; [by exists a, b|..].
  all: intros Hin; rewrite Forall_forall in HF; specialize (HF _ Hin); vm_compute in HF; done.
Qed.

(** ** The hash table *)

(** A table whose size is a power of two that fits in 64 bits. *)
Definition pow2_size (table : list Z) : Prop :=
  exists k, 0 <= k <= 64 /\ Z.of_nat (length table) = 2 ^ k.

(** The entry at probe distance [p] from hash [h]. *)
Definition probe_at (table : list Z) (h : Z) (p : nat) : option Z :=
  table !! Z.to_nat ((h + Z.of_nat p) mod Z.of_nat (length table)).

Lemma slot_mod table h : pow2_size table -> slot table h = h mod Z.of_nat (length table).
Proof.
  intros (k & Hk & E). unfold slot. rewrite E.
  replace (2 ^ k - 1) with (Z.ones k) by (rewrite Z.ones_equiv; lia).
  apply Z.land_ones. lia.
Qed.

Lemma pow2_size_pos table : pow2_size table -> 0 < Z.of_nat (length table).
Proof. intros (k & Hk & ->). apply Z.pow_pos_nonneg; lia. Qed.

Lemma pattern_hash_index_probe table h p :
  pow2_size table ->
  pattern_hash_index table (u64 (h + Z.of_nat p)) = probe_at table h p.
Proof.
  intros HT. unfold pattern_hash_index, probe_at, vget. rewrite slot_mod by done.
  pose proof (pow2_size_pos _ HT) as Hpos.
  assert (u64 (h + Z.of_nat p) mod Z.of_nat (length table)
          = (h + Z.of_nat p) mod Z.of_nat (length table)) as ->.
  { unfold u64. destruct HT as (k & Hk & ->). apply Z.mod_mod_divide.
    exists (2 ^ (64 - k)). rewrite <- Z.pow_add_r by lia. f_equal. lia. }
  pose proof (Z.mod_pos_bound (h + Z.of_nat p) _ Hpos).
  by rewrite (proj2 (Z.leb_le _ _)) by lia.
Qed.

Lemma probe_at_Some table h p : pow2_size table -> exists e, probe_at table h p = Some e.
Proof.
  intros HT. pose proof (pow2_size_pos _ HT) as Hpos.
  pose proof (Z.mod_pos_bound (h + Z.of_nat p) _ Hpos).
  apply lookup_lt_is_Some_2. lia.
Qed.

(** Entry [i] is found from hash [h], passing only larger indices. *)
Definition entry_ok (table : list Z) (h i : Z) : Prop :=
  exists p, probe_at table h p = Some i /\
    forall q, (q < p)%nat -> exists j, probe_at table h q = Some j /\ i < j.

Definition empties (table : list Z) : nat := length (filter (fun e => e = kNoEntry) table).

Lemma empties_insert table k x :
  table !! k = Some kNoEntry -> x <> kNoEntry ->
  S (empties (<[k := x]> table)) = empties table.
Proof.
  unfold empties. revert k. induction table as [|e table IH]; intros [|k] Hk Hx;
    cbn in Hk; simplify_eq; cbn [insert list_insert]; rewrite !filter_cons.
  - by rewrite decide_False, decide_True by done.
  - case_decide; cbn [length]; by rewrite <- (IH k).
Qed.

Lemma empties_pos_slot table : (0 < empties table)%nat -> exists k, table !! k = Some kNoEntry.
Proof.
  unfold empties. induction table as [|e table IH]; [cbn; lia|].
  rewrite filter_cons. case_decide as He.
  - intros _. exists 0%nat. by rewrite He.
  - intros H. destruct (IH H) as [k Hk]. by exists (S k).
Qed.

Lemma empties_replicate n : empties (replicate n kNoEntry) = n.
Proof.
  unfold empties. induction n as [|n IH]; [done|].
  cbn [replicate]. rewrite filter_cons, decide_True by done. cbn. by rewrite IH.
Qed.

(** Every slot lies within one round of probes. *)
Lemma probe_reaches table h k :
  pow2_size table -> (k < length table)%nat ->
  exists p, (p < length table)%nat /\
    Z.to_nat ((h + Z.of_nat p) mod Z.of_nat (length table)) = k.
Proof.
  intros HT Hk. pose proof (pow2_size_pos _ HT) as Hpos. set (n := Z.of_nat (length table)) in *.
  exists (Z.to_nat ((Z.of_nat k - h) mod n)).
  pose proof (Z.mod_pos_bound (Z.of_nat k - h) n Hpos). split; [lia|].
  rewrite Z2Nat.id, Zplus_mod_idemp_r by lia.
  replace (h + (Z.of_nat k - h)) with (Z.of_nat k) by lia.
  rewrite Z.mod_small by lia. lia.
Qed.

Lemma u64_word h : RollingHash.word64 h -> u64 (h + Z.of_nat 0) = h.
Proof. intros [? ?]. unfold u64. rewrite Z.add_0_r. by apply Z.mod_small. Qed.

Lemma u64_word64 z : RollingHash.word64 (u64 z).
Proof. unfold u64, RollingHash.word64. apply Z.mod_pos_bound. lia. Qed.

Lemma u64_succ h q : u64 (u64 (h + Z.of_nat q) + 1) = u64 (h + Z.of_nat (S q)).
Proof.
  unfold u64. rewrite Zplus_mod_idemp_l. f_equal. lia.
Qed.

(** The slot where the insertion loop stops. *)
Lemma insert_entry_first_free fuel table h i q :
  pow2_size table ->
  (exists p, (q <= p < q + fuel)%nat /\ probe_at table h p = Some kNoEntry) ->
  exists p k, probe_at table h p = Some kNoEntry /\
    k = Z.to_nat ((h + Z.of_nat p) mod Z.of_nat (length table)) /\
    (forall q', (q <= q' < p)%nat -> exists e, probe_at table h q' = Some e /\ e <> kNoEntry) /\
    insert_entry fuel table (u64 (h + Z.of_nat q)) i = Some (<[k := i]> table).
Proof.
  intros HT. revert q. induction fuel as [|fuel IH]; intros q (p & Hp & Hfree); [lia|].
  cbn [insert_entry]. rewrite pattern_hash_index_probe by done.
  destruct (probe_at_Some table h q HT) as [e He]. rewrite He. cbn [mbind option_bind].
  destruct (Z.eqb_spec e kNoEntry) as [->|Hne].
  - exists q, (Z.to_nat ((h + Z.of_nat q) mod Z.of_nat (length table))).
    split; [done|]. split; [done|]. split; [lia|].
    pose proof (pow2_size_pos _ HT) as Hpos. rewrite slot_mod by done.
    assert (u64 (h + Z.of_nat q) mod Z.of_nat (length table)
            = (h + Z.of_nat q) mod Z.of_nat (length table)) as ->.
    { unfold u64. destruct HT as (k & Hk & ->). apply Z.mod_mod_divide.
      exists (2 ^ (64 - k)). rewrite <- Z.pow_add_r by lia. f_equal. lia. }
    pose proof (Z.mod_pos_bound (h + Z.of_nat q) _ Hpos).
    unfold vset. by rewrite (proj2 (Z.leb_le _ _)), (proj2 (Z.ltb_lt _ _)) by lia.
  - destruct (IH (S q)) as (p' & k & Hp' & Hk & Hbefore & Hins).
    { exists p. split; [|done]. assert (p <> q) by congruence. lia. }
    exists p', k. split; [done|]. split; [done|]. split; [|by rewrite u64_succ].
    intros q' Hq'. destruct (decide (q' = q)) as [->|]; [eauto|]. apply Hbefore. lia.
Qed.

Lemma probe_at_insert_ne table h p e k i :
  table !! k = Some kNoEntry -> probe_at table h p = Some e -> e <> kNoEntry ->
  probe_at (<[k := i]> table) h p = Some e.
Proof.
  unfold probe_at. intros Hk Hp He. rewrite length_insert.
  rewrite list_lookup_insert_ne; [done|]. intros ->. congruence.
Qed.

(** An insertion keeps the earlier entries reachable. *)
Lemma entry_ok_insert table h j k i :
  table !! k = Some kNoEntry -> 0 <= j -> entry_ok table h j -> entry_ok (<[k := i]> table) h j.
Proof.
  intros Hk Hj (p & Hp & Hq). exists p. split.
  - apply probe_at_insert_ne; [done..|]. unfold kNoEntry. lia.
  - intros q Hlt. destruct (Hq q Hlt) as (e & He & ?). exists e. split; [|done].
    apply probe_at_insert_ne; [done..|]. unfold kNoEntry. lia.
Qed.

Definition entries_above (table : list Z) (i n : Z) : Prop :=
  forall k e, table !! k = Some e -> e = kNoEntry \/ i <= e < n.

Lemma insert_entry_spec table h i n :
  pow2_size table -> RollingHash.word64 h -> (0 < empties table)%nat ->
  0 <= i -> entries_above table (i + 1) n ->
  exists k, insert_entry (length table) table h i = Some (<[k := i]> table) /\
    table !! k = Some kNoEntry /\ entry_ok (<[k := i]> table) h i.
Proof.
  intros HT Hh He Hi Habove.
  destruct (empties_pos_slot _ He) as [k0 Hk0].
  destruct (probe_reaches table h k0 HT) as (p0 & Hp0 & Heq); [by eapply lookup_lt_Some|].
  destruct (insert_entry_first_free (length table) table h i 0 HT) as (p & k & Hp & Hk & Hq & Hins).
  { exists p0. split; [lia|]. unfold probe_at. by rewrite Heq. }
  rewrite u64_word in Hins by done. exists k.
  assert (Hfree : table !! k = Some kNoEntry) by (by rewrite Hk).
  split; [done|]. split; [done|]. exists p. split.
  - unfold probe_at. rewrite length_insert, <- Hk. apply list_lookup_insert_eq.
    by eapply lookup_lt_Some.
  - intros q Hlt. destruct (Hq q) as (e & Hqe & Hne); [lia|].
    exists e. split; [by apply probe_at_insert_ne|].
    unfold probe_at in Hqe. destruct (Habove _ _ Hqe); [done|lia].
Qed.

(** ** Windows *)

(** [h] is the hash of some window of [L] bytes of the literal. *)
Definition window_hash (L : nat) (literal : bytes) (h : Z) : Prop :=
  exists start, (start + L <= length literal)%nat /\
    h = RollingHash.hash_of (take L (drop start literal)).

Lemma window_hash_word64 L literal h : window_hash L literal h -> RollingHash.word64 h.
Proof. intros (? & _ & ->). apply RollingHash.hash_of_word64. Qed.

Lemma NextRollingHash_window buf start n :
  (0 < start)%nat -> (start + n <= length buf)%nat ->
  RollingHash.NextRollingHash buf start n
    (RollingHash.hash_of (take n (drop (start - 1) buf)))
  = Some (RollingHash.hash_of (take n (drop start buf))).
Proof. intros. by apply RollingHash.NextRollingHash_hash_of. Qed.

Lemma choose_hash_spec fuel table literal start max_start L :
  pow2_size table -> (0 < start)%nat -> (max_start + L = length literal)%nat ->
  (max_start < start + fuel)%nat -> (start <= S max_start)%nat ->
  exists h,
    choose_hash fuel table literal start max_start L
      (RollingHash.hash_of (take L (drop (start - 1) literal))) = Some h /\
    window_hash L literal h.
Proof.
  intros HT. revert start. induction fuel as [|fuel IH]; intros start Hs Hm Hf Hle; cbn [choose_hash].
  - rewrite (proj2 (Nat.leb_gt _ _)) by lia. eexists. split; [done|].
    exists (start - 1)%nat. split; [lia|done].
  - destruct (Nat.leb_spec start max_start).
    + set (h := RollingHash.hash_of _).
      assert (Hw : RollingHash.word64 h) by apply RollingHash.hash_of_word64.
      assert (pattern_hash_index table h = probe_at table h 0) as ->.
      { by rewrite <- pattern_hash_index_probe, u64_word. }
      destruct (probe_at_Some table h 0 HT) as [e ->]. cbn [mbind option_bind].
      destruct (e =? kNoEntry).
      * exists h. split; [done|]. exists (start - 1)%nat. split; [lia|done].
      * unfold h. rewrite NextRollingHash_window by lia. cbn [mbind option_bind].
        destruct (IH (start + 1)%nat) as (h' & E & ?); [lia..|].
        rewrite Nat.add_sub in E. eauto.
    + eexists. split; [done|]. exists (start - 1)%nat. split; [lia|done].
Qed.

(** ** The compiled form *)

Lemma vset_Some {A} (v : list A) (i : nat) x :
  (i < length v)%nat -> vset v (Z.of_nat i) x = Some (<[i := x]> v).
Proof.
  intros H. unfold vset.
  by rewrite (proj2 (Z.leb_le _ _)), (proj2 (Z.ltb_lt _ _)), Nat2Z.id by lia.
Qed.

Lemma vget_of_nat {A} (v : list A) (i : nat) : vget v (Z.of_nat i) = v !! i.
Proof. unfold vget. by rewrite (proj2 (Z.leb_le _ _)), Nat2Z.id by lia. Qed.

Definition nontrivial (literals : list bytes) : nat := length (filter (fun l => l <> []) literals).

Section compile.
Context (allow : list bool) (literals : list bytes) (L : nat).

Abbreviation n := (length literals).

Hypothesis allow_length : length allow = n.
Hypothesis L_min : forall i l, literals !! i = Some l -> l <> [] -> (L <= length l)%nat.

(** The effective index [e] of a run that starts at [j]. *)
Definition same_run (j : nat) (e : Z) : Prop :=
  Z.of_nat j <= e < Z.of_nat n /\
  forall k, (j <= k)%nat -> Z.of_nat k <= e -> allow !! k = allow !! j.

(** The entries of index [i] and above are in place. *)
Record compile_inv (i : nat) (s : CompileState) : Prop := {
  ci_hashes : length (cs_hashes s) = n;
  ci_effective_length : length (cs_effective s) = n;
  ci_table : pow2_size (cs_table s);
  ci_above : entries_above (cs_table s) (Z.of_nat i) (Z.of_nat n);
  ci_empties : (empties (cs_table s) + nontrivial (drop i literals) = length (cs_table s))%nat;
  ci_entries : forall j l, (i <= j)%nat -> literals !! j = Some l -> l <> [] ->
    exists h, cs_hashes s !! j = Some h /\ window_hash L l h /\
      entry_ok (cs_table s) h (Z.of_nat j);
  ci_only : forall j, Z.of_nat j ∈ cs_only s <->
    (i <= j)%nat /\ literals !! j = Some [];
  ci_only_range : Forall (fun e => Z.of_nat i <= e < Z.of_nat n) (cs_only s);
  ci_only_sorted : StronglySorted Z.gt (cs_only s);
  ci_effective : forall j, (i <= j < n)%nat ->
    exists e, cs_effective s !! j = Some e /\ same_run j e;
  ci_current : Z.of_nat i - 1 <= cs_current_effective_index s < Z.of_nat n /\
    forall k, (i <= k)%nat -> Z.of_nat k <= cs_current_effective_index s ->
      allow !! k = Some (cs_current_allow s);
  ci_only_count : (length (cs_only s) + nontrivial (drop i literals) = n - i)%nat
}.

Lemma drop_nontrivial i l :
  literals !! i = Some l ->
  nontrivial (drop i literals)
  = ((if decide (l = []) then 0 else 1) + nontrivial (drop (S i) literals))%nat.
Proof.
  intros H. unfold nontrivial. rewrite (drop_S _ _ _ H), filter_cons.
  destruct (decide (l = [])), (decide (l <> [])); naive_solver.
Qed.

(** The run of equal verdicts from [i] to [e]. *)
Definition run_from (i : nat) (e : Z) (a : bool) : Prop :=
  Z.of_nat i <= e < Z.of_nat n /\
  forall k, (i <= k)%nat -> Z.of_nat k <= e -> allow !! k = Some a.

Lemma compile_step_current i s a :
  compile_inv (S i) s -> allow !! i = Some a ->
  let changed := negb (Bool.eqb a (cs_current_allow s)) in
  (if changed then a else cs_current_allow s) = a /\
  run_from i (if changed then Z.of_nat i else cs_current_effective_index s) a.
Proof.
  intros HI Ha. cbn zeta. destruct (ci_current _ _ HI) as [Hr Hrun].
  apply lookup_lt_Some in Ha as Hi. rewrite allow_length in Hi. unfold run_from.
  destruct (Bool.eqb a (cs_current_allow s)) eqn:Eq; cbn [negb].
  - apply Bool.eqb_prop in Eq as ->. split; [done|]. split; [lia|].
    intros k Hk Hke. destruct (decide (k = i)) as [->|]; [done|]. apply Hrun; lia.
  - split; [done|]. split; [lia|]. intros k Hk Hke. by replace k with i by lia.
Qed.

Lemma run_from_effective i s e a :
  compile_inv (S i) s -> (i < n)%nat -> run_from i e a ->
  forall j, (i <= j < n)%nat ->
    exists e', <[i := e]> (cs_effective s) !! j = Some e' /\ same_run j e'.
Proof.
  intros HI Hi [He Hrun] j Hj. pose proof (ci_effective_length _ _ HI).
  destruct (decide (j = i)) as [->|].
  - exists e. split; [by apply list_lookup_insert_eq; lia|].
    split; [lia|]. intros k Hk Hke. by rewrite !Hrun by lia.
  - destruct (ci_effective _ _ HI j) as (e' & He' & ?); [lia|].
    exists e'. by rewrite list_lookup_insert_ne.
Qed.

(** Index [i] without a literal. *)
Lemma compile_inv_trivial i s e a :
  compile_inv (S i) s -> (i < n)%nat -> literals !! i = Some [] -> run_from i e a ->
  compile_inv i (mkCompile (<[i := 0]> (cs_hashes s)) (<[i := e]> (cs_effective s))
                   (cs_only s ++ [Z.of_nat i]) (cs_table s) e a).
Proof.
  intros HI Hi Hl Hr. pose proof (run_from_effective i s e a HI Hi Hr) as Heff.
  pose proof (drop_nontrivial i [] Hl) as Hnt. destruct Hr as [He Hrun].
  destruct HI as [Hh Hel HT Hab Hem Hen Hon Hor Hos _ _ Hct].
  split; cbn [cs_hashes cs_effective cs_only cs_table cs_current_effective_index
              cs_current_allow]; auto; try (by rewrite length_insert).
  - intros k e' Hk. destruct (Hab k e' Hk); [by left|right; lia].
  - rewrite Hnt. exact Hem.
  - intros j l Hj Hlj Hne. assert (j <> i) by congruence.
    destruct (Hen j l) as (h & Hhj & ?); [lia|done..|].
    exists h. by rewrite list_lookup_insert_ne.
  - intros j. rewrite elem_of_app, list_elem_of_singleton, Hon. split.
    + intros [[? ?]|?]; [split; [lia|done]|]. assert (j = i) as -> by lia. done.
    + intros [Hj Hlj]. destruct (decide (j = i)) as [->|]; [by right|].
      left. split; [lia|done].
  - apply Forall_app. split; [|by repeat constructor; lia].
    eapply Forall_impl; [exact Hor|]. cbn. lia.
  - apply StronglySorted_app. repeat split_and; [|done|repeat constructor].
    intros e1 e2 He1 He2. apply list_elem_of_singleton in He2 as ->.
    rewrite Forall_forall in Hor. specialize (Hor _ He1). lia.
  - split; [lia|done].
  - rewrite length_app, Hnt. rewrite decide_True by done. cbn [length]. lia.
Qed.

(** Index [i] with a literal, entered in the free slot [k]. *)
Lemma compile_inv_hashed i s e a l h k :
  compile_inv (S i) s -> (i < n)%nat -> literals !! i = Some l -> l <> [] -> run_from i e a ->
  window_hash L l h -> cs_table s !! k = Some kNoEntry ->
  entry_ok (<[k := Z.of_nat i]> (cs_table s)) h (Z.of_nat i) ->
  compile_inv i (mkCompile (<[i := h]> (cs_hashes s)) (<[i := e]> (cs_effective s))
                   (cs_only s) (<[k := Z.of_nat i]> (cs_table s)) e a).
Proof.
  intros HI Hi Hl Hlne Hr Hwin Hk Hok.
  pose proof (run_from_effective i s e a HI Hi Hr) as Heff.
  pose proof (drop_nontrivial i l Hl) as Hnt. rewrite decide_False in Hnt by done.
  destruct Hr as [He Hrun]. destruct HI as [Hh Hel HT Hab Hem Hen Hon Hor Hos _ _ Hct].
  split; cbn [cs_hashes cs_effective cs_only cs_table cs_current_effective_index
              cs_current_allow]; auto; try (by rewrite length_insert).
  - destruct HT as (p & ? & Hp). exists p. by rewrite length_insert.
  - intros k' e' Hk'. destruct (decide (k' = k)) as [->|].
    + rewrite list_lookup_insert_eq in Hk' by (by eapply lookup_lt_Some).
      simplify_eq. right. lia.
    + rewrite list_lookup_insert_ne in Hk' by done.
      destruct (Hab _ _ Hk'); [by left|right; lia].
  - rewrite length_insert, <- Hem, Hnt.
    rewrite <- (empties_insert (cs_table s) k (Z.of_nat i)); [lia|done|].
    unfold kNoEntry. lia.
  - intros j l0 Hj Hlj Hne. destruct (decide (j = i)) as [->|].
    + assert (l0 = l) as -> by congruence. exists h.
      split; [by apply list_lookup_insert_eq; lia|done].
    + destruct (Hen j l0) as (h' & Hhj & ? & ?); [lia|done..|].
      exists h'. rewrite list_lookup_insert_ne by done. split; [done|]. split; [done|].
      apply entry_ok_insert; [done|lia|done].
  - intros j. rewrite Hon. split.
    + intros [? ?]. split; [lia|done].
    + intros [Hj Hlj]. split; [|done]. assert (j <> i) by congruence. lia.
  - eapply Forall_impl; [exact Hor|]. cbn. lia.
  - split; [lia|done].
  - rewrite Hnt. lia.
Qed.

Lemma compile_step_inv i s :
  compile_inv (S i) s -> (i < n)%nat ->
  (nontrivial literals < length (cs_table s))%nat ->
  exists s', compile_step allow literals L i s = Some s' /\ compile_inv i s' /\
    length (cs_table s') = length (cs_table s).
Proof.
  intros HI Hi Hsize.
  destruct (lookup_lt_is_Some_2 literals i Hi) as [l Hl].
  destruct (lookup_lt_is_Some_2 allow i) as [a Ha]; [lia|].
  unfold compile_step. rewrite Hl, Ha. cbn [mbind option_bind].
  destruct (compile_step_current i s a HI Ha) as [-> Hrun].
  set (e := if negb _ then Z.of_nat i else _) in *. clearbody e.
  pose proof (ci_hashes _ _ HI) as Hh. pose proof (ci_effective_length _ _ HI) as Hel.
  rewrite (vset_Some (cs_effective s)) by lia. cbn [mbind option_bind].
  destruct (decide (l = [])) as [->|Hlne].
  - cbn [length Nat.eqb]. rewrite vset_Some by lia. cbn [mbind option_bind].
    eexists. split; [done|]. split; [|done]. by apply compile_inv_trivial.
  - assert ((length l =? 0)%nat = false) as -> by (by destruct l).
    pose proof (L_min i l Hl Hlne) as HL.
    rewrite RollingHash.RollingHash_hash_of by lia. cbn [mbind option_bind].
    destruct (choose_hash_spec (length l) (cs_table s) l 1 (length l - L) L)
      as (h & Hch & Hwin); [apply HI|lia..|].
    cbn [Nat.sub] in Hch. rewrite Hch. cbn [mbind option_bind].
    rewrite vset_Some by lia. cbn [mbind option_bind].
    assert (Hfree : (0 < empties (cs_table s))%nat).
    { pose proof (ci_empties _ _ HI) as Hem.
      assert (nontrivial literals = nontrivial (take i literals) + nontrivial (drop i literals))%nat.
      { unfold nontrivial. by rewrite <- length_app, <- filter_app, take_drop. }
      pose proof (drop_nontrivial i l Hl) as Hnt. rewrite decide_False in Hnt by done. lia. }
    destruct (insert_entry_spec (cs_table s) h (Z.of_nat i) (Z.of_nat n))
      as (k & Hins & Hk & Hok).
    { apply HI. } { by eapply window_hash_word64. } { done. } { lia. }
    { pose proof (ci_above _ _ HI) as Hab. by rewrite Nat2Z.inj_succ in Hab. }
    rewrite Hins. cbn [mbind option_bind].
    eexists. split; [done|]. split; [|apply length_insert].
    by apply (compile_inv_hashed i s e a l h k).
Qed.

Lemma compile_loop_inv i s :
  compile_inv i s -> (i <= n)%nat -> (nontrivial literals < length (cs_table s))%nat ->
  exists s', compile_loop allow literals L i s = Some s' /\ compile_inv 0 s' /\
    length (cs_table s') = length (cs_table s).
Proof.
  revert s. induction i as [|i IH]; intros s HI Hi Hs; cbn [compile_loop]; [eauto|].
  destruct (compile_step_inv i s HI) as (s' & -> & HI' & Hlen); [lia|done|].
  cbn [mbind option_bind]. rewrite <- Hlen. apply IH; [done|lia|lia].
Qed.
End compile.

Lemma count_literal_fold literals num L :
  0 < L ->
  let '(num', L') := fold_left count_literal literals (num, L) in
  num' = num + Z.of_nat (nontrivial literals) /\ 0 < L' <= L /\
  forall l, l ∈ literals -> l <> [] -> L' <= Z.of_nat (length l).
Proof.
  revert num L. induction literals as [|l literals IH]; intros num L HL; cbn [fold_left].
  - cbn. split; [lia|]. split; [lia|]. set_solver.
  - unfold nontrivial in *. rewrite filter_cons. cbn [count_literal].
    destruct (Z.ltb_spec 0 (Z.of_nat (length l))) as [Hl|Hl].
    + specialize (IH (num + 1) (Z.min L (Z.of_nat (length l))) ltac:(lia)).
      destruct (fold_left _ _ _) as [num' L']. destruct IH as (-> & ? & IH).
      rewrite decide_True by (intros ->; cbn in Hl; lia). cbn [length].
      split; [lia|]. split; [lia|]. intros l' [->|?]%elem_of_cons ?; [lia|auto].
    + specialize (IH num L HL).
      destruct (fold_left _ _ _) as [num' L']. destruct IH as (-> & ? & IH).
      assert (l = []) as -> by (destruct l; [done|cbn in Hl; lia]).
      rewrite decide_False by auto.
      split; [lia|]. split; [lia|]. intros l' [->|?]%elem_of_cons ?; [done|auto].
Qed.

Lemma hash_index_size_loop_spec fuel k num :
  0 <= k -> (Z.to_nat (2 * num - 2 ^ k) <= fuel)%nat -> 2 ^ k <= Z.max 8 (4 * num) ->
  exists k', k <= k' /\ hash_index_size_loop fuel (2 ^ k) num = 2 ^ k' /\
    2 * num <= 2 ^ k' <= Z.max 8 (4 * num).
Proof.
  revert k. induction fuel as [|fuel IH]; intros k Hk Hf Hmax; cbn [hash_index_size_loop].
  - exists k. split; [lia|]. split; [done|]. lia.
  - destruct (Z.ltb_spec (2 ^ k) (2 * num)) as [Hlt|Hge].
    + assert (E : 2 ^ k * 2 = 2 ^ (k + 1)) by (rewrite Z.pow_add_r by lia; lia).
      pose proof (Z.pow_pos_nonneg 2 k).
      rewrite E. destruct (IH (k + 1)) as (k' & ? & ? & ?); [lia..|].
      exists k'. split; [lia|done].
    + exists k. split; [lia|]. split; [done|]. lia.
Qed.

(** What a compiled group satisfies. *)
Record compiled (g : FastWildcardGroup) : Prop := {
  co_L : 0 < rolling_hash_length_ g;
  co_L_min : forall i w, wildcards_ g !! i = Some w -> LongestLiteralStringInWildcard w <> [] ->
    rolling_hash_length_ g <= Z.of_nat (length (LongestLiteralStringInWildcard w));
  co_allow : length (allow_ g) = length (wildcards_ g);
  co_free : (0 < empties (pattern_hash_index_ g))%nat;
  co_inv : exists c a,
    compile_inv (allow_ g) (map LongestLiteralStringInWildcard (wildcards_ g))
      (Z.to_nat (rolling_hash_length_ g)) 0
      (mkCompile (rolling_hashes_ g) (effective_indices_ g) (wildcard_only_indices_ g)
         (pattern_hash_index_ g) c a)
}.

(** A group whose vectors carry no compilation data. *)
Definition uncompiled_data (g : FastWildcardGroup) : Prop :=
  rolling_hashes_ g = [] /\ effective_indices_ g = [] /\
  wildcard_only_indices_ g = [] /\ pattern_hash_index_ g = [].

Lemma initial_compile_inv allow literals L size a k :
  length allow = length literals -> Z.of_nat size = 2 ^ k -> 0 <= k <= 64 ->
  allow !! (length literals - 1)%nat = Some a -> (0 < length literals)%nat ->
  compile_inv allow literals L (length literals)
    (mkCompile (replicate (length literals) 0) (replicate (length allow) 0) []
       (replicate size kNoEntry) (Z.of_nat (length allow) - 1) a).
Proof.
  intros Hlen Hsize Hk Ha Hn.
  split; cbn [cs_hashes cs_effective cs_only cs_table cs_current_effective_index
              cs_current_allow]; rewrite ?length_replicate; try done.
  - exists k. by rewrite length_replicate.
  - intros j e [-> _]%lookup_replicate. by left.
  - by rewrite drop_all, empties_replicate, Nat.add_0_r.
  - intros j l Hj Hl%lookup_lt_Some. lia.
  - intros j. split; [set_solver|]. intros [? Hl%lookup_lt_Some]. lia.
  - constructor.
  - lia.
  - rewrite Hlen. split; [lia|]. intros j ? ?. by replace j with (length literals - 1)%nat by lia.
  - rewrite drop_all. cbn. lia.
Qed.

Lemma sensible_uncompiled g : rolling_hash_length_ g = kDontHash -> uncompiled_data g -> sensible g = true.
Proof. intros Hr (E1 & E2 & E3 & E4). unfold sensible. by rewrite Hr, E1, E2, E3, E4. Qed.

Lemma CompileNonTrivial_spec g :
  length (wildcards_ g) = length (allow_ g) -> uncompiled_data g ->
  rolling_hash_length_ g = kDontHash -> Z.of_nat (length (wildcards_ g)) < 2 ^ 29 ->
  exists g', CompileNonTrivial g = Some g' /\
    wildcards_ g' = wildcards_ g /\ allow_ g' = allow_ g /\ (g' = g \/ compiled g') /\ sensible g' = true.
Proof.
  intros Hlen Hd Hr Hn. pose proof (sensible_uncompiled g Hr Hd) as Hsens. destruct Hd as (_ & _ & Hon & _).
  unfold CompileNonTrivial.
  set (literals := map LongestLiteralStringInWildcard (wildcards_ g)).
  assert (Hlit : length literals = length (wildcards_ g)) by apply length_map.
  pose proof (count_literal_fold literals 0 kMaxRollingHashWindow ltac:(done)) as HC.
  destruct (fold_left _ _ _) as [num L]. destruct HC as (-> & HL & HLmin). rewrite Z.add_0_l.
  destruct (Z.ltb_spec (Z.of_nat (nontrivial literals)) kMinPatterns) as [|Hmin]; [by exists g; repeat split_and; auto|].
  assert (Hnt : (nontrivial literals <= length literals)%nat) by apply length_filter.
  unfold kMinPatterns in Hmin.
  destruct (hash_index_size_loop_spec (Z.to_nat (2 * Z.of_nat (nontrivial literals))) 3
              (Z.of_nat (nontrivial literals))) as (k & Hk & Hloop & Hsize); [lia..|].
  change (2 ^ 3) with 8 in Hloop. rewrite Hloop.
  set (size := Z.to_nat (2 ^ k)). assert (Hsz : Z.of_nat size = 2 ^ k) by lia.
  assert (Hk64 : k <= 64).
  { destruct (Z_lt_le_dec 64 k); [|done]. pose proof (Z.pow_lt_mono_r 2 64 k). lia. }
  rewrite <- Hlen, <- Hlit.
  replace (Z.of_nat (length literals) - 1) with (Z.of_nat (length literals - 1)) by lia.
  rewrite vget_of_nat.
  destruct (lookup_lt_is_Some_2 (allow_ g) (length literals - 1)) as [a Ha]; [lia|].
  rewrite Ha, Hon. cbn [mbind option_bind].
  assert (HLlit : forall i l, literals !! i = Some l -> l <> [] -> (Z.to_nat L <= length l)%nat).
  { intros i l Hi Hne. apply list_elem_of_lookup_2 in Hi.
    specialize (HLmin l Hi Hne). lia. }
  assert (Hal : length (allow_ g) = length literals) by congruence.
  destruct (compile_loop_inv (allow_ g) literals (Z.to_nat L) Hal HLlit
              (length literals)
              (mkCompile (replicate (length literals) 0) (replicate (length literals) 0) []
                 (replicate size kNoEntry) (Z.of_nat (length literals - 1)) a))
    as (s & Hs & HI & Htl).
  - pose proof (initial_compile_inv (allow_ g) literals (Z.to_nat L) size a k) as HI.
    rewrite !Hal in HI. replace (Z.of_nat (length literals - 1)) with (Z.of_nat (length literals) - 1) by lia.
    apply HI; try done; lia.
  - done.
  - cbn [cs_table]. rewrite length_replicate. lia.
  - rewrite Hs. cbn [mbind option_bind]. eexists. split; [done|].
    repeat split_and; [done..| |].
    2:{ destruct HI as [Hh Hel _ _ _ _ _ _ _ _ _ Hct]. rewrite drop_0 in Hct. cbn [cs_table] in Htl. rewrite length_replicate in Htl.
        unfold sensible. cbn [wildcards_ rolling_hashes_ effective_indices_ wildcard_only_indices_ pattern_hash_index_ rolling_hash_length_].
        rewrite (proj2 (Z.eqb_neq L kUncompiled)), (proj2 (Z.eqb_neq L kDontHash)) by (unfold kUncompiled, kDontHash; lia).
        rewrite <- Hlit, Hh, Hel, Htl, Z.eqb_refl. unfold kMinPatterns. cbn [negb andb].
        rewrite !andb_true_iff, Z.ltb_lt, !Z.leb_le. lia. }
    right. split; cbn [wildcards_ allow_ rolling_hashes_ effective_indices_ wildcard_only_indices_
                pattern_hash_index_ rolling_hash_length_].
    + lia.
    + intros i w Hw Hne. apply HLmin; [|done]. apply list_elem_of_In.
      apply in_map, list_elem_of_In. by eapply list_elem_of_lookup_2.
    + done.
    + pose proof (ci_empties _ _ _ _ _ HI) as He. rewrite drop_0 in He.
      cbn [cs_table] in Htl. rewrite length_replicate in Htl. lia.
    + exists (cs_current_effective_index s), (cs_current_allow s). by destruct s.
Qed.

(** ** Matching in a compiled group *)

(** Every literal occurs in every string its rule matches. *)
Definition literals_occur (ws : list Wildcard.Wildcard) (rules : list (bytes * bool)) : Prop :=
  Forall2 (fun w r => forall s, Wildcard.glob r.1 s ->
             exists a b, s = a ++ LongestLiteralStringInWildcard w ++ b) ws rules.

Section matching.
Context (g : FastWildcardGroup) (rules : list (bytes * bool)) (str : bytes).
Hypothesis HR : WildcardGroup.represents (wildcards_ g) (allow_ g) rules.
Hypothesis Hocc : literals_occur (wildcards_ g) rules.
Hypothesis HC : compiled g.

Abbreviation n := (length (wildcards_ g)).
Abbreviation literals := (map LongestLiteralStringInWildcard (wildcards_ g)).

Definition rule_matches (i : nat) : Prop :=
  exists r, rules !! i = Some r /\ Wildcard.glob r.1 str.

(** [m] is a value of [max_effective_index] that stands for a match. *)
Definition reached (m : Z) : Prop :=
  m = kNoEntry \/
  exists i, rule_matches i /\ Z.of_nat i <= m < Z.of_nat n /\
    forall k, (i <= k)%nat -> Z.of_nat k <= m -> allow_ g !! k = allow_ g !! i.

Lemma reached_lower m : reached m -> kNoEntry <= m.
Proof. unfold kNoEntry. intros [->|(i & _ & ? & _)]; unfold kNoEntry; lia. Qed.

Lemma wildcard_decides i :
  (i < n)%nat ->
  exists w, wildcards_ g !! i = Some w /\ decides (Wildcard.Match w str) (rule_matches i).
Proof.
  intros Hi. destruct (WildcardGroup.represents_length _ _ _ HR) as [Hw _].
  destruct (lookup_lt_is_Some_2 rules i) as [r Hr]; [lia|].
  destruct (WildcardGroup.represents_lookup _ _ _ _ _ HR Hr) as (w & Hwi & _ & HM).
  exists w. split; [done|]. eapply decides_proper; [done| |apply HM].
  unfold rule_matches. naive_solver.
Qed.

Lemma effective_reached i :
  (i < n)%nat -> rule_matches i ->
  exists e, effective_indices_ g !! i = Some e /\ Z.of_nat i <= e /\ reached e.
Proof.
  intros Hi HM. destruct (co_inv _ HC) as (c & a & HI).
  destruct (ci_effective _ _ _ _ _ HI i) as (e & He & Hrun1 & Hrun2); [by rewrite length_map; lia|].
  rewrite length_map in Hrun1. exists e. split; [done|]. split; [lia|].
  right. exists i. split; [done|]. split; [done|]. done.
Qed.

Lemma match_only_spec only :
  StronglySorted Z.gt only -> Forall (fun e => 0 <= e < Z.of_nat n) only ->
  exists m, match_only g str only = Some m /\ reached m /\
    forall i, Z.of_nat i ∈ only -> rule_matches i -> Z.of_nat i <= m.
Proof.
  induction only as [|e only IH]; intros Hs Hr; cbn [match_only].
  - exists kNoEntry. split; [done|]. split; [by left|]. set_solver.
  - inversion Hs as [|? ? Hs' Hgt]; subst. inversion Hr as [|? ? He Hr']; subst.
    rewrite <- (Z2Nat.id e) by lia. rewrite !vget_of_nat.
    destruct (wildcard_decides (Z.to_nat e)) as (w & -> & b & HM & Hb); [lia|].
    cbn [mbind option_bind]. rewrite HM. cbn [mbind option_bind]. destruct b.
    + destruct (effective_reached (Z.to_nat e)) as (m & Hm & Hle & Hrm); [lia|by apply Hb|].
      exists m. split; [done|]. split; [done|].
      rewrite Forall_forall in Hgt. intros i Hi _. apply elem_of_cons in Hi as [Hi|Hi]; [lia|].
      specialize (Hgt _ Hi). cbn in Hgt. lia.
    + destruct (IH Hs' Hr') as (m & Hm & Hrm & Hcov). exists m.
      split; [done|]. split; [done|]. intros i Hi HMi. apply elem_of_cons in Hi as [Hi|Hi]; [|auto].
      assert (Z.to_nat e = i) as E by lia. rewrite E in Hb. naive_solver.
Qed.

(** One probe sequence: afterwards no match whose stored hash is [h] beats
    [max_effective_index]. *)
Lemma probe_loop_spec fuel h p m :
  RollingHash.word64 h -> reached m ->
  (exists q, (p <= q < p + fuel)%nat /\
     probe_at (pattern_hash_index_ g) h q = Some kNoEntry) ->
  (forall q, (q < p)%nat -> exists j, probe_at (pattern_hash_index_ g) h q = Some (Z.of_nat j) /\
     ~ (rule_matches j /\ rolling_hashes_ g !! j = Some h)) ->
  exists m', probe_loop fuel g str h (Z.of_nat p) m = Some m' /\ m <= m' /\ reached m' /\
    forall i l, literals !! i = Some l -> l <> [] -> rolling_hashes_ g !! i = Some h ->
      rule_matches i -> Z.of_nat i <= m'.
Proof.
  intros Hh Hm. revert p. destruct (co_inv _ HC) as (c & a & HI).
  pose proof (ci_table _ _ _ _ _ HI) as HT. cbn [cs_table] in HT.
  induction fuel as [|fuel IH]; intros p (q0 & Hq0 & Hfree) Hbefore; [lia|].
  cbn [probe_loop]. rewrite pattern_hash_index_probe by done.
  destruct (probe_at_Some _ h p HT) as [e He]. rewrite He. cbn [mbind option_bind].
  (** Where a match with hash [h] sits relative to probe [p]. *)
  assert (Hplace : forall i l, literals !! i = Some l -> l <> [] ->
            rolling_hashes_ g !! i = Some h -> rule_matches i -> Z.of_nat i <= e).
  { intros i l Hl Hne Hhi HMi.
    destruct (ci_entries _ _ _ _ _ HI i l) as (h' & Hh' & _ & pi & Hpi & Hqi); [lia|done..|].
    cbn [cs_hashes cs_table] in *. rewrite Hhi in Hh'. injection Hh' as <-.
    destruct (Nat.lt_trichotomy pi p) as [Hlt|[->|Hgt]].
    - destruct (Hbefore pi Hlt) as (j & Hj & Hnot). rewrite Hpi in Hj. simplify_eq. by destruct Hnot.
    - rewrite Hpi in He. injection He as <-. lia.
    - destruct (Hqi p Hgt) as (j & Hj & ?). rewrite He in Hj. injection Hj as <-. lia. }
  destruct (Z.leb_spec e m) as [Hle|Hlt].
  { exists m. split; [done|]. split; [lia|]. split; [done|].
    intros i l Hl Hne Hhi HMi. specialize (Hplace i l Hl Hne Hhi HMi). lia. }
  pose proof (reached_lower m Hm) as Hm0. unfold kNoEntry in Hm0.
  assert (Hrange : 0 <= e < Z.of_nat n).
  { pose proof (ci_above _ _ _ _ _ HI) as Hab. cbn [cs_table] in Hab. unfold probe_at in He.
    destruct (Hab _ _ He) as [->|?]; [unfold kNoEntry in *; lia|]. rewrite length_map in *. lia. }
  rewrite <- (Z2Nat.id e) in He, Hplace |- * by lia. set (j := Z.to_nat e) in *.
  rewrite !vget_of_nat.
  destruct (lookup_lt_is_Some_2 (rolling_hashes_ g) j) as [hj Hhj].
  { pose proof (ci_hashes _ _ _ _ _ HI) as Hlen. cbn [cs_hashes] in Hlen. rewrite length_map in Hlen. lia. }
  rewrite Hhj. cbn [mbind option_bind].
  destruct (wildcard_decides j) as (w & Hw & b & HMw & Hb); [lia|].
  rewrite Hw. cbn [mbind option_bind]. rewrite HMw.
  assert (exists b', (if h =? hj then Some b else Some false) = Some b' /\
            (b' = true <-> (rule_matches j /\ hj = h))) as (b' & -> & Hb').
  { destruct (Z.eqb_spec h hj) as [->|]; eexists; (split; [done|]); naive_solver. }
  cbn [mbind option_bind]. destruct b'.
  - destruct (proj1 Hb' eq_refl) as [HMj ->].
    destruct (effective_reached j) as (m' & Hm' & Hjm & Hrm); [lia|done|].
    exists m'. split; [done|]. split; [lia|]. split; [done|].
    intros i l Hl Hne Hhi HMi. specialize (Hplace i l Hl Hne Hhi HMi). lia.
  - replace (Z.of_nat p + 1) with (Z.of_nat (S p)) by lia. apply IH.
    + exists q0. split; [|done]. assert (q0 <> p); [|lia]. intros ->.
      rewrite He in Hfree. unfold kNoEntry in Hfree. injection Hfree. lia.
    + intros q Hq. destruct (decide (q = p)) as [->|]; [|apply Hbefore; lia].
      exists j. split; [done|]. intros [? Heq]. rewrite Hhj in Heq. naive_solver.
Qed.

Abbreviation L := (Z.to_nat (rolling_hash_length_ g)).
Definition window (ofs : nat) : Z := RollingHash.hash_of (take L (drop ofs str)).

(** All windows before [ofs] have been looked up. *)
Definition covered (m : Z) (ofs : Z) : Prop :=
  forall q i l, Z.of_nat q < ofs -> literals !! i = Some l -> l <> [] ->
    rolling_hashes_ g !! i = Some (window q) -> rule_matches i -> Z.of_nat i <= m.

Lemma free_probe (h : Z) :
  exists q, (q < length (pattern_hash_index_ g))%nat /\
    probe_at (pattern_hash_index_ g) h q = Some kNoEntry.
Proof.
  destruct (empties_pos_slot _ (co_free _ HC)) as [k Hk].
  destruct (co_inv _ HC) as (c & a & HI).
  destruct (probe_reaches (pattern_hash_index_ g) h k) as (q & Hq & E);
    [apply HI|by eapply lookup_lt_Some|].
  exists q. split; [done|]. unfold probe_at. by rewrite E.
Qed.

Lemma roll_loop_spec fuel exit rolling_end ofs m :
  rolling_end = Z.of_nat (length str) - rolling_hash_length_ g ->
  reached m -> covered m (Z.of_nat ofs) -> (Z.to_nat (rolling_end + 1) <= ofs + fuel)%nat ->
  exists m', roll_loop fuel g str exit rolling_end (window ofs) (Z.of_nat ofs) m = Some m' /\
    m <= m' /\ reached m' /\ (exit <= m' \/ covered m' (rolling_end + 1)).
Proof.
  intros Hend. pose proof (co_L _ HC) as HL. revert ofs m.
  induction fuel as [|fuel IH]; intros ofs m Hm Hcov Hfuel; cbn [roll_loop];
    destruct (Z.ltb_spec m exit) as [Hexit|]; cbn [andb]; [|by eauto 6 with lia| |by eauto 6 with lia];
    destruct (Z.leb_spec (Z.of_nat ofs) rolling_end) as [Hofs|Hofs]; cbn [andb].
  2, 4: exists m; split; [done|]; split; [lia|]; split; [done|]; right;
    intros q i l Hq; apply (Hcov q i l); lia.
  1: lia.
  destruct (free_probe (window ofs)) as (q & Hq & Hfree).
  destruct (probe_loop_spec (length (pattern_hash_index_ g)) (window ofs) 0 m)
    as (m' & Hp & Hle & Hm' & Hcov'); [apply RollingHash.hash_of_word64|done| |lia|].
  { exists q. split; [lia|done]. }
  change (Z.of_nat 0) with 0 in Hp. rewrite Hp. cbn [mbind option_bind].
  assert (Hcov1 : covered m' (Z.of_nat (S ofs))).
  { intros q' i l Hq' Hl Hne Hh HM. destruct (decide (q' = ofs)) as [->|].
    - by eapply Hcov'.
    - specialize (Hcov q' i l ltac:(lia) Hl Hne Hh HM). lia. }
  replace (Z.of_nat ofs + 1) with (Z.of_nat (S ofs)) by lia. rewrite Nat2Z.id.
  destruct (Z.leb_spec (Z.of_nat (S ofs)) rolling_end) as [Hnext|Hlast].
  - pose proof (NextRollingHash_window str (S ofs) L ltac:(lia) ltac:(lia)) as HN.
    cbn [Nat.sub] in HN. rewrite Nat.sub_0_r in HN. fold (window ofs) in HN. rewrite HN.
    cbn [mbind option_bind].
    destruct (IH (S ofs) m' Hm' Hcov1) as (m'' & Hroll & ? & ?); [lia|].
    exists m''. split; [done|]. split; [lia|done].
  - cbn [mbind option_bind].
    exists m'. split; [|split; [lia|]; split; [done|]].
    + destruct fuel; cbn [roll_loop];
        rewrite (proj2 (Z.leb_gt (Z.of_nat (S ofs)) rolling_end)), andb_false_r by lia; done.
    + right. intros q' i l Hq'. apply (Hcov1 q' i l). lia.
Qed.

(** The window of a matching rule's literal is a window of the string. *)
Lemma matching_window i l :
  literals !! i = Some l -> l <> [] -> rule_matches i ->
  exists q, Z.of_nat q <= Z.of_nat (length str) - rolling_hash_length_ g /\
    rolling_hashes_ g !! i = Some (window q).
Proof.
  intros Hl Hne (r & Hr & HG). destruct (co_inv _ HC) as (c & a & HI).
  destruct (ci_entries _ _ _ _ _ HI i l) as (h & Hh & (st & Hst & ->) & _); [lia|done..|].
  cbn [cs_hashes] in Hh.
  destruct (Forall2_lookup_r _ _ _ _ _ Hocc Hr) as (w & Hw & Hin).
  destruct (Hin str HG) as (x & y & Hstr).
  rewrite list_lookup_fmap, Hw in Hl. change (Some (LongestLiteralStringInWildcard w) = Some l) in Hl. injection Hl as <-.
  pose proof (co_L _ HC). rewrite Hh.
  exists (length x + st)%nat. split; [rewrite Hstr, !length_app; lia|].
  f_equal. unfold window. f_equal. rewrite Hstr, drop_app_add, drop_app_le by lia.
  by rewrite take_app_le by (rewrite length_drop; lia).
Qed.

(** The final [max_effective_index] decides. *)
Lemma reached_decision m allow :
  reached m -> (forall i, rule_matches i -> Z.of_nat i <= m) ->
  exists b, (if m =? kNoEntry then Some allow else vget (allow_ g) m) = Some b /\
    WildcardGroup.rules_decision rules str allow b.
Proof.
  intros [->|(i & HMi & Hr & Hrun)] Hmax.
  - exists allow. split; [done|]. constructor. intros r Hr HG.
    apply list_elem_of_lookup_1 in Hr as [i Hi].
    specialize (Hmax i ltac:(by exists r)). unfold kNoEntry in Hmax. lia.
  - replace (m =? kNoEntry) with false by (unfold kNoEntry; lia).
    destruct (WildcardGroup.represents_length _ _ _ HR) as [Hlw Hla].
    rewrite <- (Z2Nat.id m), vget_of_nat by lia. rewrite (Hrun (Z.to_nat m)) by lia.
    destruct (WildcardGroup.Match_from_decision _ _ _ str allow (length rules) HR)
      as (b & _ & Hd); [done|]. rewrite firstn_all in Hd.
    exists b. split; [|done]. destruct HMi as (r & Hri & HG).
    destruct Hd as [Hno|k rk Hk HGk Hlast].
    + exfalso. eapply Hno; [by eapply list_elem_of_lookup_2|done].
    + assert (Hik : (i <= k)%nat).
      { destruct (decide (k < i)%nat); [|lia]. by exfalso; eapply Hlast. }
      specialize (Hmax k ltac:(by exists rk)). rewrite <- (Hrun k) by lia.
      by destruct (WildcardGroup.represents_lookup _ _ _ _ _ HR Hk) as (_ & _ & ? & _).
Qed.

Lemma Match_with_compiled allow :
  exists b, Match_with g (rolling_hash_length_ g) str allow = Some b /\
    WildcardGroup.rules_decision rules str allow b.
Proof.
  destruct (co_inv _ HC) as (c & a & HI). pose proof (co_L _ HC) as HL.
  destruct (WildcardGroup.represents_length _ _ _ HR) as [Hlw _].
  unfold Match_with. replace (rolling_hash_length_ g =? kDontHash) with false
    by (unfold kDontHash; lia).
  destruct (match_only_spec (wildcard_only_indices_ g)) as (m & Hm & Hrm & Honly).
  { apply HI. }
  { pose proof (ci_only_range _ _ _ _ _ HI) as Hor. rewrite length_map in Hor. exact Hor. }
  rewrite Hm. cbn [mbind option_bind].
  assert (Htriv : forall i, literals !! i = Some [] -> rule_matches i -> Z.of_nat i <= m).
  { intros i Hi. apply Honly. apply (ci_only _ _ _ _ _ HI). split; [lia|done]. }
  assert (Hend : forall m', reached m' -> m <= m' ->
            Z.of_nat n - 1 <= m' \/ covered m' (Z.of_nat (length str) - rolling_hash_length_ g + 1) ->
            forall i, rule_matches i -> Z.of_nat i <= m').
  { intros m' _ Hmm Hcase i HMi. pose proof HMi as (r & Hri & _).
    apply lookup_lt_Some in Hri as Hlt. destruct Hcase as [|Hcov]; [lia|].
    destruct (lookup_lt_is_Some_2 literals i) as [l Hl]; [rewrite length_map; lia|].
    destruct (decide (l = [])) as [->|Hne]; [specialize (Htriv i Hl HMi); lia|].
    destruct (matching_window i l Hl Hne HMi) as (q & Hq & Hw).
    apply (Hcov q i l); (done || lia). }
  destruct (Z.ltb_spec m (Z.of_nat n - 1)) as [Hexit|Hexit]; cbn [andb];
    [destruct (Z.leb_spec 0 (Z.of_nat (length str) - rolling_hash_length_ g)) as [H0|H0]|].
  - rewrite RollingHash.RollingHash_hash_of by lia. cbn [mbind option_bind].
    destruct (roll_loop_spec (length str + 1) (Z.of_nat n - 1) _ 0 m eq_refl Hrm)
      as (m' & Hroll & Hmm & Hrm' & Hcase); [intros ?; lia|lia|].
    change (Z.of_nat 0) with 0 in Hroll. unfold window in Hroll. rewrite Hroll.
    cbn [mbind option_bind].
    apply reached_decision; [done|]. by apply Hend.
  - cbn [mbind option_bind]. apply reached_decision; [done|]. apply Hend; [done|lia|].
    right. intros q i l Hq. lia.
  - cbn [mbind option_bind]. apply reached_decision; [done|]. apply Hend; [done|lia|]. by left.
Qed.
End matching.

Lemma Match_with_dont_hash g rules str allow :
  WildcardGroup.represents (wildcards_ g) (allow_ g) rules ->
  exists b, Match_with g kDontHash str allow = Some b /\
    WildcardGroup.rules_decision rules str allow b.
Proof.
  intros HR. destruct (WildcardGroup.represents_length _ _ _ HR) as [Hw _].
  unfold Match_with. cbn [Z.eqb kDontHash]. rewrite Hw.
  destruct (WildcardGroup.Match_from_decision _ _ _ str allow (length rules) HR)
    as (b & -> & Hd); [done|].
  rewrite firstn_all in Hd. eauto.
Qed.

(** ** The class invariant *)

Record valid (g : FastWildcardGroup) (rules : list (bytes * bool)) : Prop := {
  va_rules : WildcardGroup.represents (wildcards_ g) (allow_ g) rules;
  va_literals : literals_occur (wildcards_ g) rules;
  va_mode :
    (rolling_hash_length_ g = kUncompiled /\ uncompiled_data g) \/
    (rolling_hash_length_ g = kDontHash /\ uncompiled_data g) \/
    compiled g
}.

Lemma valid_new_group : valid new_group [].
Proof. split; [apply WildcardGroup.represents_nil|constructor|]. left. done. Qed.

Lemma Uncompile_spec g rules :
  valid g rules ->
  wildcards_ (Uncompile g) = wildcards_ g /\ allow_ (Uncompile g) = allow_ g /\
  rolling_hash_length_ (Uncompile g) = kUncompiled /\ uncompiled_data (Uncompile g).
Proof.
  intros [_ _ Hmode]. unfold Uncompile.
  destruct (Z.eqb_spec (rolling_hash_length_ g) kUncompiled) as [E|E]; [|done].
  repeat split_and; try done.
  destruct Hmode as [[_ ?]|[[E' _]|HC]]; [done|by rewrite E in E'|].
  pose proof (co_L _ HC). unfold kUncompiled in E. lia.
Qed.

Lemma literal_of_spec expr s :
  Wildcard.glob expr s ->
  exists a b, s = a ++ LongestLiteralStringInWildcard (Wildcard.InitFromSpec expr) ++ b.
Proof. intros HG. apply longest_literal_occurs. by apply Wildcard.spec_InitFromSpec. Qed.

(** Appending rules to an uncompiled group. *)
Lemma valid_extend g rules ws' allow' rules' :
  valid g rules -> WildcardGroup.represents ws' allow' rules' -> literals_occur ws' rules' ->
  let g' := Uncompile g in
  valid (mkGroup (wildcards_ g' ++ ws') (allow_ g' ++ allow') (rolling_hashes_ g')
           (effective_indices_ g') (wildcard_only_indices_ g') (pattern_hash_index_ g')
           (rolling_hash_length_ g')) (rules ++ rules').
Proof.
  intros HV HR HL. destruct (Uncompile_spec g rules HV) as (Hw & Ha & Hr & Hd). cbn zeta.
  split; cbn; rewrite ?Hw, ?Ha.
  - apply WildcardGroup.represents_app; [apply HV|done].
  - apply Forall2_app; [apply HV|done].
  - left. done.
Qed.

Lemma valid_Allow g rules expr : valid g rules -> valid (Allow expr g) (rules ++ [(expr, true)]).
Proof.
  intros HV. apply valid_extend; [done|..].
  - apply (WildcardGroup.represents_snoc [] [] []), WildcardGroup.represents_nil.
  - repeat constructor. intros s. apply literal_of_spec.
Qed.

Lemma valid_Disallow g rules expr :
  valid g rules -> valid (Disallow expr g) (rules ++ [(expr, false)]).
Proof.
  intros HV. apply valid_extend; [done|..].
  - apply (WildcardGroup.represents_snoc [] [] []), WildcardGroup.represents_nil.
  - repeat constructor. intros s. apply literal_of_spec.
Qed.

Lemma map_Duplicate ws : map Wildcard.Duplicate ws = ws.
Proof. induction ws as [|w ws IH]; cbn; [done|]. by rewrite IH, WildcardGroup.Duplicate_id. Qed.

Lemma valid_AppendFrom src g rs rules :
  valid src rs -> valid g rules ->
  exists g', AppendFrom src g = Some g' /\ valid g' (rules ++ rs).
Proof.
  intros HS HG. unfold AppendFrom.
  destruct (WildcardGroup.represents_length _ _ _ (va_rules _ _ HS)) as [-> ->].
  rewrite Nat.eqb_refl, map_Duplicate. eexists. split; [done|].
  apply valid_extend; [done|apply HS|apply HS].
Qed.

Lemma valid_Clear g rules : valid g rules -> valid (Clear g) [].
Proof.
  intros HV. destruct (Uncompile_spec g rules HV) as (_ & _ & Hr & Hd).
  split; [apply WildcardGroup.represents_nil|constructor|by left].
Qed.

Lemma valid_CopyFrom src g rs rules :
  valid src rs -> valid g rules -> exists g', CopyFrom src g = Some g' /\ valid g' rs.
Proof. intros HS HG. apply (valid_AppendFrom src _ rs []); [done|]. by eapply valid_Clear. Qed.

Lemma Compile_valid g rules :
  valid g rules -> rolling_hash_length_ g = kUncompiled -> Z.of_nat (length rules) < 2 ^ 29 ->
  exists g', Compile (set_rolling_hash_length kDontHash g) = Some g' /\ valid g' rules /\
    rolling_hash_length_ g' <> kUncompiled.
Proof.
  intros [HR HL Hmode] Hu Hn. destruct (WildcardGroup.represents_length _ _ _ HR) as [Hw Ha].
  assert (Hd : uncompiled_data g).
  { destruct Hmode as [[_ ?]|[[_ ?]|HC]]; [done..|].
    pose proof (co_L _ HC). unfold kUncompiled in Hu. lia. }
  assert (HV : valid (set_rolling_hash_length kDontHash g) rules) by (split; [done..|by right; left]).
  unfold Compile. cbn [set_rolling_hash_length wildcards_ allow_ rolling_hashes_
    effective_indices_ wildcard_only_indices_ pattern_hash_index_ rolling_hash_length_].
  pose proof Hd as (E1 & E2 & E3 & E4). rewrite E1, E2, E3, E4, Hw, Ha.
  rewrite !bool_decide_true by done. cbn [andb].
  destruct (Z.leb_spec kMinPatterns (Z.of_nat (length rules))); cbn [mbind option_bind].
  2:{ rewrite sensible_uncompiled by done. by eauto. }
  destruct (CompileNonTrivial_spec (set_rolling_hash_length kDontHash g))
    as (g' & Hg' & Hw' & Ha' & Hcase & Hsens); [by cbn; rewrite Hw, Ha|done|done|by cbn; rewrite Hw|].
  exists g'. rewrite Hg'. cbn [mbind option_bind]. rewrite Hsens. split; [done|]. destruct Hcase as [->|HC]; [by split|]. split.
  - split; [by rewrite Hw', Ha'|by rewrite Hw'|]. by right; right.
  - pose proof (co_L _ HC). unfold kUncompiled. lia.
Qed.

Lemma Match_valid g rules str allow :
  valid g rules -> Z.of_nat (length rules) < 2 ^ 29 ->
  exists b g', Match g str allow = Some (b, g') /\
    WildcardGroup.rules_decision rules str allow b /\ valid g' rules.
Proof.
  intros HV Hn. unfold Match.
  assert (exists g', (if rolling_hash_length_ g =? kUncompiled
                      then Compile (set_rolling_hash_length kDontHash g) else Some g) = Some g' /\
            valid g' rules /\ rolling_hash_length_ g' <> kUncompiled) as (g' & -> & HV' & Hnu).
  { destruct (Z.eqb_spec (rolling_hash_length_ g) kUncompiled); [by apply Compile_valid|eauto]. }
  cbn [mbind option_bind].
  assert (exists b, Match_with g' (rolling_hash_length_ g') str allow = Some b /\
            WildcardGroup.rules_decision rules str allow b) as (b & -> & Hd); [|eauto 10].
  destruct HV' as [HR HL [[? _]|[[Hk _]|HC]]]; [done| |by apply Match_with_compiled].
  rewrite Hk. by apply Match_with_dont_hash.
Qed.

(** ** Correctness *)

(** C4: from any reachable state, [Match] ends without an index out of range,
    a failed check or an endless probe, returns the verdict of the last
    matching rule, and leaves the group in a valid state for the same rules. *)
Theorem FastWildcardGroup_Match_correct g rules str allow :
  valid g rules -> Z.of_nat (length rules) < 2 ^ 29 ->
  exists b g', Match g str allow = Some (b, g') /\
    WildcardGroup.rules_decision rules str allow b /\ valid g' rules.
Proof. apply Match_valid. Qed.

(** while another thread compiles, [rolling_hash_length_] reads as
    [kDontHash] and the vectors hold partial data; a concurrent [Match] does
    not look at them and still returns the verdict of the last matching rule. *)
Lemma Match_during_compilation g rules hashes effective only table str allow :
  valid g rules ->
  exists b,
    Match_with (mkGroup (wildcards_ g) (allow_ g) hashes effective only table kDontHash)
      kDontHash str allow = Some b /\
    WildcardGroup.rules_decision rules str allow b.
Proof. intros HV. apply Match_with_dont_hash. apply HV. Qed.

(** *** Refinement of the linear scan *)

(** A client's calls. *)
Inductive call : Type :=
| CallAllow (expr : bytes)
| CallDisallow (expr : bytes)
| CallMatch (str : bytes) (allow : bool).

(** The verdicts a client sees, over each class. *)
Fixpoint run_fast (calls : list call) (g : FastWildcardGroup) : option (list bool) :=
  match calls with
  | [] => Some []
  | CallAllow expr :: rest => run_fast rest (Allow expr g)
  | CallDisallow expr :: rest => run_fast rest (Disallow expr g)
  | CallMatch str allow :: rest =>
      '(b, g) ← Match g str allow; bs ← run_fast rest g; Some (b :: bs)
  end.

Fixpoint run_linear (calls : list call) (g : WildcardGroup.WildcardGroup) : option (list bool) :=
  match calls with
  | [] => Some []
  | CallAllow expr :: rest => run_linear rest (WildcardGroup.Allow expr g)
  | CallDisallow expr :: rest => run_linear rest (WildcardGroup.Disallow expr g)
  | CallMatch str allow :: rest =>
      b ← WildcardGroup.Match g str allow; bs ← run_linear rest g; Some (b :: bs)
  end.

Lemma run_fast_linear calls g lg rules :
  valid g rules -> WildcardGroup.group_rules lg rules ->
  Z.of_nat (length rules + length calls) < 2 ^ 29 ->
  run_fast calls g = run_linear calls lg /\ is_Some (run_fast calls g).
Proof.
  revert g lg rules. induction calls as [|[expr|expr|str allow] calls IH];
    intros g lg rules HV HL Hn; cbn [run_fast run_linear length] in *; [by eauto|..].
  - apply (IH _ _ (rules ++ [(expr, true)])); [by apply valid_Allow| |].
    + by apply WildcardGroup.represents_snoc.
    + rewrite length_app. cbn [length]. lia.
  - apply (IH _ _ (rules ++ [(expr, false)])); [by apply valid_Disallow| |].
    + by apply WildcardGroup.represents_snoc.
    + rewrite length_app. cbn [length]. lia.
  - destruct (Match_valid g rules str allow HV) as (b & g' & -> & Hd & HV'); [lia|].
    destruct (WildcardGroup.Match_group_rules lg rules str allow HL) as (b' & -> & Hd').
    rewrite (WildcardGroup.rules_decision_unique _ _ _ _ _ Hd' Hd). cbn [mbind option_bind].
    destruct (IH g' lg rules HV' HL) as [E [bs Hbs]]; [lia|].
    rewrite <- E, Hbs. cbn [mbind option_bind]. by eauto.
Qed.

(** C5: for any sequence of [Allow], [Disallow] and [Match] calls on a new
    object, the compiled group gives exactly the verdicts of the linear scan,
    and none of the calls fails. *)
Theorem FastWildcardGroup_refines_WildcardGroup calls :
  Z.of_nat (length calls) < 2 ^ 29 ->
  run_fast calls new_group = run_linear calls WildcardGroup.empty_group /\
  is_Some (run_fast calls new_group).
Proof.
  intros Hn. apply (run_fast_linear calls new_group _ []).
  - apply valid_new_group.
  - apply WildcardGroup.represents_nil.
  - done.
Qed.

(** *** Witnesses *)

Lemma valid_build g rules0 rules :
  valid g rules0 ->
  valid (fold_left (fun g r => if (r.2 : bool) then Allow r.1 g else Disallow r.1 g) rules g)
    (rules0 ++ rules).
Proof.
  revert g rules0. induction rules as [|[expr b] rules IH]; intros g rules0 HV; cbn [fold_left].
  - by rewrite app_nil_r.
  - rewrite (cons_middle (expr, b)), app_assoc. apply IH.
    destruct b; [by apply valid_Allow|by apply valid_Disallow].
Qed.

Example FastWildcardGroup_Match_correct_witness :
  valid example_group example_specs /\ Z.of_nat (length example_specs) < 2 ^ 29 /\
  exists b g', Match example_group (lit "ab.h") false = Some (b, g') /\
    WildcardGroup.rules_decision example_specs (lit "ab.h") false b /\ valid g' example_specs.
Proof.
  assert (HV : valid example_group example_specs)
    by exact (valid_build new_group [] example_specs valid_new_group).
  assert (Hn : Z.of_nat (length example_specs) < 2 ^ 29) by (vm_compute; reflexivity).
  split; [exact HV|]. split; [exact Hn|].
  exact (FastWildcardGroup_Match_correct example_group example_specs (lit "ab.h") false HV Hn).
Defined.

Definition example_calls : list call :=
  map (fun r : bytes * bool => if (r.2 : bool) then CallAllow r.1 else CallDisallow r.1) example_specs
  ++ [CallMatch (lit "ab.h") false; CallDisallow (lit "ab*"); CallMatch (lit "ab.h") true].

Example FastWildcardGroup_refines_WildcardGroup_witness :
  Z.of_nat (length example_calls) < 2 ^ 29 /\
  run_fast example_calls new_group = run_linear example_calls WildcardGroup.empty_group /\
  is_Some (run_fast example_calls new_group).
Proof.
  assert (Hn : Z.of_nat (length example_calls) < 2 ^ 29) by (vm_compute; reflexivity).
  split; [exact Hn|]. exact (FastWildcardGroup_refines_WildcardGroup example_calls Hn).
Defined.
