(* ===== verification/LruCache.v ===== *)
(** * LRUCacheBase and LRUCache

    The size-bounded least-recently-used cache of
    src/pagespeed/kernel/cache/lru_cache_base.h (a template over the value
    type and its helper) and its instance LRUCache of lru_cache.{h,cc}.

    A [std::list] node is an entry of [lru_ordered_list_] tagged with the
    identity of the node, a list iterator is that identity, and [map_] sends a
    key to an iterator: dereferencing an iterator whose node was erased, or
    calling [back()] on an empty list, is [None], as is a failed [CHECK]. *)

From S2P Require Import Prelude.

(** The template parameter [ValueHelper], with the state [H] its
    [EvictNotify] may update. *)
Class ValueHelper (V H : Type) := {
  value_size : V -> Z;
  Equal : V -> V -> bool;
  EvictNotify : V -> H -> H;
  ShouldReplace : V -> V -> bool;
  value_size_nonneg : forall v, 0 <= value_size v
}.

Record Stats := mkStats {
  num_evictions_ : Z;
  num_hits_ : Z;
  num_misses_ : Z;
  num_inserts_ : Z;
  num_identical_reinserts_ : Z;
  num_deletes_ : Z
}.

Definition no_stats : Stats := mkStats 0 0 0 0 0 0.

Definition evictions_up (s : Stats) : Stats :=
  mkStats (u64 (num_evictions_ s + 1)) (num_hits_ s) (num_misses_ s) (num_inserts_ s)
    (num_identical_reinserts_ s) (num_deletes_ s).
Definition hits_up (s : Stats) : Stats :=
  mkStats (num_evictions_ s) (u64 (num_hits_ s + 1)) (num_misses_ s) (num_inserts_ s)
    (num_identical_reinserts_ s) (num_deletes_ s).
Definition misses_up (s : Stats) : Stats :=
  mkStats (num_evictions_ s) (num_hits_ s) (u64 (num_misses_ s + 1)) (num_inserts_ s)
    (num_identical_reinserts_ s) (num_deletes_ s).
Definition inserts_up (s : Stats) : Stats :=
  mkStats (num_evictions_ s) (num_hits_ s) (num_misses_ s) (u64 (num_inserts_ s + 1))
    (num_identical_reinserts_ s) (num_deletes_ s).
Definition identical_reinserts_up (s : Stats) : Stats :=
  mkStats (num_evictions_ s) (num_hits_ s) (num_misses_ s) (num_inserts_ s)
    (u64 (num_identical_reinserts_ s + 1)) (num_deletes_ s).
Definition deletes_up (s : Stats) : Stats :=
  mkStats (num_evictions_ s) (num_hits_ s) (num_misses_ s) (num_inserts_ s)
    (num_identical_reinserts_ s) (u64 (num_deletes_ s + 1)).

Section lru.
Context {V H : Type} {VH : ValueHelper V H}.

Abbreviation KeyValuePair := (bytes * V)%type.
Abbreviation ListNode := nat.

Record LRUCacheBase := mkLRU {
  max_bytes_in_cache_ : Z;
  current_bytes_in_cache_ : Z;
  stats : Stats;
  lru_ordered_list_ : list (ListNode * KeyValuePair);
  map_ : gmap bytes ListNode;
  value_helper_ : H;
  (* the allocator of list nodes: identities not used so far start here *)
  next_node : ListNode
}.

Definition new_cache (max_size : Z) (h : H) : LRUCacheBase :=
  mkLRU max_size 0 no_stats [] ∅ h 0.

Definition with_stats (f : Stats -> Stats) (c : LRUCacheBase) : LRUCacheBase :=
  mkLRU (max_bytes_in_cache_ c) (current_bytes_in_cache_ c) (f (stats c))
    (lru_ordered_list_ c) (map_ c) (value_helper_ c) (next_node c).
Definition with_list l (c : LRUCacheBase) : LRUCacheBase :=
  mkLRU (max_bytes_in_cache_ c) (current_bytes_in_cache_ c) (stats c)
    l (map_ c) (value_helper_ c) (next_node c).
Definition with_map m (c : LRUCacheBase) : LRUCacheBase :=
  mkLRU (max_bytes_in_cache_ c) (current_bytes_in_cache_ c) (stats c)
    (lru_ordered_list_ c) m (value_helper_ c) (next_node c).
Definition with_current z (c : LRUCacheBase) : LRUCacheBase :=
  mkLRU (max_bytes_in_cache_ c) z (stats c)
    (lru_ordered_list_ c) (map_ c) (value_helper_ c) (next_node c).
Definition with_helper h (c : LRUCacheBase) : LRUCacheBase :=
  mkLRU (max_bytes_in_cache_ c) (current_bytes_in_cache_ c) (stats c)
    (lru_ordered_list_ c) (map_ c) h (next_node c).

Definition set_max_bytes_in_cache (max_size : Z) (c : LRUCacheBase) : LRUCacheBase :=
  mkLRU max_size (current_bytes_in_cache_ c) (stats c)
    (lru_ordered_list_ c) (map_ c) (value_helper_ c) (next_node c).

(** ** List iterators *)

(** [*cell] *)
Definition deref (cell : ListNode) (c : LRUCacheBase) : option KeyValuePair :=
  (fun x => x.2.2) <$> list_find (fun n : ListNode * KeyValuePair => n.1 = cell) (lru_ordered_list_ c).

(** [lru_ordered_list_.erase(cell)] *)
Definition erase (cell : ListNode) (c : LRUCacheBase) : LRUCacheBase :=
  with_list (filter (fun n : ListNode * KeyValuePair => n.1 <> cell) (lru_ordered_list_ c)) c.

(** [lru_ordered_list_.push_front(kvp)]; the new [begin()] is returned. *)
Definition push_front (kvp : KeyValuePair) (c : LRUCacheBase) : ListNode * LRUCacheBase :=
  (next_node c,
   mkLRU (max_bytes_in_cache_ c) (current_bytes_in_cache_ c) (stats c)
     ((next_node c, kvp) :: lru_ordered_list_ c) (map_ c) (value_helper_ c)
     (S (next_node c))).

Definition begin (c : LRUCacheBase) : option ListNode := fst <$> head (lru_ordered_list_ c).

(** [EntrySize] *)
Definition EntrySize (kvp : KeyValuePair) : Z := u64 (Z.of_nat (length kvp.1) + value_size kvp.2).

(** [splice] moves the node itself, so iterators to it stay valid. *)
Definition Freshen (cell : ListNode) (c : LRUCacheBase) : option (ListNode * LRUCacheBase) :=
  b ← begin c;
  if decide (cell = b) then Some (b, c)
  else
    kv ← deref cell c;
    let c := with_list ((cell, kv) :: lru_ordered_list_ (erase cell c)) c in
    b ← begin c; Some (b, c).

(** [CHECK_GE(current_bytes_in_cache_, size); current_bytes_in_cache_ -= size] *)
Definition release (size : Z) (c : LRUCacheBase) : option LRUCacheBase :=
  if size <=? current_bytes_in_cache_ c
  then Some (with_current (u64 (current_bytes_in_cache_ c - size)) c)
  else None.

Definition DeleteAt (key : bytes) (cell : ListNode) (c : LRUCacheBase) : option LRUCacheBase :=
  key_value ← deref cell c;
  let c := erase cell c in
  c ← release (EntrySize key_value) c;
  let c := with_map (delete key (map_ c)) c in
  Some (with_stats deletes_up c).

(** The body of the eviction loop. *)
Definition evict_back (c : LRUCacheBase) : option LRUCacheBase :=
  '(_, key_value) ← last (lru_ordered_list_ c);
  let c := with_list (removelast (lru_ordered_list_ c)) c in
  c ← release (EntrySize key_value) c;
  let c := with_helper (EvictNotify key_value.2 (value_helper_ c)) c in
  let c := with_map (delete key_value.1 (map_ c)) c in
  Some (with_stats evictions_up c).

Fixpoint evict_loop (fuel : nat) (bytes_needed : Z) (c : LRUCacheBase) : option LRUCacheBase :=
  match fuel with
  | O => None
  | S fuel' =>
      if max_bytes_in_cache_ c <? u64 (bytes_needed + current_bytes_in_cache_ c)
      then c ← evict_back c; evict_loop fuel' bytes_needed c
      else Some c
  end.

(** Each iteration pops a node, so one more than the length is enough. *)
Definition EvictIfNecessary (bytes_needed : Z) (c : LRUCacheBase) : option (bool * LRUCacheBase) :=
  if bytes_needed <? max_bytes_in_cache_ c then
    c ← evict_loop (S (length (lru_ordered_list_ c))) bytes_needed c;
    Some (true, with_current (u64 (current_bytes_in_cache_ c + bytes_needed)) c)
  else Some (false, c).

(** ** Operations *)

Definition GetFreshen (key : bytes) (c : LRUCacheBase) : option (option V * LRUCacheBase) :=
  match map_ c !! key with
  | Some cell =>
      key_value ← deref cell c;
      '(cell', c) ← Freshen cell c;
      let c := with_map (<[key := cell']> (map_ c)) c in
      Some (Some key_value.2, with_stats hits_up c)
  | None => Some (None, with_stats misses_up c)
  end.

Definition GetNoFreshen (key : bytes) (c : LRUCacheBase) : option (option V * LRUCacheBase) :=
  match map_ c !! key with
  | Some cell =>
      key_value ← deref cell c;
      Some (Some key_value.2, with_stats hits_up c)
  | None => Some (None, with_stats misses_up c)
  end.

Definition Put (key : bytes) (new_value : V) (c : LRUCacheBase) : option LRUCacheBase :=
  let bytes_needed := u64 (Z.of_nat (length key) + value_size new_value) in
  match map_ c !! key with
  | Some cell =>
      key_value ← deref cell c;
      if negb (ShouldReplace key_value.2 new_value) then Some c
      else if Equal new_value key_value.2 then
        '(cell', c) ← Freshen cell c;
        let c := with_map (<[key := cell']> (map_ c)) c in
        Some (with_stats identical_reinserts_up c)
      else
        let c := with_stats deletes_up c in
        c ← release (EntrySize key_value) c;
        let c := erase cell c in
        '(fits, c) ← EvictIfNecessary bytes_needed c;
        if (fits : bool) then
          let '(b, c) := push_front (key, new_value) c in
          let c := with_map (<[key := b]> (map_ c)) c in
          Some (with_stats inserts_up c)
        else Some (with_map (delete key (map_ c)) c)
  | None =>
      '(fits, c) ← EvictIfNecessary bytes_needed c;
      if (fits : bool) then
        let '(b, c) := push_front (key, new_value) c in
        let c := with_map (<[key := b]> (map_ c)) c in
        Some (with_stats inserts_up c)
      else Some c
  end.

Definition Delete (key : bytes) (c : LRUCacheBase) : option LRUCacheBase :=
  match map_ c !! key with
  | Some cell => DeleteAt key cell c
  | None => Some c
  end.

(** The iteration order of the hash map is an argument: the keys of [map_]
    in some order. *)
Fixpoint DeleteWithPrefixForTesting (prefix : bytes) (order : list bytes) (c : LRUCacheBase)
  : option LRUCacheBase :=
  match order with
  | [] => Some c
  | key :: order' =>
      cell ← map_ c !! key;
      if StartsWith key prefix then
        c ← DeleteAt key cell c; DeleteWithPrefixForTesting prefix order' c
      else DeleteWithPrefixForTesting prefix order' c
  end.

Definition MergeStats (src c : LRUCacheBase) : LRUCacheBase :=
  let s := stats c in
  let t := stats src in
  with_stats (fun _ => mkStats (u64 (num_evictions_ s + num_evictions_ t))
    (u64 (num_hits_ s + num_hits_ t)) (u64 (num_misses_ s + num_misses_ t))
    (u64 (num_inserts_ s + num_inserts_ t))
    (u64 (num_identical_reinserts_ s + num_identical_reinserts_ t))
    (u64 (num_deletes_ s + num_deletes_ t)))
  (with_current (u64 (current_bytes_in_cache_ c + current_bytes_in_cache_ src)) c).

Definition Clear (c : LRUCacheBase) : LRUCacheBase :=
  with_map ∅ (with_list [] (with_current 0 c)).

Definition ClearStats (c : LRUCacheBase) : LRUCacheBase := with_stats (fun _ => no_stats) c.

Definition size_bytes (c : LRUCacheBase) : Z := current_bytes_in_cache_ c.
Definition num_elements (c : LRUCacheBase) : Z := Z.of_nat (size (map_ c)).

(** The entries from the oldest to the youngest, as [Begin] .. [End] visit
    them. *)
Definition oldest_to_youngest (c : LRUCacheBase) : list KeyValuePair :=
  reverse (lru_ordered_list_ c).*2.

(** [SanityCheck]: [false] is a failed [CHECK]. *)
Definition SanityCheck (c : LRUCacheBase) : bool :=
  bool_decide (size (map_ c) = length (lru_ordered_list_ c)) &&
  forallb (fun n : ListNode * KeyValuePair => bool_decide (map_ c !! n.2.1 = Some n.1)) (lru_ordered_list_ c) &&
  (current_bytes_in_cache_ c =?
     fold_left (fun used (n : ListNode * KeyValuePair) => u64 (used + EntrySize n.2)) (lru_ordered_list_ c) 0) &&
  (current_bytes_in_cache_ c <=? max_bytes_in_cache_ c).

End lru.
Arguments LRUCacheBase V H : clear implicits.

(** ** Specification

    What the cache promises, on the list of its entries from the most to the
    least recently used. *)

Section spec.
Context {V H : Type} {VH : ValueHelper V H}.

Definition entry_size (kv : bytes * V) : Z := Z.of_nat (length kv.1) + value_size kv.2.
Fixpoint total (l : list (bytes * V)) : Z :=
  match l with
  | [] => 0
  | kv :: l' => entry_size kv + total l'
  end.

Definition remove_key (key : bytes) (l : list (bytes * V)) : list (bytes * V) :=
  filter (fun kv => kv.1 <> key) l.
Definition find_key (key : bytes) (l : list (bytes * V)) : option V :=
  (fun x => x.2.2) <$> list_find (fun kv : bytes * V => kv.1 = key) l.

(** The longest prefix that fits the budget: what eviction keeps. *)
Fixpoint keep (budget : Z) (l : list (bytes * V)) : list (bytes * V) :=
  match l with
  | [] => []
  | kv :: l' => if entry_size kv <=? budget then kv :: keep (budget - entry_size kv) l' else []
  end.

(** The helper hears of the evicted entries, the oldest first. *)
Definition notify (evicted : list (bytes * V)) (h : H) : H :=
  foldr (fun kv h => EvictNotify kv.2 h) h evicted.

Record lru_state := mkSpec {
  spec_max : Z;
  spec_entries : list (bytes * V);
  spec_helper : H
}.

Definition spec_insert (key : bytes) (v : V) (l : list (bytes * V)) (s : lru_state) : lru_state :=
  let need := entry_size (key, v) in
  if need <? spec_max s then
    let kept := keep (spec_max s - need) l in
    mkSpec (spec_max s) ((key, v) :: kept) (notify (drop (length kept) l) (spec_helper s))
  else mkSpec (spec_max s) l (spec_helper s).

Definition spec_put (key : bytes) (v : V) (s : lru_state) : lru_state :=
  match find_key key (spec_entries s) with
  | Some old =>
      if negb (ShouldReplace old v) then s
      else if Equal v old then
        mkSpec (spec_max s) ((key, old) :: remove_key key (spec_entries s)) (spec_helper s)
      else spec_insert key v (remove_key key (spec_entries s)) s
  | None => spec_insert key v (spec_entries s) s
  end.

Definition spec_get (key : bytes) (s : lru_state) : option V * lru_state :=
  match find_key key (spec_entries s) with
  | Some v => (Some v, mkSpec (spec_max s) ((key, v) :: remove_key key (spec_entries s)) (spec_helper s))
  | None => (None, s)
  end.

Definition spec_delete (key : bytes) (s : lru_state) : lru_state :=
  mkSpec (spec_max s) (remove_key key (spec_entries s)) (spec_helper s).

Definition spec_delete_prefix (prefix : bytes) (s : lru_state) : lru_state :=
  mkSpec (spec_max s) (filter (fun kv => StartsWith kv.1 prefix = false) (spec_entries s))
    (spec_helper s).

(** ** The invariant *)

Definition entries (c : LRUCacheBase V H) : list (bytes * V) := (lru_ordered_list_ c).*2.
Definition abs (c : LRUCacheBase V H) : lru_state :=
  mkSpec (max_bytes_in_cache_ c) (entries c) (value_helper_ c).

(** While [Put] replaces a value the map still holds the key whose node is
    gone: the [hole]. *)
Record wf_but (hole : option bytes) (c : LRUCacheBase V H) : Prop := {
  wf_ids : NoDup (lru_ordered_list_ c).*1;
  wf_keys : NoDup (entries c).*1;
  wf_map : forall k id, hole <> Some k ->
    map_ c !! k = Some id <-> exists v, (id, (k, v)) ∈ lru_ordered_list_ c;
  wf_hole : forall k, hole = Some k -> k ∉ (entries c).*1;
  wf_fresh : forall n, n ∈ lru_ordered_list_ c -> (n.1 < next_node c)%nat;
  wf_current : current_bytes_in_cache_ c = total (entries c);
  wf_total : total (entries c) <= 2 ^ 63;
  wf_max : 0 <= max_bytes_in_cache_ c <= 2 ^ 63
}.
Abbreviation wf := (wf_but None).

Lemma entry_size_nonneg kv : 0 <= entry_size kv.
Proof. unfold entry_size. pose proof (value_size_nonneg kv.2). lia. Qed.

Lemma total_cons kv l : total (kv :: l) = entry_size kv + total l.
Proof. done. Qed.

Lemma total_app l1 l2 : total (l1 ++ l2) = total l1 + total l2.
Proof. induction l1 as [|kv l1 IH]; cbn; [done|]. rewrite IH. lia. Qed.

Lemma total_nonneg l : 0 <= total l.
Proof.
  induction l as [|kv l IH]; cbn; [done|]. pose proof (entry_size_nonneg kv). lia.
Qed.

Lemma EntrySize_total kv l : kv ∈ l -> total l <= 2 ^ 63 -> EntrySize kv = entry_size kv.
Proof.
  intros (l1 & l2 & ->)%list_elem_of_split Ht. rewrite total_app, total_cons in Ht.
  pose proof (total_nonneg l1). pose proof (total_nonneg l2). pose proof (entry_size_nonneg kv).
  unfold EntrySize, u64. apply Z.mod_small. unfold entry_size in *. lia.
Qed.

Lemma NoDup_fst_unique {A B} (l : list (A * B)) a b b' :
  NoDup l.*1 -> (a, b) ∈ l -> (a, b') ∈ l -> b = b'.
Proof.
  induction l as [|[x y] l IH]; cbn; [by intros _ ?%elem_of_nil|].
  rewrite NoDup_cons, !elem_of_cons. intros [Hx Hl] [[= -> ->]|H1] [[= ->]|H2]; auto.
  - destruct Hx. by apply (list_elem_of_fmap_2 fst) in H2.
  - subst. destruct Hx. by apply (list_elem_of_fmap_2 fst) in H1.
Qed.

Lemma list_find_fst {A B} `{EqDecision A} (l : list (A * B)) a b :
  NoDup l.*1 -> (a, b) ∈ l ->
  (fun x => x.2.2) <$> list_find (fun n : A * B => n.1 = a) l = Some b.
Proof.
  intros Hnd Hin. destruct (list_find _ l) as [[i [a' b']]|] eqn:E; cbn.
  - apply list_find_Some in E as (Hi & Ha & _). cbn in Ha. subst. f_equal.
    eapply (NoDup_fst_unique l a); [done| |done]. by eapply list_elem_of_lookup_2.
  - apply list_find_None in E. rewrite Forall_forall in E. by destruct (E _ Hin).
Qed.

Lemma find_key_Some k v l : NoDup l.*1 -> find_key k l = Some v <-> (k, v) ∈ l.
Proof.
  intros Hnd. split; [|by apply list_find_fst].
  intros ([i [k' v']] & (Hi & Hk & _)%list_find_Some & ->)%fmap_Some. cbn in *. subst.
  by eapply list_elem_of_lookup_2.
Qed.

Lemma find_key_None k l : find_key k l = None <-> k ∉ l.*1.
Proof.
  unfold find_key. rewrite fmap_None, list_find_None, Forall_forall. split.
  - intros Hn ([k' v] & -> & Hin)%list_elem_of_fmap. by apply (Hn _ Hin).
  - intros Hn [k' v] Hin Hk. cbn in Hk. subst. apply Hn. by apply (list_elem_of_fmap_2 fst) in Hin.
Qed.

#[global] Arguments remove_key : simpl never.

Lemma remove_key_cons k kv l :
  remove_key k (kv :: l) = if decide (kv.1 <> k) then kv :: remove_key k l else remove_key k l.
Proof. unfold remove_key. by rewrite filter_cons. Qed.

Lemma remove_key_notin k l : k ∉ l.*1 -> remove_key k l = l.
Proof.
  induction l as [|[k' v] l IH]; cbn; [done|]. rewrite not_elem_of_cons. intros [Hk Hl].
  rewrite remove_key_cons, decide_True by (cbn; congruence). f_equal. by apply IH.
Qed.

Lemma remove_key_keys k l : k ∉ (remove_key k l).*1.
Proof.
  intros ([k' v] & -> & Hin)%list_elem_of_fmap. apply list_elem_of_filter in Hin. by destruct Hin.
Qed.

Lemma elem_of_remove_key k kv l : kv ∈ remove_key k l <-> kv.1 <> k /\ kv ∈ l.
Proof. unfold remove_key. by rewrite list_elem_of_filter. Qed.

Lemma total_remove_key k v l :
  NoDup l.*1 -> (k, v) ∈ l -> total (remove_key k l) = total l - entry_size (k, v).
Proof.
  induction l as [|[k' v'] l IH]; cbn; [by intros _ ?%elem_of_nil|].
  rewrite NoDup_cons, elem_of_cons, remove_key_cons. cbn. intros [Hk Hl] [[= -> ->]|Hin].
  - rewrite decide_False by naive_solver. rewrite remove_key_notin by done. lia.
  - rewrite decide_True.
    + rewrite total_cons, IH by done. lia.
    + intros ->. apply Hk. by apply (list_elem_of_fmap_2 fst) in Hin.
Qed.

(** [keep] is the longest prefix within the budget. *)
Lemma keep_all B l : total l <= B -> keep B l = l.
Proof.
  revert B. induction l as [|kv l IH]; intros B; cbn; [done|]. intros Ht.
  pose proof (total_nonneg l). destruct (Z.leb_spec (entry_size kv) B); [|lia].
  f_equal. apply IH. lia.
Qed.

Lemma keep_snoc B l kv : 0 <= B -> B < total (l ++ [kv]) -> keep B (l ++ [kv]) = keep B l.
Proof.
  revert B. induction l as [|x l IH]; intros B HB; cbn.
  - destruct (Z.leb_spec (entry_size kv) B); [lia|done].
  - intros Ht. destruct (Z.leb_spec (entry_size x) B); [|done]. f_equal. apply IH; lia.
Qed.

Lemma keep_prefix B l : keep B l `prefix_of` l.
Proof.
  revert B. induction l as [|kv l IH]; intros B; cbn; [done|].
  destruct (_ <=? _); [by apply prefix_cons|apply prefix_nil].
Qed.

Lemma keep_take B l : keep B l = take (length (keep B l)) l.
Proof. destruct (keep_prefix B l) as [r Hr]. rewrite Hr at 3. by rewrite take_app_length. Qed.

Lemma keep_total B l : 0 <= B -> total (keep B l) <= B.
Proof.
  revert B. induction l as [|kv l IH]; intros B HB; cbn; [done|].
  destruct (Z.leb_spec (entry_size kv) B); cbn; [|done]. specialize (IH (B - entry_size kv)). lia.
Qed.

Lemma keep_maximal B l kv r : 0 <= B -> l = keep B l ++ kv :: r -> B < total (keep B l ++ [kv]).
Proof.
  revert B. induction l as [|x l IH]; intros B HB; cbn; [done|].
  destruct (Z.leb_spec (entry_size x) B); cbn.
  - intros [= Hl]. specialize (IH (B - entry_size x) ltac:(lia) Hl). lia.
  - intros [= <- <-]. lia.
Qed.

(** ** The operations preserve the invariant and follow the specification *)

Lemma elem_of_entries c kv : kv ∈ entries c <-> exists id, (id, kv) ∈ lru_ordered_list_ c.
Proof.
  unfold entries. split.
  - intros ([id kv'] & -> & Hin)%list_elem_of_fmap. by exists id.
  - intros [id Hin]. by apply (list_elem_of_fmap_2 snd) in Hin.
Qed.

Lemma elem_of_keys c k : k ∈ (entries c).*1 <-> exists id v, (id, (k, v)) ∈ lru_ordered_list_ c.
Proof.
  split.
  - intros ([k' v] & -> & [id Hin]%elem_of_entries)%list_elem_of_fmap. eauto.
  - intros (id & v & Hin). apply (list_elem_of_fmap_2 fst _ (k, v)), elem_of_entries. eauto.
Qed.

Lemma deref_wf h c id kv : wf_but h c -> (id, kv) ∈ lru_ordered_list_ c -> deref id c = Some kv.
Proof. intros Hc. apply list_find_fst, Hc. Qed.

(** What a lookup in the map finds. *)
Lemma map_hit c k id :
  wf c -> map_ c !! k = Some id ->
  exists v, (id, (k, v)) ∈ lru_ordered_list_ c /\ deref id c = Some (k, v) /\
    find_key k (entries c) = Some v.
Proof.
  intros Hc [v Hv]%(wf_map _ _ Hc); [|done]. exists v. split; [done|].
  split; [by eapply deref_wf|]. apply find_key_Some; [apply Hc|]. apply elem_of_entries. eauto.
Qed.

Lemma map_miss c k : wf c -> map_ c !! k = None -> k ∉ (entries c).*1.
Proof.
  intros Hc Hk (id & v & Hin)%elem_of_keys.
  assert (map_ c !! k = Some id) by (apply (wf_map _ _ Hc); eauto). congruence.
Qed.

(** A node is the only one with its identity and the only one with its key. *)
Lemma node_unique h c id k v n :
  wf_but h c -> (id, (k, v)) ∈ lru_ordered_list_ c -> n ∈ lru_ordered_list_ c ->
  n.1 = id <-> n.2.1 = k.
Proof.
  intros Hc Hin Hn. destruct n as [id' [k' v']]. cbn. split; intros ->.
  - by assert ((k', v') = (k, v)) as [= -> ->] by (eapply NoDup_fst_unique; [apply Hc|done|done]).
  - pose proof (wf_keys _ _ Hc) as Hk. unfold entries in Hk.
    apply list_elem_of_split in Hin as (l1 & l2 & Hl). rewrite Hl in Hk, Hn.
    rewrite !fmap_app, !fmap_cons in Hk. cbn in Hk.
    apply NoDup_app in Hk as (_ & H1 & [H2 _]%NoDup_cons).
    apply elem_of_app in Hn as [Hn|[[= -> ->]|Hn]%elem_of_cons]; [|done|].
    + apply (list_elem_of_fmap_2 snd), (list_elem_of_fmap_2 fst) in Hn. cbn in Hn.
      apply H1 in Hn. destruct Hn. by left.
    + apply (list_elem_of_fmap_2 snd), (list_elem_of_fmap_2 fst) in Hn. by destruct H2.
Qed.

Lemma erase_entries h c id k v :
  wf_but h c -> (id, (k, v)) ∈ lru_ordered_list_ c ->
  entries (erase id c) = remove_key k (entries c).
Proof.
  intros Hc Hin. unfold entries, erase. cbn.
  assert (Hu : forall n, n ∈ lru_ordered_list_ c -> n.1 = id <-> n.2.1 = k)
    by (intros; by eapply node_unique).
  clear Hc Hin. induction (lru_ordered_list_ c) as [|n l IH]; [done|].
  rewrite filter_cons, fmap_cons, remove_key_cons.
  specialize (Hu n ltac:(left)) as Hn. specialize (IH ltac:(intros; apply Hu; by right)).
  destruct (decide (n.1 <> id)), (decide (n.2.1 <> k)); cbn; [by f_equal|naive_solver|naive_solver|done].
Qed.

Lemma total_sublist l1 l2 : l1 `sublist_of` l2 -> total l1 <= total l2.
Proof.
  intros Hs. induction Hs as [|kv l1 l2 Hs IH|kv l1 l2 Hs IH]; cbn; [done|lia|].
  pose proof (entry_size_nonneg kv). lia.
Qed.

(** Dropping nodes keeps all of the invariant that is not about the map. *)
Lemma wf_sublist h h' c c' :
  wf_but h c -> lru_ordered_list_ c' `sublist_of` lru_ordered_list_ c ->
  next_node c' = next_node c -> max_bytes_in_cache_ c' = max_bytes_in_cache_ c ->
  current_bytes_in_cache_ c' = total (entries c') ->
  (forall k id, h' <> Some k ->
    map_ c' !! k = Some id <-> exists v, (id, (k, v)) ∈ lru_ordered_list_ c') ->
  (forall k, h' = Some k -> k ∉ (entries c').*1) ->
  wf_but h' c'.
Proof.
  intros Hc Hs Hn Hm Hcur Hmap Hhole.
  assert (He : entries c' `sublist_of` entries c) by by apply fmap_sublist.
  constructor; [..|done|done| | | |].
  - eapply sublist_NoDup; [apply Hc|]. by apply fmap_sublist.
  - eapply sublist_NoDup; [apply Hc|]. by apply fmap_sublist.
  - intros n Hin. rewrite Hn. apply Hc. by eapply elem_of_sublist.
  - done.
  - apply total_sublist in He. pose proof (wf_total _ _ Hc). lia.
  - rewrite Hm. apply Hc.
Qed.

Lemma release_ok h c kv :
  wf_but h c -> kv ∈ entries c ->
  release (EntrySize kv) c = Some (with_current (total (entries c) - entry_size kv) c).
Proof.
  intros Hc Hin. unfold release.
  rewrite (EntrySize_total kv (entries c)), (wf_current _ _ Hc); [|done|apply Hc].
  pose proof (wf_total _ _ Hc) as Ht. apply list_elem_of_split in Hin as (l1 & l2 & He).
  rewrite He, total_app, total_cons in *. pose proof (total_nonneg l1). pose proof (total_nonneg l2).
  pose proof (entry_size_nonneg kv).
  destruct (Z.leb_spec (entry_size kv) (total l1 + (entry_size kv + total l2))); [|lia].
  do 2 f_equal. apply Z.mod_small. lia.
Qed.

(** Taking a node out of the list leaves its key as the hole of the map. *)
Lemma erase_wf c id k v :
  wf c -> (id, (k, v)) ∈ lru_ordered_list_ c ->
  wf_but (Some k) (erase id (with_current (total (entries c) - entry_size (k, v)) c)).
Proof.
  intros Hc Hin. pose proof (erase_entries _ _ _ _ _ Hc Hin) as He.
  eapply wf_sublist; [exact Hc|apply sublist_filter|done|done|..].
  - change (entries (erase id (with_current ?z c))) with (entries (erase id c)).
    rewrite He, (total_remove_key k v); [done|apply Hc|]. apply elem_of_entries. eauto.
  - intros k' id' Hk'. cbn -[filter]. rewrite (wf_map _ _ Hc) by done. split.
    + intros [v' Hv']. exists v'. apply list_elem_of_filter. split; [|done].
      rewrite (node_unique _ _ _ _ _ _ Hc Hin Hv'). cbn. congruence.
    + intros [v' [_ Hv']%list_elem_of_filter]. eauto.
  - intros k' [= <-]. change (entries (erase id (with_current ?z c))) with (entries (erase id c)).
    rewrite He. apply remove_key_keys.
Qed.

Lemma delete_hole k c : wf_but (Some k) c -> wf (with_map (delete k (map_ c)) c).
Proof.
  intros Hc. eapply wf_sublist; [exact Hc|done|done|done|apply Hc| |done].
  intros k' id _. cbn. destruct (decide (k = k')) as [->|Hk].
  - rewrite lookup_delete_eq. split; [done|]. intros [v Hv].
    destruct (wf_hole _ _ Hc k' eq_refl). apply elem_of_keys. eauto.
  - rewrite lookup_delete_ne by done. apply (wf_map _ _ Hc). congruence.
Qed.

Lemma add_hole k c : wf c -> k ∉ (entries c).*1 -> wf_but (Some k) c.
Proof.
  intros Hc Hk. eapply wf_sublist; [exact Hc|done|done|done|apply Hc| |].
  - intros k' id _. by apply (wf_map _ _ Hc).
  - by intros k' [= <-].
Qed.

(** Pushing the value of the hole key closes the hole. *)
Lemma fill_hole k v c f :
  wf_but (Some k) c -> entry_size (k, v) + total (entries c) <= 2 ^ 63 ->
  let '(b, c1) := push_front (k, v) (with_current (total (entries c) + entry_size (k, v)) c) in
  wf (with_stats f (with_map (<[k := b]> (map_ c1)) c1)).
Proof.
  intros Hc Ht. unfold push_front. cbn.
  assert (Hk : k ∉ (entries c).*1) by by apply (wf_hole _ _ Hc).
  assert (Hf : next_node c ∉ (lru_ordered_list_ c).*1).
  { intros ([id kv] & Hid & Hin)%list_elem_of_fmap. apply Hc in Hin. cbn in *. lia. }
  constructor; cbn.
  - apply NoDup_cons. split; [done|apply Hc].
  - apply NoDup_cons. split; [done|apply Hc].
  - intros k' id' _. setoid_rewrite elem_of_cons. destruct (decide (k = k')) as [->|Hne].
    + rewrite lookup_insert_eq. split.
      * intros [= <-]. exists v. by left.
      * intros [v' [[= -> _]|Hin]]; [done|]. destruct Hk. apply elem_of_keys. eauto.
    + rewrite lookup_insert_ne by done. rewrite (wf_map _ _ Hc) by congruence.
      split; intros [v' Hv']; exists v'; [by right|]. destruct Hv' as [[= -> -> ->]|]; done.
  - done.
  - intros n [->|Hn]%elem_of_cons; cbn; [lia|]. apply Hc in Hn. lia.
  - unfold entries. cbn. lia.
  - done.
  - apply Hc.
Qed.

Lemma Freshen_ok c id k v f :
  wf c -> (id, (k, v)) ∈ lru_ordered_list_ c ->
  exists c1, Freshen id c = Some (id, c1) /\
    let c' := with_stats f (with_map (<[k := id]> (map_ c1)) c1) in
    wf c' /\ abs c' = mkSpec (max_bytes_in_cache_ c) ((k, v) :: remove_key k (entries c)) (value_helper_ c).
Proof.
  intros Hc Hin.
  assert (Hm : <[k := id]> (map_ c) = map_ c) by (apply insert_id, (wf_map _ _ Hc); eauto).
  unfold Freshen, begin. destruct (lru_ordered_list_ c) as [|[id0 [k0 v0]] l] eqn:El;
    [by apply elem_of_nil in Hin|]. cbn. case_decide as Hid.
  - subst id0. assert ((k0, v0) = (k, v)) as [= -> ->].
    { pose proof (wf_ids _ _ Hc) as Hnd. rewrite El in Hnd.
      eapply NoDup_fst_unique; [exact Hnd|left|done]. }
    exists c. split; [done|]. rewrite Hm. split; [by destruct Hc; constructor|].
    unfold abs, entries. cbn. rewrite El. cbn.
    pose proof (wf_keys _ _ Hc) as Hnd. unfold entries in Hnd. rewrite El in Hnd. cbn in Hnd.
    apply NoDup_cons in Hnd as [Hk _]. rewrite remove_key_cons, decide_False by naive_solver.
    by rewrite remove_key_notin.
  - rewrite <- El in *. rewrite (deref_wf _ _ _ _ Hc Hin). cbn. eexists. split; [done|]. cbn. rewrite Hm.
    pose proof (erase_wf _ _ _ _ Hc Hin) as Hw. pose proof (erase_entries _ _ _ _ _ Hc Hin) as He.
    assert (Hke : (k, v) ∈ entries c) by (apply elem_of_entries; eauto).
    pose proof (total_remove_key k v _ (wf_keys _ _ Hc) Hke) as Ht.
    unfold entries at 1 in He. cbn -[filter] in He.
    split; [|unfold abs, entries at 1; cbn -[filter]; by rewrite He].
    constructor; unfold entries; cbn -[filter].
    + apply NoDup_cons. split; [|apply Hw].
      intros ([id' kv] & -> & [Hne _]%list_elem_of_filter)%list_elem_of_fmap. done.
    + apply NoDup_cons. split; [|apply Hw]. by apply (wf_hole _ _ Hw).
    + intros k' id' _. rewrite (wf_map _ _ Hc) by done. setoid_rewrite elem_of_cons.
      setoid_rewrite list_elem_of_filter. cbn. split.
      * intros [v' Hv']. exists v'. destruct (decide (id' = id)) as [->|]; [left|by right].
        f_equal. by eapply (NoDup_fst_unique _ _ _ _ (wf_ids _ _ Hc)).
      * intros [v' [[= -> -> ->]|[_ Hv']]]; eauto.
    + done.
    + intros n [->|[_ Hn]%list_elem_of_filter]%elem_of_cons; [|by apply Hc]. apply (wf_fresh _ _ Hc _ Hin).
    + rewrite He, Ht, (wf_current _ _ Hc). lia.
    + rewrite He, Ht. pose proof (wf_total _ _ Hc). lia.
    + apply Hc.
Qed.

(** ** Eviction *)

Lemma evict_back_ok h c l n :
  wf_but h c -> lru_ordered_list_ c = l ++ [n] ->
  exists c', evict_back c = Some c' /\ wf_but h c' /\ entries c' = l.*2 /\
    lru_ordered_list_ c' = l /\ max_bytes_in_cache_ c' = max_bytes_in_cache_ c /\
    value_helper_ c' = EvictNotify n.2.2 (value_helper_ c).
Proof.
  intros Hc Hl. unfold evict_back. rewrite Hl, last_snoc. destruct n as [id [k v]]. cbn.
  rewrite removelast_last.
  assert (Hin : (id, (k, v)) ∈ lru_ordered_list_ c) by (rewrite Hl; set_solver).
  assert (Hr : release (EntrySize (k, v)) (with_list l c) = Some (with_current (total l.*2) (with_list l c))).
  { pose proof (release_ok h c (k, v) Hc ltac:(apply elem_of_entries; eauto)) as Hr.
    unfold release in *. cbn. destruct (_ <=? _); [|done]. injection Hr as Hr.
    do 2 f_equal. rewrite Hr. unfold entries. rewrite Hl, fmap_app, total_app. cbn. lia. }
  rewrite Hr. cbn. eexists. split; [done|]. split; [|done].
  pose proof (wf_keys _ _ Hc) as Hnd. unfold entries in Hnd. rewrite Hl, !fmap_app in Hnd.
  apply NoDup_app in Hnd as (_ & Hnd & _).
  eapply wf_sublist; [exact Hc|rewrite Hl; by apply sublist_inserts_r|done|done|done| |].
  - intros k' id' Hk'. cbn. destruct (decide (k = k')) as [->|Hne].
    + rewrite lookup_delete_eq. split; [done|]. intros [v' Hv'].
      apply (list_elem_of_fmap_2 snd), (list_elem_of_fmap_2 fst), Hnd in Hv'. destruct Hv'. by left.
    + rewrite lookup_delete_ne, (wf_map _ _ Hc), Hl by done. setoid_rewrite elem_of_app.
      split; intros [v' Hv']; exists v'; [|by left]. destruct Hv' as [|Hv']; [done|].
      apply list_elem_of_singleton in Hv' as [= -> -> ->]. done.
  - intros k' Hk' Hi. eapply (wf_hole _ _ Hc); [done|]. unfold entries in *. cbn in Hi.
    rewrite Hl, !fmap_app. apply elem_of_app. by left.
Qed.

Lemma evict_loop_ok h need l : forall c fuel,
  wf_but h c -> lru_ordered_list_ c = l -> (length l < fuel)%nat ->
  0 <= need < max_bytes_in_cache_ c ->
  let kept := keep (max_bytes_in_cache_ c - need) (entries c) in
  exists c', evict_loop fuel need c = Some c' /\ wf_but h c' /\
    abs c' = mkSpec (max_bytes_in_cache_ c) kept
      (notify (drop (length kept) (entries c)) (value_helper_ c)).
Proof.
  induction l as [|n l IH] using rev_ind; intros c [|fuel] Hc Hl Hf Hneed; try lia; cbn zeta.
  all: pose proof (wf_max _ _ Hc) as Hmax; pose proof (wf_total _ _ Hc) as Htot.
  all: pose proof (wf_current _ _ Hc) as Hcur; pose proof (total_nonneg (entries c)).
  all: cbn [evict_loop]; unfold u64; rewrite Z.mod_small by lia.
  all: destruct (Z.ltb_spec (max_bytes_in_cache_ c) (need + current_bytes_in_cache_ c)) as [Hlt|Hge].
  - rewrite Hcur in Hlt. unfold entries in Hlt. rewrite Hl in Hlt. cbn in Hlt. lia.
  - exists c. rewrite keep_all by lia. by rewrite drop_all.
  - destruct (evict_back_ok h c l n Hc Hl) as (c1 & -> & Hc1 & He1 & Hl1 & Hm1 & Hh1). cbn.
    destruct (IH c1 fuel Hc1 Hl1) as (c' & -> & Hc' & Ha); [rewrite length_app in Hf; cbn in Hf; lia|lia|].
    exists c'. split; [done|]. split; [done|]. rewrite Ha, Hm1, Hh1, He1.
    assert (He : entries c = l.*2 ++ [n.2]) by (unfold entries; by rewrite Hl, fmap_app).
    rewrite He, keep_snoc by (rewrite <- ?He; lia). f_equal.
    rewrite drop_app_le by apply prefix_length, keep_prefix. unfold notify. by rewrite foldr_app.
  - exists c. rewrite keep_all by lia. by rewrite drop_all.
Qed.

Lemma EvictIfNecessary_ok h need c :
  wf_but h c -> 0 <= need ->
  let kept := keep (max_bytes_in_cache_ c - need) (entries c) in
  if need <? max_bytes_in_cache_ c then
    exists c', EvictIfNecessary need c = Some (true, with_current (total (entries c') + need) c') /\
      wf_but h c' /\ total (entries c') + need <= max_bytes_in_cache_ c /\
      abs c' = mkSpec (max_bytes_in_cache_ c) kept
        (notify (drop (length kept) (entries c)) (value_helper_ c))
  else EvictIfNecessary need c = Some (false, c).
Proof.
  intros Hc Hneed. cbn zeta. unfold EvictIfNecessary.
  destruct (Z.ltb_spec need (max_bytes_in_cache_ c)); [|done].
  destruct (evict_loop_ok h need (lru_ordered_list_ c) c (S (length (lru_ordered_list_ c)))
    Hc eq_refl ltac:(lia) ltac:(lia)) as (c' & -> & Hc' & Ha). cbn.
  assert (Hk : total (entries c') <= max_bytes_in_cache_ c - need).
  { injection Ha as _ He _. rewrite He. apply keep_total. lia. }
  pose proof (total_nonneg (entries c')). pose proof (wf_max _ _ Hc).
  exists c'. split; [|split; [done|split; [lia|done]]].
  rewrite (wf_current _ _ Hc'). unfold u64. by rewrite Z.mod_small by lia.
Qed.

(** The common tail of [Put]: evict, then push and record the new node. *)
Lemma insert_ok k v c f (on_fail : LRUCacheBase V H -> LRUCacheBase V H) :
  wf_but (Some k) c -> wf (on_fail c) -> abs (on_fail c) = abs c ->
  exists c',
    ('(fits, c) ← EvictIfNecessary (entry_size (k, v)) c;
     if (fits : bool) then
       let '(b, c) := push_front (k, v) c in
       let c := with_map (<[k := b]> (map_ c)) c in
       Some (with_stats f c)
     else Some (on_fail c)) = Some c' /\
    wf c' /\ abs c' = spec_insert k v (entries c) (abs c).
Proof.
  intros Hc Hf Ha. pose proof (entry_size_nonneg (k, v)).
  pose proof (EvictIfNecessary_ok (Some k) (entry_size (k, v)) c Hc ltac:(done)) as He.
  cbn zeta in He. unfold spec_insert. cbn [spec_max abs].
  destruct (_ <? _).
  - destruct He as (c1 & -> & Hc1 & Ht & Ha1).
    cbn -[push_front with_stats with_map with_current].
    pose proof (fill_hole k v c1 f Hc1) as Hw. pose proof (wf_max _ _ Hc).
    specialize (Hw ltac:(lia)). destruct (push_front _ _) as [b c2] eqn:Ep.
    eexists. split; [done|]. split; [done|]. injection Ep as <- <-.
    injection Ha1 as Hm1 He1 Hh1. unfold abs, entries in *. cbn in *. by rewrite Hm1, He1, Hh1.
  - rewrite He. cbn. eexists. split; [done|]. by rewrite Ha.
Qed.

Lemma abs_with_stats f c : abs (with_stats f c) = abs c.
Proof. done. Qed.

Lemma wf_with_stats h f c : wf_but h c -> wf_but h (with_stats f c).
Proof. intros Hc. by destruct Hc; constructor. Qed.

Lemma Put_ok k v c :
  wf c -> entry_size (k, v) < 2 ^ 64 ->
  exists c', Put k v c = Some c' /\ wf c' /\ abs c' = spec_put k v (abs c).
Proof.
  intros Hc Hs. unfold Put, spec_put. cbn [spec_entries abs].
  fold (entry_size (k, v)). replace (u64 _) with (entry_size (k, v))
    by (symmetry; apply Z.mod_small; pose proof (entry_size_nonneg (k, v)); unfold entry_size in *; cbn in *; lia).
  destruct (map_ c !! k) as [id|] eqn:E.
  - destruct (map_hit _ _ _ Hc E) as (v0 & Hin & -> & Hfk). rewrite Hfk. cbn [mbind option_bind snd].
    destruct (negb _); [by exists c|]. destruct (Equal v v0).
    + destruct (Freshen_ok c id k v0 identical_reinserts_up Hc Hin) as (c1 & -> & Hw & Ha).
      cbn [mbind option_bind]. eexists. done.
    + assert (Hin' : (k, v0) ∈ entries c) by (apply elem_of_entries; eauto).
      rewrite (release_ok None (with_stats deletes_up c) (k, v0)) by (by try apply wf_with_stats).
      cbn [mbind option_bind].
      pose proof (erase_wf _ _ _ _ Hc Hin) as Hw. pose proof (erase_entries _ _ _ _ _ Hc Hin) as He.
      apply (wf_with_stats _ deletes_up) in Hw.
      destruct (insert_ok k v _ inserts_up (fun c => with_map (delete k (map_ c)) c) Hw) as (c' & H1 & H2 & H3).
      * by apply delete_hole.
      * done.
      * exists c'. split; [exact H1|]. split; [done|]. rewrite H3.
        change (entries (with_stats deletes_up (erase id (with_current ?z c)))) with (entries (erase id c)).
        by rewrite He.
  - pose proof (map_miss _ _ Hc E) as Hk. apply find_key_None in Hk as Hfk. rewrite Hfk.
    destruct (insert_ok k v c inserts_up (fun c => c) (add_hole _ _ Hc Hk) Hc eq_refl) as (c' & H1 & H2 & H3).
    by exists c'.
Qed.

Lemma GetFreshen_ok k c :
  wf c ->
  exists c', GetFreshen k c = Some ((spec_get k (abs c)).1, c') /\ wf c' /\ abs c' = (spec_get k (abs c)).2.
Proof.
  intros Hc. unfold GetFreshen, spec_get. cbn [spec_entries abs].
  destruct (map_ c !! k) as [id|] eqn:E.
  - destruct (map_hit _ _ _ Hc E) as (v & Hin & -> & ->). cbn [mbind option_bind].
    destruct (Freshen_ok c id k v hits_up Hc Hin) as (c1 & -> & Hw & Ha). cbn [mbind option_bind]. eexists. done.
  - pose proof (map_miss _ _ Hc E) as Hk. apply find_key_None in Hk as ->.
    eexists. split; [done|]. by split; [apply wf_with_stats|].
Qed.

Lemma GetNoFreshen_ok k c :
  wf c ->
  exists c', GetNoFreshen k c = Some (find_key k (entries c), c') /\ wf c' /\ abs c' = abs c.
Proof.
  intros Hc. unfold GetNoFreshen. destruct (map_ c !! k) as [id|] eqn:E.
  - destruct (map_hit _ _ _ Hc E) as (v & Hin & -> & ->). cbn [mbind option_bind].
    eexists. split; [done|]. by split; [apply wf_with_stats|].
  - pose proof (map_miss _ _ Hc E) as Hk. apply find_key_None in Hk as ->.
    eexists. split; [done|]. by split; [apply wf_with_stats|].
Qed.

Lemma DeleteAt_ok k id c :
  wf c -> map_ c !! k = Some id ->
  exists c', DeleteAt k id c = Some c' /\ wf c' /\ map_ c' = delete k (map_ c) /\
    abs c' = spec_delete k (abs c).
Proof.
  intros Hc E. destruct (map_hit _ _ _ Hc E) as (v & Hin & Hd & Hfk).
  unfold DeleteAt. rewrite Hd. cbn [mbind option_bind].
  pose proof (release_ok None c (k, v) Hc ltac:(apply elem_of_entries; eauto)) as Hr.
  assert (Hr' : release (EntrySize (k, v)) (erase id c) =
    Some (with_current (total (entries c) - entry_size (k, v)) (erase id c))).
  { unfold release in *. cbn -[filter]. destruct (_ <=? _); [|done]. injection Hr as Hr. by rewrite Hr. }
  rewrite Hr'. cbn [mbind option_bind]. eexists. split; [done|].
  pose proof (erase_wf _ _ _ _ Hc Hin) as Hw. pose proof (erase_entries _ _ _ _ _ Hc Hin) as He.
  split; [by apply wf_with_stats, (delete_hole k _ Hw)|]. split; [done|].
  unfold abs, spec_delete. cbn -[filter]. f_equal. exact He.
Qed.

Lemma Delete_ok k c :
  wf c -> exists c', Delete k c = Some c' /\ wf c' /\ abs c' = spec_delete k (abs c).
Proof.
  intros Hc. unfold Delete. destruct (map_ c !! k) as [id|] eqn:E.
  - destruct (DeleteAt_ok _ _ _ Hc E) as (c' & H1 & H2 & _ & H3). by exists c'.
  - pose proof (map_miss _ _ Hc E) as Hk. exists c. split; [done|]. split; [done|].
    unfold spec_delete. cbn. by rewrite remove_key_notin.
Qed.

Lemma map_keys c k : wf c -> is_Some (map_ c !! k) <-> k ∈ (entries c).*1.
Proof.
  intros Hc. rewrite elem_of_keys. unfold is_Some. by setoid_rewrite (wf_map _ _ Hc k); [|done].
Qed.

Lemma DeleteWithPrefix_loop_ok prefix order : forall c,
  wf c -> NoDup order -> (forall k, k ∈ order -> is_Some (map_ c !! k)) ->
  exists c', DeleteWithPrefixForTesting prefix order c = Some c' /\ wf c' /\
    abs c' = mkSpec (max_bytes_in_cache_ c)
      (filter (fun kv => ~ (kv.1 ∈ order /\ StartsWith kv.1 prefix = true)) (entries c))
      (value_helper_ c).
Proof.
  induction order as [|k order IH]; intros c Hc Hnd Hin; cbn [DeleteWithPrefixForTesting].
  - exists c. split; [done|]. split; [done|]. unfold abs. f_equal. symmetry.
    apply list_filter_id. intros kv _ [Hk _]. by apply elem_of_nil in Hk.
  - apply NoDup_cons in Hnd as [Hk Hnd]. destruct (Hin k ltac:(left)) as [id Hid].
    rewrite Hid. cbn [mbind option_bind]. destruct (StartsWith k prefix) eqn:Ep.
    + destruct (DeleteAt_ok k id c Hc Hid) as (c1 & -> & Hc1 & Hm1 & Ha1). cbn [mbind option_bind].
      destruct (IH c1 Hc1 Hnd) as (c' & -> & Hc' & Ha').
      { intros k' Hk'. rewrite Hm1, lookup_delete_ne by (intros ->; done). apply Hin. by right. }
      exists c'. split; [done|]. split; [done|]. rewrite Ha'. injection Ha1 as -> -> ->. f_equal.
      unfold remove_key. rewrite list_filter_filter. apply list_filter_iff.
      intros [k' v']. cbn. rewrite elem_of_cons. naive_solver.
    + destruct (IH c Hc Hnd) as (c' & -> & Hc' & Ha'); [intros k' Hk'; apply Hin; by right|].
      exists c'. split; [done|]. split; [done|]. rewrite Ha'. f_equal. apply list_filter_iff.
      intros [k' v']. cbn. rewrite elem_of_cons. split; [|naive_solver].
      intros Hn [[->|]]; [congruence|naive_solver].
Qed.

Lemma DeleteWithPrefix_ok prefix order c :
  wf c -> order ≡ₚ (map_to_list (map_ c)).*1 ->
  exists c', DeleteWithPrefixForTesting prefix order c = Some c' /\ wf c' /\
    abs c' = spec_delete_prefix prefix (abs c).
Proof.
  intros Hc Ho.
  assert (Hin : forall k, k ∈ order <-> is_Some (map_ c !! k)).
  { intros k. rewrite Ho, list_elem_of_fmap. split.
    - intros ([k' id] & -> & Hk%elem_of_map_to_list). by exists id.
    - intros [id Hk]. exists (k, id). by rewrite elem_of_map_to_list. }
  destruct (DeleteWithPrefix_loop_ok prefix order c Hc) as (c' & -> & Hc' & Ha').
  - rewrite Ho. apply NoDup_fst_map_to_list.
  - intros k. by rewrite Hin.
  - exists c'. split; [done|]. split; [done|]. rewrite Ha'. unfold spec_delete_prefix. cbn. f_equal.
    apply list_filter_ext_in. intros [k v] Hkv. cbn. rewrite Hin, map_keys by done.
    apply (list_elem_of_fmap_2 fst) in Hkv. cbn in Hkv. destruct (StartsWith k prefix); naive_solver.
Qed.

Lemma Clear_ok c : wf c -> wf (Clear c) /\ abs (Clear c) = mkSpec (max_bytes_in_cache_ c) [] (value_helper_ c).
Proof.
  intros Hc. split; [|done].
  eapply (wf_sublist None None c); [done|apply sublist_nil_l|done|done|done| |done].
  intros k id _. cbn. rewrite lookup_empty. split; [done|]. by intros [v ?%elem_of_nil].
Qed.

Lemma set_max_ok z c : wf c -> 0 <= z <= 2 ^ 63 -> wf (set_max_bytes_in_cache z c).
Proof. intros Hc Hz. by destruct Hc; constructor. Qed.

Lemma new_cache_wf max h : 0 <= max <= 2 ^ 63 -> wf (new_cache max h).
Proof.
  intros Hm. constructor; cbn; try apply NoDup_nil_2; try done; try lia.
  - intros k id _. rewrite lookup_empty. split; [done|]. by intros [v ?%elem_of_nil].
  - by intros n ?%elem_of_nil.
Qed.

Lemma used_total l used :
  0 <= used -> used + total l.*2 <= 2 ^ 63 ->
  fold_left (fun used (n : nat * (bytes * V)) => u64 (used + EntrySize n.2)) l used = used + total l.*2.
Proof.
  revert used. induction l as [|n l IH]; intros used Hu Ht; cbn in *; [lia|].
  pose proof (entry_size_nonneg n.2). pose proof (total_nonneg l.*2).
  rewrite (EntrySize_total n.2 [n.2]) by first [by apply list_elem_of_singleton | cbn; lia].
  unfold u64. rewrite Z.mod_small, IH by lia. lia.
Qed.

Lemma SanityCheck_ok c : wf c -> total (entries c) <= max_bytes_in_cache_ c -> SanityCheck c = true.
Proof.
  intros Hc Hm. unfold SanityCheck. rewrite !andb_true_iff. repeat split.
  - apply bool_decide_eq_true.
    replace (map_ c) with (list_to_map (prod_swap <$> (prod_map id fst <$> lru_ordered_list_ c)) : gmap bytes nat).
    2:{ apply map_eq. intros k. apply option_eq. intros id.
        rewrite <- elem_of_list_to_map.
        - rewrite (wf_map _ _ Hc) by done. rewrite list_elem_of_fmap. setoid_rewrite list_elem_of_fmap. split.
          + intros ([? ?] & [= -> ->] & [? [? ?]] & [= -> ->] & Hin). eauto.
          + intros [v Hv]. exists (id, k). split; [done|]. by exists (id, (k, v)).
        - rewrite <- !list_fmap_compose. pose proof (wf_keys _ _ Hc) as Hk. unfold entries in Hk.
          by rewrite <- list_fmap_compose in Hk. }
    rewrite map_size_list_to_map; [by rewrite !length_fmap|].
    rewrite <- !list_fmap_compose. pose proof (wf_keys _ _ Hc) as Hk. unfold entries in Hk.
    by rewrite <- list_fmap_compose in Hk.
  - apply forallb_forall. intros [id [k v]] Hin%list_elem_of_In. apply bool_decide_eq_true. cbn.
    apply (wf_map _ _ Hc); [done|]. by exists v.
  - rewrite used_total by (try apply Hc; done). rewrite (wf_current _ _ Hc). apply Z.eqb_eq. unfold entries. lia.
  - rewrite (wf_current _ _ Hc). by apply Z.leb_le.
Qed.

End spec.

Arguments wf_but {V H VH} hole c.
Arguments lru_state V H : clear implicits.

(** ** Sequences of calls *)

Section calls.
Context {V H : Type} {VH : ValueHelper V H}.

(** The hash map may iterate over its keys in any order. *)
Context (hash_order : gmap bytes nat -> list bytes).
Hypothesis hash_order_keys : forall m, hash_order m ≡ₚ (map_to_list m).*1.

Inductive call :=
| CallGetFreshen (key : bytes)
| CallGetNoFreshen (key : bytes)
| CallPut (key : bytes) (value : V)
| CallDelete (key : bytes)
| CallDeleteWithPrefix (prefix : bytes)
| CallSetMax (max_size : Z)
| CallClear
| CallClearStats.

Definition do_call (o : call) (c : LRUCacheBase V H) : option (option V * LRUCacheBase V H) :=
  match o with
  | CallGetFreshen k => GetFreshen k c
  | CallGetNoFreshen k => GetNoFreshen k c
  | CallPut k v => c ← Put k v c; Some (None, c)
  | CallDelete k => c ← Delete k c; Some (None, c)
  | CallDeleteWithPrefix p => c ← DeleteWithPrefixForTesting p (hash_order (map_ c)) c; Some (None, c)
  | CallSetMax z => Some (None, set_max_bytes_in_cache z c)
  | CallClear => Some (None, Clear c)
  | CallClearStats => Some (None, ClearStats c)
  end.

Definition spec_call (o : call) (s : lru_state V H) : option V * lru_state V H :=
  match o with
  | CallGetFreshen k => spec_get k s
  | CallGetNoFreshen k => (find_key k (spec_entries s), s)
  | CallPut k v => (None, spec_put k v s)
  | CallDelete k => (None, spec_delete k s)
  | CallDeleteWithPrefix p => (None, spec_delete_prefix p s)
  | CallSetMax z => (None, mkSpec z (spec_entries s) (spec_helper s))
  | CallClear => (None, mkSpec (spec_max s) [] (spec_helper s))
  | CallClearStats => (None, s)
  end.

(** Sizes are [size_t]s, and the cache is limited to 2^63 bytes, so that the
    sum of two sizes does not wrap. *)
Definition call_ok (o : call) : Prop :=
  match o with
  | CallPut k v => entry_size (H:=H) (k, v) < 2 ^ 64
  | CallSetMax z => 0 <= z <= 2 ^ 63
  | _ => True
  end.

Fixpoint do_calls (os : list call) (c : LRUCacheBase V H) : option (list (option V) * LRUCacheBase V H) :=
  match os with
  | [] => Some ([], c)
  | o :: os' => '(r, c) ← do_call o c; '(rs, c) ← do_calls os' c; Some (r :: rs, c)
  end.

Fixpoint spec_calls (os : list call) (s : lru_state V H) : list (option V) * lru_state V H :=
  match os with
  | [] => ([], s)
  | o :: os' =>
      let '(r, s) := spec_call o s in
      let '(rs, s) := spec_calls os' s in (r :: rs, s)
  end.

Lemma do_call_ok o c :
  wf_but None c -> call_ok o ->
  exists c', do_call o c = Some ((spec_call o (abs c)).1, c') /\ wf_but None c' /\
    abs c' = (spec_call o (abs c)).2.
Proof.
  intros Hc Ho. destruct o as [k|k|k v|k|p|z| |]; cbn [do_call spec_call fst snd].
  - by apply GetFreshen_ok.
  - by apply GetNoFreshen_ok.
  - destruct (Put_ok k v c Hc Ho) as (c' & -> & Hc' & Ha). by exists c'.
  - destruct (Delete_ok k c Hc) as (c' & -> & Hc' & Ha). by exists c'.
  - destruct (DeleteWithPrefix_ok p _ c Hc (hash_order_keys _)) as (c' & -> & Hc' & Ha). by exists c'.
  - eexists. split; [done|]. by split; [apply set_max_ok|].
  - eexists. split; [done|]. by apply Clear_ok.
  - eexists. split; [done|]. by split; [apply wf_with_stats|].
Qed.

Lemma do_calls_ok os : forall c,
  wf_but None c -> Forall call_ok os ->
  exists c', do_calls os c = Some ((spec_calls os (abs c)).1, c') /\ wf_but None c' /\
    abs c' = (spec_calls os (abs c)).2.
Proof.
  induction os as [|o os IH]; intros c Hc Hos; cbn [do_calls spec_calls].
  { by exists c. }
  apply Forall_cons in Hos as [Ho Hos].
  destruct (do_call_ok o c Hc Ho) as (c1 & -> & Hc1 & Ha1). cbn [mbind option_bind].
  destruct (IH c1 Hc1 Hos) as (c' & -> & Hc' & Ha'). cbn [mbind option_bind]. rewrite Ha1 in *.
  destruct (spec_call o (abs c)) as [r s]. cbn in *. destruct (spec_calls os s) as [rs s']. by exists c'.
Qed.

Definition within (s : lru_state V H) : Prop := total (spec_entries s) <= spec_max s.
Definition shrinks (o : call) : Prop := match o with CallSetMax _ => True | _ => False end.

Lemma spec_insert_within k v l s :
  total l <= spec_max s -> within (spec_insert k v l s).
Proof.
  intros Hl. unfold within, spec_insert. destruct (Z.ltb_spec (entry_size (k, v)) (spec_max s)); [|done].
  cbn. pose proof (keep_total (spec_max s - entry_size (k, v)) l). lia.
Qed.

Lemma remove_key_total k l : total (remove_key k l) <= total l.
Proof. apply total_sublist, sublist_filter. Qed.

Lemma spec_call_within o c :
  wf_but None c -> within (abs c) -> ~ shrinks o -> within (spec_call o (abs c)).2.
Proof.
  intros Hc Hw Ho. destruct o as [k|k|k v|k|p|z| |]; cbn [spec_call snd]; try done.
  - unfold spec_get. destruct (find_key k _) as [v|] eqn:E; [|done].
    apply find_key_Some in E; [|apply Hc]. unfold within. cbn -[filter].
    rewrite (total_remove_key k v); [unfold within in Hw; cbn in Hw; lia|apply Hc|done].
  - unfold spec_put. cbn [spec_entries abs]. pose proof (remove_key_total k (entries c)).
    unfold within in Hw. cbn in Hw. destruct (find_key k _) as [v0|] eqn:E; [|by apply spec_insert_within].
    apply find_key_Some in E; [|apply Hc].
    destruct (negb _); [done|]. destruct (Equal v v0); [|apply spec_insert_within; cbn; lia].
    unfold within. cbn. rewrite (total_remove_key k v0); [lia|apply Hc|done].
  - unfold within, spec_delete in *. cbn in *. pose proof (remove_key_total k (entries c)). lia.
  - unfold within, spec_delete_prefix in *. cbn -[filter] in *.
    pose proof (total_sublist (filter (fun kv : bytes * V => StartsWith kv.1 p = false) (entries c)) (entries c)
      (sublist_filter _ _)). lia.
  - unfold within in *. cbn in *. pose proof (total_nonneg (H:=H) (entries c)). lia.
Qed.

Lemma do_calls_within os : forall c,
  wf_but None c -> within (abs c) -> Forall call_ok os -> Forall (fun o => ~ shrinks o) os ->
  exists rs c', do_calls os c = Some (rs, c') /\ wf_but None c' /\ within (abs c').
Proof.
  induction os as [|o os IH]; intros c Hc Hw Hos Hs; cbn [do_calls].
  { by exists [], c. }
  apply Forall_cons in Hos as [Ho Hos]. apply Forall_cons in Hs as [Hso Hs].
  destruct (do_call_ok o c Hc Ho) as (c1 & -> & Hc1 & Ha1). cbn [mbind option_bind].
  destruct (IH c1 Hc1) as (rs & c' & -> & Hc' & Hw'); [|done..|].
  - rewrite Ha1. by apply spec_call_within.
  - cbn. eauto.
Qed.

(** C11: Every sequence of calls on an [LRUCacheBase] runs without a failed
    [CHECK], a dangling list iterator or a pop of an empty list, and answers
    exactly what the recency-list specification answers: a hit moves the entry
    to the front, a [Put] keeps the longest prefix of the most recently used
    entries that fits beside the new one, and the helper is notified of the
    evicted values, oldest first. *)
Theorem LRUCacheBase_refines_spec (max_size : Z) (h : H) (os : list call) :
  0 <= max_size <= 2 ^ 63 -> Forall call_ok os ->
  exists rs c, do_calls os (new_cache max_size h) = Some (rs, c) /\
    (rs, abs c) = spec_calls os (mkSpec max_size [] h).
Proof.
  intros Hm Hos.
  destruct (do_calls_ok os (new_cache max_size h) (new_cache_wf _ _ Hm) Hos) as (c & Hd & _ & Ha).
  eexists _, c. split; [exact Hd|]. rewrite Ha. symmetry. apply surjective_pairing.
Qed.

(** After every sequence of calls that does not change the size limit the
    map and the recency list point to each other, the byte count is exact and
    within the limit: [SanityCheck] passes. *)
Lemma SanityCheck_passes (max_size : Z) (h : H) (os : list call) :
  0 <= max_size <= 2 ^ 63 -> Forall call_ok os -> Forall (fun o => ~ shrinks o) os ->
  exists rs c, do_calls os (new_cache max_size h) = Some (rs, c) /\ SanityCheck c = true /\
    num_elements c = Z.of_nat (length (entries c)).
Proof.
  intros Hm Hos Hs.
  destruct (do_calls_within os (new_cache max_size h) (new_cache_wf _ _ Hm)) as (rs & c & Hd & Hc & Hw);
    [unfold within, abs, entries; cbn; lia|done..|].
  pose proof (SanityCheck_ok c Hc Hw) as Hsc. exists rs, c. split; [done|]. split; [done|].
  unfold SanityCheck in Hsc. rewrite !andb_true_iff in Hsc. destruct Hsc as [[[Hsz _] _] _].
  apply bool_decide_eq_true in Hsz. unfold num_elements, entries. by rewrite Hsz, length_fmap.
Qed.

(** A [Put] of a new or changed value that fits makes it the most recently
    used entry and evicts only a tail of the least recently used entries, no
    more of them than needed: the first evicted entry would not have fitted. *)
Lemma Put_evicts_least_recently_used (k : bytes) (v : V) (c : LRUCacheBase V H) :
  wf_but None c -> entry_size (H:=H) (k, v) < max_bytes_in_cache_ c ->
  (forall old, find_key k (entries c) = Some old -> ShouldReplace old v = true /\ Equal v old = false) ->
  exists c' evicted, Put k v c = Some c' /\ wf_but None c' /\
    entries c' ++ evicted = (k, v) :: remove_key k (entries c) /\
    total (H:=H) (entries c') <= max_bytes_in_cache_ c' /\
    (forall e r, evicted = e :: r -> max_bytes_in_cache_ c' < total (H:=H) (entries c' ++ [e])) /\
    value_helper_ c' = notify evicted (value_helper_ c).
Proof.
  intros Hc Hs Hold. pose proof (wf_max _ _ Hc) as Hm. pose proof (entry_size_nonneg (H:=H) (k, v)) as Hn.
  destruct (Put_ok k v c Hc ltac:(lia)) as (c' & Hp & Hc' & Ha).
  set (B := max_bytes_in_cache_ c - entry_size (H:=H) (k, v)). set (l := remove_key k (entries c)).
  assert (Hi : abs c' = mkSpec (max_bytes_in_cache_ c) ((k, v) :: keep (H:=H) B l)
                          (notify (drop (length (keep (H:=H) B l)) l) (value_helper_ c))).
  { rewrite Ha. unfold spec_put, spec_insert. cbn [spec_entries spec_max spec_helper abs].
    rewrite (proj2 (Z.ltb_lt _ _) Hs). destruct (find_key k (entries c)) as [old|] eqn:E.
    - by destruct (Hold old eq_refl) as [-> ->].
    - apply find_key_None in E. by rewrite <- (remove_key_notin k (entries c)) by done. }
  injection Hi as Hm' He' Hh'. exists c', (drop (length (keep (H:=H) B l)) l).
  split; [done|]. split; [done|]. rewrite He', Hm', Hh'.
  assert (Hkd : keep (H:=H) B l ++ drop (length (keep (H:=H) B l)) l = l)
    by (rewrite (keep_take B l) at 1; apply take_drop).
  split; [cbn; by rewrite Hkd|].
  split; [cbn; pose proof (keep_total (H:=H) B l); lia|]. split; [|done].
  intros e r He. rewrite He in Hkd. pose proof (keep_maximal (H:=H) B l e r ltac:(lia) ltac:(done)).
  cbn. lia.
Qed.

End calls.
Arguments call V : clear implicits.

(** ** LRUCache

    [SharedStringHelper]: values are strings, always replaced, and nobody is
    told of an eviction. *)

Definition SharedStringHelper_size (v : bytes) : Z := Z.of_nat (length v).

Lemma SharedStringHelper_size_nonneg v : 0 <= SharedStringHelper_size v.
Proof. unfold SharedStringHelper_size. lia. Qed.

#[export] Instance SharedStringHelper : ValueHelper bytes unit := {
  value_size := SharedStringHelper_size;
  Equal a b := bool_decide (a = b);
  EvictNotify _ h := h;
  ShouldReplace _ _ := true;
  value_size_nonneg := SharedStringHelper_size_nonneg
}.

(** In an [LRUCache], a value just [Put] is what [Get] returns if it fits,
    even when the key held another value before; if it does not fit the key is
    absent, never bound to its old value. *)
Lemma Get_after_Put (k v : bytes) (c : LRUCacheBase bytes unit) :
  wf_but None c -> entry_size (H:=unit) (k, v) < 2 ^ 64 ->
  exists c1 c2, Put k v c = Some c1 /\
    GetFreshen k c1 = Some
      (if (entry_size (H:=unit) (k, v) <? max_bytes_in_cache_ c)
          || bool_decide (find_key k (entries c) = Some v)
       then Some v else None, c2).
Proof.
  intros Hc Hs. destruct (Put_ok k v c Hc Hs) as (c1 & -> & Hc1 & Ha1).
  destruct (GetFreshen_ok k c1 Hc1) as (c2 & Hg & _). exists c1, c2. split; [done|]. rewrite Hg.
  do 2 f_equal. rewrite Ha1. unfold spec_get, spec_put.
  replace (spec_entries (abs c)) with (entries c) by done.
  destruct (find_key k (entries c)) as [old|] eqn:E; cbn [negb ShouldReplace SharedStringHelper Equal].
  - case_bool_decide as Ev.
    + subst old. rewrite (bool_decide_eq_true_2 (Some v = Some v)) by done.
      rewrite orb_true_r. unfold find_key. cbn. by rewrite decide_True by done.
    + rewrite (bool_decide_eq_false_2 (Some old = Some v)) by congruence. rewrite orb_false_r.
      unfold spec_insert. cbn [spec_max abs]. destruct (_ <? _).
      * unfold find_key. cbn. by rewrite decide_True by done.
      * cbn [spec_entries]. pose proof (remove_key_keys k (entries c)) as Hk.
        by apply find_key_None in Hk as ->.
  - rewrite (bool_decide_eq_false_2 (None = Some v)) by done. rewrite orb_false_r.
    unfold spec_insert. cbn [spec_max abs]. destruct (_ <? _); cbn [spec_entries].
    + unfold find_key. cbn. by rewrite decide_True by done.
    + by rewrite E.
Qed.

(** *** Witnesses *)

Definition some_order (m : gmap bytes nat) : list bytes := (map_to_list m).*1.

Definition example_calls : list (call bytes) :=
  [CallPut (lit "a") (lit "1234"); CallPut (lit "b") (lit "5678"); CallGetFreshen (lit "a");
   CallPut (lit "c") (lit "90"); CallGetNoFreshen (lit "b"); CallPut (lit "a") (lit "x");
   CallDeleteWithPrefix (lit "c"); CallGetFreshen (lit "a")].

Lemma LRUCacheBase_refines_spec_witness :
  exists rs c, do_calls (H:=unit) some_order example_calls (new_cache 10 tt) = Some (rs, c) /\
    (rs, abs c) = spec_calls example_calls (mkSpec 10 [] tt).
Proof.
  apply (LRUCacheBase_refines_spec some_order); [done|lia|].
  repeat constructor; by vm_compute.
Defined.



