(* ===== verification/PurgeSet.v ===== *)
(** * PurgeSet

    The bounded set of cache purge records of
    src/pagespeed/kernel/cache/purge_set.{h,cc}, on top of [LruCache]: an
    [LRUCacheBase] from URLs to purge timestamps, whose helper raises the
    global invalidation timestamp whenever a record is evicted.

    The helper of the LRU holds a pointer to the [PurgeSet] that owns the LRU
    and mutates its fields; here these fields are the helper state of the LRU.
    (PurgeSetSwap.v models the pointers themselves.) *)

From stdpp Require Import sorting.
From S2P Require Import Prelude LruCache.

Definition kClockSkewAllowanceMs : Z := 10 * (60 * 1000).
Definition kInitialTimestampMs : Z := -1.

Definition int64_max : Z := 2 ^ 63 - 1.
Definition int64_min : Z := - 2 ^ 63.

(** The fields of a [PurgeSet]; [dchecks_held] remembers whether every
    [DCHECK] of [EvictNotify] held so far. *)
Record Timestamps := mkTimestamps {
  global_invalidation_timestamp_ms_ : Z;
  last_invalidation_timestamp_ms_ : Z;
  dchecks_held : bool
}.

(** ** InvalidationTimestampHelper *)

Definition helper_EvictNotify (evicted_record_timestamp_ms : Z) (t : Timestamps) : Timestamps :=
  mkTimestamps (Z.max evicted_record_timestamp_ms (global_invalidation_timestamp_ms_ t))
    (last_invalidation_timestamp_ms_ t)
    (dchecks_held t && (evicted_record_timestamp_ms <=? last_invalidation_timestamp_ms_ t)).

Definition helper_size (value : Z) : Z := 8.
Definition helper_ShouldReplace (old_timestamp_ms new_timestamp_ms : Z) : bool :=
  old_timestamp_ms <? new_timestamp_ms.

Lemma helper_size_nonneg v : 0 <= helper_size v.
Proof. done. Qed.

#[export] Instance InvalidationTimestampHelper : ValueHelper Z Timestamps := {
  value_size := helper_size;
  Equal a b := a =? b;
  EvictNotify := helper_EvictNotify;
  ShouldReplace := helper_ShouldReplace;
  value_size_nonneg := helper_size_nonneg
}.

Abbreviation PurgeSet := (LRUCacheBase Z Timestamps).

Definition global (p : PurgeSet) : Z := global_invalidation_timestamp_ms_ (value_helper_ p).
Definition last_invalidation (p : PurgeSet) : Z := last_invalidation_timestamp_ms_ (value_helper_ p).

Definition set_global (z : Z) (p : PurgeSet) : PurgeSet :=
  with_helper (mkTimestamps z (last_invalidation p) (dchecks_held (value_helper_ p))) p.
Definition set_last (z : Z) (p : PurgeSet) : PurgeSet :=
  with_helper (mkTimestamps (global p) z (dchecks_held (value_helper_ p))) p.

(** ** Operations *)

Definition new_PurgeSet (max_size : Z) : PurgeSet :=
  new_cache max_size (mkTimestamps kInitialTimestampMs 0 true).

Definition set_max_size (x : Z) (p : PurgeSet) : PurgeSet := set_max_bytes_in_cache x p.

Definition Clear (p : PurgeSet) : PurgeSet := set_global kInitialTimestampMs (LruCache.Clear p).

(** The subtraction is on [int64]: overflow is undefined, hence [None].
    Answers whether the timestamp is acceptable, and its sanitised value. *)
Definition SanitizeTimestamp (timestamp_ms : Z) (p : PurgeSet) : option (bool * Z * PurgeSet) :=
  let amount_in_past_ms := last_invalidation p - timestamp_ms in
  if (int64_min <=? amount_in_past_ms) && (amount_in_past_ms <=? int64_max) then
    if amount_in_past_ms <=? 0 then Some (true, timestamp_ms, set_last timestamp_ms p)
    else if amount_in_past_ms <=? kClockSkewAllowanceMs
    then Some (true, last_invalidation p, p)
    else Some (false, timestamp_ms, p)
  else None.

Definition UpdateGlobalInvalidationTimestampMs (timestamp_ms : Z) (p : PurgeSet)
  : option (bool * PurgeSet) :=
  '(ok, timestamp_ms, p) ← SanitizeTimestamp timestamp_ms p;
  if (ok : bool) then Some (true, set_global (Z.max timestamp_ms (global p)) p)
  else Some (false, p).

Definition Put (key : bytes) (timestamp_ms : Z) (p : PurgeSet) : option (bool * PurgeSet) :=
  '(ok, timestamp_ms, p) ← SanitizeTimestamp timestamp_ms p;
  if negb (ok : bool) then Some (true, p)
  else if global p <? timestamp_ms then
    p ← LruCache.Put key timestamp_ms p;
    Some (true, p)
  else Some (true, p).

Definition IsValid (key : bytes) (timestamp_ms : Z) (p : PurgeSet) : option (bool * PurgeSet) :=
  if timestamp_ms <=? global p then Some (false, p)
  else
    '(purge_timestamp_ms, p) ← GetNoFreshen key p;
    Some (match purge_timestamp_ms with
          | None => true
          | Some t => t <? timestamp_ms
          end, p).

(** *** Merge

    [MergeContext] is the vector of the records not yet covered by the global
    timestamp; [AddPurgeCopyingKey] and [AddPurgeSharingKey] append to it. *)
Definition AddPurge (global_ms : Z) (record : bytes * Z) (merge_context : list (bytes * Z))
  : list (bytes * Z) :=
  if global_ms <? record.2 then merge_context ++ [record] else merge_context.

(** The main loop: the older record first, [this] on ties. *)
Fixpoint merge_records (global_ms : Z) (src_iter : list (bytes * Z)) :
  list (bytes * Z) -> list (bytes * Z) -> list (bytes * Z) :=
  match src_iter with
  | [] => fun this_iter merge_context =>
      fold_left (fun ctx r => AddPurge global_ms r ctx) this_iter merge_context
  | s :: src_iter' =>
      fix merge_this this_iter merge_context :=
        match this_iter with
        | [] => fold_left (fun ctx r => AddPurge global_ms r ctx) (s :: src_iter') merge_context
        | t :: this_iter' =>
            if s.2 <? t.2
            then merge_records global_ms src_iter' this_iter (AddPurge global_ms s merge_context)
            else merge_this this_iter' (AddPurge global_ms t merge_context)
        end
  end.

(** [CHECK(Put(key, value))] for every collected record. *)
Fixpoint put_all (records : list (bytes * Z)) (p : PurgeSet) : option PurgeSet :=
  match records with
  | [] => Some p
  | (key, value) :: records' =>
      '(ok, p) ← Put key value p;
      if (ok : bool) then put_all records' p else None
  end.

Definition Merge (src p : PurgeSet) : option PurgeSet :=
  let p := set_global (Z.max (global p) (global src)) p in
  let merge_context :=
    merge_records (global p) (oldest_to_youngest src) (oldest_to_youngest p) [] in
  let p := ClearStats (LruCache.Clear p) in
  let p := set_last (global p) p in
  put_all merge_context p.

(** The copy constructor and [operator=]. *)
Definition copy_PurgeSet (src : PurgeSet) : option PurgeSet :=
  Merge src (new_PurgeSet (max_bytes_in_cache_ src)).

Definition assign (src p : PurgeSet) : option PurgeSet :=
  Merge src (set_max_size (max_bytes_in_cache_ src) (Clear p)).

(** [Swap] exchanges the LRUs and the global timestamps, not the last
    invalidation timestamps. The helpers swap their pointers to the sets, but the LRUs
    keep their pointers to the helpers: PurgeSetSwap models these. *)
Definition Swap (p that : PurgeSet) : PurgeSet * PurgeSet :=
  (set_last (last_invalidation p) that, set_last (last_invalidation that) p).

Fixpoint same_records (this_iter that_iter : list (bytes * Z)) : bool :=
  match this_iter, that_iter with
  | [], _ => true
  | _ :: _, [] => false
  | (k, v) :: this_iter', (k', v') :: that_iter' =>
      if negb (v' =? v) || negb (bool_decide (k' = k)) then false
      else same_records this_iter' that_iter'
  end.

Definition Equals (p that : PurgeSet) : bool :=
  if negb (global p =? global that) then false
  else if negb (num_elements p =? num_elements that) then false
  else same_records (oldest_to_youngest p) (oldest_to_youngest that).

Definition empty (p : PurgeSet) : bool :=
  (global p =? kInitialTimestampMs) && (num_elements p =? 0).

(** ** Specification

    What is purged: the entries of [key] stored at or before its horizon. *)

Definition horizon (p : PurgeSet) (key : bytes) : Z :=
  match find_key key (entries p) with
  | Some t => Z.max t (global p)
  | None => global p
  end.

(** [key] can be recorded at all: its record is smaller than the set. *)
Definition fits (key : bytes) (p : PurgeSet) : Prop :=
  Z.of_nat (length key) + 8 < max_bytes_in_cache_ p.

Record wf (p : PurgeSet) : Prop := {
  wf_lru : wf_but None p;
  (* the most recent records have the largest timestamps *)
  wf_sorted : StronglySorted (fun a b => b <= a) (entries p).*2;
  wf_values : forall kv, kv ∈ entries p -> 0 <= kv.2 <= last_invalidation p;
  wf_global : kInitialTimestampMs <= global p <= last_invalidation p;
  wf_last : kInitialTimestampMs <= last_invalidation p < int64_max;
  wf_fits : forall kv, kv ∈ entries p -> fits kv.1 p;
  wf_within : total (H:=Timestamps) (entries p) <= max_bytes_in_cache_ p;
  wf_dchecks : dchecks_held (value_helper_ p) = true
}.

(** Timestamps in the range where differences do not overflow. *)
Definition time_ok (t : Z) : Prop := kInitialTimestampMs <= t < int64_max.

(** No purge is forgotten between [p] and [p']. *)
Record keeps (p p' : PurgeSet) : Prop := {
  keeps_horizon : forall k, horizon p k <= horizon p' k;
  keeps_global : global p <= global p';
  keeps_max : max_bytes_in_cache_ p' = max_bytes_in_cache_ p
}.

#[export] Instance keeps_preorder : PreOrder keeps.
Proof.
  split.
  - intros p. by split.
  - intros p q r [H1 H2 H3] [H4 H5 H6]. split; [|lia|congruence].
    intros k. specialize (H1 k). specialize (H4 k). lia.
Qed.

Lemma keeps_fits p p' k : keeps p p' -> fits k p <-> fits k p'.
Proof. intros [_ _ H]. unfold fits. by rewrite H. Qed.

(** ** Lemmas *)

Lemma StronglySorted_sublist {A} (R : A -> A -> Prop) l1 l2 :
  l1 `sublist_of` l2 -> StronglySorted R l2 -> StronglySorted R l1.
Proof.
  intros Hs. induction Hs as [|x l1 l2 Hs IH|x l1 l2 Hs IH]; intros Hl; [done|..];
    apply StronglySorted_inv in Hl as [Hl Hx]; [|by apply IH].
  constructor; [by apply IH|]. rewrite Forall_forall in *. intros y Hy. apply Hx.
  by eapply elem_of_sublist.
Qed.

Lemma horizon_find p k t : find_key k (entries p) = Some t -> horizon p k = Z.max t (global p).
Proof. unfold horizon. by intros ->. Qed.

Lemma horizon_global p k : global p <= horizon p k.
Proof. unfold horizon. destruct (find_key _ _); lia. Qed.

Lemma horizon_entry p k t : wf_but None p -> (k, t) ∈ entries p -> t <= horizon p k.
Proof.
  intros Hp Hin. rewrite (horizon_find p k t); [lia|].
  apply find_key_Some; [apply (wf_keys _ _ Hp)|done].
Qed.

Lemma horizon_le p k z :
  global p <= z -> (forall t, (k, t) ∈ entries p -> t <= z) -> wf_but None p -> horizon p k <= z.
Proof.
  intros Hg Hz Hp. unfold horizon. destruct (find_key k (entries p)) as [t|] eqn:E; [|done].
  apply find_key_Some in E; [|apply (wf_keys _ _ Hp)]. apply Hz in E. lia.
Qed.

Lemma horizon_last p k : wf p -> horizon p k <= last_invalidation p.
Proof.
  intros Hp. apply horizon_le; [apply Hp| |apply Hp].
  intros t Ht. by apply (wf_values _ Hp (k, t)).
Qed.

(** Eviction raises the global timestamp to cover what is evicted, no more. *)
Lemma notify_spec (evicted : list (bytes * Z)) (h : Timestamps) :
  (forall kv, kv ∈ evicted -> kv.2 <= last_invalidation_timestamp_ms_ h) ->
  let h' := notify evicted h in
  last_invalidation_timestamp_ms_ h' = last_invalidation_timestamp_ms_ h /\
  dchecks_held h' = dchecks_held h /\
  global_invalidation_timestamp_ms_ h <= global_invalidation_timestamp_ms_ h' /\
  (forall kv, kv ∈ evicted -> kv.2 <= global_invalidation_timestamp_ms_ h') /\
  (global_invalidation_timestamp_ms_ h' = global_invalidation_timestamp_ms_ h \/
   exists kv, kv ∈ evicted /\ global_invalidation_timestamp_ms_ h' = kv.2).
Proof.
  induction evicted as [|kv l IH]; intros Hl; cbn zeta; cbn [notify foldr].
  { split; [done|]. split; [done|]. split; [lia|]. split; [by intros ? ?%elem_of_nil|by left]. }
  destruct IH as (H1 & H2 & H3 & H4 & H5); [intros; apply Hl; by right|].
  unfold notify in *. set (h1 := foldr _ h l) in *. cbn [EvictNotify InvalidationTimestampHelper helper_EvictNotify
    global_invalidation_timestamp_ms_ last_invalidation_timestamp_ms_ dchecks_held].
  specialize (Hl kv ltac:(left)) as Hkv.
  split; [done|]. split; [rewrite H1, (proj2 (Z.leb_le _ _) Hkv); by rewrite andb_true_r|].
  split; [lia|]. split.
  - intros kv' [->|Hin]%elem_of_cons; [lia|]. apply H4 in Hin. lia.
  - destruct (Z.max_spec kv.2 (global_invalidation_timestamp_ms_ h1)) as [[_ ->]|[_ ->]].
    + destruct H5 as [H5|(kv' & Hin & H5)]; [by left|]. right. exists kv'. split; [by right|done].
    + right. exists kv. split; [left|done].
Qed.

Lemma set_last_wf z p : wf p -> last_invalidation p <= z < int64_max -> wf (set_last z p).
Proof.
  intros [H1 H2 H3 H4 H5 H6 H8 H7] Hz. split; cbn; try done.
  - by destruct H1; constructor.
  - intros kv Hkv. unfold last_invalidation. cbn. apply H3 in Hkv. lia.
  - unfold last_invalidation, global in *. cbn. lia.
  - unfold last_invalidation, global in *. cbn. lia.
Qed.

Lemma set_last_keeps z p : keeps p (set_last z p).
Proof. by split. Qed.

Lemma set_global_wf z p : wf p -> global p <= z <= last_invalidation p -> wf (set_global z p).
Proof.
  intros [H1 H2 H3 H4 H5 H6 H8 H7] Hz. split; cbn; try done.
  - by destruct H1; constructor.
  - unfold last_invalidation, global in *. cbn. lia.
Qed.

Lemma set_global_keeps z p : global p <= z -> keeps p (set_global z p).
Proof.
  intros Hz. split; [|done|done]. intros k. unfold horizon.
  change (entries (set_global z p)) with (entries p). change (global (set_global z p)) with z.
  destruct (find_key k (entries p)); lia.
Qed.

(** The outcome of [SanitizeTimestamp]. *)
Lemma SanitizeTimestamp_ok t p :
  wf p -> time_ok t ->
  SanitizeTimestamp t p = Some
    (if last_invalidation p - t <=? kClockSkewAllowanceMs
     then (true, Z.max t (last_invalidation p), set_last (Z.max t (last_invalidation p)) p)
     else (false, t, p)).
Proof.
  intros Hp Ht. pose proof (wf_last _ Hp) as Hl. unfold time_ok, kInitialTimestampMs, int64_max in *.
  unfold SanitizeTimestamp, int64_min, int64_max.
  rewrite (proj2 (Z.leb_le _ _)), (proj2 (Z.leb_le _ _)) by lia. cbn [andb].
  destruct (Z.leb_spec (last_invalidation p - t) 0) as [H0|H0].
  - rewrite (proj2 (Z.leb_le _ _)) by (unfold kClockSkewAllowanceMs; lia). by rewrite Z.max_l by lia.
  - rewrite Z.max_r by lia. destruct (_ <=? _); [|done]. do 2 f_equal.
    unfold set_last, with_helper, last_invalidation, global. destruct p as [? ? ? ? ? [? ? ?] ?]. done.
Qed.

Lemma keep_sublist (B : Z) (l : list (bytes * Z)) : keep (H:=Timestamps) B l `sublist_of` l.
Proof. destruct (keep_prefix (H:=Timestamps) B l) as [r Hr]. rewrite Hr at 2. by apply sublist_inserts_r. Qed.

Lemma same_abs_keeps p p' :
  wf p -> wf_but None p' -> abs p' = abs p ->
  wf p' /\ keeps p p' /\ last_invalidation p' = last_invalidation p.
Proof.
  intros [H1 H2 H3 H4 H5 H6 H8 H7] Hp' Ha. injection Ha as Hm He Hh.
  unfold last_invalidation, global, fits in *.
  split; [|split; [|by rewrite Hh]].
  - split; unfold last_invalidation, global, fits; rewrite ?He, ?Hh, ?Hm; done.
  - split; [|unfold global; rewrite Hh; lia|done].
    intros k. unfold horizon, global. rewrite He, Hh. lia.
Qed.

(** Evicting to make room for a record of the latest timestamp. *)
Lemma spec_insert_keeps k t p p' :
  wf p -> wf_but None p' -> last_invalidation p = t -> global p < t ->
  abs p' = spec_insert k t (remove_key k (entries p)) (abs p) ->
  wf p' /\ keeps p p' /\ last_invalidation p' = last_invalidation p /\
  (fits k p -> t <= horizon p' k).
Proof.
  intros Hp Hp' Ht Hg Ha. pose proof (wf_global _ Hp) as Hwg. unfold kInitialTimestampMs in Hwg.
  set (l := remove_key k (entries p)) in *.
  assert (Hsub : l `sublist_of` entries p) by apply sublist_filter.
  assert (Hrest : forall kv, kv ∈ entries p -> kv ∈ l \/ kv.1 = k).
  { intros kv Hin. destruct (decide (kv.1 = k)); [by right|left]. by apply elem_of_remove_key. }
  assert (Hle : forall kv, kv ∈ l -> kv.2 <= last_invalidation p).
  { intros kv Hkv. apply (wf_values _ Hp). by eapply elem_of_sublist. }
  unfold spec_insert in Ha. cbn [spec_max abs] in Ha.
  change (entry_size (k, t)) with (Z.of_nat (length k) + 8) in Ha.
  destruct (Z.ltb_spec (Z.of_nat (length k) + 8) (max_bytes_in_cache_ p)) as [Hf|Hf].
  - set (kept := keep (max_bytes_in_cache_ p - (Z.of_nat (length k) + 8)) l) in *.
    injection Ha as Hm He Hh.
    assert (Hkept : kept `sublist_of` entries p)
      by (etrans; [apply keep_sublist|done]).
    destruct (notify_spec (drop (length kept) l) (value_helper_ p)) as (H1 & H2 & H3 & H4 & H5).
    { intros kv Hkv. apply Hle. by eapply elem_of_sublist, sublist_drop. }
    rewrite <- Hh in H1, H2, H3, H4, H5.
    change (last_invalidation p' = last_invalidation p) in H1. change (global p <= global p') in H3.
    change (forall kv, kv ∈ drop (length kept) l -> kv.2 <= global p') in H4.
    assert (Hh' : forall k' t', (k', t') ∈ entries p' -> t' <= horizon p' k')
      by (intros; by apply horizon_entry).
    split; [|split; [|split; [done|]]].
    + split; [done|..].
      * rewrite He. cbn. constructor.
        -- eapply StronglySorted_sublist; [|apply (wf_sorted _ Hp)]. by apply fmap_sublist.
        -- apply Forall_fmap, Forall_forall. intros kv Hkv. cbn. rewrite <- Ht. apply (wf_values _ Hp).
           by eapply elem_of_sublist.
      * rewrite He, H1. intros kv [->|Hkv]%elem_of_cons; [cbn; lia|]. apply (wf_values _ Hp).
        by eapply elem_of_sublist.
      * pose proof (wf_global _ Hp). rewrite H1. split; [lia|].
        change (global p' = global p \/ exists kv, kv ∈ drop (length kept) l /\ global p' = kv.2) in H5.
        destruct H5 as [->|(kv & Hkv & ->)]; [lia|]. apply Hle. by eapply elem_of_sublist, sublist_drop.
      * rewrite H1. apply Hp.
      * rewrite He. unfold fits in *. cbn in Hm. rewrite Hm. intros kv [->|Hkv]%elem_of_cons; [done|].
        apply (wf_fits _ Hp). by eapply elem_of_sublist.
      * rewrite He. cbn in Hm. rewrite Hm, total_cons. change (entry_size (k, t)) with (Z.of_nat (length k) + 8).
        pose proof (keep_total (H:=Timestamps) (max_bytes_in_cache_ p - (Z.of_nat (length k) + 8)) l) as Hkt.
        fold kept in Hkt. lia.
      * rewrite H2. apply Hp.
    + split; [|done|done]. intros k'. apply horizon_le; [pose proof (horizon_global p' k'); lia| |apply Hp].
      intros t' Hin. destruct (Hrest _ Hin) as [Hl|Hk]; cycle 1.
      { cbn in Hk. subst k'. etrans; [apply (wf_values _ Hp _ Hin)|]. rewrite Ht. apply Hh'. rewrite He. left. }
      rewrite <- (take_drop (length kept) l) in Hl. apply elem_of_app in Hl as [Hl|Hl].
      * apply Hh'. rewrite He. right. unfold kept in *. by rewrite <- keep_take in Hl.
      * apply H4 in Hl. pose proof (horizon_global p' k'). cbn in Hl. lia.
    + intros _. apply Hh'. rewrite He. left.
  - assert (Hk : k ∉ (entries p).*1).
    { intros ([k' t'] & -> & Hin)%list_elem_of_fmap. apply (wf_fits _ Hp) in Hin.
      unfold fits in Hin. cbn in *. lia. }
    unfold l in Ha. rewrite remove_key_notin in Ha by done.
    destruct (same_abs_keeps p p' Hp Hp' Ha) as (H1 & H2 & H3). split; [done|]. split; [done|].
    split; [done|]. unfold fits. lia.
Qed.

(** A key that can be a [std::string]. *)
Definition key_ok (key : bytes) : Prop := Z.of_nat (length key) < 2 ^ 63.

Lemma lru_Put_ok key t p :
  wf p -> last_invalidation p = t -> global p < t -> key_ok key ->
  exists p', LruCache.Put key t p = Some p' /\ wf p' /\ keeps p p' /\
    last_invalidation p' = last_invalidation p /\ (fits key p -> t <= horizon p' key).
Proof.
  intros Hp Ht Hg Hk.
  destruct (Put_ok key t p (wf_lru _ Hp)) as (p' & Hput & Hp' & Ha).
  { change (entry_size (key, t)) with (Z.of_nat (length key) + 8). unfold key_ok in Hk. lia. }
  exists p'. split; [done|]. unfold spec_put in Ha. cbn [spec_entries abs] in Ha.
  destruct (find_key key (entries p)) as [old|] eqn:E.
  - assert (Hin : (key, old) ∈ entries p) by (apply find_key_Some; [apply (wf_lru _ Hp)|done]).
    pose proof (wf_values _ Hp _ Hin) as Hold. cbn in Hold.
    cbn [ShouldReplace Equal InvalidationTimestampHelper] in Ha. unfold helper_ShouldReplace in Ha.
    destruct (Z.ltb_spec old t); cbn [negb] in Ha.
    + rewrite (proj2 (Z.eqb_neq t old)) in Ha by lia. by apply (spec_insert_keeps key t p p').
    + destruct (same_abs_keeps p p' Hp Hp' Ha) as (H1 & H2 & H3).
      split; [done|]. split; [done|]. split; [done|]. intros _.
      pose proof (horizon_entry p key old (wf_lru _ Hp) Hin). pose proof (keeps_horizon _ _ H2 key). lia.
  - apply find_key_None in E. rewrite <- (remove_key_notin key (entries p) E) in Ha.
    by apply (spec_insert_keeps key t p p').
Qed.

(** Whether a request at [t] is accepted. *)
Definition accepted (t : Z) (p : PurgeSet) : Prop := last_invalidation p - t <= kClockSkewAllowanceMs.

#[export] Instance accepted_dec t p : Decision (accepted t p) :=
  Z_le_dec (last_invalidation p - t) kClockSkewAllowanceMs.

Lemma Put_keeps key t p :
  wf p -> time_ok t -> key_ok key ->
  exists p', Put key t p = Some (true, p') /\ wf p' /\ keeps p p' /\
    (accepted t p -> last_invalidation p' = Z.max t (last_invalidation p)) /\
    (accepted t p -> fits key p -> Z.max t (last_invalidation p) <= horizon p' key) /\
    (~ accepted t p -> p' = p).
Proof.
  intros Hp Ht Hk. unfold Put. rewrite SanitizeTimestamp_ok by done. unfold accepted.
  destruct (Z.leb_spec (last_invalidation p - t) kClockSkewAllowanceMs) as [Hle|Hgt]; cbn [mbind option_bind negb].
  2:{ exists p. split; [done|]. split; [done|]. split; [done|]. split; [lia|]. split; [lia|done]. }
  set (t' := Z.max t (last_invalidation p)). pose proof (wf_last _ Hp) as Hlast. unfold time_ok in Ht.
  assert (Hp1 : wf (set_last t' p)) by (apply set_last_wf; [done|lia]).
  pose proof (set_last_keeps t' p) as Hk1.
  change (global (set_last t' p)) with (global p). destruct (Z.ltb_spec (global p) t') as [Hg|Hg].
  - destruct (lru_Put_ok key t' (set_last t' p) Hp1 eq_refl Hg Hk) as (p' & -> & Hp' & Hk' & Hl' & Hh').
    cbn [mbind option_bind]. exists p'. split; [done|]. split; [done|]. split; [by etrans|].
    split; [done|]. split; [|lia]. intros _ Hf. exact (Hh' Hf).
  - exists (set_last t' p). split; [done|]. split; [done|]. split; [done|]. split; [done|].
    split; [|lia]. intros _ _. pose proof (horizon_global p key) as Hh.
    change (horizon (set_last t' p) key) with (horizon p key). lia.
Qed.

Lemma UpdateGlobal_keeps t p :
  wf p -> time_ok t ->
  exists p', UpdateGlobalInvalidationTimestampMs t p = Some (bool_decide (accepted t p), p') /\
    wf p' /\ keeps p p' /\ (accepted t p -> forall k, t <= horizon p' k) /\ (~ accepted t p -> p' = p).
Proof.
  intros Hp Ht. unfold UpdateGlobalInvalidationTimestampMs. rewrite SanitizeTimestamp_ok by done.
  unfold accepted. rewrite bool_decide_decide.
  destruct (Z.leb_spec (last_invalidation p - t) kClockSkewAllowanceMs) as [Hle|Hgt]; cbn [mbind option_bind].
  2:{ rewrite decide_False by lia. exists p. split; [done|]. split; [done|]. split; [done|]. split; [lia|done]. }
  rewrite decide_True by done.
  set (t' := Z.max t (last_invalidation p)). pose proof (wf_last _ Hp) as Hlast. unfold time_ok in Ht.
  assert (Hp1 : wf (set_last t' p)) by (apply set_last_wf; [done|lia]).
  change (global (set_last t' p)) with (global p). set (g := Z.max t' (global p)).
  pose proof (wf_global _ Hp) as Hg. eexists. split; [done|].
  split; [apply set_global_wf; [done|]; change (global (set_last t' p)) with (global p);
          change (last_invalidation (set_last t' p)) with t'; lia|].
  split; [etrans; [apply (set_last_keeps t')|apply set_global_keeps]; change (global (set_last t' p)) with (global p); lia|].
  split; [|lia]. intros _ k. pose proof (horizon_global (set_global g (set_last t' p)) k) as Hh.
  change (global (set_global g (set_last t' p))) with g in Hh. lia.
Qed.

Lemma IsValid_ok key t p :
  wf p -> exists p', IsValid key t p = Some (bool_decide (horizon p key < t), p') /\
    wf p' /\ (forall k, horizon p' k = horizon p k) /\ keeps p p'.
Proof.
  intros Hp. unfold IsValid. destruct (Z.leb_spec t (global p)) as [Hle|Hgt].
  - exists p. pose proof (horizon_global p key). rewrite bool_decide_eq_false_2 by lia. done.
  - destruct (GetNoFreshen_ok key p (wf_lru _ Hp)) as (p' & -> & Hp' & Ha). cbn [mbind option_bind].
    destruct (same_abs_keeps p p' Hp Hp' Ha) as (H1 & H2 & H3). injection Ha as Hm He Hh.
    exists p'. split; [|split; [done|split; [|done]]].
    + do 2 f_equal. unfold horizon. destruct (find_key key (entries p)) as [v|].
      * apply eq_true_iff_eq. rewrite bool_decide_eq_true, Z.ltb_lt. lia.
      * symmetry. by apply bool_decide_eq_true_2.
    + intros k. unfold horizon, global. by rewrite He, Hh.
Qed.

Lemma new_PurgeSet_wf max : 0 <= max <= 2 ^ 63 -> wf (new_PurgeSet max).
Proof.
  intros Hm. split; cbn; try done; try (by intros ? ?%elem_of_nil).
  - by apply new_cache_wf.
  - by constructor.
  - lia.
Qed.

(** *** The merge *)

Definition older (a b : bytes * Z) : Prop := a.2 <= b.2.

(** The records in the order of the merge, before the filter. *)
Definition strictly_older (s t : bytes * Z) : Prop := s.2 < t.2.
#[export] Instance strictly_older_dec : RelDecision strictly_older :=
  fun s t => Z_lt_dec s.2 t.2.
Abbreviation merged := (list_merge strictly_older).

Lemma AddPurge_app g r ctx :
  AddPurge g r ctx = ctx ++ filter (fun r : bytes * Z => g < r.2) [r].
Proof.
  unfold AddPurge. rewrite filter_cons, filter_nil.
  destruct (Z.ltb_spec g r.2); [by rewrite decide_True by done|].
  rewrite decide_False by lia. by rewrite app_nil_r.
Qed.

Lemma AddPurge_fold g l : forall ctx,
  fold_left (fun ctx r => AddPurge g r ctx) l ctx = ctx ++ filter (fun r : bytes * Z => g < r.2) l.
Proof.
  induction l as [|r l IH]; intros ctx; cbn [fold_left]; [by rewrite app_nil_r|].
  rewrite IH, AddPurge_app, <- app_assoc. f_equal. by rewrite <- filter_app.
Qed.

Lemma merge_records_filter g s : forall t ctx,
  merge_records g s t ctx = ctx ++ filter (fun r : bytes * Z => g < r.2) (merged s t).
Proof.
  induction s as [|x s IHs]; [intros [|y t] ctx; apply AddPurge_fold|].
  induction t as [|y t IHt]; intros ctx; [apply AddPurge_fold|].
  cbn [merge_records list_merge]. destruct (Z.ltb_spec x.2 y.2) as [Hlt|Hge].
  - rewrite decide_True by done. rewrite IHs, AddPurge_app, <- app_assoc. f_equal. by rewrite <- filter_app.
  - rewrite decide_False by (unfold strictly_older; lia). fold (merge_records g (x :: s) t). rewrite IHt.
    rewrite AddPurge_app, <- app_assoc. f_equal. by rewrite <- filter_app.
Qed.

Lemma merged_sorted s : forall t,
  StronglySorted older s -> StronglySorted older t -> StronglySorted older (merged s t).
Proof.
  induction s as [|x s IHs]; [intros [|y t]; done|].
  induction t as [|y t IHt]; intros Hs Ht; [done|]. cbn [list_merge].
  apply StronglySorted_inv in Hs as Hs'. destruct Hs' as [Hs1 Hs2].
  apply StronglySorted_inv in Ht as Ht'. destruct Ht' as [Ht1 Ht2].
  rewrite Forall_forall in Hs2, Ht2. unfold older, strictly_older in *. case_decide as Hd.
  - constructor; [by apply IHs|]. apply Forall_forall. intros z.
    rewrite merge_Permutation, elem_of_app, elem_of_cons.
    intros [Hz|[->|Hz]]; [by apply Hs2|lia|apply Ht2 in Hz; lia].
  - constructor; [by apply IHt|]. apply Forall_forall. intros z.
    change (z ∈ merged (x :: s) t -> y.2 <= z.2).
    rewrite merge_Permutation, elem_of_app, elem_of_cons.
    intros [[->|Hz]|Hz]; [lia|apply Hs2 in Hz; lia|by apply Ht2].
Qed.

Lemma StronglySorted_reverse {A} (R : A -> A -> Prop) (l : list A) :
  StronglySorted R l -> StronglySorted (flip R) (reverse l).
Proof.
  induction l as [|x l IH]; [constructor|]. intros [Hl Hx]%StronglySorted_inv. rewrite reverse_cons.
  apply StronglySorted_app_2; [|by apply IH|by repeat constructor].
  intros a b Ha ->%list_elem_of_singleton. rewrite elem_of_reverse in Ha. rewrite Forall_forall in Hx. by apply Hx.
Qed.

Lemma oldest_to_youngest_sorted p : wf p -> StronglySorted older (oldest_to_youngest p).
Proof.
  intros Hp. apply (StronglySorted_reverse (fun a b => older b a)).
  pose proof (wf_sorted _ Hp) as Hs. fold (entries p). induction (entries p) as [|x l IH]; [constructor|].
  cbn in Hs. apply StronglySorted_inv in Hs as [Hl Hx]. constructor; [by apply IH|].
  by rewrite Forall_fmap in Hx.
Qed.

Lemma elem_of_oldest_to_youngest (p : PurgeSet) kv : kv ∈ oldest_to_youngest p <-> kv ∈ entries p.
Proof. apply elem_of_reverse. Qed.

Lemma put_all_keeps records : forall p,
  wf p -> StronglySorted older records ->
  (forall kv, kv ∈ records -> last_invalidation p <= kv.2 /\ time_ok kv.2 /\ key_ok kv.1) ->
  exists p', put_all records p = Some p' /\ wf p' /\ keeps p p' /\
    (forall k v, (k, v) ∈ records -> fits k p -> v <= horizon p' k).
Proof.
  induction records as [|[k v] records IH]; intros p Hp Hs Hr; cbn [put_all].
  { exists p. split; [done|]. split; [done|]. split; [done|]. by intros k v ?%elem_of_nil. }
  apply StronglySorted_inv in Hs as [Hs Hx]. rewrite Forall_forall in Hx.
  destruct (Hr (k, v) ltac:(left)) as (Hl & Ht & Hk). cbn in Hl, Ht, Hk.
  destruct (Put_keeps k v p Hp Ht Hk) as (p1 & -> & Hp1 & Hk1 & Hlast & Hh & _). cbn [mbind option_bind].
  assert (Hacc : accepted v p) by (unfold accepted, kClockSkewAllowanceMs; lia).
  specialize (Hlast Hacc). specialize (Hh Hacc). rewrite Z.max_l in Hlast by done.
  destruct (IH p1 Hp1 Hs) as (p' & -> & Hp' & Hk' & Hr').
  { intros kv Hkv. destruct (Hr kv ltac:(by right)) as (_ & ? & ?). rewrite Hlast.
    by specialize (Hx kv Hkv). }
  exists p'. split; [done|]. split; [done|]. split; [by etrans|].
  intros k' v' [[= -> ->]|Hin]%elem_of_cons Hf.
  - specialize (Hh Hf). pose proof (keeps_horizon _ _ Hk' k). lia.
  - apply Hr'; [done|]. by apply (keeps_fits p p1 k').
Qed.

(** The state [Merge] puts the records into. *)
Definition merge_base (src p : PurgeSet) : PurgeSet :=
  set_last (Z.max (global p) (global src))
    (ClearStats (LruCache.Clear (set_global (Z.max (global p) (global src)) p))).

Definition records_to_merge (src p : PurgeSet) : list (bytes * Z) :=
  filter (fun r : bytes * Z => Z.max (global p) (global src) < r.2)
    (merged (oldest_to_youngest src) (oldest_to_youngest p)).

Lemma Merge_put_all src p : Merge src p = put_all (records_to_merge src p) (merge_base src p).
Proof. unfold Merge. by rewrite merge_records_filter. Qed.

Lemma merge_base_wf src p : wf src -> wf p -> wf (merge_base src p).
Proof.
  intros Hs Hp. pose proof (wf_global _ Hs). pose proof (wf_global _ Hp).
  pose proof (wf_last _ Hs). pose proof (wf_last _ Hp).
  split; try (by intros ? ?%elem_of_nil); try (by constructor).
  - pose proof (proj1 (Clear_ok (set_global (Z.max (global p) (global src)) p)
      ltac:(by destruct (wf_lru _ Hp); constructor))) as [].
    by constructor.
  - unfold merge_base, last_invalidation, global, set_last in *. cbn. lia.
  - unfold merge_base, last_invalidation, global, set_last in *. cbn. lia.
  - apply (wf_max _ _ (wf_lru _ Hp)).
  - apply (wf_dchecks _ Hp).
Qed.

Lemma elem_of_records_to_merge src p kv :
  kv ∈ records_to_merge src p <->
  Z.max (global p) (global src) < kv.2 /\ (kv ∈ entries src \/ kv ∈ entries p).
Proof.
  unfold records_to_merge. rewrite list_elem_of_filter, merge_Permutation, elem_of_app.
  by rewrite !elem_of_oldest_to_youngest.
Qed.

Lemma StronglySorted_filter {A} (R : A -> A -> Prop) (P : A -> Prop) `{!forall x, Decision (P x)} (l : list A) :
  StronglySorted R l -> StronglySorted R (filter P l).
Proof. apply StronglySorted_sublist, sublist_filter. Qed.

Lemma records_to_merge_sorted src p : wf src -> wf p -> StronglySorted older (records_to_merge src p).
Proof.
  intros Hs Hp. apply StronglySorted_filter, merged_sorted; by apply oldest_to_youngest_sorted.
Qed.

Lemma entry_time_ok p kv : wf p -> kv ∈ entries p -> kInitialTimestampMs <= kv.2 -> time_ok kv.2.
Proof.
  intros Hp Hin Hi. pose proof (wf_values _ Hp _ Hin). pose proof (wf_last _ Hp). unfold time_ok. lia.
Qed.

Lemma entry_key_ok p kv : wf p -> kv ∈ entries p -> key_ok kv.1.
Proof.
  intros Hp Hin. pose proof (wf_fits _ Hp _ Hin) as Hf. pose proof (wf_max _ _ (wf_lru _ Hp)).
  unfold fits, key_ok in *. lia.
Qed.

Lemma records_to_merge_ok src p kv :
  wf src -> wf p -> kv ∈ records_to_merge src p ->
  last_invalidation (merge_base src p) <= kv.2 /\ time_ok kv.2 /\ key_ok kv.1.
Proof.
  intros Hs Hp [Hg Hin]%elem_of_records_to_merge.
  pose proof (wf_global _ Hs). pose proof (wf_global _ Hp).
  split; [change (last_invalidation (merge_base src p)) with (Z.max (global p) (global src)); lia|].
  destruct Hin as [Hin|Hin].
  - split; [apply (entry_time_ok src); [done|done|lia]|by apply (entry_key_ok src)].
  - split; [apply (entry_time_ok p); [done|done|lia]|by apply (entry_key_ok p)].
Qed.

Lemma Merge_keeps src p :
  wf src -> wf p ->
  exists p', Merge src p = Some p' /\ wf p' /\ max_bytes_in_cache_ p' = max_bytes_in_cache_ p /\
    Z.max (global p) (global src) <= global p' /\
    (forall k, horizon p k <= horizon p' k) /\
    (forall k, fits k p -> horizon src k <= horizon p' k).
Proof.
  intros Hs Hp. rewrite Merge_put_all.
  destruct (put_all_keeps (records_to_merge src p) (merge_base src p)) as (p' & -> & Hp' & [Hkh Hkg Hkm] & Hr).
  - by apply merge_base_wf.
  - by apply records_to_merge_sorted.
  - intros kv. by apply records_to_merge_ok.
  - change (global (merge_base src p)) with (Z.max (global p) (global src)) in Hkg.
    assert (Hle : forall q k, (q = src \/ q = p) -> (wf q) -> fits k p -> horizon q k <= horizon p' k).
    { intros q k Hq Hwq Hf. apply horizon_le; [|intros t Ht|apply Hwq].
      - pose proof (horizon_global p' k). destruct Hq as [->| ->]; lia.
      - destruct (Z.lt_ge_cases (Z.max (global p) (global src)) t) as [Hlt|Hge].
        + apply Hr; [|done]. apply elem_of_records_to_merge. split; [done|]. destruct Hq as [->| ->]; tauto.
        + pose proof (horizon_global p' k). lia. }
    exists p'. split; [done|]. split; [done|]. split; [done|]. split; [done|]. split.
    + intros k. unfold horizon at 1. destruct (find_key k (entries p)) as [t|] eqn:E.
      * rewrite <- (horizon_find p k t) by done. apply Hle; [by right|done|].
        apply find_key_Some in E; [|apply (wf_lru _ Hp)]. by apply (wf_fits _ Hp _ E).
      * pose proof (horizon_global p' k). lia.
    + intros k Hf. apply Hle; [by left|done|done].
Qed.

(** *** Nothing else is purged while nothing is evicted *)

Abbreviation bytes_used p := (total (H:=Timestamps) (entries p)).
Definition record_size (key : bytes) : Z := Z.of_nat (length key) + 8.

(** [p'] is [p] with [key] purged at [t], and no other key touched. *)
Record purges_only (key : bytes) (t : Z) (p p' : PurgeSet) : Prop := {
  only_horizon : forall k z, horizon p k <= z -> (k = key -> t <= z) -> horizon p' k <= z;
  only_used : bytes_used p' <= bytes_used p + record_size key
}.

Lemma spec_insert_exact k t p p' :
  wf p -> wf_but None p' -> bytes_used p + record_size k <= max_bytes_in_cache_ p ->
  abs p' = spec_insert k t (remove_key k (entries p)) (abs p) -> purges_only k t p p'.
Proof.
  intros Hp Hp' Hroom Ha. set (l := remove_key k (entries p)) in *.
  assert (Hl : l `sublist_of` entries p) by apply sublist_filter.
  pose proof (total_sublist (H:=Timestamps) _ _ Hl) as Htot.
  unfold spec_insert in Ha. cbn [spec_max abs] in Ha.
  change (entry_size (k, t)) with (record_size k) in Ha.
  assert (Hsame : forall k' z, global p' = global p ->
    (forall kv, kv ∈ entries p' -> kv = (k, t) \/ kv ∈ l) ->
    horizon p k' <= z -> (k' = k -> t <= z) -> horizon p' k' <= z).
  { intros k' z Hg Hsub Hz Hk. apply horizon_le; [|intros t' Hin|done].
    - rewrite Hg. pose proof (horizon_global p k'). lia.
    - destruct (Hsub _ Hin) as [[= -> ->]|Hin']; [by apply Hk|].
      pose proof (horizon_entry p k' t' (wf_lru _ Hp) ltac:(by eapply elem_of_sublist)). lia. }
  destruct (_ <? _).
  - rewrite keep_all, drop_all in Ha by lia. injection Ha as Hm He Hh. split.
    + intros k' z. apply Hsame; [unfold global; by rewrite Hh|].
      rewrite He. intros kv [->|Hin]%elem_of_cons; [by left|by right].
    + rewrite He, total_cons. change (entry_size (k, t)) with (record_size k). lia.
  - injection Ha as Hm He Hh. split.
    + intros k' z. apply Hsame; [unfold global; by rewrite Hh|]. rewrite He. by right.
    + rewrite He. unfold record_size. lia.
Qed.

Lemma lru_Put_exact key t p p' :
  wf p -> last_invalidation p = t -> key_ok key ->
  bytes_used p + record_size key <= max_bytes_in_cache_ p ->
  LruCache.Put key t p = Some p' -> purges_only key t p p'.
Proof.
  intros Hp Ht Hk Hroom Hput.
  destruct (Put_ok key t p (wf_lru _ Hp)) as (p1 & Hput1 & Hp' & Ha).
  { change (entry_size (key, t)) with (Z.of_nat (length key) + 8). unfold key_ok in Hk. lia. }
  rewrite Hput in Hput1. injection Hput1 as <-. unfold spec_put in Ha. cbn [spec_entries abs] in Ha.
  destruct (find_key key (entries p)) as [old|] eqn:E.
  - assert (Hin : (key, old) ∈ entries p) by (apply find_key_Some; [apply (wf_lru _ Hp)|done]).
    cbn [ShouldReplace Equal InvalidationTimestampHelper] in Ha. unfold helper_ShouldReplace in Ha.
    destruct (Z.ltb_spec old t); cbn [negb] in Ha.
    + rewrite (proj2 (Z.eqb_neq t old)) in Ha by lia. by apply spec_insert_exact.
    + injection Ha as Hm He Hh. split; [|rewrite He; unfold record_size; lia].
      intros k z. unfold horizon, global. by rewrite He, Hh.
  - apply find_key_None in E. rewrite <- (remove_key_notin key (entries p) E) in Ha.
    by apply spec_insert_exact.
Qed.

Lemma Put_exact key t p p' :
  wf p -> time_ok t -> key_ok key -> accepted t p ->
  bytes_used p + record_size key <= max_bytes_in_cache_ p ->
  Put key t p = Some (true, p') -> purges_only key (Z.max t (last_invalidation p)) p p'.
Proof.
  intros Hp Ht Hk Hacc Hroom. unfold Put. rewrite SanitizeTimestamp_ok by done.
  unfold accepted in Hacc. rewrite (proj2 (Z.leb_le _ _) Hacc). cbn [mbind option_bind negb].
  set (t' := Z.max t (last_invalidation p)). pose proof (wf_last _ Hp) as Hlast. unfold time_ok in Ht.
  assert (Hp1 : wf (set_last t' p)) by (apply set_last_wf; [done|lia]).
  destruct (_ <? _).
  - destruct (LruCache.Put key t' (set_last t' p)) as [p1|] eqn:E; cbn [mbind option_bind]; [|done].
    intros [= <-]. apply lru_Put_exact in E as [H1 H2]; [|done|done|done|done]. by split.
  - intros [= <-]. split; [intros k z Hz _; exact Hz|].
    change (bytes_used (set_last t' p)) with (bytes_used p). unfold record_size. lia.
Qed.

Lemma put_all_exact records : forall p p',
  wf p -> StronglySorted older records ->
  (forall kv, kv ∈ records -> last_invalidation p <= kv.2 /\ time_ok kv.2 /\ key_ok kv.1) ->
  bytes_used p + total (H:=Timestamps) records <= max_bytes_in_cache_ p ->
  put_all records p = Some p' ->
  forall k z, horizon p k <= z -> (forall v, (k, v) ∈ records -> v <= z) -> horizon p' k <= z.
Proof.
  induction records as [|[k0 v0] records IH]; intros p p' Hp Hs Hr Hroom; cbn [put_all].
  { by intros [= <-] k z Hz _. }
  apply StronglySorted_inv in Hs as [Hs Hx]. rewrite Forall_forall in Hx.
  destruct (Hr (k0, v0) ltac:(left)) as (Hl & Ht & Hk). cbn in Hl, Ht, Hk.
  cbn [total] in Hroom. change (entry_size (k0, v0)) with (record_size k0) in Hroom.
  pose proof (total_nonneg (H:=Timestamps) records) as Hnn.
  destruct (Put_keeps k0 v0 p Hp Ht Hk) as (p1 & Hput & Hp1 & Hk1 & Hlast & _). rewrite Hput. cbn [mbind option_bind].
  assert (Hacc : accepted v0 p) by (unfold accepted, kClockSkewAllowanceMs; lia).
  specialize (Hlast Hacc). apply Put_exact in Hput as [Hh Hu]; [|done|done|done|done|lia].
  rewrite Z.max_l in Hlast, Hh by done.
  intros Hput k z Hz Hv. eapply (IH p1 p'); [done|done| | |done| |].
  - intros kv Hkv. destruct (Hr kv ltac:(by right)) as (_ & ? & ?). rewrite Hlast.
    by specialize (Hx kv Hkv).
  - rewrite (keeps_max _ _ Hk1). lia.
  - apply Hh; [done|]. intros ->. apply Hv. left.
  - intros v Hin. apply Hv. by right.
Qed.

Lemma total_Permutation (l1 l2 : list (bytes * Z)) :
  l1 ≡ₚ l2 -> total (H:=Timestamps) l1 = total (H:=Timestamps) l2.
Proof. induction 1; cbn [total]; lia. Qed.

Lemma records_to_merge_total src p :
  total (H:=Timestamps) (records_to_merge src p) <= bytes_used src + bytes_used p.
Proof.
  etrans; [apply total_sublist, sublist_filter|].
  rewrite (total_Permutation _ _ (merge_Permutation _ _ _)), total_app.
  rewrite (total_Permutation (oldest_to_youngest src) (entries src)),
    (total_Permutation (oldest_to_youngest p) (entries p)) by apply reverse_Permutation. lia.
Qed.

Lemma Merge_exact src p p' :
  wf src -> wf p -> bytes_used src + bytes_used p <= max_bytes_in_cache_ p ->
  Merge src p = Some p' ->
  forall k z, horizon p k <= z -> horizon src k <= z -> global src <= z -> horizon p' k <= z.
Proof.
  intros Hs Hp Hroom HM k z Hz1 Hz2 Hz3. rewrite Merge_put_all in HM.
  pose proof (records_to_merge_total src p).
  eapply (put_all_exact _ (merge_base src p)); [| | | |exact HM| |].
  - by apply merge_base_wf.
  - by apply records_to_merge_sorted.
  - intros kv. by apply records_to_merge_ok.
  - change (max_bytes_in_cache_ (merge_base src p)) with (max_bytes_in_cache_ p).
    change (bytes_used (merge_base src p)) with 0. lia.
  - change (horizon (merge_base src p) k) with (Z.max (global p) (global src)).
    pose proof (horizon_global p k). lia.
  - intros v [_ Hin]%elem_of_records_to_merge. destruct Hin as [Hin|Hin].
    + pose proof (horizon_entry src k v (wf_lru _ Hs) Hin). lia.
    + pose proof (horizon_entry p k v (wf_lru _ Hp) Hin). lia.
Qed.

(** ** Sequences of requests *)

Inductive purge_call :=
| CallPut (key : bytes) (timestamp_ms : Z)
| CallUpdateGlobal (timestamp_ms : Z)
| CallMerge (src : PurgeSet)
| CallIsValid (key : bytes) (timestamp_ms : Z).

Definition do_purge_call (o : purge_call) (p : PurgeSet) : option (bool * PurgeSet) :=
  match o with
  | CallPut k t => Put k t p
  | CallUpdateGlobal t => UpdateGlobalInvalidationTimestampMs t p
  | CallMerge src => p ← Merge src p; Some (true, p)
  | CallIsValid k t => IsValid k t p
  end.

Fixpoint do_purge_calls (os : list purge_call) (p : PurgeSet) : option (list bool * PurgeSet) :=
  match os with
  | [] => Some ([], p)
  | o :: os' => '(b, p) ← do_purge_call o p; '(bs, p) ← do_purge_calls os' p; Some (b :: bs, p)
  end.

Definition purge_call_ok (o : purge_call) : Prop :=
  match o with
  | CallPut k t => key_ok k /\ time_ok t
  | CallUpdateGlobal t => time_ok t
  | CallMerge src => wf src
  | CallIsValid _ _ => True
  end.

Lemma do_purge_calls_keep os : forall p,
  wf p -> Forall purge_call_ok os ->
  exists bs p', do_purge_calls os p = Some (bs, p') /\ wf p' /\ keeps p p'.
Proof.
  induction os as [|o os IH]; intros p Hp Hos; cbn [do_purge_calls].
  { by exists [], p. }
  apply Forall_cons in Hos as [Ho Hos].
  assert (exists b p1, do_purge_call o p = Some (b, p1) /\ wf p1 /\ keeps p p1) as (b & p1 & -> & Hp1 & Hk1).
  { destruct o as [k t|t|src|k t]; cbn [do_purge_call purge_call_ok] in *.
    - destruct (Put_keeps k t p Hp) as (p1 & -> & H1 & H2 & _); [tauto..|]. eauto.
    - destruct (UpdateGlobal_keeps t p Hp Ho) as (p1 & -> & H1 & H2 & _). eauto.
    - destruct (Merge_keeps src p Ho Hp) as (p1 & -> & H1 & H2 & H3 & H4 & _). cbn [mbind option_bind].
      exists true, p1. split; [done|]. split; [done|]. split; [done|lia|done].
    - destruct (IsValid_ok k t p Hp) as (p1 & -> & H1 & _ & H2). eauto. }
  destruct (IH p1 Hp1 Hos) as (bs & p' & Hd & Hp' & Hk'). cbn [mbind option_bind]. rewrite Hd.
  cbn [mbind option_bind]. exists (b :: bs), p'. split; [done|]. split; [done|by etrans].
Qed.

(** ** Properties *)

(** C18: A purge is permanent. After [Put] records a purge (the key fits into the set,
    and the timestamp is at most ten minutes before the last one), whatever further purges,
    global flushes, merges and queries follow and whatever gets evicted by them, [IsValid]
    rejects every entry of that key stored at or before the purge; no call fails a [CHECK],
    and the [DCHECK] of every eviction holds. A purge that is not recorded is answered
    [true] just the same ([backward_requests_ignored]). *)
Theorem purge_is_permanent (p : PurgeSet) (key : bytes) (t : Z) (os : list purge_call) :
  wf p -> key_ok key -> time_ok t -> accepted t p -> fits key p -> Forall purge_call_ok os ->
  exists p1 bs p2, Put key t p = Some (true, p1) /\ do_purge_calls os p1 = Some (bs, p2) /\
    dchecks_held (value_helper_ p2) = true /\
    forall t', t' <= t -> exists p3, IsValid key t' p2 = Some (false, p3).
Proof.
  intros Hp Hk Ht Hacc Hf Hos.
  destruct (Put_keeps key t p Hp Ht Hk) as (p1 & Hput & Hp1 & _ & _ & Hh & _).
  destruct (do_purge_calls_keep os p1 Hp1 Hos) as (bs & p2 & Hd & Hp2 & Hk2).
  exists p1, bs, p2. split; [done|]. split; [done|]. split; [apply Hp2|]. intros t' Ht'.
  destruct (IsValid_ok key t' p2 Hp2) as (p3 & Hv & _). exists p3. rewrite Hv.
  pose proof (keeps_horizon _ _ Hk2 key). specialize (Hh Hacc Hf).
  by rewrite bool_decide_eq_false_2 by lia.
Qed.

(** [Put] of an acceptable purge that needs no eviction purges the key up
    to the sanitised timestamp and changes the answer for no other key. *)
Lemma Put_purges_exactly (p : PurgeSet) (key : bytes) (t : Z) :
  wf p -> key_ok key -> time_ok t -> accepted t p -> fits key p ->
  bytes_used p + record_size key <= max_bytes_in_cache_ p ->
  exists p', Put key t p = Some (true, p') /\ wf p' /\
    forall k, horizon p' k =
      if decide (k = key) then Z.max (horizon p k) (Z.max t (last_invalidation p)) else horizon p k.
Proof.
  intros Hp Hk Ht Hacc Hf Hroom.
  destruct (Put_keeps key t p Hp Ht Hk) as (p' & Hput & Hp' & [Hkeep _ _] & _ & Hh & _).
  destruct (Put_exact key t p p' Hp Ht Hk Hacc Hroom Hput) as [Honly _].
  exists p'. split; [done|]. split; [done|]. intros k. specialize (Hkeep k). case_decide as Hd.
  - subst k. apply Z.le_antisymm; [apply Honly; [lia|intros _; lia]|].
    specialize (Hh Hacc Hf). lia.
  - apply Z.le_antisymm; [|done]. by apply Honly; [lia|].
Qed.

(** [Merge] loses no purge of either set: every horizon afterwards is at
    least that of both, for all keys that fit; and if the records of both fit
    together, it is exactly their maximum. [CHECK(Put(...))] never fails. *)
Lemma Merge_is_union (src p : PurgeSet) :
  wf src -> wf p ->
  exists p', Merge src p = Some p' /\ wf p' /\
    (forall k, fits k p -> Z.max (horizon p k) (horizon src k) <= horizon p' k) /\
    (bytes_used src + bytes_used p <= max_bytes_in_cache_ p ->
     forall k, fits k p -> horizon p' k = Z.max (horizon p k) (horizon src k)).
Proof.
  intros Hs Hp. destruct (Merge_keeps src p Hs Hp) as (p' & HM & Hp' & _ & _ & H1 & H2).
  exists p'. split; [done|]. split; [done|].
  assert (Hlow : forall k, fits k p -> Z.max (horizon p k) (horizon src k) <= horizon p' k).
  { intros k Hf. specialize (H1 k). specialize (H2 k Hf). lia. }
  split; [done|]. intros Hroom k Hf. specialize (Hlow k Hf).
  pose proof (horizon_global src k).
  pose proof (Merge_exact src p p' Hs Hp Hroom HM k (Z.max (horizon p k) (horizon src k))). lia.
Qed.

(** From a new set, every sequence of requests keeps the invariant: the
    records are in timestamp order, no timestamp exceeds the last accepted one
    and the [DCHECK] of [EvictNotify] holds at every eviction; no key is
    purged further than the last accepted timestamp. *)
Lemma PurgeSet_invariant (max_size : Z) (os : list purge_call) :
  0 <= max_size <= 2 ^ 63 -> Forall purge_call_ok os ->
  exists bs p, do_purge_calls os (new_PurgeSet max_size) = Some (bs, p) /\
    StronglySorted older (oldest_to_youngest p) /\ dchecks_held (value_helper_ p) = true /\
    forall key t, last_invalidation p < t -> exists p', IsValid key t p = Some (true, p').
Proof.
  intros Hm Hos.
  destruct (do_purge_calls_keep os _ (new_PurgeSet_wf _ Hm) Hos) as (bs & p & Hd & Hp & _).
  exists bs, p. split; [done|]. split; [by apply oldest_to_youngest_sorted|]. split; [apply Hp|].
  intros key t Ht. destruct (IsValid_ok key t p Hp) as (p' & Hv & _). exists p'. rewrite Hv.
  pose proof (horizon_last p key Hp). by rewrite bool_decide_eq_true_2 by lia.
Qed.

(** A request that lies more than the clock-skew allowance in the past is
    ignored by both entry points, but only
    [UpdateGlobalInvalidationTimestampMs] tells: [Put] answers [true]. *)
Lemma backward_requests_ignored (p : PurgeSet) (key : bytes) (t : Z) :
  wf p -> key_ok key -> time_ok t -> ~ accepted t p ->
  Put key t p = Some (true, p) /\ UpdateGlobalInvalidationTimestampMs t p = Some (false, p).
Proof.
  intros Hp Hk Ht Hna. split.
  - destruct (Put_keeps key t p Hp Ht Hk) as (p' & -> & _ & _ & _ & _ & Hsame). by rewrite Hsame.
  - destruct (UpdateGlobal_keeps t p Hp Ht) as (p' & -> & _ & _ & _ & Hsame).
    rewrite bool_decide_eq_false_2 by done. by rewrite Hsame.
Qed.

(** *** Witnesses *)

Definition example_set : PurgeSet := new_PurgeSet 20.

Lemma purge_is_permanent_witness :
  exists p1 bs p2, Put (lit "http://a") 1000 example_set = Some (true, p1) /\
    do_purge_calls [CallPut (lit "b") 2000; CallPut (lit "cccccc") 1500; CallMerge (new_PurgeSet 5);
      CallUpdateGlobal 10] p1 = Some (bs, p2) /\
    dchecks_held (value_helper_ p2) = true /\
    forall t', t' <= 1000 -> exists p3, IsValid (lit "http://a") t' p2 = Some (false, p3).
Proof.
  apply (purge_is_permanent example_set (lit "http://a") 1000).
  - apply new_PurgeSet_wf. lia.
  - by vm_compute.
  - done.
  - by vm_compute.
  - by vm_compute.
  - repeat (apply Forall_cons; split); [by vm_compute..|apply new_PurgeSet_wf; lia|done|constructor].
Defined.


