(* ===== verification/PurgeSetSwap.v ===== *)
(** * PurgeSet::Swap and object lifetimes

    PurgeSet.v identifies the helper of an LRU with the fields of the
    [PurgeSet] that owns it. In src/pagespeed/kernel/cache/purge_set.{h,cc}
    there are two pointers on the way: the LRU keeps the address of the
    [helper_] member of the object it was constructed in, and that member keeps
    the address of a [PurgeSet]. Here the objects live in a store, an address
    whose object was destroyed is dangling, and following it is [None]. *)

From S2P Require Import Prelude LruCache PurgeSet.

Abbreviation addr := nat.

(** A [PurgeSet] object without its LRU: the fields, and the [purge_set_]
    pointer of its [helper_] member. *)
Record PurgeSetObject := mkObject {
  helper_purge_set_ : addr;
  fields : Timestamps
}.
Abbreviation Store := (gmap addr PurgeSetObject).

(** [EvictNotify] through the [value_helper_] pointer: [None] once an address
    was dangling. *)
Definition notify_through (h : addr) (evicted_ms : Z) (st : Store) : option Store :=
  helper ← st !! h;
  target ← st !! helper_purge_set_ helper;
  Some (<[helper_purge_set_ helper :=
            mkObject (helper_purge_set_ target) (helper_EvictNotify evicted_ms (fields target))]> st).

Definition pointer_EvictNotify (evicted_ms : Z) (x : addr * option Store) : addr * option Store :=
  (x.1, st ← x.2; notify_through x.1 evicted_ms st).

#[export] Instance PointerHelper : ValueHelper Z (addr * option Store) := {
  value_size := helper_size;
  Equal a b := a =? b;
  EvictNotify := pointer_EvictNotify;
  ShouldReplace := helper_ShouldReplace;
  value_size_nonneg := helper_size_nonneg
}.

Abbreviation Lru := (LRUCacheBase Z (addr * option Store)).

(** All live objects, and the LRU each of them owns through [lru_]. The
    helper state of an LRU at rest is its [value_helper_] address alone. *)
Record Heap := mkHeap {
  objects : Store;
  lrus : gmap addr Lru
}.

(** The constructor and the destructor. *)
Definition construct (a : addr) (max_size : Z) (hp : Heap) : Heap :=
  mkHeap (<[a := mkObject a (mkTimestamps kInitialTimestampMs 0 true)]> (objects hp))
    (<[a := new_cache max_size (a, None)]> (lrus hp)).
Definition destroy (a : addr) (hp : Heap) : Heap :=
  mkHeap (delete a (objects hp)) (delete a (lrus hp)).

(** [a->Swap(b)]. *)
Definition swap (a b : addr) (hp : Heap) : option Heap :=
  oa ← objects hp !! a; ob ← objects hp !! b;
  la ← lrus hp !! a; lb ← lrus hp !! b;
  let with_global g t := mkTimestamps g (last_invalidation_timestamp_ms_ t) (dchecks_held t) in
  let oa' := mkObject (helper_purge_set_ ob)
    (with_global (global_invalidation_timestamp_ms_ (fields ob)) (fields oa)) in
  let ob' := mkObject (helper_purge_set_ oa)
    (with_global (global_invalidation_timestamp_ms_ (fields oa)) (fields ob)) in
  Some (mkHeap (<[a := oa']> (<[b := ob']> (objects hp))) (<[a := lb]> (<[b := la]> (lrus hp)))).

(** The LRU operation of [a->Put(key, timestamp)] after the timestamp was
    accepted. *)
Definition put (a : addr) (key : bytes) (timestamp_ms : Z) (hp : Heap) : option Heap :=
  lru ← lrus hp !! a;
  let h := (value_helper_ lru).1 in
  lru ← LruCache.Put key timestamp_ms (with_helper (h, Some (objects hp)) lru);
  st ← (value_helper_ lru).2;
  Some (mkHeap st (<[a := with_helper (h, None) lru]> (lrus hp))).

(** Every LRU notifies the object that owns it. *)
Definition routed (hp : Heap) : Prop :=
  forall a lru, lrus hp !! a = Some lru ->
    exists helper target, objects hp !! (value_helper_ lru).1 = Some helper /\
      helper_purge_set_ helper = a /\ objects hp !! a = Some target.

Lemma construct_routed a max hp :
  objects hp !! a = None -> lrus hp !! a = None -> routed hp -> routed (construct a max hp).
Proof.
  intros Ho Hl Hr b lru. unfold construct. cbn. destruct (decide (a = b)) as [->|Hne].
  - rewrite lookup_insert_eq. intros [= <-]. cbn. rewrite lookup_insert_eq. eauto.
  - rewrite lookup_insert_ne by done. intros Hb. destruct (Hr b lru Hb) as (h & t & Hh & Hp & Ht).
    exists h, t. rewrite !lookup_insert_ne; [done|done|]. intros ->. congruence.
Qed.

(** Different LRUs have different helpers. *)
Lemma routed_inj hp a b la lb :
  routed hp -> lrus hp !! a = Some la -> lrus hp !! b = Some lb ->
  (value_helper_ la).1 = (value_helper_ lb).1 -> a = b.
Proof.
  intros Hr Ha Hb Heq. destruct (Hr a la Ha) as (h1 & _ & H1 & <- & _).
  destruct (Hr b lb Hb) as (h2 & _ & H2 & <- & _). congruence.
Qed.

(** Lookups in the two updated entries. *)
Ltac insert_lookup :=
  first [done | apply lookup_insert_eq | rewrite lookup_insert_ne by done; apply lookup_insert_eq].

(** While both sets live, [Swap] keeps every eviction routed to the set
    that owns the evicting LRU: swapping the LRUs and the [purge_set_] pointers
    of the two helpers cancels out. It holds when the helper of each of the two
    LRUs is a member of one of the two sets, as it is until one of them is
    destroyed. *)
Lemma swap_keeps_routing (a b : addr) (hp : Heap) :
  a <> b -> routed hp ->
  (exists la lb, lrus hp !! a = Some la /\ lrus hp !! b = Some lb /\
     (value_helper_ la).1 ∈ [a; b] /\ (value_helper_ lb).1 ∈ [a; b]) ->
  exists hp', swap a b hp = Some hp' /\ routed hp'.
Proof.
  intros Hab Hr (la & lb & Hla & Hlb & Hma & Hmb).
  destruct (Hr a la Hla) as (ha & oa & Hha & Hpa & Hoa). destruct (Hr b lb Hlb) as (hb & ob & Hhb & Hpb & Hob).
  unfold swap. rewrite Hoa, Hob, Hla, Hlb. cbn [mbind option_bind]. eexists. split; [reflexivity|].
  intros c lru. cbn [lrus objects].
  assert (Hab' : (value_helper_ la).1 <> (value_helper_ lb).1)
    by (intros Heq; by apply (routed_inj hp a b la lb Hr Hla Hlb) in Heq).
  rewrite !elem_of_cons, elem_of_nil in Hma, Hmb.
  destruct (decide (a = c)) as [<-|Hac]; [|destruct (decide (b = c)) as [<-|Hbc]].
  - rewrite !lookup_insert_eq. intros [= <-].
    destruct Hmb as [Hmb|[Hmb|[]]], Hma as [Hma|[Hma|[]]]; rewrite Hma, Hmb in *; try done; eexists _, _;
      (split; [insert_lookup|split; [cbn; congruence|insert_lookup]]).
  - rewrite lookup_insert_ne, lookup_insert_eq by done. intros [= <-].
    destruct Hmb as [Hmb|[Hmb|[]]], Hma as [Hma|[Hma|[]]]; rewrite Hma, Hmb in *; try done; eexists _, _;
      (split; [insert_lookup|split; [cbn; congruence|insert_lookup]]).
  - rewrite !lookup_insert_ne by done. intros Hc. destruct (Hr c lru Hc) as (h & t & Hh & Hp & Ht).
    exists h, t.
    assert ((value_helper_ lru).1 <> (value_helper_ la).1 /\ (value_helper_ lru).1 <> (value_helper_ lb).1) as [H1 H2].
    { split; intros Heq; [apply (routed_inj hp c a lru la Hr Hc Hla) in Heq|
                          apply (routed_inj hp c b lru lb Hr Hc Hlb) in Heq]; congruence. }
    destruct Hmb as [Hmb|[Hmb|[]]], Hma as [Hma|[Hma|[]]]; rewrite Hma, Hmb in *; try done;
      rewrite !lookup_insert_ne by congruence; done.
Qed.

(** [pending_purges_] of a [PurgeContext], and the local [return_purges] of one
    call of [UpdateCachePurgeFile]. *)
Definition pending_purges : addr := 0.
Definition return_purges : addr := 1.

(** [return_purges->Swap(&pending_purges_)] in [ModifyPurgeSet], then the end
    of the scope of [return_purges]. *)
Definition update_transaction (hp : Heap) : option Heap :=
  hp ← swap return_purges pending_purges (construct return_purges 20 hp);
  Some (destroy return_purges hp).

(** After the transaction of [UpdateCachePurgeFile] the LRU that
    [pending_purges_] owns still points to the [helper_] member of the
    destroyed [return_purges]: the first purge request that evicts follows a
    dangling pointer, while without the transaction it is recorded. *)
Lemma helper_dangles_after_update :
  let hp := construct pending_purges 20 (mkHeap ∅ ∅) in
  let two_puts hp := hp ← put pending_purges (lit "http://a") 1000 hp;
                     put pending_purges (lit "http://b") 2000 hp in
  is_Some (two_puts hp) /\
  exists hp', update_transaction hp = Some hp' /\
    is_Some (put pending_purges (lit "http://a") 1000 hp') /\ two_puts hp' = None.
Proof.
  cbn zeta. split; [vm_compute; eauto|]. eexists. split; [vm_compute; reflexivity|].
  split; [vm_compute; eauto|vm_compute; reflexivity].
Qed.

Definition example_heap : Heap := construct 1 20 (construct 0 20 (mkHeap ∅ ∅)).

Lemma example_heap_routed : routed example_heap.
Proof.
  apply construct_routed; [done|done|]. apply construct_routed; [done|done|].
  intros a lru H. cbn in H. by rewrite lookup_empty in H.
Qed.

