(* ===== verification/Int64Text.v ===== *)
(** * Integers as text

    [Integer64ToString] and [StringToInt64] are calls of absl ([StrCat] and
    [SimpleAtoi]), which is not part of the sources. What the code relies on
    is the class [Int64Text]; [decimal_text] shows that decimal notation has
    these laws. *)

From Stdlib Require Import DecimalString DecimalZ.
From S2P Require Import Prelude.

Definition int64 (z : Z) : Prop := - 2 ^ 63 <= z < 2 ^ 63.

Class Int64Text := {
  Integer64ToString : Z -> bytes;
  StringToInt64 : bytes -> option Z;
  (* parsing what was printed *)
  StringToInt64_print : forall z, int64 z -> StringToInt64 (Integer64ToString z) = Some z;
  (* decimal digits and a sign *)
  Integer64ToString_chars : forall z, Forall (fun c => is_digit c || (c =c "-"%char) = true) (Integer64ToString z);
  Integer64ToString_nonempty : forall z, Integer64ToString z <> []
}.

Definition decimal_print (z : Z) : bytes :=
  String.list_ascii_of_string (NilZero.string_of_int (Z.to_int z)).

Definition decimal_parse (s : bytes) : option Z :=
  match NilZero.int_of_string (String.string_of_list_ascii s) with
  | Some d => if (- 2 ^ 63 <=? Z.of_int d) && (Z.of_int d <? 2 ^ 63) then Some (Z.of_int d) else None
  | None => None
  end.

Lemma to_int_not_nil z : Z.to_int z <> Decimal.Pos Decimal.Nil /\ Z.to_int z <> Decimal.Neg Decimal.Nil.
Proof.
  assert (H : forall p, Pos.to_uint p <> Decimal.Nil).
  { intros p Hp. apply (DecimalPos.Unsigned.to_uint_nonnil p). exact Hp. }
  destruct z as [|p|p]; cbn; (split; [|]; try done); intros [= Hp]; by apply (H p).
Qed.

Lemma decimal_parse_print z : int64 z -> decimal_parse (decimal_print z) = Some z.
Proof.
  intros Hz. unfold decimal_parse, decimal_print. rewrite String.string_of_list_ascii_of_string.
  destruct (to_int_not_nil z). rewrite NilZero.isi by done. rewrite DecimalZ.of_to.
  unfold int64 in Hz. rewrite (proj2 (Z.leb_le _ _)), (proj2 (Z.ltb_lt _ _)) by lia. done.
Qed.

Lemma string_of_uint_digits d :
  Forall (fun c => is_digit c = true) (String.list_ascii_of_string (NilEmpty.string_of_uint d)).
Proof. induction d; cbn; constructor; done. Qed.

Lemma decimal_print_chars z :
  Forall (fun c => is_digit c || (c =c "-"%char) = true) (decimal_print z).
Proof.
  assert (H : forall d, Forall (fun c => is_digit c || (c =c "-"%char) = true)
    (String.list_ascii_of_string (NilZero.string_of_uint d))).
  { intros d. eapply (Forall_impl (fun c => is_digit c = true)); [|by intros c ->].
    destruct d; try apply string_of_uint_digits. by repeat constructor. }
  unfold decimal_print. destruct (Z.to_int z) as [d|d]; cbn; [apply H|by constructor].
Qed.

Lemma decimal_print_nonempty z : decimal_print z <> [].
Proof.
  unfold decimal_print. destruct (Z.to_int z) as [d|d]; cbn; [|done].
  destruct d; cbn; done.
Qed.

Definition decimal_text : Int64Text := {|
  Integer64ToString := decimal_print;
  StringToInt64 := decimal_parse;
  StringToInt64_print := decimal_parse_print;
  Integer64ToString_chars := decimal_print_chars;
  Integer64ToString_nonempty := decimal_print_nonempty
|}.

Section chars.
Context {T : Int64Text}.

Lemma Integer64ToString_not_in z c :
  is_digit c = false -> c <> "-"%char -> c ∉ Integer64ToString z.
Proof.
  intros Hd Hc Hin. pose proof (Integer64ToString_chars z) as H. rewrite Forall_forall in H.
  specialize (H c Hin). rewrite Hd in H. by apply bool_decide_eq_true in H.
Qed.

End chars.
