(* ===== verification/PurgeContext.v ===== *)
(** * PurgeContext

    Persisting and distributing cache purges:
    src/pagespeed/kernel/cache/purge_context.{h,cc}.

    The first part is the purge file: [ModifyPurgeSet] writes it,
    [ReadPurgeFile] parses it. The second part is the concurrent protocol: the
    state protected by [mutex_], the lock requests, the read-modify-write
    -verify transactions and the file polls in flight, and the callbacks that
    were run; every event is one critical section or one run of a callback, so
    that a sequence of events is an interleaving of the threads. *)

From stdpp Require Import sorting.
From S2P Require Import Prelude LruCache PurgeSet StringUtil Int64Text.

(** Callbacks are told apart by a number. *)
Abbreviation PurgeCallback := nat.

Definition kMaxContentionRetries : Z := 2.
Definition kCheckCacheIntervalMs : Z := 5 * 1000.

Section purge_context.
Context {T : Int64Text}.

(** Configuration, set before the context is used. *)
Context (enable_purge_ : bool) (max_bytes_in_cache_ : Z).

(** ** The purge file *)

Definition ParseAndValidateTimestamp (time_string : bytes) (now_ms : Z) : option Z :=
  match StringToInt64 time_string with
  | None => None
  | Some timestamp_ms =>
      if negb (timestamp_ms =? kInitialTimestampMs) &&
         ((timestamp_ms <? 0) || (now_ms + kClockSkewAllowanceMs <? timestamp_ms))
      then None else Some timestamp_ms
  end.

(** One line of the file after the first: the new set and the number of parse
    failures counted. *)
Definition ReadPurgeLine (line : bytes) (now_ms : Z) (p : PurgeSet) : option (PurgeSet * Z) :=
  match line with
  | [] => Some (p, 0)
  | _ =>
      match memchr line " " with
      | None => Some (p, 1)
      | Some pos =>
          match ParseAndValidateTimestamp (take pos line) now_ms with
          | None => Some (p, 1)
          | Some timestamp_ms =>
              '(_, p) ← PurgeSet.Put (drop (S pos) line) timestamp_ms p;
              Some (p, 0)
          end
      end
  end.

Fixpoint ReadPurgeLines (lines : list bytes) (now_ms : Z) (p : PurgeSet) : option (PurgeSet * Z) :=
  match lines with
  | [] => Some (p, 0)
  | line :: lines' =>
      '(p, f) ← ReadPurgeLine line now_ms p;
      '(p, fs) ← ReadPurgeLines lines' now_ms p;
      Some (p, f + fs)
  end.

(** [mtime]: the modification time in seconds, if the file can be stat'ed;
    [buffer]: the contents, if the file can be read. *)
Definition ReadPurgeFile (mtime : option Z) (buffer : option bytes) (now_ms : Z) (p : PurgeSet)
  : option (PurgeSet * Z) :=
  if negb enable_purge_ then
    match mtime with
    | Some timestamp_sec =>
        '(_, p) ← UpdateGlobalInvalidationTimestampMs (timestamp_sec * 1000) p;
        Some (p, 0)
    | None => Some (p, 0)
    end
  else
    match buffer with
    | None => Some (p, 0)
    | Some buffer =>
        lines ← SplitStringPieceToVector buffer [nl] [] true;
        match lines with
        | [] => Some (p, 1)
        | line0 :: lines' =>
            match ParseAndValidateTimestamp line0 now_ms with
            | None => Some (p, 1)
            | Some timestamp_ms =>
                '(_, p) ← UpdateGlobalInvalidationTimestampMs timestamp_ms p;
                ReadPurgeLines lines' now_ms p
            end
        end
    end.

Definition print_record (r : bytes * Z) : bytes :=
  Integer64ToString r.2 ++ " "%char :: r.1 ++ [nl].

(** The buffer [ModifyPurgeSet] collects. *)
Definition serialize (p : PurgeSet) : bytes :=
  Integer64ToString (global p) ++ [nl] ++ concat (map print_record (oldest_to_youngest p)).

(** ** The state of the context *)

Record Counters := mkCounters {
  cancellations_ : Z;
  contentions_ : Z;
  file_parse_failures_ : Z;
  file_stats_ : Z;
  file_write_failures_ : Z;
  file_writes_ : Z
}.

(** [purge_index_] and the poll timestamp are statistics shared by the
    processes. *)
Record PurgeContext := mkContext {
  purge_set_ : PurgeSet;
  pending_purges_ : PurgeSet;
  pending_callbacks_ : list PurgeCallback;
  local_purge_index_ : Z;
  num_consecutive_failures_ : Z;
  waiting_for_interprocess_lock_ : bool;
  reading_ : bool;
  purge_index_ : Z;
  purge_poll_timestamp_ms_ : Z;
  counters : Counters
}.

(** An [UpdateCachePurgeFile] in flight: before its [ModifyPurgeSet], or
    between it and the outcome of the write, with its local variables. *)
Inductive Updater :=
| Reading
| Modified (buffer : bytes) (callbacks : list PurgeCallback) (return_purges : PurgeSet) (failures : Z).

(** The context with what is in flight: the lock requests not granted yet (an
    alarm of [WaitForTimerAndGrabLock] or a wait of [GrabLockAndUpdate]), the
    updaters, the polls with their [needs_update], the callbacks that were run
    with their answers, and the sets passed to [update_callback_]. *)
Record System := mkSystem {
  context : PurgeContext;
  lock_requests : nat;
  updaters : list Updater;
  polls : list bool;
  answered : list (PurgeCallback * bool);
  published : list PurgeSet
}.

Definition new_context : PurgeContext :=
  mkContext (new_PurgeSet max_bytes_in_cache_) (new_PurgeSet max_bytes_in_cache_) [] 0 0 false false 0 0
    (mkCounters 0 0 0 0 0 0).
Definition new_system : System := mkSystem new_context 0 [] [] [] [].

Definition with_context (c : PurgeContext) (s : System) : System :=
  mkSystem c (lock_requests s) (updaters s) (polls s) (answered s) (published s).
Definition request_lock (s : System) : System :=
  mkSystem (context s) (S (lock_requests s)) (updaters s) (polls s) (answered s) (published s).
Definition with_updaters (us : list Updater) (s : System) : System :=
  mkSystem (context s) (lock_requests s) us (polls s) (answered s) (published s).
Definition with_polls (ps : list bool) (s : System) : System :=
  mkSystem (context s) (lock_requests s) (updaters s) ps (answered s) (published s).
Definition run_callbacks (success : bool) (callbacks : list PurgeCallback) (s : System) : System :=
  mkSystem (context s) (lock_requests s) (updaters s) (polls s)
    (answered s ++ map (fun cb => (cb, success)) callbacks) (published s).
Definition publish (p : PurgeSet) (s : System) : System :=
  mkSystem (context s) (lock_requests s) (updaters s) (polls s) (answered s) (published s ++ [p]).

Definition count (f : Counters -> Counters) (c : PurgeContext) : PurgeContext :=
  mkContext (purge_set_ c) (pending_purges_ c) (pending_callbacks_ c) (local_purge_index_ c)
    (num_consecutive_failures_ c) (waiting_for_interprocess_lock_ c) (reading_ c)
    (purge_index_ c) (purge_poll_timestamp_ms_ c) (f (counters c)).
Definition add_cancellations n k := mkCounters (cancellations_ k + n) (contentions_ k)
  (file_parse_failures_ k) (file_stats_ k) (file_write_failures_ k) (file_writes_ k).
Definition add_contentions n k := mkCounters (cancellations_ k) (contentions_ k + n)
  (file_parse_failures_ k) (file_stats_ k) (file_write_failures_ k) (file_writes_ k).
Definition add_read parse_failures k := mkCounters (cancellations_ k) (contentions_ k)
  (file_parse_failures_ k + parse_failures) (file_stats_ k + 1) (file_write_failures_ k) (file_writes_ k).
Definition add_write_failures n k := mkCounters (cancellations_ k) (contentions_ k)
  (file_parse_failures_ k) (file_stats_ k) (file_write_failures_ k + n) (file_writes_ k).
Definition add_writes n k := mkCounters (cancellations_ k) (contentions_ k)
  (file_parse_failures_ k) (file_stats_ k) (file_write_failures_ k) (file_writes_ k + n).

(** The pending state a critical section of [mutex_] replaces. *)
Definition with_pending (p : PurgeSet) (callbacks : list PurgeCallback) (failures : Z) (waiting : bool)
    (c : PurgeContext) : PurgeContext :=
  mkContext (purge_set_ c) p callbacks (local_purge_index_ c) failures waiting (reading_ c)
    (purge_index_ c) (purge_poll_timestamp_ms_ c) (counters c).
Definition bump_purge_index (c : PurgeContext) : PurgeContext :=
  mkContext (purge_set_ c) (pending_purges_ c) (pending_callbacks_ c) (local_purge_index_ c)
    (num_consecutive_failures_ c) (waiting_for_interprocess_lock_ c) (reading_ c)
    (purge_index_ c + 1) (purge_poll_timestamp_ms_ c) (counters c).
Definition with_purge_set (p : PurgeSet) (c : PurgeContext) : PurgeContext :=
  mkContext p (pending_purges_ c) (pending_callbacks_ c) (local_purge_index_ c)
    (num_consecutive_failures_ c) (waiting_for_interprocess_lock_ c) (reading_ c)
    (purge_index_ c) (purge_poll_timestamp_ms_ c) (counters c).
Definition with_reading (reading : bool) (c : PurgeContext) : PurgeContext :=
  mkContext (purge_set_ c) (pending_purges_ c) (pending_callbacks_ c) (local_purge_index_ c)
    (num_consecutive_failures_ c) (waiting_for_interprocess_lock_ c) reading
    (purge_index_ c) (purge_poll_timestamp_ms_ c) (counters c).
Definition with_poll (local : Z) (poll_ms : Z) (c : PurgeContext) : PurgeContext :=
  mkContext (purge_set_ c) (pending_purges_ c) (pending_callbacks_ c) local
    (num_consecutive_failures_ c) (waiting_for_interprocess_lock_ c) true
    (purge_index_ c) poll_ms (counters c).

(** ** Requests *)

(** The common part of the two requests, on the updated pending set: under
    [mutex_], remember the callback and ask for the lock unless somebody
    waits for it already. *)
Definition add_pending (p : PurgeSet) (callback : PurgeCallback) (s : System) : System :=
  let c := context s in
  let grab_lock := negb (waiting_for_interprocess_lock_ c) in
  let s := with_context (with_pending p (pending_callbacks_ c ++ [callback])
                           (num_consecutive_failures_ c) true c) s in
  if grab_lock then request_lock s else s.

Definition SetCachePurgeGlobalTimestampMs (timestamp_ms : Z) (callback : PurgeCallback) (s : System)
  : option System :=
  '(_, p) ← UpdateGlobalInvalidationTimestampMs timestamp_ms (pending_purges_ (context s));
  Some (add_pending p callback s).

Definition AddPurgeUrl (url : bytes) (timestamp_ms : Z) (callback : PurgeCallback) (s : System)
  : option System :=
  if negb enable_purge_ then Some (run_callbacks false [callback] s)
  else
    '(_, p) ← PurgeSet.Put url timestamp_ms (pending_purges_ (context s));
    Some (add_pending p callback s).

(** ** Updating the file *)

Definition ModifyPurgeSet (purges_from_file return_purges : PurgeSet) (c : PurgeContext)
  : option (bytes * list PurgeCallback * PurgeSet * Z * PurgeContext) :=
  purges_from_file ← Merge (pending_purges_ c) purges_from_file;
  let '(return_purges, pending) := Swap return_purges (pending_purges_ c) in
  let pending := PurgeSet.Clear pending in
  Some (serialize purges_from_file, pending_callbacks_ c, return_purges,
        num_consecutive_failures_ c,
        with_pending pending [] 0 false c).

(** The callbacks left to run and whether to take the lock again; [None] is a
    failed [DCHECK]. *)
Definition HandleWriteFailure (failures : Z) (callbacks : list PurgeCallback) (return_purges : PurgeSet)
    (c : PurgeContext) : option (list PurgeCallback * bool * PurgeContext) :=
  let n := num_consecutive_failures_ c + (failures + 1) in
  if n <=? kMaxContentionRetries then
    if waiting_for_interprocess_lock_ c then
      match pending_callbacks_ c with
      | [] => None
      | _ =>
          p ← Merge return_purges (pending_purges_ c);
          Some ([], false, with_pending p (pending_callbacks_ c ++ callbacks) n true c)
      end
    else
      match pending_callbacks_ c, callbacks with
      | [], _ :: _ =>
          let '(p, _) := Swap (pending_purges_ c) return_purges in
          Some ([], true, with_pending p callbacks n true c)
      | _, _ => None
      end
  else
    Some (callbacks, false,
          count (add_write_failures (Z.of_nat (length callbacks)))
            (with_pending (pending_purges_ c) (pending_callbacks_ c) 0 (waiting_for_interprocess_lock_ c) c)).

(** [UpdateCachePurgeFile] up to and including [ModifyPurgeSet], given what it
    reads from the file system. *)
Definition Update_modify (mtime : option Z) (buffer : option bytes) (now_ms : Z) (c : PurgeContext)
  : option (Updater * PurgeContext) :=
  '(purges_from_file, parse_failures) ←
    ReadPurgeFile mtime buffer now_ms (new_PurgeSet max_bytes_in_cache_);
  let c := count (add_read parse_failures) c in
  '(buffer, callbacks, return_purges, failures, c) ←
    ModifyPurgeSet purges_from_file (new_PurgeSet max_bytes_in_cache_) c;
  Some (Modified buffer callbacks return_purges failures, c).

(** The rest of [UpdateCachePurgeFile]: [written] is the result of
    [WritePurgeFile], [verify] what [Verify] reads back. *)
Definition Update_finish (buffer : bytes) (callbacks : list PurgeCallback) (return_purges : PurgeSet)
    (failures : Z) (written : bool) (verify : option bytes) (s : System) : option System :=
  let c := count (add_writes 1) (context s) in
  let success := written && bool_decide (verify = Some buffer) in
  '(callbacks, lock_and_update, c) ←
    (if success then Some (callbacks, false, c)
     else HandleWriteFailure failures callbacks return_purges (count (add_contentions 1) c));
  match (callbacks : list PurgeCallback) with
  | _ :: _ =>
      let c := if success then bump_purge_index c else c in
      Some (run_callbacks success callbacks (with_context c s))
  | [] =>
      let s := with_context c s in
      Some (if (lock_and_update : bool) then request_lock s else s)
  end.

(** The lock could not be had in time. *)
Definition CancelCachePurgeFile (s : System) : System :=
  let c := context s in
  let callbacks := pending_callbacks_ c in
  let c := with_pending (PurgeSet.Clear (pending_purges_ c)) [] (num_consecutive_failures_ c) false c in
  let c := count (add_cancellations (Z.of_nat (length callbacks))) c in
  run_callbacks false callbacks (with_context c s).

(** ** Polling the file *)

(** [PollFileSystem] up to the read. *)
Definition Poll_start (now_ms : Z) (s : System) : System :=
  let c := context s in
  let delta_ms := now_ms - purge_poll_timestamp_ms_ c in
  let needs_update := local_purge_index_ c <? purge_index_ c in
  if negb (reading_ c) && (needs_update || (kCheckCacheIntervalMs <=? delta_ms)) then
    let local := if needs_update then purge_index_ c else local_purge_index_ c in
    with_polls (polls s ++ [needs_update]) (with_context (with_poll local now_ms c) s)
  else s.

(** [ReadFileAndCallCallbackIfChanged] and the end of [PollFileSystem]; [None]
    is also the failed [DCHECK(reading_)]. *)
Definition Poll_finish (needs_update : bool) (mtime : option Z) (buffer : option bytes) (now_ms : Z)
    (has_update_callback : bool) (s : System) : option System :=
  if negb (reading_ (context s)) then None else
  '(purges_from_file, parse_failures) ←
    ReadPurgeFile mtime buffer now_ms (set_max_size max_bytes_in_cache_ (new_PurgeSet 1));
  let c := count (add_read parse_failures) (context s) in
  let '(call_callback, c) :=
    if negb (Equals (purge_set_ c) purges_from_file) then
      (has_update_callback,
       with_purge_set purges_from_file (if negb needs_update then bump_purge_index c else c))
    else (false, c) in
  let s := with_context (with_reading false c) s in
  Some (if (call_callback : bool) then publish purges_from_file s else s).

(** ** Events: one critical section of some thread *)

Inductive event :=
| RequestPurge (url : bytes) (timestamp_ms : Z) (callback : PurgeCallback)
| RequestGlobal (timestamp_ms : Z) (callback : PurgeCallback)
| LockGranted
| LockTimedOut
| Modify (i : nat) (mtime : option Z) (buffer : option bytes) (now_ms : Z)
| Finish (i : nat) (written : bool) (verify : option bytes)
| PollStart (now_ms : Z)
| PollFinish (i : nat) (mtime : option Z) (buffer : option bytes) (now_ms : Z) (has_update_callback : bool)
| OtherProcessUpdated.

(** Which events can happen. *)
Definition enabled (e : event) (s : System) : Prop :=
  match e with
  | LockGranted | LockTimedOut => lock_requests s <> O
  | Modify i _ _ _ => updaters s !! i = Some Reading
  | Finish i _ _ => match updaters s !! i with Some (Modified _ _ _ _) => True | _ => False end
  | PollFinish i _ _ _ _ => is_Some (polls s !! i)
  | _ => True
  end.

Definition take_request (s : System) : System :=
  mkSystem (context s) (pred (lock_requests s)) (updaters s) (polls s) (answered s) (published s).

Definition handle (e : event) (s : System) : option System :=
  match e with
  | RequestPurge url t cb => AddPurgeUrl url t cb s
  | RequestGlobal t cb => SetCachePurgeGlobalTimestampMs t cb s
  | LockGranted =>
      (* DCHECK(waiting_for_interprocess_lock_) *)
      if waiting_for_interprocess_lock_ (context s)
      then Some (with_updaters (updaters s ++ [Reading]) (take_request s)) else None
  | LockTimedOut => Some (CancelCachePurgeFile (take_request s))
  | Modify i mtime buffer now =>
      '(u, c) ← Update_modify mtime buffer now (context s);
      Some (with_updaters (<[i := u]> (updaters s)) (with_context c s))
  | Finish i written verify =>
      match updaters s !! i with
      | Some (Modified buffer callbacks return_purges failures) =>
          Update_finish buffer callbacks return_purges failures written verify
            (with_updaters (delete i (updaters s)) s)
      | _ => None
      end
  | PollStart now => Some (Poll_start now s)
  | PollFinish i mtime buffer now has_cb =>
      needs_update ← polls s !! i;
      Poll_finish needs_update mtime buffer now has_cb (with_polls (delete i (polls s)) s)
  | OtherProcessUpdated => Some (with_context (bump_purge_index (context s)) s)
  end.

(** The callbacks an event hands over. *)
Definition requested (e : event) : list PurgeCallback :=
  match e with
  | RequestPurge _ _ cb | RequestGlobal _ cb => [cb]
  | _ => []
  end.

(** What the callers and the file system supply is representable: timestamps
    whose differences fit in 64 bits, strings of less than 2^63 bytes. *)
Definition event_ok (e : event) : Prop :=
  let file mtime buffer :=
    (forall t, mtime = Some t -> time_ok (t * 1000)) /\
    (forall b, buffer = Some b -> Z.of_nat (length b) <= 2 ^ 31) in
  match e with
  | RequestPurge url t _ => key_ok url /\ time_ok t
  | RequestGlobal t _ => time_ok t
  | Modify _ mtime buffer now | PollFinish _ mtime buffer now _ =>
      file mtime buffer /\ now + kClockSkewAllowanceMs < int64_max
  | _ => True
  end.

Inductive reachable : System -> list PurgeCallback -> Prop :=
| reachable_new : reachable new_system []
| reachable_step s cbs e s' :
    reachable s cbs -> enabled e s -> event_ok e -> handle e s = Some s' ->
    reachable s' (cbs ++ requested e).

(** ** Purge sets whose operations cannot overflow *)

Definition records_ok (p : PurgeSet) : Prop :=
  time_ok (global p) /\ forall kv, kv ∈ entries p -> time_ok kv.2 /\ key_ok kv.1.

Record sane (p : PurgeSet) : Prop := {
  sane_lru : wf_but None p;
  sane_records : records_ok p;
  sane_last : time_ok (last_invalidation p)
}.

Lemma notify_time_ok (evicted : list (bytes * Z)) (h : Timestamps) :
  time_ok (global_invalidation_timestamp_ms_ h) -> (forall kv, kv ∈ evicted -> time_ok kv.2) ->
  time_ok (global_invalidation_timestamp_ms_ (notify evicted h)) /\
  last_invalidation_timestamp_ms_ (notify evicted h) = last_invalidation_timestamp_ms_ h.
Proof.
  intros Hh. induction evicted as [|kv l IH]; intros Hl; [done|].
  destruct IH as [H1 H2]; [intros; apply Hl; by right|]. specialize (Hl kv ltac:(left)).
  unfold notify in *. cbn [foldr]. set (h1 := foldr _ h l) in *. cbn [EvictNotify InvalidationTimestampHelper helper_EvictNotify
    global_invalidation_timestamp_ms_ last_invalidation_timestamp_ms_].
  split; [unfold time_ok in *; lia|done].
Qed.

Lemma same_abs_sane p p' : sane p -> wf_but None p' -> abs p' = abs p -> sane p'.
Proof.
  intros [H1 [H2 H3] H4] Hp' Ha. injection Ha as Hm He Hh. unfold last_invalidation, global in *.
  split; [done| |unfold last_invalidation; by rewrite Hh].
  split; unfold global; rewrite ?He, ?Hh; done.
Qed.

Lemma spec_insert_sane k t l p p' :
  sane p -> wf_but None p' -> time_ok t -> key_ok k -> l `sublist_of` entries p ->
  abs p' = spec_insert k t l (abs p) -> sane p'.
Proof.
  intros [H1 [H2 H3] H4] Hp' Ht Hk Hl Ha.
  assert (Hle : forall kv, kv ∈ l -> time_ok kv.2 /\ key_ok kv.1)
    by (intros; apply H3; by eapply elem_of_sublist).
  unfold spec_insert in Ha. destruct (_ <? _); injection Ha as Hm He Hh.
  - set (kept := keep _ _) in *.
    destruct (notify_time_ok (drop (length kept) l) (value_helper_ p) H2) as [Hg Hlast].
    { intros kv Hkv. apply Hle. by eapply elem_of_sublist, sublist_drop. }
    rewrite <- Hh in Hg, Hlast. split; [done|split; [done|]|unfold last_invalidation in *; by rewrite Hlast].
    rewrite He. intros kv [->|Hin]%elem_of_cons; [done|]. apply Hle.
    eapply elem_of_sublist; [exact Hin|]. apply keep_sublist.
  - split; [done|split; [unfold global; by rewrite Hh|by rewrite He]|].
    unfold last_invalidation in *. by rewrite Hh.
Qed.

Lemma SanitizeTimestamp_total t p :
  time_ok (last_invalidation p) -> time_ok t ->
  exists b t' p', SanitizeTimestamp t p = Some (b, t', p') /\ time_ok t' /\
    (p' = p \/ p' = set_last t' p).
Proof.
  intros Hl Ht. unfold time_ok, kInitialTimestampMs, int64_max in *. unfold SanitizeTimestamp, int64_min, int64_max.
  rewrite (proj2 (Z.leb_le _ _)), (proj2 (Z.leb_le _ _)) by lia. cbn [andb].
  destruct (_ <=? 0); [|destruct (_ <=? _)]; eexists _, _, _; (split; [done|]); (split; [done|]);
    [by right|by left|by left].
Qed.

Lemma set_last_sane t p : sane p -> time_ok t -> sane (set_last t p).
Proof. intros [H1 [H2 H3] H4] Ht. split; [by destruct H1; constructor|done|done]. Qed.

Lemma set_global_sane t p : sane p -> time_ok t -> sane (set_global t p).
Proof. intros [H1 [H2 H3] H4] Ht. split; [by destruct H1; constructor|done|done]. Qed.

Lemma Put_sane k t p :
  sane p -> key_ok k -> time_ok t -> exists p', PurgeSet.Put k t p = Some (true, p') /\ sane p'.
Proof.
  intros Hp Hk Ht. unfold PurgeSet.Put.
  destruct (SanitizeTimestamp_total t p (sane_last _ Hp) Ht) as (b & t' & p1 & -> & Ht' & Hp1).
  cbn [mbind option_bind].
  assert (Hs1 : sane p1) by (destruct Hp1 as [->| ->]; [done|by apply set_last_sane]).
  destruct b; cbn [negb]; [|by exists p1]. destruct (_ <? _); [|by exists p1].
  destruct (Put_ok k t' p1 (sane_lru _ Hs1)) as (p2 & -> & Hw2 & Ha2).
  { change (entry_size (k, t')) with (Z.of_nat (length k) + 8). unfold key_ok in Hk. lia. }
  cbn [mbind option_bind]. exists p2. split; [done|]. unfold spec_put in Ha2.
  destruct (find_key k _) as [old|] eqn:E.
  - destruct (negb _); [by apply (same_abs_sane p1)|]. destruct (Equal t' old) eqn:Eq.
    + cbn in Eq. apply Z.eqb_eq in Eq. subst old. cbn [spec_entries abs] in *.
      apply find_key_Some in E; [|apply (wf_keys _ _ (sane_lru _ Hs1))].
      injection Ha2 as Hm He Hh. destruct Hs1 as [H1 [H2 H3] H4].
      split; [done|split; [unfold global; by rewrite Hh|]|unfold last_invalidation in *; by rewrite Hh].
      rewrite He. intros kv [->|Hin]%elem_of_cons; [done|]. by apply elem_of_remove_key in Hin as [_ ?%H3].
    + by apply (spec_insert_sane k t' _ p1 p2 Hs1) in Ha2; [| |done|done|apply sublist_filter].
  - by apply (spec_insert_sane k t' _ p1 p2 Hs1) in Ha2.
Qed.

Lemma UpdateGlobal_sane t p :
  sane p -> time_ok t ->
  exists b p', UpdateGlobalInvalidationTimestampMs t p = Some (b, p') /\ sane p'.
Proof.
  intros Hp Ht. unfold UpdateGlobalInvalidationTimestampMs.
  destruct (SanitizeTimestamp_total t p (sane_last _ Hp) Ht) as (b & t' & p1 & -> & Ht' & Hp1).
  cbn [mbind option_bind].
  assert (Hs1 : sane p1) by (destruct Hp1 as [->| ->]; [done|by apply set_last_sane]).
  destruct b; [|by eexists _, _]. eexists _, _. split; [done|]. apply set_global_sane; [done|].
  destruct (sane_records _ Hs1) as [Hg _]. unfold time_ok in *. lia.
Qed.

Lemma put_all_sane records : forall p,
  sane p -> (forall kv, kv ∈ records -> time_ok kv.2 /\ key_ok kv.1) ->
  exists p', put_all records p = Some p' /\ sane p'.
Proof.
  induction records as [|[k v] records IH]; intros p Hp Hr; cbn [put_all]; [eauto|].
  destruct (Hr (k, v) ltac:(left)) as [Hv Hk]. destruct (Put_sane k v p Hp Hk Hv) as (p1 & -> & Hp1).
  cbn [mbind option_bind]. apply IH; [done|]. intros kv Hkv. apply Hr. by right.
Qed.

Lemma Merge_sane src p : records_ok src -> sane p -> exists p', Merge src p = Some p' /\ sane p'.
Proof.
  intros [Hsg Hs] [H1 [H2 H3] H4]. rewrite Merge_put_all.
  assert (Hg : time_ok (Z.max (global p) (global src))) by (unfold time_ok in *; lia).
  apply put_all_sane.
  - split; [|split; [exact Hg|by intros ? ?%elem_of_nil]|exact Hg].
    pose proof (proj1 (Clear_ok (set_global (Z.max (global p) (global src)) p)
      ltac:(by destruct H1; constructor))) as []. by constructor.
  - intros kv [_ [Hin|Hin]]%elem_of_records_to_merge; auto.
Qed.

Lemma Clear_sane p : sane p -> sane (PurgeSet.Clear p).
Proof.
  intros [H1 [H2 H3] H4]. split; [|split; [done|by intros ? ?%elem_of_nil]|done].
  pose proof (proj1 (Clear_ok p H1)) as []. by constructor.
Qed.

Lemma new_PurgeSet_sane max : 0 <= max <= 2 ^ 63 -> sane (new_PurgeSet max).
Proof. intros Hm. split; [by apply new_cache_wf|split; [done|by intros ? ?%elem_of_nil]|done]. Qed.

Lemma ParseAndValidate_time_ok s now t :
  now + kClockSkewAllowanceMs < int64_max -> ParseAndValidateTimestamp s now = Some t -> time_ok t.
Proof.
  intros Hn. unfold ParseAndValidateTimestamp. destruct (StringToInt64 s) as [z|]; [|done].
  unfold time_ok, kInitialTimestampMs in *.
  destruct (Z.eqb_spec z (-1)); cbn [negb andb].
  - intros [= <-]. unfold int64_max. lia.
  - destruct (Z.ltb_spec z 0); cbn [orb]; [done|].
    destruct (Z.ltb_spec (now + kClockSkewAllowanceMs) z); [done|]. intros [= <-]. lia.
Qed.

Lemma ReadPurgeLines_sane lines now : forall p,
  now + kClockSkewAllowanceMs < int64_max -> sane p -> Forall key_ok lines ->
  exists p' f, ReadPurgeLines lines now p = Some (p', f) /\ sane p'.
Proof.
  intros p Hn. revert p. induction lines as [|line lines IH]; intros p Hp Hl; cbn [ReadPurgeLines]; [eauto|].
  apply Forall_cons in Hl as [Hline Hl].
  assert (exists p1 f1, ReadPurgeLine line now p = Some (p1, f1) /\ sane p1) as (p1 & f1 & -> & Hp1).
  { unfold ReadPurgeLine. destruct line as [|c line]; [eauto|]. destruct (memchr _ _) as [pos|]; [|eauto].
    destruct (ParseAndValidateTimestamp _ now) as [t|] eqn:E; [|eauto].
    apply ParseAndValidate_time_ok in E; [|done].
    destruct (Put_sane (drop (S pos) (c :: line)) t p Hp) as (p1 & -> & Hp1); [|done|cbn; eauto].
    unfold key_ok in *. rewrite length_drop. lia. }
  cbn [mbind option_bind]. destruct (IH p1 Hp1 Hl) as (p' & f & -> & Hp'). cbn. eauto.
Qed.

Lemma pieces_short is_sep s :
  Forall (fun p => (length p <= length s)%nat) (pieces is_sep s).
Proof.
  induction s as [|c s IH]; cbn; [by repeat constructor|].
  assert (Hle : Forall (fun p => (length p <= S (length s))%nat) (pieces is_sep s))
    by (eapply Forall_impl; [exact IH|cbn; lia]).
  destruct (is_sep c); [constructor; [cbn; lia|done]|].
  destruct (pieces is_sep s) as [|p ps]; [constructor; [cbn; lia|done]|].
  apply Forall_cons in IH as [H1 _]. apply Forall_cons in Hle as [_ H2]. constructor; [cbn; lia|done].
Qed.

Lemma ReadPurgeFile_sane mtime buffer now p :
  (forall t, mtime = Some t -> time_ok (t * 1000)) ->
  (forall b, buffer = Some b -> Z.of_nat (length b) <= 2 ^ 31) ->
  now + kClockSkewAllowanceMs < int64_max -> sane p ->
  exists p' f, ReadPurgeFile mtime buffer now p = Some (p', f) /\ sane p'.
Proof.
  intros Hm Hb Hn Hp. unfold ReadPurgeFile. destruct enable_purge_; cbn [negb].
  - destruct buffer as [b|]; [|eauto]. specialize (Hb b eq_refl). rewrite Split_pieces by done.
    cbn [mbind option_bind app].
    assert (Hl : Forall key_ok (non_empty true (pieces (one_of [nl]) b))).
    { apply Forall_forall. intros line [_ Hin]%list_elem_of_filter.
      pose proof (pieces_short (one_of [nl]) b) as Hs. rewrite Forall_forall in Hs.
      apply Hs in Hin. unfold key_ok. lia. }
    destruct (non_empty _ _) as [|line0 lines]; [eauto|]. apply Forall_cons in Hl as [_ Hl].
    destruct (ParseAndValidateTimestamp line0 now) as [t|] eqn:E; [|eauto].
    apply ParseAndValidate_time_ok in E; [|done].
    destruct (UpdateGlobal_sane t p Hp E) as (b' & p1 & -> & Hp1). cbn [mbind option_bind].
    by apply ReadPurgeLines_sane.
  - destruct mtime as [t|]; [|eauto].
    destruct (UpdateGlobal_sane (t * 1000) p Hp (Hm t eq_refl)) as (b' & p1 & -> & Hp1). cbn. eauto.
Qed.

(** ** The protocol invariant *)

Definition updater_callbacks (u : Updater) : list PurgeCallback :=
  match u with Reading => [] | Modified _ cbs _ _ => cbs end.
Definition is_reading (u : Updater) : Prop := u = Reading.
#[local] Instance is_reading_dec u : Decision (is_reading u).
Proof. destruct u; [by left|by right]. Defined.

Definition updater_ok (u : Updater) : Prop :=
  match u with
  | Reading => True
  | Modified _ cbs rp _ => cbs <> [] /\ wf_but None rp /\ records_ok rp
  end.

Definition b2n (b : bool) : nat := if b then 1%nat else 0%nat.

Record Inv (s : System) (cbs : list PurgeCallback) : Prop := {
  (* every callback is pending, carried by an updater, or answered *)
  inv_callbacks : cbs ≡ₚ pending_callbacks_ (context s) ++
    concat (map updater_callbacks (updaters s)) ++ (answered s).*1;
  (* somebody is on the way to take what is pending *)
  inv_requests : (lock_requests s + length (filter is_reading (updaters s)))%nat =
    b2n (waiting_for_interprocess_lock_ (context s));
  inv_waiting : waiting_for_interprocess_lock_ (context s) = true <-> pending_callbacks_ (context s) <> [];
  inv_updaters : Forall updater_ok (updaters s);
  inv_polls : length (polls s) = b2n (reading_ (context s));
  inv_pending : sane (pending_purges_ (context s))
}.

Hypothesis max_ok : 0 <= max_bytes_in_cache_ <= 2 ^ 63.

Lemma Inv_new : Inv (new_system) [].
Proof.
  split; cbn; [done|done|by split|by constructor|done|by apply new_PurgeSet_sane].
Qed.

(** A request adds its callback and asks for the lock once. *)
Lemma Inv_add_pending s cbs p cb :
  Inv s cbs -> sane p -> Inv (add_pending p cb s) (cbs ++ [cb]).
Proof.
  intros [H1 H2 H3 H4 H5 H6] Hp. unfold add_pending.
  assert (Hc : cbs ++ [cb] ≡ₚ (pending_callbacks_ (context s) ++ [cb]) ++
    concat (map updater_callbacks (updaters s)) ++ (answered s).*1).
  { rewrite H1, <- !app_assoc. apply Permutation_app_head. rewrite app_assoc.
    apply Permutation_app_comm. }
  assert (Hne : pending_callbacks_ (context s) ++ [cb] <> []) by (intros H; by apply app_eq_nil in H as [_ ?]).
  destruct (waiting_for_interprocess_lock_ (context s)) eqn:E; cbn [negb];
    (split; cbn; [done| |by split|done|done|done]); [done|]. cbn in H2. lia.
Qed.

Lemma updaters_split (us : list Updater) i u :
  us !! i = Some u -> exists l1 l2, us = l1 ++ u :: l2 /\
    (forall v, <[i := v]> us = l1 ++ v :: l2) /\ delete i us = l1 ++ l2.
Proof.
  intros Hi. exists (take i us), (drop (S i) us).
  pose proof (lookup_lt_Some _ _ _ Hi) as Hl.
  split; [symmetry; by apply take_drop_middle|]. split; [|apply delete_take_drop].
  intros v. rewrite insert_take_drop by done. done.
Qed.

Lemma concat_callbacks_middle l1 u l2 :
  concat (map updater_callbacks (l1 ++ u :: l2)) ≡ₚ
    updater_callbacks u ++ concat (map updater_callbacks (l1 ++ l2)).
Proof.
  rewrite !map_app, !concat_app. cbn. rewrite !app_assoc. apply Permutation_app_tail, Permutation_app_comm.
Qed.

Lemma reading_middle l1 u l2 :
  length (filter is_reading (l1 ++ u :: l2)) =
    (length (filter is_reading [u]) + length (filter is_reading (l1 ++ l2)))%nat.
Proof.
  rewrite !filter_app, (filter_cons _ u l2), (filter_cons _ u []), filter_nil.
  destruct (decide (is_reading u)); rewrite !length_app; cbn [length]; lia.
Qed.

Lemma answered_fst (b : bool) (l : list PurgeCallback) : (map (fun cb => (cb, b)) l).*1 = l.
Proof. induction l as [|cb l IH]; cbn; [done|]. by f_equal. Qed.

Lemma Inv_lock_granted s cbs :
  Inv s cbs -> lock_requests s <> O ->
  exists s', handle LockGranted s = Some s' /\ Inv s' cbs.
Proof.
  intros Hi Hr. pose proof (inv_requests _ _ Hi) as Hq. cbn [handle].
  destruct (waiting_for_interprocess_lock_ (context s)) eqn:E; [|cbn in Hq; lia].
  eexists. split; [done|]. destruct Hi as [H1 H2 H3 H4 H5 H6].
  split; cbn; [|rewrite E|done| |done|done].
  - rewrite map_app, concat_app. cbn. by rewrite app_nil_r.
  - rewrite E in H2. rewrite filter_app, length_app. change (length (filter is_reading [Reading])) with 1%nat. cbn in *. lia.
  - apply Forall_app. split; [done|]. by repeat constructor.
Qed.

Lemma Inv_cancel s cbs :
  Inv s cbs -> lock_requests s <> O ->
  exists s', handle LockTimedOut s = Some s' /\ Inv s' cbs.
Proof.
  intros Hi Hr. pose proof (inv_requests _ _ Hi) as Hq.
  assert (E : waiting_for_interprocess_lock_ (context s) = true)
    by (destruct (waiting_for_interprocess_lock_ _); [done|cbn in Hq; lia]).
  eexists. split; [done|]. destruct Hi as [H1 H2 H3 H4 H5 H6]. rewrite E in *.
  split; cbn; [| |by split|done|done|by apply Clear_sane].
  - rewrite fmap_app, answered_fst, H1. rewrite (app_assoc (concat _)). apply Permutation_app_comm.
  - cbn in *. lia.
Qed.

Lemma max_sane : sane (new_PurgeSet max_bytes_in_cache_).
Proof. by apply new_PurgeSet_sane. Qed.

Lemma Inv_modify s cbs i mtime buffer now :
  Inv s cbs -> updaters s !! i = Some Reading -> event_ok (Modify i mtime buffer now) ->
  exists s', handle (Modify i mtime buffer now) s = Some s' /\ Inv s' cbs.
Proof.
  intros Hi Hu [[Hm Hb] Hn]. pose proof (inv_requests _ _ Hi) as Hq. cbn [handle]. unfold Update_modify.
  destruct (updaters_split _ _ _ Hu) as (l1 & l2 & Hus & Hins & _).
  assert (E : waiting_for_interprocess_lock_ (context s) = true).
  { rewrite Hus, reading_middle in Hq. change (length (filter is_reading [Reading])) with 1%nat in Hq.
    destruct (waiting_for_interprocess_lock_ _); [done|cbn in Hq; lia]. }
  destruct (ReadPurgeFile_sane mtime buffer now _ Hm Hb Hn max_sane) as (p & f & -> & Hp).
  cbn [mbind option_bind]. unfold ModifyPurgeSet. destruct Hi as [H1 H2 H3 H4 H5 H6].
  destruct (Merge_sane (pending_purges_ (context s)) p (sane_records _ H6) Hp) as (p' & HM & Hp').
  cbn [pending_purges_ count]. rewrite HM. cbn [mbind option_bind Swap].
  eexists. split; [reflexivity|]. rewrite E, Hus in *. rewrite reading_middle in H2.
  change (length (filter is_reading [Reading])) with 1%nat in H2.
  split; cbn [context updaters lock_requests polls answered pending_callbacks_ with_updaters with_context with_pending
    waiting_for_interprocess_lock_ reading_ pending_purges_].
  - rewrite Hins, H1, !concat_callbacks_middle. cbn [updater_callbacks app pending_callbacks_ count].
    by rewrite <- app_assoc.
  - rewrite Hins, reading_middle. rewrite (filter_cons_False is_reading) by done. cbn in *. lia.
  - by split.
  - rewrite Hins. apply Forall_app in H4 as [H4a [_ H4b]%Forall_cons]. apply Forall_app. split; [done|].
    constructor; [|done]. split; [by apply H3|]. split; [|by apply H6]. destruct (sane_lru _ H6). by constructor.
  - done.
  - apply Clear_sane. apply (set_last_sane (last_invalidation (pending_purges_ (context s)))); [by apply max_sane|].
    by apply sane_last.
Qed.

(** The state of an updater that has been taken out of the list. *)
Lemma finish_split s cbs i b uc rp f :
  Inv s cbs -> updaters s !! i = Some (Modified b uc rp f) ->
  exists us, delete i (updaters s) = us /\
    cbs ≡ₚ uc ++ pending_callbacks_ (context s) ++ concat (map updater_callbacks us) ++ (answered s).*1 /\
    (lock_requests s + length (filter is_reading us))%nat = b2n (waiting_for_interprocess_lock_ (context s)) /\
    Forall updater_ok us /\ uc <> [] /\ wf_but None rp /\ records_ok rp.
Proof.
  intros [H1 H2 H3 H4 H5 H6] Hu. destruct (updaters_split _ _ _ Hu) as (l1 & l2 & Hus & _ & Hdel).
  exists (l1 ++ l2). split; [done|]. rewrite Hus in *.
  rewrite concat_callbacks_middle in H1. rewrite reading_middle in H2.
  rewrite (filter_cons_False is_reading) in H2 by done. cbn [updater_callbacks] in H1.
  apply Forall_app in H4 as [H4a [[Hne [Hw Hr]] H4b]%Forall_cons].
  split; [|split; [exact H2|split; [by apply Forall_app|done]]].
  rewrite H1, <- app_assoc. apply Permutation_app_swap_app.
Qed.

Lemma HandleWriteFailure_ok f uc rp c :
  sane (pending_purges_ c) -> wf_but None rp -> records_ok rp -> uc <> [] ->
  (waiting_for_interprocess_lock_ c = true <-> pending_callbacks_ c <> []) ->
  exists uc' lock c', HandleWriteFailure f uc rp c = Some (uc', lock, c') /\
    sane (pending_purges_ c') /\ reading_ c' = reading_ c /\
    uc' ++ pending_callbacks_ c' ≡ₚ uc ++ pending_callbacks_ c /\
    (waiting_for_interprocess_lock_ c' = true <-> pending_callbacks_ c' <> []) /\
    (b2n (waiting_for_interprocess_lock_ c') = b2n (waiting_for_interprocess_lock_ c) + b2n lock)%nat /\
    (lock = true -> uc' = []).
Proof.
  intros Hp Hw Hr Hne Hwait. unfold HandleWriteFailure. destruct (_ <=? _).
  - destruct (waiting_for_interprocess_lock_ c) eqn:E.
    + destruct (pending_callbacks_ c) as [|cb cbs] eqn:Ep; [by destruct (proj1 Hwait eq_refl)|].
      destruct (Merge_sane rp (pending_purges_ c) Hr Hp) as (p & -> & Hsp). cbn [mbind option_bind].
      eexists _, _, _. split; [reflexivity|]. cbn. split; [done|]. split; [done|].
      split; [apply (Permutation_app_comm (cb :: cbs))|]. by repeat split.
    + destruct (pending_callbacks_ c) as [|cb cbs] eqn:Ep; [|assert (false = true) by (by apply Hwait); done].
      destruct uc as [|u uc]; [done|]. cbn [Swap].
      eexists _, _, _. split; [reflexivity|]. cbn. split; [|split; [done|split; [by rewrite app_nil_r|by repeat split]]].
      split; [by destruct Hw; constructor|by destruct Hr|by apply Hp].
  - eexists _, _, _. split; [reflexivity|]. cbn. split; [done|]. split; [done|]. split; [done|].
    split; [done|]. split; [lia|done].
Qed.

Lemma Inv_finish s cbs i written verify b uc rp f :
  Inv s cbs -> updaters s !! i = Some (Modified b uc rp f) ->
  exists s', handle (Finish i written verify) s = Some s' /\ Inv s' cbs.
Proof.
  intros Hi Hu. cbn [handle]. rewrite Hu.
  destruct (finish_split _ _ _ _ _ _ _ Hi Hu) as (us & -> & Hc & Hreq & Hok & Hne & Hw & Hr).
  destruct Hi as [H1 H2 H3 H4 H5 H6]. clear H1 H2 H4. unfold Update_finish.
  destruct (written && _) eqn:Es.
  - cbn [mbind option_bind]. destruct uc as [|u uc]; [done|].
    eexists. split; [reflexivity|]. split; cbn [run_callbacks with_context with_updaters context updaters lock_requests
      polls answered bump_purge_index count pending_callbacks_ waiting_for_interprocess_lock_ reading_ pending_purges_];
      [|done|done|done|done|done].
    rewrite fmap_app, answered_fst, Hc. rewrite (Permutation_app_comm (u :: uc)). by rewrite <- !app_assoc.
  - change (context (with_updaters us s)) with (context s).
    destruct (HandleWriteFailure_ok f uc rp (count (add_contentions 1) (count (add_writes 1) (context s))) H6 Hw Hr Hne H3)
      as (uc' & lock & c' & -> & Hsp & Hrd & Hperm & Hwait & Hb & Hlock). cbn [mbind option_bind].
    cbn [with_updaters context] in *.
    change (pending_callbacks_ (count _ (count _ (context s)))) with (pending_callbacks_ (context s)) in Hperm.
    change (waiting_for_interprocess_lock_ (count _ (count _ (context s))))
      with (waiting_for_interprocess_lock_ (context s)) in Hb.
    change (reading_ (count _ (count _ (context s)))) with (reading_ (context s)) in Hrd.
    rewrite app_assoc, <- Hperm in Hc. destruct uc' as [|u uc'].
    + destruct lock; eexists; (split; [reflexivity|]); split;
        cbn [request_lock with_context with_updaters context updaters lock_requests polls answered];
        try done; try (by rewrite Hrd); cbn [app] in Hc; try done; rewrite Hb; cbn; lia.
    + destruct lock; [by specialize (Hlock eq_refl)|]. eexists. split; [reflexivity|].
      split; cbn [run_callbacks with_context with_updaters context updaters lock_requests polls answered];
        [|rewrite Hb; cbn; lia|done|done|by rewrite Hrd|done].
      rewrite fmap_app, answered_fst, Hc, <- app_assoc. rewrite (Permutation_app_comm (u :: uc')).
      by rewrite <- !app_assoc.
Qed.

Lemma Inv_poll_start s cbs now : Inv s cbs -> Inv (Poll_start now s) cbs.
Proof.
  intros [H1 H2 H3 H4 H5 H6]. unfold Poll_start. destruct (reading_ (context s)) eqn:E; cbn [negb andb].
  { split; rewrite ?E; done. }
  destruct (_ || _); [|split; rewrite ?E; done].
  split; cbn; try done. rewrite length_app, H5. done.
Qed.

Lemma Inv_poll_finish s cbs i mtime buffer now has_cb :
  Inv s cbs -> is_Some (polls s !! i) -> event_ok (PollFinish i mtime buffer now has_cb) ->
  exists s', handle (PollFinish i mtime buffer now has_cb) s = Some s' /\ Inv s' cbs.
Proof.
  intros [H1 H2 H3 H4 H5 H6] [nu Hnu] [[Hm Hb] Hn]. cbn [handle]. rewrite Hnu. cbn [mbind option_bind].
  unfold Poll_finish. change (context (with_polls _ s)) with (context s).
  destruct (reading_ (context s)) eqn:E; cbn [negb]; cycle 1.
  { destruct (polls s); [done|cbn in H5; lia]. }
  assert (Hd : delete i (polls s) = []).
  { destruct (polls s) as [|b [|b' l]]; cbn in H5; try lia. by destruct i. }
  destruct (ReadPurgeFile_sane mtime buffer now (set_max_size max_bytes_in_cache_ (new_PurgeSet 1)) Hm Hb Hn)
    as (p & f & -> & _).
  { destruct (new_PurgeSet_sane 1 ltac:(lia)) as [Hw Hr Hl]. split; [|done|done].
    by apply set_max_ok. }
  cbn [mbind option_bind]. rewrite Hd.
  destruct (Equals _ _); cbn [negb]; [|destruct has_cb, nu]; eexists; (split; [reflexivity|]); by split.
Qed.

(** Every enabled event can be handled, and keeps the invariant. *)
Lemma Inv_step s cbs e :
  Inv s cbs -> enabled e s -> event_ok e ->
  exists s', handle e s = Some s' /\ Inv s' (cbs ++ requested e).
Proof.
  intros Hi He Ho. destruct e as [url t cb|t cb| | |i mt buf now|i w v|now|i mt buf now h|];
    cbn [requested]; rewrite ?app_nil_r.
  - cbn [handle]. unfold AddPurgeUrl. destruct enable_purge_; cbn [negb].
    + destruct Ho as [Hk Ht]. destruct (Put_sane url t _ (inv_pending _ _ Hi) Hk Ht) as (p & -> & Hp).
      cbn [mbind option_bind]. eexists. split; [done|]. by apply Inv_add_pending.
    + eexists. split; [done|]. destruct Hi as [H1 H2 H3 H4 H5 H6]. split; cbn; try done.
      rewrite fmap_app. cbn. by rewrite H1, <- !app_assoc.
  - cbn [handle]. unfold SetCachePurgeGlobalTimestampMs.
    destruct (UpdateGlobal_sane t _ (inv_pending _ _ Hi) Ho) as (b & p & -> & Hp).
    cbn [mbind option_bind]. eexists. split; [done|]. by apply Inv_add_pending.
  - by apply Inv_lock_granted.
  - by apply Inv_cancel.
  - by apply Inv_modify.
  - cbn [enabled] in He. destruct (updaters s !! i) as [[|b uc rp f]|] eqn:Hu; [done| |done].
    by apply (Inv_finish s cbs i w v b uc rp f).
  - eexists. split; [done|]. by apply Inv_poll_start.
  - by apply Inv_poll_finish.
  - eexists. split; [done|]. by destruct Hi; split.
Qed.

Lemma reachable_Inv s cbs : reachable s cbs -> Inv s cbs.
Proof.
  induction 1 as [|s cbs e s' Hr IH He Ho Hh]; [apply Inv_new|].
  destruct (Inv_step s cbs e IH He Ho) as (s'' & Hh' & Hi). congruence.
Qed.

(** ** Reading back what was written *)

Definition record_line (r : bytes * Z) : bytes := Integer64ToString r.2 ++ " "%char :: r.1.

Definition no_newline (p : PurgeSet) : Prop := forall kv, kv ∈ entries p -> nl ∉ kv.1.

Lemma int_no_sep z : Forall (fun c => one_of [nl] c = false) (Integer64ToString z).
Proof.
  apply Forall_forall. intros c Hc. rewrite one_of_single. apply bool_decide_eq_false. intros ->.
  by apply (Integer64ToString_not_in z nl).
Qed.

Lemma line_no_sep r : nl ∉ r.1 -> Forall (fun c => one_of [nl] c = false) (record_line r).
Proof.
  intros Hr. apply Forall_app. split; [apply int_no_sep|]. constructor; [done|].
  apply Forall_forall. intros c Hc. rewrite one_of_single. apply bool_decide_eq_false. by intros ->.
Qed.

Lemma pieces_line a s :
  Forall (fun c => one_of [nl] c = false) a ->
  pieces (one_of [nl]) (a ++ nl :: s) = a :: pieces (one_of [nl]) s.
Proof.
  intros Ha. rewrite pieces_app by done. cbn [pieces]. rewrite one_of_single, bool_decide_eq_true_2 by done.
  by rewrite app_nil_r.
Qed.

Lemma pieces_records rs :
  Forall (fun r => nl ∉ r.1) rs ->
  non_empty true (pieces (one_of [nl]) (concat (map print_record rs))) = map record_line rs.
Proof.
  induction 1 as [|r rs Hr _ IH]; [done|]. cbn [map concat]. unfold print_record at 1.
  change (Integer64ToString r.2 ++ " "%char :: r.1 ++ [nl]) with (Integer64ToString r.2 ++ (" "%char :: r.1) ++ [nl]).
  rewrite app_assoc. fold (record_line r). rewrite <- app_assoc. cbn [app].
  rewrite pieces_line by (by apply line_no_sep). cbn [non_empty]. rewrite filter_cons.
  rewrite decide_True by (unfold record_line; by destruct (Integer64ToString r.2)). f_equal. exact IH.
Qed.

Lemma pieces_serialize p :
  no_newline p ->
  non_empty true (pieces (one_of [nl]) (serialize p)) =
    Integer64ToString (global p) :: map record_line (oldest_to_youngest p).
Proof.
  intros Hp. unfold serialize. cbn [app]. rewrite pieces_line by apply int_no_sep.
  cbn [non_empty]. rewrite filter_cons, decide_True by apply Integer64ToString_nonempty. f_equal.
  apply pieces_records, Forall_forall. intros r Hr. apply Hp. by apply elem_of_oldest_to_youngest.
Qed.

Lemma memchr_first a c b : c ∉ a -> memchr (a ++ c :: b) c = Some (length a).
Proof.
  induction a as [|d a IH]; cbn; [by rewrite bool_decide_eq_true_2|]. rewrite not_elem_of_cons.
  intros [Hd Ha]. rewrite bool_decide_eq_false_2 by done. by rewrite IH.
Qed.

Lemma ParseAndValidate_print t now :
  time_ok t -> (t = kInitialTimestampMs \/ 0 <= t <= now + kClockSkewAllowanceMs) ->
  ParseAndValidateTimestamp (Integer64ToString t) now = Some t.
Proof.
  intros Ht Hv. unfold ParseAndValidateTimestamp.
  rewrite StringToInt64_print by (unfold int64, time_ok, kInitialTimestampMs, int64_max in *; lia).
  destruct (Z.eqb_spec t kInitialTimestampMs); cbn [negb andb]; [done|].
  destruct Hv as [?|Hv]; [done|]. rewrite (proj2 (Z.ltb_ge _ _)), (proj2 (Z.ltb_ge _ _)) by lia. done.
Qed.

Lemma ReadPurgeLine_record r now p :
  0 <= r.2 <= now + kClockSkewAllowanceMs -> time_ok r.2 ->
  ReadPurgeLine (record_line r) now p = '(_, p) ← PurgeSet.Put r.1 r.2 p; Some (p, 0).
Proof.
  intros Hr Ht. unfold ReadPurgeLine.
  assert (Hmem : memchr (record_line r) " " = Some (length (Integer64ToString r.2)))
    by (apply memchr_first; by apply Integer64ToString_not_in).
  rewrite Hmem. unfold record_line at 2 3. rewrite take_app_length, ParseAndValidate_print by tauto.
  rewrite (cons_middle _ (Integer64ToString r.2)), app_assoc.
  replace (S (length (Integer64ToString r.2))) with (length (Integer64ToString r.2 ++ [" "%char]))
    by (rewrite length_app; cbn; lia).
  rewrite drop_app_length. unfold record_line. by destruct (Integer64ToString r.2).
Qed.

(** [Put] never answers [false]. *)
Lemma Put_true k t p b p' : PurgeSet.Put k t p = Some (b, p') -> b = true.
Proof.
  unfold PurgeSet.Put. destruct (SanitizeTimestamp t p) as [[[ok t'] p1]|]; cbn [mbind option_bind]; [|done].
  destruct ok; cbn [negb]; [|by intros [= <-]]. destruct (_ <? _); [|by intros [= <-]].
  destruct (LruCache.Put k t' p1); cbn [mbind option_bind]; [by intros [= <-]|done].
Qed.

Lemma ReadPurgeLines_put_all rs now : forall p,
  Forall (fun r => 0 <= r.2 <= now + kClockSkewAllowanceMs /\ time_ok r.2) rs ->
  ReadPurgeLines (map record_line rs) now p = p ← put_all rs p; Some (p, 0).
Proof.
  induction rs as [|[k v] rs IH]; intros p Hrs; [done|]. apply Forall_cons in Hrs as [[Hr Ht] Hrs].
  cbn [map ReadPurgeLines put_all]. rewrite ReadPurgeLine_record by done. cbn [fst snd].
  destruct (PurgeSet.Put k v p) as [[b p1]|] eqn:E; cbn [mbind option_bind]; [|done].
  apply Put_true in E as ->. rewrite IH by done. by destruct (put_all rs p1).
Qed.

(** Records at or before the global timestamp change nothing. *)
Lemma put_all_skip rs : forall p,
  wf p -> last_invalidation p = global p -> StronglySorted older rs ->
  Forall (fun r => time_ok r.2) rs ->
  put_all rs p = put_all (filter (fun r : bytes * Z => global p < r.2) rs) p.
Proof.
  induction rs as [|[k v] rs IH]; intros p Hp Hl Hs Ht; [done|].
  apply StronglySorted_inv in Hs as [Hs Hx]. apply Forall_cons in Ht as [Hv Ht].
  rewrite filter_cons. case_decide as Hd; cbn [snd] in Hd.
  - rewrite (list_filter_id _ rs); [done|]. intros r Hr. rewrite Forall_forall in Hx.
    apply Hx in Hr. unfold older in Hr. cbn in Hr. lia.
  - cbn [put_all]. unfold PurgeSet.Put. rewrite SanitizeTimestamp_ok by done.
    assert (Hmax : Z.max v (last_invalidation p) = last_invalidation p) by lia. rewrite Hmax.
    assert (Hset : set_last (last_invalidation p) p = p).
    { unfold set_last, with_helper, last_invalidation, global. by destruct p as [? ? ? ? ? [? ? ?] ?]. }
    rewrite Hset. destruct (_ <=? _); cbn [mbind option_bind negb].
    + rewrite Hl, Z.ltb_irrefl. cbn [mbind option_bind]. by apply IH.
    + by apply IH.
Qed.

(** The set a serialised set is read into. *)
Lemma ReadPurgeFile_serialize p mtime now :
  enable_purge_ = true -> wf p -> no_newline p -> LruCache.max_bytes_in_cache_ p = max_bytes_in_cache_ ->
  0 <= now -> last_invalidation p <= now + kClockSkewAllowanceMs < int64_max ->
  Z.of_nat (length (serialize p)) <= 2 ^ 31 ->
  exists p', ReadPurgeFile mtime (Some (serialize p)) now (new_PurgeSet max_bytes_in_cache_) = Some (p', 0) /\
    wf p' /\ forall k, horizon p' k = Z.max 0 (horizon p k).
Proof.
  intros He Hp Hnl Hm Hnow Hl Hlen. unfold ReadPurgeFile. rewrite He. cbn [negb].
  rewrite Split_pieces by done. cbn [mbind option_bind app]. rewrite pieces_serialize by done.
  pose proof (wf_global _ Hp) as Hg. pose proof (wf_last _ Hp) as Hlast.
  rewrite ParseAndValidate_print by (unfold time_ok, kInitialTimestampMs in *; lia).
  set (p0 := new_PurgeSet max_bytes_in_cache_). assert (Hp0 : wf p0) by by apply new_PurgeSet_wf.
  set (G := Z.max (global p) 0).
  assert (HU : UpdateGlobalInvalidationTimestampMs (global p) p0 = Some (true, set_global G (set_last G p0))).
  { unfold UpdateGlobalInvalidationTimestampMs.
    rewrite SanitizeTimestamp_ok by (unfold time_ok in *; (done || lia)).
    change (last_invalidation p0) with 0. unfold kInitialTimestampMs in *.
    rewrite (proj2 (Z.leb_le _ _)) by (unfold kClockSkewAllowanceMs; lia). cbn [mbind option_bind].
    do 3 f_equal. change (global (set_last (Z.max (global p) 0) p0)) with (-1). lia. }
  rewrite HU. cbn [mbind option_bind]. set (p1 := set_global G (set_last G p0)).
  assert (Hp1 : wf p1).
  { apply set_global_wf; [apply set_last_wf; [done|]|];
      [change (last_invalidation p0) with 0; unfold int64_max in *; lia|].
    change (global (set_last G p0)) with (-1). change (last_invalidation (set_last G p0)) with G. lia. }
  assert (Hrs : forall r, r ∈ oldest_to_youngest p -> 0 <= r.2 <= now + kClockSkewAllowanceMs /\ time_ok r.2 /\ key_ok r.1).
  { intros r Hr%elem_of_oldest_to_youngest. pose proof (wf_values _ Hp r Hr). pose proof (entry_key_ok p r Hp Hr).
    split; [lia|]. split; [unfold time_ok, kInitialTimestampMs; lia|done]. }
  rewrite ReadPurgeLines_put_all by (apply Forall_forall; intros r Hr; apply Hrs in Hr; tauto).
  rewrite put_all_skip; [|done|done|by apply oldest_to_youngest_sorted|apply Forall_forall; intros r Hr; by apply Hrs].
  set (rs := filter _ _).
  assert (Hin : forall r, r ∈ rs <-> G < r.2 /\ r ∈ entries p)
    by (intros r; unfold rs; by rewrite list_elem_of_filter, elem_of_oldest_to_youngest).
  assert (Hok : forall kv, kv ∈ rs -> last_invalidation p1 <= kv.2 /\ time_ok kv.2 /\ key_ok kv.1).
  { intros kv [Hlt Hkv]%Hin. apply elem_of_oldest_to_youngest, Hrs in Hkv.
    change (last_invalidation p1) with G. split; [lia|tauto]. }
  assert (Hsort : StronglySorted older rs) by by apply StronglySorted_filter, oldest_to_youngest_sorted.
  destruct (put_all_keeps rs p1 Hp1 Hsort Hok) as (p' & Hput & Hp' & Hk & Hr). rewrite Hput.
  cbn [mbind option_bind]. exists p'. split; [done|]. split; [done|]. intros k.
  apply Z.le_antisymm.
  - eapply (put_all_exact rs p1 p'); [done..| |exact Hput| |].
    + change (bytes_used p1) with 0. change (LruCache.max_bytes_in_cache_ p1) with max_bytes_in_cache_.
      pose proof (total_sublist (H:=Timestamps) rs (oldest_to_youngest p) (sublist_filter _ _)) as Ht.
      rewrite (total_Permutation (oldest_to_youngest p) (entries p)) in Ht by apply reverse_Permutation.
      pose proof (wf_within _ Hp). lia.
    + change (horizon p1 k) with G. pose proof (horizon_global p k). lia.
    + intros v [_ Hkv]%Hin. pose proof (horizon_entry p k v (wf_lru _ Hp) Hkv). lia.
  - pose proof (keeps_global _ _ Hk) as Hg1. change (global p1) with G in Hg1.
    pose proof (horizon_global p' k). apply Z.max_lub; [lia|].
    apply horizon_le; [lia| |apply Hp]. intros t Hkt.
    destruct (Z.lt_ge_cases G t); [|lia]. apply Hr; [by apply Hin|].
    pose proof (wf_fits _ Hp _ Hkt) as Hf. unfold fits in *. cbn in Hf. by rewrite Hm in Hf.
Qed.

(** ** Sets that can be written to the file and read back *)

Record writable (bound : Z) (p : PurgeSet) : Prop := {
  writable_wf : wf p;
  writable_newline : no_newline p;
  writable_last : last_invalidation p <= bound
}.

Lemma wf_sane p : wf p -> sane p.
Proof.
  intros Hp. pose proof (wf_global _ Hp). pose proof (wf_last _ Hp).
  split; [apply Hp|split|done]; [unfold time_ok; lia|].
  intros kv Hkv. pose proof (wf_values _ Hp _ Hkv). split; [|by apply (entry_key_ok p)].
  unfold time_ok, kInitialTimestampMs. lia.
Qed.

(** [Put] adds no key but its own, and no timestamp beyond its own. *)
Lemma spec_insert_keys k t l s kv :
  kv ∈ spec_entries (spec_insert (H:=Timestamps) k t l s) -> kv.1 = k \/ kv ∈ l.
Proof.
  unfold spec_insert. destruct (_ <? _); cbn [spec_entries]; [|by right].
  intros [->|Hin]%elem_of_cons; [by left|right]. eapply elem_of_sublist; [exact Hin|apply keep_sublist].
Qed.

Lemma spec_put_keys k t p kv :
  kv ∈ spec_entries (spec_put k t (abs p)) -> kv.1 = k \/ kv ∈ entries p.
Proof.
  unfold spec_put. cbn [spec_entries abs]. destruct (find_key k (entries p)) as [old|].
  - destruct (negb _); [by right|]. destruct (Equal t old); cbn [spec_entries].
    + intros [->|Hin]%elem_of_cons; [by left|right]. by apply elem_of_remove_key in Hin as [_ ?].
    + intros [?|Hin]%spec_insert_keys; [by left|right]. by apply elem_of_remove_key in Hin as [_ ?].
  - apply spec_insert_keys.
Qed.

Lemma Put_writable bound k t p :
  writable bound p -> key_ok k -> time_ok t -> nl ∉ k -> t <= bound ->
  exists p', PurgeSet.Put k t p = Some (true, p') /\ writable bound p' /\ keeps p p'.
Proof.
  intros [Hp Hnl Hl] Hk Ht Hnk Hb.
  destruct (Put_keeps k t p Hp Ht Hk) as (p' & Hput & Hp' & Hkeep & Hlast & _ & Hsame).
  exists p'. split; [done|]. split; [|done]. destruct (decide (accepted t p)) as [Ha|Ha].
  2:{ by rewrite (Hsame Ha). }
  split; [done| |rewrite (Hlast Ha); lia]. clear Hlast Hsame Hkeep.
  unfold PurgeSet.Put in Hput. rewrite SanitizeTimestamp_ok in Hput by done. unfold accepted in Ha.
  rewrite (proj2 (Z.leb_le _ _) Ha) in Hput. cbn [mbind option_bind negb] in Hput.
  set (t' := Z.max t (last_invalidation p)) in *. destruct (_ <? _); [|by injection Hput as <-].
  destruct (Put_ok k t' (set_last t' p)) as (p2 & Hput2 & _ & Ha2).
  { pose proof (wf_last _ Hp). apply set_last_wf; [done|unfold time_ok in *; lia]. }
  { change (entry_size (k, t')) with (Z.of_nat (length k) + 8). unfold key_ok in Hk. lia. }
  rewrite Hput2 in Hput. injection Hput as <-. intros kv Hkv.
  change (entries p2) with (spec_entries (abs p2)) in Hkv. rewrite Ha2 in Hkv.
  apply spec_put_keys in Hkv as [->|Hkv]; [done|by apply Hnl].
Qed.

Lemma UpdateGlobal_writable bound t p :
  writable bound p -> time_ok t -> t <= bound ->
  exists b p', UpdateGlobalInvalidationTimestampMs t p = Some (b, p') /\ writable bound p' /\ keeps p p'.
Proof.
  intros [Hp Hnl Hl] Ht Hb. destruct (UpdateGlobal_keeps t p Hp Ht) as (p' & HU & Hp' & Hkeep & _).
  eexists _, p'. split; [done|]. split; [|done].
  unfold UpdateGlobalInvalidationTimestampMs in HU. rewrite SanitizeTimestamp_ok in HU by done.
  destruct (_ <=? _); cbn [mbind option_bind] in HU; injection HU as _ <-; [|done].
  split; [done|exact Hnl|].
  change (last_invalidation (set_global _ (set_last ?z p))) with z. lia.
Qed.

Lemma put_all_writable bound rs : forall p,
  writable bound p ->
  (forall r, r ∈ rs -> time_ok r.2 /\ r.2 <= bound /\ key_ok r.1 /\ nl ∉ r.1) ->
  exists p', put_all rs p = Some p' /\ writable bound p'.
Proof.
  induction rs as [|[k v] rs IH]; intros p Hp Hr; cbn [put_all]; [eauto|].
  destruct (Hr (k, v) ltac:(left)) as (H1 & H2 & H3 & H4).
  destruct (Put_writable bound k v p Hp H3 H1 H4 H2) as (p1 & -> & Hp1 & _). cbn [mbind option_bind].
  apply IH; [done|]. intros r Hin. apply Hr. by right.
Qed.

Lemma Merge_writable bound src p :
  writable bound src -> writable bound p -> exists p', Merge src p = Some p' /\ writable bound p'.
Proof.
  intros [Hs Hsn Hsl] [Hp Hpn Hpl]. rewrite Merge_put_all. apply put_all_writable.
  - split; [by apply merge_base_wf|by intros ? ?%elem_of_nil|].
    change (last_invalidation (merge_base src p)) with (Z.max (global p) (global src)).
    pose proof (wf_global _ Hs). pose proof (wf_global _ Hp). lia.
  - intros r Hr. pose proof (records_to_merge_ok src p r Hs Hp Hr) as (_ & H1 & H2).
    apply elem_of_records_to_merge in Hr as [_ Hr]. split; [done|].
    destruct Hr as [Hr|Hr]; [pose proof (wf_values _ Hs _ Hr)|pose proof (wf_values _ Hp _ Hr)];
      (split; [lia|split; [done|auto]]).
Qed.

Lemma ParseAndValidate_bound s now t :
  0 <= now -> ParseAndValidateTimestamp s now = Some t -> t <= now + kClockSkewAllowanceMs.
Proof.
  intros Hn. unfold ParseAndValidateTimestamp, kInitialTimestampMs, kClockSkewAllowanceMs.
  destruct (StringToInt64 s) as [z|]; [|done].
  destruct (Z.eqb_spec z (-1)); cbn [negb andb]; [intros [= <-]; lia|].
  destruct (_ <? 0); cbn [orb]; [done|]. destruct (Z.ltb_spec (now + 10 * (60 * 1000)) z); [done|]. intros [= <-]. lia.
Qed.

Lemma ReadPurgeLines_writable lines now : forall p,
  0 <= now -> now + kClockSkewAllowanceMs < int64_max ->
  writable (now + kClockSkewAllowanceMs) p -> Forall (fun l => key_ok l /\ nl ∉ l) lines ->
  exists p' f, ReadPurgeLines lines now p = Some (p', f) /\
    writable (now + kClockSkewAllowanceMs) p' /\ keeps p p'.
Proof.
  intros p H0 Hn. revert p. induction lines as [|line lines IH]; intros p Hp Hl; cbn [ReadPurgeLines].
  { eexists _, _. split; [done|]. split; done. }
  apply Forall_cons in Hl as [[Hk Hnl] Hl].
  assert (exists p1 f1, ReadPurgeLine line now p = Some (p1, f1) /\
    writable (now + kClockSkewAllowanceMs) p1 /\ keeps p p1) as (p1 & f1 & -> & Hp1 & Hk1).
  { assert (forall f : Z, exists p1 (f1 : Z), Some (p, f) = Some (p1, f1) /\
      writable (now + kClockSkewAllowanceMs) p1 /\ keeps p p1) as Hsame
      by (intros f; eexists _, _; split; [done|split; done]).
    unfold ReadPurgeLine. destruct line as [|c line]; [apply Hsame|].
    destruct (memchr _ _) as [pos|]; [|apply Hsame].
    destruct (ParseAndValidateTimestamp _ now) as [t|] eqn:E; [|apply Hsame].
    pose proof (ParseAndValidate_bound _ _ _ H0 E) as Hb. apply ParseAndValidate_time_ok in E; [|done].
    destruct (Put_writable (now + kClockSkewAllowanceMs) (drop (S pos) (c :: line)) t p Hp)
      as (p1 & -> & Hp1 & Hk1); [|done| |done|cbn; eauto].
    - unfold key_ok in *. rewrite length_drop. lia.
    - intros Hin. apply Hnl. eapply elem_of_sublist; [exact Hin|apply sublist_drop]. }
  cbn [mbind option_bind]. destruct (IH p1 Hp1 Hl) as (p' & f & -> & Hp' & Hk'). cbn.
  eexists _, _. split; [done|]. split; [done|by etrans].
Qed.

Lemma new_writable bound m : 0 <= m <= 2 ^ 63 -> 0 <= bound -> writable bound (new_PurgeSet m).
Proof. intros Hm Hb. split; [by apply new_PurgeSet_wf|by intros ? ?%elem_of_nil|done]. Qed.

Lemma ReadPurgeFile_writable mtime buffer now :
  enable_purge_ = true -> (forall b, buffer = Some b -> Z.of_nat (length b) <= 2 ^ 31) ->
  0 <= now -> now + kClockSkewAllowanceMs < int64_max ->
  exists p' f, ReadPurgeFile mtime buffer now (new_PurgeSet max_bytes_in_cache_) = Some (p', f) /\
    writable (now + kClockSkewAllowanceMs) p' /\ LruCache.max_bytes_in_cache_ p' = max_bytes_in_cache_.
Proof.
  intros He Hb H0 Hn.
  assert (Hnew : writable (now + kClockSkewAllowanceMs) (new_PurgeSet max_bytes_in_cache_))
    by (apply new_writable; [done|unfold kClockSkewAllowanceMs; lia]).
  unfold ReadPurgeFile. rewrite He. cbn [negb]. destruct buffer as [b|]; [|eauto].
  specialize (Hb b eq_refl). rewrite Split_pieces by done. cbn [mbind option_bind app].
  assert (Hl : Forall (fun l => key_ok l /\ nl ∉ l) (non_empty true (pieces (one_of [nl]) b))).
  { apply Forall_forall. intros line [_ Hin]%list_elem_of_filter.
    pose proof (pieces_short (one_of [nl]) b) as Hs. rewrite Forall_forall in Hs. specialize (Hs _ Hin).
    pose proof (pieces_no_sep (one_of [nl]) b) as Hns. rewrite Forall_forall in Hns.
    specialize (Hns _ Hin). rewrite Forall_forall in Hns. split; [unfold key_ok; lia|].
    intros Hc. specialize (Hns _ Hc). rewrite one_of_single in Hns. by apply bool_decide_eq_false in Hns. }
  destruct (non_empty _ _) as [|line0 lines]; [eauto|]. apply Forall_cons in Hl as [_ Hl].
  destruct (ParseAndValidateTimestamp line0 now) as [t|] eqn:E; [|eauto].
  pose proof (ParseAndValidate_bound _ _ _ H0 E) as Htb. apply ParseAndValidate_time_ok in E; [|done].
  destruct (UpdateGlobal_writable _ t _ Hnew E Htb) as (b' & p1 & -> & Hp1 & Hk1). cbn [mbind option_bind].
  destruct (ReadPurgeLines_writable lines now p1 H0 Hn Hp1 Hl) as (p' & f & -> & Hp' & Hk').
  exists p', f. split; [done|]. split; [done|]. by rewrite (keeps_max _ _ Hk'), (keeps_max _ _ Hk1).
Qed.

Lemma Update_finish_true buf cbs rp f written verify s s' :
  Update_finish buf cbs rp f written verify s = Some s' ->
  answered s' = answered s ++ map (fun cb => (cb, true)) cbs -> cbs <> [] -> verify = Some buf.
Proof.
  intros Hf Ha Hne. unfold Update_finish in Hf. destruct written; cbn [andb] in Hf.
  1: destruct (decide (verify = Some buf)) as [|Hv]; [done|];
     rewrite bool_decide_eq_false_2 in Hf by done.
  all: destruct (HandleWriteFailure _ _ _ _) as [[[uc lock] c]|]; cbn [mbind option_bind] in Hf; [|done].
  all: destruct cbs as [|cb cbs]; [done|]; destruct uc as [|u uc]; injection Hf as <-.
  all: try (cbn in Ha; apply app_inv_head in Ha; discriminate).
  all: assert (Ha' : answered s ++ [] = answered s ++ map (fun cb => (cb, true)) (cb :: cbs))
    by (rewrite app_nil_r, <- Ha; by destruct lock).
  all: apply app_inv_head in Ha'; discriminate.
Qed.

(** ** Properties *)

(** C3: Exactly-once callbacks: under every interleaving of requests, lock
    grants and timeouts, file updates with any outcome and polls, the callbacks
    requested so far are, with multiplicity, those pending, those carried by a
    transaction in flight and those answered; whenever callbacks are pending a
    lock request or a transaction that will take them exists; and when nothing
    is in flight, every callback has been answered exactly once. *)
Theorem callbacks_exactly_once s cbs :
  reachable s cbs ->
  cbs ≡ₚ pending_callbacks_ (context s) ++ concat (map updater_callbacks (updaters s)) ++ (answered s).*1 /\
  (pending_callbacks_ (context s) <> [] -> lock_requests s <> O \/ Reading ∈ updaters s) /\
  (lock_requests s = O -> updaters s = [] -> cbs ≡ₚ (answered s).*1).
Proof.
  intros Hr. destruct (reachable_Inv s cbs Hr) as [H1 H2 H3 H4 H5 H6]. split; [done|].
  assert (Hsome : pending_callbacks_ (context s) <> [] -> lock_requests s <> O \/ Reading ∈ updaters s).
  { intros Hne. apply H3 in Hne. rewrite Hne in H2. cbn in H2. destruct (lock_requests s); [right|by left].
    destruct (filter is_reading (updaters s)) as [|u l] eqn:E; [cbn in H2; lia|].
    assert (Hu : u ∈ filter is_reading (updaters s)) by (rewrite E; left).
    apply list_elem_of_filter in Hu as [-> Hu]. done. }
  split; [done|]. intros Hl Hu. rewrite H1, Hu. cbn.
  destruct (pending_callbacks_ (context s)) as [|cb l]; [done|].
  destruct (Hsome ltac:(done)) as [|Hin]; [done|]. rewrite Hu in Hin. by apply elem_of_nil in Hin.
Qed.

(** No reachable event fails: every [CHECK] and [DCHECK] of the update, failure, cancel
    and poll paths holds, and no timestamp arithmetic overflows, whatever the file contains.
    The [DCHECK] of [PurgeSet::EvictNotify], which the sets remember in [dchecks_held], is
    not one of them: PurgeDurable shows that it can fail. *)
Lemma no_event_fails s cbs e :
  reachable s cbs -> enabled e s -> event_ok e ->
  exists s', handle e s = Some s' /\ reachable s' (cbs ++ requested e).
Proof.
  intros Hr He Ho. destruct (Inv_step s cbs e (reachable_Inv s cbs Hr) He Ho) as (s' & Hs' & _).
  exists s'. split; [done|]. by econstructor.
Qed.

(** C30: What [ModifyPurgeSet] writes, [ReadPurgeFile] reads back without a
    parse failure into a set that purges the same: the horizon of every URL is
    preserved (an unset global timestamp, -1, is read back as 0). *)
Theorem purge_file_roundtrip (p : PurgeSet) (mtime : option Z) (now : Z) :
  enable_purge_ = true -> wf p -> no_newline p -> LruCache.max_bytes_in_cache_ p = max_bytes_in_cache_ ->
  0 <= now -> last_invalidation p <= now + kClockSkewAllowanceMs < int64_max ->
  Z.of_nat (length (serialize p)) <= 2 ^ 31 ->
  exists p', ReadPurgeFile mtime (Some (serialize p)) now (new_PurgeSet max_bytes_in_cache_) = Some (p', 0) /\
    wf p' /\ forall k, horizon p' k = Z.max 0 (horizon p k).
Proof. exact (ReadPurgeFile_serialize p mtime now). Qed.

End purge_context.

(** The file format has no escape for a newline, and [AddPurgeUrl] accepts
    URLs that contain one: such a purge is acknowledged, but what is read back
    from the verified file does not purge the URL, and purges another one. *)
Lemma newline_url_is_lost :
  let T := decimal_text in
  let url := lit "a" ++ [nl] ++ lit "500 b" in
  ('(_, p) ← PurgeSet.Put url 1000 (new_PurgeSet 100);
   '(p', parse_failures) ← ReadPurgeFile true None (Some (serialize p)) 2000 (new_PurgeSet 100);
   Some (parse_failures, fst <$> IsValid url 1000 p, fst <$> IsValid url 1000 p',
         fst <$> IsValid (lit "b") 400 p, fst <$> IsValid (lit "b") 400 p'))
  = Some (0, Some false, Some true, Some true, Some false).
Proof. vm_compute. reflexivity. Qed.

(** *** Witnesses *)

(** Running a list of events. *)
Definition enabledb (e : event) (s : System) : bool :=
  match e with
  | LockGranted | LockTimedOut => negb (lock_requests s =? 0)%nat
  | Modify i _ _ _ => match updaters s !! i with Some Reading => true | _ => false end
  | Finish i _ _ => match updaters s !! i with Some (Modified _ _ _ _) => true | _ => false end
  | PollFinish i _ _ _ _ => match polls s !! i with Some _ => true | None => false end
  | _ => true
  end.

Lemma enabledb_enabled e s : enabledb e s = true -> enabled e s.
Proof.
  destruct e as [| | | |i ? ? ?|i ? ?| |i ? ? ? ?|]; cbn; try done.
  - by destruct (lock_requests s).
  - by destruct (lock_requests s).
  - by destruct (updaters s !! i) as [[]|].
  - by destruct (updaters s !! i) as [[]|].
  - destruct (polls s !! i); [eauto|done].
Qed.

Fixpoint run_events (T : Int64Text) (es : list event) (s : System) : option System :=
  match es with
  | [] => Some s
  | e :: es' => if enabledb e s then s ← handle (T:=T) true 100 e s; run_events T es' s else None
  end.

Lemma run_events_reachable T es : forall s cbs s',
  reachable (T:=T) true 100 s cbs -> Forall event_ok es -> run_events T es s = Some s' ->
  reachable (T:=T) true 100 s' (cbs ++ concat (map requested es)).
Proof.
  induction es as [|e es IH]; intros s cbs s' Hs Hok Hrun; cbn in *.
  { injection Hrun as <-. by rewrite app_nil_r. }
  apply Forall_cons in Hok as [He Hok]. destruct (enabledb e s) eqn:En; [|done].
  destruct (handle true 100 e s) as [s1|] eqn:Eh; [|done]. cbn in Hrun.
  rewrite app_assoc. eapply IH; [|done|exact Hrun].
  econstructor; [done|by apply enabledb_enabled|done|done].
Qed.

Definition example_events : list event :=
  [RequestPurge (lit "a") 1000 1; LockGranted; RequestPurge (lit "b") 1001 2;
   Modify 0 None None 2000; Finish 0 true None; PollStart 6000].

Lemma example_events_ok : Forall event_ok example_events.
Proof.
  unfold example_events.
  apply Forall_cons_2; [split; by vm_compute|]. apply Forall_cons_2; [exact I|].
  apply Forall_cons_2; [split; by vm_compute|].
  apply Forall_cons_2; [split; [by split|by vm_compute]|].
  apply Forall_cons_2; [exact I|]. apply Forall_cons_2; [exact I|]. apply Forall_nil_2.
Qed.

Definition example_system : System :=
  match run_events decimal_text example_events (new_system 100) with Some s => s | None => new_system 100 end.

Lemma example_reachable : reachable (T:=decimal_text) true 100 example_system [1%nat; 2%nat].
Proof.
  apply (run_events_reachable decimal_text example_events (new_system 100) []);
    [apply reachable_new|apply example_events_ok|].
  vm_compute. reflexivity.
Qed.

Lemma callbacks_exactly_once_witness :
  [1%nat; 2%nat] ≡ₚ pending_callbacks_ (context example_system) ++
    concat (map updater_callbacks (updaters example_system)) ++ (answered example_system).*1 /\
  (pending_callbacks_ (context example_system) <> [] ->
     lock_requests example_system <> O \/ Reading ∈ updaters example_system) /\
  (lock_requests example_system = O -> updaters example_system = [] ->
     [1%nat; 2%nat] ≡ₚ (answered example_system).*1).
Proof.
  apply (callbacks_exactly_once (T:=decimal_text) true 100); [lia|apply example_reachable].
Defined.

Lemma no_event_fails_witness :
  exists s', handle (T:=decimal_text) true 100 LockTimedOut example_system = Some s' /\
    reachable (T:=decimal_text) true 100 s' ([1%nat; 2%nat] ++ requested LockTimedOut).
Proof.
  apply (no_event_fails (T:=decimal_text) true 100); [lia|apply example_reachable|by vm_compute|done].
Defined.

Definition example_purges : PurgeSet :=
  match PurgeSet.Put (lit "http://a/") 1000 (new_PurgeSet 100) with Some (_, p) => p | None => new_PurgeSet 100 end.

Lemma example_purges_writable : writable 601000 example_purges.
Proof.
  destruct (Put_writable 601000 (lit "http://a/") 1000 (new_PurgeSet 100)) as (p & Hp & Hw & _);
    [by apply new_writable|by vm_compute|done|by apply (bool_decide_unpack _); vm_compute|done|].
  unfold example_purges. by rewrite Hp.
Qed.

Lemma purge_file_roundtrip_witness :
  exists p', ReadPurgeFile (T:=decimal_text) true None (Some (serialize (T:=decimal_text) example_purges)) 1000
      (new_PurgeSet 100) = Some (p', 0) /\
    wf p' /\ forall k, horizon p' k = Z.max 0 (horizon example_purges k).
Proof.
  destruct example_purges_writable as [H1 H2 H3].
  apply (purge_file_roundtrip (T:=decimal_text) true 100); [lia|done|done|done|by vm_compute|lia|by vm_compute|by vm_compute].
Defined.
