(* ===== verification/PurgeDurable.v ===== *)
(** * PurgeContext: acknowledged purges are durable

    What the callbacks of [AddPurgeUrl] and [SetCachePurgeGlobalTimestampMs] are told. The
    runs are those in which the updates of the purge file exclude each other, as the lock
    between the processes is there for, no URL has a newline and no timestamp is later than
    a bound; the writes may fail as they like. Outside of them a purge can be lost, and the
    [DCHECK] of an eviction can fail ([newline_url_is_lost], [evicts_out_of_order]). *)

From S2P Require Import Prelude StringUtil LruCache PurgeSet Int64Text PurgeContext.

Section durable.
Context {T : Int64Text} (max_bytes : Z).
Hypothesis max_ok : 0 <= max_bytes <= 2 ^ 63.

(** ** Orderly runs *)

(** A purge of a URL or, without one, of everything up to a timestamp. *)
Definition Purge : Type := option bytes * Z.

(** The set purges what was asked for. *)
Definition covers (p : PurgeSet) (r : Purge) : Prop :=
  match r with (Some url, t) => fits url p /\ t <= horizon p url | (None, t) => t <= global p end.

(** The set has no entry of what was asked for. *)
Definition rejects (p : PurgeSet) (r : Purge) : Prop :=
  forall url t, (r.1 = None \/ r.1 = Some url) -> t <= r.2 -> exists p', IsValid url t p = Some (false, p').

(** Whoever reads the file, now or later, rejects what was asked for. *)
Definition holds (bound : Z) (buf : bytes) (r : Purge) : Prop :=
  Z.of_nat (length buf) <= 2 ^ 31 ->
  forall mtime now, 0 <= now -> bound <= now + kClockSkewAllowanceMs < int64_max ->
  exists p, ReadPurgeFile true mtime (Some buf) now (new_PurgeSet max_bytes) = Some (p, 0) /\ rejects p r.

(** What a request asks for, unless it is refused: the timestamp is too far in the past,
    or the URL too long for the set. *)
Definition asks (e : event) (s : System) : list (PurgeCallback * Purge) :=
  let p := pending_purges_ (context s) in
  match e with
  | RequestPurge url t cb => if decide (accepted t p) then if Z.of_nat (length url) + 8 <? max_bytes_in_cache_ p then [(cb, (Some url, t))] else [] else []
  | RequestGlobal t cb => if decide (accepted t p) then [(cb, (None, t))] else []
  | _ => []
  end.

(** Every request has a callback of its own, the lock excludes other updates, and [bound]
    is the latest time a request or a file may name. *)
Definition in_order (bound : Z) (e : event) (s : System) (cbs : list PurgeCallback) : Prop :=
  match e with
  | RequestPurge url t cb => (nl ∉ url) /\ t <= bound /\ (cb ∉ cbs)
  | RequestGlobal t cb => t <= bound /\ (cb ∉ cbs)
  | LockGranted => updaters s = []
  | Modify _ _ _ now => 0 <= now /\ now + kClockSkewAllowanceMs <= bound
  | _ => True
  end.

Inductive orderly (bound : Z) : System -> list PurgeCallback -> list (PurgeCallback * Purge) -> Prop :=
| orderly_new : 0 <= bound < int64_max -> orderly bound (new_system max_bytes) [] []
| orderly_step s cbs asked e s' :
    orderly bound s cbs asked -> enabled e s -> event_ok e -> in_order bound e s cbs -> handle true max_bytes e s = Some s' ->
    orderly bound s' (cbs ++ requested e) (asked ++ asks e s).

Lemma orderly_reachable bound s cbs asked : orderly bound s cbs asked -> reachable true max_bytes s cbs.
Proof. induction 1 as [|s cbs asked e s' _ IH He Ho _ Hs]; [constructor|by econstructor]. Qed.

(** ** The sets of such a run *)

(** [rp] are the purges of an update in flight: [last] is the last timestamp of the pending
    set, that it would get back. *)
Definition in_flight (bound last : Z) (rp : PurgeSet) : Prop := writable bound (set_last last rp) /\ max_bytes_in_cache_ rp = max_bytes.

Record Tidy (bound : Z) (s : System) (cbs : list PurgeCallback) (asked : list (PurgeCallback * Purge)) : Prop := {
  tidy_pending : writable bound (pending_purges_ (context s));
  tidy_max : max_bytes_in_cache_ (pending_purges_ (context s)) = max_bytes;
  tidy_one : updaters s = [] \/ exists u, updaters s = [u];
  tidy_flight b uc rp f : Modified b uc rp f ∈ updaters s -> in_flight bound (last_invalidation (pending_purges_ (context s))) rp;
  tidy_asked cb r : (cb, r) ∈ asked -> cb ∈ cbs;
  tidy_covers cb r : (cb, r) ∈ asked -> cb ∈ pending_callbacks_ (context s) -> covers (pending_purges_ (context s)) r;
  tidy_flying b uc rp f cb r : Modified b uc rp f ∈ updaters s -> (cb, r) ∈ asked -> cb ∈ uc -> covers rp r /\ holds bound b r;
}.

Lemma covers_keeps p p' r : keeps p p' -> covers p r -> covers p' r.
Proof.
  intros [Hh Hg Hm]. destruct r as [[url|] t]; cbn; [|lia]. unfold fits. rewrite Hm. intros [? ?]. split; [done|]. specialize (Hh url). lia.
Qed.

Lemma set_last_again y p : set_last (last_invalidation p) (set_last y p) = p.
Proof. by destruct p as [? ? ? ? ? [? ? ?] ?]. Qed.

Lemma set_last_id p : set_last (last_invalidation p) p = p.
Proof. by destruct p as [? ? ? ? ? [? ? ?] ?]. Qed.

Lemma Clear_writable bound last p : wf p -> kInitialTimestampMs <= last <= bound -> bound < int64_max -> writable bound (PurgeSet.Clear (set_last last p)).
Proof.
  intros Hp Hl Hb. pose proof (wf_max _ _ (wf_lru _ Hp)) as Hm. split; [|by intros ? ?%elem_of_nil|change (last <= bound); lia].
  split; try (by intros ? ?%elem_of_nil).
  - pose proof (proj1 (Clear_ok p (wf_lru _ Hp))) as []. by constructor.
  - by constructor.
  - change (kInitialTimestampMs <= kInitialTimestampMs <= last). lia.
  - change (kInitialTimestampMs <= last < int64_max). lia.
  - cbn. lia.
  - apply (wf_dchecks _ Hp).
Qed.

Lemma later_writable bound last last' rp : writable bound (set_last last rp) -> last <= last' <= bound -> bound < int64_max -> writable bound (set_last last' rp).
Proof.
  intros [Hp Hn Hl] Hb Hm. split; [|exact Hn|change (last' <= bound); lia].
  apply (set_last_wf last' (set_last last rp) Hp). change (last <= last' < int64_max). lia.
Qed.

(** Requests let the time of the set go on. *)
Lemma Put_later key t p p' : wf p -> time_ok t -> key_ok key -> PurgeSet.Put key t p = Some (true, p') -> last_invalidation p <= last_invalidation p'.
Proof.
  intros Hp Ht Hk H. destruct (Put_keeps key t p Hp Ht Hk) as (p1 & H1 & _ & _ & Hl & _ & Hs). assert (p1 = p') as -> by congruence.
  destruct (decide (accepted t p)) as [Ha|Ha]; [rewrite (Hl Ha); lia|by rewrite (Hs Ha)].
Qed.
Lemma UpdateGlobal_later t p b p' : wf p -> time_ok t -> UpdateGlobalInvalidationTimestampMs t p = Some (b, p') ->
  last_invalidation p <= last_invalidation p' /\ (accepted t p -> t <= global p').
Proof.
  intros Hp Ht. unfold UpdateGlobalInvalidationTimestampMs, accepted. rewrite SanitizeTimestamp_ok by done.
  destruct (Z.leb_spec (last_invalidation p - t) kClockSkewAllowanceMs) as [Hle|Hgt]; cbn [mbind option_bind]; intros [= _ <-].
  - change (last_invalidation (set_global _ (set_last ?z p))) with z. change (global (set_global ?z _)) with z. lia.
  - split; [lia|]. unfold kClockSkewAllowanceMs in *. lia.
Qed.

Lemma set_last_covers z p r : covers p r -> covers (set_last z p) r.
Proof. by destruct r as [[url|] t]. Qed.

(** ** Every event keeps them tidy *)

Lemma Tidy_same bound s s' cbs asked :
  Tidy bound s cbs asked -> pending_purges_ (context s') = pending_purges_ (context s) ->
  pending_callbacks_ (context s') = pending_callbacks_ (context s) -> updaters s' = updaters s -> Tidy bound s' cbs asked.
Proof. intros [] H1 H2 H3. split; by rewrite ?H1, ?H2, ?H3. Qed.

Lemma Tidy_new bound : 0 <= bound -> Tidy bound (new_system max_bytes) [] [].
Proof.
  intros Hb. split; cbn; [by apply new_writable|done|by left|..]; intros *; rewrite ?elem_of_nil; tauto.
Qed.

(** A request: the pending set becomes [p'], the callback has not been seen before. *)
Lemma Tidy_request bound s cbs asked p' cb (r : list (PurgeCallback * Purge)) :
  Tidy bound s cbs asked -> Inv s cbs -> cb ∉ cbs -> bound < int64_max ->
  writable bound p' -> keeps (pending_purges_ (context s)) p' ->
  last_invalidation (pending_purges_ (context s)) <= last_invalidation p' ->
  (forall c' r', (c', r') ∈ r -> c' = cb /\ covers p' r') ->
  Tidy bound (add_pending p' cb s) (cbs ++ [cb]) (asked ++ r).
Proof.
  intros Ht Hi Hcb Hm Hw Hk Hl Hr. set (s0 := with_context (with_pending p' (pending_callbacks_ (context s) ++ [cb])
    (num_consecutive_failures_ (context s)) true (context s)) s).
  apply (Tidy_same bound s0); [|unfold add_pending; by destruct (negb _)..]. destruct Ht as [H1 H2 H3 H4 H5 H6 H7].
  split; unfold s0; cbn [context with_context with_pending pending_purges_ pending_callbacks_ updaters].
  - done.
  - by rewrite (keeps_max _ _ Hk).
  - done.
  - intros b uc rp f Hu. destruct (H4 _ _ _ _ Hu) as [Hf Hx]. split; [|done].
    apply (later_writable bound (last_invalidation (pending_purges_ (context s)))); [done| |done].
    split; [done|apply Hw].
  - intros c r' [Hin|Hin]%elem_of_app; apply elem_of_app; [left; eauto|right].
    apply Hr in Hin as [-> _]. left.
  - intros c r' [Hin|Hin]%elem_of_app Hc; [|exact (proj2 (Hr _ _ Hin))].
    apply (covers_keeps _ _ _ Hk). apply (H6 c); [done|].
    apply elem_of_app in Hc as [Hc|Hc]; [done|]. apply list_elem_of_singleton in Hc as ->. by destruct Hcb; eapply H5.
  - intros b uc rp f c r' Hu [Hin|Hin]%elem_of_app Hc; [by eapply H7|]. apply Hr in Hin as [-> _].
    destruct Hcb. rewrite (inv_callbacks _ _ Hi). apply elem_of_app. right. apply elem_of_app. left.
    apply list_elem_of_In, in_concat. exists uc. split; [|by apply list_elem_of_In].
    apply list_elem_of_In. by apply (list_elem_of_fmap_2 updater_callbacks _ (Modified b uc rp f)).
Qed.

Lemma Tidy_AddPurgeUrl bound s cbs asked url t cb s' :
  Tidy bound s cbs asked -> Inv s cbs -> bound < int64_max -> event_ok (RequestPurge url t cb) ->
  in_order bound (RequestPurge url t cb) s cbs -> handle true max_bytes (RequestPurge url t cb) s = Some s' ->
  Tidy bound s' (cbs ++ [cb]) (asked ++ asks (RequestPurge url t cb) s).
Proof.
  intros Ht Hi Hm [Hk Hto] (Hnl & Hb & Hcb) Hs. cbn [handle] in Hs. unfold AddPurgeUrl in Hs. cbn [negb] in Hs.
  pose proof (tidy_pending _ _ _ _ Ht) as Hw.
  destruct (Put_writable bound url t _ Hw Hk Hto Hnl Hb) as (p' & Hput & Hw' & Hkeep).
  destruct (Put_keeps url t _ (writable_wf _ _ Hw) Hto Hk) as (p1 & Hput1 & _ & _ & _ & Hh & _).
  assert (p1 = p') as -> by congruence. rewrite Hput in Hs. injection Hs as <-.
  apply Tidy_request; try done.
  - by apply (Put_later url t _ _ (writable_wf _ _ Hw) Hto Hk Hput).
  - cbn [asks]. intros c' r'. case_decide as Ha; [|by rewrite elem_of_nil].
    destruct (Z.ltb_spec (Z.of_nat (length url) + 8) (max_bytes_in_cache_ (pending_purges_ (context s)))) as [Hf|]; [|by rewrite elem_of_nil].
    rewrite list_elem_of_singleton. intros [= -> ->]. split; [done|]. cbn. specialize (Hh Ha Hf).
    split; [by apply (keeps_fits _ _ _ Hkeep)|lia].
Qed.

Lemma Tidy_SetGlobal bound s cbs asked t cb s' :
  Tidy bound s cbs asked -> Inv s cbs -> bound < int64_max -> event_ok (RequestGlobal t cb) ->
  in_order bound (RequestGlobal t cb) s cbs -> handle true max_bytes (RequestGlobal t cb) s = Some s' ->
  Tidy bound s' (cbs ++ [cb]) (asked ++ asks (RequestGlobal t cb) s).
Proof.
  intros Ht Hi Hm Hto (Hb & Hcb) Hs. cbn [handle] in Hs. unfold SetCachePurgeGlobalTimestampMs in Hs.
  pose proof (tidy_pending _ _ _ _ Ht) as Hw.
  destruct (UpdateGlobal_writable bound t _ Hw Hto Hb) as (b & p' & HU & Hw' & Hkeep).
  destruct (UpdateGlobal_later t _ b p' (writable_wf _ _ Hw) Hto HU) as [Hl Hg].
  rewrite HU in Hs. injection Hs as <-. apply Tidy_request; try done.
  cbn [asks]. intros c' r'. case_decide as Ha; [|by rewrite elem_of_nil].
  rewrite list_elem_of_singleton. intros [= -> ->]. split; [done|]. cbn. auto.
Qed.

(** What an update takes and what it leaves behind. *)
Lemma Update_modify_inv mtime buffer now c u c' :
  Update_modify true max_bytes mtime buffer now c = Some (u, c') ->
  exists from_file n merged,
    ReadPurgeFile true mtime buffer now (new_PurgeSet max_bytes) = Some (from_file, n) /\
    Merge (pending_purges_ c) from_file = Some merged /\
    u = Modified (serialize merged) (pending_callbacks_ c) (set_last 0 (pending_purges_ c)) (num_consecutive_failures_ c) /\
    pending_purges_ c' = PurgeSet.Clear (set_last (last_invalidation (pending_purges_ c)) (new_PurgeSet max_bytes)) /\
    pending_callbacks_ c' = [].
Proof.
  unfold Update_modify, ModifyPurgeSet. intros H.
  destruct (ReadPurgeFile _ _ _ _ _) as [[from_file n]|]; cbn [mbind option_bind] in H; [|done].
  change (pending_purges_ (count _ c)) with (pending_purges_ c) in H.
  destruct (Merge _ from_file) as [merged|] eqn:EM; cbn [mbind option_bind] in H; [|done].
  injection H as <- <-. by exists from_file, n, merged.
Qed.

(** What the file is overwritten with holds the pending purges. *)
Lemma serialize_holds bound p r :
  writable bound p -> max_bytes_in_cache_ p = max_bytes -> covers p r -> holds bound (serialize p) r.
Proof.
  intros Hp Hm Hc Hlen mtime now Hn Hb. pose proof (writable_last _ _ Hp).
  destruct (ReadPurgeFile_serialize true max_bytes max_ok p mtime now) as (p' & Hr & Hp' & Hh);
    [done|apply Hp|apply Hp|done|done|lia|done|].
  exists p'. split; [done|]. intros url t Hu Ht. destruct (IsValid_ok url t p' Hp') as (p'' & Hv & _).
  exists p''. rewrite Hv, bool_decide_eq_false_2; [done|]. rewrite Hh.
  pose proof (horizon_global p url). destruct r as [[url'|] t']; cbn in *; [|lia]. destruct Hu as [|[= ->]]; [done|lia].
Qed.

(** The purges of a failed update are back in the pending set. *)
Lemma Merge_back bound last rp p :
  writable bound (set_last last rp) -> writable bound p -> max_bytes_in_cache_ rp = max_bytes_in_cache_ p ->
  exists p', Merge rp p = Some p' /\ writable bound p' /\ max_bytes_in_cache_ p' = max_bytes_in_cache_ p /\
    forall r, covers p r \/ covers rp r -> covers p' r.
Proof.
  intros Hr Hp Hm. change (Merge rp p) with (Merge (set_last last rp) p).
  destruct (Merge_writable bound _ _ Hr Hp) as (p' & HM & Hw).
  destruct (Merge_keeps _ _ (writable_wf _ _ Hr) (writable_wf _ _ Hp)) as (p1 & HM1 & _ & Hmax & Hg & Hh & Hh').
  assert (p1 = p') as -> by congruence. exists p'. split; [done|]. split; [done|]. split; [done|].
  change (global (set_last last rp)) with (global rp) in Hg.
  intros [[url|] t]; cbn; [|lia]. unfold fits. rewrite Hmax, Hm.
  intros [[Hf Ht]|[Hf Ht]]; (split; [done|]); [specialize (Hh url); lia|].
  specialize (Hh' url Hf). change (horizon (set_last last rp) url) with (horizon rp url) in Hh'. lia.
Qed.

(** The pending purges are put into what was read from the file. *)
Lemma Merge_read bound mtime buffer now from_file n p merged :
  writable bound p -> max_bytes_in_cache_ p = max_bytes ->
  (forall b, buffer = Some b -> Z.of_nat (length b) <= 2 ^ 31) -> 0 <= now -> now + kClockSkewAllowanceMs <= bound < int64_max ->
  ReadPurgeFile true mtime buffer now (new_PurgeSet max_bytes) = Some (from_file, n) -> Merge p from_file = Some merged ->
  writable bound merged /\ max_bytes_in_cache_ merged = max_bytes /\ forall r, covers p r -> covers merged r.
Proof.
  intros Hp Hm Hb Hn Hnb Hread HM.
  destruct (ReadPurgeFile_writable true max_bytes max_ok mtime buffer now eq_refl Hb Hn) as (q & n' & Hq & [Hw1 Hw2 Hw3] & Hmax); [lia|].
  assert (q = from_file) as -> by congruence.
  assert (Hf : writable bound from_file) by (split; [done|done|lia]).
  destruct (Merge_back bound (last_invalidation p) p from_file) as (m & HM' & Hw & Hmm & Hc);
    [by rewrite set_last_id|done|congruence|]. assert (m = merged) as -> by congruence.
  split; [done|]. split; [congruence|auto].
Qed.

Lemma Tidy_modify bound s cbs asked i mtime buffer now s' :
  Tidy bound s cbs asked -> 0 <= bound < int64_max -> event_ok (Modify i mtime buffer now) ->
  in_order bound (Modify i mtime buffer now) s cbs ->
  handle true max_bytes (Modify i mtime buffer now) s = Some s' -> updaters s !! i = Some Reading ->
  Tidy bound s' cbs asked.
Proof.
  intros [H1 H2 H3 H4 H5 H6 H7] Hm [[_ Hb] Hov] [Hn Hnb] Hs Hu. cbn [handle] in Hs.
  destruct (Update_modify true max_bytes mtime buffer now (context s)) as [[u c]|] eqn:E; cbn [mbind option_bind] in Hs; [|done].
  injection Hs as <-. destruct (Update_modify_inv _ _ _ _ _ _ E) as (pf & n & merged & Hread & HM & -> & Hp & Hc).
  destruct H3 as [H3|[u0 H3]]; [by rewrite H3 in Hu|]. rewrite H3 in *. destruct i as [|i]; [|done]. injection Hu as ->.
  set (P := pending_purges_ (context s)) in *.
  destruct (Merge_read bound mtime buffer now pf n P merged) as (Hw & Hmm & Hcov); try done; [lia|].
  split; cbn [context with_updaters with_context updaters list_insert insert]; rewrite ?Hp, ?Hc.
  - pose proof (wf_last _ (writable_wf _ _ H1)). pose proof (writable_last _ _ H1).
    apply Clear_writable; [by apply new_PurgeSet_wf|lia|lia].
  - done.
  - right. by eexists.
  - intros b uc rp f [= -> -> -> ->]%list_elem_of_singleton. split; [|done].
    change (last_invalidation (PurgeSet.Clear _)) with (last_invalidation P). by rewrite set_last_again.
  - done.
  - by intros cb r _ ?%elem_of_nil.
  - intros b uc rp f cb r [= -> -> -> ->]%list_elem_of_singleton Ha Hin. specialize (H6 cb r Ha Hin).
    split; [by apply set_last_covers|]. apply serialize_holds; auto.
Qed.

Lemma HandleWriteFailure_tidy bound failures uc rp c uc' lock c' (asked : list (PurgeCallback * Purge)) :
  writable bound (pending_purges_ c) -> max_bytes_in_cache_ (pending_purges_ c) = max_bytes ->
  in_flight bound (last_invalidation (pending_purges_ c)) rp ->
  (forall cb r, (cb, r) ∈ asked -> cb ∈ pending_callbacks_ c -> covers (pending_purges_ c) r) ->
  (forall cb r, (cb, r) ∈ asked -> cb ∈ uc -> covers rp r) ->
  HandleWriteFailure failures uc rp c = Some (uc', lock, c') ->
  writable bound (pending_purges_ c') /\ max_bytes_in_cache_ (pending_purges_ c') = max_bytes /\
  forall cb r, (cb, r) ∈ asked -> cb ∈ pending_callbacks_ c' -> covers (pending_purges_ c') r.
Proof.
  intros Hw Hm [Hf Hfm] Hp Hu H. unfold HandleWriteFailure in H. destruct (_ <=? _).
  - destruct (waiting_for_interprocess_lock_ c).
    + destruct (pending_callbacks_ c) as [|cb0 cbs0] eqn:Ep; [done|]. rewrite <- Ep in *.
      destruct (Merge_back bound _ rp (pending_purges_ c) Hf Hw ltac:(congruence)) as (p' & HM & Hw' & Hm' & Hc).
      rewrite HM in H. injection H as _ _ <-. cbn [pending_purges_ pending_callbacks_ with_pending].
      split; [done|]. split; [congruence|]. intros cb r Ha [Hin|Hin]%elem_of_app; apply Hc; eauto.
    + destruct (pending_callbacks_ c) as [|cb0 cbs0]; [|done]. destruct uc as [|u us]; [done|].
      cbn [Swap] in H. injection H as _ _ <-. cbn [pending_purges_ pending_callbacks_ with_pending].
      split; [done|]. split; [done|]. intros cb r Ha Hin. apply set_last_covers. by eapply Hu.
  - injection H as _ _ <-. done.
Qed.

Lemma Tidy_finish bound s cbs asked i written verify s' :
  Tidy bound s cbs asked -> handle true max_bytes (Finish i written verify) s = Some s' -> Tidy bound s' cbs asked.
Proof.
  intros [H1 H2 H3 H4 H5 H6 H7] Hs. cbn [handle] in Hs.
  destruct (updaters s !! i) as [[|b uc rp f]|] eqn:Hu; [done| |done].
  destruct H3 as [H3|[u0 H3]]; [by rewrite H3 in Hu|]. rewrite H3 in *. destruct i as [|i]; [|done]. injection Hu as ->.
  cbn [delete list_delete] in Hs. unfold Update_finish in Hs. cbn [context with_updaters] in Hs.
  set (c := count (add_writes 1) (context s)) in Hs. set (s1 := with_updaters [] s) in Hs.
  set (success := written && bool_decide (verify = Some b)) in Hs.
  assert (exists uc' lock c', (if success then Some (uc, false, c) else HandleWriteFailure f uc rp (count (add_contentions 1) c)) =
      Some (uc', lock, c') /\ writable bound (pending_purges_ c') /\ max_bytes_in_cache_ (pending_purges_ c') = max_bytes /\
      forall cb r, (cb, r) ∈ asked -> cb ∈ pending_callbacks_ c' -> covers (pending_purges_ c') r)
    as (uc' & lock & c' & E & Hw & Hm & Hc).
  { destruct success; [by exists uc, false, c|].
    destruct (HandleWriteFailure _ _ _ _) as [[[uc' lock] c']|] eqn:E; [|done].
    exists uc', lock, c'. split; [done|].
    eapply (HandleWriteFailure_tidy bound); [| | | | |exact E]; [done|done|by apply (H4 b uc rp f); left|done|].
    intros cb r Ha Hin. apply (H7 b uc rp f cb r); [by left|done|done]. }
  rewrite E in Hs. cbn [mbind option_bind] in Hs.
  assert (Hend : pending_purges_ (context s') = pending_purges_ c' /\ pending_callbacks_ (context s') = pending_callbacks_ c' /\
    updaters s' = []).
  { destruct uc'; injection Hs as <-; [by destruct lock|by destruct success]. }
  destruct Hend as (E1 & E2 & E3). split; rewrite ?E1, ?E2, ?E3; try done; [by left|..];
    intros * ?%elem_of_nil; done.
Qed.

Lemma Tidy_step bound s cbs asked e s' :
  Tidy bound s cbs asked -> Inv s cbs -> 0 <= bound < int64_max -> enabled e s -> event_ok e -> in_order bound e s cbs ->
  handle true max_bytes e s = Some s' -> Tidy bound s' (cbs ++ requested e) (asked ++ asks e s).
Proof.
  intros Ht Hi Hb He Ho Hn Hs. destruct e as [url t cb|t cb| | |i mt buf now|i w v|now|i mt buf now h|];
    cbn [requested asks]; rewrite ?app_nil_r.
  - apply (Tidy_AddPurgeUrl bound s cbs asked url t cb s'); (done || lia).
  - apply (Tidy_SetGlobal bound s cbs asked t cb s'); (done || lia).
  - cbn [handle] in Hs. destruct (waiting_for_interprocess_lock_ _); [|done]. injection Hs as <-.
    cbn [in_order] in Hn. destruct Ht as [H1 H2 H3 H4 H5 H6 H7].
    split; cbn [context take_request with_updaters updaters]; rewrite ?Hn; try done; [by right; eexists|..];
      by intros * [=]%list_elem_of_singleton.
  - injection Hs as <-. destruct Ht as [H1 H2 H3 H4 H5 H6 H7].
    split; cbn; try done; [|by intros * _ ?%elem_of_nil].
    pose proof (wf_last _ (writable_wf _ _ H1)). pose proof (writable_last _ _ H1).
    rewrite <- (set_last_id (pending_purges_ (context s))). apply Clear_writable; [by apply H1|lia|lia].
  - by apply (Tidy_modify bound s cbs asked i mt buf now s').
  - by apply (Tidy_finish bound s cbs asked i w v s').
  - injection Hs as <-. unfold Poll_start. destruct (_ && _); [|done]. by apply (Tidy_same bound s).
  - cbn [handle] in Hs. destruct (polls s !! i) as [nu|]; [|done]. cbn [mbind option_bind] in Hs. unfold Poll_finish in Hs.
    destruct (negb _); [done|]. destruct (ReadPurgeFile _ _ _ _ _) as [[p n]|]; [|done]. cbn [mbind option_bind] in Hs.
    destruct (negb (Equals _ _)); [destruct (negb nu), h|]; injection Hs as <-; by apply (Tidy_same bound s).
  - injection Hs as <-. by apply (Tidy_same bound s).
Qed.

Lemma orderly_Tidy bound s cbs asked : orderly bound s cbs asked -> 0 <= bound < int64_max /\ Tidy bound s cbs asked.
Proof.
  induction 1 as [Hb|s cbs asked e s' Hr [Hb IH] He Ho Hn Hs]; [split; [done|apply Tidy_new; lia]|].
  split; [done|]. apply (Tidy_step bound s cbs asked e s'); try done.
  apply (reachable_Inv true max_bytes max_ok). by apply (orderly_reachable bound s cbs asked).
Qed.

(** In such a run the [DCHECK] of every eviction holds. *)
Lemma orderly_evictions bound s cbs asked :
  orderly bound s cbs asked -> dchecks_held (value_helper_ (pending_purges_ (context s))) = true.
Proof. intros H. apply orderly_Tidy in H as [_ Ht]. apply (tidy_pending _ _ _ _ Ht). Qed.

(** Only the end of a verified update tells a callback [true]. *)
Lemma answered_true s e s' cb :
  handle true max_bytes e s = Some s' -> ((cb, true) ∉ answered s) -> (cb, true) ∈ answered s' ->
  exists i buf uc rp f, e = Finish i true (Some buf) /\ updaters s !! i = Some (Modified buf uc rp f) /\ cb ∈ uc.
Proof.
  intros Hs Hno Hin.
  assert (Hfalse : forall l : list PurgeCallback, answered s' = answered s ++ map (fun cb => (cb, false)) l -> False).
  { intros l Ha. rewrite Ha in Hin. apply elem_of_app in Hin as [?|Hin]; [done|].
    by apply list_elem_of_fmap in Hin as (c & [=] & _). }
  assert (Hsame : answered s' = answered s -> False) by (intros Ha; by rewrite Ha in Hin).
  destruct e as [url t c|t c| | |i mt buf now|i w v|now|i mt buf now h|]; cbn [handle] in Hs; [exfalso..| |exfalso|exfalso|exfalso].
  - unfold AddPurgeUrl in Hs. cbn [negb] in Hs. destruct (PurgeSet.Put _ _ _) as [[b p]|]; [|done]. injection Hs as <-.
    apply Hsame. unfold add_pending. by destruct (negb _).
  - unfold SetCachePurgeGlobalTimestampMs in Hs. destruct (UpdateGlobalInvalidationTimestampMs _ _) as [[b p]|]; [|done].
    injection Hs as <-. apply Hsame. unfold add_pending. by destruct (negb _).
  - destruct (waiting_for_interprocess_lock_ _); [|done]. injection Hs as <-. by apply Hsame.
  - injection Hs as <-. by eapply Hfalse.
  - destruct (Update_modify _ _ _ _ _ _) as [[u c]|]; [|done]. injection Hs as <-. by apply Hsame.
  - destruct (updaters s !! i) as [[|b uc rp f]|] eqn:Hu; [done| |done]. unfold Update_finish in Hs.
    destruct (w && bool_decide (v = Some b)) eqn:E.
    + apply andb_true_iff in E as [-> ->%bool_decide_eq_true]. exists i, b, uc, rp, f. split; [done|]. split; [done|].
      cbn [mbind option_bind] in Hs. destruct uc as [|c uc]; injection Hs as <-; [by destruct Hsame|].
      cbn in Hin. apply elem_of_app in Hin as [?|Hin]; [done|]. apply (list_elem_of_fmap (fun cb => (cb, true)) (c :: uc)) in Hin as (c' & [= <-] & Hc). done.
    + exfalso. destruct (HandleWriteFailure _ _ _ _) as [[[uc' lock] c']|]; [|done]. cbn [mbind option_bind] in Hs.
      destruct uc' as [|c uc']; injection Hs as <-; [by destruct lock; apply Hsame|by apply (Hfalse (c :: uc'))].
  - injection Hs as <-. apply Hsame. unfold Poll_start. by destruct (_ && _).
  - destruct (polls s !! i) as [nu|]; [|done]. cbn [mbind option_bind] in Hs. unfold Poll_finish in Hs.
    destruct (negb _); [done|]. destruct (ReadPurgeFile _ _ _ _ _) as [[p n]|]; [|done]. cbn [mbind option_bind] in Hs.
    destruct (negb (Equals _ _)); [destruct (negb nu), h|]; injection Hs as <-; by apply Hsame.
  - injection Hs as <-. by apply Hsame.
Qed.

(** ** Property *)

(** C15: An acknowledged purge is durable: in every run in which the lock excludes other
    updates, whatever the outcomes of the writes, a request that was not refused is told
    [true] only at the end of an update whose verification read back a buffer that holds
    it; whoever reads that buffer, now or later, parses all of it and rejects the entries
    the request purges. The URLs have no newline, the timestamps asked for are at most
    [bound], and so are those a file may name when it is updated. *)
Theorem acknowledged_purge_is_durable bound s cbs asked e s' cb r :
  orderly bound s cbs asked -> handle true max_bytes e s = Some s' ->
  (cb, r) ∈ asked -> ((cb, true) ∉ answered s) -> (cb, true) ∈ answered s' ->
  exists i buf, e = Finish i true (Some buf) /\ holds bound buf r.
Proof.
  intros Hr Hs Ha Hno Hin. destruct (orderly_Tidy _ _ _ _ Hr) as [_ Ht].
  destruct (answered_true s e s' cb Hs Hno Hin) as (i & buf & uc & rp & f & -> & Hu & Hc).
  exists i, buf. split; [done|]. apply list_elem_of_lookup_2 in Hu. by apply (tidy_flying _ _ _ _ Ht buf uc rp f cb r).
Qed.
End durable.

(** *** An eviction out of order

    The lock can be stolen from an update that takes long, so that two are in flight. A
    request that is refused makes the first of them, when it fails, merge its purges into
    an empty set, which sets the last timestamp back; the second then swaps later purges
    into the set, and evicting one of them breaks the [DCHECK]. *)
Definition stolen_lock_events : list event :=
  [RequestPurge (lit "a") 1000000 1; LockGranted; Modify 0 None None 1000000;
   RequestPurge (lit "b") 2000000 2; LockGranted; Modify 1 None None 2000000;
   RequestPurge (lit "c") 3 3; Finish 0 false None; LockTimedOut; Finish 0 false None;
   RequestPurge (replicate 60 "d"%char) 1000001 4; RequestPurge (replicate 60 "e"%char) 1000002 5].

Lemma stolen_lock_events_ok : Forall event_ok stolen_lock_events.
Proof. repeat (apply Forall_cons_2; [by repeat split|]). apply Forall_nil_2. Qed.

Example evicts_out_of_order :
  exists s, reachable (T:=decimal_text) true 100 s [1; 2; 3; 4; 5]%nat /\
    dchecks_held (value_helper_ (pending_purges_ (context s))) = false.
Proof.
  destruct (run_events decimal_text stolen_lock_events (new_system 100)) as [s|] eqn:E; [|vm_compute in E; discriminate].
  exists s. split.
  - apply (run_events_reachable decimal_text stolen_lock_events (new_system 100) []);
      [apply reachable_new|apply stolen_lock_events_ok|done].
  - assert (H : (fun s => dchecks_held (value_helper_ (pending_purges_ (context s)))) <$>
      run_events decimal_text stolen_lock_events (new_system 100) = Some false) by (vm_compute; reflexivity).
    rewrite E in H. by injection H.
Qed.

(** *** Witness *)

Definition durable_events : list event := [RequestPurge (lit "a") 1000 1; LockGranted; Modify 0 None None 2000].
Definition durable_file : bytes := lit "-1" ++ [nl] ++ lit "1000 a" ++ [nl].

Definition after_events (es : list event) : System :=
  match run_events decimal_text es (new_system 100) with Some s => s | None => new_system 100 end.

Lemma durable_orderly :
  orderly (T:=decimal_text) 100 602000 (after_events durable_events) [1%nat] [(1%nat, (Some (lit "a"), 1000))].
Proof.
  change [(1%nat, (Some (lit "a"), 1000))] with
    ((([] ++ asks (RequestPurge (lit "a") 1000 1) (new_system 100)) ++ []) ++ [] : list (PurgeCallback * Purge)).
  change [1%nat] with ((([] ++ [1%nat]) ++ []) ++ [] : list PurgeCallback).
  apply (orderly_step 100 602000 (after_events (take 2 durable_events)) _ _ (Modify 0 None None 2000)).
  - apply (orderly_step 100 602000 (after_events (take 1 durable_events)) _ _ LockGranted).
    + apply (orderly_step 100 602000 (new_system 100) [] [] (RequestPurge (lit "a") 1000 1)).
      * apply orderly_new. by vm_compute.
      * done.
      * by repeat split.
      * split; [by apply (bool_decide_unpack _); vm_compute|]. split; [done|by intros ?%elem_of_nil].
      * vm_compute. reflexivity.
    + by vm_compute.
    + done.
    + vm_compute. reflexivity.
    + vm_compute. reflexivity.
  - vm_compute. reflexivity.
  - by repeat split.
  - by vm_compute.
  - vm_compute. reflexivity.
Qed.

Lemma acknowledged_purge_is_durable_witness :
  exists i buf, Finish 0 true (Some durable_file) = Finish i true (Some buf) /\
    holds (T:=decimal_text) 100 602000 buf (Some (lit "a"), 1000).
Proof.
  apply (acknowledged_purge_is_durable (T:=decimal_text) 100 ltac:(lia) 602000 (after_events durable_events) [1%nat]
    [(1%nat, (Some (lit "a"), 1000))] _ (after_events (durable_events ++ [Finish 0 true (Some durable_file)])) 1%nat).
  - exact durable_orderly.
  - vm_compute. reflexivity.
  - left.
  - by intros ?%elem_of_nil.
  - left.
Defined.
