(* ===== verification/CacheInterface.v ===== *)
(** * Caches and callbacks

    - src/pagespeed/kernel/base/cache_interface.h and .cc: [CacheInterface],
      its callbacks and [ValidateAndReportResult];
    - src/pagespeed/kernel/cache/lru_cache.cc and in_memory_cache.cc: the two
      caches that store something themselves;
    - src/pagespeed/kernel/cache/delegating_cache_callback.cc and
      cache_key_prepender.cc.

    [W] is everything the caches and their callers can change. A cache is a
    record of functions on [W]; a callback carries its object, which nobody else
    refers to, so that a wrapping callback can call the methods of the wrapped
    one on it. A failed [DCHECK] or an error of the recency list is [None].

    The class [SingleReport] is what the caches promise to the caches built on
    them. *)

From S2P Require Import Prelude LruCache.

Inductive KeyState := kAvailable | kNotFound | kOverload | kNetworkError | kTimeout.
#[export] Instance KeyState_eq_dec : EqDecision KeyState.
Proof. solve_decision. Defined.

(** A value, owned or borrowed from a mapped file; [torn] is what re-checking
    the borrow after copying it finds. *)
Inductive MappedSharedString := Owned (s : bytes) | Mapped (s : bytes) (torn : bool).
#[export] Instance MappedSharedString_eq_dec : EqDecision MappedSharedString.
Proof. solve_decision. Defined.
Definition Value (v : MappedSharedString) : bytes := match v with Owned s | Mapped s _ => s end.
Definition is_mapped (v : MappedSharedString) : bool := match v with Owned _ => false | Mapped _ _ => true end.
Definition CopyMappedVerified (v : MappedSharedString) : option bytes :=
  match v with Owned s | Mapped s false => Some s | Mapped _ true => None end.

Section interface.
Context {W : Type}.

Record Callback := mkCallback {
  object : Type;
  self : object;
  value_ : MappedSharedString;
  ValidateCandidate : bytes -> KeyState -> MappedSharedString -> object -> W -> option (bool * object * W);
  Done : KeyState -> MappedSharedString -> object -> W -> option W
}.

Definition set_value (v : MappedSharedString) (callback : Callback) : Callback :=
  mkCallback (object callback) (self callback) v (ValidateCandidate callback) (Done callback).

Definition ValidateAndReportResult (key : bytes) (state : KeyState) (callback : Callback) (w : W) : option W :=
  match ValidateCandidate callback key state (value_ callback) (self callback) w with
  | Some (valid, o, w) => Done callback (if valid then state else kNotFound) (value_ callback) o w
  | None => None
  end.

Record CacheInterface := mkCache {
  Get : bytes -> Callback -> W -> option W;
  MultiGet : list (bytes * Callback) -> W -> option W;
  Put : bytes -> bytes -> W -> option W;
  Delete : bytes -> W -> option W;
  IsBlocking : bool;
  IsHealthy : W -> bool;
  ShutDown : W -> option W
}.

(** [CacheInterface::MultiGet] *)
Fixpoint default_MultiGet (get : bytes -> Callback -> W -> option W) (request : list (bytes * Callback)) (w : W)
  : option W :=
  match request with
  | [] => Some w
  | (key, callback) :: request' => w ← get key callback w; default_MultiGet get request' w
  end.

Fixpoint ReportMultiGetNotFound (request : list (bytes * Callback)) (w : W) : option W :=
  match request with
  | [] => Some w
  | (key, callback) :: request' =>
      w ← ValidateAndReportResult key kNotFound callback w; ReportMultiGetNotFound request' w
  end.

(** [called_] and [state_] are set by [finish]. *)
Definition SynchronousCallback (finish : KeyState -> MappedSharedString -> W -> W) : Callback :=
  mkCallback unit tt (Owned []) (fun _ _ _ o w => Some (true, o, w)) (fun state v _ w => Some (finish state v w)).

(** ** Parts of the world *)

Record Part (S : Type) := mkPart {
  view : W -> S;
  update : S -> W -> W;
  view_update : forall s w, view (update s w) = s
}.
Arguments view {S}.
Arguments update {S}.
Arguments view_update {S}.

(** ** LRUCache *)

Record LRUCacheState := mkLRUCache { base_ : LRUCacheBase bytes unit; is_healthy_ : bool }.
Definition new_LRUCache (max_size : Z) : LRUCacheState := mkLRUCache (ClearStats (new_cache max_size tt)) true.

Section lru.
Variable p : Part LRUCacheState.

Definition LRUCache_Get (key : bytes) (callback : Callback) (w : W) : option W :=
  let s := view p w in
  if negb (is_healthy_ s) then ValidateAndReportResult key kNotFound callback w
  else
    '(value, base) ← GetFreshen key (base_ s);
    let w := update p (mkLRUCache base (is_healthy_ s)) w in
    match value with
    | Some v => ValidateAndReportResult key kAvailable (set_value (Owned v) callback) w
    | None => ValidateAndReportResult key kNotFound callback w
    end.

Definition LRUCache_Put (key new_value : bytes) (w : W) : option W :=
  let s := view p w in
  if negb (is_healthy_ s) then Some w
  else base ← LruCache.Put key new_value (base_ s); Some (update p (mkLRUCache base (is_healthy_ s)) w).

Definition LRUCache_Delete (key : bytes) (w : W) : option W :=
  let s := view p w in
  if negb (is_healthy_ s) then Some w
  else base ← LruCache.Delete key (base_ s); Some (update p (mkLRUCache base (is_healthy_ s)) w).

Definition LRUCache_ShutDown (w : W) : option W := Some (update p (mkLRUCache (base_ (view p w)) false) w).

Definition LRUCache : CacheInterface :=
  mkCache LRUCache_Get (default_MultiGet LRUCache_Get) LRUCache_Put LRUCache_Delete true
    (fun w => is_healthy_ (view p w)) LRUCache_ShutDown.
End lru.

(** ** InMemoryCache *)

Record InMemoryCacheState := mkInMemoryCache { cache_ : gmap bytes bytes; is_shut_down_ : bool }.
Definition new_InMemoryCache : InMemoryCacheState := mkInMemoryCache ∅ false.

Section in_memory.
Variable p : Part InMemoryCacheState.

Definition InMemoryCache_Get (key : bytes) (callback : Callback) (w : W) : option W :=
  let s := view p w in
  if is_shut_down_ s then ValidateAndReportResult key kNotFound callback w
  else match cache_ s !! key with
       | None => ValidateAndReportResult key kNotFound callback w
       | Some v => ValidateAndReportResult key kAvailable (set_value (Owned v) callback) w
       end.

Definition InMemoryCache_Put (key new_value : bytes) (w : W) : option W :=
  let s := view p w in
  if is_shut_down_ s then Some w else Some (update p (mkInMemoryCache (<[key := new_value]> (cache_ s)) false) w).

Definition InMemoryCache_Delete (key : bytes) (w : W) : option W :=
  let s := view p w in
  if is_shut_down_ s then Some w else Some (update p (mkInMemoryCache (delete key (cache_ s)) false) w).

Definition InMemoryCache : CacheInterface :=
  mkCache InMemoryCache_Get (default_MultiGet InMemoryCache_Get) InMemoryCache_Put InMemoryCache_Delete true
    (fun w => negb (is_shut_down_ (view p w)))
    (fun w => Some (update p (mkInMemoryCache (cache_ (view p w)) true) w)).
End in_memory.

(** ** DelegatingCacheCallback and CacheKeyPrepender

    The object of a wrapping callback is the wrapped callback's value and
    object, and its own fields. *)

Definition Delegating_ValidateCandidate (callback : Callback) (key : bytes) (state : KeyState)
    (v : MappedSharedString) (o : MappedSharedString * object callback * bool) (w : W)
  : option (bool * (MappedSharedString * object callback * bool) * W) :=
  let '(_, inner, _) := o in
  match ValidateCandidate callback key state v inner w with
  | Some (valid, inner, w) => Some (valid, (v, inner, true), w)
  | None => None
  end.

Definition Delegating_Done (callback : Callback) (state : KeyState) (v : MappedSharedString)
    (o : MappedSharedString * object callback * bool) (w : W) : option W :=
  let '(inner_value, inner, validate_candidate_called_) := o in
  if negb validate_candidate_called_ then None else Done callback state inner_value inner w.

Definition DelegatingCacheCallback (callback : Callback) : Callback :=
  mkCallback _ (value_ callback, self callback, false) (Owned [])
    (Delegating_ValidateCandidate callback) (Delegating_Done callback).

Definition KeyPrependerCallback (prefix_ : bytes) (callback : Callback) : Callback :=
  mkCallback _ (value_ callback, self callback, false) (Owned [])
    (fun key state v o w =>
       if negb (StartsWith key prefix_) then Some (false, o, w)
       else Delegating_ValidateCandidate callback (drop (length prefix_) key) state v o w)
    (Delegating_Done callback).

Definition AddPrefix (prefix_ key : bytes) : bytes := prefix_ ++ key.

Definition CacheKeyPrepender (prefix_ : bytes) (cache_ : CacheInterface) : CacheInterface :=
  mkCache
    (fun key callback => Get cache_ (AddPrefix prefix_ key) (KeyPrependerCallback prefix_ callback))
    (fun request => MultiGet cache_
       (map (fun key_callback => (AddPrefix prefix_ key_callback.1, KeyPrependerCallback prefix_ key_callback.2)) request))
    (fun key value => Put cache_ (AddPrefix prefix_ key) value)
    (fun key => Delete cache_ (AddPrefix prefix_ key))
    (IsBlocking cache_) (IsHealthy cache_) (ShutDown cache_).

End interface.
Arguments Callback : clear implicits.
Arguments CacheInterface : clear implicits.
Arguments Part : clear implicits.
Arguments view {W S}.
Arguments update {W S}.
Arguments view_update {W S}.

(** ** What a cache promises *)

Section laws.
Context {W : Type}.
Abbreviation Callback := (Callback W).
Abbreviation CacheInterface := (CacheInterface W).

(** A value that is not torn is the one that was put. *)
Definition honest (x : MappedSharedString) (v : bytes) : Prop :=
  match x with Mapped _ true => True | _ => Value x = v end.

(** Report what was found; [v0] is the value of the callback if nothing was. *)
Definition report (key : bytes) (found : option MappedSharedString) (v0 : MappedSharedString)
    (callback : Callback) (w : W) : option W :=
  match found with
  | Some v => ValidateAndReportResult key kAvailable (set_value v callback) w
  | None => ValidateAndReportResult key kNotFound (set_value v0 callback) w
  end.

(** A blocking cache that reports to its callback once: [content] is what a
    [Get] would find, [step] relates the worlds between which only this cache
    changed, [fits] bounds what may be put. *)
Class SingleReport (c : CacheInterface) := {
  content : W -> bytes -> option MappedSharedString;
  ready : W -> Prop;
  step : W -> W -> Prop;
  fits : bytes -> bytes -> Prop;
  Get_report : forall k w, ready w -> exists w',
    step w w' /\ ready w' /\ (forall k', content w' k' = content w k') /\
    forall callback, exists v0, (v0 = value_ callback \/ v0 = Owned []) /\
      Get c k callback w = report k (content w k) v0 callback w';
  Put_content : forall k v w, ready w -> fits k v -> exists w',
    Put c k v w = Some w' /\ step w w' /\ ready w' /\
    forall k' x, content w' k' = Some x -> (k' = k /\ honest x v) \/ (k' <> k /\ content w k' = Some x);
  Delete_content : forall k w, ready w -> exists w',
    Delete c k w = Some w' /\ step w w' /\ ready w' /\
    forall k' x, content w' k' = Some x -> k' <> k /\ content w k' = Some x
}.
#[global] Arguments content c {_}.
#[global] Arguments ready c {_}.
#[global] Arguments step c {_}.
#[global] Arguments fits c {_}.
#[global] Arguments Get_report c {_}.
#[global] Arguments Put_content c {_}.
#[global] Arguments Delete_content c {_}.

(** What one cache does is not seen by the other. *)
Definition unseen (c d : CacheInterface) `{!SingleReport c} `{!SingleReport d} : Prop :=
  forall w w', step c w w' ->
    (forall k, content d w' k = content d w k) /\ (ready d w -> ready d w').
Definition independent (c d : CacheInterface) `{!SingleReport c} `{!SingleReport d} : Prop :=
  unseen c d /\ unseen d c.

(** Everything found was put last for its key, up to torn borrows. *)
Definition backed (c : CacheInterface) `{!SingleReport c} (w : W) (m : gmap bytes bytes) : Prop :=
  forall k x, content c w k = Some x -> exists v, m !! k = Some v /\ honest x v.

Lemma backed_same (c : CacheInterface) `{!SingleReport c} w w' m :
  (forall k, content c w' k = content c w k) -> backed c w m -> backed c w' m.
Proof. intros H Hb k x. rewrite H. apply Hb. Qed.

Lemma backed_Put (c : CacheInterface) `{!SingleReport c} k v w w' m :
  (forall k' x, content c w' k' = Some x -> (k' = k /\ honest x v) \/ (k' <> k /\ content c w k' = Some x)) ->
  backed c w m -> backed c w' (<[k := v]> m).
Proof.
  intros H Hb k' x [[-> Hx]|[Hne Hx]]%H.
  - exists v. by rewrite lookup_insert_eq.
  - destruct (Hb _ _ Hx) as (u & Hu & Hxu). exists u. by rewrite lookup_insert_ne.
Qed.

Lemma backed_Delete (c : CacheInterface) `{!SingleReport c} k w w' m :
  (forall k' x, content c w' k' = Some x -> k' <> k /\ content c w k' = Some x) ->
  backed c w m -> backed c w' (delete k m).
Proof.
  intros H Hb k' x [Hne Hx]%H. destruct (Hb _ _ Hx) as (u & Hu & Hxu). exists u. by rewrite lookup_delete_ne.
Qed.

(** A callback whose validation only looks at the candidate. *)
Definition pure_validate (callback : Callback) (ok : bytes -> KeyState -> MappedSharedString -> bool) : Prop :=
  forall k st v o w, exists o', ValidateCandidate callback k st v o w = Some (ok k st v, o', w).

Lemma SynchronousCallback_pure finish : pure_validate (SynchronousCallback finish) (fun _ _ _ => true).
Proof. intros k st v o w. by exists o. Qed.

Lemma Delegating_pure callback ok : pure_validate callback ok -> pure_validate (DelegatingCacheCallback callback) ok.
Proof.
  intros H k st v [[iv o] called] w. destruct (H k st v o w) as (o' & Ho). cbn. rewrite Ho. eauto.
Qed.

Lemma report_pure callback ok k found v0 w :
  pure_validate callback ok -> exists st v o,
    report k found v0 callback w = Done callback st v o w /\
    ((st = kAvailable /\ found = Some v /\ ok k kAvailable v = true) \/
     (st = kNotFound /\ (forall x, found = Some x -> ok k kAvailable x = false))).
Proof.
  intros Hp. unfold report, ValidateAndReportResult. destruct found as [x|]; cbn [set_value value_ self].
  - destruct (Hp k kAvailable x (self callback) w) as (o & Ho). cbn. rewrite Ho.
    destruct (ok k kAvailable x) eqn:E; eexists _, _, _; (split; [done|]); [by left|right].
    split; [done|]. by intros y [= <-].
  - destruct (Hp k kNotFound v0 (self callback) w) as (o & Ho). cbn. rewrite Ho.
    destruct (ok k kNotFound v0); eexists _, _, _; (split; [done|]); by right.
Qed.

(** *** The contract of a cache towards its users: [m] is what has been put and
    not deleted. Every [Get] ends by telling the callback once, either that the
    key is not available or a value the callback accepted, the last one put for
    the key unless its borrow is torn. *)
Definition coherent (c : CacheInterface) (may_put : bytes -> bytes -> Prop) (w0 : W) : Prop :=
  exists R : W -> gmap bytes bytes -> Prop, R w0 ∅ /\
  (forall k v w m, R w m -> may_put k v -> exists w', Put c k v w = Some w' /\ R w' (<[k := v]> m)) /\
  (forall k w m, R w m -> exists w', Delete c k w = Some w' /\ R w' (delete k m)) /\
  (forall k callback ok w m, R w m -> pure_validate callback ok -> exists st v o w',
     Get c k callback w = Done callback st v o w' /\ R w' m /\
     ((st = kAvailable /\ ok k kAvailable v = true /\ exists u, m !! k = Some u /\ honest v u) \/ st = kNotFound)).

Lemma SingleReport_coherent (c : CacheInterface) `{!SingleReport c} w0 :
  ready c w0 -> (forall k, content c w0 k = None) -> coherent c (fits c) w0.
Proof.
  intros Hr He. exists (fun w m => ready c w /\ backed c w m). split.
  { split; [done|]. intros k x. by rewrite He. }
  split; [|split].
  - intros k v w m [Hw Hb] Hf. destruct (Put_content c k v w Hw Hf) as (w' & Hp & _ & Hw' & H).
    exists w'. split; [done|]. split; [done|]. by eapply backed_Put.
  - intros k w m [Hw Hb]. destruct (Delete_content c k w Hw) as (w' & Hp & _ & Hw' & H).
    exists w'. split; [done|]. split; [done|]. by eapply backed_Delete.
  - intros k callback ok w m [Hw Hb] Hp. destruct (Get_report c k w Hw) as (w' & _ & Hw' & Hc & H).
    destruct (H callback) as (v0 & _ & ->).
    destruct (report_pure callback ok k (content c w k) v0 w' Hp) as (st & v & o & Hrep & Hst).
    exists st, v, o, w'. split; [done|]. split; [split; [done|]; by eapply backed_same|].
    destruct Hst as [(-> & Hf & Hok)|[-> _]]; [left|by right]. split; [done|]. split; [done|]. by apply Hb.
Qed.

(** ** The caches that keep their promise *)

Lemma set_value_self (callback : Callback) : set_value (value_ callback) callback = callback.
Proof. by destruct callback. Qed.

Definition part_step {S} (p : Part W S) (w w' : W) : Prop := w' = w \/ exists s, w' = update p s w.
Definition separate {S T} (p : Part W S) (q : Part W T) : Prop :=
  (forall s w, view q (update p s w) = view q w) /\ (forall s w, view p (update q s w) = view p w).

Lemma part_step_view {S T} (p : Part W S) (q : Part W T) w w' :
  separate p q -> part_step p w w' -> view q w' = view q w.
Proof. intros [H _] [->|[s ->]]; [done|apply H]. Qed.

Definition InMemory_content (p : Part W InMemoryCacheState) (w : W) (k : bytes) : option MappedSharedString :=
  if is_shut_down_ (view p w) then None else Owned <$> (cache_ (view p w) !! k).

#[export] Program Instance InMemoryCache_SingleReport p : SingleReport (InMemoryCache p) := {
  content := InMemory_content p;
  ready _ := True;
  step := part_step p;
  fits _ _ := True
}.
Next Obligation.
  intros p k w _. exists w. split; [by left|]. split; [done|]. split; [done|].
  intros callback. exists (value_ callback). split; [by left|]. cbn. unfold InMemoryCache_Get, InMemory_content, report.
  destruct (is_shut_down_ _); [by rewrite set_value_self|]. destruct (cache_ _ !! k); [done|by cbn; rewrite set_value_self].
Qed.
Next Obligation.
  intros p k v w _ _. cbn. unfold InMemoryCache_Put, InMemory_content. destruct (is_shut_down_ _) eqn:E.
  - exists w. split; [done|]. split; [by left|]. split; [done|]. by rewrite E.
  - eexists. split; [done|]. split; [right; eauto|]. split; [done|]. intros k' x. rewrite view_update. cbn.
    destruct (decide (k' = k)) as [->|Hne].
    + rewrite lookup_insert_eq. intros [= <-]. by left.
    + rewrite lookup_insert_ne by done. by right.
Qed.
Next Obligation.
  intros p k w _. cbn. unfold InMemoryCache_Delete, InMemory_content. destruct (is_shut_down_ _) eqn:E.
  - exists w. split; [done|]. split; [by left|]. split; [done|]. by rewrite E.
  - eexists. split; [done|]. split; [right; eauto|]. split; [done|]. intros k' x. rewrite view_update. cbn.
    destruct (decide (k' = k)) as [->|Hne].
    + by rewrite lookup_delete_eq.
    + rewrite lookup_delete_ne by done. done.
Qed.

(** *** LRUCache *)

Lemma find_key_cons (k k' v : bytes) l :
  find_key k' ((k, v) :: l) = if decide (k = k') then Some v else find_key k' l.
Proof.
  unfold find_key. cbn. case_decide; [done|]. destruct (list_find _ l) as [[i x]|]; done.
Qed.

Lemma find_key_remove k k' (l : list (bytes * bytes)) :
  find_key k' (remove_key k l) = if decide (k' = k) then None else find_key k' l.
Proof.
  case_decide as E.
  - subst. apply find_key_None, remove_key_keys.
  - induction l as [|[q v] l IH]; [done|]. rewrite remove_key_cons, find_key_cons. cbn [fst].
    destruct (decide (q <> k)) as [Hq|Hq]; [rewrite find_key_cons; by case_decide|].
    rewrite decide_False; [done|]. intros ->. by apply Hq.
Qed.

Lemma find_key_keep k B (l : list (bytes * bytes)) v :
  find_key k (keep (H:=unit) B l) = Some v -> find_key k l = Some v.
Proof.
  revert B. induction l as [|[q u] l IH]; intros B; [done|]. cbn [keep]. case_match; [|done].
  rewrite !find_key_cons. case_decide; [done|]. apply IH.
Qed.

Definition LRU_find (s : lru_state bytes unit) (k : bytes) : option bytes := find_key k (spec_entries s).

Lemma LRU_find_get k s k' : LRU_find (spec_get k s).2 k' = LRU_find s k'.
Proof.
  unfold LRU_find, spec_get. destruct (find_key k (spec_entries s)) as [v|] eqn:E; [|done].
  cbn [snd spec_entries]. rewrite find_key_cons, find_key_remove. case_decide as H1; [by subst|].
  by rewrite decide_False.
Qed.

Lemma LRU_find_put k v s k' x :
  LRU_find (spec_put k v s) k' = Some x -> (k' = k /\ x = v) \/ (k' <> k /\ LRU_find s k' = Some x).
Proof.
  assert (Hins : forall l, find_key k l = None ->
    (forall k' x, find_key k' l = Some x -> k' <> k /\ LRU_find s k' = Some x) ->
    LRU_find (spec_insert k v l s) k' = Some x -> (k' = k /\ x = v) \/ (k' <> k /\ LRU_find s k' = Some x)).
  { intros l Hk Hl. unfold LRU_find at 1, spec_insert. destruct (_ <? _); cbn [spec_entries]; [|by right; apply Hl].
    rewrite find_key_cons. case_decide; [intros [= <-]; by left|]. intros Hf%find_key_keep. right. by apply Hl. }
  unfold spec_put. destruct (find_key k (spec_entries s)) as [old|] eqn:E.
  - cbn [ShouldReplace SharedStringHelper negb Equal]. case_bool_decide as Ev.
    + subst old. unfold LRU_find. cbn [spec_entries]. rewrite find_key_cons, find_key_remove.
      case_decide; [intros [= <-]; by left|]. rewrite decide_False by congruence. by right.
    + apply Hins; [by rewrite find_key_remove, decide_True|]. intros q y. rewrite find_key_remove.
      case_decide; [done|]. done.
  - apply Hins; [done|]. intros q y Hq. split; [congruence|done].
Qed.

Lemma LRU_find_delete k s k' x :
  LRU_find (spec_delete k s) k' = Some x -> k' <> k /\ LRU_find s k' = Some x.
Proof. unfold LRU_find, spec_delete. cbn [spec_entries]. rewrite find_key_remove. by case_decide. Qed.

Definition LRU_content (p : Part W LRUCacheState) (w : W) (k : bytes) : option MappedSharedString :=
  if is_healthy_ (view p w) then Owned <$> LRU_find (abs (base_ (view p w))) k else None.

#[export] Program Instance LRUCache_SingleReport p : SingleReport (LRUCache p) := {
  content := LRU_content p;
  ready w := wf_but None (base_ (view p w));
  step := part_step p;
  fits k v := Z.of_nat (length k) + Z.of_nat (length v) < 2 ^ 64
}.
Next Obligation.
  intros p k w Hw. cbn. unfold LRUCache_Get, LRU_content, report. cbv zeta.
  destruct (is_healthy_ (view p w)) eqn:Hh; cbn [negb].
  - destruct (GetFreshen_ok k _ Hw) as (base & Hg & Hw' & Ha). setoid_rewrite Hg. cbn [mbind option_bind].
    eexists (update p (mkLRUCache base true) w). rewrite view_update. cbn [is_healthy_ base_].
    split; [right; eauto|]. split; [done|]. split; [intros k'; by rewrite Ha, LRU_find_get|].
    intros callback. exists (value_ callback). split; [by left|]. rewrite set_value_self. unfold spec_get, LRU_find.
    by destruct (find_key k _).
  - exists w. rewrite Hh. split; [by left|]. split; [done|]. split; [done|].
    intros callback. exists (value_ callback). split; [by left|]. by rewrite set_value_self.
Qed.
Next Obligation.
  intros p k v w Hw Hf. cbn. unfold LRUCache_Put, LRU_content. cbv zeta.
  destruct (is_healthy_ (view p w)) eqn:Hh; cbn [negb].
  - destruct (Put_ok k v _ Hw Hf) as (base & -> & Hw' & Ha). cbn [mbind option_bind].
    eexists. split; [done|]. rewrite view_update. cbn [is_healthy_ base_].
    split; [right; eauto|]. split; [done|]. intros k' x. rewrite Ha.
    destruct (LRU_find (spec_put k v _) k') as [y|] eqn:E; [|done]. cbn [fmap option_fmap option_map]. rewrite ?Hh. intros [= <-].
    destruct (LRU_find_put _ _ _ _ _ E) as [[-> ->]|[Hne ->]]; [by left|by right].
  - exists w. rewrite Hh. split; [done|]. split; [by left|]. by split.
Qed.
Next Obligation.
  intros p k w Hw. cbn. unfold LRUCache_Delete, LRU_content. cbv zeta.
  destruct (is_healthy_ (view p w)) eqn:Hh; cbn [negb].
  - destruct (Delete_ok k _ Hw) as (base & -> & Hw' & Ha). cbn [mbind option_bind].
    eexists. split; [done|]. rewrite view_update. cbn [is_healthy_ base_].
    split; [right; eauto|]. split; [done|]. intros k' x. rewrite Ha.
    destruct (LRU_find (spec_delete k _) k') as [y|] eqn:E; [|done]. cbn [fmap option_fmap option_map]. rewrite ?Hh. intros [= <-].
    by destruct (LRU_find_delete _ _ _ _ E) as [Hne ->].
  - exists w. rewrite Hh. split; [done|]. split; [by left|]. by split.
Qed.

(** *** CacheKeyPrepender *)

Lemma KeyPrepender_report pre k st v (callback : Callback) (w : W) :
  ValidateAndReportResult (AddPrefix pre k) st (set_value v (KeyPrependerCallback pre callback)) w =
  ValidateAndReportResult k st (set_value v callback) w.
Proof.
  unfold ValidateAndReportResult. cbn [set_value value_ self KeyPrependerCallback ValidateCandidate object Done].
  rewrite (proj2 (StartsWith_spec (AddPrefix pre k) pre)) by (unfold AddPrefix; eauto). cbn [negb].
  unfold AddPrefix. rewrite drop_app_length. unfold Delegating_ValidateCandidate.
  by destruct (ValidateCandidate callback k st v (self callback) w) as [[[valid o] w']|].
Qed.

#[export] Program Instance CacheKeyPrepender_SingleReport pre c `{!SingleReport c} :
    SingleReport (CacheKeyPrepender pre c) := {
  content w k := content c w (AddPrefix pre k);
  ready := ready c;
  step := step c;
  fits k v := fits c (AddPrefix pre k) v
}.
Next Obligation.
  intros pre c Hc k w Hw. destruct (Get_report c (AddPrefix pre k) w Hw) as (w' & Hs & Hw' & Hk & H).
  exists w'. split; [done|]. split; [done|]. split; [done|]. intros callback.
  destruct (H (KeyPrependerCallback pre callback)) as (v0 & Hv0 & Hg). exists v0.
  assert (v0 = Owned []) as -> by by destruct Hv0. split; [by right|].
  cbn [CacheKeyPrepender Get]. rewrite Hg. unfold report.
  destruct (content c w (AddPrefix pre k)); apply KeyPrepender_report.
Qed.
Next Obligation.
  intros pre c Hc k v w Hw Hf. destruct (Put_content c _ v w Hw Hf) as (w' & Hp & Hs & Hw' & H).
  exists w'. split; [done|]. split; [done|]. split; [done|]. intros k' x Hx.
  destruct (H _ _ Hx) as [[He Ho]|[Hne Ho]].
  - left. split; [|done]. by apply (inj (app pre)) in He.
  - right. split; [|done]. intros ->. by apply Hne.
Qed.
Next Obligation.
  intros pre c Hc k w Hw. destruct (Delete_content c (AddPrefix pre k) w Hw) as (w' & Hp & Hs & Hw' & H).
  exists w'. split; [done|]. split; [done|]. split; [done|]. intros k' x Hx.
  destruct (H _ _ Hx) as [Hne Ho]. split; [|done]. intros ->. by apply Hne.
Qed.

(** Caches kept in separate parts do not see each other. *)
Lemma LRUCache_independent (p q : Part W LRUCacheState) : separate p q -> independent (LRUCache p) (LRUCache q).
Proof.
  intros [H1 H2]. split; intros w w' Hs; cbn in *; unfold LRU_content.
  - by rewrite (part_step_view p q w w') by done.
  - by rewrite (part_step_view q p w w') by done.
Qed.

Lemma InMemoryCache_independent (p q : Part W InMemoryCacheState) :
  separate p q -> independent (InMemoryCache p) (InMemoryCache q).
Proof.
  intros [H1 H2]. split; intros w w' Hs; cbn in *; unfold InMemory_content.
  - by rewrite (part_step_view p q w w') by done.
  - by rewrite (part_step_view q p w w') by done.
Qed.
End laws.

Program Definition first_part {A B} : Part (A * B) A := mkPart _ fst (fun a w => (a, w.2)) _.
Next Obligation. done. Qed.
Program Definition second_part {A B} : Part (A * B) B := mkPart _ snd (fun b w => (w.1, b)) _.
Next Obligation. done. Qed.

Lemma parts_separate {A B} : separate (@first_part A B) second_part.
Proof. done. Qed.

Lemma new_LRUCache_ready max : 0 <= max <= 2 ^ 63 -> wf_but None (base_ (new_LRUCache max)).
Proof. intros H. apply (wf_with_stats None (fun _ => no_stats)), new_cache_wf, H. Qed.
