(* ===== verification/WriteThroughCache.v ===== *)
(** * The two-level cache

    src/pagespeed/kernel/cache/write_through_cache.cc: [cache1_] in front of
    [cache2_]. A [Get] asks [cache1_], and [cache2_] if that one does not answer
    with a value its callback accepts; an answer of [cache2_] is promoted. *)

From S2P Require Import Prelude LruCache CacheInterface.

Definition kUnlimited : Z := u64 (-1).

Section write_through.
Context {W : Type}.
Variables cache1_ cache2_ : CacheInterface W.
Variable cache1_size_limit_ : Z.

Definition PutInCache1 (key value : bytes) (w : W) : option W :=
  if (cache1_size_limit_ =? kUnlimited) ||
     (u64 (Z.of_nat (length key) + Z.of_nat (length value)) <? cache1_size_limit_)
  then Put cache1_ key value w else Some w.

(** *** WriteThroughCallback *)

Section callback.
Variable key_ : bytes.
Variable callback_ : Callback W.

Definition WriteThroughCallback_ValidateCandidate (key : bytes) (state : KeyState) (v : MappedSharedString)
    (o : MappedSharedString * object callback_) (w : W) : option (bool * (MappedSharedString * object callback_) * W) :=
  match ValidateCandidate callback_ key state v o.2 w with
  | Some (valid, inner, w) => Some (valid, (v, inner), w)
  | None => None
  end.

(** The promotion of an L2 hit: a borrowed value is copied, a torn one left
    alone. *)
Definition promote (v : MappedSharedString) (w : W) : option W :=
  if is_mapped v then
    match CopyMappedVerified v with
    | Some owned => PutInCache1 key_ owned w
    | None => Some w
    end
  else PutInCache1 key_ (Value v) w.

(** [Done] once [trying_cache2_] is set, and before. *)
Definition Done_trying_cache2 (state : KeyState) (v : MappedSharedString)
    (o : MappedSharedString * object callback_) (w : W) : option W :=
  w ← (if decide (state = kAvailable) then promote v w else Some w);
  Done callback_ state o.1 o.2 w.

Definition Done_trying_cache1 (state : KeyState) (v : MappedSharedString)
    (o : MappedSharedString * object callback_) (w : W) : option W :=
  if decide (state = kAvailable) then Done callback_ state o.1 o.2 w
  else Get cache2_ key_
         (mkCallback _ o v WriteThroughCallback_ValidateCandidate Done_trying_cache2) w.

Definition WriteThroughCallback : Callback W :=
  mkCallback _ (value_ callback_, self callback_) (Owned [])
    WriteThroughCallback_ValidateCandidate Done_trying_cache1.
End callback.

Definition WriteThrough_Get (key : bytes) (callback : Callback W) (w : W) : option W :=
  Get cache1_ key (WriteThroughCallback key callback) w.

Definition WriteThrough_Put (key value : bytes) (w : W) : option W :=
  w ← PutInCache1 key value w; Put cache2_ key value w.

Definition WriteThrough_Delete (key : bytes) (w : W) : option W :=
  w ← Delete cache1_ key w; Delete cache2_ key w.

Definition WriteThroughCache : CacheInterface W :=
  mkCache WriteThrough_Get (default_MultiGet WriteThrough_Get) WriteThrough_Put WriteThrough_Delete
    (IsBlocking cache1_ && IsBlocking cache2_) (fun w => IsHealthy cache1_ w && IsHealthy cache2_ w)
    (fun w => w ← ShutDown cache1_ w; ShutDown cache2_ w).

(** ** Two caches that report once *)

Context `{!SingleReport cache1_} `{!SingleReport cache2_} (Hind : independent cache1_ cache2_).

Definition both_ready (w : W) : Prop := ready cache1_ w /\ ready cache2_ w.

(** What a [Get] finds: the first level first, if the callback accepts it. *)
Definition answer (ok : bytes -> KeyState -> MappedSharedString -> bool) (k : bytes) (w : W)
  : option (bool * MappedSharedString) :=
  let try c := match c with Some x => if ok k kAvailable x then Some x else None | None => None end in
  match try (content cache1_ w k) with
  | Some x => Some (true, x)
  | None => pair false <$> try (content cache2_ w k)
  end.

(** What promotion stores in the first level. *)
Definition promoted (k : bytes) (v : MappedSharedString) : option bytes :=
  match CopyMappedVerified v with
  | Some s => if (cache1_size_limit_ =? kUnlimited) ||
                 (u64 (Z.of_nat (length k) + Z.of_nat (length s)) <? cache1_size_limit_)
              then Some s else None
  | None => None
  end.

Lemma promote_ok k v w :
  both_ready w -> (forall s, promoted k v = Some s -> fits cache1_ k s) -> exists w',
    promote k v w = Some w' /\ both_ready w' /\
    (forall k', content cache2_ w' k' = content cache2_ w k') /\
    match promoted k v with
    | Some s => Put cache1_ k s w = Some w' /\ forall k' x, content cache1_ w' k' = Some x ->
        (k' = k /\ honest x s) \/ (k' <> k /\ content cache1_ w k' = Some x)
    | None => w' = w
    end.
Proof.
  intros [H1 H2] Hf.
  assert (promote k v w = match promoted k v with Some s => Put cache1_ k s w | None => Some w end) as ->.
  { unfold promote, promoted, PutInCache1. destruct v as [s|s []]; cbn [is_mapped CopyMappedVerified Value]; first [done|by destruct (_ || _)]. }
  destruct (promoted k v) as [s|]; [|by exists w].
  destruct (Put_content cache1_ k s w H1 (Hf _ eq_refl)) as (w' & Hp & Hs & Hw' & Hc).
  destruct (proj1 Hind _ _ Hs) as [Hc2 Hr2]. exists w'. rewrite Hp. repeat split; auto.
Qed.

(** The [Get] of the second level, made by [Done]. *)
Lemma Get_trying_cache2 k callback ok v o w :
  both_ready w -> pure_validate callback ok ->
  (forall x s, content cache2_ w k = Some x -> promoted k x = Some s -> fits cache1_ k s) ->
  exists st v' o' w1 w2,
    Get cache2_ k (mkCallback _ o v (WriteThroughCallback_ValidateCandidate callback) (Done_trying_cache2 k callback)) w =
      Done callback st v' o' w2 /\
    both_ready w1 /\ (forall k', content cache1_ w1 k' = content cache1_ w k') /\
    (forall k', content cache2_ w1 k' = content cache2_ w k') /\
    ((st = kAvailable /\ content cache2_ w k = Some v' /\ ok k kAvailable v' = true /\ promote k v' w1 = Some w2) \/
     (st = kNotFound /\ (forall x, content cache2_ w k = Some x -> ok k kAvailable x = false) /\ w2 = w1)).
Proof.
  intros [H1 H2] Hp Hf. destruct (Get_report cache2_ k w H2) as (w1 & Hs & Hr2 & Hc2 & Hg).
  destruct (proj2 Hind _ _ Hs) as [Hc1 Hr1]. specialize (Hr1 H1).
  set (cb := mkCallback _ o v _ _). destruct (Hg cb) as (v0 & _ & ->). subst cb.
  unfold report, ValidateAndReportResult. destruct (content cache2_ w k) as [x|] eqn:E;
    cbn [set_value value_ self ValidateCandidate Done object]; unfold WriteThroughCallback_ValidateCandidate at 1.
  - destruct (Hp k kAvailable x o.2 w1) as (o' & ->). unfold Done_trying_cache2. cbn [fst snd].
    destruct (ok k kAvailable x) eqn:Ho.
    + rewrite decide_True by done. destruct (promote_ok k x w1) as (w2 & Hw2 & _); [done|by eauto|].
      rewrite Hw2. cbn [mbind option_bind]. exists kAvailable, x, o', w1, w2. repeat split; eauto 10.
    + rewrite decide_False by done. cbn [mbind option_bind]. exists kNotFound, x, o', w1, w1.
      repeat split; eauto. right. split; [done|]. split; [|done]. by intros y [= <-].
  - destruct (Hp k kNotFound v0 o.2 w1) as (o' & ->). unfold Done_trying_cache2. cbn [fst snd].
    rewrite decide_False by by destruct (ok k kNotFound v0). cbn [mbind option_bind].
    exists kNotFound, v0, o', w1, w1. destruct (ok k kNotFound v0); repeat split; eauto; by right.
Qed.

Lemma WriteThrough_Get_ok k callback ok w :
  both_ready w -> pure_validate callback ok ->
  (forall x s, content cache2_ w k = Some x -> promoted k x = Some s -> fits cache1_ k s) ->
  exists st v o w1 w2,
    WriteThrough_Get k callback w = Done callback st v o w2 /\
    both_ready w1 /\ (forall k', content cache1_ w1 k' = content cache1_ w k') /\
    (forall k', content cache2_ w1 k' = content cache2_ w k') /\
    match answer ok k w with
    | Some (true, x) => st = kAvailable /\ v = x /\ w2 = w1
    | Some (false, x) => st = kAvailable /\ v = x /\ promote k x w1 = Some w2
    | None => st = kNotFound /\ w2 = w1
    end.
Proof.
  intros [H1 H2] Hp Hf. unfold WriteThrough_Get. destruct (Get_report cache1_ k w H1) as (w1 & Hs & Hr1 & Hc1 & Hg).
  destruct (proj1 Hind _ _ Hs) as [Hc2 Hr2]. specialize (Hr2 H2).
  destruct (Hg (WriteThroughCallback k callback)) as (v0 & _ & ->).
  assert (Hnext : forall v o, (forall x, content cache1_ w k = Some x -> ok k kAvailable x = false) ->
    exists st v' o' w1' w2, Get cache2_ k (mkCallback _ o v (WriteThroughCallback_ValidateCandidate callback)
        (Done_trying_cache2 k callback)) w1 = Done callback st v' o' w2 /\
      both_ready w1' /\ (forall k', content cache1_ w1' k' = content cache1_ w k') /\
      (forall k', content cache2_ w1' k' = content cache2_ w k') /\
      match answer ok k w with
      | Some (true, x) => st = kAvailable /\ v' = x /\ w2 = w1'
      | Some (false, x) => st = kAvailable /\ v' = x /\ promote k x w1' = Some w2
      | None => st = kNotFound /\ w2 = w1'
      end).
  { intros v o Hno. destruct (Get_trying_cache2 k callback ok v o w1) as (st & v' & o' & w1' & w2 & Hget & Hb & Ha1 & Ha2 & Hst);
      [done|done|intros x s; rewrite Hc2; apply Hf|].
    exists st, v', o', w1', w2. split; [done|]. split; [done|]. split; [intros k'; by rewrite Ha1|].
    split; [intros k'; by rewrite Ha2|]. unfold answer.
    replace (match content cache1_ w k with Some x => if ok k kAvailable x then Some x else None | None => None end)
      with (@None MappedSharedString) by (destruct (content cache1_ w k); [by rewrite Hno|done]).
    rewrite Hc2 in Hst. destruct Hst as [(-> & -> & -> & Hpr)|(-> & Hn & ->)]; [done|].
    destruct (content cache2_ w k) as [x|]; [by rewrite Hn|done]. }
  unfold report, ValidateAndReportResult. destruct (content cache1_ w k) as [x|] eqn:E;
    cbn [set_value value_ self ValidateCandidate Done object WriteThroughCallback];
    unfold WriteThroughCallback_ValidateCandidate at 1; cbn [snd].
  - destruct (Hp k kAvailable x (self callback) w1) as (o' & ->). unfold Done_trying_cache1.
    destruct (ok k kAvailable x) eqn:Ho.
    + rewrite decide_True by done. exists kAvailable, x, o', w1, w1. unfold answer. rewrite E, Ho. done.
    + rewrite decide_False by done. apply Hnext. by intros y [= <-].
  - destruct (Hp k kNotFound v0 (self callback) w1) as (o' & ->). unfold Done_trying_cache1.
    rewrite decide_False by by destruct (ok k kNotFound v0). by apply Hnext.
Qed.


Lemma answer_first ok k w x :
  answer ok k w = Some (true, x) -> content cache1_ w k = Some x /\ ok k kAvailable x = true.
Proof.
  unfold answer. destruct (content cache1_ w k) as [a|]; [destruct (ok k kAvailable a) eqn:E; [by intros [= <-]|]|];
    (destruct (content cache2_ w k) as [b|]; [destruct (ok k kAvailable b)|]; done).
Qed.

Lemma answer_second ok k w x :
  answer ok k w = Some (false, x) -> content cache2_ w k = Some x /\ ok k kAvailable x = true.
Proof.
  unfold answer. destruct (content cache1_ w k) as [a|]; [destruct (ok k kAvailable a) eqn:E; [done|]|];
    (destruct (content cache2_ w k) as [b|]; [destruct (ok k kAvailable b) eqn:O|]; [cbn; by intros [= <-]|done..]).
Qed.

Lemma promoted_honest k x s v : promoted k x = Some s -> honest x v -> s = v.
Proof.
  unfold promoted. destruct x as [b|b []]; cbn; [|done|]; destruct (_ || _); try done; by intros [= <-] <-.
Qed.

Lemma promote_content1 k x w w' :
  both_ready w -> (forall s, promoted k x = Some s -> fits cache1_ k s) -> promote k x w = Some w' ->
  both_ready w' /\ (forall k', content cache2_ w' k' = content cache2_ w k') /\
  forall k' y, content cache1_ w' k' = Some y ->
    content cache1_ w k' = Some y \/ (k' = k /\ exists s, promoted k x = Some s /\ honest y s).
Proof.
  intros Hb Hf Hp. destruct (promote_ok k x w Hb Hf) as (w2 & Hp2 & Hb2 & H2 & H).
  rewrite Hp in Hp2. injection Hp2 as <-. split; [done|]. split; [done|]. intros k' y Hy.
  destruct (promoted k x) as [s|]; [|subst; by left].
  destruct H as [_ H]. destruct (H _ _ Hy) as [[-> Ho]|[_ Ho]]; [right|by left]. eauto.
Qed.

(** ** Properties *)

(** A [Get] of the two-level cache tells its callback exactly once: the
    value of the first level if the callback accepts it, else an accepted value
    of the second level, which is then copied into the first unless it is too
    large or its borrow is torn, else that the key is not found. Nothing else
    changes in the second level, and nothing but the promoted key can appear in
    the first. *)
Lemma WriteThrough_Get_correct (k : bytes) (callback : Callback W)
    (ok : bytes -> KeyState -> MappedSharedString -> bool) (w : W) :
  both_ready w -> pure_validate callback ok ->
  (forall x s, content cache2_ w k = Some x -> promoted k x = Some s -> fits cache1_ k s) ->
  exists st v o w',
    Get WriteThroughCache k callback w = Done callback st v o w' /\ both_ready w' /\
    match answer ok k w with
    | Some (_, x) => st = kAvailable /\ v = x
    | None => st = kNotFound
    end /\
    (forall k', content cache2_ w' k' = content cache2_ w k') /\
    (forall k' y, content cache1_ w' k' = Some y -> content cache1_ w k' = Some y \/
       (k' = k /\ exists x s, answer ok k w = Some (false, x) /\ promoted k x = Some s /\ honest y s)).
Proof.
  intros Hb Hp Hf. destruct (WriteThrough_Get_ok k callback ok w Hb Hp Hf) as (st & v & o & w1 & w2 & Hg & Hb1 & H1 & H2 & Ha).
  exists st, v, o, w2. split; [exact Hg|]. destruct (answer ok k w) as [[[|] x]|] eqn:E.
  - destruct Ha as (-> & -> & ->). repeat split; try done; [apply Hb1..|]. intros k' y. rewrite H1. by left.
  - destruct Ha as (-> & -> & Hpr).
    pose proof (proj1 (answer_second _ _ _ _ E)) as Hx.
    destruct (promote_content1 k x w1 w2) as (Hb2 & Hc2 & Hc1); [done|by eauto|done|].
    split; [done|]. split; [done|]. split; [intros k'; by rewrite Hc2|]. intros k' y Hy.
    destruct (Hc1 _ _ Hy) as [Ho|(-> & s & Hs & Hy')]; [left; by rewrite <- H1|right; eauto 10].
  - destruct Ha as (-> & ->). repeat split; try done; [apply Hb1..|]. intros k' y. rewrite H1. by left.
Qed.

(** C16: Without a size limit the two-level cache keeps the contract of a
    single one, whatever its levels evict and whatever the callbacks reject:
    no [Get] is answered with a value that was overwritten or deleted. *)
Theorem WriteThrough_coherent (w0 : W) :
  cache1_size_limit_ = kUnlimited -> both_ready w0 ->
  (forall k, content cache1_ w0 k = None) -> (forall k, content cache2_ w0 k = None) ->
  coherent WriteThroughCache (fun k v => fits cache1_ k v /\ fits cache2_ k v) w0.
Proof.
  intros Hl H0 He1 He2.
  exists (fun w m => both_ready w /\ backed cache1_ w m /\ backed cache2_ w m /\ forall k v, m !! k = Some v -> fits cache1_ k v).
  split; [|split; [|split]].
  - split; [done|]. split; [intros k x; by rewrite He1|]. split; [intros k x; by rewrite He2|]. done.
  - intros k v w m ([Hr1 Hr2] & Hb1 & Hb2 & Hm) [Hf1 Hf2]. cbn. unfold WriteThrough_Put, PutInCache1. rewrite Hl. cbn [orb Z.eqb].
    destruct (Put_content cache1_ k v w Hr1 Hf1) as (w1 & Hp1 & Hs1 & Hr1' & Hc1).
    destruct (proj1 Hind _ _ Hs1) as [Hk2 Hr2']. specialize (Hr2' Hr2).
    destruct (Put_content cache2_ k v w1 Hr2' Hf2) as (w2 & Hp2 & Hs2 & Hr2'' & Hc2).
    destruct (proj2 Hind _ _ Hs2) as [Hk1 Hr1'']. rewrite Z.eqb_refl. cbn [orb]. rewrite Hp1. cbn [mbind option_bind].
    exists w2. split; [done|]. split; [split; [by apply Hr1''|done]|]. split; [|split].
    + eapply backed_same; [exact Hk1|]. by eapply backed_Put.
    + eapply backed_Put; [exact Hc2|]. by eapply backed_same.
    + intros k' v'. rewrite lookup_insert_Some. intros [[<- <-]|[_ H]]; [done|by apply Hm].
  - intros k w m ([Hr1 Hr2] & Hb1 & Hb2 & Hm). cbn. unfold WriteThrough_Delete.
    destruct (Delete_content cache1_ k w Hr1) as (w1 & -> & Hs1 & Hr1' & Hc1). cbn [mbind option_bind].
    destruct (proj1 Hind _ _ Hs1) as [Hk2 Hr2']. specialize (Hr2' Hr2).
    destruct (Delete_content cache2_ k w1 Hr2') as (w2 & Hp2 & Hs2 & Hr2'' & Hc2).
    destruct (proj2 Hind _ _ Hs2) as [Hk1 Hr1''].
    exists w2. split; [done|]. split; [split; [by apply Hr1''|done]|]. split; [|split].
    + eapply backed_same; [exact Hk1|]. by eapply backed_Delete.
    + eapply backed_Delete; [exact Hc2|]. by eapply backed_same.
    + intros k' v'. rewrite lookup_delete_Some. intros [_ H]. by apply Hm.
  - intros k callback ok w m (Hb & Hb1 & Hb2 & Hm) Hp.
    assert (Hf : forall x s, content cache2_ w k = Some x -> promoted k x = Some s -> fits cache1_ k s).
    { intros x s Hx Hs. destruct (Hb2 _ _ Hx) as (v & Hv & Hh). rewrite (promoted_honest _ _ _ _ Hs Hh). by apply Hm. }
    destruct (WriteThrough_Get_ok k callback ok w Hb Hp Hf) as (st & v & o & w1 & w2 & Hg & Hb' & H1 & H2 & Ha).
    exists st, v, o, w2. split; [exact Hg|].
    pose proof (backed_same cache1_ w w1 m H1 Hb1) as Hb1'. pose proof (backed_same cache2_ w w1 m H2 Hb2) as Hb2'.
    destruct (answer ok k w) as [[[|] x]|] eqn:E.
    + apply answer_first in E as [Hx Ho]. destruct Ha as (-> & -> & ->). split; [done|]. left.
      split; [done|]. split; [done|]. by apply Hb1.
    + apply answer_second in E as [Hx Ho]. destruct Ha as (-> & -> & Hpr). destruct (Hb2 _ _ Hx) as (u & Hu & Hh).
      destruct (promote_content1 k x w1 w2) as (Hbw & Hc2 & Hc1); [done|by eauto|done|].
      split; [|by left; eauto]. split; [done|]. split; [|split; [by eapply backed_same|done]].
      intros k' y Hy. destruct (Hc1 _ _ Hy) as [Ho1|(-> & s & Hs & Hy')]; [by apply Hb1'|].
      exists u. by rewrite (promoted_honest _ _ _ _ Hs Hh) in Hy'.
    + destruct Ha as (-> & ->). split; [done|by right].
Qed.

(** With a size limit the contract is broken: a value too large for the
    first level does not replace or remove the smaller one stored there, and
    [Get] goes on answering the overwritten value. *)
Lemma oversized_Put_leaves_stale_value (k old v : bytes) (w : W) :
  both_ready w -> fits cache2_ k v -> content cache1_ w k = Some (Owned old) ->
  cache1_size_limit_ <> kUnlimited -> cache1_size_limit_ <= u64 (Z.of_nat (length k) + Z.of_nat (length v)) ->
  exists w', Put WriteThroughCache k v w = Some w' /\
    forall callback ok, pure_validate callback ok -> ok k kAvailable (Owned old) = true ->
      exists o w'', Get WriteThroughCache k callback w' = Done callback kAvailable (Owned old) o w''.
Proof.
  intros [Hr1 Hr2] Hf Hold Hl1 Hl2. cbn. unfold WriteThrough_Put, PutInCache1.
  rewrite (proj2 (Z.eqb_neq _ _)), (proj2 (Z.ltb_ge _ _)) by done. cbn [orb mbind option_bind].
  destruct (Put_content cache2_ k v w Hr2 Hf) as (w1 & Hp & Hs & Hr2' & Hc2).
  destruct (proj2 Hind _ _ Hs) as [Hk1 Hr1']. exists w1. split; [done|]. intros callback ok Hpure Hok.
  destruct (Get_report cache1_ k w1 (Hr1' Hr1)) as (w2 & _ & _ & _ & Hg). unfold WriteThrough_Get.
  destruct (Hg (WriteThroughCallback k callback)) as (v0 & _ & ->). rewrite Hk1, Hold.
  unfold report, ValidateAndReportResult. cbn [set_value value_ self ValidateCandidate Done object WriteThroughCallback].
  unfold WriteThroughCallback_ValidateCandidate at 1. cbn [snd].
  destruct (Hpure k kAvailable (Owned old) (self callback) w2) as (o & ->). rewrite Hok.
  unfold Done_trying_cache1. rewrite decide_True by done. by exists o, w2.
Qed.

End write_through.

(** *** Witnesses: two LRU caches *)

Definition LRU_pair : Type := LRUCacheState * LRUCacheState.
Definition L1 : CacheInterface LRU_pair := LRUCache first_part.
Definition L2 : CacheInterface LRU_pair := LRUCache second_part.
Definition empty_pair : LRU_pair := (new_LRUCache 100, new_LRUCache 1000).

Lemma L1_L2_independent : independent L1 L2.
Proof. apply LRUCache_independent, parts_separate. Qed.

Lemma empty_pair_ready : both_ready L1 L2 empty_pair.
Proof. by split; apply new_LRUCache_ready. Qed.

Lemma WriteThrough_coherent_witness :
  coherent (WriteThroughCache L1 L2 kUnlimited) (fun k v => fits L1 k v /\ fits L2 k v) empty_pair.
Proof.
  apply (WriteThrough_coherent L1 L2 kUnlimited L1_L2_independent); [done|apply empty_pair_ready|done|done].
Defined.

Definition pair_of_old : LRU_pair :=
  default empty_pair (Put (WriteThroughCache L1 L2 20) (lit "key") (lit "old") empty_pair).

Lemma pair_of_old_ready : both_ready L1 L2 pair_of_old.
Proof.
  destruct empty_pair_ready as [H1 H2]. unfold pair_of_old. cbn [WriteThroughCache Put]. unfold WriteThrough_Put, PutInCache1.
  cbn [orb Z.eqb]. replace (_ || _) with true by (by vm_compute).
  destruct (Put_content L1 (lit "key") (lit "old") empty_pair H1 ltac:(by vm_compute)) as (w1 & -> & Hs1 & Hr1 & _).
  destruct (proj1 L1_L2_independent _ _ Hs1) as [_ Hr2]. specialize (Hr2 H2). cbn [mbind option_bind].
  destruct (Put_content L2 (lit "key") (lit "old") w1 Hr2 ltac:(by vm_compute)) as (w2 & -> & Hs2 & Hr2' & _).
  destruct (proj2 L1_L2_independent _ _ Hs2) as [_ Hr1']. split; [by apply Hr1'|done].
Qed.

