(* ===== verification/FallbackCache.v ===== *)
(** * The fallback cache and the key/value codec

    - src/pagespeed/kernel/cache/fallback_cache.cc: small values in one cache
      with the suffix [S], large ones in another, with the marker [L] in the
      first;
    - src/pagespeed/kernel/cache/key_value_codec.cc: keys stored in the values. *)

From S2P Require Import Prelude LruCache CacheInterface.

Definition kInSmallObjectCache : ascii := "S".
Definition kInLargeObjectCache : ascii := "L".

Definition i64 (z : Z) : Z := (z + 2 ^ 63) mod 2 ^ 64 - 2 ^ 63.

(** [RemoveSuffix(1)] *)
Definition RemoveLast (s : bytes) : bytes := take (length s - 1) s.
Definition last_char (s : bytes) : option ascii := last s.

Section fallback.
Context {W : Type}.
Variables small_object_cache_ large_object_cache_ : CacheInterface W.
Variable threshold_bytes_ : Z.
Variable account_for_key_size_ : bool.

(** *** FallbackCallback: its object is the wrapped value and object,
    [callback_ == nullptr] and [validate_candidate_called_]. *)

Section callback.
Variable callback_ : Callback W.
Abbreviation Object := (MappedSharedString * object callback_ * bool * bool)%type.

(** [callback_->DelegatedValidateCandidate(key, state)] *)
Definition delegate (key : bytes) (state : KeyState) (v : MappedSharedString) (inner : object callback_) (w : W)
    (result : bool -> bool) : option (bool * Object * W) :=
  match ValidateCandidate callback_ key state v inner w with
  | Some (valid, inner, w) => Some (result valid, (v, inner, false, true), w)
  | None => None
  end.

Definition Fallback_ValidateCandidate (key : bytes) (state : KeyState) (v : MappedSharedString) (o : Object) (w : W)
  : option (bool * Object * W) :=
  let '(inner_value, inner, _, _) := o in
  if bool_decide (Value v = [kInLargeObjectCache]) then
    w ← Get large_object_cache_ key
          (mkCallback (object callback_) inner inner_value (ValidateCandidate callback_) (Done callback_)) w;
    Some (true, (inner_value, inner, true, true), w)
  else if bool_decide (last_char (Value v) = Some kInSmallObjectCache) then
    match (if is_mapped v then CopyMappedVerified v else Some (Value v)) with
    | None => delegate key kNotFound inner_value inner w (fun _ => false)
    | Some new_value => delegate key state (Owned (RemoveLast new_value)) inner w (fun valid => valid)
    end
  else delegate key kNotFound inner_value inner w (fun _ => false).

Definition Fallback_Done (state : KeyState) (v : MappedSharedString) (o : Object) (w : W) : option W :=
  let '(inner_value, inner, callback_is_null, validate_candidate_called_) := o in
  if negb validate_candidate_called_ then None
  else if callback_is_null then Some w else Done callback_ state inner_value inner w.

Definition FallbackCallback : Callback W :=
  mkCallback Object (value_ callback_, self callback_, false, false) (Owned [])
    Fallback_ValidateCandidate Fallback_Done.
End callback.

Definition StoreSizeForRouting (key : bytes) (value_size : Z) (account_for_key_size : bool) : Z :=
  let store_size := i64 value_size in
  let store_size := if account_for_key_size then i64 (store_size + Z.of_nat (length key)) else store_size in
  i64 (store_size + 1).

Definition Fallback_Get (key : bytes) (callback : Callback W) (w : W) : option W :=
  Get small_object_cache_ key (FallbackCallback callback) w.

Definition Fallback_MultiGet (request : list (bytes * Callback W)) (w : W) : option W :=
  MultiGet small_object_cache_ (map (fun key_callback => (key_callback.1, FallbackCallback key_callback.2)) request) w.

Definition Fallback_Put (key value : bytes) (w : W) : option W :=
  if threshold_bytes_ <? StoreSizeForRouting key (Z.of_nat (length value)) account_for_key_size_ then
    w ← Put large_object_cache_ key value w; Put small_object_cache_ key [kInLargeObjectCache] w
  else Put small_object_cache_ key (value ++ [kInSmallObjectCache]) w.

Definition Fallback_Delete (key : bytes) (w : W) : option W :=
  w ← Delete small_object_cache_ key w; Delete large_object_cache_ key w.

Definition FallbackCache : CacheInterface W :=
  mkCache Fallback_Get Fallback_MultiGet Fallback_Put Fallback_Delete
    (IsBlocking small_object_cache_ && IsBlocking large_object_cache_)
    (fun w => IsHealthy small_object_cache_ w && IsHealthy large_object_cache_ w)
    (fun w => w ← ShutDown small_object_cache_ w; ShutDown large_object_cache_ w).

(** ** Its promise, from those of the two caches

    The small-object cache answers with owned values: a torn one could look like
    the marker. *)

Context `{!SingleReport small_object_cache_} `{!SingleReport large_object_cache_}.
Hypothesis Hind : independent small_object_cache_ large_object_cache_.
Hypothesis Howned : forall w k x, content small_object_cache_ w k = Some x -> is_mapped x = false.

Definition Fallback_content (w : W) (k : bytes) : option MappedSharedString :=
  x ← content small_object_cache_ w k;
  if bool_decide (Value x = [kInLargeObjectCache]) then content large_object_cache_ w k
  else if bool_decide (last_char (Value x) = Some kInSmallObjectCache) then Some (Owned (RemoveLast (Value x)))
  else None.

Definition Fallback_ready (w : W) : Prop := ready small_object_cache_ w /\ ready large_object_cache_ w.
Definition Fallback_step : W -> W -> Prop :=
  rtc (fun w w' => step small_object_cache_ w w' \/ step large_object_cache_ w w').

Lemma RemoveLast_snoc s c : RemoveLast (s ++ [c]) = s.
Proof. unfold RemoveLast. rewrite length_app. cbn. rewrite Nat.add_sub. by rewrite take_app_length. Qed.

Lemma Fallback_Get_report k w : Fallback_ready w -> exists w',
  Fallback_step w w' /\ Fallback_ready w' /\ (forall k', Fallback_content w' k' = Fallback_content w k') /\
  forall callback, exists v0, (v0 = value_ callback \/ v0 = Owned []) /\
    Fallback_Get k callback w = report k (Fallback_content w k) v0 callback w'.
Proof.
  intros [Hs Hl]. destruct (Get_report small_object_cache_ k w Hs) as (w1 & Hst1 & Hs1 & Hcs1 & Hg).
  destruct (proj1 Hind _ _ Hst1) as [Hcl1 Hl1]. specialize (Hl1 Hl).
  assert (Hc1 : forall k', Fallback_content w1 k' = Fallback_content w k').
  { intros k'. unfold Fallback_content. by rewrite Hcs1, Hcl1. }
  assert (Hshort : (forall callback, exists v0, (v0 = value_ callback \/ v0 = Owned []) /\
      Fallback_Get k callback w = report k (Fallback_content w k) v0 callback w1) -> exists w',
      Fallback_step w w' /\ Fallback_ready w' /\ (forall k', Fallback_content w' k' = Fallback_content w k') /\
      forall callback, exists v0, (v0 = value_ callback \/ v0 = Owned []) /\
        Fallback_Get k callback w = report k (Fallback_content w k) v0 callback w').
  { intros H. exists w1. split; [by apply rtc_once; left|]. done. }
  unfold Fallback_Get in *. assert (Hf := eq_refl (Fallback_content w k)). unfold Fallback_content in Hf at 2.
  destruct (content small_object_cache_ w k) as [x|] eqn:E; cbn [mbind option_bind] in Hf.
  - case_bool_decide as HL; [|case_bool_decide as HS].
    + clear Hshort. destruct (Get_report large_object_cache_ k w1 Hl1) as (w2 & Hst2 & Hl2 & Hcl2 & Hg2).
      destruct (proj2 Hind _ _ Hst2) as [Hcs2 Hs2]. exists w2.
      split; [by eapply rtc_l; [left|apply rtc_once; right]|]. split; [split; [by apply Hs2|done]|].
      split. { intros k'. rewrite <- Hc1. unfold Fallback_content. by rewrite Hcs2, Hcl2. }
      intros callback. destruct (Hg2 callback) as (v0 & Hv0 & Hget). exists v0. split; [done|].
      destruct (Hg (FallbackCallback callback)) as (u & _ & ->). cbn [report]. unfold ValidateAndReportResult.
      cbn [set_value value_ self ValidateCandidate Done FallbackCallback Fallback_ValidateCandidate].
      rewrite bool_decide_eq_true_2 by done. rewrite Hf, <- Hcl1, <- Hget.
      replace (mkCallback _ _ _ _ _) with callback by by destruct callback.
      by destruct (Get large_object_cache_ k callback w1).
    + apply Hshort. intros callback. exists (value_ callback). split; [by left|]. rewrite Hf.
      destruct (Hg (FallbackCallback callback)) as (u & _ & ->). cbn [report]. unfold ValidateAndReportResult.
      cbn [set_value value_ self ValidateCandidate Done FallbackCallback Fallback_ValidateCandidate].
      rewrite bool_decide_eq_false_2, bool_decide_eq_true_2, (Howned _ _ _ E) by done. unfold delegate.
      by destruct (ValidateCandidate callback k kAvailable _ _ w1) as [[[valid o] w']|].
    + apply Hshort. intros callback. exists (value_ callback). split; [by left|]. rewrite Hf.
      destruct (Hg (FallbackCallback callback)) as (u & _ & ->). cbn [report]. unfold ValidateAndReportResult.
      cbn [set_value value_ self ValidateCandidate Done FallbackCallback Fallback_ValidateCandidate].
      rewrite !bool_decide_eq_false_2 by done. unfold delegate.
      by destruct (ValidateCandidate callback k kNotFound _ _ w1) as [[[[] o] w']|].
  - apply Hshort. intros callback. exists (value_ callback). split; [by left|]. rewrite Hf.
    destruct (Hg (FallbackCallback callback)) as (u & Hu & ->). assert (u = Owned []) as -> by by destruct Hu.
    cbn [report]. unfold ValidateAndReportResult.
    cbn [set_value value_ self ValidateCandidate Done FallbackCallback Fallback_ValidateCandidate].
    rewrite !bool_decide_eq_false_2 by done. unfold delegate.
    by destruct (ValidateCandidate callback k kNotFound _ _ w1) as [[[[] o] w']|].
Qed.

Definition Fallback_fits (k v : bytes) : Prop :=
  fits large_object_cache_ k v /\ fits small_object_cache_ k [kInLargeObjectCache] /\
  fits small_object_cache_ k (v ++ [kInSmallObjectCache]).

Lemma owned_honest w k x v : content small_object_cache_ w k = Some x -> honest x v -> Value x = v.
Proof. intros Hx. pose proof (Howned _ _ _ Hx). by destruct x as [|? []]. Qed.

(** What the content of a [Fallback_content] says of the two caches. *)
Lemma Fallback_content_Some w k x : Fallback_content w k = Some x -> exists y, content small_object_cache_ w k = Some y /\
  ((Value y = [kInLargeObjectCache] /\ content large_object_cache_ w k = Some x) \/
   (Value y <> [kInLargeObjectCache] /\ last_char (Value y) = Some kInSmallObjectCache /\ x = Owned (RemoveLast (Value y)))).
Proof.
  unfold Fallback_content. destruct (content small_object_cache_ w k) as [y|]; [|done]. cbn [mbind option_bind].
  case_bool_decide; [eauto|]. case_bool_decide; [|done]. intros [= <-]. eauto 6.
Qed.

Lemma Fallback_content_intro w k x y : content small_object_cache_ w k = Some y ->
  ((Value y = [kInLargeObjectCache] /\ content large_object_cache_ w k = Some x) \/
   (Value y <> [kInLargeObjectCache] /\ last_char (Value y) = Some kInSmallObjectCache /\ x = Owned (RemoveLast (Value y)))) ->
  Fallback_content w k = Some x.
Proof.
  unfold Fallback_content. intros -> [[H1 H2]|(H1 & H2 & ->)]; cbn [mbind option_bind].
  - by rewrite bool_decide_eq_true_2.
  - by rewrite bool_decide_eq_false_2, bool_decide_eq_true_2.
Qed.

Lemma Fallback_Put_content k v w : Fallback_ready w -> Fallback_fits k v -> exists w',
  Fallback_Put k v w = Some w' /\ Fallback_step w w' /\ Fallback_ready w' /\
  forall k' x, Fallback_content w' k' = Some x ->
    (k' = k /\ honest x v) \/ (k' <> k /\ Fallback_content w k' = Some x).
Proof.
  intros [Hs Hl] (Hf1 & Hf2 & Hf3). unfold Fallback_Put. destruct (_ <? _).
  - destruct (Put_content large_object_cache_ k v w Hl Hf1) as (w1 & -> & Hst1 & Hl1 & Hc1). cbn [mbind option_bind].
    destruct (proj2 Hind _ _ Hst1) as [Hcs1 Hs1].
    destruct (Put_content small_object_cache_ k _ w1 (Hs1 Hs) Hf2) as (w2 & -> & Hst2 & Hs2 & Hc2).
    destruct (proj1 Hind _ _ Hst2) as [Hcl2 Hl2]. exists w2. split; [done|].
    split; [by eapply rtc_l; [right|apply rtc_once; left]|]. split; [split; [done|by apply Hl2]|].
    intros k' x (y & Hy & Hx)%Fallback_content_Some. rewrite Hcl2 in Hx.
    destruct (Hc2 _ _ Hy) as [[-> Hh]|[Hne Hy']].
    + left. split; [done|]. pose proof (owned_honest _ _ _ _ Hy Hh) as Hv.
      destruct Hx as [[_ Hx]|(Hx & _)]; [|done]. by destruct (Hc1 _ _ Hx) as [[_ ?]|[? _]].
    + right. split; [done|]. rewrite Hcs1 in Hy'. apply (Fallback_content_intro w k' x y); [done|].
      destruct Hx as [[Hv Hx]|Hx]; [left|by right]. split; [done|]. by destruct (Hc1 _ _ Hx) as [[? _]|[_ ?]].
  - destruct (Put_content small_object_cache_ k _ w Hs Hf3) as (w1 & -> & Hst1 & Hs1 & Hc1).
    destruct (proj1 Hind _ _ Hst1) as [Hcl1 Hl1]. exists w1. split; [done|].
    split; [by apply rtc_once; left|]. split; [split; [done|by apply Hl1]|].
    intros k' x (y & Hy & Hx)%Fallback_content_Some. rewrite Hcl1 in Hx.
    destruct (Hc1 _ _ Hy) as [[-> Hh]|[Hne Hy']].
    + left. split; [done|]. pose proof (owned_honest _ _ _ _ Hy Hh) as Hv. rewrite Hv in Hx.
      destruct Hx as [[Hx _]|(_ & _ & ->)]; [|by cbn; rewrite RemoveLast_snoc].
      apply (f_equal last) in Hx. by rewrite last_snoc in Hx.
    + right. split; [done|]. by apply (Fallback_content_intro w k' x y).
Qed.

Lemma Fallback_Delete_content k w : Fallback_ready w -> exists w',
  Fallback_Delete k w = Some w' /\ Fallback_step w w' /\ Fallback_ready w' /\
  forall k' x, Fallback_content w' k' = Some x -> k' <> k /\ Fallback_content w k' = Some x.
Proof.
  intros [Hs Hl]. unfold Fallback_Delete.
  destruct (Delete_content small_object_cache_ k w Hs) as (w1 & -> & Hst1 & Hs1 & Hc1). cbn [mbind option_bind].
  destruct (proj1 Hind _ _ Hst1) as [Hcl1 Hl1].
  destruct (Delete_content large_object_cache_ k w1 (Hl1 Hl)) as (w2 & -> & Hst2 & Hl2 & Hc2).
  destruct (proj2 Hind _ _ Hst2) as [Hcs2 Hs2]. exists w2. split; [done|].
  split; [by eapply rtc_l; [left|apply rtc_once; right]|]. split; [split; [by apply Hs2|done]|].
  intros k' x (y & Hy & Hx)%Fallback_content_Some. rewrite Hcs2 in Hy. destruct (Hc1 _ _ Hy) as [Hne Hy'].
  split; [done|]. apply (Fallback_content_intro w k' x y); [done|].
  destruct Hx as [[Hv Hx]|Hx]; [left|by right]. split; [done|]. destruct (Hc2 _ _ Hx) as [_ Hx']. by rewrite Hcl1 in Hx'.
Qed.

Definition Fallback_SingleReport : SingleReport FallbackCache :=
  Build_SingleReport FallbackCache Fallback_content Fallback_ready Fallback_step Fallback_fits
    Fallback_Get_report Fallback_Put_content Fallback_Delete_content.

(** ** Properties *)

(** C17: The fallback cache keeps the contract of a single cache, whatever the
    threshold and whatever its two caches evict: a [Get] is answered once, never
    with an overwritten or deleted value, even when a key moves between the
    small and the large cache. *)
Theorem Fallback_coherent (w0 : W) :
  ready small_object_cache_ w0 -> ready large_object_cache_ w0 -> (forall k, content small_object_cache_ w0 k = None) ->
  coherent FallbackCache Fallback_fits w0.
Proof.
  intros Hs Hl He. apply (SingleReport_coherent FallbackCache (SingleReport0 := Fallback_SingleReport)); [by split|].
  intros k. cbn. unfold Fallback_content. by rewrite He.
Qed.
End fallback.

(** ** The codec *)

Definition kKeySizeOverheadBytes : Z := 2.
Definition kKeyMaxLength : Z := 2 ^ (kKeySizeOverheadBytes * 8) - 1.
Definition i32 (z : Z) : Z := (z + 2 ^ 31) mod 2 ^ 32 - 2 ^ 31.

Definition Encode (key value : bytes) : option bytes :=
  if kKeyMaxLength <? Z.of_nat (length key) then None
  else
    let key_size := u32 (Z.of_nat (length key)) in
    Some (value ++ key ++ [chr (Z.land key_size 255)] ++ [chr (Z.land (Z.shiftr key_size 8) 255)]).

(** [data[i]] *)
Definition byte_at (data : bytes) (i : Z) : Z := default 0 (code <$> data !! Z.to_nat i).

Definition Decode (key_value : bytes) : option (bytes * bytes) :=
  let key_value_size := i32 (Z.of_nat (length key_value)) in
  if key_value_size <? kKeySizeOverheadBytes then None
  else
    let key_size := Z.lor (Z.shiftl (byte_at key_value (key_value_size - 1)) 8) (byte_at key_value (key_value_size - 2)) in
    let key_value_size := key_value_size - kKeySizeOverheadBytes in
    if key_value_size <? key_size then None
    else
      let value_size := u32 (key_value_size - key_size) in
      Some (substr key_value (Z.to_nat value_size) (Z.to_nat key_size),
            take (length key_value - Z.to_nat (key_size + kKeySizeOverheadBytes)) key_value).

Definition GetValueSizeFromKeyAndKeyValue (key key_and_value : bytes) : Z :=
  i32 (u64 (u64 (Z.of_nat (length key_and_value) - Z.of_nat (length key)) - kKeySizeOverheadBytes)).

Lemma i32_id z : - 2 ^ 31 <= z < 2 ^ 31 -> i32 z = z.
Proof. intros H. unfold i32. rewrite Z.mod_small; lia. Qed.

Lemma lor_bytes hi lo : 0 <= lo < 256 -> 0 <= hi -> Z.lor (Z.shiftl hi 8) lo = 256 * hi + lo.
Proof.
  intros Hlo Hhi. assert (H0 : Z.land (Z.shiftl hi 8) lo = 0).
  { apply Z.bits_inj'. intros n Hn. rewrite Z.land_spec, Z.bits_0, Z.shiftl_spec by done.
    destruct (Z.lt_ge_cases n 8).
    - by rewrite Z.testbit_neg_r by lia.
    - rewrite <- (Z.mod_small lo (2 ^ 8)) by lia. rewrite Z.mod_pow2_bits_high by lia. apply andb_false_r. }
  rewrite <- Z.lxor_lor, <- Z.add_nocarry_lxor by done. rewrite Z.shiftl_mul_pow2 by lia. lia.
Qed.

Lemma low_byte n : 0 <= n -> code (chr (Z.land n 255)) = n mod 256.
Proof.
  intros Hn. change 255 with (Z.ones 8). rewrite Z.land_ones by lia.
  apply code_chr. apply Z.mod_pos_bound. lia.
Qed.

Lemma high_byte n : 0 <= n < 65536 -> code (chr (Z.land (Z.shiftr n 8) 255)) = n / 256.
Proof.
  intros Hn. rewrite Z.shiftr_div_pow2 by lia. change (2 ^ 8) with 256.
  rewrite low_byte by (apply Z.div_pos; lia). apply Z.mod_small. split; [apply Z.div_pos; lia|].
  apply Z.div_lt_upper_bound; lia.
Qed.

Lemma byte_at_app a b i : i = Z.of_nat (length a) -> byte_at (a ++ b) i = default 0 (code <$> head b).
Proof. intros ->. unfold byte_at. rewrite Nat2Z.id, lookup_app_r, Nat.sub_diag by done. by destruct b. Qed.

Lemma Decode_shape (value key : bytes) (lo hi : ascii) :
  Z.of_nat (length (value ++ key ++ [lo; hi])) < 2 ^ 31 ->
  256 * code hi + code lo = Z.of_nat (length key) ->
  Decode (value ++ key ++ [lo; hi]) = Some (key, value).
Proof.
  rewrite !length_app. cbn [length]. intros Hl Hk. unfold Decode. rewrite !length_app. cbn [length].
  set (n := (length value + (length key + 2))%nat). cbv zeta. rewrite i32_id by lia.
  unfold kKeySizeOverheadBytes. rewrite (proj2 (Z.ltb_ge (Z.of_nat n) 2)) by lia.
  assert (Hhi : byte_at (value ++ key ++ [lo; hi]) (Z.of_nat n - 1) = code hi).
  { replace (value ++ key ++ [lo; hi]) with ((value ++ key ++ [lo]) ++ [hi]) by (by rewrite <- !app_assoc).
    rewrite byte_at_app; [done|]. rewrite !length_app. cbn [length]. lia. }
  assert (Hlo : byte_at (value ++ key ++ [lo; hi]) (Z.of_nat n - 2) = code lo).
  { rewrite app_assoc, byte_at_app; [done|]. rewrite !length_app. lia. }
  rewrite Hhi, Hlo, lor_bytes, Hk by apply code_range.
  rewrite (proj2 (Z.ltb_ge _ _)) by lia. unfold u32. rewrite Z.mod_small by lia.
  replace (Z.to_nat (Z.of_nat n - 2 - Z.of_nat (length key))) with (length value) by lia.
  replace (n - Z.to_nat (Z.of_nat (length key) + 2))%nat with (length value) by lia.
  rewrite Nat2Z.id. unfold substr. by rewrite drop_app_length, !take_app_length.
Qed.

Lemma split_last2 {A} (l : list A) : (2 <= length l)%nat -> exists a x y, l = a ++ [x; y].
Proof.
  intros H. pose proof (take_drop (length l - 2) l) as Ht.
  assert (Hd : length (drop (length l - 2) l) = 2%nat) by (rewrite length_drop; lia).
  destruct (drop (length l - 2) l) as [|x [|y []]]; try done. by exists (take (length l - 2) l), x, y.
Qed.

Lemma Decode_Some_shape kv key value : Z.of_nat (length kv) < 2 ^ 31 -> Decode kv = Some (key, value) ->
  exists lo hi, kv = value ++ key ++ [lo; hi] /\ 256 * code hi + code lo = Z.of_nat (length key).
Proof.
  intros Hl Hd. destruct (decide (2 <= length kv)%nat) as [H2|H2].
  2:{ unfold Decode in Hd. cbv zeta in Hd. rewrite i32_id, (proj2 (Z.ltb_lt _ _)) in Hd; [done|unfold kKeySizeOverheadBytes; lia|lia]. }
  destruct (split_last2 kv H2) as (body & lo & hi & ->). rewrite length_app in Hl. cbn [length] in Hl.
  pose proof (code_range lo). pose proof (code_range hi). set (ks := 256 * code hi + code lo).
  destruct (Z.le_gt_cases ks (Z.of_nat (length body))) as [Hk|Hk].
  - pose proof (take_drop (length body - Z.to_nat ks) body) as Htd.
    assert (Hlen : Z.of_nat (length (drop (length body - Z.to_nat ks) body)) = ks) by (rewrite length_drop; lia).
    rewrite <- Htd, <- app_assoc in Hd. rewrite Decode_shape in Hd; [| |by rewrite Hlen].
    + injection Hd as <- <-. exists lo, hi. rewrite app_assoc, Htd. split; [done|by rewrite Hlen].
    + rewrite app_assoc, Htd, length_app. cbn [length]. lia.
  - exfalso. unfold Decode in Hd. cbv zeta in Hd. rewrite length_app in Hd. cbn [length] in Hd.
    rewrite i32_id in Hd by lia. unfold kKeySizeOverheadBytes in Hd. rewrite (proj2 (Z.ltb_ge _ 2)) in Hd by lia.
    assert (Hhi : byte_at (body ++ [lo; hi]) (Z.of_nat (length body + 2) - 1) = code hi).
    { replace (body ++ [lo; hi]) with ((body ++ [lo]) ++ [hi]) by (by rewrite <- app_assoc).
      rewrite byte_at_app; [done|]. rewrite length_app. cbn [length]. lia. }
    assert (Hlo : byte_at (body ++ [lo; hi]) (Z.of_nat (length body + 2) - 2) = code lo).
    { rewrite byte_at_app; [done|]. lia. }
    rewrite Hhi, Hlo, lor_bytes in Hd by apply code_range. rewrite (proj2 (Z.ltb_lt _ _)) in Hd by lia. done.
Qed.

(** C39: The codec stores every key of at most 65535 bytes with its value, and
    [Decode] is exactly the inverse: it accepts what [Encode] produces and nothing
    else, whatever bytes the value ends with. *)
Theorem key_value_codec_correct (key value kv : bytes) :
  Z.of_nat (length kv) < 2 ^ 31 ->
  (Decode kv = Some (key, value) <-> Encode key value = Some kv) /\
  (Encode key value = Some kv -> Z.of_nat (length key) <= 65535 /\
     GetValueSizeFromKeyAndKeyValue key kv = Z.of_nat (length value)).
Proof.
  intros Hl. assert (Henc : Encode key value = Some kv <-> Z.of_nat (length key) <= 65535 /\ exists lo hi,
    kv = value ++ key ++ [lo; hi] /\ 256 * code hi + code lo = Z.of_nat (length key)).
  { unfold Encode. change kKeyMaxLength with 65535. destruct (Z.ltb_spec 65535 (Z.of_nat (length key))) as [Hk|Hk].
    - split; [done|]. intros [H _]. lia.
    - unfold u32. rewrite Z.mod_small by lia. split.
      + intros [= <-]. split; [done|]. eexists _, _. split; [done|]. rewrite high_byte, low_byte by lia.
        symmetry. rewrite Z.add_comm, (Z.mul_comm 256), Z.add_comm. rewrite (Z.mul_comm _ 256). apply Z.div_mod. done.
      + intros (_ & lo & hi & -> & H). do 3 f_equal. pose proof (code_range lo). pose proof (code_range hi).
        cbn [app]. f_equal; [|f_equal]; apply code_inj.
        * rewrite low_byte by lia. rewrite <- H, Z.mul_comm, Z.add_comm, Z.mod_add, Z.mod_small; lia.
        * rewrite high_byte by lia. rewrite <- H, Z.mul_comm, Z.div_add_l, Z.div_small; lia. }
  split.
  - rewrite Henc. split.
    + intros (lo & hi & -> & H)%Decode_Some_shape; [|done]. split; [|eauto].
      pose proof (code_range lo). pose proof (code_range hi). lia.
    + intros (_ & lo & hi & -> & H). by apply Decode_shape.
  - intros (Hk & lo & hi & -> & _)%Henc. split; [done|]. unfold GetValueSizeFromKeyAndKeyValue, kKeySizeOverheadBytes, u64.
    rewrite !length_app in *. cbn [length] in *. rewrite (Z.mod_small (_ - Z.of_nat (length key))), Z.mod_small by lia.
    rewrite i32_id; lia.
Qed.

(** *** Witnesses *)

Definition two_LRUs : Type := LRUCacheState * LRUCacheState.
Definition small_LRU : CacheInterface two_LRUs := LRUCache first_part.
Definition large_LRU : CacheInterface two_LRUs := LRUCache second_part.
Lemma LRU_owned w k x : content small_LRU w k = Some x -> is_mapped x = false.
Proof. cbn. unfold LRU_content. destruct (is_healthy_ _); [|done]. destruct (LRU_find _ k); [|done]. by intros [= <-]. Qed.
Lemma LRUs_independent : independent small_LRU large_LRU.
Proof. apply LRUCache_independent, parts_separate. Qed.

Lemma Fallback_coherent_witness :
  coherent (FallbackCache small_LRU large_LRU 10 true) (Fallback_fits small_LRU large_LRU)
    (new_LRUCache 100, new_LRUCache 10000).
Proof.
  apply (Fallback_coherent small_LRU large_LRU 10 true LRUs_independent LRU_owned);
    [by apply new_LRUCache_ready|by apply new_LRUCache_ready|done].
Defined.

Lemma key_value_codec_correct_witness :
  (Decode (lit "valuekey" ++ [chr 3; chr 0]) = Some (lit "key", lit "value") <->
   Encode (lit "key") (lit "value") = Some (lit "valuekey" ++ [chr 3; chr 0])) /\
  (Encode (lit "key") (lit "value") = Some (lit "valuekey" ++ [chr 3; chr 0]) ->
   Z.of_nat (length (lit "key")) <= 65535 /\
   GetValueSizeFromKeyAndKeyValue (lit "key") (lit "valuekey" ++ [chr 3; chr 0]) = Z.of_nat (length (lit "value"))).
Proof. apply key_value_codec_correct. by vm_compute. Defined.
