(* ===== verification/SharedMemCacheData.v ===== *)
(** * The data structures of the shared-memory cache

    src/pagespeed/kernel/sharedmem/shared_mem_cache_data.h and .cc: a sector is a
    directory of entries on a doubly linked LRU list, and an array of blocks
    chained into files and a freelist by the block successor list.

    Pointers into the shared memory are indices: an access outside the arrays
    and a failed [CHECK] or [DCHECK] are [None]. The mutex, the memory layout and
    the textual dump of the statistics are not modelled. *)

From S2P Require Import Prelude.

(** ** Arrays indexed by C integers *)

Definition zat {A} (l : list A) (i : Z) : option A := if i <? 0 then None else l !! Z.to_nat i.
Definition zset {A} (l : list A) (i : Z) (x : A) : list A := if i <? 0 then l else <[Z.to_nat i := x]> l.

Lemma zat_Some {A} (l : list A) i x : zat l i = Some x -> 0 <= i < Z.of_nat (length l).
Proof.
  unfold zat. destruct (Z.ltb_spec i 0); [done|]. intros H1%lookup_lt_Some. lia.
Qed.

Lemma zat_is_Some {A} (l : list A) i : 0 <= i < Z.of_nat (length l) -> exists x, zat l i = Some x.
Proof.
  intros H. unfold zat. rewrite (proj2 (Z.ltb_ge _ _)) by lia. apply lookup_lt_is_Some. lia.
Qed.

Lemma length_zset {A} (l : list A) i x : length (zset l i x) = length l.
Proof. unfold zset. destruct (i <? 0); [done|]. apply length_insert. Qed.

Lemma zat_zset_eq {A} (l : list A) i x : 0 <= i < Z.of_nat (length l) -> zat (zset l i x) i = Some x.
Proof.
  intros H. unfold zat, zset. rewrite (proj2 (Z.ltb_ge _ _)) by lia. apply list_lookup_insert_eq. lia.
Qed.

Lemma zat_zset_ne {A} (l : list A) i j x : i <> j -> zat (zset l i x) j = zat l j.
Proof.
  intros H. unfold zat, zset. destruct (Z.ltb_spec i 0), (Z.ltb_spec j 0); try done.
  apply list_lookup_insert_ne. lia.
Qed.

(** ** The structures *)

Definition kInvalidBlock : Z := -1.
Definition kInvalidEntry : Z := -1.
Definition kHashSize : nat := 16.

Record SectorStats := mkSectorStats {
  num_put : Z;
  num_put_update : Z;
  num_put_replace : Z;
  num_put_concurrent_create : Z;
  num_put_concurrent_full_set : Z;
  num_put_spins : Z;
  num_get : Z;
  num_get_hit : Z;
  last_checkpoint_ms : Z;
  used_entries : Z;
  used_blocks : Z
}.

Definition no_sector_stats : SectorStats := mkSectorStats 0 0 0 0 0 0 0 0 0 0 0.

Definition SectorStats_Add (other s : SectorStats) : SectorStats :=
  mkSectorStats (num_put s + num_put other) (num_put_update s + num_put_update other)
    (num_put_replace s + num_put_replace other) (num_put_concurrent_create s + num_put_concurrent_create other)
    (num_put_concurrent_full_set s + num_put_concurrent_full_set other) (num_put_spins s + num_put_spins other)
    (num_get s + num_get other) (num_get_hit s + num_get_hit other) (last_checkpoint_ms s)
    (used_entries s + used_entries other) (used_blocks s + used_blocks other).

(** The increments of the sources; the 64-bit counters do not wrap. *)
Definition add_used (entries blocks : Z) (s : SectorStats) : SectorStats :=
  mkSectorStats (num_put s) (num_put_update s) (num_put_replace s) (num_put_concurrent_create s)
    (num_put_concurrent_full_set s) (num_put_spins s) (num_get s) (num_get_hit s) (last_checkpoint_ms s)
    (used_entries s + entries) (used_blocks s + blocks).
Definition put_up (s : SectorStats) : SectorStats := SectorStats_Add (mkSectorStats 1 0 0 0 0 0 0 0 0 0 0) s.
Definition put_update_up (s : SectorStats) : SectorStats := SectorStats_Add (mkSectorStats 0 1 0 0 0 0 0 0 0 0 0) s.
Definition put_replace_up (s : SectorStats) : SectorStats := SectorStats_Add (mkSectorStats 0 0 1 0 0 0 0 0 0 0 0) s.
Definition put_concurrent_create_up (s : SectorStats) : SectorStats :=
  SectorStats_Add (mkSectorStats 0 0 0 1 0 0 0 0 0 0 0) s.
Definition put_concurrent_full_set_up (s : SectorStats) : SectorStats :=
  SectorStats_Add (mkSectorStats 0 0 0 0 1 0 0 0 0 0 0) s.
Definition put_spins_up (s : SectorStats) : SectorStats := SectorStats_Add (mkSectorStats 0 0 0 0 0 1 0 0 0 0 0) s.
Definition get_up (s : SectorStats) : SectorStats := SectorStats_Add (mkSectorStats 0 0 0 0 0 0 1 0 0 0 0) s.
Definition get_hit_up (s : SectorStats) : SectorStats := SectorStats_Add (mkSectorStats 0 0 0 0 0 0 0 1 0 0 0) s.

Record CacheEntry := mkCacheEntry {
  hash_bytes : bytes;
  last_use_timestamp_ms : Z;
  byte_size : Z;
  lru_prev : Z;
  lru_next : Z;
  first_block : Z;
  flags : Z
}.

Definition with_hash_bytes h (e : CacheEntry) : CacheEntry :=
  mkCacheEntry h (last_use_timestamp_ms e) (byte_size e) (lru_prev e) (lru_next e) (first_block e) (flags e).
Definition with_last_use_timestamp_ms t (e : CacheEntry) : CacheEntry :=
  mkCacheEntry (hash_bytes e) t (byte_size e) (lru_prev e) (lru_next e) (first_block e) (flags e).
Definition with_byte_size n (e : CacheEntry) : CacheEntry :=
  mkCacheEntry (hash_bytes e) (last_use_timestamp_ms e) n (lru_prev e) (lru_next e) (first_block e) (flags e).
Definition with_lru_prev p (e : CacheEntry) : CacheEntry :=
  mkCacheEntry (hash_bytes e) (last_use_timestamp_ms e) (byte_size e) p (lru_next e) (first_block e) (flags e).
Definition with_lru_next n (e : CacheEntry) : CacheEntry :=
  mkCacheEntry (hash_bytes e) (last_use_timestamp_ms e) (byte_size e) (lru_prev e) n (first_block e) (flags e).
Definition with_first_block b (e : CacheEntry) : CacheEntry :=
  mkCacheEntry (hash_bytes e) (last_use_timestamp_ms e) (byte_size e) (lru_prev e) (lru_next e) b (flags e).
Definition with_flags f (e : CacheEntry) : CacheEntry :=
  mkCacheEntry (hash_bytes e) (last_use_timestamp_ms e) (byte_size e) (lru_prev e) (lru_next e) (first_block e) f.

(** The accessors of the flags: bit 0 and the bits above. *)
Definition creating (e : CacheEntry) : bool := negb (Z.land (flags e) 1 =? 0).
Definition set_creating (value : bool) (e : CacheEntry) : CacheEntry :=
  with_flags (if value then Z.lor (flags e) 1 else Z.land (flags e) (u32 (Z.lnot 1))) e.
Definition open_count (e : CacheEntry) : Z := Z.shiftr (flags e) 1.
Definition set_open_count (count : Z) (e : CacheEntry) : CacheEntry :=
  with_flags (Z.lor (Z.land (flags e) 1) (u32 (Z.shiftl count 1))) e.
Definition increment_open_count (e : CacheEntry) : CacheEntry := with_flags (u32 (flags e + 2)) e.
Definition decrement_open_count (e : CacheEntry) : CacheEntry := with_flags (u32 (flags e - 2)) e.

Record Sector := mkSector {
  free_list_front : Z;
  lru_list_front : Z;
  lru_list_rear : Z;
  disabled : bool;
  stats : SectorStats;
  block_successors_ : list Z;
  directory : list CacheEntry;
  block_bytes : list bytes
}.

Definition with_free_list_front b (s : Sector) : Sector :=
  mkSector b (lru_list_front s) (lru_list_rear s) (disabled s) (stats s) (block_successors_ s) (directory s) (block_bytes s).
Definition with_lru_list_front e (s : Sector) : Sector :=
  mkSector (free_list_front s) e (lru_list_rear s) (disabled s) (stats s) (block_successors_ s) (directory s) (block_bytes s).
Definition with_lru_list_rear e (s : Sector) : Sector :=
  mkSector (free_list_front s) (lru_list_front s) e (disabled s) (stats s) (block_successors_ s) (directory s) (block_bytes s).
Definition with_disabled d (s : Sector) : Sector :=
  mkSector (free_list_front s) (lru_list_front s) (lru_list_rear s) d (stats s) (block_successors_ s) (directory s) (block_bytes s).
Definition with_sector_stats f (s : Sector) : Sector :=
  mkSector (free_list_front s) (lru_list_front s) (lru_list_rear s) (disabled s) (f (stats s)) (block_successors_ s) (directory s) (block_bytes s).
Definition with_block_successors l (s : Sector) : Sector :=
  mkSector (free_list_front s) (lru_list_front s) (lru_list_rear s) (disabled s) (stats s) l (directory s) (block_bytes s).
Definition with_directory d (s : Sector) : Sector :=
  mkSector (free_list_front s) (lru_list_front s) (lru_list_rear s) (disabled s) (stats s) (block_successors_ s) d (block_bytes s).
Definition with_block_bytes b (s : Sector) : Sector :=
  mkSector (free_list_front s) (lru_list_front s) (lru_list_rear s) (disabled s) (stats s) (block_successors_ s) (directory s) b.

(** ** Sector *)

Section sector.
Variable kBlockSize : Z.
Variables cache_entries_ data_blocks_ : Z.

(** [OnOwnerDied]: the message is left out. *)
Definition OnOwnerDied (s : Sector) : Sector := if disabled s then s else with_disabled true s.

Definition EntryAt (slot : Z) (s : Sector) : option CacheEntry := zat (directory s) slot.
(** An assignment through the pointer to the entry. *)
Definition modify_entry (slot : Z) (f : CacheEntry -> CacheEntry) (s : Sector) : option Sector :=
  entry ← EntryAt slot s; Some (with_directory (zset (directory s) slot (f entry)) s).

Definition GetBlockSuccessor (block : Z) (s : Sector) : option Z :=
  if (0 <=? block) && (block <? data_blocks_) then zat (block_successors_ s) block else None.

Definition SetBlockSuccessor (block next : Z) (s : Sector) : option Sector :=
  if (0 <=? block) && (block <? data_blocks_) && (kInvalidBlock <=? next) && (next <? data_blocks_)
  then Some (with_block_successors (zset (block_successors_ s) block next) s) else None.

Fixpoint LinkBlockSuccessors (blocks : list Z) (s : Sector) : option Sector :=
  match blocks with
  | [] => Some s
  | block :: blocks' =>
      match blocks' with
      | [] => SetBlockSuccessor block kInvalidBlock s
      | next :: _ => s ← SetBlockSuccessor block next s; LinkBlockSuccessors blocks' s
      end
  end.

(** The loop takes at most [goal] rounds. *)
Fixpoint Alloc_loop (goal : nat) (blocks : list Z) (s : Sector) : option (Z * list Z * Sector) :=
  match goal with
  | O => Some (0, blocks, s)
  | S goal' =>
      if free_list_front s =? kInvalidBlock then Some (0, blocks, s)
      else
        let block_num := free_list_front s in
        next ← GetBlockSuccessor block_num s;
        '(allocated, blocks, s) ← Alloc_loop goal' (blocks ++ [block_num]) (with_free_list_front next s);
        Some (allocated + 1, blocks, s)
  end.

Definition AllocBlocksFromFreeList (goal : Z) (blocks : list Z) (s : Sector) : option (Z * list Z * Sector) :=
  '(allocated, blocks, s) ← Alloc_loop (Z.to_nat goal) blocks s;
  Some (allocated, blocks, with_sector_stats (add_used 0 allocated) s).

Fixpoint Return_loop (blocks : list Z) (s : Sector) : option Sector :=
  match blocks with
  | [] => Some s
  | block_num :: blocks' =>
      s ← SetBlockSuccessor block_num (free_list_front s) s;
      Return_loop blocks' (with_free_list_front block_num s)
  end.

Definition ReturnBlocksToFreeList (blocks : list Z) (s : Sector) : option Sector :=
  s ← Return_loop blocks s; Some (with_sector_stats (add_used 0 (- Z.of_nat (length blocks))) s).

Definition InsertEntryIntoLRU (entry_num : Z) (s : Sector) : option Sector :=
  entry ← EntryAt entry_num s;
  if negb ((lru_prev entry =? kInvalidEntry) && (lru_next entry =? kInvalidEntry)) then None
  else
    let s := with_sector_stats (add_used 1 0) s in
    let front := lru_list_front s in
    s ← modify_entry entry_num (with_lru_next front) s;
    s ← (if front =? kInvalidEntry then Some (with_lru_list_rear entry_num s)
         else modify_entry front (with_lru_prev entry_num) s);
    Some (with_lru_list_front entry_num s).

Definition UnlinkEntryFromLRU (entry_num : Z) (s : Sector) : option Sector :=
  entry ← EntryAt entry_num s;
  let s := if negb (lru_next entry =? kInvalidEntry) || negb (lru_prev entry =? kInvalidEntry) ||
              (lru_list_front s =? entry_num)
           then with_sector_stats (add_used (-1) 0) s else s in
  s ← (if lru_next entry =? kInvalidEntry then
         Some (if entry_num =? lru_list_rear s then with_lru_list_rear (lru_prev entry) s else s)
       else modify_entry (lru_next entry) (with_lru_prev (lru_prev entry)) s);
  entry ← EntryAt entry_num s;
  s ← (if lru_prev entry =? kInvalidEntry then
         Some (if entry_num =? lru_list_front s then with_lru_list_front (lru_next entry) s else s)
       else modify_entry (lru_prev entry) (with_lru_next (lru_next entry)) s);
  modify_entry entry_num (fun e => with_lru_next kInvalidEntry (with_lru_prev kInvalidEntry e)) s.

Definition OldestEntryNum (s : Sector) : Z := lru_list_rear s.

Definition NeededPieces (total piece_size : Z) : Z := u64 (total + piece_size - 1) / piece_size.
Definition DataBlocksForSize (size : Z) : Z := NeededPieces (u64 size) kBlockSize.

Definition BytesInPortion (total_bytes b total : Z) : Z :=
  if negb (b =? u64 (total - 1)) then kBlockSize
  else let rem := total_bytes mod kBlockSize in if rem =? 0 then kBlockSize else rem.

Fixpoint BlockList_loop (data_blocks : nat) (block : Z) (out_blocks : list Z) (s : Sector)
  : option (Z * list Z) :=
  match data_blocks with
  | O => Some (block, out_blocks)
  | S n => next ← GetBlockSuccessor block s; BlockList_loop n next (out_blocks ++ [block]) s
  end.

(** The list, and how many blocks were appended. *)
Definition BlockListForEntry (entry : CacheEntry) (out_blocks : list Z) (s : Sector) : option (Z * list Z) :=
  let data_blocks := DataBlocksForSize (byte_size entry) in
  '(block, out_blocks) ← BlockList_loop (Z.to_nat data_blocks) (first_block entry) out_blocks s;
  if negb (block =? kInvalidBlock) then None else Some (data_blocks, out_blocks).

(** [Initialize]: the memory of a new segment is zeroed. *)
Definition Initialize : option Sector :=
  let entry := mkCacheEntry (replicate kHashSize (chr 0)) 0 0 0 0 0 0 in
  let init e := with_first_block kInvalidBlock (with_lru_next kInvalidEntry (with_lru_prev kInvalidEntry e)) in
  let s := mkSector kInvalidBlock kInvalidEntry kInvalidEntry false no_sector_stats
             (replicate (Z.to_nat data_blocks_) 0) (replicate (Z.to_nat cache_entries_) (init entry))
             (replicate (Z.to_nat data_blocks_) (replicate (Z.to_nat kBlockSize) (chr 0))) in
  s ← ReturnBlocksToFreeList (seqZ 0 data_blocks_) s;
  Some (with_sector_stats (fun t => add_used 0 (- used_blocks t) t) s).

(** ** The LRU list *)

Definition first (d : Z) (l : list Z) : Z := match l with [] => d | e :: _ => e end.
Definition last_or (d : Z) (l : list Z) : Z := default d (last l).

(** The doubly linked segment of the nodes [l] between [prev] and [next]. *)
Fixpoint seg (links : Z -> option (Z * Z)) (prev : Z) (l : list Z) (next : Z) : Prop :=
  match l with
  | [] => True
  | e :: l' => links e = Some (prev, first next l') /\ seg links e l' next
  end.

Definition link_view (s : Sector) (e : Z) : option (Z * Z) :=
  (fun en => (lru_prev en, lru_next en)) <$> zat (directory s) e.

Record lru_ok (lru : list Z) (s : Sector) : Prop := {
  lo_seg : seg (link_view s) kInvalidEntry lru kInvalidEntry;
  lo_front : lru_list_front s = first kInvalidEntry lru;
  lo_rear : lru_list_rear s = last_or kInvalidEntry lru;
  lo_nodup : NoDup lru;
  lo_out : forall e v, link_view s e = Some v -> e ∉ lru -> v = (kInvalidEntry, kInvalidEntry);
  lo_used : used_entries (stats s) = Z.of_nat (length lru)
}.

Definition no_links (en : CacheEntry) : CacheEntry := with_lru_prev 0 (with_lru_next 0 en).

(** Only the LRU list differs. *)
Record same_but_links (s s' : Sector) : Prop := {
  sl_free : free_list_front s' = free_list_front s;
  sl_disabled : disabled s' = disabled s;
  sl_succ : block_successors_ s' = block_successors_ s;
  sl_bytes : block_bytes s' = block_bytes s;
  sl_stats : exists n, stats s' = add_used n 0 (stats s);
  sl_len : length (directory s') = length (directory s);
  sl_entry : forall e, no_links <$> zat (directory s') e = no_links <$> zat (directory s) e
}.

Lemma last_or_app d a b : last_or d (a ++ b) = last_or (last_or d a) b.
Proof. unfold last_or. rewrite last_app. by destruct (last b). Qed.

Lemma first_app d a b : first d (a ++ b) = first (first d b) a.
Proof. by destruct a. Qed.

Lemma last_or_cons d e l : last_or d (e :: l) = last_or e l.
Proof. unfold last_or. rewrite last_cons. by destruct (last l). Qed.

Lemma seg_app links p a b n :
  seg links p (a ++ b) n <-> seg links p a (first n b) /\ seg links (last_or p a) b n.
Proof.
  revert p. induction a as [|e a IH]; intros p; cbn [app seg]; [tauto|].
  rewrite IH, first_app, last_or_cons. tauto.
Qed.

Lemma seg_ext links links' p l n :
  (forall e, e ∈ l -> links' e = links e) -> seg links p l n -> seg links' p l n.
Proof.
  revert p. induction l as [|e l IH]; intros p H; cbn; [done|]. intros [H1 H2].
  split; [rewrite H; [done|left]|]. apply IH; [|done]. intros x Hx. apply H. by right.
Qed.

Lemma seg_mem links p l n e : seg links p l n -> e ∈ l -> exists v, links e = Some v.
Proof.
  revert p. induction l as [|x l IH]; intros p; cbn; [by intros _ ?%not_elem_of_nil|].
  intros [H1 H2] [->|H]%elem_of_cons; [eauto|by eapply IH].
Qed.

Lemma last_or_in d l : l <> [] -> last_or d l ∈ l.
Proof.
  unfold last_or. intros H. destruct (last l) as [x|] eqn:E; [by apply last_Some_elem_of|].
  by apply last_None in E.
Qed.

(** The neighbour of an end of a segment is replaced. *)
Lemma seg_replace_next links links' a : forall p n n',
  seg links p a n -> NoDup a ->
  (forall z v, z ∈ a -> links z = Some v -> links' z = Some (v.1, if decide (z = last_or p a) then n' else v.2)) ->
  seg links' p a n'.
Proof.
  induction a as [|z a IH]; intros p n n'; cbn [seg]; [done|]. intros [Hz Ha] [Hn Hnd]%NoDup_cons H.
  rewrite last_or_cons in H. split.
  - rewrite (H z _ ltac:(left) Hz). cbn. destruct a as [|y a]; [by rewrite decide_True|].
    rewrite decide_False; [done|]. intros E. apply Hn. rewrite E. by apply last_or_in.
  - apply (IH z n n' Ha Hnd). intros x v Hx. apply H. by right.
Qed.

Lemma seg_replace_prev links links' p p' b n :
  seg links p b n -> NoDup b ->
  (forall z v, z ∈ b -> links z = Some v -> links' z = Some (if decide (z = first n b) then p' else v.1, v.2)) ->
  seg links' p' b n.
Proof.
  destruct b as [|y b]; cbn [seg first]; [done|]. intros [Hy Hb] [Hn Hnd]%NoDup_cons H. split.
  - rewrite (H y _ ltac:(left) Hy), decide_True by done. done.
  - apply (seg_ext links); [|done]. intros e He. destruct (seg_mem _ _ _ _ _ Hb He) as [v Hv].
    rewrite (H e v ltac:(by right) Hv), Hv, decide_False; [by destruct v|]. by intros ->.
Qed.

Lemma seg_unlink links links' p a e b n :
  NoDup (a ++ e :: b) -> p ∉ b -> n ∉ a -> seg links p (a ++ e :: b) n ->
  (forall z v, z ∈ a ++ b -> links z = Some v ->
     links' z = Some (if decide (z = first n b) then last_or p a else v.1,
                      if decide (z = last_or p a) then first n b else v.2)) ->
  seg links' p (a ++ b) n.
Proof.
  intros (Ha & Hab & Hb)%NoDup_app Hp Hn. rewrite !seg_app. intros [H1 [H2 H3]] H.
  apply NoDup_cons in Hb as [Heb Hb]. split.
  - eapply seg_replace_next; [exact H1|done|]. intros z v Hz Hv.
    rewrite (H z v); [|by apply elem_of_app; left|done]. rewrite decide_False; [done|].
    intros E. destruct b as [|y b]; cbn in E; [by subst|]. apply (Hab z Hz). subst. right. left.
  - eapply seg_replace_prev; [exact H3|done|]. intros z v Hz Hv.
    rewrite (H z v); [|by apply elem_of_app; right|done]. f_equal. f_equal. rewrite decide_False; [done|].
    intros E. destruct a as [|x a _] using rev_ind; [by cbn in E; subst|].
    rewrite last_or_app in E. cbn in E. apply (Hab x); [by apply elem_of_app; right; left|]. subst. by right.
Qed.

(** *** Assignments to entries *)

Lemma modify_entry_spec e f s en :
  zat (directory s) e = Some en -> exists s',
    modify_entry e f s = Some s' /\
    (forall x, zat (directory s') x = if decide (x = e) then Some (f en) else zat (directory s) x) /\
    s' = with_directory (directory s') s /\ length (directory s') = length (directory s).
Proof.
  intros He. unfold modify_entry, EntryAt. rewrite He. cbn [mbind option_bind]. eexists. split; [done|].
  cbn [directory with_directory]. split; [|split; [done|apply length_zset]].
  intros x. case_decide as E; [subst; apply zat_zset_eq; by eapply zat_Some|by apply zat_zset_ne].
Qed.

Lemma link_view_Some s e v : link_view s e = Some v -> exists en,
  zat (directory s) e = Some en /\ v = (lru_prev en, lru_next en).
Proof. unfold link_view. intros (en & H & ->)%fmap_Some. eauto. Qed.

Lemma lru_nonneg lru s e : lru_ok lru s -> e ∈ lru -> 0 <= e < Z.of_nat (length (directory s)).
Proof.
  intros H He. destruct (seg_mem _ _ _ _ _ (lo_seg _ _ H) He) as (v & (en & Hen & _)%link_view_Some).
  by eapply zat_Some.
Qed.

Definition remove_entry (e : Z) (lru : list Z) : list Z := filter (fun x => x <> e) lru.

Lemma remove_entry_notin e lru : e ∉ lru -> remove_entry e lru = lru.
Proof.
  intros H. unfold remove_entry. induction lru as [|x l IH]; [done|].
  apply not_elem_of_cons in H as [H1 H2]. rewrite filter_cons_True by congruence. by rewrite IH.
Qed.

Lemma remove_entry_app e a b : NoDup (a ++ e :: b) -> remove_entry e (a ++ e :: b) = a ++ b.
Proof.
  intros (_ & Hab & [Heb _]%NoDup_cons)%NoDup_app. unfold remove_entry.
  rewrite filter_app, filter_cons_False by (intros E; by apply E). f_equal.
  - apply remove_entry_notin. intros H. apply (Hab e H). left.
  - by apply remove_entry_notin.
Qed.

Lemma elem_of_remove_entry e x lru : x ∈ remove_entry e lru <-> x <> e /\ x ∈ lru.
Proof. unfold remove_entry. by rewrite list_elem_of_filter. Qed.

(** The links that an entry gets when [e], between [p] and [n], is taken out. *)
Definition relink (e p n x : Z) (en : CacheEntry) : CacheEntry :=
  with_lru_next (if decide (x = e) then kInvalidEntry else if decide (x = p) then n else lru_next en)
    (with_lru_prev (if decide (x = e) then kInvalidEntry else if decide (x = n) then p else lru_prev en) en).

Lemma no_links_relink e p n x en : no_links (relink e p n x en) = no_links en.
Proof. done. Qed.

Lemma entry_eta en : with_lru_next (lru_next en) (with_lru_prev (lru_prev en) en) = en.
Proof. by destruct en. Qed.

Lemma zat_invalid {A} (l : list A) : zat l kInvalidEntry = None.
Proof. done. Qed.

Lemma zat_zset {A} (l : list A) i y x :
  0 <= i < Z.of_nat (length l) -> zat (zset l i y) x = if decide (x = i) then Some y else zat l x.
Proof. intros H. case_decide as E; [subst; by apply zat_zset_eq|by apply zat_zset_ne]. Qed.

(** An assignment through a link, or to the end of the list when there is none. *)
Lemma link_step t f s s0 :
  directory s0 = directory s ->
  (t <> kInvalidEntry -> exists y, zat (directory s) t = Some y) -> exists d',
    (if t =? kInvalidEntry then Some s0 else modify_entry t f s)
    = Some (with_directory d' (if t =? kInvalidEntry then s0 else s)) /\
    length d' = length (directory s) /\
    forall x, zat d' x = (fun y => if decide (x = t) then f y else y) <$> zat (directory s) x.
Proof.
  intros Hd H. destruct (Z.eqb_spec t kInvalidEntry) as [->|E].
  - exists (directory s0). rewrite Hd. split; [|split; [done|]].
    + f_equal. destruct s0; cbn in *. by subst.
    + intros x. case_decide as Ex; [subst; by rewrite zat_invalid|]. by destruct (zat (directory s) x).
  - destruct (H E) as [y Hy]. destruct (modify_entry_spec t f s y Hy) as (s' & H1 & H2 & H3 & H4).
    exists (directory s'). rewrite <-H3. split; [done|]. split; [done|]. intros x. rewrite H2.
    case_decide as Ex; [subst; by rewrite Hy|]. by destruct (zat (directory s) x).
Qed.

Lemma Unlink_spec e s en :
  zat (directory s) e = Some en -> lru_prev en <> e -> lru_next en <> e ->
  (forall x, x = lru_prev en \/ x = lru_next en -> x <> kInvalidEntry -> exists y, zat (directory s) x = Some y) ->
  exists d', length d' = length (directory s) /\
    (forall x, zat d' x = relink e (lru_prev en) (lru_next en) x <$> zat (directory s) x) /\
    UnlinkEntryFromLRU e s = Some (mkSector (free_list_front s)
      (if (lru_prev en =? kInvalidEntry) && (e =? lru_list_front s) then lru_next en else lru_list_front s)
      (if (lru_next en =? kInvalidEntry) && (e =? lru_list_rear s) then lru_prev en else lru_list_rear s)
      (disabled s)
      (if negb (lru_next en =? kInvalidEntry) || negb (lru_prev en =? kInvalidEntry) || (lru_list_front s =? e)
       then add_used (-1) 0 (stats s) else stats s) (block_successors_ s) d' (block_bytes s)).
Proof.
  intros He Hp Hn Hval. unfold UnlinkEntryFromLRU. rewrite (He : EntryAt e s = Some en). cbn [mbind option_bind].
  set (s1 := if _ : bool then with_sector_stats _ _ else _).
  assert (Hs1 : directory s1 = directory s) by (unfold s1; by case_match).
  destruct (link_step (lru_next en) (with_lru_prev (lru_prev en)) s1
    (if e =? lru_list_rear s1 then with_lru_list_rear (lru_prev en) s1 else s1)) as (d1 & -> & L1 & D1);
    [by case_match|rewrite Hs1; auto|].
  cbn [mbind option_bind]. set (s2 := with_directory d1 _).
  assert (He1 : EntryAt e s2 = Some en).
  { unfold EntryAt, s2. cbn [directory with_directory]. rewrite D1, Hs1, He. cbn. by rewrite decide_False by done. }
  rewrite He1. cbn [mbind option_bind].
  destruct (link_step (lru_prev en) (with_lru_next (lru_next en)) s2
    (if e =? lru_list_front s2 then with_lru_list_front (lru_next en) s2 else s2)) as (d2 & -> & L2 & D2).
  { by case_match. }
  { intros Hx. destruct (Hval (lru_prev en) ltac:(by left) Hx) as [y Hy]. cbn [directory with_directory s2].
    rewrite D1, Hs1, Hy. eauto. }
  cbn [mbind option_bind directory with_directory s2] in *.
  assert (He2 : zat d2 e = Some en).
  { rewrite D2, D1, Hs1, He. cbn. by rewrite !decide_False by done. }
  edestruct (modify_entry_spec e) as (s' & -> & D3 & H3 & L3); [cbn; exact He2|]. exists (directory s').
  split; [cbn in L3; congruence|]. split.
  - intros x. rewrite D3. cbn [directory with_directory]. rewrite D2, D1, Hs1. unfold relink.
    destruct (decide (x = e)) as [->|Hx]; [by rewrite He|]. destruct (zat (directory s) x) as [y|]; [|done].
    cbn. f_equal. repeat case_decide; by destruct y.
  - rewrite H3. f_equal. unfold s2, s1. clear. destruct s as [? fr rr ? ? ? ? ?]. cbn [lru_list_front lru_list_rear].
    destruct (lru_next en =? kInvalidEntry), (lru_prev en =? kInvalidEntry), (fr =? e),
      (e =? rr) eqn:E1, (e =? fr) eqn:E2; cbn; rewrite ?E1; cbn; by rewrite ?E2.
Qed.

Lemma lru_split lru s e : lru_ok lru s -> e ∈ lru -> exists a b en,
  lru = a ++ e :: b /\ zat (directory s) e = Some en /\
  lru_prev en = last_or kInvalidEntry a /\ lru_next en = first kInvalidEntry b.
Proof.
  intros H (a & b & ->)%list_elem_of_split. exists a, b. pose proof (lo_seg _ _ H) as Hs.
  apply seg_app in Hs as [_ [(en & Hen & [= Hp Hn])%link_view_Some _]]. by exists en.
Qed.

Lemma invalid_not_in lru s : lru_ok lru s -> kInvalidEntry ∉ lru.
Proof. intros H Hi. apply (lru_nonneg _ _ _ H) in Hi. unfold kInvalidEntry in Hi. lia. Qed.

Lemma first_in d l : first d l <> d -> first d l ∈ l.
Proof. destruct l; [done|]. intros _. left. Qed.

Lemma last_or_in' d l : last_or d l <> d -> last_or d l ∈ l.
Proof. destruct l; [done|]. intros _. by apply last_or_in. Qed.

Lemma last_or_in_snoc d a e : last_or d (a ++ [e]) = e.
Proof. by rewrite last_or_app. Qed.

(** The neighbours of an entry are entries, and not itself. *)
Lemma lru_neighbours lru s e en : lru_ok lru s -> zat (directory s) e = Some en ->
  (lru_prev en <> e /\ lru_next en <> e) /\
  forall x, x = lru_prev en \/ x = lru_next en -> x <> kInvalidEntry -> exists y, zat (directory s) x = Some y.
Proof.
  intros H He. pose proof (zat_Some _ _ _ He) as Hr. destruct (decide (e ∈ lru)) as [Hin|Hout].
  - destruct (lru_split _ _ _ H Hin) as (a & b & en' & -> & He' & Hp & Hn).
    rewrite He in He'. injection He' as <-. pose proof (lo_nodup _ _ H) as (Ha & Hab & [Heb Hb]%NoDup_cons)%NoDup_app.
    assert (Hx : forall x, x = lru_prev en \/ x = lru_next en -> x <> kInvalidEntry -> x ∈ a ++ b).
    { intros x [->| ->] Hx; rewrite elem_of_app;
        [left; rewrite Hp; apply last_or_in'; congruence|right; rewrite Hn; apply first_in; congruence]. }
    assert (He' : e ∉ a ++ b) by (intros [?|?]%elem_of_app; [apply (Hab e); [done|left]|done]).
    split; [split; intros E; (apply He', Hx; [auto|unfold kInvalidEntry; lia])|].
    intros x H1 H2. apply zat_is_Some, (lru_nonneg _ _ _ H). specialize (Hx x H1 H2).
    rewrite elem_of_app in *. destruct Hx; [by left|by right; right].
  - assert ((lru_prev en, lru_next en) = (kInvalidEntry, kInvalidEntry)) as [= -> ->].
    { apply (lo_out _ _ H e); [|done]. unfold link_view. by rewrite He. }
    unfold kInvalidEntry in *. split; [lia|]. naive_solver.
Qed.

Lemma link_view_relink s s' e en x :
  (forall x, zat (directory s') x = relink e (lru_prev en) (lru_next en) x <$> zat (directory s) x) ->
  link_view s' x = (fun v => (if decide (x = e) then kInvalidEntry else if decide (x = lru_next en) then lru_prev en else v.1,
                              if decide (x = e) then kInvalidEntry else if decide (x = lru_prev en) then lru_next en else v.2))
                   <$> link_view s x.
Proof. intros H. unfold link_view. rewrite H. by destruct (zat (directory s) x). Qed.

Lemma add_used_0 t : add_used 0 0 t = t.
Proof. destruct t; unfold add_used; cbn. f_equal; lia. Qed.

Lemma add_used_add a b c d t : add_used a b (add_used c d t) = add_used (c + a) (d + b) t.
Proof. unfold add_used; cbn. f_equal; lia. Qed.

Lemma same_but_links_intro (s : Sector) fr rr n d' :
  length d' = length (directory s) ->
  (forall e, no_links <$> zat d' e = no_links <$> zat (directory s) e) ->
  same_but_links s (mkSector (free_list_front s) fr rr (disabled s) (add_used n 0 (stats s))
                     (block_successors_ s) d' (block_bytes s)).
Proof. intros H1 H2. split; try done. by exists n. Qed.

Lemma Unlink_member_ok lru s s' e a b en :
  lru = a ++ e :: b -> lru_ok lru s -> lru_prev en = last_or kInvalidEntry a -> lru_next en = first kInvalidEntry b ->
  (forall x, zat (directory s') x = relink e (lru_prev en) (lru_next en) x <$> zat (directory s) x) ->
  lru_list_front s' = first kInvalidEntry (a ++ b) -> lru_list_rear s' = last_or kInvalidEntry (a ++ b) ->
  used_entries (stats s') = used_entries (stats s) - 1 -> lru_ok (a ++ b) s'.
Proof.
  intros -> H Hp Hn D Hf Hr Hu. pose proof (lo_nodup _ _ H) as Hnd. pose proof (invalid_not_in _ _ H) as Hi.
  rewrite elem_of_app, elem_of_cons in Hi. pose proof Hnd as (Ha & Hab & [Heb Hb]%NoDup_cons)%NoDup_app.
  assert (He : e ∉ a ++ b) by (intros [Hx|Hx]%elem_of_app; [apply (Hab e Hx); left|done]). split.
  - apply (seg_unlink (link_view s) _ _ _ e); [done|tauto|tauto|apply (lo_seg _ _ H)|].
    intros z v Hz Hv. rewrite (link_view_relink _ _ _ _ _ D), Hv, Hp, Hn. cbn.
    rewrite !(decide_False (P := z = e)) by (by intros ->). done.
  - done.
  - done.
  - apply NoDup_app. split; [done|]. split; [|done]. intros x Hx Hxb. apply (Hab x Hx). by right.
  - intros x v. rewrite (link_view_relink _ _ _ _ _ D). intros (w & Hw & ->)%fmap_Some Hx.
    rewrite elem_of_app in Hx. destruct (decide (x = e)) as [->|Hxe]; [done|].
    assert (x <> kInvalidEntry) as Hxi by (intros ->; done).
    rewrite (lo_out _ _ H x w Hw) by (rewrite elem_of_app, elem_of_cons; tauto). cbn.
    rewrite !decide_False; [done|..].
    + rewrite Hp. intros ->. apply Hx. left. by apply last_or_in'.
    + rewrite Hn. intros ->. apply Hx. right. by apply first_in.
  - rewrite Hu, (lo_used _ _ H), !length_app. cbn. lia.
Qed.

Lemma lru_ok_ext lru s s' :
  lru_ok lru s -> (forall x, link_view s' x = link_view s x) -> lru_list_front s' = lru_list_front s ->
  lru_list_rear s' = lru_list_rear s -> used_entries (stats s') = used_entries (stats s) -> lru_ok lru s'.
Proof.
  intros H Hl Hf Hr Hu. split.
  - eapply seg_ext; [|apply (lo_seg _ _ H)]. intros e _. apply Hl.
  - rewrite Hf. apply H.
  - rewrite Hr. apply H.
  - apply H.
  - intros e v. rewrite Hl. apply H.
  - rewrite Hu. apply H.
Qed.

(** What the list says of the links of an entry on it, and of one that is not. *)
Lemma member_links a b e en s :
  lru_ok (a ++ e :: b) s -> lru_prev en = last_or kInvalidEntry a -> lru_next en = first kInvalidEntry b ->
  (lru_prev en = kInvalidEntry -> a = []) /\ (lru_next en = kInvalidEntry -> b = []).
Proof.
  intros H Hp Hn. pose proof (invalid_not_in _ _ H) as Hi. rewrite elem_of_app, elem_of_cons in Hi. split.
  - intros E. destruct a as [|x a]; [done|]. exfalso. apply Hi. left. rewrite <-E, Hp. by apply last_or_in.
  - intros E. destruct b as [|x b]; [done|]. exfalso. apply Hi. right. right. rewrite <-E, Hn. left.
Qed.

Lemma stranger_ends lru s e : lru_ok lru s -> e ∉ lru -> 0 <= e -> lru_list_front s <> e /\ lru_list_rear s <> e.
Proof.
  intros H Hout Hr. rewrite (lo_front _ _ H), (lo_rear _ _ H).
  split; intros <-; apply Hout; [apply first_in|apply last_or_in']; intros E; rewrite E in Hr;
    unfold kInvalidEntry in Hr; lia.
Qed.

Lemma Unlink_ends a b e en s :
  lru_ok (a ++ e :: b) s -> lru_prev en = last_or kInvalidEntry a -> lru_next en = first kInvalidEntry b ->
  negb (lru_next en =? kInvalidEntry) || negb (lru_prev en =? kInvalidEntry) || (lru_list_front s =? e) = true /\
  (if (lru_prev en =? kInvalidEntry) && (e =? lru_list_front s) then lru_next en else lru_list_front s)
    = first kInvalidEntry (a ++ b) /\
  (if (lru_next en =? kInvalidEntry) && (e =? lru_list_rear s) then lru_prev en else lru_list_rear s)
    = last_or kInvalidEntry (a ++ b).
Proof.
  intros H Hp Hn. destruct (member_links _ _ _ _ _ H Hp Hn) as [Ha Hb].
  pose proof (lo_front _ _ H) as Hf. pose proof (lo_rear _ _ H) as Hre. repeat split.
  - destruct (Z.eqb_spec (lru_prev en) kInvalidEntry) as [Ep|]; [|by rewrite orb_true_r].
    rewrite Hf, (Ha Ep). cbn. by rewrite Z.eqb_refl, orb_true_r.
  - destruct (Z.eqb_spec (lru_prev en) kInvalidEntry) as [Ep|Ep]; [|by rewrite Hf; destruct a].
    rewrite Hf, (Ha Ep). cbn. by rewrite Z.eqb_refl.
  - destruct (Z.eqb_spec (lru_next en) kInvalidEntry) as [Ep|Ep].
    + rewrite Hre, (Hb Ep), last_or_in_snoc, Z.eqb_refl, app_nil_r. done.
    + rewrite Hre. destruct b as [|x b]; [done|]. cbn. by rewrite !last_or_app, !last_or_cons.
Qed.

Lemma Unlink_ok lru s e : lru_ok lru s -> 0 <= e < Z.of_nat (length (directory s)) -> exists s',
  UnlinkEntryFromLRU e s = Some s' /\ lru_ok (remove_entry e lru) s' /\ same_but_links s s'.
Proof.
  intros H Hr. destruct (zat_is_Some (directory s) e Hr) as [en Hen].
  destruct (lru_neighbours _ _ _ _ H Hen) as [[Hp Hn] Hv].
  destruct (Unlink_spec e s en Hen Hp Hn Hv) as (d' & L & D & ->). eexists. split; [done|].
  assert (Hd : forall x, no_links <$> zat d' x = no_links <$> zat (directory s) x).
  { intros x. rewrite D. by destruct (zat (directory s) x). }
  destruct (decide (e ∈ lru)) as [Hin|Hout].
  - destruct (lru_split _ _ _ H Hin) as (a & b & en' & -> & He' & Hpr & Hnx).
    rewrite Hen in He'. injection He' as <-. destruct (Unlink_ends _ _ _ _ _ H Hpr Hnx) as (-> & Hf & Hre).
    split; [|by apply same_but_links_intro]. rewrite remove_entry_app by apply H.
    eapply Unlink_member_ok; [done|exact H|exact Hpr|exact Hnx|exact D|done|done|cbn; lia].
  - assert ((lru_prev en, lru_next en) = (kInvalidEntry, kInvalidEntry)) as [= Ep En].
    { apply (lo_out _ _ H e); [|done]. unfold link_view. by rewrite Hen. }
    destruct (stranger_ends _ _ _ H Hout ltac:(lia)) as [Hfe Hfr].
    rewrite Ep, En, (proj2 (Z.eqb_neq _ _) Hfe), !(proj2 (Z.eqb_neq e _)) by done. cbn.
    rewrite remove_entry_notin by done. rewrite <-(add_used_0 (stats s)). split; [|by apply same_but_links_intro].
    eapply lru_ok_ext; [exact H|..]; try done; [|cbn; lia]. intros x.
    erewrite link_view_relink; [|exact D]. destruct (link_view s x) as [[vp vn]|] eqn:Ev; [|done]. cbn. rewrite Ep, En.
    destruct (decide (x = e)) as [->|Hx].
    + unfold link_view in Ev. rewrite Hen in Ev. cbn in Ev. congruence.
    + rewrite !decide_False; [done|..]; by intros ->.
Qed.

Lemma Insert_spec lru e s en : lru_ok lru s -> e ∉ lru -> zat (directory s) e = Some en -> exists d',
  length d' = length (directory s) /\
  (forall x, zat d' x = (fun y => with_lru_next (if decide (x = e) then first kInvalidEntry lru else lru_next y)
      (with_lru_prev (if decide (x = first kInvalidEntry lru) then e else lru_prev y) y)) <$> zat (directory s) x) /\
  InsertEntryIntoLRU e s = Some (mkSector (free_list_front s) e (last_or e lru) (disabled s)
    (add_used 1 0 (stats s)) (block_successors_ s) d' (block_bytes s)).
Proof.
  intros H Hout He. pose proof (zat_Some _ _ _ He) as Hr. pose proof (invalid_not_in _ _ H) as Hi.
  assert ((lru_prev en, lru_next en) = (kInvalidEntry, kInvalidEntry)) as [= Ep En].
  { apply (lo_out _ _ H e); [|done]. unfold link_view. by rewrite He. }
  unfold InsertEntryIntoLRU. rewrite (He : EntryAt e s = Some en). cbn [mbind option_bind]. rewrite Ep, En.
  change (lru_list_front (with_sector_stats (add_used 1 0) s)) with (lru_list_front s). cbn [kInvalidEntry Z.eqb Pos.eqb andb negb].
  destruct (modify_entry_spec e (with_lru_next (lru_list_front s)) (with_sector_stats (add_used 1 0) s) en He)
    as (s1 & -> & D1 & H1 & L1). cbn [mbind option_bind].
  destruct (link_step (lru_list_front s) (with_lru_prev e) s1 (with_lru_list_rear e s1)) as (d' & -> & L2 & D2); [done| |].
  { rewrite (lo_front _ _ H). intros Hx. rewrite D1. case_decide; [eauto|].
    apply zat_is_Some, (lru_nonneg _ _ _ H). by apply first_in. }
  exists d'. cbn [mbind option_bind]. split; [cbn in L1; congruence|]. split.
  - intros x. rewrite D2, D1, (lo_front _ _ H). cbn [directory with_sector_stats].
    destruct (decide (x = e)) as [->|Hx]; [rewrite He|destruct (zat (directory s) x) as [y|]; [|done]];
      cbn; f_equal; case_decide; try (by destruct en); by destruct y.
  - rewrite H1, (lo_front _ _ H). pose proof (lo_rear _ _ H) as Hre. f_equal. destruct lru as [|x l]; cbn [first].
    + done.
    + destruct (Z.eqb_spec x kInvalidEntry) as [->|_]; [by exfalso; apply Hi; left|]. 
      rewrite last_or_cons, <-(last_or_cons kInvalidEntry), <-Hre. done.
Qed.

Lemma Insert_ok lru s e : lru_ok lru s -> e ∉ lru -> 0 <= e < Z.of_nat (length (directory s)) -> exists s',
  InsertEntryIntoLRU e s = Some s' /\ lru_ok (e :: lru) s' /\ same_but_links s s'.
Proof.
  intros H Hout Hr. destruct (zat_is_Some (directory s) e Hr) as [en Hen].
  assert ((lru_prev en, lru_next en) = (kInvalidEntry, kInvalidEntry)) as [= Ep En].
  { apply (lo_out _ _ H e); [|done]. unfold link_view. by rewrite Hen. }
  pose proof (invalid_not_in _ _ H) as Hi.
  destruct (Insert_spec lru e s en H Hout Hen) as (d' & L & D & ->). eexists. split; [done|]. split.
  - split.
    + cbn [seg]. split.
      * unfold link_view. cbn [directory]. rewrite D, Hen. cbn.
        rewrite (decide_True (P := e = e)) by done. rewrite decide_False, Ep; [done|].
        intros ->. apply Hout, first_in. intros E. rewrite E in Hr. unfold kInvalidEntry in Hr. lia.
      * eapply seg_replace_prev; [apply (lo_seg _ _ H)|apply H|]. intros z v Hz (y & Hy & ->)%link_view_Some.
        unfold link_view. cbn [directory]. rewrite D, Hy. cbn. rewrite (decide_False (P := z = e)) by (by intros ->). done.
    + done.
    + cbn. by rewrite last_or_cons.
    + apply NoDup_cons. split; [done|apply H].
    + intros x v (y' & Hy' & ->)%link_view_Some [Hx Hxl]%not_elem_of_cons. cbn [directory] in Hy'.
      rewrite D in Hy'. apply fmap_Some in Hy' as (y & Hy & ->). cbn.
      assert (Hxi : x <> kInvalidEntry) by (intros ->; done).
      rewrite !decide_False by (by intros E; rewrite E in *; auto using first_in).
      apply (lo_out _ _ H x); [|done]. unfold link_view. by rewrite Hy.
    + cbn. rewrite (lo_used _ _ H). lia.
  - apply same_but_links_intro; [done|]. intros x. rewrite D. by destruct (zat (directory s) x).
Qed.

(** ** The blocks *)

(** [l] is the list of blocks that starts at [b]. *)
Fixpoint chain (succ : list Z) (b : Z) (l : list Z) : Prop :=
  match l with
  | [] => b = kInvalidBlock
  | x :: l' => b = x /\ exists next, zat succ x = Some next /\ chain succ next l'
  end.

Lemma chain_first succ b l : chain succ b l -> b = first kInvalidBlock l.
Proof. destruct l; cbn; [done|]. by intros [-> _]. Qed.

Lemma chain_in_range succ b l x : chain succ b l -> x ∈ l -> 0 <= x < Z.of_nat (length succ).
Proof.
  revert b. induction l as [|y l IH]; intros b; cbn; [by intros _ ?%not_elem_of_nil|].
  intros (-> & n & Hy & Hl) [->|H]%elem_of_cons; [by eapply zat_Some|by eapply IH].
Qed.

Lemma chain_ext succ succ' b l : (forall x, x ∈ l -> zat succ' x = zat succ x) -> chain succ b l -> chain succ' b l.
Proof.
  revert b. induction l as [|y l IH]; intros b H; cbn; [done|]. intros (-> & n & Hy & Hl). split; [done|].
  exists n. split; [rewrite H by left; done|]. apply IH; [|done]. intros x Hx. apply H. by right.
Qed.

(** Only the freelist and the block successor list differ. *)
Record same_but_blocks (s s' : Sector) : Prop := {
  sb_dir : directory s' = directory s;
  sb_front : lru_list_front s' = lru_list_front s;
  sb_rear : lru_list_rear s' = lru_list_rear s;
  sb_disabled : disabled s' = disabled s;
  sb_bytes : block_bytes s' = block_bytes s;
  sb_entries : used_entries (stats s') = used_entries (stats s)
}.

Lemma same_but_blocks_lru lru s s' : same_but_blocks s s' -> lru_ok lru s -> lru_ok lru s'.
Proof.
  intros [] H. eapply lru_ok_ext; [exact H|..]; try congruence. intros x. unfold link_view. congruence.
Qed.

Definition in_sector (b : Z) : Prop := 0 <= b < data_blocks_.

Lemma SetBlockSuccessor_ok block next s :
  in_sector block -> next = kInvalidBlock \/ in_sector next ->
  SetBlockSuccessor block next s = Some (with_block_successors (zset (block_successors_ s) block next) s).
Proof.
  unfold in_sector, SetBlockSuccessor, kInvalidBlock. intros H1 H2.
  replace (_ && _) with true by (symmetry; rewrite !andb_true_iff, !Z.leb_le, !Z.ltb_lt; lia). done.
Qed.

Lemma GetBlockSuccessor_ok block s :
  in_sector block -> GetBlockSuccessor block s = zat (block_successors_ s) block.
Proof.
  unfold in_sector, GetBlockSuccessor. intros H.
  replace (_ && _) with true by (symmetry; rewrite !andb_true_iff, !Z.leb_le, !Z.ltb_lt; lia). done.
Qed.

Section with_blocks.
Variable s : Sector.
Hypothesis Hlen : Z.of_nat (length (block_successors_ s)) = data_blocks_.

Lemma chain_in_sector b l : chain (block_successors_ s) b l -> Forall in_sector l.
Proof.
  intros H. apply Forall_forall. intros x Hx. unfold in_sector. rewrite <-Hlen. by eapply chain_in_range.
Qed.
End with_blocks.

Lemma Alloc_loop_spec goal : forall blocks free s,
  Z.of_nat (length (block_successors_ s)) = data_blocks_ ->
  chain (block_successors_ s) (free_list_front s) free ->
  Alloc_loop goal blocks s = Some (Z.of_nat (goal `min` length free), blocks ++ take goal free,
    with_free_list_front (first kInvalidBlock (drop goal free)) s) /\
  chain (block_successors_ s) (first kInvalidBlock (drop goal free)) (drop goal free).
Proof.
  induction goal as [|goal IH]; intros blocks free s Hlen Hc; cbn [Alloc_loop].
  { rewrite drop_0, take_0, app_nil_r, <-(chain_first _ _ _ Hc). split; [|done]. by destruct s. }
  pose proof (chain_in_sector s Hlen _ _ Hc) as Hin.
  destruct free as [|x free]; cbn in Hc.
  - rewrite Hc. cbn. rewrite app_nil_r, <-Hc. by destruct s.
  - destruct Hc as (Hx & n & Hn & Hc). apply Forall_cons in Hin as [Hin _].
    destruct (Z.eqb_spec (free_list_front s) kInvalidBlock) as [E|_].
    { unfold in_sector, kInvalidBlock in *. lia. }
    rewrite Hx, GetBlockSuccessor_ok, Hn by done. cbn [mbind option_bind].
    destruct (IH (blocks ++ [x]) free (with_free_list_front n s)) as [-> H2]; [done..|].
    cbn [mbind option_bind]. split; [|done]. rewrite <-app_assoc. cbn. repeat f_equal. lia.
Qed.

Lemma Alloc_spec goal blocks free s :
  Z.of_nat (length (block_successors_ s)) = data_blocks_ ->
  chain (block_successors_ s) (free_list_front s) free ->
  exists s', AllocBlocksFromFreeList goal blocks s
    = Some (Z.of_nat (Z.to_nat goal `min` length free), blocks ++ take (Z.to_nat goal) free, s') /\
  same_but_blocks s s' /\ block_successors_ s' = block_successors_ s /\
  chain (block_successors_ s') (free_list_front s') (drop (Z.to_nat goal) free) /\
  used_blocks (stats s') = used_blocks (stats s) + Z.of_nat (Z.to_nat goal `min` length free).
Proof.
  intros Hlen Hc. unfold AllocBlocksFromFreeList.
  destruct (Alloc_loop_spec (Z.to_nat goal) blocks free s Hlen Hc) as [-> H2]. cbn [mbind option_bind].
  eexists. split; [done|]. split; [split; try done; cbn; lia|]. done.
Qed.

Lemma Return_loop_spec blocks : forall free s,
  Z.of_nat (length (block_successors_ s)) = data_blocks_ ->
  chain (block_successors_ s) (free_list_front s) free -> Forall in_sector blocks -> NoDup (blocks ++ free) ->
  exists succ' front', Return_loop blocks s = Some (with_free_list_front front' (with_block_successors succ' s)) /\
    length succ' = length (block_successors_ s) /\ chain succ' front' (rev blocks ++ free) /\
    forall x, x ∉ blocks -> zat succ' x = zat (block_successors_ s) x.
Proof.
  induction blocks as [|b blocks IH]; intros free s Hlen Hc Hin Hnd; cbn [Return_loop].
  { exists (block_successors_ s), (free_list_front s). split; [by destruct s|]. done. }
  apply Forall_cons in Hin as [Hb Hin]. cbn in Hnd. apply NoDup_cons in Hnd as [Hbn Hnd].
  assert (Hfront : free_list_front s = kInvalidBlock \/ in_sector (free_list_front s)).
  { pose proof (chain_in_sector s Hlen _ _ Hc) as Hf. rewrite (chain_first _ _ _ Hc).
    destruct free; [by left|right]. by apply Forall_cons in Hf as [? _]. }
  rewrite SetBlockSuccessor_ok by done. cbn [mbind option_bind].
  destruct (IH (b :: free) (with_free_list_front b
    (with_block_successors (zset (block_successors_ s) b (free_list_front s)) s)))
    as (succ' & front' & -> & L & C & X).
  - cbn. by rewrite length_zset.
  - cbn. split; [done|]. exists (free_list_front s). split; [apply zat_zset_eq; unfold in_sector in Hb; lia|].
    eapply chain_ext; [|exact Hc]. intros x Hx. apply zat_zset_ne. intros ->. apply Hbn, elem_of_app. by right.
  - done.
  - rewrite app_Permutation_comm. cbn. apply NoDup_cons. rewrite app_Permutation_comm. by split.
  - exists succ', front'. split; [done|]. cbn in L. rewrite length_zset in L. split; [done|]. split.
    + cbn [rev]. by rewrite <-app_assoc.
    + intros x Hx. apply not_elem_of_cons in Hx as [Hx1 Hx2]. rewrite X by done. cbn. by apply zat_zset_ne.
Qed.

Lemma Return_spec blocks free s :
  Z.of_nat (length (block_successors_ s)) = data_blocks_ ->
  chain (block_successors_ s) (free_list_front s) free -> Forall in_sector blocks -> NoDup (blocks ++ free) ->
  exists s', ReturnBlocksToFreeList blocks s = Some s' /\ same_but_blocks s s' /\
    length (block_successors_ s') = length (block_successors_ s) /\
    chain (block_successors_ s') (free_list_front s') (rev blocks ++ free) /\
    (forall x, x ∉ blocks -> zat (block_successors_ s') x = zat (block_successors_ s) x) /\
    used_blocks (stats s') = used_blocks (stats s) - Z.of_nat (length blocks).
Proof.
  intros Hlen Hc Hin Hnd. unfold ReturnBlocksToFreeList.
  destruct (Return_loop_spec blocks free s Hlen Hc Hin Hnd) as (succ' & front' & -> & L & C & X).
  cbn [mbind option_bind]. eexists. split; [done|]. split; [split; try done; cbn; lia|]. by repeat split.
Qed.

Lemma Link_spec blocks : forall s,
  Z.of_nat (length (block_successors_ s)) = data_blocks_ -> Forall in_sector blocks -> NoDup blocks ->
  exists succ', LinkBlockSuccessors blocks s = Some (with_block_successors succ' s) /\
    length succ' = length (block_successors_ s) /\ chain succ' (first kInvalidBlock blocks) blocks /\
    forall x, x ∉ blocks -> zat succ' x = zat (block_successors_ s) x.
Proof.
  induction blocks as [|b blocks IH]; intros s Hlen Hin Hnd; cbn [LinkBlockSuccessors].
  { exists (block_successors_ s). split; [by destruct s|]. done. }
  apply Forall_cons in Hin as [Hb Hin]. apply NoDup_cons in Hnd as [Hbn Hnd].
  assert (Hb' : 0 <= b < Z.of_nat (length (block_successors_ s))) by (unfold in_sector in Hb; lia).
  destruct blocks as [|c blocks].
  - rewrite SetBlockSuccessor_ok; [|done|by left]. eexists. split; [done|]. rewrite length_zset. split; [done|].
    split; [split; [done|]; exists kInvalidBlock; split; [by apply zat_zset_eq|done]|].
    intros x Hx%not_elem_of_cons. apply zat_zset_ne. naive_solver.
  - pose proof Hin as [Hc _]%Forall_cons. rewrite SetBlockSuccessor_ok; [|done|by right]. cbn [mbind option_bind].
    destruct (IH (with_block_successors (zset (block_successors_ s) b c) s)) as (succ' & E & L & C & X);
      [cbn; by rewrite length_zset|done|done|].
    rewrite E. eexists. split; [done|]. cbn in L. rewrite length_zset in L. split; [done|]. split.
    + split; [done|]. exists c. split; [|done]. rewrite X by done. by apply zat_zset_eq.
    + intros x [Hx1 Hx2]%not_elem_of_cons. rewrite X by done. cbn. by apply zat_zset_ne.
Qed.

Lemma BlockList_loop_spec l : forall b out s,
  Z.of_nat (length (block_successors_ s)) = data_blocks_ -> chain (block_successors_ s) b l ->
  BlockList_loop (length l) b out s = Some (kInvalidBlock, out ++ l).
Proof.
  induction l as [|x l IH]; intros b out s Hlen Hc.
  { cbn in *. by rewrite Hc, app_nil_r. }
  pose proof (chain_in_sector s Hlen _ _ Hc) as [Hx _]%Forall_cons. destruct Hc as (-> & n & Hn & Hc).
  cbn [length BlockList_loop]. rewrite GetBlockSuccessor_ok, Hn by done. cbn [mbind option_bind].
  rewrite (IH _ _ _ Hlen Hc). by rewrite <-app_assoc.
Qed.

Lemma BlockListForEntry_spec en out l s :
  Z.of_nat (length (block_successors_ s)) = data_blocks_ -> chain (block_successors_ s) (first_block en) l ->
  Z.of_nat (length l) = DataBlocksForSize (byte_size en) ->
  BlockListForEntry en out s = Some (Z.of_nat (length l), out ++ l).
Proof.
  intros Hlen Hc Hl. unfold BlockListForEntry. rewrite <-Hl, Nat2Z.id, (BlockList_loop_spec _ _ _ _ Hlen Hc). done.
Qed.

End sector.
