(* ===== verification/SharedMemCache.v ===== *)
(** * The shared-memory cache

    src/pagespeed/kernel/sharedmem/shared_mem_cache.h and .cc: a cache that the
    threads of many processes share. A sector has one lock; the values are
    copied in and out without it, protected by the [creating] bit and the reader
    count of their entry.

    An operation is a sequence of atomic steps: a section under the lock, or one
    access to the shared memory without it. [Pending] is where a thread is
    between two steps, [step] runs one of them, and every interleaving of the
    threads is a list of [Event]s. The clock, the moment a thread
    dies and what it leaves behind are part of the events. *)

From S2P Require Import Prelude SharedMemCacheData.

Section cache.
Variable kBlockSize : Z.
Variables num_sectors_ entries_per_sector_ blocks_per_sector_ : Z.
(** [hasher_->RawHash]: src/ has the interface, the hasher is a parameter. *)
Variable RawHash : bytes -> bytes.

#[local] Abbreviation GetBlockSuccessor := (GetBlockSuccessor blocks_per_sector_).
#[local] Abbreviation AllocBlocksFromFreeList := (AllocBlocksFromFreeList blocks_per_sector_).
#[local] Abbreviation ReturnBlocksToFreeList := (ReturnBlocksToFreeList blocks_per_sector_).
#[local] Abbreviation LinkBlockSuccessors := (LinkBlockSuccessors blocks_per_sector_).
#[local] Abbreviation BlockListForEntry := (BlockListForEntry kBlockSize blocks_per_sector_).
#[local] Abbreviation DataBlocksForSize := (DataBlocksForSize kBlockSize).
#[local] Abbreviation BytesInPortion := (BytesInPortion kBlockSize).

(** ** Keys and positions *)

Definition kAssociativity : nat := 4.
(** [Timer::kSecondUs]. *)
Definition kMaxWaitForReadersUs : Z := 1000 * 1000.

Definition IsAllNil (raw_hash : bytes) : bool := forallb (fun c => c =c chr 0) raw_hash.

Definition ToRawHash (key : bytes) : option bytes :=
  let raw_hash := RawHash key in
  if (length raw_hash <? kHashSize)%nat then None
  else
    let raw_hash := take kHashSize raw_hash in
    Some (if IsAllNil raw_hash then <[0%nat := " "%char]> raw_hash else raw_hash).

(** The 32-bit word number [i] of the hash, on a little-endian machine. *)
Definition word (raw_hash : bytes) (i : nat) : Z :=
  let byte j := code (nth (4 * i + j) raw_hash (chr 0)) in
  byte 0%nat + 256 * (byte 1%nat + 256 * (byte 2%nat + 256 * byte 3%nat)).

Record Position := mkPosition { pos_sector : Z; pos_keys : list Z }.

Definition ExtractPosition (raw_hash : bytes) : option Position :=
  if negb (length raw_hash =? kHashSize)%nat then None
  else
    let raw_sector := code (nth 12%nat raw_hash (chr 0)) in
    let keys := word raw_hash in
    let key3 := Z.lor (Z.shiftr (keys 0%nat) 16) (u32 (Z.shiftl (keys 1%nat) 16)) in
    Some (mkPosition (raw_sector mod num_sectors_)
      (map (fun k => k mod entries_per_sector_) [keys 0%nat; keys 1%nat; keys 2%nat; key3])).

Definition MaxValueSize : Z := u64 (blocks_per_sector_ * kBlockSize) / 8.

(** [ComputeDimensions]: the divisor is a [size_t], so the division is unsigned;
    the results are [int]s. *)
Definition kEntrySize : Z := 48.
Definition i32 (z : Z) : Z := (z + 2 ^ 31) mod 2 ^ 32 - 2 ^ 31.
Definition ComputeDimensions (size_kb block_entry_ratio sectors : Z) : Z * Z * Z :=
  let size := Z.quot (size_kb * 1024) sectors in
  let entries := i32 (u64 size / u64 ((kBlockSize + 4) * block_entry_ratio + kEntrySize)) in
  let blocks := i32 (entries * block_entry_ratio) in
  (entries, blocks, u64 (blocks * kBlockSize) / 8).

(** ** Entries *)

Definition Writeable (entry : CacheEntry) : bool := (open_count entry =? 0) && negb (creating entry).

Definition KeyMatch (entry : CacheEntry) (raw_hash : bytes) : option bool :=
  if (length raw_hash =? kHashSize)%nat then Some (bool_decide (hash_bytes entry = raw_hash)) else None.

Definition free_entry (e : CacheEntry) : CacheEntry :=
  with_first_block kInvalidBlock (with_byte_size 0 (with_last_use_timestamp_ms 0
    (with_hash_bytes (replicate kHashSize (chr 0)) e))).

Definition MarkEntryFree (entry_num : Z) (s : Sector) : option Sector :=
  s ← UnlinkEntryFromLRU entry_num s;
  entry ← EntryAt entry_num s;
  if negb (Writeable entry) then None else modify_entry entry_num free_entry s.

Definition TouchEntry (last_use_timestamp_ms entry_num : Z) (s : Sector) : option Sector :=
  s ← UnlinkEntryFromLRU entry_num s;
  s ← InsertEntryIntoLRU entry_num s;
  modify_entry entry_num (with_last_use_timestamp_ms last_use_timestamp_ms) s.

(** The loop of [TryAllocateBlocks], with fuel; see [TryAllocate_fuel]. *)
Fixpoint TryAllocate_loop (fuel : nat) (entry_num got goal : Z) (blocks : list Z) (s : Sector)
  : option (Z * list Z * Sector) :=
  if negb (entry_num =? kInvalidEntry) && (got <? goal) then
    match fuel with
    | O => None
    | S fuel =>
        entry ← EntryAt entry_num s;
        if Writeable entry then
          '(n, blocks) ← BlockListForEntry entry blocks s;
          s ← MarkEntryFree entry_num s;
          TryAllocate_loop fuel (OldestEntryNum s) (got + n) goal blocks s
        else TryAllocate_loop fuel (lru_prev entry) got goal blocks s
    end
  else Some (got, blocks, s).

Definition TryAllocate_fuel : nat := Z.to_nat (entries_per_sector_ * entries_per_sector_ + entries_per_sector_ + 1).

Definition TryAllocateBlocks (goal : Z) (blocks : list Z) (s : Sector) : option (bool * list Z * Sector) :=
  '(got, blocks, s) ← AllocBlocksFromFreeList goal blocks s;
  '(got, blocks, s) ← TryAllocate_loop TryAllocate_fuel (OldestEntryNum s) got goal blocks s;
  Some (goal <=? got, blocks, s).

(** ** The steps of the operations *)

(** What a writer does once the readers have left. *)
Inductive AfterWait :=
| ThenUpdate (last_use_timestamp_ms : Z) (value : bytes)
| ThenReplace (raw_hash : bytes) (last_use_timestamp_ms : Z) (value : bytes)
| ThenDelete.

Inductive Pending :=
(** [EnsureReadyForWriting] sleeps *)
| Wait (entry_num give_up_us : Z) (after : AfterWait)
(** [PutIntoEntry] copies, next the portion [b] *)
| CopyIn (entry_num : Z) (blocks : list Z) (want_blocks b : Z) (value : bytes)
(** [GetFromEntry] copies; [None] before the string is extended *)
| CopyOut (entry_num : Z) (blocks : list Z) (b pos : Z) (str : option bytes).

Inductive Progress :=
| Later (p : Pending)
| Done
| NotFound
| Available (value : bytes).

(** The blocks that are not wanted, as they are popped. *)
Definition PopExtras (want_blocks : Z) (blocks : list Z) : list Z * list Z :=
  (take (Z.to_nat want_blocks) blocks, rev (drop (Z.to_nat want_blocks) blocks)).

(** [PutIntoEntry] until the lock is released. *)
Definition PutIntoEntry (entry_num last_use_timestamp_ms : Z) (value : bytes) (s : Sector)
  : option (Sector * Progress) :=
  entry ← EntryAt entry_num s;
  if negb (creating entry) then None
  else if disabled s then s ← modify_entry entry_num (set_creating false) s; Some (s, Done)
  else if negb (open_count entry =? 0) then None
  else
    let want_blocks := DataBlocksForSize (Z.of_nat (length value)) in
    '(_, blocks) ← BlockListForEntry entry [] s;
    '(ok, blocks, s) ← (if Z.of_nat (length blocks) <? want_blocks
                        then TryAllocateBlocks (want_blocks - Z.of_nat (length blocks)) blocks s
                        else Some (true, blocks, s));
    if negb ok then
      s ← ReturnBlocksToFreeList blocks s;
      s ← modify_entry entry_num (set_creating false) s;
      s ← MarkEntryFree entry_num s;
      Some (s, Done)
    else
      let '(blocks', extras) := PopExtras want_blocks blocks in
      s ← (if want_blocks <? Z.of_nat (length blocks) then ReturnBlocksToFreeList extras s else Some s);
      s ← modify_entry entry_num (with_byte_size (Z.of_nat (length value))) s;
      s ← TouchEntry last_use_timestamp_ms entry_num s;
      s ← LinkBlockSuccessors blocks' s;
      s ← modify_entry entry_num (with_first_block (first kInvalidBlock blocks')) s;
      Some (s, Later (CopyIn entry_num blocks' want_blocks 0 value)).

(** [DeleteEntry] after the readers have left. *)
Definition DeleteEntry_locked (entry_num : Z) (s : Sector) : option (Sector * Progress) :=
  entry ← EntryAt entry_num s;
  if disabled s then s ← modify_entry entry_num (set_creating false) s; Some (s, Done)
  else
    '(_, blocks) ← BlockListForEntry entry [] s;
    s ← ReturnBlocksToFreeList blocks s;
    s ← modify_entry entry_num (set_creating false) s;
    s ← MarkEntryFree entry_num s;
    Some (s, Done).

(** What follows [EnsureReadyForWriting]. *)
Definition resume (entry_num : Z) (after : AfterWait) (s : Sector) : option (Sector * Progress) :=
  match after with
  | ThenUpdate last_use_timestamp_ms value => PutIntoEntry entry_num last_use_timestamp_ms value s
  | ThenReplace raw_hash last_use_timestamp_ms value =>
      if disabled s then s ← modify_entry entry_num (set_creating false) s; Some (s, Done)
      else s ← modify_entry entry_num (with_hash_bytes raw_hash) s;
           PutIntoEntry entry_num last_use_timestamp_ms value s
  | ThenDelete => DeleteEntry_locked entry_num s
  end.

(** The test of the loop of [EnsureReadyForWriting]; [now_us] is the clock. *)
Definition EnsureReady_test (entry_num give_up_us now_us : Z) (after : AfterWait) (s : Sector)
  : option (Sector * Progress) :=
  entry ← EntryAt entry_num s;
  if (0 <? open_count entry) && negb (disabled s) then
    if give_up_us <=? now_us then Some (s, Done)
    else Some (with_sector_stats put_spins_up s, Later (Wait entry_num give_up_us after))
  else resume entry_num after s.

Definition EnsureReadyForWriting (entry_num start_us now_us : Z) (after : AfterWait) (s : Sector)
  : option (Sector * Progress) :=
  s ← modify_entry entry_num (set_creating true) s;
  EnsureReady_test entry_num (start_us + kMaxWaitForReadersUs) now_us after s.

(** The loops over the candidates: the first entry with the key; the writeable entry used longest ago. *)
Fixpoint find_match (keys : list Z) (raw_hash : bytes) (s : Sector) : option (option Z) :=
  match keys with
  | [] => Some None
  | cand_key :: keys' =>
      cand ← EntryAt cand_key s;
      m ← KeyMatch cand raw_hash;
      if (m : bool) then Some (Some cand_key) else find_match keys' raw_hash s
  end.

Fixpoint find_best (keys : list Z) (best : option (Z * CacheEntry)) (s : Sector)
  : option (option (Z * CacheEntry)) :=
  match keys with
  | [] => Some best
  | cand_key :: keys' =>
      cand ← EntryAt cand_key s;
      let better := match best with
                    | None => true
                    | Some (_, b) => last_use_timestamp_ms cand <? last_use_timestamp_ms b
                    end in
      find_best keys' (if Writeable cand && better then Some (cand_key, cand) else best) s
  end.

(** [PutRawHash] in its sector. *)
Definition PutRawHash (raw_hash : bytes) (last_use_timestamp_ms : Z) (value : bytes) (start_us now_us : Z)
    (s : Sector) : option (Sector * Progress) :=
  if MaxValueSize <? Z.of_nat (length value) then Some (s, Done)
  else
    pos ← ExtractPosition raw_hash;
    if disabled s then Some (s, Done)
    else
      let s := with_sector_stats put_up s in
      found ← find_match (pos_keys pos) raw_hash s;
      match found with
      | Some cand_key =>
          cand ← EntryAt cand_key s;
          if negb (creating cand) then
            EnsureReadyForWriting cand_key start_us now_us (ThenUpdate last_use_timestamp_ms value)
              (with_sector_stats put_update_up s)
          else Some (with_sector_stats put_concurrent_create_up s, Done)
      | None =>
          best ← find_best (pos_keys pos) None s;
          match best with
          | None => Some (with_sector_stats put_concurrent_full_set_up s, Done)
          | Some (best_key, best) =>
              let s := if negb (byte_size best =? 0) || negb (IsAllNil (hash_bytes best))
                       then with_sector_stats put_replace_up s else s in
              EnsureReadyForWriting best_key start_us now_us (ThenReplace raw_hash last_use_timestamp_ms value) s
          end
      end.

Definition GetFromEntry (entry_num now_ms : Z) (s : Sector) : option (Sector * Progress) :=
  entry ← EntryAt entry_num s;
  if creating entry then Some (s, NotFound)
  else
    s ← modify_entry entry_num increment_open_count s;
    s ← TouchEntry now_ms entry_num s;
    entry ← EntryAt entry_num s;
    '(_, blocks) ← BlockListForEntry entry [] s;
    Some (s, Later (CopyOut entry_num blocks 0 0 None)).

(** [Get] in its sector. *)
Definition Get (raw_hash : bytes) (now_ms : Z) (s : Sector) : option (Sector * Progress) :=
  pos ← ExtractPosition raw_hash;
  if disabled s then Some (s, NotFound)
  else
    let s := with_sector_stats get_up s in
    found ← find_match (pos_keys pos) raw_hash s;
    match found with
    | Some cand_key => GetFromEntry cand_key now_ms s
    | None => Some (s, NotFound)
    end.

(** [Delete] in its sector, with [DeleteEntry]. *)
Definition Delete (raw_hash : bytes) (start_us now_us : Z) (s : Sector) : option (Sector * Progress) :=
  pos ← ExtractPosition raw_hash;
  if disabled s then Some (s, Done)
  else
    found ← find_match (pos_keys pos) raw_hash s;
    match found with
    | Some cand_key =>
        entry ← EntryAt cand_key s;
        if creating entry then Some (s, Done)
        else EnsureReadyForWriting cand_key start_us now_us ThenDelete s
    | None => Some (s, Done)
    end.

(** [SharedString::Extend] and [WriteAt] on a string of its own. *)
Definition Extend (new_size : Z) (str : bytes) : bytes :=
  if Z.of_nat (length str) <? new_size
  then str ++ replicate (Z.to_nat new_size - length str) (chr 0) else str.
Definition WriteAt (dest_offset : Z) (source : bytes) (str : bytes) : option bytes :=
  let n := Z.of_nat (length source) in
  if (0 <=? dest_offset) && (dest_offset <? Z.of_nat (length str)) && (dest_offset + n <=? Z.of_nat (length str))
  then Some (take (Z.to_nat dest_offset) str ++ source ++ drop (Z.to_nat (dest_offset + n)) str) else None.

(** [memcpy] of the first bytes of a block from [data], and to it. *)
Definition write_block (block : Z) (source : bytes) (s : Sector) : option Sector :=
  old ← zat (block_bytes s) block;
  if (length source <=? length old)%nat
  then Some (with_block_bytes (zset (block_bytes s) block (source ++ drop (length source) old)) s) else None.
Definition read_block (block n : Z) (s : Sector) : option bytes :=
  old ← zat (block_bytes s) block;
  if (0 <=? n) && (n <=? Z.of_nat (length old)) then Some (take (Z.to_nat n) old) else None.

(** One iteration of the loop of [PutIntoEntry], and the section that ends it. *)
Definition CopyIn_step (entry_num : Z) (blocks : list Z) (want_blocks b : Z) (value : bytes) (s : Sector)
  : option (Sector * Progress) :=
  if b <? want_blocks then
    entry ← EntryAt entry_num s;
    let n := BytesInPortion (byte_size entry) b want_blocks in
    let offset := b * kBlockSize in
    if Z.of_nat (length value) <? offset + n then None
    else
      block ← zat blocks b;
      s ← write_block block (take (Z.to_nat n) (drop (Z.to_nat offset) value)) s;
      Some (s, Later (CopyIn entry_num blocks want_blocks (b + 1) value))
  else s ← modify_entry entry_num (set_creating false) s; Some (s, Done).

(** The same for [GetFromEntry], with the statistics of [Get]. *)
Definition CopyOut_step (entry_num : Z) (blocks : list Z) (b pos : Z) (str : option bytes) (s : Sector)
  : option (Sector * Progress) :=
  match str with
  | None =>
      entry ← EntryAt entry_num s;
      Some (s, Later (CopyOut entry_num blocks b pos (Some (Extend (byte_size entry) []))))
  | Some str =>
      let total_blocks := Z.of_nat (length blocks) in
      if b <? total_blocks then
        entry ← EntryAt entry_num s;
        let n := BytesInPortion (byte_size entry) b total_blocks in
        block ← zat blocks b;
        source ← read_block block n s;
        str ← WriteAt pos source str;
        Some (s, Later (CopyOut entry_num blocks (b + 1) (pos + n) (Some str)))
      else
        s ← modify_entry entry_num decrement_open_count s;
        Some (with_sector_stats get_hit_up s, Available str)
  end.

Definition next_step (p : Pending) (now_us : Z) (s : Sector) : option (Sector * Progress) :=
  match p with
  | Wait entry_num give_up_us after => EnsureReady_test entry_num give_up_us now_us after s
  | CopyIn entry_num blocks want_blocks b value => CopyIn_step entry_num blocks want_blocks b value s
  | CopyOut entry_num blocks b pos str => CopyOut_step entry_num blocks b pos str s
  end.

(** ** Threads *)

Inductive Event :=
| StartPut (thread : Z) (raw_hash : bytes) (now_ms : Z) (value : bytes) (start_us now_us : Z)
| StartGet (thread : Z) (raw_hash : bytes) (now_ms : Z)
| StartDelete (thread : Z) (raw_hash : bytes) (start_us now_us : Z)
(** the next step of a thread *)
| Next (thread : Z) (now_us : Z)
(** a thread terminates without the lock *)
| Die (thread : Z)
(** a thread terminated with the lock and left [torn]; the lock is recovered *)
| OwnerDied (thread : Z) (torn : Sector).

(** A sector and the threads at work in it. [last_put] is history that the
    theorems speak of, and no step reads: the value that the last completed
    [Put] of a key stored, if no [Delete] removed it. *)
Record Machine := mkMachine { sector : Sector; pending : gmap Z Pending; last_put : gmap bytes bytes }.

Definition entry_hash (e : Z) (s : Sector) : bytes := default [] (hash_bytes <$> EntryAt e s).

(** The history: a [Put] counts when its copy is complete, a [Delete] when the
    entry is freed or there is none. *)
Definition record_next (p : Pending) (r : Progress) (s : Sector) (h : gmap bytes bytes) : gmap bytes bytes :=
  match p, r with
  | CopyIn e _ _ _ value, Done => <[entry_hash e s := value]> h
  | Wait e _ ThenDelete, Done => delete (entry_hash e s) h
  | _, _ => h
  end.

Definition settle (thread : Z) (r : Progress) (pend : gmap Z Pending) : gmap Z Pending :=
  match r with Later p => <[thread := p]> pend | _ => delete thread pend end.

Definition run_thread (thread : Z) (op : Sector -> option (Sector * Progress)) (hist : Progress -> gmap bytes bytes)
    (m : Machine) : option (Machine * Progress) :=
  '(s, r) ← op (sector m);
  Some (mkMachine s (settle thread r (pending m)) (hist r), r).

Definition step (ev : Event) (m : Machine) : option (Machine * Progress) :=
  match ev with
  | StartPut t raw_hash now_ms value start_us now_us =>
      run_thread t (PutRawHash raw_hash now_ms value start_us now_us) (fun _ => last_put m) m
  | StartGet t raw_hash now_ms => run_thread t (Get raw_hash now_ms) (fun _ => last_put m) m
  | StartDelete t raw_hash start_us now_us =>
      run_thread t (Delete raw_hash start_us now_us)
        (fun r => match r with Done => delete raw_hash (last_put m) | _ => last_put m end) m
  | Next t now_us =>
      p ← pending m !! t;
      run_thread t (next_step p now_us) (fun r => record_next p r (sector m) (last_put m)) m
  | Die t => Some (mkMachine (sector m) (delete t (pending m)) (last_put m), Done)
  | OwnerDied t torn => Some (mkMachine (OnOwnerDied torn) (delete t (pending m)) (last_put m), Done)
  end.

(** ** [SanityCheck] *)

Definition count_block (b : Z) (occ : gmap Z Z) : gmap Z Z := <[b := default 0 (occ !! b) + 1]> occ.

Fixpoint entry_blocks (entries : list CacheEntry) (occ : gmap Z Z) (s : Sector) : option (gmap Z Z) :=
  match entries with
  | [] => Some occ
  | entry :: entries' =>
      '(_, blocks) ← BlockListForEntry entry [] s; entry_blocks entries' (foldr count_block occ (rev blocks)) s
  end.

Definition SanityCheck (s : Sector) : option Sector :=
  if disabled s then Some s
  else
    occ ← entry_blocks (directory s) ∅ s;
    '(_, freelist_blocks, s) ← AllocBlocksFromFreeList blocks_per_sector_ [] s;
    let occ := foldr count_block occ (rev freelist_blocks) in
    s ← ReturnBlocksToFreeList freelist_blocks s;
    if (Z.of_nat (size occ) =? blocks_per_sector_) && forallb (fun kv : Z * Z => kv.2 =? 1) (map_to_list occ)
    then Some s else None.

(** ** Positions and dimensions *)

Lemma ExtractPosition_ok h : 0 < num_sectors_ -> 0 < entries_per_sector_ -> length h = kHashSize -> exists pos,
  ExtractPosition h = Some pos /\ 0 <= pos_sector pos < num_sectors_ /\
  length (pos_keys pos) = kAssociativity /\ Forall (fun e => 0 <= e < entries_per_sector_) (pos_keys pos).
Proof.
  intros HS HE H. unfold ExtractPosition. rewrite H. cbn [Nat.eqb kHashSize negb]. eexists. split; [done|].
  split; [apply Z.mod_pos_bound; lia|]. split; [done|]. cbn [pos_keys map].
  repeat (apply Forall_cons; split; [by apply Z.mod_pos_bound|]). by apply Forall_nil.
Qed.

(** Every key has a raw hash that is not all zero, with a sector of the cache and four
    entries of that sector, whatever the hasher gives, if it is at least 16 bytes long. *)
Lemma every_key_has_a_position key : 0 < num_sectors_ -> 0 < entries_per_sector_ ->
  (kHashSize <= length (RawHash key))%nat -> exists h pos,
  ToRawHash key = Some h /\ length h = kHashSize /\ IsAllNil h = false /\
  ExtractPosition h = Some pos /\ 0 <= pos_sector pos < num_sectors_ /\
  length (pos_keys pos) = kAssociativity /\ Forall (fun e => 0 <= e < entries_per_sector_) (pos_keys pos).
Proof.
  intros HS HE Hl. unfold ToRawHash. rewrite (proj2 (Nat.ltb_ge _ _)) by done.
  set (raw := take kHashSize (RawHash key)). assert (Hr : length raw = kHashSize) by (unfold raw; rewrite length_take; lia).
  set (h := if IsAllNil raw then _ else raw).
  assert (Hh : length h = kHashSize) by (unfold h; case_match; by rewrite ?length_insert).
  assert (Hn : IsAllNil h = false).
  { unfold h. destruct (IsAllNil raw) eqn:E0; [|done]. unfold IsAllNil. by destruct raw as [|c raw]. }
  destruct (ExtractPosition_ok h HS HE Hh) as (pos & Hpos & Hrest). by exists h, pos.
Qed.

(** The dimensions that [ComputeDimensions] chooses fit in the memory given, as long as
    they fit in an [int], and the size cap it reports is the largest value that such a cache accepts. *)
Lemma ComputeDimensions_fits size_kb ratio sectors entries blocks size_cap :
  0 < kBlockSize <= 4096 -> 0 <= size_kb * 1024 < 2 ^ 63 -> 0 < sectors -> 0 <= ratio < 2 ^ 31 ->
  size_kb * 1024 / sectors < 2 ^ 31 ->
  ComputeDimensions size_kb ratio sectors = (entries, blocks, size_cap) ->
  sectors * (entries * kEntrySize + blocks * (kBlockSize + 4)) <= size_kb * 1024 /\
  blocks = entries * ratio /\ 0 <= entries /\ 0 <= blocks /\ size_cap = u64 (blocks * kBlockSize) / 8.
Proof.
  intros Hk Hsz Hsec Hr Hfit. unfold ComputeDimensions. cbv zeta.
  rewrite Z.quot_div_nonneg by lia. set (per := size_kb * 1024 / sectors) in *. set (d := (kBlockSize + 4) * ratio + kEntrySize).
  assert (H0 : 0 <= per) by (apply Z.div_pos; lia). assert (Hd : 48 <= d < 2 ^ 64) by (unfold d, kEntrySize; nia).
  assert (Hper : sectors * per <= size_kb * 1024) by (apply Z.mul_div_le; lia).
  assert (u64 per = per) as -> by (unfold u64; rewrite Z.mod_small; lia).
  assert (u64 d = d) as -> by (unfold u64; rewrite Z.mod_small; lia). set (q := per / d).
  assert (Hq : 0 <= q /\ d * q <= per) by (split; [apply Z.div_pos; lia|apply Z.mul_div_le; lia]).
  assert (Hi : forall z, 0 <= z < 2 ^ 31 -> i32 z = z) by (intros z Hz; unfold i32; rewrite Z.mod_small; lia).
  assert (Hqr : 0 <= q * ratio /\ q * ratio <= d * q) by (unfold d, kEntrySize; nia).
  rewrite (Hi q) by nia. rewrite (Hi (q * ratio)) by lia. intros [= <- <- <-].
  split; [|split; [done|split; [lia|split; [lia|done]]]].
  assert (Hdq : q * kEntrySize + q * ratio * (kBlockSize + 4) = d * q) by (unfold d; ring). rewrite Hdq. nia.
Qed.

End cache.

