(* ===== verification/SharedMemSector.v ===== *)
(** * What the locked sections of the shared-memory cache do to a sector

    The invariant [SecInv] of a sector: the LRU list, the files and the freelist
    account for every entry and every block. Each operation of SharedMemCache.v
    is described by what it does to the entries ([view]), the files and the LRU
    list; no operation fails on a sector with the invariant. *)

From S2P Require Import Prelude SharedMemCacheData SharedMemCache.

(** ** Flags *)

Lemma land_1 z : Z.land z 1 = z mod 2.
Proof. change 1 with (Z.ones 1). by rewrite Z.land_ones. Qed.

Definition flags_of (o : Z) (c : bool) : Z := 2 * o + Z.b2z c.

Lemma creating_flags en o c : flags en = flags_of o c -> creating en = c.
Proof.
  unfold creating, flags_of. intros ->. rewrite land_1, Z.add_comm, Z.mul_comm, Z_mod_plus_full. by destruct c.
Qed.

Lemma open_count_flags en o c : flags en = flags_of o c -> open_count en = o.
Proof.
  unfold open_count, flags_of. intros ->. rewrite Z.shiftr_div_pow2 by done. change (2 ^ 1) with 2.
  symmetry. apply Z.div_unique with (Z.b2z c); [left|]; destruct c; cbn; lia.
Qed.

Lemma lor_1 o c : Z.lor (flags_of o c) 1 = flags_of o true.
Proof.
  unfold flags_of. apply Z.bits_inj'. intros n Hn. rewrite Z.lor_spec.
  destruct (Z.eq_dec n 0) as [->|H].
  - change (Z.testbit 1 0) with true. rewrite orb_true_r. by rewrite Z.testbit_odd_0.
  - assert (exists m, n = Z.succ m /\ 0 <= m) as (m & -> & Hm) by (exists (n - 1); lia).
    rewrite !Z.testbit_succ_r by lia. rewrite (Z.bits_above_log2 1) by (cbn; lia). apply orb_false_r.
Qed.

Lemma land_not_1 o c : 0 <= o < 2 ^ 31 -> Z.land (flags_of o c) (u32 (Z.lnot 1)) = flags_of o false.
Proof.
  intros Ho. unfold flags_of. change (u32 (Z.lnot 1)) with (2 * Z.ones 31 + Z.b2z false).
  apply Z.bits_inj'. intros n Hn. rewrite Z.land_spec. destruct (Z.eq_dec n 0) as [->|H].
  - rewrite !(Z.add_comm (2 * _)), !Z.add_b2z_double_bit0. by rewrite andb_false_r.
  - assert (exists m, n = Z.succ m /\ 0 <= m) as (m & -> & Hm) by (exists (n - 1); lia). rewrite !Z.testbit_succ_r by lia.
    rewrite <-Z.land_spec, Z.land_ones, Z.mod_small by lia. done.
Qed.

Lemma flags_bounds o c : 0 <= o < 2 ^ 31 -> 0 <= flags_of o c < 2 ^ 32.
Proof. unfold flags_of. destruct c; cbn; lia. Qed.

(** The updates of the flags, in terms of the reader count and the bit. *)
Lemma set_creating_flags en o c v : 0 <= o < 2 ^ 31 -> flags en = flags_of o c ->
  flags (set_creating v en) = flags_of o v.
Proof. unfold set_creating. intros Ho ->. cbn. destruct v; [apply lor_1|by apply land_not_1]. Qed.

Lemma increment_flags en o c : 0 <= o < 2 ^ 31 - 1 -> flags en = flags_of o c ->
  flags (increment_open_count en) = flags_of (o + 1) c.
Proof.
  unfold increment_open_count. intros Ho ->. cbn [flags with_flags].
  unfold u32. rewrite Z.mod_small; unfold flags_of; [lia|]. destruct c; cbn; lia.
Qed.

Lemma decrement_flags en o c : 1 <= o < 2 ^ 31 -> flags en = flags_of o c ->
  flags (decrement_open_count en) = flags_of (o - 1) c.
Proof.
  unfold decrement_open_count. intros Ho ->. cbn [flags with_flags].
  unfold u32. rewrite Z.mod_small; unfold flags_of; [lia|]. destruct c; cbn; lia.
Qed.

Lemma Writeable_flags en o c : 0 <= o -> flags en = flags_of o c -> Writeable en = bool_decide (flags en = 0).
Proof.
  intros Ho H. unfold Writeable. rewrite (creating_flags _ _ _ H), (open_count_flags _ _ _ H), H. unfold flags_of.
  case_bool_decide; destruct c, (Z.eqb_spec o 0); cbn in *; done || lia.
Qed.

Section sector.
Variable kBlockSize : Z.
Variables entries_per_sector_ blocks_per_sector_ : Z.
Hypothesis Hk : 0 < kBlockSize <= 4096.
Hypothesis HE : 0 < entries_per_sector_.
Hypothesis HN : 0 < blocks_per_sector_.

#[local] Abbreviation E := entries_per_sector_.
#[local] Abbreviation N := blocks_per_sector_.
#[local] Abbreviation DataBlocks := (DataBlocksForSize kBlockSize).

(** ** Sizes *)

Lemma DataBlocks_ceil size : 0 <= size < 2 ^ 31 ->
  0 <= DataBlocks size /\ size <= DataBlocks size * kBlockSize /\ (DataBlocks size - 1) * kBlockSize < size + (1 - Z.sgn size) .
Proof.
  intros H. unfold DataBlocksForSize, NeededPieces, u64. rewrite (Z.mod_small size), Z.mod_small by lia.
  pose proof (Z.div_mod (size + kBlockSize - 1) kBlockSize ltac:(lia)).
  pose proof (Z.mod_pos_bound (size + kBlockSize - 1) kBlockSize ltac:(lia)).
  split; [apply Z.div_pos; lia|]. split; [nia|]. destruct (Z.eq_dec size 0) as [->|]; [|rewrite Z.sgn_pos by lia; nia].
  rewrite Z.div_small by lia. cbn. lia.
Qed.

Lemma DataBlocks_0 : DataBlocks 0 = 0.
Proof.
  unfold DataBlocksForSize, NeededPieces, u64. rewrite (Z.mod_small 0), Z.mod_small by lia.
  apply Z.div_small. lia.
Qed.

(** ** The invariant *)

Record Core := mkCore { c_hash : bytes; c_size : Z; c_flags : Z }.
Definition core (en : CacheEntry) : Core := mkCore (hash_bytes en) (byte_size en) (flags en).
Definition view (s : Sector) (e : Z) : option Core := core <$> zat (directory s) e.

Definition nil_hash : bytes := replicate kHashSize (chr 0).
Definition free_core : Core := mkCore nil_hash 0 0.

Record blocks_ok (holes : list Z) (free : list Z) (files : list (list Z)) (s : Sector) : Prop := {
  bk_succ : Z.of_nat (length (block_successors_ s)) = N;
  bk_dir : length files = length (directory s);
  bk_free : chain (block_successors_ s) (free_list_front s) free;
  bk_files : forall e en f, e ∉ holes -> zat (directory s) e = Some en -> zat files e = Some f ->
    chain (block_successors_ s) (first_block en) f /\ Z.of_nat (length f) = DataBlocks (byte_size en);
  bk_part : free ++ concat files ≡ₚ seqZ 0 N;
  bk_used : used_blocks (stats s) = N - Z.of_nat (length free)
}.

(** The blocks of an entry of [holes] are those of [files], but it is not yet linked to them. *)
Record SecInv (holes : list Z) (lru free : list Z) (files : list (list Z)) (s : Sector) : Prop := {
  si_lru : lru_ok lru s;
  si_blocks : blocks_ok holes free files s;
  si_dir : Z.of_nat (length (directory s)) = E;
  si_unused : forall e c, view s e = Some c -> e ∉ lru -> e ∉ holes -> c_size c = 0;
  si_flags : forall e c, view s e = Some c -> exists o b, 0 <= o < 2 ^ 31 /\ c_flags c = flags_of o b
}.

(** What the sections leave alone. *)
Record same_frame (s s' : Sector) : Prop := {
  sf_disabled : disabled s' = disabled s;
  sf_bytes : block_bytes s' = block_bytes s
}.

#[global] Instance same_frame_preorder : PreOrder same_frame.
Proof using Type. split; [done|]. intros ??? [] []. split; congruence. Qed.

Lemma view_in s e c : view s e = Some c -> exists en, zat (directory s) e = Some en /\ c = core en.
Proof. unfold view. intros (en & H & ->)%fmap_Some. eauto. Qed.

Lemma view_get holes lru free files s e : SecInv holes lru free files s -> 0 <= e < E -> exists en,
  EntryAt e s = Some en /\ zat (directory s) e = Some en /\ view s e = Some (core en).
Proof.
  intros H He. destruct (zat_is_Some (directory s) e) as [en Hen]; [by rewrite (si_dir _ _ _ _ _ H)|].
  exists en. unfold view. by rewrite Hen.
Qed.

Lemma file_get holes lru free files s e : SecInv holes lru free files s -> 0 <= e < E -> exists f, zat files e = Some f.
Proof.
  intros H He. apply zat_is_Some. rewrite (bk_dir _ _ _ _ (si_blocks _ _ _ _ _ H)). by rewrite (si_dir _ _ _ _ _ H).
Qed.

Lemma entry_flags holes lru free files s e en : SecInv holes lru free files s -> zat (directory s) e = Some en ->
  exists o b, 0 <= o < 2 ^ 31 /\ flags en = flags_of o b.
Proof. intros H He. apply (si_flags _ _ _ _ _ H e (core en)). unfold view. by rewrite He. Qed.

Lemma entry_writeable holes lru free files s e en : SecInv holes lru free files s -> zat (directory s) e = Some en ->
  Writeable en = bool_decide (flags en = 0).
Proof.
  intros H He. destruct (entry_flags _ _ _ _ _ _ _ H He) as (o & b & Ho & Hf).
  apply (Writeable_flags _ o b); [lia|done].
Qed.

(** *** Partition of the blocks *)

Lemma concat_zset {A} (files : list (list A)) e f g : zat files e = Some f ->
  f ++ concat (zset files e g) ≡ₚ g ++ concat files.
Proof.
  unfold zat, zset. destruct (Z.ltb_spec e 0); [done|]. generalize (Z.to_nat e). intros n.
  revert n. induction files as [|x files IH]; intros [|n]; cbn; [done..| |].
  - intros [= ->]. solve_Permutation.
  - intros Hn. rewrite !(Permutation_app_swap_app _ x), IH by done. done.
Qed.

Lemma blocks_nodup holes free files s : blocks_ok holes free files s -> NoDup (free ++ concat files).
Proof. intros H. rewrite (bk_part _ _ _ _ H). apply NoDup_seqZ. Qed.

Lemma blocks_in_sector holes free files s : blocks_ok holes free files s -> Forall (in_sector N) (free ++ concat files).
Proof.
  intros H. apply Forall_forall. intros x. rewrite (bk_part _ _ _ _ H), elem_of_seqZ. unfold in_sector. lia.
Qed.

Lemma file_in_concat {A} (files : list (list A)) e f : zat files e = Some f -> exists r,
  concat files ≡ₚ f ++ r /\ r = concat (zset files e []).
Proof.
  intros H. exists (concat (zset files e [])). split; [|done]. pose proof (concat_zset files e f [] H) as P.
  cbn in P. by rewrite P.
Qed.

Lemma file_nodup holes free files s e f : blocks_ok holes free files s -> zat files e = Some f ->
  NoDup (f ++ free) /\ Forall (in_sector N) f.
Proof.
  intros H He. destruct (file_in_concat files e f He) as (r & P & _).
  pose proof (blocks_nodup _ _ _ _ H) as Hn. pose proof (blocks_in_sector _ _ _ _ H) as Hi. rewrite P in Hn, Hi.
  rewrite Forall_app, Forall_app in Hi. split; [|tauto].
  assert (free ++ f ++ r ≡ₚ (f ++ free) ++ r) as P' by (rewrite <-app_assoc; apply Permutation_app_swap_app).
  rewrite P' in Hn. by apply NoDup_app in Hn as [? _].
Qed.

Lemma files_disjoint holes free files s e e' f f' x : blocks_ok holes free files s ->
  zat files e = Some f -> zat files e' = Some f' -> e <> e' -> x ∈ f -> x ∉ f'.
Proof.
  intros H He He' Hne Hx Hx'. destruct (file_in_concat files e f He) as (r & P & ->).
  pose proof (blocks_nodup _ _ _ _ H) as Hn. rewrite P in Hn. apply NoDup_app in Hn as (_ & _ & Hn).
  apply NoDup_app in Hn as (_ & Hd & _). apply (Hd x Hx).
  assert (He2 : zat (zset files e []) e' = Some f') by (by rewrite zat_zset_ne).
  destruct (file_in_concat _ e' f' He2) as (r' & P' & _). rewrite P'. apply elem_of_app. by left.
Qed.

(** *** Holes *)

Lemma open_hole e holes lru free files s : SecInv holes lru free files s -> SecInv (e :: holes) lru free files s.
Proof.
  intros [H1 [] H3 H4 H5]. split; [done|split; try done|done| |done].
  - intros x en f Hx. apply bk_files0. set_solver.
  - intros x c Hc Hl Hx. apply (H4 x); [done..|]. set_solver.
Qed.

Lemma close_hole e holes lru free files s en f : SecInv (e :: holes) lru free files s ->
  zat (directory s) e = Some en -> zat files e = Some f ->
  chain (block_successors_ s) (first_block en) f -> Z.of_nat (length f) = DataBlocks (byte_size en) ->
  (e ∉ lru -> byte_size en = 0) -> SecInv holes lru free files s.
Proof.
  intros [H1 [] H3 H4 H5] He Hf Hc Hl Hu. split; [done|split; try done|done| |done].
  - intros x en' f' Hx Hen' Hf'. destruct (decide (x = e)) as [->|]; [|apply (bk_files0 x); set_solver].
    rewrite He in Hen'. rewrite Hf in Hf'. by simplify_eq.
  - intros x c Hc' Hxl Hx. destruct (decide (x = e)) as [->|]; [|apply (H4 x); set_solver].
    unfold view in Hc'. rewrite He in Hc'. injection Hc' as <-. by apply Hu.
Qed.

Lemma regroup_files files' holes lru free files s : SecInv holes lru free files s ->
  length files' = length files -> (forall x, x ∉ holes -> zat files' x = zat files x) ->
  concat files' ≡ₚ concat files -> SecInv holes lru free files' s.
Proof.
  intros [H1 [] H3 H4 H5] Hl Hx P. split; [done|split; try done|done|done|done].
  - congruence.
  - intros x en f Hxh Hen Hf. rewrite Hx in Hf by done. by apply (bk_files0 x).
  - by rewrite P.
Qed.

(** *** Changes of the entries *)

Lemma links_sec e holes lru lru' free files s s' : e ∈ holes -> SecInv holes lru free files s ->
  same_but_links s s' -> lru_ok lru' s' -> (forall x, x <> e -> x ∈ lru -> x ∈ lru') ->
  SecInv holes lru' free files s' /\ (forall x, view s' x = view s x) /\ same_frame s s'.
Proof.
  intros Heh [H1 [] H3 H4 H5] [] Hlru Hsub.
  assert (Hz : forall x en', zat (directory s') x = Some en' -> exists en, zat (directory s) x = Some en /\
    core en' = core en /\ first_block en' = first_block en).
  { intros x en' Hx. specialize (sl_entry x). rewrite Hx in sl_entry. cbn in sl_entry.
    symmetry in sl_entry. apply fmap_Some in sl_entry as (en & Hen & Heq). exists en. split; [done|].
    unfold no_links, core in *. destruct en, en'; cbn in *. by simplify_eq. }
  assert (Hv : forall x, view s' x = view s x).
  { intros x. specialize (sl_entry x). unfold view.
    destruct (zat (directory s') x) as [en'|] eqn:Ex.
    - destruct (Hz x en' Ex) as (en & -> & Hc & _). cbn. by f_equal.
    - cbn in sl_entry. symmetry in sl_entry. apply fmap_None in sl_entry. by rewrite sl_entry. }
  split; [|split; [done|by split]]. split; [done|split|..].
  - congruence.
  - congruence.
  - congruence.
  - intros x en' f Hxh Hen' Hf. destruct (Hz x en' Hen') as (en & Hen & Hc & ->). rewrite sl_succ.
    injection Hc as _ -> _. by apply (bk_files0 x).
  - done.
  - destruct sl_stats as [n ->]. cbn. lia.
  - congruence.
  - intros x c Hc Hl Hx. rewrite Hv in Hc. apply (H4 x); [done| |done]. intros Hin. apply Hl, Hsub; [|done]. by intros ->.
  - intros x c. rewrite Hv. apply H5.
Qed.

Lemma Unlink_sec e holes lru free files s : e ∈ holes -> SecInv holes lru free files s -> 0 <= e < E -> exists s',
  UnlinkEntryFromLRU e s = Some s' /\ SecInv holes (remove_entry e lru) free files s' /\
  (forall x, view s' x = view s x) /\ same_frame s s'.
Proof.
  intros Heh H He. destruct (Unlink_ok lru s e (si_lru _ _ _ _ _ H)) as (s' & -> & H2 & H3).
  { by rewrite (si_dir _ _ _ _ _ H). }
  exists s'. split; [done|]. apply (links_sec e _ lru); try done. intros x Hx Hl. by apply elem_of_remove_entry.
Qed.

Lemma Insert_sec e holes lru free files s : e ∈ holes -> SecInv holes lru free files s -> 0 <= e < E -> e ∉ lru ->
  exists s', InsertEntryIntoLRU e s = Some s' /\ SecInv holes (e :: lru) free files s' /\
  (forall x, view s' x = view s x) /\ same_frame s s'.
Proof.
  intros Heh H He Hl. destruct (Insert_ok lru s e (si_lru _ _ _ _ _ H) Hl) as (s' & -> & H2 & H3).
  { by rewrite (si_dir _ _ _ _ _ H). }
  exists s'. split; [done|]. apply (links_sec e _ lru); try done. intros x Hx Hxl. by right.
Qed.

(** The updates of an entry that leave its links alone. *)
Definition keeps_links (f : CacheEntry -> CacheEntry) : Prop :=
  forall en, lru_prev (f en) = lru_prev en /\ lru_next (f en) = lru_next en.
Definition keeps_file (f : CacheEntry -> CacheEntry) : Prop :=
  forall en, first_block (f en) = first_block en /\ byte_size (f en) = byte_size en.

Lemma modify_sec e f holes lru free files s en : SecInv holes lru free files s -> zat (directory s) e = Some en ->
  keeps_links f -> e ∈ holes \/ keeps_file f ->
  (exists o b, 0 <= o < 2 ^ 31 /\ flags (f en) = flags_of o b) -> exists s',
  modify_entry e f s = Some s' /\ SecInv holes lru free files s' /\ zat (directory s') e = Some (f en) /\
  (forall x, view s' x = if decide (x = e) then Some (core (f en)) else view s x) /\ same_frame s s' /\
  block_successors_ s' = block_successors_ s.
Proof.
  intros [H1 [] H3 H4 H5] He Hl Hk' Hfl. destruct (modify_entry_spec e f s en He) as (s' & -> & D & Hs & L).
  assert (Hv : forall x, view s' x = if decide (x = e) then Some (core (f en)) else view s x).
  { intros x. unfold view. rewrite D. by case_decide. }
  exists s'. split; [done|]. split; [|split; [rewrite D; by case_decide|split; [done|rewrite Hs; done]]].
  split; [|split|..].
  - rewrite Hs. apply (lru_ok_ext _ s); [done| |done..]. intros x. rewrite <-Hs. unfold link_view. rewrite D.
    case_decide as Ex; [|done]. subst. rewrite He. cbn. destruct (Hl en) as [-> ->]. done.
  - by rewrite Hs.
  - congruence.
  - by rewrite Hs.
  - intros x en' g Hxh Hen' Hg. rewrite Hs. cbn [block_successors_ with_directory]. rewrite D in Hen'.
    case_decide as Ex; [|by apply (bk_files0 x)]. subst x. injection Hen' as <-.
    destruct Hk' as [|Hk']; [done|]. destruct (Hk' en) as [-> ->]. by apply (bk_files0 e).
  - done.
  - by rewrite Hs.
  - congruence.
  - intros x c. rewrite Hv. case_decide as Ex; [|by apply H4]. subst. intros [= <-] Hx Hh.
    destruct Hk' as [|Hk']; [done|]. cbn. destruct (Hk' en) as [_ ->]. apply (H4 e (core en)); [|done..].
    unfold view. by rewrite He.
  - intros x c. rewrite Hv. case_decide as Ex; [|by apply H5]. by intros [= <-].
Qed.

(** ** The operations *)

(** The dimensions of a sector, for the block operations. *)
Lemma sec_succ holes lru free files s : SecInv holes lru free files s -> Z.of_nat (length (block_successors_ s)) = N.
Proof. intros H. apply H. Qed.

Lemma Touch_sec ts e holes lru free files s : SecInv holes lru free files s -> 0 <= e < E -> e ∈ holes -> exists s',
  TouchEntry ts e s = Some s' /\ SecInv holes (e :: remove_entry e lru) free files s' /\
  (forall x, view s' x = view s x) /\ same_frame s s'.
Proof.
  intros H He Heh. unfold TouchEntry.
  destruct (Unlink_sec e holes lru free files s Heh H He) as (s1 & -> & H1 & V1 & F1). cbn [mbind option_bind].
  destruct (Insert_sec e holes _ free files s1 Heh H1 He) as (s2 & -> & H2 & V2 & F2).
  { rewrite elem_of_remove_entry. naive_solver. }
  cbn [mbind option_bind]. destruct (view_get _ _ _ _ _ e H2 He) as (en & _ & Hen & Hv).
  destruct (modify_sec e (with_last_use_timestamp_ms ts) holes _ free files s2 en H2 Hen)
    as (s3 & -> & H3 & _ & V3 & F3 & _); [done|right; done|by apply (entry_flags _ _ _ _ _ _ _ H2 Hen)|].
  exists s3. split; [done|]. split; [done|]. split; [|by etrans; [exact F1|etrans; [exact F2|exact F3]]].
  intros x. rewrite V3, <-V1, <-V2. case_decide as Ex; [|done]. by rewrite Ex, Hv.
Qed.

Lemma Mark_sec e holes lru free files s : SecInv holes lru free files s -> 0 <= e < E -> e ∈ holes ->
  c_flags <$> view s e = Some 0 -> exists s' en',
  MarkEntryFree e s = Some s' /\ SecInv holes (remove_entry e lru) free files s' /\
  (forall x, view s' x = if decide (x = e) then Some free_core else view s x) /\ same_frame s s' /\
  zat (directory s') e = Some en' /\ first_block en' = kInvalidBlock.
Proof.
  intros H He Heh Hf. unfold MarkEntryFree.
  destruct (Unlink_sec e holes lru free files s Heh H He) as (s1 & -> & H1 & V1 & F1). cbn [mbind option_bind].
  destruct (view_get _ _ _ _ _ e H1 He) as (en & -> & Hen & Hv). cbn [mbind option_bind].
  rewrite <-V1, Hv in Hf. injection Hf as Hf.
  rewrite (entry_writeable _ _ _ _ _ _ _ H1 Hen), bool_decide_true by done. cbn [negb].
  destruct (modify_sec e free_entry holes _ free files s1 en H1 Hen) as (s2 & -> & H2 & Hen2 & V2 & F2 & _).
  { done. }
  { by left. }
  { exists 0, false. split; [lia|]. exact Hf. }
  exists s2, (free_entry en). split; [done|]. split; [done|].
  split; [|split; [by etrans; [exact F1|exact F2]|split; [exact Hen2|done]]].
  intros x. rewrite V2, <-V1. case_decide; [|done]. unfold core, free_core. cbn. by rewrite Hf.
Qed.

Lemma sec_same_blocks holes lru free files s s' succ_free files' : SecInv holes lru free files s ->
  same_but_blocks s s' -> blocks_ok holes succ_free files' s' -> SecInv holes lru succ_free files' s'.
Proof.
  intros [H1 H2 H3 H4 H5] Hs Hb. split.
  - by apply (same_but_blocks_lru _ s).
  - done.
  - by rewrite (sb_dir _ _ Hs).
  - intros e c. unfold view. rewrite (sb_dir _ _ Hs). apply H4.
  - intros e c. unfold view. rewrite (sb_dir _ _ Hs). apply H5.
Qed.

Lemma same_blocks_view s s' : same_but_blocks s s' -> (forall x, view s' x = view s x) /\ same_frame s s'.
Proof. intros []. split; [|by split]. intros x. unfold view. congruence. Qed.

Lemma Alloc_sec goal h held holes lru free files s : SecInv holes lru free files s -> h ∈ holes ->
  zat files h = Some held -> let n := Z.to_nat goal in exists s',
  AllocBlocksFromFreeList N goal held s = Some (Z.of_nat (n `min` length free), held ++ take n free, s') /\
  SecInv holes lru (drop n free) (zset files h (held ++ take n free)) s' /\
  (forall x, view s' x = view s x) /\ same_frame s s' /\ block_successors_ s' = block_successors_ s.
Proof.
  intros H Hh Hf n. pose proof (si_blocks _ _ _ _ _ H) as [].
  destruct (Alloc_spec N goal held free s) as (s' & -> & Hs & Hsucc & Hc & Hu); [done..|].
  exists s'. split; [done|]. split; [|by split; [|split]; [apply same_blocks_view..|]].
  apply (sec_same_blocks _ _ _ _ _ _ _ _ H Hs). split.
  - by rewrite Hsucc.
  - rewrite length_zset. by rewrite (sb_dir _ _ Hs).
  - done.
  - intros x en g Hx. rewrite (sb_dir _ _ Hs), Hsucc, zat_zset_ne by (intros ->; done). by apply bk_files0.
  - rewrite <-bk_part0. rewrite <-(take_drop n free) at 3.
    pose proof (concat_zset files h held (held ++ take n free) Hf) as P. rewrite <-app_assoc in P.
    apply Permutation_app_inv_l in P. rewrite P, <-!app_assoc. apply Permutation_app_swap_app.
  - rewrite Hu, bk_used0, length_drop. fold n. lia.
Qed.

Lemma Return_sec blocks keep h f holes lru free files s : SecInv holes lru free files s -> h ∈ holes ->
  zat files h = Some f -> f ≡ₚ keep ++ blocks -> exists s',
  ReturnBlocksToFreeList N blocks s = Some s' /\
  SecInv holes lru (rev blocks ++ free) (zset files h keep) s' /\
  (forall x, view s' x = view s x) /\ same_frame s s' /\
  (forall x, x ∉ blocks -> zat (block_successors_ s') x = zat (block_successors_ s) x).
Proof.
  intros H Hh Hf P. pose proof (si_blocks _ _ _ _ _ H) as Hb. pose proof Hb as [].
  destruct (file_nodup _ _ _ _ _ _ Hb Hf) as [Hnd Hin].
  destruct (Return_spec N blocks free s) as (s' & -> & Hs & Hl & Hc & Hx & Hu).
  - done.
  - done.
  - rewrite P in Hin. by apply Forall_app in Hin as [_ ?].
  - rewrite P, <-app_assoc in Hnd. by apply NoDup_app in Hnd as (_ & _ & ?).
  - exists s'. split; [done|]. split; [|by split; [|split]; [apply same_blocks_view..|]].
    apply (sec_same_blocks _ _ _ _ _ _ _ _ H Hs). split.
    + congruence.
    + rewrite length_zset. by rewrite (sb_dir _ _ Hs).
    + done.
    + intros x en g Hxh. rewrite (sb_dir _ _ Hs), zat_zset_ne by (intros ->; done). intros Hen Hg.
      destruct (bk_files0 x en g Hxh Hen Hg) as [C L]. split; [|done]. eapply chain_ext; [|exact C].
      intros y Hy. apply Hx. intros Hyb. assert (Hyf : y ∈ f) by (rewrite P; apply elem_of_app; by right).
      apply (files_disjoint _ _ _ _ h x f g y Hb Hf Hg); [by intros ->|done..].
    + rewrite <-bk_part0, <-Permutation_rev.
      pose proof (concat_zset files h f keep Hf) as P2. rewrite P in P2 at 1. rewrite <-app_assoc in P2.
      apply Permutation_app_inv_l in P2. rewrite <-P2, app_assoc. apply Permutation_app_tail, Permutation_app_comm.
    + rewrite Hu, bk_used0, length_app, length_rev. lia.
Qed.

Lemma Link_sec blocks h holes lru free files s : SecInv holes lru free files s -> h ∈ holes ->
  zat files h = Some blocks -> exists s',
  LinkBlockSuccessors N blocks s = Some s' /\ SecInv holes lru free files s' /\
  (forall x, view s' x = view s x) /\ same_frame s s' /\
  chain (block_successors_ s') (first kInvalidBlock blocks) blocks /\ directory s' = directory s.
Proof.
  intros H Hh Hf. pose proof (si_blocks _ _ _ _ _ H) as Hb. pose proof Hb as [].
  destruct (file_nodup _ _ _ _ _ _ Hb Hf) as [Hnd Hin].
  destruct (Link_spec N blocks s) as (succ' & -> & Hl & Hc & Hx); [done..|by apply NoDup_app in Hnd as [? _]|].
  eexists. split; [done|]. split; [|done].
  apply (sec_same_blocks _ _ _ _ _ _ _ _ H); [done|]. split; try done.
  - cbn. congruence.
  - cbn. eapply chain_ext; [|exact bk_free0]. intros x Hxf. apply Hx. intros Hxb.
    apply NoDup_app in Hnd as (_ & Hd & _). by apply (Hd x).
  - intros x en g Hxh Hen Hg. destruct (bk_files0 x en g Hxh Hen Hg) as [C L]. split; [|done].
    eapply chain_ext; [|exact C]. intros y Hy. apply Hx. intros Hyb.
    apply (files_disjoint _ _ _ _ h x blocks g y Hb Hf Hg); [by intros ->|done..].
Qed.

Lemma BlockList_sec e en f out holes lru free files s : SecInv holes lru free files s -> e ∉ holes ->
  zat (directory s) e = Some en -> zat files e = Some f ->
  BlockListForEntry kBlockSize N en out s = Some (Z.of_nat (length f), out ++ f).
Proof.
  intros H He Hen Hf. pose proof (si_blocks _ _ _ _ _ H) as []. destruct (bk_files0 e en f He Hen Hf).
  by apply BlockListForEntry_spec.
Qed.

(** ** Evictions *)

(** The LRU list, the files and the sector. *)
Definition Snap : Type := list Z * list (list Z) * Sector.

(** How an entry may change while another is written: not at all, or it was
    unused and is now free. *)
Definition stable (e : Z) (x y : Snap) : Prop :=
  view y.2 e = view x.2 e /\ zat y.1.2 e = zat x.1.2 e /\ (e ∈ y.1.1 <-> e ∈ x.1.1).
Definition evicted (e : Z) (x y : Snap) : Prop :=
  c_flags <$> view x.2 e = Some 0 /\ view y.2 e = Some free_core /\ zat y.1.2 e = Some [] /\ e ∉ y.1.1.
Definition others_ok (h : Z) (x y : Snap) : Prop := forall e, e <> h -> stable e x y \/ evicted e x y.

#[global] Instance others_ok_preorder h : PreOrder (others_ok h).
Proof using Type.
  clear Hk HE HN. unfold others_ok, stable, evicted. split.
  - intros x e He. by left.
  - intros x y z H1 H2 e He. destruct (H1 e He) as [(V1 & F1 & L1)|(A1 & V1 & F1 & L1)],
      (H2 e He) as [(V2 & F2 & L2)|(A2 & V2 & F2 & L2)].
    + left. rewrite V2, F2, L2. tauto.
    + right. by rewrite <-V1.
    + right. rewrite V2, F2, L2. tauto.
    + right. tauto.
Qed.

Lemma same_view_others h lru lru' files files' s s' :
  (forall x, view s' x = view s x) -> (forall x, x <> h -> zat files' x = zat files x) ->
  (forall x, x <> h -> x ∈ lru' <-> x ∈ lru) -> others_ok h (lru, files, s) (lru', files', s').
Proof. intros H1 H2 H3 x Hx. left. unfold stable; cbn. auto. Qed.

Definition busy (s : Sector) (e : Z) : Prop := c_flags <$> view s e <> Some 0.

Lemma Evict_sec h e held en lru free files s : SecInv [h] lru free files s -> zat (directory s) e = Some en ->
  flags en = 0 -> busy s h -> zat files h = Some held -> exists s' f files',
  zat files e = Some f /\ BlockListForEntry kBlockSize N en held s = Some (Z.of_nat (length f), held ++ f) /\
  MarkEntryFree e s = Some s' /\ SecInv [h] (remove_entry e lru) free files' s' /\
  zat files' h = Some (held ++ f) /\ view s' h = view s h /\
  others_ok h (lru, files, s) (remove_entry e lru, files', s') /\ same_frame s s'.
Proof.
  intros H He Hfl Hbusy Hh. assert (Hr : 0 <= e < E) by (rewrite <-(si_dir _ _ _ _ _ H); by eapply zat_Some).
  assert (Hve : c_flags <$> view s e = Some 0) by (unfold view; by rewrite He; cbn; f_equal).
  assert (Hne : e <> h) by (intros ->; done). destruct (file_get _ _ _ _ _ e H Hr) as [f Hf].
  assert (Hhr : 0 <= h < Z.of_nat (length files)) by by eapply zat_Some.
  set (files' := zset (zset files h (held ++ f)) e []).
  assert (H1 : SecInv (e :: [h]) lru free files' s).
  { apply (regroup_files files' _ _ _ files); [by apply open_hole|by unfold files'; rewrite !length_zset| |].
    - intros x Hx. unfold files'. rewrite !zat_zset_ne by set_solver. done.
    - unfold files'. pose proof (concat_zset files h held (held ++ f) Hh) as P1. rewrite <-app_assoc in P1.
      apply Permutation_app_inv_l in P1.
      pose proof (concat_zset (zset files h (held ++ f)) e f []) as P2.
      rewrite zat_zset_ne in P2 by done. specialize (P2 Hf). rewrite P1 in P2. cbn in P2.
      by apply Permutation_app_inv_l in P2. }
  destruct (Mark_sec e _ _ _ _ s H1 Hr) as (s' & en' & Hm & H2 & V & F & Hen' & Hb); [left|done|].
  exists s', f, files'. split; [done|]. split; [apply (BlockList_sec e _ _ _ [h] _ _ _ _ H); [set_solver|done..]|].
  split; [done|].
  assert (Hf'e : zat files' e = Some []).
  { unfold files'. apply zat_zset_eq. rewrite length_zset. by eapply zat_Some. }
  assert (Hse : byte_size en' = 0).
  { specialize (V e). unfold view in V. rewrite Hen', decide_True in V by done. cbn in V. by injection V. }
  split; [|split; [|split; [by rewrite V, decide_False|split; [|done]]]].
  - eapply close_hole; [exact H2|exact Hen'|exact Hf'e|exact Hb| |done]. by rewrite Hse, DataBlocks_0.
  - unfold files'. rewrite zat_zset_ne, zat_zset_eq by done. done.
  - intros x Hx. destruct (decide (x = e)) as [->|Hxe].
    + right. unfold evicted; cbn. rewrite V, decide_True, elem_of_remove_entry by done. naive_solver.
    + left. unfold stable; cbn. rewrite V, decide_False, elem_of_remove_entry by done. unfold files'.
      rewrite !zat_zset_ne by done. tauto.
Qed.

Lemma length_remove_entry e lru : e ∈ lru -> (length (remove_entry e lru) < length lru)%nat.
Proof.
  intros (a & b & ->)%list_elem_of_split. unfold remove_entry. rewrite filter_app, filter_cons_False by (intros H; by apply H).
  rewrite !length_app. cbn. pose proof (length_filter (fun x => x <> e) a). pose proof (length_filter (fun x => x <> e) b). lia.
Qed.

Lemma lru_prev_at a e b s en : lru_ok (a ++ e :: b) s -> zat (directory s) e = Some en ->
  lru_prev en = last_or kInvalidEntry a.
Proof.
  intros H He. pose proof (lo_seg _ _ H) as Hs. apply seg_app in Hs as [_ [Hl _]].
  unfold link_view in Hl. rewrite He in Hl. by injection Hl.
Qed.

Lemma flags_busy s e en : zat (directory s) e = Some en -> flags en <> 0 -> busy s e.
Proof. intros He Hf. unfold busy, view. rewrite He. cbn. congruence. Qed.

Lemma TryAllocate_loop_sec goal h : forall fuel a b got held lru free files s,
  SecInv [h] lru free files s -> zat files h = Some held -> lru = a ++ b -> Forall (busy s) b -> busy s h ->
  (length lru * length lru + length a <= fuel)%nat -> exists got' held' lru' files' s',
  TryAllocate_loop kBlockSize N fuel (last_or kInvalidEntry a) got goal held s = Some (got', held', s') /\
  SecInv [h] lru' free files' s' /\ zat files' h = Some held' /\
  got <= got' /\ Z.of_nat (length held') = Z.of_nat (length held) + (got' - got) /\
  view s' h = view s h /\ (h ∈ lru' <-> h ∈ lru) /\ others_ok h (lru, files, s) (lru', files', s') /\ same_frame s s' /\
  (goal <= got' \/ Forall (busy s') lru').
Proof.
  induction fuel as [|fuel IH]; intros a b got held lru free files s H Hh Hlru Hb Hbh Hfuel.
  all: destruct a as [|e a _] using rev_ind;
    [exists got, held, lru, files, s; cbn; split; [by destruct fuel || done|];
     split; [done|]; split; [done|]; split; [lia|]; split; [lia|]; repeat (split; [done|]); right; by subst|].
  { rewrite length_app in Hfuel. cbn in Hfuel. lia. }
  cbn [TryAllocate_loop]. rewrite last_or_in_snoc.
  assert (Hin : e ∈ lru) by (subst; rewrite !elem_of_app; left; right; left).
  pose proof (lru_nonneg _ _ _ (si_lru _ _ _ _ _ H) Hin) as Hr.
  destruct (Z.eqb_spec e kInvalidEntry) as [Ee|_]; [unfold kInvalidEntry in *; lia|]. cbn [negb andb].
  destruct (Z.ltb_spec got goal) as [Hg|Hg].
  2: { exists got, held, lru, files, s. split; [done|]. split; [done|]. split; [done|]. split; [lia|].
       split; [lia|]. repeat (split; [done|]). by left. }
  destruct (zat_is_Some _ _ Hr) as [en Hen]. rewrite (Hen : EntryAt e s = Some en). cbn [mbind option_bind].
  rewrite (entry_writeable _ _ _ _ _ _ _ H Hen). case_bool_decide as Hfl.
  - destruct (Evict_sec h e held en lru free files s H Hen Hfl Hbh Hh)
      as (s1 & f & files1 & _ & -> & -> & H1 & Hh1 & V1 & O1 & F1). cbn [mbind option_bind].
    unfold OldestEntryNum. rewrite (lo_rear _ _ (si_lru _ _ _ _ _ H1)).
    pose proof (length_remove_entry e lru Hin) as Hlen.
    destruct (IH (remove_entry e lru) [] (got + Z.of_nat (length f)) (held ++ f) _ free files1 s1 H1 Hh1)
      as (got' & held' & lru' & files' & s' & -> & H2 & Hh2 & G2 & L2 & V2 & M2 & O2 & F2 & D2);
      [by rewrite app_nil_r|by apply Forall_nil|unfold busy; by rewrite V1|nia|].
    exists got', held', lru', files', s'. split; [done|]. split; [done|]. split; [done|].
    split; [lia|]. split; [rewrite L2, length_app; lia|]. split; [congruence|].
    split; [rewrite M2, elem_of_remove_entry; assert (h <> e) by (intros ->; unfold busy, view in Hbh;
      rewrite Hen in Hbh; cbn in Hbh; congruence); tauto|].
    split; [by etrans; [exact O1|exact O2]|]. split; [by etrans; [exact F1|exact F2]|done].
  - assert (lru_prev en = last_or kInvalidEntry a) as ->.
    { apply (lru_prev_at a e b s en); [|done]. rewrite Hlru, <-app_assoc in H. apply H. }
    apply (IH a (e :: b)); try done.
    + by rewrite Hlru, <-app_assoc.
    + apply Forall_cons. split; [by apply (flags_busy s e en)|done].
    + rewrite length_app in Hfuel. cbn in Hfuel. lia.
Qed.

Lemma lru_length holes lru free files s : SecInv holes lru free files s -> Z.of_nat (length lru) <= E.
Proof.
  intros H. assert (Hs : lru ⊆+ seqZ 0 E).
  { apply NoDup_submseteq; [apply (si_lru _ _ _ _ _ H)|]. intros x Hx.
    apply (lru_nonneg _ _ _ (si_lru _ _ _ _ _ H)) in Hx. rewrite (si_dir _ _ _ _ _ H) in Hx. apply elem_of_seqZ. lia. }
  apply submseteq_length in Hs. rewrite length_seqZ in Hs. lia.
Qed.

(** [TryAllocateBlocks] ends within its fuel; it fails only when the freelist is
    empty and every entry left on the LRU list is in use. *)
Lemma TryAllocateBlocks_sec goal h held lru free files s :
  SecInv [h] lru free files s -> zat files h = Some held -> busy s h -> 0 <= goal ->
  exists ok held' lru' free' files' s',
  TryAllocateBlocks kBlockSize E N goal held s = Some (ok, held', s') /\
  SecInv [h] lru' free' files' s' /\ zat files' h = Some held' /\ view s' h = view s h /\ (h ∈ lru' <-> h ∈ lru) /\
  others_ok h (lru, files, s) (lru', files', s') /\ same_frame s s' /\
  (if ok : bool then Z.of_nat (length held) + goal <= Z.of_nat (length held')
   else Z.of_nat (length held') < Z.of_nat (length held) + goal /\ free' = [] /\ Forall (busy s') lru').
Proof.
  intros H Hh Hb Hg. unfold TryAllocateBlocks. set (n := Z.to_nat goal).
  destruct (Alloc_sec goal h held [h] lru free files s H ltac:(set_solver) Hh) as (s1 & -> & H1 & V1 & F1 & _).
  cbn [mbind option_bind]. fold n in H1 |- *. unfold OldestEntryNum. rewrite (lo_rear _ _ (si_lru _ _ _ _ _ H1)).
  destruct (TryAllocate_loop_sec goal h (TryAllocate_fuel E) lru [] (Z.of_nat (n `min` length free))
    (held ++ take n free) lru (drop n free) _ s1 H1)
    as (got' & held' & lru' & files' & s' & -> & H2 & Hh2 & G2 & L2 & V2 & M2 & O2 & F2 & D2).
  - apply zat_zset_eq. by eapply zat_Some.
  - by rewrite app_nil_r.
  - by apply Forall_nil.
  - unfold busy. by rewrite V1.
  - unfold TryAllocate_fuel. pose proof (lru_length _ _ _ _ _ H). nia.
  - cbn [mbind option_bind]. exists (goal <=? got'), held', lru', (drop n free), files', s'. split; [done|].
    split; [done|]. split; [done|]. split; [by rewrite V2|]. split; [done|].
    split; [|split; [by etrans; [exact F1|exact F2]|]].
    + etrans; [|exact O2]. apply same_view_others; [done| |done]. intros x Hx. by apply zat_zset_ne.
    + rewrite length_app, length_take in L2. destruct (Z.leb_spec goal got'); [lia|].
      destruct D2 as [D2|D2]; [lia|]. split; [lia|]. split; [|done]. apply nil_length_inv. rewrite length_drop. lia.
Qed.

(** ** [PutIntoEntry] *)

(** The blocks that are not wanted go back. *)
Lemma trim_sec want e held lru free files s : SecInv [e] lru free files s -> zat files e = Some held ->
  0 <= want <= Z.of_nat (length held) -> let blocks := take (Z.to_nat want) held in exists free' files' s',
  (if want <? Z.of_nat (length held) then ReturnBlocksToFreeList N (rev (drop (Z.to_nat want) held)) s else Some s)
    = Some s' /\
  SecInv [e] lru free' files' s' /\ zat files' e = Some blocks /\ (forall x, view s' x = view s x) /\
  (forall x, x <> e -> zat files' x = zat files x) /\ same_frame s s'.
Proof.
  intros H Hh Hw blocks. destruct (Z.ltb_spec want (Z.of_nat (length held))) as [Hlt|Hge].
  - destruct (Return_sec (rev (drop (Z.to_nat want) held)) blocks e held [e] lru free files s H)
      as (s' & -> & H1 & V & F & _); [set_solver|done|by rewrite <-Permutation_rev; unfold blocks; rewrite take_drop|].
    eexists _, _, s'. split; [done|]. split; [exact H1|]. split; [apply zat_zset_eq; by eapply zat_Some|].
    split; [done|]. split; [|done]. intros x Hx. by apply zat_zset_ne.
  - exists free, files, s. split; [done|]. split; [done|]. split; [|done]. unfold blocks. by rewrite take_ge by lia.
Qed.

(** The entry takes its blocks. *)
Lemma commit_sec e blocks size ts lru free files s en : SecInv [e] lru free files s -> zat (directory s) e = Some en ->
  zat files e = Some blocks -> Z.of_nat (length blocks) = DataBlocks size -> exists s',
  (s ← modify_entry e (with_byte_size size) s;
   s ← TouchEntry ts e s;
   s ← LinkBlockSuccessors N blocks s;
   modify_entry e (with_first_block (first kInvalidBlock blocks)) s) = Some s' /\
  SecInv [] (e :: remove_entry e lru) free files s' /\
  (forall x, view s' x = if decide (x = e) then Some (mkCore (hash_bytes en) size (flags en)) else view s x) /\
  same_frame s s'.
Proof.
  intros H Hen Hf Hl. assert (Hr : 0 <= e < E) by (rewrite <-(si_dir _ _ _ _ _ H); by eapply zat_Some).
  destruct (modify_sec e (with_byte_size size) [e] lru free files s en H Hen) as (s1 & -> & H1 & En1 & V1 & F1 & _);
    [done|by left; left|by apply (entry_flags _ _ _ _ _ _ _ H Hen)|]. cbn [mbind option_bind].
  destruct (Touch_sec ts e [e] lru free files s1 H1 Hr) as (s2 & -> & H2 & V2 & F2); [by left|]. cbn [mbind option_bind].
  destruct (Link_sec blocks e [e] _ free files s2 H2) as (s3 & -> & H3 & V3 & F3 & C3 & _); [by left|done|].
  cbn [mbind option_bind]. destruct (view_get _ _ _ _ _ e H3 Hr) as (en3 & _ & Hen3 & Hv3).
  destruct (modify_sec e (with_first_block (first kInvalidBlock blocks)) [e] _ free files s3 en3 H3 Hen3)
    as (s4 & -> & H4 & En4 & V4 & F4 & S4); [done|by left; left|by apply (entry_flags _ _ _ _ _ _ _ H3 Hen3)|].
  rewrite V3, V2, V1, decide_True in Hv3 by done. injection Hv3 as Eh Es Ef.
  exists s4. split; [done|]. split; [|split].
  - eapply close_hole; [exact H4|exact En4|exact Hf|cbn; by rewrite S4|cbn; by rewrite <-Es|].
    intros Hn. exfalso. apply Hn. left.
  - intros x. rewrite V4. case_decide as Ex; [|by rewrite V3, V2, V1, decide_False]. unfold core; cbn. by rewrite <-Eh, <-Es, <-Ef.
  - etrans; [exact F1|]. etrans; [exact F2|]. by etrans; [exact F3|].
Qed.

(** The entry gives up its blocks and is free. *)
Lemma release_sec e held lru free files s en o : SecInv [e] lru free files s -> zat (directory s) e = Some en ->
  flags en = flags_of 0 o -> zat files e = Some held -> exists s' free' files',
  (s ← ReturnBlocksToFreeList N held s;
   s ← modify_entry e (set_creating false) s;
   MarkEntryFree e s) = Some s' /\
  SecInv [] (remove_entry e lru) free' files' s' /\ zat files' e = Some [] /\
  (forall x, view s' x = if decide (x = e) then Some free_core else view s x) /\
  (forall x, x <> e -> zat files' x = zat files x) /\ same_frame s s'.
Proof.
  intros H Hen Hfl Hf. assert (Hr : 0 <= e < E) by (rewrite <-(si_dir _ _ _ _ _ H); by eapply zat_Some).
  destruct (Return_sec held [] e held [e] lru free files s H) as (s1 & -> & H1 & V1 & F1 & _); [by left|done|done|].
  cbn [mbind option_bind]. destruct (view_get _ _ _ _ _ e H1 Hr) as (en1 & _ & Hen1 & Hv1).
  rewrite V1 in Hv1. unfold view in Hv1. rewrite Hen in Hv1. injection Hv1 as _ _ Ef.
  assert (Hfl' : flags (set_creating false en1) = flags_of 0 false).
  { apply (set_creating_flags _ _ o); [lia|congruence]. }
  destruct (modify_sec e (set_creating false) [e] lru _ _ s1 en1 H1 Hen1) as (s2 & -> & H2 & En2 & V2 & F2 & _);
    [done|by left; left|exists 0, false; by split; [lia|]|]. cbn [mbind option_bind].
  destruct (Mark_sec e [e] lru _ _ s2 H2 Hr) as (s3 & en3 & -> & H3 & V3 & F3 & Hen3 & Hb); [by left| |].
  { by rewrite V2, decide_True by done; cbn; f_equal. }
  exists s3. eexists _, _. split; [done|].
  assert (Hfe : zat (zset files e []) e = Some []) by (apply zat_zset_eq; by eapply zat_Some).
  assert (Hs3 : byte_size en3 = 0).
  { specialize (V3 e). unfold view in V3. rewrite Hen3, decide_True in V3 by done. cbn in V3. by injection V3. }
  split; [|split; [exact Hfe|split; [|split]]].
  - eapply close_hole; [exact H3|exact Hen3|exact Hfe|exact Hb| |done]. by rewrite Hs3, DataBlocks_0.
  - intros x. rewrite V3. case_decide; [done|]. by rewrite V2, decide_False, V1.
  - intros x Hx. by apply zat_zset_ne.
  - etrans; [exact F1|]. by etrans; [exact F2|].
Qed.

Lemma concat_only {A} (files : list (list A)) h held : zat files h = Some held ->
  (forall x g, x <> h -> zat files x = Some g -> g = []) -> concat files ≡ₚ held.
Proof.
  intros Hh Hx. destruct (file_in_concat files h held Hh) as (r & -> & ->).
  assert (concat (zset files h []) = []) as ->; [|by rewrite app_nil_r].
  assert (Hall : Forall (fun g => g = []) (zset files h [])).
  { apply Forall_lookup. intros i g Hi. assert (Hz : zat (zset files h []) (Z.of_nat i) = Some g).
    { unfold zat. rewrite (proj2 (Z.ltb_ge _ _)), Nat2Z.id by lia. done. }
    destruct (decide (Z.of_nat i = h)) as [E|E]; [|rewrite zat_zset_ne in Hz by done; by apply (Hx (Z.of_nat i))].
    rewrite E, zat_zset_eq in Hz by (by eapply zat_Some). by injection Hz. }
  clear Hh Hx. induction Hall as [|g l -> Hl IH]; [done|]. exact IH.
Qed.

(** When no other entry is in use, an allocation fails only for want of blocks. *)
Lemma starved e held lru files s : SecInv [e] lru [] files s -> zat files e = Some held ->
  Forall (busy s) lru -> (exists x, x <> e /\ x ∈ lru /\ busy s x) \/ Z.of_nat (length held) = N.
Proof.
  intros H Hf Hb. destruct (decide (Forall (fun x => x = e) lru)) as [Hall|Hn].
  - right. pose proof (bk_part _ _ _ _ (si_blocks _ _ _ _ _ H)) as P. cbn in P.
    rewrite (concat_only files e held Hf) in P.
    + apply Permutation_length in P. rewrite length_seqZ in P. lia.
    + intros x g Hx Hg. destruct (view_get _ _ _ _ _ x H) as (en & _ & Hen & Hv).
      { rewrite <-(si_dir _ _ _ _ _ H), <-(bk_dir _ _ _ _ (si_blocks _ _ _ _ _ H)). by eapply zat_Some. }
      destruct (bk_files _ _ _ _ (si_blocks _ _ _ _ _ H) x en g) as [_ L]; [set_solver|done..|].
      assert (c_size (core en) = 0) as E0.
      { apply (si_unused _ _ _ _ _ H x); [done| |set_solver]. intros Hin.
        by rewrite Forall_forall in Hall; apply Hx, Hall. }
      cbn in E0. rewrite E0, DataBlocks_0 in L. by destruct g.
  - left. apply not_Forall_Exists, Exists_exists in Hn as (x & Hx & Hne); [|apply _].
    exists x. rewrite Forall_forall in Hb. split; [exact Hne|]. split; [done|]. by apply Hb.
Qed.

(** What a [Put] leaves behind in the entry when it starts to copy, or gives up. *)
Definition put_outcome (e : Z) (value hash : bytes) (r : Progress) (y : Snap) : Prop :=
  let want := DataBlocks (Z.of_nat (length value)) in
  match r with
  | Later p => exists blocks, p = CopyIn e blocks want 0 value /\ Z.of_nat (length blocks) = want /\
      zat y.1.2 e = Some blocks /\ view y.2 e = Some (mkCore hash (Z.of_nat (length value)) (flags_of 0 true)) /\ e ∈ y.1.1
  | Done => zat y.1.2 e = Some [] /\ view y.2 e = Some free_core /\ (e ∉ y.1.1) /\
      ((exists x c, x <> e /\ view y.2 x = Some c /\ c_flags c <> 0) \/ N < want)
  | _ => False
  end.

Lemma PutIntoEntry_alloc e lru free files s f want : SecInv [e] lru free files s -> zat files e = Some f ->
  busy s e -> exists ok held lru' free' files' s',
  (if Z.of_nat (length f) <? want then TryAllocateBlocks kBlockSize E N (want - Z.of_nat (length f)) f s
   else Some (true, f, s)) = Some (ok, held, s') /\
  SecInv [e] lru' free' files' s' /\ zat files' e = Some held /\ view s' e = view s e /\
  others_ok e (lru, files, s) (lru', files', s') /\ same_frame s s' /\
  if ok : bool then want <= Z.of_nat (length held)
  else (exists x, x <> e /\ x ∈ lru' /\ busy s' x) \/ N < want.
Proof.
  intros H Hf Hb. destruct (Z.ltb_spec (Z.of_nat (length f)) want) as [Hlt|Hge].
  - destruct (TryAllocateBlocks_sec (want - Z.of_nat (length f)) e f lru free files s H Hf Hb ltac:(lia))
      as (ok & held & lru' & free' & files' & s' & -> & H1 & Hf1 & V1 & _ & O1 & F1 & R1).
    exists ok, held, lru', free', files', s'. do 6 (split; [done|]). destruct ok; [lia|].
    destruct R1 as (Hlt' & -> & Hall). destruct (starved e held lru' files' s' H1 Hf1 Hall); [by left|right; lia].
  - exists true, f, lru, free, files, s. split; [done|]. split; [done|]. split; [done|]. by split.
Qed.

Lemma PutIntoEntry_sec e ts value lru free files s en : SecInv [] lru free files s -> zat (directory s) e = Some en ->
  disabled s = false -> flags en = flags_of 0 true -> Z.of_nat (length value) < 2 ^ 31 ->
  exists lru' free' files' s' r, PutIntoEntry kBlockSize E N e ts value s = Some (s', r) /\
  SecInv [] lru' free' files' s' /\ others_ok e (lru, files, s) (lru', files', s') /\ same_frame s s' /\
  put_outcome e value (hash_bytes en) r (lru', files', s').
Proof.
  intros H Hen Hd Hfl Hv. assert (Hr : 0 <= e < E) by (rewrite <-(si_dir _ _ _ _ _ H); by eapply zat_Some).
  destruct (file_get _ _ _ _ _ e H Hr) as [f Hf]. unfold PutIntoEntry. rewrite (Hen : EntryAt e s = Some en).
  cbn [mbind option_bind]. rewrite (creating_flags _ _ _ Hfl), Hd, (open_count_flags _ _ _ Hfl). cbn [negb Z.eqb].
  rewrite (BlockList_sec e en f [] [] _ _ _ _ H); [|apply not_elem_of_nil|done|done]. cbn [mbind option_bind app].
  set (want := DataBlocks (Z.of_nat (length value))).
  destruct (DataBlocks_ceil (Z.of_nat (length value)) ltac:(lia)) as (Hw & _).
  assert (Hbe : busy s e) by (apply (flags_busy s e en); [done|rewrite Hfl; by unfold flags_of]).
  destruct (PutIntoEntry_alloc e lru free files s f want (open_hole e _ _ _ _ _ H) Hf Hbe)
    as (ok & held & lru1 & free1 & files1 & s1 & -> & H1 & Hf1 & V1 & O1 & F1 & R1). cbn [mbind option_bind].
  assert (Hen1 : exists en1, zat (directory s1) e = Some en1 /\ core en1 = core en).
  { destruct (view_get _ _ _ _ _ e H1 Hr) as (en1 & _ & Hen1 & Hv1). exists en1. split; [done|].
    rewrite V1 in Hv1. unfold view in Hv1. rewrite Hen in Hv1. cbn in Hv1. congruence. }
  destruct Hen1 as (en1 & Hen1 & Hc1). injection Hc1 as Eh Es Ef.
  destruct ok; cbn [negb].
  - destruct (trim_sec want e held lru1 free1 files1 s1 H1 Hf1 ltac:(unfold want in *; lia))
      as (free2 & files2 & s2 & Htrim & H2 & Hf2 & V2 & X2 & F2). cbn [PopExtras]. unfold PopExtras.
    rewrite Htrim. cbn [mbind option_bind]. destruct (view_get _ _ _ _ _ e H2 Hr) as (en2 & _ & Hen2 & Hv2).
    rewrite V2 in Hv2. unfold view in Hv2. rewrite Hen1 in Hv2. injection Hv2 as Eh2 _ Ef2.
    set (blocks := take (Z.to_nat want) held) in *.
    assert (Hlb : Z.of_nat (length blocks) = want) by (unfold blocks, want in *; rewrite length_take; lia).
    destruct (commit_sec e blocks (Z.of_nat (length value)) ts lru1 free2 files2 s2 en2 H2 Hen2 Hf2 Hlb)
      as (s3 & Hcommit & H3 & V3 & F3).
    apply bind_Some in Hcommit as (a & -> & Hcommit). cbn [mbind option_bind].
    apply bind_Some in Hcommit as (a2 & -> & Hcommit). cbn [mbind option_bind].
    apply bind_Some in Hcommit as (a3 & -> & Hcommit). cbn [mbind option_bind].
    rewrite Hcommit. cbn [mbind option_bind]. eexists _, _, _, _, _. split; [done|]. split; [exact H3|]. split; [|split; [by do 2 (etrans; [done|])|]].
    + etrans; [exact O1|]. intros x Hx. left. unfold stable; cbn [fst snd].
      rewrite V3, decide_False, V2, X2, elem_of_cons, elem_of_remove_entry by done. tauto.
    + exists blocks. split; [done|]. split; [done|]. split; [done|].
      cbn [fst snd]. rewrite V3, decide_True, <-Eh2, Eh, <-Ef2, Ef, Hfl by done. split; [done|left].
  - destruct (release_sec e held lru1 free1 files1 s1 en1 true H1 Hen1 ltac:(congruence) Hf1)
      as (s3 & free3 & files3 & Hrel & H3 & Hf3 & V3 & X3 & F3).
    apply bind_Some in Hrel as (a & -> & Hrel). cbn [mbind option_bind].
    apply bind_Some in Hrel as (a2 & -> & Hrel). cbn [mbind option_bind].
    rewrite Hrel. cbn [mbind option_bind].
    eexists _, _, _, _, _. split; [done|]. split; [exact H3|]. split; [|split; [by etrans|]].
    + etrans; [exact O1|]. intros x Hx. left. unfold stable; cbn [fst snd].
      rewrite V3, decide_False, X3, elem_of_remove_entry by done. tauto.
    + split; [exact Hf3|]. cbn [fst snd]. rewrite V3, decide_True, elem_of_remove_entry by done. split; [done|].
      split; [naive_solver|]. destruct R1 as [(x & Hx & Hxl & Hbx)|]; [left|by right].
      pose proof (lru_nonneg _ _ _ (si_lru _ _ _ _ _ H1) Hxl) as Hxr. rewrite (si_dir _ _ _ _ _ H1) in Hxr.
      destruct (view_get _ _ _ _ _ x H1 Hxr) as (enx & _ & _ & Hvx). exists x, (core enx). split; [done|].
      rewrite V3, decide_False by done. split; [done|]. intros E0. apply Hbx. rewrite Hvx. cbn. by f_equal.
Qed.

(** ** Deletions and reads *)

Lemma DeleteEntry_sec e lru free files s en : SecInv [] lru free files s -> zat (directory s) e = Some en ->
  disabled s = false -> flags en = flags_of 0 true -> exists free' files' s',
  DeleteEntry_locked kBlockSize N e s = Some (s', Done) /\
  SecInv [] (remove_entry e lru) free' files' s' /\ others_ok e (lru, files, s) (remove_entry e lru, files', s') /\
  same_frame s s' /\ zat files' e = Some [] /\ view s' e = Some free_core.
Proof.
  intros H Hen Hd Hfl. assert (Hr : 0 <= e < E) by (rewrite <-(si_dir _ _ _ _ _ H); by eapply zat_Some).
  destruct (file_get _ _ _ _ _ e H Hr) as [f Hf]. unfold DeleteEntry_locked. rewrite (Hen : EntryAt e s = Some en).
  cbn [mbind option_bind]. rewrite Hd, (BlockList_sec e en f [] [] _ _ _ _ H); [|apply not_elem_of_nil|done|done].
  cbn [mbind option_bind app].
  destruct (release_sec e f lru free files s en true (open_hole e _ _ _ _ _ H) Hen Hfl Hf)
    as (s3 & free3 & files3 & Hrel & H3 & Hf3 & V3 & X3 & F3).
  apply bind_Some in Hrel as (a & -> & Hrel). cbn [mbind option_bind].
  apply bind_Some in Hrel as (a2 & -> & Hrel). cbn [mbind option_bind]. rewrite Hrel. cbn [mbind option_bind].
  exists free3, files3, s3. split; [done|]. split; [done|]. split; [|split; [done|split; [done|by rewrite V3, decide_True]]].
  intros x Hx. left. unfold stable; cbn [fst snd]. rewrite V3, decide_False, X3, elem_of_remove_entry by done. tauto.
Qed.

Lemma same_links_files s s' x en en' : same_but_links s s' -> zat (directory s) x = Some en ->
  zat (directory s') x = Some en' -> first_block en' = first_block en /\ byte_size en' = byte_size en.
Proof.
  intros [] H H'. specialize (sl_entry x). rewrite H, H' in sl_entry. cbn in sl_entry.
  destruct en, en'; cbn in *. by simplify_eq.
Qed.

(** [TouchEntry] on a sector without holes. *)
Lemma Touch_closed ts e lru free files s : SecInv [] lru free files s -> 0 <= e < E -> exists s',
  TouchEntry ts e s = Some s' /\ SecInv [] (e :: remove_entry e lru) free files s' /\
  (forall x, view s' x = view s x) /\ same_frame s s'.
Proof.
  intros H He. destruct (Touch_sec ts e [e] lru free files s (open_hole e _ _ _ _ _ H) He) as (s' & Ht & H1 & V & F);
    [by left|]. exists s'. split; [done|]. split; [|done].
  destruct (view_get _ _ _ _ _ e H He) as (en & _ & Hen & _), (view_get _ _ _ _ _ e H1 He) as (en' & _ & Hen' & _).
  destruct (file_get _ _ _ _ _ e H He) as [f Hf].
  destruct (bk_files _ _ _ _ (si_blocks _ _ _ _ _ H) e en f) as [C L]; [apply not_elem_of_nil|done..|].
  assert (first_block en' = first_block en /\ byte_size en' = byte_size en /\ block_successors_ s' = block_successors_ s)
    as (E1 & E2 & E3).
  { unfold TouchEntry in Ht.
    destruct (Unlink_ok lru s e (si_lru _ _ _ _ _ H)) as (s1 & Q1 & L1 & D1); [by rewrite (si_dir _ _ _ _ _ H)|].
    rewrite Q1 in Ht. cbn [mbind option_bind] in Ht. assert (Hl : length (directory s1) = length (directory s)) by apply D1.
    destruct (Insert_ok (remove_entry e lru) s1 e L1) as (s2 & Q2 & L2 & D2);
      [rewrite elem_of_remove_entry; naive_solver|by rewrite Hl, (si_dir _ _ _ _ _ H)|]. rewrite Q2 in Ht. cbn [mbind option_bind] in Ht.
    assert (Hl2 : length (directory s2) = length (directory s1)) by apply D2.
    destruct (zat_is_Some (directory s1) e) as [en1 Hen1]; [by rewrite Hl, (si_dir _ _ _ _ _ H)|].
    destruct (zat_is_Some (directory s2) e) as [en2 Hen2]; [by rewrite Hl2, Hl, (si_dir _ _ _ _ _ H)|].
    destruct (modify_entry_spec e (with_last_use_timestamp_ms ts) s2 en2 Hen2) as (s3 & Hm & D3 & Hs3 & _).
    rewrite Ht in Hm. injection Hm as <-. rewrite D3, decide_True in Hen' by done. injection Hen' as <-.
    destruct (same_links_files _ _ _ _ _ D1 Hen Hen1) as [A1 B1].
    destruct (same_links_files _ _ _ _ _ D2 Hen1 Hen2) as [A2 B2]. cbn. rewrite Hs3. cbn.
    split; [congruence|]. split; [congruence|]. rewrite (sl_succ _ _ D2). apply D1. }
  eapply close_hole; [exact H1|exact Hen'|exact Hf|by rewrite E1, E3|by rewrite E2|].
  intros Hn. exfalso. apply Hn. left.
Qed.

Lemma GetFromEntry_sec e now_ms lru free files s en f o : SecInv [] lru free files s ->
  zat (directory s) e = Some en -> zat files e = Some f -> flags en = flags_of o false -> 0 <= o < 2 ^ 31 - 1 ->
  exists s', GetFromEntry kBlockSize N e now_ms s = Some (s', Later (CopyOut e f 0 0 None)) /\
  SecInv [] (e :: remove_entry e lru) free files s' /\
  (forall x, view s' x = if decide (x = e) then Some (mkCore (hash_bytes en) (byte_size en) (flags_of (o + 1) false))
                         else view s x) /\ same_frame s s'.
Proof.
  intros H Hen Hf Hfl Ho. assert (Hr : 0 <= e < E) by (rewrite <-(si_dir _ _ _ _ _ H); by eapply zat_Some).
  unfold GetFromEntry. rewrite (Hen : EntryAt e s = Some en). cbn [mbind option_bind].
  rewrite (creating_flags _ _ _ Hfl). pose proof (increment_flags en o false Ho Hfl) as Hinc.
  destruct (modify_sec e increment_open_count [] lru free files s en H Hen) as (s1 & -> & H1 & _ & V1 & F1 & _);
    [done|by right|exists (o + 1), false; split; [lia|done]|]. cbn [mbind option_bind].
  destruct (Touch_closed now_ms e lru free files s1 H1 Hr) as (s2 & -> & H2 & V2 & F2). cbn [mbind option_bind].
  destruct (view_get _ _ _ _ _ e H2 Hr) as (en2 & -> & Hen2 & Hv2). cbn [mbind option_bind].
  rewrite (BlockList_sec e en2 f [] [] _ _ _ _ H2); [|apply not_elem_of_nil|done|done]. cbn [mbind option_bind app].
  exists s2. split; [done|]. split; [done|]. split; [|by etrans].
  intros x. rewrite V2, V1. case_decide; [|done]. unfold core. by rewrite Hinc.
Qed.

End sector.
