(* ===== verification/SharedMemRun.v ===== *)
(** * The threads of the shared-memory cache

    The invariant of a sector and of the threads at work in it, and that every
    step of every interleaving keeps it: no [CHECK] or [DCHECK] fails, readers
    and writers never share a block, and an entry that can be read holds the
    value of the last completed [Put] of its key. *)

From S2P Require Import Prelude SharedMemCacheData SharedMemCache SharedMemSector.

Section run.
Variable kBlockSize : Z.
Variables num_sectors_ entries_per_sector_ blocks_per_sector_ : Z.
Hypothesis Hk : 0 < kBlockSize <= 4096.
Hypothesis HS : 0 < num_sectors_.
Hypothesis HE : 0 < entries_per_sector_.
Hypothesis HN : 0 < blocks_per_sector_.

#[local] Abbreviation E := entries_per_sector_.
#[local] Abbreviation N := blocks_per_sector_.
#[local] Abbreviation DataBlocks := (DataBlocksForSize kBlockSize).
#[local] Abbreviation SecInv := (SecInv kBlockSize E N).

(** ** Threads *)

Definition on_entry (p : Pending) : Z :=
  match p with Wait e _ _ | CopyIn e _ _ _ _ | CopyOut e _ _ _ _ => e end.
Definition blocks_of (p : Pending) : list Z :=
  match p with Wait _ _ _ => [] | CopyIn _ l _ _ _ | CopyOut _ l _ _ _ => l end.
Definition is_writer (p : Pending) : Prop :=
  match p with CopyOut _ _ _ _ _ => False | _ => True end.
Definition copies_in (p : Pending) : Prop :=
  match p with CopyIn _ _ _ _ _ => True | _ => False end.
#[local] Instance is_writer_dec p : Decision (is_writer p).
Proof. destruct p; apply _. Defined.

(** The number of threads that read an entry. *)
Definition reads (e : Z) (kv : Z * Pending) : Prop := on_entry kv.2 = e /\ ~ is_writer kv.2.
#[local] Instance reads_dec e kv : Decision (reads e kv).
Proof. unfold reads. apply _. Defined.
Definition readers (e : Z) (pend : gmap Z Pending) : nat := size (filter (reads e) pend).

Lemma readers_insert e t p pend : pend !! t = None ->
  readers e (<[t := p]> pend) = (readers e pend + if decide (reads e (t, p)) then 1 else 0)%nat.
Proof.
  intros H. unfold readers. case_decide as D.
  - rewrite map_filter_insert_True by done. rewrite map_size_insert_None; [lia|].
    apply map_lookup_filter_None. by left.
  - rewrite map_filter_insert_not' by (done || by rewrite H). lia.
Qed.

Lemma readers_delete e t p pend : pend !! t = Some p ->
  readers e pend = (readers e (delete t pend) + if decide (reads e (t, p)) then 1 else 0)%nat.
Proof.
  intros H. rewrite <-(insert_delete_id pend t p H) at 1. rewrite readers_insert; [|apply lookup_delete_eq]. done.
Qed.

Lemma reads_thread e t t' p : reads e (t, p) -> reads e (t', p).
Proof. done. Qed.

Lemma readers_pos e t p pend : pend !! t = Some p -> reads e (t, p) -> (0 < readers e pend)%nat.
Proof. intros H Hr. rewrite (readers_delete e t p pend H), decide_True by done. lia. Qed.

Lemma readers_settle x t r pend :
  (forall p, pend !! t = Some p -> ~ reads x (t, p)) -> (forall p, r = Later p -> ~ reads x (t, p)) ->
  readers x (settle t r pend) = readers x pend.
Proof.
  intros H1 H2. assert (Hd : readers x (delete t pend) = readers x pend).
  { destruct (pend !! t) as [p|] eqn:Ep; [|by rewrite delete_id].
    rewrite (readers_delete x t p pend Ep), decide_False by auto. lia. }
  destruct r as [p| | |]; cbn [settle]; [|done..].
  rewrite <-insert_delete_eq, readers_insert, Hd by apply lookup_delete_eq. rewrite decide_False; [lia|by apply H2].
Qed.

Lemma lookup_settle_ne t t' r pend : t <> t' -> settle t r pend !! t' = pend !! t'.
Proof. intros H. destruct r; cbn; [by rewrite lookup_insert_ne|by rewrite lookup_delete_ne..]. Qed.

Lemma lookup_settle_Some t t' r pend p : settle t r pend !! t' = Some p ->
  (t' = t /\ r = Later p) \/ (t' <> t /\ pend !! t' = Some p).
Proof.
  destruct (decide (t' = t)) as [->|H]; [|rewrite lookup_settle_ne by done; auto].
  destruct r; cbn; [|by rewrite lookup_delete_eq..]. rewrite lookup_insert_eq. intros [= ->]. auto.
Qed.

(** ** The values *)

Definition block_of (bb : list bytes) (b : Z) : bytes := default [] (zat bb b).
Definition content (bb : list bytes) (blocks : list Z) : bytes := concat (map (block_of bb) blocks).
(** The value in the blocks of a file. *)
Definition file_value (bb : list bytes) (size : Z) (blocks : list Z) : bytes :=
  take (Z.to_nat size) (content bb blocks).

Definition bytes_ok (bb : list bytes) : Prop :=
  Z.of_nat (length bb) = N /\ Forall (fun x => Z.of_nat (length x) = kBlockSize) bb.

(** How far a copy of [size] bytes is after [b] blocks. *)
Definition copied (b size : Z) : Z := Z.min (b * kBlockSize) size.

Lemma block_length bb b : bytes_ok bb -> in_sector N b -> exists x,
  zat bb b = Some x /\ block_of bb b = x /\ Z.of_nat (length x) = kBlockSize.
Proof.
  intros [H1 H2] Hb. destruct (zat_is_Some bb b) as [x Hx]; [by rewrite H1|]. exists x. split; [done|].
  split; [by unfold block_of; rewrite Hx|]. unfold zat in Hx. destruct (b <? 0); [done|].
  by apply (Forall_lookup_1 _ _ _ _ H2 Hx).
Qed.

Lemma content_length bb blocks : bytes_ok bb -> Forall (in_sector N) blocks ->
  Z.of_nat (length (content bb blocks)) = Z.of_nat (length blocks) * kBlockSize.
Proof.
  intros Hb H. induction H as [|b l Hin Hl IH]; [done|]. destruct (block_length bb b Hb Hin) as (x & _ & E & L).
  unfold content in *. cbn. rewrite E, length_app. lia.
Qed.

Lemma content_ext bb bb' blocks : (forall b, b ∈ blocks -> zat bb' b = zat bb b) -> content bb' blocks = content bb blocks.
Proof.
  intros H. unfold content. f_equal. apply map_ext_in. intros b Hb. unfold block_of. rewrite H; [done|].
  by apply list_elem_of_In.
Qed.

(** The prefix of the content grows by the next portion. *)
Lemma content_take_S bb blocks i b x : bytes_ok bb -> Forall (in_sector N) blocks ->
  blocks !! i = Some b -> zat bb b = Some x -> forall n : nat, (Z.of_nat n <= kBlockSize) ->
  take (i * Z.to_nat kBlockSize + n) (content bb blocks)
  = take (i * Z.to_nat kBlockSize) (content bb blocks) ++ take n x.
Proof.
  intros Hb H. revert i. induction H as [|b0 l Hin Hl IH]; intros i Hi Hx n Hn; [done|].
  destruct (block_length bb b0 Hb Hin) as (x0 & Hx0 & E0 & L0). unfold content in *. cbn [map concat]. rewrite E0.
  assert (L0' : length x0 = Z.to_nat kBlockSize) by lia. destruct i as [|i]; cbn in Hi.
  - injection Hi as ->. rewrite Hx0 in Hx. injection Hx as ->. cbn. rewrite take_0. cbn.
    rewrite take_app_le by lia. done.
  - rewrite Nat.mul_succ_l, (Nat.add_comm _ (Z.to_nat kBlockSize)), <-Nat.add_assoc, <-L0'.
    rewrite !take_app_add, (L0'), (IH i Hi Hx n Hn), app_assoc. done.
Qed.

(** ** Keys *)

Definition good_hash (h : bytes) : Prop := length h = kHashSize /\ IsAllNil h = false.
Definition home (h : bytes) : list Z := default [] (pos_keys <$> ExtractPosition num_sectors_ E h).

Lemma IsAllNil_nil_hash : IsAllNil nil_hash = true.
Proof. done. Qed.

Lemma ExtractPosition_home h : length h = kHashSize -> exists pos,
  ExtractPosition num_sectors_ E h = Some pos /\ pos_keys pos = home h /\ 0 <= pos_sector pos < num_sectors_ /\
  Forall (fun e => 0 <= e < E) (home h).
Proof.
  intros H. destruct (ExtractPosition_ok num_sectors_ E h HS HE H) as (pos & Hpos & Hs & _ & Hall).
  exists pos. unfold home. by rewrite Hpos.
Qed.

(** ** The invariant *)

(** The value that a reading thread is known to deliver, when that is the question. *)
Variable watched : Z -> option bytes.

(** What a thread may rely on between two steps, whatever the others do. *)
Definition PendOk (bb : list bytes) (c : Core) (t : Z) (p : Pending) : Prop :=
  match p with
  | Wait _ _ after =>
      Z.odd (c_flags c) = true /\
      match after with
      | ThenUpdate _ value => Z.of_nat (length value) < 2 ^ 31
      | ThenReplace _ _ _ => False
      | ThenDelete => True
      end
  | CopyIn _ blocks want b value =>
      let size := Z.of_nat (length value) in
      Z.odd (c_flags c) = true /\ c_size c = size /\ size < 2 ^ 31 /\ want = DataBlocks size /\
      Z.of_nat (length blocks) = want /\ Forall (in_sector N) blocks /\ NoDup blocks /\ 0 <= b <= want /\
      take (Z.to_nat (copied b size)) (content bb blocks) = take (Z.to_nat (copied b size)) value
  | CopyOut _ blocks b pos str =>
      let size := c_size c in
      (forall value, watched t = Some value -> value = file_value bb size blocks) /\
      0 <= size < 2 ^ 31 /\ Z.of_nat (length blocks) = DataBlocks size /\ Forall (in_sector N) blocks /\ NoDup blocks /\
      match str with
      | None => b = 0 /\ pos = 0
      | Some str => Z.of_nat (length str) = size /\ 0 <= b <= Z.of_nat (length blocks) /\ pos = copied b size /\
          take (Z.to_nat pos) str = take (Z.to_nat pos) (content bb blocks)
      end
  end.

Record Base (m : Machine) : Prop := {
  b_dir : Z.of_nat (length (directory (sector m))) = E;
  b_bytes : bytes_ok (block_bytes (sector m));
  b_pend : forall t p, pending m !! t = Some p -> exists c,
    view (sector m) (on_entry p) = Some c /\ PendOk (block_bytes (sector m)) c t p;
  (** one writer per entry, and nobody touches the blocks that a thread writes *)
  b_single : forall t t' p p', t <> t' -> pending m !! t = Some p -> pending m !! t' = Some p' ->
    is_writer p -> is_writer p' -> on_entry p <> on_entry p';
  b_separate : forall t t' p p' x, t <> t' -> pending m !! t = Some p -> pending m !! t' = Some p' ->
    copies_in p -> x ∈ blocks_of p -> x ∉ blocks_of p'
}.

(** An entry of a sector that is not disabled, after [n] steps at most. *)
Record Cell (n : Z) (m : Machine) (e : Z) (c : Core) (f : list Z) : Prop := {
  ce_hash : length (c_hash c) = kHashSize;
  ce_size : 0 <= c_size c < 2 ^ 31;
  ce_flags : exists o w, c_flags c = flags_of o w /\ 0 <= o <= n /\ Z.of_nat (readers e (pending m)) <= o;
  ce_home : IsAllNil (c_hash c) = false -> e ∈ home (c_hash c);
  ce_value : Z.odd (c_flags c) = false -> IsAllNil (c_hash c) = false ->
    last_put m !! c_hash c = Some (file_value (block_bytes (sector m)) (c_size c) f)
}.

(** What a thread may rely on while the sector is not disabled. *)
Definition Linked (c : Core) (f : list Z) (p : Pending) : Prop :=
  match p with
  | Wait _ _ _ => True
  | CopyIn _ blocks _ _ _ => f = blocks /\ c_flags c = flags_of 0 true
  | CopyOut _ blocks _ _ _ => f = blocks
  end.

Record Enabled (n : Z) (lru free : list Z) (files : list (list Z)) (m : Machine) : Prop := {
  en_sec : SecInv [] lru free files (sector m);
  en_cell : forall e c f, view (sector m) e = Some c -> zat files e = Some f -> Cell n m e c f;
  en_unique : forall e e' c c', view (sector m) e = Some c -> view (sector m) e' = Some c' ->
    IsAllNil (c_hash c) = false -> c_hash c = c_hash c' -> e = e';
  en_pend : forall t p, pending m !! t = Some p -> exists c f,
    view (sector m) (on_entry p) = Some c /\ zat files (on_entry p) = Some f /\ Linked c f p
}.

Definition Inv (n : Z) (m : Machine) : Prop :=
  Base m /\ (disabled (sector m) = false -> exists lru free files, Enabled n lru free files m).

Lemma odd_flags o w : Z.odd (flags_of o w) = w.
Proof. unfold flags_of. rewrite Z.odd_add_mul_2 || rewrite Z.add_comm, Z.odd_add_mul_2. by destruct w. Qed.

Lemma creating_odd en : creating en = Z.odd (flags en).
Proof.
  unfold creating. rewrite land_1, Zmod_odd. by destruct (Z.odd (flags en)).
Qed.

Lemma Enabled_mono n n' lru free files m : n <= n' -> Enabled n lru free files m -> Enabled n' lru free files m.
Proof.
  intros Hn [X1 X2 X3 X4]. split; try done. intros e c f Hc Hf. destruct (X2 e c f Hc Hf) as [C1 C2 (o & w & C3 & C4 & C5) C6 C7].
  split; try done. exists o, w. split; [done|]. split; [lia|done].
Qed.

Lemma Inv_mono n n' m : n <= n' -> Inv n m -> Inv n' m.
Proof.
  intros Hn [H1 H2]. split; [done|]. intros Hd. destruct (H2 Hd) as (lru & free & files & X).
  exists lru, free, files. by apply (Enabled_mono n).
Qed.

(** ** Locked sections *)

Lemma cell_flags n m e c f : Cell n m e c f -> exists o w, c_flags c = flags_of o w /\ 0 <= o <= n /\
  Z.of_nat (readers e (pending m)) <= o.
Proof. apply ce_flags. Qed.

(** A thread keeps its entry from being evicted. *)
Lemma pend_flags n m e c f t p : Cell n m e c f -> pending m !! t = Some p -> on_entry p = e ->
  PendOk (block_bytes (sector m)) c t p -> c_flags c <> 0.
Proof.
  intros Hc Hp He Hok. destruct (cell_flags _ _ _ _ _ Hc) as (o & w & Hf & Ho & Hr). intros E0.
  destruct (decide (is_writer p)) as [Hw|Hw].
  - assert (Z.odd (c_flags c) = true) by (destruct p; cbn in *; tauto). by rewrite E0 in *.
  - pose proof (readers_pos e t p (pending m) Hp (conj He Hw)). unfold flags_of in Hf. destruct w; cbn in Hf; lia.
Qed.

Lemma enabled_separate n lru free files m :
  (forall t t' p p', t <> t' -> pending m !! t = Some p -> pending m !! t' = Some p' ->
    is_writer p -> is_writer p' -> on_entry p <> on_entry p') ->
  Enabled n lru free files m -> forall t t' p p' x, t <> t' -> pending m !! t = Some p -> pending m !! t' = Some p' ->
    copies_in p -> x ∈ blocks_of p -> x ∉ blocks_of p'.
Proof.
  intros Hs [X1 X2 X3 X4] t t' p p' x Ht Hp Hp' Hc Hx.
  destruct (X4 t p Hp) as (c & f & Hv & Hf & Hl), (X4 t' p' Hp') as (c' & f' & Hv' & Hf' & Hl').
  destruct (decide (on_entry p = on_entry p')) as [He|He].
  - destruct p as [| e l w b v|]; try done. cbn in *. destruct Hl as [-> Hl].
    destruct (decide (is_writer p')) as [Hw'|Hw']; [exfalso; by apply (Hs t t' _ _ Ht Hp Hp')|].
    destruct (cell_flags _ _ _ _ _ (X2 e c l Hv Hf)) as (o & w' & Ho & _ & Hr).
    pose proof (readers_pos e t' p' (pending m) Hp' (conj (eq_sym He) Hw')).
    rewrite Hl in Ho. unfold flags_of in Ho. destruct w'; cbn in Ho; lia.
  - assert (blocks_of p = f) as <- by (destruct p; [done|symmetry; apply Hl|done]).
    destruct p' as [|e' l' w' b' v'|e' l' b' ps' str']; cbn in *; [by intros ?%not_elem_of_nil|destruct Hl' as [-> _]|subst f'];
      by apply (files_disjoint kBlockSize N [] free files (sector m) _ _ _ _ x (si_blocks _ _ _ _ _ _ _ _ X1) Hf Hf').
Qed.

Section locked.
Context (n : Z) (m : Machine) (lru free : list Z) (files : list (list Z)).
Hypothesis HB : Base m.
Hypothesis HEn : Enabled n lru free files m.
Context (t e : Z) (r : Progress) (s' : Sector) (last' : gmap bytes bytes) (lru' free' : list Z) (files' : list (list Z)).
#[local] Abbreviation m' := (mkMachine s' (settle t r (pending m)) last').
Hypothesis Hsec : SecInv [] lru' free' files' s'.
Hypothesis Hoth : others_ok e (lru, files, sector m) (lru', files', s').
Hypothesis Hbytes : block_bytes s' = block_bytes (sector m).
Hypothesis Hold : forall p, pending m !! t = Some p -> on_entry p = e.
Hypothesis Hnew : forall p, r = Later p -> on_entry p = e.
Hypothesis Hlast : forall x c, x <> e -> view (sector m) x = Some c -> IsAllNil (c_hash c) = false ->
  last' !! c_hash c = last_put m !! c_hash c.

Lemma locked_cell x c f : x <> e -> view s' x = Some c -> zat files' x = Some f -> Cell n m' x c f.
Proof.
  intros Hx Hv Hf. assert (Hrd : readers x (settle t r (pending m)) = readers x (pending m)).
  { apply readers_settle; intros p Hp [H _]; cbn in H; [rewrite (Hold p Hp) in H|rewrite (Hnew p Hp) in H]; by apply Hx. }
  destruct (Hoth x Hx) as [(Ev & Ef & _)|(E0 & Ev & Ef & _)]; cbn [fst snd] in *; rewrite Ev in Hv; rewrite Ef in Hf.
  - destruct (en_cell _ _ _ _ _ HEn x c f Hv Hf) as [C1 C2 C3 C4 C5]. split; cbn [pending last_put sector]; try done.
    + by rewrite Hrd.
    + intros Ho Hn. rewrite Hbytes, (Hlast x c Hx Hv Hn). by apply C5.
  - injection Hv as <-. injection Hf as <-. split; cbn; try done.
    apply fmap_Some in E0 as (c & Hc & Hfl). assert (Hrx : 0 <= x < E).
    { destruct (view_in _ _ _ Hc) as (en & Hen & _). rewrite <-(b_dir _ HB). by eapply zat_Some. }
    destruct (file_get _ _ _ _ _ _ _ _ x (en_sec _ _ _ _ _ HEn) Hrx) as [g Hg].
    destruct (cell_flags _ _ _ _ _ (en_cell _ _ _ _ _ HEn x c g Hc Hg)) as (o & w & Ho & Hn & Hr).
    exists 0, false. split; [done|]. rewrite Hrd. unfold flags_of in Ho. destruct w; cbn in Ho; lia.
Qed.

Lemma locked_stable x c : x <> e -> view s' x = Some c -> IsAllNil (c_hash c) = false -> view (sector m) x = Some c.
Proof.
  intros Hx Hv Hn. destruct (Hoth x Hx) as [(Ev & _)|(_ & Ev & _)]; cbn [snd] in *; rewrite Ev in Hv; [done|].
  by injection Hv as <-.
Qed.

Lemma locked_unique : (forall x c c', x <> e -> view (sector m) x = Some c -> view s' e = Some c' ->
    IsAllNil (c_hash c) = false -> c_hash c <> c_hash c') ->
  forall x y c c', view s' x = Some c -> view s' y = Some c' -> IsAllNil (c_hash c) = false -> c_hash c = c_hash c' -> x = y.
Proof.
  intros H x y c c' Hx Hy Hn Heq. destruct (decide (x = e)) as [->|Hxe], (decide (y = e)) as [->|Hye].
  - done.
  - exfalso. rewrite Heq in Hn. by apply (H y c' c Hye (locked_stable y c' Hye Hy Hn) Hx Hn).
  - exfalso. by apply (H x c c' Hxe (locked_stable x c Hxe Hx Hn) Hy Hn).
  - pose proof Hn as Hn'. rewrite Heq in Hn'.
    by apply (en_unique _ _ _ _ _ HEn x y c c' (locked_stable x c Hxe Hx Hn) (locked_stable y c' Hye Hy Hn')).
Qed.

(** Another thread on another entry notices nothing. *)
Lemma locked_pend t' p : pending m !! t' = Some p -> on_entry p <> e -> exists c f,
  view s' (on_entry p) = Some c /\ zat files' (on_entry p) = Some f /\ PendOk (block_bytes s') c t' p /\ Linked c f p.
Proof.
  intros Hp He. destruct (en_pend _ _ _ _ _ HEn t' p Hp) as (c & f & Hc & Hf & Hl).
  destruct (b_pend _ HB t' p Hp) as (c' & Hc' & Hok). rewrite Hc in Hc'. injection Hc' as <-.
  destruct (Hoth (on_entry p) He) as [(Ev & Ef & _)|(E0 & _)]; cbn [fst snd] in *.
  - exists c, f. rewrite Ev, Ef, Hbytes. done.
  - exfalso. rewrite Hc in E0. injection E0 as E0.
    by apply (pend_flags n m (on_entry p) c f t' p (en_cell _ _ _ _ _ HEn _ c f Hc Hf) Hp eq_refl Hok).
Qed.

Lemma locked_keeps :
  (forall c f, view s' e = Some c -> zat files' e = Some f -> Cell n m' e c f) ->
  (forall x c c', x <> e -> view (sector m) x = Some c -> view s' e = Some c' ->
    IsAllNil (c_hash c) = false -> c_hash c <> c_hash c') ->
  (forall t' p, t' <> t -> pending m !! t' = Some p -> on_entry p = e -> exists c f,
    view s' e = Some c /\ zat files' e = Some f /\ PendOk (block_bytes s') c t' p /\ Linked c f p) ->
  (forall p, r = Later p -> exists c f,
    view s' e = Some c /\ zat files' e = Some f /\ PendOk (block_bytes s') c t p /\ Linked c f p) ->
  (forall p t' p', r = Later p -> is_writer p -> t' <> t -> pending m !! t' = Some p' -> on_entry p' = e -> ~ is_writer p') ->
  Inv n m'.
Proof.
  intros Hcell Huniq Hpe Hown Hsingle.
  assert (Hpend : forall t' p, settle t r (pending m) !! t' = Some p -> exists c f,
    view s' (on_entry p) = Some c /\ zat files' (on_entry p) = Some f /\ PendOk (block_bytes s') c t' p /\ Linked c f p).
  { intros t' p [[-> Hr]|[Ht Hp]]%lookup_settle_Some; [rewrite (Hnew p Hr); by apply Hown|].
    destruct (decide (on_entry p = e)) as [He|He]; [rewrite He; by apply (Hpe t')|by apply (locked_pend t')]. }
  assert (Hen' : Enabled n lru' free' files' m').
  { split; cbn [sector pending].
    - done.
    - intros x c f Hv Hf. destruct (decide (x = e)) as [->|Hx]; [by apply Hcell|by apply locked_cell].
    - by apply locked_unique.
    - intros t' p Hp. destruct (Hpend t' p Hp) as (c & f & H1 & H2 & _ & H3). eauto. }
  assert (Hs : forall t1 t2 p p', t1 <> t2 -> settle t r (pending m) !! t1 = Some p ->
    settle t r (pending m) !! t2 = Some p' -> is_writer p -> is_writer p' -> on_entry p <> on_entry p').
  { intros t1 t2 p p' Ht H1 H2 W1 W2 He.
    apply lookup_settle_Some in H1 as [[-> R1]|[N1 P1]]; apply lookup_settle_Some in H2 as [[-> R2]|[N2 P2]]; [done|..].
    - apply (Hsingle p t2 p' R1 W1 N2 P2); [rewrite <-He; by apply Hnew|done].
    - apply (Hsingle p' t1 p R2 W2 N1 P1); [rewrite He; by apply Hnew|done].
    - by apply (b_single _ HB t1 t2 p p'). }
  split; [|intros _; by exists lru', free', files'].
  split; cbn [sector pending].
  - apply Hsec.
  - rewrite Hbytes. apply HB.
  - intros t' p Hp. destruct (Hpend t' p Hp) as (c & f & H1 & _ & H2 & _). eauto.
  - done.
  - by apply (enabled_separate n lru' free' files' m').
Qed.

End locked.

(** *** A writer that is alone on its entry *)

Section writer.
Context (n : Z) (m : Machine) (lru free : list Z) (files : list (list Z)).
Hypothesis HB : Base m.
Hypothesis HEn : Enabled n lru free files m.
Context (t e deadline : Z) (a0 : AfterWait) (en : CacheEntry).
Hypothesis Hp : pending m !! t = Some (Wait e deadline a0).
Hypothesis Hen : zat (directory (sector m)) e = Some en.
Hypothesis Hfl : flags en = flags_of 0 true.

Lemma writer_range : 0 <= e < E.
Proof. rewrite <-(b_dir _ HB). by eapply zat_Some. Qed.

Lemma writer_cell : exists f, zat files e = Some f /\ Cell n m e (core en) f.
Proof.
  destruct (file_get _ _ _ _ _ _ _ _ e (en_sec _ _ _ _ _ HEn) writer_range) as [f Hf]. exists f. split; [done|].
  apply (en_cell _ _ _ _ _ HEn); [|done]. unfold view. by rewrite Hen.
Qed.

Lemma writer_no_readers : readers e (pending m) = 0%nat.
Proof.
  destruct writer_cell as (f & _ & Hc). destruct (cell_flags _ _ _ _ _ Hc) as (o & w & Ho & _ & Hr). cbn in Ho.
  rewrite Hfl in Ho. unfold flags_of in Ho. destruct w; cbn in Ho; lia.
Qed.

Lemma writer_alone t' p : t' <> t -> pending m !! t' = Some p -> on_entry p <> e.
Proof.
  intros Ht Hp' He. destruct (decide (is_writer p)) as [Hw|Hw].
  - apply (b_single _ HB t t' _ p (not_eq_sym Ht) Hp Hp'); done.
  - pose proof (readers_pos e t' p (pending m) Hp' (conj He Hw)). rewrite writer_no_readers in *. lia.
Qed.

Lemma writer_readers r : (forall p, r = Later p -> is_writer p) -> readers e (settle t r (pending m)) = 0%nat.
Proof.
  intros Hr. rewrite readers_settle; [apply writer_no_readers| |].
  - intros p. rewrite Hp. intros [= <-] [_ H]. by apply H.
  - intros p Hrp [_ H]. by apply H, Hr.
Qed.

Context (last' : gmap bytes bytes).
Hypothesis Hlast : forall x c, x <> e -> view (sector m) x = Some c -> IsAllNil (c_hash c) = false ->
  last' !! c_hash c = last_put m !! c_hash c.

(** The entry is still being written, or is free. *)
Lemma writer_keeps r s' lru' free' files' c' f' :
  SecInv [] lru' free' files' s' -> others_ok e (lru, files, sector m) (lru', files', s') ->
  block_bytes s' = block_bytes (sector m) -> view s' e = Some c' -> zat files' e = Some f' ->
  length (c_hash c') = kHashSize -> 0 <= c_size c' < 2 ^ 31 -> 
  c_flags c' = flags_of 0 true \/ (c_flags c' = 0 /\ IsAllNil (c_hash c') = true) ->
  (IsAllNil (c_hash c') = false -> e ∈ home (c_hash c')) ->
  (forall x c, x <> e -> view (sector m) x = Some c -> IsAllNil (c_hash c) = false -> c_hash c <> c_hash c') ->
  (forall p, r = Later p -> on_entry p = e /\ is_writer p /\ PendOk (block_bytes s') c' t p /\ Linked c' f' p) ->
  0 <= n -> Inv n (mkMachine s' (settle t r (pending m)) last').
Proof.
  intros Hsec Hoth Hbytes Hv Hf Hlen Hsize Hflags Hhome Huniq Hr Hn.
  apply (locked_keeps n m lru free files HB HEn t e r s' last' lru' free' files'); try done.
  - intros p. rewrite Hp. by intros [= <-].
  - intros p Hrp. by apply Hr.
  - intros c f Hc' Hf'. rewrite Hv in Hc'. rewrite Hf in Hf'. injection Hc' as <-. injection Hf' as <-.
    split; cbn [pending]; try done.
    + exists 0, (Z.odd (c_flags c')). rewrite writer_readers by (intros p Hrp; by apply Hr).
      split; [|lia]. by destruct Hflags as [->|[-> _]].
    + intros Ho Hn'. destruct Hflags as [E1|[_ E1]]; [by rewrite E1 in Ho|congruence].
  - intros x c c2 Hx Hc Hc2 Hnil. rewrite Hv in Hc2. injection Hc2 as <-. by apply (Huniq x).
  - intros t' p Ht Hp' He. by destruct (writer_alone t' p Ht Hp').
  - intros p Hrp. exists c', f'. destruct (Hr p Hrp) as (_ & _ & ? & ?). done.
  - intros p t' p' _ _ Ht Hp' He. by destruct (writer_alone t' p' Ht Hp').
Qed.

Lemma put_keeps lru1 files1 s1 free1 en1 ts value : 0 <= n ->
  SecInv [] lru1 free1 files1 s1 -> others_ok e (lru, files, sector m) (lru1, files1, s1) -> same_frame (sector m) s1 ->
  disabled (sector m) = false -> zat (directory s1) e = Some en1 -> flags en1 = flags_of 0 true ->
  Z.of_nat (length value) < 2 ^ 31 -> length (hash_bytes en1) = kHashSize ->
  (IsAllNil (hash_bytes en1) = false -> e ∈ home (hash_bytes en1)) ->
  (forall x c, x <> e -> view (sector m) x = Some c -> IsAllNil (c_hash c) = false -> c_hash c <> hash_bytes en1) ->
  exists s' r lru' files', PutIntoEntry kBlockSize E N e ts value s1 = Some (s', r) /\
    Inv n (mkMachine s' (settle t r (pending m)) last') /\ same_frame (sector m) s' /\
    others_ok e (lru, files, sector m) (lru', files', s') /\
    put_outcome kBlockSize N e value (hash_bytes en1) r (lru', files', s').
Proof.
  intros Hn H1 O1 F1 Hd Hen1 Hfl1 Hv Hlen Hhome Huniq.
  destruct (PutIntoEntry_sec kBlockSize E N Hk HE HN e ts value lru1 free1 files1 s1 en1 H1 Hen1)
    as (lru' & free' & files' & s' & r & -> & H2 & O2 & F2 & Hout); [by rewrite (sf_disabled _ _ F1)|done|done|].
  exists s', r, lru', files'. split; [done|]. assert (F : same_frame (sector m) s') by by etrans.
  assert (O : others_ok e (lru, files, sector m) (lru', files', s')) by by etrans.
  split; [|by split]. destruct r as [p| | |]; cbn in Hout; [|destruct Hout as (Hf' & Hv' & _)|done..].
  - destruct Hout as (blocks & -> & Hlb & Hf' & Hv' & _).
    destruct (file_nodup kBlockSize N Hk _ _ _ _ _ _ (si_blocks _ _ _ _ _ _ _ _ H2) Hf') as [Hnd Hin].
    apply NoDup_app in Hnd as [Hnd _].
    eapply writer_keeps; [exact H2|exact O|apply F|exact Hv'|exact Hf'|done|cbn; lia|by left|done|done| |done].
    intros p [= <-]. split; [done|]. split; [done|]. split; [|done]. cbn.
    split; [done|]. split; [done|]. split; [done|]. split; [done|]. split; [done|]. split; [done|]. split; [done|].
    split; [lia|]. unfold copied. by rewrite Z.min_l by lia.
  - eapply writer_keeps; [exact H2|exact O|apply F|exact Hv'|exact Hf'|done|cbn; lia|by right|done| |done|done].
    intros x c _ _ Hc. cbn. intros E0. rewrite E0 in Hc. done.
Qed.

Definition after_ok (after : AfterWait) : Prop :=
  match after with
  | ThenUpdate _ value => Z.of_nat (length value) < 2 ^ 31
  | ThenReplace raw_hash _ value => Z.of_nat (length value) < 2 ^ 31 /\ length raw_hash = kHashSize /\
      e ∈ home raw_hash /\ forall x c, x <> e -> view (sector m) x = Some c -> c_hash c <> raw_hash
  | ThenDelete => True
  end.

Definition resume_outcome (after : AfterWait) (r : Progress) (y : Snap) : Prop :=
  match after with
  | ThenUpdate _ value => put_outcome kBlockSize N e value (hash_bytes en) r y
  | ThenReplace raw_hash _ value => put_outcome kBlockSize N e value raw_hash r y
  | ThenDelete => r = Done /\ view y.2 e = Some free_core
  end.

Lemma resume_keeps after : 0 <= n -> disabled (sector m) = false -> after_ok after ->
  exists s' r lru' files', resume kBlockSize E N e after (sector m) = Some (s', r) /\
    Inv n (mkMachine s' (settle t r (pending m)) last') /\ same_frame (sector m) s' /\
    others_ok e (lru, files, sector m) (lru', files', s') /\ resume_outcome after r (lru', files', s').
Proof.
  intros Hn Hd Hok. pose proof (en_sec _ _ _ _ _ HEn) as Hsec. destruct writer_cell as (f & Hf & Hc).
  assert (Hv : view (sector m) e = Some (core en)) by (unfold view; by rewrite Hen).
  destruct after as [ts value|raw_hash ts value|]; cbn [resume resume_outcome after_ok] in *.
  - apply (put_keeps lru files (sector m) free en ts value); try done.
    + apply Hc.
    + intros Hg. by apply (ce_home _ _ _ _ _ Hc).
    + intros x c Hx Hvx Hg Heq. apply Hx. by apply (en_unique _ _ _ _ _ HEn x e c (core en)).
  - destruct Hok as (Hval & Hlen & Hhome & Hfresh). rewrite Hd.
    destruct (modify_sec kBlockSize E N HE HN e (with_hash_bytes raw_hash) [] lru free files (sector m) en Hsec Hen)
      as (s1 & -> & H1 & Hen1 & V1 & F1 & _); [done|by right|exists 0, true; split; [lia|done]|].
    cbn [mbind option_bind]. apply (put_keeps lru files s1 free (with_hash_bytes raw_hash en) ts value); try done.
    + intros x Hx. left. unfold stable; cbn. by rewrite V1, decide_False.
    + intros x c Hx Hvx _. by apply (Hfresh x).
  - destruct (DeleteEntry_sec kBlockSize E N Hk HE HN e lru free files (sector m) en Hsec Hen Hd Hfl)
      as (free' & files' & s' & -> & H2 & O2 & F2 & Hf' & Hv').
    exists s', Done, (remove_entry e lru), files'. split; [done|]. split; [|by split].
    eapply writer_keeps; [exact H2|exact O2|apply F2|exact Hv'|exact Hf'|done|done|by right|done| |done|done].
    intros x c _ _ Hg. cbn. intros E0. by rewrite E0 in Hg.
Qed.

End writer.

(** *** Counters *)

Definition counter (f : SectorStats -> SectorStats) : Prop :=
  forall x, used_entries (f x) = used_entries x /\ used_blocks (f x) = used_blocks x.

Lemma counters : counter put_up /\ counter put_update_up /\ counter put_replace_up /\
  counter put_concurrent_create_up /\ counter put_concurrent_full_set_up /\ counter put_spins_up /\
  counter get_up /\ counter get_hit_up.
Proof. repeat split; cbn; lia. Qed.

Lemma stats_sec f holes lru free files s : counter f -> SecInv holes lru free files s ->
  SecInv holes lru free files (with_sector_stats f s).
Proof.
  intros Hf [H1 [] H3 H4 H5]. split; [|split; try done|done..].
  - apply (lru_ok_ext lru s); [done..|]. cbn. apply Hf.
  - cbn. by rewrite (proj2 (Hf _)).
Qed.

Lemma Base_stats f m h : Base m -> Base (mkMachine (with_sector_stats f (sector m)) (pending m) h).
Proof. intros []. by split. Qed.

Lemma Enabled_stats f n lru free files m : counter f -> Enabled n lru free files m ->
  Enabled n lru free files (mkMachine (with_sector_stats f (sector m)) (pending m) (last_put m)).
Proof.
  intros Hf [H1 H2 H3 H4]. split; try done; [by apply stats_sec|].
  intros e c g Hv Hg. by destruct (H2 e c g Hv Hg).
Qed.

(** *** Waiting for the readers *)

(** A writer that leaves the entry to the readers. *)
Lemma idle_keeps n m lru free files t e g a0 r s' last' : Base m -> Enabled n lru free files m ->
  pending m !! t = Some (Wait e g a0) ->
  SecInv [] lru free files s' -> (forall x, view s' x = view (sector m) x) -> same_frame (sector m) s' ->
  (forall x c, x <> e -> view (sector m) x = Some c -> IsAllNil (c_hash c) = false ->
    last' !! c_hash c = last_put m !! c_hash c) ->
  (forall p, r = Later p -> exists g' after, p = Wait e g' after /\
    forall c, Z.odd (c_flags c) = true -> PendOk (block_bytes s') c t p) ->
  Inv n (mkMachine s' (settle t r (pending m)) last').
Proof.
  intros HB HEn Hp Hsec Hv F Hlast Hr.
  destruct (en_pend _ _ _ _ _ HEn t _ Hp) as (c0 & f0 & Hc0 & Hf0 & _). cbn [on_entry] in Hc0, Hf0.
  destruct (b_pend _ HB t _ Hp) as (c1 & Hc1 & [Hodd _]). cbn [on_entry] in Hc1. rewrite Hc0 in Hc1. injection Hc1 as <-.
  apply (locked_keeps n m lru free files HB HEn t e r s' last' lru free files); try done.
  - by apply same_view_others.
  - apply F.
  - intros p. rewrite Hp. by intros [= <-].
  - intros p Hrp. by destruct (Hr p Hrp) as (g' & after & -> & _).
  - intros c f. rewrite Hv, Hc0, Hf0. intros [= <-] [= <-].
    destruct (en_cell _ _ _ _ _ HEn e c0 f0 Hc0 Hf0) as [C1 C2 C3 C4 C5]. split; cbn [pending]; try done; [|by rewrite Hodd].
    rewrite readers_settle; [done|intros p; rewrite Hp; intros [= <-] [_ H]; by apply H|].
    intros p Hrp [_ H]. destruct (Hr p Hrp) as (g' & after & -> & _). by apply H.
  - intros x c c' Hx Hc. rewrite Hv. intros Hc' Hg Heq. apply Hx. by apply (en_unique _ _ _ _ _ HEn x e c c').
  - intros t' p Ht Hp' He. destruct (en_pend _ _ _ _ _ HEn t' p Hp') as (c & f & Hc & Hf & Hl).
    destruct (b_pend _ HB t' p Hp') as (c' & Hc' & Hok). rewrite He in *. rewrite Hc in Hc'. injection Hc' as <-.
    exists c, f. by rewrite Hv, (sf_bytes _ _ F).
  - intros p Hrp. destruct (Hr p Hrp) as (g' & after & -> & Hpo). exists c0, f0. rewrite Hv. split; [done|]. split; [done|].
    split; [by apply Hpo|done].
  - intros p t' p' _ _ Ht Hp' He Hw. by apply (b_single _ HB t t' _ p' (not_eq_sym Ht) Hp Hp').
Qed.

Lemma wait_keeps n m t e g now a0 after hist : 0 <= n -> Inv n m -> disabled (sector m) = false ->
  pending m !! t = Some (Wait e g a0) ->
  (forall r x c, x <> e -> view (sector m) x = Some c -> IsAllNil (c_hash c) = false ->
    hist r !! c_hash c = last_put m !! c_hash c) ->
  (match after with ThenReplace _ _ _ => c_flags <$> view (sector m) e = Some (flags_of 0 true) | _ => True end) ->
  after_ok m e after ->
  exists s' r, EnsureReady_test kBlockSize E N e g now after (sector m) = Some (s', r) /\
    Inv n (mkMachine s' (settle t r (pending m)) (hist r)).
Proof.
  intros Hn [HB HI] Hd Hp Hhist Hrep Hok. destruct (HI Hd) as (lru & free & files & HEn).
  destruct (b_pend _ HB t _ Hp) as (c & Hv & [Hodd _]). cbn [on_entry] in Hv.
  destruct (view_in _ _ _ Hv) as (en & Hen & ->).
  destruct (en_pend _ _ _ _ _ HEn t _ Hp) as (c & f & Hv' & Hf & _). cbn [on_entry] in Hv', Hf.
  rewrite Hv in Hv'. injection Hv' as <-.
  pose proof (en_cell _ _ _ _ _ HEn e _ f Hv Hf) as Hc. destruct (cell_flags _ _ _ _ _ Hc) as (o & w & Ho & Hon & Hrd).
  rewrite Ho, odd_flags in Hodd. subst w. cbn in Ho.
  unfold EnsureReady_test. rewrite (Hen : EntryAt e (sector m) = Some en). cbn [mbind option_bind].
  rewrite (open_count_flags _ _ _ Ho), Hd. destruct (Z.ltb_spec 0 o) as [Hpos|Hz]; cbn [negb andb].
  2: { assert (o = 0) as -> by lia.
       destruct (resume_keeps n m lru free files HB HEn t e g a0 en Hp Hen Ho (last_put m)) with (after := after)
         as (s' & r & _ & _ & Eq & _); [done..|].
       destruct (resume_keeps n m lru free files HB HEn t e g a0 en Hp Hen Ho (hist r)) with (after := after)
         as (s2 & r2 & _ & _ & Eq2 & HI' & _); [by apply Hhist|done..|].
       exists s', r. split; [done|]. rewrite Eq in Eq2. by injection Eq2 as <- <-. }
  assert (Hspin : counter put_spins_up) by apply counters.
  destruct (g <=? now).
  - eexists _, _. split; [done|].
    eapply (idle_keeps n m lru free files t e g a0); [done..|apply HEn|done|done|by apply Hhist|done].
  - eexists _, _. split; [done|].
    eapply (idle_keeps n m lru free files t e g a0);
      [done..|apply stats_sec; [done|apply HEn]|done|done|by apply Hhist|].
    intros p [= <-]. exists g, after. split; [done|]. intros c Hoc. split; [done|].
    destruct after; [done| |done]. rewrite Hv in Hrep. injection Hrep as Hrep. unfold flags_of in *. cbn in *. lia.
Qed.

(** A thread becomes the writer of an entry. *)
Lemma claim_keeps n m t e g c : Inv n m -> disabled (sector m) = false -> pending m !! t = None ->
  view (sector m) e = Some c -> Z.odd (c_flags c) = false -> exists s1,
  modify_entry e (set_creating true) (sector m) = Some s1 /\
  Inv n (mkMachine s1 (<[t := Wait e g ThenDelete]> (pending m)) (last_put m)) /\ same_frame (sector m) s1 /\
  (forall x, x <> e -> view s1 x = view (sector m) x) /\
  view s1 e = Some (mkCore (c_hash c) (c_size c) (c_flags c + 1)).
Proof.
  intros [HB HI] Hd Ht Hv Hodd. destruct (HI Hd) as (lru & free & files & HEn).
  destruct (view_in _ _ _ Hv) as (en & Hen & ->).
  assert (Hr : 0 <= e < E) by (rewrite <-(b_dir _ HB); by eapply zat_Some).
  destruct (file_get _ _ _ _ _ _ _ _ e (en_sec _ _ _ _ _ HEn) Hr) as [f Hf].
  pose proof (en_cell _ _ _ _ _ HEn e _ f Hv Hf) as Hc. destruct (cell_flags _ _ _ _ _ Hc) as (o & w & Ho & Hon & Hrd).
  rewrite Ho, odd_flags in Hodd. subst w. cbn in Ho.
  destruct (entry_flags _ _ _ _ _ _ _ _ _ _ (en_sec _ _ _ _ _ HEn) Hen) as (o' & w' & Ho' & Hfl').
  assert (o' = o /\ w' = false) as [-> ->].
  { rewrite Ho in Hfl'. unfold flags_of in Hfl'. destruct w'; cbn in Hfl'; [|split; [lia|done]]. exfalso. lia. }
  pose proof (set_creating_flags en o false true Ho' Ho) as Hset.
  destruct (modify_sec kBlockSize E N HE HN e (set_creating true) [] lru free files (sector m) en (en_sec _ _ _ _ _ HEn) Hen)
    as (s1 & -> & H1 & Hen1 & V1 & F1 & _); [done|by right|by exists o, true|].
  exists s1. split; [done|].
  assert (Hv1 : view s1 e = Some (mkCore (hash_bytes en) (byte_size en) (flags_of o true))).
  { rewrite V1, decide_True by done. unfold core. by rewrite Hset. }
  split; [|split; [done|split; [intros x Hx; by rewrite V1, decide_False|]]].
  2: { rewrite Hv1. cbn. rewrite Ho. unfold flags_of. cbn. do 2 f_equal. lia. }
  apply (locked_keeps n m lru free files HB HEn t e (Later (Wait e g ThenDelete)) s1 (last_put m) lru free files); try done.
  - intros x Hx. left. unfold stable; cbn. by rewrite V1, decide_False.
  - apply F1.
  - intros p. by rewrite Ht.
  - by intros p [= <-].
  - intros c f'. rewrite Hv1, Hf. intros [= <-] [= <-]. destruct Hc as [C1 C2 C3 C4 C5]. split; cbn [pending]; try done.
    + exists o, true. split; [done|]. split; [done|]. rewrite readers_settle; [done|by intros p; rewrite Ht|].
      intros p [= <-] [_ H]. by apply H.
    + cbn. by rewrite odd_flags.
  - intros x c c' Hx Hc1. rewrite Hv1. intros [= <-] Hg Heq. apply Hx.
    by apply (en_unique _ _ _ _ _ HEn x e c (core en)).
  - intros t' p Ht' Hp' He. destruct (en_pend _ _ _ _ _ HEn t' p Hp') as (c & f' & Hc' & Hf' & Hl).
    destruct (b_pend _ HB t' p Hp') as (c' & Hc2 & Hok). rewrite He in *. rewrite Hv in Hc', Hc2.
    injection Hc' as <-. injection Hc2 as <-. eexists _, f'. split; [exact Hv1|]. split; [done|].
    rewrite (sf_bytes _ _ F1). destruct p; cbn in Hok |- *; [|destruct Hok as [Hok _]|done];
      rewrite Ho, odd_flags in Hok; [by destruct Hok|done].
  - intros p [= <-]. eexists _, f. split; [exact Hv1|]. split; [done|]. cbn. by rewrite odd_flags.
  - intros p t' p' [= <-] _ Ht' Hp' He Hw. destruct (b_pend _ HB t' p' Hp') as (c' & Hc2 & Hok).
    rewrite He, Hv in Hc2. injection Hc2 as <-.
    assert (Z.odd (c_flags (core en)) = true) by (destruct p'; cbn in *; tauto). cbn in *. by rewrite Ho, odd_flags in *.
Qed.

Lemma ensure_keeps n m t e start now after hist c : 0 <= n -> Inv n m -> disabled (sector m) = false ->
  pending m !! t = None -> view (sector m) e = Some c -> Z.odd (c_flags c) = false ->
  (forall r x c, x <> e -> view (sector m) x = Some c -> IsAllNil (c_hash c) = false ->
    hist r !! c_hash c = last_put m !! c_hash c) ->
  (match after with ThenReplace _ _ _ => c_flags c = 0 | _ => True end) -> after_ok m e after ->
  exists s' r, EnsureReadyForWriting kBlockSize E N e start now after (sector m) = Some (s', r) /\
    Inv n (mkMachine s' (settle t r (pending m)) (hist r)).
Proof.
  intros Hn HI Hd Ht Hv Hodd Hhist Hrep Hok. unfold EnsureReadyForWriting.
  set (g := start + kMaxWaitForReadersUs).
  destruct (claim_keeps n m t e g c HI Hd Ht Hv Hodd) as (s1 & -> & HI1 & F1 & Vx & Ve). cbn [mbind option_bind].
  destruct (wait_keeps n _ t e g now ThenDelete after hist Hn HI1) as (s' & r & Heq & HI'); cbn [sector pending last_put] in *.
  - by rewrite (sf_disabled _ _ F1).
  - by rewrite lookup_insert_eq.
  - intros r x c' Hx Hc'. rewrite Vx in Hc' by done. by apply (Hhist r x).
  - destruct after; try done. rewrite Ve. cbn. by rewrite Hrep.
  - destruct after; try done. destruct Hok as (?&?&?&Hfresh). repeat split; try done.
    intros x c' Hx. cbn [sector]. rewrite Vx by done. by apply Hfresh.
  - exists s', r. split; [done|]. replace (settle t r (pending m)) with (settle t r (<[t := Wait e g ThenDelete]> (pending m)));
      [done|]. destruct r; cbn; [by rewrite insert_insert_eq|by rewrite delete_insert_eq..].
Qed.

(** *** Looking for a key *)

Lemma find_match_ok keys h s : length h = kHashSize -> Z.of_nat (length (directory s)) = E ->
  Forall (fun e => 0 <= e < E) keys -> exists r, find_match keys h s = Some r /\
  match r with
  | Some e => e ∈ keys /\ exists en, EntryAt e s = Some en /\ hash_bytes en = h
  | None => forall e c, e ∈ keys -> view s e = Some c -> c_hash c <> h
  end.
Proof.
  intros Hh Hd H. induction H as [|e keys He Hk' IH]; cbn [find_match].
  { exists None. split; [done|]. by intros e c ?%not_elem_of_nil. }
  destruct (zat_is_Some (directory s) e) as [en Hen]; [by rewrite Hd|].
  rewrite (Hen : EntryAt e s = Some en). cbn [mbind option_bind]. unfold KeyMatch. rewrite Hh. cbn [Nat.eqb kHashSize mbind option_bind].
  case_bool_decide as Hm.
  - exists (Some e). split; [done|]. split; [left|]. by exists en.
  - destruct IH as (r & -> & Hr). exists r. split; [done|]. destruct r as [e'|].
    + destruct Hr as [Hr1 Hr2]. split; [by right|done].
    + intros x c [->|Hx]%elem_of_cons Hv; [|by apply (Hr x)]. unfold view in Hv. rewrite Hen in Hv. injection Hv as <-. done.
Qed.

Lemma find_best_ok keys s : forall best, Z.of_nat (length (directory s)) = E -> Forall (fun e => 0 <= e < E) keys ->
  exists r, find_best keys best s = Some r /\
  match r with
  | Some (e, en) => r = best \/ (e ∈ keys /\ EntryAt e s = Some en /\ Writeable en = true)
  | None => best = None /\ forall e en, e ∈ keys -> EntryAt e s = Some en -> Writeable en = false
  end.
Proof.
  induction keys as [|e keys IH]; intros best Hd H; cbn [find_best].
  { exists best. split; [done|]. destruct best as [[e en]|]; [by left|]. split; [done|]. by intros e en ?%not_elem_of_nil. }
  apply Forall_cons in H as [He H]. destruct (zat_is_Some (directory s) e) as [en Hen]; [by rewrite Hd|].
  rewrite (Hen : EntryAt e s = Some en). cbn [mbind option_bind].
  destruct (IH (if Writeable en && match best with None => true | Some (_, b) => last_use_timestamp_ms en <? last_use_timestamp_ms b end
                then Some (e, en) else best) Hd H) as (r & Heq & Hr). exists r. split; [done|].
  destruct r as [[e' en']|].
  - destruct Hr as [Hr|(H1 & H2 & H3)]; [|right; split; [by right|done]].
    destruct (Writeable en) eqn:W; cbn in Hr; [|by left]. case_match; [|by left]. injection Hr as -> ->.
    right. split; [left|done].
  - destruct Hr as [Hr1 Hr2]. destruct (Writeable en) eqn:W; cbn in Hr1.
    + destruct best as [[b1 b2]|]; [by case_match|done].
    + split; [done|]. intros x y [->|Hx]%elem_of_cons Hy; [|by apply (Hr2 x)]. rewrite (Hen : EntryAt e s = Some en) in Hy. by injection Hy as <-.
Qed.

(** *** [Put] *)

Lemma Inv_stats f n m : counter f -> Inv n m -> Inv n (mkMachine (with_sector_stats f (sector m)) (pending m) (last_put m)).
Proof.
  intros Hf [HB HI]. split; [by apply Base_stats|]. intros Hd. destruct (HI Hd) as (lru & free & files & HEn).
  exists lru, free, files. by apply Enabled_stats.
Qed.

Lemma Inv_done n m t s : pending m !! t = None -> Inv n (mkMachine s (pending m) (last_put m)) ->
  Inv n (mkMachine s (settle t Done (pending m)) (last_put m)).
Proof. intros Ht H. cbn [settle]. by rewrite delete_id. Qed.

Lemma PutRawHash_keeps n m t h ts value start now : 0 <= n -> Inv n m -> pending m !! t = None -> good_hash h ->
  Z.of_nat (length value) < 2 ^ 31 -> exists s' r,
  PutRawHash kBlockSize num_sectors_ E N h ts value start now (sector m) = Some (s', r) /\
  Inv n (mkMachine s' (settle t r (pending m)) (last_put m)).
Proof.
  intros Hn HI Ht [Hh Hnil] Hv. assert (HI0 : Inv n (mkMachine (sector m) (pending m) (last_put m))) by by destruct m.
  destruct counters as (C1 & C2 & C3 & C4 & C5 & _). unfold PutRawHash.
  case_match; [exists (sector m), Done; split; [done|by apply Inv_done]|].
  destruct (ExtractPosition_home h Hh) as (pos & -> & Hpos & _ & Hkeys). cbn [mbind option_bind]. rewrite Hpos.
  destruct (disabled (sector m)) eqn:Hd; [exists (sector m), Done; split; [done|by apply Inv_done]|].
  set (s1 := with_sector_stats put_up (sector m)). pose proof (Inv_stats put_up n m C1 HI) as HI1. fold s1 in HI1.
  destruct (find_match_ok (home h) h s1 Hh (b_dir _ (proj1 HI1)) Hkeys) as (r1 & -> & Hr1). cbn [mbind option_bind].
  destruct r1 as [e|].
  - destruct Hr1 as [He (en & Hen & Hhash)]. rewrite Hen. cbn [mbind option_bind]. rewrite creating_odd.
    destruct (Z.odd (flags en)) eqn:Hodd; cbn [negb].
    + eexists _, Done. split; [done|]. apply Inv_done; [done|]. by apply (Inv_stats _ n _ C4 HI1).
    + apply (ensure_keeps n (mkMachine (with_sector_stats put_update_up s1) (pending m) (last_put m)) t e start now
        (ThenUpdate ts value) (fun _ => last_put m) (core en)); try done.
      * by apply (Inv_stats _ n _ C2 HI1).
      * unfold view. cbn [sector]. by rewrite (Hen : zat (directory (with_sector_stats put_update_up s1)) e = Some en).
  - destruct (find_best_ok (home h) s1 None (b_dir _ (proj1 HI1)) Hkeys) as (r2 & -> & Hr2). cbn [mbind option_bind].
    destruct r2 as [[e en]|].
    2: { eexists _, Done. split; [done|]. apply Inv_done; [done|]. by apply (Inv_stats _ n _ C5 HI1). }
    destruct Hr2 as [|(He & Hen & Hw)]; [done|].
    set (s2 := if negb _ || _ then _ else _).
    assert (HI2 : Inv n (mkMachine s2 (pending m) (last_put m)) /\ disabled s2 = disabled s1 /\ directory s2 = directory s1).
    { unfold s2. case_match; [|done]. split; [|done]. by apply (Inv_stats _ n _ C3 HI1). }
    destruct HI2 as (HI2 & Hd2 & Hdir2). destruct (proj2 HI1 Hd) as (lru & free & files & HEn).
    assert (Hfl : flags en = 0).
    { rewrite (entry_writeable _ _ _ _ _ _ _ _ _ _ (en_sec _ _ _ _ _ HEn) Hen) in Hw. by apply bool_decide_eq_true in Hw. }
    apply (ensure_keeps n (mkMachine s2 (pending m) (last_put m)) t e start now
      (ThenReplace h ts value) (fun _ => last_put m) (core en)); try done; cbn [sector].
    + by rewrite Hd2.
    + unfold view. rewrite Hdir2. by rewrite (Hen : zat (directory s1) e = Some en).
    + cbn. by rewrite Hfl.
    + split; [done|]. split; [done|]. split; [done|]. intros x c Hx Hvx Heq. cbn [sector] in Hvx.
      unfold view in Hvx. rewrite Hdir2 in Hvx. apply (Hr1 x c); [|exact Hvx|done].
      destruct (view_in _ _ _ Hvx) as (en' & Hen' & ->).
      assert (Hrx : 0 <= x < E) by (rewrite <-(b_dir _ (proj1 HI1)); by eapply zat_Some).
      destruct (file_get _ _ _ _ _ _ _ _ x (en_sec _ _ _ _ _ HEn) Hrx) as [g Hg].
      rewrite <-Heq. apply (ce_home _ _ _ _ _ (en_cell _ _ _ _ _ HEn x _ g Hvx Hg)). by rewrite Heq.
Qed.

(** The string a reader delivers. *)
Definition delivers (m : Machine) (e : Z) (blocks : list Z) (value : bytes) : Prop :=
  exists c, view (sector m) e = Some c /\ value = file_value (block_bytes (sector m)) (c_size c) blocks.

(** *** [Get] *)

(** A reader is let in. *)
Lemma read_keeps n m t e now_ms en : watched t = None -> 0 <= n < 2 ^ 31 - 1 -> Inv n m -> disabled (sector m) = false ->
  pending m !! t = None -> zat (directory (sector m)) e = Some en -> Z.odd (flags en) = false -> exists s' f,
  GetFromEntry kBlockSize N e now_ms (sector m) = Some (s', Later (CopyOut e f 0 0 None)) /\
  Inv (n + 1) (mkMachine s' (<[t := CopyOut e f 0 0 None]> (pending m)) (last_put m)) /\ same_frame (sector m) s' /\
  (IsAllNil (hash_bytes en) = false ->
     last_put m !! hash_bytes en = Some (file_value (block_bytes (sector m)) (byte_size en) f)) /\
  c_size <$> view s' e = Some (byte_size en).
Proof.
  intros Hwt Hn [HB HI] Hd Ht Hen Hodd. destruct (HI Hd) as (lru & free & files & HEn).
  assert (Hv : view (sector m) e = Some (core en)) by (unfold view; by rewrite Hen).
  assert (Hr : 0 <= e < E) by (rewrite <-(b_dir _ HB); by eapply zat_Some).
  destruct (file_get _ _ _ _ _ _ _ _ e (en_sec _ _ _ _ _ HEn) Hr) as [f Hf].
  pose proof (en_cell _ _ _ _ _ HEn e _ f Hv Hf) as Hc. destruct (cell_flags _ _ _ _ _ Hc) as (o & w & Ho & Hon & Hrd).
  cbn in Ho. rewrite Ho, odd_flags in Hodd. subst w.
  destruct (GetFromEntry_sec kBlockSize E N Hk HE HN e now_ms lru free files (sector m) en f o (en_sec _ _ _ _ _ HEn) Hen Hf Ho)
    as (s' & -> & H1 & V & F); [lia|].
  assert (Hv' : view s' e = Some (mkCore (hash_bytes en) (byte_size en) (flags_of (o + 1) false))) by by rewrite V, decide_True.
  exists s', f. split; [done|]. pose proof Hc as [Q1 Q2 Q3 Q4 Q5]. cbn in Q5.
  rewrite Ho, odd_flags in Q5. split; [|split; [done|split; [by apply Q5|by rewrite Hv']]].
  apply (locked_keeps (n + 1) m lru free files HB (Enabled_mono n (n + 1) _ _ _ _ ltac:(lia) HEn) t e
    (Later (CopyOut e f 0 0 None)) s' (last_put m) (e :: remove_entry e lru) free files); try done.
  - intros x Hx. left. unfold stable; cbn [fst snd]. rewrite V, decide_False, elem_of_cons, elem_of_remove_entry by done. tauto.
  - apply F.
  - intros p. by rewrite Ht.
  - by intros p [= <-].
  - intros c f'. rewrite Hv', Hf. intros [= <-] [= <-]. split; cbn; try done.
    + exists (o + 1), false. split; [done|]. split; [lia|].
      rewrite readers_insert, decide_True by (done || by split; [|intros []]). lia.
    + intros _ Hg. rewrite (sf_bytes _ _ F). by apply Q5.
  - intros x c c' Hx Hc1. rewrite Hv'. intros [= <-] Hg Heq. apply Hx. by apply (en_unique _ _ _ _ _ HEn x e c (core en)).
  - intros t' p Ht' Hp' He. destruct (en_pend _ _ _ _ _ HEn t' p Hp') as (c & f' & Hc' & Hf' & Hl).
    destruct (b_pend _ HB t' p Hp') as (c' & Hc2 & Hok). rewrite He in *. rewrite Hv in Hc', Hc2.
    injection Hc' as <-. injection Hc2 as <-. eexists _, f'. split; [exact Hv'|]. split; [done|].
    rewrite (sf_bytes _ _ F). destruct p; cbn in Hok |- *; [|destruct Hok as [Hok _]|done];
      rewrite Ho, odd_flags in Hok; [by destruct Hok|done].
  - intros p [= <-]. eexists _, f. split; [exact Hv'|]. split; [done|]. split; [|done]. cbn.
    destruct (file_nodup kBlockSize N Hk _ _ _ _ _ _ (si_blocks _ _ _ _ _ _ _ _ H1) Hf) as [Hnd Hin].
    apply NoDup_app in Hnd as [Hnd _]. split; [by rewrite Hwt|]. split; [exact Q2|]. split; [|done].
    by apply (bk_files _ _ _ _ _ _ (si_blocks _ _ _ _ _ _ _ _ (en_sec _ _ _ _ _ HEn)) e en f (not_elem_of_nil e)).
  - by intros p t' p' [= <-] [].
Qed.

(** The entries of a key are all at its positions. *)
Lemma not_home n m h e c : Inv n m -> disabled (sector m) = false -> IsAllNil h = false ->
  view (sector m) e = Some c -> c_hash c = h -> e ∈ home h.
Proof.
  intros [HB HI] Hd Hg Hv Hc. destruct (HI Hd) as (lru & free & files & HEn). destruct (view_in _ _ _ Hv) as (en & Hen & ->).
  assert (Hr : 0 <= e < E) by (rewrite <-(b_dir _ HB); by eapply zat_Some).
  destruct (file_get _ _ _ _ _ _ _ _ e (en_sec _ _ _ _ _ HEn) Hr) as [f Hf].
  rewrite <-Hc. apply (ce_home _ _ _ _ _ (en_cell _ _ _ _ _ HEn e _ f Hv Hf)). by rewrite Hc.
Qed.

(** No entry of the key can be read. *)
Definition unreadable (s : Sector) (h : bytes) : Prop :=
  forall e c, view s e = Some c -> c_hash c = h -> Z.odd (c_flags c) = true.

Lemma Get_keeps n m t h now_ms : watched t = None -> 0 <= n < 2 ^ 31 - 1 -> Inv n m -> pending m !! t = None -> good_hash h ->
  exists s' r, Get kBlockSize num_sectors_ E N h now_ms (sector m) = Some (s', r) /\
  Inv (n + 1) (mkMachine s' (settle t r (pending m)) (last_put m)) /\
  match r with
  | Later p => exists e f v, p = CopyOut e f 0 0 None /\ last_put m !! h = Some v /\
      delivers (mkMachine s' (settle t r (pending m)) (last_put m)) e f v
  | NotFound => disabled (sector m) = true \/ unreadable (sector m) h
  | _ => False
  end.
Proof.
  intros Hwt Hn HI Ht [Hh Hnil]. assert (HI0 : Inv n (mkMachine (sector m) (pending m) (last_put m))) by by destruct m.
  assert (Hdel : delete t (pending m) = pending m) by by rewrite delete_id.
  destruct counters as (_ & _ & _ & _ & _ & _ & C & _). unfold Get.
  destruct (ExtractPosition_home h Hh) as (pos & -> & Hpos & _ & Hkeys). cbn [mbind option_bind]. rewrite Hpos.
  destruct (disabled (sector m)) eqn:Hd.
  { exists (sector m), NotFound. split; [done|]. cbn [settle]. rewrite Hdel. split; [apply (Inv_mono n); [lia|done]|by left]. }
  set (s1 := with_sector_stats get_up (sector m)). pose proof (Inv_stats get_up n m C HI) as HI1. fold s1 in HI1.
  assert (Hnot : Inv (n + 1) (mkMachine s1 (settle t NotFound (pending m)) (last_put m))).
  { cbn [settle]. rewrite Hdel. apply (Inv_mono n); [lia|done]. }
  destruct (find_match_ok (home h) h s1 Hh (b_dir _ (proj1 HI1)) Hkeys) as (r1 & -> & Hr1). cbn [mbind option_bind].
  destruct r1 as [e|].
  2: { exists s1, NotFound. split; [done|]. split; [done|]. right. intros e c Hv Hc. exfalso. apply (Hr1 e c); [|done..].
       by apply (not_home n m h e c HI Hd Hnil). }
  destruct Hr1 as [He (en & Hen & Hhash)]. destruct (Z.odd (flags en)) eqn:Hodd.
  - exists s1, NotFound. split; [unfold GetFromEntry; rewrite Hen; cbn [mbind option_bind]; by rewrite creating_odd, Hodd|].
    split; [done|]. right. intros x c Hv Hc. destruct (proj2 HI Hd) as (lru & free & files & HEn).
    assert (Hve : view (sector m) e = Some (core en)) by (unfold view; by rewrite (Hen : zat (directory (sector m)) e = Some en)).
    rewrite (en_unique _ _ _ _ _ HEn x e c (core en) Hv Hve) in Hv; [|by rewrite Hc|by rewrite Hc].
    rewrite Hve in Hv. by injection Hv as <-.
  - destruct (read_keeps n _ t e now_ms en Hwt Hn HI1 Hd Ht Hen Hodd) as (s' & f & Heq & HI' & F & Hlast & Hsz).
    exists s', (Later (CopyOut e f 0 0 None)). split; [done|]. split; [done|]. exists e, f.
    eexists. split; [done|]. rewrite <-Hhash. split; [by apply Hlast; rewrite Hhash|].
    apply fmap_Some in Hsz as (c & Hc & Hsz). exists c. split; [done|]. cbn [sector].
    rewrite Hsz, (sf_bytes _ _ F). done.
Qed.

(** *** [Delete] *)

(** Nothing can be read under a key that is forgotten. *)
Lemma Inv_forget n m h : Inv n m ->
  (disabled (sector m) = false -> forall e c, view (sector m) e = Some c -> c_hash c = h -> Z.odd (c_flags c) = true) ->
  Inv n (mkMachine (sector m) (pending m) (delete h (last_put m))).
Proof.
  intros [[] HI] Hh. split; [by split|]. intros Hd. destruct (HI Hd) as (lru & free & files & [X1 X2 X3 X4]).
  exists lru, free, files. split; try done. intros e c f Hv Hf. destruct (X2 e c f Hv Hf) as [C1 C2 C3 C4 C5].
  split; try done. intros Ho Hn. cbn [last_put]. rewrite lookup_delete_ne; [by apply C5|]. intros ->.
  by rewrite (Hh Hd e c Hv eq_refl) in Ho.
Qed.

Lemma Delete_keeps n m t h start now : 0 <= n -> Inv n m -> pending m !! t = None -> good_hash h -> exists s' r,
  Delete kBlockSize num_sectors_ E N h start now (sector m) = Some (s', r) /\
  Inv n (mkMachine s' (settle t r (pending m)) (match r with Done => delete h (last_put m) | _ => last_put m end)).
Proof.
  intros Hn HI Ht [Hh Hnil]. assert (Hdel : delete t (pending m) = pending m) by by rewrite delete_id.
  unfold Delete. destruct (ExtractPosition_home h Hh) as (pos & -> & Hpos & _ & Hkeys). cbn [mbind option_bind]. rewrite Hpos.
  destruct (disabled (sector m)) eqn:Hd.
  { exists (sector m), Done. split; [done|]. cbn [settle]. rewrite Hdel. apply Inv_forget; [done|]. by rewrite Hd. }
  destruct (find_match_ok (home h) h (sector m) Hh (b_dir _ (proj1 HI)) Hkeys) as (r1 & -> & Hr1). cbn [mbind option_bind].
  pose proof (proj2 HI Hd) as (lru & free & files & HEn). destruct r1 as [e|].
  2: { exists (sector m), Done. split; [done|]. cbn [settle]. rewrite Hdel. apply Inv_forget; [done|].
       intros _ e c Hv Hc. exfalso. apply (Hr1 e c); [|done..].
       destruct (view_in _ _ _ Hv) as (en & Hen & ->).
       assert (Hr : 0 <= e < E) by (rewrite <-(b_dir _ (proj1 HI)); by eapply zat_Some).
       destruct (file_get _ _ _ _ _ _ _ _ e (en_sec _ _ _ _ _ HEn) Hr) as [f Hf].
       rewrite <-Hc. apply (ce_home _ _ _ _ _ (en_cell _ _ _ _ _ HEn e _ f Hv Hf)). by rewrite Hc. }
  destruct Hr1 as [He (en & Hen & Hhash)]. rewrite Hen. cbn [mbind option_bind]. rewrite creating_odd.
  assert (Hv : view (sector m) e = Some (core en)) by (unfold view; by rewrite (Hen : zat (directory (sector m)) e = Some en)).
  assert (Huniq : forall x c, view (sector m) x = Some c -> c_hash c = h -> x = e).
  { intros x c Hx Hc. apply (en_unique _ _ _ _ _ HEn x e c (core en) Hx Hv); [by rewrite Hc|by rewrite Hc]. }
  destruct (Z.odd (flags en)) eqn:Hodd.
  - exists (sector m), Done. split; [done|]. cbn [settle]. rewrite Hdel. apply Inv_forget; [done|].
    intros _ x c Hx Hc. rewrite (Huniq x c Hx Hc), Hv in Hx. by injection Hx as <-.
  - apply (ensure_keeps n m t e start now ThenDelete
      (fun r => match r with Done => delete h (last_put m) | _ => last_put m end) (core en)); try done.
    intros r x c Hx Hvx Hg. destruct r; try done. apply lookup_delete_ne. intros Heq. apply Hx, (Huniq x c Hvx). done.
Qed.

(** *** The steps after a wait or a copy *)

(** A thread finishes in a sector that is disabled: only flags change. *)
Lemma Base_finish m t e f en s' h : Base m -> zat (directory (sector m)) e = Some en ->
  modify_entry e f (sector m) = Some s' -> byte_size (f en) = byte_size en ->
  (forall t' p, t' <> t -> pending m !! t' = Some p -> on_entry p = e -> is_writer p ->
     Z.odd (flags (f en)) = Z.odd (flags en)) ->
  Base (mkMachine s' (delete t (pending m)) h).
Proof.
  intros [B1 B2 B3 B4 B5] Hen Hm Hs Hodd. destruct (modify_entry_spec e f (sector m) en Hen) as (s2 & Hm2 & D & Hs2 & L).
  rewrite Hm in Hm2. injection Hm2 as <-. split; cbn [sector pending].
  - by rewrite L.
  - by rewrite Hs2.
  - intros t' p [Ht Hp]%lookup_delete_Some. destruct (B3 t' p Hp) as (c & Hv & Hok). rewrite Hs2. cbn [block_bytes with_directory].
    destruct (decide (on_entry p = e)) as [He|He].
    + unfold view in *. rewrite D, He, decide_True by done. rewrite He, Hen in Hv. injection Hv as <-.
      eexists. split; [done|]. specialize (Hodd t' p (not_eq_sym Ht) Hp He).
      destruct p; cbn in Hok, Hodd |- *; [rewrite Hodd by done; done| |by rewrite Hs].
      destruct Hok as (?&?&Hok). rewrite Hodd, Hs by done. done.
    + exists c. unfold view in *. by rewrite D, decide_False.
  - intros t1 t2 p p' Ht [_ H1]%lookup_delete_Some [_ H2]%lookup_delete_Some. by apply (B4 t1 t2).
  - intros t1 t2 p p' x Ht [_ H1]%lookup_delete_Some [_ H2]%lookup_delete_Some. by apply (B5 t1 t2).
Qed.

Lemma finish_disabled n m t e f p : Base m -> disabled (sector m) = true -> pending m !! t = Some p -> on_entry p = e ->
  (forall en, byte_size (f en) = byte_size en) ->
  (is_writer p \/ forall en, Z.odd (flags (f en)) = Z.odd (flags en)) -> forall h, exists s',
  modify_entry e f (sector m) = Some s' /\ Inv n (mkMachine s' (delete t (pending m)) h) /\
  same_frame (sector m) s'.
Proof.
  intros HB Hd Hp He Hs Hw h. destruct (b_pend _ HB t p Hp) as (c & Hv & _). rewrite He in Hv.
  destruct (view_in _ _ _ Hv) as (en & Hen & ->).
  destruct (modify_entry_spec e f (sector m) en Hen) as (s2 & Hm2 & D & Hs2 & L).
  exists s2. split; [done|]. split; [|by rewrite Hs2].
  split; [|cbn [sector]; rewrite Hs2; cbn; by rewrite Hd].
  eapply Base_finish; [done|exact Hen|exact Hm2|done|]. intros t' p' Ht Hp' He' Hw'.
  destruct Hw as [Hw|Hw]; [|done]. exfalso. apply (b_single _ HB t t' p p' (not_eq_sym Ht) Hp Hp' Hw Hw'). congruence.
Qed.

Lemma resume_disabled n m t e g a0 after h : Base m -> disabled (sector m) = true ->
  pending m !! t = Some (Wait e g a0) -> exists s',
  resume kBlockSize E N e after (sector m) = Some (s', Done) /\ Inv n (mkMachine s' (delete t (pending m)) h).
Proof.
  intros HB Hd Hp. destruct (finish_disabled n m t e (set_creating false) _ HB Hd Hp eq_refl) with (h := h)
    as (s' & Hm & HI & _); [done|by left|]. exists s'. split; [|done].
  destruct (b_pend _ HB t _ Hp) as (c & Hv & [Hodd _]). cbn [on_entry] in Hv.
  destruct (view_in _ _ _ Hv) as (en & Hen & ->). cbn in Hodd. rewrite <-creating_odd in Hodd.
  destruct after; cbn [resume]; unfold PutIntoEntry, DeleteEntry_locked; rewrite ?(Hen : EntryAt e (sector m) = Some en), ?Hd;
    cbn [mbind option_bind]; rewrite ?Hodd, ?Hd; cbn [negb]; by rewrite Hm.
Qed.

Lemma Wait_keeps n m t e g after now : 0 <= n -> Inv n m -> pending m !! t = Some (Wait e g after) -> exists s' r,
  EnsureReady_test kBlockSize E N e g now after (sector m) = Some (s', r) /\
  Inv n (mkMachine s' (settle t r (pending m)) (record_next (Wait e g after) r (sector m) (last_put m))).
Proof.
  intros Hn HI Hp. pose proof HI as [HB HIe]. destruct (b_pend _ HB t _ Hp) as (c & Hv & Hok). cbn [on_entry] in Hv.
  destruct (view_in _ _ _ Hv) as (en & Hen & ->). destruct (disabled (sector m)) eqn:Hd.
  - destruct (resume_disabled n m t e g after after (record_next (Wait e g after) Done (sector m) (last_put m)) HB Hd Hp)
      as (s' & Heq & HI'). exists s', Done. split; [|done]. unfold EnsureReady_test.
    rewrite (Hen : EntryAt e (sector m) = Some en). cbn [mbind option_bind]. by rewrite Hd, andb_false_r.
  - apply (wait_keeps n m t e g now after after (fun r => record_next (Wait e g after) r (sector m) (last_put m)) Hn HI Hd Hp).
    + intros r x c Hx Hvx Hg. destruct (HIe eq_refl) as (lru & free & files & HEn).
      destruct after; try done. destruct r; try done. cbn [record_next]. apply lookup_delete_ne. intros Heq.
      apply Hx. apply (en_unique _ _ _ _ _ HEn x e c (core en) Hvx Hv Hg). rewrite <-Heq. unfold entry_hash.
      by rewrite (Hen : EntryAt e (sector m) = Some en).
    + by destruct after, Hok.
    + by destruct after, Hok.
Qed.

(** *** Copies *)

Lemma DataBlocks_last size b : 0 <= size < 2 ^ 31 -> 0 <= b < DataBlocks size ->
  BytesInPortion kBlockSize size b (DataBlocks size) = copied (b + 1) size - copied b size /\
  copied b size = b * kBlockSize /\ 0 < copied (b + 1) size - copied b size <= kBlockSize.
Proof.
  intros Hs Hb. destruct (DataBlocks_ceil kBlockSize Hk size Hs) as (H0 & H1 & H2). unfold BytesInPortion, copied.
  assert (Hpos : 0 < size) by (destruct (Z.eq_dec size 0) as [->|]; [rewrite DataBlocks_0 in Hb|]; lia).
  rewrite Z.sgn_pos in H2 by done. set (D := DataBlocks size) in *. assert (D - 1 <= (D - 1) * kBlockSize) by nia.
  assert (Hb' : b * kBlockSize <= (D - 1) * kBlockSize) by nia.
  unfold u64. rewrite Z.mod_small, (Z.min_l (b * _)) by lia. destruct (Z.eqb_spec b (D - 1)) as [->|Hne]; cbn [negb].
  - rewrite Z.min_r by lia. pose proof (Z.div_mod size kBlockSize ltac:(lia)) as Hdm.
    pose proof (Z.mod_pos_bound size kBlockSize ltac:(lia)) as Hm.
    assert (Hq : size / kBlockSize = D - 1 \/ (size / kBlockSize = D /\ size mod kBlockSize = 0)) by nia.
    destruct (Z.eqb_spec (size mod kBlockSize) 0) as [E0|E0]; nia.
  - assert (Hb2 : (b + 1) * kBlockSize <= (D - 1) * kBlockSize) by nia. rewrite Z.min_l by lia. lia.
Qed.

Lemma copied_all size : 0 <= size < 2 ^ 31 -> copied (DataBlocks size) size = size.
Proof. intros Hs. destruct (DataBlocks_ceil kBlockSize Hk size Hs) as (H0 & H1 & _). unfold copied. lia. Qed.

Lemma content_take bb blocks i : bytes_ok bb -> Forall (in_sector N) blocks ->
  take (i * Z.to_nat kBlockSize) (content bb blocks) = content bb (take i blocks).
Proof.
  intros Hb H. revert i. induction H as [|b0 l Hin Hl IH]; intros [|i]; [done|unfold content; cbn [map concat take]; by rewrite take_nil|done|].
  destruct (block_length bb b0 Hb Hin) as (x0 & Hx0 & E0 & L0). unfold content in *. cbn [map concat take]. rewrite E0.
  assert (L0' : length x0 = Z.to_nat kBlockSize) by lia.
  rewrite Nat.mul_succ_l, (Nat.add_comm _ (Z.to_nat kBlockSize)), <-L0', take_app_add, L0', IH. done.
Qed.

Lemma bytes_ok_set bb b x : bytes_ok bb -> Z.of_nat (length x) = kBlockSize -> bytes_ok (zset bb b x).
Proof.
  intros [H1 H2] Hx. split; [by rewrite length_zset|]. unfold zset. destruct (b <? 0); [done|]. by apply Forall_insert.
Qed.

(** One more portion of the value is in its block. *)
Lemma copy_in_prefix bb blocks value b blk x : bytes_ok bb -> Forall (in_sector N) blocks -> NoDup blocks ->
  let size := Z.of_nat (length value) in let n := Z.to_nat (copied (b + 1) size - copied b size) in
  size < 2 ^ 31 -> 0 <= b < DataBlocks size -> zat blocks b = Some blk -> zat bb blk = Some x ->
  let bb' := zset bb blk (take n (drop (Z.to_nat (b * kBlockSize)) value) ++ drop n x) in
  take (Z.to_nat (copied b size)) (content bb blocks) = take (Z.to_nat (copied b size)) value ->
  take (Z.to_nat (copied (b + 1) size)) (content bb' blocks) = take (Z.to_nat (copied (b + 1) size)) value /\
  bytes_ok bb' /\ length (take n (drop (Z.to_nat (b * kBlockSize)) value)) = n /\ (n <= length x)%nat.
Proof.
  intros Hb Hin Hnd size n Hsize Hb2 Hblk Hx bb' Hpre.
  destruct (DataBlocks_last size b ltac:(lia) Hb2) as (_ & Hcb & Hn). rewrite Hcb in *.
  assert (Hblk' : blocks !! Z.to_nat b = Some blk) by (unfold zat in Hblk; by destruct (b <? 0)).
  assert (Hbin : in_sector N blk) by by apply (Forall_lookup_1 _ _ _ _ Hin Hblk').
  destruct (block_length bb blk Hb Hbin) as (x2 & Hx2 & _ & Lx). rewrite Hx in Hx2. injection Hx2 as <-.
  assert (Hlen : length (take n (drop (Z.to_nat (b * kBlockSize)) value)) = n).
  { rewrite length_take, length_drop. unfold n, copied, size in *. lia. }
  assert (Hnx : (n <= length x)%nat) by lia.
  assert (Hb' : bytes_ok bb').
  { apply bytes_ok_set; [done|]. rewrite length_app, Hlen, length_drop. lia. }
  split; [|done]. replace (Z.to_nat (copied (b + 1) size)) with (Z.to_nat b * Z.to_nat kBlockSize + n)%nat by lia.
  assert (Hx' : zat bb' blk = Some (take n (drop (Z.to_nat (b * kBlockSize)) value) ++ drop n x)).
  { apply zat_zset_eq. by eapply zat_Some. }
  rewrite (content_take_S bb' blocks _ blk _ Hb' Hin Hblk' Hx' n ltac:(lia)), content_take by done.
  rewrite (content_ext bb).
  - rewrite <-content_take by done. replace (Z.to_nat b * Z.to_nat kBlockSize)%nat with (Z.to_nat (b * kBlockSize)) by lia.
    rewrite Hpre, (take_app_length' _ _ n) by done. by rewrite take_take_drop.
  - intros y Hy. apply zat_zset_ne. intros ->. apply list_elem_of_lookup in Hy as (j & Hj).
    apply lookup_take_Some in Hj as [Hj Hlt]. by rewrite (NoDup_lookup _ _ _ _ Hnd Hj Hblk') in Hlt; lia.
Qed.

Lemma copy_out_prefix bb blocks str size b blk x : bytes_ok bb -> Forall (in_sector N) blocks ->
  let n := Z.to_nat (copied (b + 1) size - copied b size) in let pos := copied b size in
  0 <= size < 2 ^ 31 -> 0 <= b < DataBlocks size -> zat blocks b = Some blk -> zat bb blk = Some x ->
  Z.of_nat (length str) = size -> take (Z.to_nat pos) str = take (Z.to_nat pos) (content bb blocks) -> exists str',
  WriteAt pos (take n x) str = Some str' /\ Z.of_nat (length str') = size /\
  take (Z.to_nat (copied (b + 1) size)) str' = take (Z.to_nat (copied (b + 1) size)) (content bb blocks).
Proof.
  intros Hb Hin n pos Hsize Hb2 Hblk Hx Hstr Hpre.
  destruct (DataBlocks_last size b ltac:(lia) Hb2) as (_ & Hcb & Hn). unfold pos in *. rewrite Hcb in *.
  assert (Hblk' : blocks !! Z.to_nat b = Some blk) by (unfold zat in Hblk; by destruct (b <? 0)).
  assert (Hbin : in_sector N blk) by by apply (Forall_lookup_1 _ _ _ _ Hin Hblk').
  destruct (block_length bb blk Hb Hbin) as (x2 & Hx2 & _ & Lx). rewrite Hx in Hx2. injection Hx2 as <-.
  assert (Hlen : length (take n x) = n) by (rewrite length_take; lia).
  assert (Hcs : copied (b + 1) size <= size) by (unfold copied; lia).
  unfold WriteAt. rewrite Hlen, (proj2 (Z.leb_le 0 _)), (proj2 (Z.ltb_lt _ _)), (proj2 (Z.leb_le _ _)) by lia.
  cbn [andb]. eexists. split; [done|]. split.
  - rewrite !length_app, length_take, Hlen, length_drop. lia.
  - replace (Z.to_nat (copied (b + 1) size)) with (Z.to_nat b * Z.to_nat kBlockSize + n)%nat by lia.
    rewrite (content_take_S bb blocks _ blk _ Hb Hin Hblk' Hx n ltac:(lia)).
    replace (Z.to_nat b * Z.to_nat kBlockSize)%nat with (Z.to_nat (b * kBlockSize)) by lia. rewrite <-Hpre.
    rewrite app_assoc. apply take_app_length'. rewrite length_app, Hlen, length_take. lia.
Qed.

(** A copying thread advances: at most the bytes of its own blocks change. *)
Lemma PendOk_ext bb bb' c t p : (forall x, x ∈ blocks_of p -> zat bb' x = zat bb x) -> PendOk bb c t p -> PendOk bb' c t p.
Proof.
  intros H. destruct p as [|e l w b v|e l b ps [str|]]; cbn in *; unfold file_value; by rewrite ?(content_ext bb bb' l H).
Qed.

Lemma bytes_sec bb holes lru free files s : SecInv holes lru free files s -> SecInv holes lru free files (with_block_bytes bb s).
Proof.
  intros [H1 [] H3 H4 H5]. split; [|by split|done..]. by apply (lru_ok_ext lru s).
Qed.

Lemma readers_advance x t p p' pend : pend !! t = Some p -> on_entry p' = on_entry p -> (is_writer p' <-> is_writer p) ->
  readers x (<[t := p']> pend) = readers x pend.
Proof.
  intros Hp He Hw. rewrite (readers_delete x t p pend Hp), <-insert_delete_eq, readers_insert by apply lookup_delete_eq.
  f_equal. assert (reads x (t, p') <-> reads x (t, p)) by (unfold reads; cbn; rewrite He; tauto).
  case_decide as H1; case_decide as H2; tauto || done.
Qed.

Lemma advance n m t p p' bb' c : Inv n m -> pending m !! t = Some p ->
  on_entry p' = on_entry p -> blocks_of p' = blocks_of p -> (is_writer p' <-> is_writer p) ->
  (copies_in p' <-> copies_in p) ->
  (copies_in p /\ (forall x, x ∉ blocks_of p -> zat bb' x = zat (block_bytes (sector m)) x) \/ bb' = block_bytes (sector m)) ->
  bytes_ok bb' -> view (sector m) (on_entry p) = Some c -> PendOk bb' c t p' ->
  (forall f, Linked c f p -> Linked c f p') ->
  Inv n (mkMachine (with_block_bytes bb' (sector m)) (<[t := p']> (pending m)) (last_put m)).
Proof.
  intros [[B1 B2 B3 B4 B5] HI] Hp He Hbl Hw Hcp Hbb Hok Hv Hpo Hlk.
  assert (Hsame : forall t' q, t' <> t -> pending m !! t' = Some q ->
    forall x, x ∈ blocks_of q -> zat bb' x = zat (block_bytes (sector m)) x).
  { intros t' q Ht Hq x Hx. destruct Hbb as [[Hc H]| ->]; [|done]. apply H. intros Hx'.
    by apply (B5 t t' p q x (not_eq_sym Ht) Hp Hq Hc Hx'). }
  assert (Hlook : forall t' q, <[t := p']> (pending m) !! t' = Some q -> exists q0, pending m !! t' = Some q0 /\
    on_entry q = on_entry q0 /\ blocks_of q = blocks_of q0 /\ (is_writer q <-> is_writer q0) /\ (copies_in q <-> copies_in q0)).
  { intros t' q [[<- <-]|[Ht Hq]]%lookup_insert_Some; [by exists p|by exists q]. }
  split.
  - split; cbn [sector pending]; try done.
    + intros t' q [[<- <-]|[Ht Hq]]%lookup_insert_Some; [exists c; by rewrite He|].
      destruct (B3 t' q Hq) as (c' & Hc' & Hok'). exists c'. split; [done|].
      apply (PendOk_ext (block_bytes (sector m))); [|done]. by apply (Hsame t').
    + intros t1 t2 q1 q2 Ht H1 H2 W1 W2. destruct (Hlook _ _ H1) as (q1' & P1 & -> & _ & E1 & _), (Hlook _ _ H2) as (q2' & P2 & -> & _ & E2 & _).
      apply (B4 t1 t2 q1' q2' Ht P1 P2); tauto.
    + intros t1 t2 q1 q2 x Ht H1 H2. destruct (Hlook _ _ H1) as (q1' & P1 & _ & -> & _ & E1), (Hlook _ _ H2) as (q2' & P2 & _ & -> & _).
      intros C1. apply (B5 t1 t2 q1' q2' x Ht P1 P2). tauto.
  - cbn [sector disabled with_block_bytes]. intros Hd. destruct (HI Hd) as (lru & free & files & [X1 X2 X3 X4]).
    exists lru, free, files. split; cbn [sector pending]; try done.
    + by apply bytes_sec.
    + intros e d f Hvd Hf. change (view (with_block_bytes bb' (sector m)) e) with (view (sector m) e) in Hvd.
      destruct (X2 e d f Hvd Hf) as [C1 C2 C3 C4 C5]. split; cbn [pending last_put sector block_bytes with_block_bytes]; try done.
      * by rewrite (readers_advance e t p p').
      * intros Ho Hg. rewrite (C5 Ho Hg). f_equal. unfold file_value. f_equal. symmetry. apply content_ext. intros x Hx.
        destruct Hbb as [[Hc H]| ->]; [|done]. apply H. destruct (X4 t p Hp) as (c2 & f2 & Hc2 & Hf2 & Hl2).
        destruct p as [|e' l w b v|]; try done. cbn in Hl2, Hc2, Hf2 |- *. destruct Hl2 as [-> Hfl].
        apply (files_disjoint kBlockSize N [] free files (sector m) e e' f l x (si_blocks _ _ _ _ _ _ _ _ X1) Hf Hf2); [|done].
        intros ->. rewrite Hvd in Hc2. injection Hc2 as <-. by rewrite Hfl in Ho.
    + intros t' q [[<- <-]|[Ht Hq]]%lookup_insert_Some; [|by apply (X4 t' q)]. destruct (X4 t p Hp) as (c2 & f2 & Hc2 & Hf2 & Hl2).
      rewrite Hv in Hc2. injection Hc2 as <-. exists c, f2. rewrite He. split; [done|]. split; [done|]. by apply Hlk.
Qed.

(** The value is complete: readers may come. *)
Lemma commit_keeps n m t e blocks want b value : Inv n m -> disabled (sector m) = false ->
  pending m !! t = Some (CopyIn e blocks want b value) -> b = want -> 0 <= n -> exists s' r,
  (s ← modify_entry e (set_creating false) (sector m); Some (s, Done)) = Some (s', r) /\
  Inv n (mkMachine s' (settle t r (pending m)) (record_next (CopyIn e blocks want b value) r (sector m) (last_put m))).
Proof.
  intros [HB HI] Hd Hp -> Hn. destruct (HI Hd) as (lru & free & files & HEn).
  destruct (b_pend _ HB t _ Hp) as (c & Hv & Hok). destruct (en_pend _ _ _ _ _ HEn t _ Hp) as (c2 & f & Hv2 & Hf & -> & Hfl).
  cbn [on_entry] in *. rewrite Hv in Hv2. injection Hv2 as <-. destruct (view_in _ _ _ Hv) as (en & Hen & ->).
  cbn in Hok, Hfl. destruct Hok as (_ & Hsz & Hlt & -> & Hlb & Hin & Hnd & Hb & Hpre).
  rewrite copied_all in Hpre by lia. set (size := Z.of_nat (length value)) in *.
  pose proof (en_cell _ _ _ _ _ HEn e _ blocks Hv Hf) as Hc. destruct (cell_flags _ _ _ _ _ Hc) as (o & w & Ho & Hon & Hrd).
  cbn in Ho. rewrite Hfl in Ho. unfold flags_of in Ho. assert (o = 0) as -> by (destruct w; cbn in Ho; lia). clear Ho w.
  assert (Hset : flags (set_creating false en) = flags_of 0 false) by by apply (set_creating_flags en 0 true false).
  destruct (modify_sec kBlockSize E N HE HN e (set_creating false) [] lru free files (sector m) en (en_sec _ _ _ _ _ HEn) Hen)
    as (s1 & -> & H1 & Hen1 & V1 & F1 & _); [done|by right|by exists 0, false|]. cbn [mbind option_bind].
  eexists s1, Done. split; [done|]. cbn [record_next].
  assert (Hh : entry_hash e (sector m) = hash_bytes en) by (unfold entry_hash; by rewrite (Hen : EntryAt e (sector m) = Some en)).
  rewrite Hh. assert (Hv1 : view s1 e = Some (mkCore (hash_bytes en) size 0)).
  { rewrite V1, decide_True by done. unfold core. rewrite Hset. cbn. by rewrite Hsz. }
  assert (Hval : file_value (block_bytes s1) size blocks = value).
  { unfold file_value. rewrite (sf_bytes _ _ F1), Hpre, take_ge by lia. done. }
  assert (Hrd0 : readers e (settle t Done (pending m)) = 0%nat).
  { rewrite readers_settle; [lia| |done]. intros p. rewrite Hp. intros [= <-] [_ H]. by apply H. }
  apply (locked_keeps n m lru free files HB HEn t e Done s1 _ lru free files); try done.
  - intros x Hx. left. unfold stable; cbn. by rewrite V1, decide_False.
  - apply F1.
  - intros p. rewrite Hp. by intros [= <-].
  - intros x c Hx Hvx Hg. rewrite lookup_insert_ne; [done|]. intros Heq. apply Hx.
    by apply (en_unique _ _ _ _ _ HEn x e c (core en)).
  - intros c f'. rewrite Hv1, Hf. intros [= <-] [= <-]. split; cbn [pending]; try done.
    + apply Hc.
    + cbn. lia.
    + exists 0, false. split; [done|]. rewrite Hrd0. lia.
    + apply Hc.
    + intros _ _. cbn [last_put c_hash c_size sector]. by rewrite lookup_insert_eq, Hval.
  - intros x c c' Hx Hc1. rewrite Hv1. intros [= <-] Hg Heq. apply Hx. by apply (en_unique _ _ _ _ _ HEn x e c (core en)).
  - intros t' p Ht' Hp' He. exfalso. destruct (decide (is_writer p)) as [Hw|Hw].
    + by apply (b_single _ HB t t' _ p (not_eq_sym Ht') Hp Hp').
    + pose proof (readers_pos e t' p (pending m) Hp' (conj He Hw)). lia.
Qed.

Lemma CopyIn_keeps n m t e blocks want b value : Inv n m -> pending m !! t = Some (CopyIn e blocks want b value) ->
  0 <= n -> exists s' r, CopyIn_step kBlockSize e blocks want b value (sector m) = Some (s', r) /\
  Inv n (mkMachine s' (settle t r (pending m)) (record_next (CopyIn e blocks want b value) r (sector m) (last_put m))).
Proof.
  intros HI Hp Hn. pose proof HI as [HB HIe]. destruct (b_pend _ HB t _ Hp) as (c & Hv & Hok). cbn [on_entry] in Hv.
  destruct (view_in _ _ _ Hv) as (en & Hen & ->). cbn in Hok.
  destruct Hok as (Hodd & Hsz & Hlt & -> & Hlb & Hin & Hnd & Hb & Hpre).
  set (size := Z.of_nat (length value)) in *. unfold CopyIn_step. destruct (Z.ltb_spec b (DataBlocks size)) as [Hlt'|Hge].
  - rewrite (Hen : EntryAt e (sector m) = Some en). cbn [mbind option_bind]. rewrite Hsz.
    destruct (DataBlocks_last size b ltac:(lia) ltac:(lia)) as (-> & Hcb & Hpos).
    destruct (zat_is_Some blocks b ltac:(lia)) as [blk Hblk].
    assert (Hblk' : blocks !! Z.to_nat b = Some blk) by (unfold zat in Hblk; by destruct (b <? 0)).
    destruct (block_length _ blk (b_bytes _ HB)) as (x & Hx & _ & Lx); [by apply (Forall_lookup_1 _ _ _ _ Hin Hblk')|].
    destruct (copy_in_prefix _ blocks value b blk x (b_bytes _ HB) Hin Hnd Hlt ltac:(fold size; lia) Hblk Hx Hpre)
      as (Hpre' & Hbok & Hsl & Hsl2). fold size in Hpre', Hbok, Hsl, Hsl2.
    rewrite (proj2 (Z.ltb_ge _ _)) by (unfold copied in *; lia). rewrite Hblk. cbn [mbind option_bind].
    unfold write_block. rewrite Hx. cbn [mbind option_bind]. rewrite Hsl, (proj2 (Nat.leb_le _ _)) by done.
    cbn [mbind option_bind]. eexists _, _. split; [done|]. cbn [settle record_next].
    apply (advance n m t (CopyIn e blocks (DataBlocks size) b value) _ _ (core en)); try done.
    + left. split; [done|]. intros y Hy. apply zat_zset_ne. intros ->. apply Hy. cbn. by eapply elem_of_list_lookup_2 || eapply list_elem_of_lookup_2.
    + cbn. fold size. repeat (split; [done || lia|]). done.
  - assert (b = DataBlocks size) as -> by lia. destruct (disabled (sector m)) eqn:Hd.
    + destruct (finish_disabled n m t e (set_creating false) _ HB Hd Hp eq_refl) with
        (h := record_next (CopyIn e blocks (DataBlocks size) (DataBlocks size) value) Done (sector m) (last_put m))
        as (s' & -> & HI' & _); [done|by left|]. cbn [mbind option_bind]. by exists s', Done.
    + by apply (commit_keeps n m t e blocks (DataBlocks size) (DataBlocks size) value).
Qed.

Lemma decrement_parity en : Z.odd (flags (decrement_open_count en)) = Z.odd (flags en).
Proof.
  unfold decrement_open_count, u32. cbn [flags with_flags].
  rewrite (Z.mod_eq _ (2 ^ 32)) by done. replace (flags en - 2 - 2 ^ 32 * ((flags en - 2) / 2 ^ 32))
    with (flags en + 2 * (- 1 - 2 ^ 31 * ((flags en - 2) / 2 ^ 32))) by lia.
  by rewrite Z.odd_add_mul_2.
Qed.

(** A reader leaves. *)
Lemma leave_keeps n m t e blocks b pos str : Inv n m -> disabled (sector m) = false ->
  pending m !! t = Some (CopyOut e blocks b pos str) -> n < 2 ^ 31 -> exists s1,
  modify_entry e decrement_open_count (sector m) = Some s1 /\
  Inv n (mkMachine s1 (delete t (pending m)) (last_put m)) /\ disabled s1 = false.
Proof.
  intros [HB HI] Hd Hp Hn. destruct (HI Hd) as (lru & free & files & HEn).
  destruct (b_pend _ HB t _ Hp) as (c & Hv & Hok). destruct (en_pend _ _ _ _ _ HEn t _ Hp) as (c2 & f & Hv2 & Hf & Hl).
  cbn [on_entry] in *. rewrite Hv in Hv2. injection Hv2 as <-. destruct (view_in _ _ _ Hv) as (en & Hen & ->).
  cbn in Hl. subst f. pose proof (en_cell _ _ _ _ _ HEn e _ blocks Hv Hf) as Hc.
  destruct (cell_flags _ _ _ _ _ Hc) as (o & w & Ho & Hon & Hrd). cbn in Ho.
  assert (Hrds : reads e (t, CopyOut e blocks b pos str)) by (split; [done|by intros []]).
  pose proof (readers_delete e t _ (pending m) Hp) as Hrdel. rewrite decide_True in Hrdel by done.
  pose proof (decrement_flags en o w ltac:(lia) Ho) as Hdec.
  destruct (modify_sec kBlockSize E N HE HN e decrement_open_count [] lru free files (sector m) en (en_sec _ _ _ _ _ HEn) Hen)
    as (s1 & -> & H1 & Hen1 & V1 & F1 & _); [done|by right|exists (o - 1), w; split; [lia|done]|].
  exists s1. split; [done|]. split; [|by rewrite (sf_disabled _ _ F1)].
  assert (Hv1 : view s1 e = Some (mkCore (hash_bytes en) (byte_size en) (flags_of (o - 1) w))).
  { rewrite V1, decide_True by done. unfold core. by rewrite Hdec. }
  apply (locked_keeps n m lru free files HB HEn t e Done s1 (last_put m) lru free files); try done.
  - intros x Hx. left. unfold stable; cbn. by rewrite V1, decide_False.
  - apply F1.
  - intros p. rewrite Hp. by intros [= <-].
  - intros c f'. rewrite Hv1, Hf. intros [= <-] [= <-]. destruct Hc as [Q1 Q2 Q3 Q4 Q5]. split; cbn [pending settle]; try done.
    + exists (o - 1), w. split; [done|]. split; [lia|lia].
    + cbn [c_flags c_hash c_size sector]. rewrite odd_flags. intros -> Hg. rewrite (sf_bytes _ _ F1). apply Q5; [|done].
      cbn. by rewrite Ho, odd_flags.
  - intros x c c' Hx Hc1. rewrite Hv1. intros [= <-] Hg Heq. apply Hx. by apply (en_unique _ _ _ _ _ HEn x e c (core en)).
  - intros t' p Ht' Hp' He. destruct (en_pend _ _ _ _ _ HEn t' p Hp') as (c & f' & Hc' & Hf' & Hl).
    destruct (b_pend _ HB t' p Hp') as (c' & Hc2 & Hok'). rewrite He in *. rewrite Hv in Hc', Hc2.
    injection Hc' as <-. injection Hc2 as <-. eexists _, f'. split; [exact Hv1|]. split; [done|].
    rewrite (sf_bytes _ _ F1). destruct p as [| |]; cbn in Hok', Hl |- *; rewrite ?odd_flags; try rewrite Ho, odd_flags in Hok'.
    + done.
    + exfalso. destruct Hl as [_ Hl]. rewrite Ho in Hl. unfold flags_of in Hl. destruct w; cbn in Hl; lia.
    + done.
Qed.

Lemma Extend_length size : 0 <= size -> Z.of_nat (length (Extend size [])) = size.
Proof.
  intros H. unfold Extend. cbn [length]. destruct (Z.ltb_spec (Z.of_nat 0) size); cbn; [|lia].
  rewrite length_replicate. lia.
Qed.

Lemma CopyOut_keeps n m t e blocks b pos str : 0 <= n < 2 ^ 31 -> Inv n m ->
  pending m !! t = Some (CopyOut e blocks b pos str) -> exists s' r,
  CopyOut_step kBlockSize e blocks b pos str (sector m) = Some (s', r) /\
  Inv n (mkMachine s' (settle t r (pending m)) (last_put m)) /\
  match r with
  | Later p => s' = sector m /\ exists b' pos' str', p = CopyOut e blocks b' pos' str'
  | Available value => delivers m e blocks value
  | _ => False
  end.
Proof.
  intros Hn HI Hp. pose proof HI as [HB HIe]. destruct (b_pend _ HB t _ Hp) as (c & Hv & Hok). cbn [on_entry] in Hv.
  destruct (view_in _ _ _ Hv) as (en & Hen & ->). cbn in Hok. destruct Hok as (Hwat & Hsz & Hlb & Hin & Hnd & Hstr).
  assert (Hstay : forall p', on_entry p' = e -> blocks_of p' = blocks -> ~ is_writer p' -> ~ copies_in p' ->
    PendOk (block_bytes (sector m)) (core en) t p' -> (forall f, Linked (core en) f (CopyOut e blocks b pos str) -> Linked (core en) f p') ->
    Inv n (mkMachine (sector m) (<[t := p']> (pending m)) (last_put m))).
  { intros p' H1 H2 H3 H4 H5 H6. replace (sector m) with (with_block_bytes (block_bytes (sector m)) (sector m)) by by destruct (sector m).
    apply (advance n m t _ p' _ (core en) HI Hp); cbn; [done|done|tauto|tauto|by right|apply HB|done|done|done]. }
  unfold CopyOut_step. destruct str as [str|].
  - destruct Hstr as (Hls & Hb & -> & Hpre). destruct (Z.ltb_spec b (Z.of_nat (length blocks))) as [Hlt|Hge].
    + rewrite (Hen : EntryAt e (sector m) = Some en). cbn [mbind option_bind]. rewrite Hlb in *.
      destruct (DataBlocks_last (byte_size en) b Hsz ltac:(lia)) as (-> & Hcb & Hpos).
      destruct (zat_is_Some blocks b ltac:(lia)) as [blk Hblk]. rewrite Hblk. cbn [mbind option_bind].
      assert (Hblk' : blocks !! Z.to_nat b = Some blk) by (unfold zat in Hblk; by destruct (b <? 0)).
      destruct (block_length _ blk (b_bytes _ HB)) as (x & Hx & _ & Lx); [by apply (Forall_lookup_1 _ _ _ _ Hin Hblk')|].
      unfold read_block. rewrite Hx. cbn [mbind option_bind].
      rewrite (proj2 (Z.leb_le 0 _)), (proj2 (Z.leb_le _ _)) by lia. cbn [andb mbind option_bind].
      destruct (copy_out_prefix _ blocks str (byte_size en) b blk x (b_bytes _ HB) Hin Hsz ltac:(lia) Hblk Hx Hls Hpre)
        as (str' & -> & Hls' & Hpre'). cbn [mbind option_bind]. eexists _, _. split; [done|]. split; [|by split; [|eauto]].
      cbn [settle]. apply Hstay; try done; [by intros []|by intros []|]. cbn.
      replace (copied b (byte_size en) + (copied (b + 1) (byte_size en) - copied b (byte_size en)))
        with (copied (b + 1) (byte_size en)) by lia.
      split; [done|]. split; [done|]. split; [done|]. split; [done|]. split; [done|]. split; [done|].
      split; [lia|]. by split.
    + assert (Hb' : b = DataBlocks (byte_size en)) by lia.
      assert (Hdel : delivers m e blocks str).
      { exists (core en). split; [done|]. unfold file_value. cbn [c_size core].
        rewrite Hb', copied_all in Hpre by done. rewrite <-Hpre. rewrite take_ge by lia. done. }
      assert (Hend : exists s1, modify_entry e decrement_open_count (sector m) = Some s1 /\
        Inv n (mkMachine s1 (delete t (pending m)) (last_put m))).
      { destruct (disabled (sector m)) eqn:Hd.
        - destruct (finish_disabled n m t e decrement_open_count _ HB Hd Hp eq_refl) with (h := last_put m)
            as (s1 & H1 & H2 & _); [done|right; apply decrement_parity|eauto].
        - destruct (leave_keeps n m t e blocks b _ _ HI Hd Hp) as (s1 & H1 & H2 & _); [lia|eauto]. }
      destruct Hend as (s1 & -> & HI'). cbn [mbind option_bind]. eexists _, _. split; [done|]. split; [|done].
      apply (Inv_stats get_hit_up n _ ltac:(apply counters) HI').
  - destruct Hstr as [-> ->]. rewrite (Hen : EntryAt e (sector m) = Some en). cbn [mbind option_bind].
    eexists _, _. split; [done|]. split; [|by split; [|eauto]]. cbn [settle].
    apply Hstay; try done; [by intros []|by intros []|]. cbn. rewrite Extend_length by lia.
    repeat (split; [done || lia|]). unfold copied. rewrite Z.min_l by lia. done.
Qed.

(** ** Every step *)

Lemma Die_keeps n m t : Inv n m -> Inv n (mkMachine (sector m) (delete t (pending m)) (last_put m)).
Proof.
  intros [[B1 B2 B3 B4 B5] HI]. split.
  - split; cbn [sector pending]; try done.
    + intros t' p [_ Hp]%lookup_delete_Some. by apply (B3 t').
    + intros t1 t2 p p' Ht [_ H1]%lookup_delete_Some [_ H2]%lookup_delete_Some. by apply (B4 t1 t2).
    + intros t1 t2 p p' x Ht [_ H1]%lookup_delete_Some [_ H2]%lookup_delete_Some. by apply (B5 t1 t2).
  - cbn [sector]. intros Hd. destruct (HI Hd) as (lru & free & files & [X1 X2 X3 X4]).
    exists lru, free, files. split; cbn [sector pending]; try done.
    + intros e c f Hv Hf. destruct (X2 e c f Hv Hf) as [C1 C2 (o & w & C3 & C4 & C6) C5 C7]. split; try done.
      exists o, w. split; [done|]. split; [done|]. cbn [pending].
      destruct (pending m !! t) as [p|] eqn:Hp; [|by rewrite delete_id].
      pose proof (readers_delete e t p (pending m) Hp). lia.
    + intros t' p [_ Hp]%lookup_delete_Some. by apply (X4 t').
Qed.

(** What a thread that dies in a locked section can have left: the bytes of the
    values, the size of an entry that another thread reads or writes, and the
    [creating] bit that another writer set, are not touched in a section of this thread. *)
Definition torn_ok (t : Z) (torn : Sector) (m : Machine) : Prop :=
  length (directory torn) = length (directory (sector m)) /\ block_bytes torn = block_bytes (sector m) /\
  forall t' p en, t' <> t -> pending m !! t' = Some p -> zat (directory (sector m)) (on_entry p) = Some en ->
    exists en', zat (directory torn) (on_entry p) = Some en' /\ byte_size en' = byte_size en /\
      (is_writer p -> creating en' = creating en).

Lemma OwnerDied_disabled s : disabled (OnOwnerDied s) = true /\ directory (OnOwnerDied s) = directory s /\
  block_bytes (OnOwnerDied s) = block_bytes s.
Proof. unfold OnOwnerDied. by destruct (disabled s) eqn:E. Qed.

Lemma OwnerDied_keeps n m t torn : Inv n m -> torn_ok t torn m ->
  Inv n (mkMachine (OnOwnerDied torn) (delete t (pending m)) (last_put m)).
Proof.
  intros [[B1 B2 B3 B4 B5] HI] (T1 & T2 & T3). destruct (OwnerDied_disabled torn) as (D1 & D2 & D3).
  split; [|cbn [sector]; by rewrite D1]. split; cbn [sector pending].
  - by rewrite D2, T1.
  - by rewrite D3, T2.
  - intros t' p [Ht Hp]%lookup_delete_Some. destruct (B3 t' p Hp) as (c & Hv & Hok).
    destruct (view_in _ _ _ Hv) as (en & Hen & ->).
    destruct (T3 t' p en (not_eq_sym Ht) Hp Hen) as (en' & Hen' & Hs & Hc). exists (core en').
    unfold view. rewrite D2, D3, T2, Hen'. split; [done|]. rewrite !creating_odd in Hc.
    destruct p; cbn in Hok, Hc |- *; by rewrite ?Hs, ?Hc by done.
  - intros t1 t2 p p' Ht [_ H1]%lookup_delete_Some [_ H2]%lookup_delete_Some. by apply (B4 t1 t2).
  - intros t1 t2 p p' x Ht [_ H1]%lookup_delete_Some [_ H2]%lookup_delete_Some. by apply (B5 t1 t2).
Qed.

(** What may happen next: an idle thread starts an operation, a busy one goes on, any may die. *)
Definition allowed (ev : Event) (m : Machine) : Prop :=
  match ev with
  | StartPut t raw_hash _ value _ _ => pending m !! t = None /\ good_hash raw_hash /\ Z.of_nat (length value) < 2 ^ 31
  | StartGet t raw_hash _ => pending m !! t = None /\ good_hash raw_hash
  | StartDelete t raw_hash _ _ => pending m !! t = None /\ good_hash raw_hash
  | Next t _ => is_Some (pending m !! t)
  | Die _ => True
  | OwnerDied t torn => torn_ok t torn m
  end.

Definition unwatched (ev : Event) : Prop := match ev with StartGet t _ _ => watched t = None | _ => True end.

#[local] Abbreviation step := (step kBlockSize num_sectors_ E N).

Lemma step_keeps n m ev : 0 <= n < 2 ^ 31 - 1 -> Inv n m -> allowed ev m -> unwatched ev -> exists m' r,
  step ev m = Some (m', r) /\ Inv (n + 1) m'.
Proof.
  intros Hn HI Hal Hw. assert (Hup : forall m', Inv n m' -> Inv (n + 1) m') by (intros m'; apply Inv_mono; lia).
  destruct ev as [t h ts value a b|t h ts|t h a b|t now|t|t torn]; cbn [allowed step unwatched] in *; unfold run_thread.
  - destruct Hal as (Ht & Hh & Hv). destruct (PutRawHash_keeps n m t h ts value a b ltac:(lia) HI Ht Hh Hv) as (s' & r & -> & HI').
    cbn [mbind option_bind]. eexists _, _. split; [done|]. by apply Hup.
  - destruct Hal as (Ht & Hh). destruct (Get_keeps n m t h ts Hw Hn HI Ht Hh) as (s' & r & -> & HI' & _).
    cbn [mbind option_bind]. eauto.
  - destruct Hal as (Ht & Hh). destruct (Delete_keeps n m t h a b ltac:(lia) HI Ht Hh) as (s' & r & -> & HI').
    cbn [mbind option_bind]. eexists _, _. split; [done|]. by apply Hup.
  - destruct Hal as [p Hp]. rewrite Hp. cbn [mbind option_bind].
    assert (exists s' r, next_step kBlockSize E N p now (sector m) = Some (s', r) /\
      Inv n (mkMachine s' (settle t r (pending m)) (record_next p r (sector m) (last_put m)))) as (s' & r & -> & HI').
    { destruct p as [e g after|e blocks want b value|e blocks b pos str]; cbn [next_step].
      - apply Wait_keeps; [lia|done..].
      - apply CopyIn_keeps; [done..|lia].
      - destruct (CopyOut_keeps n m t e blocks b pos str ltac:(lia) HI Hp) as (s' & r & H1 & H2 & _). eauto. }
    cbn [mbind option_bind]. eexists _, _. split; [done|]. by apply Hup.
  - eexists _, _. split; [done|]. by apply Hup, Die_keeps.
  - eexists _, _. split; [done|]. by apply Hup, OwnerDied_keeps.
Qed.

End run.
