(* ===== verification/SharedMemSpec.v ===== *)
(** * The shared-memory cache: what it promises

    The theorems about every run of the threads of a sector, from
    [Sector::Initialize] on. *)

From S2P Require Import Prelude SharedMemCacheData SharedMemCache SharedMemSector SharedMemRun.

Section spec.
Variable kBlockSize : Z.
Variables num_sectors_ entries_per_sector_ blocks_per_sector_ : Z.
Hypothesis Hk : 0 < kBlockSize <= 4096.
Hypothesis HS : 0 < num_sectors_.
Hypothesis HE : 0 < entries_per_sector_.
Hypothesis HN : 0 < blocks_per_sector_ < 2 ^ 31.

#[local] Abbreviation E := entries_per_sector_.
#[local] Abbreviation N := blocks_per_sector_.
#[local] Abbreviation DataBlocks := (DataBlocksForSize kBlockSize).
#[local] Abbreviation step := (step kBlockSize num_sectors_ E N).
#[local] Abbreviation Initialize := (Initialize kBlockSize E N).
#[local] Abbreviation SecInv := (SecInv kBlockSize E N).
#[local] Abbreviation Inv := (Inv kBlockSize num_sectors_ E N).
#[local] Abbreviation allowed := allowed.

(** A run: the machine at the end, and what the last event gave. *)
Fixpoint exec (evs : list Event) (m : Machine) (r : Progress) : option (Machine * Progress) :=
  match evs with
  | [] => Some (m, r)
  | ev :: evs' => '(m, r) ← step ev m; exec evs' m r
  end.

Fixpoint allowed_run (evs : list Event) (m : Machine) : Prop :=
  match evs with
  | [] => True
  | ev :: evs' => allowed ev m /\ forall m' r, step ev m = Some (m', r) -> allowed_run evs' m'
  end.

Definition new_machine (s : Sector) : Machine := mkMachine s ∅ ∅.

Definition nobody : Z -> option bytes := fun _ => None.

(** ** The first sector *)

Lemma zat_replicate {A} n (x : A) i y : zat (replicate n x) i = Some y -> y = x.
Proof. unfold zat. destruct (i <? 0); [done|]. by intros [-> _]%lookup_replicate. Qed.

Lemma concat_replicate_nil n : concat (replicate n ([] : list Z)) = [].
Proof. by induction n. Qed.

Lemma Initialize_sec : exists s, Initialize = Some s /\ disabled s = false /\
  SecInv [] [] (rev (seqZ 0 N)) (replicate (Z.to_nat E) []) s /\
  (forall e c, view s e = Some c -> c = free_core) /\
  block_bytes s = replicate (Z.to_nat N) (replicate (Z.to_nat kBlockSize) (chr 0)).
Proof.
  unfold SharedMemCacheData.Initialize. set (en := with_first_block _ _). set (s0 := mkSector _ _ _ _ _ _ _ _).
  destruct (Return_spec N (seqZ 0 N) [] s0) as (s1 & -> & [] & L & C & X & U).
  - cbn. rewrite length_replicate. lia.
  - done.
  - apply Forall_forall. intros x Hx%elem_of_seqZ. unfold in_sector. lia.
  - rewrite app_nil_r. apply NoDup_seqZ.
  - cbn [mbind option_bind]. eexists. split; [done|].
    assert (Hdir : forall e y, zat (directory s1) e = Some y -> y = en) by (intros e y; rewrite sb_dir; apply zat_replicate).
    rewrite app_nil_r in C. split; [by cbn; rewrite sb_disabled|]. split; [split|split].
    + split; cbn.
      * done.
      * by rewrite sb_front.
      * by rewrite sb_rear.
      * by apply NoDup_nil.
      * intros e v. unfold link_view. intros (y & Hy & ->)%fmap_Some _. cbn in Hy. by rewrite (Hdir e y Hy).
      * rewrite sb_entries. done.
    + split; cbn.
      * rewrite L. cbn. rewrite length_replicate. lia.
      * rewrite sb_dir, length_replicate. cbn. by rewrite length_replicate.
      * done.
      * intros e y f _ Hy Hf. rewrite (Hdir e y Hy). rewrite (zat_replicate _ _ _ _ Hf). cbn.
        by rewrite (DataBlocks_0 kBlockSize Hk).
      * by rewrite concat_replicate_nil, app_nil_r, <-Permutation_rev.
      * rewrite length_rev, length_seqZ. lia.
    + cbn. rewrite sb_dir. cbn. rewrite length_replicate. lia.
    + intros e c (y & Hy & ->)%view_in _ _. cbn in Hy. by rewrite (Hdir e y Hy).
    + intros e c (y & Hy & ->)%view_in. cbn in Hy. rewrite (Hdir e y Hy). exists 0, false. split; [lia|done].
    + intros e c (y & Hy & ->)%view_in. cbn in Hy. by rewrite (Hdir e y Hy).
    + cbn. by rewrite sb_bytes.
Qed.

Lemma new_machine_Inv w : exists s, Initialize = Some s /\ disabled s = false /\ Inv w 0 (new_machine s) /\
  forall e c, view s e = Some c -> c = free_core.
Proof.
  destruct Initialize_sec as (s & H1 & H2 & H3 & H4 & H5). exists s. split; [done|]. split; [done|]. split; [|done].
  split.
  - split; cbn; try done.
    + apply H3.
    + rewrite H5. split; [rewrite length_replicate; lia|]. apply Forall_replicate. rewrite length_replicate. lia.
  - intros _. exists [], (rev (seqZ 0 N)), (replicate (Z.to_nat E) []). split; cbn; try done.
    + intros e c f Hv Hf. rewrite (H4 e c Hv). split; cbn; try done. exists 0, false. split; [done|].
      unfold readers. cbn. rewrite map_filter_empty, map_size_empty. lia.
    + intros e e' c c' Hv Hv'. by rewrite (H4 e c Hv).
Qed.

(** ** [SanityCheck] *)

Lemma count_blocks_list l occ : NoDup l -> (forall x, x ∈ l -> occ !! x = None) ->
  foldr count_block occ l = list_to_map (map (fun b => (b, 1)) l) ∪ occ.
Proof.
  induction 1 as [|b l Hb Hl IH]; intros Hx; cbn [foldr map list_to_map]; [by rewrite map_empty_union|].
  rewrite IH by (intros x Hxl; apply Hx; by right). unfold count_block. rewrite <-insert_union_l.
  assert ((list_to_map (map (fun b => (b, 1)) l) ∪ occ : gmap Z Z) !! b = None) as ->; [|done].
  apply lookup_union_None. split; [|apply Hx; left].
  apply not_elem_of_list_to_map. rewrite <-list_fmap_compose. intros H. apply Hb.
  apply list_elem_of_fmap in H as (y & -> & Hy). done.
Qed.

Lemma entry_blocks_ok lru free files s : SecInv [] lru free files s -> forall k occ,
  entry_blocks kBlockSize N (drop k (directory s)) occ s = Some (foldr count_block occ (rev (concat (drop k files)))).
Proof.
  intros H k. remember (length (directory s) - k)%nat as d eqn:Hd. revert k Hd.
  pose proof (bk_dir _ _ _ _ _ _ (si_blocks _ _ _ _ _ _ _ _ H)) as Hlen.
  induction d as [|d IH]; intros k Hd occ.
  - by rewrite !drop_ge by lia.
  - destruct (lookup_lt_is_Some_2 (directory s) k ltac:(lia)) as [en Hen].
    destruct (lookup_lt_is_Some_2 files k ltac:(lia)) as [f Hf].
    rewrite (drop_S _ _ _ Hen), (drop_S _ _ _ Hf). cbn [entry_blocks concat].
    assert (Hz : forall A (l : list A), zat l (Z.of_nat k) = l !! k).
    { intros A l. unfold zat. by rewrite (proj2 (Z.ltb_ge _ _)), Nat2Z.id by lia. }
    rewrite (BlockList_sec kBlockSize E N (Z.of_nat k) en f [] [] _ _ _ _ H); [|apply not_elem_of_nil|by rewrite Hz..].
    cbn [mbind option_bind app]. rewrite IH by lia. by rewrite rev_app_distr, foldr_app.
Qed.

Lemma all_counted l : l ≡ₚ seqZ 0 N -> let occ := foldr count_block ∅ l in
  Z.of_nat (size occ) = N /\ forallb (fun kv : Z * Z => kv.2 =? 1) (map_to_list occ) = true.
Proof.
  intros P occ. assert (Hnd : NoDup l) by (rewrite P; apply NoDup_seqZ).
  assert (Hocc : occ = list_to_map (map (fun b => (b, 1)) l)).
  { unfold occ. rewrite count_blocks_list by done. by rewrite map_union_empty. }
  assert (Hfst : (map (fun b => (b, 1)) l).*1 = l).
  { rewrite <-list_fmap_compose. apply list_fmap_id. }
  split.
  - rewrite Hocc, map_size_list_to_map by (by rewrite Hfst). rewrite length_map, P, length_seqZ. lia.
  - apply forallb_forall. intros [x c] Hx%list_elem_of_In%elem_of_map_to_list. rewrite Hocc in Hx.
    apply elem_of_list_to_map_2, list_elem_of_In, in_map_iff in Hx as (y & [= <- <-] & _). done.
Qed.

Lemma SanityCheck_sec lru free files s : disabled s = false -> SecInv [] lru free files s -> exists s',
  SanityCheck kBlockSize N s = Some s' /\ SecInv [] lru (rev free) files s' /\
  (forall x, view s' x = view s x) /\ same_frame s s'.
Proof.
  intros Hd H. pose proof (si_blocks _ _ _ _ _ _ _ _ H) as Hb. pose proof Hb as [].
  pose proof (blocks_nodup kBlockSize N _ _ _ _ Hb) as Hnd. pose proof (blocks_in_sector kBlockSize N _ _ _ _ Hb) as Hin.
  apply NoDup_app in Hnd as [Hnd _]. apply Forall_app in Hin as [Hin _].
  assert (Hlen : (length free <= Z.to_nat N)%nat).
  { apply Permutation_length in bk_part. rewrite length_app, length_seqZ in bk_part. lia. }
  unfold SanityCheck. rewrite Hd. pose proof (entry_blocks_ok lru free files s H 0 ∅) as He. rewrite !drop_0 in He.
  rewrite He. cbn [mbind option_bind].
  destruct (Alloc_spec N N [] free s) as (s1 & -> & S1 & Hsucc & Hc & Hu); [done..|]. cbn [mbind option_bind app].
  rewrite take_ge by lia. rewrite drop_ge in Hc by lia. rewrite <-foldr_app.
  destruct (all_counted (rev free ++ rev (concat files))) as [A1 A2].
  { rewrite <-bk_part, <-!Permutation_rev. done. }
  destruct (Return_spec N free [] s1) as (s2 & -> & S2 & L2 & C2 & X2 & U2).
  - by rewrite Hsucc.
  - done.
  - done.
  - by rewrite app_nil_r.
  - cbn [mbind option_bind]. rewrite A1, Z.eqb_refl, A2. cbn [andb]. exists s2. split; [done|].
    destruct (same_blocks_view _ _ S1) as [V1 F1], (same_blocks_view _ _ S2) as [V2 F2].
    split; [|split; [by intros x; rewrite V2|by etrans]].
    assert (S12 : same_but_blocks s s2) by (destruct S1, S2; split; congruence).
    apply (sec_same_blocks kBlockSize E N _ _ free files s s2 _ files H S12). split.
    + rewrite L2, Hsucc. done.
    + by rewrite (sb_dir _ _ S12).
    + by rewrite app_nil_r in C2.
    + intros e en f Hn. rewrite (sb_dir _ _ S12). intros Hen Hf. destruct (bk_files e en f Hn Hen Hf) as [C L].
      split; [|done]. eapply chain_ext; [|exact C]. intros x Hx. rewrite X2, Hsucc; [done|]. intros Hxf.
      pose proof (blocks_nodup kBlockSize N _ _ _ _ Hb) as Hnd2. apply NoDup_app in Hnd2 as (_ & Hd2 & _).
      apply (Hd2 x Hxf). destruct (file_in_concat files e f Hf) as (r & P & _). rewrite P. apply elem_of_app. by left.
    + by rewrite <-Permutation_rev.
    + rewrite U2, Hu, bk_used, length_rev. lia.
Qed.

(** ** Runs *)

Lemma exec_keeps w evs : forall n m r, 0 <= n -> n + Z.of_nat (length evs) < 2 ^ 31 -> Inv w n m -> allowed_run evs m ->
  Forall (unwatched w) evs -> exists m' r', exec evs m r = Some (m', r') /\ Inv w (n + Z.of_nat (length evs)) m'.
Proof.
  induction evs as [|ev evs IH]; intros n m r Hn Hlen HI Hal Hw; cbn [exec length] in *.
  { exists m, r. split; [done|]. by rewrite Z.add_0_r. }
  destruct Hal as [Hal Hrest]. apply Forall_cons in Hw as [Hw1 Hw2].
  destruct (step_keeps kBlockSize num_sectors_ E N Hk HS HE ltac:(lia) w n m ev ltac:(lia) HI Hal Hw1) as (m1 & r1 & Hs & HI1).
  rewrite Hs. cbn [mbind option_bind].
  destruct (IH (n + 1) m1 r1 ltac:(lia) ltac:(lia) HI1 (Hrest m1 r1 Hs) Hw2) as (m' & r' & -> & HI'). exists m', r'.
  split; [done|]. by replace (n + Z.of_nat (S (length evs))) with (n + 1 + Z.of_nat (length evs)) by lia.
Qed.

Lemma nobody_watched evs : Forall (unwatched nobody) evs.
Proof. apply Forall_forall. by intros []. Qed.

(** A machine that a run of [k] events leads to; the reader count of an entry has
    31 bits, so the theorems are about runs of fewer than 2^31 - 1 events. *)
Definition reaches (k : nat) (m : Machine) : Prop := exists s evs r,
  Initialize = Some s /\ length evs = k /\ allowed_run evs (new_machine s) /\
  exec evs (new_machine s) Done = Some (m, r).
Definition reachable (m : Machine) : Prop := exists k, Z.of_nat k < 2 ^ 31 - 1 /\ reaches k m.

Lemma reaches_Inv k m : Z.of_nat k < 2 ^ 31 - 1 -> reaches k m -> Inv nobody (Z.of_nat k) m.
Proof.
  intros Hlen (s & evs & r & Hs & <- & Hal & Hex). destruct (new_machine_Inv nobody) as (s' & Hs' & _ & HI & _).
  rewrite Hs in Hs'. injection Hs' as <-.
  destruct (exec_keeps nobody evs 0 _ Done ltac:(lia) ltac:(lia) HI Hal (nobody_watched evs)) as (m' & r' & Hex' & HI').
  rewrite Hex in Hex'. by injection Hex' as <- <-.
Qed.

Lemma reachable_machine_Inv m : reachable m -> exists n, 0 <= n < 2 ^ 31 - 1 /\ Inv nobody n m.
Proof. intros (k & Hk' & H). exists (Z.of_nat k). split; [lia|]. by apply reaches_Inv. Qed.

(** C2: No interleaving of any number of threads in any number of processes
    makes the shared-memory cache fail: from every machine that [Put], [Get] and
    [Delete] of any keys and values, waits that time out, threads that die while they
    copy and threads that die with the lock can lead to, every event that can come next is
    handled without a failing [CHECK] or [DCHECK], a read or write outside the arrays or a loop
    that does not end, and [SanityCheck] finds every block accounted for once. *)
Theorem no_run_fails m ev : reachable m -> allowed ev m ->
  (exists m' r, step ev m = Some (m', r)) /\ (exists s', SanityCheck kBlockSize N (sector m) = Some s').
Proof.
  intros (n & Hn & HI)%reachable_machine_Inv Hal. split.
  - destruct (step_keeps kBlockSize num_sectors_ E N Hk HS HE ltac:(lia) nobody n m ev Hn HI Hal) as (m' & r & Hs & _);
      [by destruct ev|eauto].
  - destruct (disabled (sector m)) eqn:Hd; [exists (sector m); unfold SanityCheck; by rewrite Hd|].
    destruct (proj2 HI Hd) as (lru & free & files & HEn).
    destruct (SanityCheck_sec lru free files _ Hd (en_sec _ _ _ _ _ _ _ _ _ HEn)) as (s' & -> & _). eauto.
Qed.

(** C31: While a thread copies a value into its blocks, without the lock, no other
    thread reads or writes one of these blocks, and no other thread writes the same entry;
    this holds in a disabled sector too. *)
Theorem writers_exclude_everybody m t t' p p' : reachable m -> t <> t' ->
  pending m !! t = Some p -> pending m !! t' = Some p' ->
  (copies_in p -> forall x, x ∈ blocks_of p -> x ∉ blocks_of p') /\
  (is_writer p -> is_writer p' -> on_entry p <> on_entry p').
Proof.
  intros (n & Hn & [HB _])%reachable_machine_Inv Ht Hp Hp'. split.
  - intros Hc x. by apply (b_separate _ _ _ _ _ HB t t' p p').
  - by apply (b_single _ _ _ _ _ HB t t').
Qed.

(** *** A reader gets one value *)

Definition watch (t : Z) (v : bytes) : Z -> option bytes := fun t' => if decide (t' = t) then Some v else None.

Lemma watch_Inv n m t e blocks b pos str v : Inv nobody n m -> pending m !! t = Some (CopyOut e blocks b pos str) ->
  delivers m e blocks v -> Inv (watch t v) n m.
Proof.
  intros [[B1 B2 B3 B4 B5] HI] Hp (c & Hc & ->). split; [|].
  - split; try done. intros t' p Hp'. destruct (B3 t' p Hp') as (c' & Hc' & Hok). exists c'. split; [done|].
    destruct p; cbn in *; try done. destruct Hok as [_ Hok]. split; [|done]. unfold watch. case_decide as Et; [|done].
    subst. rewrite Hp in Hp'. injection Hp' as -> -> -> -> ->. rewrite Hc in Hc'. injection Hc' as <-. by intros ? [= <-].
  - intros Hd. destruct (HI Hd) as (lru & free & files & [X1 X2 X3 X4]). by exists lru, free, files.
Qed.

Definition reading (m : Machine) (t : Z) : Prop := exists e blocks b pos str, pending m !! t = Some (CopyOut e blocks b pos str).

(** One step of anybody, while [t] reads: [t] goes on reading, is dead, or delivers the value. *)
Lemma reading_step n m t v ev m' r : Inv (watch t v) n m -> 0 <= n < 2 ^ 31 - 1 -> reading m t -> allowed ev m ->
  step ev m = Some (m', r) ->
  match ev with
  | Next t' _ => if decide (t' = t) then reading m' t \/ (pending m' !! t = None /\ r = Available v) else reading m' t
  | _ => reading m' t \/ pending m' !! t = None
  end.
Proof.
  intros HI Hn (e & blocks & b & pos & str & Hp) Hal Hs.
  assert (Hother : forall t' op h m' r, run_thread t' op h m = Some (m', r) -> t' <> t -> reading m' t).
  { intros t' op h m2 r2 Hr Ht. unfold run_thread in Hr. apply bind_Some in Hr as ([s2 r3] & _ & [= <- <-]).
    exists e, blocks, b, pos, str. cbn [pending]. by rewrite lookup_settle_ne. }
  destruct ev as [t' h ts value a b'|t' h ts|t' h a b'|t' now|t'|t' torn]; cbn [SharedMemCache.step allowed] in *.
  - left. apply (Hother _ _ _ _ _ Hs). intros ->. by rewrite Hp in Hal; destruct Hal.
  - left. apply (Hother _ _ _ _ _ Hs). intros ->. by rewrite Hp in Hal; destruct Hal.
  - left. apply (Hother _ _ _ _ _ Hs). intros ->. by rewrite Hp in Hal; destruct Hal.
  - case_decide as Ht.
    + subst t'. rewrite Hp in Hs. cbn [mbind option_bind] in Hs. unfold run_thread in Hs. cbn [next_step] in Hs.
      destruct (CopyOut_keeps kBlockSize num_sectors_ E N Hk HE ltac:(lia) (watch t v) n m t e blocks b pos str ltac:(lia) HI Hp)
        as (s' & r' & Heq & _ & Hr). rewrite Heq in Hs. cbn [mbind option_bind] in Hs. injection Hs as <- <-.
      destruct r' as [p'| | |v']; try done.
      * left. destruct Hr as (_ & b' & pos' & str' & ->). exists e, blocks, b', pos', str'. cbn. by rewrite lookup_insert_eq.
      * right. cbn. rewrite lookup_delete_eq. split; [done|]. destruct Hr as (c & Hc & ->). f_equal.
        destruct (b_pend _ _ _ _ _ (proj1 HI) t _ Hp) as (c' & Hc' & Hok). cbn in Hc', Hok. rewrite Hc in Hc'.
        injection Hc' as <-. symmetry. apply Hok. unfold watch. by rewrite decide_True.
    + destruct (pending m !! t') as [p'|]; [|done]. by apply (Hother _ _ _ _ _ Hs).
  - injection Hs as <- <-. destruct (decide (t' = t)) as [->|Ht]; [right; cbn; by rewrite lookup_delete_eq|left].
    exists e, blocks, b, pos, str. cbn. by rewrite lookup_delete_ne.
  - injection Hs as <- <-. destruct (decide (t' = t)) as [->|Ht]; [right; cbn; by rewrite lookup_delete_eq|left].
    exists e, blocks, b, pos, str. cbn. by rewrite lookup_delete_ne.
Qed.

(** The thread [t] starts no operation. *)
Definition not_started (t : Z) (ev : Event) : Prop :=
  match ev with StartPut t' _ _ _ _ _ | StartGet t' _ _ | StartDelete t' _ _ _ => t' <> t | _ => True end.

Lemma gone_step t ev m m' r : pending m !! t = None -> not_started t ev -> step ev m = Some (m', r) -> pending m' !! t = None.
Proof.
  intros Hp Hns Hs.
  assert (Hother : forall t' op h, run_thread t' op h m = Some (m', r) -> t' <> t -> pending m' !! t = None).
  { intros t' op h Hr Ht. unfold run_thread in Hr. apply bind_Some in Hr as ([s2 r3] & _ & [= <- <-]).
    cbn [pending]. by rewrite lookup_settle_ne. }
  destruct ev as [t' h ts value a b'|t' h ts|t' h a b'|t' now|t'|t' torn]; cbn [SharedMemCache.step not_started] in *.
  - by apply (Hother _ _ _ Hs).
  - by apply (Hother _ _ _ Hs).
  - by apply (Hother _ _ _ Hs).
  - apply bind_Some in Hs as (p & Hp' & Hs). apply (Hother _ _ _ Hs). by intros ->; rewrite Hp in Hp'.
  - injection Hs as <- <-. cbn. rewrite lookup_delete_None. by right.
  - injection Hs as <- <-. cbn. rewrite lookup_delete_None. by right.
Qed.

Lemma reading_run t v evs : forall n m r m' r', 0 <= n -> n + Z.of_nat (length evs) < 2 ^ 31 - 1 -> Inv (watch t v) n m ->
  reading m t \/ pending m !! t = None -> allowed_run evs m -> Forall (not_started t) evs -> exec evs m r = Some (m', r') ->
  Inv (watch t v) (n + Z.of_nat (length evs)) m' /\ (reading m' t \/ pending m' !! t = None).
Proof.
  induction evs as [|ev evs IH]; intros n m r m' r' Hn Hlen HI Hr Hal Hns Hex; cbn [exec length] in *.
  { injection Hex as <- <-. by rewrite Z.add_0_r. }
  destruct Hal as [Hal Hrest]. apply Forall_cons in Hns as [Hns1 Hns2].
  destruct (step_keeps kBlockSize num_sectors_ E N Hk HS HE ltac:(lia) (watch t v) n m ev ltac:(lia) HI Hal) as (m1 & r1 & Hs & HI1).
  { destruct ev; try done. cbn in *. unfold watch. by rewrite decide_False. }
  rewrite Hs in Hex. cbn [mbind option_bind] in Hex.
  replace (n + Z.of_nat (S (length evs))) with (n + 1 + Z.of_nat (length evs)) by lia.
  apply (IH (n + 1) m1 r1 m' r' ltac:(lia) ltac:(lia) HI1); try done; [|by apply (Hrest m1 r1)].
  destruct Hr as [Hr|Hr]; [|right; by apply (gone_step t ev m m1 r1)].
  pose proof (reading_step n m t v ev m1 r1 HI ltac:(lia) Hr Hal Hs) as H.
  destruct ev; try done. case_decide; [|by left]. destruct H as [|[]]; auto.
Qed.

Lemma Get_starts k m0 t h now_ms m1 p : Z.of_nat k < 2 ^ 31 - 1 -> reaches k m0 -> pending m0 !! t = None -> good_hash h ->
  step (StartGet t h now_ms) m0 = Some (m1, Later p) -> exists v,
  last_put m0 !! h = Some v /\ Inv (watch t v) (Z.of_nat k + 1) m1 /\ reading m1 t.
Proof.
  intros Hk' HR Ht Hh Hs. pose proof (reaches_Inv k m0 Hk' HR) as HI. cbn [SharedMemCache.step] in Hs. unfold run_thread in Hs.
  destruct (Get_keeps kBlockSize num_sectors_ E N Hk HS HE ltac:(lia) nobody (Z.of_nat k) m0 t h now_ms eq_refl ltac:(lia) HI Ht Hh)
    as (s' & r & Heq & HI' & Hr). rewrite Heq in Hs. cbn [mbind option_bind] in Hs. injection Hs as <- ->.
  destruct Hr as (e & f & v & -> & Hl & Hd). exists v. split; [done|].
  assert (Hp : settle t (Later (CopyOut e f 0 0 None)) (pending m0) !! t = Some (CopyOut e f 0 0 None))
    by (cbn; by rewrite lookup_insert_eq).
  split; [by eapply watch_Inv|]. by exists e, f, 0, 0, None.
Qed.

(** C1: A [Get] that hits delivers, whole, the value that the last completed [Put] of the
    key had stored when the [Get] found the entry, with no [Delete] of the key completed since: whatever other threads
    put, delete, evict or copy while the value is read out without the lock, and even when one of them dies holding it. *)
Theorem Get_delivers_the_last_put k m0 t h now_ms m1 p evs m2 r2 now_us m3 v :
  reaches k m0 -> Z.of_nat k + Z.of_nat (length evs) < 2 ^ 31 - 3 ->
  allowed (StartGet t h now_ms) m0 -> step (StartGet t h now_ms) m0 = Some (m1, Later p) ->
  allowed_run evs m1 -> Forall (not_started t) evs -> exec evs m1 Done = Some (m2, r2) ->
  step (Next t now_us) m2 = Some (m3, Available v) ->
  last_put m0 !! h = Some v.
Proof.
  intros HR Hk' [Ht Hh] Hs Hal Hns Hex Hend.
  destruct (Get_starts k m0 t h now_ms m1 p ltac:(lia) HR Ht Hh Hs) as (v0 & Hl & HI & Hr). rewrite Hl. f_equal.
  destruct (reading_run t v0 evs (Z.of_nat k + 1) m1 Done m2 r2 ltac:(lia) ltac:(lia) HI (or_introl Hr) Hal Hns Hex) as [HI2 [Hr2|Hr2]].
  - assert (Hal2 : allowed (Next t now_us) m2) by (destruct Hr2 as (?&?&?&?&?&Hp); by eexists).
    pose proof (reading_step (Z.of_nat k + 1 + Z.of_nat (length evs)) m2 t v0 _ m3 _ HI2 ltac:(lia) Hr2 Hal2 Hend) as H. cbn in H. rewrite decide_True in H by done.
    destruct H as [(e & f & b & ps & str & Hp)|[_ H]]; [|by injection H].
    exfalso. cbn [SharedMemCache.step] in Hend. apply bind_Some in Hend as (p2 & _ & Hend). unfold run_thread in Hend.
    apply bind_Some in Hend as ([s3 r3] & _ & [= <- ->]). cbn in Hp. by rewrite lookup_delete_eq in Hp.
  - cbn [SharedMemCache.step] in Hend. by rewrite Hr2 in Hend.
Qed.

(** ** Every operation ends *)

(** How many steps of its own a thread needs once it no longer waits. *)
Definition steps_left (p : Pending) : Z :=
  match p with
  | Wait _ _ _ => N + 2
  | CopyIn _ _ want b _ => want - b + 1
  | CopyOut _ blocks b _ str => Z.of_nat (length blocks) - b + match str with None => 2 | Some _ => 1 end
  end.

Ltac invert_binds :=
  repeat match goal with
  | H : mbind _ _ = Some _ |- _ => apply bind_Some in H as (? & ? & H)
  | H : Some _ = Some _ |- _ => injection H as H
  | H : (if ?b then _ else _) = Some _ |- _ => destruct b; [try done|try done]
  | H : (let '(_, _) := ?x in _) = Some _ |- _ => destruct x
  | H : (_, _) = (_, _) |- _ => injection H as H
  end.

Lemma PutIntoEntry_shape e ts value s s' r : PutIntoEntry kBlockSize E N e ts value s = Some (s', r) ->
  r = Done \/ exists blocks, r = Later (CopyIn e blocks (DataBlocks (Z.of_nat (length value))) 0 value).
Proof. unfold PutIntoEntry. intros H. invert_binds; subst; eauto. Qed.

Lemma resume_shape e after s s' r : resume kBlockSize E N e after s = Some (s', r) ->
  r = Done \/ exists blocks value, r = Later (CopyIn e blocks (DataBlocks (Z.of_nat (length value))) 0 value).
Proof.
  destruct after; cbn [resume]; intros H.
  - apply PutIntoEntry_shape in H as [|[]]; eauto.
  - destruct (disabled s); [invert_binds; subst; eauto|]. apply bind_Some in H as (s1 & _ & H).
    apply PutIntoEntry_shape in H as [|[]]; eauto.
  - unfold DeleteEntry_locked in H. invert_binds; subst; eauto.
Qed.

Lemma blocks_le blocks : NoDup blocks -> Forall (in_sector N) blocks -> Z.of_nat (length blocks) <= N.
Proof.
  intros Hn Hi. assert (Hs : blocks ⊆+ seqZ 0 N).
  { apply NoDup_submseteq; [done|]. intros x Hx. rewrite Forall_forall in Hi. specialize (Hi x Hx).
    apply elem_of_seqZ. unfold in_sector in Hi. lia. }
  apply submseteq_length in Hs. rewrite length_seqZ in Hs. lia.
Qed.

Lemma steps_left_bounds w bb c t p : PendOk kBlockSize N w bb c t p -> 0 < steps_left p <= N + 2.
Proof.
  destruct p as [e g a|e blocks want b value|e blocks b pos [str|]]; cbn.
  - lia.
  - intros (_ & _ & _ & Hw & Hl & Hin & Hnd & Hb & _). pose proof (blocks_le blocks Hnd Hin). lia.
  - intros (_ & _ & _ & Hin & Hnd & _ & Hb & _). pose proof (blocks_le blocks Hnd Hin). lia.
  - intros (_ & _ & _ & Hin & Hnd & -> & ->). pose proof (blocks_le blocks Hnd Hin). lia.
Qed.

(** The step of a copying thread. *)
Lemma next_shape p now s s' p' : (match p with Wait _ g _ => g <= now | _ => True end) ->
  next_step kBlockSize E N p now s = Some (s', Later p') ->
  match p with
  | Wait e _ _ => exists blocks value, p' = CopyIn e blocks (DataBlocks (Z.of_nat (length value))) 0 value
  | _ => steps_left p' = steps_left p - 1
  end.
Proof.
  destruct p as [e g a|e blocks want b value|e blocks b pos str]; cbn [next_step]; intros Hg H.
  - unfold EnsureReady_test in H. apply bind_Some in H as (en & _ & H). destruct (_ && _).
    + rewrite (proj2 (Z.leb_le _ _) Hg) in H. by injection H.
    + apply resume_shape in H as [|(blocks & value & [= ->])]; [done|eauto].
  - unfold CopyIn_step in H. invert_binds; subst; cbn; lia || done.
  - unfold CopyOut_step in H. destruct str; invert_binds; subst; cbn; lia || done.
Qed.

(** C32: Every operation ends: a thread that waits for readers needs one step after its
    deadline to give up or to start copying, a thread that copies gets closer to its end with every
    step, and no step of another thread moves it away; a value takes at most one step per block of
    the sector and two more. *)
Theorem every_operation_ends m t p now m' r : reachable m -> pending m !! t = Some p ->
  (match p with Wait _ deadline _ => deadline <= now | _ => True end) -> step (Next t now) m = Some (m', r) ->
  0 < steps_left p <= N + 2 /\
  match pending m' !! t with Some p' => 0 < steps_left p' < steps_left p | None => True end /\
  forall t', t' <> t -> pending m' !! t' = pending m !! t'.
Proof.
  intros (n & Hn & HI)%reachable_machine_Inv Hp Hg Hs.
  destruct (step_keeps kBlockSize num_sectors_ E N Hk HS HE ltac:(lia) nobody n m (Next t now) ltac:(lia) HI) as (m1 & r1 & Hs1 & HI1);
    [by eexists|done|]. rewrite Hs in Hs1. injection Hs1 as <- <-.
  destruct (b_pend _ _ _ _ _ (proj1 HI) t p Hp) as (c & _ & Hok). split; [by eapply steps_left_bounds|].
  cbn [SharedMemCache.step] in Hs. rewrite Hp in Hs. cbn [mbind option_bind] in Hs. unfold run_thread in Hs.
  apply bind_Some in Hs as ([s' r'] & Hop & [= <- <-]). cbn [pending]. split.
  - destruct r' as [p'| | |]; cbn [settle]; [|by rewrite lookup_delete_eq..]. rewrite lookup_insert_eq.
    destruct (b_pend _ _ _ _ _ (proj1 HI1) t p') as (c' & _ & Hok'); [cbn; by rewrite lookup_insert_eq|].
    pose proof (steps_left_bounds _ _ _ _ _ Hok'). pose proof (next_shape p now _ _ p' Hg Hop) as Hsh.
    destruct p as [e g a| |]; [|lia..]. destruct Hsh as (blocks & value & ->). cbn in Hok' |- *.
    destruct Hok' as (_ & _ & _ & _ & Hl & Hin & Hnd & _). pose proof (blocks_le blocks Hnd Hin). cbn in *. lia.
  - intros t' Ht. by apply lookup_settle_ne.
Qed.

(** ** One thread on its own *)

(** Nobody is at work in the sector, and nobody died while at work. *)
Record quiet (m : Machine) : Prop := {
  q_pending : pending m = ∅;
  q_enabled : disabled (sector m) = false;
  q_idle : forall e c, view (sector m) e = Some c -> c_flags c = 0
}.

#[local] Abbreviation MaxValueSize := (MaxValueSize kBlockSize N).

Lemma MaxValueSize_blocks size : 0 <= size <= MaxValueSize -> size < 2 ^ 31 -> DataBlocks size <= N.
Proof.
  unfold SharedMemCache.MaxValueSize, u64. rewrite Z.mod_small by nia. intros H1 H2.
  destruct (DataBlocks_ceil kBlockSize Hk size ltac:(lia)) as (D0 & D1 & D2).
  destruct (Z.eq_dec size 0) as [->|]; [rewrite DataBlocks_0 by done; lia|]. rewrite Z.sgn_pos in D2 by lia.
  pose proof (Z.mul_div_le (N * kBlockSize) 8 ltac:(lia)). nia.
Qed.

(** [EnsureReadyForWriting] of an entry that nobody uses goes straight on. *)
Lemma ensure_quiet n m (t : Z) e c start now after hash value : 0 <= n -> Inv nobody n m -> quiet m -> view (sector m) e = Some c ->
  0 <= Z.of_nat (length value) <= MaxValueSize -> Z.of_nat (length value) < 2 ^ 31 ->
  after_ok num_sectors_ E m e after ->
  (match after with
   | ThenUpdate _ v => v = value /\ hash = c_hash c
   | ThenReplace h _ v => v = value /\ hash = h
   | ThenDelete => False
   end) -> exists s' blocks,
  EnsureReadyForWriting kBlockSize E N e start now after (sector m)
    = Some (s', Later (CopyIn e blocks (DataBlocks (Z.of_nat (length value))) 0 value)) /\
  view s' e = Some (mkCore hash (Z.of_nat (length value)) 1) /\ disabled s' = false /\
  forall x d, x <> e -> view s' x = Some d -> c_flags d = 0.
Proof.
  intros Hn HI [Q1 Q2 Q3] Hv Hmax Hlen Hok Haft. unfold EnsureReadyForWriting.
  set (g := start + kMaxWaitForReadersUs).
  pose proof (Q3 e c Hv) as Hc0.
  destruct (claim_keeps kBlockSize num_sectors_ E N Hk HE ltac:(lia) nobody n m t e g c HI Q2) as (s1 & -> & HI1 & F1 & Vx & Ve);
    [by rewrite Q1|done|by rewrite Hc0|]. cbn [mbind option_bind]. rewrite Hc0 in Ve. cbn [Z.add] in Ve.
  assert (Hd1 : disabled s1 = false) by by rewrite (sf_disabled _ _ F1).
  destruct (proj2 HI1 Hd1) as (lru & free & files & HEn). destruct (view_in _ _ _ Ve) as (en & Hen & Hcen).
  injection Hcen as Eh Es Ef.
  assert (Hfl : flags en = flags_of 0 true) by by rewrite <-Ef.
  set (m1 := mkMachine s1 (<[t:=Wait e g ThenDelete]> (pending m)) (last_put m)) in *.
  destruct (resume_keeps kBlockSize num_sectors_ E N Hk HE ltac:(lia) nobody n m1 lru free files (proj1 HI1) HEn t e g ThenDelete en)
    with (last' := last_put m) (after := after)
    as (s' & r & lru' & files' & Heq & _ & F2 & O2 & Hout); try done.
  - unfold m1; cbn [pending]; by rewrite lookup_insert_eq.
  - destruct after; try done. destruct Hok as (?&?&?&Hfresh). repeat split; try done.
    intros x c' Hx. unfold m1. cbn [sector]. rewrite Vx by done. by apply Hfresh.
  - unfold m1 in Heq, O2, F2; cbn [sector] in Heq, O2, F2. unfold EnsureReady_test. rewrite (Hen : EntryAt e s1 = Some en). cbn [mbind option_bind].
    rewrite (open_count_flags _ _ _ Hfl). cbn [Z.ltb Z.compare andb]. rewrite Heq.
    assert (Hothers : forall x d, x <> e -> view s' x = Some d -> c_flags d = 0).
    { intros x d Hx Hd. destruct (O2 x Hx) as [(Ev & _)|(_ & Ev & _)]; cbn [snd fst] in Ev; rewrite Ev in Hd; [|by injection Hd as <-].
      rewrite Vx in Hd by done. by apply (Q3 x). }
    assert (Hput : put_outcome kBlockSize N e value hash r (lru', files', s')).
    { destruct after; cbn in Hout; destruct Haft as [-> ->] || done; [|done]. by rewrite <-Eh in Hout. }
    destruct r as [p| | |]; cbn in Hput; [|exfalso|done..].
    + destruct Hput as (blocks & -> & _ & _ & Hv' & _). exists s', blocks. split; [done|]. split; [exact Hv'|].
      split; [rewrite (sf_disabled _ _ F2); exact Hd1|done].
    + destruct Hput as (_ & _ & _ & [(x & d & Hx & Hd & Hb)|Hb]); [by apply Hb, (Hothers x)|].
      pose proof (MaxValueSize_blocks _ Hmax Hlen). lia.
Qed.

Lemma quiet_stats f m : quiet m -> quiet (mkMachine (with_sector_stats f (sector m)) (pending m) (last_put m)).
Proof. by intros []. Qed.

Lemma PutRawHash_quiet n m (t : Z) h ts value start now : 0 <= n -> Inv nobody n m -> quiet m -> good_hash h ->
  Z.of_nat (length value) <= MaxValueSize -> Z.of_nat (length value) < 2 ^ 31 -> exists s' e blocks,
  PutRawHash kBlockSize num_sectors_ E N h ts value start now (sector m)
    = Some (s', Later (CopyIn e blocks (DataBlocks (Z.of_nat (length value))) 0 value)) /\
  view s' e = Some (mkCore h (Z.of_nat (length value)) 1) /\ disabled s' = false /\
  forall x d, x <> e -> view s' x = Some d -> c_flags d = 0.
Proof.
  intros Hn HI HQ [Hh Hnil] Hmax Hlen. destruct counters as (C1 & C2 & C3 & C4 & C5 & _). unfold PutRawHash.
  rewrite (proj2 (Z.ltb_ge _ _)) by done.
  destruct (ExtractPosition_home num_sectors_ E HS HE h Hh) as (pos & -> & Hpos & _ & Hkeys). cbn [mbind option_bind]. rewrite Hpos.
  rewrite (q_enabled _ HQ). set (s1 := with_sector_stats put_up (sector m)).
  pose proof (Inv_stats kBlockSize num_sectors_ E N nobody put_up n m C1 HI) as HI1. fold s1 in HI1.
  pose proof (quiet_stats put_up m HQ) as HQ1. fold s1 in HQ1.
  destruct (find_match_ok E (home num_sectors_ E h) h s1 Hh (b_dir _ _ _ _ _ (proj1 HI1)) Hkeys) as (r1 & -> & Hr1).
  cbn [mbind option_bind]. destruct r1 as [e|].
  - destruct Hr1 as [He (en & Hen & Hhash)]. rewrite Hen. cbn [mbind option_bind].
    assert (Hve : view s1 e = Some (core en)) by (unfold view; by rewrite (Hen : zat (directory s1) e = Some en)).
    pose proof (q_idle _ HQ1 e _ Hve) as Hfl. cbn in Hfl. rewrite creating_odd, Hfl. cbn [Z.odd negb].
    destruct (ensure_quiet n (mkMachine (with_sector_stats put_update_up s1) (pending m) (last_put m)) t e (core en) start now
      (ThenUpdate ts value) h value) as (s' & blocks & H1 & H2); try done; [by apply (Inv_stats _ _ _ _ _ _ n _ C2 HI1)|
      by apply (quiet_stats _ _ HQ1)|lia|]. by exists s', e, blocks.
  - destruct (find_best_ok E (home num_sectors_ E h) s1 None (b_dir _ _ _ _ _ (proj1 HI1)) Hkeys) as (r2 & -> & Hr2).
    cbn [mbind option_bind].
    assert (Hall : forall x en, EntryAt x s1 = Some en -> Writeable en = true).
    { intros x en Hen. destruct (proj2 HI1 (q_enabled _ HQ)) as (lru & free & files & HEn).
      rewrite (entry_writeable _ _ _ _ _ _ _ _ _ _ (en_sec _ _ _ _ _ _ _ _ _ HEn) Hen). apply bool_decide_eq_true.
      apply (q_idle _ HQ1 x (core en)). unfold view. cbn [sector]. by rewrite (Hen : zat (directory s1) x = Some en). }
    destruct r2 as [[e en]|].
    2: { exfalso. destruct Hr2 as [_ Hr2]. destruct (home num_sectors_ E h) as [|x l] eqn:Eh.
         - unfold home, ExtractPosition in Eh. by rewrite Hh in Eh.
         - apply Forall_cons in Hkeys as [Hx _]. destruct (zat_is_Some (directory s1) x) as [en Hen].
           + pose proof (b_dir _ _ _ _ _ (proj1 HI1)) as Hd1. cbn [sector] in Hd1. by rewrite Hd1.
           + specialize (Hr2 x en ltac:(left) Hen). by rewrite (Hall x en Hen) in Hr2. }
    destruct Hr2 as [|(He & Hen & Hw)]; [done|]. set (s2 := if negb _ || _ then _ else _).
    assert (HI2 : Inv nobody n (mkMachine s2 (pending m) (last_put m)) /\ quiet (mkMachine s2 (pending m) (last_put m)) /\
      directory s2 = directory s1).
    { unfold s2. case_match; [|done]. split; [by apply (Inv_stats _ _ _ _ _ _ n _ C3 HI1)|].
      split; [by apply (quiet_stats put_replace_up _ HQ1)|done]. }
    destruct HI2 as (HI2 & HQ2 & Hdir2).
    assert (Hve : view s2 e = Some (core en)) by (unfold view; rewrite Hdir2; by rewrite (Hen : zat (directory s1) e = Some en)).
    destruct (ensure_quiet n (mkMachine s2 (pending m) (last_put m)) t e (core en) start now
      (ThenReplace h ts value) h value) as (s' & blocks & H1 & H2); try done; [lia| |by exists s', e, blocks].
    split; [done|]. split; [done|]. split; [done|]. intros x c Hx Hvx Heq. cbn [sector] in Hvx.
    unfold view in Hvx. rewrite Hdir2 in Hvx. apply (Hr1 x c); [|exact Hvx|done].
    apply (not_home kBlockSize num_sectors_ E N nobody n _ h x c HI1 (q_enabled _ HQ) Hnil Hvx Heq).
Qed.

Lemma copy_in_shape e blocks want b value s s' r : b < want -> CopyIn_step kBlockSize e blocks want b value s = Some (s', r) ->
  (exists bb, s' = with_block_bytes bb s) /\ r = Later (CopyIn e blocks want (b + 1) value).
Proof.
  intros Hb. unfold CopyIn_step. rewrite (proj2 (Z.ltb_lt _ _)) by done. unfold write_block. intros H. invert_binds.
  repeat match goal with H : (if ?b then _ else _) = Some _ |- _ => destruct b; [try done|try done] end.
  invert_binds; subst; eauto.
Qed.

(** The copy runs to its end. *)
Lemma copy_in_runs t now e blocks value : forall d n m b r, 0 <= n < 2 ^ 31 - 1 -> Inv nobody n m -> disabled (sector m) = false ->
  pending m !! t = Some (CopyIn e blocks (DataBlocks (Z.of_nat (length value))) b value) ->
  Z.of_nat d = DataBlocks (Z.of_nat (length value)) - b -> exists m',
  exec (replicate (S d) (Next t now)) m r = Some (m', Done) /\ Inv nobody n m' /\ pending m' = delete t (pending m) /\
  last_put m' = <[entry_hash e (sector m) := value]> (last_put m) /\ disabled (sector m') = false /\
  forall x, view (sector m') x = if decide (x = e) then (fun c => mkCore (c_hash c) (c_size c) 0) <$> view (sector m) e
                                 else view (sector m) x.
Proof.
  induction d as [|d IH]; intros n m b r Hn HI Hdis Hp Hd; rewrite replicate_S; cbn [exec SharedMemCache.step]; rewrite Hp;
    cbn [mbind option_bind]; unfold run_thread; cbn [next_step].
  - destruct (CopyIn_keeps kBlockSize num_sectors_ E N Hk HE ltac:(lia) nobody n m t e blocks _ b value HI Hp ltac:(lia))
      as (s' & r' & Heq & HI'). rewrite Heq. cbn [mbind option_bind replicate exec].
    destruct (proj2 HI Hdis) as (lru & free & files & HEn).
    destruct (en_pend _ _ _ _ _ _ _ _ _ HEn t _ Hp) as (c & f & Hv & _ & _ & Hfl). cbn [on_entry] in Hv.
    destruct (view_in _ _ _ Hv) as (en & Hen & ->). cbn in Hfl.
    unfold CopyIn_step in Heq. rewrite (proj2 (Z.ltb_ge _ _)) in Heq by lia.
    destruct (modify_entry_spec e (set_creating false) (sector m) en Hen) as (s2 & Hm & D & Hs2 & _).
    rewrite Hm in Heq. cbn [mbind option_bind] in Heq. injection Heq as <- <-.
    eexists. split; [done|]. split; [exact HI'|]. split; [done|]. split; [done|]. cbn [sector]. split; [by rewrite Hs2|].
    intros x. unfold view. rewrite D. case_decide as Ex; [|done]. rewrite Hen. cbn. f_equal. unfold core. f_equal.
    by apply (set_creating_flags en 0 true false).
  - destruct (CopyIn_keeps kBlockSize num_sectors_ E N Hk HE ltac:(lia) nobody n m t e blocks _ b value HI Hp ltac:(lia))
      as (s' & r' & Heq & HI'). rewrite Heq. cbn [mbind option_bind].
    assert (Hlt : b < DataBlocks (Z.of_nat (length value))) by lia.
    destruct (copy_in_shape _ _ _ _ _ _ _ _ Hlt Heq) as [(bb & ->) ->]. cbn [settle record_next] in *.
    destruct (IH n _ (b + 1) (Later (CopyIn e blocks (DataBlocks (Z.of_nat (length value))) (b + 1) value)) Hn HI') as (m' & H1 & H2 & H3 & H4 & H5 & H6);
      [done|cbn; by rewrite lookup_insert_eq|lia|].
    exists m'. split; [exact H1|]. split; [done|]. split; [rewrite H3; cbn; by rewrite delete_insert_eq|]. done.
Qed.

(** A read runs to its end, and delivers the value. *)
Lemma copy_out_runs t now v : forall d n m p r, 0 <= n -> n + Z.of_nat d < 2 ^ 31 - 1 -> Inv (watch t v) n m ->
  reading m t -> pending m !! t = Some p -> steps_left p = Z.of_nat d -> exists m',
  exec (replicate d (Next t now)) m r = Some (m', Available v).
Proof.
  induction d as [|d IH]; intros n m p r Hn Hlen HI Hr Hp Hd.
  { destruct (b_pend _ _ _ _ _ (proj1 HI) t p Hp) as (c & _ & Hok). pose proof (steps_left_bounds _ _ _ _ _ Hok). lia. }
  rewrite replicate_S. cbn [exec].
  destruct (step_keeps kBlockSize num_sectors_ E N Hk HS HE ltac:(lia) (watch t v) n m (Next t now) ltac:(lia) HI)
    as (m1 & r1 & Hs & HI1); [by eexists|done|]. pose proof Hs as Hs0. rewrite Hs. cbn [mbind option_bind].
  pose proof (reading_step n m t v (Next t now) m1 r1 HI ltac:(lia) Hr ltac:(by eexists) Hs) as H.
  cbn in H. rewrite decide_True in H by done. cbn [SharedMemCache.step] in Hs. rewrite Hp in Hs. cbn [mbind option_bind] in Hs.
  unfold run_thread in Hs. apply bind_Some in Hs as ([s' r'] & Hop & Heq). injection Heq as <- <-.
  destruct Hr as (e & blocks & b & ps & str & Hp2). rewrite Hp in Hp2. injection Hp2 as ->.
  destruct H as [Hr1|[_ ->]].
  - destruct r' as [p'| | |]; cbn [settle] in *;
      [|destruct Hr1 as (?&?&?&?&?&Hx); cbn in Hx; by rewrite lookup_delete_eq in Hx..].
    pose proof (next_shape (CopyOut e blocks b ps str) now _ _ p' I Hop) as Hsh. cbn beta iota in Hsh.
    apply (IH (n + 1) _ p'); [lia|lia|done|done|cbn; by rewrite lookup_insert_eq|lia].
  - assert (d = 0%nat) as ->.
    { cbn [next_step] in Hop. unfold CopyOut_step in Hop. destruct str as [str|]; [|invert_binds; subst; done].
      destruct (Z.ltb_spec b (Z.of_nat (length blocks))); [invert_binds; subst; done|]. cbn in Hd. 
      destruct (b_pend _ _ _ _ _ (proj1 HI) t _ Hp) as (c & _ & Hok). pose proof (steps_left_bounds _ _ _ _ _ Hok) as Hb. cbn in Hb. lia. }
    by eexists.
Qed.

Lemma Put_alone n m t h ts value start now : 0 <= n < 2 ^ 31 - 1 -> Inv nobody n m -> quiet m -> good_hash h ->
  Z.of_nat (length value) <= MaxValueSize -> Z.of_nat (length value) < 2 ^ 31 -> exists d m1,
  exec (StartPut t h ts value start now :: replicate d (Next t now)) m Done = Some (m1, Done) /\
  Inv nobody n m1 /\ quiet m1 /\ last_put m1 = <[h := value]> (last_put m) /\
  exists e c, view (sector m1) e = Some c /\ c_hash c = h.
Proof.
  intros Hn HI HQ Hh Hmax Hlen. assert (Ht : pending m !! t = None) by by rewrite (q_pending _ HQ).
  destruct (PutRawHash_quiet n m t h ts value start now ltac:(lia) HI HQ Hh Hmax Hlen) as (s' & e & blocks & Heq & Hv & Hd & Hoth).
  destruct (PutRawHash_keeps kBlockSize num_sectors_ E N Hk HS HE ltac:(lia) nobody n m t h ts value start now ltac:(lia) HI Ht Hh Hlen)
    as (s2 & r2 & Heq2 & HI2). rewrite Heq in Heq2. injection Heq2 as <- <-. cbn [settle] in HI2.
  destruct (DataBlocks_ceil kBlockSize Hk (Z.of_nat (length value)) ltac:(lia)) as (D0 & _).
  set (m0 := mkMachine s' (<[t := CopyIn e blocks (DataBlocks (Z.of_nat (length value))) 0 value]> (pending m)) (last_put m)) in *.
  destruct (copy_in_runs t now e blocks value (Z.to_nat (DataBlocks (Z.of_nat (length value)))) n m0 0
    (Later (CopyIn e blocks (DataBlocks (Z.of_nat (length value))) 0 value)) Hn HI2 Hd)
    as (m1 & Hex & HI1 & Hp1 & Hl1 & Hd1 & V1); [unfold m0; cbn; by rewrite lookup_insert_eq|lia|].
  exists (S (Z.to_nat (DataBlocks (Z.of_nat (length value))))), m1. split.
  { cbn [exec SharedMemCache.step]. unfold run_thread. rewrite Heq. cbn [mbind option_bind settle]. exact Hex. }
  split; [done|]. destruct (view_in _ _ _ Hv) as (en & Hen & Hcen).
  assert (Hve : view (sector m1) e = Some (mkCore h (Z.of_nat (length value)) 0)).
  { rewrite V1, decide_True by done. unfold m0. cbn [sector]. by rewrite Hv. }
  split; [split|split].
  - rewrite Hp1. unfold m0. cbn [pending]. by rewrite delete_insert_eq, (q_pending _ HQ), delete_empty.
  - done.
  - intros x c Hx. rewrite V1 in Hx. unfold m0 in Hx; cbn [sector] in Hx. case_decide as Ex; [|by apply (Hoth x)].
    rewrite Hv in Hx. by injection Hx as <-.
  - rewrite Hl1. unfold m0. cbn [sector last_put]. unfold entry_hash. rewrite (Hen : EntryAt e s' = Some en). cbn.
    injection Hcen as -> _ _. done.
  - eexists e, _. by split.
Qed.

(** C33: When nobody else is at work in the sector, a [Put] of a value of at most [MaxValueSize]
    completes, evicting what it must, and a [Get] of the key that follows hits and delivers that value. *)
Theorem Put_then_Get_hits k m t h ts value start now now_ms : reaches k m -> Z.of_nat k + N < 2 ^ 31 - 8 -> quiet m -> good_hash h ->
  Z.of_nat (length value) <= MaxValueSize -> Z.of_nat (length value) < 2 ^ 31 -> exists d1 d2 m1 m2,
  exec (StartPut t h ts value start now :: replicate d1 (Next t now)) m Done = Some (m1, Done) /\
  exec (StartGet t h now_ms :: replicate d2 (Next t now)) m1 Done = Some (m2, Available value).
Proof.
  intros HR Hk' HQ Hh Hmax Hlen. pose proof (reaches_Inv k m ltac:(lia) HR) as HI.
  destruct (Put_alone (Z.of_nat k) m t h ts value start now ltac:(lia) HI HQ Hh Hmax Hlen)
    as (d1 & m1 & Hex1 & HI1 & HQ1 & Hl1 & e & c & Hv & Hc).
  assert (Ht : pending m1 !! t = None) by by rewrite (q_pending _ HQ1).
  destruct (Get_keeps kBlockSize num_sectors_ E N Hk HS HE ltac:(lia) nobody (Z.of_nat k) m1 t h now_ms eq_refl ltac:(lia) HI1 Ht Hh)
    as (s' & r & Heq & HI2 & Hr). destruct r as [p| | |]; [|done| |done].
  2: { exfalso. destruct Hr as [Hr|Hr]; [by rewrite (q_enabled _ HQ1) in Hr|]. specialize (Hr e c Hv Hc).
       by rewrite (q_idle _ HQ1 e c Hv) in Hr. }
  destruct Hr as (e' & f & v & -> & Hl & Hd). rewrite Hl1, lookup_insert_eq in Hl. injection Hl as <-.
  set (m2 := mkMachine s' _ _) in *. cbn [settle] in m2.
  assert (Hp : pending m2 !! t = Some (CopyOut e' f 0 0 None)) by (unfold m2; cbn; by rewrite lookup_insert_eq).
  pose proof (watch_Inv _ m2 t e' f 0 0 None value HI2 Hp Hd) as HIw.
  destruct (b_pend _ _ _ _ _ (proj1 HIw) t _ Hp) as (c' & _ & Hok). pose proof (steps_left_bounds _ _ _ _ _ Hok) as Hb.
  destruct (copy_out_runs t now value (Z.to_nat (steps_left (CopyOut e' f 0 0 None))) (Z.of_nat k + 1) m2 (CopyOut e' f 0 0 None) (Later (CopyOut e' f 0 0 None)) ltac:(lia) ltac:(lia) HIw)
    as (m3 & Hex3); [by exists e', f, 0, 0, None|exact Hp|lia|].
  exists d1, (Z.to_nat (steps_left (CopyOut e' f 0 0 None))), m1, m3. split; [done|].
  cbn [exec SharedMemCache.step]. unfold run_thread. rewrite Heq. cbn [mbind option_bind settle]. exact Hex3.
Qed.

(** A [Put] of a value that is larger than [MaxValueSize] changes nothing: the older value of the
    key, if there is one, stays and can be read. *)
Lemma oversized_Put_changes_nothing m t h ts value start now : pending m !! t = None ->
  MaxValueSize < Z.of_nat (length value) -> step (StartPut t h ts value start now) m = Some (m, Done).
Proof.
  intros Ht Hv. cbn [SharedMemCache.step]. unfold run_thread, PutRawHash.
  rewrite (proj2 (Z.ltb_lt _ _)) by done. cbn [mbind option_bind settle]. rewrite delete_id by done. by destruct m.
Qed.

Lemma allowed_run_cons ev evs m m' r : allowed ev m -> step ev m = Some (m', r) -> allowed_run evs m' ->
  allowed_run (ev :: evs) m.
Proof. intros H1 H2 H3. split; [done|]. intros m2 r2. rewrite H2. by intros [= <- <-]. Qed.

End spec.

(** ** Runs of a small cache: 8 blocks of 8 bytes, 4 entries, values of at most 8 bytes *)

Definition small_sector : Sector := default (mkSector 0 0 0 false no_sector_stats [] [] []) (Initialize 8 4 8).
Definition small_exec := exec 8 1 4 8.
Definition key_a : bytes := lit "0123456789abcdef".
Definition key_b : bytes := lit "fedcba9876543210".

(** A value is put; then it is read while it is overwritten, and the writer waits. *)
Definition put_a : list Event := [StartPut 1 key_a 5 (lit "ninth") 0 0; Next 1 0; Next 1 0].
Definition after_put : Machine := default (new_machine small_sector) (fst <$> small_exec put_a (new_machine small_sector) Done).
Definition get_a : Event := StartGet 2 key_a 6.
Definition while_read : list Event :=
  [StartPut 1 key_a 7 (lit "tenth") 0 0; Next 2 1; Next 1 1; StartPut 3 key_b 8 (lit "other") 0 0; Next 3 1; Next 2 1].
Definition reading_started : Machine := default after_put (fst <$> SharedMemCache.step 8 1 4 8 get_a after_put).
Definition reading_ends : Machine := default after_put (fst <$> small_exec while_read reading_started Done).

Example small_run : (exists m, SharedMemCache.step 8 1 4 8 (Next 2 2) reading_ends = Some (m, Available (lit "ninth"))).
Proof. eexists. vm_compute. reflexivity. Qed.

Ltac allowed_now := cbn [allowed]; first [eexists; vm_compute; reflexivity | repeat split; vm_compute; reflexivity].
Ltac run_ok := cbv [put_a get_a while_read app]; repeat first [exact I | eapply allowed_run_cons; [allowed_now|vm_compute; reflexivity|]].

Lemma small_reaches evs m r : allowed_run 8 1 4 8 evs (new_machine small_sector) ->
  small_exec evs (new_machine small_sector) Done = Some (m, r) -> reaches 8 1 4 8 (length evs) m.
Proof. intros H1 H2. exists small_sector, evs, r. split; [vm_compute; reflexivity|]. by split. Qed.

Lemma after_put_reached : reaches 8 1 4 8 3 after_put.
Proof. apply (small_reaches put_a _ Done); [run_ok|vm_compute; reflexivity]. Qed.

Lemma reading_ends_reached : reachable 8 1 4 8 reading_ends.
Proof.
  exists 10%nat. split; [done|]. eapply (small_reaches (put_a ++ get_a :: while_read)); [run_ok|vm_compute; reflexivity].
Qed.

Lemma small_dimensions : 0 < 8 <= 4096 /\ 0 < 1 /\ 0 < 4 /\ 0 < 8 < 2 ^ 31.
Proof. lia. Qed.

Lemma no_run_fails_witness :
  (exists m r, SharedMemCache.step 8 1 4 8 (Next 2 2) reading_ends = Some (m, r)) /\
  (exists s, SanityCheck 8 8 (sector reading_ends) = Some s).
Proof.
  apply (no_run_fails 8 1 4 8 ltac:(lia) ltac:(lia) ltac:(lia) ltac:(lia)); [apply reading_ends_reached|allowed_now].
Defined.

(** The waiting writer of [key_a] and the reader are on the same entry, the writer of [key_b] on another. *)
Lemma writers_exclude_everybody_witness : exists p p',
  pending reading_ends !! 3 = Some p /\ pending reading_ends !! 2 = Some p' /\ copies_in p /\
  forall x, x ∈ blocks_of p -> x ∉ blocks_of p'.
Proof.
  eexists _, _. split; [vm_compute; reflexivity|]. split; [vm_compute; reflexivity|]. split; [exact I|].
  refine (proj1 (writers_exclude_everybody 8 1 4 8 ltac:(lia) ltac:(lia) ltac:(lia) ltac:(lia) reading_ends 3 2 _ _
    reading_ends_reached ltac:(done) ltac:(vm_compute; reflexivity) ltac:(vm_compute; reflexivity)) I).
Defined.

Lemma Get_delivers_the_last_put_witness : last_put after_put !! key_a = Some (lit "ninth").
Proof.
  eapply (Get_delivers_the_last_put 8 1 4 8 ltac:(lia) ltac:(lia) ltac:(lia) ltac:(lia) 3 after_put 2 key_a 6 reading_started _ while_read
    reading_ends _ 2); [apply after_put_reached|done|allowed_now|vm_compute; reflexivity|run_ok| |vm_compute; reflexivity|vm_compute; reflexivity].
  repeat constructor; done.
Defined.

Lemma every_operation_ends_witness : exists p m r,
  pending reading_ends !! 2 = Some p /\ SharedMemCache.step 8 1 4 8 (Next 2 2) reading_ends = Some (m, r) /\
  0 < steps_left 8 p <= 10.
Proof.
  eexists _, _, _. split; [vm_compute; reflexivity|]. split; [vm_compute; reflexivity|].
  eapply (every_operation_ends 8 1 4 8 ltac:(lia) ltac:(lia) ltac:(lia) ltac:(lia) reading_ends 2 _ 2);
    [apply reading_ends_reached|vm_compute; reflexivity|exact I|vm_compute; reflexivity].
Defined.

Lemma Put_then_Get_hits_witness : exists d1 d2 m1 m2,
  small_exec (StartPut 1 key_b 9 (lit "12345678") 0 0 :: replicate d1 (Next 1 0)) after_put Done = Some (m1, Done) /\
  small_exec (StartGet 1 key_b 9 :: replicate d2 (Next 1 0)) m1 Done = Some (m2, Available (lit "12345678")).
Proof.
  apply (Put_then_Get_hits 8 1 4 8 ltac:(lia) ltac:(lia) ltac:(lia) ltac:(lia) 3); try done.
  - apply after_put_reached.
  - split; [vm_compute; reflexivity|vm_compute; reflexivity|].
    intros e c Hv. destruct (view_in _ _ _ Hv) as (en & Hen & ->). pose proof (zat_Some _ _ _ Hen) as Hr.
    assert (e = 0 \/ e = 1 \/ e = 2 \/ e = 3) as He by (revert Hr; vm_compute (Z.of_nat _); lia).
    destruct He as [-> |[-> |[-> | ->]]]; vm_compute in Hen; injection Hen as <-; reflexivity.
Defined.
