(* ===== verification/ProofwireLedger.v ===== *)
(** * The ledger of serving decisions

    src/pagespeed/kernel/proofwire/ledger.h and .cc: an append-only chain of
    records, each hashed together with the hash of its predecessor, and signed.

    SHA-512 and Ed25519 are a library outside of src/: they are the parameters
    [sha512], [ed25519_sign] and [ed25519_verify] of the definitions. A [uint64]
    is a [Z] in [0, 2^64), an [int64] a [Z] in [-2^63, 2^63). *)

From S2P Require Import Prelude.

Definition kEd25519PublicKeyLen : nat := 32.
Definition kEd25519PrivateKeyLen : nat := 64.
Definition kEd25519SignatureLen : nat := 64.
Definition kSha512DigestLen : nat := 64.

Record LedgerRecord := mkLedgerRecord {
  seq : Z;
  prev_hash : bytes;
  timestamp_us : Z;
  payload : bytes;
  record_hash : bytes;
  signature : bytes;
}.

Record VerifyResult := mkVerifyResult {
  ok : bool;
  first_bad_seq : Z;
  message : bytes;
}.

Record Ledger := mkLedger {
  public_key_ : bytes;
  private_key_ : bytes;
  records_ : list LedgerRecord;
}.

(** The loop [for (int i = 0; i < 8; ++i)] with [n] iterations to go. *)
Fixpoint AppendLE64_loop (n : nat) (value : Z) (out : bytes) : bytes :=
  match n with
  | O => out
  | S n => AppendLE64_loop n (Z.shiftr value 8) (out ++ [chr (Z.land value 0xff)])
  end.
Definition AppendLE64 (value : Z) (out : bytes) : bytes := AppendLE64_loop 8 value out.

Definition SecureWipe (s : bytes) : bytes :=
  match s with
  | [] => s
  | _ => replicate (length s) (chr 0)
  end.

Definition GenesisPrevHash : bytes := replicate kSha512DigestLen (chr 0).

(** The canonical pre-image that [ComputeRecordHash] builds. *)
Definition pre_image (prev_hash : bytes) (seq timestamp_us : Z) (payload : bytes) : bytes :=
  AppendLE64 (u64 (Z.of_nat (length payload)))
    (AppendLE64 (u64 timestamp_us) (AppendLE64 seq prev_hash)) ++ payload.

(** [Ledger::Ledger] and the wipe of [Ledger::~Ledger]. *)
Definition new_Ledger (public_key private_key : bytes) : Ledger :=
  mkLedger public_key private_key [].
Definition destroy_Ledger (l : Ledger) : Ledger :=
  mkLedger (public_key_ l) (SecureWipe (private_key_ l)) (records_ l).

Section Crypto.
Variable sha512 : bytes -> bytes.
(** [ed25519_sign message public_key private_key]. *)
Variable ed25519_sign : bytes -> bytes -> bytes -> bytes.
(** [ed25519_verify signature message public_key]. *)
Variable ed25519_verify : bytes -> bytes -> bytes -> bool.

Definition ComputeRecordHash (prev_hash : bytes) (seq timestamp_us : Z) (payload : bytes) : bytes :=
  sha512 (pre_image prev_hash seq timestamp_us payload).

Definition Append (l : Ledger) (payload : bytes) (timestamp_us : Z) : bool * Ledger :=
  if negb (length (public_key_ l) =? kEd25519PublicKeyLen)%nat
     || negb (length (private_key_ l) =? kEd25519PrivateKeyLen)%nat
  then (false, l)
  else
    let seq := u64 (Z.of_nat (length (records_ l))) in
    let prev := match last (records_ l) with
                | None => GenesisPrevHash
                | Some r => record_hash r
                end in
    let hash := ComputeRecordHash prev seq timestamp_us payload in
    let sig := ed25519_sign hash (public_key_ l) (private_key_ l) in
    (true, mkLedger (public_key_ l) (private_key_ l)
             (records_ l ++ [mkLedgerRecord seq prev timestamp_us payload hash sig])).

(** The loop of [Verify] from position [i] on. *)
Fixpoint Verify_loop (records : list LedgerRecord) (i : nat) (expected_prev public_key : bytes)
    : VerifyResult :=
  match records with
  | [] => mkVerifyResult true 0 []
  | r :: records' =>
      if negb (seq r =? u64 (Z.of_nat i)) then
        mkVerifyResult false (u64 (Z.of_nat i)) (lit "sequence number does not match position")
      else if negb (bool_decide (prev_hash r = expected_prev)) then
        mkVerifyResult false (seq r) (lit "prev_hash does not link to predecessor")
      else if negb (bool_decide
                      (ComputeRecordHash (prev_hash r) (seq r) (timestamp_us r) (payload r)
                       = record_hash r)) then
        mkVerifyResult false (seq r) (lit "record_hash mismatch (payload or fields tampered)")
      else if negb (length (signature r) =? kEd25519SignatureLen)%nat
              || negb (length (record_hash r) =? kSha512DigestLen)%nat
              || negb (length public_key =? kEd25519PublicKeyLen)%nat then
        mkVerifyResult false (seq r) (lit "malformed signature, hash, or public key")
      else if negb (ed25519_verify (signature r) (record_hash r) public_key) then
        mkVerifyResult false (seq r) (lit "Ed25519 signature verification failed")
      else Verify_loop records' (S i) (record_hash r) public_key
  end.
Definition Verify (records : list LedgerRecord) (public_key : bytes) : VerifyResult :=
  Verify_loop records 0 GenesisPrevHash public_key.

Definition VerifyChain (l : Ledger) : VerifyResult := Verify (records_ l) (public_key_ l).

(** A caller appends observations one after the other. *)
Fixpoint Append_all (l : Ledger) (observations : list (bytes * Z)) : bool * Ledger :=
  match observations with
  | [] => (true, l)
  | (payload, ts) :: rest =>
      let '(ok, l) := Append l payload ts in
      let '(oks, l) := Append_all l rest in (ok && oks, l)
  end.

(** ** What a valid record is *)

(** The predecessor hash the record at position [i] must carry. *)
Definition link_at (records : list LedgerRecord) (i : nat) : bytes :=
  match i with
  | O => GenesisPrevHash
  | S j => match records !! j with Some r => record_hash r | None => [] end
  end.

Definition record_ok (i : nat) (link public_key : bytes) (r : LedgerRecord) : Prop :=
  seq r = u64 (Z.of_nat i) /\ prev_hash r = link /\
  record_hash r = ComputeRecordHash (prev_hash r) (seq r) (timestamp_us r) (payload r) /\
  length (signature r) = kEd25519SignatureLen /\ length (record_hash r) = kSha512DigestLen /\
  length public_key = kEd25519PublicKeyLen /\
  ed25519_verify (signature r) (record_hash r) public_key = true.

(** What the hash covers. *)
Definition content (r : LedgerRecord) : bytes * Z * Z * bytes * bytes :=
  (prev_hash r, seq r, timestamp_us r, payload r, record_hash r).

(** The C++ types: an [int64] timestamp, a payload that fits in memory. *)
Definition typed (r : LedgerRecord) : Prop :=
  - 2 ^ 63 <= timestamp_us r < 2 ^ 63 /\ Z.of_nat (length (payload r)) < 2 ^ 64.

Definition own_pre_image (r : LedgerRecord) : bytes :=
  pre_image (prev_hash r) (seq r) (timestamp_us r) (payload r).

(** Two records with different contents and the same hash. *)
Definition collide (r1 r2 : LedgerRecord) : Prop :=
  own_pre_image r1 <> own_pre_image r2 /\ sha512 (own_pre_image r1) = sha512 (own_pre_image r2).

(** ** The canonical layout is unambiguous *)

Lemma u64_range z : 0 <= u64 z < 2 ^ 64.
Proof using Type. apply Z.mod_pos_bound. lia. Qed.

Lemma AppendLE64_loop_app n v out : AppendLE64_loop n v out = out ++ AppendLE64_loop n v [].
Proof using Type.
  revert v out. induction n as [|n IH]; intros v out; cbn; [by rewrite app_nil_r|].
  rewrite IH, (IH _ [_]). by rewrite <- app_assoc.
Qed.

Lemma AppendLE64_app v out : AppendLE64 v out = out ++ AppendLE64 v [].
Proof using Type. apply AppendLE64_loop_app. Qed.

Lemma AppendLE64_length v : length (AppendLE64 v []) = 8%nat.
Proof using Type. done. Qed.

Lemma AppendLE64_loop_inj n v w :
  0 <= v < 2 ^ (8 * Z.of_nat n) -> 0 <= w < 2 ^ (8 * Z.of_nat n) ->
  AppendLE64_loop n v [] = AppendLE64_loop n w [] -> v = w.
Proof using Type.
  revert v w. induction n as [|n IH]; intros v w Hv Hw; [cbn in *; lia|].
  cbn [AppendLE64_loop]. rewrite AppendLE64_loop_app, (AppendLE64_loop_app n (Z.shiftr w 8)).
  intros [= Hc Ht]. rewrite !Z.shiftr_div_pow2 in Ht by lia.
  change 255 with (Z.ones 8) in Hc. rewrite !Z.land_ones in Hc by lia.
  apply (f_equal code) in Hc. rewrite !code_chr in Hc by (apply Z.mod_pos_bound; lia).
  replace (8 * Z.of_nat (S n)) with (8 + 8 * Z.of_nat n) in Hv, Hw by lia.
  rewrite Z.pow_add_r in Hv, Hw by lia.
  apply IH in Ht; [|split; [apply Z.div_pos; lia|apply Z.div_lt_upper_bound; lia]..].
  rewrite (Z.div_mod v (2 ^ 8)), (Z.div_mod w (2 ^ 8)) by lia. by rewrite Hc, Ht.
Qed.

Lemma AppendLE64_inj v w :
  0 <= v < 2 ^ 64 -> 0 <= w < 2 ^ 64 -> AppendLE64 v [] = AppendLE64 w [] -> v = w.
Proof using Type. apply (AppendLE64_loop_inj 8). Qed.

Lemma u64_int64_inj a b :
  - 2 ^ 63 <= a < 2 ^ 63 -> - 2 ^ 63 <= b < 2 ^ 63 -> u64 a = u64 b -> a = b.
Proof using Type.
  unfold u64. change (2 ^ 64) with 18446744073709551616. change (2 ^ 63) with 9223372036854775808.
  pose proof (Z.div_mod a 18446744073709551616). pose proof (Z.div_mod b 18446744073709551616). lia.
Qed.

Lemma pre_image_layout prev s t p :
  pre_image prev s t p =
  prev ++ AppendLE64 s [] ++ AppendLE64 (u64 t) [] ++ AppendLE64 (u64 (Z.of_nat (length p))) [] ++ p.
Proof using Type.
  unfold pre_image. rewrite AppendLE64_app, (AppendLE64_app (u64 t)), (AppendLE64_app s).
  by rewrite <- !app_assoc.
Qed.

Lemma pre_image_inj prev1 s1 t1 p1 prev2 s2 t2 p2 :
  length prev1 = length prev2 -> 0 <= s1 < 2 ^ 64 -> 0 <= s2 < 2 ^ 64 ->
  - 2 ^ 63 <= t1 < 2 ^ 63 -> - 2 ^ 63 <= t2 < 2 ^ 63 ->
  pre_image prev1 s1 t1 p1 = pre_image prev2 s2 t2 p2 ->
  prev1 = prev2 /\ s1 = s2 /\ t1 = t2 /\ p1 = p2.
Proof using Type.
  intros Hl Hs1 Hs2 Ht1 Ht2. rewrite !pre_image_layout. intros H.
  apply app_inj_1 in H as [-> H]; [|done].
  apply app_inj_1 in H as [Hs H]; [|by rewrite !AppendLE64_length].
  apply app_inj_1 in H as [Ht H]; [|by rewrite !AppendLE64_length].
  apply app_inj_1 in H as [_ ->]; [|by rewrite !AppendLE64_length].
  apply AppendLE64_inj in Hs; [|done..]. apply AppendLE64_inj in Ht; [|apply u64_range..].
  by apply u64_int64_inj in Ht.
Qed.

(** ** [Verify] *)

Lemma Verify_step i link pk r records :
  (record_ok i link pk r /\
   Verify_loop (r :: records) i link pk = Verify_loop records (S i) (record_hash r) pk) \/
  (~ record_ok i link pk r /\ ok (Verify_loop (r :: records) i link pk) = false /\
   first_bad_seq (Verify_loop (r :: records) i link pk) = u64 (Z.of_nat i)).
Proof using Type.
  clear ed25519_sign. cbn [Verify_loop]. unfold record_ok.
  destruct (Z.eqb_spec (seq r) (u64 (Z.of_nat i))) as [Hs|Hs]; cbn; [|right; naive_solver].
  case_bool_decide as Hp; cbn; [|right; naive_solver].
  case_bool_decide as Hh; cbn; [|right; naive_solver].
  destruct (Nat.eqb_spec (length (signature r)) kEd25519SignatureLen) as [Hg|Hg]; cbn; [|right; naive_solver].
  destruct (Nat.eqb_spec (length (record_hash r)) kSha512DigestLen) as [Hd|Hd]; cbn; [|right; naive_solver].
  destruct (Nat.eqb_spec (length pk) kEd25519PublicKeyLen) as [Hk|Hk]; cbn; [|right; naive_solver].
  destruct (ed25519_verify _ _ _) eqn:Hv; cbn; [left|right]; naive_solver.
Qed.

(** Every record before position [n] is valid. *)
Definition valid_below (records : list LedgerRecord) (pk : bytes) (n : nat) : Prop :=
  forall i r, (i < n)%nat -> records !! i = Some r -> record_ok i (link_at records i) pk r.

Lemma valid_below_S records pk n r :
  valid_below records pk n -> records !! n = Some r -> record_ok n (link_at records n) pk r ->
  valid_below records pk (S n).
Proof using Type.
  intros Hv Hr Hok i r' Hi Hr'. destruct (decide (i = n)) as [->|]; [congruence|].
  apply Hv; [lia|done].
Qed.

Lemma Verify_loop_spec pk rest : forall records n,
  drop n records = rest -> valid_below records pk n ->
  let v := Verify_loop rest n (link_at records n) pk in
  (v = mkVerifyResult true 0 [] /\ valid_below records pk (length records)) \/
  (ok v = false /\ exists i r, records !! i = Some r /\ first_bad_seq v = u64 (Z.of_nat i) /\
     ~ record_ok i (link_at records i) pk r /\ valid_below records pk i).
Proof using Type.
  induction rest as [|r rest IH]; intros records n Hd Hv v.
  - left. split; [done|]. intros i r _ Hr. apply Hv; [|done].
    apply lookup_lt_Some in Hr. apply (f_equal length) in Hd. rewrite length_drop in Hd. cbn in Hd. lia.
  - assert (records !! n = Some r) as Hr by (by rewrite <- (Nat.add_0_r n), <- lookup_drop, Hd).
    subst v. destruct (Verify_step n (link_at records n) pk r rest) as [[Hok ->]|(Hbad & Hf & Hb)].
    + replace (record_hash r) with (link_at records (S n)) by (cbn; by rewrite Hr).
      apply IH; [|by eapply valid_below_S].
      by rewrite <- Nat.add_1_r, <- drop_drop, Hd.
    + right. split; [done|]. by exists n, r.
Qed.

Lemma Verify_ok records pk :
  ok (Verify records pk) = true <-> valid_below records pk (length records).
Proof using Type.
  destruct (Verify_loop_spec pk records records 0 eq_refl) as [[Hok Hv]|(Hf & i & r & Hr & _ & Hn & _)].
  - intros i r Hi. lia.
  - unfold Verify. change GenesisPrevHash with (link_at records 0). by rewrite Hok.
  - unfold Verify. change GenesisPrevHash with (link_at records 0). rewrite Hf. split; [done|].
    intros Hv. destruct Hn. apply Hv; [|done]. by eapply lookup_lt_Some.
Qed.

(** [Verify] accepts a chain exactly if every record stands at the position of
    its sequence number, links to its predecessor, hashes to its own hash and is
    signed; otherwise [first_bad_seq] is the position of the first record that
    does not. *)
Lemma Verify_first_offender records pk :
  let v := Verify records pk in
  (ok v = true /\
     forall i r, records !! i = Some r -> record_ok i (link_at records i) pk r) \/
  (ok v = false /\
     exists i r, records !! i = Some r /\ first_bad_seq v = u64 (Z.of_nat i) /\
       ~ record_ok i (link_at records i) pk r /\
       forall j r', (j < i)%nat -> records !! j = Some r' -> record_ok j (link_at records j) pk r').
Proof using Type.
  destruct (Verify_loop_spec pk records records 0 eq_refl) as [[Hv Ha]|(Hf & i & r & H)]; [intros i r; lia|..].
  - left. unfold Verify. change GenesisPrevHash with (link_at records 0). rewrite Hv. split; [done|].
    intros i r Hr. apply Ha; [by eapply lookup_lt_Some|done].
  - right. split; [done|]. by exists i, r.
Qed.

(** An accepted chain is accepted after its last records are cut off: nothing in
    the chain says how long it is. *)
Lemma truncation_passes records pk n :
  ok (Verify records pk) = true -> ok (Verify (take n records) pk) = true.
Proof using Type.
  rewrite !Verify_ok. intros Hv i r _ Hr. apply lookup_take_Some in Hr as [Hr Hi].
  pose proof (Hv i r (lookup_lt_Some _ _ _ Hr) Hr) as H.
  destruct i as [|j]; [done|]. cbn in *. rewrite lookup_take_lt by lia. done.
Qed.

(** ** Tampering *)

Lemma valid_below_le records pk n m :
  valid_below records pk n -> (m <= n)%nat -> valid_below records pk m.
Proof using Type. intros Hv Hm i r Hi. apply Hv. lia. Qed.

Lemma link_length records pk i :
  valid_below records pk (length records) -> (i <= length records)%nat ->
  length (link_at records i) = kSha512DigestLen.
Proof using Type.
  intros Hv Hi. destruct i as [|j]; [done|]. cbn.
  destruct (lookup_lt_is_Some_2 records j Hi) as [r Hr]. rewrite Hr.
  by apply (Hv j r) in Hr as (_ & _ & _ & _ & ? & _); [|lia].
Qed.

Lemma record_hash_own i link pk r :
  record_ok i link pk r -> record_hash r = sha512 (own_pre_image r).
Proof using Type. by intros (_ & _ & H & _). Qed.

(** Two valid records of equal hash that do not collide say the same. *)
Lemma same_hash_same_content i1 i2 l1 l2 pk1 pk2 r1 r2 :
  record_ok i1 l1 pk1 r1 -> record_ok i2 l2 pk2 r2 -> length l1 = length l2 ->
  typed r1 -> typed r2 -> record_hash r1 = record_hash r2 -> ~ collide r1 r2 ->
  content r1 = content r2.
Proof using Type.
  intros H1 H2 Hl [Ht1 _] [Ht2 _] Hh Hn.
  assert (own_pre_image r1 = own_pre_image r2) as Hp.
  { destruct (decide (own_pre_image r1 = own_pre_image r2)) as [|Hd]; [done|]. destruct Hn.
    split; [done|]. by rewrite <- (record_hash_own _ _ _ _ H1), <- (record_hash_own _ _ _ _ H2). }
  destruct H1 as (Hs1 & Hp1 & _), H2 as (Hs2 & Hp2 & _).
  unfold own_pre_image in Hp.
  assert (prev_hash r1 = prev_hash r2 /\ seq r1 = seq r2 /\ timestamp_us r1 = timestamp_us r2 /\
          payload r1 = payload r2) as (E1 & E2 & E3 & E4).
  { apply pre_image_inj; [by rewrite Hp1, Hp2|rewrite Hs1; apply u64_range
      |rewrite Hs2; apply u64_range|exact Ht1|exact Ht2|exact Hp]. }
  unfold content. congruence.
Qed.

(** Going back from two positions whose records have the same hash. *)
Lemma agree_backwards rs1 rs2 pk1 pk2 :
  valid_below rs1 pk1 (length rs1) -> valid_below rs2 pk2 (length rs2) ->
  Forall typed rs1 -> Forall typed rs2 ->
  (forall i r1 r2, rs1 !! i = Some r1 -> rs2 !! i = Some r2 -> ~ collide r1 r2) ->
  forall n, (n <= length rs1)%nat -> (n <= length rs2)%nat -> link_at rs1 n = link_at rs2 n ->
  content <$> take n rs1 = content <$> take n rs2.
Proof using Type.
  intros Hv1 Hv2 Ht1 Ht2 Hc. induction n as [|n IH]; intros H1 H2 Hl; [done|].
  destruct (lookup_lt_is_Some_2 rs1 n H1) as [r1 Hr1].
  destruct (lookup_lt_is_Some_2 rs2 n H2) as [r2 Hr2].
  cbn in Hl. rewrite Hr1, Hr2 in Hl.
  rewrite (take_S_r _ _ _ Hr1), (take_S_r _ _ _ Hr2), !fmap_app. cbn.
  pose proof (Hv1 n r1 H1 Hr1) as K1. pose proof (Hv2 n r2 H2 Hr2) as K2.
  rewrite Forall_lookup in Ht1, Ht2.
  assert (content r1 = content r2) as Hcr.
  { eapply same_hash_same_content; eauto.
    rewrite !(link_length _ _ n) by eauto with lia. done. }
  f_equal; [|by rewrite Hcr]. apply IH; [lia..|].
  destruct K1 as (_ & <- & _), K2 as (_ & <- & _). by injection Hcr.
Qed.

Lemma last_record_ok records pk r :
  ok (Verify records pk) = true -> last records = Some r ->
  exists n, length records = S n /\ records !! n = Some r /\ record_ok n (link_at records n) pk r.
Proof using Type.
  intros Hv%Verify_ok Hl. rewrite last_lookup in Hl.
  pose proof (lookup_lt_Some _ _ _ Hl) as Hn. exists (pred (length records)).
  split; [lia|]. split; [done|]. by apply Hv.
Qed.

#[local] Instance collide_dec r1 r2 : Decision (collide r1 r2) := _.

(** C29: If two chains verify, under whatever keys, and end in records of the same
    hash, then they have the same records up to the signatures (same number, same
    order, same payloads and timestamps), unless a record of one and a record of
    the other exhibit a collision of SHA-512. *)
Theorem tamper_evident records1 records2 pk1 pk2 r1 r2 :
  Forall typed records1 -> Forall typed records2 ->
  Z.of_nat (length records1) < 2 ^ 64 -> Z.of_nat (length records2) < 2 ^ 64 ->
  ok (Verify records1 pk1) = true -> ok (Verify records2 pk2) = true ->
  last records1 = Some r1 -> last records2 = Some r2 -> record_hash r1 = record_hash r2 ->
  content <$> records1 = content <$> records2 \/
  exists x1 x2, x1 ∈ records1 /\ x2 ∈ records2 /\ collide x1 x2.
Proof using Type.
  intros Ht1 Ht2 Hb1 Hb2 Hv1 Hv2 Hl1 Hl2 Hh.
  destruct (decide (Exists (fun x1 => Exists (collide x1) records2) records1)) as [He|Hn].
  { right. apply Exists_exists in He as (x1 & Hx1 & He). apply Exists_exists in He as (x2 & Hx2 & Hc). eauto. }
  left. assert (forall x1 x2, x1 ∈ records1 -> x2 ∈ records2 -> ~ collide x1 x2) as Hc.
  { intros x1 x2 Hx1 Hx2 Hx. apply Hn, Exists_exists. exists x1. split; [done|]. apply Exists_exists. eauto. }
  destruct (last_record_ok _ _ _ Hv1 Hl1) as (n1 & E1 & Hr1 & K1).
  destruct (last_record_ok _ _ _ Hv2 Hl2) as (n2 & E2 & Hr2 & K2).
  rewrite Verify_ok in Hv1, Hv2.
  assert (content r1 = content r2) as Hcr.
  { eapply same_hash_same_content; [exact K1|exact K2|..|exact Hh|].
    - by rewrite (link_length _ _ _ Hv1), (link_length _ _ _ Hv2) by lia.
    - exact (Forall_lookup_1 _ _ _ _ Ht1 Hr1).
    - exact (Forall_lookup_1 _ _ _ _ Ht2 Hr2).
    - apply Hc; by eapply list_elem_of_lookup_2. }
  assert (n1 = n2) as <-.
  { destruct K1 as (S1 & _), K2 as (S2 & _). injection Hcr as _ Hs _ _ _. rewrite S1, S2 in Hs.
    unfold u64 in Hs. rewrite !Z.mod_small in Hs by lia. lia. }
  rewrite <- (firstn_all records1), <- (firstn_all records2), E1, E2.
  eapply agree_backwards; [exact Hv1|exact Hv2|done|done| |lia|lia|cbn; by rewrite Hr1, Hr2].
  intros i x1 x2 Hx1 Hx2. apply Hc; by eapply list_elem_of_lookup_2.
Qed.

(** ** [Append] *)

Lemma valid_below_snoc records pk r :
  valid_below records pk (length records) ->
  record_ok (length records) (link_at records (length records)) pk r ->
  valid_below (records ++ [r]) pk (length (records ++ [r])).
Proof using Type.
  intros Hv Hr i r' Hi Hr'. rewrite length_app in Hi. cbn in Hi.
  assert (link_at (records ++ [r]) i = link_at records i) as Hl.
  { destruct i as [|j]; [done|]. cbn. by rewrite lookup_app_l by lia. }
  rewrite Hl. destruct (decide (i = length records)) as [->|].
  - rewrite list_lookup_middle in Hr' by done. by injection Hr' as <-.
  - rewrite lookup_app_l in Hr' by lia. apply Hv; [lia|done].
Qed.

Lemma link_at_end records : link_at records (length records) =
  match last records with None => GenesisPrevHash | Some r => record_hash r end.
Proof using Type.
  destruct records as [|r records] using rev_ind; [done|].
  rewrite last_snoc, length_app, Nat.add_1_r. cbn. by rewrite list_lookup_middle by done.
Qed.

(** Key material of the right lengths whose signatures verify. *)
Definition good_keypair (pk sk : bytes) : Prop :=
  length pk = kEd25519PublicKeyLen /\ length sk = kEd25519PrivateKeyLen /\
  forall m, length (ed25519_sign m pk sk) = kEd25519SignatureLen /\
            ed25519_verify (ed25519_sign m pk sk) m pk = true.

Definition observation (r : LedgerRecord) : bytes * Z := (payload r, timestamp_us r).

Lemma Append_ok pk sk records p ts :
  (forall m, length (sha512 m) = kSha512DigestLen) -> good_keypair pk sk ->
  valid_below records pk (length records) ->
  exists r, Append (mkLedger pk sk records) p ts = (true, mkLedger pk sk (records ++ [r])) /\
    observation r = (p, ts) /\ valid_below (records ++ [r]) pk (length (records ++ [r])).
Proof using Type.
  intros Hsha (Hpk & Hsk & Hsign) Hv. unfold Append. cbn [public_key_ private_key_ records_].
  rewrite Hpk, Hsk. cbn [negb orb Nat.eqb]. eexists. split; [done|]. split; [done|].
  apply valid_below_snoc; [done|]. repeat split; cbn.
  - by rewrite link_at_end.
  - apply Hsign.
  - apply Hsha.
  - done.
  - apply Hsign.
Qed.

Lemma Append_all_ok pk sk obs : forall records,
  (forall m, length (sha512 m) = kSha512DigestLen) -> good_keypair pk sk ->
  valid_below records pk (length records) ->
  exists more, Append_all (mkLedger pk sk records) obs = (true, mkLedger pk sk (records ++ more)) /\
    observation <$> more = obs /\ valid_below (records ++ more) pk (length (records ++ more)).
Proof using Type.
  induction obs as [|[p ts] obs IH]; intros records Hsha Hk Hv; cbn [Append_all].
  - exists []. by rewrite app_nil_r.
  - destruct (Append_ok pk sk records p ts Hsha Hk Hv) as (r & -> & Ho & Hv').
    destruct (IH _ Hsha Hk Hv') as (more & -> & Hm & Hv''). exists (r :: more). cbn.
    rewrite <- app_assoc in Hv''. rewrite <- app_assoc. by rewrite Ho, Hm.
Qed.

(** C40: With a working keypair every observation is appended, the chain holds them
    in order and verifies; with key material of a wrong length nothing is ever
    appended. *)
Theorem Append_then_verify pk sk obs :
  (forall m, length (sha512 m) = kSha512DigestLen) ->
  (good_keypair pk sk ->
     let '(done, l) := Append_all (new_Ledger pk sk) obs in
     done = true /\ ok (VerifyChain l) = true /\ observation <$> records_ l = obs) /\
  (~ (length pk = kEd25519PublicKeyLen /\ length sk = kEd25519PrivateKeyLen) -> obs <> [] ->
     Append_all (new_Ledger pk sk) obs = (false, new_Ledger pk sk)).
Proof using Type.
  intros Hsha. split.
  - intros Hk. unfold new_Ledger. destruct (Append_all_ok pk sk obs [] Hsha Hk) as (more & -> & Hm & Hv); [intros i r Hi; cbn in Hi; lia|].
    split; [done|]. split; [by apply Verify_ok|done].
  - intros Hbad. assert (forall p ts, Append (new_Ledger pk sk) p ts = (false, new_Ledger pk sk)) as Ha.
    { intros p ts. unfold Append. cbn [public_key_ private_key_ new_Ledger].
      destruct (Nat.eqb_spec (length pk) kEd25519PublicKeyLen); [|done].
      destruct (Nat.eqb_spec (length sk) kEd25519PrivateKeyLen); [|done]. by destruct Hbad. }
    intros Hne. destruct obs as [|[p ts] obs]; [done|]. cbn [Append_all]. rewrite Ha.
    cut (snd (Append_all (new_Ledger pk sk) obs) = new_Ledger pk sk).
    { destruct (Append_all _ obs) as [b l]. by intros [= ->]. }
    clear Hne. induction obs as [|[p' ts'] obs IH]; [done|]. cbn [Append_all]. rewrite Ha.
    by destruct (Append_all _ obs) as [b l].
Qed.
End Crypto.

(** ** Witnesses *)

Definition toy_sha512 (m : bytes) : bytes := take 64 (rev m ++ replicate 64 (chr 0)).
Definition toy_sign (m pk sk : bytes) : bytes := take 64 (m ++ replicate 64 (chr 0)).
Definition toy_verify (sig m pk : bytes) : bool := bool_decide (sig = take 64 (m ++ replicate 64 (chr 0))).
Definition toy_pk : bytes := replicate 32 "p"%char.
Definition toy_sk : bytes := replicate 64 "s"%char.
Definition toy_chain : list LedgerRecord :=
  records_ (snd (Append_all toy_sha512 toy_sign (new_Ledger toy_pk toy_sk)
                   [(lit "defer js", 1700000000); (lit "inline css", -5)])).

Lemma toy_length m : length (take 64 (m ++ replicate 64 (chr 0))) = 64%nat.
Proof. rewrite length_take, length_app, length_replicate. lia. Qed.

Lemma toy_keypair : good_keypair toy_sign toy_verify toy_pk toy_sk.
Proof.
  split; [done|]. split; [done|]. intros m. split; [apply toy_length|].
  unfold toy_verify, toy_sign. by rewrite bool_decide_eq_true.
Qed.

(** The same chain, re-signed with a key for which every signature of 64 bytes
    passes. *)
Lemma tamper_evident_witness :
  let other := (fun r => mkLedgerRecord (seq r) (prev_hash r) (timestamp_us r) (payload r)
                           (record_hash r) (replicate 64 "x"%char)) <$> toy_chain in
  content <$> toy_chain = content <$> other \/
  exists x1 x2, x1 ∈ toy_chain /\ x2 ∈ other /\ collide toy_sha512 x1 x2.
Proof.
  intros other.
  eapply (tamper_evident toy_sha512 (fun _ _ _ => true) toy_chain other toy_pk (replicate 32 "q"%char)).
  - repeat constructor; vm_compute; congruence.
  - repeat constructor; vm_compute; congruence.
  - vm_compute. reflexivity.
  - vm_compute. reflexivity.
  - vm_compute. reflexivity.
  - vm_compute. reflexivity.
  - vm_compute. reflexivity.
  - vm_compute. reflexivity.
  - vm_compute. reflexivity.
Defined.

Lemma Append_then_verify_witness :
  let '(done, l) := Append_all toy_sha512 toy_sign (new_Ledger toy_pk toy_sk) [(lit "defer js", 1)] in
  done = true /\ ok (VerifyChain toy_sha512 toy_verify l) = true /\
  observation <$> records_ l = [(lit "defer js", 1)].
Proof.
  apply (Append_then_verify toy_sha512 toy_sign toy_verify toy_pk toy_sk [(lit "defer js", 1)]).
  - intros m. apply toy_length.
  - apply toy_keypair.
Defined.
