(* ===== verification/CacheBatcher.v ===== *)
(** * The cache batcher

    src/pagespeed/kernel/cache/cache_batcher.h and .cc: a bounded number of
    lookups is passed to the cache below at a time; further keys wait in
    [queued_] and are looked up together when a lookup ends, and a [Get] of a key
    that is being looked up already joins that lookup.

    An [event] is one section under [mutex_], one atomic access or one call of a
    method of a callback; a list of events is an interleaving of the threads that
    call [Get] and of those in which the cache below answers. A client callback is
    a number, and what its [ValidateCandidate] says is part of the event. A failed
    [CHECK] or [DCHECK] is [None]. The numbers of requests stay below 2^31, the
    counters do not wrap. [Put], [Delete], [IsBlocking] and [IsHealthy] only
    forward to the cache below. *)

From S2P Require Import Prelude LruCache CacheInterface.

Abbreviation CallbackMap := (gmap bytes (list nat)) (only parsing).

Record Options := mkOptions { max_parallel_lookups : Z; max_pending_gets : Z }.
Definition default_Options : Options := mkOptions 1 1000.

Record CacheBatcher := mkBatcher {
  in_flight_ : CallbackMap;
  last_batch_size_ : Z;
  num_in_flight_groups_ : Z;
  num_in_flight_keys_ : Z;
  num_pending_gets_ : Z;
  queued_ : CallbackMap;
  shutdown_ : bool;
  dropped_gets_ : Z;
  coalesced_gets_ : Z;
  queued_gets_ : Z;
}.
Definition new_CacheBatcher : CacheBatcher := mkBatcher ∅ (-1) 0 0 0 ∅ false 0 0 0.

(** ** MultiCallback *)

Record CallbackRecord := mkRecord { callback : nat; available : bool; state : KeyState }.

(** [Looking]: the cache below has the callback; [Reporting]: [Done] has left
    [DecrementInFlightGets] and has these callbacks yet to report to. *)
Inductive Stage := Looking | Reporting (rest : list CallbackRecord).

(** A MultiCallback, the key it was given out with, and how far [Done] is. *)
Record MultiCallback := mkMultiCallback { lookup_key : bytes; group_ : nat; saved_ : list CallbackRecord; stage : Stage }.

(** What a client callback was offered, and what it said. *)
Record Offer := mkOffer {
  offer_to : nat; offer_key : bytes; offer_state : KeyState; offer_value : bytes; accepted : bool }.

(** The loop of [MultiCallback::ValidateCandidate] over [saved_]. *)
Fixpoint validate_saved (key : bytes) (st : KeyState) (value : bytes) (verdict : nat -> bool)
    (saved : list CallbackRecord) : list CallbackRecord * bool * list Offer :=
  match saved with
  | [] => ([], true, [])
  | r :: saved =>
      let '(saved, all_succeed, offers) := validate_saved key st value verdict saved in
      if available r then (r :: saved, all_succeed, offers)
      else
        let yes := verdict (callback r) in
        let tmp_state := if yes then st else kNotFound in
        (mkRecord (callback r) (bool_decide (tmp_state = kAvailable)) tmp_state :: saved,
         yes && all_succeed, mkOffer (callback r) key st value yes :: offers)
  end.

(** ** The sections under the lock *)

Definition push_back (key : bytes) (c : nat) (m : CallbackMap) : CallbackMap :=
  <[key := default [] (m !! key) ++ [c]]> m.

Inductive Outcome := Coalesced | Immediate | Queued | Dropped.

Section batcher.
Variable options_ : Options.

Definition CanIssueGet (b : CacheBatcher) : bool :=
  negb (shutdown_ b) && (num_in_flight_groups_ b <? max_parallel_lookups options_).
Definition CanQueueCallback (b : CacheBatcher) : bool :=
  negb (shutdown_ b) && (num_pending_gets_ b <? max_pending_gets options_).

Definition Get_locked (key : bytes) (c : nat) (b : CacheBatcher) : CacheBatcher * Outcome :=
  let '(mkBatcher fl last groups keys pending qu sd dropped coalesced nqueued) := b in
  let can_queue := CanQueueCallback b in
  if can_queue && bool_decide (is_Some (fl !! key)) then
    (mkBatcher (push_back key c fl) last groups keys (pending + 1) qu sd dropped (coalesced + 1) nqueued, Coalesced)
  else if CanIssueGet b then
    (mkBatcher (push_back key c fl) last (groups + 1) (keys + 1) (pending + 1) qu sd dropped coalesced nqueued, Immediate)
  else if can_queue then
    (mkBatcher fl last groups keys (pending + 1) (push_back key c qu) sd dropped coalesced (nqueued + 1), Queued)
  else (mkBatcher fl last groups keys pending qu sd (dropped + 1) coalesced nqueued, Dropped).

(** The loop of [MoveQueuedKeys]: [emplace] and its [DCHECK]. *)
Fixpoint emplace_all (pairs : list (bytes * list nat)) (fl : CallbackMap) : option CallbackMap :=
  match pairs with
  | [] => Some fl
  | (key, src_callbacks) :: pairs =>
      match fl !! key with
      | Some _ => None
      | None => emplace_all pairs (<[key := src_callbacks]> fl)
      end
  end.

Definition MoveQueuedKeys (b : CacheBatcher) : option CacheBatcher :=
  let '(mkBatcher fl last groups keys pending qu sd dropped coalesced nqueued) := b in
  fl ← emplace_all (map_to_list qu) fl;
  Some (mkBatcher fl last groups (keys + Z.of_nat (size qu)) pending ∅ sd dropped coalesced nqueued).

(** [map.size()] callbacks of the group [group]. *)
Definition ConvertMapToRequest (group : nat) (m : CallbackMap) : list MultiCallback :=
  map (fun kv => mkMultiCallback kv.1 group [] Looking) (map_to_list m).

Definition CreateRequestForQueuedKeys (group : nat) (b : CacheBatcher) : option (CacheBatcher * list MultiCallback) :=
  let request := ConvertMapToRequest group (queued_ b) in
  b ← MoveQueuedKeys b; Some (b, request).

Definition ExtractInFlightKeys (key : bytes) (b : CacheBatcher) : option (list nat * CacheBatcher) :=
  let '(mkBatcher fl last groups keys pending qu sd dropped coalesced nqueued) := b in
  callbacks ← fl !! key;
  Some (callbacks, mkBatcher (delete key fl) last groups keys pending qu sd dropped coalesced nqueued).

Definition DecrementInFlightGets (n : Z) (b : CacheBatcher) : CacheBatcher :=
  let '(mkBatcher fl last groups keys pending qu sd dropped coalesced nqueued) := b in
  mkBatcher fl last groups (keys - 1) (pending - n) qu sd dropped coalesced nqueued.

(** [None] for the request when there is nothing to look up. *)
Definition GroupComplete_locked (group : nat) (b : CacheBatcher) : option (CacheBatcher * option (list MultiCallback)) :=
  let '(mkBatcher fl last groups keys pending qu sd dropped coalesced nqueued) := b in
  if decide (qu = ∅) then
    Some (mkBatcher fl last (groups - 1) keys pending qu sd dropped coalesced nqueued, None)
  else
    '(b, request) ← CreateRequestForQueuedKeys group
       (mkBatcher fl (Z.of_nat (size qu)) groups keys pending qu sd dropped coalesced nqueued);
    Some (b, Some request).

Definition ShutDown_locked (group : nat) (b : CacheBatcher) : option (CacheBatcher * option (list MultiCallback)) :=
  let '(mkBatcher fl last groups keys pending qu sd dropped coalesced nqueued) := b in
  if decide (qu = ∅) then
    Some (mkBatcher fl last groups keys pending qu true dropped coalesced nqueued, None)
  else
    '(b, request) ← CreateRequestForQueuedKeys group
       (mkBatcher fl last (groups + 1) keys pending qu true dropped coalesced nqueued);
    Some (b, Some request).

(** ** The batcher and the threads at work *)

Record System := mkSystem {
  batcher : CacheBatcher;
  groups : gmap nat Z;          (* [outstanding_lookups_] of the live groups *)
  lookups : list MultiCallback;        (* the live MultiCallbacks *)
  completions : nat;            (* calls of [GroupComplete] before the lock *)
  values : gmap nat bytes;      (* [value()] of the client callbacks *)
  (* history *)
  asked : list (nat * bytes);
  offered : list Offer;
  answered : list (nat * KeyState * bytes);
}.
Definition new_System : System := mkSystem new_CacheBatcher ∅ [] 0 ∅ [] [] [].

Inductive event :=
| EGet (key : bytes) (c : nat)
| EValidateCandidate (i : nat) (st : KeyState) (value : bytes) (verdict : nat -> bool)
| EDone (i : nat)
| EReport (i : nat)
| ERelease (i : nat)
| EGroupComplete
| EShutDown.

(** Who calls what: a callback is used for one [Get]; the cache below validates
    each MultiCallback at least once before [Done]. *)
Definition enabled (e : event) (s : System) : bool :=
  match e with
  | EGet _ c => bool_decide (c ∉ (asked s).*1)
  | EValidateCandidate i _ _ _ =>
      match lookups s !! i with Some (mkMultiCallback _ _ _ Looking) => true | _ => false end
  | EDone i => match lookups s !! i with Some (mkMultiCallback _ _ (_ :: _) Looking) => true | _ => false end
  | EReport i => match lookups s !! i with Some (mkMultiCallback _ _ _ (Reporting (_ :: _))) => true | _ => false end
  | ERelease i => match lookups s !! i with Some (mkMultiCallback _ _ _ (Reporting [])) => true | _ => false end
  | EGroupComplete => (0 <? completions s)%nat
  | EShutDown => true
  end.

Definition new_group (s : System) : nat := fresh (dom (groups s)).

(** [new Group(this, request.size())], and the request goes to the cache below. *)
Definition issue (group : nat) (request : list MultiCallback) (s : System) : System :=
  mkSystem (batcher s) (<[group := Z.of_nat (length request)]> (groups s)) (lookups s ++ request)
    (completions s) (values s) (asked s) (offered s) (answered s).

Definition with_batcher (b : CacheBatcher) (s : System) : System :=
  mkSystem b (groups s) (lookups s) (completions s) (values s) (asked s) (offered s) (answered s).
Definition with_lookups (ls : list MultiCallback) (s : System) : System :=
  mkSystem (batcher s) (groups s) ls (completions s) (values s) (asked s) (offered s) (answered s).
Definition ask (c : nat) (key : bytes) (s : System) : System :=
  mkSystem (batcher s) (groups s) (lookups s) (completions s) (values s) ((c, key) :: asked s) (offered s) (answered s).
(** [callback->Done(st)]. *)
Definition answer (c : nat) (st : KeyState) (s : System) : System :=
  mkSystem (batcher s) (groups s) (lookups s) (completions s) (values s) (asked s) (offered s)
    ((c, st, default [] (values s !! c)) :: answered s).
(** [callback->set_value(value)] and [DelegatedValidateCandidate]. *)
Definition offer (o : Offer) (s : System) : System :=
  mkSystem (batcher s) (groups s) (lookups s) (completions s) (<[offer_to o := offer_value o]> (values s))
    (asked s) (o :: offered s) (answered s).

(** [CacheBatcher::Get]: a dropped [Get] is validated and reported as not found,
    which is what it is whatever [ValidateCandidate] says. *)
Definition Get (key : bytes) (c : nat) (s : System) : System :=
  let '(b, outcome) := Get_locked key c (batcher s) in
  let s := ask c key (with_batcher b s) in
  match outcome with
  | Immediate => let g := new_group s in issue g [mkMultiCallback key g [] Looking] s
  | Dropped => answer c kNotFound s
  | Coalesced | Queued => s
  end.

Definition ValidateCandidate (i : nat) (st : KeyState) (value : bytes) (verdict : nat -> bool) (s : System)
    : option (System * bool) :=
  l ← lookups s !! i;
  '(saved, b) ← match saved_ l with
                | [] => '(callbacks, b) ← ExtractInFlightKeys (lookup_key l) (batcher s);
                        match callbacks with
                        | [] => None
                        | _ => Some (map (fun c => mkRecord c false st) callbacks, b)
                        end
                | saved => Some (saved, batcher s)
                end;
  let '(saved, all_succeed, offers) := validate_saved (lookup_key l) st value verdict saved in
  let s := with_lookups (<[i := mkMultiCallback (lookup_key l) (group_ l) saved (stage l)]> (lookups s)) (with_batcher b s) in
  Some (fold_left (fun s o => offer o s) offers s, all_succeed).

(** The steps of [MultiCallback::Done]; its argument is not used. *)
Definition Done (i : nat) (s : System) : option System :=
  l ← lookups s !! i;
  Some (with_lookups (<[i := mkMultiCallback (lookup_key l) (group_ l) (saved_ l) (Reporting (saved_ l))]> (lookups s))
          (with_batcher (DecrementInFlightGets (Z.of_nat (length (saved_ l))) (batcher s)) s)).

Definition Report (i : nat) (s : System) : option System :=
  l ← lookups s !! i;
  match stage l with
  | Reporting (r :: rest) =>
      Some (answer (callback r) (state r)
              (with_lookups (<[i := mkMultiCallback (lookup_key l) (group_ l) (saved_ l) (Reporting rest)]> (lookups s)) s))
  | _ => Some s
  end.

(** [delete this; group->Done()]. *)
Definition Release (i : nat) (s : System) : option System :=
  l ← lookups s !! i;
  n ← groups s !! group_ l;
  let ls := delete i (lookups s) in
  if n - 1 =? 0 then
    Some (mkSystem (batcher s) (delete (group_ l) (groups s)) ls (S (completions s)) (values s)
            (asked s) (offered s) (answered s))
  else
    Some (mkSystem (batcher s) (<[group_ l := n - 1]> (groups s)) ls (completions s) (values s)
            (asked s) (offered s) (answered s)).

Definition complete (s : System) : System :=
  mkSystem (batcher s) (groups s) (lookups s) (pred (completions s)) (values s) (asked s) (offered s) (answered s).

(** The request of [GroupComplete] goes to [cache_->MultiGet], that of [ShutDown] to
    [ReportMultiGetNotFound]: somebody validates its callbacks and ends them. *)
Definition GroupComplete (s : System) : option System :=
  let g := new_group s in
  '(b, request) ← GroupComplete_locked g (batcher s);
  let s := complete (with_batcher b s) in
  Some (match request with Some r => issue g r s | None => s end).

Definition ShutDown (s : System) : option System :=
  let g := new_group s in
  '(b, request) ← ShutDown_locked g (batcher s);
  let s := with_batcher b s in
  Some (match request with Some r => issue g r s | None => s end).

Definition handle (e : event) (s : System) : option System :=
  match e with
  | EGet key c => Some (Get key c s)
  | EValidateCandidate i st value verdict => fst <$> ValidateCandidate i st value verdict s
  | EDone i => Done i s
  | EReport i => Report i s
  | ERelease i => Release i s
  | EGroupComplete => GroupComplete s
  | EShutDown => ShutDown s
  end.

Inductive reachable : System -> Prop :=
| reachable_new : reachable new_System
| reachable_step e s s' : reachable s -> enabled e s = true -> handle e s = Some s' -> reachable s'.

(** [None] also for an event that is not enabled. *)
Fixpoint run (es : list event) (s : System) : option System :=
  match es with
  | [] => Some s
  | e :: es => if enabled e s then s ← handle e s; run es s else None
  end.
End batcher.

(** ** Callback maps *)

Definition callbacks_of (m : CallbackMap) : list nat := map_to_list m ≫= snd.
Definition keys_of (m : CallbackMap) : list bytes := (map_to_list m).*1.

Lemma callbacks_of_empty : callbacks_of ∅ = [].
Proof. unfold callbacks_of. by rewrite map_to_list_empty. Qed.

Lemma callbacks_of_insert k cs m :
  m !! k = None -> callbacks_of (<[k := cs]> m) ≡ₚ cs ++ callbacks_of m.
Proof. intros H. unfold callbacks_of. by rewrite map_to_list_insert. Qed.

Lemma callbacks_of_delete k cs m :
  m !! k = Some cs -> callbacks_of m ≡ₚ cs ++ callbacks_of (delete k m).
Proof. intros H. unfold callbacks_of. by rewrite <- (map_to_list_delete m k cs H). Qed.

Lemma keys_of_insert k cs m : m !! k = None -> keys_of (<[k := cs]> m) ≡ₚ k :: keys_of m.
Proof. intros H. unfold keys_of. by rewrite map_to_list_insert. Qed.

Lemma keys_of_delete k cs m : m !! k = Some cs -> keys_of m ≡ₚ k :: keys_of (delete k m).
Proof. intros H. unfold keys_of. by rewrite <- (map_to_list_delete m k cs H). Qed.

Lemma keys_of_NoDup m : NoDup (keys_of m).
Proof. apply NoDup_fst_map_to_list. Qed.

Lemma elem_of_keys_of k m : k ∈ keys_of m <-> is_Some (m !! k).
Proof.
  unfold keys_of. rewrite list_elem_of_fmap. split.
  - intros ([k' cs] & -> & H). apply elem_of_map_to_list in H. by exists cs.
  - intros [cs H]. exists (k, cs). by rewrite elem_of_map_to_list.
Qed.

Lemma elem_of_callbacks_of c m : c ∈ callbacks_of m <-> exists k cs, m !! k = Some cs /\ c ∈ cs.
Proof.
  unfold callbacks_of. rewrite list_elem_of_bind. split.
  - intros ([k cs] & Hc & H). apply elem_of_map_to_list in H. eauto.
  - intros (k & cs & H & Hc). exists (k, cs). by rewrite elem_of_map_to_list.
Qed.

Lemma push_back_delete k c m : push_back k c m = <[k := default [] (m !! k) ++ [c]]> (delete k m).
Proof. unfold push_back. by rewrite insert_delete_eq. Qed.

Lemma callbacks_of_push k c m : callbacks_of (push_back k c m) ≡ₚ c :: callbacks_of m.
Proof.
  rewrite push_back_delete, callbacks_of_insert by apply lookup_delete_eq.
  destruct (m !! k) as [cs|] eqn:E; cbn.
  - rewrite (callbacks_of_delete _ _ _ E). solve_Permutation.
  - by rewrite delete_id.
Qed.

Lemma keys_of_push_Some k c m : is_Some (m !! k) -> keys_of (push_back k c m) ≡ₚ keys_of m.
Proof.
  intros [cs E]. rewrite push_back_delete, keys_of_insert by apply lookup_delete_eq.
  by rewrite <- (keys_of_delete _ _ _ E).
Qed.

Lemma keys_of_push_None k c m : m !! k = None -> keys_of (push_back k c m) ≡ₚ k :: keys_of m.
Proof. intros E. unfold push_back. by rewrite keys_of_insert. Qed.

Lemma push_back_nonempty k c m :
  map_Forall (fun _ cs => cs <> []) m -> map_Forall (fun _ cs => cs <> []) (push_back k c m).
Proof.
  intros H. apply map_Forall_insert_2; [|done]. by destruct (default [] (m !! k)).
Qed.

(** [MoveQueuedKeys] when no key is in both maps. *)
Lemma emplace_all_ok pairs : forall fl,
  NoDup pairs.*1 -> Forall (fun kv => fl !! kv.1 = None) pairs -> Forall (fun kv => kv.2 <> []) pairs ->
  map_Forall (fun _ cs => cs <> []) fl ->
  exists fl', emplace_all pairs fl = Some fl' /\
    callbacks_of fl' ≡ₚ (pairs ≫= snd) ++ callbacks_of fl /\ keys_of fl' ≡ₚ pairs.*1 ++ keys_of fl /\
    map_Forall (fun _ cs => cs <> []) fl' /\
    forall k cs, fl' !! k = Some cs -> fl !! k = Some cs \/ (k, cs) ∈ pairs.
Proof.
  induction pairs as [|[k cs] pairs IH]; intros fl Hn Hd Hne Hfl; cbn.
  { exists fl. split; [done|]. split; [done|]. split; [done|]. auto. }
  apply NoDup_cons in Hn as [Hk Hn]. apply Forall_cons in Hd as [Hkd Hd]. apply Forall_cons in Hne as [Hcs Hne].
  cbn in Hkd, Hcs. rewrite Hkd.
  destruct (IH (<[k := cs]> fl) Hn) as (fl' & -> & Hc & Hks & Hf & Hlk); [..|].
  - apply Forall_forall. intros [k' cs'] Hin. cbn. rewrite lookup_insert_ne.
    + rewrite Forall_forall in Hd. by apply (Hd (k', cs')).
    + intros ->. apply Hk. by apply (list_elem_of_fmap_2 fst) in Hin.
  - done.
  - by apply map_Forall_insert_2.
  - exists fl'. split; [done|]. split; [|split; [|split; [done|]]].
    + rewrite Hc, callbacks_of_insert by done. solve_Permutation.
    + rewrite Hks, keys_of_insert by done. cbn. by rewrite Permutation_middle.
    + intros k' cs' H. destruct (Hlk _ _ H) as [Hi|Hi]; [|right; by right].
      apply lookup_insert_Some in Hi as [[<- <-]|[_ Hi]]; [right; left|by left].
Qed.

(** ** The invariant of the counters and maps *)

Definition looking (l : MultiCallback) : bool := match stage l with Looking => true | Reporting _ => false end.

(** The key of a MultiCallback that has not been validated yet. *)
Definition waiting_key (l : MultiCallback) : option bytes :=
  match stage l, saved_ l with Looking, [] => Some (lookup_key l) | _, _ => None end.

(** The callbacks that a MultiCallback has yet to report to. *)
Definition records_of (l : MultiCallback) : list CallbackRecord :=
  match stage l with Looking => saved_ l | Reporting rest => rest end.
Definition saved_of (l : MultiCallback) : list nat := callback <$> records_of l.

(** How many of them count as pending. *)
Definition pending_of (l : MultiCallback) : nat := if looking l then length (saved_ l) else 0.

Definition total (f : MultiCallback -> nat) (ls : list MultiCallback) : nat := sum_list (f <$> ls).
Definition of_group (g : nat) (l : MultiCallback) : nat := if decide (group_ l = g) then 1 else 0.
Definition count_looking (l : MultiCallback) : nat := if looking l then 1 else 0.

#[export] Instance total_Permutation f : Proper ((≡ₚ) ==> eq) (total f).
Proof. intros l l' H. unfold total. induction H; cbn in *; lia. Qed.

Lemma sum_of_cons f l ls : total f (l :: ls) = (f l + total f ls)%nat.
Proof. done. Qed.
Lemma sum_of_app f ls1 ls2 : total f (ls1 ++ ls2) = (total f ls1 + total f ls2)%nat.
Proof. unfold total. by rewrite fmap_app, sum_list_with_app || (induction ls1; cbn in *; lia). Qed.

Section proofs.
Variable o : Options.

Record Core (b : CacheBatcher) (gs : gmap nat Z) (ls : list MultiCallback) (comp : nat) : Prop := {
  core_waiting : omap waiting_key ls ≡ₚ keys_of (in_flight_ b);
  core_in_flight : map_Forall (fun _ cs => cs <> []) (in_flight_ b);
  core_queued : map_Forall (fun _ cs => cs <> []) (queued_ b);
  core_disjoint : forall k, is_Some (queued_ b !! k) -> in_flight_ b !! k = None;
  core_groups : forall g, match gs !! g with
                          | Some n => 0 < n /\ n = Z.of_nat (total (of_group g) ls)
                          | None => total (of_group g) ls = 0%nat
                          end;
  core_num_groups : num_in_flight_groups_ b = Z.of_nat (size gs + comp);
  core_num_keys : num_in_flight_keys_ b = Z.of_nat (total count_looking ls);
  core_pending : num_pending_gets_ b =
    Z.of_nat (length (callbacks_of (queued_ b)) + length (callbacks_of (in_flight_ b)) + total pending_of ls);
  core_queue : queued_ b <> ∅ -> shutdown_ b = false /\ max_parallel_lookups o <= num_in_flight_groups_ b;
}.

Lemma Core_perm b gs ls ls' comp : ls ≡ₚ ls' -> Core b gs ls comp -> Core b gs ls' comp.
Proof using Type.
  intros Hp []. constructor; try done.
  - by rewrite <- Hp.
  - intros g. specialize (core_groups0 g). destruct (gs !! g); by rewrite <- Hp.
  - by rewrite <- Hp.
  - by rewrite <- Hp.
Qed.

(** A lookup that has ended leaves the group it belongs to; nobody is at work
    when no group is live. *)
Lemma Core_idle b gs ls comp : Core b gs ls comp -> size gs = 0%nat -> ls = [] /\ in_flight_ b = ∅.
Proof using Type.
  intros H Hs. apply map_size_empty_inv in Hs. subst gs. assert (ls = []) as ->.
  { destruct ls as [|l ls]; [done|]. pose proof (core_groups _ _ _ _ H (group_ l)) as Hg.
    rewrite lookup_empty, sum_of_cons in Hg. unfold of_group at 1 in Hg. by rewrite decide_True in Hg. }
  split; [done|]. pose proof (core_waiting _ _ _ _ H) as Hw. cbn in Hw.
  apply Permutation_nil_l in Hw. unfold keys_of in Hw. symmetry in Hw. apply fmap_nil_inv in Hw.
  by apply map_to_list_empty_iff in Hw.
Qed.

Lemma Core_new : Core new_CacheBatcher ∅ [] 0.
Proof using Type.
  constructor; cbn; done.
Qed.

(** *** Get *)

Lemma Core_coalesced k c b gs ls comp :
  Core b gs ls comp -> is_Some (in_flight_ b !! k) ->
  let '(mkBatcher fl last groups keys pending qu sd dropped coalesced nqueued) := b in
  Core (mkBatcher (push_back k c fl) last groups keys (pending + 1) qu sd dropped (coalesced + 1) nqueued) gs ls comp.
Proof using Type.
  intros H Hk. destruct b, H; cbn in *. constructor; cbn; try done.
  - by rewrite keys_of_push_Some.
  - by apply push_back_nonempty.
  - intros k' Hk'. unfold push_back. rewrite lookup_insert_ne; [by apply core_disjoint0|].
    intros ->. by rewrite core_disjoint0 in Hk by done; destruct Hk.
  - rewrite callbacks_of_push. cbn. lia.
Qed.

Lemma Core_queued k c b gs ls comp :
  Core b gs ls comp -> in_flight_ b !! k = None -> shutdown_ b = false ->
  max_parallel_lookups o <= num_in_flight_groups_ b ->
  let '(mkBatcher fl last groups keys pending qu sd dropped coalesced nqueued) := b in
  Core (mkBatcher fl last groups keys (pending + 1) (push_back k c qu) sd dropped coalesced (nqueued + 1)) gs ls comp.
Proof using Type.
  intros H Hk Hs Hm. destruct b, H; cbn in *. constructor; cbn; try done.
  - by apply push_back_nonempty.
  - intros k' Hk'. destruct (decide (k' = k)) as [->|]; [done|].
    unfold push_back in Hk'. rewrite lookup_insert_ne in Hk' by done. by apply core_disjoint0.
  - rewrite callbacks_of_push. cbn. lia.
Qed.

(** A new group of lookups that have not been validated. *)
Lemma Core_issue g request (gs : gmap nat Z) ls :
  gs !! g = None -> request <> [] ->
  Forall (fun l => group_ l = g /\ stage l = Looking /\ saved_ l = []) request ->
  (forall g', match gs !! g' with
              | Some n => 0 < n /\ n = Z.of_nat (total (of_group g') ls)
              | None => total (of_group g') ls = 0%nat
              end) ->
  omap waiting_key request = lookup_key <$> request /\
  total count_looking request = length request /\ total pending_of request = 0%nat /\
  forall g', match <[g := Z.of_nat (length request)]> gs !! g' with
             | Some n => 0 < n /\ n = Z.of_nat (total (of_group g') (ls ++ request))
             | None => total (of_group g') (ls ++ request) = 0%nat
             end.
Proof using Type.
  intros Hg Hne Hr Hgs.
  assert (omap waiting_key request = lookup_key <$> request /\ total count_looking request = length request /\
          total pending_of request = 0%nat /\
          (forall g', total (of_group g') request = if decide (g = g') then length request else 0%nat))
    as (Hw & Hc & Hp & Hof).
  { clear Hne Hgs. induction Hr as [|l request (El & Es & Ev) Hr (IH1 & IH2 & IH3 & IH4)].
    - repeat split. intros g'. by case_decide.
    - cbn [omap list_omap fmap list_fmap]. unfold waiting_key at 1. rewrite Es, Ev. rewrite !sum_of_cons.
      unfold count_looking at 1, pending_of at 1, looking. rewrite Es, Ev, IH1, IH2, IH3.
      repeat split. intros g'. rewrite sum_of_cons, IH4. unfold of_group. rewrite El. by case_decide. }
  repeat split; [done..|]. intros g'. rewrite sum_of_app, Hof. specialize (Hgs g').
  destruct (decide (g = g')) as [->|Hn].
  - rewrite lookup_insert_eq. rewrite Hg in Hgs. rewrite Hgs.
    assert (length request <> 0%nat) by (by destruct request). split; lia.
  - rewrite lookup_insert_ne by done. destruct (gs !! g'); [|lia]. lia.
Qed.

Lemma Core_immediate k c g b gs ls comp :
  Core b gs ls comp -> in_flight_ b !! k = None -> gs !! g = None ->
  shutdown_ b = false -> num_in_flight_groups_ b < max_parallel_lookups o ->
  let '(mkBatcher fl last groups keys pending qu sd dropped coalesced nqueued) := b in
  Core (mkBatcher (push_back k c fl) last (groups + 1) (keys + 1) (pending + 1) qu sd dropped coalesced nqueued)
    (<[g := 1]> gs) (ls ++ [mkMultiCallback k g [] Looking]) comp.
Proof using Type.
  intros H Hk Hg Hs Hm.
  assert (queued_ b = ∅) as Hq.
  { destruct (decide (queued_ b = ∅)) as [|Hq]; [done|]. apply (core_queue _ _ _ _ H) in Hq. lia. }
  destruct (Core_issue g [mkMultiCallback k g [] Looking] gs ls Hg) as (_ & _ & _ & Hgs);
    [done|by repeat constructor|apply (core_groups _ _ _ _ H)|].
  destruct b, H; cbn in *. subst. constructor; cbn; try done.
  - by rewrite omap_app, keys_of_push_None, core_waiting0, Permutation_app_comm.
  - by apply push_back_nonempty.
  - intros k' [? Hk']. by rewrite lookup_empty in Hk'.
  - rewrite map_size_insert_None by done. lia.
  - rewrite sum_of_app. cbn. lia.
  - rewrite callbacks_of_push, sum_of_app. cbn. lia.
Qed.

(** The queued keys become a request of their own. *)
Lemma Core_request g last' groups' sd' b gs ls comp comp' :
  Core b gs ls comp -> queued_ b <> ∅ -> gs !! g = None ->
  groups' = Z.of_nat (S (size gs) + comp') ->
  let '(mkBatcher fl last groups keys pending qu sd dropped coalesced nqueued) := b in
  exists b' request,
    CreateRequestForQueuedKeys g (mkBatcher fl last' groups' keys pending qu sd' dropped coalesced nqueued)
      = Some (b', request) /\
    request = ConvertMapToRequest g qu /\ queued_ b' = ∅ /\
    callbacks_of (in_flight_ b') ≡ₚ callbacks_of qu ++ callbacks_of fl /\
    (forall k cs, in_flight_ b' !! k = Some cs -> fl !! k = Some cs \/ qu !! k = Some cs) /\
    Core b' (<[g := Z.of_nat (length request)]> gs) (ls ++ request) comp'.
Proof using Type.
  intros H Hq Hg Hn. set (request := ConvertMapToRequest g (queued_ b)).
  assert (lookup_key <$> request = keys_of (queued_ b)) as Hrk.
  { unfold request, ConvertMapToRequest, keys_of. change map with (@fmap list list_fmap).
    by rewrite <- list_fmap_compose. }
  assert (length request = size (queued_ b)) as Hrl.
  { rewrite <- (length_fmap lookup_key), Hrk. unfold keys_of. rewrite length_fmap. apply length_map_to_list. }
  destruct (Core_issue g request gs ls Hg) as (Hw & Hc & Hp & Hgs).
  { intros E. rewrite E in Hrl. symmetry in Hrl. by apply map_size_empty_inv in Hrl. }
  { unfold request, ConvertMapToRequest. apply Forall_fmap, Forall_true. by intros [k cs]. }
  { apply (core_groups _ _ _ _ H). }
  destruct b as [fl last groups keys pending qu sd dropped coalesced nqueued], H; cbn in *.
  destruct (emplace_all_ok (map_to_list qu) fl) as (fl' & Hf & Hfc & Hfk & Hfn & Hfl).
  - apply keys_of_NoDup.
  - apply Forall_forall. intros [k cs] Hin%elem_of_map_to_list. cbn. apply core_disjoint0. by exists cs.
  - apply Forall_forall. intros [k cs] Hin%elem_of_map_to_list. cbn. by eapply (map_Forall_lookup_1 _ _ _ _ core_queued0).
  - done.
  - unfold CreateRequestForQueuedKeys, MoveQueuedKeys. cbn. rewrite Hf. cbn. eexists _, _. split; [done|].
    split; [done|]. split; [done|]. split; [done|]. split.
    { intros k cs Hk. destruct (Hfl k cs Hk) as [|Hin%elem_of_map_to_list]; auto. }
    constructor; cbn; try done.
    + rewrite omap_app. fold request. rewrite Hw, Hrk, Hfk, core_waiting0. by rewrite Permutation_app_comm.
    + intros k [? Hk]. by rewrite lookup_empty in Hk.
    + rewrite map_size_insert_None by done. lia.
    + fold request. rewrite sum_of_app, Hc, Hrl. lia.
    + fold request. rewrite sum_of_app, Hp, Hfc, length_app. unfold callbacks_of in *. rewrite ?map_to_list_empty. cbn. lia.
Qed.

(** *** The life of a MultiCallback *)

Lemma Core_extract l saved b gs ls comp :
  Core b gs (l :: ls) comp -> stage l = Looking -> saved_ l = [] ->
  exists cs, in_flight_ b !! lookup_key l = Some cs /\ cs <> [] /\
  (length saved = length cs ->
   let '(mkBatcher fl last groups keys pending qu sd dropped coalesced nqueued) := b in
   Core (mkBatcher (delete (lookup_key l) fl) last groups keys pending qu sd dropped coalesced nqueued) gs
     (mkMultiCallback (lookup_key l) (group_ l) saved Looking :: ls) comp).
Proof using Type.
  intros H Hs Hv.
  assert (omap waiting_key (l :: ls) = lookup_key l :: omap waiting_key ls) as Hw.
  { cbn. unfold waiting_key at 1. by rewrite Hs, Hv. }
  assert (is_Some (in_flight_ b !! lookup_key l)) as [cs Hcs].
  { apply elem_of_keys_of. rewrite <- (core_waiting _ _ _ _ H), Hw. left. }
  exists cs. split; [done|]. assert (cs <> []) as Hne by (by eapply (map_Forall_lookup_1 _ _ _ _ (core_in_flight _ _ _ _ H))).
  split; [done|]. intros Hl. destruct b, H; cbn [in_flight_ queued_ num_in_flight_groups_ num_in_flight_keys_ num_pending_gets_ shutdown_] in *.
  rewrite Hw, (keys_of_delete _ _ _ Hcs) in core_waiting0. apply Permutation_cons_inv in core_waiting0.
  constructor; cbn [in_flight_ queued_ num_in_flight_groups_ num_in_flight_keys_ num_pending_gets_ shutdown_]; try done.
  - cbn. unfold waiting_key at 1. cbn. by destruct saved, cs.
  - by apply map_Forall_delete.
  - intros k Hk. apply lookup_delete_None. right. by apply core_disjoint0.
  - rewrite !sum_of_cons in core_num_keys0 |- *. unfold count_looking at 1, looking in core_num_keys0. by rewrite Hs in core_num_keys0.
  - rewrite (callbacks_of_delete _ _ _ Hcs), length_app, sum_of_cons in core_pending0. rewrite sum_of_cons.
    unfold pending_of at 1, looking in core_pending0. rewrite Hs, Hv in core_pending0. cbn in *. lia.
Qed.

(** The fields that the counters do not see. *)
Lemma Core_same l l' b gs ls comp :
  Core b gs (l :: ls) comp -> group_ l' = group_ l -> looking l' = looking l ->
  length (saved_ l') = length (saved_ l) -> (looking l = true -> saved_ l <> []) ->
  Core b gs (l' :: ls) comp.
Proof using Type.
  intros H Hg Hs Hl Hne.
  assert (waiting_key l' = None /\ waiting_key l = None) as [W' W].
  { unfold waiting_key, looking in *. destruct (stage l), (stage l'), (saved_ l), (saved_ l'); naive_solver. }
  assert (forall f, f l' = f l -> total f (l' :: ls) = total f (l :: ls)) as Ht.
  { intros f E. by rewrite !sum_of_cons, E. }
  destruct H. constructor; try done.
  - cbn in *. by rewrite W in core_waiting0; rewrite W'.
  - intros g. rewrite Ht by (unfold of_group; by rewrite Hg). apply core_groups0.
  - rewrite Ht by (unfold count_looking; by rewrite Hs). done.
  - rewrite Ht by (unfold pending_of; by rewrite Hs, Hl). done.
Qed.

Lemma Core_done l rest b gs ls comp :
  Core b gs (l :: ls) comp -> stage l = Looking -> saved_ l <> [] ->
  Core (DecrementInFlightGets (Z.of_nat (length (saved_ l))) b) gs
    (mkMultiCallback (lookup_key l) (group_ l) (saved_ l) (Reporting rest) :: ls) comp.
Proof using Type.
  intros H Hs Hv. destruct b, H; cbn -[omap total] in *. constructor; cbn -[omap total]; try done.
  - cbn in *. unfold waiting_key at 1 in core_waiting0. unfold waiting_key at 1. cbn. rewrite Hs in core_waiting0. by destruct (saved_ l).
  - rewrite sum_of_cons in core_num_keys0 |- *. unfold count_looking at 1, looking in core_num_keys0. rewrite Hs in core_num_keys0.
    cbn -[total]. lia.
  - rewrite sum_of_cons in core_pending0 |- *. unfold pending_of at 1, looking in core_pending0. rewrite Hs in core_pending0.
    cbn -[total]. lia.
Qed.

Lemma Core_release l b gs ls comp :
  Core b gs (l :: ls) comp -> looking l = false ->
  exists n, gs !! group_ l = Some n /\
    (n = 1 -> Core b (delete (group_ l) gs) ls (S comp)) /\
    (n <> 1 -> Core b (<[group_ l := n - 1]> gs) ls comp).
Proof using Type.
  intros H Hs. pose proof (core_groups _ _ _ _ H (group_ l)) as Hg. rewrite sum_of_cons in Hg.
  assert (of_group (group_ l) l = 1%nat) as E1 by (unfold of_group; by rewrite decide_True).
  assert (waiting_key l = None) as Hw by (unfold waiting_key, looking in *; by destruct (stage l)).
  assert (count_looking l = 0%nat /\ pending_of l = 0%nat) as [Ec Ep] by (unfold count_looking, pending_of; by rewrite Hs).
  assert (forall g, g <> group_ l -> total (of_group g) (l :: ls) = total (of_group g) ls) as Hne.
  { intros g Hg'. rewrite sum_of_cons. unfold of_group at 1. by rewrite decide_False. }
  destruct (gs !! group_ l) as [n|] eqn:En; [|lia]. exists n. split; [done|].
  assert (0 < size gs)%nat as Hsz.
  { destruct (size gs) eqn:E0; [|lia]. apply map_size_empty_inv in E0. subst. by rewrite lookup_empty in En. }
  destruct H. cbn in core_waiting0. rewrite Hw in core_waiting0. rewrite sum_of_cons, Ec in core_num_keys0.
  rewrite sum_of_cons, Ep in core_pending0. split; intros Hn; constructor; try done.
  - intros g. destruct (decide (g = group_ l)) as [->|Hg'].
    + rewrite lookup_delete_eq. lia.
    + rewrite lookup_delete_ne by done. rewrite <- Hne by done. apply core_groups0.
  - rewrite map_size_delete, En. lia.
  - intros g. destruct (decide (g = group_ l)) as [->|Hg'].
    + rewrite lookup_insert_eq. lia.
    + rewrite lookup_insert_ne by done. rewrite <- Hne by done. apply core_groups0.
  - rewrite map_size_insert_Some by (by eexists). done.
Qed.

(** ** Every callback is somewhere *)

(** What the result of a finished record rests on. *)
Definition backed (vals : gmap nat bytes) (off : list Offer) (key : bytes) (r : CallbackRecord) : Prop :=
  available r = bool_decide (state r = kAvailable) /\
  (state r = kAvailable -> mkOffer (callback r) key kAvailable (default [] (vals !! callback r)) true ∈ off).

Record Account (fl qu : CallbackMap) (ls : list MultiCallback) (vals : gmap nat bytes) (ask : list (nat * bytes))
    (off : list Offer) (ans : list (nat * KeyState * bytes)) : Prop := {
  acc_asked : NoDup ask.*1;
  acc_where : ask.*1 ≡ₚ ans.*1.*1 ++ callbacks_of qu ++ callbacks_of fl ++ (ls ≫= saved_of);
  acc_maps : forall k c cs, fl !! k = Some cs \/ qu !! k = Some cs -> c ∈ cs -> (c, k) ∈ ask;
  acc_saved : forall l r, l ∈ ls -> r ∈ records_of l -> (callback r, lookup_key l) ∈ ask;
  acc_backed : forall l r, l ∈ ls -> r ∈ records_of l -> backed vals off (lookup_key l) r;
  acc_answered : forall c v, (c, kAvailable, v) ∈ ans -> exists k, (c, k) ∈ ask /\ mkOffer c k kAvailable v true ∈ off;
}.

Lemma Account_perm fl qu ls ls' vals ask off ans :
  ls ≡ₚ ls' -> Account fl qu ls vals ask off ans -> Account fl qu ls' vals ask off ans.
Proof using Type.
  intros Hp []. constructor; try done.
  - by rewrite <- Hp.
  - intros l r Hl. apply acc_saved0. by rewrite Hp.
  - intros l r Hl. apply acc_backed0. by rewrite Hp.
Qed.

Record Inv (s : System) : Prop := {
  inv_core : Core (batcher s) (groups s) (lookups s) (completions s);
  inv_account : Account (in_flight_ (batcher s)) (queued_ (batcher s)) (lookups s) (values s)
                  (asked s) (offered s) (answered s);
}.

Lemma lookups_split {A} (ls : list A) i l l' :
  ls !! i = Some l -> ls ≡ₚ l :: delete i ls /\ <[i := l']> ls ≡ₚ l' :: delete i ls.
Proof using Type.
  intros H. rewrite delete_take_drop. rewrite insert_take_drop by (by eapply lookup_lt_Some).
  split; [|by rewrite Permutation_middle].
  rewrite <- (take_drop_middle ls i l H) at 1. by rewrite Permutation_middle.
Qed.

(** A new callback. *)
Lemma Account_ask_in_flight k c fl qu ls vals ask off ans ls' :
  Account fl qu ls vals ask off ans -> c ∉ ask.*1 -> (ls' ≫= records_of) = [] ->
  Account (push_back k c fl) qu (ls ++ ls') vals ((c, k) :: ask) off ans.
Proof using Type.
  intros [] Hc Hr.
  assert (forall l r, l ∈ ls ++ ls' -> r ∈ records_of l -> l ∈ ls) as Hls.
  { intros l r [Hl|Hl]%elem_of_app Hr'; [done|]. exfalso. eapply (not_elem_of_nil r). rewrite <- Hr.
    apply list_elem_of_bind. eauto. }
  constructor.
  - cbn. by apply NoDup_cons.
  - cbn. rewrite callbacks_of_push, bind_app, acc_where0.
    assert (ls' ≫= saved_of = []) as ->.
    { assert (ls' ≫= saved_of = callback <$> (ls' ≫= records_of)) as ->; [|by rewrite Hr].
      clear. induction ls' as [|l ls' IH]; cbn; [done|]. by rewrite fmap_app, IH. }
    rewrite app_nil_r. solve_Permutation.
  - intros k' c' cs H Hin. destruct H as [H|H]; [|right; eauto].
    unfold push_back in H. apply lookup_insert_Some in H as [[<- <-]|[_ H]]; [|right; eauto].
    apply elem_of_app in Hin as [Hin|Hin]; [|apply list_elem_of_singleton in Hin as ->; left].
    right. destruct (fl !! k) as [cs|] eqn:E; cbn in Hin; [eauto|by apply not_elem_of_nil in Hin].
  - intros l r Hl Hr'. right. eauto.
  - intros l r Hl Hr'. eauto.
  - intros c' v Hin. destruct (acc_answered0 _ _ Hin) as (k' & ? & ?). exists k'. split; [by right|done].
Qed.

Lemma Account_ask_queued k c fl qu ls vals ask off ans :
  Account fl qu ls vals ask off ans -> c ∉ ask.*1 ->
  Account fl (push_back k c qu) ls vals ((c, k) :: ask) off ans.
Proof using Type.
  intros [] Hc. constructor.
  - cbn. by apply NoDup_cons.
  - cbn. rewrite callbacks_of_push, acc_where0. solve_Permutation.
  - intros k' c' cs H Hin. destruct H as [H|H]; [right; eauto|].
    unfold push_back in H. apply lookup_insert_Some in H as [[<- <-]|[_ H]]; [|right; eauto].
    apply elem_of_app in Hin as [Hin|Hin]; [|apply list_elem_of_singleton in Hin as ->; left].
    right. destruct (qu !! k) as [cs|] eqn:E; cbn in Hin; [eauto|by apply not_elem_of_nil in Hin].
  - intros l r Hl Hr'. right. eauto.
  - done.
  - intros c' v Hin. destruct (acc_answered0 _ _ Hin) as (k' & ? & ?). exists k'. split; [by right|done].
Qed.

Lemma Account_ask_dropped k c v fl qu ls vals ask off ans :
  Account fl qu ls vals ask off ans -> c ∉ ask.*1 ->
  Account fl qu ls vals ((c, k) :: ask) off ((c, kNotFound, v) :: ans).
Proof using Type.
  intros [] Hc. constructor; try done.
  - cbn. by apply NoDup_cons.
  - cbn. by rewrite acc_where0.
  - right. eauto.
  - right. eauto.
  - intros c' v' [|Hin]%elem_of_cons; [done|]. destruct (acc_answered0 _ _ Hin) as (k' & ? & ?).
    exists k'. split; [by right|done].
Qed.

Lemma Account_move fl' request fl qu ls vals ask off ans :
  Account fl qu ls vals ask off ans -> callbacks_of fl' ≡ₚ callbacks_of qu ++ callbacks_of fl ->
  (forall k cs, fl' !! k = Some cs -> fl !! k = Some cs \/ qu !! k = Some cs) ->
  Forall (fun l => records_of l = []) request ->
  Account fl' ∅ (ls ++ request) vals ask off ans.
Proof using Type.
  intros [] Hfl Hk Hr. rewrite Forall_forall in Hr.
  assert (forall l r, l ∈ ls ++ request -> r ∈ records_of l -> l ∈ ls) as Hls.
  { intros l r [Hl|Hl]%elem_of_app Hr'; [done|]. rewrite (Hr l Hl) in Hr'. by apply not_elem_of_nil in Hr'. }
  constructor; try eauto.
  - rewrite callbacks_of_empty, Hfl, bind_app, acc_where0.
    assert (request ≫= saved_of = []) as ->; [|rewrite app_nil_r; solve_Permutation].
    clear -Hr. induction request as [|l request IH]; [done|]. cbn. unfold saved_of at 1.
    rewrite (Hr l) by left. cbn. apply IH. intros l' Hl'. apply Hr. by right.
  - intros k c cs [H|H] Hin; [|by rewrite lookup_empty in H]. destruct (Hk k cs H); eauto.
Qed.

(** *** Validation *)

Lemma validate_saved_spec key st v verdict saved saved' all_succeed offers :
  validate_saved key st v verdict saved = (saved', all_succeed, offers) ->
  callback <$> saved' = callback <$> saved /\
  offer_to <$> offers = callback <$> filter (fun r => available r = false) saved /\
  Forall (fun x => offer_value x = v) offers /\
  forall r', r' ∈ saved' -> (r' ∈ saved /\ available r' = true) \/
    exists yes, mkOffer (callback r') key st v yes ∈ offers /\
      state r' = (if yes then st else kNotFound) /\ available r' = bool_decide (state r' = kAvailable).
Proof using Type.
  revert saved' all_succeed offers. induction saved as [|r saved IH]; intros saved' ok offers; cbn [validate_saved].
  { intros [= <- <- <-]. split; [done|]. split; [done|]. split; [done|]. intros r' []%not_elem_of_nil. }
  destruct (validate_saved key st v verdict saved) as [[sv ok'] os]. destruct (IH _ _ _ eq_refl) as (H1 & H2 & H3 & H4).
  destruct (available r) eqn:Ea; intros [= <- <- <-]; cbn [fmap list_fmap]; rewrite filter_cons.
  - rewrite decide_False by (by rewrite Ea). split; [by rewrite H1|]. split; [done|]. split; [done|].
    intros r' [->|Hr']%elem_of_cons; [left; split; [left|done]|].
    destruct (H4 r' Hr') as [[]|]; [left; split; [by right|done]|by right].
  - rewrite decide_True by done. cbn. split; [by rewrite H1|]. split; [by rewrite H2|]. split; [by constructor|].
    intros r' [->|Hr']%elem_of_cons; [right; exists (verdict (callback r)); split; [left|done]|].
    destruct (H4 r' Hr') as [[]|(yes & ? & ?)]; [left; split; [by right|done]|].
    right. exists yes. split; [by right|done].
Qed.

(** The records that were just made out of callbacks; their state is overwritten. *)
Lemma validate_saved_fresh key st v verdict st1 st2 cs :
  validate_saved key st v verdict (map (fun c => mkRecord c false st1) cs) =
  validate_saved key st v verdict (map (fun c => mkRecord c false st2) cs).
Proof using Type. induction cs as [|c cs IH]; cbn; [done|]. by rewrite IH. Qed.

Definition offer_values (os : list Offer) (vals : gmap nat bytes) : gmap nat bytes :=
  fold_left (fun vals x => <[offer_to x := offer_value x]> vals) os vals.

Lemma fold_offers os s :
  fold_left (fun s x => offer x s) os s =
  mkSystem (batcher s) (groups s) (lookups s) (completions s) (offer_values os (values s)) (asked s)
    (rev os ++ offered s) (answered s).
Proof using Type.
  revert s. induction os as [|x os IH]; intros s; cbn; [by destruct s|]. rewrite IH. cbn.
  by rewrite <- app_assoc.
Qed.

Lemma offer_values_out os vals c : c ∉ offer_to <$> os -> offer_values os vals !! c = vals !! c.
Proof using Type.
  revert vals. induction os as [|x os IH]; intros vals; cbn; [done|].
  intros [Hc Hn]%not_elem_of_cons. rewrite IH by done. by rewrite lookup_insert_ne.
Qed.

Lemma offer_values_in os vals c v :
  Forall (fun x => offer_value x = v) os -> c ∈ offer_to <$> os -> offer_values os vals !! c = Some v.
Proof using Type.
  revert vals. induction os as [|x os IH]; intros vals; cbn; [by intros _ []%not_elem_of_nil|].
  intros [Hx Ho]%Forall_cons Hc. destruct (decide (c ∈ offer_to <$> os)) as [Hin|Hn]; [by apply IH|].
  apply elem_of_cons in Hc as [->|]; [|done]. rewrite offer_values_out by done. by rewrite lookup_insert_eq, Hx.
Qed.

Lemma saved_cons l ls : (l :: ls) ≫= saved_of = saved_of l ++ (ls ≫= saved_of).
Proof using Type. done. Qed.

Lemma Account_extract l cs fl qu ls vals ask off ans :
  Account fl qu (l :: ls) vals ask off ans -> stage l = Looking -> saved_ l = [] -> fl !! lookup_key l = Some cs ->
  Account (delete (lookup_key l) fl) qu
    (mkMultiCallback (lookup_key l) (group_ l) (map (fun c => mkRecord c false kNotFound) cs) Looking :: ls)
    vals ask off ans.
Proof using Type.
  intros [] Hs Hv Hcs. constructor; try done.
  - rewrite acc_where0, (callbacks_of_delete _ _ _ Hcs), !saved_cons.
    assert (saved_of l = []) as -> by (unfold saved_of, records_of; by rewrite Hs, Hv).
    assert (saved_of (mkMultiCallback (lookup_key l) (group_ l) (map (fun c => mkRecord c false kNotFound) cs) Looking) = cs) as ->.
    { unfold saved_of, records_of. cbn [stage saved_]. clear. induction cs as [|c cs IH]; cbn; [done|]. by rewrite IH. }
    rewrite app_nil_l.
    solve_Permutation.
  - intros k c cs' [H|H]; [|eauto]. apply lookup_delete_Some in H as [_ H]. eauto.
  - intros l' r [->|Hl]%elem_of_cons Hr; [|apply acc_saved0; [by right|done]].
    unfold records_of in Hr. cbn in *. apply list_elem_of_fmap in Hr as (c & -> & Hc). cbn. eauto.
  - intros l' r [->|Hl]%elem_of_cons Hr; [|apply acc_backed0; [by right|done]].
    unfold records_of in Hr. cbn in *. by apply list_elem_of_fmap in Hr as (c & -> & Hc).
Qed.

Lemma Account_revalidate l st v verdict saved' all_succeed offers fl qu ls vals ask off ans :
  Account fl qu (l :: ls) vals ask off ans -> stage l = Looking ->
  validate_saved (lookup_key l) st v verdict (saved_ l) = (saved', all_succeed, offers) ->
  Account fl qu (mkMultiCallback (lookup_key l) (group_ l) saved' Looking :: ls)
    (offer_values offers vals) ask (rev offers ++ off) ans.
Proof using Type.
  intros [] Hs Hv. destruct (validate_saved_spec _ _ _ _ _ _ _ _ Hv) as (H1 & H2 & H3 & H4).
  assert (records_of l = saved_ l) as Hrl by (unfold records_of; by rewrite Hs).
  assert (NoDup (saved_of l ++ (ls ≫= saved_of))) as Hnd.
  { rewrite acc_where0 in acc_asked0. apply NoDup_app in acc_asked0 as (_ & _ & Hn).
    apply NoDup_app in Hn as (_ & _ & Hn). by apply NoDup_app in Hn as (_ & _ & Hn). }
  unfold saved_of at 1 in Hnd. rewrite Hrl in Hnd. apply NoDup_app in Hnd as (Hnd & Hdisj & _).
  constructor; try done.
  - cbn in *. unfold saved_of at 1, records_of at 1. cbn. rewrite H1. rewrite acc_where0. unfold saved_of at 1. by rewrite Hrl.
  - intros l' r [->|Hl]%elem_of_cons Hr; [|apply acc_saved0; [by right|done]].
    unfold records_of in Hr. cbn in *. apply (list_elem_of_fmap_2 callback) in Hr. rewrite H1 in Hr.
    apply list_elem_of_fmap in Hr as (r0 & -> & Hr0). apply acc_saved0; [left|by rewrite Hrl].
  - assert (forall key r, backed vals off key r -> callback r ∉ offer_to <$> offers ->
              backed (offer_values offers vals) (rev offers ++ off) key r) as Hkeep.
    { intros key r [B1 B2] Hn. split; [done|]. intros Ha. rewrite offer_values_out by done.
      apply elem_of_app. right. by apply B2. }
    intros l' r [->|Hl]%elem_of_cons Hr.
    + unfold records_of in Hr. cbn in Hr |- *. destruct (H4 r Hr) as [[Hin Ha]|(yes & Ho & Hst & Ha)].
      * apply Hkeep; [apply acc_backed0; [left|by rewrite Hrl]|]. rewrite H2.
        intros (r0 & E & Hr0)%list_elem_of_fmap. apply list_elem_of_filter in Hr0 as [Hf Hr0].
        assert (r0 = r) as ->; [|congruence].
        apply list_elem_of_lookup in Hin as [i Hi]. apply list_elem_of_lookup in Hr0 as [j Hj].
        assert (i = j) as ->; [|congruence].
        apply (NoDup_lookup _ _ _ (callback r) Hnd); rewrite list_lookup_fmap; by rewrite ?Hi, ?Hj; cbn; rewrite <- ?E.
      * split; [done|]. intros Hav. rewrite Hav in Hst. destruct yes; [|done]. subst st.
        rewrite (offer_values_in _ _ _ v) by (done || by apply (list_elem_of_fmap_2 offer_to) in Ho). cbn.
        apply elem_of_app. left. by rewrite <- Permutation_rev.
    + apply Hkeep; [apply acc_backed0; [by right|done]|]. rewrite H2.
      intros (r0 & E & Hr0)%list_elem_of_fmap. apply list_elem_of_filter in Hr0 as [_ Hr0].
      apply (Hdisj (callback r)); [rewrite E; by apply list_elem_of_fmap_2|].
      apply list_elem_of_bind. exists l'. split; [by apply list_elem_of_fmap_2|done].
  - intros c v' Hin. destruct (acc_answered0 _ _ Hin) as (k & ? & ?). exists k. split; [done|].
    apply elem_of_app. by right.
Qed.

(** *** Reporting *)

Lemma Account_same l l' fl qu ls vals ask off ans :
  Account fl qu (l :: ls) vals ask off ans -> records_of l' = records_of l -> lookup_key l' = lookup_key l ->
  Account fl qu (l' :: ls) vals ask off ans.
Proof using Type.
  intros [] Hr Hk.
  assert (forall x r, x ∈ l' :: ls -> r ∈ records_of x ->
            exists y, y ∈ l :: ls /\ r ∈ records_of y /\ lookup_key y = lookup_key x) as Hy.
  { intros x r [->|Hx]%elem_of_cons Hin; [exists l; rewrite <- Hr; split; [left|done]|exists x; split; [by right|done]]. }
  constructor; try done.
  - rewrite saved_cons in *. assert (saved_of l' = saved_of l) as -> by (unfold saved_of; by rewrite Hr). done.
  - intros x r Hx Hin. destruct (Hy x r Hx Hin) as (y & ? & ? & <-). eauto.
  - intros x r Hx Hin. destruct (Hy x r Hx Hin) as (y & ? & ? & <-). eauto.
Qed.

Lemma Account_report l r rest fl qu ls vals ask off ans :
  Account fl qu (l :: ls) vals ask off ans -> stage l = Reporting (r :: rest) ->
  Account fl qu (mkMultiCallback (lookup_key l) (group_ l) (saved_ l) (Reporting rest) :: ls) vals ask off
    ((callback r, state r, default [] (vals !! callback r)) :: ans).
Proof using Type.
  intros [] Hs.
  assert (records_of l = r :: rest) as Hr by (unfold records_of; by rewrite Hs).
  set (l' := mkMultiCallback _ _ _ _).
  assert (forall x r', x ∈ l' :: ls -> r' ∈ records_of x ->
            exists y, y ∈ l :: ls /\ r' ∈ records_of y /\ lookup_key y = lookup_key x) as Hy.
  { intros x r' [->|Hx]%elem_of_cons Hin; [|exists x; split; [by right|done]].
    exists l. rewrite Hr. split; [left|]. split; [by right|done]. }
  constructor; try done.
  - rewrite acc_where0, !saved_cons. unfold saved_of at 1. rewrite Hr.
    assert (saved_of l' = callback <$> rest) as -> by done. cbn. solve_Permutation.
  - intros x r' Hx Hin. destruct (Hy x r' Hx Hin) as (y & ? & ? & <-). eauto.
  - intros x r' Hx Hin. destruct (Hy x r' Hx Hin) as (y & ? & ? & <-). eauto.
  - intros c v [E|Hin]%elem_of_cons; [|eauto]. injection E as -> Ea ->.
    exists (lookup_key l). assert (r ∈ records_of l) as Hin by (rewrite Hr; left).
    split; [apply acc_saved0; [left|done]|]. apply (acc_backed0 l r); [left|done|done].
Qed.

Lemma Account_release l fl qu ls vals ask off ans :
  Account fl qu (l :: ls) vals ask off ans -> records_of l = [] -> Account fl qu ls vals ask off ans.
Proof using Type.
  intros [] Hr. constructor; try done.
  - rewrite acc_where0, saved_cons. unfold saved_of at 1. by rewrite Hr.
  - intros x r Hx. apply acc_saved0. by right.
  - intros x r Hx. apply acc_backed0. by right.
Qed.

(** ** Every event keeps the invariant *)

Lemma batcher_Inv_new : Inv new_System.
Proof using Type.
  constructor; [apply Core_new|]. constructor; cbn; try done.
  - apply NoDup_nil_2.
  - intros k c cs [H|H]; by rewrite lookup_empty in H.
  - intros l r []%not_elem_of_nil.
  - intros l r []%not_elem_of_nil.
  - intros c v []%not_elem_of_nil.
Qed.

Lemma new_group_fresh s : groups s !! new_group s = None.
Proof using Type. apply not_elem_of_dom. unfold new_group. apply is_fresh. Qed.

(** With one lookup at a time a new one starts only when nothing is in flight. *)
Lemma Inv_Get key c s :
  max_parallel_lookups o = 1 -> Inv s -> c ∉ (asked s).*1 -> Inv (Get o key c s).
Proof using Type.
  intros Hm [HC HA] Hc. pose proof (new_group_fresh s) as Hg. unfold Get, Get_locked.
  destruct s as [b gs ls comp vals ask off ans]. cbn in Hg, Hc, HA, HC |- *.
  pose proof HC as HC'. pose proof HA as HA'.
  destruct b as [fl last gr ks pe qu sd dr co nq] eqn:Eb. rewrite <- Eb in HC, HA.
  unfold CanQueueCallback, CanIssueGet. cbn [shutdown_ num_pending_gets_ num_in_flight_groups_].
  destruct (negb sd && (pe <? max_pending_gets o)) eqn:Eq; cbn [andb].
  - apply andb_prop in Eq as [Esd%negb_true_iff _]. case_bool_decide as Hk.
    + constructor; cbn.
      * pose proof (Core_coalesced key c b gs ls comp HC) as H. subst b. apply H, Hk.
      * cbn. replace ls with (ls ++ []) by apply app_nil_r. by apply Account_ask_in_flight.
    + apply eq_None_not_Some in Hk. rewrite Esd. cbn [negb andb]. destruct (Z.ltb_spec gr (max_parallel_lookups o)) as [Hl|Hl].
      * constructor; cbn.
        -- pose proof (Core_immediate key c (new_group (mkSystem (mkBatcher fl last gr ks pe qu sd dr co nq) gs ls comp vals ask off ans)) b gs ls comp HC) as H. subst b. rewrite Esd in H. cbn in H. apply H; done.
        -- by apply Account_ask_in_flight.
      * constructor; cbn.
        -- pose proof (Core_queued key c b gs ls comp HC) as H. subst b. rewrite Esd in H. cbn in H. by apply H.
        -- by apply Account_ask_queued.
  - destruct sd eqn:Esd; cbn [negb andb].
    + constructor; cbn; [|by apply Account_ask_dropped]. destruct HC'. by constructor.
    + destruct (Z.ltb_spec gr (max_parallel_lookups o)) as [Hl|Hl].
      * assert (size gs = 0%nat) as Hsz.
        { pose proof (core_num_groups _ _ _ _ HC') as Hn. cbn in Hn. lia. }
        destruct (Core_idle _ _ _ _ HC' Hsz) as [_ Hfl]. cbn in Hfl.
        assert (fl !! key = None) as Hk by (rewrite Hfl; apply lookup_empty).
        constructor; cbn.
        -- pose proof (Core_immediate key c (new_group (mkSystem (mkBatcher fl last gr ks pe qu sd dr co nq) gs ls comp vals ask off ans)) b gs ls comp HC) as H. subst b. rewrite Esd in H. cbn in H. apply H; done.
        -- by apply Account_ask_in_flight.
      * constructor; cbn; [|by apply Account_ask_dropped]. destruct HC'. by constructor.
Qed.

#[local] Arguments validate_saved : simpl never.

Lemma Inv_ValidateCandidate i st value verdict s :
  Inv s -> enabled (EValidateCandidate i st value verdict) s = true ->
  exists s' all, ValidateCandidate i st value verdict s = Some (s', all) /\ Inv s'.
Proof using Type.
  intros [HC HA] He. unfold ValidateCandidate. cbn in He.
  destruct (lookups s !! i) as [l|] eqn:El; [|done]. cbn.
  assert (stage l = Looking) as Hs by (by destruct l as [? ? ? []]).
  destruct (lookups_split _ _ _ l El) as [Hp _].
  apply (Core_perm _ _ _ _ _ Hp) in HC. apply (Account_perm _ _ _ _ _ _ _ _ Hp) in HA.
  destruct (saved_ l) as [|r saved] eqn:Ev.
  - destruct (Core_extract l [] _ _ _ _ HC Hs Ev) as (cs & Hcs & Hne & _).
    destruct (batcher s) as [fl last gr ks pe qu sd dr co nq] eqn:Eb. cbn in Hcs, HA |- *. rewrite Hcs. cbn.
    destruct cs as [|c cs]; [done|].
    cbn -[map].
    rewrite (validate_saved_fresh _ _ _ _ st kNotFound).
    destruct (validate_saved _ _ _ _ _) as [[sv ok] os] eqn:Es. eexists _, _. split; [done|].
    rewrite fold_offers. constructor; cbn; rewrite Hs.
    + eapply Core_perm; [symmetry; by eapply lookups_split|].
      destruct (Core_extract l sv _ _ _ _ HC Hs Ev) as (cs' & Hcs' & _ & HC'). cbn in Hcs', HC'. apply HC'.
      rewrite Hcs in Hcs'. injection Hcs' as <-. apply validate_saved_spec in Es as [E _].
      apply (f_equal length) in E. rewrite !length_fmap in E. by rewrite E.
    + eapply Account_perm; [symmetry; by eapply lookups_split|].
      apply (Account_extract l (c :: cs)) in HA; [|done..].
      by eapply (Account_revalidate (mkMultiCallback (lookup_key l) (group_ l) _ Looking)).
  - cbn. destruct (validate_saved _ _ _ _ _) as [[sv ok] os] eqn:Es. eexists _, _. split; [done|].
    rewrite fold_offers. constructor; cbn; rewrite Hs.
    + eapply Core_perm; [symmetry; by eapply lookups_split|].
      apply (Core_same l); [done..|cbn; unfold looking; by rewrite Hs| |by rewrite Ev].
      cbn. apply validate_saved_spec in Es as [E _]. apply (f_equal length) in E.
      rewrite !length_fmap in E. by rewrite E, Ev.
    + eapply Account_perm; [symmetry; by eapply lookups_split|].
      rewrite <- Ev in Es. by eapply Account_revalidate.
Qed.

Lemma Inv_Done i s : Inv s -> enabled (EDone i) s = true -> exists s', Done i s = Some s' /\ Inv s'.
Proof using Type.
  intros [HC HA] He. unfold Done. cbn in He. destruct (lookups s !! i) as [l|] eqn:El; [|done].
  assert (stage l = Looking /\ saved_ l <> []) as [Hs Hv] by (by destruct l as [? ? [] []]).
  destruct (lookups_split _ _ _ l El) as [Hp _].
  apply (Core_perm _ _ _ _ _ Hp) in HC. apply (Account_perm _ _ _ _ _ _ _ _ Hp) in HA.
  eexists. split; [done|]. constructor; cbn.
  - eapply Core_perm; [symmetry; by eapply lookups_split|]. by apply Core_done.
  - eapply Account_perm; [symmetry; by eapply lookups_split|].
    eapply (Account_same l) in HA; [|..].
    + by destruct (batcher s).
    + unfold records_of. cbn. by rewrite Hs.
    + done.
Qed.

Lemma Inv_Report i s : Inv s -> enabled (EReport i) s = true -> exists s', Report i s = Some s' /\ Inv s'.
Proof using Type.
  intros [HC HA] He. unfold Report. cbn in He. destruct (lookups s !! i) as [l|] eqn:El; [|done].
  assert (exists r rest, stage l = Reporting (r :: rest)) as (r & rest & Hs) by (destruct l as [? ? ? [|[|]]]; naive_solver).
  destruct (lookups_split _ _ _ l El) as [Hp _].
  apply (Core_perm _ _ _ _ _ Hp) in HC. apply (Account_perm _ _ _ _ _ _ _ _ Hp) in HA.
  cbn. rewrite Hs. eexists. split; [done|]. constructor; cbn.
  - eapply Core_perm; [symmetry; by eapply lookups_split|].
    apply (Core_same l); [done..|unfold looking; by rewrite Hs|done|unfold looking; by rewrite Hs].
  - eapply Account_perm; [symmetry; by eapply lookups_split|]. by apply Account_report.
Qed.

Lemma Inv_Release i s : Inv s -> enabled (ERelease i) s = true -> exists s', Release i s = Some s' /\ Inv s'.
Proof using Type.
  intros [HC HA] He. unfold Release. cbn in He. destruct (lookups s !! i) as [l|] eqn:El; [|done].
  assert (stage l = Reporting []) as Hs by (by destruct l as [? ? ? [|[|]]]).
  destruct (lookups_split _ _ _ l El) as [Hp _].
  apply (Core_perm _ _ _ _ _ Hp) in HC. apply (Account_perm _ _ _ _ _ _ _ _ Hp) in HA.
  apply Account_release in HA; [|unfold records_of; by rewrite Hs].
  destruct (Core_release l _ _ _ _ HC) as (n & Hn & H1 & H2); [unfold looking; by rewrite Hs|].
  cbn. rewrite Hn. cbn. destruct (Z.eqb_spec (n - 1) 0); eexists; (split; [done|]); constructor; cbn; try done.
  - apply H1. lia.
  - apply H2. lia.
Qed.

(** The request that [GroupComplete] and [ShutDown] make. *)
Lemma request_records g qu : Forall (fun l => records_of l = []) (ConvertMapToRequest g qu).
Proof using Type. apply Forall_fmap, Forall_true. by intros [k cs]. Qed.

Lemma Inv_GroupComplete s :
  Inv s -> enabled EGroupComplete s = true -> exists s', GroupComplete s = Some s' /\ Inv s'.
Proof using Type.
  intros [HC HA] He. unfold GroupComplete, GroupComplete_locked. apply Nat.ltb_lt in He.
  pose proof (new_group_fresh s) as Hg. destruct (batcher s) as [fl last gr ks pe qu sd dr co nq] eqn:Eb.
  pose proof (core_num_groups _ _ _ _ HC) as Hn. cbn in Hn. destruct (decide (qu = ∅)) as [Hq|Hq].
  - eexists. split; [done|]. constructor; cbn; [|done]. destruct HC. constructor; cbn in *; try done; lia.
  - destruct (Core_request (new_group s) (Z.of_nat (size qu)) gr sd _ _ _ _ (pred (completions s)) HC Hq Hg)
      as (b' & request & -> & -> & Hq' & Hfl & Hk & HC'); [lia|].
    eexists. split; [done|]. constructor; cbn; [done|]. rewrite Hq'.
    eapply Account_move; [exact HA|done|done|apply request_records].
Qed.

Lemma Inv_ShutDown s : Inv s -> exists s', ShutDown s = Some s' /\ Inv s'.
Proof using Type.
  intros [HC HA]. unfold ShutDown, ShutDown_locked.
  pose proof (new_group_fresh s) as Hg. destruct (batcher s) as [fl last gr ks pe qu sd dr co nq] eqn:Eb.
  pose proof (core_num_groups _ _ _ _ HC) as Hn. cbn in Hn. destruct (decide (qu = ∅)) as [Hq|Hq].
  - eexists. split; [done|]. constructor; cbn; [|done]. destruct HC. constructor; cbn in *; try done.
  - destruct (Core_request (new_group s) last (gr + 1) true _ _ _ _ (completions s) HC Hq Hg)
      as (b' & request & -> & -> & Hq' & Hfl & Hk & HC'); [lia|].
    eexists. split; [done|]. constructor; cbn; [done|]. rewrite Hq'.
    eapply Account_move; [exact HA|done|done|apply request_records].
Qed.

Lemma Inv_handle e s :
  max_parallel_lookups o = 1 -> Inv s -> enabled e s = true -> exists s', handle o e s = Some s' /\ Inv s'.
Proof using Type.
  intros Hm HI He. destruct e as [key c|i st value verdict|i|i|i| |]; cbn [handle].
  - eexists. split; [done|]. apply Inv_Get; [done|done|]. by apply bool_decide_eq_true in He.
  - destruct (Inv_ValidateCandidate i st value verdict s HI He) as (s' & all & -> & HI'). by exists s'.
  - by apply Inv_Done.
  - by apply Inv_Report.
  - by apply Inv_Release.
  - by apply Inv_GroupComplete.
  - by apply Inv_ShutDown.
Qed.

Lemma batcher_reachable_Inv s : max_parallel_lookups o = 1 -> reachable o s -> Inv s.
Proof using Type.
  intros Hm. induction 1 as [|e s s' _ IH He Hs]; [apply batcher_Inv_new|].
  destruct (Inv_handle e s Hm IH He) as (s'' & Hs'' & HI). congruence.
Qed.

(** Nobody is at work: the cache below has no callback, no group is ending. *)
Definition idle (s : System) : Prop := lookups s = [] /\ completions s = 0%nat.

Lemma Inv_idle s :
  max_parallel_lookups o = 1 -> Inv s -> idle s ->
  queued_ (batcher s) = ∅ /\ in_flight_ (batcher s) = ∅ /\ num_in_flight_groups_ (batcher s) = 0 /\
  num_in_flight_keys_ (batcher s) = 0 /\ num_pending_gets_ (batcher s) = 0.
Proof using Type.
  intros Hm [HC _] [Hl Hc]. rewrite Hl, Hc in HC.
  assert (groups s = ∅) as Hg.
  { apply map_eq. intros g. rewrite lookup_empty. pose proof (core_groups _ _ _ _ HC g) as H.
    destruct (groups s !! g) as [n|]; [cbn in H; lia|done]. }
  rewrite Hg in HC. destruct (Core_idle _ _ _ _ HC) as [_ Hf]; [apply map_size_empty|].
  pose proof (core_num_groups _ _ _ _ HC) as Hn. rewrite map_size_empty in Hn. cbn in Hn.
  assert (queued_ (batcher s) = ∅) as Hq.
  { destruct (decide (queued_ (batcher s) = ∅)) as [|Hq]; [done|].
    destruct (core_queue _ _ _ _ HC Hq). lia. }
  repeat split; [done..|apply (core_num_keys _ _ _ _ HC)|].
  pose proof (core_pending _ _ _ _ HC) as Hp. by rewrite Hq, Hf, callbacks_of_empty in Hp.
Qed.

(** C12: With one lookup at a time, under every interleaving: each event that can happen
    is handled without a failing [CHECK] or [DCHECK]; each callback is queued, in
    flight, held by a MultiCallback or answered, in exactly one place and once; the
    counters are exact; and when nobody is at work all callbacks have been answered. *)
Theorem batcher_answers_exactly_once s :
  max_parallel_lookups o = 1 -> reachable o s ->
  (forall e, enabled e s = true -> is_Some (handle o e s)) /\
  NoDup (asked s).*1 /\
  (asked s).*1 ≡ₚ (answered s).*1.*1 ++ callbacks_of (queued_ (batcher s)) ++ callbacks_of (in_flight_ (batcher s)) ++
                  (lookups s ≫= saved_of) /\
  num_in_flight_groups_ (batcher s) = Z.of_nat (size (groups s) + completions s) /\
  num_pending_gets_ (batcher s) = Z.of_nat (length (callbacks_of (queued_ (batcher s))) +
    length (callbacks_of (in_flight_ (batcher s))) + total pending_of (lookups s)) /\
  (idle s -> (answered s).*1.*1 ≡ₚ (asked s).*1 /\ num_pending_gets_ (batcher s) = 0).
Proof using Type.
  intros Hm Hr. pose proof (batcher_reachable_Inv s Hm Hr) as HI. split; [|split; [|split; [|split; [|split]]]].
  - intros e He. destruct (Inv_handle e s Hm HI He) as (s' & Hs' & _). by exists s'.
  - apply (acc_asked _ _ _ _ _ _ _ (inv_account s HI)).
  - apply (acc_where _ _ _ _ _ _ _ (inv_account s HI)).
  - apply (core_num_groups _ _ _ _ (inv_core s HI)).
  - apply (core_pending _ _ _ _ (inv_core s HI)).
  - intros Hi. destruct (Inv_idle s Hm HI Hi) as (Hq & Hf & _ & _ & Hp). split; [|done].
    rewrite (acc_where _ _ _ _ _ _ _ (inv_account s HI)), Hq, Hf, !callbacks_of_empty.
    destruct Hi as [-> _]. by rewrite !app_nil_r.
Qed.

(** A [Get] that is answered with [kAvailable] was offered that very value, in state
    [kAvailable], for the key it asked for, and its callback accepted it; also when it
    shares the lookup with other callbacks that do not, or that are asked again. *)
Lemma batcher_answers_are_validated s c v :
  max_parallel_lookups o = 1 -> reachable o s -> (c, kAvailable, v) ∈ answered s ->
  exists key, (c, key) ∈ asked s /\ mkOffer c key kAvailable v true ∈ offered s.
Proof using Type.
  intros Hm Hr. apply (acc_answered _ _ _ _ _ _ _ (inv_account s (batcher_reachable_Inv s Hm Hr))).
Qed.

(** ** Draining *)

Definition weight (l : MultiCallback) : nat :=
  match stage l, saved_ l with
  | Looking, [] => 4
  | Looking, saved => length saved + 3
  | Reporting rest, _ => length rest + 2
  end.

(** A bound on what is left to do. *)
Definition work (s : System) : nat :=
  5 * size (queued_ (batcher s)) + length (callbacks_of (queued_ (batcher s))) +
  length (callbacks_of (in_flight_ (batcher s))) + total weight (lookups s) + completions s.

(** The events that carry a lookup on: not a new [Get], a [ShutDown], or a
    second validation of the same MultiCallback. *)
Definition progress (e : event) (s : System) : bool :=
  match e with
  | EGet _ _ | EShutDown => false
  | EValidateCandidate i _ _ _ => match lookups s !! i with Some l => bool_decide (saved_ l = []) | None => false end
  | _ => true
  end.

Lemma total_split f ls i l l' :
  ls !! i = Some l ->
  total f ls = (f l + total f (delete i ls))%nat /\ total f (<[i := l']> ls) = (f l' + total f (delete i ls))%nat.
Proof using Type.
  intros H. destruct (lookups_split ls i l l' H) as [Hp Hp'].
  split; [rewrite Hp at 1; apply sum_of_cons|rewrite Hp'; apply sum_of_cons].
Qed.
Lemma request_weight g qu : total weight (ConvertMapToRequest g qu) = (4 * size qu)%nat.
Proof using Type.
  rewrite <- length_map_to_list. unfold ConvertMapToRequest. generalize (map_to_list qu). intros ps.
  induction ps as [|kv ps IH]; [done|]. cbn [map]. rewrite sum_of_cons, IH. cbn. lia.
Qed.

#[local] Arguments work : simpl never.
#[local] Arguments total : simpl never.
#[local] Arguments weight : simpl never.

Lemma work_ValidateCandidate i st value verdict s s' :
  Inv s -> enabled (EValidateCandidate i st value verdict) s = true ->
  handle o (EValidateCandidate i st value verdict) s = Some s' ->
  (progress (EValidateCandidate i st value verdict) s = true -> (work s' < work s)%nat) /\ (work s' <= work s)%nat.
Proof using Type.
  intros [HC HA] He. cbn in He |- *. unfold ValidateCandidate. destruct (lookups s !! i) as [l|] eqn:El; [|done]. cbn.
  assert (stage l = Looking) as Hs by (by destruct l as [? ? ? []]).
  destruct (saved_ l) as [|r saved] eqn:Ev.
  - destruct (batcher s) as [fl last gr ks pe qu sd dr co nq] eqn:Eb. cbn.
    destruct (fl !! lookup_key l) as [cs|] eqn:Hcs; [|done]. cbn. destruct cs as [|c cs]; [done|]. cbn -[map].
    destruct (validate_saved _ _ _ _ _) as [[sv ok] os] eqn:Es. intros [= <-]. rewrite fold_offers.
    assert (length sv = S (length cs)) as Hl.
    { apply validate_saved_spec in Es as [E _]. apply (f_equal length) in E.
      rewrite !length_fmap in E. by rewrite E. }
    match goal with |- (_ -> ?P) /\ _ => cut P end; [intros H; split; [by intros _|lia]|].
    unfold work. rewrite Eb. cbn. rewrite (callbacks_of_delete _ _ _ Hcs), length_app. cbn.
    destruct (total_split weight _ _ _ (mkMultiCallback (lookup_key l) (group_ l) sv (stage l)) El) as [-> ->].
    unfold weight at 1. unfold weight at 2. cbn. rewrite Hs, Ev. destruct sv; cbn in *; [lia|]. lia.
  - cbn. destruct (validate_saved _ _ _ _ _) as [[sv ok] os] eqn:Es. intros [= <-]. rewrite fold_offers.
    split; [done|]. unfold work. cbn.
    destruct (total_split weight _ _ _ (mkMultiCallback (lookup_key l) (group_ l) sv (stage l)) El) as [-> ->].
    apply validate_saved_spec in Es as [E _]. apply (f_equal length) in E. rewrite !length_fmap in E. cbn in E.
    unfold weight at 1. unfold weight at 2. cbn. rewrite Hs, Ev. destruct sv; cbn in *; lia.
Qed.

Lemma work_request g last gr sd s comp' b request :
  Inv s -> queued_ (batcher s) <> ∅ -> groups s !! g = None ->
  let '(mkBatcher fl _ _ keys pending qu _ dropped coalesced nqueued) := batcher s in
  CreateRequestForQueuedKeys g (mkBatcher fl last gr keys pending qu sd dropped coalesced nqueued) = Some (b, request) ->
  (5 * size (queued_ b) + length (callbacks_of (queued_ b)) + length (callbacks_of (in_flight_ b)) +
    total weight (lookups s ++ request) + comp' < 5 * size qu + length (callbacks_of qu) + length (callbacks_of fl) +
    total weight (lookups s) + S comp')%nat.
Proof using Type.
  intros [HC HA] Hq Hg. pose proof (Core_request g last (Z.of_nat (S (size (groups s)) + comp')) sd _ _ _ _ comp' HC Hq Hg eq_refl) as H.
  destruct (batcher s) as [fl last0 gr0 ks pe qu sd0 dr co nq]. destruct H as (b' & r' & Hb & -> & Hq' & Hfl & _ & _).
  unfold CreateRequestForQueuedKeys, MoveQueuedKeys in *. cbn in *.
  destruct (emplace_all (map_to_list qu) fl) as [fl'|]; [|done]. cbn in *. injection Hb as <-. intros [= <- <-].
  cbn in *. rewrite Hfl, callbacks_of_empty, length_app, sum_of_app, request_weight, map_size_empty. cbn. lia.
Qed.

Lemma work_step e s s' :
  Inv s -> enabled e s = true -> handle o e s = Some s' ->
  (forall key c, e <> EGet key c) ->
  (progress e s = true -> (work s' < work s)%nat) /\ (work s' <= work s)%nat.
Proof using Type.
  intros HI He Hh Hne. destruct e as [key c|i st value verdict|i|i|i| |].
  - by destruct (Hne key c).
  - by apply work_ValidateCandidate.
  - cut (work s' < work s)%nat; [lia|]. cbn in He, Hh. unfold Done in Hh.
    destruct (lookups s !! i) as [l|] eqn:El; [|done]. injection Hh as <-. unfold work.
    destruct (batcher s). cbn.
    match goal with |- context [<[i:=?l']> _] => destruct (total_split weight _ _ _ l' El) as [-> ->] end.
    unfold weight at 1. unfold weight at 2. destruct l as [k g [|r sv] []]; cbn in *; [done..|lia|done].
  - cut (work s' < work s)%nat; [lia|]. cbn in He, Hh. unfold Report in Hh.
    destruct (lookups s !! i) as [[k g sv [|[|r rest]]]|] eqn:El; [done..| |done]. cbn in Hh.
    injection Hh as <-. unfold work. cbn.
    match goal with |- context [<[i:=?l']> _] => destruct (total_split weight _ _ _ l' El) as [-> ->] end.
    unfold weight at 1. unfold weight at 2. cbn. destruct sv; cbn; lia.
  - cut (work s' < work s)%nat; [lia|]. cbn in He, Hh. unfold Release in Hh.
    destruct (lookups s !! i) as [l|] eqn:El; [|done]. cbn in Hh.
    destruct (total_split weight _ _ _ l El) as [Et _].
    assert (2 <= weight l)%nat by (unfold weight; destruct (stage l), (saved_ l); cbn; lia).
    destruct (groups s !! group_ l) as [n|]; [|done]. cbn in Hh.
    destruct (n - 1 =? 0); injection Hh as <-; unfold work; cbn; lia.
  - cut (work s' < work s)%nat; [lia|]. apply Nat.ltb_lt in He. cbn [handle] in Hh. unfold GroupComplete, GroupComplete_locked in Hh.
    pose proof (work_request (new_group s) (Z.of_nat (size (queued_ (batcher s)))) (num_in_flight_groups_ (batcher s))
      (shutdown_ (batcher s)) s (pred (completions s))) as HW. unfold work.
    destruct (batcher s) as [fl last gr ks pe qu sd dr co nq] eqn:Eb. destruct (decide (qu = ∅)) as [->|Hq].
    + injection Hh as <-. cbn. lia.
    + cbn [num_in_flight_groups_ shutdown_ queued_] in HW. destruct (CreateRequestForQueuedKeys _ _) as [[b r]|]; [|done].
      injection Hh as <-. cbn. specialize (HW b r HI Hq (new_group_fresh s) eq_refl). lia.
  - split; [done|]. cbn [handle] in Hh. unfold ShutDown, ShutDown_locked in Hh.
    pose proof (work_request (new_group s) (last_batch_size_ (batcher s)) (num_in_flight_groups_ (batcher s) + 1)
      true s (completions s)) as HW. unfold work.
    destruct (batcher s) as [fl last gr ks pe qu sd dr co nq] eqn:Eb. destruct (decide (qu = ∅)) as [->|Hq].
    + injection Hh as <-. cbn. lia.
    + cbn [num_in_flight_groups_ last_batch_size_ queued_] in HW. destruct (CreateRequestForQueuedKeys _ _) as [[b r]|]; [|done].
      injection Hh as <-. cbn. specialize (HW b r HI Hq (new_group_fresh s) eq_refl). lia.
Qed.

Fixpoint progress_count (es : list event) (s : System) : nat :=
  match es with
  | [] => 0
  | e :: es => Nat.b2n (progress e s) + match handle o e s with Some s => progress_count es s | None => 0 end
  end.

(** Somebody who is at work can go on. *)
Lemma busy_progress s :
  ~ idle s -> exists e, enabled e s = true /\ progress e s = true.
Proof using Type.
  intros Hb. destruct (lookups s) as [|[k g sv st] ls] eqn:El.
  - exists EGroupComplete. split; [|done]. cbn. destruct (completions s) eqn:Ec; [|done]. by destruct Hb.
  - destruct st as [|[|r rest]].
    + destruct sv as [|r sv].
      * exists (EValidateCandidate 0 kNotFound [] (fun _ => true)). cbn. by rewrite El.
      * exists (EDone 0). cbn. by rewrite El.
    + exists (ERelease 0). cbn. by rewrite El.
    + exists (EReport 0). cbn. by rewrite El.
Qed.

(** C37: When no more [Get]s come, at most [work s] events carry the lookups on, however
    the threads interleave; and when no such event is left, every callback has been
    answered, exactly once. *)
Theorem batcher_drains es s s' :
  max_parallel_lookups o = 1 -> reachable o s ->
  Forall (fun e => forall key c, e <> EGet key c) es -> run o es s = Some s' ->
  (progress_count es s <= work s)%nat /\
  ((forall e, enabled e s' = true -> progress e s' = false) ->
   queued_ (batcher s') = ∅ /\ (answered s').*1.*1 ≡ₚ (asked s').*1).
Proof using Type.
  intros Hm Hr%batcher_reachable_Inv Hes; [|done]. revert s Hr.
  induction Hes as [|e es He Hes IH]; intros s HI Hrun; cbn in Hrun |- *.
  - injection Hrun as <-. split; [lia|]. intros Hstop.
    assert (idle s) as Hi.
    { destruct (decide (lookups s = [] /\ completions s = 0%nat)) as [|Hb]; [done|].
      destruct (busy_progress s Hb) as (e & H1 & H2). by rewrite Hstop in H2. }
    destruct (Inv_idle s Hm HI Hi) as (Hq & Hf & _). split; [done|].
    rewrite (acc_where _ _ _ _ _ _ _ (inv_account s HI)), Hq, Hf, !callbacks_of_empty.
    destruct Hi as [-> _]. by rewrite !app_nil_r.
  - destruct (enabled e s) eqn:En; [|done]. destruct (Inv_handle e s Hm HI En) as (s1 & Hs1 & HI1).
    rewrite Hs1 in Hrun |- *. cbn in Hrun. destruct (IH s1 HI1 Hrun) as [Hc Hend]. split; [|done].
    destruct (work_step e s s1 HI En Hs1 He) as [Hlt Hle].
    destruct (progress e s); cbn; [specialize (Hlt eq_refl)|]; lia.
Qed.
End proofs.

(** ** More than one lookup at a time

    [Get] looks for the key in [in_flight_] only while another callback may be
    queued. When [max_pending_gets] callbacks are pending and a lookup may still
    start, the same key is looked up twice, and one of the two finds nothing. *)

Section crash.
Variable o : Options.
Variable key : bytes.

(** The first lookup of [key] is out and [n] more callbacks have joined it. *)
Definition joined (n : nat) : System :=
  mkSystem (mkBatcher {[key := seq 0 (S n)]} (-1) 1 1 (Z.of_nat (S n)) ∅ false 0 (Z.of_nat n) 0)
    {[new_group new_System := 1]} [mkMultiCallback key (new_group new_System) [] Looking] 0 ∅
    (rev (map (fun c => (c, key)) (seq 0 (S n)))) [] [].

Lemma joined_asked n : S n ∉ (asked (joined n)).*1.
Proof using Type.
  cbn [asked joined]. rewrite <- Permutation_rev. change map with (@fmap list list_fmap). rewrite <- list_fmap_compose.
  intros (c & Hc & Hin)%list_elem_of_fmap. cbn in Hc. apply elem_of_seq in Hin. lia.
Qed.

Lemma push_back_joined n : push_back key (S n) {[key := seq 0 (S n)]} = {[key := seq 0 (S (S n))]}.
Proof using Type.
  unfold push_back. rewrite lookup_singleton_eq, insert_singleton_eq. cbn [default from_option id]. f_equal.
  by rewrite (seq_S (S n) 0).
Qed.

Lemma joined_reachable n :
  2 <= max_parallel_lookups o -> Z.of_nat n < max_pending_gets o -> reachable o (joined n).
Proof using Type.
  intros Hm. induction n as [|n IH]; intros Hn.
  - apply (reachable_step o (EGet key 0) new_System); [apply reachable_new|done|].
    cbn. unfold Get, Get_locked, CanQueueCallback, CanIssueGet. cbn [batcher new_System new_CacheBatcher shutdown_ num_pending_gets_ num_in_flight_groups_ negb andb].
    rewrite lookup_empty, (bool_decide_false (is_Some None)) by (by intros []). rewrite andb_false_r.
    rewrite (proj2 (Z.ltb_lt 0 (max_parallel_lookups o))) by lia. cbn. unfold push_back. by rewrite lookup_empty, insert_empty.
  - apply (reachable_step o (EGet key (S n)) (joined n)); [apply IH; lia|by apply bool_decide_eq_true, joined_asked|].
    cbn [handle]. unfold Get, Get_locked, CanQueueCallback. cbn [batcher joined shutdown_ num_pending_gets_ negb andb].
    rewrite (proj2 (Z.ltb_lt _ (max_pending_gets o))) by lia.
    rewrite lookup_singleton_eq, (bool_decide_true (is_Some _)) by (by eexists). cbn [andb]. rewrite push_back_joined.
    unfold ask, with_batcher, joined. cbn [batcher groups lookups completions values asked offered answered].
    repeat f_equal; [lia..|]. rewrite (seq_S (S n) 0), map_app, rev_app_distr. done.
Qed.

(** C38: With two or more parallel lookups, a [Get] of a key that is being looked up while
    [max_pending_gets] callbacks are pending starts a second lookup of that key, and
    the [CHECK] of [ExtractInFlightKeys] fails when both answer. *)
Theorem second_lookup_of_a_key_crashes :
  2 <= max_parallel_lookups o -> 1 <= max_pending_gets o ->
  exists s, reachable o s /\ lookup_key <$> lookups s = [key; key] /\
    forall st value verdict, enabled (EValidateCandidate 1 st value verdict) s = true /\
      handle o (EValidateCandidate 1 st value verdict) s = None.
Proof using Type.
  intros Hm Hp. set (n := Z.to_nat (max_pending_gets o - 1)).
  assert (reachable o (joined n)) as Hr by (apply joined_reachable; lia).
  set (s1 := Get o key (S n) (joined n)).
  assert (s1 = issue (new_group (joined n)) [mkMultiCallback key (new_group (joined n)) [] Looking]
    (ask (S n) key (with_batcher (mkBatcher {[key := seq 0 (S (S n))]} (-1) 2 2 (Z.of_nat (S n) + 1) ∅ false 0 (Z.of_nat n) 0) (joined n)))) as E.
  { subst s1. unfold Get, Get_locked, CanQueueCallback, CanIssueGet. cbn [batcher joined shutdown_ num_pending_gets_ num_in_flight_groups_ negb andb].
    rewrite (proj2 (Z.ltb_ge _ (max_pending_gets o))) by lia. rewrite (proj2 (Z.ltb_lt 1 (max_parallel_lookups o))) by lia.
    cbn [andb]. by rewrite push_back_joined. }
  assert (reachable o s1) as Hr1.
  { eapply (reachable_step o (EGet key (S n))); [exact Hr|by apply bool_decide_eq_true, joined_asked|done]. }
  destruct (handle o (EValidateCandidate 0 kNotFound [] (fun _ => true)) s1) as [s2|] eqn:E2.
  - exists s2. split; [by apply (reachable_step o _ _ _ Hr1) in E2; [|rewrite E]|].
    rewrite E in E2. cbn [handle] in E2. unfold ValidateCandidate in E2. cbn -[validate_saved seq] in E2.
    rewrite lookup_singleton_eq in E2. cbn -[validate_saved] in E2.
    destruct (validate_saved _ _ _ _ _) as [[sv ok] os]. cbn in E2. injection E2 as <-. rewrite fold_offers.
    split; [done|]. intros st value verdict. split; [done|]. cbn. unfold ValidateCandidate. cbn. by rewrite delete_singleton_eq.
  - exfalso. rewrite E in E2. cbn [handle] in E2. unfold ValidateCandidate in E2. cbn -[validate_saved seq] in E2.
    rewrite lookup_singleton_eq in E2. cbn -[validate_saved] in E2.
    by destruct (validate_saved _ _ _ _ _) as [[sv ok] os].
Qed.
End crash.

(** ** Witnesses *)

Definition example_events : list event :=
  [EGet (lit "a") 1; EGet (lit "b") 2; EGet (lit "b") 3; EGet (lit "a") 4;
   EValidateCandidate 0 kAvailable (lit "A") (fun c => bool_decide (c = 1%nat)); EDone 0; EReport 0; EReport 0; ERelease 0;
   EGroupComplete; EValidateCandidate 0 kNotFound [] (fun _ => true); EGet (lit "b") 5; EShutDown;
   EDone 0; EReport 0; EReport 0; ERelease 0].

(** Queued behind the lookup of [a], the lookup of [b] has begun. *)
Definition example_batcher : System :=
  default new_System (run default_Options example_events new_System).

Lemma run_reachable o es s s' : reachable o s -> run o es s = Some s' -> reachable o s'.
Proof.
  revert s. induction es as [|e es IH]; intros s Hr; cbn; [by intros [= <-]|].
  destruct (enabled e s) eqn:He; [|done]. destruct (handle o e s) as [s1|] eqn:Hs; [|done]. cbn. apply IH.
  by eapply reachable_step.
Qed.

Lemma batcher_example_reachable : reachable default_Options example_batcher.
Proof. apply (run_reachable _ example_events new_System); [apply reachable_new|by vm_compute]. Qed.

Lemma batcher_answers_exactly_once_witness :
  (forall e, enabled e example_batcher = true -> is_Some (handle default_Options e example_batcher)) /\
  (length (asked example_batcher), length (answered example_batcher), completions example_batcher) = (5, 4, 1)%nat.
Proof.
  split; [|by vm_compute].
  apply (batcher_answers_exactly_once default_Options example_batcher); [done|apply batcher_example_reachable].
Defined.

Lemma batcher_drains_witness : exists s',
  run default_Options [EGroupComplete] example_batcher = Some s' /\
  (progress_count default_Options [EGroupComplete] example_batcher <= work example_batcher)%nat.
Proof.
  eexists. split; [by vm_compute|].
  eapply (batcher_drains default_Options [EGroupComplete] example_batcher); [done|apply batcher_example_reachable| |by vm_compute].
  by repeat constructor.
Defined.

Lemma second_lookup_of_a_key_crashes_witness : exists s, reachable (mkOptions 2 10) s /\
  lookup_key <$> lookups s = [lit "k"; lit "k"] /\
  forall st value verdict, enabled (EValidateCandidate 1 st value verdict) s = true /\
    handle (mkOptions 2 10) (EValidateCandidate 1 st value verdict) s = None.
Proof. apply (second_lookup_of_a_key_crashes (mkOptions 2 10) (lit "k")); by vm_compute. Defined.
