(* ===== verification/QueuedWorkerPool.v ===== *)
(** * The queued worker pool

    src/pagespeed/kernel/thread/queued_worker_pool.h and .cc: a fixed number of
    worker threads runs the functions of any number of sequences, those of one
    sequence one after the other.

    A [Thread] is where a thread is between two sections under a lock, or in a
    call of a function; [step] takes it to the next such point, and a list of
    events is an interleaving. Functions, sequences and workers are numbers. Their
    pointers may dangle: using a null [pool_] or a deleted worker is [None], as is
    a failed [DCHECK]. The waveform of the queue size is not modelled; the counts of
    a [QueuedWorker] (worker.cc) are those of the tasks [RunInWorkThread] gave it,
    and starting a thread succeeds. *)

From S2P Require Import Prelude.

Definition kNoLoadShedding : Z := -1.
Definition kUnboundedQueue : nat := 0.

(** [pool_] is the pool ([true]) or null. *)
Record Sequence := mkSequence {
  work_queue_ : list nat;
  pool_ : bool;
  shutdown_ : bool;
  active_ : bool;
  max_queue_size_ : nat;
}.

Record Pool := mkPool {
  max_workers_ : nat;
  pool_shutdown_ : bool;
  active_workers_ : gset nat;
  available_workers_ : list nat;
  all_sequences_ : list nat;
  queued_sequences_ : list nat;
  free_sequences_ : list nat;
  load_shedding_threshold_ : Z;
}.

(** ** Threads *)

(** What follows [CancelTasksOnWorkQueue]: the end of [Sequence::Cancel], the rest
    of the [NextFunction] of a worker, or [WaitForShutDown] and the sequences that
    are still to be waited for. *)
Inductive Then := ThenReturn | ThenRelease (w : nat) | ThenWait (rest : list nat).

Inductive Thread :=
(** [Add]: in [function->CallCancel()], and whether [QueueSequence] follows *)
| AddCancel (f : nat) (queue : option nat)
(** [Add]: before [pool_->QueueSequence(this)] *)
| AddQueue (s : nat)
(** [CancelPendingFunctions]: the swapped queue *)
| CancelSwapped (fs : list nat)
(** [QueueSequence]: before [drop_sequence->Cancel()] *)
| DropSequence (s : nat)
(** [QueueSequence]: before [worker->RunInWorkThread] *)
| RunInWorkThread (s w : nat)
(** [Run(sequence, worker)] in the queue of the worker *)
| Task (s w : nat)
(** a worker before [NextFunction], in [CallRun], before [SequenceNoLongerActive] and
    before [AssignWorkerToNextSequence] *)
| NextFunction (s w : nat)
| Running (s f w : nat)
| NoLongerActive (s w : nat)
| Assign (w : nat)
(** [CancelTasksOnWorkQueue]: in [function->CallCancel()], without the lock *)
| Cancelling (s f : nat) (k : Then)
(** [FreeSequence]: before the lock of the pool *)
| PushFree (s : nat)
(** [ShutDown]: the sequences to initiate and to wait for, in the wait for one, and
    the workers *)
| InitiateShutDown (rest all : list nat)
| WaitForShutDown (rest : list nat)
| WaitInactive (s : nat) (rest : list nat)
| JoinWorkers
| JoinWorker (w : nat).

(** The worker whose thread this is. *)
Definition busy_worker (t : Thread) : option nat :=
  match t with
  | NextFunction _ w | Running _ _ w | NoLongerActive _ w | Assign w | Cancelling _ _ (ThenRelease w) => Some w
  | _ => None
  end.

Record World := mkWorld {
  pool : Pool;
  sequences : gmap nat Sequence;
  dead_workers : gset nat;       (* shut down and deleted *)
  next_worker : nat;             (* the next address for [new QueuedWorker] *)
  (* history: functions in the order they were added and their [Run] was called, and
     those whose [Run] has returned and whose [Cancel] was called *)
  added : list (nat * nat);
  started : list (nat * nat);
  returned : list nat;
  cancelled : list nat;
  owned : gset nat;              (* not yet given to [FreeSequence] *)
  disturbed : gset nat;          (* lost their first or all pending functions to a cancellation *)
}.

Definition with_pool (p : Pool) (x : World) : World :=
  mkWorld p (sequences x) (dead_workers x) (next_worker x) (added x) (started x) (returned x) (cancelled x)
    (owned x) (disturbed x).
Definition set_sequence (s : nat) (q : Sequence) (x : World) : World :=
  mkWorld (pool x) (<[s := q]> (sequences x)) (dead_workers x) (next_worker x) (added x) (started x) (returned x)
    (cancelled x) (owned x) (disturbed x).
Definition record_added (s f : nat) (x : World) : World :=
  mkWorld (pool x) (sequences x) (dead_workers x) (next_worker x) (added x ++ [(s, f)]) (started x) (returned x)
    (cancelled x) (owned x) (disturbed x).
Definition record_started (s f : nat) (x : World) : World :=
  mkWorld (pool x) (sequences x) (dead_workers x) (next_worker x) (added x) (started x ++ [(s, f)]) (returned x)
    (cancelled x) (owned x) (disturbed x).
Definition record_returned (f : nat) (x : World) : World :=
  mkWorld (pool x) (sequences x) (dead_workers x) (next_worker x) (added x) (started x) (returned x ++ [f])
    (cancelled x) (owned x) (disturbed x).
Definition record_cancelled (f : nat) (x : World) : World :=
  mkWorld (pool x) (sequences x) (dead_workers x) (next_worker x) (added x) (started x) (returned x)
    (cancelled x ++ [f]) (owned x) (disturbed x).
Definition with_owned (o : gset nat) (x : World) : World :=
  mkWorld (pool x) (sequences x) (dead_workers x) (next_worker x) (added x) (started x) (returned x) (cancelled x)
    o (disturbed x).
Definition disturb (s : nat) (x : World) : World :=
  mkWorld (pool x) (sequences x) (dead_workers x) (next_worker x) (added x) (started x) (returned x) (cancelled x)
    (owned x) ({[s]} ∪ disturbed x).
Definition kill_workers (ws : gset nat) (x : World) : World :=
  mkWorld (pool x) (sequences x) (ws ∪ dead_workers x) (next_worker x) (added x) (started x) (returned x)
    (cancelled x) (owned x) (disturbed x).
Definition made_worker (x : World) : World :=
  mkWorld (pool x) (sequences x) (dead_workers x) (S (next_worker x)) (added x) (started x) (returned x)
    (cancelled x) (owned x) (disturbed x).

(** The [DCHECK]s of [Function::CallRun] and [CallCancel]. *)
Definition not_called (f : nat) (x : World) : bool :=
  bool_decide (f ∉ (started x).*2) && bool_decide (f ∉ cancelled x).
Definition CallRun (s f : nat) (x : World) : option World :=
  if not_called f x then Some (record_started s f x) else None.
Definition CallCancel (f : nat) (x : World) : option World :=
  if not_called f x then Some (record_cancelled f x) else None.

(** ** Sequence *)

Definition with_queue (fs : list nat) (q : Sequence) : Sequence :=
  mkSequence fs (pool_ q) (shutdown_ q) (active_ q) (max_queue_size_ q).
Definition with_active (a : bool) (q : Sequence) : Sequence :=
  mkSequence (work_queue_ q) (pool_ q) (shutdown_ q) a (max_queue_size_ q).
Definition with_shutdown (q : Sequence) : Sequence :=
  mkSequence (work_queue_ q) (pool_ q) true (active_ q) (max_queue_size_ q).
Definition without_pool (q : Sequence) : Sequence :=
  mkSequence (work_queue_ q) false (shutdown_ q) (active_ q) (max_queue_size_ q).
Definition new_Sequence : Sequence := mkSequence [] true false false kUnboundedQueue.

Definition Reset (q : Sequence) : option Sequence :=
  match work_queue_ q with
  | [] => Some (mkSequence [] (pool_ q) false false (max_queue_size_ q))
  | _ => None
  end.

(** The section of [Add] under the lock: the function to cancel, whether to queue
    the sequence, and whether that is because the only pending function went. *)
Definition Add_locked (f : nat) (q : Sequence) : Sequence * option nat * bool * bool :=
  if shutdown_ q then (q, Some f, false, false)
  else
    let '(cancel, queue) :=
      match work_queue_ q with
      | oldest :: rest =>
          if negb (max_queue_size_ q =? kUnboundedQueue)%nat && (max_queue_size_ q <=? length (work_queue_ q))%nat
          then (Some oldest, rest) else (None, work_queue_ q)
      | [] => (None, [])
      end in
    let queue := queue ++ [f] in
    let queue_sequence := negb (active_ q) && (length queue =? 1)%nat in
    (with_queue queue q, cancel, queue_sequence, queue_sequence && bool_decide (is_Some cancel)).

(** The end of [NextFunction] when the sequence is released. *)
Definition release (s w : nat) (q : Sequence) (x : World) : World * list Thread :=
  (set_sequence s (with_active false q) x, if pool_ q then [NoLongerActive s w] else [Assign w]).

(** [CancelTasksOnWorkQueue] from the test of its loop on, and what follows it. *)
Definition CancelTasks (s : nat) (k : Then) (x : World) : option (World * list Thread) :=
  q ← sequences x !! s;
  match work_queue_ q with
  | f :: rest => Some (set_sequence s (with_queue rest q) x, [Cancelling s f k])
  | [] =>
      match k with
      | ThenReturn => Some (x, [])
      | ThenRelease w => Some (release s w q x)
      | ThenWait rest => Some (x, [WaitForShutDown rest])
      end
  end.

Definition NextFunction_locked (s w : nat) (x : World) : option (World * list Thread) :=
  q ← sequences x !! s;
  if shutdown_ q then
    match work_queue_ q with
    | _ :: _ => CancelTasks s (ThenRelease w) x
    | [] => if active_ q then Some (release s w q x) else Some (x, [Assign w])
    end
  else
    match work_queue_ q with
    | [] => Some (set_sequence s (with_active false q) x, [Assign w])
    | f :: rest =>
        x ← CallRun s f (set_sequence s (with_active true (with_queue rest q)) x);
        Some (x, [Running s f w])
    end.

(** [IsBusy] and [AreBusy]. *)
Definition IsBusy (q : Sequence) : bool := active_ q || negb (bool_decide (work_queue_ q = [])).
Definition AreBusy (ss : list nat) (x : World) : option bool :=
  foldr (fun s busy => q ← sequences x !! s; b ← busy; Some (IsBusy q || b)) (Some false) ss.

(** ** Pool *)

(** [push_back] into and [back]/[pop_back] out of the vectors. *)
Definition pop_back (l : list nat) : option (list nat * nat) :=
  match last l with Some x => Some (removelast l, x) | None => None end.

Definition QueueSequence (s : nat) (x : World) : World * list Thread :=
  let '(mkPool mx sd act avail all queued free shed) := pool x in
  match pop_back avail with
  | None =>
      if (size act <? mx)%nat then
        let w := next_worker x in
        (made_worker (with_pool (mkPool mx sd ({[w]} ∪ act) avail all queued free shed) x), [RunInWorkThread s w])
      else
        let queued := queued ++ [s] in
        match queued with
        | oldest :: rest =>
            if negb (shed =? kNoLoadShedding) && (shed <? Z.of_nat (length queued))
            then (disturb oldest (with_pool (mkPool mx sd act avail all rest free shed) x), [DropSequence oldest])
            else (with_pool (mkPool mx sd act avail all queued free shed) x, [])
        | [] => (with_pool (mkPool mx sd act avail all queued free shed) x, [])
        end
  | Some (avail, w) =>
      (with_pool (mkPool mx sd ({[w]} ∪ act) avail all queued free shed) x, [RunInWorkThread s w])
  end.

(** A failed [DCHECK_EQ(1, erased)] is [None]. *)
Definition AssignWorkerToNextSequence (w : nat) (x : World) : option (World * list Thread) :=
  let '(mkPool mx sd act avail all queued free shed) := pool x in
  if sd then Some (x, [])
  else
    match queued with
    | [] =>
        if decide (w ∈ act) then
          Some (with_pool (mkPool mx sd (act ∖ {[w]}) (avail ++ [w]) all [] free shed) x, [])
        else None
    | s :: queued => Some (with_pool (mkPool mx sd act avail all queued free shed) x, [NextFunction s w])
    end.

Definition SequenceNoLongerActive (s : nat) (x : World) : World :=
  let '(mkPool mx sd act avail all queued free shed) := pool x in
  if sd then x else with_pool (mkPool mx sd act avail all queued (free ++ [s]) shed) x.

(** The second section of [FreeSequence] does not look at [shutdown_]. *)
Definition push_free (s : nat) (x : World) : World :=
  let '(mkPool mx sd act avail all queued free shed) := pool x in
  with_pool (mkPool mx sd act avail all queued (free ++ [s]) shed) x.

(** The new sequence, [None] when shutting down. *)
Definition NewSequence (x : World) : option (World * option nat) :=
  let '(mkPool mx sd act avail all queued free shed) := pool x in
  if sd then Some (x, None)
  else
    match pop_back free with
    | None =>
        let s := fresh (dom (sequences x)) in
        Some (with_owned ({[s]} ∪ owned x) (set_sequence s new_Sequence
                (with_pool (mkPool mx sd act avail (all ++ [s]) queued free shed) x)), Some s)
    | Some (free, s) =>
        q ← sequences x !! s;
        q ← Reset q;
        Some (with_owned ({[s]} ∪ owned x) (set_sequence s q
                (with_pool (mkPool mx sd act avail all queued free shed) x)), Some s)
    end.

(** [Sequence::InitiateShutDown] returns whether the sequence is idle. *)
Definition FreeSequence (s : nat) (x : World) : option (World * list Thread) :=
  q ← sequences x !! s;
  Some (with_owned (owned x ∖ {[s]}) (set_sequence s (with_shutdown q) x),
        if negb (active_ q) && bool_decide (work_queue_ q = []) then [PushFree s] else []).

Definition Add (s f : nat) (x : World) : option (World * list Thread) :=
  q ← sequences x !! s;
  let '(q, cancel, queue_sequence, lost) := Add_locked f q in
  let x := record_added s f (set_sequence s q x) in
  Some (if lost then disturb s x else x,
        match cancel with
        | Some f' => [AddCancel f' (if queue_sequence then Some s else None)]
        | None => if queue_sequence then [AddQueue s] else []
        end).

Definition CancelPendingFunctions (s : nat) (x : World) : option (World * list Thread) :=
  q ← sequences x !! s;
  Some (disturb s (set_sequence s (with_queue [] q) x), [CancelSwapped (work_queue_ q)]).

Definition set_max_queue_size (s n : nat) (x : World) : option World :=
  q ← sequences x !! s;
  Some (set_sequence s (mkSequence (work_queue_ q) (pool_ q) (shutdown_ q) (active_ q) n) x).

(** [ShutDown] up to the first sequence. A second call, by the destructor, only checks
    that no worker has come back, and waits again. *)
Definition ShutDown (x : World) : option (World * list Thread) :=
  let '(mkPool mx sd act avail all queued free shed) := pool x in
  if (sd : bool) then
    if bool_decide (act = ∅) && bool_decide (avail = []) then Some (x, [WaitForShutDown all]) else None
  else Some (with_pool (mkPool mx true act avail all queued free shed) x, [InitiateShutDown all all]).

(** [WaitForShutDownComplete] once the sequences are idle. *)
Definition JoinWorkers_locked (x : World) : World * list Thread :=
  let '(mkPool mx sd act avail all queued free shed) := pool x in
  match elements act with
  | w :: _ => (with_pool (mkPool mx sd (act ∖ {[w]}) avail all queued free shed) x, [JoinWorker w])
  | [] => (kill_workers (list_to_set avail) (with_pool (mkPool mx sd act [] all queued free shed) x), [])
  end.

(** ** Steps *)

Definition step (t : Thread) (x : World) : option (World * list Thread) :=
  match t with
  | AddCancel f queue => x ← CallCancel f x; Some (x, match queue with Some s => [AddQueue s] | None => [] end)
  | AddQueue s => q ← sequences x !! s; if pool_ q then Some (QueueSequence s x) else None
  | CancelSwapped [] => Some (x, [])
  | CancelSwapped (f :: fs) => x ← CallCancel f x; Some (x, [CancelSwapped fs])
  | DropSequence s => CancelTasks s ThenReturn x
  | RunInWorkThread s w => if decide (w ∈ dead_workers x) then None else Some (x, [Task s w])
  | Task s w => Some (x, if decide (w ∈ dead_workers x) then [] else [NextFunction s w])
  | NextFunction s w => NextFunction_locked s w x
  | Running s f w => Some (record_returned f x, [NextFunction s w])
  | NoLongerActive s w => Some (SequenceNoLongerActive s x, [Assign w])
  | Assign w => AssignWorkerToNextSequence w x
  | Cancelling s f k => x ← CallCancel f x; CancelTasks s k x
  | PushFree s => Some (push_free s x, [])
  | InitiateShutDown [] all => Some (x, [WaitForShutDown all])
  | InitiateShutDown (s :: rest) all =>
      q ← sequences x !! s; Some (set_sequence s (with_shutdown q) x, [InitiateShutDown rest all])
  | WaitForShutDown [] => Some (x, [JoinWorkers])
  | WaitForShutDown (s :: rest) =>
      q ← sequences x !! s;
      let x := set_sequence s (without_pool (with_shutdown q)) x in
      if active_ q then Some (x, [WaitInactive s rest]) else CancelTasks s (ThenWait rest) x
  | WaitInactive s rest => CancelTasks s (ThenWait rest) x
  | JoinWorkers => Some (JoinWorkers_locked x)
  | JoinWorker w => Some (kill_workers {[w]} x, [JoinWorkers])
  end.

Record System := mkSystem { world : World; threads : list Thread }.

Inductive event :=
| ENewSequence
| EFreeSequence (s : nat)
| EAdd (s f : nat)
| ECancelPendingFunctions (s : nat)
| ESetMaxQueueSize (s n : nat)
| EShutDown
| EStep (i : nat).

(** A step waits: a worker runs one task at a time, [WaitForShutDown] waits for an
    inactive sequence, and [Join] for the thread of the worker. *)
Definition ready (t : Thread) (m : System) : bool :=
  match t with
  | Task _ w | JoinWorker w => bool_decide (Some w ∉ busy_worker <$> threads m)
  | WaitInactive s _ => match sequences (world m) !! s with Some q => negb (active_ q) | None => false end
  | _ => true
  end.

(** What callers may do: a function is added once, a sequence is freed by its owner,
    the pool is shut down once (runs end before its destructor). *)
Definition enabled (e : event) (m : System) : bool :=
  match e with
  | ENewSequence => true
  | EFreeSequence s => bool_decide (s ∈ owned (world m))
  | EAdd s f => bool_decide (is_Some (sequences (world m) !! s)) && bool_decide (f ∉ (added (world m)).*2)
  | ECancelPendingFunctions s | ESetMaxQueueSize s _ => bool_decide (is_Some (sequences (world m) !! s))
  | EShutDown => negb (pool_shutdown_ (pool (world m)))
  | EStep i => match threads m !! i with Some t => ready t m | None => false end
  end.

Definition spawn (r : World * list Thread) (m : System) : System := mkSystem r.1 (threads m ++ r.2).

Definition handle (e : event) (m : System) : option System :=
  match e with
  | ENewSequence => '(x, _) ← NewSequence (world m); Some (mkSystem x (threads m))
  | EFreeSequence s => r ← FreeSequence s (world m); Some (spawn r m)
  | EAdd s f => r ← Add s f (world m); Some (spawn r m)
  | ECancelPendingFunctions s => r ← CancelPendingFunctions s (world m); Some (spawn r m)
  | ESetMaxQueueSize s n => x ← set_max_queue_size s n (world m); Some (mkSystem x (threads m))
  | EShutDown => r ← ShutDown (world m); Some (spawn r m)
  | EStep i =>
      t ← threads m !! i;
      '(x, ts) ← step t (world m);
      Some (mkSystem x (take i (threads m) ++ ts ++ drop (S i) (threads m)))
  end.

Definition new_Pool (max_workers : nat) (shed : Z) : Pool := mkPool max_workers false ∅ [] [] [] [] shed.
Definition new_System (max_workers : nat) (shed : Z) : System :=
  mkSystem (mkWorld (new_Pool max_workers shed) ∅ ∅ 0 [] [] [] [] ∅ ∅) [].

Fixpoint run (es : list event) (m : System) : option System :=
  match es with
  | [] => Some m
  | e :: es => if enabled e m then m ← handle e m; run es m else None
  end.

(** ** Moves

    A thread between two [queueing] points has decided to hand a sequence to a
    worker. [ShutDown] must not overtake it: [orderly]. *)

Definition queueing (t : Thread) : bool :=
  match t with AddCancel _ (Some _) | AddQueue _ | RunInWorkThread _ _ => true | _ => false end.
Definition quiet (ts : list Thread) : Prop := Forall (fun t => queueing t = false) ts.

Definition orderly (e : event) (m : System) : Prop :=
  match e with
  | EStep i => match threads m !! i with Some (WaitForShutDown _) => quiet (threads m) | _ => True end
  | _ => True
  end.

(** What one event does, branch by branch: [old] threads become [new] ones, the
    [rest] stays. *)
Inductive loop_from : Thread -> nat -> Then -> list nat -> Prop :=
| from_drop s : loop_from (DropSequence s) s ThenReturn []
| from_cancel s f k : loop_from (Cancelling s f k) s k [f]
| from_wait s rest : loop_from (WaitInactive s rest) s (ThenWait rest) [].

Definition cancel_all (fs : list nat) (x : World) : World := fold_left (fun x f => record_cancelled f x) fs x.

Definition on_pool (f : Pool -> Pool) (x : World) : World := with_pool (f (pool x)) x.
Definition with_shutdown_ (p : Pool) : Pool :=
  mkPool (max_workers_ p) true (active_workers_ p) (available_workers_ p) (all_sequences_ p) (queued_sequences_ p)
    (free_sequences_ p) (load_shedding_threshold_ p).
Definition with_workers (act : gset nat) (avail : list nat) (p : Pool) : Pool :=
  mkPool (max_workers_ p) (pool_shutdown_ p) act avail (all_sequences_ p) (queued_sequences_ p)
    (free_sequences_ p) (load_shedding_threshold_ p).
Definition with_queued (queued : list nat) (p : Pool) : Pool :=
  mkPool (max_workers_ p) (pool_shutdown_ p) (active_workers_ p) (available_workers_ p) (all_sequences_ p) queued
    (free_sequences_ p) (load_shedding_threshold_ p).
Definition with_free (free : list nat) (p : Pool) : Pool :=
  mkPool (max_workers_ p) (pool_shutdown_ p) (active_workers_ p) (available_workers_ p) (all_sequences_ p)
    (queued_sequences_ p) free (load_shedding_threshold_ p).
Definition with_all (all : list nat) (p : Pool) : Pool :=
  mkPool (max_workers_ p) (pool_shutdown_ p) (active_workers_ p) (available_workers_ p) all
    (queued_sequences_ p) (free_sequences_ p) (load_shedding_threshold_ p).

Section moves.
Variable rest : list Thread.

Inductive move (x : World) : list Thread -> World -> list Thread -> Prop :=
(* callers *)
| m_new s : pool_shutdown_ (pool x) = false -> free_sequences_ (pool x) = [] -> sequences x !! s = None ->
    move x [] (with_owned ({[s]} ∪ owned x) (set_sequence s new_Sequence (on_pool (with_all (all_sequences_ (pool x) ++ [s])) x))) []
| m_reuse s q free : pool_shutdown_ (pool x) = false -> free_sequences_ (pool x) = free ++ [s] ->
    sequences x !! s = Some q -> work_queue_ q = [] ->
    move x [] (with_owned ({[s]} ∪ owned x)
      (set_sequence s (mkSequence [] (pool_ q) false false (max_queue_size_ q)) (on_pool (with_free free) x))) []
| m_free s q : s ∈ owned x -> sequences x !! s = Some q ->
    move x [] (with_owned (owned x ∖ {[s]}) (set_sequence s (with_shutdown q) x))
      (if negb (active_ q) && bool_decide (work_queue_ q = []) then [PushFree s] else [])
| m_add_refused s f q : sequences x !! s = Some q -> f ∉ (added x).*2 -> shutdown_ q = true ->
    move x [] (record_added s f (set_sequence s q x)) [AddCancel f None]
| m_add s f q : sequences x !! s = Some q -> f ∉ (added x).*2 -> shutdown_ q = false ->
    work_queue_ q <> [] \/ active_ q = true ->
    move x [] (record_added s f (set_sequence s (with_queue (work_queue_ q ++ [f]) q) x)) []
| m_add_first s f q : sequences x !! s = Some q -> f ∉ (added x).*2 -> shutdown_ q = false ->
    work_queue_ q = [] -> active_ q = false ->
    move x [] (record_added s f (set_sequence s (with_queue [f] q) x)) [AddQueue s]
| m_add_full s f q o fs : sequences x !! s = Some q -> f ∉ (added x).*2 -> shutdown_ q = false ->
    work_queue_ q = o :: fs -> fs <> [] \/ active_ q = true ->
    move x [] (record_added s f (set_sequence s (with_queue (fs ++ [f]) q) x)) [AddCancel o None]
| m_add_lost s f q o : sequences x !! s = Some q -> f ∉ (added x).*2 -> shutdown_ q = false ->
    work_queue_ q = [o] -> active_ q = false ->
    move x [] (disturb s (record_added s f (set_sequence s (with_queue [f] q) x))) [AddCancel o (Some s)]
| m_cancel_pending s q : sequences x !! s = Some q ->
    move x [] (disturb s (set_sequence s (with_queue [] q) x)) [CancelSwapped (work_queue_ q)]
| m_max s q n : sequences x !! s = Some q ->
    move x [] (set_sequence s (mkSequence (work_queue_ q) (pool_ q) (shutdown_ q) (active_ q) n) x) []
| m_shutdown : pool_shutdown_ (pool x) = false ->
    move x [] (on_pool with_shutdown_ x) [InitiateShutDown (all_sequences_ (pool x)) (all_sequences_ (pool x))]
(* Add and CancelPendingFunctions *)
| m_call_cancel f queue : not_called f x = true ->
    move x [AddCancel f queue] (record_cancelled f x) (match queue with Some s => [AddQueue s] | None => [] end)
| m_swapped_nil : move x [CancelSwapped []] x []
| m_swapped f fs : not_called f x = true -> move x [CancelSwapped (f :: fs)] (record_cancelled f x) [CancelSwapped fs]
(* QueueSequence *)
| m_queue_new s q : sequences x !! s = Some q -> pool_ q = true -> available_workers_ (pool x) = [] ->
    (size (active_workers_ (pool x)) < max_workers_ (pool x))%nat ->
    move x [AddQueue s] (made_worker (on_pool (with_workers ({[next_worker x]} ∪ active_workers_ (pool x)) []) x))
      [RunInWorkThread s (next_worker x)]
| m_queue_wait s q : sequences x !! s = Some q -> pool_ q = true -> available_workers_ (pool x) = [] ->
    (max_workers_ (pool x) <= size (active_workers_ (pool x)))%nat ->
    move x [AddQueue s] (on_pool (with_queued (queued_sequences_ (pool x) ++ [s])) x) []
| m_queue_shed s q oldest queued : sequences x !! s = Some q -> pool_ q = true -> available_workers_ (pool x) = [] ->
    (max_workers_ (pool x) <= size (active_workers_ (pool x)))%nat ->
    queued_sequences_ (pool x) ++ [s] = oldest :: queued ->
    move x [AddQueue s] (disturb oldest (on_pool (with_queued queued) x)) [DropSequence oldest]
| m_queue_available s q w avail : sequences x !! s = Some q -> pool_ q = true ->
    available_workers_ (pool x) = avail ++ [w] ->
    move x [AddQueue s] (on_pool (with_workers ({[w]} ∪ active_workers_ (pool x)) avail) x) [RunInWorkThread s w]
(* CancelTasksOnWorkQueue *)
| m_loop_pop t s k c q f fs : loop_from t s k c -> Forall (fun f => not_called f x = true) c ->
    sequences x !! s = Some q -> work_queue_ q = f :: fs ->
    (forall ss, t = WaitInactive s ss -> active_ q = false) ->
    move x [t] (set_sequence s (with_queue fs q) (cancel_all c x)) [Cancelling s f k]
| m_next_pop s w q f fs : sequences x !! s = Some q -> shutdown_ q = true -> work_queue_ q = f :: fs ->
    move x [NextFunction s w] (set_sequence s (with_queue fs q) x) [Cancelling s f (ThenRelease w)]
| m_loop_return t s c q : loop_from t s ThenReturn c -> Forall (fun f => not_called f x = true) c ->
    sequences x !! s = Some q -> work_queue_ q = [] -> move x [t] (cancel_all c x) []
| m_loop_release s f w q : not_called f x = true -> sequences x !! s = Some q -> work_queue_ q = [] ->
    move x [Cancelling s f (ThenRelease w)] (set_sequence s (with_active false q) (record_cancelled f x))
      (if pool_ q then [NoLongerActive s w] else [Assign w])
| m_loop_wait t s ss c q : loop_from t s (ThenWait ss) c -> Forall (fun f => not_called f x = true) c ->
    sequences x !! s = Some q -> work_queue_ q = [] -> (forall ss, t = WaitInactive s ss -> active_ q = false) ->
    move x [t] (cancel_all c x) [WaitForShutDown ss]
(* workers *)
| m_run_in_worker s w : w ∉ dead_workers x -> move x [RunInWorkThread s w] x [Task s w]
| m_task s w : w ∉ dead_workers x -> move x [Task s w] x [NextFunction s w]
| m_task_dead s w : w ∈ dead_workers x -> move x [Task s w] x []
| m_next_release s w q : sequences x !! s = Some q -> shutdown_ q = true -> work_queue_ q = [] -> active_ q = true ->
    move x [NextFunction s w] (set_sequence s (with_active false q) x) (if pool_ q then [NoLongerActive s w] else [Assign w])
| m_next_idle s w q : sequences x !! s = Some q -> shutdown_ q = true -> work_queue_ q = [] -> active_ q = false ->
    move x [NextFunction s w] x [Assign w]
| m_next_empty s w q : sequences x !! s = Some q -> shutdown_ q = false -> work_queue_ q = [] ->
    move x [NextFunction s w] (set_sequence s (with_active false q) x) [Assign w]
| m_next_run s w q f fs : sequences x !! s = Some q -> shutdown_ q = false -> work_queue_ q = f :: fs ->
    not_called f x = true ->
    move x [NextFunction s w] (record_started s f (set_sequence s (with_active true (with_queue fs q)) x)) [Running s f w]
| m_returned s f w : move x [Running s f w] (record_returned f x) [NextFunction s w]
| m_no_longer_active_sd s w : pool_shutdown_ (pool x) = true -> move x [NoLongerActive s w] x [Assign w]
| m_no_longer_active s w : pool_shutdown_ (pool x) = false ->
    move x [NoLongerActive s w] (on_pool (with_free (free_sequences_ (pool x) ++ [s])) x) [Assign w]
| m_assign_sd w : pool_shutdown_ (pool x) = true -> move x [Assign w] x []
| m_assign w : pool_shutdown_ (pool x) = false -> queued_sequences_ (pool x) = [] -> w ∈ active_workers_ (pool x) ->
    move x [Assign w]
      (on_pool (with_workers (active_workers_ (pool x) ∖ {[w]}) (available_workers_ (pool x) ++ [w])) x) []
| m_assign_next w s queued : pool_shutdown_ (pool x) = false -> queued_sequences_ (pool x) = s :: queued ->
    move x [Assign w] (on_pool (with_queued queued) x) [NextFunction s w]
| m_push_free s : move x [PushFree s] (on_pool (with_free (free_sequences_ (pool x) ++ [s])) x) []
(* ShutDown *)
| m_init_nil all : move x [InitiateShutDown [] all] x [WaitForShutDown all]
| m_init s ss all q : sequences x !! s = Some q ->
    move x [InitiateShutDown (s :: ss) all] (set_sequence s (with_shutdown q) x) [InitiateShutDown ss all]
| m_wait_nil : quiet rest -> move x [WaitForShutDown []] x [JoinWorkers]
| m_wait s ss q : quiet rest -> sequences x !! s = Some q ->
    move x [WaitForShutDown (s :: ss)] (set_sequence s (without_pool (with_shutdown q)) x) [WaitInactive s ss]
| m_join w : w ∈ active_workers_ (pool x) ->
    move x [JoinWorkers] (on_pool (with_workers (active_workers_ (pool x) ∖ {[w]}) (available_workers_ (pool x))) x) [JoinWorker w]
| m_join_worker w : move x [JoinWorker w] (kill_workers {[w]} x) [JoinWorkers]
| m_join_available : active_workers_ (pool x) = ∅ ->
    move x [JoinWorkers]
      (kill_workers (list_to_set (available_workers_ (pool x))) (on_pool (with_workers ∅ []) x)) [].
End moves.
