(* ===== verification/QueuedWorkerPoolInv.v ===== *)
(** * The queued worker pool: what it promises

    The invariants of the pool, each kept by every move of QueuedWorkerPool.v, and the
    theorems about every run. *)

From S2P Require Import Prelude QueuedWorkerPool.

(** ** Counting *)

Definition cnt (s : nat) (l : list nat) : nat := length (filter (eq s) l).

#[export] Instance cnt_Permutation s : Proper ((≡ₚ) ==> eq) (cnt s).
Proof. intros l l' H. unfold cnt. by rewrite H. Qed.

Lemma cnt_nil s : cnt s [] = 0%nat.
Proof. done. Qed.
Lemma cnt_cons s x l : cnt s (x :: l) = ((if decide (s = x) then 1 else 0) + cnt s l)%nat.
Proof. unfold cnt. rewrite filter_cons. by case_decide. Qed.
Lemma cnt_app s l l' : cnt s (l ++ l') = (cnt s l + cnt s l')%nat.
Proof. unfold cnt. by rewrite filter_app, length_app. Qed.
Lemma cnt_elem_of s l : s ∈ l <-> (0 < cnt s l)%nat.
Proof.
  induction l as [|x l IH]; [split; [by intros []%not_elem_of_nil|cbn; lia]|].
  rewrite elem_of_cons, cnt_cons. case_decide; naive_solver lia.
Qed.

(** ** What a thread has in hand *)

Definition held (t : Thread) : list nat :=
  match t with AddCancel f _ => [f] | CancelSwapped fs => fs | Cancelling _ f _ => [f] | _ => [] end.
Definition running (t : Thread) : list nat := match t with Running _ f _ => [f] | _ => [] end.

(** The sequence that the thread has the turn of: it is on its way to a worker, or
    the worker is at it. *)
Definition token_of (t : Thread) : option nat :=
  match t with
  | AddCancel _ q => q
  | AddQueue s | RunInWorkThread s _ | Task s _ | NextFunction s _ | Running s _ _ | Cancelling s _ (ThenRelease _) => Some s
  | _ => None
  end.
Definition dropped (t : Thread) : option nat :=
  match t with DropSequence s | Cancelling s _ ThenReturn => Some s | _ => None end.
(** A worker that has begun with the sequence. *)
Definition worked_on (t : Thread) : option nat :=
  match t with NextFunction s _ | Running s _ _ | Cancelling s _ (ThenRelease _) => Some s | _ => None end.
Definition cancelling (t : Thread) : option nat := match t with Cancelling s _ (ThenRelease _) => Some s | _ => None end.
(** A sequence on its way to [free_sequences_]. *)
Definition freeing (t : Thread) : option nat :=
  match t with PushFree s | NoLongerActive s _ => Some s | _ => None end.
Definition worker_of (t : Thread) : option nat :=
  match t with RunInWorkThread _ w | Task _ w => Some w | _ => busy_worker t end.
Definition refers_to (t : Thread) : list nat :=
  match t with
  | AddCancel _ (Some s) | AddQueue s | DropSequence s | RunInWorkThread s _ | Task s _ | NextFunction s _
  | Running s _ _ | NoLongerActive s _ | PushFree s => [s]
  | Cancelling s _ (ThenWait rest) => s :: rest
  | Cancelling s _ _ => [s]
  | InitiateShutDown rest all => rest ++ all
  | WaitForShutDown rest => rest
  | WaitInactive s rest => s :: rest
  | _ => []
  end.

Definition queues (x : World) : list nat := map_to_list (sequences x) ≫= (fun kv => work_queue_ kv.2).

Lemma queues_split x s q :
  sequences x !! s = Some q -> exists Q, queues x ≡ₚ work_queue_ q ++ Q /\
    forall m q', m = <[s := q']> (sequences x) -> map_to_list m ≫= (fun kv => work_queue_ kv.2) ≡ₚ work_queue_ q' ++ Q.
Proof.
  intros H. exists (map_to_list (delete s (sequences x)) ≫= (fun kv => work_queue_ kv.2)). split.
  - unfold queues. by rewrite <- (map_to_list_delete _ _ _ H).
  - intros m q' ->. rewrite <- insert_delete_eq. rewrite map_to_list_insert by apply lookup_delete_eq. done.
Qed.

(** ** Every function is somewhere *)

Record Functions (x : World) (ts : list Thread) : Prop := {
  fun_nodup : NoDup (added x).*2;
  fun_where : (added x).*2 ≡ₚ (started x).*2 ++ cancelled x ++ queues x ++ (ts ≫= held);
  fun_running : (started x).*2 ≡ₚ returned x ++ (ts ≫= running);
}.

Lemma Functions_perm x ts ts' : ts ≡ₚ ts' -> Functions x ts -> Functions x ts'.
Proof. intros Hp []. constructor; [done|by rewrite <- Hp..]. Qed.

Lemma cancelled_all fs x : cancelled (cancel_all fs x) = cancelled x ++ fs.
Proof.
  revert x. induction fs as [|f fs IH]; intros x; cbn; [by rewrite app_nil_r|].
  rewrite IH. cbn. by rewrite <- app_assoc.
Qed.

Lemma cancel_all_rest fs x :
  pool (cancel_all fs x) = pool x /\ sequences (cancel_all fs x) = sequences x /\
  dead_workers (cancel_all fs x) = dead_workers x /\ next_worker (cancel_all fs x) = next_worker x /\
  added (cancel_all fs x) = added x /\ started (cancel_all fs x) = started x /\
  returned (cancel_all fs x) = returned x /\ owned (cancel_all fs x) = owned x /\
  disturbed (cancel_all fs x) = disturbed x.
Proof. revert x. induction fs as [|f fs IH]; intros x; [done|]. apply (IH (record_cancelled f x)). Qed.

Lemma set_same s q x : sequences x !! s = Some q -> <[s := q]> (sequences x) = sequences x.
Proof. apply insert_id. Qed.

Lemma loop_held t s k c : loop_from t s k c -> held t = c /\ running t = [].
Proof. by intros []. Qed.

Ltac world_cbn :=
  cbn [pool sequences dead_workers next_worker added started returned cancelled owned disturbed
       with_pool set_sequence record_added record_started record_returned record_cancelled with_owned disturb
       kill_workers made_worker on_pool
       max_workers_ pool_shutdown_ active_workers_ available_workers_ all_sequences_ queued_sequences_
       free_sequences_ load_shedding_threshold_ with_shutdown_ with_workers with_queued with_free with_all
       work_queue_ pool_ shutdown_ active_ max_queue_size_ with_queue with_active with_shutdown without_pool] in *.

(** The functions of an event: the goal is a permutation of what [Hw] says. *)
Ltac fold_queues x :=
  repeat match goal with |- context [map_to_list (sequences x) ≫= ?f] => change (map_to_list (sequences x) ≫= f) with (queues x) end.

Lemma Functions_move rest x old x' new :
  move rest x old x' new -> Functions x (old ++ rest) -> Functions x' (new ++ rest).
Proof.
  intros Hm [Hn Hw Hr].
  assert (Hnew : forall s, sequences x !! s = None ->
            map_to_list (<[s := new_Sequence]> (sequences x)) ≫= (fun kv => work_queue_ kv.2) ≡ₚ queues x).
  { intros s Hs. by rewrite map_to_list_insert. }
  rewrite bind_app in Hw, Hr.
  destruct Hm; try (match goal with H : sequences x !! ?s = Some ?q |- _ =>
    destruct (queues_split x s q H) as (Q & HQ & HQ') end);
  try (match goal with H : loop_from _ _ _ _ |- _ => destruct (loop_held _ _ _ _ H) as [Hh Hru] end);
  try (match goal with H : loop_from _ _ _ _ |- _ => 
    match goal with |- context [cancel_all ?c x] => destruct (cancel_all_rest c x) as (Ep & Es & Ed & Enx & Ea & Est & Ere & Eo & Edi); pose proof (cancelled_all c x) as Ec end end);
  constructor; unfold queues; world_cbn; rewrite ?Es, ?Ea, ?Est, ?Ere, ?Ec; fold_queues x;
  repeat match goal with |- context [if ?b then [_] else _] => destruct b end;
  repeat match goal with |- context [match ?o with Some _ => _ | None => _ end] => destruct o end;
  try done; rewrite ?bind_app; cbn [mbind list_bind held running app] in *; rewrite ?Hru, ?Hh in *.
  all: try (rewrite Hr; cbn [app]; solve_Permutation).
  all: try (rewrite fmap_app; cbn [fmap list_fmap snd]).
  all: rewrite ?app_nil_r, ?app_nil_l in *.
  all: try (rewrite ?Hnew by done; rewrite Hw; solve_Permutation).
  all: try (erewrite HQ' by reflexivity; world_cbn; rewrite Hw, HQ;
       repeat match goal with E : work_queue_ ?q = _ |- _ => rewrite E in * end; solve_Permutation).
  all: try (rewrite Hr; solve_Permutation).
  all: apply NoDup_app; split; [done|]; split; [|apply NoDup_singleton].
  all: intros ? ? ->%list_elem_of_singleton; done.
Qed.

(** ** Functions start in the order they were added *)

Definition of_sequence (s : nat) (l : list (nat * nat)) : list nat := (filter (fun p => p.1 = s) l).*2.

Definition queue_of (x : World) (s : nat) : list nat :=
  match sequences x !! s with Some q => work_queue_ q | None => [] end.

Definition Ordered (x : World) : Prop :=
  forall s, of_sequence s (started x) ++ queue_of x s `sublist_of` of_sequence s (added x).

Lemma of_sequence_snoc s s' f l :
  of_sequence s (l ++ [(s', f)]) = of_sequence s l ++ (if decide (s' = s) then [f] else []).
Proof.
  unfold of_sequence. rewrite filter_app, fmap_app, filter_cons, filter_nil. cbn. by case_decide.
Qed.

Lemma sublist_drop_middle (a b c l : list nat) : a ++ b ++ c `sublist_of` l -> a ++ c `sublist_of` l.
Proof. intros H. etrans; [|exact H]. apply sublist_app; [done|]. by apply sublist_inserts_l. Qed.

Lemma sublist_drop_last (a b l : list nat) : a ++ b `sublist_of` l -> a `sublist_of` l.
Proof. intros H. etrans; [|exact H]. by apply sublist_inserts_r. Qed.

Lemma Ordered_move rest x old x' new : move rest x old x' new -> Ordered x -> Ordered x'.
Proof.
  intros Hm HO.
  destruct Hm; try (match goal with H : loop_from _ _ _ _ |- _ => 
    match goal with |- context [cancel_all ?c x] => destruct (cancel_all_rest c x) as (Ep & Es & Ed & Enx & Ea & Est & Ere & Eo & Edi) end end);
  unfold Ordered, queue_of in *; world_cbn; rewrite ?Es, ?Ea, ?Est; try exact HO;
  intros s'; specialize (HO s');
  lazymatch goal with |- context [<[?s := _]> (sequences x) !! ?s'] =>
    destruct (decide (s = s')) as [<-|Hne]; [rewrite lookup_insert_eq|rewrite lookup_insert_ne by done] end; world_cbn;
  rewrite ?of_sequence_snoc; rewrite ?decide_True by done; rewrite ?decide_False by done; rewrite ?app_nil_r; try done;
  match goal with H : sequences x !! _ = _ |- _ => rewrite H in HO end;
  repeat match goal with E : work_queue_ ?q = _ |- _ => rewrite E in * end;
  rewrite ?app_nil_r in *; try done; rewrite ?app_assoc.
  all: try (apply sublist_app; [|done]).
  all: try done.
  all: try (eapply sublist_drop_last; exact HO).
  all: try (eapply (sublist_drop_middle _ [_]); exact HO).
  all: try (by rewrite <- app_assoc).
  by apply sublist_inserts_r.
Qed.

(** ** Nothing dangles *)

Record Refs (x : World) (ts : list Thread) : Prop := {
  ref_known : Forall (fun s => is_Some (sequences x !! s))
    (all_sequences_ (pool x) ++ queued_sequences_ (pool x) ++ free_sequences_ (pool x) ++ (ts ≫= refers_to));
  ref_all : forall s, is_Some (sequences x !! s) -> s ∈ all_sequences_ (pool x);
  ref_owned : forall s, s ∈ owned x -> is_Some (sequences x !! s);
}.

Lemma Refs_perm x ts ts' : ts ≡ₚ ts' -> Refs x ts -> Refs x ts'.
Proof. intros Hp []. constructor; [|done..]. by rewrite <- Hp. Qed.

Lemma loop_refers t s k c : loop_from t s k c ->
  refers_to t = s :: match k with ThenWait rest => rest | _ => [] end.
Proof. intros H. destruct H as [|? ? []|]; done. Qed.

Lemma is_Some_set (m : gmap nat Sequence) s q s' : is_Some (m !! s') -> is_Some (<[s := q]> m !! s').
Proof. intros [q' H]. destruct (decide (s = s')) as [->|]; [rewrite lookup_insert_eq|rewrite lookup_insert_ne by done]; eauto. Qed.

Lemma Forall_known_set m s q l :
  Forall (fun s => is_Some ((m : gmap nat Sequence) !! s)) l -> Forall (fun s' => is_Some (<[s := q]> m !! s')) l.
Proof. intros H. eapply Forall_impl; [exact H|]. intros s'. apply is_Some_set. Qed.

Lemma is_Some_set_eq (m : gmap nat Sequence) s q : is_Some (<[s := q]> m !! s).
Proof. rewrite lookup_insert_eq. eauto. Qed.

Lemma is_Some_set_inv (m : gmap nat Sequence) s q s' : is_Some (<[s := q]> m !! s') -> s' = s \/ is_Some (m !! s').
Proof. intros [q' H']. apply lookup_insert_Some in H' as [[<- _]|[_ H']]; eauto. Qed.

Lemma Refs_move rest x old x' new :
  move rest x old x' new -> Refs x (old ++ rest) -> Refs x' (new ++ rest).
Proof.
  intros Hm [Hk Ha Ho]. rewrite bind_app, !Forall_app in Hk. destruct Hk as (K1 & K2 & K3 & K4 & K5).
  destruct Hm;
  try (match goal with H : loop_from _ _ _ _ |- _ => pose proof (loop_refers _ _ _ _ H) as Hlr;
    match goal with |- context [cancel_all ?c x] => destruct (cancel_all_rest c x) as (Ep & Es & Ed & Enx & Ea & Est & Ere & Eo & Edi) end end);
  constructor; world_cbn; rewrite ?Es, ?Ep, ?Eo; try done; rewrite ?bind_app, ?Forall_app;
  rewrite ?Hlr in *; cbn [mbind list_bind app refers_to] in *; rewrite ?app_nil_r in *.
  all: repeat match goal with |- context [if ?b then [_] else _] => destruct b end;
    repeat match goal with |- context [match ?o with Some _ => _ | None => _ end] => destruct o end;
    repeat match goal with E : _ (pool _) = _ ++ [_] |- _ => rewrite E in * | E : queued_sequences_ (pool _) = _ |- _ => rewrite E in * end;
    cbn [mbind list_bind app refers_to] in *.
  all: try (match goal with E : queued_sequences_ (pool ?x) ++ [?s] = ?o :: ?l, H : sequences ?x !! ?s = Some _ |- _ =>
    assert (Forall (fun s => is_Some (sequences x !! s)) (o :: l)) by (rewrite <- E, Forall_app, Forall_singleton; eauto) end).
  all: try match goal with H : loop_from _ _ ?k _ |- _ => rewrite ?Hlr in *; destruct k end.
  all: rewrite ?Forall_app, ?Forall_cons, ?Forall_app, ?Forall_nil in *.
  all: try (intros s'; rewrite ?elem_of_union, ?elem_of_difference, ?elem_of_app, ?elem_of_singleton, ?list_elem_of_singleton).
  all: try (intuition (subst; eauto using Forall_known_set, is_Some_set, is_Some_set_eq); fail).
  all: intros [->|Hs']%is_Some_set_inv; eauto.
Qed.

(** ** Shutting down *)

Definition sd (x : World) : bool := pool_shutdown_ (pool x).
Definition each (x : World) (P : nat -> Sequence -> Prop) : Prop := forall s q, sequences x !! s = Some q -> P s q.

Definition settled (q : Sequence) : Prop := shutdown_ q = true /\ work_queue_ q = [] /\ active_ q = false.
Definition down (x : World) : Prop := sd x = true /\ each x (fun _ q => shutdown_ q = true).

(** What the thread in [ShutDown] has reached. *)
Definition phase (x : World) (t : Thread) : Prop :=
  match t with
  | InitiateShutDown rest all =>
      sd x = true /\ all = all_sequences_ (pool x) /\ each x (fun s q => s ∈ rest \/ shutdown_ q = true)
  | WaitForShutDown rest => down x /\ each x (fun s q => s ∈ rest \/ settled q)
  | WaitInactive s rest => down x /\ each x (fun s' q => s' = s \/ s' ∈ rest \/ settled q)
  | Cancelling s _ (ThenWait rest) =>
      down x /\ each x (fun s' q => (s' = s /\ active_ q = false) \/ s' ∈ rest \/ settled q)
  | JoinWorkers | JoinWorker _ => down x /\ each x (fun _ q => settled q)
  | _ => True
  end.
Definition closer (t : Thread) : bool :=
  match t with
  | InitiateShutDown _ _ | WaitForShutDown _ | WaitInactive _ _ | Cancelling _ _ (ThenWait _) | JoinWorkers | JoinWorker _ => true
  | _ => false
  end.
(** Past the point that nobody may overtake. *)
Definition late (t : Thread) : bool :=
  match t with
  | WaitInactive _ _ | Cancelling _ _ (ThenWait _) | JoinWorkers | JoinWorker _ => true
  | _ => false
  end.

(** The point of no return has been passed. *)
Definition passed (x : World) (ts : list Thread) : Prop :=
  Exists (fun t => late t = true) ts \/ (exists s q, sequences x !! s = Some q /\ pool_ q = false) \/ dead_workers x <> ∅.

Record Shutdown (x : World) (ts : list Thread) : Prop := {
  sh_phase : Forall (phase x) ts;
  sh_done : sd x = true -> Exists (fun t => closer t = true) ts \/ each x (fun _ q => settled q);
  sh_quiet : passed x ts -> down x /\ quiet ts;
}.

#[export] Instance Exists_Permutation {A} (P : A -> Prop) : Proper ((≡ₚ) ==> iff) (Exists P).
Proof. intros l l' H. rewrite !Exists_exists. by setoid_rewrite H. Qed.

Lemma Shutdown_perm x ts ts' : ts ≡ₚ ts' -> Shutdown x ts -> Shutdown x ts'.
Proof. intros Hp []. constructor; unfold quiet, passed in *; by rewrite <- Hp. Qed.

Lemma phase_sd x t : closer t = true -> phase x t -> sd x = true.
Proof. destruct t as [| | | | | | | | | |? ? []| | | | | |]; cbn; try done; unfold down; naive_solver. Qed.
Lemma phase_other x t : closer t = false -> phase x t.
Proof. by destruct t as [| | | | | | | | | |? ? []| | | | | |]. Qed.

Ltac cancel_facts :=
  try (match goal with H : loop_from _ _ _ _ |- _ =>
    match goal with |- context [cancel_all ?c ?x] => destruct (cancel_all_rest c x) as (Ep & Es & Ed & Enx & Ea & Est & Ere & Eo & Edi) end end).

Lemma move_down rest x old x' new :
  move rest x old x' new -> sd x = true ->
  sd x' = true /\ all_sequences_ (pool x') = all_sequences_ (pool x) /\
  each x' (fun s q' => exists q, sequences x !! s = Some q /\ (shutdown_ q = true -> shutdown_ q' = true) /\
    (shutdown_ q = true -> active_ q = false -> active_ q' = false) /\ (settled q -> settled q')).
Proof.
  intros Hm Hsd. unfold sd, each, settled in *.
  destruct Hm; try congruence; cancel_facts; world_cbn; rewrite ?Ep, ?Es;
  (split; [done|]; split; [done|]); intros s' q' Hs'; try (by exists q');
  apply lookup_insert_Some in Hs' as [[<- <-]|[Hne Hs']]; try (by exists q'); eexists; (split; [eassumption|]);
  world_cbn; intuition congruence.
Qed.

Lemma phase_mono rest x old x' new t :
  move rest x old x' new -> phase x t -> closer t = false \/ sd x = true -> phase x' t.
Proof.
  intros Hm Ht [Hc|Hsd]; [by apply phase_other|].
  destruct (move_down _ _ _ _ _ Hm Hsd) as (Hsd' & Hall & He). unfold each in *.
  destruct t as [| | | | | | | | | |s f []| |ss all|ss|s ss| |w]; cbn in *; try done; unfold down, each in *;
    rewrite ?Hall; intuition;
    match goal with H : sequences x' !! _ = Some _ |- _ => destruct (He _ _ H) as (q0 & Hq0 & Hs1 & Hs2 & Hs3) end;
    repeat match goal with H : forall s q, sequences x !! s = Some q -> _ |- _ => pose proof (H _ _ Hq0); clear H end;
    intuition.
Qed.

Lemma down_mono rest x old x' new : move rest x old x' new -> down x -> down x'.
Proof.
  intros Hm [Hsd Hd]. destruct (move_down _ _ _ _ _ Hm Hsd) as (Hsd' & _ & He). split; [done|].
  intros s q' Hq'. destruct (He s q' Hq') as (q & Hq & H & _). eauto.
Qed.

(** Nobody overtakes any more. *)
Lemma quiet_mono rest x old x' new :
  move rest x old x' new -> down x -> quiet (old ++ rest) -> quiet (new ++ rest).
Proof.
  intros Hm [Hsd Hd]. unfold quiet, each, sd in *. rewrite !Forall_app. intros [Ho Hr]. split; [|done].
  destruct Hm; rewrite ?Forall_singleton in *; try done; try congruence;
    try (by repeat constructor); try (by case_match; repeat constructor);
    try (exfalso; match goal with H : sequences x !! _ = Some _ |- _ => apply Hd in H; congruence end).
Qed.

Lemma closer_dec (ts : list Thread) : Exists (fun t => closer t = true) ts \/ Forall (fun t => closer t = false) ts.
Proof.
  induction ts as [|t ts [IH|IH]]; [by right|left; by right|]. destruct (closer t) eqn:E; [left; by left|right; by constructor].
Qed.

(** The threads that the event changed. *)
Lemma Shutdown_new rest x old x' new :
  move rest x old x' new -> Forall (phase x) old ->
  (forall s, is_Some (sequences x !! s) -> s ∈ all_sequences_ (pool x)) -> Forall (phase x') new.
Proof.
  intros Hm Ho Hall.
  assert (Hmono : forall t, phase x t -> closer t = true -> phase x' t).
  { intros t Ht Hc. eapply phase_mono; [exact Hm|exact Ht|]. right. by eapply phase_sd. }
  assert (Hdown : down x -> down x') by (by eapply down_mono).
  destruct Hm; try (by repeat constructor); try (by case_match; repeat constructor);
    rewrite ?Forall_singleton in *; unfold each in *.
  - split; [done|]. split; [done|]. intros s q Hs. left. apply Hall. by exists q.
  - destruct k as [|w|ss]; [done..|].
    assert (Hx : down x /\ each x (fun s' q => (s' = s /\ active_ q = false) \/ s' ∈ ss \/ settled q)).
    { match goal with H : loop_from _ _ _ _ |- _ => inversion H; subst end; [done|].
      destruct Ho as [Hd Hw]. split; [done|]. intros s' q' Hs'.
      destruct (Hw s' q' Hs') as [->|[|]]; [left|by right; left|by right; right]. split; [done|].
      assert (q' = q) as -> by congruence. eauto. }
    destruct Hx as [Hd Hw]. split; [by apply Hdown|]. intros s' q' Hs'. cbn in Hs'.
    rewrite (proj1 (proj2 (cancel_all_rest c x))) in Hs'. apply lookup_insert_Some in Hs' as [[<- <-]|[_ Hs']]; [|by apply Hw].
    cbn. destruct (Hw s q) as [[_ Ha]|[Hin|Hst]]; [done|by left|by right; left|left]. split; [done|apply Hst].
  - assert (Hx : down x /\ each x (fun s' q => (s' = s /\ active_ q = false) \/ s' ∈ ss \/ settled q)).
    { match goal with H : loop_from _ _ _ _ |- _ => inversion H; subst end; [done|].
      destruct Ho as [Hd Hw]. split; [done|]. intros s' q' Hs'.
      destruct (Hw s' q' Hs') as [->|[|]]; [left|by right; left|by right; right]. split; [done|].
      assert (q' = q) as -> by congruence. eauto. }
    destruct Hx as [Hd Hw]. split; [by apply Hdown|]. intros s' q' Hs'.
    rewrite (proj1 (proj2 (cancel_all_rest c x))) in Hs'. destruct (Hw s' q' Hs') as [[-> Ha]|[|]]; [right|by left|by right].
    destruct Hd as [_ Hd]. assert (q' = q) as -> by congruence. by repeat split; [eapply Hd|..].
  - destruct Ho as (Hs & -> & Hw). split; [split; [done|]|]; intros s q Hq.
    + destruct (Hw s q Hq) as [[]%not_elem_of_nil|]; done.
    + left. apply Hall. by exists q.
  - destruct Ho as (Hs & Ha & Hw). split; [done|]. split; [done|]. intros s' q' Hs'. cbn in Hs'.
    apply lookup_insert_Some in Hs' as [[<- <-]|[Hne Hs']]; [by right|].
    destruct (Hw s' q' Hs') as [Hin|]; [left|by right]. apply elem_of_cons in Hin as [->|]; done.
  - destruct Ho as [Hd Hw]. split; [done|]. intros s q Hs. destruct (Hw s q Hs) as [[]%not_elem_of_nil|]; done.
  - destruct Ho as [Hd Hw]. split; [by apply Hdown|]. intros s' q' Hs'. cbn in Hs'.
    apply lookup_insert_Some in Hs' as [[<- <-]|[Hne Hs']]; [by left|].
    destruct (Hw s' q' Hs') as [Hin|]; [|by right; right]. apply elem_of_cons in Hin as [->|]; [done|by right; left].
  - apply (Hmono JoinWorkers); [done|done].
  - apply (Hmono (JoinWorker w)); [done|done].
Qed.

Lemma closer_move rest x old x' new :
  move rest x old x' new -> Exists (fun t => closer t = true) old ->
  Exists (fun t => closer t = true) new \/ old = [JoinWorkers].
Proof.
  intros Hm. destruct Hm; rewrite ?Exists_cons, ?Exists_nil; cbn; try (intuition congruence).
  - match goal with H : loop_from _ _ _ _ |- _ => inversion H; subst end; cbn; intuition congruence.
  - match goal with H : loop_from _ _ _ _ |- _ => inversion H; subst end; cbn; intuition congruence.
Qed.

Lemma passed_move rest x old x' new :
  move rest x old x' new -> passed x' new ->
  passed x old \/ exists ss, old = [WaitForShutDown ss] /\ quiet rest.
Proof.
  intros Hm. unfold passed.
  assert (Hset : forall s q q', sequences x !! s = Some q -> pool_ q' = pool_ q ->
    (exists s0 q0, <[s := q']> (sequences x) !! s0 = Some q0 /\ pool_ q0 = false) ->
    exists s q, sequences x !! s = Some q /\ pool_ q = false).
  { intros s q q' Hs Hq' (s0 & q0 & [[<- <-]|[_ H0]]%lookup_insert_Some & Hf); [|eauto]. exists s, q. by rewrite <- Hq'. }
  destruct Hm; try (by intros _; right; eexists; done);
    match goal with H : loop_from _ _ _ _ |- _ => inversion H; subst; clear H | _ => idtac end;
    cancel_facts; world_cbn; rewrite ?Es, ?Ed, ?Exists_cons, ?Exists_nil; cbn [late];
    repeat match goal with |- context [if ?b then [_] else _] => destruct b end;
    repeat match goal with |- context [match ?o with Some _ => _ | None => _ end] => destruct o end;
    rewrite ?Exists_cons, ?Exists_nil; cbn [late];
    intros [Hl|[Hl|Hl]]; try (by left; right; right); try (by left; right; left);
    try (by left; right; left; eapply Hset; [eassumption| |exact Hl]);
    try (left; left; intuition congruence).
  destruct Hl as (s0 & q0 & [[<- <-]|[_ H2]]%lookup_insert_Some & Hf); [done|]. left; right; left. eauto.
Qed.

Lemma Shutdown_move rest x old x' new :
  move rest x old x' new -> (forall s, is_Some (sequences x !! s) -> s ∈ all_sequences_ (pool x)) ->
  Shutdown x (old ++ rest) -> Shutdown x' (new ++ rest).
Proof.
  intros Hm Hall [Hp Hd Hq]. apply Forall_app in Hp as [Hpo Hpr]. constructor.
  - apply Forall_app. split; [by eapply Shutdown_new|]. rewrite Forall_forall in *. intros t Ht.
    eapply phase_mono; [exact Hm|by apply Hpr|]. destruct (closer t) eqn:Ec; [right|by left].
    eapply phase_sd; [exact Ec|by apply Hpr].
  - intros Hsd'. rewrite Exists_app. destruct (sd x) eqn:Hsd.
    + assert (Hsettled : each x (fun _ q => settled q) -> each x' (fun _ q => settled q)).
      { intros Hs s q' Hs'. destruct (move_down _ _ _ _ _ Hm Hsd) as (_ & _ & He).
        destruct (He s q' Hs') as (q & Hq0 & _ & _ & Hset). eauto. }
      destruct (Hd eq_refl) as [[He|He]%Exists_app|Hs]; [|by left; right|by right; apply Hsettled].
      destruct (closer_move _ _ _ _ _ Hm He) as [Hn| ->]; [by left; left|].
      apply Forall_singleton in Hpo as [_ Hs]. right. by apply Hsettled.
    + unfold sd in *. destruct Hm; cancel_facts; world_cbn; try congruence. left; left. by constructor.
  - intros Hl.
    assert (passed x (old ++ rest) \/ exists ss, old = [WaitForShutDown ss] /\ quiet rest) as [Hx|(ss & -> & Hqr)].
    { unfold passed in *. rewrite Exists_app in *. destruct Hl as [[Hl|Hl]|Hl]; [|by left; left; right|].
      - destruct (passed_move _ _ _ _ _ Hm) as [H|H]; [by left|left; unfold passed in H; intuition|by right].
      - destruct (passed_move _ _ _ _ _ Hm) as [H|H]; [by right|left; unfold passed in H; intuition|by right]. }
    + destruct (Hq Hx) as [H1 H2]. split; [by eapply down_mono|by eapply quiet_mono].
    + apply Forall_singleton in Hpo as [Hdn _]. split; [by eapply down_mono|].
      eapply quiet_mono; [exact Hm|done|]. by constructor.
Qed.

(** ** Workers *)

(** Before [ShutDown] the active workers are those that some thread is at. *)
Record Workers (x : World) (ts : list Thread) : Prop := {
  wk_active : omap worker_of ts ≡ₚ elements (active_workers_ (pool x));
  wk_nodup : NoDup (omap worker_of ts ++ available_workers_ (pool x));
  wk_made : Forall (fun w => (w < next_worker x)%nat) (omap worker_of ts ++ available_workers_ (pool x));
  wk_dead : dead_workers x = ∅;
  wk_queued : queued_sequences_ (pool x) <> [] ->
    available_workers_ (pool x) = [] /\ (max_workers_ (pool x) <= size (active_workers_ (pool x)))%nat;
}.

Lemma Workers_perm x ts ts' : ts ≡ₚ ts' -> Workers x ts -> Workers x ts'.
Proof. intros Hp []. constructor; try done; by rewrite <- Hp. Qed.

Lemma loop_worker t s k c : loop_from t s k c -> worker_of t = match k with ThenRelease w => Some w | _ => None end.
Proof. intros H. destruct H as [|? ? []|]; done. Qed.

(** The same workers, somewhere else. *)
Lemma Workers_same x x' ts ts' :
  Workers x ts -> omap worker_of ts' = omap worker_of ts ->
  active_workers_ (pool x') = active_workers_ (pool x) -> available_workers_ (pool x') = available_workers_ (pool x) ->
  next_worker x' = next_worker x -> dead_workers x' = dead_workers x -> max_workers_ (pool x') = max_workers_ (pool x) ->
  (queued_sequences_ (pool x') <> [] -> queued_sequences_ (pool x) <> [] \/
     available_workers_ (pool x) = [] /\ (max_workers_ (pool x) <= size (active_workers_ (pool x)))%nat) ->
  Workers x' ts'.
Proof.
  intros [] Ho Ha Hv Hn Hd Hm Hq. constructor; rewrite ?Ho, ?Ha, ?Hv, ?Hn, ?Hd, ?Hm; try done.
  intros H. destruct (Hq H); auto.
Qed.

(** A worker begins. *)
Lemma Workers_begin x x' ts t w :
  Workers x ts -> worker_of t = Some w -> w ∉ active_workers_ (pool x) ->
  active_workers_ (pool x') = {[w]} ∪ active_workers_ (pool x) ->
  NoDup (omap worker_of ts ++ w :: available_workers_ (pool x')) ->
  Forall (fun w => (w < next_worker x')%nat) (omap worker_of ts ++ w :: available_workers_ (pool x')) ->
  dead_workers x' = ∅ -> queued_sequences_ (pool x') = [] -> Workers x' (t :: ts).
Proof.
  intros [] Hw Hn Ha Hnd Hf Hd Hq. constructor; cbn; rewrite ?Hw; cbn [app].
  - rewrite Ha, elements_union_singleton by done. by rewrite wk_active0.
  - by rewrite Permutation_middle.
  - by rewrite Permutation_middle.
  - done.
  - by rewrite Hq.
Qed.

Lemma Workers_move rest x old x' new :
  move rest x old x' new -> Forall (phase x) old -> sd x' = false ->
  Workers x (old ++ rest) -> Workers x' (new ++ rest).
Proof.
  intros Hm Hp Hsd HW. unfold sd in Hsd.
  destruct Hm; try done;
    try (match goal with H : loop_from _ _ _ _ |- _ => pose proof (loop_worker _ _ _ _ H) as Hlw end);
    cancel_facts; rewrite ?Forall_singleton in Hp;
    repeat match goal with |- context [if ?b then [_] else _] => destruct b end;
    repeat match goal with |- context [match ?o with Some _ => _ | None => _ end] => destruct o end;
    world_cbn; try congruence; try (exfalso; unfold phase, down, sd in Hp; intuition congruence);
    try (apply (Workers_same x _ _ _ HW); cbn; rewrite ?Hlw, ?Ep, ?Enx, ?Ed; try done; try (by destruct k); by left).
  - destruct HW as [W1 W2 W3 W4 W5]. cbn in W1, W2, W3. rewrite H1 in *.
    assert (HW : Workers x rest) by (constructor; rewrite ?H1; try done; intros Hq; by apply W5).
    assert (Hq : queued_sequences_ (pool x) = []).
    { destruct (queued_sequences_ (pool x)) as [|s0 l]; [done|]. destruct W5; [done|lia]. }
    rewrite app_nil_r in W2, W3.
    assert (Hn : next_worker x ∉ omap worker_of rest) by (intros Hin; rewrite Forall_forall in W3; apply W3 in Hin; lia).
    apply (Workers_begin x _ rest _ (next_worker x) HW); world_cbn; try done.
    + intros Hin. apply Hn. rewrite W1. by apply elem_of_elements.
    + apply NoDup_app. split; [done|]. split; [|apply NoDup_singleton]. by intros w Hw ->%list_elem_of_singleton.
    + apply Forall_app. split; [eapply Forall_impl; [exact W3|cbn; lia]|]. repeat constructor; lia.
  - apply (Workers_same x _ _ _ HW); cbn; try done. intros _. right. split; [done|]. done.
  - apply (Workers_same x _ _ _ HW); cbn; try done. intros _. right. split; [done|]. done.
  - destruct HW as [W1 W2 W3 W4 W5]. cbn in W1, W2, W3. rewrite H1 in *.
    assert (HW : Workers x rest) by (constructor; rewrite ?H1; try done).
    rewrite app_assoc, (Permutation_app_comm _ [w]) in W2, W3. cbn in W2, W3.
    rewrite NoDup_cons, elem_of_app in W2. destruct W2 as [Hn W2].
    apply (Workers_begin x _ rest _ w HW); world_cbn; try done.
    + intros Hin. apply Hn. left. rewrite W1. by apply elem_of_elements.
    + rewrite <- Permutation_middle. apply NoDup_cons. split; [by rewrite elem_of_app|done].
    + by rewrite <- Permutation_middle.
    + destruct (queued_sequences_ (pool x)) as [|s0 l]; [done|]. destruct W5 as [Hv _]; [done|].
      by destruct avail.
  - exfalso. rewrite (wk_dead _ _ HW) in H. by apply not_elem_of_empty in H.
  - destruct HW as [W1 W2 W3 W4 W5]. cbn in W1, W2, W3.
    assert (Hp' : w :: omap worker_of rest ++ available_workers_ (pool x) ≡ₚ
      omap worker_of rest ++ available_workers_ (pool x) ++ [w]) by solve_Permutation.
    constructor; world_cbn; cbn; rewrite <- ?Hp'; try done.
    apply NoDup_cons in W2 as [Hn _]. rewrite elem_of_app in Hn.
    apply (Permutation_cons_inv (a := w)). rewrite W1, <- elements_union_singleton by set_solver.
    by rewrite <- union_difference_singleton_L.
  - apply (Workers_same x _ _ _ HW); cbn; try done. intros _. left. by rewrite H0.
Qed.

(** ** Turns *)

Definition has (f : Thread -> option nat) (s : nat) (ts : list Thread) : Prop := s ∈ omap f ts.

Lemma has_app f s ts ts' : has f s (ts ++ ts') <-> has f s ts \/ has f s ts'.
Proof. unfold has. by rewrite omap_app, elem_of_app. Qed.
Lemma has_cons f s t ts : has f s (t :: ts) <-> f t = Some s \/ has f s ts.
Proof.
  unfold has. cbn. destruct (f t); [rewrite elem_of_cons|]; naive_solver.
Qed.
Lemma has_nil f s : has f s [] <-> False.
Proof. unfold has. cbn. rewrite elem_of_nil. done. Qed.

(** An active sequence is with a worker; one that has functions to run has its turn
    coming, or is losing them. *)
Record Turns (x : World) (ts : list Thread) : Prop := {
  turn_active : each x (fun s q => active_ q = true -> has worked_on s ts);
  turn_pending : sd x = false -> each x (fun s q => work_queue_ q <> [] -> active_ q = false ->
    s ∈ queued_sequences_ (pool x) \/ has token_of s ts \/ has dropped s ts);
}.

#[export] Instance has_Permutation f s : Proper ((≡ₚ) ==> iff) (has f s).
Proof. intros l l' H. unfold has. by rewrite H. Qed.

Lemma Turns_perm x ts ts' : ts ≡ₚ ts' -> Turns x ts -> Turns x ts'.
Proof.
  intros Hp [Ha Hq]. constructor.
  - intros s q Hs. rewrite <- Hp. by apply Ha.
  - intros Hsd s q Hs. rewrite <- Hp. by apply Hq.
Qed.

(** The cases of a move: where a cancellation loop came from, and the tests in the
    threads it leaves. *)
Ltac move_cases Hm :=
  destruct Hm; cancel_facts;
  try (match goal with H : loop_from _ _ _ _ |- _ => inversion H; subst; clear H end);
  repeat match goal with |- context [if ?b then _ else _] => let E := fresh "Eb" in destruct b eqn:E end;
  repeat match goal with |- context [match ?o with Some _ => _ | None => _ end] => destruct o end;
  try match goal with k : Then |- _ => destruct k end.

Lemma Turns_active rest x old x' new :
  move rest x old x' new -> Turns x (old ++ rest) ->
  each x' (fun s q => active_ q = true -> has worked_on s (new ++ rest)).
Proof.
  intros Hm [Ha _]. unfold each in *. rewrite ?has_app in *.
  assert (Ha' : forall s q, sequences x !! s = Some q -> active_ q = true -> has worked_on s old \/ has worked_on s rest).
  { intros s q Hs. rewrite <- has_app. by apply Ha. }
  clear Ha. move_cases Hm; intros s' q' Hs'; world_cbn; rewrite ?Es in Hs'; rewrite has_app;
    try (apply lookup_insert_Some in Hs' as [[<- <-]|[Hne Hs']]; world_cbn); try done;
    intros Hact; try (specialize (Ha' _ _ Hs' Hact)); try (match goal with H : sequences x !! ?s = Some ?q |- _ => specialize (Ha' s q H) end);
    rewrite ?has_cons, ?has_nil in *; cbn [worked_on] in *; try (intuition congruence).
Qed.

Lemma Turns_pending rest x old x' new :
  move rest x old x' new -> Forall (phase x) old -> Workers x (old ++ rest) -> Turns x (old ++ rest) -> sd x' = false ->
  each x' (fun s q => work_queue_ q <> [] -> active_ q = false ->
    s ∈ queued_sequences_ (pool x') \/ has token_of s (new ++ rest) \/ has dropped s (new ++ rest)).
Proof.
  intros Hm Hp HW [Ha Hq] Hsd. unfold each, sd in *.
  assert (Hq' : pool_shutdown_ (pool x) = false -> forall s q, sequences x !! s = Some q -> work_queue_ q <> [] -> active_ q = false ->
    s ∈ queued_sequences_ (pool x) \/ (has token_of s old \/ has dropped s old) \/ has token_of s rest \/ has dropped s rest).
  { intros H s q Hs H1 H2. specialize (Hq H s q Hs H1 H2). rewrite !has_app in Hq. intuition. }
  assert (Ha' : forall s q, sequences x !! s = Some q -> active_ q = true -> has worked_on s old \/ has worked_on s rest).
  { intros s q Hs. rewrite <- has_app. by apply Ha. }
  assert (Hworked : forall s ts, has worked_on s ts -> has token_of s ts).
  { intros s ts. unfold has. rewrite !list_elem_of_omap. intros (t & Ht & E). exists t. split; [done|].
    by destruct t as [| | | | | | | | | |? ? []| | | | | |]. }
  clear Hq Ha. move_cases Hm; rewrite ?Forall_singleton in Hp; world_cbn; try congruence;
    try (exfalso; unfold phase, down, sd in Hp; intuition congruence); intros s' q' Hs'; world_cbn; rewrite ?Es in Hs'; rewrite !has_app;
    try (apply lookup_insert_Some in Hs' as [[<- <-]|[Hne Hs']]; world_cbn); try done;
    intros Hne' Hact; specialize (Hq' Hsd); try (specialize (Hq' _ _ Hs' Hne' Hact));
    repeat match goal with H : sequences x !! ?s = Some ?q |- _ => pose proof (Ha' s q H); pose proof (Hq' s q H); clear H end;
    rewrite ?has_cons, ?has_nil, ?elem_of_app, ?elem_of_cons, ?list_elem_of_singleton in *; cbn [token_of dropped worked_on] in *; try (intuition congruence).
  - assert (Hin : s' ∈ queued_sequences_ (pool x) \/ s' = s -> s' = oldest \/ s' ∈ queued).
    { rewrite <- elem_of_cons, <- H3, elem_of_app, list_elem_of_singleton. done. }
    clear -Hq' Hin. destruct Hq' as [Hq|[[[[= ->]|[]]|[|[]]]|[Hq|Hq]]]; [|  |done|by right; left; right|by right; right; right].
    + destruct Hin as [->|]; [by left|by right; right; left; left|by left].
    + destruct Hin as [->|]; [by right|by right; right; left; left|by left].
  - exfalso. rewrite (wk_dead _ _ HW) in H. by apply not_elem_of_empty in H.
  - rewrite H0, elem_of_cons in Hq'. intuition congruence.
Qed.

Lemma Turns_move rest x old x' new :
  move rest x old x' new -> Forall (phase x) old -> (sd x = false -> Workers x (old ++ rest)) ->
  Turns x (old ++ rest) -> Turns x' (new ++ rest).
Proof.
  intros Hm Hp HW HT. constructor; [by eapply Turns_active|]. intros Hsd. eapply Turns_pending; eauto.
  apply HW. destruct (sd x) eqn:E; [|done].
  destruct (move_down _ _ _ _ _ Hm E) as [E' _]. congruence.
Qed.
