(* ===== verification/QueuedWorkerPoolTurn.v ===== *)
(** * The queued worker pool: turns

    A sequence that lost no functions to a cancellation has one turn at a time, and is
    recycled once. *)

From S2P Require Import Prelude QueuedWorkerPool QueuedWorkerPoolInv.

(** ** Undisturbed sequences *)

Definition tokens (x : World) (ts : list Thread) (s : nat) : nat := cnt s (queued_sequences_ (pool x) ++ omap token_of ts).
Definition frees (x : World) (ts : list Thread) (s : nat) : nat := cnt s (free_sequences_ (pool x) ++ omap freeing ts).

(** A sequence that lost no functions to a cancellation has at most one turn; after
    [FreeSequence] it is recycled once, when the turn is over. In numbers: [n] pending
    functions, [d] threads that drop it, [t] turns, [f] times on the way to
    [free_sequences_], [c] workers cancelling its functions. *)
Definition in_order (sd own shut act : bool) (n d t f c : nat) : Prop :=
  d = 0%nat /\ (t <= 1)%nat /\
  (if shut || act then True else t = 1%nat -> (0 < n)%nat) /\
  (if sd || negb shut || act then True else t = 1%nat -> (0 < n)%nat \/ (0 < c)%nat) /\
  (if shut then True else c = 0%nat) /\
  (if sd then True else if own then (if shut then False else f = 0%nat) else (if shut then (f + t = 1)%nat else False)).

Definition undisturbed (x : World) (ts : list Thread) (s : nat) (q : Sequence) : Prop :=
  in_order (sd x) (bool_decide (s ∈ owned x)) (shutdown_ q) (active_ q) (length (work_queue_ q))
    (cnt s (omap dropped ts)) (tokens x ts s) (frees x ts s) (cnt s (omap cancelling ts)).

Definition Undisturbed (x : World) (ts : list Thread) : Prop :=
  each x (fun s q => s ∉ disturbed x -> undisturbed x ts s q).

Lemma Undisturbed_perm x ts ts' : ts ≡ₚ ts' -> Undisturbed x ts -> Undisturbed x ts'.
Proof.
  intros Hp HU s q Hs Hd. specialize (HU s q Hs Hd). unfold undisturbed, tokens, frees in *. by rewrite <- Hp.
Qed.

Lemma tokens_app x ts ts' s :
  tokens x (ts ++ ts') s = (cnt s (queued_sequences_ (pool x)) + cnt s (omap token_of ts) + cnt s (omap token_of ts'))%nat.
Proof. unfold tokens. rewrite omap_app, !cnt_app. lia. Qed.
Lemma frees_app x ts ts' s :
  frees x (ts ++ ts') s = (cnt s (free_sequences_ (pool x)) + cnt s (omap freeing ts) + cnt s (omap freeing ts'))%nat.
Proof. unfold frees. rewrite omap_app, !cnt_app. lia. Qed.

Lemma has_cnt f s ts : has f s ts <-> (0 < cnt s (omap f ts))%nat.
Proof. apply cnt_elem_of. Qed.

Lemma omap_thread (f : Thread -> option nat) t ts :
  omap f (t :: ts) = match f t with Some y => y :: omap f ts | None => omap f ts end.
Proof. done. Qed.

Lemma cancelling_token s ts : (cnt s (omap cancelling ts) <= cnt s (omap token_of ts))%nat.
Proof.
  induction ts as [|t ts IH]; [done|]. rewrite !omap_thread.
  destruct t as [? [|]| | | | | | | | | |? ? []| | | | | |]; cbn [token_of cancelling]; rewrite ?cnt_cons; lia.
Qed.

Lemma turn_token x ts s q :
  Turns x ts -> sequences x !! s = Some q ->
  if sd x then True else cnt s (omap dropped ts) = 0%nat ->
    (if active_ q then True else (0 < length (work_queue_ q))%nat) -> (0 < tokens x ts s)%nat.
Proof.
  intros [Ha Hq] Hs. destruct (sd x) eqn:Hsd; [done|]. intros Hd Hw0.
  assert (Hw : (0 < length (work_queue_ q))%nat \/ active_ q = true) by (destruct (active_ q); auto). clear Hw0.
  assert (Hd' : ~ has dropped s ts) by (rewrite has_cnt; lia).
  assert (Hne : active_ q = false -> work_queue_ q <> []).
  { intros E0 E. destruct Hw as [H|]; [by rewrite E in H; cbn in H; lia|congruence]. }
  unfold tokens. rewrite cnt_app.
  destruct (active_ q) eqn:Eact.
  - assert (H : has token_of s ts); [|apply has_cnt in H; lia].
    specialize (Ha s q Hs Eact). revert Ha. unfold has. rewrite !list_elem_of_omap. intros (t & Ht & E). exists t. split; [done|].
    by destruct t as [| | | | | | | | | |? ? []| | | | | |].
  - destruct Hw as [Hw|]; [|done]. destruct (Hq eq_refl s q Hs (Hne eq_refl) Eact) as [H|[H|H]]; [|apply has_cnt in H; lia|done].
    apply cnt_elem_of in H. lia.
Qed.

(** A sequence that does not exist yet is nowhere. *)
Lemma unknown x ts s : Refs x ts -> sequences x !! s = None ->
  tokens x ts s = 0%nat /\ frees x ts s = 0%nat /\ cnt s (omap dropped ts) = 0%nat /\ s ∉ owned x.
Proof.
  intros [Hk _ Ho] Hs.
  assert (Hn : forall l, Forall (fun s => is_Some (sequences x !! s)) l -> s ∉ l).
  { intros l Hl Hin. rewrite Forall_forall in Hl. apply Hl in Hin as [q Hq]. congruence. }
  rewrite !Forall_app in Hk. destruct Hk as (_ & H1 & H2 & H3).
  assert (Hz : forall l, s ∉ l -> cnt s l = 0%nat) by (intros l Hl; rewrite cnt_elem_of in Hl; lia).
  assert (Hf : forall f : Thread -> option nat, (forall t s, f t = Some s -> s ∈ refers_to t) -> cnt s (omap f ts) = 0%nat).
  { intros f Hf. apply Hz. intros (t & Ht & E)%list_elem_of_omap. apply (Hn _ H3). apply list_elem_of_bind. eauto. }
  unfold tokens, frees. rewrite !cnt_app, (Hz _ (Hn _ H1)), (Hz _ (Hn _ H2)).
  split; [|split; [|split]]; try (apply Hf; intros t s0 E;
    destruct t as [? [|]| | | | | | | | | |? ? []| | | | | |]; cbn in *; try done; injection E as ->; left).
  intros Hin. apply Ho in Hin as [q Hq]. congruence.
Qed.

Lemma own_add s (O : gset nat) : bool_decide (s ∈ {[s]} ∪ O) = true.
Proof. apply bool_decide_eq_true. set_solver. Qed.
Lemma own_add_ne s s' (O : gset nat) : s <> s' -> bool_decide (s' ∈ {[s]} ∪ O) = bool_decide (s' ∈ O).
Proof. intros H. apply bool_decide_ext. set_solver. Qed.
Lemma own_del s (O : gset nat) : bool_decide (s ∈ O ∖ {[s]}) = false.
Proof. apply bool_decide_eq_false. set_solver. Qed.
Lemma own_del_ne s s' (O : gset nat) : s <> s' -> bool_decide (s' ∈ O ∖ {[s]}) = bool_decide (s' ∈ O).
Proof. intros H. apply bool_decide_ext. set_solver. Qed.

(** Case analysis on the booleans of [in_order], then arithmetic. *)
Ltac in_order_cases :=
  unfold in_order in *;
  repeat match goal with
  | H : context [pool_shutdown_ ?p] |- _ => destruct (pool_shutdown_ p)
  | H : context [shutdown_ ?q] |- _ => destruct (shutdown_ q)
  | H : context [active_ ?q] |- _ => destruct (active_ q)
  | H : context [bool_decide ?P] |- _ => destruct (bool_decide P)
  end; cbn [orb andb negb] in *; lia.

Lemma decide_same {A} (s : nat) (a b : A) : (if decide (s = s) then a else b) = a.
Proof. by rewrite decide_True. Qed.

Ltac count_cases :=
  rewrite ?decide_same in *;
  repeat match goal with
  | |- context [decide (?s = ?s')] => destruct (decide (s = s')); [subst; rewrite ?decide_same in *|]; try congruence
  | H : context [decide (?s = ?s')] |- _ => destruct (decide (s = s')); [subst; rewrite ?decide_same in *|]; try congruence
  end.

Lemma Undisturbed_move rest x old x' new :
  move rest x old x' new -> Forall (phase x) old -> Refs x (old ++ rest) -> Turns x (old ++ rest) ->
  each x (fun _ q => if pool_ q then True else sd x = true) -> (dead_workers x <> ∅ -> sd x = true) ->
  Undisturbed x (old ++ rest) -> Undisturbed x' (new ++ rest).
Proof.
  intros Hm Hp HR HT Hnull Hdead HU. unfold Undisturbed, each in *.
  assert (Htok : forall s q, sequences x !! s = Some q -> if sd x then True else cnt s (omap dropped (old ++ rest)) = 0%nat ->
     (if active_ q then True else (0 < length (work_queue_ q))%nat) -> (0 < tokens x (old ++ rest) s)%nat) by (intros; by eapply turn_token).
  move_cases Hm; rewrite ?Forall_singleton in Hp; intros s' q' Hs'; world_cbn; rewrite ?Es in Hs';
    try (apply lookup_insert_Some in Hs' as [[<- <-]|[Hne Hs']]; world_cbn); rewrite ?Edi.
  all: unfold undisturbed, sd in *; try (intros Hd; match goal with H : sequences ?y !! ?s = Some ?q |- in_order _ (bool_decide (?s ∈ _)) _ _ _ _ _ _ _ =>
     let U1 := fresh "U" in let Hd0 := fresh "Hd" in
     assert (s ∉ disturbed y) as Hd0 by (clear -Hd; world_cbn; set_solver); pose proof (HU s q H Hd0) as U1;
     specialize (Htok s q H); specialize (Hnull s q H); pose proof (cancelling_token s rest); clear HU HT HR end).
  all: unfold tokens, frees in *; world_cbn; rewrite ?Ep, ?Eo; cbn [app] in *; rewrite ?omap_thread in *;
    cbn [token_of freeing dropped cancelling] in *.
  all: repeat match goal with E : work_queue_ ?q = _ |- _ => rewrite E in * | E : shutdown_ ?q = _ |- _ => rewrite E in * | E : active_ ?q = _ |- _ => rewrite E in * | E : pool_shutdown_ _ = _ |- _ => rewrite E in * | E : pool_ _ = _ |- _ => rewrite E in * end.
  all: try match goal with E : free_sequences_ _ = _ |- _ => rewrite E in * end.
  all: try match goal with E : queued_sequences_ _ = _ :: _ |- _ => rewrite E in * end.
  all: try match goal with E : queued_sequences_ _ ++ _ = _ |- context [cnt ?sx (omap dropped _)] => apply (f_equal (cnt sx)) in E; rewrite cnt_app, !cnt_cons, cnt_nil in E end.
  all: try match goal with Hp : phase _ _ |- _ => cbn [phase] in Hp; unfold down, sd in Hp end.
  all: try match type of Hp with (_ /\ _) /\ _ => destruct Hp as [[Hp Hps] _]; rewrite Hp in *; try (match goal with H : sequences _ !! _ = Some _ |- _ => rewrite (Hps _ _ H) in * end) end.
  all: try (match goal with H : ?sx ∈ owned _ |- _ => apply bool_decide_eq_true_2 in H as Hown; rewrite Hown in * end ).
  all: rewrite ?length_app in *; cbn [length] in *.
  all: rewrite ?cnt_app, ?cnt_cons, ?cnt_nil in *.
  all: rewrite ?own_add, ?own_del; try (rewrite own_add_ne by done); try (rewrite own_del_ne by done).
  all: try match goal with Hd : ?sx ∉ {[?sx]} ∪ _ |- _ => exfalso; apply Hd, elem_of_union; left; by apply elem_of_singleton end.
  all: try (clear Htok Hp; count_cases; in_order_cases; fail).
  - intros _. destruct (unknown x rest s HR H1) as (Ht & Hf & Hd & _). unfold tokens, frees in *. rewrite cnt_app in *.
    pose proof (cancelling_token s rest). rewrite H0 in Hf. cbn in Hf. clear HU Htok. unfold in_order. cbn. lia.
  - rewrite (bool_decide_eq_true_2 _ H) in U. apply andb_true_iff in Eb as [Ea Eq%bool_decide_eq_true_1].
    rewrite Eq in *. cbn [length] in *. destruct (active_ q); [done|]. clear Htok. count_cases. in_order_cases.
  - rewrite (bool_decide_eq_true_2 _ H) in U.
    assert (Hw : if active_ q then True else (0 < length (work_queue_ q))%nat).
    { destruct (active_ q); [done|]. apply bool_decide_eq_false_1 in Eb. destruct (work_queue_ q); [done|cbn; lia]. }
    clear Eb. in_order_cases.
  - assert (s' <> oldest) by (intros ->; apply Hd, elem_of_union; left; by apply elem_of_singleton).
    apply (f_equal (cnt s')) in H3. rewrite cnt_app, !cnt_cons, cnt_nil in H3. clear Htok. rewrite decide_False in * by done.
    count_cases; in_order_cases.
  - assert (Hsd : pool_shutdown_ (pool x) = true) by (apply Hdead; intros E; rewrite E in H; by apply not_elem_of_empty in H).
    rewrite Hsd in *. count_cases; in_order_cases.
  - clear Htok. destruct (decide (s' = s)) as [->|]; [|in_order_cases].
    assert (q' = q) as -> by congruence. rewrite H0, H1, H2 in *. cbn [length] in *. in_order_cases.
  - destruct Hp as [Hp _]. rewrite Hp in *. in_order_cases.
Qed.
