(* ===== verification/QueuedWorkerPoolMoves.v ===== *)
(** * The queued worker pool: events are moves

    Every event of an orderly run is one or two moves, so the invariants hold in every
    reachable state; a step of a thread leaves less work; and no event fails before a
    cancellation has disturbed a sequence. *)

From S2P Require Import Prelude QueuedWorkerPool QueuedWorkerPoolInv QueuedWorkerPoolTurn.

(** ** The invariant *)

Record Inv (x : World) (ts : list Thread) : Prop := {
  inv_functions : Functions x ts;
  inv_ordered : Ordered x;
  inv_refs : Refs x ts;
  inv_shutdown : Shutdown x ts;
  inv_workers : sd x = false -> Workers x ts;
  inv_turns : Turns x ts;
  inv_undisturbed : Undisturbed x ts;
}.

Lemma pool_gone x ts s q : Shutdown x ts -> sequences x !! s = Some q -> pool_ q = false -> down x /\ quiet ts.
Proof. intros H Hs Hq. apply (sh_quiet _ _ H). right; left. eauto. Qed.

Lemma worker_gone x ts : Shutdown x ts -> dead_workers x <> ∅ -> down x /\ quiet ts.
Proof. intros H Hd. apply (sh_quiet _ _ H). by right; right. Qed.

Lemma Inv_perm x ts ts' : ts ≡ₚ ts' -> Inv x ts -> Inv x ts'.
Proof.
  intros Hp []. constructor; eauto using Functions_perm, Refs_perm, Shutdown_perm, Workers_perm, Turns_perm, Undisturbed_perm.
Qed.

Lemma Inv_move rest x old x' new : move rest x old x' new -> Inv x (old ++ rest) -> Inv x' (new ++ rest).
Proof.
  intros Hm [Hf Ho Hr Hs Hw Ht Hu]. pose proof Hs as [Hp _ _]. apply Forall_app in Hp as [Hp _].
  assert (Hsd : sd x' = false -> sd x = false).
  { intros H. destruct (sd x) eqn:E; [|done]. destruct (move_down _ _ _ _ _ Hm E) as [E' _]. congruence. }
  constructor; eauto using Functions_move, Ordered_move, Refs_move, Workers_move, Turns_move.
  - eapply Shutdown_move; [exact Hm|apply Hr|done].
  - eapply Undisturbed_move; [exact Hm|done..| | |done].
    + intros s q Hq. destruct (pool_ q) eqn:E; [done|]. by destruct (pool_gone _ _ _ _ Hs Hq E) as [[] _].
    + intros Hd. by destruct (worker_gone _ _ Hs Hd) as [[] _].
Qed.

(** ** Events are moves *)

Inductive moves : World -> list Thread -> World -> list Thread -> Prop :=
| moves_none x ts ts' : ts ≡ₚ ts' -> moves x ts x ts'
| moves_cons x ts old rest x1 new x' ts' :
    ts ≡ₚ old ++ rest -> move rest x old x1 new -> moves x1 (new ++ rest) x' ts' -> moves x ts x' ts'.

Lemma Inv_moves x ts x' ts' : moves x ts x' ts' -> Inv x ts -> Inv x' ts'.
Proof.
  induction 1 as [|x ts old rest x1 new x' ts' Hp Hm _ IH]; intros HI; [by eapply Inv_perm|].
  apply IH. eapply Inv_move; [exact Hm|]. by eapply Inv_perm.
Qed.

Lemma one_move rest x old x' new ts ts' :
  ts ≡ₚ old ++ rest -> move rest x old x' new -> new ++ rest ≡ₚ ts' -> moves x ts x' ts'.
Proof. intros Hp Hm Hp'. eapply moves_cons; [exact Hp|exact Hm|]. by apply moves_none. Qed.

Lemma moves_perm x ts x' ts' l l' : moves x ts x' ts' -> ts ≡ₚ l -> ts' ≡ₚ l' -> moves x l x' l'.
Proof.
  intros Hm. revert l l'. induction Hm as [|x ts old rest x1 new x' ts' Hp Hm _ IH]; intros l l' H1 H2.
  - apply moves_none. by rewrite <- H1, <- H2.
  - eapply moves_cons; [by rewrite <- H1|exact Hm|]. by apply IH.
Qed.

(** A function in a queue or in the hands of a thread was not called. *)
Lemma pending_not_called x ts f : Functions x ts -> f ∈ queues x ++ (ts ≫= held) -> not_called f x = true.
Proof.
  intros [Hn Hw _] Hf. rewrite Hw in Hn. rewrite (assoc_L (++)) in Hn. apply NoDup_app in Hn as (_ & Hd & _).
  unfold not_called. apply andb_true_iff. split; apply bool_decide_eq_true; intros Hin; apply (Hd f); try done;
    rewrite elem_of_app; auto.
Qed.

Lemma queued_not_called x ts s q f : Functions x ts -> sequences x !! s = Some q -> f ∈ work_queue_ q -> not_called f x = true.
Proof.
  intros HF Hs Hf. eapply pending_not_called; [exact HF|]. apply elem_of_app. left.
  destruct (queues_split x s q Hs) as (Q & -> & _). apply elem_of_app. by left.
Qed.

Lemma held_not_called x t ts f : Functions x (t :: ts) -> f ∈ held t -> not_called f x = true.
Proof.
  intros HF Hf. eapply pending_not_called; [exact HF|]. apply elem_of_app. right. cbn. apply elem_of_app. by left.
Qed.

Lemma known x t ts s : Refs x (t :: ts) -> s ∈ refers_to t -> exists q, sequences x !! s = Some q.
Proof.
  intros [Hk _ _] Hs. cbn in Hk. rewrite !Forall_app in Hk. destruct Hk as (_ & _ & _ & Hk & _).
  rewrite Forall_forall in Hk. by apply Hk.
Qed.

Lemma CancelTasks_move rest x t s k c q :
  loop_from t s k c -> (forall w, k <> ThenRelease w) -> Forall (fun f => not_called f x = true) c ->
  sequences x !! s = Some q -> (forall ss, t = WaitInactive s ss -> active_ q = false) ->
  exists x' new, CancelTasks s k (cancel_all c x) = Some (x', new) /\ move rest x [t] x' new.
Proof.
  intros Hl Hk Hc Hs Ha. destruct (cancel_all_rest c x) as (_ & Es & _).
  unfold CancelTasks. rewrite Es, Hs. cbn [mbind option_bind].
  destruct (work_queue_ q) as [|f fs] eqn:Eq.
  - destruct k as [|w|ss]; [|by destruct (Hk w)|]; eexists _, _; (split; [reflexivity|]).
    + by eapply m_loop_return.
    + by eapply m_loop_wait.
  - eexists _, _. split; [reflexivity|]. by eapply m_loop_pop.
Qed.

(** ** Work that is left *)

Definition weight (t : Thread) : nat :=
  (match t with
  | AddCancel _ (Some _) => 10 | AddCancel _ None => 1 | AddQueue _ => 9
  | CancelSwapped fs => 1 + length fs
  | DropSequence _ => 2
  | RunInWorkThread _ _ => 6 | Task _ _ => 5 | Running _ _ _ => 5 | NextFunction _ _ => 4
  | NoLongerActive _ _ => 2 | Assign _ => 1 | PushFree _ => 1
  | Cancelling _ _ (ThenWait rest) => 3 + 3 * length rest
  | Cancelling _ _ _ => 3
  | InitiateShutDown rest all => 3 + length rest + 3 * length all
  | WaitForShutDown rest => 2 + 3 * length rest
  | WaitInactive _ rest => 4 + 3 * length rest
  | JoinWorkers => 1 | JoinWorker _ => 2
  end)%nat.

Definition work_left (x : World) (ts : list Thread) : nat := (
  2 * length (queues x) + 4 * length (queued_sequences_ (pool x)) + 2 * size (active_workers_ (pool x)) +
  sum_list_with weight ts)%nat.

Lemma work_left_perm x ts ts' : ts ≡ₚ ts' -> work_left x ts = work_left x ts'.
Proof. intros H. unfold work_left. by rewrite H. Qed.

Lemma queues_set x s q q' : sequences x !! s = Some q ->
  (length (map_to_list (<[s := q']> (sequences x)) ≫= (fun kv => work_queue_ kv.2)) + length (work_queue_ q) =
   length (queues x) + length (work_queue_ q'))%nat.
Proof.
  intros H. destruct (queues_split x s q H) as (Q & HQ & HQ'). rewrite (HQ' _ q' eq_refl), HQ, !length_app. lia.
Qed.

Lemma size_remove w (W : gset nat) : w ∈ W -> size W = S (size (W ∖ {[w]})).
Proof.
  intros H. rewrite (union_difference_singleton_L w W) at 1 by done. rewrite size_union by set_solver.
  by rewrite size_singleton.
Qed.

Lemma size_add w (W : gset nat) : (size ({[w]} ∪ W) <= S (size W))%nat.
Proof.
  destruct (decide (w ∈ W)); [rewrite subseteq_union_1_L by set_solver; lia|].
  rewrite size_union by set_solver. rewrite size_singleton. lia.
Qed.

Lemma move_work rest x old x' new :
  move rest x old x' new -> old <> [] -> (work_left x' (new ++ rest) < work_left x (old ++ rest))%nat.
Proof.
  intros Hm Ho. unfold work_left. rewrite !sum_list_with_app.
  move_cases Hm; try done; unfold queues at 1; world_cbn; rewrite ?Es, ?Ep; fold_queues x; cbn [sum_list_with weight length];
  try (match goal with H : sequences ?y !! ?s = Some ?q |- context [<[?s := ?q']> (sequences ?y)] => pose proof (queues_set y s q q' H) end);
  world_cbn; repeat match goal with E : work_queue_ ?q = _ |- _ => rewrite E in * | E : queued_sequences_ (pool _) = _ |- _ => rewrite E in * end;
  rewrite ?length_app in *; cbn [length] in *;
  try (match goal with E : _ ++ _ = _ :: _ |- _ => apply (f_equal length) in E; rewrite length_app in E; cbn [length] in E end);
  try (match goal with |- context [size ({[?w]} ∪ ?W)] => pose proof (size_add w W) end);
  try (match goal with H : ?w ∈ ?W |- context [size (?W ∖ {[?w]})] => pose proof (size_remove w W H) end);
  try (match goal with E : active_workers_ _ = ∅ |- _ => rewrite E end); rewrite ?size_empty;
  try lia.
Qed.

(** ** Steps *)

(** What a step of a thread needs from the others. *)
Definition may_step (t : Thread) (x : World) (rest : list Thread) : Prop :=
  match t with
  | WaitForShutDown _ => quiet rest
  | WaitInactive s _ => exists q, sequences x !! s = Some q /\ active_ q = false
  | _ => True
  end.

Definition makes (x : World) (ts : list Thread) (r : option (World * list Thread)) (rest : list Thread) : Prop :=
  exists x' new, r = Some (x', new) /\ moves x ts x' (new ++ rest) /\ (work_left x' (new ++ rest) < work_left x ts)%nat.

Lemma makes_move x t rest r x' new :
  r = Some (x', new) -> move rest x [t] x' new -> makes x (t :: rest) r rest.
Proof.
  intros Hr Hm. exists x', new. split; [done|]. split; [by apply (one_move rest x [t] x' new)|].
  by apply (move_work rest x [t] x' new).
Qed.

(** A move whose states are known only by computation. *)
Ltac by_move r := match goal with |- move ?rest ?x _ _ _ => by eapply (r rest x) end.

Lemma QueueSequence_moves x s q rest :
  sequences x !! s = Some q -> pool_ q = true -> makes x (AddQueue s :: rest) (Some (QueueSequence s x)) rest.
Proof.
  intros Hs Hq. destruct x as [p ? ? ? ? ? ? ? ? ?]. destruct p as [mx sdn act avail all queued free shed]. unfold QueueSequence. cbn [pool].
  unfold pop_back. destruct (last avail) as [w|] eqn:El.
  - apply last_Some in El as [l' ->]. rewrite removelast_last. eapply makes_move; [reflexivity|].
    by_move m_queue_available.
  - apply last_None in El as ->. destruct (size act <? mx)%nat eqn:Em.
    + apply Nat.ltb_lt in Em. eapply makes_move; [reflexivity|]. by_move m_queue_new.
    + apply Nat.ltb_ge in Em. destruct (queued ++ [s]) as [|o l] eqn:E; [by destruct queued|].
      destruct (negb (shed =? kNoLoadShedding) && (shed <? Z.of_nat (length (o :: l)))).
      * eapply makes_move; [reflexivity|]. by_move m_queue_shed.
      * eapply makes_move; [reflexivity|]. rewrite <- E. by_move m_queue_wait.
Qed.

Lemma NextFunction_moves x s w rest : Inv x (NextFunction s w :: rest) ->
  makes x (NextFunction s w :: rest) (NextFunction_locked s w x) rest.
Proof.
  intros HI. destruct (known x _ rest s (inv_refs _ _ HI)) as [q Hs]; [by left|].
  unfold NextFunction_locked. rewrite Hs. cbn [mbind option_bind].
  destruct (shutdown_ q) eqn:Esh; destruct (work_queue_ q) as [|f fs] eqn:Eq.
  - destruct (active_ q) eqn:Ea; (eapply makes_move; [reflexivity|]).
    + by_move m_next_release.
    + by_move m_next_idle.
  - unfold CancelTasks. rewrite Hs. cbn [mbind option_bind]. rewrite Eq. eapply makes_move; [reflexivity|].
    by_move m_next_pop.
  - eapply makes_move; [reflexivity|]. by_move m_next_empty.
  - assert (Hn : not_called f x = true) by (eapply queued_not_called; [apply HI|exact Hs|rewrite Eq; left]).
    unfold CallRun. change (not_called f (set_sequence s (with_active true (with_queue fs q)) x)) with (not_called f x).
    rewrite Hn. cbn [mbind option_bind]. eapply makes_move; [reflexivity|]. by_move m_next_run.
Qed.

Lemma Assign_moves x w rest : Inv x (Assign w :: rest) ->
  makes x (Assign w :: rest) (AssignWorkerToNextSequence w x) rest.
Proof.
  intros HI. assert (Hact : sd x = false -> w ∈ active_workers_ (pool x)).
  { intros E. pose proof (wk_active _ _ (inv_workers _ _ HI E)) as H. cbn in H. apply elem_of_elements. rewrite <- H. left. }
  unfold sd in Hact. clear HI.
  destruct x as [p ? ? ? ? ? ? ? ? ?]. destruct p as [mx sdn act avail all queued free shed].
  unfold AssignWorkerToNextSequence. cbn [pool pool_shutdown_ active_workers_] in *.
  destruct sdn; [|destruct queued as [|s queued]; [rewrite decide_True by auto|]]; (eapply makes_move; [reflexivity|]).
  - by_move m_assign_sd.
  - match goal with |- move ?rest ?x _ _ _ => apply (m_assign rest x) end; [done..|by apply Hact].
  - by_move m_assign_next.
Qed.

Lemma NoLongerActive_moves x s w rest :
  makes x (NoLongerActive s w :: rest) (Some (SequenceNoLongerActive s x, [Assign w])) rest.
Proof.
  destruct x as [p ? ? ? ? ? ? ? ? ?]. destruct p as [mx sdn act avail all queued free shed].
  unfold SequenceNoLongerActive. cbn [pool]. destruct sdn; (eapply makes_move; [reflexivity|]).
  - by_move m_no_longer_active_sd.
  - by_move m_no_longer_active.
Qed.

Lemma JoinWorkers_moves x rest : makes x (JoinWorkers :: rest) (Some (JoinWorkers_locked x)) rest.
Proof.
  destruct x as [p ? ? ? ? ? ? ? ? ?]. destruct p as [mx sdn act avail all queued free shed].
  unfold JoinWorkers_locked. cbn [pool]. destruct (elements act) as [|w l] eqn:E; (eapply makes_move; [reflexivity|]).
  - apply elements_empty_inv in E. assert (act = ∅) as -> by (by apply leibniz_equiv). by_move m_join_available.
  - match goal with |- move ?rest ?x _ _ _ => apply (m_join rest x) end. apply elem_of_elements. cbn. rewrite E. left.
Qed.

Lemma WaitForShutDown_moves x s ss rest : Inv x (WaitForShutDown (s :: ss) :: rest) -> quiet rest ->
  makes x (WaitForShutDown (s :: ss) :: rest) (step (WaitForShutDown (s :: ss)) x) rest.
Proof.
  intros HI Hq. destruct (known x _ rest s (inv_refs _ _ HI)) as [q Hs]; [by left|].
  cbn [step]. rewrite Hs. cbn [mbind option_bind].
  set (x1 := set_sequence s (without_pool (with_shutdown q)) x).
  assert (Hm : move rest x [WaitForShutDown (s :: ss)] x1 [WaitInactive s ss]) by (by apply m_wait).
  destruct (active_ q) eqn:Ea; [by eapply makes_move|].
  destruct (CancelTasks_move rest x1 (WaitInactive s ss) s (ThenWait ss) [] (without_pool (with_shutdown q)))
    as (x' & new & E & Hm'); [constructor|done|done|by apply lookup_insert_eq|done|].
  exists x', new. split; [exact E|]. split.
  - eapply moves_cons; [|exact Hm|]; [done|]. by eapply one_move.
  - pose proof (move_work _ _ _ _ _ Hm). pose proof (move_work _ _ _ _ _ Hm'). cbn [app] in *.
    etrans; [by apply H0|by apply H].
Qed.

Lemma step_moves x t rest : Inv x (t :: rest) -> may_step t x rest -> makes x (t :: rest) (step t x) rest.
Proof.
  intros HI Hmay. pose proof (known x t rest) as Hknown. specialize (fun s => Hknown s (inv_refs _ _ HI)).
  pose proof (held_not_called x t rest) as Hheld. specialize (fun f => Hheld f (inv_functions _ _ HI)).
  pose proof (inv_shutdown _ _ HI) as HS.
  assert (Hdead : queueing t = true -> dead_workers x = ∅).
  { intros E. destruct (decide (dead_workers x = ∅)) as [|Hd]; [done|].
    destruct (worker_gone _ _ HS Hd) as [_ Hq]. apply Forall_cons in Hq as [Hq _]. congruence. }
  destruct t as [f queue|s|[|f fs]|s|s w|s w|s w|s f w|s w|w|s f k|s|[|s ss] all|[|s ss]|s ss| |w].
  - cbn [step]. unfold CallCancel. rewrite Hheld by left. by eapply makes_move; [|apply m_call_cancel, Hheld; left].
  - destruct (Hknown s) as [q Hs]; [by left|]. cbn [step]. rewrite Hs. cbn [mbind option_bind].
    destruct (pool_ q) eqn:Ep; [by eapply QueueSequence_moves|].
    destruct (pool_gone _ _ _ _ HS Hs Ep) as [_ Hq]. apply Forall_cons in Hq as [Hq _]. done.
  - by eapply makes_move; [|apply m_swapped_nil].
  - cbn [step]. unfold CallCancel. rewrite Hheld by left. by eapply makes_move; [|apply m_swapped, Hheld; left].
  - destruct (Hknown s) as [q Hs]; [by left|].
    destruct (CancelTasks_move rest x (DropSequence s) s ThenReturn [] q) as (x' & new & E & Hm); try done; [constructor|].
    by eapply makes_move.
  - cbn [step]. rewrite decide_False by (rewrite Hdead by done; apply not_elem_of_empty).
    eapply makes_move; [done|]. apply m_run_in_worker. rewrite Hdead by done. apply not_elem_of_empty.
  - cbn [step]. destruct (decide (w ∈ dead_workers x)); (eapply makes_move; [done|]).
    + by apply m_task_dead.
    + by apply m_task.
  - by apply NextFunction_moves.
  - by eapply makes_move; [|apply m_returned].
  - apply NoLongerActive_moves.
  - by apply Assign_moves.
  - destruct (Hknown s) as [q Hs]; [destruct k; by left|]. cbn [step]. unfold CallCancel. rewrite Hheld by left.
    cbn [mbind option_bind]. destruct k as [|w|ss].
    1, 3: match goal with |- makes _ (Cancelling _ _ ?k :: _) _ _ =>
        destruct (CancelTasks_move rest x (Cancelling s f k) s k [f] q) as (x' & new & E & Hm) end;
        [constructor|done|by apply Forall_singleton, Hheld; left|exact Hs|done|by eapply makes_move].
    unfold CancelTasks. cbn [record_cancelled sequences]. rewrite Hs. cbn [mbind option_bind].
    destruct (work_queue_ q) as [|f' fs] eqn:Eq; (eapply makes_move; [reflexivity|]).
    + by apply (m_loop_release _ _ s f w q); [apply Hheld; left|..].
    + eapply (m_loop_pop _ x (Cancelling s f (ThenRelease w)) s (ThenRelease w) [f]); [constructor|..|done]; try done.
      apply Forall_singleton, Hheld. left.
  - eapply makes_move; [reflexivity|]. unfold push_free. destruct x as [[] ? ? ? ? ? ? ? ? ?]. by_move m_push_free.
  - by eapply makes_move; [|apply m_init_nil].
  - destruct (Hknown s) as [q Hs]; [by left|]. cbn [step]. rewrite Hs. by eapply makes_move; [|apply m_init].
  - by eapply makes_move; [|apply m_wait_nil].
  - by apply WaitForShutDown_moves.
  - destruct Hmay as (q & Hs & Ha).
    destruct (CancelTasks_move rest x (WaitInactive s ss) s (ThenWait ss) [] q) as (x' & new & E & Hm); try done; [constructor|].
    by eapply makes_move.
  - apply JoinWorkers_moves.
  - by eapply makes_move; [|apply m_join_worker].
Qed.

Lemma NewSequence_moves x ts x' r : Inv x ts -> NewSequence x = Some (x', r) -> moves x ts x' ts.
Proof.
  intros HI H.
  assert (Hone : move ts x [] x' [] -> moves x ts x' ts) by (intros Hm; by apply (one_move ts x [] x' [])).
  destruct x as [p sq ? ? ? ? ? ? ? ?]. destruct p as [mx sdn act avail all queued free shed].
  unfold NewSequence in H. cbn [pool sequences] in H. destruct sdn; [injection H as <- _; by apply moves_none|].
  unfold pop_back in H. destruct (last free) as [s|] eqn:El.
  - apply last_Some in El as [l' ->]. rewrite removelast_last in H.
    destruct (sq !! s) as [q|] eqn:Hs; [|done]. cbn [mbind option_bind] in H. unfold Reset in H.
    destruct (work_queue_ q) as [|f fs] eqn:Eq; [|done]. injection H as <- _. apply Hone. by_move m_reuse.
  - apply last_None in El as ->. injection H as <- _. apply Hone.
    match goal with |- move ?rest ?x _ _ _ => apply (m_new rest x) end; try done.
    cbn. apply not_elem_of_dom. apply is_fresh.
Qed.

(** A recycled sequence was undisturbed, so its queue is empty. *)
Lemma NewSequence_total x ts : Inv x ts -> disturbed x = ∅ -> exists x' r, NewSequence x = Some (x', r).
Proof.
  intros HI Hd. pose proof (inv_undisturbed _ _ HI) as HU. pose proof (inv_turns _ _ HI) as HT.
  pose proof (inv_refs _ _ HI) as [Hk _ _].
  unfold NewSequence. destruct (pool x) as [mx sdn act avail all queued free shed] eqn:Ep.
  destruct sdn eqn:Esd; [by eexists _, _|]. unfold pop_back. destruct (last free) as [s|] eqn:El; [|by eexists _, _].
  apply last_Some in El as [l' ->]. rewrite removelast_last.
  assert (exists q, sequences x !! s = Some q) as [q Hs].
  { rewrite !Forall_app in Hk. destruct Hk as (_ & _ & Hk & _). cbn in Hk. rewrite Forall_app, Forall_singleton in Hk. apply Hk. }
  rewrite Hs. cbn [mbind option_bind]. unfold Reset.
  destruct (work_queue_ q) as [|f fs] eqn:Eq; [by eexists _, _|]. exfalso.
  assert (Hu : undisturbed x ts s q) by (apply HU; [done|rewrite Hd; apply not_elem_of_empty]).
  pose proof (turn_token x ts s q HT Hs) as Htok. unfold undisturbed, in_order, sd, tokens, frees in *.
  rewrite Ep, Eq in *. cbn [pool_shutdown_ free_sequences_ queued_sequences_] in *. rewrite !cnt_app, cnt_cons, decide_same in *.
  destruct (active_ q), (bool_decide (s ∈ owned x)), (shutdown_ q); cbn in *; lia.
Qed.

(** ** Reachable states *)

Definition Inv_sys (m : System) : Prop := Inv (world m) (threads m).
Definition system_moves (m m' : System) : Prop := moves (world m) (threads m) (world m') (threads m').

Inductive reachable (max_workers : nat) (shed : Z) : System -> Prop :=
| reachable_new : reachable max_workers shed (new_System max_workers shed)
| reachable_event m e m' : reachable max_workers shed m -> enabled e m = true -> orderly e m ->
    handle e m = Some m' -> reachable max_workers shed m'.

Lemma call_moves x ts new x' : move ts x [] x' new -> moves x ts x' (ts ++ new).
Proof. intros Hm. apply (one_move ts x [] x' new); [done|done|]. apply Permutation_app_comm. Qed.

Lemma Add_moves x ts s f q : sequences x !! s = Some q -> f ∉ (added x).*2 ->
  exists x' new, Add s f x = Some (x', new) /\ moves x ts x' (ts ++ new).
Proof.
  intros Hs Hf. unfold Add. rewrite Hs. cbn [mbind option_bind]. unfold Add_locked.
  assert (Hl : forall f' fs, (length ((f' :: fs) ++ [f]) =? 1)%nat = false).
  { intros f' fs. rewrite length_app. apply Nat.eqb_neq. cbn. lia. }
  destruct (shutdown_ q) eqn:Esh.
  { eexists _, _. split; [reflexivity|]. apply call_moves. by eapply m_add_refused. }
  destruct (work_queue_ q) as [|o fs] eqn:Eq.
  - destruct (active_ q) eqn:Ea; (eexists _, _; split; [reflexivity|]; apply call_moves).
    + pose proof (m_add ts x s f q) as Hm. rewrite Eq in Hm. apply Hm; auto.
    + by apply m_add_first.
  - destruct (_ && _) eqn:Efull; cbn [negb andb].
    + destruct fs as [|f' fs]; [destruct (active_ q) eqn:Ea|]; (eexists _, _; split; [reflexivity|]).
      * cbn. apply call_moves. eapply (m_add_full ts x s f q o []); auto.
      * cbn. apply call_moves. by eapply (m_add_lost ts x s f q o).
      * rewrite Hl, !andb_false_r. apply call_moves.
        eapply (m_add_full ts x s f q o (f' :: fs)); auto.
    + eexists _, _. split; [reflexivity|]. rewrite Hl, !andb_false_r. apply call_moves. pose proof (m_add ts x s f q) as Hm. rewrite Eq in Hm. apply Hm; auto.
Qed.

Lemma split_thread (ts : list Thread) i t :
  ts !! i = Some t -> ts = take i ts ++ t :: drop (S i) ts.
Proof. intros H. symmetry. by apply take_drop_middle. Qed.

Lemma quiet_perm ts ts' : ts ≡ₚ ts' -> quiet ts -> quiet ts'.
Proof. intros Hp. unfold quiet. by rewrite Hp. Qed.

Lemma EStep_moves m i t : Inv_sys m -> threads m !! i = Some t -> ready t m = true -> orderly (EStep i) m ->
  exists m', handle (EStep i) m = Some m' /\ system_moves m m' /\
    (work_left (world m') (threads m') < work_left (world m) (threads m))%nat.
Proof.
  intros HI Hi Hr Ho. set (rest := take i (threads m) ++ drop (S i) (threads m)).
  assert (Hp : threads m ≡ₚ t :: rest) by (rewrite (split_thread _ _ _ Hi) at 1; symmetry; apply Permutation_middle).
  destruct (step_moves (world m) t rest) as (x' & new & E & Hm & Hw).
  - eapply Inv_perm; [exact Hp|done].
  - destruct t; try done; cbn in Ho, Hr.
    + rewrite Hi in Ho. apply (quiet_perm _ _ Hp) in Ho. by apply Forall_cons in Ho as [_ Ho].
    + destruct (sequences (world m) !! s) as [q|] eqn:Hs; [|done]. exists q. split; [done|]. by destruct (active_ q).
  - cbn [handle]. rewrite Hi. cbn [mbind option_bind]. rewrite E. eexists. split; [reflexivity|]. unfold system_moves. cbn [world threads].
    assert (Hp' : new ++ rest ≡ₚ take i (threads m) ++ new ++ drop (S i) (threads m)) by (unfold rest; solve_Permutation).
    split; [by eapply moves_perm|]. by rewrite <- (work_left_perm _ _ _ Hp'), (work_left_perm _ _ _ Hp).
Qed.

Lemma event_moves m e m' :
  Inv_sys m -> enabled e m = true -> orderly e m -> handle e m = Some m' -> system_moves m m'.
Proof.
  intros HI He Ho H. destruct e as [|s|s f|s|s n| |i]; cbn [handle enabled] in *.
  - destruct (NewSequence (world m)) as [[x r]|] eqn:E; [|done]. injection H as <-. by eapply NewSequence_moves.
  - unfold FreeSequence in H. apply bool_decide_eq_true in He. destruct (sequences (world m) !! s) as [q|] eqn:Hs; [|done].
    injection H as <-. apply call_moves. by apply m_free.
  - apply andb_true_iff in He as [[q Hs]%bool_decide_eq_true Hf%bool_decide_eq_true].
    destruct (Add_moves (world m) (threads m) s f q Hs Hf) as (x' & new & E & Hm). rewrite E in H. by injection H as <-.
  - unfold CancelPendingFunctions in H. destruct (sequences (world m) !! s) as [q|] eqn:Hs; [|done].
    injection H as <-. apply call_moves. by apply m_cancel_pending.
  - unfold set_max_queue_size in H. destruct (sequences (world m) !! s) as [q|] eqn:Hs; [|done].
    injection H as <-. by apply (one_move (threads m) _ [] _ []); [|apply m_max|].
  - apply negb_true_iff in He. unfold spawn, ShutDown in *. destruct m as [[[] ? ? ? ? ? ? ? ? ?] ts]. cbn in He. subst.
    injection H as <-.
    apply call_moves. by_move m_shutdown.
  - destruct (threads m !! i) as [t|] eqn:Hi; [|done].
    destruct (EStep_moves m i t HI Hi He) as (m1 & E & Hm & _); [done|]. cbn [handle] in E. rewrite Hi in E. rewrite E in H.
    by injection H as <-.
Qed.

Lemma pool_Inv_new mx shed : Inv_sys (new_System mx shed).
Proof.
  assert (He : forall P, each (world (new_System mx shed)) P) by (intros P s q H; cbn in H; by apply lookup_empty_Some in H).
  constructor; cbn [world threads new_System].
  - constructor; cbn; [constructor|..]; done.
  - intros s. cbn. done.
  - constructor; cbn; [constructor|..]; intros s; [|by intros []%not_elem_of_empty].
    by intros [q H%lookup_empty_Some].
  - constructor; [constructor|done|]. intros [H|[(s & q & H & _)|H]]; cbn in H; [by apply Exists_nil in H|by apply lookup_empty_Some in H|done].
  - intros _. by constructor; cbn; repeat constructor.
  - constructor; [apply He|intros _; apply He].
  - apply He.
Qed.

Lemma pool_reachable_Inv mx shed m : reachable mx shed m -> Inv_sys m.
Proof.
  induction 1 as [|m e m' _ IH He Ho H]; [apply pool_Inv_new|].
  eapply Inv_moves; [|exact IH]. by eapply event_moves.
Qed.
