(* ===== verification/QueuedWorkerPoolSpec.v ===== *)
(** * The queued worker pool: what it promises

    The theorems about every orderly run: functions run once and in order, nothing
    fails, nothing is left over; and the runs in which cancellation and shutdown break
    this. *)

From S2P Require Import Prelude QueuedWorkerPool QueuedWorkerPoolInv QueuedWorkerPoolTurn QueuedWorkerPoolMoves.

(** ** What the pool promises *)

Section spec.
Variable max_workers : nat.
Variable shed : Z.

(** The functions that threads have in hand: running, or about to be cancelled. *)
Definition in_hand (ts : list Thread) : list nat := (ts ≫= running) ++ (ts ≫= held).

(** C13: In every orderly run a function that was added is in exactly one place: its [Run]
    has returned, its [Cancel] was called, it waits in a queue, or one thread runs it or is
    about to cancel it. No function is lost, run twice, or run and cancelled. *)
Theorem every_function_has_one_fate m : reachable max_workers shed m ->
  NoDup (added (world m)).*2 /\
  (added (world m)).*2 ≡ₚ returned (world m) ++ cancelled (world m) ++ queues (world m) ++ in_hand (threads m).
Proof.
  intros H. destruct (inv_functions _ _ (pool_reachable_Inv _ _ _ H)) as [Hn Hw Hr]. split; [done|].
  rewrite Hw, Hr. unfold in_hand. solve_Permutation.
Qed.

(** At most one thread has the turn of an undisturbed sequence. *)
Lemma one_turn m s : reachable max_workers shed m -> s ∉ disturbed (world m) -> (tokens (world m) (threads m) s <= 1)%nat.
Proof.
  intros H Hd. pose proof (pool_reachable_Inv _ _ _ H) as HI. destruct (sequences (world m) !! s) as [q|] eqn:Hs.
  - destruct (inv_undisturbed _ _ HI s q Hs Hd) as (_ & Ht & _). exact Ht.
  - destruct (unknown _ _ s (inv_refs _ _ HI) Hs) as [-> _]. lia.
Qed.

Lemma worked_on_token s ts : (cnt s (omap worked_on ts) <= cnt s (omap token_of ts))%nat.
Proof.
  induction ts as [|t ts IH]; [done|]. rewrite !omap_thread.
  destruct t as [? [|]| | | | | | | | | |? ? []| | | | | |]; cbn [token_of worked_on]; rewrite ?cnt_cons; lia.
Qed.

(** C14: The functions of a sequence start in the order they were added, before those that
    are still in its queue; and as long as no cancellation disturbs the sequence, at most one
    worker is at it. *)
Theorem sequence_runs_in_order m s : reachable max_workers shed m ->
  of_sequence s (started (world m)) ++ queue_of (world m) s `sublist_of` of_sequence s (added (world m)) /\
  (s ∉ disturbed (world m) -> (cnt s (omap worked_on (threads m)) <= 1)%nat).
Proof.
  intros H. split; [apply (inv_ordered _ _ (pool_reachable_Inv _ _ _ H))|]. intros Hd.
  pose proof (one_turn m s H Hd) as Ht. pose proof (worked_on_token s (threads m)) as Hw.
  unfold tokens in Ht. rewrite cnt_app in Ht. lia.
Qed.

(** C35: No event of an orderly run fails: no [DCHECK] of the pool or of a function, no null
    [pool_], no deleted worker. [NewSequence] is the exception: its [Reset] relies on the
    sequences being undisturbed. *)
Theorem pool_never_fails m e : reachable max_workers shed m -> enabled e m = true -> orderly e m ->
  (e = ENewSequence -> disturbed (world m) = ∅) -> exists m', handle e m = Some m'.
Proof.
  intros H He Ho Hd. pose proof (pool_reachable_Inv _ _ _ H) as HI.
  destruct e as [|s|s f|s|s n| |i]; cbn [handle enabled] in *.
  - destruct (NewSequence_total _ _ HI (Hd eq_refl)) as (x & r & ->). by eexists.
  - apply bool_decide_eq_true in He. destruct (ref_owned _ _ (inv_refs _ _ HI) s He) as [q Hq].
    unfold FreeSequence. rewrite Hq. by eexists.
  - apply andb_true_iff in He as [[q Hs]%bool_decide_eq_true Hf%bool_decide_eq_true].
    destruct (Add_moves (world m) (threads m) s f q Hs Hf) as (x' & new & -> & _). by eexists.
  - apply bool_decide_eq_true in He as [q Hq]. unfold CancelPendingFunctions. rewrite Hq. by eexists.
  - apply bool_decide_eq_true in He as [q Hq]. unfold set_max_queue_size. rewrite Hq. by eexists.
  - apply negb_true_iff in He. unfold ShutDown. destruct (pool (world m)). cbn in He. subst. by eexists.
  - destruct (threads m !! i) as [t|] eqn:Hi; [|done].
    destruct (EStep_moves m i t HI Hi He) as (m' & E & _); [done|]. exists m'. cbn [handle] in E. by rewrite Hi in E.
Qed.

(** Some thread can go on. *)
Lemma some_thread_ready m : Inv_sys m -> threads m <> [] ->
  exists i, enabled (EStep i) m = true /\ orderly (EStep i) m.
Proof.
  intros HI Hne.
  assert (Hgo : forall (P : Thread -> Prop), (forall t, P t -> ready t m = true) -> (forall rest, ~ P (WaitForShutDown rest)) ->
    Exists P (threads m) -> exists i, enabled (EStep i) m = true /\ orderly (EStep i) m).
  { intros P Hr Ho (t & [i Hi]%list_elem_of_lookup & HP)%Exists_exists. exists i. cbn. rewrite Hi. split; [by apply Hr|].
    destruct t; try done. by destruct (Ho rest). }
  assert (Hworker : forall w, Some w ∈ busy_worker <$> threads m -> exists i, enabled (EStep i) m = true /\ orderly (EStep i) m).
  { intros w (t & E & Ht)%list_elem_of_fmap. apply (Hgo (fun t => is_Some (busy_worker t))).
    - intros t' [w' Hw']. by destruct t'.
    - intros rest [w' Hw']. done.
    - apply Exists_exists. exists t. split; [done|]. by rewrite <- E. }
  destruct (decide (Exists (fun t => queueing t = true) (threads m))) as [Hq|Hq].
  { apply (Hgo (fun t => queueing t = true)); [|done..]. by intros []. }
  assert (Hquiet : quiet (threads m)).
  { apply not_Exists_Forall in Hq; [|intros t; apply _]. eapply Forall_impl; [exact Hq|]. intros t Ht. by apply not_true_is_false in Ht. }
  destruct (threads m) as [|t ts] eqn:Ets; [done|]. rewrite <- Ets in *.
  assert (Hi : threads m !! 0%nat = Some t) by (by rewrite Ets).
  destruct (ready t m) eqn:Er; [exists 0%nat; cbn; rewrite Hi; split; [done|by destruct t]|].
  destruct t; try done; cbn in Er.
  - apply (Hworker w). by apply bool_decide_eq_false, dec_stable in Er.
  - destruct (sequences (world m) !! s) as [q|] eqn:Hs.
    + assert (Ha : active_ q = true) by (by destruct (active_ q)).
      pose proof (turn_active _ _ (inv_turns _ _ HI) s q Hs Ha) as (t & Ht & E)%list_elem_of_omap.
      destruct (busy_worker t) as [w|] eqn:Ew.
      * apply (Hworker w). apply list_elem_of_fmap. by exists t.
      * by destruct t as [| | | | | | | | | |? ? []| | | | | |].
    + exfalso. pose proof (inv_refs _ _ HI) as [Hk _ _]. rewrite Ets in Hk. rewrite !Forall_app in Hk.
      destruct Hk as (_ & _ & _ & Hk). cbn in Hk. apply Forall_cons in Hk as [[q Hq'] _]. congruence.
  - apply (Hworker w). by apply bool_decide_eq_false, dec_stable in Er.
Qed.

Hypothesis Hmax : (0 < max_workers)%nat.

(** When no thread is left, no function is. *)
Lemma quiescent_done m : reachable max_workers shed m -> max_workers_ (pool (world m)) = max_workers -> threads m = [] -> queues (world m) = [].
Proof.
  intros H Hmx Hts. pose proof (pool_reachable_Inv _ _ _ H) as [_ _ _ HS HW HT _]. rewrite Hts in *.
  assert (He : each (world m) (fun _ q => work_queue_ q = [])).
  { intros s q Hs. destruct (sd (world m)) eqn:Hsd.
    - destruct (sh_done _ _ HS Hsd) as [Hx%Exists_nil|He]; [done|]. apply (He s q Hs).
    - destruct (active_ q) eqn:Ea; [by apply (turn_active _ _ HT s q Hs), not_elem_of_nil in Ea|].
      destruct (work_queue_ q) as [|f fs] eqn:Eq; [done|]. exfalso.
      destruct (turn_pending _ _ HT Hsd s q Hs) as [Hq|[Hq%not_elem_of_nil|Hq%not_elem_of_nil]]; [by rewrite Eq|done| |done..].
      destruct (HW eq_refl) as [W1 _ _ _ W5]. destruct W5 as [_ Hle].
      { intros E. rewrite E in Hq. by apply not_elem_of_nil in Hq. }
      unfold size, set_size in Hle. cbn in Hle, W1. rewrite <- W1 in Hle. cbn in Hle. lia. }
  unfold queues. destruct (map_to_list (sequences (world m)) ≫= _) as [|f fs] eqn:E; [done|]. exfalso.
  assert (Hf : f ∈ map_to_list (sequences (world m)) ≫= (fun kv => work_queue_ kv.2)) by (rewrite E; left).
  apply list_elem_of_bind in Hf as ([s q] & Hf & Hin%elem_of_map_to_list). cbn in Hf. rewrite (He s q Hin) in Hf. by apply not_elem_of_nil in Hf.
Qed.

Lemma max_workers_move rest x old x' new : move rest x old x' new -> max_workers_ (pool x') = max_workers_ (pool x).
Proof. intros Hm. destruct Hm; cancel_facts; world_cbn; rewrite ?Ep; done. Qed.

Lemma max_workers_reachable m : reachable max_workers shed m -> max_workers_ (pool (world m)) = max_workers.
Proof.
  induction 1 as [|m e m' Hr IH He Ho H]; [done|]. rewrite <- IH.
  pose proof (event_moves _ _ _ (pool_reachable_Inv _ _ _ Hr) He Ho H) as Hm. unfold system_moves in Hm. clear -Hm.
  induction Hm as [|x ts old rest x1 new x' ts' _ Hm _ IH]; [done|]. rewrite IH. by eapply max_workers_move.
Qed.

(** C36: The pool never deadlocks and always winds down: every step of a thread leaves less
    work, some thread can go on as long as there is one, and when there is none every
    function has run or was cancelled. *)
Theorem pool_drains m : reachable max_workers shed m ->
  (forall i m', enabled (EStep i) m = true -> orderly (EStep i) m -> handle (EStep i) m = Some m' ->
     (work_left (world m') (threads m') < work_left (world m) (threads m))%nat) /\
  (threads m <> [] -> exists i, enabled (EStep i) m = true /\ orderly (EStep i) m) /\
  (threads m = [] -> (added (world m)).*2 ≡ₚ returned (world m) ++ cancelled (world m)).
Proof.
  intros H. pose proof (pool_reachable_Inv _ _ _ H) as HI. split; [|split].
  - intros i m' He Ho E. cbn in He. destruct (threads m !! i) as [t|] eqn:Hi; [|done].
    destruct (EStep_moves m i t HI Hi He Ho) as (m1 & E' & _ & Hw). by assert (m1 = m') as <- by congruence.
  - by apply some_thread_ready.
  - intros Hts. destruct (inv_functions _ _ HI) as [_ Hw Hr]. pose proof (quiescent_done m H (max_workers_reachable m H) Hts) as Hq.
    rewrite Hts, Hq in *. cbn in Hw, Hr. rewrite app_nil_r in Hr. by rewrite Hw, Hr, !app_nil_r.
Qed.
End spec.

(** ** Witnesses *)

Definition orderlyb (e : event) (m : System) : bool :=
  match e with
  | EStep i => match threads m !! i with Some (WaitForShutDown _) => forallb (fun t => negb (queueing t)) (threads m) | _ => true end
  | _ => true
  end.

Lemma orderlyb_orderly e m : orderlyb e m = true -> orderly e m.
Proof.
  destruct e as [| | | | | |i]; try done. cbn. destruct (threads m !! i) as [[]|]; try done.
  rewrite forallb_forall. intros H. apply Forall_forall. intros t Ht%list_elem_of_In. by apply negb_true_iff, H.
Qed.

Fixpoint orderly_run (es : list event) (m : System) : bool :=
  match es with
  | [] => true
  | e :: es => orderlyb e m && match handle e m with Some m => orderly_run es m | None => false end
  end.

Lemma pool_run_reachable mx shed es m m' :
  reachable mx shed m -> run es m = Some m' -> orderly_run es m = true -> reachable mx shed m'.
Proof.
  revert m. induction es as [|e es IH]; cbn; intros m Hr; [by intros [= <-]|].
  destruct (enabled e m) eqn:He; [|done]. destruct (handle e m) as [m1|] eqn:E; [|done]. cbn.
  intros Hrun [Ho Hos]%andb_true_iff. apply (IH m1); [|done..]. by eapply reachable_event; [..|apply orderlyb_orderly|].
Qed.

(** A worker runs the first of two functions. *)
Definition example_run : list event := [ENewSequence; EAdd 0 1; EAdd 0 2; EStep 0; EStep 0; EStep 0; EStep 0].
Definition example_system : System := default (new_System 0 0) (run example_run (new_System 1 kNoLoadShedding)).

Lemma example_system_reachable : reachable 1 kNoLoadShedding example_system.
Proof. apply (pool_run_reachable 1 kNoLoadShedding example_run (new_System 1 kNoLoadShedding)); [apply reachable_new|vm_compute; reflexivity|vm_compute; reflexivity]. Qed.

Lemma every_function_has_one_fate_witness : NoDup (added (world example_system)).*2 /\
  (added (world example_system)).*2 ≡ₚ returned (world example_system) ++ cancelled (world example_system) ++
    queues (world example_system) ++ in_hand (threads example_system).
Proof. apply (every_function_has_one_fate 1 kNoLoadShedding), example_system_reachable. Defined.

Lemma sequence_runs_in_order_witness :
  of_sequence 0 (started (world example_system)) ++ queue_of (world example_system) 0 `sublist_of`
    of_sequence 0 (added (world example_system)) /\
  (0%nat ∉ disturbed (world example_system) -> (cnt 0 (omap worked_on (threads example_system)) <= 1)%nat).
Proof. exact (sequence_runs_in_order 1 kNoLoadShedding example_system 0 example_system_reachable). Defined.

Lemma pool_never_fails_witness : exists m', handle (EStep 0) example_system = Some m'.
Proof.
  apply (pool_never_fails 1 kNoLoadShedding); [apply example_system_reachable|vm_compute; reflexivity|vm_compute; exact I|done].
Defined.

Lemma pool_drains_witness :
  (forall i m', enabled (EStep i) example_system = true -> orderly (EStep i) example_system ->
     handle (EStep i) example_system = Some m' ->
     (work_left (world m') (threads m') < work_left (world example_system) (threads example_system))%nat) /\
  (threads example_system <> [] -> exists i, enabled (EStep i) example_system = true /\ orderly (EStep i) example_system) /\
  (threads example_system = [] ->
     (added (world example_system)).*2 ≡ₚ returned (world example_system) ++ cancelled (world example_system)).
Proof. apply (pool_drains 1 kNoLoadShedding); [lia|apply example_system_reachable]. Defined.

(** ** What goes wrong *)

(** A worker is about to ask for the next function when the functions are cancelled; the
    next [Add] finds an empty queue and an inactive sequence, and queues it again. *)
Definition two_at_once : list event :=
  [ENewSequence; EAdd 0 1; EStep 0; EStep 0; EStep 0; ECancelPendingFunctions 0; EAdd 0 2; EAdd 0 3; EStep 0;
   EStep 2; EStep 2; EStep 2; EStep 2].

(** Both workers cancel a function of the freed sequence, and both release it. *)
Definition freed_twice : list event :=
  two_at_once ++ [EAdd 0 4; EAdd 0 5; EFreeSequence 0; EStep 0; EStep 2; EStep 0; EStep 2; EStep 0; EStep 2; EStep 0; EStep 2].

(** [ShutDown] clears [pool_] before the thread in [Add] reads it. *)
Definition overtaken : list event :=
  [ENewSequence; EAdd 0 1; EShutDown; EStep 1; EStep 1; EStep 1].

(** After [CancelPendingFunctions] the functions 2 and 3 of one sequence run at once on
    two workers; and a sequence that two workers release is listed as free twice, so it is
    given to a second owner while the first one uses it, and [Reset] fails. *)
Lemma cancellation_breaks_the_order :
  (exists m, run two_at_once (new_System 2 kNoLoadShedding) = Some m /\
     threads m = [Running 0 2 0; CancelSwapped [1%nat]; Running 0 3 1]) /\
  (exists m, run (freed_twice ++ [ENewSequence; EAdd 0 6]) (new_System 2 kNoLoadShedding) = Some m /\
     free_sequences_ (pool (world m)) = [0%nat] /\ 0%nat ∈ owned (world m) /\ handle ENewSequence m = None).
Proof.
  split; eexists; (split; [vm_compute; reflexivity|]); vm_compute; auto.
Qed.

(** When [ShutDown] overtakes an [Add] that is about to queue its sequence, [Add] goes
    through the null [pool_]. *)
Lemma Add_overtaken_by_ShutDown_fails :
  exists m, run overtaken (new_System 1 kNoLoadShedding) = Some m /\ threads m !! 0%nat = Some (AddQueue 0) /\
    enabled (EStep 0) m = true /\ handle (EStep 0) m = None.
Proof. eexists. split; [vm_compute; reflexivity|]. vm_compute. auto. Qed.
