(* ===== verification/HtmlKeywords.v ===== *)
(** * HTML names, keywords and escapes

    src/pagespeed/kernel/html/html_name.gperf and html_name.h: the table of names;
    html_keywords.h and .cc: which open tags another tag closes, and the escaping of
    attribute values.

    An [HtmlName::Keyword] is the name in the table, [kNotAKeyword] is [None]. The tables
    that are searched with [binary_search] are sorted, so a search is a membership test. *)

From S2P Require Import Prelude StringUtil.

(** ** Names *)

Definition kHtmlNameTable : list bytes := map lit [
   "?xml"; "a"; "abbr"; "action"; "address"; "allowfullscreen"; "alt"; "amp"; "area"; "article"; "as"; "aside";
   "async"; "audio"; "autocomplete"; "autofocus"; "autoplay"; "b"; "background"; "base"; "bdi"; "bdo";
   "blockquote"; "body"; "br"; "button"; "caption"; "charset"; "checked"; "cite"; "class"; "code"; "col";
   "colgroup"; "colspan"; "command"; "content"; "controls"; "crossorigin"; "data"; "datalist";
   "data-actual-height"; "data-actual-width"; "data-mobile-role"; "data-pagespeed-flush-style";
   "data-pagespeed-high-res-src"; "data-pagespeed-high-res-srcset"; "data-pagespeed-href";
   "data-pagespeed-inline-src"; "data-pagespeed-lazy-src"; "data-pagespeed-lazy-srcset";
   "data-pagespeed-low-res-src"; "data-pagespeed-lsc-expiry"; "data-pagespeed-lsc-hash";
   "data-pagespeed-lsc-url"; "data-pagespeed-no-defer"; "data-pagespeed-no-transform";
   "data-pagespeed-orig-src"; "data-pagespeed-orig-index"; "data-pagespeed-orig-type";
   "data-pagespeed-prioritize"; "data-pagespeed-responsive-temp"; "data-pagespeed-size";
   "data-pagespeed-srcset-url-hashes"; "data-pagespeed-url-hash"; "data-src"; "data-srcset"; "dd"; "declare";
   "decoding"; "defaultchecked"; "defaultselected"; "defer"; "del"; "details"; "dfn"; "dialog"; "dir";
   "disabled"; "display"; "div"; "dl"; "dt"; "em"; "embed"; "enctype"; "event"; "fetchpriority"; "fieldset";
   "font"; "footer"; "for"; "form"; "formaction"; "formnovalidate"; "frame"; "frameborder"; "h1"; "h2"; "h3";
   "h4"; "h5"; "h6"; "head"; "header"; "height"; "hgroup"; "hr"; "href"; "html"; "http-equiv"; "i"; "icon";
   "id"; "iframe"; "img"; "indeterminate"; "ins"; "input"; "integrity"; "ismap"; "itemprop"; "kbd"; "keygen";
   "keytype"; "lang"; "language"; "legend"; "li"; "link"; "loading"; "longdesc"; "loop"; "main"; "manifest";
   "map"; "mark"; "marquee"; "media"; "menu"; "meta"; "method"; "multiple"; "muted"; "name"; "nav"; "noembed";
   "noframes"; "nohref"; "noresize"; "noscript"; "novalidate"; "object"; "ol"; "onclick"; "onerror"; "onload";
   "open"; "optgroup"; "option"; "other"; "p"; "pagespeed_iframe"; "pagespeed_no_defer";
   "pagespeed_no_transform"; "param"; "picture"; "playsinline"; "poster"; "pre"; "profile"; "q"; "readonly";
   "rel"; "required"; "reversed"; "role"; "rowspan"; "rp"; "rt"; "ruby"; "s"; "samp"; "scoped"; "script";
   "scrolling"; "seamless"; "section"; "select"; "selected"; "shape"; "small"; "source"; "span"; "src";
   "srcset"; "strong"; "style"; "sub"; "table"; "tag"; "tbody"; "td"; "template"; "test"; "textarea"; "tfoot";
   "th"; "thead"; "time"; "title"; "tr"; "track"; "type"; "u"; "ul"; "value"; "valuetype"; "var"; "video";
   "wbr"; "width"; "wrap"; "xmp"]%string.

Definition Keyword : Type := option bytes.
Definition kNotAKeyword : Keyword := None.

(** The generated [HtmlName::Lookup] ignores case. *)
Definition Lookup (keyword : bytes) : Keyword :=
  let l := LowerString keyword in if bool_decide (l ∈ kHtmlNameTable) then Some l else kNotAKeyword.

(** [IS_IN_SET] *)
Definition IsInSet (keywords : list bytes) (k : Keyword) : bool :=
  match k with Some n => bool_decide (n ∈ keywords) | None => false end.

(** ** Implied end tags *)

Definition kTableLeaves := lit "td th ".
Definition kTableSections := lit "tbody tfoot thead ".
Definition kTableElements := lit "td th tbody tfoot thead table tr ".
Definition kFormattingElements := lit
  "b i em font strong small s cite q dfn abbr time code var samp kbd sub u mark bdi bdo ".
Definition kListElements := lit "li ol ul ".
Definition kDeclarationElements := lit "dl dt dd ".
Definition kParagraphTerminators := lit
  "address article aside blockquote dir div dl fieldset footer form h1 h2 h3 h4 h5 h6 header hgroup hr menu nav ol p pre section table ul".

(** [AddToSet] and [AddCrossProduct]; a word that is not a keyword fails a [DCHECK]. *)
Definition AddToSet (klist : bytes) (kset : list bytes) : option (list bytes) :=
  v ← SplitStringPieceToVector klist [" "%char] [] true;
  ks ← mapM Lookup v;
  Some (kset ++ ks).

Definition AddCrossProduct (k1_list k2_list : bytes) (kmap : list (bytes * bytes)) : option (list (bytes * bytes)) :=
  v1 ← SplitStringPieceToVector k1_list [" "%char] [] true;
  v2 ← SplitStringPieceToVector k2_list [" "%char] [] true;
  k1s ← mapM Lookup v1;
  k2s ← mapM Lookup v2;
  Some (kmap ++ (k1 ← k1s; k2 ← k2s; [(k1, k2)])).

Definition InitAutoClose : option (list (bytes * bytes)) :=
  m ← AddCrossProduct kTableLeaves kTableLeaves [];
  m ← AddCrossProduct kTableLeaves (lit "tr") m;
  m ← AddCrossProduct (lit "tr") kTableSections m;
  m ← AddCrossProduct (lit "tr") (lit "tr") m;
  m ← AddCrossProduct kTableSections kTableSections m;
  m ← AddCrossProduct (lit "p") kParagraphTerminators m;
  m ← AddCrossProduct (lit "li") (lit "li") m;
  m ← AddCrossProduct (lit "dd dt") (lit "dd dt") m;
  m ← AddCrossProduct (lit "rp rt") (lit "rp rt") m;
  m ← AddCrossProduct (lit "optgroup") (lit "optgroup") m;
  m ← AddCrossProduct (lit "option") (lit "optgroup option") m;
  AddCrossProduct kFormattingElements (lit "tr " ++ kListElements ++ kDeclarationElements) m.

Definition InitContains : option (list (bytes * bytes)) :=
  m ← AddCrossProduct kTableLeaves (lit "table") [];
  m ← AddCrossProduct (lit "tr") (lit "table") m;
  m ← AddCrossProduct kTableSections (lit "table") m;
  m ← AddCrossProduct (lit "li") (lit "ul ol") m;
  m ← AddCrossProduct (lit "dd dt") (lit "dl") m;
  m ← AddCrossProduct (lit "rt rp") (lit "ruby") m;
  AddCrossProduct kFormattingElements (lit "td th") m.

Definition InitOptionallyClosedKeywords : option (list bytes) :=
  s ← AddToSet kFormattingElements [];
  s ← AddToSet (lit "body colgroup dd dt html optgroup option p") s;
  s ← AddToSet kListElements s;
  AddToSet kTableElements s.

(** The singleton's tables. *)
Definition auto_close_ : list (bytes * bytes) := Eval vm_compute in default [] InitAutoClose.
Definition contained_ : list (bytes * bytes) := Eval vm_compute in default [] InitContains.
Definition optionally_closed_ : list bytes := Eval vm_compute in default [] InitOptionallyClosedKeywords.

Definition is_pair (m : list (bytes * bytes)) (k1 k2 : Keyword) : bool :=
  match k1, k2 with Some n1, Some n2 => bool_decide ((n1, n2) ∈ m) | _, _ => false end.
Definition IsAutoClose : Keyword -> Keyword -> bool := is_pair auto_close_.
Definition IsContained : Keyword -> Keyword -> bool := is_pair contained_.
Definition IsOptionallyClosedTag : Keyword -> bool := IsInSet optionally_closed_.

(** ** Escapes *)

Definition kHtmlKeywordsSequences : list (string * Z) := [
   ("AElig", 198); ("Aacute", 193); ("Acirc", 194); ("Agrave", 192); ("Aring", 197); ("Atilde", 195);
   ("Auml", 196); ("Ccedil", 199); ("ETH", 208); ("Eacute", 201); ("Ecirc", 202); ("Egrave", 200);
   ("Euml", 203); ("Iacute", 205); ("Icirc", 206); ("Igrave", 204); ("Iuml", 207); ("Ntilde", 209);
   ("Oacute", 211); ("Ocirc", 212); ("Ograve", 210); ("Oslash", 216); ("Otilde", 213); ("Ouml", 214);
   ("THORN", 222); ("Uacute", 218); ("Ucirc", 219); ("Ugrave", 217); ("Uuml", 220); ("Yacute", 221);
   ("aacute", 225); ("acirc", 226); ("acute", 180); ("aelig", 230); ("agrave", 224); ("amp", 38);
   ("aring", 229); ("atilde", 227); ("auml", 228); ("brvbar", 166); ("ccedil", 231); ("cedil", 184);
   ("cent", 162); ("copy", 169); ("curren", 164); ("deg", 176); ("divide", 247); ("eacute", 233);
   ("ecirc", 234); ("egrave", 232); ("eth", 240); ("euml", 235); ("frac12", 189); ("frac14", 188);
   ("frac34", 190); ("gt", 62); ("iacute", 237); ("icirc", 238); ("iexcl", 161); ("igrave", 236);
   ("iquest", 191); ("iuml", 239); ("laquo", 171); ("lt", 60); ("macr", 175); ("micro", 181); ("middot", 183);
   ("nbsp", 160); ("not", 172); ("ntilde", 241); ("oacute", 243); ("ocirc", 244); ("ograve", 242);
   ("ordf", 170); ("ordm", 186); ("oslash", 248); ("otilde", 245); ("ouml", 246); ("para", 182);
   ("plusmn", 177); ("pound", 163); ("quot", 34); ("raquo", 187); ("reg", 174); ("sect", 167); ("shy", 173);
   ("sup1", 185); ("sup2", 178); ("sup3", 179); ("szlig", 223); ("thorn", 254); ("times", 215);
   ("uacute", 250); ("ucirc", 251); ("ugrave", 249); ("uml", 168); ("uuml", 252); ("yacute", 253);
   ("yen", 165); ("yuml", 255)]%string.

Definition kHtmlKeywordsSequencesMultiByte : list bytes := map lit [
   "alefsym"; "Alpha"; "alpha"; "and"; "ang"; "asymp"; "bdquo"; "Beta"; "beta"; "bull"; "cap"; "Chi"; "chi";
   "circ"; "clubs"; "cong"; "crarr"; "cup"; "dagger"; "Dagger"; "darr"; "dArr"; "Delta"; "delta"; "diams";
   "empty"; "emsp"; "ensp"; "Epsilon"; "epsilon"; "equiv"; "Eta"; "eta"; "euro"; "exist"; "fnof"; "forall";
   "frasl"; "Gamma"; "gamma"; "ge"; "harr"; "hArr"; "hearts"; "hellip"; "image"; "infin"; "int"; "Iota";
   "iota"; "isin"; "Kappa"; "kappa"; "Lambda"; "lambda"; "lang"; "larr"; "lArr"; "lceil"; "ldquo"; "le";
   "lfloor"; "lowast"; "loz"; "lrm"; "lsaquo"; "lsquo"; "mdash"; "minus"; "Mu"; "mu"; "nabla"; "ndash"; "ne";
   "ni"; "notin"; "nsub"; "Nu"; "nu"; "OElig"; "oelig"; "oline"; "Omega"; "omega"; "Omicron"; "omicron";
   "oplus"; "or"; "otimes"; "part"; "permil"; "perp"; "Phi"; "phi"; "Pi"; "pi"; "piv"; "prime"; "Prime";
   "prod"; "prop"; "Psi"; "psi"; "radic"; "rang"; "rarr"; "rArr"; "rceil"; "rdquo"; "real"; "rfloor"; "Rho";
   "rho"; "rlm"; "rsaquo"; "rsquo"; "sbquo"; "Scaron"; "scaron"; "sdot"; "Sigma"; "sigma"; "sigmaf"; "sim";
   "spades"; "sub"; "sube"; "sum"; "sup"; "supe"; "Tau"; "tau"; "there4"; "Theta"; "theta"; "thetasym";
   "thinsp"; "tilde"; "trade"; "uarr"; "uArr"; "upsih"; "Upsilon"; "upsilon"; "weierp"; "Xi"; "xi"; "Yuml";
   "Zeta"; "zeta"; "zwj"; "zwnj"]%string.

Record EscapeMaps := mkMaps {
  unescape_sensitive_map_ : list (bytes * ascii);
  unescape_insensitive_map_ : list (bytes * ascii);
  case_sensitive_symbols : list bytes;
  escape_map_ : list (ascii * bytes);
}.

Definition assoc_find {A B} `{EqDecision A} (f : A -> bool) (m : list (A * B)) : option B :=
  snd <$> head (filter (fun p => f p.1 = true) m).

Definition add_sequence (m : EscapeMaps) (seq : string * Z) : EscapeMaps :=
  let '(mkMaps sensitive insensitive symbols escape) := m in
  let name := lit seq.1 in
  let value := chr seq.2 in
  let sensitive := (name, value) :: sensitive in
  if existsb (StringCaseEqual name) symbols then mkMaps sensitive insensitive symbols escape
  else
    let escape := (value, name) :: escape in
    match assoc_find (StringCaseEqual name) insensitive with
    | Some _ => mkMaps sensitive (filter (fun p => StringCaseEqual name p.1 = false) insensitive) (name :: symbols) escape
    | None => mkMaps sensitive ((name, value) :: insensitive) symbols escape
    end.

Definition InitEscapeSequences : EscapeMaps := Eval vm_compute in
  fold_left add_sequence kHtmlKeywordsSequences (mkMaps [] [] [] []).

Definition AccumulateDecimalValue (c : ascii) (value : Z) : option Z :=
  if is_digit c then Some (Z.min (value * 10 + (code c - 48)) 0x110000) else None.
Definition AccumulateHexValue (c : ascii) (value : Z) : option Z :=
  let step digit := Some (Z.min (value * 16 + digit) 0x110000) in
  if is_digit c then step (code c - 48)
  else if in_range "a" "f" c then step (code c - 87)
  else if in_range "A" "F" c then step (code c - 55)
  else None.

(** [None] when it returns false. *)
Definition TryUnescape (accumulate_numeric_code : bool) (numeric_value : Z) (escape : bytes) (was_terminated : bool)
    (buf : bytes) : option bytes :=
  if accumulate_numeric_code && (1 <? length escape)%nat then
    if numeric_value <=? 255 then Some (buf ++ [chr numeric_value]) else None
  else
    match assoc_find (fun n => bool_decide (n = escape)) (unescape_sensitive_map_ InitEscapeSequences) with
    | Some v => Some (buf ++ [v])
    | None =>
        if existsb (StringCaseEqual escape) kHtmlKeywordsSequencesMultiByte then None
        else
          match assoc_find (StringCaseEqual escape) (unescape_insensitive_map_ InitEscapeSequences) with
          | Some v => Some (buf ++ [v])
          | None =>
              if StringCaseEqual escape (lit "apos") then Some (buf ++ [squote])
              else Some (buf ++ "&"%char :: escape ++ if was_terminated then [";"%char] else [])
          end
    end.

Record UnescapeState := mkUnescape {
  buf_ : bytes;
  escape_ : bytes;
  numeric_value_ : Z;
  accumulate_numeric_code_ : bool;
  hex_mode_ : bool;
  in_escape_ : bool;
  found_ampersand_ : bool;
}.

Section unescape.
Variable escaped : bytes.

(** The loop outside of an escape; [i] is the offset of [ch] in [escaped]. *)
Definition Unescape_plain (i : nat) (ch : ascii) (st : UnescapeState) : option UnescapeState :=
  let '(mkUnescape buf escape num acc hex _ found) := st in
  if ch =c "&"%char then Some (mkUnescape (if found then buf else buf ++ take i escaped) [] 0 false false true true)
  else if 127 <? code ch then None
  else Some (mkUnescape (if found then buf ++ [ch] else buf) escape num acc hex false found).

Fixpoint Unescape_loop (rest : bytes) (i : nat) (st : UnescapeState) : option UnescapeState :=
  match rest with
  | [] => Some st
  | ch :: rest' =>
      let '(mkUnescape buf escape num acc hex in_escape found) := st in
      if negb in_escape then
        st ← Unescape_plain i ch st; Unescape_loop rest' (S i) st
      else if bool_decide (escape = []) && (ch =c "#"%char) then
        match rest' with
        | x :: rest'' =>
            if UpperChar x =c "X"%char then Unescape_loop rest'' (S (S i)) (mkUnescape buf ["#"%char] num true true true found)
            else Unescape_loop rest' (S i) (mkUnescape buf ["#"%char] num true hex true found)
        | [] => Unescape_loop rest' (S i) (mkUnescape buf ["#"%char] num true hex true found)
        end
      else if ch =c ";"%char then
        buf ← TryUnescape acc num escape true buf;
        Unescape_loop rest' (S i) (mkUnescape buf escape num acc hex false found)
      else if 127 <? code ch then None
      else
        let accumulated :=
          if acc then (if hex then AccumulateHexValue ch num else AccumulateDecimalValue ch num)
          else if is_alnum ch then Some num else None in
        match accumulated with
        | Some num => Unescape_loop rest' (S i) (mkUnescape buf (escape ++ [ch]) num acc hex true found)
        | None =>
            buf ← TryUnescape acc num escape false buf;
            st ← Unescape_plain i ch (mkUnescape buf escape num acc hex false found);
            Unescape_loop rest' (S i) st
        end
  end.

(** [None] for a decoding error. *)
Definition Unescape : option bytes :=
  match escaped with
  | [] => Some []
  | _ =>
      st ← Unescape_loop escaped 0 (mkUnescape [] [] 0 false false false false);
      if negb (found_ampersand_ st) then Some escaped
      else if in_escape_ st then
        if bool_decide (escape_ st = []) then Some (buf_ st ++ ["&"%char])
        else TryUnescape (accumulate_numeric_code_ st) (numeric_value_ st) (escape_ st) false (buf_ st)
      else Some (buf_ st)
  end.
End unescape.

(** ["&#%02d;"] *)
Definition numeric_escape (ch : Z) : bytes :=
  let d n := chr (48 + n) in
  lit "&#" ++ (if ch <? 100 then [] else [d (ch / 100)]) ++ [d (ch / 10 mod 10); d (ch mod 10)] ++ lit ";".

Definition Escape_char (c : ascii) : bytes :=
  let ch := code c in
  if negb (IsHtmlSpace c) && ((127 <? ch) || (ch <? 32) || (c =c dquote) || (c =c squote) || (c =c "&"%char) ||
       (c =c "<"%char) || (c =c ">"%char))
  then
    match assoc_find (fun v => v =c c) (escape_map_ InitEscapeSequences) with
    | None => numeric_escape ch
    | Some name => "&"%char :: name ++ [";"%char]
    end
  else [c].

Definition Escape (unescaped : bytes) : bytes := unescaped ≫= Escape_char.
Arguments Escape : simpl never.

(** ** The tables *)

(** No keyword is misspelt and no pair is listed twice. *)
Lemma keyword_tables : InitAutoClose = Some auto_close_ /\ InitContains = Some contained_ /\
  InitOptionallyClosedKeywords = Some optionally_closed_ /\
  NoDup auto_close_ /\ NoDup contained_ /\ NoDup optionally_closed_ /\ NoDup kHtmlNameTable.
Proof.
  repeat split; try (vm_compute; reflexivity);
    match goal with |- ?P => apply (bool_decide_eq_true_1 P); vm_compute; reflexivity end.
Qed.

(** ** Unescaping *)

(** The escape of a character is read back, whatever was read before it. *)
Lemma Unescape_escape escaped c rest i buf e n a h found : Escape_char c <> [c] ->
  exists e' n' a' h',
    Unescape_loop escaped (Escape_char c ++ rest) i (mkUnescape buf e n a h false found) =
    Unescape_loop escaped rest (length (Escape_char c) + i)
      (mkUnescape ((if found then buf else buf ++ take i escaped) ++ [c]) e' n' a' h' false true).
Proof.
  destruct c as [[] [] [] [] [] [] [] []]; intros Hc; first [by destruct Hc | eexists _, _, _, _; reflexivity].
Qed.

Lemma Escape_char_plain c : Escape_char c = [c] -> c <> "&"%char /\ code c <= 127.
Proof.
  unfold Escape_char. destruct (negb (IsHtmlSpace c) && _) eqn:E.
  - destruct (assoc_find _ _) as [[|? []]|]; [done..|]. unfold numeric_escape. done.
  - intros _. destruct (IsHtmlSpace c) eqn:Es; cbn in E.
    + unfold IsHtmlSpace in Es. rewrite !orb_true_iff, !bool_decide_eq_true in Es.
      split; [by intros ->; intuition discriminate|]. intuition (subst; by vm_compute).
    + rewrite !orb_false_iff, !bool_decide_eq_false, Z.ltb_ge in E. intuition.
Qed.

Lemma Escape_app s t : Escape (s ++ t) = Escape s ++ Escape t.
Proof. apply bind_app. Qed.

Lemma Escape_one c : Escape [c] = Escape_char c.
Proof. unfold Escape. cbn. apply app_nil_r. Qed.

Lemma Unescape_loop_Escape rest : forall pre buf e n a h (found : bool),
  (if found then buf = pre else buf = [] /\ Escape pre = pre) ->
  exists st, Unescape_loop (Escape (pre ++ rest)) (Escape rest) (length (Escape pre)) (mkUnescape buf e n a h false found) = Some st /\
    in_escape_ st = false /\ (if found_ampersand_ st then buf_ st = pre ++ rest else Escape (pre ++ rest) = pre ++ rest).
Proof.
  induction rest as [|c rest IH]; intros pre buf e n a h found Hf.
  - eexists. split; [reflexivity|]. split; [done|]. cbn. rewrite app_nil_r. by destruct found; [|apply Hf].
  - change (Escape (c :: rest)) with (Escape_char c ++ Escape rest).
    assert (Ei : forall k, length (Escape pre) = k -> (length (Escape_char c) + k)%nat = length (Escape (pre ++ [c]))).
    { intros k <-. rewrite Escape_app, Escape_one, length_app. lia. }
    replace (pre ++ c :: rest) with ((pre ++ [c]) ++ rest) by (by rewrite <- app_assoc).
    destruct (decide (Escape_char c = [c])) as [Ec|Ec].
    + destruct (Escape_char_plain c Ec) as [Hn Hc]. rewrite Ec. cbn [app Unescape_loop negb].
      unfold Unescape_plain at 1. rewrite bool_decide_eq_false_2 by done. rewrite (proj2 (Z.ltb_ge _ _)) by lia.
      cbn [mbind option_bind]. rewrite <- (Nat.add_1_l (length _)). replace 1%nat with (length (Escape_char c)) by (by rewrite Ec).
      rewrite (Ei _ eq_refl). apply IH. destruct found; [by subst|]. destruct Hf as [-> Hp]. split; [done|].
      by rewrite Escape_app, Escape_one, Hp, Ec.
    + destruct (Unescape_escape (Escape ((pre ++ [c]) ++ rest)) c (Escape rest) (length (Escape pre)) buf e n a h found Ec)
        as (e' & n' & a' & h' & ->).
      rewrite (Ei _ eq_refl). apply IH. f_equal. destruct found; [done|]. destruct Hf as [-> Hp].
      rewrite !Escape_app, <- app_assoc, take_app_length'; done.
Qed.

(** C28: The value of an attribute survives escaping: [Unescape] inverts [Escape] on every
    byte string, without a decoding error. *)
Theorem Unescape_Escape s : Unescape (Escape s) = Some s.
Proof.
  destruct (Unescape_loop_Escape s [] [] [] 0 false false false) as (st & E & Hi & Hb); [done|]. cbn in E, Hb.
  unfold Unescape. destruct (Escape s) as [|c l] eqn:Es.
  - cbn in E. injection E as <-. cbn in Hb. congruence.
  - change (length (Escape [])) with 0%nat in E. rewrite E. cbn [mbind option_bind]. rewrite Hi. destruct (found_ampersand_ st); cbn; congruence.
Qed.
