(* ===== verification/HtmlLexer.v ===== *)
(** * The HTML lexer

    src/pagespeed/kernel/html/html_lexer.h and .cc, with the parts of html_parse.cc and
    html_element.cc that it calls: a state machine that reads a document byte by byte
    and appends events to the queue of the parser, and keeps the stack of the open
    elements.

    The elements of the arena are numbered in the order they are made; a null or
    dangling pointer that is followed is [None], as is a failed [DCHECK] or [Check].
    [element_stack_] and [open_element_info_], vectors of the same length, are one list
    that starts with [back()]. Letters and digits are those of the C locale. Line
    numbers, messages and the doctype are left out, and no filter runs between two calls
    of [Parse]. *)

From S2P Require Import Prelude StringUtil HtmlKeywords.

(** ** Elements and events *)

Record HtmlName := mkName { keyword_ : Keyword; str_ : bytes }.
Inductive Style := AUTO_CLOSE | IMPLICIT_CLOSE | EXPLICIT_CLOSE | BRIEF_CLOSE | UNCLOSED | INVISIBLE.
Inductive QuoteStyle := NO_QUOTE | SINGLE_QUOTE | DOUBLE_QUOTE.

Record Attribute := mkAttribute { attr_name : HtmlName; escaped_value_ : option bytes; quote_style_ : QuoteStyle }.
Record HtmlElement := mkElement {
  parent_ : option nat;
  name_ : HtmlName;
  attributes_ : list Attribute;
  style_ : Style;
}.
Definition keyword (el : HtmlElement) : Keyword := keyword_ (name_ el).
Definition name_str (el : HtmlElement) : bytes := str_ (name_ el).

Inductive HtmlEvent :=
| StartDocument | EndDocument
| StartElement (e : nat) | EndElement (e : nat)
| Characters (parent : option nat) (contents : bytes)
| CommentEvent (parent : option nat) (contents : bytes)
| IEDirective (parent : option nat) (contents : bytes)
| Cdata (parent : option nat) (contents : bytes)
| Directive (parent : option nat) (contents : bytes).

(** A value is kept as a C string: reading it stops at a NUL. *)
Fixpoint c_str (s : bytes) : bytes :=
  match s with [] => [] | c :: s' => if c =c chr 0 then [] else c :: c_str s' end.
Definition escaped_value (a : Attribute) : option bytes := c_str <$> escaped_value_ a.
(** [None] if there is no value or it cannot be decoded. *)
Definition DecodedValueOrNull (a : Attribute) : option bytes := v ← escaped_value a; c_str <$> Unescape v.

(** ** The lexer *)

Inductive State :=
| START | TAG | TAG_CLOSE_NO_NAME | TAG_CLOSE | TAG_CLOSE_TERMINATE | TAG_OPEN | TAG_BRIEF_CLOSE
| COMMENT_START1 | COMMENT_START2 | COMMENT_BODY | COMMENT_END1 | COMMENT_END2
| CDATA_START1 | CDATA_START2 | CDATA_START3 | CDATA_START4 | CDATA_START5 | CDATA_START6
| CDATA_BODY | CDATA_END1 | CDATA_END2
| TAG_ATTRIBUTE | TAG_ATTR_NAME | TAG_ATTR_NAME_SPACE | TAG_ATTR_EQ
| TAG_ATTR_VAL | TAG_ATTR_VALDQ | TAG_ATTR_VALSQ
| LITERAL_TAG | SCRIPT_TAG | DIRECTIVE | BOGUS_COMMENT.
#[export] Instance State_eq_dec : EqDecision State.
Proof. solve_decision. Defined.

Inductive HtmlCommentEscapeState := kNone | kInComment | kDoubleEscaped.
#[export] Instance EscapeState_eq_dec : EqDecision HtmlCommentEscapeState.
Proof. solve_decision. Defined.

Inductive ElementNamespace := kHtml | kSvg | kMathMl.
#[export] Instance Namespace_eq_dec : EqDecision ElementNamespace.
Proof. solve_decision. Defined.

Record OpenElementInfo := mkInfo {
  ns : ElementNamespace;
  html_integration_point : bool;
  mathml_text_integration_point : bool;
  annotation_xml : bool;
  special : bool;
}.
Definition kHtmlInfo : OpenElementInfo := mkInfo kHtml false false false false.

(** [queue_] and the arena [nodes_] are those of [html_parse_]. *)
Record HtmlLexer := mkLexer {
  queue_ : list HtmlEvent;
  nodes_ : list HtmlElement;
  state_ : State;
  token_ : bytes;
  literal_ : bytes;
  attr_name_ : bytes;
  attr_value_ : bytes;
  attr_quote_ : QuoteStyle;
  has_attr_value_ : bool;
  element_ : option nat;
  literal_close_ : bytes;
  script_escape_state_ : HtmlCommentEscapeState;
  discard_until_start_state_for_error_recovery_ : bool;
  element_stack_ : list (option nat * OpenElementInfo);
  size_limit_exceeded_ : bool;
  skip_parsing_ : bool;
  num_bytes_parsed_ : Z;
  size_limit_ : Z;
}.

Definition set_queue (v : list HtmlEvent) (x : HtmlLexer) : HtmlLexer :=
  mkLexer
    v (nodes_ x) (state_ x) (token_ x) (literal_ x) (attr_name_ x) (attr_value_ x) (attr_quote_ x)
    (has_attr_value_ x) (element_ x) (literal_close_ x) (script_escape_state_ x)
    (discard_until_start_state_for_error_recovery_ x) (element_stack_ x) (size_limit_exceeded_ x)
    (skip_parsing_ x) (num_bytes_parsed_ x) (size_limit_ x).
Definition set_nodes (v : list HtmlElement) (x : HtmlLexer) : HtmlLexer :=
  mkLexer
    (queue_ x) v (state_ x) (token_ x) (literal_ x) (attr_name_ x) (attr_value_ x) (attr_quote_ x)
    (has_attr_value_ x) (element_ x) (literal_close_ x) (script_escape_state_ x)
    (discard_until_start_state_for_error_recovery_ x) (element_stack_ x) (size_limit_exceeded_ x)
    (skip_parsing_ x) (num_bytes_parsed_ x) (size_limit_ x).
Definition set_state (v : State) (x : HtmlLexer) : HtmlLexer :=
  mkLexer
    (queue_ x) (nodes_ x) v (token_ x) (literal_ x) (attr_name_ x) (attr_value_ x) (attr_quote_ x)
    (has_attr_value_ x) (element_ x) (literal_close_ x) (script_escape_state_ x)
    (discard_until_start_state_for_error_recovery_ x) (element_stack_ x) (size_limit_exceeded_ x)
    (skip_parsing_ x) (num_bytes_parsed_ x) (size_limit_ x).
Definition set_token (v : bytes) (x : HtmlLexer) : HtmlLexer :=
  mkLexer
    (queue_ x) (nodes_ x) (state_ x) v (literal_ x) (attr_name_ x) (attr_value_ x) (attr_quote_ x)
    (has_attr_value_ x) (element_ x) (literal_close_ x) (script_escape_state_ x)
    (discard_until_start_state_for_error_recovery_ x) (element_stack_ x) (size_limit_exceeded_ x)
    (skip_parsing_ x) (num_bytes_parsed_ x) (size_limit_ x).
Definition set_literal (v : bytes) (x : HtmlLexer) : HtmlLexer :=
  mkLexer
    (queue_ x) (nodes_ x) (state_ x) (token_ x) v (attr_name_ x) (attr_value_ x) (attr_quote_ x)
    (has_attr_value_ x) (element_ x) (literal_close_ x) (script_escape_state_ x)
    (discard_until_start_state_for_error_recovery_ x) (element_stack_ x) (size_limit_exceeded_ x)
    (skip_parsing_ x) (num_bytes_parsed_ x) (size_limit_ x).
Definition set_attr_name (v : bytes) (x : HtmlLexer) : HtmlLexer :=
  mkLexer
    (queue_ x) (nodes_ x) (state_ x) (token_ x) (literal_ x) v (attr_value_ x) (attr_quote_ x)
    (has_attr_value_ x) (element_ x) (literal_close_ x) (script_escape_state_ x)
    (discard_until_start_state_for_error_recovery_ x) (element_stack_ x) (size_limit_exceeded_ x)
    (skip_parsing_ x) (num_bytes_parsed_ x) (size_limit_ x).
Definition set_attr_value (v : bytes) (x : HtmlLexer) : HtmlLexer :=
  mkLexer
    (queue_ x) (nodes_ x) (state_ x) (token_ x) (literal_ x) (attr_name_ x) v (attr_quote_ x)
    (has_attr_value_ x) (element_ x) (literal_close_ x) (script_escape_state_ x)
    (discard_until_start_state_for_error_recovery_ x) (element_stack_ x) (size_limit_exceeded_ x)
    (skip_parsing_ x) (num_bytes_parsed_ x) (size_limit_ x).
Definition set_attr_quote (v : QuoteStyle) (x : HtmlLexer) : HtmlLexer :=
  mkLexer
    (queue_ x) (nodes_ x) (state_ x) (token_ x) (literal_ x) (attr_name_ x) (attr_value_ x) v
    (has_attr_value_ x) (element_ x) (literal_close_ x) (script_escape_state_ x)
    (discard_until_start_state_for_error_recovery_ x) (element_stack_ x) (size_limit_exceeded_ x)
    (skip_parsing_ x) (num_bytes_parsed_ x) (size_limit_ x).
Definition set_has_attr_value (v : bool) (x : HtmlLexer) : HtmlLexer :=
  mkLexer
    (queue_ x) (nodes_ x) (state_ x) (token_ x) (literal_ x) (attr_name_ x) (attr_value_ x) (attr_quote_ x) v
    (element_ x) (literal_close_ x) (script_escape_state_ x) (discard_until_start_state_for_error_recovery_ x)
    (element_stack_ x) (size_limit_exceeded_ x) (skip_parsing_ x) (num_bytes_parsed_ x) (size_limit_ x).
Definition set_element (v : option nat) (x : HtmlLexer) : HtmlLexer :=
  mkLexer
    (queue_ x) (nodes_ x) (state_ x) (token_ x) (literal_ x) (attr_name_ x) (attr_value_ x) (attr_quote_ x)
    (has_attr_value_ x) v (literal_close_ x) (script_escape_state_ x)
    (discard_until_start_state_for_error_recovery_ x) (element_stack_ x) (size_limit_exceeded_ x)
    (skip_parsing_ x) (num_bytes_parsed_ x) (size_limit_ x).
Definition set_literal_close (v : bytes) (x : HtmlLexer) : HtmlLexer :=
  mkLexer
    (queue_ x) (nodes_ x) (state_ x) (token_ x) (literal_ x) (attr_name_ x) (attr_value_ x) (attr_quote_ x)
    (has_attr_value_ x) (element_ x) v (script_escape_state_ x)
    (discard_until_start_state_for_error_recovery_ x) (element_stack_ x) (size_limit_exceeded_ x)
    (skip_parsing_ x) (num_bytes_parsed_ x) (size_limit_ x).
Definition set_script_escape_state (v : HtmlCommentEscapeState) (x : HtmlLexer) : HtmlLexer :=
  mkLexer
    (queue_ x) (nodes_ x) (state_ x) (token_ x) (literal_ x) (attr_name_ x) (attr_value_ x) (attr_quote_ x)
    (has_attr_value_ x) (element_ x) (literal_close_ x) v (discard_until_start_state_for_error_recovery_ x)
    (element_stack_ x) (size_limit_exceeded_ x) (skip_parsing_ x) (num_bytes_parsed_ x) (size_limit_ x).
Definition set_discard (v : bool) (x : HtmlLexer) : HtmlLexer :=
  mkLexer
    (queue_ x) (nodes_ x) (state_ x) (token_ x) (literal_ x) (attr_name_ x) (attr_value_ x) (attr_quote_ x)
    (has_attr_value_ x) (element_ x) (literal_close_ x) (script_escape_state_ x) v (element_stack_ x)
    (size_limit_exceeded_ x) (skip_parsing_ x) (num_bytes_parsed_ x) (size_limit_ x).
Definition set_element_stack (v : list (option nat * OpenElementInfo)) (x : HtmlLexer) : HtmlLexer :=
  mkLexer
    (queue_ x) (nodes_ x) (state_ x) (token_ x) (literal_ x) (attr_name_ x) (attr_value_ x) (attr_quote_ x)
    (has_attr_value_ x) (element_ x) (literal_close_ x) (script_escape_state_ x)
    (discard_until_start_state_for_error_recovery_ x) v (size_limit_exceeded_ x) (skip_parsing_ x)
    (num_bytes_parsed_ x) (size_limit_ x).
Definition set_size_limit_exceeded (v : bool) (x : HtmlLexer) : HtmlLexer :=
  mkLexer
    (queue_ x) (nodes_ x) (state_ x) (token_ x) (literal_ x) (attr_name_ x) (attr_value_ x) (attr_quote_ x)
    (has_attr_value_ x) (element_ x) (literal_close_ x) (script_escape_state_ x)
    (discard_until_start_state_for_error_recovery_ x) (element_stack_ x) v (skip_parsing_ x)
    (num_bytes_parsed_ x) (size_limit_ x).
Definition set_skip_parsing (v : bool) (x : HtmlLexer) : HtmlLexer :=
  mkLexer
    (queue_ x) (nodes_ x) (state_ x) (token_ x) (literal_ x) (attr_name_ x) (attr_value_ x) (attr_quote_ x)
    (has_attr_value_ x) (element_ x) (literal_close_ x) (script_escape_state_ x)
    (discard_until_start_state_for_error_recovery_ x) (element_stack_ x) (size_limit_exceeded_ x) v
    (num_bytes_parsed_ x) (size_limit_ x).
Definition set_num_bytes_parsed (v : Z) (x : HtmlLexer) : HtmlLexer :=
  mkLexer
    (queue_ x) (nodes_ x) (state_ x) (token_ x) (literal_ x) (attr_name_ x) (attr_value_ x) (attr_quote_ x)
    (has_attr_value_ x) (element_ x) (literal_close_ x) (script_escape_state_ x)
    (discard_until_start_state_for_error_recovery_ x) (element_stack_ x) (size_limit_exceeded_ x)
    (skip_parsing_ x) v (size_limit_ x).
Definition set_size_limit (v : Z) (x : HtmlLexer) : HtmlLexer :=
  mkLexer
    (queue_ x) (nodes_ x) (state_ x) (token_ x) (literal_ x) (attr_name_ x) (attr_value_ x) (attr_quote_ x)
    (has_attr_value_ x) (element_ x) (literal_close_ x) (script_escape_state_ x)
    (discard_until_start_state_for_error_recovery_ x) (element_stack_ x) (size_limit_exceeded_ x)
    (skip_parsing_ x) (num_bytes_parsed_ x) v.

(** ** Tables *)

Definition kImplicitlyClosedHtmlTags : list bytes := map lit [
   "?xml"; "area"; "base"; "br"; "col"; "embed"; "hr"; "img"; "input"; "keygen"; "link"; "meta"; "param";
   "source"; "track"; "wbr"]%string.

Definition kNonBriefTerminatedTags : list bytes := map lit [
   "a"; "div"; "header"; "iframe"; "nav"; "script"; "span"; "style"; "textarea"; "xmp"]%string.

Definition kLiteralTags : list bytes := map lit [
   "iframe"; "script"; "style"; "textarea"; "title"; "xmp"]%string.

Definition kSometimesLiteralTags : list bytes := map lit [
   "noembed"; "noframes"; "noscript"]%string.

Definition kForeignBreakoutStartTags : list bytes := map lit [
   "b"; "big"; "blockquote"; "body"; "br"; "center"; "code"; "dd"; "div"; "dl"; "dt"; "em"; "embed"; "h1";
   "h2"; "h3"; "h4"; "h5"; "h6"; "head"; "hr"; "i"; "img"; "li"; "listing"; "menu"; "meta"; "nobr"; "ol"; "p";
   "pre"; "ruby"; "s"; "small"; "span"; "strike"; "strong"; "sub"; "sup"; "table"; "tt"; "u"; "ul"; "var"]%string.

Definition kForeignBreakoutFontAttributes : list bytes := map lit [
   "color"; "face"; "size"]%string.

Definition kForeignBreakoutEndTags : list bytes := map lit [
   "br"; "p"]%string.

Definition kSvgHtmlIntegrationPoints : list bytes := map lit [
   "desc"; "foreignobject"; "title"]%string.

Definition kMathMlTextIntegrationPoints : list bytes := map lit [
   "mi"; "mn"; "mo"; "ms"; "mtext"]%string.

Definition kMathMlTextIntegrationPointExceptions : list bytes := map lit [
   "malignmark"; "mglyph"]%string.

Definition kAnnotationXmlHtmlEncodings : list bytes := map lit [
   "application/xhtml+xml"; "text/html"]%string.

Definition kEndTagsThatDoNotPop : list bytes := map lit [
   "body"; "form"; "head"; "html"]%string.

Definition kFormattingElementNames : list bytes := map lit [
   "a"; "b"; "big"; "code"; "em"; "font"; "i"; "nobr"; "s"; "small"; "strike"; "strong"; "tt"; "u"]%string.

Definition kEndTagsClosingInScope : list bytes := map lit [
   "address"; "applet"; "article"; "aside"; "blockquote"; "button"; "center"; "dd"; "details"; "dialog"; "dir";
   "div"; "dl"; "dt"; "fieldset"; "figcaption"; "figure"; "footer"; "h1"; "h2"; "h3"; "h4"; "h5"; "h6";
   "header"; "hgroup"; "li"; "listing"; "main"; "marquee"; "menu"; "nav"; "object"; "ol"; "pre"; "search";
   "section"; "summary"; "ul"]%string.

Definition kScopeBoundaries : list bytes := map lit [
   "applet"; "caption"; "html"; "marquee"; "object"; "table"; "td"; "template"; "th"]%string.

Definition kListItemScopeBoundaries : list bytes := map lit [
   "ol"; "ul"]%string.

Definition kTableFamilyEndTags : list bytes := map lit [
   "caption"; "col"; "colgroup"; "optgroup"; "option"; "select"; "table"; "tbody"; "td"; "template"; "tfoot";
   "th"; "thead"; "tr"]%string.

Definition kSpecialHtmlElements : list bytes := map lit [
   "address"; "applet"; "area"; "article"; "aside"; "base"; "basefont"; "bgsound"; "blockquote"; "body"; "br";
   "button"; "caption"; "center"; "col"; "colgroup"; "dd"; "details"; "dir"; "div"; "dl"; "dt"; "embed";
   "fieldset"; "figcaption"; "figure"; "footer"; "form"; "frame"; "frameset"; "h1"; "h2"; "h3"; "h4"; "h5";
   "h6"; "head"; "header"; "hgroup"; "hr"; "html"; "iframe"; "img"; "input"; "keygen"; "li"; "link"; "listing";
   "main"; "marquee"; "menu"; "meta"; "nav"; "noembed"; "noframes"; "noscript"; "object"; "ol"; "p"; "param";
   "plaintext"; "pre"; "script"; "search"; "section"; "select"; "source"; "style"; "summary"; "table"; "tbody";
   "td"; "template"; "textarea"; "tfoot"; "th"; "thead"; "title"; "tr"; "track"; "ul"; "wbr"; "xmp"]%string.

Definition kMaxNestingDepth : nat := 512.
Definition kMaxTokenSize : Z := 10 * 1024 * 1024.

Definition IsImplicitlyClosedTag : Keyword -> bool := IsInSet kImplicitlyClosedHtmlTags.
Definition IsLiteralTag : Keyword -> bool := IsInSet kLiteralTags.
Definition IsSometimesLiteralTag : Keyword -> bool := IsInSet kSometimesLiteralTags.
Definition TagAllowsBriefTermination (k : Keyword) : bool :=
  negb (IsInSet kNonBriefTerminatedTags k) && negb (IsImplicitlyClosedTag k).

(** The lowered name is compared as a C string. *)
Definition NameIsOneOf (name : bytes) (names : list bytes) : bool :=
  (length name <? 32)%nat && bool_decide (c_str (LowerString name) ∈ names).

Definition IsI18nChar (c : ascii) : bool := 128 <=? code c.
Definition IsLegalTagFirstChar (c : ascii) : bool := is_alpha c.
Definition IsLegalTagChar (c : ascii) : bool :=
  IsI18nChar c || is_alnum c || (c =c "<"%char) || (c =c "-"%char) || (c =c "#"%char) || (c =c "_"%char) || (c =c ":"%char).
Definition IsLegalAttrNameChar (c : ascii) : bool :=
  IsI18nChar c || (negb (c =c "="%char) && negb (c =c ">"%char) && negb (c =c "/"%char) && negb (IsHtmlSpace c)).

(** ** The parser *)

Definition Parent (x : HtmlLexer) : option nat := e ← head (element_stack_ x); e.1.
Definition CurrentInfo (x : HtmlLexer) : OpenElementInfo :=
  match element_stack_ x with (_, info) :: _ => info | [] => kHtmlInfo end.

Definition set_element_style (s : Style) (el : HtmlElement) : HtmlElement :=
  mkElement (parent_ el) (name_ el) (attributes_ el) s.
Definition set_parent (p : option nat) (el : HtmlElement) : HtmlElement :=
  mkElement p (name_ el) (attributes_ el) (style_ el).
Definition set_name (n : HtmlName) (el : HtmlElement) : HtmlElement :=
  mkElement (parent_ el) n (attributes_ el) (style_ el).
Definition AddEscapedAttribute (a : Attribute) (el : HtmlElement) : HtmlElement :=
  mkElement (parent_ el) (name_ el) (attributes_ el ++ [a]) (style_ el).
Definition modify (e : nat) (f : HtmlElement -> HtmlElement) (x : HtmlLexer) : HtmlLexer :=
  set_nodes (alter f e (nodes_ x)) x.

(** The parent of the node of an event ([GetNode]). *)
Definition node_parent (ev : HtmlEvent) (x : HtmlLexer) : option (option nat) :=
  match ev with
  | StartDocument | EndDocument => Some (Parent x)
  | StartElement e | EndElement e => parent_ <$> nodes_ x !! e
  | Characters p _ | CommentEvent p _ | IEDirective p _ | Cdata p _ | Directive p _ => Some p
  end.

Definition AddEvent (ev : HtmlEvent) (x : HtmlLexer) : option HtmlLexer :=
  p ← node_parent ev x;
  if decide (p = Parent x) then Some (set_queue (queue_ x ++ [ev]) x) else None.

Definition MakeName (s : bytes) : HtmlName := mkName (Lookup s) s.
Definition MakeKeywordlessName (s : bytes) : HtmlName := mkName kNotAKeyword s.

(** [HtmlParse::NewElement] returns the element it makes. *)
Definition NewElement (parent : option nat) (name : HtmlName) (x : HtmlLexer) : HtmlLexer * nat :=
  let style := if IsOptionallyClosedTag (keyword_ name) then EXPLICIT_CLOSE else AUTO_CLOSE in
  (set_nodes (nodes_ x ++ [mkElement parent name [] style]) x, length (nodes_ x)).

Definition skip_if_exceeded (x : HtmlLexer) : HtmlLexer := if size_limit_exceeded_ x then set_skip_parsing true x else x.

(** [HtmlLexer::CloseElement] and [HtmlParse::CloseElement]. *)
Definition CloseElement (e : nat) (style : Style) (x : HtmlLexer) : option HtmlLexer :=
  el ← nodes_ x !! e;
  let x := match style_ el with INVISIBLE => x | _ => modify e (set_element_style style) x end in
  x ← AddEvent (EndElement e) x;
  Some (skip_if_exceeded x).

(** ** Foreign content *)

Definition InForeignContent (x : HtmlLexer) : bool := negb (bool_decide (ns (CurrentInfo x) = kHtml)).

Definition IsForeignBreakoutStartTag (el : HtmlElement) : bool :=
  NameIsOneOf (name_str el) kForeignBreakoutStartTags ||
  (StringCaseEqual (name_str el) (lit "font") &&
   existsb (fun a => NameIsOneOf (str_ (attr_name a)) kForeignBreakoutFontAttributes) (attributes_ el)).

Definition StartTagUsesHtmlRules (el : HtmlElement) (x : HtmlLexer) : bool :=
  let current := CurrentInfo x in
  if bool_decide (ns current = kHtml) || html_integration_point current then true
  else if mathml_text_integration_point current && negb (NameIsOneOf (name_str el) kMathMlTextIntegrationPointExceptions)
  then true
  else annotation_xml current && StringCaseEqual (name_str el) (lit "svg").

(** The loop runs while the stack has more than its first entry. *)
Fixpoint PopForeign_loop (stack : list (option nat * OpenElementInfo)) (x : HtmlLexer) : option HtmlLexer :=
  match stack with
  | (oe, current) :: ((_ :: _) as rest) =>
      if bool_decide (ns current = kHtml) || html_integration_point current || mathml_text_integration_point current
      then Some x
      else
        e ← oe;
        x ← CloseElement e UNCLOSED (set_element_stack rest x);
        PopForeign_loop rest x
  | _ => Some x
  end.
Definition PopForeignElementsForBreakout (x : HtmlLexer) : option HtmlLexer := PopForeign_loop (element_stack_ x) x.

Definition MakeOpenElementInfo (el : HtmlElement) (n : ElementNamespace) : OpenElementInfo :=
  match n with
  | kHtml => kHtmlInfo
  | kSvg =>
      let point := NameIsOneOf (name_str el) kSvgHtmlIntegrationPoints in
      mkInfo kSvg point false false point
  | kMathMl =>
      let text := NameIsOneOf (name_str el) kMathMlTextIntegrationPoints in
      let annotation := StringCaseEqual (name_str el) (lit "annotation-xml") in
      let point :=
        annotation &&
        match head (filter (fun a => StringCaseEqual (str_ (attr_name a)) (lit "encoding") = true) (attributes_ el)) with
        | Some a => match DecodedValueOrNull a with Some v => NameIsOneOf v kAnnotationXmlHtmlEncodings | None => false end
        | None => false
        end in
      mkInfo kMathMl point text annotation (annotation || text)
  end.

(** ** Matching end tags *)

Fixpoint PopElementsDownTo (above : nat) (x : HtmlLexer) : option (HtmlLexer * nat) :=
  match element_stack_ x with
  | [] => None
  | (oe, _) :: rest =>
      e ← oe;
      match above with
      | O => Some (set_element_stack rest x, e)
      | S above => x ← CloseElement e UNCLOSED (set_element_stack rest x); PopElementsDownTo above x
      end
  end.

(** The searches answer how many entries lie above the one they find. The first walks
    down foreign elements to the nearest HTML element. *)
Fixpoint foreign_search (nodes : list HtmlElement) (tag : bytes) (above : nat)
    (stack : list (option nat * OpenElementInfo)) : option (option nat) :=
  match stack with
  | (oe, _) :: (((_, below) :: rest') as rest) =>
      e ← oe;
      el ← nodes !! e;
      if StringCaseEqual (name_str el) tag then Some (Some above)
      else if negb (bool_decide (rest' = [])) && bool_decide (ns below = kHtml) then Some None
      else foreign_search nodes tag (S above) rest
  | _ => Some None
  end.

Fixpoint html_search (nodes : list HtmlElement) (tag : bytes) (crossed_foreign crossed_special_html : bool) (above : nat)
    (stack : list (option nat * OpenElementInfo)) : option (option nat) :=
  let do_not_pop := NameIsOneOf tag kEndTagsThatDoNotPop in
  let formatting := NameIsOneOf tag kFormattingElementNames in
  let closes_in_scope := NameIsOneOf tag kEndTagsClosingInScope in
  let table_family := NameIsOneOf tag kTableFamilyEndTags in
  let list_item := StringCaseEqual tag (lit "li") in
  match stack with
  | (oe, info) :: ((_ :: _) as rest) =>
      e ← oe;
      el ← nodes !! e;
      if negb (bool_decide (ns info = kHtml)) then
        if special info then Some None else html_search nodes tag true crossed_special_html (S above) rest
      else if StringCaseEqual (name_str el) tag then
        if crossed_foreign && (do_not_pop || formatting && crossed_special_html) then Some None else Some (Some above)
      else if IsContained (Lookup tag) (keyword el) then Some None
      else if crossed_foreign && NameIsOneOf (name_str el) kSpecialHtmlElements then
        if closes_in_scope then
          if NameIsOneOf (name_str el) kScopeBoundaries || list_item && NameIsOneOf (name_str el) kListItemScopeBoundaries
          then Some None else html_search nodes tag crossed_foreign true (S above) rest
        else if negb formatting && negb table_family && negb do_not_pop then Some None
        else html_search nodes tag crossed_foreign true (S above) rest
      else html_search nodes tag crossed_foreign crossed_special_html (S above) rest
  | _ => Some None
  end.

Definition PopElementMatchingTag (tag : bytes) (x : HtmlLexer) : option (HtmlLexer * option nat) :=
  '(x, found) ←
    (if InForeignContent x then
       if NameIsOneOf tag kForeignBreakoutEndTags then x ← PopForeignElementsForBreakout x; Some (x, None)
       else found ← foreign_search (nodes_ x) tag 0 (element_stack_ x); Some (x, found)
     else Some (x, None));
  found ← match found with Some k => Some (Some k) | None => html_search (nodes_ x) tag false false 0 (element_stack_ x) end;
  match found with
  | Some k => '(x, e) ← PopElementsDownTo k x; Some (x, Some e)
  | None => Some (x, None)
  end.

(** ** Emitting *)

Definition EmitLiteral (x : HtmlLexer) : option HtmlLexer :=
  match literal_ x with
  | [] => Some (set_state START x)
  | l => x ← AddEvent (Characters (Parent x) l) x; Some (set_state START (set_literal [] x))
  end.

Definition EmitComment (x : HtmlLexer) : option HtmlLexer :=
  let x := set_literal [] x in
  let has p := match find_at (token_ x) p with Some _ => true | None => false end in
  let ev := if has (lit "[if") || has (lit "[endif]") then IEDirective (Parent x) (token_ x) else CommentEvent (Parent x) (token_ x) in
  x ← AddEvent ev x;
  Some (set_state START (set_token [] x)).

Definition EmitCdata (x : HtmlLexer) : option HtmlLexer :=
  x ← AddEvent (Cdata (Parent x) (token_ x)) (set_literal [] x);
  Some (set_state START (set_token [] x)).

Definition EmitDirective (x : HtmlLexer) : option HtmlLexer :=
  x ← AddEvent (Directive (Parent x) (token_ x)) (set_literal [] x);
  Some (set_state START (set_token [] x)).

Definition EmitTagClose (style : Style) (x : HtmlLexer) : option HtmlLexer :=
  '(x, element) ← PopElementMatchingTag (token_ x) x;
  x ← match element with
      | Some e =>
          el ← nodes_ x !! e;
          if StringCaseEqual (token_ x) (name_str el) then CloseElement e style x else None
      | None => EmitLiteral x
      end;
  Some (set_state START (set_token [] (set_literal [] x))).

(** [e] is the new element, whose parent is kept right. *)
Fixpoint AutoClose_loop (stack : list (option nat * OpenElementInfo)) (e : nat) (next_keyword : Keyword) (x : HtmlLexer)
    : option HtmlLexer :=
  match stack with
  | (Some open_element, _) :: rest =>
      open ← nodes_ x !! open_element;
      if IsAutoClose (keyword open) next_keyword then
        x ← CloseElement open_element AUTO_CLOSE (set_element_stack rest x);
        el ← nodes_ x !! e;
        if decide (parent_ el = Some open_element) then
          AutoClose_loop rest e next_keyword (modify e (set_parent (Parent x)) x)
        else None
      else Some x
  | _ => Some x
  end.

(** The end of [EmitTagOpen]: the element is opened. *)
Definition push_open (e : nat) (el : HtmlElement) (n : ElementNamespace) (x : HtmlLexer) : HtmlLexer :=
  let x := skip_if_exceeded x in
  let x := if (kMaxNestingDepth <=? length (element_stack_ x))%nat then set_skip_parsing true x else x in
  let x := set_element_stack ((Some e, MakeOpenElementInfo el n) :: element_stack_ x) x in
  if IsLiteralTag (keyword el) then
    set_literal_close (lit "</" ++ name_str el ++ lit ">")
      (set_script_escape_state kNone
        (set_state (if bool_decide (keyword el = Some (lit "script")) then SCRIPT_TAG else LITERAL_TAG) x))
  else set_state START x.

Definition open_element (allow_implicit_close : bool) (e : nat) (el : HtmlElement) (n : ElementNamespace) (x : HtmlLexer)
    : option HtmlLexer :=
  x ← AddEvent (StartElement e) (set_literal [] x);
  let x := push_open e el n x in
  x ← (if allow_implicit_close && IsImplicitlyClosedTag (keyword el) then EmitTagClose IMPLICIT_CLOSE (set_token (name_str el) x)
       else Some x);
  Some (set_element None x).

(** The namespace of the element that a start tag makes. *)
Definition element_namespace (html_rules : bool) (el : HtmlElement) (x : HtmlLexer) : ElementNamespace :=
  if negb html_rules then ns (CurrentInfo x)
  else if StringCaseEqual (name_str el) (lit "svg") then kSvg
  else if StringCaseEqual (name_str el) (lit "math") then kMathMl
  else kHtml.

Definition EmitTagOpen (allow_implicit_close : bool) (x : HtmlLexer) : option HtmlLexer :=
  if discard_until_start_state_for_error_recovery_ x then Some (set_literal [] (set_state START x))
  else
    e ← element_ x;
    el ← nodes_ x !! e;
    if negb (bool_decide (token_ x = [])) then None
    else
      let html_rules := StartTagUsesHtmlRules el x in
      '(html_rules, x) ←
        (if negb html_rules && IsForeignBreakoutStartTag el then
           x ← PopForeignElementsForBreakout x; Some (true, modify e (set_parent (Parent x)) x)
         else Some (html_rules, x));
      let n := element_namespace html_rules el x in
      let x := match n with kHtml => x | _ => modify e (set_name (MakeKeywordlessName (name_str el))) x end in
      el ← nodes_ x !! e;
      x ← (if html_rules then AutoClose_loop (element_stack_ x) e (keyword el) x else Some x);
      open_element allow_implicit_close e el n x.

Definition EmitTagBriefClose (x : HtmlLexer) : option HtmlLexer :=
  x ←
    (if discard_until_start_state_for_error_recovery_ x then Some x
     else match element_stack_ x with
          | [] => Some x
          | (oe, _) :: rest =>
              let x := set_element_stack rest x in
              match oe with Some e => CloseElement e BRIEF_CLOSE x | None => Some x end
          end);
  Some (set_state START x).

Definition MakeElement (x : HtmlLexer) : option HtmlLexer :=
  if discard_until_start_state_for_error_recovery_ x then None
  else match element_ x with
       | Some _ => Some x
       | None => let '(x, e) := NewElement (Parent x) (MakeName (token_ x)) x in Some (set_token [] (set_element (Some e) x))
       end.

Definition MakeAttribute (has_value : bool) (x : HtmlLexer) : option HtmlLexer :=
  let discard := discard_until_start_state_for_error_recovery_ x in
  let name := MakeName (attr_name_ x) in
  if negb (Bool.eqb has_value (has_attr_value_ x)) then None
  else if negb has_value && negb (bool_decide (attr_value_ x = [])) then None
  else
    let a := mkAttribute name (if has_value then Some (attr_value_ x) else None) (attr_quote_ x) in
    x ← (if discard then Some x else e ← element_ x; _ ← nodes_ x !! e; Some (modify e (AddEscapedAttribute a) x));
    Some (set_state TAG_ATTRIBUTE (set_attr_quote NO_QUOTE (set_attr_value [] (set_has_attr_value false (set_attr_name [] x))))).

(** Called on spaces and [>] only. *)
Definition FinishAttribute (c : ascii) (has_value brief_close : bool) (x : HtmlLexer) : option HtmlLexer :=
  if IsHtmlSpace c then x ← MakeAttribute has_value x; Some (set_state TAG_ATTRIBUTE x)
  else if c =c ">"%char then
    x ← (if bool_decide (attr_name_ x = []) then Some x else MakeAttribute has_value x);
    x ← EmitTagOpen (negb brief_close) x;
    x ← (if brief_close then EmitTagBriefClose x else Some x);
    Some (set_has_attr_value false x)
  else None.

(** ** One byte

    [c] is already the last byte of [literal_]. *)

Definition append_token (s : bytes) (x : HtmlLexer) : HtmlLexer := set_token (token_ x ++ s) x.
Definition append_literal (c : ascii) (x : HtmlLexer) : HtmlLexer := set_literal (literal_ x ++ [c]) x.

(** [literal_.resize(literal_.size() - n)] *)
Definition chop_literal (n : nat) (x : HtmlLexer) : option HtmlLexer :=
  if (length (literal_ x) <? n)%nat then None else Some (set_literal (take (length (literal_ x) - n) (literal_ x)) x).

Definition EvalStart (c : ascii) (x : HtmlLexer) : option HtmlLexer :=
  if c =c "<"%char then
    x ← chop_literal 1 x;
    x ← EmitLiteral x;
    Some (set_discard false (set_state TAG (append_literal c x)))
  else Some (set_state START x).

Definition Restart (c : ascii) (x : HtmlLexer) : option HtmlLexer :=
  if bool_decide (literal_ x = []) then EvalStart c (append_literal c x)
  else if bool_decide (last (literal_ x) = Some c) then
    x ← chop_literal 1 x;
    x ← EmitLiteral x;
    EvalStart c (append_literal c x)
  else None.

Definition EvalTag (c : ascii) (x : HtmlLexer) : option HtmlLexer :=
  if c =c "/"%char then Some (set_state TAG_CLOSE_NO_NAME x)
  else if IsLegalTagFirstChar c then Some (append_token [c] (set_discard false (set_state TAG_OPEN x)))
  else if c =c "!"%char then Some (set_state COMMENT_START1 x)
  else if c =c "?"%char then Some (set_state BOGUS_COMMENT x)
  else EvalStart c x.

Definition EvalTagOpen (c : ascii) (x : HtmlLexer) : option HtmlLexer :=
  if IsLegalTagChar c then Some (append_token [c] x)
  else if c =c ">"%char then x ← MakeElement x; EmitTagOpen true x
  else if c =c "/"%char then Some (set_state TAG_BRIEF_CLOSE x)
  else if IsHtmlSpace c then Some (set_state TAG_ATTRIBUTE x)
  else Some (set_state START (set_token [] x)).

Definition EvalAttribute (c : ascii) (x : HtmlLexer) : option HtmlLexer :=
  x ← (if discard_until_start_state_for_error_recovery_ x then Some x else MakeElement x);
  let x := set_attr_value [] (set_attr_name [] x) in
  if c =c ">"%char then EmitTagOpen true x
  else if c =c "/"%char then Some (set_state TAG_BRIEF_CLOSE x)
  else if IsLegalAttrNameChar c || negb (IsHtmlSpace c) then Some (set_state TAG_ATTR_NAME (set_attr_name [c] x))
  else Some x.

Definition EvalTagBriefClose (c : ascii) (x : HtmlLexer) : option HtmlLexer :=
  if has_attr_value_ x then None
  else if c =c ">"%char then
    x ← (if discard_until_start_state_for_error_recovery_ x then Some x else MakeElement x);
    FinishAttribute c (has_attr_value_ x) true x
  else
    x ← (if bool_decide (attr_name_ x = []) then Some x else MakeAttribute (has_attr_value_ x) x);
    EvalAttribute c (set_state TAG_ATTRIBUTE x).

Definition EvalTagCloseNoName (c : ascii) (x : HtmlLexer) : option HtmlLexer :=
  if IsLegalTagChar c then Some (set_state TAG_CLOSE (append_token [c] x))
  else if c =c ">"%char then EvalStart c (set_token [] x)
  else Some (set_state BOGUS_COMMENT x).

Definition EvalTagClose (c : ascii) (x : HtmlLexer) : option HtmlLexer :=
  if negb (bool_decide (state_ x = TAG_CLOSE_TERMINATE)) && IsLegalTagChar c then Some (append_token [c] x)
  else if IsHtmlSpace c then
    if bool_decide (token_ x = []) then Some x else Some (set_state TAG_CLOSE_TERMINATE x)
  else if c =c ">"%char then EmitTagClose EXPLICIT_CLOSE x
  else EvalStart c (set_token [] x).

Definition EvalDirective (c : ascii) (x : HtmlLexer) : option HtmlLexer :=
  if c =c ">"%char then EmitDirective x else Some (append_token [c] x).

Definition EvalBogusComment (c : ascii) (x : HtmlLexer) : option HtmlLexer :=
  if c =c ">"%char then x ← EmitLiteral x; Some (set_state START x) else Some x.

Definition EvalCommentStart1 (c : ascii) (x : HtmlLexer) : option HtmlLexer :=
  if c =c "-"%char then Some (set_state COMMENT_START2 x)
  else if c =c "["%char then Some (set_state CDATA_START1 x)
  else if IsLegalTagChar c && negb (c =c "<"%char) then EvalDirective c (set_state DIRECTIVE x)
  else Restart c x.

Definition EvalCommentStart2 (c : ascii) (x : HtmlLexer) : option HtmlLexer :=
  if c =c "-"%char then Some (set_state COMMENT_BODY x) else Restart c x.

Definition EvalCommentBody (c : ascii) (x : HtmlLexer) : option HtmlLexer :=
  if c =c "-"%char then Some (set_state COMMENT_END1 x) else Some (append_token [c] x).

Definition EvalCommentEnd1 (c : ascii) (x : HtmlLexer) : option HtmlLexer :=
  if c =c "-"%char then Some (set_state COMMENT_END2 x)
  else Some (set_state COMMENT_BODY (append_token ["-"%char; c] x)).

Definition EvalCommentEnd2 (c : ascii) (x : HtmlLexer) : option HtmlLexer :=
  if c =c ">"%char then x ← EmitComment x; Some (set_state START x)
  else if c =c "-"%char then Some (append_token ["-"%char] x)
  else Some (set_state COMMENT_BODY (append_token ["-"%char; "-"%char; c] x)).

(** [EvalCdataStart1] to [EvalCdataStart6]: the expected byte and the next state. *)
Definition EvalCdataStart (expected : ascii) (next : State) (c : ascii) (x : HtmlLexer) : option HtmlLexer :=
  if c =c expected then Some (set_state next x) else Restart c x.

Definition EvalCdataBody (c : ascii) (x : HtmlLexer) : option HtmlLexer :=
  if c =c "]"%char then Some (set_state CDATA_END1 x) else Some (append_token [c] x).

Definition EvalCdataEnd1 (c : ascii) (x : HtmlLexer) : option HtmlLexer :=
  if c =c "]"%char then Some (set_state CDATA_END2 x)
  else Some (set_state CDATA_BODY (append_token ["]"%char; c] x)).

Definition EvalCdataEnd2 (c : ascii) (x : HtmlLexer) : option HtmlLexer :=
  if c =c ">"%char then x ← EmitCdata x; Some (set_state START x)
  else Some (set_state CDATA_BODY (append_token ["]"%char; "]"%char; c] x)).

Definition CanEndTag (c : ascii) : bool :=
  (c =c tab) || (c =c cr) || (c =c nl) || (c =c ff) || (c =c " "%char) || (c =c "/"%char) || (c =c ">"%char).

(** After the end tag of a literal element: what follows its name is thrown away. *)
Definition discard_rest (c : ascii) (x : HtmlLexer) : HtmlLexer :=
  if c =c "/"%char then set_state TAG_BRIEF_CLOSE (set_discard true x)
  else if c =c ">"%char then x
  else set_state TAG_ATTRIBUTE (set_discard true x).

Definition EvalLiteralTag (c : ascii) (x : HtmlLexer) : option HtmlLexer :=
  if CanEndTag c && negb (bool_decide (literal_ x = [])) then
    if (length (literal_close_ x) <=? 3)%nat then None
    else
      let prev_fragment := removelast (literal_ x) in
      let close_tag_name := removelast (literal_close_ x) in
      if StringCaseEndsWith prev_fragment close_tag_name then
        x ← chop_literal (S (length close_tag_name)) x;
        x ← EmitLiteral x;
        x ← EmitTagClose EXPLICIT_CLOSE (set_token (substr (literal_close_ x) 2 (length (literal_close_ x) - 3)) x);
        Some (discard_rest c x)
      else Some x
  else Some x.

Definition IsScriptHtmlCommentClosing (c : ascii) (x : HtmlLexer) : bool :=
  (c =c ">"%char) && EndsWith (literal_ x) (lit "-->").

Definition EvalScriptTag (c : ascii) (x : HtmlLexer) : option HtmlLexer :=
  let x := if (c =c "-"%char) && bool_decide (script_escape_state_ x = kNone) && EndsWith (literal_ x) (lit "<!--")
           then set_script_escape_state kInComment x else x in
  if CanEndTag c && negb (bool_decide (literal_ x = [])) then
    let prev_fragment := removelast (literal_ x) in
    if StringCaseEndsWith prev_fragment (lit "</script") then
      if bool_decide (script_escape_state_ x = kDoubleEscaped) then Some (set_script_escape_state kInComment x)
      else
        let x := set_script_escape_state kNone x in
        let x := set_token (substr (literal_ x) (length (literal_ x) - 7) 6) x in
        x ← chop_literal 9 x;
        x ← EmitLiteral x;
        x ← EmitTagClose EXPLICIT_CLOSE x;
        Some (discard_rest c x)
    else if negb (bool_decide (script_escape_state_ x = kNone)) && StringCaseEndsWith prev_fragment (lit "<script") then
      Some (set_script_escape_state kDoubleEscaped x)
    else if IsScriptHtmlCommentClosing c x then Some (set_script_escape_state kNone x)
    else Some x
  else Some x.

(** Whether the byte was consumed. *)
Definition HandleAttributeEnd (c : ascii) (x : HtmlLexer) : option (HtmlLexer * bool) :=
  if c =c "="%char then Some (set_has_attr_value true (set_state TAG_ATTR_EQ x), true)
  else if IsHtmlSpace c then Some (set_state TAG_ATTR_NAME_SPACE x, true)
  else if c =c ">"%char then x ← MakeAttribute false x; x ← EmitTagOpen true x; Some (x, true)
  else if c =c "/"%char then Some (set_state TAG_BRIEF_CLOSE x, true)
  else Some (x, false).

Definition EvalAttrName (c : ascii) (x : HtmlLexer) : option HtmlLexer :=
  '(x, consumed) ← HandleAttributeEnd c x;
  Some (if consumed : bool then x else set_attr_name (attr_name_ x ++ [c]) x).

Definition EvalAttrNameSpace (c : ascii) (x : HtmlLexer) : option HtmlLexer :=
  '(x, consumed) ← HandleAttributeEnd c x;
  if consumed : bool then Some x
  else x ← MakeAttribute false x; Some (set_attr_name (attr_name_ x ++ [c]) (set_state TAG_ATTR_NAME x)).

Definition EvalAttrVal (c : ascii) (x : HtmlLexer) : option HtmlLexer :=
  if IsHtmlSpace c || (c =c ">"%char) then FinishAttribute c true false x
  else Some (set_attr_value (attr_value_ x ++ [c]) x).

Definition EvalAttrEq (c : ascii) (x : HtmlLexer) : option HtmlLexer :=
  if c =c dquote then Some (set_state TAG_ATTR_VALDQ (set_attr_quote DOUBLE_QUOTE x))
  else if c =c squote then Some (set_state TAG_ATTR_VALSQ (set_attr_quote SINGLE_QUOTE x))
  else if IsHtmlSpace c then Some x
  else if c =c ">"%char then FinishAttribute c true false x
  else EvalAttrVal c (set_attr_quote NO_QUOTE (set_state TAG_ATTR_VAL x)).

(** [EvalAttrValDq] and [EvalAttrValSq] *)
Definition EvalAttrValQuoted (quote c : ascii) (x : HtmlLexer) : option HtmlLexer :=
  if c =c quote then MakeAttribute true x else Some (set_attr_value (attr_value_ x ++ [c]) x).

(** The switch of [Parse]. *)
Definition Eval (c : ascii) (x : HtmlLexer) : option HtmlLexer :=
  match state_ x with
  | START => EvalStart c x
  | TAG => EvalTag c x
  | TAG_OPEN => EvalTagOpen c x
  | TAG_CLOSE_NO_NAME => EvalTagCloseNoName c x
  | TAG_CLOSE | TAG_CLOSE_TERMINATE => EvalTagClose c x
  | TAG_BRIEF_CLOSE => EvalTagBriefClose c x
  | COMMENT_START1 => EvalCommentStart1 c x
  | COMMENT_START2 => EvalCommentStart2 c x
  | COMMENT_BODY => EvalCommentBody c x
  | COMMENT_END1 => EvalCommentEnd1 c x
  | COMMENT_END2 => EvalCommentEnd2 c x
  | CDATA_START1 => EvalCdataStart "C" CDATA_START2 c x
  | CDATA_START2 => EvalCdataStart "D" CDATA_START3 c x
  | CDATA_START3 => EvalCdataStart "A" CDATA_START4 c x
  | CDATA_START4 => EvalCdataStart "T" CDATA_START5 c x
  | CDATA_START5 => EvalCdataStart "A" CDATA_START6 c x
  | CDATA_START6 => EvalCdataStart "[" CDATA_BODY c x
  | CDATA_BODY => EvalCdataBody c x
  | CDATA_END1 => EvalCdataEnd1 c x
  | CDATA_END2 => EvalCdataEnd2 c x
  | TAG_ATTRIBUTE => EvalAttribute c x
  | TAG_ATTR_NAME => EvalAttrName c x
  | TAG_ATTR_NAME_SPACE => EvalAttrNameSpace c x
  | TAG_ATTR_EQ => EvalAttrEq c x
  | TAG_ATTR_VAL => EvalAttrVal c x
  | TAG_ATTR_VALDQ => EvalAttrValQuoted dquote c x
  | TAG_ATTR_VALSQ => EvalAttrValQuoted squote c x
  | LITERAL_TAG => EvalLiteralTag c x
  | SCRIPT_TAG => EvalScriptTag c x
  | DIRECTIVE => EvalDirective c x
  | BOGUS_COMMENT => EvalBogusComment c x
  end.

(** ** Documents *)

Definition too_long (s : bytes) : bool := kMaxTokenSize <? Z.of_nat (length s).

Fixpoint Parse_loop (text : bytes) (x : HtmlLexer) : option HtmlLexer :=
  match text with
  | [] => Some x
  | c :: text =>
      if skip_parsing_ x then Some x
      else if too_long (token_ x) || too_long (attr_value_ x) || too_long (literal_ x) || too_long (attr_name_ x) then
        Some (set_skip_parsing true (set_size_limit_exceeded true x))
      else
        x ← Eval c (append_literal c x);
        Parse_loop text x
  end.

Definition Parse (text : bytes) (x : HtmlLexer) : option HtmlLexer :=
  let x := set_num_bytes_parsed (num_bytes_parsed_ x + Z.of_nat (length text)) x in
  let x := if (0 <? size_limit_ x) && (size_limit_ x <? num_bytes_parsed_ x) then set_size_limit_exceeded true x else x in
  Parse_loop text x.

(** A parser that has just started a document. *)
Definition StartParse (size_limit : Z) : HtmlLexer :=
  mkLexer [StartDocument] [] START [] [] [] [] NO_QUOTE false None [] kNone false [(None, kHtmlInfo)]
    false false 0 size_limit.

(** The loop over the elements that are still open. *)
Fixpoint FinishParse_loop (n : nat) (x : HtmlLexer) : option HtmlLexer :=
  match n with
  | O => Some x
  | S n =>
      entry ← head (element_stack_ x);
      e ← entry.1;
      el ← nodes_ x !! e;
      x ← EmitTagClose (if skip_parsing_ x then EXPLICIT_CLOSE else UNCLOSED) (set_token (name_str el) x);
      FinishParse_loop n x
  end.

Definition FinishParse (x : HtmlLexer) : option HtmlLexer :=
  let x := set_attr_value [] (set_attr_name [] (set_token [] x)) in
  x ← (if bool_decide (literal_ x = []) then Some x else EmitLiteral x);
  bottom ← last (element_stack_ x);
  if decide (bottom.1 = None) then
    x ← FinishParse_loop (length (element_stack_ x) - 1) x;
    if bool_decide ((element_stack_ x).*1 = [None]) then AddEvent EndDocument (set_element None x) else None
  else None.

Definition ParseDocument (size_limit : Z) (chunks : list bytes) : option HtmlLexer :=
  x ← foldl (fun x text => x ← x; Parse text x) (Some (StartParse size_limit)) chunks;
  FinishParse x.
