(* ===== verification/HtmlWriter.v ===== *)
(** * The HTML writer

    src/pagespeed/kernel/html/html_writer_filter.cc: the filter that turns the events of
    a document into text again. The writer it writes to is a string, which never fails. *)

From S2P Require Import Prelude StringUtil HtmlKeywords HtmlLexer.

Record HtmlWriterFilter := mkWriter {
  output_ : bytes;
  lazy_close_element_ : option nat;
  column_ : Z;
}.

Section writer.
Variable nodes : list HtmlElement.
Variable max_column_ : Z.
Variable case_fold_ : bool.

Definition TerminateLazyCloseElement (w : HtmlWriterFilter) : HtmlWriterFilter :=
  match lazy_close_element_ w with
  | Some _ => mkWriter (output_ w ++ [">"%char]) None (column_ w + 1)
  | None => w
  end.

(** The column after [str]: the loop looks for the last newline. *)
Definition column_after (str : bytes) (column : Z) : Z :=
  match index_of (fun c => c =c nl) (rev str) with Some n => Z.of_nat n | None => column + Z.of_nat (length str) end.

Definition EmitBytes (str : bytes) (w : HtmlWriterFilter) : HtmlWriterFilter :=
  let w := TerminateLazyCloseElement w in
  mkWriter (output_ w ++ str) (lazy_close_element_ w) (column_after str (column_ w)).

Definition EmitName (name : HtmlName) (w : HtmlWriterFilter) : HtmlWriterFilter :=
  EmitBytes (if case_fold_ then LowerString (str_ name) else str_ name) w.

Definition quote_str (q : QuoteStyle) : bytes :=
  match q with NO_QUOTE => [] | SINGLE_QUOTE => [squote] | DOUBLE_QUOTE => [dquote] end.

Definition GetElementStyle (el : HtmlElement) : Style :=
  match style_ el with
  | AUTO_CLOSE =>
      if IsImplicitlyClosedTag (keyword el) || IsOptionallyClosedTag (keyword el) then IMPLICIT_CLOSE
      else if TagAllowsBriefTermination (keyword el) then BRIEF_CLOSE
      else EXPLICIT_CLOSE
  | s => s
  end.

Definition EmitAttribute (a : Attribute) (w : HtmlWriterFilter) : HtmlWriterFilter :=
  let w :=
    if 0 <? max_column_ then
      let attr_length := 1 + Z.of_nat (length (str_ (attr_name a))) +
        match escaped_value a with Some v => 1 + Z.of_nat (length v) | None => 0 end in
      if max_column_ <? column_ w + attr_length then EmitBytes [nl] w else w
    else w in
  let w := EmitName (attr_name a) (EmitBytes [" "%char] w) in
  match escaped_value a with
  | Some v =>
      let quote := quote_str (quote_style_ a) in
      EmitBytes quote (EmitBytes v (EmitBytes quote (EmitBytes ["="%char] w)))
  | None => w
  end.

Definition StartElement_event (e : nat) (el : HtmlElement) (w : HtmlWriterFilter) : HtmlWriterFilter :=
  match GetElementStyle el with
  | INVISIBLE => w
  | style =>
      let w := EmitName (name_ el) (EmitBytes ["<"%char] w) in
      let w := fold_left (fun w a => EmitAttribute a w) (attributes_ el) w in
      match style with
      | BRIEF_CLOSE => mkWriter (output_ w) (Some e) (column_ w)
      | _ => EmitBytes [">"%char] w
      end
  end.

Definition EmitCloseTag (el : HtmlElement) (w : HtmlWriterFilter) : HtmlWriterFilter :=
  EmitBytes [">"%char] (EmitName (name_ el) (EmitBytes (lit "</") w)).

(** Before the [/>] of a tag whose last attribute has no quotes comes a space. *)
Definition brief_space (el : HtmlElement) : bool :=
  match last (attributes_ el) with
  | Some a => match escaped_value a, quote_style_ a with None, _ | _, NO_QUOTE => true | _, _ => false end
  | None => false
  end.

Definition EndElement_event (e : nat) (el : HtmlElement) (w : HtmlWriterFilter) : option HtmlWriterFilter :=
  match GetElementStyle el with
  | AUTO_CLOSE => None
  | IMPLICIT_CLOSE | INVISIBLE | UNCLOSED => Some w
  | EXPLICIT_CLOSE => Some (EmitCloseTag el w)
  | BRIEF_CLOSE =>
      if decide (lazy_close_element_ w = Some e) then
        let w := mkWriter (output_ w) None (column_ w) in
        let w := if brief_space el then EmitBytes [" "%char] w else w in
        Some (EmitBytes (lit "/>") w)
      else Some (EmitCloseTag el w)
  end.

Definition write_event (ev : HtmlEvent) (w : HtmlWriterFilter) : option HtmlWriterFilter :=
  match ev with
  | StartDocument => Some (mkWriter (output_ w) None 0)
  | EndDocument => Some (EmitBytes [] w)
  | StartElement e => el ← nodes !! e; Some (StartElement_event e el w)
  | EndElement e => el ← nodes !! e; EndElement_event e el w
  | Characters _ s => Some (EmitBytes s w)
  | Cdata _ s => Some (EmitBytes (lit "]]>") (EmitBytes s (EmitBytes (lit "<![CDATA[") w)))
  | CommentEvent _ s | IEDirective _ s => Some (EmitBytes (lit "-->") (EmitBytes s (EmitBytes (lit "<!--") w)))
  | Directive _ s => Some (EmitBytes [">"%char] (EmitBytes s (EmitBytes (lit "<!") w)))
  end.

Definition write_events (evs : list HtmlEvent) (w : HtmlWriterFilter) : option HtmlWriterFilter :=
  foldl (fun w ev => w ← w; write_event ev w) (Some w) evs.
End writer.

(** Reading a document and writing it again. *)
Definition Reserialize (size_limit : Z) (chunks : list bytes) : option bytes :=
  x ← ParseDocument size_limit chunks;
  w ← write_events (nodes_ x) (-1) false (queue_ x) (mkWriter [] None 0);
  Some (output_ w).

