(* ===== verification/HtmlEvents.v ===== *)
(** * What the events of a document say

    Every event has a source, the part of the document it was read from: the grammar of
    tags, comments and directives as the lexer reads them. The events open and close
    elements like brackets. *)

From S2P Require Import Prelude StringUtil HtmlKeywords HtmlLexer.

(** ** The sources of events *)

Definition spaces (w : bytes) : Prop := Forall (fun c => IsHtmlSpace c = true) w.

(** A tag name and an attribute name as they are read. *)
Definition tag_name (n : bytes) : Prop :=
  match n with c :: n' => IsLegalTagFirstChar c = true /\ Forall (fun c => IsLegalTagChar c = true) n' | [] => False end.
Definition ends_attr_name (c : ascii) : bool := IsHtmlSpace c || (c =c ">"%char) || (c =c "/"%char).
Definition attribute_name (n : bytes) : Prop :=
  match n with
  | c :: n' => ends_attr_name c = false /\ Forall (fun c => ends_attr_name c || (c =c "="%char) = false) n'
  | [] => False
  end.

Definition quote_of (q : QuoteStyle) : bytes :=
  match q with NO_QUOTE => [] | SINGLE_QUOTE => [squote] | DOUBLE_QUOTE => [dquote] end.
Definition quoted (q : QuoteStyle) : bool := match q with NO_QUOTE => false | _ => true end.
Definition ends_value (c : ascii) : bool := IsHtmlSpace c || (c =c ">"%char).
Definition attribute_value (q : QuoteStyle) (v : bytes) : Prop :=
  match q with
  | NO_QUOTE => Forall (fun c => ends_value c = false) v /\ (forall c v', v = c :: v' -> c <> dquote /\ c <> squote)
  | SINGLE_QUOTE => squote ∉ v
  | DOUBLE_QUOTE => dquote ∉ v
  end.

(** The text of an attribute, and whether it ends with a quote. *)
Inductive attr_source : Attribute -> bytes -> bool -> Prop :=
| attr_bare n : attribute_name n -> attr_source (mkAttribute (MakeName n) None NO_QUOTE) n false
| attr_valued n w1 w2 v q : attribute_name n -> spaces w1 -> spaces w2 -> attribute_value q v ->
    attr_source (mkAttribute (MakeName n) (Some v) q)
      (n ++ w1 ++ ["="%char] ++ w2 ++ quote_of q ++ v ++ quote_of q) (quoted q).

(** What follows the name in a start tag: attributes, with white space and slashes
    between them; and whether the next attribute can begin here. *)
Inductive tag_body : bool -> list Attribute -> bytes -> Prop :=
| body_nil : tag_body false [] []
| body_gap b attrs t c : tag_body b attrs t -> IsHtmlSpace c || (c =c "/"%char) = true -> tag_body true attrs (t ++ [c])
| body_attr attrs t a s q : tag_body true attrs t -> attr_source a s q -> tag_body q (attrs ++ [a]) (t ++ s).

Definition start_tag (n : bytes) (attrs : list Attribute) (s : bytes) : Prop :=
  tag_name n /\ exists b t, tag_body b attrs t /\ s = ["<"%char] ++ n ++ t ++ [">"%char].

(** The end tag of a literal element may be followed by anything up to a [>], and be cut
    short by the end of the document. *)
Definition end_tag (el : HtmlElement) (s : bytes) : Prop :=
  exists n tail, s = lit "</" ++ n ++ tail /\ StringCaseEqual n (name_str el) = true /\
    ((exists w, spaces w /\ tail = w ++ [">"%char]) \/
     (IsLiteralTag (keyword el) = true /\ exists c tail', tail = c :: tail' /\ CanEndTag c = true)).

(** What closes an element. [skipped]: the rest of the document was not parsed, and the
    elements left open are closed without an end tag. *)
Definition closing (skipped : bool) (style : Style) (el : HtmlElement) (s : bytes) : Prop :=
  match style with
  | EXPLICIT_CLOSE => end_tag el s \/ (skipped = true /\ s = [])
  | INVISIBLE => False
  | _ => s = []
  end.

Definition source (nodes : list HtmlElement) (skipped : bool) (ev : HtmlEvent) (s : bytes) : Prop :=
  match ev with
  | StartDocument | EndDocument => s = []
  | StartElement e => exists el, nodes !! e = Some el /\ start_tag (name_str el) (attributes_ el) s
  | EndElement e => exists el, nodes !! e = Some el /\ closing skipped (style_ el) el s
  | Characters _ t => s = t
  | CommentEvent _ t | IEDirective _ t => s = lit "<!--" ++ t ++ lit "-->"
  | Cdata _ t => s = lit "<![CDATA[" ++ t ++ lit "]]>"
  | Directive _ t => s = lit "<!" ++ t ++ [">"%char]
  end.

Definition sources (nodes : list HtmlElement) (skipped : bool) (evs : list HtmlEvent) (text : bytes) : Prop :=
  exists parts, text = concat parts /\ Forall2 (source nodes skipped) evs parts.

(** ** Nesting *)

Definition leaf_parent (ev : HtmlEvent) : option (option nat) :=
  match ev with
  | Characters p _ | CommentEvent p _ | IEDirective p _ | Cdata p _ | Directive p _ => Some p
  | _ => None
  end.

(** The events after the start of the document open and close elements in order, each
    element once, and every node has the innermost open element as its parent; [st] are
    the elements that are open. *)
Inductive nested (nodes : list HtmlElement) : list HtmlEvent -> list nat -> Prop :=
| nested_begin : nested nodes [StartDocument] []
| nested_start evs st e el : nested nodes evs st -> nodes !! e = Some el -> parent_ el = head st ->
    StartElement e ∉ evs -> nested nodes (evs ++ [StartElement e]) (e :: st)
| nested_end evs st e el : nested nodes evs (e :: st) -> nodes !! e = Some el -> parent_ el = head st ->
    nested nodes (evs ++ [EndElement e]) st
| nested_leaf evs st ev : nested nodes evs st -> leaf_parent ev = Some (head st) -> nested nodes (evs ++ [ev]) st.

(** How many elements are open after some events, and that there were as many as the limit
    on the depth at some point. *)
Definition nesting (evs : list HtmlEvent) : nat :=
  foldl (fun depth ev => match ev with StartElement _ => S depth | EndElement _ => pred depth | _ => depth end) O evs.
Definition reaches_limit (evs : list HtmlEvent) : Prop := exists evs1 evs2, evs = evs1 ++ evs2 /\ (kMaxNestingDepth <= nesting evs1)%nat.

Lemma nested_nesting nodes evs st : nested nodes evs st -> nesting evs = length st.
Proof.
  induction 1 as [|evs st e el _ IH|evs st e el _ IH|evs st ev _ IH Hp]; [done|..]; unfold nesting in *; rewrite foldl_app, IH; [done..|].
  by destruct ev.
Qed.

Lemma reaches_limit_app evs evs' : reaches_limit evs -> reaches_limit (evs ++ evs').
Proof. intros (a & b & -> & H). exists a, (b ++ evs'). by rewrite <- app_assoc. Qed.

Lemma nested_open nodes evs st : nested nodes evs st ->
  NoDup st /\ (forall e, e ∈ st -> StartElement e ∈ evs) /\
  (forall e, EndElement e ∈ evs -> StartElement e ∈ evs /\ e ∉ st).
Proof.
  assert (Hsnoc : forall (evs : list HtmlEvent) ev ev', ev ∈ evs ++ [ev'] <-> ev ∈ evs \/ ev = ev')
    by (intros; by rewrite elem_of_app, list_elem_of_singleton).
  induction 1 as [|evs st e el _ (IH1 & IH2 & IH3) He Hp Hn|evs st e el _ (IH1 & IH2 & IH3) He Hp|
    evs st ev _ (IH1 & IH2 & IH3) Hp].
  { split; [constructor|]. split; intros e H; [by apply not_elem_of_nil in H|by apply list_elem_of_singleton in H]. }
  all: setoid_rewrite Hsnoc.
  - split; [constructor; [|done]; by intros H%IH2|]. split.
    + intros e' [->|H]%elem_of_cons; [by right|left; by apply IH2].
    + intros e' [H|H]; [|done]. destruct (IH3 e' H) as [Hs Hi]. split; [by left|].
      rewrite not_elem_of_cons. split; [|done]. by intros ->.
  - apply NoDup_cons in IH1 as [Hne IH1]. split; [done|]. split.
    + intros e' H. left. apply IH2. by right.
    + intros e' [H|[= ->]].
      * destruct (IH3 e' H) as [Hs Hi]. split; [by left|]. intros Hin. apply Hi. by right.
      * split; [|done]. left. apply IH2. left.
  - split; [done|]. split; [intros e H; left; by apply IH2|]. intros e [H|H]; [|by subst].
    destruct (IH3 e H). split; [by left|done].
Qed.

Lemma nested_known nodes evs st e : nested nodes evs st -> StartElement e ∈ evs -> exists el, nodes !! e = Some el.
Proof.
  induction 1 as [|evs st e' el _ IH He|evs st e' el _ IH He|evs st ev _ IH Hp]; [by intros ?%list_elem_of_singleton|..];
    rewrite elem_of_app, list_elem_of_singleton; (intros [?|Heq]; [by apply IH|]).
  - injection Heq as ->. by exists el.
  - done.
  - by subst.
Qed.

(** ** Changes of the arena that the events do not see *)

Definition same_element (closed : Prop) (a b : HtmlElement) : Prop :=
  parent_ a = parent_ b /\ name_ a = name_ b /\ attributes_ a = attributes_ b /\ (closed -> style_ a = style_ b).

Definition keeps (evs : list HtmlEvent) (n n' : list HtmlElement) : Prop :=
  forall e el, StartElement e ∈ evs -> n !! e = Some el ->
    exists el', n' !! e = Some el' /\ same_element (EndElement e ∈ evs) el el'.

Lemma keeps_prefix evs evs' n n' : keeps (evs ++ evs') n n' -> keeps evs n n'.
Proof.
  intros H e el Hs He. destruct (H e el) as (el' & He' & Hp & Hn & Ha & Hst); [by apply elem_of_app; left|done|].
  exists el'. split; [done|]. split; [done|]. split; [done|]. split; [done|]. intros Hc. apply Hst. by apply elem_of_app; left.
Qed.

Lemma nested_keeps evs st n n' : keeps evs n n' -> nested n evs st -> nested n' evs st.
Proof.
  intros Hk Hn. induction Hn as [|evs st e el Hn IH He Hp Hs|evs st e el Hn IH He Hp|evs st ev Hn IH Hp];
    [constructor|pose proof (IH (keeps_prefix _ _ _ _ Hk)) as Hn'..].
  - destruct (Hk e el) as (el' & He' & Hp' & _); [by apply elem_of_app; right; left|done|].
    eapply nested_start; [done|exact He'|congruence|done].
  - destruct (nested_open _ _ _ Hn) as (_ & Ho & _).
    destruct (Hk e el) as (el' & He' & Hp' & _); [apply elem_of_app; left; apply Ho; left|done|].
    eapply nested_end; [done|exact He'|congruence].
  - by eapply nested_leaf.
Qed.

Lemma source_keeps evs n n' skipped ev s :
  keeps evs n n' -> ev ∈ evs -> (forall e, EndElement e ∈ evs -> StartElement e ∈ evs) ->
  source n skipped ev s -> source n' skipped ev s.
Proof.
  intros Hk Hev Hse. destruct ev as [| |e|e| | | | |]; try done; intros (el & He & Hs).
  - destruct (Hk e el Hev He) as (el' & He' & Hp & Hn & Ha & _). exists el'. split; [done|].
    unfold name_str in *. by rewrite <- Hn, <- Ha.
  - destruct (Hk e el (Hse e Hev) He) as (el' & He' & Hp & Hn & Ha & Hst). exists el'. split; [done|].
    rewrite <- (Hst Hev). unfold closing, end_tag, name_str, keyword in *. by rewrite <- Hn.
Qed.

Lemma sources_keeps evs st n n' skipped text :
  keeps evs n n' -> nested n evs st -> sources n skipped evs text -> sources n' skipped evs text.
Proof.
  intros Hk Hn (parts & -> & Hf). exists parts. split; [done|].
  destruct (nested_open _ _ _ Hn) as (_ & _ & Hse).
  assert (Hin : forall evs', (forall ev, ev ∈ evs' -> ev ∈ evs) -> forall parts, Forall2 (source n skipped) evs' parts -> Forall2 (source n' skipped) evs' parts).
  { clear parts Hf. induction evs' as [|ev evs' IH]; intros Hi parts Hf; inversion Hf; subst; constructor.
    - eapply source_keeps; [exact Hk|apply Hi; left|intros e He; by apply Hse|done].
    - apply IH; [|done]. intros ev' Hev'. apply Hi. by right. }
  by apply Hin.
Qed.

Lemma sources_snoc n skipped evs text ev s :
  sources n skipped evs text -> source n skipped ev s -> sources n skipped (evs ++ [ev]) (text ++ s).
Proof.
  intros (parts & -> & Hf) Hs. exists (parts ++ [s]). split; [by rewrite concat_app, concat_cons, app_nil_r|].
  apply Forall2_app; [done|]. by repeat constructor.
Qed.

Lemma sources_weaken n skipped skipped' evs text :
  (skipped = true -> skipped' = true) -> sources n skipped evs text -> sources n skipped' evs text.
Proof.
  intros Hw (parts & -> & Hf). exists parts. split; [done|]. eapply Forall2_impl; [exact Hf|].
  intros ev s. destruct ev as [| |e|e| | | | |]; try done. intros (el & He & Hc). exists el. split; [done|].
  unfold closing in *. destruct (style_ el); naive_solver.
Qed.
