(* ===== verification/HtmlStack.v ===== *)
(** * The stack of open elements

    The operations of the lexer that close elements: each one keeps the stack, the arena
    and the queue of events in step. *)

From S2P Require Import Prelude StringUtil HtmlKeywords HtmlLexer HtmlEvents.

(** ** The stack *)

Definition ids (stack : list (option nat * OpenElementInfo)) : list nat := omap fst stack.

Inductive stack_ok (nodes : list HtmlElement) : list (option nat * OpenElementInfo) -> Prop :=
| stack_bottom : stack_ok nodes [(None, kHtmlInfo)]
| stack_push stack e el info :
    stack_ok nodes stack -> nodes !! e = Some el -> parent_ el = head (ids stack) -> style_ el <> INVISIBLE ->
    (ns info <> kHtml -> NameIsOneOf (name_str el) kForeignBreakoutEndTags = false) ->
    stack_ok nodes ((Some e, info) :: stack).

Lemma stack_ok_nodes nodes nodes' stack :
  stack_ok nodes stack ->
  (forall e el, e ∈ ids stack -> nodes !! e = Some el -> style_ el <> INVISIBLE ->
    exists el', nodes' !! e = Some el' /\ parent_ el' = parent_ el /\ name_ el' = name_ el /\ style_ el' <> INVISIBLE) ->
  stack_ok nodes' stack.
Proof.
  induction 1 as [|stack e el info Hok IH He Hp Hs Hns]; intros H; [constructor|].
  destruct (H e el) as (el' & He' & Hp' & Hn & Hs'); [left|done..|].
  eapply stack_push; [apply IH; intros; apply H; [by right|done..]|exact He'|congruence|done|].
  unfold name_str in *. by rewrite Hn.
Qed.

Lemma stack_ok_ne nodes stack : stack_ok nodes stack -> stack <> [].
Proof. by destruct 1. Qed.

Lemma Parent_ids x : stack_ok (nodes_ x) (element_stack_ x) -> Parent x = head (ids (element_stack_ x)).
Proof. unfold Parent. by destruct 1. Qed.

(** ** The queue, the arena and the stack

    [open] are the elements whose end is not in the queue, [t] is the text that the
    events of the queue were read from. *)
Record Core (sk : bool) (x : HtmlLexer) (open : list nat) (t : bytes) : Prop := {
  core_nested : nested (nodes_ x) (queue_ x) open;
  core_sources : sources (nodes_ x) sk (queue_ x) t;
  core_stack : stack_ok (nodes_ x) (element_stack_ x);
}.

Definition same_node (a b : HtmlElement) : Prop :=
  parent_ a = parent_ b /\ name_ a = name_ b /\ attributes_ a = attributes_ b.

(** What closing elements changes: [touches] the fields, [closes] what they hold. *)
Record touches (x x' : HtmlLexer) : Prop := {
  touches_eq : x' = set_skip_parsing (skip_parsing_ x') (set_element_stack (element_stack_ x')
                     (set_nodes (nodes_ x') (set_queue (queue_ x') x)));
  touches_skip : skip_parsing_ x = true -> skip_parsing_ x' = true;
  touches_stack : exists k, element_stack_ x' = drop k (element_stack_ x);
  touches_reason : skip_parsing_ x' = true -> skip_parsing_ x = true \/ size_limit_exceeded_ x = true;
  touches_queue : exists evs, queue_ x' = queue_ x ++ evs;
}.

(** A change of the arena and the stack alone. *)
Lemma touches_quiet x n k : touches x (set_element_stack (drop k (element_stack_ x)) (set_nodes n x)).
Proof. split; [by destruct x|done|by exists k|by left|exists []; by rewrite app_nil_r]. Qed.

Record closes (x x' : HtmlLexer) : Prop := {
  closes_touches : touches x x';
  closes_fresh p : StartElement p ∉ queue_ x -> nodes_ x' !! p = nodes_ x !! p /\ StartElement p ∉ queue_ x';
  closes_node p el : nodes_ x !! p = Some el -> exists el', nodes_ x' !! p = Some el' /\ same_node el el';
}.

Lemma touches_refl x : touches x x.
Proof. split; [by destruct x|done|by exists O|by left|exists []; by rewrite app_nil_r]. Qed.

Lemma touches_trans x y z : touches x y -> touches y z -> touches x z.
Proof.
  intros Hxy Hyz. split.
  - rewrite (touches_eq _ _ Hyz) at 1. rewrite (touches_eq _ _ Hxy) at 1. reflexivity.
  - intros H. apply (touches_skip _ _ Hyz), (touches_skip _ _ Hxy), H.
  - destruct (touches_stack _ _ Hxy) as [k E], (touches_stack _ _ Hyz) as [k' E']. exists (k + k')%nat.
    by rewrite E', E, drop_drop.
  - intros H. destruct (touches_reason _ _ Hyz H) as [H'|H']; [by apply (touches_reason _ _ Hxy)|right].
    by rewrite (touches_eq _ _ Hxy) in H'.
  - destruct (touches_queue _ _ Hxy) as [evs E], (touches_queue _ _ Hyz) as [evs' E']. exists (evs ++ evs').
    by rewrite E', E, app_assoc.
Qed.
#[export] Instance touches_preorder : PreOrder touches.
Proof. split; [exact touches_refl|exact touches_trans]. Qed.

Lemma closes_refl x : closes x x.
Proof. split; [reflexivity|done|]. intros p el H. exists el. by repeat split. Qed.

Lemma closes_trans x y z : closes x y -> closes y z -> closes x z.
Proof.
  intros Hxy Hyz. split.
  - by etrans; eapply closes_touches.
  - intros p H. destruct (closes_fresh _ _ Hxy p H) as [E H']. destruct (closes_fresh _ _ Hyz p H') as [E' H''].
    split; [congruence|done].
  - intros p el H. destruct (closes_node _ _ Hxy p el H) as (el' & H' & A1 & A2 & A3).
    destruct (closes_node _ _ Hyz p el' H') as (el'' & H'' & B1 & B2 & B3). exists el''. split; [done|].
    repeat split; congruence.
Qed.
#[export] Instance closes_preorder : PreOrder closes.
Proof. split; [exact closes_refl|exact closes_trans]. Qed.

(** The fields that closing leaves alone. *)
Ltac frame H :=
  let E := fresh "Eframe" in
  pose proof (touches_eq _ _ H) as E;
  pose proof (f_equal token_ E); pose proof (f_equal literal_ E); pose proof (f_equal state_ E);
  pose proof (f_equal attr_name_ E); pose proof (f_equal attr_value_ E); pose proof (f_equal attr_quote_ E);
  pose proof (f_equal has_attr_value_ E); pose proof (f_equal element_ E); pose proof (f_equal literal_close_ E);
  pose proof (f_equal script_escape_state_ E); pose proof (f_equal discard_until_start_state_for_error_recovery_ E);
  pose proof (f_equal size_limit_exceeded_ E); clear E;
  cbn [token_ literal_ state_ attr_name_ attr_value_ attr_quote_ has_attr_value_ element_ literal_close_
       script_escape_state_ discard_until_start_state_for_error_recovery_ size_limit_exceeded_ set_skip_parsing
       set_element_stack set_nodes set_queue set_literal set_token set_state set_element set_discard set_literal_close
       set_script_escape_state] in *.

Lemma closes_set_stack k x : closes x (set_element_stack (drop k (element_stack_ x)) x).
Proof.
  split; [|done|].
  { replace (set_element_stack _ x) with (set_element_stack (drop k (element_stack_ x)) (set_nodes (nodes_ x) x)) by by destruct x.
    apply touches_quiet. }
  intros p el H. exists el. by repeat split.
Qed.

Lemma CloseElement_ok sk x e el style t s :
  Core sk x (e :: ids (element_stack_ x)) t -> nodes_ x !! e = Some el -> parent_ el = Parent x ->
  style_ el <> INVISIBLE -> closing sk style el s ->
  exists x', CloseElement e style x = Some x' /\ Core sk x' (ids (element_stack_ x)) (t ++ s) /\ closes x x' /\
    element_stack_ x' = element_stack_ x /\ queue_ x' = queue_ x ++ [EndElement e] /\
    nodes_ x' !! e = Some (set_element_style style el).
Proof.
  intros [Hn Hs Hst] He Hp Hi Hc.
  destruct (nested_open _ _ _ Hn) as (Hd & Ho & Hse). apply NoDup_cons in Hd as [Hni _].
  set (nodes' := alter (set_element_style style) e (nodes_ x)).
  assert (He' : nodes' !! e = Some (set_element_style style el)) by (unfold nodes'; by rewrite list_lookup_alter_eq, He).
  assert (Hother : forall p, p <> e -> nodes' !! p = nodes_ x !! p) by (intros; unfold nodes'; by rewrite list_lookup_alter_ne).
  assert (Hk : keeps (queue_ x) (nodes_ x) nodes').
  { intros p q Hq Hpq. destruct (decide (p = e)) as [->|Hne].
    - eexists. split; [exact He'|]. replace q with el by congruence. repeat split.
      intros Hend. by destruct (Hse e Hend) as [_ []%not_elem_of_cons].
    - exists q. rewrite Hother by done. by repeat split. }
  assert (Hstack : stack_ok nodes' (element_stack_ x)).
  { apply (stack_ok_nodes _ _ _ Hst). intros p q Hin Hpq Hiq. exists q. rewrite Hother by congruence. done. }
  exists (skip_if_exceeded (set_queue (queue_ x ++ [EndElement e]) (set_nodes nodes' x))).
  assert (Hparent : parent_ (set_element_style style el) = head (ids (element_stack_ x)))
    by (cbn; rewrite Hp; by apply Parent_ids).
  split; [|split; [|split; [|split; [by unfold skip_if_exceeded; destruct size_limit_exceeded_|split;
    [by unfold skip_if_exceeded; destruct size_limit_exceeded_|by unfold skip_if_exceeded; destruct size_limit_exceeded_]]]]].
  - unfold CloseElement. rewrite He. cbn [mbind option_bind].
    replace (match style_ el with INVISIBLE => x | _ => modify e (set_element_style style) x end)
      with (modify e (set_element_style style) x) by (destruct (style_ el); congruence).
    unfold AddEvent, node_parent, modify. cbn [nodes_ set_nodes]. fold nodes'. rewrite He'. cbn [fmap option_fmap option_map mbind option_bind].
    rewrite decide_True by (cbn; by rewrite Hp). done.
  - assert (Hcore : Core sk (set_queue (queue_ x ++ [EndElement e]) (set_nodes nodes' x)) (ids (element_stack_ x)) (t ++ s)).
    { split; cbn.
      - eapply nested_end; [by eapply nested_keeps|exact He'|done].
      - apply sources_snoc; [by eapply sources_keeps|]. eexists. split; [exact He'|done].
      - done. }
    unfold skip_if_exceeded. by destruct size_limit_exceeded_; destruct Hcore.
  - split.
    + unfold skip_if_exceeded. split; [by destruct x, size_limit_exceeded_|by destruct size_limit_exceeded_| | |].
      * exists O. by destruct size_limit_exceeded_.
      * cbn. destruct (size_limit_exceeded_ x); [by right|by left].
      * exists [EndElement e]. by destruct size_limit_exceeded_.
    + intros p Hpn. assert (p <> e) by (intros ->; apply Hpn, Ho; left).
      assert (StartElement p ∉ queue_ x ++ [EndElement e])
        by (rewrite elem_of_app, list_elem_of_singleton; naive_solver).
      unfold skip_if_exceeded. destruct size_limit_exceeded_; cbn; by rewrite Hother.
    + intros p q Hpq. assert (exists q', nodes' !! p = Some q' /\ same_node q q') as (q' & Hq' & Hsame).
      { destruct (decide (p = e)) as [->|Hne].
        - eexists. split; [exact He'|]. replace q with el by congruence. by repeat split.
        - exists q. rewrite Hother by done. by repeat split. }
      exists q'. split; [|done]. unfold skip_if_exceeded. by destruct size_limit_exceeded_.
Qed.

(** ** Closing several elements *)

(** The element on top of the stack. *)
Lemma stack_top nodes e info rest : stack_ok nodes ((Some e, info) :: rest) ->
  exists el, nodes !! e = Some el /\ parent_ el = head (ids rest) /\ style_ el <> INVISIBLE /\
    (ns info <> kHtml -> NameIsOneOf (name_str el) kForeignBreakoutEndTags = false) /\ stack_ok nodes rest.
Proof. inversion 1; subst. by eexists. Qed.

Lemma Core_pop sk x e info rest t :
  Core sk x (ids (element_stack_ x)) t -> element_stack_ x = (Some e, info) :: rest ->
  Core sk (set_element_stack rest x) (e :: ids rest) t /\ closes x (set_element_stack rest x).
Proof.
  intros [Hn Hs Hst] E. rewrite E in *. split; [split; cbn; [done..|by apply stack_top in Hst as (? & ? & ? & ? & ? & ?)]|].
  replace rest with (drop 1 (element_stack_ x)) by by rewrite E. apply closes_set_stack.
Qed.

(** Popping the top and closing it. *)
Lemma CloseTop_ok sk x e info rest style t s :
  Core sk x (ids (element_stack_ x)) t -> element_stack_ x = (Some e, info) :: rest ->
  (forall el, nodes_ x !! e = Some el -> closing sk style el s) ->
  exists x', CloseElement e style (set_element_stack rest x) = Some x' /\ Core sk x' (ids (element_stack_ x')) (t ++ s) /\
    closes x x' /\ element_stack_ x' = rest /\ queue_ x' = queue_ x ++ [EndElement e].
Proof.
  intros HC E Hc. destruct (Core_pop _ _ _ _ _ _ HC E) as [HC' Hcl].
  pose proof (core_stack _ _ _ _ HC) as Hst. rewrite E in Hst.
  apply stack_top in Hst as (el & He & Hp & Hi & _ & Hrest).
  destruct (CloseElement_ok sk (set_element_stack rest x) e el style t s) as (x' & Hx' & HC'' & Hcl' & Est & Eq & _);
    [done|done|by rewrite Parent_ids|done|by apply Hc|].
  exists x'. cbn in Est. rewrite Est. split; [done|]. split; [done|]. split; [by etrans|done].
Qed.

Lemma PopForeign_ok sk stack x t :
  element_stack_ x = stack -> Core sk x (ids (element_stack_ x)) t ->
  exists x', PopForeign_loop stack x = Some x' /\ Core sk x' (ids (element_stack_ x')) t /\ closes x x'.
Proof.
  revert x. induction stack as [|[oe current] stack IH]; intros x E HC; cbn.
  { by exists x. }
  destruct stack as [|below rest]; [by exists x|].
  destruct (_ || _); [by exists x|].
  pose proof (core_stack _ _ _ _ HC) as Hst. rewrite E in Hst.
  inversion Hst as [|? e el ? Hrest He Hp Hi Hns]; subst. cbn.
  destruct (CloseTop_ok sk x e current (below :: rest) UNCLOSED t []) as (x1 & -> & HC1 & Hcl1 & Est & _); [done..|].
  cbn [mbind option_bind]. rewrite app_nil_r in HC1. destruct (IH x1) as (x2 & E2 & HC2 & Hcl2); [done|done|].
  exists x2. split; [exact E2|]. split; [done|]. by etrans.
Qed.

Lemma PopElementsDownTo_ok sk k x e t :
  Core sk x (ids (element_stack_ x)) t -> ids (element_stack_ x) !! k = Some e ->
  exists x', PopElementsDownTo k x = Some (x', e) /\ Core sk x' (e :: ids (element_stack_ x')) t /\ closes x x' /\
    exists el, nodes_ x' !! e = Some el /\ parent_ el = Parent x' /\ style_ el <> INVISIBLE.
Proof.
  revert x. induction k as [|k IH]; intros x HC Hk;
    destruct (element_stack_ x) as [|[oe info] rest] eqn:E; [done| |done|];
    cbn [PopElementsDownTo]; rewrite E; pose proof (core_stack _ _ _ _ HC) as Hst; rewrite E in Hst;
    inversion Hst as [|? e' el ? Hrest He Hp Hi Hns]; subst; try done; cbn in Hk |- *; rewrite <- E in HC.
  - injection Hk as ->. destruct (Core_pop _ _ _ _ _ _ HC E) as [HC' Hcl].
    eexists. split; [done|]. split; [exact HC'|]. split; [done|]. exists el.
    rewrite Parent_ids by done. done.
  - destruct (CloseTop_ok sk x e' info rest UNCLOSED t []) as (x1 & -> & HC1 & Hcl1 & Est & _); [done..|].
    cbn. rewrite app_nil_r in HC1. destruct (IH x1) as (x2 & -> & HC2 & Hcl2 & Hel); [done|by rewrite Est|].
    exists x2. split; [done|]. split; [done|]. split; [by etrans|done].
Qed.

(** ** Searching the stack *)

(** The entry [above] further down than the top carries the tag. *)
Definition finds (nodes : list HtmlElement) (stack : list (option nat * OpenElementInfo)) (tag : bytes) (above k : nat) : Prop :=
  exists j e el, k = (above + j)%nat /\ ids stack !! j = Some e /\ nodes !! e = Some el /\ StringCaseEqual (name_str el) tag = true.

Lemma finds_here nodes e info rest el tag above :
  nodes !! e = Some el -> StringCaseEqual (name_str el) tag = true -> finds nodes ((Some e, info) :: rest) tag above above.
Proof. intros He Ht. exists O, e, el. split; [lia|done]. Qed.

Lemma finds_below nodes e info rest tag above k :
  finds nodes rest tag (S above) k -> finds nodes ((Some e, info) :: rest) tag above k.
Proof. intros (j & e' & el & -> & H). exists (S j), e', el. split; [lia|done]. Qed.

(** A search ends without a failure and what it finds carries the tag. *)
Definition searches (nodes : list HtmlElement) (stack : list (option nat * OpenElementInfo)) (tag : bytes) (above : nat)
    (o : option (option nat)) : Prop :=
  exists r, o = Some r /\ forall k, r = Some k -> finds nodes stack tag above k.

Lemma searches_none nodes stack tag above : searches nodes stack tag above (Some None).
Proof. by exists None. Qed.
Lemma searches_here nodes e info rest el tag above :
  nodes !! e = Some el -> StringCaseEqual (name_str el) tag = true ->
  searches nodes ((Some e, info) :: rest) tag above (Some (Some above)).
Proof. intros. exists (Some above). split; [done|]. intros k [= <-]. by eapply finds_here. Qed.
Lemma searches_below nodes e info rest tag above o :
  searches nodes rest tag (S above) o -> searches nodes ((Some e, info) :: rest) tag above o.
Proof. intros (r & -> & H). exists r. split; [done|]. intros k Hk. by apply finds_below, H. Qed.
Lemma searches_if nodes stack tag above (b : bool) o o' :
  searches nodes stack tag above o -> searches nodes stack tag above o' ->
  searches nodes stack tag above (if b then o else o').
Proof. by destruct b. Qed.
#[local] Hint Resolve searches_none searches_here searches_below : core.

Lemma foreign_search_ok nodes tag stack above :
  stack_ok nodes stack -> searches nodes stack tag above (foreign_search nodes tag above stack).
Proof.
  intros Hok. revert above. induction Hok as [|stack e el info Hok IH He Hp Hi Hns]; intros above; [apply searches_none|].
  cbn [foreign_search]. destruct stack as [|[below binfo] rest]; [by apply stack_ok_ne in Hok|]. cbn. rewrite He. cbn.
  destruct (StringCaseEqual _ _) eqn:E; [eauto|]. destruct (_ && _); [eauto|]. apply searches_below, IH.
Qed.

Lemma html_search_ok nodes tag crossed special_crossed stack above :
  stack_ok nodes stack -> searches nodes stack tag above (html_search nodes tag crossed special_crossed above stack).
Proof.
  intros Hok. revert crossed special_crossed above.
  induction Hok as [|stack e el info Hok IH He Hp Hi Hns]; intros crossed special_crossed above; [apply searches_none|].
  destruct stack as [|below rest]; [by apply stack_ok_ne in Hok|].
  cbn [html_search mbind option_bind]. rewrite He. cbn [mbind option_bind]. cbv zeta.
  destruct (StringCaseEqual (name_str el) tag) eqn:E;
    repeat match goal with |- searches _ _ _ _ (if ?b then _ else _) => apply (searches_if _ _ _ _ b) end;
    first [apply searches_none|by eapply searches_here|apply searches_below;
      first [exact (IH true special_crossed (S above))|exact (IH crossed true (S above))|exact (IH crossed special_crossed (S above))]].
Qed.

Lemma StringCaseEqual_sym a b : StringCaseEqual a b = StringCaseEqual b a.
Proof. apply eq_true_iff_eq. by rewrite !StringCaseEqual_Upper. Qed.

Lemma PopElementMatchingTag_ok sk tag x t :
  Core sk x (ids (element_stack_ x)) t ->
  exists x' r, PopElementMatchingTag tag x = Some (x', r) /\ closes x x' /\
    match r with
    | None => Core sk x' (ids (element_stack_ x')) t
    | Some e => Core sk x' (e :: ids (element_stack_ x')) t /\
        exists el, nodes_ x' !! e = Some el /\ parent_ el = Parent x' /\ style_ el <> INVISIBLE /\
          StringCaseEqual tag (name_str el) = true
    end.
Proof.
  intros HC. unfold PopElementMatchingTag.
  assert (exists x1 found, (if InForeignContent x then
       if NameIsOneOf tag kForeignBreakoutEndTags then x ← PopForeignElementsForBreakout x; Some (x, None)
       else found ← foreign_search (nodes_ x) tag 0 (element_stack_ x); Some (x, found)
     else Some (x, None)) = Some (x1, found) /\ Core sk x1 (ids (element_stack_ x1)) t /\ closes x x1 /\
     forall k, found = Some k -> finds (nodes_ x1) (element_stack_ x1) tag 0 k)
    as (x1 & found & -> & HC1 & Hcl1 & Hfound).
  { destruct (InForeignContent x); [|by exists x, None]. destruct (NameIsOneOf _ _).
    - destruct (PopForeign_ok sk (element_stack_ x) x t) as (x1 & E & HC1 & Hcl1); [done..|].
      unfold PopForeignElementsForBreakout. rewrite E. by exists x1, None.
    - destruct (foreign_search_ok (nodes_ x) tag (element_stack_ x) 0) as (r & -> & Hr); [apply HC|]. by exists x, r. }
  cbn [mbind option_bind].
  assert (exists found', match found with
    | Some k => Some (Some k)
    | None => html_search (nodes_ x1) tag false false 0 (element_stack_ x1) end = Some found' /\
    forall k, found' = Some k -> finds (nodes_ x1) (element_stack_ x1) tag 0 k) as (found' & -> & Hfound').
  { destruct found as [k|]; [exists (Some k); split; [done|by intros ? [= <-]; apply Hfound]|].
    apply html_search_ok, HC1. }
  cbn [mbind option_bind]. destruct found' as [k|]; [|by exists x1, None].
  destruct (Hfound' k eq_refl) as (j & e & el & -> & Hj & He & Htag).
  destruct (PopElementsDownTo_ok sk j x1 e t HC1 Hj) as (x2 & E & HC2 & Hcl2 & el' & He' & Hp' & Hi').
  cbn [Nat.add]. rewrite E. cbn [mbind option_bind]. exists x2, (Some e). split; [done|]. split; [by etrans|].
  split; [done|]. exists el'. split; [done|]. split; [done|]. split; [done|].
  destruct (closes_node _ _ Hcl2 e el He) as (el'' & He'' & _ & Hn & _). replace el' with el'' by congruence.
  unfold name_str in *. by rewrite <- Hn, StringCaseEqual_sym.
Qed.

(** ** Events without an end *)

Lemma AddLeaf_ok sk x t ev s :
  Core sk x (ids (element_stack_ x)) t -> leaf_parent ev = Some (Parent x) -> source (nodes_ x) sk ev s ->
  AddEvent ev x = Some (set_queue (queue_ x ++ [ev]) x) /\
  Core sk (set_queue (queue_ x ++ [ev]) x) (ids (element_stack_ x)) (t ++ s) /\ closes x (set_queue (queue_ x ++ [ev]) x).
Proof.
  intros [Hn Hs Hst] Hp Hsrc. split; [|split].
  - unfold AddEvent. replace (node_parent ev x) with (Some (Parent x)) by by destruct ev. cbn.
    by rewrite decide_True.
  - split; cbn; [|by apply sources_snoc|done]. apply nested_leaf; [done|]. by rewrite Hp, Parent_ids.
  - split; [split; [by destruct x|done|by exists O|by left|by exists [ev]]| |].
    + intros p Hnp. split; [done|]. cbn. rewrite elem_of_app, list_elem_of_singleton. intros [?|<-]; done.
    + intros p el H. exists el. by repeat split.
Qed.

Lemma EmitLiteral_ok sk x t :
  Core sk x (ids (element_stack_ x)) t ->
  exists x', EmitLiteral x = Some (set_state START (set_literal [] x')) /\ Core sk x' (ids (element_stack_ x')) (t ++ literal_ x) /\
    closes x x' /\ element_stack_ x' = element_stack_ x /\ nodes_ x' = nodes_ x /\
    queue_ x' = queue_ x ++ match literal_ x with [] => [] | l => [Characters (Parent x) l] end.
Proof.
  intros HC. unfold EmitLiteral. destruct (literal_ x) as [|c l] eqn:E.
  - exists x. rewrite !app_nil_r. split; [|done]. do 2 f_equal. destruct x. cbn in *. by subst.
  - destruct (AddLeaf_ok sk x t (Characters (Parent x) (c :: l)) (c :: l)) as (Ha & HC' & Hcl); [done..|].
    rewrite Ha. eexists. split; [done|]. by split.
Qed.

(** ** End tags *)

Lemma PopElementMatchingTag_top x e info rest el :
  stack_ok (nodes_ x) (element_stack_ x) -> element_stack_ x = (Some e, info) :: rest -> nodes_ x !! e = Some el ->
  StringCaseEqual (token_ x) (name_str el) = true ->
  (ns info <> kHtml -> NameIsOneOf (token_ x) kForeignBreakoutEndTags = false) ->
  PopElementMatchingTag (token_ x) x = Some (set_element_stack rest x, Some e).
Proof.
  intros Hok E He Ht Hns. rewrite StringCaseEqual_sym in Ht. unfold PopElementMatchingTag, InForeignContent, CurrentInfo.
  rewrite E. cbn [fst snd]. rewrite E in Hok. destruct (stack_top _ _ _ _ Hok) as (_ & _ & _ & _ & _ & Hrest).
  destruct rest as [|below rest']; [by apply stack_ok_ne in Hrest|].
  destruct (decide (ns info = kHtml)) as [Hh|Hh].
  - rewrite bool_decide_eq_true_2 by done. cbn [negb mbind option_bind]. rewrite E. cbn [html_search mbind option_bind]. rewrite He. cbn [mbind option_bind].
    rewrite bool_decide_eq_true_2 by done. cbn [negb]. rewrite Ht. cbn [mbind option_bind PopElementsDownTo andb]. by rewrite E.
  - rewrite bool_decide_eq_false_2 by done. cbn [negb]. rewrite Hns by done. cbn [mbind option_bind]. try rewrite E. cbn [foreign_search].
    destruct below as [? ?]. cbn [mbind option_bind]. rewrite He. cbn [mbind option_bind]. rewrite Ht.
    cbn [mbind option_bind PopElementsDownTo]. by rewrite E.
Qed.

Lemma EmitTagClose_top sk x e info rest el style t s :
  Core sk x (ids (element_stack_ x)) t -> element_stack_ x = (Some e, info) :: rest -> nodes_ x !! e = Some el ->
  StringCaseEqual (token_ x) (name_str el) = true ->
  (ns info <> kHtml -> NameIsOneOf (token_ x) kForeignBreakoutEndTags = false) -> closing sk style el s ->
  exists x', EmitTagClose style x = Some (set_state START (set_token [] (set_literal [] x'))) /\
    Core sk x' (ids (element_stack_ x')) (t ++ s) /\ closes x x' /\ element_stack_ x' = rest /\
    queue_ x' = queue_ x ++ [EndElement e].
Proof.
  intros HC E He Ht Hns Hc. unfold EmitTagClose.
  rewrite (PopElementMatchingTag_top x e info rest el) by (done || apply HC). cbn [mbind option_bind].
  change (nodes_ (set_element_stack rest x)) with (nodes_ x). rewrite He. cbn [mbind option_bind].
  change (token_ (set_element_stack rest x)) with (token_ x). rewrite Ht.
  destruct (CloseTop_ok sk x e info rest style t s) as (x' & Ex & HC' & Hcl & Est & Eq); [done|done|by intros ? ?; simplify_eq|].
  rewrite Ex. by exists x'.
Qed.

(** An end tag of the document, whether it closes an element or not. *)
Lemma EmitTagClose_ok sk x t :
  Core sk x (ids (element_stack_ x)) t ->
  (forall el, StringCaseEqual (token_ x) (name_str el) = true -> end_tag el (literal_ x)) ->
  exists x', EmitTagClose EXPLICIT_CLOSE x = Some (set_state START (set_token [] (set_literal [] x'))) /\
    Core sk x' (ids (element_stack_ x')) (t ++ literal_ x) /\ closes x x'.
Proof.
  intros HC Hend. unfold EmitTagClose.
  destruct (PopElementMatchingTag_ok sk (token_ x) x t HC) as (x1 & r & -> & Hcl1 & Hr). cbn [mbind option_bind].
  frame (closes_touches _ _ Hcl1). destruct r as [e|].
  - destruct Hr as (HC1 & el & He & Hp & Hi & Ht). rewrite He. cbn [mbind option_bind].
    replace (token_ x1) with (token_ x) by done. rewrite Ht.
    destruct (CloseElement_ok sk x1 e el EXPLICIT_CLOSE t (literal_ x)) as (x2 & -> & HC2 & Hcl2 & Est & _);
      [done|done|done|done|left; by apply Hend|].
    exists x2. rewrite Est. split; [done|]. split; [done|]. by etrans.
  - destruct (EmitLiteral_ok sk x1 t Hr) as (x2 & -> & HC2 & Hcl2 & _). exists x2.
    replace (literal_ x) with (literal_ x1) by done. split; [done|]. split; [done|]. by etrans.
Qed.
