(* ===== verification/HtmlTags.v ===== *)
(** * Making and opening elements

    The element whose start tag is being read is in the arena but not on the stack; it
    is put there, and its start event in the queue, when the tag ends. *)

From S2P Require Import Prelude StringUtil HtmlKeywords HtmlLexer HtmlEvents HtmlStack.

(** ** The element that is being read *)

(** [e] is an element without a start event, a child of the innermost open element. *)
Record pending (x : HtmlLexer) (e : nat) (el : HtmlElement) : Prop := {
  pending_node : nodes_ x !! e = Some el;
  pending_parent : parent_ el = Parent x;
  pending_style : style_ el <> INVISIBLE;
  pending_fresh : StartElement e ∉ queue_ x;
}.

Lemma Core_nodes sk x t nodes :
  Core sk x (ids (element_stack_ x)) t ->
  (forall p el, StartElement p ∈ queue_ x -> nodes_ x !! p = Some el -> nodes !! p = Some el) ->
  Core sk (set_nodes nodes x) (ids (element_stack_ x)) t.
Proof.
  intros [Hn Hs Hst] H. destruct (nested_open _ _ _ Hn) as (_ & Ho & _).
  assert (Hk : keeps (queue_ x) (nodes_ x) nodes).
  { intros p el Hp He. exists el. split; [by apply H|]. by repeat split. }
  split; cbn; [by eapply nested_keeps|by eapply sources_keeps|].
  apply (stack_ok_nodes _ _ _ Hst). intros p el Hp He Hi. exists el. split; [by apply H, He; apply Ho|done].
Qed.

Lemma Core_modify sk x t e f :
  Core sk x (ids (element_stack_ x)) t -> StartElement e ∉ queue_ x -> Core sk (modify e f x) (ids (element_stack_ x)) t.
Proof.
  intros HC He. apply Core_nodes; [done|]. intros p el Hp Hel. rewrite list_lookup_alter_ne; [done|]. by intros ->.
Qed.

Lemma modify_pending x e el f :
  pending x e el -> parent_ (f el) = parent_ el -> style_ (f el) = style_ el -> pending (modify e f x) e (f el).
Proof.
  intros [He Hp Hs Hf] Hp' Hs'. split; [|by rewrite Hp'|by rewrite Hs'|done].
  unfold modify. cbn. by rewrite list_lookup_alter_eq, He.
Qed.

Lemma modify_touches x e f : touches x (modify e f x).
Proof. pose proof (touches_quiet x (alter f e (nodes_ x)) 0) as H. by destruct x. Qed.

Lemma NewElement_ok sk x t name x' e :
  Core sk x (ids (element_stack_ x)) t -> NewElement (Parent x) name x = (x', e) ->
  Core sk x' (ids (element_stack_ x')) t /\ exists n style, x' = set_nodes n x /\
    pending x' e (mkElement (Parent x) name [] style).
Proof.
  intros HC [= <- <-]. split.
  - apply (Core_nodes _ _ _ _ HC). intros p el _ Hp. apply lookup_app_l_Some, Hp.
  - eexists _, _. split; [done|]. split; cbn; [by rewrite lookup_app_r, Nat.sub_diag by done|done| |].
    + by destruct (IsOptionallyClosedTag _).
    + intros Hin. destruct (nested_known _ _ _ _ (core_nested _ _ _ _ HC) Hin) as [el Hel].
      apply lookup_lt_Some in Hel. lia.
Qed.

(** ** Implied end tags *)

Lemma AutoClose_ok sk stack x e el k t :
  element_stack_ x = stack -> Core sk x (ids (element_stack_ x)) t -> pending x e el ->
  exists x', AutoClose_loop stack e k x = Some x' /\ Core sk x' (ids (element_stack_ x')) t /\ touches x x' /\
    pending x' e (set_parent (Parent x') el).
Proof.
  revert x el. induction stack as [|[oe info] stack IH]; intros x el E HC Hpe.
  { by pose proof (core_stack _ _ _ _ HC) as Hst%stack_ok_ne. }
  assert (Hid : pending x e (set_parent (Parent x) el)).
  { replace (set_parent (Parent x) el) with el; [done|]. rewrite <- (pending_parent _ _ _ Hpe). by destruct el. }
  pose proof (core_stack _ _ _ _ HC) as Hst. rewrite E in Hst.
  destruct oe as [o|]; [|by exists x]. cbn [AutoClose_loop].
  destruct (stack_top _ _ _ _ Hst) as (open & Ho & _ & _ & _ & Hrest). rewrite Ho. cbn [mbind option_bind].
  destruct (IsAutoClose _ _); [|by exists x].
  destruct (CloseTop_ok sk x o info stack AUTO_CLOSE t []) as (x1 & -> & HC1 & Hcl1 & Est & Eq); [done..|].
  cbn [mbind option_bind]. rewrite app_nil_r in HC1.
  destruct Hpe as [He Hp Hs Hf]. destruct (closes_fresh _ _ Hcl1 e Hf) as [He1 Hf1]. rewrite He1, He. cbn [mbind option_bind].
  rewrite decide_True; [|rewrite Hp; unfold Parent; by rewrite E].
  set (x2 := modify e (set_parent (Parent x1)) x1).
  destruct (IH x2 (set_parent (Parent x1) el)) as (x3 & -> & HC3 & Hto & Hpe3); [done|exact (Core_modify _ _ _ _ _ HC1 Hf1)| |].
  { split; [unfold x2, modify; cbn; by rewrite list_lookup_alter_eq, He1, He|done..]. }
  exists x3. split; [done|]. split; [done|]. split; [|done].
  etrans; [by apply closes_touches|]. etrans; [|exact Hto]. apply modify_touches.
Qed.

(** ** Names *)

Lemma Lower_Upper c : LowerChar (UpperChar c) = LowerChar c.
Proof. by destruct c as [[] [] [] [] [] [] [] []]. Qed.
Lemma Upper_Lower c : UpperChar (LowerChar c) = UpperChar c.
Proof. by destruct c as [[] [] [] [] [] [] [] []]. Qed.

Lemma StringCaseEqual_Lower s1 s2 : StringCaseEqual s1 s2 = true <-> LowerString s1 = LowerString s2.
Proof.
  assert (Hl : forall s, LowerString (UpperString s) = LowerString s).
  { intros s. unfold LowerString, UpperString. rewrite map_map. apply map_ext, Lower_Upper. }
  assert (Hu : forall s, UpperString (LowerString s) = UpperString s).
  { intros s. unfold LowerString, UpperString. rewrite map_map. apply map_ext, Upper_Lower. }
  rewrite StringCaseEqual_Upper. split; intros H.
  - by rewrite <- (Hl s1), H, Hl.
  - by rewrite <- (Hu s1), H, Hu.
Qed.

Lemma StringCaseEqual_refl s : StringCaseEqual s s = true.
Proof. by apply StringCaseEqual_Lower. Qed.

Lemma LowerString_length s : length (LowerString s) = length s.
Proof. apply length_map. Qed.

Lemma NameIsOneOf_case a b names : StringCaseEqual a b = true -> NameIsOneOf a names = NameIsOneOf b names.
Proof.
  intros H%StringCaseEqual_Lower. unfold NameIsOneOf. rewrite <- (LowerString_length a), H, LowerString_length. done.
Qed.

(** Tags that end foreign content at their end also do at their start. *)
Lemma breakout_end_start name :
  NameIsOneOf name kForeignBreakoutEndTags = true -> NameIsOneOf name kForeignBreakoutStartTags = true.
Proof.
  unfold NameIsOneOf. rewrite !andb_true_iff, !bool_decide_eq_true. intros [Hl Hn]. split; [done|].
  revert Hn. generalize (c_str (LowerString name)). intros n Hn.
  assert (Forall (fun n => n ∈ kForeignBreakoutStartTags) kForeignBreakoutEndTags) as Hall.
  { match goal with |- ?P => apply (bool_decide_eq_true_1 P); vm_compute; reflexivity end. }
  by eapply Forall_forall in Hall.
Qed.

(** ** Opening an element *)

(** The literal element on top of the stack and its end tag. *)
Definition literal_top (x : HtmlLexer) : Prop :=
  exists e info rest el, element_stack_ x = (Some e, info) :: rest /\ nodes_ x !! e = Some el /\ ns info = kHtml /\
    IsLiteralTag (keyword el) = true /\ name_ el = MakeName (name_str el) /\ name_str el <> [] /\
    literal_close_ x = lit "</" ++ name_str el ++ lit ">" /\ (state_ x = SCRIPT_TAG -> keyword el = Some (lit "script")).

Definition opened (x : HtmlLexer) : Prop :=
  state_ x = START \/ (state_ x = LITERAL_TAG \/ state_ x = SCRIPT_TAG) /\ literal_top x.

(** The depth of the stack is limited: an element that reaches the limit is the last.
    Nothing is skipped but for the size limit or the depth. *)
Definition within (x : HtmlLexer) : Prop := skip_parsing_ x = true -> size_limit_exceeded_ x = true \/ reaches_limit (queue_ x).
Definition depth_ok (x : HtmlLexer) : Prop :=
  (length (element_stack_ x) <= if skip_parsing_ x then S kMaxNestingDepth else kMaxNestingDepth)%nat /\ within x.

(** There is room for one more element. *)
Definition Room (x : HtmlLexer) : Prop := (length (element_stack_ x) <= kMaxNestingDepth)%nat /\ within x.

Lemma touches_within x x' : touches x x' -> within x -> within x'.
Proof.
  intros Ht Hw Hs. destruct (touches_queue _ _ Ht) as [evs ->].
  pose proof (touches_eq _ _ Ht) as E%(f_equal size_limit_exceeded_). cbn in E. rewrite E.
  destruct (touches_reason _ _ Ht Hs) as [H|H]; [|by left]. destruct (Hw H) as [?|?]; [by left|right; by apply reaches_limit_app].
Qed.

Lemma touches_depth x x' : touches x x' -> depth_ok x -> depth_ok x'.
Proof.
  intros Ht [Hl Hw]. split; [|by eapply touches_within]. destruct (touches_stack _ _ Ht) as [k ->]. rewrite length_drop.
  pose proof (touches_skip _ _ Ht). destruct (skip_parsing_ x), (skip_parsing_ x'); intros; lia.
Qed.
Lemma touches_Room x x' : touches x x' -> Room x -> Room x'.
Proof.
  intros Ht [Hl Hw]. split; [|by eapply touches_within]. destruct (touches_stack _ _ Ht) as [k ->]. rewrite length_drop. lia.
Qed.
Lemma Room_depth x : Room x -> depth_ok x.
Proof. intros [Hl Hw]. split; [|done]. destruct (skip_parsing_ x); lia. Qed.

(** The stack has a sentinel below the open elements. *)
Lemma Core_nesting sk x t : Core sk x (ids (element_stack_ x)) t -> length (element_stack_ x) = S (nesting (queue_ x)).
Proof.
  intros [Hn _ Hst]. rewrite (nested_nesting _ _ _ Hn). clear Hn.
  induction Hst as [|stack e el info Hok IH]; [done|]. cbn. by rewrite IH.
Qed.

(** What opening an element leaves alone. *)
Record opens (x x' : HtmlLexer) : Prop := {
  opens_token : token_ x' = [];
  opens_literal : literal_ x' = [];
  opens_element : element_ x' = None;
  opens_attr_name : attr_name_ x' = attr_name_ x;
  opens_attr_value : attr_value_ x' = attr_value_ x;
  opens_attr_quote : attr_quote_ x' = attr_quote_ x;
  opens_has_attr_value : has_attr_value_ x' = has_attr_value_ x;
  opens_discard : discard_until_start_state_for_error_recovery_ x' = discard_until_start_state_for_error_recovery_ x;
  opens_depth : Room x -> depth_ok x';
}.

(** The first steps of [EmitTagOpen]: the namespace of the element. *)
Lemma breakout_ok sk x t e el :
  Core sk x (ids (element_stack_ x)) t -> pending x e el ->
  exists html_rules x1,
    (if negb (StartTagUsesHtmlRules el x) && IsForeignBreakoutStartTag el then
       x ← PopForeignElementsForBreakout x; Some (true, modify e (set_parent (Parent x)) x)
     else Some (StartTagUsesHtmlRules el x, x)) = Some (html_rules, x1) /\
    Core sk x1 (ids (element_stack_ x1)) t /\ touches x x1 /\ pending x1 e (set_parent (Parent x1) el) /\
    (html_rules = false -> NameIsOneOf (name_str el) kForeignBreakoutEndTags = false).
Proof.
  intros HC Hpe. destruct (negb _ && _) eqn:Eb.
  - destruct (PopForeign_ok sk (element_stack_ x) x t) as (x1 & E & HC1 & Hcl1); [done..|].
    unfold PopForeignElementsForBreakout. rewrite E. cbn [mbind option_bind].
    destruct Hpe as [He Hp Hs Hf]. destruct (closes_fresh _ _ Hcl1 e Hf) as [He1 Hf1].
    eexists _, _. split; [done|]. split; [exact (Core_modify _ _ _ _ _ HC1 Hf1)|].
    split; [etrans; [by apply closes_touches|apply modify_touches]|]. split; [|done].
    split; [unfold modify; cbn; by rewrite list_lookup_alter_eq, He1, He|done..].
  - exists (StartTagUsesHtmlRules el x), x. split; [done|]. split; [done|]. split; [done|]. split.
    + replace (set_parent (Parent x) el) with el; [done|]. rewrite <- (pending_parent _ _ _ Hpe). by destruct el.
    + intros Hr. rewrite Hr in Eb. cbn in Eb. destruct (NameIsOneOf _ _) eqn:En; [|done].
      apply breakout_end_start in En. unfold IsForeignBreakoutStartTag in Eb. by rewrite En in Eb.
Qed.

(** The element gets its start event and its place on the stack. *)
Lemma push_ok sk x t e el info s :
  Core sk x (ids (element_stack_ x)) t -> pending x e el -> start_tag (name_str el) (attributes_ el) s ->
  (ns info <> kHtml -> NameIsOneOf (name_str el) kForeignBreakoutEndTags = false) ->
  exists x1, AddEvent (StartElement e) x = Some x1 /\ x1 = set_queue (queue_ x ++ [StartElement e]) x /\
    forall x2, nodes_ x2 = nodes_ x1 -> queue_ x2 = queue_ x1 -> element_stack_ x2 = (Some e, info) :: element_stack_ x1 ->
      Core sk x2 (ids (element_stack_ x2)) (t ++ s).
Proof.
  intros [Hn Hs Hst] [He Hp Hi Hf] Hsrc Hns. eexists. split; [|split; [done|]].
  - unfold AddEvent, node_parent. rewrite He. cbn. by rewrite decide_True.
  - intros x2 En Eq Est. cbn in *. rewrite Parent_ids in Hp by done.
    split; rewrite ?En, ?Eq, ?Est; cbn.
    + by eapply nested_start.
    + apply sources_snoc; [done|]. by exists el.
    + by eapply stack_push.
Qed.

Lemma MakeOpenElementInfo_ns el n : ns (MakeOpenElementInfo el n) = n.
Proof. by destruct n. Qed.

Lemma open_element_ok sk x t e el p n b s :
  Core sk x (ids (element_stack_ x)) t -> pending x e (set_parent p el) -> token_ x = [] ->
  start_tag (name_str el) (attributes_ el) s ->
  (n <> kHtml -> NameIsOneOf (name_str el) kForeignBreakoutEndTags = false) ->
  match n with kHtml => name_ el = MakeName (name_str el) | _ => keyword el = None end ->
  exists x', open_element b e el n x = Some x' /\ Core sk x' (ids (element_stack_ x')) (t ++ s) /\ opened x' /\
    opens x x' /\ (b = false -> exists info rest, element_stack_ x' = (Some e, info) :: rest).
Proof.
  intros HC Hpe Htok Hsrc Hns Hname. set (info := MakeOpenElementInfo el n).
  assert (HC0 : Core sk (set_literal [] x) (ids (element_stack_ (set_literal [] x))) t) by by destruct HC.
  assert (Hpe0 : pending (set_literal [] x) e (set_parent p el)) by by destruct Hpe.
  destruct (push_ok sk (set_literal [] x) t e _ info s HC0 Hpe0 Hsrc) as (x1 & Ha & Ex1 & Hpush);
    [by unfold info; rewrite MakeOpenElementInfo_ns|].
  unfold open_element. rewrite Ha. cbn [mbind option_bind]. unfold push_open. cbv zeta. fold info.
  set (x2 := skip_if_exceeded x1).
  set (x3 := if (kMaxNestingDepth <=? _)%nat then _ else _).
  set (x4 := set_element_stack _ x3).
  set (x5 := if IsLiteralTag _ then _ else _).
  assert (E3 : exists k, x3 = set_skip_parsing k x1 /\ ((kMaxNestingDepth <=? length (element_stack_ x1))%nat = true -> k = true) /\
    (k = true -> skip_parsing_ x1 = true \/ size_limit_exceeded_ x1 = true \/ (kMaxNestingDepth <=? length (element_stack_ x1))%nat = true)).
  { assert (exists k, x2 = set_skip_parsing k x1 /\ (k = true -> skip_parsing_ x1 = true \/ size_limit_exceeded_ x1 = true)) as (k & E2 & Hk).
    { unfold x2, skip_if_exceeded. destruct size_limit_exceeded_; [exists true; auto|]. exists (skip_parsing_ x1).
      split; [by destruct x1|by left]. }
    unfold x3. rewrite E2. change (element_stack_ (set_skip_parsing k x1)) with (element_stack_ x1).
    destruct (kMaxNestingDepth <=? length (element_stack_ x1))%nat; [exists true|exists k]; (split; [done|]); split; naive_solver. }
  destruct E3 as (k & E3 & Hk & Hk').
  assert (H5 : nodes_ x5 = nodes_ x1 /\ queue_ x5 = queue_ x1 /\ element_stack_ x5 = (Some e, info) :: element_stack_ x1)
    by (unfold x5, x4; rewrite E3; by destruct (IsLiteralTag _)).
  destruct H5 as (En5 & Eq5 & Est5).
  assert (HC5 : Core sk x5 (ids (element_stack_ x5)) (t ++ s)) by by apply Hpush.
  assert (Ho5 : opens x (set_element None x5)).
  { unfold x5, x4. rewrite E3. split; try (destruct (IsLiteralTag _); subst x1; cbn; done).
    intros [Hd Hw]. assert (length (element_stack_ x1) = length (element_stack_ x)) as El by by subst x1.
    assert (Hgoal : depth_ok (set_element_stack ((Some e, info) :: element_stack_ x1) (set_skip_parsing k x1)));
      [|destruct (IsLiteralTag _); exact Hgoal].
    split.
    - cbn. destruct (Nat.leb_spec kMaxNestingDepth (length (element_stack_ x1))); [rewrite (Hk eq_refl); lia|destruct k; lia].
    - intros Hsk. cbn in Hsk. pose proof (Core_nesting _ _ _ HC) as Hc.
      change (size_limit_exceeded_ x1 = true \/ reaches_limit (queue_ x1)).
      destruct (Hk' Hsk) as [H|[H|H%Nat.leb_le]]; [|by left|right].
      + assert (skip_parsing_ x = true) as H' by by subst x1. destruct (Hw H') as [?|?]; [left; by subst x1|right].
        subst x1. by apply reaches_limit_app.
      + exists (queue_ x1), []. split; [by rewrite app_nil_r|]. subst x1. cbn [queue_ set_queue set_literal]. unfold nesting in *.
        rewrite foldl_app. cbn. lia. }
  assert (He5 : nodes_ x5 !! e = Some (set_parent p el)) by (rewrite En5; subst x1; apply Hpe).
  assert (Hop : opened (set_element None x5)).
  { unfold opened, literal_top. change (element_stack_ (set_element None x5)) with (element_stack_ x5). rewrite Est5.
    change (nodes_ (set_element None x5)) with (nodes_ x5). unfold x5. destruct (IsLiteralTag (keyword el)) eqn:El; [|by left].
    assert (n = kHtml) as -> by (destruct n; [done|by rewrite Hname in El..]).
    right. split; [cbn; case_bool_decide; [by right|by left]|]. eexists e, info, _, _. split; [done|]. split; [exact He5|].
    split; [done|]. split; [done|]. split; [done|]. split; [intros E0; destruct Hsrc as [Htn _]; change (name_str el = []) in E0; by rewrite E0 in Htn|]. split; [done|].
    cbn. by case_bool_decide. }
  clearbody x5. clear Ha Hpush HC HC0 Hpe Hpe0 x2 x3 x4 E3. destruct (b && IsImplicitlyClosedTag _) eqn:Eb.
  - destruct (EmitTagClose_top sk (set_token (name_str el) x5) e info (element_stack_ x1) (set_parent p el) IMPLICIT_CLOSE
      (t ++ s) []) as (x6 & -> & HC6 & Hcl & _); [by destruct HC5|done|done|by apply StringCaseEqual_refl|
      by unfold info; rewrite MakeOpenElementInfo_ns|done|].
    cbn [mbind option_bind]. rewrite app_nil_r in HC6. eexists. split; [done|]. split; [by destruct HC6|].
    split; [by left|]. split; [|by intros ->].
    pose proof (touches_depth _ _ (closes_touches _ _ Hcl)) as Hd. frame (closes_touches _ _ Hcl).
    destruct Ho5 as [? ? ? ? ? ? ? ? Hd5]. cbn in *.
    split; cbn; try done; try congruence. intros Hdx. apply Hd. exact (Hd5 Hdx).
  - cbn [mbind option_bind]. eexists. split; [done|]. split; [by destruct HC5|]. split; [done|]. split; [done|eauto].
Qed.

Lemma EmitTagOpen_ok sk x t e el b s :
  Core sk x (ids (element_stack_ x)) t -> pending x e el -> element_ x = Some e -> token_ x = [] ->
  discard_until_start_state_for_error_recovery_ x = false -> name_ el = MakeName (name_str el) ->
  start_tag (name_str el) (attributes_ el) s ->
  exists x', EmitTagOpen b x = Some x' /\ Core sk x' (ids (element_stack_ x')) (t ++ s) /\ opened x' /\
    opens x x' /\ (b = false -> exists e info rest, element_stack_ x' = (Some e, info) :: rest).
Proof.
  intros HC Hpe Hel Htok Hdis Hname Hsrc. unfold EmitTagOpen. rewrite Hdis, Hel. cbn [mbind option_bind].
  rewrite (pending_node _ _ _ Hpe). cbn [mbind option_bind]. rewrite bool_decide_eq_true_2 by done. cbn [negb]. cbv zeta.
  destruct (breakout_ok sk x t e el HC Hpe) as (html_rules & x1 & -> & HC1 & Ht1 & Hpe1 & Hr). cbn [mbind option_bind].
  set (n := element_namespace html_rules el x1).
  set (x2 := match n with kHtml => x1 | _ => _ end).
  set (el1 := set_parent (Parent x1) el) in *.
  set (el2 := match n with kHtml => el1 | _ => set_name (MakeKeywordlessName (name_str el)) el1 end).
  assert (Hn : n <> kHtml -> NameIsOneOf (name_str el) kForeignBreakoutEndTags = false).
  { unfold n, element_namespace. destruct html_rules; cbn [negb]; [|intros _; by apply Hr].
    destruct (StringCaseEqual _ (lit "svg")) eqn:E; [intros _; rewrite (NameIsOneOf_case _ _ _ E); by vm_compute|].
    destruct (StringCaseEqual _ (lit "math")) eqn:E'; [intros _; rewrite (NameIsOneOf_case _ _ _ E'); by vm_compute|done]. }
  assert (HC2 : Core sk x2 (ids (element_stack_ x2)) t).
  { unfold x2. destruct n; [done|exact (Core_modify _ _ _ _ _ HC1 (pending_fresh _ _ _ Hpe1))..]. }
  assert (Hpe2 : pending x2 e el2).
  { unfold x2, el2. destruct n; [done|by apply modify_pending..]. }
  assert (Ht2 : touches x x2).
  { etrans; [exact Ht1|]. unfold x2. destruct n; [done|apply modify_touches..]. }
  rewrite (pending_node _ _ _ Hpe2). cbn [mbind option_bind].
  assert (exists x3, (if html_rules then AutoClose_loop (element_stack_ x2) e (keyword el2) x2 else Some x2) = Some x3 /\
    Core sk x3 (ids (element_stack_ x3)) t /\ touches x2 x3 /\ pending x3 e (set_parent (Parent x3) el2))
    as (x3 & -> & HC3 & Ht3 & Hpe3).
  { destruct html_rules; [by apply AutoClose_ok|]. exists x2. split; [done|]. split; [done|]. split; [done|].
    replace (set_parent (Parent x2) el2) with el2; [done|]. rewrite <- (pending_parent _ _ _ Hpe2). by destruct el2. }
  cbn [mbind option_bind]. assert (Ht : touches x x3) by by etrans.
  assert (Hsame : name_str el2 = name_str el /\ attributes_ el2 = attributes_ el) by (unfold el2; by destruct n).
  destruct Hsame as [Hns Hattrs].
  destruct (open_element_ok sk x3 t e el2 (Parent x3) n b s) as (x' & Ex & HC' & Hop & Hopens & Hb); try done.
  - frame Ht. congruence.
  - by rewrite Hns, Hattrs.
  - by rewrite Hns.
  - unfold el2. by destruct n.
  - exists x'. split; [exact Ex|]. split; [done|]. split; [done|]. split; [|intros Hb'; destruct (Hb Hb') as (? & ? & ?); eauto].
    frame Ht. destruct Hopens. split; try congruence.
    intros Hdx. apply opens_depth0. by eapply touches_Room.
Qed.
