(* ===== verification/HtmlLexerInv.v ===== *)
(** * The HTML lexer: its invariant

    In each state the buffers fit the text that has been read but is not yet in an event,
    [literal_]. *)

From S2P Require Import Prelude StringUtil HtmlKeywords HtmlLexer HtmlEvents HtmlStack HtmlTags.

(** ** Inside a start tag

    [p] is the part of [literal_] that is neither in the name nor in an attribute that has
    been added, [b] whether an attribute can begin after what comes before. After the end
    tag of a literal element the same states read what is thrown away, which becomes part
    of that end tag. *)

Definition clean (x : HtmlLexer) : Prop :=
  attr_name_ x = [] /\ attr_value_ x = [] /\ attr_quote_ x = NO_QUOTE /\ has_attr_value_ x = false.
Definition quiet (x : HtmlLexer) : Prop := token_ x = [] /\ element_ x = None.

Definition pending_tag (x : HtmlLexer) (nm : bytes) (attrs : list Attribute) : Prop :=
  match element_ x with
  | Some e => token_ x = [] /\ exists el, pending x e el /\ name_ el = MakeName nm /\ attributes_ el = attrs
  | None => token_ x = nm /\ attrs = [] /\ attr_name_ x = []
  end.

Definition Reading (t : bytes) (x : HtmlLexer) (b : bool) (p : bytes) : Prop :=
  if discard_until_start_state_for_error_recovery_ x then
    quiet x /\ (exists g, literal_ x = g ++ p) /\ forall s, sources (nodes_ x) false (queue_ x) (t ++ s)
  else
    exists nm attrs body, literal_ x = ["<"%char] ++ nm ++ body ++ p /\ tag_name nm /\ tag_body b attrs body /\
      pending_tag x nm attrs.

(** The part [p] in each state. *)
Definition pend (x : HtmlLexer) (p : bytes) : Prop :=
  match state_ x with
  | TAG_ATTR_NAME => p = attr_name_ x
  | TAG_ATTR_NAME_SPACE => exists w, spaces w /\ w <> [] /\ p = attr_name_ x ++ w
  | TAG_BRIEF_CLOSE => attr_name_ x = [] /\ p = [] \/ exists w, spaces w /\ p = attr_name_ x ++ w ++ ["/"%char]
  | TAG_ATTR_EQ => exists w1 w2, spaces w1 /\ spaces w2 /\ p = attr_name_ x ++ w1 ++ ["="%char] ++ w2
  | TAG_ATTR_VAL | TAG_ATTR_VALDQ | TAG_ATTR_VALSQ => exists w1 w2, spaces w1 /\ spaces w2 /\
      p = attr_name_ x ++ w1 ++ ["="%char] ++ w2 ++ quote_of (attr_quote_ x) ++ attr_value_ x
  | _ => p = []
  end.

(** The attribute that is being read. *)
Definition attr_bufs (x : HtmlLexer) : Prop :=
  match state_ x with
  | TAG_ATTR_NAME | TAG_ATTR_NAME_SPACE =>
      attribute_name (attr_name_ x) /\ attr_value_ x = [] /\ attr_quote_ x = NO_QUOTE /\ has_attr_value_ x = false
  | TAG_BRIEF_CLOSE =>
      (attr_name_ x = [] \/ attribute_name (attr_name_ x)) /\ attr_value_ x = [] /\ attr_quote_ x = NO_QUOTE /\
      has_attr_value_ x = false
  | TAG_ATTR_EQ => attribute_name (attr_name_ x) /\ attr_value_ x = [] /\ attr_quote_ x = NO_QUOTE /\ has_attr_value_ x = true
  | TAG_ATTR_VAL => attribute_name (attr_name_ x) /\ attribute_value NO_QUOTE (attr_value_ x) /\ attr_value_ x <> [] /\
      attr_quote_ x = NO_QUOTE /\ has_attr_value_ x = true
  | TAG_ATTR_VALDQ => attribute_name (attr_name_ x) /\ attribute_value DOUBLE_QUOTE (attr_value_ x) /\
      attr_quote_ x = DOUBLE_QUOTE /\ has_attr_value_ x = true
  | TAG_ATTR_VALSQ => attribute_name (attr_name_ x) /\ attribute_value SINGLE_QUOTE (attr_value_ x) /\
      attr_quote_ x = SINGLE_QUOTE /\ has_attr_value_ x = true
  | _ => clean x
  end.

(** ** All states *)

Definition token_after (x : HtmlLexer) (prefix suffix : bytes) : Prop :=
  element_ x = None /\ literal_ x = prefix ++ token_ x ++ suffix.

Definition shape (t : bytes) (x : HtmlLexer) : Prop :=
  match state_ x with
  | START | BOGUS_COMMENT => quiet x
  | TAG => quiet x /\ literal_ x = lit "<"
  | TAG_CLOSE_NO_NAME => quiet x /\ literal_ x = lit "</"
  | TAG_CLOSE => token_ x <> [] /\ token_after x (lit "</") []
  | TAG_CLOSE_TERMINATE => token_ x <> [] /\ exists w, spaces w /\ token_after x (lit "</") w
  | TAG_OPEN => discard_until_start_state_for_error_recovery_ x = false /\ tag_name (token_ x) /\ token_after x (lit "<") []
  | COMMENT_START1 => quiet x /\ literal_ x = lit "<!"
  | COMMENT_START2 => quiet x /\ literal_ x = lit "<!-"
  | COMMENT_BODY => token_after x (lit "<!--") []
  | COMMENT_END1 => token_after x (lit "<!--") (lit "-")
  | COMMENT_END2 => token_after x (lit "<!--") (lit "--")
  | CDATA_START1 => quiet x /\ literal_ x = lit "<!["
  | CDATA_START2 => quiet x /\ literal_ x = lit "<![C"
  | CDATA_START3 => quiet x /\ literal_ x = lit "<![CD"
  | CDATA_START4 => quiet x /\ literal_ x = lit "<![CDA"
  | CDATA_START5 => quiet x /\ literal_ x = lit "<![CDAT"
  | CDATA_START6 => quiet x /\ literal_ x = lit "<![CDATA"
  | CDATA_BODY => token_after x (lit "<![CDATA[") []
  | CDATA_END1 => token_after x (lit "<![CDATA[") (lit "]")
  | CDATA_END2 => token_after x (lit "<![CDATA[") (lit "]]")
  | DIRECTIVE => token_after x (lit "<!") []
  | LITERAL_TAG | SCRIPT_TAG => quiet x /\ literal_top x
  | TAG_BRIEF_CLOSE | TAG_ATTRIBUTE | TAG_ATTR_NAME | TAG_ATTR_NAME_SPACE | TAG_ATTR_EQ
  | TAG_ATTR_VAL | TAG_ATTR_VALDQ | TAG_ATTR_VALSQ => exists p, Reading t x true p /\ pend x p
  end.

(** [t] is the text of the events. *)
Record Inv (t : bytes) (x : HtmlLexer) : Prop := {
  Inv_core : Core false x (ids (element_stack_ x)) t;
  Inv_bufs : attr_bufs x;
  Inv_shape : shape t x;
  Inv_depth : depth_ok x;
}.

(** A step ends, and moves a part of [literal_] to the events. *)
Definition steps (t L : bytes) (o : option HtmlLexer) : Prop :=
  exists x' s, o = Some x' /\ Inv (t ++ s) x' /\ L = s ++ literal_ x'.

Lemma steps_stay t x : Inv t x -> steps t (literal_ x) (Some x).
Proof. intros H. exists x, []. by rewrite app_nil_r. Qed.

Lemma steps_app t s L o : steps (t ++ s) L o -> steps t (s ++ L) o.
Proof. intros (x' & s' & -> & HI & ->). exists x', (s ++ s'). by rewrite <- !app_assoc in *. Qed.

(** Before a step that does not start from a tag. *)
Record Ready (t : bytes) (x : HtmlLexer) : Prop := {
  Ready_core : Core false x (ids (element_stack_ x)) t;
  Ready_clean : clean x;
  Ready_room : Room x;
}.

Lemma Ready_closes t t' x x' : Ready t x -> closes x x' -> Core false x' (ids (element_stack_ x')) t' -> Ready t' x'.
Proof.
  intros [_ (? & ? & ? & ?) Hr] Hcl HC. split; [done| |by eapply touches_Room; [apply closes_touches|]].
  frame (closes_touches _ _ Hcl). unfold clean. repeat split; congruence.
Qed.

(** Steps that stay in the text. *)
Lemma stay_steps t x : Ready t x -> attr_bufs x -> shape t x -> steps t (literal_ x) (Some x).
Proof. intros [HC _ Hr] Hb Hs. apply steps_stay. split; [done..|by apply Room_depth]. Qed.

Lemma chop_literal_eq x L M : literal_ x = L ++ M -> chop_literal (length M) x = Some (set_literal L x).
Proof.
  intros E. unfold chop_literal. rewrite E, length_app.
  destruct (Nat.ltb_spec (length L + length M) (length M)); [lia|]. by rewrite Nat.add_sub, take_app_length.
Qed.

Lemma EvalStart_ok t L c x : Ready t x -> quiet x -> literal_ x = L ++ [c] -> steps t (literal_ x) (EvalStart c x).
Proof.
  intros HR Hq HL. unfold EvalStart. case_bool_decide as Hc.
  - subst c. change 1%nat with (length ["<"%char]). rewrite (chop_literal_eq x L) by done. cbn [mbind option_bind]. rewrite HL.
    destruct HR as [HC Hcl Hr]. assert (HR' : Ready t (set_literal L x)) by by destruct HC.
    destruct (EmitLiteral_ok false (set_literal L x) t) as (x' & -> & HC' & Hclo & Est & En & _); [by destruct HC|].
    cbn [mbind option_bind]. cbn [literal_ set_literal] in HC'.
    destruct (Ready_closes _ _ _ _ HR' Hclo HC') as [_ Hcl' Hr'].
    eexists _, L. split; [done|]. split; [|done].
    destruct Hq as [Hq1 Hq2]. frame (closes_touches _ _ Hclo).
    split; cbn; [by destruct HC'|done| |by apply Room_depth]. by split; [split; cbn; congruence|].
  - apply (stay_steps t (set_state START x)); [by destruct HR as [[] ? ?]|by destruct HR|done].
Qed.

(** A step that only moves to another state of the text. *)
Ltac stay :=
  match goal with
  | HR : Ready ?t _ |- steps ?t _ (Some ?y) =>
      apply (stay_steps t y); [by destruct HR as [[? ? ?] ? ?]|by destruct HR as [? [? ?] ?]|unfold shape, token_after, quiet in *; cbn]
  end.

Ltac stay_in Hs :=
  match goal with
  | HR : Ready ?t _ |- steps ?t _ (Some ?y) =>
      apply (stay_steps t y); [by destruct HR as [[? ? ?] ? ?]|unfold attr_bufs; cbn; rewrite Hs; by destruct HR|
        unfold shape, token_after, quiet in *; cbn; rewrite Hs]
  end.

Lemma Restart_ok t L c x : Ready t x -> quiet x -> literal_ x = L ++ [c] -> steps t (literal_ x) (Restart c x).
Proof.
  intros HR Hq HL. unfold Restart. rewrite HL. rewrite bool_decide_eq_false_2 by by destruct L.
  rewrite last_snoc, bool_decide_eq_true_2 by done.
  change 1%nat with (length [c]). rewrite (chop_literal_eq x L) by done. cbn [mbind option_bind].
  assert (HR' : Ready t (set_literal L x)) by by destruct HR as [[] ? ?].
  destruct (EmitLiteral_ok false (set_literal L x) t) as (x' & -> & HC' & Hclo & Est & En & _); [apply HR'|].
  cbn [mbind option_bind]. cbn [literal_ set_literal] in HC'.
  pose proof (Ready_closes _ _ _ _ HR' Hclo HC') as HR1. apply steps_app. destruct Hq as [Hq1 Hq2].
  apply (EvalStart_ok (t ++ L) [] c (append_literal c (set_state START (set_literal [] x')))).
  - by destruct HR1 as [[] ? ?].
  - frame (closes_touches _ _ Hclo). split; cbn; congruence.
  - done.
Qed.

Lemma EvalTag_ok t c x : Ready t x -> quiet x -> literal_ x = lit "<" ++ [c] -> steps t (literal_ x) (EvalTag c x).
Proof.
  intros HR Hq HL. unfold EvalTag. case_bool_decide as Hc; [subst; by stay|].
  destruct (IsLegalTagFirstChar c) eqn:E; [stay; destruct Hq as [-> ?]; split; [done|]; by repeat split|].
  case_bool_decide; [subst; by stay|]. case_bool_decide; [by stay|]. by apply (EvalStart_ok _ (lit "<")).
Qed.

Lemma EvalTagCloseNoName_ok t c x :
  Ready t x -> quiet x -> literal_ x = lit "</" ++ [c] -> steps t (literal_ x) (EvalTagCloseNoName c x).
Proof.
  intros HR Hq HL. unfold EvalTagCloseNoName. destruct (IsLegalTagChar c) eqn:E.
  { stay. by destruct Hq as [-> ?]. }
  case_bool_decide; [|by stay].
  apply (EvalStart_ok t (lit "</") c (set_token [] x)); [by destruct HR as [[] ? ?]|by destruct Hq|done].
Qed.

Lemma EvalTagClose_ok t c x w :
  Ready t x -> token_ x <> [] -> element_ x = None -> (state_ x = TAG_CLOSE /\ w = [] \/ state_ x = TAG_CLOSE_TERMINATE) ->
  spaces w -> literal_ x = lit "</" ++ token_ x ++ w ++ [c] -> steps t (literal_ x) (EvalTagClose c x).
Proof.
  intros HR Htok Hel Hst Hw HL. unfold EvalTagClose. destruct (negb _ && _) eqn:E.
  { apply andb_true_iff in E as [E _]. apply negb_true_iff, bool_decide_eq_false in E.
    destruct Hst as [[Hs ->]|Hs]; [|done]. stay_in Hs. split; [by destruct (token_ x)|]. split; [done|].
    rewrite HL. cbn. by rewrite app_nil_r. }
  destruct (IsHtmlSpace c) eqn:Es.
  { rewrite bool_decide_eq_false_2 by done. stay. split; [done|]. exists (w ++ [c]).
    split; [apply Forall_app; split; [done|by constructor]|done]. }
  clear E. case_bool_decide as Hc.
  - subst c. destruct (EmitTagClose_ok false x t) as (x' & -> & HC & Hcl); [apply HR| |].
    { intros el Ht. exists (token_ x), (w ++ [">"%char]). rewrite HL. split; [done|]. split; [done|]. left. by exists w. }
    destruct (Ready_closes _ _ _ _ HR Hcl HC) as [HC' Hcl' Hr']. frame (closes_touches _ _ Hcl).
    eexists _, (literal_ x). split; [done|]. split; [|by rewrite app_nil_r].
    split; [by destruct HC'|done|split; cbn; congruence|by apply Room_depth].
  - apply (EvalStart_ok t (lit "</" ++ token_ x ++ w) c (set_token [] x)); [by destruct HR as [[] ? ?]|by split|].
    cbn [literal_ set_token]. by rewrite HL, <- !app_assoc.
Qed.

(** ** Comments and their like *)

Lemma emit_ok t ev x :
  Ready t x -> element_ x = None -> leaf_parent ev = Some (Parent x) -> source (nodes_ x) false ev (literal_ x) ->
  steps t (literal_ x) (x ← AddEvent ev (set_literal [] x); Some (set_state START (set_token [] x))).
Proof.
  intros HR Hel Hp Hs. destruct (AddLeaf_ok false (set_literal [] x) t ev (literal_ x)) as (-> & HC' & Hcl);
    [by destruct HR as [[] ? ?]|done|done|]. cbn [mbind option_bind].
  assert (HR' : Ready t (set_literal [] x)) by by destruct HR as [[] ? ?].
  destruct (Ready_closes _ _ _ _ HR' Hcl HC') as [HC1 Hcl1 Hr1].
  eexists _, (literal_ x). split; [done|]. split; [|by rewrite app_nil_r].
  split; [by destruct HC1|done|done|by apply Room_depth].
Qed.

Lemma steps_START t L o : steps t L o -> (forall x, o = Some x -> state_ x = START) ->
  steps t L (x ← o; Some (set_state START x)).
Proof.
  intros (x' & s & -> & HI & HL) Hst. exists x', s. split; [|done]. cbn. specialize (Hst x' eq_refl).
  by destruct x'; cbn in *; subst.
Qed.

Lemma EvalDirective_ok t c x :
  Ready t x -> state_ x = DIRECTIVE -> element_ x = None -> literal_ x = lit "<!" ++ token_ x ++ [c] ->
  steps t (literal_ x) (EvalDirective c x).
Proof.
  intros HR Hs Hel HL. unfold EvalDirective. case_bool_decide; subst.
  - by apply emit_ok.
  - stay_in Hs. by rewrite app_nil_r.
Qed.

Lemma EvalCommentStart1_ok t c x :
  Ready t x -> quiet x -> literal_ x = lit "<!" ++ [c] -> steps t (literal_ x) (EvalCommentStart1 c x).
Proof.
  intros HR Hq HL. unfold EvalCommentStart1.
  case_bool_decide; [subst; by stay|]. case_bool_decide; [subst; by stay|]. destruct (_ && _).
  - destruct Hq as [Ht Hel].
    apply (EvalDirective_ok t c (set_state DIRECTIVE x)); [by destruct HR as [[] ? ?]|done|done|by cbn; rewrite Ht].
  - by eapply Restart_ok.
Qed.

Lemma EvalCommentStart2_ok t c x :
  Ready t x -> quiet x -> literal_ x = lit "<!-" ++ [c] -> steps t (literal_ x) (EvalCommentStart2 c x).
Proof.
  intros HR Hq HL. unfold EvalCommentStart2.
  case_bool_decide; [subst; stay; destruct Hq as [-> ?]; by split|by eapply Restart_ok].
Qed.

Lemma EvalCommentBody_ok t c x :
  Ready t x -> state_ x = COMMENT_BODY -> element_ x = None -> literal_ x = lit "<!--" ++ token_ x ++ [c] ->
  steps t (literal_ x) (EvalCommentBody c x).
Proof.
  intros HR Hs Hel HL. unfold EvalCommentBody. case_bool_decide; [subst; by stay|stay_in Hs; by rewrite app_nil_r].
Qed.

Lemma EvalCommentEnd1_ok t c x :
  Ready t x -> element_ x = None -> literal_ x = lit "<!--" ++ token_ x ++ lit "-" ++ [c] ->
  steps t (literal_ x) (EvalCommentEnd1 c x).
Proof.
  intros HR Hel HL. unfold EvalCommentEnd1. case_bool_decide; [subst; by stay|stay; by rewrite app_nil_r].
Qed.

Lemma EmitComment_ok t x :
  Ready t x -> element_ x = None -> literal_ x = lit "<!--" ++ token_ x ++ lit "-->" ->
  steps t (literal_ x) (x ← EmitComment x; Some (set_state START x)).
Proof.
  intros HR Hel HL. unfold EmitComment. apply steps_START; [|intros y; destruct (AddEvent _ _); cbn; by intros [= <-]].
  apply emit_ok; [done|done|by destruct (_ || _)|by destruct (_ || _)].
Qed.

Lemma EvalCommentEnd2_ok t c x :
  Ready t x -> state_ x = COMMENT_END2 -> element_ x = None -> literal_ x = lit "<!--" ++ token_ x ++ lit "--" ++ [c] ->
  steps t (literal_ x) (EvalCommentEnd2 c x).
Proof.
  intros HR Hs Hel HL. unfold EvalCommentEnd2. case_bool_decide; [subst; by apply EmitComment_ok|].
  case_bool_decide; [subst; stay_in Hs; split; [done|]; by rewrite HL, <- app_assoc|stay; by rewrite app_nil_r].
Qed.

Lemma EvalCdataStart_ok t c x k prefix next :
  Ready t x -> quiet x -> literal_ x = prefix ++ [c] ->
  (forall y, Ready t y -> quiet y -> literal_ y = prefix ++ [k] -> state_ y = next -> attr_bufs y /\ shape t y) ->
  steps t (literal_ x) (EvalCdataStart k next c x).
Proof.
  intros HR Hq HL Hn. unfold EvalCdataStart. case_bool_decide; [subst|by eapply Restart_ok].
  destruct (Hn (set_state next x)) as [Hb Hs]; [by destruct HR as [[] ? ?]|done|done|done|].
  apply (stay_steps t (set_state next x)); [by destruct HR as [[] ? ?]|done..].
Qed.

Lemma EvalCdataBody_ok t c x :
  Ready t x -> state_ x = CDATA_BODY -> element_ x = None -> literal_ x = lit "<![CDATA[" ++ token_ x ++ [c] ->
  steps t (literal_ x) (EvalCdataBody c x).
Proof.
  intros HR Hs Hel HL. unfold EvalCdataBody. case_bool_decide; [subst; by stay|stay_in Hs; by rewrite app_nil_r].
Qed.

Lemma EvalCdataEnd1_ok t c x :
  Ready t x -> element_ x = None -> literal_ x = lit "<![CDATA[" ++ token_ x ++ lit "]" ++ [c] ->
  steps t (literal_ x) (EvalCdataEnd1 c x).
Proof.
  intros HR Hel HL. unfold EvalCdataEnd1. case_bool_decide; [subst; by stay|stay; by rewrite app_nil_r].
Qed.

Lemma EvalCdataEnd2_ok t c x :
  Ready t x -> element_ x = None -> literal_ x = lit "<![CDATA[" ++ token_ x ++ lit "]]" ++ [c] ->
  steps t (literal_ x) (EvalCdataEnd2 c x).
Proof.
  intros HR Hel HL. unfold EvalCdataEnd2. case_bool_decide; [subst|stay; by rewrite app_nil_r].
  apply steps_START; [by apply emit_ok|]. unfold EmitCdata. intros y. destruct (AddEvent _ _); cbn; by intros [= <-].
Qed.

Lemma EvalBogusComment_ok t c x :
  Ready t x -> state_ x = BOGUS_COMMENT -> quiet x -> steps t (literal_ x) (EvalBogusComment c x).
Proof.
  intros HR Hs Hq. unfold EvalBogusComment. case_bool_decide; [subst|by stay_in Hs].
  apply steps_START.
  - destruct (EmitLiteral_ok false x t) as (x' & -> & HC & Hcl & _); [apply HR|].
    destruct (Ready_closes _ _ _ _ HR Hcl HC) as [HC' Hcl' Hr']. destruct Hq as [Hq1 Hq2]. frame (closes_touches _ _ Hcl).
    eexists _, (literal_ x). split; [done|]. split; [|by rewrite app_nil_r].
    split; [by destruct HC'|done|split; cbn; congruence|by apply Room_depth].
  - unfold EmitLiteral. intros y. destruct (literal_ x); [by intros [= <-]|]. destruct (AddEvent _ _); cbn; by intros [= <-].
Qed.
