(* ===== verification/HtmlLiteral.v ===== *)
(** * The HTML lexer: literal elements

    Inside a script, a style or the like everything is text until the end tag, and what
    the end tag holds besides its name is thrown away. *)

From S2P Require Import Prelude StringUtil HtmlKeywords HtmlLexer HtmlEvents HtmlStack HtmlTags HtmlLexerInv.

Lemma UpperChar_code c d : UpperChar c = UpperChar d -> is_lower d = false -> is_upper d = false -> c = d.
Proof.
  intros H Hl Hu. unfold UpperChar in H. rewrite Hl in H. destruct (is_lower c) eqn:Ec; [|done].
  exfalso. revert Hu. rewrite <- H. unfold is_lower, is_upper, in_range in *.
  change (code "A") with 65. change (code "Z") with 90. change (code "a") with 97 in *. change (code "z") with 122 in *.
  apply andb_true_iff in Ec as [E1%Z.leb_le E2%Z.leb_le]. rewrite code_chr by (pose proof (code_range c); lia).
  destruct (Z.leb_spec 65 (code c - 32)), (Z.leb_spec (code c - 32) 90); cbn; lia || done.
Qed.

Lemma case_suffix str m :
  StringCaseEndsWith str (lit "</" ++ m) = true -> exists L n, str = L ++ lit "</" ++ n /\ StringCaseEqual n m = true.
Proof.
  unfold StringCaseEndsWith. intros [Hl%Nat.leb_le H%Z.eqb_eq]%andb_true_iff.
  apply StringCaseCompare_0, eq_sym in H. rewrite <- (take_drop (length str - length (lit "</" ++ m)) str).
  exists (take (length str - length (lit "</" ++ m)) str).
  destruct (drop _ str) as [|a [|b n]]; try done. exists n. injection H as Ha Hb Hn.
  apply UpperChar_code in Ha as ->, Hb as ->; try done. split; [done|]. by apply StringCaseEqual_Upper.
Qed.

(** The end tag of a literal element: [n] is its name as it is written. *)
Lemma EmitLiteralClose_ok t n c x e info rest el :
  Ready t x -> element_ x = None -> literal_ x = [] -> element_stack_ x = (Some e, info) :: rest -> nodes_ x !! e = Some el ->
  ns info = kHtml -> IsLiteralTag (keyword el) = true -> StringCaseEqual (token_ x) (name_str el) = true ->
  StringCaseEqual n (name_str el) = true -> CanEndTag c = true ->
  exists x', EmitTagClose EXPLICIT_CLOSE x = Some x' /\ Inv (t ++ lit "</" ++ n ++ [c]) (discard_rest c x') /\
    literal_ (discard_rest c x') = [].
Proof.
  intros HR Hel HL Est He Hns Hlit Htok Hn Hc.
  assert (Hclose : forall s, exists x', EmitTagClose EXPLICIT_CLOSE x = Some (set_state START (set_token [] (set_literal [] x'))) /\
    Core false x' (ids (element_stack_ x')) (t ++ lit "</" ++ n ++ [c] ++ s) /\ closes x x').
  { intros s. destruct (EmitTagClose_top false x e info rest el EXPLICIT_CLOSE t (lit "</" ++ n ++ [c] ++ s))
      as (x' & Ex & HC & Hcl & _); [apply HR|done|done|done|by rewrite Hns| |by exists x'].
    left. exists n, ([c] ++ s). split; [done|]. split; [done|]. right. split; [done|]. by exists c, s. }
  destruct (Hclose []) as (x1 & Ex1 & HC1 & Hcl1).
  assert (Hext : forall s, sources (nodes_ x1) false (queue_ x1) ((t ++ lit "</" ++ n ++ [c]) ++ s)).
  { intros s. destruct (Hclose s) as (x2 & Ex2 & HC2 & _). rewrite Ex1 in Ex2. injection Ex2 as Eq En _ _ _ _ _ _ _ _ _ _ _.
    rewrite Eq, En. pose proof (core_sources _ _ _ _ HC2) as Hsrc2. by rewrite <- !app_assoc in *. }
  rewrite app_nil_r in HC1. destruct (Ready_closes _ _ _ _ HR Hcl1 HC1) as [HC' Hcl' Hr'].
  pose proof (Room_depth _ Hr') as Hd. frame (closes_touches _ _ Hcl1).
  assert (Hq : element_ x1 = None) by congruence.
  eexists. split; [exact Ex1|]. unfold discard_rest. case_bool_decide; [|case_bool_decide]; (split; [|done]).
  - split; [by destruct HC'| |exists []|done].
    + destruct Hcl' as [? ?]. split; [by left|done].
    + split; [split; [done|]; split; [by exists []|done]|left; by destruct Hcl'].
  - by split; [destruct HC'|..].
  - split; [by destruct HC'|done|exists []|done]. split; [|done]. split; [done|]. split; [by exists []|done].
Qed.

Lemma EmitLiteral_quiet t x :
  Ready t x -> exists x', EmitLiteral x = Some x' /\ Ready (t ++ literal_ x) x' /\ literal_ x' = [] /\ token_ x' = token_ x /\
    element_ x' = element_ x /\ literal_close_ x' = literal_close_ x /\ element_stack_ x' = element_stack_ x /\ nodes_ x' = nodes_ x.
Proof.
  intros HR. destruct (EmitLiteral_ok false x t) as (x' & -> & HC & Hcl & Est & En & _); [apply HR|].
  pose proof (Ready_closes _ _ _ _ HR Hcl HC) as HR'. frame (closes_touches _ _ Hcl).
  eexists. split; [done|]. split; [by destruct HR' as [[] ? ?]|]. done.
Qed.

Lemma literal_nonempty {x L c} : literal_ x = L ++ [c] -> bool_decide (literal_ x = []) = false.
Proof. intros ->. apply bool_decide_eq_false_2. by destruct L. Qed.

Lemma EvalLiteralTag_ok t L c x :
  Ready t x -> state_ x = LITERAL_TAG -> quiet x -> literal_top x -> literal_ x = L ++ [c] ->
  steps t (literal_ x) (EvalLiteralTag c x).
Proof.
  intros HR Hs [Ht Hel] Hlt HL.
  assert (Hstay : steps t (literal_ x) (Some x)).
  { apply stay_steps; [done| |]; [unfold attr_bufs|unfold shape]; rewrite Hs; [apply HR|by split]. }
  unfold EvalLiteralTag. rewrite (literal_nonempty HL), andb_true_r. destruct (CanEndTag c) eqn:Ec; [|done].
  destruct Hlt as (e & info & rest & el & Est & He & Hns & Hlit & _ & Hne & Hclose & _). cbv zeta.
  rewrite Hclose. destruct (Nat.leb_spec (length (lit "</" ++ name_str el ++ lit ">")) 3) as [Hle|_].
  { rewrite !length_app in Hle. destruct (name_str el); [done|cbn in Hle; lia]. }
  change (lit ">") with [">"%char]. rewrite (app_assoc (lit "</") (name_str el) [">"%char]), removelast_last, HL, removelast_last.
  destruct (StringCaseEndsWith _ _) eqn:E; [|by rewrite <- HL].
  apply case_suffix in E as (L1 & n & -> & Hn). rewrite <- HL.
  assert (Hlen : S (length (lit "</" ++ name_str el)) = length ((lit "</" ++ n) ++ [c])).
  { apply StringCaseEqual_Upper, (f_equal length) in Hn. unfold UpperString in Hn. rewrite !length_map in Hn.
    rewrite !length_app. cbn. lia. }
  rewrite Hlen, (chop_literal_eq x L1) by (by rewrite HL, !app_assoc). cbn [mbind option_bind].
  destruct (EmitLiteral_quiet t (set_literal L1 x)) as (x1 & -> & HR1 & HL1 & _ & Hel1 & Hcl1 & Est1 & En1);
    [by destruct HR as [[] ? ?]|]. cbn [mbind option_bind].
  cbn [literal_ set_literal element_ element_stack_ nodes_ literal_close_] in *. rewrite Hcl1.
  assert (Hname : substr (literal_close_ x) 2 (length (literal_close_ x) - 3) = name_str el).
  { rewrite Hclose. unfold substr. rewrite !length_app. change (drop 2 (lit "</" ++ name_str el ++ [">"%char])) with (name_str el ++ [">"%char]).
    replace (_ - 3)%nat with (length (name_str el)) by (cbn; lia). apply take_app_length. }
  rewrite Hname.
  destruct (EmitLiteralClose_ok (t ++ L1) n c (set_token (name_str el) x1) e info rest el) as (x2 & -> & HI & HL2);
    try done; [by destruct HR1 as [[] ? ?]|cbn; congruence|cbn; congruence|cbn; congruence|apply StringCaseEqual_refl|].
  cbn [mbind option_bind]. eexists _, (literal_ x). split; [done|]. split; [|by rewrite HL2, app_nil_r].
  rewrite HL. by rewrite <- !app_assoc in *.
Qed.

Lemma EvalScriptTag_ok t L c x :
  Ready t x -> state_ x = SCRIPT_TAG -> quiet x -> literal_top x -> literal_ x = L ++ [c] ->
  steps t (literal_ x) (EvalScriptTag c x).
Proof.
  intros HR Hs [Ht Hel] Hlt HL.
  assert (Hstay : forall k, steps t (literal_ x) (Some (set_script_escape_state k x))).
  { intros k. apply (stay_steps t (set_script_escape_state k x)); [by destruct HR as [[] ? ?]| |];
      [unfold attr_bufs|unfold shape]; cbn; rewrite Hs; [apply HR|by split]. }
  unfold EvalScriptTag. set (k := if (c =c "-"%char) && bool_decide (script_escape_state_ x = kNone) && EndsWith (literal_ x) (lit "<!--") then kInComment else script_escape_state_ x).
  replace (if (c =c "-"%char) && bool_decide (script_escape_state_ x = kNone) && EndsWith (literal_ x) (lit "<!--")
    then set_script_escape_state kInComment x else x) with (set_script_escape_state k x)
    by (unfold k; destruct (_ && _ && _); [done|by destruct x]).
  clearbody k. cbv zeta. change (literal_ (set_script_escape_state k x)) with (literal_ x).
  change (script_escape_state_ (set_script_escape_state k x)) with k.
  rewrite (literal_nonempty HL), andb_true_r. destruct (CanEndTag c) eqn:Ec; [|done].
  destruct (StringCaseEndsWith _ (lit "</script")) eqn:E;
    [|destruct (_ && _); [exact (Hstay kDoubleEscaped)|
        destruct (IsScriptHtmlCommentClosing _ _); [exact (Hstay kNone)|exact (Hstay k)]]].
  case_bool_decide; [exact (Hstay kInComment)|].
  destruct Hlt as (e & info & rest & el & Est & He & Hns & Hlit & Hname & Hne & Hclose & Hscript).
  rewrite HL, removelast_last in E. apply (case_suffix _ (lit "script")) in E as (L1 & n & -> & Hn).
  assert (Hel_script : StringCaseEqual n (name_str el) = true).
  { apply StringCaseEqual_Lower in Hn. apply StringCaseEqual_Lower. rewrite Hn. unfold keyword in Hscript.
    rewrite Hname in Hscript. specialize (Hscript Hs). cbn in Hscript. unfold Lookup in Hscript.
    destruct (bool_decide _); [|done]. injection Hscript as Hl. by rewrite Hl. }
  assert (Hlen : length n = 6%nat).
  { apply StringCaseEqual_Upper, (f_equal length) in Hn. unfold UpperString in Hn. by rewrite !length_map in Hn. }
  rewrite <- app_assoc in HL.
  assert (Htok : substr (literal_ x) (length (literal_ x) - 7) 6 = n).
  { rewrite HL. unfold substr. rewrite !length_app, Hlen. cbn [length lit].
    replace (_ - 7)%nat with (length (L1 ++ lit "</")) by (rewrite length_app; cbn; lia).
    rewrite <- (app_assoc (lit "</")), (app_assoc L1), drop_app_length, <- Hlen. apply take_app_length. }
  change (literal_ (set_script_escape_state kNone (set_script_escape_state k x))) with (literal_ x). rewrite Htok.
  set (x0 := set_token n (set_script_escape_state kNone (set_script_escape_state k x))).
  change 9%nat with (3 + 6)%nat. rewrite <- Hlen. replace (3 + length n)%nat with (length ((lit "</" ++ n) ++ [c]))
    by (rewrite !length_app; cbn; lia).
  rewrite (chop_literal_eq x0 L1) by (by cbn; rewrite HL). cbn [mbind option_bind].
  destruct (EmitLiteral_quiet t (set_literal L1 x0)) as (x1 & -> & HR1 & HL1 & Ht1 & Hel1 & Hcl1 & Est1 & En1);
    [by destruct HR as [[] ? ?]|]. cbn [mbind option_bind].
  cbn [literal_ set_literal element_ element_stack_ nodes_ literal_close_ token_ set_token set_script_escape_state x0] in *.
  destruct (EmitLiteralClose_ok (t ++ L1) n c x1 e info rest el) as (x2 & -> & HI & HL2); try done; try congruence.
  cbn [mbind option_bind]. eexists _, (literal_ x). split; [done|]. split; [|by rewrite HL2, app_nil_r].
  rewrite HL. by rewrite <- !app_assoc in *.
Qed.
