(* ===== verification/HtmlTagStates.v ===== *)
(** * The HTML lexer: start tags

    The states between the name of a tag and its end: attributes, with and without a
    value, white space and slashes; also for what follows the name of the end tag of a
    literal element. *)

From S2P Require Import Prelude StringUtil HtmlKeywords HtmlLexer HtmlEvents HtmlStack HtmlTags HtmlLexerInv.

(** ** What is pending *)

Record In_tag (t : bytes) (x : HtmlLexer) (b : bool) (p : bytes) : Prop := {
  In_tag_core : Core false x (ids (element_stack_ x)) t;
  In_tag_room : Room x;
  In_tag_reading : Reading t x b p;
}.

(** Changes that do not matter inside a tag. *)
Lemma Reading_ext t x y b p :
  Reading t x b p -> nodes_ y = nodes_ x -> queue_ y = queue_ x -> element_stack_ y = element_stack_ x ->
  element_ y = element_ x -> token_ y = token_ x -> literal_ y = literal_ x ->
  discard_until_start_state_for_error_recovery_ y = discard_until_start_state_for_error_recovery_ x ->
  (discard_until_start_state_for_error_recovery_ x = false -> element_ x = None -> attr_name_ y = []) -> Reading t y b p.
Proof.
  intros Hrd En Eq Est Ee Et El Ed Ha. unfold Reading, quiet, pending_tag in *. rewrite Ed, Et, Ee, El, En, Eq.
  destruct (discard_until_start_state_for_error_recovery_ x); [done|].
  destruct Hrd as (nm & attrs & body & HL & Htn & Htb & Hp). exists nm, attrs, body. split; [done|]. split; [done|]. split; [done|].
  destruct (element_ x) as [e|]; [|naive_solver].
  destruct Hp as (Ht & el & [He Hpa Hsty Hf] & Hp). split; [done|]. exists el. split; [|done].
  split; rewrite ?En, ?Eq; try done. unfold Parent in *. by rewrite Est.
Qed.

Lemma In_tag_ext t x y b p :
  In_tag t x b p -> nodes_ y = nodes_ x -> queue_ y = queue_ x -> element_stack_ y = element_stack_ x ->
  element_ y = element_ x -> token_ y = token_ x -> literal_ y = literal_ x ->
  discard_until_start_state_for_error_recovery_ y = discard_until_start_state_for_error_recovery_ x ->
  skip_parsing_ y = skip_parsing_ x -> size_limit_exceeded_ y = size_limit_exceeded_ x ->
  (discard_until_start_state_for_error_recovery_ x = false -> element_ x = None -> attr_name_ y = []) -> In_tag t y b p.
Proof.
  intros [[Hn Hs Hst] [Hl Hw] Hrd] En Eq Est Ee Et El Ed Esk Eex Ha.
  split; [split; by rewrite ?En, ?Eq, ?Est|by unfold Room, within; rewrite Est, Esk, Eex, Eq|by eapply Reading_ext].
Qed.

Lemma In_tag_append t x b p c : In_tag t x b p -> In_tag t (append_literal c x) b (p ++ [c]).
Proof.
  intros [HC Hr Hrd]. split; [by destruct HC|done|]. unfold Reading in *. cbn.
  destruct (discard_until_start_state_for_error_recovery_ x).
  - destruct Hrd as (? & [g ->] & ?). split; [done|]. split; [|done]. exists g. by rewrite app_assoc.
  - destruct Hrd as (nm & attrs & body & -> & ? & ? & Hp). exists nm, attrs, body.
    split; [by rewrite <- !app_assoc|]. split; [done|]. split; [done|]. unfold pending_tag in *. cbn.
    destruct (element_ x) as [e|]; [|done]. destruct Hp as (? & el & [] & ?). split; [done|]. by exists el.
Qed.

(** White space and slashes come before an attribute. *)
Definition gap (c : ascii) : Prop := IsHtmlSpace c || (c =c "/"%char) = true.

Lemma body_gaps b attrs body w : tag_body b attrs body -> Forall gap w -> w <> [] -> tag_body true attrs (body ++ w).
Proof.
  intros Hb. revert b body Hb. induction w as [|c w IH]; intros b body Hb Hw Hne; [done|].
  apply Forall_cons in Hw as [Hc Hw]. replace (body ++ c :: w) with ((body ++ [c]) ++ w) by by rewrite <- app_assoc.
  destruct w as [|d w]; [rewrite app_nil_r; by eapply body_gap|]. eapply IH; [by eapply body_gap|done|done].
Qed.

Lemma In_tag_gap t x b w p : In_tag t x b (w ++ p) -> Forall gap w -> w <> [] -> In_tag t x true p.
Proof.
  intros [HC Hr Hrd] Hw Hne. split; [done..|]. unfold Reading in *.
  destruct (discard_until_start_state_for_error_recovery_ x).
  - destruct Hrd as (? & [g ->] & ?). split; [done|]. split; [|done]. exists (g ++ w). by rewrite app_assoc.
  - destruct Hrd as (nm & attrs & body & -> & ? & ? & ?). exists nm, attrs, (body ++ w).
    rewrite <- app_assoc. split; [done|]. split; [done|]. split; [by eapply body_gaps|done].
Qed.

Lemma spaces_gap w : spaces w -> Forall gap w.
Proof. intros H. eapply Forall_impl; [exact H|]. unfold gap. by intros c ->. Qed.

Lemma spaces_nil : spaces [].
Proof. constructor. Qed.
Lemma spaces_snoc w c : spaces w -> IsHtmlSpace c = true -> spaces (w ++ [c]).
Proof. intros. apply Forall_app. by repeat constructor. Qed.
#[local] Hint Resolve spaces_nil spaces_snoc : core.

(** ** Elements and attributes *)

(** The element is there when it is needed. *)
Definition has_element (x : HtmlLexer) : Prop := discard_until_start_state_for_error_recovery_ x = false -> element_ x <> None.

Lemma MakeElement_ok t x b p :
  In_tag t x b p -> discard_until_start_state_for_error_recovery_ x = false ->
  exists n tok e, MakeElement x = Some (set_token tok (set_element (Some e) (set_nodes n x))) /\
    In_tag t (set_token tok (set_element (Some e) (set_nodes n x))) b p.
Proof.
  intros [HC Hr Hrd] Hd. unfold MakeElement. rewrite Hd. destruct (element_ x) as [e|] eqn:Ee.
  { exists (nodes_ x), (token_ x), e. replace (set_token _ _) with x by (destruct x; cbn in *; by subst). done. }
  destruct (NewElement (Parent x) (MakeName (token_ x)) x) as [x1 e] eqn:En.
  destruct (NewElement_ok false x t _ x1 e HC En) as (HC1 & n & style & -> & Hp).
  exists n, [], e. split; [done|]. split; [by destruct HC1|done|].
  unfold Reading in *. cbn. rewrite Hd in *. destruct Hrd as (nm & attrs & body & HL & Htn & Htb & Hpt).
  exists nm, attrs, body. split; [done|]. split; [done|]. split; [done|]. unfold pending_tag in *. rewrite Ee in Hpt. cbn.
  destruct Hpt as (<- & -> & _). split; [done|]. eexists. split; [by destruct Hp|done].
Qed.

(** The attribute that [MakeAttribute] makes. *)
Definition new_attribute (has_value : bool) (x : HtmlLexer) : Attribute :=
  mkAttribute (MakeName (attr_name_ x)) (if has_value then Some (attr_value_ x) else None) (attr_quote_ x).

Lemma MakeAttribute_ok t x hv s q p :
  In_tag t x true (s ++ p) -> has_element x -> has_attr_value_ x = hv -> (if hv then True else attr_value_ x = []) ->
  attr_source (new_attribute hv x) s q ->
  exists n, MakeAttribute hv x =
      Some (set_state TAG_ATTRIBUTE (set_attr_quote NO_QUOTE (set_attr_value [] (set_has_attr_value false (set_attr_name [] (set_nodes n x)))))) /\
    In_tag t (set_attr_name [] (set_nodes n x)) q p.
Proof.
  intros [HC Hr Hrd] He Hv Hval Hsrc. unfold MakeAttribute. rewrite Hv, eqb_reflx. cbn [negb].
  replace (negb hv && negb (bool_decide (attr_value_ x = []))) with false
    by (destruct hv; [done|cbn; by rewrite bool_decide_eq_true_2]).
  cbv zeta. fold (new_attribute hv x). unfold Reading in Hrd.
  destruct (discard_until_start_state_for_error_recovery_ x) eqn:Hd; cbn [mbind option_bind].
  - exists (nodes_ x). replace (set_nodes (nodes_ x) x) with x by by destruct x. split; [done|].
    split; [by destruct HC|done|]. unfold Reading. cbn. rewrite Hd. destruct Hrd as (? & [g HL] & ?).
    split; [done|]. split; [|done]. exists (g ++ s). by rewrite HL, app_assoc.
  - destruct (element_ x) as [e|] eqn:Ee; [|by destruct (He Hd)]. cbn [mbind option_bind].
    destruct Hrd as (nm & attrs & body & HL & Htn & Htb & Hpt). unfold pending_tag in Hpt. rewrite Ee in Hpt.
    destruct Hpt as (Htok & el & Hp & Hname & Hattrs). rewrite (pending_node _ _ _ Hp). cbn [mbind option_bind].
    exists (nodes_ (modify e (AddEscapedAttribute (new_attribute hv x)) x)). split; [done|].
    pose proof (Core_modify false x t e (AddEscapedAttribute (new_attribute hv x)) HC (pending_fresh _ _ _ Hp)) as HC1.
    split; [by destruct HC1|done|]. unfold Reading. cbn. rewrite Hd.
    exists nm, (attrs ++ [new_attribute hv x]), (body ++ s). split; [by rewrite HL, <- app_assoc|]. split; [done|].
    split; [by eapply body_attr|]. unfold pending_tag. cbn. rewrite Ee. split; [done|].
    exists (AddEscapedAttribute (new_attribute hv x) el). split; [|split; [exact Hname|by cbn; rewrite Hattrs]].
    by destruct (modify_pending x e el (AddEscapedAttribute (new_attribute hv x)) Hp eq_refl eq_refl).
Qed.

(** ** The end of the tag *)

(** At the [>]: the element is opened, or the end tag of a literal element is over. *)
Lemma EmitTagOpen_steps t x b ac :
  In_tag t x b [">"%char] -> has_element x -> clean x ->
  exists x' s, EmitTagOpen ac x = Some x' /\ Inv (t ++ s) x' /\ literal_ x = s ++ literal_ x' /\ clean x' /\
    discard_until_start_state_for_error_recovery_ x' = discard_until_start_state_for_error_recovery_ x /\
    literal_ x' = [] /\ quiet x' /\
    (discard_until_start_state_for_error_recovery_ x = false -> ac = false ->
       exists e info rest, element_stack_ x' = (Some e, info) :: rest).
Proof.
  intros [HC Hr Hrd] He Hc. destruct (discard_until_start_state_for_error_recovery_ x) eqn:Hd; unfold Reading in Hrd; rewrite Hd in Hrd.
  - unfold EmitTagOpen. rewrite Hd. eexists _, (literal_ x). split; [done|]. destruct Hrd as ([? ?] & _ & Hext).
    split; [|split; [by rewrite app_nil_r|done]].
    split; [|done|done|by apply Room_depth]. destruct HC as [? ? ?]. split; cbn; [done|apply Hext|done].
  - specialize (He Hd). destruct (element_ x) as [e|] eqn:Ee; [|done].
    destruct Hrd as (nm & attrs & body & HL & Htn & Htb & Hpt). unfold pending_tag in Hpt. rewrite Ee in Hpt.
    destruct Hpt as (Htok & el & Hp & Hname & Hattrs).
    assert (Hns : name_str el = nm) by (unfold name_str; by rewrite Hname).
    destruct (EmitTagOpen_ok false x t e el ac (literal_ x)) as (x' & -> & HC' & Hop & Ho & Htop);
      [done|done|done|done|done|by rewrite Hns|rewrite Hns, Hattrs; split; [done|by exists b, body]|].
    destruct Hc as (? & ? & ? & ?), Ho as [Ht' HL' Hel' ? ? ? ? ? Hdepth].
    assert (Hcl : clean x') by by repeat split; congruence.
    assert (Hq : quiet x') by done.
    exists x', (literal_ x). split; [done|]. split; [|rewrite HL', app_nil_r; repeat split; try done; try congruence; by intros _].
    split; [done| | |by apply Hdepth]; [unfold attr_bufs|unfold shape]; destruct Hop as [->|[[->| ->] ?]]; done.
Qed.

Lemma open_steps t x b ac : In_tag t x b [">"%char] -> has_element x -> clean x -> steps t (literal_ x) (EmitTagOpen ac x).
Proof. intros H1 H2 H3. destruct (EmitTagOpen_steps t x b ac H1 H2 H3) as (x' & s & ? & ? & ? & _). by exists x', s. Qed.

(** ** Attribute names *)

Lemma In_tag_element t x b p : In_tag t x b p -> attr_name_ x <> [] -> has_element x.
Proof.
  intros [_ _ Hrd] Hne Hd He. unfold Reading in Hrd. rewrite Hd in Hrd. destruct Hrd as (nm & attrs & body & _ & _ & _ & Hp).
  unfold pending_tag in Hp. rewrite He in Hp. by destruct Hp as (_ & _ & ?).
Qed.

Lemma attribute_name_ne n : attribute_name n -> n <> [].
Proof. by destruct n. Qed.

Definition tag_state (st : State) : bool :=
  match st with
  | TAG_BRIEF_CLOSE | TAG_ATTRIBUTE | TAG_ATTR_NAME | TAG_ATTR_NAME_SPACE | TAG_ATTR_EQ
  | TAG_ATTR_VAL | TAG_ATTR_VALDQ | TAG_ATTR_VALSQ => true
  | _ => false
  end.

Lemma tag_steps t x p :
  In_tag t x true p -> tag_state (state_ x) = true -> pend x p -> attr_bufs x -> steps t (literal_ x) (Some x).
Proof.
  intros [HC Hr Hrd] Hst Hp Hb. apply steps_stay. split; [done|done| |by apply Room_depth].
  unfold shape. destruct (state_ x); try done; by exists p.
Qed.

(** The next state of a tag. *)
Ltac tag_stay p :=
  match goal with
  | |- steps ?t _ (Some ?y) => apply (tag_steps t y p); [eapply In_tag_ext; [eassumption|try done..]|try done| |]
  end.

Lemma first_attr_char c :
  IsLegalAttrNameChar c || negb (IsHtmlSpace c) = true -> c <> ">"%char -> c <> "/"%char -> ends_attr_name c = false.
Proof.
  intros H H1 H2.
  pose proof (all_ascii (fun c => negb (IsLegalAttrNameChar c || negb (IsHtmlSpace c)) || (c =c ">"%char) || (c =c "/"%char) ||
    negb (ends_attr_name c)) ltac:(by vm_compute) c) as Hall. cbv beta in Hall.
  rewrite H, !bool_decide_eq_false_2 in Hall by done. by apply negb_true_iff in Hall.
Qed.

Lemma EvalAttribute_ok t c x :
  In_tag t x true [c] -> state_ x = TAG_ATTRIBUTE -> attr_quote_ x = NO_QUOTE -> has_attr_value_ x = false ->
  steps t (literal_ x) (EvalAttribute c x).
Proof.
  intros HI Hs Hq Hh. unfold EvalAttribute.
  assert (exists y, (if discard_until_start_state_for_error_recovery_ x then Some x else MakeElement x) = Some y /\
    In_tag t y true [c] /\ has_element y /\ state_ y = TAG_ATTRIBUTE /\ attr_quote_ y = NO_QUOTE /\ has_attr_value_ y = false /\
    literal_ y = literal_ x) as (y & -> & HI1 & He & Hs1 & Hq1 & Hh1 & HL).
  { destruct (discard_until_start_state_for_error_recovery_ x) eqn:Hd.
    - exists x. repeat split; try done; try apply HI. unfold has_element. congruence.
    - destruct (MakeElement_ok t x true [c] HI Hd) as (n & tok & e & -> & HI'). eexists. by repeat split; try apply HI'. }
  cbn [mbind option_bind]. cbv zeta. rewrite <- HL. set (y2 := set_attr_value [] (set_attr_name [] y)).
  change (literal_ y) with (literal_ y2).
  assert (HI2 : In_tag t y2 true [c]) by (by eapply In_tag_ext).
  assert (He2 : has_element y2) by done. assert (Hc2 : clean y2) by done.
  case_bool_decide; [subst c; by eapply open_steps|].
  case_bool_decide; [subst c|].
  - assert (In_tag t y2 true []) by (apply (In_tag_gap t y2 true ["/"%char] []); [done|by repeat constructor|done]).
    tag_stay (@nil ascii); [by left|split; [by left|apply Hc2]].
  - destruct (_ || _) eqn:E.
    + tag_stay [c]; [intros Hd Hel; by destruct (He2 Hd)|done|].
      split; [|apply Hc2]. split; [by apply first_attr_char|done].
    + assert (In_tag t y2 true []).
      { apply (In_tag_gap t y2 true [c] []); [done| |done]. repeat constructor. unfold gap.
        destruct (IsHtmlSpace c); [done|]. by rewrite orb_true_r in E. }
      apply (tag_steps t y2 []); [done|by unfold y2; cbn; rewrite Hs1|by unfold pend, y2; cbn; rewrite Hs1|].
      unfold attr_bufs, y2; cbn. by rewrite Hs1.
Qed.

Lemma pending_attribute t x s q p hv L :
  In_tag t x true (s ++ p) -> attr_name_ x <> [] -> has_attr_value_ x = hv -> (if hv then True else attr_value_ x = []) ->
  attr_source (new_attribute hv x) s q -> literal_ x = L ->
  exists y, MakeAttribute hv x = Some y /\ In_tag t y q p /\ has_element y /\ clean y /\ state_ y = TAG_ATTRIBUTE /\ literal_ y = L.
Proof.
  intros HI Hne Hv Hval Hsrc HL. pose proof (In_tag_element _ _ _ _ HI Hne) as He.
  destruct (MakeAttribute_ok t x hv s q p HI He Hv Hval Hsrc) as (n & -> & HI').
  eexists. split; [done|]. split; [by eapply In_tag_ext|]. by repeat split.
Qed.

Lemma bare_source x : attribute_name (attr_name_ x) -> attr_quote_ x = NO_QUOTE ->
  attr_source (new_attribute false x) (attr_name_ x) false.
Proof. intros Hn Hq. unfold new_attribute. rewrite Hq. by constructor. Qed.

Lemma HandleAttributeEnd_ok t c x w :
  In_tag t x true (attr_name_ x ++ w ++ [c]) -> spaces w -> attribute_name (attr_name_ x) -> attr_value_ x = [] ->
  attr_quote_ x = NO_QUOTE -> has_attr_value_ x = false ->
  (exists x', HandleAttributeEnd c x = Some (x', true) /\ steps t (literal_ x) (Some x')) \/
  (HandleAttributeEnd c x = Some (x, false) /\ ends_attr_name c || (c =c "="%char) = false).
Proof.
  intros HI Hw Hn Hv Hq Hh. pose proof (attribute_name_ne _ Hn) as Hne.
  pose proof (In_tag_element _ _ _ _ HI Hne) as Hx. unfold HandleAttributeEnd, ends_attr_name.
  case_bool_decide as H1; [|destruct (IsHtmlSpace c) eqn:H2; [|case_bool_decide as H3; [|case_bool_decide as H4]]].
  - left. subst c. eexists. split; [done|]. tag_stay (attr_name_ x ++ w ++ ["="%char] ++ []); [intros Hd Hel; by destruct (Hx Hd)| |done].
    by exists w, [].
  - left. eexists. split; [done|]. tag_stay (attr_name_ x ++ w ++ [c]); [intros Hd Hel; by destruct (Hx Hd)| |done]. exists (w ++ [c]).
    split; [auto|]. split; [by destruct w|done].
  - left. subst c. destruct (pending_attribute t x (attr_name_ x) false (w ++ [">"%char]) false (literal_ x))
      as (y & -> & HI' & He & Hc & Hs & <-); [done..|by apply bare_source|done|]. cbn [mbind option_bind].
    assert (exists b, In_tag t y b [">"%char]) as [b HI2].
    { destruct w as [|d w]; [by exists false|]. exists true. eapply (In_tag_gap t y false (d :: w)); [done|by apply spaces_gap|done]. }
    destruct (open_steps t y b true HI2 He Hc) as (x' & s & -> & H). cbn [mbind option_bind]. eexists. split; [done|].
    by exists x', s.
  - left. subst c. eexists. split; [done|]. tag_stay (attr_name_ x ++ w ++ ["/"%char]);
      [intros Hd Hel; by destruct (Hx Hd)|by right; exists w|by split; [right|]].
  - right. split; [done|]. by rewrite ?bool_decide_eq_false_2.
Qed.

Lemma EvalAttrName_ok t c x :
  In_tag t x true (attr_name_ x ++ [c]) -> state_ x = TAG_ATTR_NAME -> attr_bufs x -> steps t (literal_ x) (EvalAttrName c x).
Proof.
  intros HI Hs Hb. unfold attr_bufs in Hb. rewrite Hs in Hb. destruct Hb as (Hn & Hv & Hq & Hh). unfold EvalAttrName.
  destruct (HandleAttributeEnd_ok t c x []) as [(x' & -> & H)|[-> H]]; [done..| |]; cbn [mbind option_bind]; [done|].
  apply (tag_steps t (set_attr_name (attr_name_ x ++ [c]) x) (attr_name_ x ++ [c]));
    [eapply In_tag_ext; [exact HI|done..|]|by cbn; rewrite Hs|by unfold pend; cbn; rewrite Hs|].
  - intros Hd Hel. by destruct (In_tag_element _ _ _ _ HI (attribute_name_ne _ Hn) Hd).
  - unfold attr_bufs. cbn. rewrite Hs. split; [|done]. destruct (attr_name_ x) as [|d n]; [done|].
    destruct Hn as [Hd Hn]. split; [done|]. apply Forall_app. split; [done|by constructor].
Qed.

Lemma EvalAttrNameSpace_ok t c x w :
  In_tag t x true (attr_name_ x ++ w ++ [c]) -> spaces w -> w <> [] -> state_ x = TAG_ATTR_NAME_SPACE -> attr_bufs x ->
  steps t (literal_ x) (EvalAttrNameSpace c x).
Proof.
  intros HI Hw Hwne Hs Hb. unfold attr_bufs in Hb. rewrite Hs in Hb. destruct Hb as (Hn & Hv & Hq & Hh). unfold EvalAttrNameSpace.
  destruct (HandleAttributeEnd_ok t c x w) as [(x' & -> & H)|[-> H]]; [done..| |]; cbn [mbind option_bind]; [done|].
  destruct (pending_attribute t x (attr_name_ x) false (w ++ [c]) false (literal_ x))
    as (y & -> & HI' & He & (Hn' & Hc) & Hs' & <-); [done|by apply attribute_name_ne|done|done|by apply bare_source|done|].
  cbn [mbind option_bind]. rewrite Hn'. cbn [app].
  pose proof (In_tag_gap t y false w [c] HI' (spaces_gap w Hw) Hwne) as HI2.
  tag_stay [c]; [|done|]. { intros Hd Hel. by destruct (He Hd). }
  split; [|done]. split; [by apply orb_false_iff in H as [? _]|done].
Qed.

(** ** Attribute values *)

Lemma steps_has_value t L o :
  (exists x' s, o = Some x' /\ Inv (t ++ s) x' /\ L = s ++ literal_ x' /\ clean x') ->
  steps t L (x ← o; Some (set_has_attr_value false x)).
Proof.
  intros (x' & s & -> & HI & HL & (_ & _ & _ & Hh)). exists x', s. split; [|done]. cbn. f_equal. destruct x'; cbn in *. by subst.
Qed.

Lemma finish_steps t x b : In_tag t x b [">"%char] -> has_element x -> clean x ->
  steps t (literal_ x) (x ← EmitTagOpen true x; Some (set_has_attr_value false x)).
Proof.
  intros HI He Hc. apply steps_has_value. destruct (EmitTagOpen_steps t x b true HI He Hc) as (x' & s & ? & ? & ? & ? & _).
  by exists x', s.
Qed.

(** The value [v] of the attribute ends with [c]. *)
Lemma FinishAttribute_ok t c x s :
  In_tag t x true (s ++ [c]) -> attr_source (new_attribute true x) s false -> attribute_name (attr_name_ x) ->
  has_attr_value_ x = true -> IsHtmlSpace c || (c =c ">"%char) = true -> steps t (literal_ x) (FinishAttribute c true false x).
Proof.
  intros HI Hsrc Hn Hh Hc. pose proof (attribute_name_ne _ Hn) as Hne.
  destruct (pending_attribute t x s false [c] true (literal_ x)) as (y & Hy & HI' & He & Hcl & Hs & HL); [done..|].
  unfold FinishAttribute. destruct (IsHtmlSpace c) eqn:Es.
  - rewrite Hy. cbn [mbind option_bind]. rewrite <- HL. change (literal_ y) with (literal_ (set_state TAG_ATTRIBUTE y)).
    assert (HI2 : In_tag t y true []) by (apply (In_tag_gap t y false [c] []); [done|apply spaces_gap; by repeat constructor|done]).
    tag_stay (@nil ascii); [by destruct Hcl|done|done].
  - cbn in Hc. rewrite Hc. rewrite bool_decide_eq_false_2 by done. rewrite Hy. cbn [mbind option_bind negb]. rewrite <- HL.
    pose proof (finish_steps t y false) as Hf. apply bool_decide_eq_true in Hc. subst c. specialize (Hf HI' He Hcl).
    destruct Hf as (x' & s' & Hf & H). exists x', s'. split; [|done]. by destruct (EmitTagOpen true y).
Qed.

Lemma valued_source x w1 w2 : attribute_name (attr_name_ x) -> spaces w1 -> spaces w2 ->
  attribute_value (attr_quote_ x) (attr_value_ x) ->
  attr_source (new_attribute true x)
    (attr_name_ x ++ w1 ++ ["="%char] ++ w2 ++ quote_of (attr_quote_ x) ++ attr_value_ x ++ quote_of (attr_quote_ x))
    (quoted (attr_quote_ x)).
Proof. intros. by constructor. Qed.

Lemma EvalAttrVal_ok t c x w1 w2 :
  In_tag t x true ((attr_name_ x ++ w1 ++ ["="%char] ++ w2 ++ attr_value_ x) ++ [c]) -> spaces w1 -> spaces w2 ->
  state_ x = TAG_ATTR_VAL -> attribute_name (attr_name_ x) -> attribute_value NO_QUOTE (attr_value_ x) ->
  attr_quote_ x = NO_QUOTE -> has_attr_value_ x = true ->
  (attr_value_ x = [] -> c <> dquote /\ c <> squote /\ ends_value c = false) -> steps t (literal_ x) (EvalAttrVal c x).
Proof.
  intros HI Hw1 Hw2 Hs Hn Hv Hq Hh Hfirst. unfold EvalAttrVal. destruct (IsHtmlSpace c || _) eqn:E.
  - eapply FinishAttribute_ok; [exact HI| |done..]. pose proof (valued_source x w1 w2 Hn Hw1 Hw2) as Hsrc.
    rewrite Hq in Hsrc. cbn in Hsrc. rewrite app_nil_r in Hsrc. by apply Hsrc.
  - apply (tag_steps t (set_attr_value (attr_value_ x ++ [c]) x) (attr_name_ x ++ w1 ++ ["="%char] ++ w2 ++ attr_value_ x ++ [c])).
    + eapply In_tag_ext; [rewrite <- !app_assoc in HI; exact HI|done..|].
      intros Hd Hel. by destruct (In_tag_element _ _ _ _ HI (attribute_name_ne _ Hn) Hd).
    + cbn. by rewrite Hs.
    + unfold pend. cbn. rewrite Hs, Hq. by exists w1, w2.
    + unfold attr_bufs. cbn. rewrite Hs. split; [done|]. split; [|by destruct (attr_value_ x)]. destruct Hv as [Hv Hf].
      split; [apply Forall_app; by repeat constructor|]. intros d v Hd. destruct (attr_value_ x) as [|d' v'].
      * injection Hd as <- <-. by destruct (Hfirst eq_refl) as (? & ? & ?).
      * injection Hd as <- <-. by eapply Hf.
Qed.

Lemma EvalAttrEq_ok t c x w1 w2 :
  In_tag t x true ((attr_name_ x ++ w1 ++ ["="%char] ++ w2) ++ [c]) -> spaces w1 -> spaces w2 ->
  state_ x = TAG_ATTR_EQ -> attr_bufs x -> steps t (literal_ x) (EvalAttrEq c x).
Proof.
  intros HI Hw1 Hw2 Hs Hb. unfold attr_bufs in Hb. rewrite Hs in Hb. destruct Hb as (Hn & Hv & Hq & Hh). unfold EvalAttrEq.
  assert (Hx : has_element x) by (eapply In_tag_element; [done|by apply attribute_name_ne]).
  rewrite <- !app_assoc in HI.
  case_bool_decide as H1; [|case_bool_decide as H2; [|destruct (IsHtmlSpace c) eqn:H3; [|case_bool_decide as H4]]].
  - subst c. tag_stay (attr_name_ x ++ w1 ++ ["="%char] ++ w2 ++ [dquote]); [intros Hd Hel; by destruct (Hx Hd)| |].
    + exists w1, w2. cbn. by rewrite Hv.
    + split; [done|]. split; [|done]. cbn. rewrite Hv. apply not_elem_of_nil.
  - subst c. tag_stay (attr_name_ x ++ w1 ++ ["="%char] ++ w2 ++ [squote]); [intros Hd Hel; by destruct (Hx Hd)| |].
    + exists w1, w2. cbn. by rewrite Hv.
    + split; [done|]. split; [|done]. cbn. rewrite Hv. apply not_elem_of_nil.
  - apply (tag_steps t x (attr_name_ x ++ w1 ++ ["="%char] ++ w2 ++ [c])); [done|by rewrite Hs|unfold pend; rewrite Hs|
      unfold attr_bufs; by rewrite Hs].
    exists w1, (w2 ++ [c]). split; [done|]. split; [auto|done].
  - subst c. eapply (FinishAttribute_ok t _ x (attr_name_ x ++ w1 ++ ["="%char] ++ w2)); [by rewrite <- !app_assoc| |done..].
    pose proof (valued_source x w1 w2 Hn Hw1 Hw2) as Hsrc. rewrite Hq, Hv in Hsrc. cbn in Hsrc. rewrite !app_nil_r in Hsrc.
    apply Hsrc. split; [constructor|done].
  - apply (EvalAttrVal_ok t c (set_attr_quote NO_QUOTE (set_state TAG_ATTR_VAL x)) w1 w2); cbn; try done.
    + eapply In_tag_ext; [rewrite Hv, app_nil_r, <- !app_assoc; exact HI|done..|]. intros Hd Hel. by destruct (Hx Hd).
    + rewrite Hv. split; [constructor|done].
    + intros _. split; [done|]. split; [done|]. unfold ends_value. by rewrite H3, bool_decide_eq_false_2.
Qed.

(** [EvalAttrValDq] and [EvalAttrValSq] *)
Lemma EvalAttrValQuoted_ok t c x w1 w2 q quote :
  In_tag t x true ((attr_name_ x ++ w1 ++ ["="%char] ++ w2 ++ quote_of q ++ attr_value_ x) ++ [c]) -> spaces w1 -> spaces w2 ->
  (state_ x = TAG_ATTR_VALDQ /\ q = DOUBLE_QUOTE /\ quote = dquote \/ state_ x = TAG_ATTR_VALSQ /\ q = SINGLE_QUOTE /\ quote = squote) ->
  attr_bufs x -> steps t (literal_ x) (EvalAttrValQuoted quote c x).
Proof.
  intros HI Hw1 Hw2 Hst Hb.
  assert (H : attribute_name (attr_name_ x) /\ attribute_value q (attr_value_ x) /\ attr_quote_ x = q /\ has_attr_value_ x = true /\
    quote_of q = [quote] /\ quoted q = true /\ tag_state (state_ x) = true)
    by (unfold attr_bufs in Hb; by destruct Hst as [(Hs & -> & ->)|(Hs & -> & ->)]; rewrite Hs in *; naive_solver).
  destruct H as (Hn & Hv & Hq & Hh & Hqo & Hqd & Hts). unfold EvalAttrValQuoted. case_bool_decide.
  - subst c. pose proof (valued_source x w1 w2 Hn Hw1 Hw2) as Hsrc. rewrite Hq, Hqd in Hsrc. specialize (Hsrc Hv).
    destruct (pending_attribute t x (attr_name_ x ++ w1 ++ ["="%char] ++ w2 ++ quote_of q ++ attr_value_ x ++ quote_of q) true []
      true (literal_ x)) as (y & -> & HI' & He & Hcl & Hs & <-); [|by apply attribute_name_ne|done..|].
    { rewrite app_nil_r. rewrite <- !app_assoc, Hqo in *. exact HI. }
    apply (tag_steps t y []); [done|by rewrite Hs|unfold pend; by rewrite Hs|unfold attr_bufs; by rewrite Hs].
  - apply (tag_steps t (set_attr_value (attr_value_ x ++ [c]) x)
      (attr_name_ x ++ w1 ++ ["="%char] ++ w2 ++ quote_of q ++ attr_value_ x ++ [c])).
    + eapply In_tag_ext; [rewrite <- !app_assoc in HI; exact HI|done..|].
      intros Hd Hel. by destruct (In_tag_element _ _ _ _ HI (attribute_name_ne _ Hn) Hd).
    + done.
    + unfold pend. cbn. rewrite Hq. destruct Hst as [(-> & _)|(-> & _)]; by exists w1, w2.
    + unfold attr_bufs. cbn. destruct Hst as [(-> & -> & ->)|(-> & -> & ->)]; (split; [done|]; split; [|done]);
        cbn in *; rewrite elem_of_app, list_elem_of_singleton; naive_solver.
Qed.

(** ** The name of the tag, and slashes *)

Lemma EvalTagOpen_ok t c x :
  Ready t x -> state_ x = TAG_OPEN -> discard_until_start_state_for_error_recovery_ x = false -> element_ x = None ->
  tag_name (token_ x) -> literal_ x = lit "<" ++ token_ x ++ [c] -> steps t (literal_ x) (EvalTagOpen c x).
Proof.
  intros HR Hs Hd Hel Htn HL.
  assert (HI : In_tag t x false [c]).
  { destruct HR as [HC Hc Hr]. split; [done..|]. unfold Reading. rewrite Hd. exists (token_ x), [], [].
    split; [done|]. split; [done|]. split; [constructor|]. unfold pending_tag. rewrite Hel. by destruct Hc. }
  unfold EvalTagOpen. destruct (IsLegalTagChar c) eqn:E1; [|case_bool_decide as E2; [|case_bool_decide as E3; [|destruct (IsHtmlSpace c) eqn:E4]]].
  - stay_in Hs. split; [done|]. split; [|split; [done|by rewrite app_nil_r]].
    destruct (token_ x) as [|d n]; [done|]. destruct Htn as [Hd' Hn]. split; [done|]. apply Forall_app. by repeat constructor.
  - subst c. destruct (MakeElement_ok t x false [">"%char] HI Hd) as (n & tok & e & -> & HI'). cbn [mbind option_bind].
    apply (open_steps t (set_token tok (set_element (Some e) (set_nodes n x))) false true HI'); [done|].
    by destruct HR as [_ Hc _].
  - subst c. assert (HI' : In_tag t x true []) by (apply (In_tag_gap t x false ["/"%char] []); [done|by repeat constructor|done]).
    destruct HR as [_ (? & ? & ? & ?) _]. tag_stay (@nil ascii); [by left|split; [by left|done]].
  - assert (HI' : In_tag t x true []) by (apply (In_tag_gap t x false [c] []); [done|apply spaces_gap; by repeat constructor|done]).
    destruct HR as [_ (? & ? & ? & ?) _]. by tag_stay (@nil ascii).
  - by stay.
Qed.

(** What was pending before the slash becomes an attribute. *)
Lemma brief_attribute t c x p :
  In_tag t x true (p ++ [c]) -> state_ x = TAG_BRIEF_CLOSE -> pend x p -> attr_bufs x ->
  exists y, (if bool_decide (attr_name_ x = []) then Some x else MakeAttribute (has_attr_value_ x) x) = Some y /\
    In_tag t y true [c] /\ clean y /\ literal_ y = literal_ x /\ (has_element x -> has_element y).
Proof.
  intros HI Hs Hp Hb. unfold pend, attr_bufs in *. rewrite Hs in *. destruct Hb as (Hn & Hv & Hq & Hh).
  case_bool_decide as Hnil.
  - exists x. destruct Hp as [[_ ->]|(w & Hw & ->)]; [by repeat split; try apply HI|].
    rewrite Hnil in HI. cbn [app] in HI. split; [done|]. split; [|by repeat split].
    rewrite <- app_assoc in HI. apply (In_tag_gap t x true (w ++ ["/"%char]) [c]); [by rewrite <- app_assoc| |by destruct w].
    apply Forall_app. split; [by apply spaces_gap|by repeat constructor].
  - destruct Hn as [?|Hn]; [done|]. destruct Hp as [[? _]|(w & Hw & ->)]; [done|]. rewrite Hh.
    rewrite <- !app_assoc in HI.
    destruct (pending_attribute t x (attr_name_ x) false (w ++ ["/"%char] ++ [c]) false (literal_ x))
      as (y & -> & HI' & He & Hc & _ & HL); [done..|by apply bare_source|done|].
    exists y. split; [done|]. split; [|done]. apply (In_tag_gap t y false (w ++ ["/"%char]) [c]); [by rewrite <- app_assoc| |by destruct w].
    apply Forall_app. split; [by apply spaces_gap|by repeat constructor].
Qed.

Lemma brief_steps t x : In_tag t x true [">"%char] -> has_element x -> clean x ->
  steps t (literal_ x) (x ← EmitTagOpen false x; x ← EmitTagBriefClose x; Some (set_has_attr_value false x)).
Proof.
  intros HI He Hc. destruct (EmitTagOpen_steps t x true false HI He Hc) as (x1 & s & -> & HI1 & HL & Hc1 & Hd & HL1 & Hq & Htop).
  cbn [mbind option_bind].
  assert (steps t (literal_ x) (x ← EmitTagBriefClose x1; Some (set_has_attr_value false x))) as H; [|exact H].
  apply steps_has_value. unfold EmitTagBriefClose. rewrite Hd.
  destruct (discard_until_start_state_for_error_recovery_ x) eqn:Hdx.
  - eexists _, s. split; [done|]. split; [|done]. destruct HI1 as [HC1 Hb1 _ Hd1]. split; [by destruct HC1|done..].
  - destruct (Htop eq_refl eq_refl) as (e & info & rest & Est). rewrite Est. cbn [mbind option_bind].
    destruct (CloseTop_ok false x1 e info rest BRIEF_CLOSE (t ++ s) []) as (x2 & -> & HC2 & Hcl & _); [apply HI1|done|done|].
    cbn [mbind option_bind]. rewrite app_nil_r in HC2. eexists _, s. split; [done|].
    pose proof (touches_depth _ _ (closes_touches _ _ Hcl) (Inv_depth _ _ HI1)) as Hd2. frame (closes_touches _ _ Hcl).
    destruct Hq as [Hq1 Hq2], Hc1 as (? & ? & ? & ?).
    assert (clean x2) by (repeat split; congruence).
    split; [split; [by destruct HC2|done|split; cbn; congruence|done]|]. split; [cbn; congruence|done].
Qed.

Lemma EvalTagBriefClose_ok t c x p :
  In_tag t x true (p ++ [c]) -> state_ x = TAG_BRIEF_CLOSE -> pend x p -> attr_bufs x ->
  steps t (literal_ x) (EvalTagBriefClose c x).
Proof.
  intros HI Hs Hp Hb. unfold EvalTagBriefClose.
  assert (Hh : has_attr_value_ x = false) by (unfold attr_bufs in Hb; rewrite Hs in Hb; apply Hb). rewrite Hh.
  case_bool_decide as Hc.
  - subst c.
    assert (exists x1, (if discard_until_start_state_for_error_recovery_ x then Some x else MakeElement x) = Some x1 /\
      In_tag t x1 true (p ++ [">"%char]) /\ has_element x1 /\ state_ x1 = TAG_BRIEF_CLOSE /\ pend x1 p /\ attr_bufs x1 /\
      has_attr_value_ x1 = false /\ literal_ x1 = literal_ x) as (x1 & -> & HI1 & He1 & Hs1 & Hp1 & Hb1 & Hh1 & HL1).
    { destruct (discard_until_start_state_for_error_recovery_ x) eqn:Hd.
      - exists x. repeat split; try done; try apply HI. unfold has_element. congruence.
      - destruct (MakeElement_ok t x true (p ++ [">"%char]) HI Hd) as (n & tok & e & -> & HI'). eexists.
        by repeat split; try apply HI'. }
    cbn [mbind option_bind]. unfold FinishAttribute. change (IsHtmlSpace ">") with false. cbv iota.
    rewrite bool_decide_eq_true_2 by done.
    destruct (brief_attribute t _ x1 p HI1 Hs1 Hp1 Hb1) as (y & Hy & HI2 & Hc2 & HL2 & He2). rewrite Hy.
    cbn [mbind option_bind negb]. rewrite <- HL1, <- HL2. by apply brief_steps; [|apply He2|].
  - destruct (brief_attribute t c x p HI Hs Hp Hb) as (y & Hy & HI2 & (? & ? & ? & ?) & HL2 & He2). rewrite Hh in Hy. rewrite Hy.
    cbn [mbind option_bind]. rewrite <- HL2. apply (EvalAttribute_ok t c (set_state TAG_ATTRIBUTE y)); try done.
    by eapply In_tag_ext.
Qed.
