(* ===== verification/HtmlChunks.v ===== *)
(** * The HTML lexer: the size of the document

    How many bytes were parsed is read by [Parse] alone, so that it does not matter how a
    document is cut into chunks; and no step declares the size limit exceeded. *)

From S2P Require Import Prelude StringUtil HtmlKeywords HtmlLexer HtmlEvents HtmlStack HtmlTags.

(** ** What the steps leave alone

    With [tag], also the attributes of all elements: only the steps inside a tag change
    them. *)

Definition attribute_lists (nodes : list HtmlElement) : list (list Attribute) := map attributes_ nodes.
#[local] Arguments attribute_lists : simpl never.

Lemma attribute_lists_alter f e nodes : (forall el, attributes_ (f el) = attributes_ el) -> attribute_lists (alter f e nodes) = attribute_lists nodes.
Proof.
  intros Hf. apply list_eq. intros i. unfold attribute_lists. rewrite !list_lookup_fmap. destruct (decide (e = i)) as [->|Hn].
  - rewrite list_lookup_alter_eq. destruct (nodes !! i); cbn; by rewrite ?Hf.
  - by rewrite list_lookup_alter_ne.
Qed.

Section config.
Variable tag : bool.

Definition config (x : HtmlLexer) : bool * list (list Attribute) * bool * Z * Z :=
  (if tag then has_attr_value_ x else false, if tag then attribute_lists (nodes_ x) else [],
   size_limit_exceeded_ x, num_bytes_parsed_ x, size_limit_ x).
Definition keeps_config (x : HtmlLexer) (o : option HtmlLexer) : Prop := forall x', o = Some x' -> config x' = config x.

Lemma keeps_None x : keeps_config x None.
Proof. done. Qed.
Lemma keeps_Some x y : config y = config x -> keeps_config x (Some y).
Proof. by intros H x' [= <-]. Qed.
Lemma keeps_bind x o f : keeps_config x o -> (forall y, config y = config x -> keeps_config x (f y)) -> keeps_config x (o ≫= f).
Proof. intros Ho Hf x' E. destruct o as [y|]; [|done]. by apply (Hf y (Ho y eq_refl)). Qed.
Lemma keeps_option {A} x (o : option A) f : (forall a, keeps_config x (f a)) -> keeps_config x (o ≫= f).
Proof. intros Hf. destruct o; [apply Hf|done]. Qed.
Lemma keeps_pair {A} x (o : option (HtmlLexer * A)) f :
  (forall y a, o = Some (y, a) -> config y = config x) -> (forall y a, config y = config x -> keeps_config x (f (y, a))) ->
  keeps_config x (o ≫= f).
Proof. intros Ho Hf x' E. destruct o as [[y a]|]; [|done]. by apply (Hf y a (Ho y a eq_refl)). Qed.
Lemma keeps_pair_r {A} x (o : option (A * HtmlLexer)) f :
  (forall a y, o = Some (a, y) -> config y = config x) -> (forall a y, config y = config x -> keeps_config x (f (a, y))) ->
  keeps_config x (o ≫= f).
Proof. intros Ho Hf x' E. destruct o as [[a y]|]; [|done]. by apply (Hf a y (Ho a y eq_refl)). Qed.
Lemma keeps_eq x y o : config y = config x -> keeps_config y o -> keeps_config x o.
Proof. intros E H x' Hx. by rewrite (H x' Hx). Qed.

Create HintDb config.
(** The configurations of two states that differ in other fields. *)
Ltac cfg :=
  unfold skip_if_exceeded; repeat match goal with |- context [match ?b with _ => _ end] => destruct b end;
  unfold config in *; try match goal with H : tag = false |- _ => rewrite H in * end;
  cbn in *; rewrite ?attribute_lists_alter by done; congruence.
Ltac keeps :=
  repeat match goal with
  | |- keeps_config _ None => apply keeps_None
  | |- keeps_config _ (Some _) => apply keeps_Some; solve [cfg]
  | |- keeps_config _ (let _ := _ in _) => cbv zeta
  | |- keeps_config _ (if ?b then _ else _) => destruct b
  | |- keeps_config _ (match ?l with _ => _ end) => destruct l
  end.

Lemma AddEvent_config ev x : keeps_config x (AddEvent ev x).
Proof. unfold AddEvent. apply keeps_option. intros p. keeps. Qed.

Lemma CloseElement_config e style x : keeps_config x (CloseElement e style x).
Proof.
  unfold CloseElement. apply keeps_option. intros el. cbv zeta.
  apply keeps_bind; [destruct (style_ el); (eapply keeps_eq; [|apply AddEvent_config]; solve [cfg])|].
  intros y Hy. apply keeps_Some. unfold skip_if_exceeded. by destruct (size_limit_exceeded_ y).
Qed.
#[local] Hint Resolve AddEvent_config CloseElement_config : config.

(** The callee is given a state with the same configuration. *)
Ltac callee := first [solve [auto with config]|eapply keeps_eq; [|solve [auto with config]]; solve [cfg]].

Lemma PopForeign_config stack x : keeps_config x (PopForeign_loop stack x).
Proof.
  revert x. induction stack as [|[oe info] [|below rest] IH]; intros x; [by apply keeps_Some..|].
  change (keeps_config x (if bool_decide (ns info = kHtml) || html_integration_point info || mathml_text_integration_point info
    then Some x else e ← oe; x ← CloseElement e UNCLOSED (set_element_stack (below :: rest) x); PopForeign_loop (below :: rest) x)).
  keeps. apply keeps_option. intros e. apply keeps_bind; [callee|]. intros y Hy. eapply keeps_eq; [exact Hy|apply IH].
Qed.
#[local] Hint Resolve PopForeign_config : config.

Lemma PopElementsDownTo_config k x x' e : PopElementsDownTo k x = Some (x', e) -> config x' = config x.
Proof.
  revert x. induction k as [|k IH]; intros x; cbn [PopElementsDownTo]; (destruct (element_stack_ x) as [|[[o|] info] rest]; [done| |done]);
    cbn [mbind option_bind]; [by intros [= <- <-]|].
  destruct (CloseElement _ _ _) as [y|] eqn:E; [|done]. intros H%IH. by rewrite H, (CloseElement_config _ _ _ _ E).
Qed.

Lemma PopElementMatchingTag_config name x x' r : PopElementMatchingTag name x = Some (x', r) -> config x' = config x.
Proof.
  unfold PopElementMatchingTag. destruct (if InForeignContent x then _ else _) as [[y found]|] eqn:E; [|done].
  assert (config y = config x) as <-.
  { destruct (InForeignContent x); [|by injection E as <- <-]. destruct (NameIsOneOf _ _).
    - unfold PopForeignElementsForBreakout in E. destruct (PopForeign_loop _ x) as [z|] eqn:Ez; [|done]. injection E as <- <-.
      by apply (PopForeign_config _ _ _ Ez).
    - destruct (foreign_search _ _ _ _); [|done]. by injection E as <- <-. }
  cbn [mbind option_bind]. destruct (match found with Some k => Some (Some k) | None => _ end) as [[k|]|]; cbn [mbind option_bind]; [|by intros [= <- <-]|done].
  destruct (PopElementsDownTo k y) as [[z e]|] eqn:Ez; [|done]. intros [= <- <-]. by apply PopElementsDownTo_config in Ez.
Qed.

Lemma EmitLiteral_config x : keeps_config x (EmitLiteral x).
Proof. unfold EmitLiteral. keeps. apply keeps_bind; [callee|]. intros y Hy. keeps. Qed.
#[local] Hint Resolve EmitLiteral_config : config.

Lemma EmitTagClose_config style x : keeps_config x (EmitTagClose style x).
Proof.
  unfold EmitTagClose. apply keeps_pair; [by apply PopElementMatchingTag_config|]. intros y [e|] Hy; cbn [mbind option_bind].
  - apply keeps_bind; [|intros z Hz; keeps]. apply keeps_option. intros el. destruct (StringCaseEqual _ _); [callee|keeps].
  - apply keeps_bind; [callee|]. intros z Hz. keeps.
Qed.
#[local] Hint Resolve EmitTagClose_config : config.

Lemma AutoClose_config stack e k x : keeps_config x (AutoClose_loop stack e k x).
Proof.
  revert x. induction stack as [|[[o|] info] rest IH]; intros x; cbn [AutoClose_loop]; [by keeps| |by keeps].
  apply keeps_option. intros open. keeps. apply keeps_bind; [callee|]. intros y Hy. apply keeps_option. intros el. keeps.
  eapply keeps_eq; [|apply IH]. cfg.
Qed.
#[local] Hint Resolve AutoClose_config : config.

(** Any sequence of these. *)
Ltac keeps_all :=
  repeat first
    [ progress keeps
    | callee
    | apply keeps_bind; [|intros ? ?]
    | apply keeps_pair; [|intros ? ? ?]
    | apply keeps_pair_r; [|intros ? ? ?]
    | apply keeps_option; intros ? ].

Lemma open_element_config b e el n x : keeps_config x (open_element b e el n x).
Proof. unfold open_element, push_open. keeps_all. Qed.
#[local] Hint Resolve open_element_config : config.

Lemma EmitTagOpen_config b x : keeps_config x (EmitTagOpen b x).
Proof.
  unfold EmitTagOpen. keeps_all.
  intros r y. destruct (negb _ && _); [|by intros [= <- <-]]. unfold PopForeignElementsForBreakout.
  destruct (PopForeign_loop _ x) as [z|] eqn:Ez; [|done]. intros [= <- <-]. pose proof (PopForeign_config _ _ _ Ez). cfg.
Qed.
#[local] Hint Resolve EmitTagOpen_config : config.

Lemma EmitTagBriefClose_config x : keeps_config x (EmitTagBriefClose x).
Proof. unfold EmitTagBriefClose. keeps_all. Qed.

Hypothesis no_tag : tag = false.

Lemma MakeElement_config x : keeps_config x (MakeElement x).
Proof. unfold MakeElement, NewElement. keeps_all. Qed.
Lemma MakeAttribute_config b x : keeps_config x (MakeAttribute b x).
Proof. unfold MakeAttribute. keeps_all. Qed.
#[local] Hint Resolve EmitTagBriefClose_config MakeElement_config MakeAttribute_config : config.
Lemma FinishAttribute_config c b k x : keeps_config x (FinishAttribute c b k x).
Proof. unfold FinishAttribute. keeps_all. Qed.
Lemma chop_literal_config n x : keeps_config x (chop_literal n x).
Proof. unfold chop_literal. keeps_all. Qed.
#[local] Hint Resolve FinishAttribute_config chop_literal_config : config.
Lemma EvalStart_config c x : keeps_config x (EvalStart c x).
Proof. unfold EvalStart, append_literal. keeps_all. Qed.
#[local] Hint Resolve EvalStart_config : config.
Lemma Restart_config c x : keeps_config x (Restart c x).
Proof. unfold Restart, append_literal. keeps_all. Qed.
Lemma EvalAttribute_config c x : keeps_config x (EvalAttribute c x).
Proof. unfold EvalAttribute. keeps_all. Qed.
Lemma EvalDirective_config c x : keeps_config x (EvalDirective c x).
Proof. unfold EvalDirective, EmitDirective, append_token. keeps_all. Qed.
Lemma EvalAttrVal_config c x : keeps_config x (EvalAttrVal c x).
Proof. unfold EvalAttrVal. keeps_all. Qed.
Lemma HandleAttributeEnd_config c x x' b : HandleAttributeEnd c x = Some (x', b) -> config x' = config x.
Proof.
  unfold HandleAttributeEnd. repeat case_bool_decide; try (destruct (IsHtmlSpace c)); try (intros [= <- <-]; solve [cfg]).
  destruct (MakeAttribute false x) as [y|] eqn:Ey; [|done]. cbn. destruct (EmitTagOpen true y) as [z|] eqn:Ez; [|done].
  intros [= <- <-]. by rewrite (EmitTagOpen_config _ _ _ Ez), (MakeAttribute_config _ _ _ Ey).
Qed.
#[local] Hint Resolve Restart_config EvalAttribute_config EvalDirective_config EvalAttrVal_config HandleAttributeEnd_config : config.

(** No step changes the counters. *)
Lemma Eval_config c x : keeps_config x (Eval c x).
Proof.
  unfold Eval. destruct (state_ x);
    unfold EvalTag, EvalTagOpen, EvalTagCloseNoName, EvalTagClose, EvalTagBriefClose, EvalCommentStart1, EvalCommentStart2,
      EvalCommentBody, EvalCommentEnd1, EvalCommentEnd2, EvalCdataStart, EvalCdataBody, EvalCdataEnd1, EvalCdataEnd2,
      EvalLiteralTag, EvalScriptTag, EvalAttrName, EvalAttrNameSpace, EvalAttrEq, EvalAttrValQuoted, EvalBogusComment,
      EmitComment, EmitCdata, append_token, discard_rest; keeps_all.
  all: intros y b; apply HandleAttributeEnd_config.
Qed.
End config.

(** ** The count of bytes *)

Definition sized (n : Z) (x : HtmlLexer) : HtmlLexer := set_num_bytes_parsed n x.

Section sized.
Context (n : Z) (x : HtmlLexer).
Lemma sized_get_queue : queue_ (sized n x) = queue_ x.
Proof. done. Qed.
Lemma sized_get_nodes : nodes_ (sized n x) = nodes_ x.
Proof. done. Qed.
Lemma sized_get_state : state_ (sized n x) = state_ x.
Proof. done. Qed.
Lemma sized_get_token : token_ (sized n x) = token_ x.
Proof. done. Qed.
Lemma sized_get_literal : literal_ (sized n x) = literal_ x.
Proof. done. Qed.
Lemma sized_get_attr_name : attr_name_ (sized n x) = attr_name_ x.
Proof. done. Qed.
Lemma sized_get_attr_value : attr_value_ (sized n x) = attr_value_ x.
Proof. done. Qed.
Lemma sized_get_attr_quote : attr_quote_ (sized n x) = attr_quote_ x.
Proof. done. Qed.
Lemma sized_get_has_attr_value : has_attr_value_ (sized n x) = has_attr_value_ x.
Proof. done. Qed.
Lemma sized_get_element : element_ (sized n x) = element_ x.
Proof. done. Qed.
Lemma sized_get_literal_close : literal_close_ (sized n x) = literal_close_ x.
Proof. done. Qed.
Lemma sized_get_script_escape_state : script_escape_state_ (sized n x) = script_escape_state_ x.
Proof. done. Qed.
Lemma sized_get_discard : discard_until_start_state_for_error_recovery_ (sized n x) = discard_until_start_state_for_error_recovery_ x.
Proof. done. Qed.
Lemma sized_get_element_stack : element_stack_ (sized n x) = element_stack_ x.
Proof. done. Qed.
Lemma sized_get_size_limit_exceeded : size_limit_exceeded_ (sized n x) = size_limit_exceeded_ x.
Proof. done. Qed.
Lemma sized_get_skip_parsing : skip_parsing_ (sized n x) = skip_parsing_ x.
Proof. done. Qed.
Lemma sized_get_size_limit : size_limit_ (sized n x) = size_limit_ x.
Proof. done. Qed.
Lemma sized_set_queue v : set_queue v (sized n x) = sized n (set_queue v x).
Proof. done. Qed.
Lemma sized_set_nodes v : set_nodes v (sized n x) = sized n (set_nodes v x).
Proof. done. Qed.
Lemma sized_set_state v : set_state v (sized n x) = sized n (set_state v x).
Proof. done. Qed.
Lemma sized_set_token v : set_token v (sized n x) = sized n (set_token v x).
Proof. done. Qed.
Lemma sized_set_literal v : set_literal v (sized n x) = sized n (set_literal v x).
Proof. done. Qed.
Lemma sized_set_attr_name v : set_attr_name v (sized n x) = sized n (set_attr_name v x).
Proof. done. Qed.
Lemma sized_set_attr_value v : set_attr_value v (sized n x) = sized n (set_attr_value v x).
Proof. done. Qed.
Lemma sized_set_attr_quote v : set_attr_quote v (sized n x) = sized n (set_attr_quote v x).
Proof. done. Qed.
Lemma sized_set_has_attr_value v : set_has_attr_value v (sized n x) = sized n (set_has_attr_value v x).
Proof. done. Qed.
Lemma sized_set_element v : set_element v (sized n x) = sized n (set_element v x).
Proof. done. Qed.
Lemma sized_set_literal_close v : set_literal_close v (sized n x) = sized n (set_literal_close v x).
Proof. done. Qed.
Lemma sized_set_script_escape_state v : set_script_escape_state v (sized n x) = sized n (set_script_escape_state v x).
Proof. done. Qed.
Lemma sized_set_discard v : set_discard v (sized n x) = sized n (set_discard v x).
Proof. done. Qed.
Lemma sized_set_element_stack v : set_element_stack v (sized n x) = sized n (set_element_stack v x).
Proof. done. Qed.
Lemma sized_set_size_limit_exceeded v : set_size_limit_exceeded v (sized n x) = sized n (set_size_limit_exceeded v x).
Proof. done. Qed.
Lemma sized_set_skip_parsing v : set_skip_parsing v (sized n x) = sized n (set_skip_parsing v x).
Proof. done. Qed.
Lemma sized_set_size_limit v : set_size_limit v (sized n x) = sized n (set_size_limit v x).
Proof. done. Qed.
Lemma sized_Parent : Parent (sized n x) = Parent x.
Proof. done. Qed.
Lemma sized_CurrentInfo : CurrentInfo (sized n x) = CurrentInfo x.
Proof. done. Qed.
Lemma sized_InForeignContent : InForeignContent (sized n x) = InForeignContent x.
Proof. done. Qed.
Lemma sized_StartTagUsesHtmlRules el : StartTagUsesHtmlRules el (sized n x) = StartTagUsesHtmlRules el x.
Proof. done. Qed.
Lemma sized_IsScriptHtmlCommentClosing c : IsScriptHtmlCommentClosing c (sized n x) = IsScriptHtmlCommentClosing c x.
Proof. done. Qed.
Lemma sized_node_parent ev : node_parent ev (sized n x) = node_parent ev x.
Proof. by destruct ev. Qed.
Lemma sized_modify e f : modify e f (sized n x) = sized n (modify e f x).
Proof. done. Qed.
Lemma sized_skip_if_exceeded : skip_if_exceeded (sized n x) = sized n (skip_if_exceeded x).
Proof. unfold skip_if_exceeded. rewrite sized_get_size_limit_exceeded. by destruct (size_limit_exceeded_ x). Qed.
Lemma sized_append_token s : append_token s (sized n x) = sized n (append_token s x).
Proof. done. Qed.
Lemma sized_append_literal c : append_literal c (sized n x) = sized n (append_literal c x).
Proof. done. Qed.
Lemma sized_discard_rest c : discard_rest c (sized n x) = sized n (discard_rest c x).
Proof. unfold discard_rest. by repeat case_bool_decide. Qed.
End sized.
Create Rewrite HintDb sized.
Hint Rewrite sized_get_queue sized_get_nodes sized_get_state sized_get_token sized_get_literal sized_get_attr_name
  sized_get_attr_value sized_get_attr_quote sized_get_has_attr_value sized_get_element sized_get_literal_close
  sized_get_script_escape_state sized_get_discard sized_get_element_stack sized_get_size_limit_exceeded
  sized_get_skip_parsing sized_get_size_limit sized_set_queue sized_set_nodes sized_set_state sized_set_token
  sized_set_literal sized_set_attr_name sized_set_attr_value sized_set_attr_quote sized_set_has_attr_value
  sized_set_element sized_set_literal_close sized_set_script_escape_state sized_set_discard
  sized_set_element_stack sized_set_size_limit_exceeded sized_set_skip_parsing sized_set_size_limit sized_Parent
  sized_CurrentInfo sized_InForeignContent sized_StartTagUsesHtmlRules sized_IsScriptHtmlCommentClosing
  sized_node_parent sized_modify sized_skip_if_exceeded sized_append_token sized_append_literal
  sized_discard_rest : sized.

(** [f] does not read the count. *)
Ltac sized :=
  repeat first
    [ reflexivity
    | progress (autorewrite with sized)
    | progress (cbn [mbind option_bind fmap option_fmap option_map fst snd])
    | progress cbv zeta
    | match goal with
      | p : (_ * _)%type |- _ => destruct p
      | |- context [if ?b then _ else _] => destruct b
      | |- context [match ?l with _ => _ end] => destruct l
      | |- context [(?o ≫= _) ≫= _] => destruct o as [?|]
      | |- context [(_ <$> ?o) ≫= _] => destruct o as [?|]
      | |- context [?o ≫= _] => destruct o as [?|]
      end ].

Section steps.
Context (n : Z).

Lemma sized_AddEvent ev x : AddEvent ev (sized n x) = sized n <$> AddEvent ev x.
Proof. unfold AddEvent. sized. Qed.
Hint Rewrite sized_AddEvent : sized.
Lemma sized_CloseElement e style x : CloseElement e style (sized n x) = sized n <$> CloseElement e style x.
Proof. unfold CloseElement. sized. Qed.
Hint Rewrite sized_CloseElement : sized.

Lemma sized_PopForeign stack x : PopForeign_loop stack (sized n x) = sized n <$> PopForeign_loop stack x.
Proof.
  revert x. induction stack as [|[oe info] [|below rest] IH]; intros x; [done..|].
  change (PopForeign_loop ((oe, info) :: below :: rest)) with (fun x =>
    if bool_decide (ns info = kHtml) || html_integration_point info || mathml_text_integration_point info
    then Some x else e ← oe; x ← CloseElement e UNCLOSED (set_element_stack (below :: rest) x); PopForeign_loop (below :: rest) x).
  cbv beta. destruct (_ || _); [done|]. destruct oe as [e|]; [|done]. cbn [mbind option_bind]. autorewrite with sized.
  destruct (CloseElement _ _ _) as [y|]; [|done]. apply IH.
Qed.
Hint Rewrite sized_PopForeign : sized.

Lemma sized_PopElementsDownTo k x :
  PopElementsDownTo k (sized n x) = (fun r => (sized n r.1, r.2)) <$> PopElementsDownTo k x.
Proof.
  revert x. induction k as [|k IH]; intros x; cbn [PopElementsDownTo]; autorewrite with sized;
    (destruct (element_stack_ x) as [|[[o|] info] rest]; [done| |done]); cbn [mbind option_bind]; [done|].
  autorewrite with sized. destruct (CloseElement _ _ _) as [y|]; [|done]. apply IH.
Qed.
Hint Rewrite sized_PopElementsDownTo : sized.

Lemma sized_PopElementMatchingTag tag x :
  PopElementMatchingTag tag (sized n x) = (fun r => (sized n r.1, r.2)) <$> PopElementMatchingTag tag x.
Proof.
  unfold PopElementMatchingTag, PopForeignElementsForBreakout. autorewrite with sized.
  assert (Hrest : forall y found,
    (found ← match found with Some k => Some (Some k) | None => html_search (nodes_ y) tag false false 0 (element_stack_ y) end;
     match found with Some k => '(x, e) ← PopElementsDownTo k (sized n y); Some (x, Some e) | None => Some (sized n y, None) end) =
    (fun r : HtmlLexer * option nat => (sized n r.1, r.2)) <$>
      (found ← match found with Some k => Some (Some k) | None => html_search (nodes_ y) tag false false 0 (element_stack_ y) end;
       match found with Some k => '(x, e) ← PopElementsDownTo k y; Some (x, Some e) | None => Some (y, None) end)).
  { intros y found. destruct (match found with Some k => Some (Some k) | None => _ end) as [[k|]|]; [|done..].
    cbn [mbind option_bind]. autorewrite with sized. by destruct (PopElementsDownTo k y) as [[? ?]|]. }
  destruct (InForeignContent x); [|exact (Hrest x None)]. destruct (NameIsOneOf _ _).
  - destruct (PopForeign_loop _ _) as [y|]; [exact (Hrest y None)|done].
  - destruct (foreign_search _ _ _ _) as [found|]; [exact (Hrest x found)|done].
Qed.
Hint Rewrite sized_PopElementMatchingTag : sized.

Lemma sized_EmitLiteral x : EmitLiteral (sized n x) = sized n <$> EmitLiteral x.
Proof. unfold EmitLiteral. sized. Qed.
Hint Rewrite sized_EmitLiteral : sized.

Lemma sized_EmitTagClose style x : EmitTagClose style (sized n x) = sized n <$> EmitTagClose style x.
Proof. unfold EmitTagClose. sized. Qed.
Hint Rewrite sized_EmitTagClose : sized.

Lemma sized_AutoClose stack e k x : AutoClose_loop stack e k (sized n x) = sized n <$> AutoClose_loop stack e k x.
Proof.
  revert x. induction stack as [|[[o|] info] rest IH]; intros x; cbn [AutoClose_loop]; [done| |done].
  autorewrite with sized. destruct (nodes_ x !! o) as [open|]; [|done]. cbn [mbind option_bind]. destruct (IsAutoClose _ _); [|done].
  autorewrite with sized. destruct (CloseElement _ _ _) as [y|]; [|done]. cbn [mbind option_bind fmap option_fmap option_map].
  autorewrite with sized. destruct (nodes_ y !! e) as [el|]; [|done]. cbn [mbind option_bind]. destruct (decide _); [|done].
  autorewrite with sized. apply IH.
Qed.
Hint Rewrite sized_AutoClose : sized.

Lemma sized_push_open e el m x : push_open e el m (sized n x) = sized n (push_open e el m x).
Proof.
  unfold push_open. rewrite sized_skip_if_exceeded. generalize (skip_if_exceeded x). intros y. cbv zeta.
  autorewrite with sized. destruct (_ <=? _)%nat; by destruct (IsLiteralTag (keyword el)).
Qed.
Hint Rewrite sized_push_open : sized.
Lemma sized_open_element b e el m x : open_element b e el m (sized n x) = sized n <$> open_element b e el m x.
Proof. unfold open_element. sized. Qed.
Lemma sized_element_namespace hr el x : element_namespace hr el (sized n x) = element_namespace hr el x.
Proof. done. Qed.
Hint Rewrite sized_open_element sized_element_namespace : sized.

Lemma sized_EmitTagOpen b x : EmitTagOpen b (sized n x) = sized n <$> EmitTagOpen b x.
Proof.
  unfold EmitTagOpen, PopForeignElementsForBreakout. autorewrite with sized.
  destruct (discard_until_start_state_for_error_recovery_ x); [done|]. destruct (element_ x) as [e|]; [|done].
  cbn [mbind option_bind]. destruct (nodes_ x !! e) as [el|]; [|done]. cbn [mbind option_bind].
  destruct (negb (bool_decide (token_ x = []))); [done|]. cbv zeta.
  match goal with |- _ ≫= ?K = _ => assert (Hrest : forall hr y, K (hr, sized n y) = sized n <$> K (hr, y)) end.
  - intros hr y. autorewrite with sized. set (m := element_namespace hr el y).
    replace (match m with kHtml => sized n y | _ => sized n (modify e (set_name (MakeKeywordlessName (name_str el))) y) end)
      with (sized n (match m with kHtml => y | _ => modify e (set_name (MakeKeywordlessName (name_str el))) y end)) by by destruct m.
    generalize (match m with kHtml => y | _ => modify e (set_name (MakeKeywordlessName (name_str el))) y end).
    intros z. sized.
  - destruct (_ && _); [|apply Hrest]. destruct (PopForeign_loop _ _) as [y|]; [|done]. cbn [mbind option_bind fmap option_fmap option_map].
    autorewrite with sized. apply (Hrest true (modify e (set_parent (Parent y)) y)).
Qed.
Hint Rewrite sized_EmitTagOpen : sized.

Lemma sized_EmitTagBriefClose x : EmitTagBriefClose (sized n x) = sized n <$> EmitTagBriefClose x.
Proof. unfold EmitTagBriefClose. sized. Qed.
Lemma sized_MakeElement x : MakeElement (sized n x) = sized n <$> MakeElement x.
Proof. unfold MakeElement, NewElement. sized. Qed.
Lemma sized_MakeAttribute b x : MakeAttribute b (sized n x) = sized n <$> MakeAttribute b x.
Proof. unfold MakeAttribute. sized. Qed.
Hint Rewrite sized_EmitTagBriefClose sized_MakeElement sized_MakeAttribute : sized.
Lemma sized_FinishAttribute c b k x : FinishAttribute c b k (sized n x) = sized n <$> FinishAttribute c b k x.
Proof. unfold FinishAttribute. sized. Qed.
Lemma sized_chop_literal k x : chop_literal k (sized n x) = sized n <$> chop_literal k x.
Proof. unfold chop_literal. sized. Qed.
Hint Rewrite sized_FinishAttribute sized_chop_literal : sized.
Lemma sized_EvalStart c x : EvalStart c (sized n x) = sized n <$> EvalStart c x.
Proof. unfold EvalStart. sized. Qed.
Hint Rewrite sized_EvalStart : sized.
Lemma sized_Restart c x : Restart c (sized n x) = sized n <$> Restart c x.
Proof. unfold Restart. sized. Qed.
Lemma sized_EvalAttribute c x : EvalAttribute c (sized n x) = sized n <$> EvalAttribute c x.
Proof. unfold EvalAttribute. sized. Qed.
Lemma sized_EvalDirective c x : EvalDirective c (sized n x) = sized n <$> EvalDirective c x.
Proof. unfold EvalDirective, EmitDirective. sized. Qed.
Hint Rewrite sized_Restart sized_EvalAttribute sized_EvalDirective : sized.
Lemma sized_EvalAttrVal c x : EvalAttrVal c (sized n x) = sized n <$> EvalAttrVal c x.
Proof. unfold EvalAttrVal. sized. Qed.
Lemma sized_HandleAttributeEnd c x : HandleAttributeEnd c (sized n x) = (fun r => (sized n r.1, r.2)) <$> HandleAttributeEnd c x.
Proof. unfold HandleAttributeEnd. sized. Qed.
Hint Rewrite sized_EvalAttrVal sized_HandleAttributeEnd : sized.

Lemma sized_EvalLiteralTag c x : EvalLiteralTag c (sized n x) = sized n <$> EvalLiteralTag c x.
Proof. unfold EvalLiteralTag. sized. Qed.
Lemma sized_EvalScriptTag c x : EvalScriptTag c (sized n x) = sized n <$> EvalScriptTag c x.
Proof.
  unfold EvalScriptTag. autorewrite with sized. set (b := (_ && _ && EndsWith _ _)).
  replace (if b then sized n (set_script_escape_state kInComment x) else sized n x)
    with (sized n (if b then set_script_escape_state kInComment x else x)) by by destruct b.
  generalize (if b then set_script_escape_state kInComment x else x). intros y. sized.
Qed.
Hint Rewrite sized_EvalLiteralTag sized_EvalScriptTag : sized.

Lemma sized_EmitComment x : EmitComment (sized n x) = sized n <$> EmitComment x.
Proof. unfold EmitComment. sized. Qed.
Lemma sized_EmitCdata x : EmitCdata (sized n x) = sized n <$> EmitCdata x.
Proof. unfold EmitCdata. sized. Qed.
Hint Rewrite sized_EmitComment sized_EmitCdata : sized.

Lemma sized_Eval c x : Eval c (sized n x) = sized n <$> Eval c x.
Proof.
  unfold Eval. autorewrite with sized. destruct (state_ x);
    unfold EvalTag, EvalTagOpen, EvalTagCloseNoName, EvalTagClose, EvalTagBriefClose, EvalCommentStart1, EvalCommentStart2,
      EvalCommentBody, EvalCommentEnd1, EvalCommentEnd2, EvalCdataStart, EvalCdataBody, EvalCdataEnd1, EvalCdataEnd2,
      EvalAttrName, EvalAttrNameSpace, EvalAttrEq, EvalAttrValQuoted, EvalBogusComment; sized.
Qed.
Hint Rewrite sized_Eval : sized.

Lemma sized_Parse_loop text x : Parse_loop text (sized n x) = sized n <$> Parse_loop text x.
Proof.
  revert x. induction text as [|c text IH]; intros x; cbn [Parse_loop]; [done|]. autorewrite with sized.
  destruct (skip_parsing_ x); [done|]. destruct (_ || _); [done|]. destruct (Eval _ _) as [y|]; [apply IH|done].
Qed.
End steps.

(** ** Chunks *)

Lemma Parse_loop_app a b x : Parse_loop (a ++ b) x = x ← Parse_loop a x; Parse_loop b x.
Proof.
  revert x. induction a as [|c a IH]; intros x; cbn [app Parse_loop]; [done|].
  destruct (skip_parsing_ x) eqn:Hs.
  { cbn. destruct b; cbn [Parse_loop]; [done|]. by rewrite Hs. }
  destruct (_ || _); [by destruct b|]. destruct (Eval _ _) as [y|]; [apply IH|done].
Qed.

Lemma Parse_loop_sizes text x x' :
  Parse_loop text x = Some x' -> num_bytes_parsed_ x' = num_bytes_parsed_ x /\ size_limit_ x' = size_limit_ x.
Proof.
  revert x. induction text as [|c text IH]; intros x; cbn [Parse_loop]; [by intros [= <-]|].
  destruct (skip_parsing_ x); [by intros [= <-]|]. destruct (_ || _); [by intros [= <-]|].
  destruct (Eval _ _) as [y|] eqn:E; [|done]. apply (Eval_config false eq_refl) in E. intros [-> ->]%IH. by injection E.
Qed.

Lemma Parse_unlimited text x :
  size_limit_ x <= 0 -> Parse text x = Parse_loop text (sized (num_bytes_parsed_ x + Z.of_nat (length text)) x).
Proof. intros H. unfold Parse, sized. cbn. by destruct (Z.ltb_spec 0 (size_limit_ x)); [lia|]. Qed.

Definition ParseChunks (size_limit : Z) (chunks : list bytes) : option HtmlLexer :=
  foldl (fun x text => x ← x; Parse text x) (Some (StartParse size_limit)) chunks.

Lemma ParseChunks_snoc size_limit chunks text :
  ParseChunks size_limit (chunks ++ [text]) = x ← ParseChunks size_limit chunks; Parse text x.
Proof. unfold ParseChunks. by rewrite foldl_snoc. Qed.

Lemma ParseChunks_concat size_limit chunks : size_limit <= 0 ->
  ParseChunks size_limit chunks = Parse_loop (concat chunks) (sized (Z.of_nat (length (concat chunks))) (StartParse size_limit)).
Proof.
  intros Hl. induction chunks as [|text chunks IH] using rev_ind; [done|].
  rewrite ParseChunks_snoc, IH, concat_app, concat_cons, app_nil_r, Parse_loop_app, length_app.
  set (n := length (concat chunks)). set (S := StartParse size_limit).
  change (sized (Z.of_nat (n + length text)) S) with (sized (Z.of_nat (n + length text)) (sized (Z.of_nat n) S)).
  rewrite (sized_Parse_loop (Z.of_nat (n + length text)) (concat chunks)). destruct (Parse_loop (concat chunks) (sized (Z.of_nat n) S)) as [x|] eqn:E; [|done].
  cbn [mbind option_bind fmap option_fmap option_map]. apply Parse_loop_sizes in E as [En El].
  rewrite Parse_unlimited by by rewrite El. rewrite En. cbn. by rewrite Nat2Z.inj_add.
Qed.

(** C19: a document that comes in pieces is parsed like the whole: without a size limit
    it does not matter how the text is cut into the chunks given to [Parse]. *)
Theorem chunks_do_not_matter size_limit chunks :
  size_limit <= 0 -> ParseDocument size_limit chunks = ParseDocument size_limit [concat chunks].
Proof.
  intros H. unfold ParseDocument. fold (ParseChunks size_limit chunks). fold (ParseChunks size_limit [concat chunks]).
  rewrite !ParseChunks_concat by done. cbn [concat]. by rewrite app_nil_r.
Qed.

Lemma chunks_do_not_matter_witness :
  ParseDocument (-1) [lit "<p id="; lit "x>a</"; lit "p"; lit ">"] = ParseDocument (-1) [lit "<p id=x>a</p>"].
Proof. apply (chunks_do_not_matter (-1) [lit "<p id="; lit "x>a</"; lit "p"; lit ">"]). lia. Defined.
