(* ===== verification/HtmlLexerSpec.v ===== *)
(** * The HTML lexer: what it promises *)

From S2P Require Import Prelude StringUtil HtmlKeywords HtmlLexer HtmlEvents HtmlStack HtmlTags HtmlLexerInv HtmlLiteral HtmlTagStates HtmlChunks.

(** ** One byte *)

Lemma Inv_Room t x : Inv t x -> skip_parsing_ x = false -> Room x.
Proof. intros [_ _ _ [Hd Hw]] Hs. rewrite Hs in Hd. by split. Qed.

(** The bytes of [<![CDATA[], one at a time. *)
Ltac cdata_start Hs prefix :=
  let y := fresh "y" in let Hy := fresh "Hy" in let Ht := fresh "Ht" in let HLy := fresh "HLy" in let Hsy := fresh "Hsy" in
  apply (EvalCdataStart_ok _ _ _ _ prefix); [done|apply Hs|cbn; by rewrite (proj2 Hs)|];
  intros y Hy [Ht ?] HLy Hsy; unfold attr_bufs, shape, token_after, quiet; rewrite Hsy, HLy, ?Ht; (split; [apply Hy|]).

Lemma Eval_ok t c x : Inv t x -> skip_parsing_ x = false -> steps t (literal_ x ++ [c]) (Eval c (append_literal c x)).
Proof.
  intros HI Hskip. pose proof (Inv_Room _ _ HI Hskip) as Hroom. destruct HI as [HC Hb Hs _].
  change (literal_ x ++ [c]) with (literal_ (append_literal c x)).
  assert (HR : tag_state (state_ x) = false -> Ready t (append_literal c x)).
  { intros Hst. split; [by destruct HC| |done]. unfold attr_bufs in Hb. by destruct (state_ x). }
  assert (HT : forall p, Reading t x true p -> In_tag t (append_literal c x) true (p ++ [c])).
  { intros p Hp. by apply In_tag_append. }
  assert (Hb' : attr_bufs (append_literal c x)) by done.
  assert (Hp' : forall p, pend x p -> pend (append_literal c x) p) by done.
  unfold Eval. change (state_ (append_literal c x)) with (state_ x). unfold shape in Hs.
  destruct (state_ x) eqn:Est; try (specialize (HR eq_refl)).
  - by eapply EvalStart_ok.
  - destruct Hs as [Hq HL]. apply EvalTag_ok; [done|done|by cbn; rewrite HL].
  - destruct Hs as [Hq HL]. apply EvalTagCloseNoName_ok; [done|done|by cbn; rewrite HL].
  - destruct Hs as (Hne & Hel & HL). apply (EvalTagClose_ok t c _ []); try done; [by left|constructor|cbn; by rewrite HL, app_nil_r].
  - destruct Hs as (Hne & w & Hw & Hel & HL). apply (EvalTagClose_ok t c _ w); try done; [by right|].
    cbn. by rewrite HL, <- !app_assoc.
  - destruct Hs as (Hd & Htn & Hel & HL). apply EvalTagOpen_ok; try done. cbn. by rewrite HL, app_nil_r.
  - destruct Hs as (p & Hp & Hpe). by apply (EvalTagBriefClose_ok t c _ p); [apply HT|..].
  - destruct Hs as [Hq HL]. apply EvalCommentStart1_ok; [done|done|by cbn; rewrite HL].
  - destruct Hs as [Hq HL]. apply EvalCommentStart2_ok; [done|done|by cbn; rewrite HL].
  - destruct Hs as [Hel HL]. apply EvalCommentBody_ok; try done. cbn. by rewrite HL, <- !app_assoc.
  - destruct Hs as [Hel HL]. apply EvalCommentEnd1_ok; try done. cbn. by rewrite HL, <- !app_assoc.
  - destruct Hs as [Hel HL]. apply EvalCommentEnd2_ok; try done. cbn. by rewrite HL, <- !app_assoc.
  - by cdata_start Hs (lit "<![").
  - by cdata_start Hs (lit "<![C").
  - by cdata_start Hs (lit "<![CD").
  - by cdata_start Hs (lit "<![CDA").
  - by cdata_start Hs (lit "<![CDAT").
  - by cdata_start Hs (lit "<![CDATA").
  - destruct Hs as [Hel HL]. apply EvalCdataBody_ok; try done. cbn. by rewrite HL, <- !app_assoc.
  - destruct Hs as [Hel HL]. apply EvalCdataEnd1_ok; try done. cbn. by rewrite HL, <- !app_assoc.
  - destruct Hs as [Hel HL]. apply EvalCdataEnd2_ok; try done. cbn. by rewrite HL, <- !app_assoc.
  - destruct Hs as (p & Hp & Hpe). unfold pend in Hpe. rewrite Est in Hpe. subst p. unfold attr_bufs in Hb. rewrite Est in Hb.
    apply EvalAttribute_ok; [by apply (HT [])|done|apply Hb..].
  - destruct Hs as (p & Hp & Hpe). unfold pend in Hpe. rewrite Est in Hpe. subst p. by apply EvalAttrName_ok; [apply HT|..].
  - destruct Hs as (p & Hp & Hpe). unfold pend in Hpe. rewrite Est in Hpe. destruct Hpe as (w & Hw & Hne & ->).
    apply (EvalAttrNameSpace_ok t c _ w); try done. rewrite app_assoc. by apply HT.
  - destruct Hs as (p & Hp & Hpe). unfold pend in Hpe. rewrite Est in Hpe. destruct Hpe as (w1 & w2 & Hw1 & Hw2 & ->).
    by apply (EvalAttrEq_ok t c _ w1 w2); [apply HT|..].
  - destruct Hs as (p & Hp & Hpe). unfold pend, attr_bufs in *. rewrite Est in *. destruct Hpe as (w1 & w2 & Hw1 & Hw2 & ->).
    destruct Hb as (Hn & Hv & Hne & Hq & Hh). rewrite Hq in Hp. apply (EvalAttrVal_ok t c _ w1 w2); try done. by apply HT.
  - destruct Hs as (p & Hp & Hpe). unfold pend in *. rewrite Est in *. destruct Hpe as (w1 & w2 & Hw1 & Hw2 & ->).
    assert (Hq : attr_quote_ x = DOUBLE_QUOTE) by (unfold attr_bufs in Hb; rewrite Est in Hb; apply Hb). rewrite Hq in Hp.
    apply (EvalAttrValQuoted_ok t c _ w1 w2 DOUBLE_QUOTE); [by apply HT|done|done|by left|done].
  - destruct Hs as (p & Hp & Hpe). unfold pend in *. rewrite Est in *. destruct Hpe as (w1 & w2 & Hw1 & Hw2 & ->).
    assert (Hq : attr_quote_ x = SINGLE_QUOTE) by (unfold attr_bufs in Hb; rewrite Est in Hb; apply Hb). rewrite Hq in Hp.
    apply (EvalAttrValQuoted_ok t c _ w1 w2 SINGLE_QUOTE); [by apply HT|done|done|by right|done].
  - destruct Hs as [Hq Hl]. by eapply EvalLiteralTag_ok.
  - destruct Hs as [Hq Hl]. by eapply EvalScriptTag_ok.
  - destruct Hs as [Hel HL]. apply EvalDirective_ok; try done. cbn. by rewrite HL, <- !app_assoc.
  - by apply EvalBogusComment_ok.
Qed.

(** ** Text *)

Lemma shape_ext t x k n m :
  shape t x -> shape t (set_skip_parsing m (set_num_bytes_parsed n (set_size_limit_exceeded k x))).
Proof.
  intros Hs. unfold shape in *. cbn [state_ set_num_bytes_parsed set_size_limit_exceeded set_skip_parsing].
  destruct (state_ x) eqn:Est; try exact Hs; destruct Hs as (p & Hr & Hp); exists p; (split; [|exact Hp]);
    (eapply Reading_ext; [exact Hr|try done..]); unfold Reading, pending_tag in Hr; cbn; intros Hd He; rewrite Hd, He in Hr;
    by destruct Hr as (? & ? & ? & ? & ? & ? & ? & ? & ?).
Qed.

Lemma Inv_ext t x k n :
  Inv t x -> (size_limit_exceeded_ x = true -> k = true) -> Inv t (set_num_bytes_parsed n (set_size_limit_exceeded k x)).
Proof.
  intros [[? ? ?] ? Hs [Hd Hw]] Hk. split; [by split|done| |].
  - apply (shape_ext t x k n (skip_parsing_ x)) in Hs. by destruct x.
  - split; [done|]. intros H%Hw. cbn. naive_solver.
Qed.

Lemma Inv_exceeded t x : Inv t x -> Inv t (set_skip_parsing true (set_size_limit_exceeded true x)).
Proof.
  intros [[? ? ?] ? Hs [Hd Hw]]. split; [by split|done| |].
  - apply (shape_ext t x true (num_bytes_parsed_ x) true) in Hs. by destruct x.
  - split; [|by left]. cbn in *. destruct (skip_parsing_ x); lia.
Qed.

Lemma Parse_loop_skip text x : skip_parsing_ x = true -> Parse_loop text x = Some x.
Proof. intros H. destruct text; cbn [Parse_loop]; [done|]. by rewrite H. Qed.

(** A buffer is a part of what has been read. *)
Lemma Inv_buffers t x : Inv t x ->
  (length (token_ x) <= length (literal_ x))%nat /\ (length (attr_name_ x) <= length (literal_ x))%nat /\
  (length (attr_value_ x) <= length (literal_ x))%nat.
Proof.
  intros [_ Hb Hs _].
  assert (Htok : (length (token_ x) <= length (literal_ x))%nat).
  { unfold shape, quiet, token_after, Reading in Hs.
    destruct (state_ x); try (destruct Hs as [[-> _] _]; cbn; lia);
      try (destruct Hs as [-> _]; cbn; lia);
      try (destruct Hs as (_ & ->); rewrite !length_app; lia);
      try (destruct Hs as (_ & _ & ->); rewrite !length_app; lia);
      try (destruct Hs as (_ & _ & _ & ->); rewrite !length_app; lia);
      try (destruct Hs as (_ & w & _ & _ & ->); rewrite !length_app; lia);
      destruct Hs as (p & Hr & _); (destruct (discard_until_start_state_for_error_recovery_ x);
        [destruct Hr as ([-> _] & _); cbn; lia|destruct Hr as (nm & attrs & body & -> & _ & _ & Hp)]);
      unfold pending_tag in Hp; (destruct (element_ x); [destruct Hp as [-> _]; cbn; lia|destruct Hp as [-> _]; rewrite !length_app; lia]). }
  split; [done|].
  assert (Hrd : forall p, Reading t x true p -> (length p <= length (literal_ x))%nat).
  { intros p Hr. unfold Reading in Hr. destruct (discard_until_start_state_for_error_recovery_ x).
    - destruct Hr as (_ & [g ->] & _). rewrite length_app. lia.
    - destruct Hr as (nm & attrs & body & -> & _). rewrite !length_app. lia. }
  unfold attr_bufs, clean, shape, pend in *.
  destruct (state_ x); try (destruct Hb as (-> & -> & _); cbn; lia);
    destruct Hs as (p & Hr%Hrd & Hp).
  - destruct Hb as (_ & -> & _). destruct Hp as [[-> _]|(w & _ & ->)]; [cbn; lia|]. rewrite !length_app in Hr. cbn. lia.
  - destruct Hb as (_ & -> & _). subst p. cbn. lia.
  - destruct Hb as (_ & -> & _). destruct Hp as (w & _ & _ & ->). rewrite !length_app in Hr. cbn. lia.
  - destruct Hb as (_ & -> & _). destruct Hp as (w1 & w2 & _ & _ & ->). rewrite !length_app in Hr. cbn. lia.
  - destruct Hp as (w1 & w2 & _ & _ & ->). rewrite !length_app in Hr. lia.
  - destruct Hp as (w1 & w2 & _ & _ & ->). rewrite !length_app in Hr. lia.
  - destruct Hp as (w1 & w2 & _ & _ & ->). rewrite !length_app in Hr. lia.
Qed.

(** [total] bytes have come in; [read] is what has been read of them and [rest] what is
    skipped. *)
Record Reads (total : Z) (read rest : bytes) (x : HtmlLexer) : Prop := {
  Reads_inv : exists t, Inv t x /\ read = t ++ literal_ x;
  Reads_rest : rest <> [] -> skip_parsing_ x = true;
  Reads_short : Z.of_nat (length (literal_ x)) <= kMaxTokenSize + 1;
  Reads_total : num_bytes_parsed_ x = total;
  Reads_exceeded : size_limit_exceeded_ x = true -> 0 < size_limit_ x < total \/ kMaxTokenSize < Z.of_nat (length (literal_ x));
}.

Lemma too_long_literal t x :
  Inv t x -> too_long (token_ x) || too_long (attr_value_ x) || too_long (literal_ x) || too_long (attr_name_ x) =
             too_long (literal_ x).
Proof.
  intros HI. destruct (Inv_buffers t x HI) as (H1 & H2 & H3). unfold too_long.
  destruct (Z.ltb_spec kMaxTokenSize (Z.of_nat (length (token_ x)))), (Z.ltb_spec kMaxTokenSize (Z.of_nat (length (attr_value_ x)))),
    (Z.ltb_spec kMaxTokenSize (Z.of_nat (length (literal_ x)))), (Z.ltb_spec kMaxTokenSize (Z.of_nat (length (attr_name_ x))));
    cbn; try done; lia.
Qed.

Lemma Parse_loop_ok text total read x :
  Reads total read [] x ->
  exists x' text' rest, Parse_loop text x = Some x' /\ text = text' ++ rest /\ Reads total (read ++ text') rest x'.
Proof.
  revert read x. induction text as [|c text IH]; intros read x HR; cbn [Parse_loop].
  { exists x, [], []. by rewrite (app_nil_r read). }
  destruct (skip_parsing_ x) eqn:Hs.
  { exists x, [], (c :: text). rewrite app_nil_r. split; [done|]. split; [done|]. by destruct HR. }
  destruct HR as [(t & HI & Hread) _ Hl Hn He]. rewrite (too_long_literal t x HI).
  destruct (too_long (literal_ x)) eqn:El.
  { eexists _, [], (c :: text). rewrite app_nil_r. split; [done|]. split; [done|].
    split; [exists t; split; [by apply Inv_exceeded|done]|done|done|done|].
    intros _. right. by apply Z.ltb_lt in El. }
  destruct (Eval_ok t c x HI Hs) as (x1 & s & E & HI1 & HL). rewrite E. cbn [mbind option_bind].
  pose proof (Eval_config false eq_refl _ _ _ E) as Ec. injection Ec as Ee En Es. apply Z.ltb_ge in El.
  destruct (IH (read ++ [c]) x1) as (x2 & text' & rest & -> & -> & HR2).
  { rewrite Hread, <- app_assoc. split; [exists (t ++ s); split; [done|by rewrite HL, app_assoc]|done| |congruence|].
    - apply (f_equal length) in HL. rewrite !length_app in HL. cbn in HL. lia.
    - rewrite Ee, Es. intros H. destruct (He H) as [?|?]; [by left|lia]. }
  exists x2, (c :: text'), rest. split; [done|]. split; [done|]. by rewrite <- app_assoc in HR2.
Qed.

Lemma Parse_ok text total read rest x :
  Reads total read rest x -> exists x' text' rest', Parse text x = Some x' /\ rest ++ text = text' ++ rest' /\
    Reads (total + Z.of_nat (length text)) (read ++ text') rest' x'.
Proof.
  intros [(t & HI & Hread) Hrest Hl Hn He]. unfold Parse. cbv zeta.
  set (x0 := set_num_bytes_parsed _ x).
  set (k := if (0 <? size_limit_ x0) && (size_limit_ x0 <? num_bytes_parsed_ x0) then true else size_limit_exceeded_ x).
  set (n := total + Z.of_nat (length text)). set (x1 := set_num_bytes_parsed n (set_size_limit_exceeded k x)).
  replace (if (0 <? size_limit_ x0) && _ then _ else x0) with x1
    by (unfold x1, k, x0, n; rewrite <- Hn; destruct (_ && _); [done|by destruct x]).
  assert (HR : Reads n read rest x1).
  { split; [exists t; split; [apply Inv_ext; [done|unfold k; by destruct (_ && _)]|done]|done|done|done|].
    cbn. unfold k. destruct (_ && _) eqn:E.
    - intros _. left. apply andb_true_iff in E as [E1%Z.ltb_lt E2%Z.ltb_lt]. cbn in E1, E2. rewrite Hn in E2. by fold n in E2.
    - intros H. destruct (He H); [left; unfold n; lia|by right]. }
  clearbody x1. destruct (decide (rest = [])) as [->|Hne]; [by apply Parse_loop_ok|].
  exists x1, [], (rest ++ text). rewrite app_nil_r. specialize (Hrest Hne). destruct HR as [? Hr ? ? ?].
  rewrite Parse_loop_skip by by apply Hr. split; [done|]. split; [done|]. split; try done. intros _. by apply Hr.
Qed.

Lemma StartParse_ok size_limit : Reads 0 [] [] (StartParse size_limit).
Proof.
  split; [|done|done|done|done]. exists []. split; [|done]. split; [|done|done|split; [by apply Nat.leb_le|done]].
  split; cbn; [constructor| |constructor]. exists [[]]. by repeat constructor.
Qed.

Lemma ParseChunks_ok size_limit chunks :
  exists x read rest, ParseChunks size_limit chunks = Some x /\ concat chunks = read ++ rest /\
    Reads (Z.of_nat (length (concat chunks))) read rest x /\ size_limit_ x = size_limit.
Proof.
  induction chunks as [|text chunks IH] using rev_ind.
  { exists (StartParse size_limit), [], []. split; [done|]. split; [done|]. split; [apply StartParse_ok|done]. }
  destruct IH as (x & read & rest & E & Ec & HR & Hs). destruct (Parse_ok text _ read rest x HR) as (x' & text' & rest' & E' & Et & HR').
  exists x', (read ++ text'), rest'. rewrite ParseChunks_snoc, E. split; [done|].
  rewrite concat_app, concat_cons, app_nil_r. split; [by rewrite Ec, <- !app_assoc, Et|].
  split; [by rewrite length_app, Nat2Z.inj_add|]. rewrite <- Hs. unfold Parse in E'. apply Parse_loop_sizes in E' as [_ ->].
  by destruct (_ && _).
Qed.

(** ** The end of the document *)

Lemma stack_last nodes stack : stack_ok nodes stack -> last stack = Some (None, kHtmlInfo).
Proof. induction 1 as [|stack e el info Hok IH]; [done|]. by rewrite last_cons, IH. Qed.

Lemma Core_weaken sk sk' x open t : (sk = true -> sk' = true) -> Core sk x open t -> Core sk' x open t.
Proof. intros Hw [? ? ?]. split; [done|by eapply sources_weaken|done]. Qed.

Lemma FinishParse_loop_ok n t x :
  length (element_stack_ x) = S n -> Core (skip_parsing_ x) x (ids (element_stack_ x)) t ->
  exists x' evs, FinishParse_loop n x = Some x' /\ Core (skip_parsing_ x') x' [] t /\ element_stack_ x' = [(None, kHtmlInfo)] /\
    (skip_parsing_ x = true -> skip_parsing_ x' = true) /\ queue_ x' = queue_ x ++ evs.
Proof.
  revert x. induction n as [|n IH]; intros x Hlen HC; pose proof (core_stack _ _ _ _ HC) as Hst; cbn [FinishParse_loop].
  { exists x, []. rewrite app_nil_r. destruct Hst as [|stack e el info Hok]; [done|]. by destruct Hok. }
  destruct (element_stack_ x) as [|[oe info] rest] eqn:Est; [done|].
  destruct oe as [e|]; [|by inversion Hst; subst]. destruct (stack_top _ _ _ _ Hst) as (el & He & Hp & Hi & Hns & Hrest).
  cbn [head mbind option_bind fst]. rewrite He. cbn [mbind option_bind].
  assert (HC0 : Core (skip_parsing_ x) (set_token (name_str el) x) (ids (element_stack_ (set_token (name_str el) x))) t).
  { change (element_stack_ (set_token (name_str el) x)) with (element_stack_ x). rewrite Est. by destruct HC. }
  destruct (EmitTagClose_top (skip_parsing_ x) (set_token (name_str el) x) e info rest el
    (if skip_parsing_ x then EXPLICIT_CLOSE else UNCLOSED) t []) as (x1 & -> & HC1 & Hcl & Est1 & Eq1);
    [done|done|done|apply StringCaseEqual_refl|done|destruct (skip_parsing_ x); [by right|done]|].
  cbn [mbind option_bind]. rewrite app_nil_r in HC1. pose proof (touches_skip _ _ (closes_touches _ _ Hcl)) as Hsk. cbn in Hsk, Eq1.
  set (x2 := set_state START (set_token [] (set_literal [] x1))).
  destruct (IH x2) as (x3 & evs & -> & HC3 & Est3 & Hsk3 & Eq3).
  - cbn. rewrite Est1. cbn in Hlen. lia.
  - apply (Core_weaken _ _ _ _ _ Hsk). by destruct HC1.
  - exists x3, ([EndElement e] ++ evs). split; [done|]. split; [done|]. split; [done|]. split; [intros H; by apply Hsk3, Hsk|].
    rewrite Eq3. cbn. by rewrite Eq1, <- app_assoc.
Qed.

Lemma FinishParse_ok total read rest x :
  Reads total read rest x -> exists x' evs, FinishParse x = Some x' /\ queue_ x' = evs ++ [EndDocument] /\ nested (nodes_ x') evs [] /\
    sources (nodes_ x') (skip_parsing_ x') evs read /\ (rest <> [] -> skip_parsing_ x' = true) /\
    (exists evs', evs = queue_ x ++ evs' /\ (literal_ x <> [] -> exists p, Characters p (literal_ x) ∈ evs)) /\ element_stack_ x' = [(None, kHtmlInfo)].
Proof.
  intros [(t & [HC _ _ _] & Hread) Hrest _ _ _]. unfold FinishParse. cbv zeta. set (x0 := set_attr_value [] _).
  assert (HC0 : Core false x0 (ids (element_stack_ x0)) t) by by destruct HC.
  assert (exists x1, (if bool_decide (literal_ x0 = []) then Some x0 else EmitLiteral x0) = Some x1 /\
    Core false x1 (ids (element_stack_ x1)) (t ++ literal_ x) /\ (skip_parsing_ x0 = true -> skip_parsing_ x1 = true) /\
    exists evs, queue_ x1 = queue_ x ++ evs /\ (literal_ x <> [] -> exists p, Characters p (literal_ x) ∈ evs)) as (x1 & -> & HC1 & Hsk1 & evs1 & Eq1 & Hlit).
  { case_bool_decide as Hl.
    - exists x0. change (literal_ x0) with (literal_ x) in Hl. rewrite Hl, app_nil_r. repeat split; try apply HC0; try done.
      exists []. by rewrite app_nil_r.
    - destruct (EmitLiteral_ok false x0 t HC0) as (x1 & -> & HC1 & Hcl & _ & _ & Eq1). eexists. split; [done|].
      split; [by destruct HC1|]. split; [apply (touches_skip _ _ (closes_touches _ _ Hcl))|].
      eexists. split; [exact Eq1|]. intros _. change (literal_ x0) with (literal_ x) in *. exists (Parent x0). destruct (literal_ x); [done|by left]. }
  cbn [mbind option_bind]. rewrite <- Hread in HC1.
  assert (Hlast : last (element_stack_ x1) = Some (None, kHtmlInfo)) by (eapply stack_last, core_stack, HC1).
  rewrite Hlast. cbn [mbind option_bind fst]. rewrite decide_True by done.
  pose proof (Core_weaken false (skip_parsing_ x1) _ _ _ ltac:(done) HC1) as HC2.
  destruct (FinishParse_loop_ok (length (element_stack_ x1) - 1) read x1) as (x2 & evs2 & -> & HC3 & Est & Hsk2 & Eq2); [|done|].
  { destruct (element_stack_ x1); [done|cbn; lia]. }
  cbn [mbind option_bind]. rewrite Est. rewrite bool_decide_eq_true_2 by done.
  eexists _, (queue_ x2). split; [unfold AddEvent; cbn [node_parent mbind option_bind]; by rewrite decide_True|].
  split; [done|]. split; [by destruct HC3|]. split; [by destruct HC3|]. split; [intros Hr; by apply Hsk2, Hsk1, Hrest|].
  split; [|done]. exists (evs1 ++ evs2). rewrite Eq2, Eq1, <- app_assoc. split; [done|]. intros [p Hp]%Hlit. exists p. set_solver.
Qed.

(** ** The theorems *)

Lemma ParseDocument_ok size_limit chunks :
  exists x evs read rest, ParseDocument size_limit chunks = Some x /\ concat chunks = read ++ rest /\
    queue_ x = evs ++ [EndDocument] /\ nested (nodes_ x) evs [] /\ sources (nodes_ x) (skip_parsing_ x) evs read /\
    element_stack_ x = [(None, kHtmlInfo)] /\
    (rest <> [] -> skip_parsing_ x = true /\
       (0 < size_limit < Z.of_nat (length (concat chunks)) \/
        (exists p token, Characters p token ∈ evs /\ kMaxTokenSize < Z.of_nat (length token)) \/ reaches_limit evs)).
Proof.
  destruct (ParseChunks_ok size_limit chunks) as (x & read & rest & E & Ec & HR & Hs).
  destruct (FinishParse_ok _ read rest x HR) as (x' & evs & E' & Eq & Hn & Hsrc & Hsk & (evs' & Eqx & Hlit) & Est).
  exists x', evs, read, rest. unfold ParseDocument. fold (ParseChunks size_limit chunks). rewrite E. cbn [mbind option_bind].
  do 6 (split; [done|]). intros Hr. split; [by apply Hsk|].
  destruct HR as [(t & [_ _ _ [_ Hw]] & _) Hrest _ _ He]. destruct (Hw (Hrest Hr)) as [H|H].
  - destruct (He H) as [?|Hl]; [left; by rewrite <- Hs|right; left].
    destruct Hlit as [p Hp]; [intros E0; rewrite E0 in Hl; unfold kMaxTokenSize in Hl; cbn in Hl; lia|]. by exists p, (literal_ x).
  - right; right. rewrite Eqx. by apply reaches_limit_app.
Qed.

(** C10: the lexer accepts every document, in whatever pieces it comes and whatever the
    limit on its size: no check in it fails and no null or dangling pointer is followed.
    The events it leaves in the queue start with the start of the document and finish with
    its end; in between they open and close elements like brackets, every element is
    opened and closed once, and the parent of every node is the innermost element that is
    open. Only the sentinel is left on the stack. *)
Theorem events_are_balanced size_limit chunks :
  exists x evs, ParseDocument size_limit chunks = Some x /\ queue_ x = evs ++ [EndDocument] /\ nested (nodes_ x) evs [] /\
    element_stack_ x = [(None, kHtmlInfo)].
Proof.
  destruct (ParseDocument_ok size_limit chunks) as (x & evs & read & rest & E & _ & Eq & Hn & _ & Est & _). by exists x, evs.
Qed.

(** C6: the events spell the document. The bytes that are read are the sources of the
    events one after the other: the text of characters, comments, sections and
    directives, a start tag with the name and the attributes of the element that it
    opens, an end tag with the name of the element that it closes; elements closed by
    implication have no end tag. The rest of the document is only skipped when the limit
    on its size is exceeded, when one single token, which then becomes a text, is longer
    than [kMaxTokenSize], or when [kMaxNestingDepth] elements are open at the same time. *)
Theorem events_spell_the_document size_limit chunks :
  exists x evs read rest, ParseDocument size_limit chunks = Some x /\ concat chunks = read ++ rest /\
    queue_ x = evs ++ [EndDocument] /\ sources (nodes_ x) (skip_parsing_ x) evs read /\
    (rest <> [] -> skip_parsing_ x = true /\
       (0 < size_limit < Z.of_nat (length (concat chunks)) \/
        (exists p token, Characters p token ∈ evs /\ kMaxTokenSize < Z.of_nat (length token)) \/ reaches_limit evs)).
Proof.
  destruct (ParseDocument_ok size_limit chunks) as (x & evs & read & rest & E & Ec & Eq & _ & Hs & _ & Hr). by exists x, evs, read, rest.
Qed.

(** C23: the memory of the lexer is bounded, however a document is made: after any chunks,
    so between any two bytes, each of its buffers holds at most one byte more than
    [kMaxTokenSize] and its stack at most one element more than [kMaxNestingDepth]. *)
Theorem buffers_are_bounded size_limit chunks :
  exists x, ParseChunks size_limit chunks = Some x /\
    Forall (fun buffer => Z.of_nat (length buffer) <= kMaxTokenSize + 1) [token_ x; attr_name_ x; attr_value_ x; literal_ x] /\
    (length (element_stack_ x) <= S kMaxNestingDepth)%nat.
Proof.
  destruct (ParseChunks_ok size_limit chunks) as (x & read & rest & E & _ & [(t & HI & _) _ Hl _ _] & _). exists x.
  destruct (Inv_buffers t x HI) as (H1 & H2 & H3). split; [done|]. split; [repeat constructor; lia|].
  destruct (Inv_depth _ _ HI) as [Hd _]. destruct (skip_parsing_ x); lia.
Qed.
