(* ===== verification/HtmlWriterSpec.v ===== *)
(** * The HTML writer: a document that is read and written *)

From S2P Require Import Prelude StringUtil HtmlKeywords HtmlLexer HtmlWriter HtmlEvents HtmlStack HtmlTags HtmlLexerInv HtmlLexerSpec.

(** ** The text of an event *)

Definition attr_text (a : Attribute) : bytes :=
  [" "%char] ++ str_ (attr_name a) ++
  match escaped_value a with
  | Some v => ["="%char] ++ quote_str (quote_style_ a) ++ v ++ quote_str (quote_style_ a)
  | None => []
  end.
Definition open_text (el : HtmlElement) : bytes := ["<"%char] ++ name_str el ++ concat (map attr_text (attributes_ el)).
Definition close_text (el : HtmlElement) : bytes := lit "</" ++ name_str el ++ [">"%char].

(** [at_once]: the element has no content, its end follows its start. *)
Definition start_text (el : HtmlElement) (at_once : bool) : bytes :=
  open_text el ++
  match GetElementStyle el, at_once with
  | BRIEF_CLOSE, true => (if brief_space el then [" "%char] else []) ++ lit "/>"
  | _, _ => [">"%char]
  end.
Definition end_text (el : HtmlElement) (at_once : bool) : bytes :=
  match GetElementStyle el with
  | EXPLICIT_CLOSE => close_text el
  | BRIEF_CLOSE => if at_once then [] else close_text el
  | _ => []
  end.

Section pieces.
Variable nodes : list HtmlElement.

#[export] Instance HtmlEvent_eq_dec : EqDecision HtmlEvent.
Proof. solve_decision. Defined.

Definition piece (prev : option HtmlEvent) (ev : HtmlEvent) (next : option HtmlEvent) : bytes :=
  match ev with
  | StartDocument | EndDocument => []
  | StartElement e => match nodes !! e with Some el => start_text el (bool_decide (next = Some (EndElement e))) | None => [] end
  | EndElement e => match nodes !! e with Some el => end_text el (bool_decide (prev = Some (StartElement e))) | None => [] end
  | Characters _ t => t
  | CommentEvent _ t | IEDirective _ t => lit "<!--" ++ t ++ lit "-->"
  | Cdata _ t => lit "<![CDATA[" ++ t ++ lit "]]>"
  | Directive _ t => lit "<!" ++ t ++ [">"%char]
  end.

(** [next] is the event after [evs]. *)
Fixpoint pieces (prev : option HtmlEvent) (evs : list HtmlEvent) (next : option HtmlEvent) : list bytes :=
  match evs with
  | [] => []
  | ev :: rest => piece prev ev (match rest with ev' :: _ => Some ev' | [] => next end) :: pieces (Some ev) rest next
  end.

Lemma pieces_snoc prev evs a next :
  pieces prev (evs ++ [a]) next = pieces prev evs (Some a) ++ [piece (match last evs with Some p => Some p | None => prev end) a next].
Proof.
  revert prev. induction evs as [|c evs IH]; intros prev; [done|]. cbn [app pieces]. rewrite IH, last_cons. cbn [app]. f_equal.
  - by destruct evs.
  - do 2 f_equal. by destruct (last evs).
Qed.

(** The next event only matters when it ends the element that the last one starts. *)
Lemma pieces_next prev evs next :
  (forall e, last evs = Some (StartElement e) -> next <> Some (EndElement e)) -> pieces prev evs next = pieces prev evs None.
Proof.
  intros H. destruct evs as [|a evs _] using rev_ind; [done|]. rewrite !pieces_snoc. do 2 f_equal.
  rewrite last_snoc in H. destruct a; try done. cbn. destruct (nodes !! e); [|done].
  rewrite (bool_decide_eq_false_2 (next = _)), (bool_decide_eq_false_2 (None = _)); [done|done|by apply H].
Qed.

(** ** The writer *)

(** What has been written once the open tag is ended. *)
Definition flushed (w : HtmlWriterFilter) : bytes :=
  output_ w ++ match lazy_close_element_ w with Some _ => [">"%char] | None => [] end.

Lemma EmitBytes_eq s w : output_ (EmitBytes s w) = flushed w ++ s /\ lazy_close_element_ (EmitBytes s w) = None.
Proof.
  unfold EmitBytes, TerminateLazyCloseElement, flushed. destruct (lazy_close_element_ w) eqn:E; cbn; [done|by rewrite E, app_nil_r].
Qed.
Lemma EmitBytes_flushed s w : flushed (EmitBytes s w) = flushed w ++ s.
Proof. destruct (EmitBytes_eq s w) as [E El]. unfold flushed at 1. by rewrite E, El, app_nil_r. Qed.
Lemma EmitBytes_lazy s w : lazy_close_element_ (EmitBytes s w) = None.
Proof. apply EmitBytes_eq. Qed.
Lemma EmitBytes_output s w : output_ (EmitBytes s w) = flushed w ++ s.
Proof. apply EmitBytes_eq. Qed.
Lemma flushed_None w : lazy_close_element_ w = None -> output_ w = flushed w.
Proof. intros E. unfold flushed. by rewrite E, app_nil_r. Qed.

Lemma EmitAttribute_flushed a w : flushed (EmitAttribute (-1) false a w) = flushed w ++ attr_text a /\
  lazy_close_element_ (EmitAttribute (-1) false a w) = None.
Proof.
  unfold EmitAttribute, attr_text, EmitName. cbn [Z.ltb Z.compare].
  destruct (escaped_value a); rewrite !EmitBytes_lazy, !EmitBytes_flushed, <- !app_assoc, ?app_nil_r; done.
Qed.

Lemma open_flushed attrs w :
  flushed (fold_left (fun w a => EmitAttribute (-1) false a w) attrs w) = flushed w ++ concat (map attr_text attrs) /\
  (lazy_close_element_ w = None -> lazy_close_element_ (fold_left (fun w a => EmitAttribute (-1) false a w) attrs w) = None).
Proof.
  revert w. induction attrs as [|a attrs IH]; intros w; [by rewrite app_nil_r|]. cbn [fold_left map concat].
  destruct (IH (EmitAttribute (-1) false a w)) as [E El]. destruct (EmitAttribute_flushed a w) as [Ea Ela].
  split; [by rewrite E, Ea, <- app_assoc|]. intros _. by apply El.
Qed.

Lemma StartElement_ok e el w : style_ el <> INVISIBLE ->
  let w' := StartElement_event (-1) false e el w in
  flushed w' = flushed w ++ start_text el false /\
  match lazy_close_element_ w' with
  | Some e' => e' = e /\ GetElementStyle el = BRIEF_CLOSE /\ output_ w' = flushed w ++ open_text el
  | None => GetElementStyle el <> BRIEF_CLOSE
  end.
Proof.
  intros Hi. unfold StartElement_event, start_text, EmitName.
  set (w1 := EmitBytes (str_ (name_ el)) (EmitBytes ["<"%char] w)).
  destruct (open_flushed (attributes_ el) w1) as [Ef El]. specialize (El (EmitBytes_lazy _ _)).
  assert (E1 : flushed w1 = flushed w ++ ["<"%char] ++ name_str el) by (unfold w1; by rewrite !EmitBytes_flushed, <- app_assoc).
  set (w2 := fold_left _ (attributes_ el) w1) in *.
  assert (E2 : flushed w2 = flushed w ++ open_text el) by (rewrite Ef, E1; unfold open_text; by rewrite <- !app_assoc).
  assert (GetElementStyle el <> INVISIBLE).
  { unfold GetElementStyle. destruct (style_ el); try done. destruct (_ || _); [done|]. by destruct (TagAllowsBriefTermination (keyword el)). }
  destruct (GetElementStyle el) eqn:Es; try done;
    try (cbv zeta; rewrite EmitBytes_flushed, EmitBytes_lazy, E2, <- app_assoc; done).
  cbv zeta. cbn [lazy_close_element_]. split; [|split; [done|split; [done|by rewrite <- E2, <- flushed_None]]].
  unfold flushed at 1. cbn [output_ lazy_close_element_]. by rewrite flushed_None, E2, <- app_assoc.
Qed.

Lemma EmitCloseTag_ok el w : flushed (EmitCloseTag false el w) = flushed w ++ close_text el /\
  lazy_close_element_ (EmitCloseTag false el w) = None.
Proof. unfold EmitCloseTag, EmitName, close_text. by rewrite !EmitBytes_lazy, !EmitBytes_flushed, <- !app_assoc. Qed.

Lemma write_leaf ev w prev next : leaf_parent ev <> None ->
  exists w', write_event nodes (-1) false ev w = Some w' /\ flushed w' = flushed w ++ piece prev ev next /\ lazy_close_element_ w' = None.
Proof.
  intros H. destruct ev; try done; eexists; (split; [reflexivity|]); by rewrite ?EmitBytes_lazy, !EmitBytes_flushed, <- ?app_assoc.
Qed.

(** The state of the writer after [evs]. *)
Definition written (evs : list HtmlEvent) (w : HtmlWriterFilter) : Prop :=
  flushed w = concat (pieces None evs None) /\
  match lazy_close_element_ w with
  | Some e => exists el evs', evs = evs' ++ [StartElement e] /\ nodes !! e = Some el /\ GetElementStyle el = BRIEF_CLOSE /\
      output_ w = concat (pieces None evs' (Some (StartElement e))) ++ open_text el
  | None => forall e el, last evs = Some (StartElement e) -> nodes !! e = Some el -> GetElementStyle el <> BRIEF_CLOSE
  end.

Lemma written_next evs w e : written evs w -> lazy_close_element_ w = None -> pieces None evs (Some (EndElement e)) = pieces None evs None.
Proof.
  intros [_ H] El. rewrite El in H. destruct evs as [|a evs _] using rev_ind; [done|]. rewrite !pieces_snoc. do 2 f_equal.
  destruct a as [| |e'|e'| | | | |]; try done. rewrite last_snoc in H. cbn. destruct (nodes !! e') as [el|] eqn:He; [|done].
  unfold start_text. specialize (H e' el eq_refl He). by destruct (GetElementStyle el); repeat case_bool_decide.
Qed.

Lemma nested_last_start evs e st : nested nodes (evs ++ [StartElement e]) st -> exists st', st = e :: st'.
Proof.
  inversion 1 as [E|evs' st' e' el Hn He Hp Hni E|evs' st' e' el Hn He Hp E|evs' st' ev Hn Hp E].
  - destruct evs as [|? [|? ?]]; try done.
  - apply app_inj_tail in E as [_ [= ->]]. by eexists.
  - by apply app_inj_tail in E as [_ ?].
  - apply app_inj_tail in E as [_ ->]. done.
Qed.

Definition visible (evs : list HtmlEvent) : Prop :=
  forall e el, StartElement e ∈ evs -> nodes !! e = Some el -> style_ el <> INVISIBLE.

Lemma write_end evs st e el w :
  nested nodes evs (e :: st) -> nodes !! e = Some el -> style_ el <> INVISIBLE -> written evs w ->
  exists w', write_event nodes (-1) false (EndElement e) w = Some w' /\ written (evs ++ [EndElement e]) w'.
Proof.
  intros Hn He Hi Hw. cbn [write_event]. rewrite He. cbn [mbind option_bind]. unfold EndElement_event.
  destruct (lazy_close_element_ w) as [e'|] eqn:El.
  - destruct Hw as [_ Hl]. rewrite El in Hl. destruct Hl as (el' & evs' & -> & He' & Hs & Ho).
    destruct (nested_last_start _ _ _ Hn) as [st' [= <- <-]]. rewrite He in He'. injection He' as <-. rewrite Hs.
    rewrite decide_True by done. eexists. split; [done|].
    assert (Hfl : forall w0, w0 = mkWriter (output_ w) None (column_ w) ->
      flushed (EmitBytes (lit "/>") (if brief_space el then EmitBytes [" "%char] w0 else w0)) =
      output_ w ++ (if brief_space el then [" "%char] else []) ++ lit "/>").
    { intros w0 ->. destruct (brief_space el); rewrite !EmitBytes_flushed; unfold flushed at 1; cbn; by rewrite app_nil_r, <- ?app_assoc. }
    split; [|rewrite EmitBytes_lazy, last_snoc; done]. rewrite Hfl by done. rewrite !pieces_snoc, last_snoc, !concat_app, Ho. cbn [concat].
    unfold piece. rewrite He. rewrite !bool_decide_eq_true_2 by done. unfold start_text, end_text. rewrite Hs.
    by rewrite !app_nil_r, <- !app_assoc.
  - assert (Hp : concat (pieces None (evs ++ [EndElement e]) None) =
      flushed w ++ end_text el (bool_decide (last evs = Some (StartElement e)))).
    { rewrite pieces_snoc, (written_next _ _ _ Hw El), concat_app, <- (proj1 Hw). cbn. rewrite He, app_nil_r.
      do 2 f_equal. by destruct (last evs). }
    assert (Hstay : forall w', flushed w' = concat (pieces None (evs ++ [EndElement e]) None) -> lazy_close_element_ w' = None ->
      written (evs ++ [EndElement e]) w') by (intros w' Ef Elw; split; [done|rewrite Elw, last_snoc; done]).
    destruct (EmitCloseTag_ok el w) as [Ecf Ecl].
    assert (Hb : GetElementStyle el = BRIEF_CLOSE -> bool_decide (last evs = Some (StartElement e)) = false).
    { intros Hs. apply bool_decide_eq_false_2. intros Hl. destruct Hw as [_ H]. rewrite El in H. by apply (H e el Hl He). }
    unfold end_text in Hp. destruct (GetElementStyle el) eqn:Hs.
    + exfalso. revert Hs. unfold GetElementStyle. destruct (style_ el); try done. destruct (_ || _); [done|]. by destruct (TagAllowsBriefTermination _).
    + exists w. split; [done|]. apply Hstay; [|done]. by rewrite Hp, app_nil_r.
    + eexists. split; [done|]. apply Hstay; [by rewrite Hp, Ecf|done].
    + rewrite decide_False by done. eexists. split; [done|]. apply Hstay; [|done]. rewrite Hp, Ecf. by rewrite Hb.
    + exists w. split; [done|]. apply Hstay; [|done]. by rewrite Hp, app_nil_r.
    + exists w. split; [done|]. apply Hstay; [|done]. by rewrite Hp, app_nil_r.
Qed.

Lemma write_pieces evs st : nested nodes evs st -> visible evs ->
  exists w, write_events nodes (-1) false evs (mkWriter [] None 0) = Some w /\ written evs w.
Proof.
  assert (Hsnoc : forall evs ev w w', write_events nodes (-1) false evs (mkWriter [] None 0) = Some w ->
    write_event nodes (-1) false ev w = Some w' -> write_events nodes (-1) false (evs ++ [ev]) (mkWriter [] None 0) = Some w').
  { intros evs0 ev w w' E E'. unfold write_events in *. by rewrite foldl_snoc, E. }
  assert (Hvis : forall evs ev, visible (evs ++ [ev]) -> visible evs).
  { intros evs0 ev H e el He. apply H. by apply elem_of_app; left. }
  induction 1 as [|evs st e el Hn IH He Hp Hni|evs st e el Hn IH He Hp|evs st ev Hn IH Hp]; intros Hv.
  - eexists. split; [done|]. by split.
  - destruct IH as (w & E & Hw); [by eapply Hvis|]. assert (Hi : style_ el <> INVISIBLE) by (apply (Hv e el); [apply elem_of_app; right; left|done]).
    destruct (StartElement_ok e el w Hi) as [Ef Hl]. eexists. split; [eapply Hsnoc; [done|]; cbn; by rewrite He|].
    assert (Hpc : concat (pieces None (evs ++ [StartElement e]) None) = flushed w ++ start_text el false /\
      concat (pieces None evs (Some (StartElement e))) = flushed w).
    { rewrite pieces_snoc, (pieces_next _ _ (Some (StartElement e))) by done. rewrite concat_app, <- (proj1 Hw). cbn. by rewrite He, app_nil_r. }
    split; [by rewrite Ef, (proj1 Hpc)|]. destruct (lazy_close_element_ _) as [e'|].
    + destruct Hl as (-> & Hs & Ho). exists el, evs. split; [done|]. split; [done|]. split; [done|]. by rewrite (proj2 Hpc).
    + intros e' el'. rewrite last_snoc. intros [= <-] He'. by simplify_eq.
  - destruct IH as (w & E & Hw); [by eapply Hvis|]. destruct (nested_open _ _ _ Hn) as (_ & Ho & _).
    destruct (write_end evs st e el w Hn He) as (w' & E' & Hw'); [|done|exists w'; split; [by eapply Hsnoc|done]].
    apply (Hv e el); [apply elem_of_app; left; apply Ho; left|done].
  - destruct IH as (w & E & Hw); [by eapply Hvis|].
    destruct (write_leaf ev w (match last evs with Some p => Some p | None => None end) None) as (w' & E' & Ef & El); [by rewrite Hp|].
    exists w'. split; [by eapply Hsnoc|]. split.
    + rewrite Ef, (proj1 Hw), pieces_snoc, (pieces_next _ _ (Some ev)), concat_app by (by destruct ev). cbn. by rewrite app_nil_r.
    + rewrite El, last_snoc. intros e el [= ->]. done.
Qed.
End pieces.

(** ** Reading and writing *)

Lemma nested_ends nodes evs st e : nested nodes evs st -> StartElement e ∈ evs -> e ∈ st \/ EndElement e ∈ evs.
Proof.
  induction 1 as [|evs st e' el Hn IH He Hp Hni|evs st e' el Hn IH He Hp|evs st ev Hn IH Hp]; [by intros ?%list_elem_of_singleton|..];
    rewrite !elem_of_app, !list_elem_of_singleton; rewrite ?elem_of_cons.
  - intros [H|[= ->]]; [destruct (IH H) as [?|?]; auto|auto].
  - intros [H|?]; [|done]. destruct (IH H) as [[->|?]%elem_of_cons|?]; auto.
  - intros [H|<-]; [destruct (IH H); auto|done].
Qed.

Lemma sources_visible nodes sk evs text :
  nested nodes evs [] -> sources nodes sk evs text -> visible nodes evs.
Proof.
  intros Hn (parts & _ & Hf) e el Hs He Hi. destruct (nested_ends _ _ _ e Hn Hs) as [H|H]; [by apply not_elem_of_nil in H|].
  apply list_elem_of_lookup in H as [i Hi']. destruct (Forall2_lookup_l _ _ _ _ _ Hf Hi') as (s & _ & el' & He' & Hc).
  rewrite He in He'. injection He' as <-. by rewrite Hi in Hc.
Qed.

(** *** What may become of a document

    The value of an attribute is a C string: it is written up to the first NUL byte. *)
Definition before_nul (v v' : bytes) : Prop := (chr 0 ∉ v') /\ (v = v' \/ exists rest, v = v' ++ chr 0 :: rest).

Definition attr_written (a : Attribute) (o : bytes) : Prop :=
  match escaped_value_ a with
  | None => o = [" "%char] ++ str_ (attr_name a)
  | Some v => exists v', before_nul v v' /\ o = [" "%char] ++ str_ (attr_name a) ++ ["="%char] ++ quote_of (quote_style_ a) ++ v' ++ quote_of (quote_style_ a)
  end.

(** Before [/>] comes a space, unless the last attribute ends with a quote or there is
    none. *)
Definition slash_written (attrs : list Attribute) (o : bytes) : Prop :=
  o = lit " />" \/ o = lit "/>" /\ forall a, last attrs = Some a -> escaped_value_ a <> None /\ quoted (quote_style_ a) = true.

(** [i] is what the document says and [o] what is written for an event: tags are written
    anew, everything else is copied. [slash]: this start tag ends with [/>]; [slashed]: the
    tag before did. *)
Definition rewritten (nodes : list HtmlElement) (skipped slash slashed : bool) (ev : HtmlEvent) (i o : bytes) : Prop :=
  match ev with
  | StartElement e => exists el attrs tail, nodes !! e = Some el /\ start_tag (name_str el) (attributes_ el) i /\
      Forall2 attr_written (attributes_ el) attrs /\ o = ["<"%char] ++ name_str el ++ concat attrs ++ tail /\
      (if slash then slash_written (attributes_ el) tail else tail = [">"%char])
  | EndElement e => exists el, nodes !! e = Some el /\ closing skipped (style_ el) el i /\
      let end_tag := lit "</" ++ name_str el ++ [">"%char] in
      match style_ el with
      | EXPLICIT_CLOSE => o = end_tag
      | BRIEF_CLOSE => o = if slashed then [] else end_tag
      | AUTO_CLOSE => o = if IsImplicitlyClosedTag (keyword el) || IsOptionallyClosedTag (keyword el) || slashed then [] else end_tag
      | IMPLICIT_CLOSE | UNCLOSED => o = []
      | INVISIBLE => False
      end
  | _ => o = i
  end.

(** Which tags end with [/>]: those of elements without content that the document closed
    so, or by implication. *)
Definition slashes (nodes : list HtmlElement) (evs : list HtmlEvent) (slash : nat -> bool) : Prop :=
  (forall k, slash k = true -> exists e el, evs !! k = Some (StartElement e) /\ evs !! S k = Some (EndElement e) /\ nodes !! e = Some el /\
     (style_ el = BRIEF_CLOSE \/ style_ el = AUTO_CLOSE /\ TagAllowsBriefTermination (keyword el) = true)) /\
  (forall k e el, evs !! k = Some (StartElement e) -> evs !! S k = Some (EndElement e) -> nodes !! e = Some el -> style_ el = BRIEF_CLOSE -> slash k = true).

Lemma c_str_before_nul v : before_nul v (c_str v).
Proof.
  induction v as [|c v [H1 H2]]; cbn [c_str]; [split; [apply not_elem_of_nil|by left]|]. case_bool_decide as Hc; [subst c; split; [apply not_elem_of_nil|right; by exists v]|].
  split; [rewrite not_elem_of_cons; split; [congruence|done]|]. destruct H2 as [<-|[rest Hr]]; [by left|right; exists rest; by rewrite Hr at 1].
Qed.

Lemma attr_text_written a : attr_written a (attr_text a).
Proof.
  unfold attr_written, attr_text, escaped_value. destruct (escaped_value_ a) as [v|]; cbn; [|by rewrite app_nil_r].
  exists (c_str v). split; [apply c_str_before_nul|by destruct (quote_style_ a)].
Qed.

Lemma slash_text_written el : slash_written (attributes_ el) ((if brief_space el then [" "%char] else []) ++ lit "/>").
Proof.
  unfold slash_written, brief_space, escaped_value. destruct (last (attributes_ el)) as [a|]; [|by right].
  destruct (escaped_value_ a) as [v|] eqn:Ev; cbn; [|by left]. destruct (quote_style_ a) eqn:Eq; [by left|right; split; [done|]; intros ? [= <-]; by rewrite Ev, Eq..].
Qed.

Section rewritten.
Variables (nodes : list HtmlElement) (skipped : bool) (evs : list HtmlEvent).

Definition slash_at (k : nat) : bool :=
  match evs !! k, evs !! S k with
  | Some (StartElement e), Some (EndElement e') =>
      bool_decide (e' = e) && match nodes !! e with Some el => match GetElementStyle el with BRIEF_CLOSE => true | _ => false end | None => false end
  | _, _ => false
  end.

Lemma pieces_lookup prev l next k ev : l !! k = Some ev ->
  pieces nodes prev l next !! k = Some (piece nodes (match k with O => prev | S k' => l !! k' end) ev (match l !! S k with Some e => Some e | None => next end)).
Proof.
  revert prev k. induction l as [|a l IH]; intros prev k H; [done|]. destruct k as [|k]; cbn [pieces lookup list_lookup] in *.
  - injection H as ->. by destruct l.
  - rewrite IH by done. by destruct k.
Qed.

Lemma slash_at_true k : slash_at k = true -> exists e el, evs !! k = Some (StartElement e) /\ evs !! S k = Some (EndElement e) /\ nodes !! e = Some el /\ GetElementStyle el = BRIEF_CLOSE.
Proof.
  unfold slash_at. destruct (evs !! k) as [[| |e| | | | | |]|]; try done. destruct (evs !! S k) as [[| | |e'| | | | |]|]; try done.
  case_bool_decide; [|done]. subst e'. destruct (nodes !! e) as [el|] eqn:He; [|done]. destruct (GetElementStyle el) eqn:Hs; try done. by exists e, el.
Qed.

Lemma slashes_ok : slashes nodes evs slash_at.
Proof.
  split.
  - intros k (e & el & H1 & H2 & H3 & H4)%slash_at_true. exists e, el. do 3 (split; [done|]). revert H4. unfold GetElementStyle.
    destruct (style_ el); try done; [|by left]. destruct (_ || _); [done|]. destruct (TagAllowsBriefTermination _); [by right|done].
  - intros k e el H1 H2 H3 H4. unfold slash_at. rewrite H1, H2, H3. rewrite bool_decide_eq_true_2 by done. unfold GetElementStyle. by rewrite H4.
Qed.

(** The texts of the two ends of an element, by the position. *)
Lemma start_rewritten k e el : evs !! k = Some (StartElement e) -> nodes !! e = Some el ->
  start_text el (bool_decide (evs !! S k = Some (EndElement e))) =
  open_text el ++ if slash_at k then ((if brief_space el then [" "%char] else []) ++ lit "/>") else [">"%char].
Proof.
  intros Hk He. unfold start_text, slash_at. rewrite Hk. f_equal.
  destruct (evs !! S k) as [ev|]; [|rewrite bool_decide_eq_false_2 by done; by destruct (GetElementStyle el)].
  destruct (decide (ev = EndElement e)) as [->|Hne].
  - rewrite !bool_decide_eq_true_2, He by done. by destruct (GetElementStyle el).
  - rewrite bool_decide_eq_false_2 by congruence. destruct ev as [| | |e'| | | | |]; try by destruct (GetElementStyle el).
    rewrite bool_decide_eq_false_2 by congruence. by destruct (GetElementStyle el).
Qed.

Lemma end_rewritten k e el : evs !! k = Some (EndElement e) -> nodes !! e = Some el ->
  let slashed := match k with O => false | S k' => slash_at k' end in
  bool_decide (match k with O => None | S k' => evs !! k' end = Some (StartElement e)) && (match GetElementStyle el with BRIEF_CLOSE => true | _ => false end) = slashed.
Proof.
  intros Hk He. destruct k as [|k]; [done|]. cbn zeta. unfold slash_at. rewrite Hk. destruct (evs !! k) as [ev|]; [|by rewrite bool_decide_eq_false_2].
  destruct (decide (ev = StartElement e)) as [->|Hne].
  - by rewrite !bool_decide_eq_true_2, He by done.
  - rewrite bool_decide_eq_false_2 by congruence. destruct ev as [| |e'| | | | | |]; try done. by rewrite bool_decide_eq_false_2 by congruence.
Qed.

Lemma pieces_rewritten ins : Forall2 (source nodes skipped) evs ins -> visible nodes evs -> (forall e, EndElement e ∈ evs -> StartElement e ∈ evs) ->
  forall k ev i o, evs !! k = Some ev -> ins !! k = Some i -> pieces nodes None evs None !! k = Some o ->
    rewritten nodes skipped (slash_at k) (match k with O => false | S k' => slash_at k' end) ev i o.
Proof.
  intros Hf Hv Hse k ev i o Hev Hi Ho. pose proof (Forall2_lookup_lr _ _ _ _ _ _ Hf Hev Hi) as Hs. rewrite (pieces_lookup _ _ _ _ ev Hev) in Ho. injection Ho as <-.
  assert (Hnext : match evs !! S k with Some e => Some e | None => None end = evs !! S k) by by destruct (evs !! S k). rewrite Hnext. clear Hnext.
  destruct ev as [| |e|e| | | | |]; cbn in Hs; try (by subst); destruct Hs as (el & He & Hs); cbn [piece]; rewrite He.
  - rewrite (start_rewritten k) by done. exists el, (map attr_text (attributes_ el)). eexists. do 2 (split; [done|]). split; [|split].
    + apply Forall2_fmap_r, Forall_Forall2_diag, Forall_true, attr_text_written.
    + unfold open_text. rewrite <- !app_assoc. reflexivity.
    + destruct (slash_at k); [apply slash_text_written|done].
  - exists el. do 2 (split; [done|]). pose proof (end_rewritten k e el Hev He) as Hb. cbn zeta in Hb. unfold end_text, close_text. rewrite <- Hb. cbn zeta.
    assert (Hi' : style_ el <> INVISIBLE) by (apply (Hv e el); [apply Hse; by apply (list_elem_of_lookup_2 _ k)|done]).
    unfold GetElementStyle in *. destruct (style_ el); try done; rewrite ?andb_true_r.
    + destruct (_ || _); [by rewrite ?orb_true_l|]. cbn [orb]. destruct (TagAllowsBriefTermination _); [by rewrite andb_true_r|by rewrite andb_false_r].
    + done.
Qed.
End rewritten.

(** C7: a document that is read and written again is the same document. The output is
    made of a piece for every event, in order: what is not a tag is copied byte for byte;
    a start tag has the name, the attributes and the values with their quotes of the tag
    in the document, single spaces between them, each value up to its first NUL byte; an
    element closed by an end tag has an end tag of its name; one closed by [/>] still is;
    and one that was closed by implication gets no end tag if the tables of html_keywords
    say that it may be left out, and else an end tag or [/>]. What the lexer skips of a
    document is not in the output. *)
Theorem Reserialize_faithful size_limit chunks :
  exists x evs read rest ins outs slash, ParseDocument size_limit chunks = Some x /\ concat chunks = read ++ rest /\
    queue_ x = evs ++ [EndDocument] /\ (rest <> [] -> skip_parsing_ x = true) /\ read = concat ins /\
    Reserialize size_limit chunks = Some (concat outs) /\ length ins = length evs /\ length outs = length evs /\ slashes (nodes_ x) evs slash /\
    forall k ev i o, evs !! k = Some ev -> ins !! k = Some i -> outs !! k = Some o ->
      rewritten (nodes_ x) (skip_parsing_ x) (slash k) (match k with O => false | S k' => slash k' end) ev i o.
Proof.
  destruct (ParseDocument_ok size_limit chunks) as (x & evs & read & rest & E & Ec & Eq & Hn & Hs & _ & Hr).
  pose proof (sources_visible _ _ _ _ Hn Hs) as Hv. destruct Hs as (ins & Hread & Hf). destruct (nested_open _ _ _ Hn) as (_ & _ & Hse).
  exists x, evs, read, rest, ins, (pieces (nodes_ x) None evs None), (slash_at (nodes_ x) evs). do 3 (split; [done|]). split; [intros H; by apply Hr|]. split; [done|].
  split; [|split; [by apply eq_sym, (Forall2_length _ _ _ Hf)|]]; [|split; [|split; [apply slashes_ok|]]].
  - unfold Reserialize. rewrite E. cbn [mbind option_bind]. rewrite Eq.
    destruct (write_pieces (nodes_ x) evs [] Hn Hv) as (w & Ew & Hw & _). unfold write_events in *. rewrite foldl_snoc, Ew.
    cbn [mbind option_bind write_event]. by rewrite EmitBytes_output, app_nil_r, Hw.
  - clear. generalize (@None HtmlEvent) at 1. induction evs as [|ev evs IH]; intros p; [done|]. cbn. by rewrite IH.
  - apply pieces_rewritten; [done|done|]. intros e He. by apply Hse.
Qed.

Example rewrites_nul : Reserialize (-1) [lit "<a x='b" ++ [chr 0] ++ lit "c'>"] = Some (lit "<a x='b'>").
Proof. by vm_compute. Qed.

Example rewrites_tags :
  Reserialize (-1) [lit "<P  id = a ><!-- x --><ul><li>1<li>2</UL ><b"; lit "r>&amp;</p>"] =
  Some (lit "<P id=a><!-- x --><ul><li>1<li>2</ul><br>&amp;</p>").
Proof. by vm_compute. Qed.

(** [rt] is closed by the next [rt], but is not one of the elements whose end tag can be
    left out. *)
Example adds_end_tag : Reserialize (-1) [lit "<ruby>a<rt>b<rt>c</ruby>"] = Some (lit "<ruby>a<rt>b</rt><rt>c</ruby>").
Proof. by vm_compute. Qed.

(** What is left of an end tag at the end of the document becomes text. *)
Example frees_text : Reserialize (-1) [lit "<script>a</script foo"] = Some (lit "<script>a</script>foo").
Proof. by vm_compute. Qed.
