(* ===== verification/HtmlParse.v ===== *)
(** * The HTML parser: the list of events and its editing

    src/pagespeed/kernel/html/html_parse.cc, html_node.cc and html_element.cc: the events
    of a flush window are a linked list; every node keeps iterators of its own events, and
    the filters insert, move, delete and defer nodes through these iterators.

    A cell of a [std::list] is a number that is never used again; an iterator is a cell,
    or [None] for [queue_.end()]. [std::list::splice] moves cells between lists and keeps
    their iterators. Following an iterator whose cell is not in [queue_], stepping over
    the end or the beginning, a null pointer, a failed [Check], [CHECK] or [DCHECK] and
    [FatalError] are [None]. A filter is a number, its place in [filters_]. *)

From S2P Require Import Prelude StringUtil HtmlKeywords HtmlLexer.

(** ** Nodes and events *)

Inductive LeafKind := CharactersNode | CommentNode | CdataNode | IEDirectiveNode | DirectiveNode.
Inductive NodeKind := ElementNode | LeafNode (k : LeafKind).
Inductive Content := Tag (name : HtmlName) (attrs : list Attribute) (style : Style) | Text (contents : bytes).

#[export] Instance LeafKind_eq_dec : EqDecision LeafKind.
Proof. solve_decision. Defined.
#[export] Instance NodeKind_eq_dec : EqDecision NodeKind.
Proof. solve_decision. Defined.

(** [HtmlElement::Data] and [HtmlLeafNode::Data]; the one iterator of a leaf is kept in
    both places. *)
Record Data := mkData { content_ : Content; is_live_ : bool; begin_ : option nat; end_ : option nat }.
Record HtmlNode := mkNode { kind_ : NodeKind; parent_ : option nat; data_ : option Data }.

Inductive HtmlEvent :=
| StartDocumentEvent
| EndDocumentEvent
| StartElementEvent (n : nat)
| EndElementEvent (n : nat)
| LeafNodeEvent (n : nat).

#[export] Instance HtmlEvent_eq_dec : EqDecision HtmlEvent.
Proof. solve_decision. Defined.

Definition GetElementIfStartEvent (ev : HtmlEvent) : option nat := match ev with StartElementEvent n => Some n | _ => None end.
Definition GetElementIfEndEvent (ev : HtmlEvent) : option nat := match ev with EndElementEvent n => Some n | _ => None end.
Definition GetLeafNode (ev : HtmlEvent) : option nat := match ev with LeafNodeEvent n => Some n | _ => None end.
Definition GetNode (ev : HtmlEvent) : option nat :=
  match ev with StartElementEvent n | EndElementEvent n | LeafNodeEvent n => Some n | _ => None end.

(** [lexer_stack_] is the [element_stack_] of the lexer without its null entry. *)
Record HtmlParse := mkParse {
  nodes_ : list HtmlNode;
  queue_ : list (nat * HtmlEvent);
  fresh_ : nat;
  current_ : option nat;
  skip_increment_ : bool;
  need_sanity_check_ : bool;
  need_coalesce_characters_ : bool;
  delayed_start_literal_ : option HtmlEvent;
  current_filter_ : option nat;
  open_deferred_nodes_ : gmap nat nat;
  deferred_nodes_ : gmap nat (list (nat * HtmlEvent));
  deferred_deleted_nodes_ : gset nat;
  lexer_stack_ : list nat;
}.

Definition set_nodes (v : list HtmlNode) (x : HtmlParse) : HtmlParse :=
  mkParse v (queue_ x) (fresh_ x) (current_ x) (skip_increment_ x) (need_sanity_check_ x) (need_coalesce_characters_ x)
    (delayed_start_literal_ x) (current_filter_ x) (open_deferred_nodes_ x) (deferred_nodes_ x) (deferred_deleted_nodes_ x)
    (lexer_stack_ x).
Definition set_queue (v : list (nat * HtmlEvent)) (x : HtmlParse) : HtmlParse :=
  mkParse (nodes_ x) v (fresh_ x) (current_ x) (skip_increment_ x) (need_sanity_check_ x) (need_coalesce_characters_ x)
    (delayed_start_literal_ x) (current_filter_ x) (open_deferred_nodes_ x) (deferred_nodes_ x) (deferred_deleted_nodes_ x)
    (lexer_stack_ x).
Definition set_fresh (v : nat) (x : HtmlParse) : HtmlParse :=
  mkParse (nodes_ x) (queue_ x) v (current_ x) (skip_increment_ x) (need_sanity_check_ x) (need_coalesce_characters_ x)
    (delayed_start_literal_ x) (current_filter_ x) (open_deferred_nodes_ x) (deferred_nodes_ x) (deferred_deleted_nodes_ x)
    (lexer_stack_ x).
Definition set_current (v : option nat) (x : HtmlParse) : HtmlParse :=
  mkParse (nodes_ x) (queue_ x) (fresh_ x) v (skip_increment_ x) (need_sanity_check_ x) (need_coalesce_characters_ x)
    (delayed_start_literal_ x) (current_filter_ x) (open_deferred_nodes_ x) (deferred_nodes_ x) (deferred_deleted_nodes_ x)
    (lexer_stack_ x).
Definition set_skip_increment (v : bool) (x : HtmlParse) : HtmlParse :=
  mkParse (nodes_ x) (queue_ x) (fresh_ x) (current_ x) v (need_sanity_check_ x) (need_coalesce_characters_ x)
    (delayed_start_literal_ x) (current_filter_ x) (open_deferred_nodes_ x) (deferred_nodes_ x) (deferred_deleted_nodes_ x)
    (lexer_stack_ x).
Definition set_need_sanity_check (v : bool) (x : HtmlParse) : HtmlParse :=
  mkParse (nodes_ x) (queue_ x) (fresh_ x) (current_ x) (skip_increment_ x) v (need_coalesce_characters_ x)
    (delayed_start_literal_ x) (current_filter_ x) (open_deferred_nodes_ x) (deferred_nodes_ x) (deferred_deleted_nodes_ x)
    (lexer_stack_ x).
Definition set_need_coalesce_characters (v : bool) (x : HtmlParse) : HtmlParse :=
  mkParse (nodes_ x) (queue_ x) (fresh_ x) (current_ x) (skip_increment_ x) (need_sanity_check_ x) v
    (delayed_start_literal_ x) (current_filter_ x) (open_deferred_nodes_ x) (deferred_nodes_ x) (deferred_deleted_nodes_ x)
    (lexer_stack_ x).
Definition set_delayed_start_literal (v : option HtmlEvent) (x : HtmlParse) : HtmlParse :=
  mkParse (nodes_ x) (queue_ x) (fresh_ x) (current_ x) (skip_increment_ x) (need_sanity_check_ x)
    (need_coalesce_characters_ x) v (current_filter_ x) (open_deferred_nodes_ x) (deferred_nodes_ x)
    (deferred_deleted_nodes_ x) (lexer_stack_ x).
Definition set_current_filter (v : option nat) (x : HtmlParse) : HtmlParse :=
  mkParse (nodes_ x) (queue_ x) (fresh_ x) (current_ x) (skip_increment_ x) (need_sanity_check_ x)
    (need_coalesce_characters_ x) (delayed_start_literal_ x) v (open_deferred_nodes_ x) (deferred_nodes_ x)
    (deferred_deleted_nodes_ x) (lexer_stack_ x).
Definition set_open_deferred_nodes (v : gmap nat nat) (x : HtmlParse) : HtmlParse :=
  mkParse (nodes_ x) (queue_ x) (fresh_ x) (current_ x) (skip_increment_ x) (need_sanity_check_ x)
    (need_coalesce_characters_ x) (delayed_start_literal_ x) (current_filter_ x) v (deferred_nodes_ x)
    (deferred_deleted_nodes_ x) (lexer_stack_ x).
Definition set_deferred_nodes (v : gmap nat (list (nat * HtmlEvent))) (x : HtmlParse) : HtmlParse :=
  mkParse (nodes_ x) (queue_ x) (fresh_ x) (current_ x) (skip_increment_ x) (need_sanity_check_ x)
    (need_coalesce_characters_ x) (delayed_start_literal_ x) (current_filter_ x) (open_deferred_nodes_ x) v
    (deferred_deleted_nodes_ x) (lexer_stack_ x).
Definition set_deferred_deleted_nodes (v : gset nat) (x : HtmlParse) : HtmlParse :=
  mkParse (nodes_ x) (queue_ x) (fresh_ x) (current_ x) (skip_increment_ x) (need_sanity_check_ x)
    (need_coalesce_characters_ x) (delayed_start_literal_ x) (current_filter_ x) (open_deferred_nodes_ x) (deferred_nodes_ x)
    v (lexer_stack_ x).
Definition set_lexer_stack (v : list nat) (x : HtmlParse) : HtmlParse :=
  mkParse (nodes_ x) (queue_ x) (fresh_ x) (current_ x) (skip_increment_ x) (need_sanity_check_ x)
    (need_coalesce_characters_ x) (delayed_start_literal_ x) (current_filter_ x) (open_deferred_nodes_ x) (deferred_nodes_ x)
    (deferred_deleted_nodes_ x) v.

(** The flags that every change of the queue raises. *)
Definition touched (x : HtmlParse) : HtmlParse := set_need_coalesce_characters true (set_need_sanity_check true x).

Definition data (n : nat) (x : HtmlParse) : option Data := nd ← nodes_ x !! n; data_ nd.
Definition live (n : nat) (x : HtmlParse) : bool := match data n x with Some d => is_live_ d | None => false end.
Definition parent (n : nat) (x : HtmlParse) : option (option nat) := parent_ <$> nodes_ x !! n.
Definition begin (n : nat) (x : HtmlParse) : option (option nat) := begin_ <$> data n x.
Definition end_of (n : nat) (x : HtmlParse) : option (option nat) := end_ <$> data n x.

Definition modify_node (n : nat) (f : HtmlNode -> HtmlNode) (x : HtmlParse) : HtmlParse := set_nodes (alter f n (nodes_ x)) x.
Definition with_data (d : option Data) (nd : HtmlNode) : HtmlNode := mkNode (kind_ nd) (parent_ nd) d.
Definition with_parent (p : option nat) (nd : HtmlNode) : HtmlNode := mkNode (kind_ nd) p (data_ nd).
Definition modify_data (n : nat) (f : Data -> Data) (x : HtmlParse) : option HtmlParse :=
  d ← data n x; Some (modify_node n (with_data (Some (f d))) x).

Definition set_parent (n : nat) (p : option nat) (x : HtmlParse) : HtmlParse := modify_node n (with_parent p) x.
Definition set_begin (n : nat) (it : option nat) : HtmlParse -> option HtmlParse :=
  modify_data n (fun d => mkData (content_ d) (is_live_ d) it (end_ d)).
Definition set_end (n : nat) (it : option nat) : HtmlParse -> option HtmlParse :=
  modify_data n (fun d => mkData (content_ d) (is_live_ d) (begin_ d) it).
Definition set_iter (n : nat) (it : option nat) : HtmlParse -> option HtmlParse :=
  modify_data n (fun d => mkData (content_ d) (is_live_ d) it it).
Definition set_content (n : nat) (c : Content) : HtmlParse -> option HtmlParse :=
  modify_data n (fun d => mkData c (is_live_ d) (begin_ d) (end_ d)).
Definition FreeData (n : nat) (x : HtmlParse) : HtmlParse := modify_node n (with_data None) x.
Definition MarkAsDead (n : nat) (x : HtmlParse) : HtmlParse :=
  modify_node n (fun nd => with_data ((fun d => mkData (content_ d) false None None) <$> data_ nd) nd) x.

Definition is_characters (n : nat) (x : HtmlParse) : bool :=
  match nodes_ x !! n with Some nd => bool_decide (kind_ nd = LeafNode CharactersNode) | None => false end.
Definition GetCharactersNode (ev : HtmlEvent) (x : HtmlParse) : option nat :=
  n ← GetLeafNode ev; if is_characters n x then Some n else None.
Definition element_keyword (n : nat) (x : HtmlParse) : option Keyword :=
  d ← data n x; match content_ d with Tag name _ _ => Some (keyword_ name) | Text _ => None end.

(** ** The list *)

Definition Cells : Type := list (nat * HtmlEvent).

(** The cells before an iterator and from it on. *)
Fixpoint split_cell (c : nat) (q : Cells) : option (Cells * Cells) :=
  match q with
  | [] => None
  | (d, ev) :: q' => if decide (d = c) then Some ([], q) else '(a, r) ← split_cell c q'; Some ((d, ev) :: a, r)
  end.
Definition split_iter (it : option nat) (q : Cells) : option (Cells * Cells) :=
  match it with Some c => split_cell c q | None => Some (q, []) end.

Definition front (q : Cells) : option nat := fst <$> head q.
Definition deref (it : option nat) (q : Cells) : option HtmlEvent := '(_, r) ← split_iter it q; snd <$> head r.
Definition next (it : option nat) (q : Cells) : option (option nat) :=
  '(_, r) ← split_iter it q; match r with [] => None | _ :: t => Some (front t) end.
Definition prev (it : option nat) (q : Cells) : option (option nat) :=
  '(a, _) ← split_iter it q; match last a with Some (c, _) => Some (Some c) | None => None end.
(** What comes before [b], from [b] up to [e], and from [e] on. *)
Definition range (b e : option nat) (q : Cells) : option (Cells * Cells * Cells) :=
  '(a, r) ← split_iter b q; '(s, t) ← split_iter e r; Some (a, s, t).

(** [queue_.insert], [queue_.erase] and [queue_.splice] within the queue; the first two
    return an iterator. *)
Definition insert_event (it : option nat) (ev : HtmlEvent) (x : HtmlParse) : option (HtmlParse * option nat) :=
  '(a, r) ← split_iter it (queue_ x);
  Some (set_fresh (S (fresh_ x)) (set_queue (a ++ (fresh_ x, ev) :: r) x), Some (fresh_ x)).
Definition erase (it : option nat) (x : HtmlParse) : option (HtmlParse * option nat) :=
  '(a, r) ← split_iter it (queue_ x);
  match r with [] => None | _ :: t => Some (set_queue (a ++ t) x, front t) end.
Definition splice (pos b e : option nat) (x : HtmlParse) : option HtmlParse :=
  '(a, s, t) ← range b e (queue_ x);
  '(l, r) ← split_iter pos (a ++ t);
  Some (set_queue (l ++ s ++ r) x).

(** ** Making nodes *)

Definition NewNode (k : NodeKind) (p : option nat) (c : Content) (x : HtmlParse) : HtmlParse * nat :=
  (set_nodes (nodes_ x ++ [mkNode k p (Some (mkData c true None None))]) x, length (nodes_ x)).
Definition NewElement (p : option nat) (name : HtmlName) (attrs : list Attribute) : HtmlParse -> HtmlParse * nat :=
  NewNode ElementNode p (Tag name attrs (if IsOptionallyClosedTag (keyword_ name) then EXPLICIT_CLOSE else AUTO_CLOSE)).
(** [NewCdataNode], [NewCharactersNode], [NewCommentNode], [NewIEDirectiveNode] and
    [NewDirectiveNode] *)
Definition NewLeafNode (k : LeafKind) (p : option nat) (contents : bytes) : HtmlParse -> HtmlParse * nat :=
  NewNode (LeafNode k) p (Text contents).

(** The same attributes, copied as C strings. *)
Definition CloneElement (in_element : nat) (x : HtmlParse) : option (HtmlParse * nat) :=
  d ← data in_element x;
  match content_ d with
  | Tag name attrs style =>
      let '(x, n) := NewElement None name [] x in
      let copy a := mkAttribute (attr_name a) (escaped_value a) (quote_style_ a) in
      x ← set_content n (Tag name (map copy attrs) style) x;
      Some (x, n)
  | Text _ => None
  end.

Definition SynthesizeEvents (n : nat) (it : option nat) (x : HtmlParse) : option HtmlParse :=
  nd ← nodes_ x !! n;
  match kind_ nd with
  | ElementNode =>
      '(x, b) ← insert_event it (StartElementEvent n) x;
      x ← set_begin n b x;
      '(x, e) ← insert_event it (EndElementEvent n) x;
      set_end n e x
  | LeafNode _ => '(x, i) ← insert_event it (LeafNodeEvent n) x; set_iter n i x
  end.

(** ** What can be rewritten *)

Definition IsInEventWindow (it : option nat) : bool := bool_decide (is_Some it).
Definition IsDeferred (n : nat) (x : HtmlParse) : bool := bool_decide (is_Some (deferred_nodes_ x !! n)).
Definition IsRewritableIgnoringDeferral (n : nat) (x : HtmlParse) : bool :=
  match data n x with Some d => is_live_ d && IsInEventWindow (begin_ d) && IsInEventWindow (end_ d) | None => false end.
Definition IsRewritableIgnoringEnd (n : nat) (x : HtmlParse) : bool :=
  match data n x with Some d => is_live_ d && negb (IsDeferred n x) && IsInEventWindow (begin_ d) | None => false end.
Definition IsRewritable (n : nat) (x : HtmlParse) : bool := IsRewritableIgnoringDeferral n x && negb (IsDeferred n x).
Definition CanAppendChild (n : nat) (x : HtmlParse) : bool :=
  match data n x with Some d => is_live_ d && negb (IsDeferred n x) && IsInEventWindow (end_ d) | None => false end.

(** ** Inserting nodes *)

Definition InsertNodeBeforeEvent (event : option nat) (new_node : nat) (x : HtmlParse) : option HtmlParse :=
  SynthesizeEvents new_node event (touched x).
Definition InsertNodeAfterEvent (event : option nat) (new_node : nat) (x : HtmlParse) : option HtmlParse :=
  match event with
  | None => None
  | Some _ => next_event ← next event (queue_ x); InsertNodeBeforeEvent next_event new_node x
  end.

Definition InsertNodeBeforeNode (existing_node new_node : nat) (x : HtmlParse) : option HtmlParse :=
  b ← begin existing_node x;
  p ← parent existing_node x;
  match b with None => None | Some _ => InsertNodeBeforeEvent b new_node (set_parent new_node p x) end.
Definition InsertNodeAfterNode (existing_node new_node : nat) (x : HtmlParse) : option HtmlParse :=
  e ← end_of existing_node x;
  p ← parent existing_node x;
  match e with None => None | Some _ => InsertNodeAfterEvent e new_node (set_parent new_node p x) end.
Definition PrependChild (existing_parent new_child : nat) (x : HtmlParse) : option HtmlParse :=
  b ← begin existing_parent x;
  match b with None => None | Some _ => InsertNodeAfterEvent b new_child (set_parent new_child (Some existing_parent) x) end.
Definition AppendChild (existing_parent : option nat) (new_child : nat) (x : HtmlParse) : option HtmlParse :=
  match existing_parent with
  | Some p =>
      e ← end_of p x;
      match e with None => None | Some _ => InsertNodeBeforeEvent e new_child (set_parent new_child (Some p) x) end
  | None => InsertNodeBeforeEvent None new_child x
  end.

Definition InsertNodeBeforeCurrent (new_node : nat) (x : HtmlParse) : option HtmlParse :=
  if skip_increment_ x then None
  else
    p ← parent new_node x;
    x ←
      (match p, current_ x with
       | None, Some _ =>
           current_event ← deref (current_ x) (queue_ x);
           match GetElementIfEndEvent current_event, GetNode current_event with
           | Some end_element, _ => Some (set_parent new_node (Some end_element) x)
           | None, Some node => q ← parent node x; Some (set_parent new_node q x)
           | None, None => Some x
           end
       | _, _ => Some x
       end);
    InsertNodeBeforeEvent (current_ x) new_node x.

Definition InsertNodeAfterCurrent (new_node : nat) (x : HtmlParse) : option HtmlParse :=
  if skip_increment_ x then None
  else
    current_event ← deref (current_ x) (queue_ x);
    p ← parent new_node x;
    x ←
      (match p with
       | Some _ => Some x
       | None =>
           q ←
             (match current_event with
              | EndElementEvent n => parent n x
              | StartElementEvent n => Some (Some n)
              | _ => match GetNode current_event with Some n => parent n x | None => Some None end
              end);
           Some (set_parent new_node q x)
       end);
    c ← next (current_ x) (queue_ x);
    x ← InsertNodeBeforeEvent c new_node (set_current c x);
    c ← prev c (queue_ x);
    ev ← deref c (queue_ x);
    if decide (GetNode ev = Some new_node) then Some (set_current c x) else None.

(** ** Wrapping and moving *)

Definition FixParent (original_parent new_parent : option nat) (x : HtmlParse) (cell : nat * HtmlEvent) : HtmlParse :=
  match GetNode cell.2 with
  | Some node => if decide (parent node x = Some original_parent) then set_parent node new_parent x else x
  | None => x
  end.
Definition FixParents (b end_inclusive : option nat) (new_parent : option nat) (x : HtmlParse) : option HtmlParse :=
  ev ← deref b (queue_ x);
  first ← GetNode ev;
  original_parent ← parent first x;
  match end_inclusive with
  | None => None
  | Some _ =>
      e ← next end_inclusive (queue_ x);
      '(_, s, _) ← range b e (queue_ x);
      Some (foldl (FixParent original_parent new_parent) x s)
  end.

Definition AddParentToSequence (first last new_parent : nat) (x : HtmlParse) : option (HtmlParse * bool) :=
  original_parent ← parent first x;
  last_parent ← parent last x;
  if IsRewritable first x && IsRewritable last x && bool_decide (last_parent = original_parent) then
    b ← begin new_parent x;
    e ← end_of new_parent x;
    if negb (IsInEventWindow b) && negb (IsInEventWindow e) then
      b ← begin first x;
      x ← InsertNodeBeforeEvent b new_parent x;
      e ← end_of new_parent x;
      end_element_event ← deref e (queue_ x);
      '(x, _) ← erase e x;
      l ← end_of last x;
      p ← next l (queue_ x);
      '(x, e) ← insert_event p end_element_event x;
      x ← set_end new_parent e x;
      b ← begin first x;
      l ← end_of last x;
      x ← FixParents b l (Some new_parent) x;
      Some (touched x, true)
    else Some (x, false)
  else Some (x, false).

(** The walk up the parents; it ends when the parents have no cycle. *)
Fixpoint IsDescendantOf_loop (fuel : nat) (node : option nat) (possible_parent : nat) (x : HtmlParse) : option bool :=
  match node with
  | None => Some false
  | Some n =>
      if decide (n = possible_parent) then Some true
      else match fuel with
           | O => None
           | S fuel => p ← parent n x; IsDescendantOf_loop fuel p possible_parent x
           end
  end.
Definition IsDescendantOf (possible_child : option nat) (possible_parent : nat) (x : HtmlParse) : option bool :=
  IsDescendantOf_loop (S (length (nodes_ x))) possible_child possible_parent x.

Definition MoveCurrentBeforeEvent (move_to : option nat) (x : HtmlParse) : option (HtmlParse * bool) :=
  match move_to, current_ x with
  | Some _, Some _ =>
      move_to_event ← deref move_to (queue_ x);
      current_event ← deref (current_ x) (queue_ x);
      current_node ← GetNode current_event;
      b ← begin current_node x;
      e ← end_of current_node x;
      if bool_decide (current_ x = e) && IsInEventWindow b && IsInEventWindow e then
        descendant ← IsDescendantOf (GetNode move_to_event) current_node x;
        if descendant : bool then Some (x, false)
        else
          e ← next e (queue_ x);
          x ← splice move_to b e x;
          c ← prev e (queue_ x);
          Some (touched (set_current c x), true)
      else Some (x, false)
  | _, _ => Some (x, false)
  end.

(** At [queue_.end()] both report a fatal error. *)
Definition MoveCurrentInto (new_parent : nat) (x : HtmlParse) : option (HtmlParse * bool) :=
  match current_ x with
  | None => None
  | Some _ =>
      if live new_parent x then
        current_event ← deref (current_ x) (queue_ x);
        e ← end_of new_parent x;
        '(x, moved) ← MoveCurrentBeforeEvent e x;
        if moved : bool then current_node ← GetNode current_event; Some (set_parent current_node (Some new_parent) x, true)
        else Some (x, false)
      else Some (x, false)
  end.
Definition MoveCurrentBefore (element : nat) (x : HtmlParse) : option (HtmlParse * bool) :=
  match current_ x with
  | None => None
  | Some _ =>
      if live element x then
        current_event ← deref (current_ x) (queue_ x);
        b ← begin element x;
        '(x, moved) ← MoveCurrentBeforeEvent b x;
        if moved : bool then
          current_node ← GetNode current_event; p ← parent element x; Some (set_parent current_node p x, true)
        else Some (x, false)
      else Some (x, false)
  end.

(** ** Deferring and deleting *)

Definition NextEvent (x : HtmlParse) : option HtmlParse :=
  if skip_increment_ x then Some (set_skip_increment false x)
  else c ← next (current_ x) (queue_ x); Some (set_current c x).

Definition DeferCurrentNode (x : HtmlParse) : option HtmlParse :=
  ev ← deref (current_ x) (queue_ x);
  node ← GetNode ev;
  b ← begin node x;
  node_end ← end_of node x;
  if live node x && negb (match current_filter_ x with Some f => bool_decide (is_Some (open_deferred_nodes_ x !! f)) | None => false end)
     && negb (IsDeferred node x) && IsInEventWindow b
  then
    '(x, node_last) ←
      (match node_end with
       | Some _ => l ← next node_end (queue_ x); Some (x, l)
       | None =>
           first ← deref b (queue_ x);
           f ← current_filter_ x;
           match GetElementIfStartEvent first with
           | Some _ => Some (set_open_deferred_nodes (<[f := node]> (open_deferred_nodes_ x)) x, None)
           | None => None
           end
       end);
    let x := set_skip_increment true (set_current node_last x) in
    '(a, s, t) ← range b node_last (queue_ x);
    Some (touched (set_deferred_nodes (<[node := s]> (deferred_nodes_ x)) (set_queue (a ++ t) x)))
  else None.

Definition RestoreDeferredNode (deferred_node : nat) (x : HtmlParse) : option HtmlParse :=
  event ← deref (current_ x) (queue_ x);
  if IsRewritableIgnoringDeferral deferred_node x && negb (bool_decide (deferred_node ∈ deferred_deleted_nodes_ x)) then
    event_list ← deferred_nodes_ x !! deferred_node;
    let x := set_deferred_nodes (delete deferred_node (deferred_nodes_ x)) x in
    current_node ← GetNode event;
    p ← parent current_node x;
    let new_parent := match GetElementIfStartEvent event with Some e => Some e | None => p end in
    x ← NextEvent (set_parent deferred_node new_parent x);
    '(a, r) ← split_iter (current_ x) (queue_ x);
    b ← begin deferred_node x;
    Some (touched (set_current b (set_queue (a ++ event_list ++ r) x)))
  else None.

(** [rest] is the queue from the iterator [p] of the loop on. *)
Fixpoint DeleteNode_loop (rest : Cells) (node : nat) (x : HtmlParse) : option HtmlParse :=
  match rest with
  | [] => None
  | (p, event) :: rest =>
      e ← end_of node x;
      x ←
        (if negb (skip_increment_ x) && bool_decide (current_ x = Some p) then
           c ← next e (queue_ x); Some (set_current c (set_skip_increment true x))
         else Some x);
      '(x, _) ← erase (Some p) x;
      x ←
        (match event with
         | EndElementEvent n | LeafNodeEvent n => if live n x then Some (MarkAsDead n x) else None
         | _ => Some x
         end);
      if decide (e = Some p) then Some x else DeleteNode_loop rest node x
  end.

Definition DeleteNode (node : nat) (x : HtmlParse) : option (HtmlParse * bool) :=
  if IsRewritable node x then
    b ← begin node x;
    '(_, rest) ← split_iter b (queue_ x);
    x ← DeleteNode_loop rest node x;
    if live node x then None else Some (touched x, true)
  else if IsRewritableIgnoringEnd node x && bool_decide (is_Some (current_ x)) then
    event ← deref (current_ x) (queue_ x);
    if decide (GetNode event = Some node) then
      if decide (GetElementIfEndEvent event = None) then
        x ← DeferCurrentNode x;
        Some (set_deferred_deleted_nodes ({[node]} ∪ deferred_deleted_nodes_ x) x, true)
      else Some (x, false)
    else Some (x, false)
  else Some (x, false).

Definition DeleteSavingChildren (element : nat) (x : HtmlParse) : option (HtmlParse * bool) :=
  if IsRewritable element x then
    new_parent ← parent element x;
    b ← begin element x;
    last ← end_of element x;
    first ← next b (queue_ x);
    x ←
      (if decide (first = last) then Some x
       else
         l ← prev last (queue_ x);
         x ← FixParents first l new_parent x;
         at_start ←
           (match current_ x with
            | None => Some false
            | Some _ => ev ← deref (current_ x) (queue_ x); Some (bool_decide (GetElementIfStartEvent ev = Some element))
            end);
         x ← (if at_start : bool then after ← next last (queue_ x); splice after first last x else splice b first last x);
         Some (touched x));
    DeleteNode element x
  else Some (x, false).

Definition ReplaceNode (existing_node new_node : nat) (x : HtmlParse) : option (HtmlParse * bool) :=
  if IsRewritable existing_node x then
    x ← InsertNodeBeforeNode existing_node new_node x;
    '(x, replaced) ← DeleteNode existing_node x;
    if replaced : bool then Some (x, true) else None
  else Some (x, false).

Definition MakeElementInvisible (element : nat) (x : HtmlParse) : option (HtmlParse * bool) :=
  if IsRewritableIgnoringEnd element x then
    d ← data element x;
    match content_ d with
    | Tag name attrs _ => x ← set_content element (Tag name attrs INVISIBLE) x; Some (x, true)
    | Text _ => None
    end
  else Some (x, false).

Definition HasChildrenInFlushWindow (element : nat) (x : HtmlParse) : option bool :=
  if IsRewritable element x then
    first ← begin element x;
    match first with
    | None => Some false
    | Some _ => first ← next first (queue_ x); e ← end_of element x; Some (negb (bool_decide (first = e)))
    end
  else Some false.

(** ** The interface of the lexer *)

(** [CheckParentFromAddEvent] and [AddEvent] *)
Definition AddEvent (event : HtmlEvent) (x : HtmlParse) : option HtmlParse :=
  ok ←
    (match GetNode event with
     | Some node => p ← parent node x; Some (bool_decide (head (lexer_stack_ x) = p))
     | None => Some true
     end);
  if ok : bool then
    '(x, i) ← insert_event None event x;
    let x := touched x in
    match GetLeafNode event with
    | Some leaf => x ← set_iter leaf i x; if IsRewritable leaf x then Some x else None
    | None => Some x
    end
  else None.
Definition Last (x : HtmlParse) : option (option nat) := prev None (queue_ x).

Definition AddElement (element : nat) (x : HtmlParse) : option HtmlParse :=
  x ← AddEvent (StartElementEvent element) x;
  i ← Last x;
  set_begin element i x.

(** The held back start tag of a literal element goes before the characters, if any. *)
Definition RestoreDelayedLiteral (x : HtmlParse) : option HtmlParse :=
  match delayed_start_literal_ x with
  | None => Some x
  | Some delayed =>
      delayed_element ← GetElementIfStartEvent delayed;
      let x := set_delayed_start_literal None x in
      position ←
        (match last (queue_ x) with
         | None => Some None
         | Some (p, event) =>
             match GetCharactersNode event x with
             | Some _ => if decide (Some p = front (queue_ x)) then Some None else i ← prev (Some p) (queue_ x); Some (Some i)
             | None => None
             end
         end);
      '(x, i) ← insert_event (match position with Some i => i | None => front (queue_ x) end) delayed x;
      set_begin delayed_element i x
  end.

Definition CloseElement (element : nat) (style : Style) (x : HtmlParse) : option HtmlParse :=
  x ← RestoreDelayedLiteral x;
  d ← data element x;
  x ←
    (match content_ d with
     | Tag name attrs INVISIBLE => Some x
     | Tag name attrs _ => set_content element (Tag name attrs style) x
     | Text _ => None
     end);
  x ← AddEvent (EndElementEvent element) x;
  i ← Last x;
  set_end element i x.

(** What [HtmlLexer] does with the parser: it opens, fills and closes the elements of its
    stack. *)
Definition open_element (name : HtmlName) (attrs : list Attribute) (x : HtmlParse) : option HtmlParse :=
  let '(x, n) := NewElement (head (lexer_stack_ x)) name attrs x in
  x ← AddElement n x;
  Some (set_lexer_stack (n :: lexer_stack_ x) x).
Definition add_leaf (k : LeafKind) (contents : bytes) (x : HtmlParse) : option HtmlParse :=
  let '(x, n) := NewLeafNode k (head (lexer_stack_ x)) contents x in AddEvent (LeafNodeEvent n) x.
Definition close_element (style : Style) (x : HtmlParse) : option HtmlParse :=
  match lexer_stack_ x with
  | [] => None
  | e :: stack => CloseElement e style (set_lexer_stack stack x)
  end.

Definition InsertComment (unescaped : bytes) (x : HtmlParse) : option (HtmlParse * bool) :=
  let escaped := Escape unescaped in
  let insert p (at_event : option nat -> nat -> HtmlParse -> option HtmlParse) pos x :=
    let '(x, n) := NewLeafNode CommentNode p escaped x in
    x ← at_event pos n x; Some (x, true) in
  match queue_ x with
  | [] =>
      literal ←
        (match head (lexer_stack_ x) with
         | Some e => k ← element_keyword e x; Some (IsLiteralTag k)
         | None => Some false
         end);
      if literal : bool then Some (x, false)
      else x ← add_leaf CommentNode escaped x; Some (x, true)
  | _ =>
      pos ← (match current_ x with Some c => Some (Some c) | None => prev None (queue_ x) end);
      event ← deref pos (queue_ x);
      match event with
      | StartElementEvent e => p ← parent e x; insert p InsertNodeBeforeEvent pos x
      | EndElementEvent e => p ← parent e x; insert p InsertNodeAfterEvent pos x
      | _ =>
          p ← (match GetNode event with Some n => parent n x | None => Some None end);
          match current_ x with
          | None => insert p InsertNodeAfterEvent pos x
          | Some _ => insert p InsertNodeBeforeEvent pos x
          end
      end
  end.

(** ** Running the filters *)

Fixpoint Coalesce_loop (rest : Cells) (prev : option nat) (x : HtmlParse) : option HtmlParse :=
  match rest with
  | [] => Some x
  | (c, event) :: rest =>
      match GetCharactersNode event x, prev with
      | Some node, Some p =>
          dn ← data node x;
          dp ← data p x;
          match content_ dp, content_ dn with
          | Text sp, Text sn =>
              x ← set_content p (Text (sp ++ sn)) x;
              '(x, _) ← erase (Some c) x;
              Coalesce_loop rest prev (set_need_sanity_check true (FreeData node (MarkAsDead node x)))
          | _, _ => None
          end
      | node, _ => Coalesce_loop rest node x
      end
  end.
Definition CoalesceAdjacentCharactersNodes (x : HtmlParse) : option HtmlParse := Coalesce_loop (queue_ x) None x.

Definition DelayLiteralTag (x : HtmlParse) : option HtmlParse :=
  match last (queue_ x) with
  | None => Some x
  | Some (c, event) =>
      literal ←
        (match GetElementIfStartEvent event with
         | Some element => k ← element_keyword element x; Some (IsLiteralTag k)
         | None => Some false
         end);
      if literal : bool then '(x, _) ← erase (Some c) x; Some (set_delayed_start_literal (Some event) x)
      else Some x
  end.

(** [ApplyFilter] up to its loop: the events of an element that this filter is deferring
    are taken out of the window. *)
Definition take_deferred (filter : nat) (x : HtmlParse) : option HtmlParse :=
  match open_deferred_nodes_ x !! filter with
  | None => Some x
  | Some deferred_node =>
      node_events ← deferred_nodes_ x !! deferred_node;
      e ← end_of deferred_node x;
      match e with
      | Some _ =>
          last ← next e (queue_ x);
          '(s, t) ← split_iter last (queue_ x);
          Some (set_open_deferred_nodes (delete filter (open_deferred_nodes_ x))
                 (set_deferred_nodes (<[deferred_node := node_events ++ s]> (deferred_nodes_ x)) (set_queue t x)))
      | None =>
          Some (set_deferred_nodes (<[deferred_node := node_events ++ queue_ x]> (deferred_nodes_ x)) (set_queue [] x))
      end
  end.

Definition ApplyFilter_begin (filter : nat) (x : HtmlParse) : option HtmlParse :=
  match current_filter_ x with
  | Some _ => None
  | None =>
      x ← take_deferred filter (set_current_filter (Some filter) x);
      x ←
        (if need_coalesce_characters_ x then
           x ← CoalesceAdjacentCharactersNodes x;
           x ← DelayLiteralTag x;
           Some (set_need_coalesce_characters false x)
         else Some x);
      Some (set_current (front (queue_ x)) x)
  end.

Definition CheckEventParent (expect : option nat) (actual : option nat) : bool :=
  match expect with None => true | Some _ => bool_decide (actual = expect) end.

(** The loop of [SanityCheck]; [None] when a check fails. *)
Fixpoint SanityCheck_loop (q : Cells) (element_stack : list nat) (x : HtmlParse) : option unit :=
  match q with
  | [] => Some tt
  | (c, event) :: q =>
      let expect_parent := head element_stack in
      match event with
      | StartElementEvent n =>
          p ← parent n x;
          if CheckEventParent expect_parent p && bool_decide (begin n x = Some (Some c)) && live n x then
            SanityCheck_loop q (n :: element_stack) x
          else None
      | EndElementEvent n =>
          p ← parent n x;
          if bool_decide (end_of n x = Some (Some c)) && live n x &&
             match element_stack with [] => true | e :: _ => bool_decide (e = n) end &&
             CheckEventParent (head (tail element_stack)) p
          then SanityCheck_loop q (tail element_stack) x
          else None
      | LeafNodeEvent n =>
          p ← parent n x;
          if live n x && bool_decide (end_of n x = Some (Some c)) && CheckEventParent expect_parent p then
            SanityCheck_loop q element_stack x
          else None
      | StartDocumentEvent | EndDocumentEvent => SanityCheck_loop q element_stack x
      end
  end.
Definition SanityCheck (x : HtmlParse) : option HtmlParse :=
  _ ← SanityCheck_loop (queue_ x) [] x; Some (set_current None x).

(** [ApplyFilter] after its loop. *)
Definition ApplyFilter_end (x : HtmlParse) : option HtmlParse :=
  match current_ x with
  | Some _ => None
  | None =>
      x ← (if need_sanity_check_ x then x ← SanityCheck x; Some (set_need_sanity_check false x) else Some x);
      Some (set_current_filter None x)
  end.

Definition ClearEvent (cell : nat * HtmlEvent) (x : HtmlParse) : option HtmlParse :=
  match cell.2 with
  | StartElementEvent n => set_begin n None x
  | EndElementEvent n => x ← set_end n None x; Some (FreeData n x)
  | LeafNodeEvent n => x ← set_iter n None x; Some (FreeData n x)
  | _ => Some x
  end.
Definition ClearEvents (x : HtmlParse) : option HtmlParse :=
  x ← foldl (fun x cell => x ← x; ClearEvent cell x) (Some x) (queue_ x);
  Some (set_need_sanity_check false (set_need_coalesce_characters false (set_current None (set_queue [] x)))).

(** [StartParseId] in a new parser, and the end of the document. *)
Definition StartParse : HtmlParse :=
  mkParse [] [(O, StartDocumentEvent)] 1 None false true true None None ∅ ∅ ∅ [].
Definition BeginFinishParse (x : HtmlParse) : option HtmlParse :=
  match lexer_stack_ x, delayed_start_literal_ x with
  | [], None => AddEvent EndDocumentEvent x
  | _, _ => None
  end.

(** [EndFinishParse]: [ClearDeferredNodes] prints the nodes that were never restored. *)
Definition ClearDeferredNodes (x : HtmlParse) : option HtmlParse :=
  let printable cell := bool_decide (cell.1 ∈ deferred_deleted_nodes_ x) || bool_decide (is_Some (data cell.1 x)) in
  if forallb printable (map_to_list (deferred_nodes_ x))
  then Some (set_open_deferred_nodes ∅ (set_deferred_deleted_nodes ∅ (set_deferred_nodes ∅ x)))
  else None.
Definition ClearElements (x : HtmlParse) : option HtmlParse := x ← ClearDeferredNodes x; Some (set_nodes [] x).

(** ** Attributes, texts, anchors and scripts *)

(** [mutable_attributes] and [mutable_contents]. *)
Definition modify_attributes (element : nat) (f : list Attribute -> list Attribute) (x : HtmlParse) : option HtmlParse :=
  d ← data element x;
  match content_ d with
  | Tag tag attrs style => set_content element (Tag tag (f attrs) style) x
  | Text _ => None
  end.
Definition modify_contents (leaf : nat) (f : bytes -> bytes) (x : HtmlParse) : option HtmlParse :=
  d ← data leaf x;
  match content_ d with
  | Tag _ _ _ => None
  | Text text => set_content leaf (Text (f text)) x
  end.
Definition AddAttribute (element : nat) (name : HtmlName) (decoded_value : bytes) : HtmlParse -> option HtmlParse :=
  modify_attributes element (fun attrs => attrs ++ [mkAttribute name (Some (Escape decoded_value)) DOUBLE_QUOTE]).
Definition keyword_name (k : string) : HtmlName := mkName (Some (lit k)) (lit k).

Definition AppendAnchor (link text : bytes) (p : option nat) (x : HtmlParse) : option (HtmlParse * nat) :=
  let '(x, a_tag) := NewElement p (keyword_name "a") [] x in
  x ← AppendChild p a_tag x;
  x ← AddAttribute a_tag (keyword_name "href") link x;
  let '(x, text_node) := NewLeafNode CharactersNode (Some a_tag) text x in
  x ← AppendChild (Some a_tag) text_node x;
  Some (x, a_tag).
Definition SetupScript (text : bytes) (external : bool) (script : nat) (x : HtmlParse) : option HtmlParse :=
  if external then AddAttribute script (keyword_name "src") text x
  else let '(x, text_node) := NewLeafNode CharactersNode (Some script) text x in AppendChild (Some script) text_node x.
Definition InsertScriptBeforeCurrent (text : bytes) (external : bool) (x : HtmlParse) : option HtmlParse :=
  let '(x, script) := NewElement None (keyword_name "script") [] x in
  x ← InsertNodeBeforeCurrent script x;
  SetupScript text external script x.
Definition InsertScriptAfterCurrent (text : bytes) (external : bool) (x : HtmlParse) : option HtmlParse :=
  let '(x, script) := NewElement None (keyword_name "script") [] x in
  x ← InsertNodeAfterCurrent script x;
  SetupScript text external script x.
