(* ===== verification/HtmlParseWalk.v ===== *)
(** * The list of events as brackets

    A walk through a window keeps the stack of the open elements, as [SanityCheck] does,
    and compares every node's parent with the innermost of them. *)

From S2P Require Import Prelude StringUtil HtmlKeywords HtmlLexer HtmlParse.

(** ** Cells *)

Section cells.
Implicit Types (a r s t q : Cells) (c : nat) (ev : HtmlEvent).

Lemma split_iter_app a r : NoDup (a ++ r).*1 -> split_iter (front r) (a ++ r) = Some (a, r).
Proof.
  destruct r as [|[c ev] r]; cbn; [by rewrite app_nil_r|]. induction a as [|[d e] a IH]; cbn.
  - by rewrite decide_True.
  - rewrite NoDup_cons. intros [Hd Hn]. rewrite decide_False; [by rewrite IH|].
    intros ->. apply Hd. rewrite fmap_app. apply elem_of_app. right. by left.
Qed.

Lemma split_cell_Some c q a r : split_cell c q = Some (a, r) -> q = a ++ r /\ exists ev t, r = (c, ev) :: t.
Proof.
  revert a r. induction q as [|[d ev] q IH]; cbn; [done|]. intros a r. case_decide as Hd.
  - intros [= <- <-]. subst. eauto.
  - destruct (split_cell c q) as [[a' r']|] eqn:E; cbn; [|done]. intros [= <- <-].
    destruct (IH _ _ eq_refl) as (-> & ev' & t & ->). eauto.
Qed.

Lemma split_iter_Some it q a r : split_iter it q = Some (a, r) -> q = a ++ r /\ it = front r.
Proof.
  destruct it as [c|]; cbn; [|intros [= -> <-]; by rewrite app_nil_r].
  intros (-> & ev & t & ->)%split_cell_Some. done.
Qed.

Lemma deref_app a c ev r : NoDup (a ++ (c, ev) :: r).*1 -> deref (Some c) (a ++ (c, ev) :: r) = Some ev.
Proof. intros H. unfold deref. by rewrite (split_iter_app a ((c, ev) :: r) H : split_iter (Some c) _ = _). Qed.

Lemma next_app a c ev r : NoDup (a ++ (c, ev) :: r).*1 -> next (Some c) (a ++ (c, ev) :: r) = Some (front r).
Proof. intros H. unfold next. by rewrite (split_iter_app a ((c, ev) :: r) H : split_iter (Some c) _ = _). Qed.

Lemma prev_app a c ev r : NoDup (a ++ (c, ev) :: r).*1 -> prev (front r) (a ++ (c, ev) :: r) = Some (Some c).
Proof.
  intros H. unfold prev. replace (a ++ (c, ev) :: r) with ((a ++ [(c, ev)]) ++ r) in * by by rewrite <- app_assoc.
  rewrite split_iter_app by done. cbn. by rewrite last_snoc.
Qed.

Lemma prev_back a c ev : prev None (a ++ [(c, ev)]) = Some (Some c).
Proof. unfold prev. cbn. by rewrite last_snoc. Qed.

Lemma NoDup_app_r {A} (l k : list A) : NoDup (l ++ k) -> NoDup k.
Proof. rewrite NoDup_app. by intros (_ & _ & ?). Qed.
Lemma NoDup_app_l {A} (l k : list A) : NoDup (l ++ k) -> NoDup l.
Proof. rewrite NoDup_app. by intros (? & _ & _). Qed.

Lemma range_app a s t : NoDup (a ++ s ++ t).*1 -> range (front (s ++ t)) (front t) (a ++ s ++ t) = Some (a, s, t).
Proof.
  intros H. unfold range. rewrite split_iter_app by done. cbn. rewrite split_iter_app; [done|].
  rewrite fmap_app in H. by apply NoDup_app_r in H.
Qed.

Lemma cell_split c q : c ∈ q.*1 -> exists a ev r, q = a ++ (c, ev) :: r.
Proof.
  intros ([d ev] & -> & H)%list_elem_of_fmap. apply list_elem_of_split in H as (a & r & ->). eauto.
Qed.
End cells.

Lemma front_cons c ev (r : Cells) : front ((c, ev) :: r) = Some c. Proof. done. Qed.

(** ** Walks *)

Definition top (bot : option nat) (U : list nat) : option nat := match U with n :: _ => Some n | [] => bot end.

(** The elements of a stack are the parents of one another. *)
Fixpoint chained (par : nat -> option nat) (U : list nat) : Prop :=
  match U with [] => True | n :: U => par n = top None U /\ chained par U end.

(** The stack after some events, [bot] what is below it; [None] when an event does not
    fit. *)
Fixpoint walk (par : nat -> option nat) (bot : option nat) (U : list nat) (evs : list HtmlEvent) : option (list nat) :=
  match evs with
  | [] => Some U
  | ev :: evs =>
      match ev with
      | StartDocumentEvent | EndDocumentEvent => if decide (top bot U = None) then walk par bot U evs else None
      | StartElementEvent n => if decide (par n = top bot U) then walk par bot (n :: U) evs else None
      | EndElementEvent n =>
          match U with
          | m :: U => if decide (m = n /\ par n = top bot U) then walk par bot U evs else None
          | [] => None
          end
      | LeafNodeEvent n => if decide (par n = top bot U) then walk par bot U evs else None
      end
  end.

Section walk.
Implicit Types (par : nat -> option nat) (bot : option nat) (U B : list nat) (evs l : list HtmlEvent).

Lemma walk_app par bot U l l' : walk par bot U (l ++ l') = U' ← walk par bot U l; walk par bot U' l'.
Proof.
  revert U. induction l as [|ev l IH]; intros U; cbn; [done|]. destruct ev; [..|destruct U; [done|]|]; (case_decide; [apply IH|done]).
Qed.

Lemma walk_app_Some par bot U l l' U' :
  walk par bot U (l ++ l') = Some U' -> exists V, walk par bot U l = Some V /\ walk par bot V l' = Some U'.
Proof. rewrite walk_app. destruct (walk par bot U l) as [V|]; cbn; [eauto|done]. Qed.

Lemma chained_ext par par' U : (forall n, n ∈ U -> par' n = par n) -> chained par U -> chained par' U.
Proof.
  induction U as [|n U IH]; cbn; [done|]. intros H [H1 H2]. rewrite H by by left. split; [done|].
  apply IH; [|done]. intros m Hm. apply H. by right.
Qed.

Lemma walk_chained par U l U' : chained par U -> walk par None U l = Some U' -> chained par U'.
Proof.
  revert U. induction l as [|ev l IH]; intros U; cbn; [by intros ? [= <-]|]. intros HU.
  destruct ev as [| |n|n|n].
  1,2,5: case_decide; [by apply IH|done].
  - case_decide; [by apply (IH (n :: U))|done].
  - destruct U as [|m U]; [done|]. destruct HU as [_ HU]. case_decide; [by apply IH|done].
Qed.

Lemma walk_ext par par' bot U l :
  (forall ev n, ev ∈ l -> GetNode ev = Some n -> par n = par' n) -> walk par bot U l = walk par' bot U l.
Proof.
  revert U. induction l as [|ev l IH]; intros U H; [done|].
  assert (IH' : forall U, walk par bot U l = walk par' bot U l) by (intros; apply IH; intros; eapply H; [by right|done]).
  destruct ev as [| |n|n|n]; cbn; try (by rewrite IH'); rewrite (H _ n ltac:(left) eq_refl); [| |by rewrite IH'].
  - by rewrite IH'.
  - destruct U; [done|]. by rewrite IH'.
Qed.

Lemma top_app bot bot' U B : top bot' B = bot -> top bot' (U ++ B) = top bot U.
Proof. by destruct U. Qed.

Lemma walk_weaken par bot bot' U B l U' :
  top bot' B = bot -> walk par bot U l = Some U' -> walk par bot' (U ++ B) l = Some (U' ++ B).
Proof.
  intros Hb. revert U. induction l as [|ev l IH]; intros U; cbn; [by intros [= ->]|].
  destruct ev as [| |n|n|n]; rewrite ?(top_app bot bot') by done.
  1,2,5: case_decide; [apply IH|done].
  - case_decide; [apply (IH (n :: U))|done].
  - destruct U as [|m U]; [done|]. cbn. rewrite (top_app bot bot') by done. case_decide; [apply IH|done].
Qed.

Lemma walk_strengthen par bot bot' n U B l R :
  walk par bot' (U ++ n :: B) l = Some R -> EndElementEvent n ∉ l ->
  exists U', R = U' ++ n :: B /\ walk par (Some n) U l = Some U'.
Proof.
  clear bot. revert U. induction l as [|ev l IH]; intros U; cbn; [intros [= <-] _; by exists U|].
  rewrite not_elem_of_cons.
  assert (Ht : forall V, top bot' (V ++ n :: B) = top (Some n) V) by (by intros []).
  destruct ev as [| |m|m|m]; rewrite ?Ht.
  1,2,5: case_decide; [intros ? []; by apply IH|done].
  - case_decide; [intros ? []; by apply (IH (m :: U))|done].
  - destruct U as [|k U]; cbn.
    + case_decide as Hd; [|done]. destruct Hd as [-> _]. intros _ []. congruence.
    + rewrite Ht. case_decide; [intros ? []; by apply IH|done].
Qed.

(** Which elements are on the stack after a walk. *)
Lemma walk_stack par bot U l U' m :
  walk par bot U l = Some U' ->
  (m ∈ U' -> m ∈ U \/ StartElementEvent m ∈ l) /\
  (m ∈ U -> m ∈ U' \/ EndElementEvent m ∈ l) /\
  (StartElementEvent m ∈ l -> m ∈ U' \/ EndElementEvent m ∈ l) /\
  (EndElementEvent m ∈ l -> m ∈ U \/ StartElementEvent m ∈ l).
Proof.
  revert U. induction l as [|ev l IH]; intros U; cbn.
  { intros [= ->]. rewrite !elem_of_nil. naive_solver. }
  rewrite !elem_of_cons. destruct ev as [| |n|n|n].
  1,2,5: case_decide; [|done]; intros Hw; apply IH in Hw; naive_solver.
  - case_decide; [|done]. intros Hw. apply IH in Hw. rewrite !elem_of_cons in Hw. naive_solver.
  - destruct U as [|k U]; [done|]. case_decide as Hd; [|done]. destruct Hd as [-> _]. intros Hw. apply IH in Hw.
    rewrite !elem_of_cons. naive_solver.
Qed.

(** Each element starts once. *)
Definition once (l : list HtmlEvent) : Prop :=
  forall a ev n b, l = a ++ ev :: b -> GetNode ev = Some n -> (ev ∉ a) /\ (ev ∉ b).

Lemma once_app_l l l' : once (l ++ l') -> once l.
Proof.
  intros H a ev n b -> E. destruct (H a ev n (b ++ l') ltac:(by rewrite <- app_assoc) E) as [Ha Hb].
  rewrite elem_of_app in Hb. naive_solver.
Qed.
Lemma once_app_r l l' : once (l ++ l') -> once l'.
Proof.
  intros H a ev n b -> E. destruct (H (l ++ a) ev n b ltac:(by rewrite <- app_assoc) E) as [Ha Hb].
  rewrite elem_of_app in Ha. naive_solver.
Qed.
Lemma once_disjoint l l' ev n : once (l ++ l') -> GetNode ev = Some n -> ev ∈ l -> ev ∈ l' -> False.
Proof.
  intros H E (a & b & ->)%list_elem_of_split Hr. destruct (H a ev n (b ++ l') ltac:(by rewrite <- app_assoc) E) as [_ Hb].
  rewrite elem_of_app in Hb. naive_solver.
Qed.

Lemma walk_NoDup par bot U l U' :
  walk par bot U l = Some U' -> once l -> NoDup U -> (forall n, n ∈ U -> StartElementEvent n ∉ l) -> NoDup U'.
Proof.
  revert U. induction l as [|ev l IH]; intros U; cbn; [by intros [= ->]|].
  intros H Ho Hn Hd. pose proof (once_app_r [ev] l Ho) as Ho'.
  assert (Hd' : forall n, n ∈ U -> StartElementEvent n ∉ l) by (intros n Hi Hs; apply (Hd n Hi); by right).
  destruct ev as [| |n|n|n].
  1,2,5: case_decide; [|done]; by eapply IH.
  - case_decide; [|done]. eapply IH; [done..| |].
    + constructor; [|done]. intros Hi. apply (Hd n Hi). by left.
    + intros m [->|Hm]%elem_of_cons; [|by apply Hd']. by apply (Ho [] _ n l eq_refl).
  - destruct U as [|k U]; [done|]. case_decide as E; [|done]. destruct E as [-> _]. apply NoDup_cons in Hn as [_ Hn].
    eapply IH; [done..|]. intros m Hm. apply Hd'. by right.
Qed.

(** An element that starts and ends in the events is a segment of them. *)
Lemma walk_segment par bot S0 A n M T S1 :
  walk par bot S0 (A ++ StartElementEvent n :: M ++ EndElementEvent n :: T) = Some S1 ->
  once (A ++ StartElementEvent n :: M ++ EndElementEvent n :: T) ->
  exists S, walk par bot S0 A = Some S /\ par n = top bot S /\ walk par (Some n) [] M = Some [] /\ walk par bot S T = Some S1.
Proof.
  intros H Ho. apply walk_app_Some in H as (S & HA & H). exists S. split; [done|]. cbn in H. case_decide as Hp; [|done].
  split; [done|]. apply walk_app_Some in H as (R & HM & H).
  apply once_app_r in Ho. pose proof (once_app_r [StartElementEvent n] _ Ho) as Ho'.
  assert (HE : EndElementEvent n ∉ M) by (intros Hi; apply (once_disjoint _ _ (EndElementEvent n) n Ho' eq_refl Hi); by left).
  assert (HS : StartElementEvent n ∉ M).
  { intros Hi. apply (once_disjoint [StartElementEvent n] _ (StartElementEvent n) n Ho eq_refl); [by left|]. apply elem_of_app. by left. }
  apply (walk_strengthen par bot _ n [] S) in HM as (U' & -> & HM); [|done].
  assert (Hn : n ∉ U').
  { intros Hi. apply (walk_stack _ _ _ _ _ n) in HM as (Hs & _). destruct (Hs Hi) as [?%elem_of_nil|]; done. }
  destruct U' as [|m U']; cbn in H.
  - case_decide; [|done]. done.
  - case_decide as E; [|done]. destruct E as [-> _]. destruct Hn. by left.
Qed.
End walk.

(** ** Segments *)

(** The events of a node and of everything in it. *)
Definition segment (par : nat -> option nat) (n : nat) (s : list HtmlEvent) : Prop :=
  s = [LeafNodeEvent n] \/
  exists M, s = StartElementEvent n :: M ++ [EndElementEvent n] /\ walk par (Some n) [] M = Some [] /\
    (forall ev, ev ∈ M -> GetNode ev <> Some n).

Section segments.
Implicit Types (par : nat -> option nat) (bot : option nat) (U S : list nat) (s A T M : list HtmlEvent).

Lemma segment_walk par bot U n s : segment par n s -> par n = top bot U -> walk par bot U s = Some U.
Proof.
  intros [->|(M & -> & HM & _)] Hp; cbn; rewrite decide_True by done; [done|]. rewrite walk_app.
  rewrite (walk_weaken par (Some n) bot [] (n :: U) M [] eq_refl HM : walk par bot (n :: U) M = Some (n :: U)). cbn. by rewrite decide_True.
Qed.

Lemma walk_insert par bot S0 A s T S S1 n :
  walk par bot S0 A = Some S -> walk par bot S T = Some S1 -> segment par n s -> par n = top bot S ->
  walk par bot S0 (A ++ s ++ T) = Some S1.
Proof. intros HA HT Hs Hp. rewrite !walk_app, HA. cbn. rewrite walk_app, (segment_walk _ _ _ _ _ Hs Hp). done. Qed.

Lemma walk_segment_parent par bot S0 A n s T S1 :
  walk par bot S0 (A ++ s ++ T) = Some S1 -> segment par n s ->
  exists S, walk par bot S0 A = Some S /\ par n = top bot S /\ walk par bot S T = Some S1.
Proof.
  intros H Hs. apply walk_app_Some in H as (S & HA & H). exists S. split; [done|].
  assert (Hp : par n = top bot S).
  { destruct Hs as [->|(M & -> & _ & _)]; cbn in H; by case_decide. }
  split; [done|]. rewrite walk_app, (segment_walk _ _ _ _ _ Hs Hp) in H. done.
Qed.

Lemma walk_remove par bot S0 A n s T S1 :
  walk par bot S0 (A ++ s ++ T) = Some S1 -> segment par n s -> walk par bot S0 (A ++ T) = Some S1.
Proof. intros H Hs. apply (walk_segment_parent _ _ _ _ n) in H as (S & HA & _ & HT); [|done]. by rewrite walk_app, HA. Qed.

Lemma segment_ext par par' n s :
  (forall ev m, ev ∈ s -> GetNode ev = Some m -> m <> n -> par m = par' m) -> segment par n s -> segment par' n s.
Proof.
  intros He [->|(M & -> & HM & Hn)]; [by left|right]. exists M. split; [done|]. split; [|done].
  rewrite <- HM. symmetry. apply walk_ext. intros ev m Hi Hm. apply (He ev); [|done|].
  - right. apply elem_of_app. by left.
  - intros ->. by apply (Hn ev).
Qed.

(** What holds between the first event of a node and the last event of one of its
    siblings. *)
Definition first_event (n : nat) (ev : HtmlEvent) : Prop := ev = StartElementEvent n \/ ev = LeafNodeEvent n.
Definition last_event (n : nat) (ev : HtmlEvent) : Prop := ev = EndElementEvent n \/ ev = LeafNodeEvent n.

Lemma walk_siblings par S0 A e1 M T S1 f l M1 e2 :
  walk par None S0 (A ++ (e1 :: M) ++ T) = Some S1 -> once (A ++ (e1 :: M) ++ T) ->
  NoDup S0 -> (forall n, n ∈ S0 -> StartElementEvent n ∉ A ++ (e1 :: M) ++ T) ->
  first_event f e1 -> e1 :: M = M1 ++ [e2] -> last_event l e2 -> par l = par f ->
  exists S, walk par None S0 A = Some S /\ par f = top None S /\ walk par (par f) [] (e1 :: M) = Some [] /\ walk par None S T = Some S1.
Proof.
  intros H Ho Hn Hd Hf HM Hl Hp. apply walk_app_Some in H as (S & HA & H). exists S. split; [done|].
  assert (Hf' : par f = top None S).
  { apply walk_app_Some in H as (? & H & _). destruct Hf as [->| ->]; cbn in H; by case_decide. }
  split; [done|]. apply walk_app_Some in H as (R & HM' & HT).
  assert (HR : par l = top None R).
  { rewrite HM in HM'. apply walk_app_Some in HM' as (V & _ & HV). destruct Hl as [->| ->]; cbn in HV.
    - destruct V as [|k V]; [done|]. case_decide as Hc; [|done]. destruct Hc as [-> Hc]. by injection HV as ->.
    - case_decide; [|done]. by injection HV as ->. }
  rewrite Hp, Hf' in HR. rewrite Hf'. destruct S as [|p S]; cbn in HR.
  { destruct R; [|done]. done. }
  destruct R as [|q R]; cbn in HR; [done|]. injection HR as <-. cbn [top] in *.
  assert (Hps : NoDup (p :: S)).
  { eapply walk_NoDup; [exact HA|by apply once_app_l in Ho|done|]. intros n Hi Hs. apply (Hd n Hi). apply elem_of_app. by left. }
  assert (Hst : StartElementEvent p ∉ e1 :: M).
  { intros Hi. apply (walk_stack _ _ _ _ _ p) in HA as (Hin & _). destruct (Hin ltac:(by left)) as [Hin'|Hin'].
    - apply (Hd p Hin'). apply elem_of_app. right. apply elem_of_app. by left.
    - apply (once_disjoint _ _ (StartElementEvent p) p Ho eq_refl Hin'). apply elem_of_app. by left. }
  assert (Hen : EndElementEvent p ∉ e1 :: M).
  { intros (L1 & L2 & HL)%list_elem_of_split. rewrite HL in *. apply walk_app_Some in HM' as (V & HV & HM').
    assert (HnV : NoDup V).
    { eapply walk_NoDup; [exact HV| |done|].
      - apply once_app_r, once_app_l, once_app_l in Ho. done.
      - intros n Hi Hs. apply (walk_stack _ _ _ _ _ n) in HA as (Hin & _). destruct (Hin Hi) as [Hin'|Hin'].
        + apply (Hd n Hin'). rewrite !elem_of_app. tauto.
        + apply (once_disjoint _ _ (StartElementEvent n) n Ho eq_refl Hin'). rewrite !elem_of_app. tauto. }
    cbn in HM'. destruct V as [|k V]; [done|]. case_decide as Hc; [|done]. destruct Hc as [-> _].
    apply NoDup_cons in HnV as [HnV _]. apply (walk_stack _ _ _ _ _ p) in HM' as (Hin & _).
    destruct (Hin ltac:(by left)) as [?|Hs]; [done|]. apply Hst. rewrite elem_of_app, elem_of_cons. tauto. }
  apply (walk_strengthen par None None p [] S) in HM' as (U' & HU & HM'); [|done].
  destruct U' as [|k U']; cbn in HU; [by injection HU as ->|]. injection HU as <- ->.
  apply (walk_stack _ _ _ _ _ p) in HM' as (Hin & _). destruct (Hin ltac:(by left)) as [?%elem_of_nil|]; done.
Qed.

(** Giving the children of [bot] a new parent. *)
Lemma walk_relabel par par' bot bot' U M U' :
  walk par bot U M = Some U' -> (forall p, bot = Some p -> (p ∉ U) /\ (StartElementEvent p ∉ M)) ->
  (forall ev n, ev ∈ M -> GetNode ev = Some n -> par' n = if decide (par n = bot) then bot' else par n) ->
  (forall ev, ev ∈ M -> GetNode ev <> None) -> walk par' bot' U M = Some U'.
Proof.
  revert U. induction M as [|ev M IH]; intros U H Hb Hr Hd; [done|].
  assert (Hd' : forall ev, ev ∈ M -> GetNode ev <> None) by (intros; apply Hd; by right).
  assert (Hr' : forall ev n, ev ∈ M -> GetNode ev = Some n -> par' n = if decide (par n = bot) then bot' else par n)
    by (intros; eapply Hr; [by right|done]).
  assert (Ht : forall n V, GetNode ev = Some n -> (forall p, bot = Some p -> p ∉ V) -> par n = top bot V -> par' n = top bot' V).
  { intros n V E HV Hp. rewrite (Hr ev n ltac:(left) E), Hp. destruct V as [|k V]; cbn; [by rewrite decide_True|].
    rewrite decide_False; [done|]. intros <-. apply (HV k eq_refl). by left. }
  assert (Hb1 : forall p, bot = Some p -> p ∉ U) by (intros p Hp; by apply Hb).
  assert (Hb2 : forall p, bot = Some p -> StartElementEvent p ∉ M) by (intros p Hp Hi; apply (Hb p Hp); by right).
  destruct ev as [| |n|n|n]; [by destruct (Hd StartDocumentEvent ltac:(left))|by destruct (Hd EndDocumentEvent ltac:(left))|..]; cbn in *.
  - case_decide as Hc; [|done]. rewrite decide_True by by apply (Ht n). apply IH; [done| |done..].
    intros p Hp. split; [|by apply Hb2]. intros [->|Hi]%elem_of_cons; [|by apply (Hb1 p)]. apply (Hb n Hp). by left.
  - destruct U as [|k U]; [done|]. case_decide as Hc; [|done]. destruct Hc as [-> Hc].
    assert (HU : forall p, bot = Some p -> p ∉ U) by (intros p Hp Hi; apply (Hb1 p Hp); by right).
    rewrite decide_True by (split; [done|by apply (Ht n)]). apply IH; [done| |done..]. intros p Hp. split; [by apply HU|by apply Hb2].
  - case_decide as Hc; [|done]. rewrite decide_True by by apply (Ht n). apply IH; [done| |done..]. intros p Hp. split; [by apply Hb1|by apply Hb2].
Qed.
End segments.
