(* ===== verification/HtmlParseInv.v ===== *)
(** * The HTML parser: its invariant

    The cells of the window and of the deferred nodes and the iterators of the nodes agree;
    the window is a walk from the elements that were open when it began to the ones that
    are open where it ends. *)

From S2P Require Import Prelude StringUtil HtmlKeywords HtmlLexer HtmlParse HtmlParseWalk.

(** ** Nodes and cells agree *)

Definition deferred_cells (x : HtmlParse) : Cells := mjoin (map_to_list (deferred_nodes_ x)).*2.
Definition cells (x : HtmlParse) : Cells := queue_ x ++ deferred_cells x.

Definition kind (n : nat) (x : HtmlParse) : option NodeKind := kind_ <$> nodes_ x !! n.
Definition par (x : HtmlParse) (n : nat) : option nat := p ← parent n x; p.

(** The node of the event in the cell [c] is alive and knows the cell. *)
Definition linked (x : HtmlParse) (c : nat) (ev : HtmlEvent) : Prop :=
  match ev with
  | StartDocumentEvent | EndDocumentEvent => True
  | StartElementEvent n => kind n x = Some ElementNode /\ exists d, data n x = Some d /\ is_live_ d = true /\ begin_ d = Some c
  | EndElementEvent n => kind n x = Some ElementNode /\ exists d, data n x = Some d /\ is_live_ d = true /\ end_ d = Some c
  | LeafNodeEvent n =>
      (exists k, kind n x = Some (LeafNode k)) /\ exists d, data n x = Some d /\ is_live_ d = true /\ begin_ d = Some c /\ end_ d = Some c
  end.

Definition begins (x : HtmlParse) (n c : nat) : Prop :=
  (c, StartElementEvent n) ∈ cells x \/ (c, LeafNodeEvent n) ∈ cells x \/ delayed_start_literal_ x = Some (StartElementEvent n).
Definition ends (x : HtmlParse) (n c : nat) : Prop := (c, EndElementEvent n) ∈ cells x \/ (c, LeafNodeEvent n) ∈ cells x.

Definition shaped (k : NodeKind) (d : Data) : Prop :=
  match k, content_ d with
  | ElementNode, Tag _ _ _ => True
  | LeafNode _, Text _ => begin_ d = end_ d
  | _, _ => False
  end.

Record Wf (x : HtmlParse) : Prop := {
  Wf_nodup : NoDup (cells x).*1;
  Wf_fresh c : c ∈ (cells x).*1 -> (c < fresh_ x)%nat;
  Wf_link c ev : (c, ev) ∈ cells x -> linked x c ev;
  Wf_begin n d c : data n x = Some d -> begin_ d = Some c -> is_live_ d = true /\ begins x n c;
  Wf_end n d c : data n x = Some d -> end_ d = Some c -> is_live_ d = true /\ ends x n c;
  Wf_shape n k d : kind n x = Some k -> data n x = Some d -> shaped k d;
  Wf_current c : current_ x = Some c -> c ∈ (queue_ x).*1;
  Wf_delayed ev : delayed_start_literal_ x = Some ev -> exists n d c, ev = StartElementEvent n /\ kind n x = Some ElementNode /\
    data n x = Some d /\ begin_ d = Some c /\ (c ∉ (cells x).*1) /\ (c < fresh_ x)%nat;
}.

(** No cell mentions the node. *)
Definition unlisted (n : nat) (l : Cells) : Prop := forall c ev, (c, ev) ∈ l -> GetNode ev <> Some n.
Definition detached (n : nat) (x : HtmlParse) : Prop := forall d, data n x = Some d -> begin_ d = None /\ end_ d = None.

Lemma data_modify m n f x :
  data m (modify_node n f x) = if decide (m = n) then nd ← nodes_ x !! n; data_ (f nd) else data m x.
Proof.
  unfold data, modify_node. cbn. case_decide as E; [subst|].
  - rewrite list_lookup_alter_eq. by destruct (nodes_ x !! n).
  - by rewrite list_lookup_alter_ne by done.
Qed.
Lemma kind_modify m n f x :
  kind m (modify_node n f x) = if decide (m = n) then nd ← nodes_ x !! n; Some (kind_ (f nd)) else kind m x.
Proof.
  unfold kind, modify_node. cbn. case_decide as E; [subst|].
  - rewrite list_lookup_alter_eq. by destruct (nodes_ x !! n).
  - by rewrite list_lookup_alter_ne by done.
Qed.
Lemma parent_modify m n f x :
  parent m (modify_node n f x) = if decide (m = n) then nd ← nodes_ x !! n; Some (parent_ (f nd)) else parent m x.
Proof.
  unfold parent, modify_node. cbn. case_decide as E; [subst|].
  - rewrite list_lookup_alter_eq. by destruct (nodes_ x !! n).
  - by rewrite list_lookup_alter_ne by done.
Qed.

Lemma data_set_parent m n p x : data m (set_parent n p x) = data m x.
Proof. unfold set_parent. rewrite data_modify. case_decide as E; [subst|done]. unfold data. by destruct (nodes_ x !! n). Qed.
Lemma kind_set_parent m n p x : kind m (set_parent n p x) = kind m x.
Proof. unfold set_parent. rewrite kind_modify. case_decide as E; [subst|done]. unfold kind. by destruct (nodes_ x !! n). Qed.
Lemma parent_set_parent m n p x :
  parent m (set_parent n p x) = if decide (m = n) then (fun _ => p) <$> parent n x else parent m x.
Proof. unfold set_parent. rewrite parent_modify. case_decide as E; [subst|done]. unfold parent. by destruct (nodes_ x !! n). Qed.

Lemma modify_data_Some n f x d :
  data n x = Some d -> modify_data n f x = Some (modify_node n (with_data (Some (f d))) x).
Proof. intros H. unfold modify_data. by rewrite H. Qed.
Lemma data_with_data m n d x : is_Some (nodes_ x !! n) -> data m (modify_node n (with_data d) x) = if decide (m = n) then d else data m x.
Proof. intros [nd H]. rewrite data_modify. by rewrite H. Qed.
Lemma kind_with_data m n d x : kind m (modify_node n (with_data d) x) = kind m x.
Proof. rewrite kind_modify. case_decide as E; [subst|done]. unfold kind. by destruct (nodes_ x !! n). Qed.
Lemma parent_with_data m n d x : parent m (modify_node n (with_data d) x) = parent m x.
Proof. rewrite parent_modify. case_decide as E; [subst|done]. unfold parent. by destruct (nodes_ x !! n). Qed.
Lemma data_node n x d : data n x = Some d -> is_Some (nodes_ x !! n).
Proof. unfold data. destruct (nodes_ x !! n); [eauto|done]. Qed.
Lemma kind_node n x k : kind n x = Some k -> is_Some (nodes_ x !! n).
Proof. unfold kind. destruct (nodes_ x !! n); [eauto|done]. Qed.

Lemma linked_same x x' c ev :
  (forall n, GetNode ev = Some n -> data n x' = data n x /\ kind n x' = kind n x) -> linked x c ev -> linked x' c ev.
Proof.
  intros H. destruct ev as [| |n|n|n]; cbn; [done..| | |]; destruct (H n eq_refl) as [-> ->]; done.
Qed.

(** Taking cells out of the lists: the other nodes do not change, and the nodes of the
    cells are forgotten. *)
Lemma Wf_remove x x' R :
  Wf x -> cells x ≡ₚ R ++ cells x' -> (fresh_ x <= fresh_ x')%nat -> delayed_start_literal_ x' = delayed_start_literal_ x ->
  (forall n, kind n x' = kind n x /\
     ((data n x' = data n x /\ unlisted n R) \/
      (detached n x' /\ unlisted n (cells x') /\ delayed_start_literal_ x <> Some (StartElementEvent n) /\
       (forall d', data n x' = Some d' -> exists d, data n x = Some d /\ content_ d' = content_ d)))) ->
  (forall c, current_ x' = Some c -> c ∈ (queue_ x').*1) -> Wf x'.
Proof.
  intros HW Hp Hf Hd Hn Hc.
  assert (Hin : forall c ev, (c, ev) ∈ cells x' -> (c, ev) ∈ cells x) by (intros; rewrite Hp; set_solver).
  assert (Hs : forall n c ev, (c, ev) ∈ cells x' -> GetNode ev = Some n -> data n x' = data n x /\ kind n x' = kind n x).
  { intros n c ev Hi E. destruct (Hn n) as [Hk [[Hdt _]|(_ & Hu & _)]]; [done|]. by destruct (Hu c ev Hi). }
  assert (Hst : forall n c ev, (c, ev) ∈ cells x -> GetNode ev = Some n -> unlisted n R -> (c, ev) ∈ cells x').
  { intros n c ev Hi E Hu. rewrite Hp in Hi. apply elem_of_app in Hi as [Hi|Hi]; [|done]. by destruct (Hu c ev Hi). }
  split.
  - pose proof (Wf_nodup x HW) as H. rewrite Hp, fmap_app in H. by apply NoDup_app_r in H.
  - intros c Hi. eapply Nat.lt_le_trans; [|exact Hf]. apply (Wf_fresh x HW). rewrite Hp, fmap_app. set_solver.
  - intros c ev Hi. apply (linked_same x); [|by apply (Wf_link x HW), Hin]. intros n E. by eapply Hs.
  - intros n d c E Eb. destruct (Hn n) as [Hk [[Hdt Hu]|(Hu & _)]].
    + rewrite Hdt in E. destruct (Wf_begin x HW n d c E Eb) as [Hl [Hb|[Hb|Hb]]]; (split; [done|]).
      * left. by eapply Hst.
      * right; left. by eapply Hst.
      * right; right. congruence.
    + destruct (Hu d E) as [? _]. congruence.
  - intros n d c E Eb. destruct (Hn n) as [Hk [[Hdt Hu]|(Hu & _)]].
    + rewrite Hdt in E. destruct (Wf_end x HW n d c E Eb) as [Hl [Hb|Hb]]; (split; [done|]); [left|right]; by eapply Hst.
    + destruct (Hu d E) as [_ ?]. congruence.
  - intros n k d Ek E. destruct (Hn n) as [Hk [[Hdt _]|(Hu & _ & _ & Hc')]].
    + apply (Wf_shape x HW n); congruence.
    + destruct (Hc' d E) as (d0 & E0 & Ec). rewrite Hk in Ek. pose proof (Wf_shape x HW n k d0 Ek E0) as H.
      destruct (Hu d E) as [E1 E2]. unfold shaped in *. rewrite Ec, E1, E2. by destruct k, (content_ d0).
  - done.
  - intros ev. rewrite Hd. intros Hev. destruct (Wf_delayed x HW ev Hev) as (n & d & c & -> & Hkn & E & Eb & Hi & Hlt). exists n, d, c.
    split; [done|]. split; [by rewrite (proj1 (Hn n))|]. destruct (Hn n) as [_ [[Hdt _]|(_ & _ & Hne & _)]]; [|done].
    rewrite Hdt. do 2 (split; [done|]). split; [|lia]. intros Hi'. apply Hi. rewrite Hp, fmap_app. set_solver.
Qed.

Lemma Wf_perm x x' :
  Wf x -> cells x ≡ₚ cells x' -> (fresh_ x <= fresh_ x')%nat -> delayed_start_literal_ x' = delayed_start_literal_ x ->
  (forall n, kind n x' = kind n x /\ data n x' = data n x) ->
  (forall c, current_ x' = Some c -> c ∈ (queue_ x').*1) -> Wf x'.
Proof.
  intros HW Hp Hf Hd Hn Hc. eapply (Wf_remove x x' []); [done..| |done]. intros n. destruct (Hn n) as [Hk Hdt]. split; [done|].
  left. split; [done|]. by intros c ev ?%elem_of_nil.
Qed.

(** Putting new cells into the lists. *)
Lemma Wf_insert x x' N :
  Wf x -> cells x' ≡ₚ N ++ cells x -> NoDup N.*1 -> (forall c, c ∈ N.*1 -> (fresh_ x <= c < fresh_ x')%nat) -> (fresh_ x <= fresh_ x')%nat ->
  (forall ev, delayed_start_literal_ x' = Some ev -> delayed_start_literal_ x = Some ev /\ forall c, (c, ev) ∉ N) ->
  (forall c ev, (c, ev) ∈ N -> linked x' c ev) ->
  (forall n d', data n x' = Some d' -> exists d, data n x = Some d /\ is_live_ d' = is_live_ d /\ shaped (default ElementNode (kind n x)) d' /\
     (begin_ d' = begin_ d \/ exists c, begin_ d' = Some c /\ is_live_ d = true /\ ((c, StartElementEvent n) ∈ N \/ (c, LeafNodeEvent n) ∈ N)) /\
     (end_ d' = end_ d \/ exists c, end_ d' = Some c /\ is_live_ d = true /\ ((c, EndElementEvent n) ∈ N \/ (c, LeafNodeEvent n) ∈ N))) ->
  (forall n, kind n x' = kind n x /\ (is_Some (data n x) -> is_Some (data n x'))) ->
  (forall n d d', data n x = Some d -> data n x' = Some d' ->
     (begin_ d' <> begin_ d -> begin_ d = None \/ delayed_start_literal_ x = Some (StartElementEvent n)) /\ (end_ d' <> end_ d -> end_ d = None)) ->
  (forall n d, data n x' = Some d -> delayed_start_literal_ x = Some (StartElementEvent n) ->
     delayed_start_literal_ x' = Some (StartElementEvent n) \/ exists c, begin_ d = Some c /\ (c, StartElementEvent n) ∈ N) ->
  (forall c, current_ x' = Some c -> c ∈ (queue_ x').*1) -> Wf x'.
Proof.
  intros HW Hp HnN HfN Hf Hd HlN Hdt Hk Hch Hdl Hc.
  assert (Hin : forall cell, cell ∈ cells x -> cell ∈ cells x') by (intros; rewrite Hp; set_solver).
  assert (HinN : forall cell, cell ∈ N -> cell ∈ cells x') by (intros; rewrite Hp; set_solver).
  split.
  - rewrite Hp, fmap_app. apply NoDup_app. split; [done|]. split; [|by apply Wf_nodup].
    intros c Hi Hi'. apply HfN in Hi. apply (Wf_fresh x HW) in Hi'. lia.
  - intros c. rewrite Hp, fmap_app, elem_of_app. intros [Hi|Hi]; [apply HfN in Hi; lia|]. apply (Wf_fresh x HW) in Hi. lia.
  - intros c ev. rewrite Hp, elem_of_app. intros [Hi|Hi]; [by apply HlN|]. pose proof (Wf_link x HW c ev Hi) as Hl.
    assert (Hx : forall n d, GetNode ev = Some n -> data n x = Some d -> exists d', data n x' = Some d' /\ is_live_ d' = is_live_ d).
    { intros n d E E1. destruct (proj2 (Hk n) (mk_is_Some _ _ E1)) as [d' E2]. exists d'. split; [done|].
      destruct (Hdt n d' E2) as (d0 & E0 & El & _). congruence. }
    destruct ev as [| |n|n|n]; cbn in *; [done..| | |].
    + destruct Hl as [Ek (d & E & El & Eb)]. destruct (Hx n d eq_refl E) as (d' & E' & El'). split; [by rewrite (proj1 (Hk n))|].
      exists d'. split; [done|]. split; [congruence|]. destruct (decide (begin_ d' = begin_ d)) as [|Hne]; [congruence|].
      destruct (Hch n d d' E E') as [H1 _]. destruct (H1 Hne) as [?|H2]; [congruence|].
      destruct (Wf_delayed x HW _ H2) as (m & d0 & c0 & [= <-] & _ & E0 & Eb0 & Hi' & _). assert (c0 = c) as -> by congruence.
      destruct Hi'. by apply (list_elem_of_fmap_2 fst) in Hi.
    + destruct Hl as [Ek (d & E & El & Eb)]. destruct (Hx n d eq_refl E) as (d' & E' & El'). split; [by rewrite (proj1 (Hk n))|].
      exists d'. split; [done|]. split; [congruence|]. destruct (decide (end_ d' = end_ d)) as [|Hne]; [congruence|].
      destruct (Hch n d d' E E') as [_ H1]. specialize (H1 Hne). congruence.
    + destruct Hl as [Ek (d & E & El & Eb & Ee)]. destruct (Hx n d eq_refl E) as (d' & E' & El'). split; [by rewrite (proj1 (Hk n))|].
      exists d'. split; [done|]. split; [congruence|]. destruct (Hch n d d' E E') as [H1 H2]. split.
      * destruct (decide (begin_ d' = begin_ d)) as [|Hne]; [congruence|]. destruct (H1 Hne) as [?|H3]; [congruence|].
        destruct (Wf_delayed x HW _ H3) as (m & ? & ? & [= <-] & ? & _). destruct Ek as [k Ek]. congruence.
      * destruct (decide (end_ d' = end_ d)) as [|Hne]; [congruence|]. specialize (H2 Hne). congruence.
  - intros n d' c E' Eb. destruct (Hdt n d' E') as (d & E & El & _ & [Hb|(c' & Hb & Hl & Hi)] & _).
    + destruct (Wf_begin x HW n d c E ltac:(congruence)) as [Hl Hbs]. split; [congruence|].
      destruct Hbs as [Hi|[Hi|Hi]]; [left; by apply Hin|right; left; by apply Hin|].
      destruct (Hdl n d' E' Hi) as [?|(c' & Eb' & Hi')]; [by right; right|]. left. apply HinN. congruence.
    + split; [congruence|]. assert (c' = c) as -> by congruence. destruct Hi as [Hi|Hi]; [left|right; left]; by apply HinN.
  - intros n d' c E' Eb. destruct (Hdt n d' E') as (d & E & El & _ & _ & [Hb|(c' & Hb & Hl & Hi)]).
    + destruct (Wf_end x HW n d c E ltac:(congruence)) as [Hl Hbs]. split; [congruence|].
      destruct Hbs as [Hi|Hi]; [left|right]; by apply Hin.
    + split; [congruence|]. assert (c' = c) as -> by congruence. destruct Hi as [Hi|Hi]; [left|right]; by apply HinN.
  - intros n k d' Ek E'. destruct (Hdt n d' E') as (d & E & El & Hs & _). rewrite (proj1 (Hk n)) in Ek. by rewrite Ek in Hs.
  - done.
  - intros ev Hev. destruct (Hd ev Hev) as [Hev' HevN].
    destruct (Wf_delayed x HW ev Hev') as (n & d & c & -> & Hkn & E & Eb & Hi & Hlt).
    destruct (proj2 (Hk n) (mk_is_Some _ _ E)) as [d' E']. exists n, d', c. split; [done|]. split; [by rewrite (proj1 (Hk n))|].
    split; [done|]. destruct (Hdt n d' E') as (d0 & E0 & _ & _ & [Hb|(c' & Hb & _ & [HiN|HiN])] & _).
    + split; [congruence|]. split; [|lia]. rewrite Hp, fmap_app, elem_of_app. intros [HiN|?]; [|done]. apply HfN in HiN. lia.
    + by destruct (HevN c').
    + destruct (HlN _ _ HiN) as [[k Hk'] _]. rewrite (proj1 (Hk n)) in Hk'. congruence.
Qed.

(** ** The window *)

Definition events (x : HtmlParse) : list HtmlEvent := (queue_ x).*2.

Record Core (x : HtmlParse) (S0 S1 : list nat) : Prop := {
  Core_wf : Wf x;
  Core_walk : walk (par x) None S0 (events x) = Some S1;
  Core_nodup : NoDup S0;
  Core_chain : chained (par x) S0;
  Core_out n : n ∈ S0 -> StartElementEvent n ∉ events x;
  Core_top n : n ∈ S1 -> n ∈ lexer_stack_ x;
  Core_open n : n ∈ lexer_stack_ x -> exists d, data n x = Some d /\ is_live_ d = true /\ end_ d = None;
}.

(** What an edit of the window leaves alone. *)
Definition deferred_node (x : HtmlParse) (n : nat) : Prop := exists c ev, (c, ev) ∈ deferred_cells x /\ GetNode ev = Some n.

Record edited (x x' : HtmlParse) : Prop := {
  edited_filter : current_filter_ x' = current_filter_ x;
  edited_delayed : delayed_start_literal_ x' = delayed_start_literal_ x;
  edited_open : open_deferred_nodes_ x' = open_deferred_nodes_ x;
  edited_deferred : deferred_nodes_ x' = deferred_nodes_ x;
  edited_stack : lexer_stack_ x' = lexer_stack_ x;
  edited_kind n k : kind n x = Some k -> kind n x' = Some k;
  edited_par n : n ∈ lexer_stack_ x \/ deferred_node x n -> par x' n = par x n;
  edited_data n d : n ∈ lexer_stack_ x -> data n x = Some d ->
    exists d', data n x' = Some d' /\ is_live_ d' = is_live_ d /\ end_ d' = end_ d /\ element_keyword n x' = element_keyword n x;
}.

Lemma edited_refl x : edited x x.
Proof. split; try done. intros n d _ E. by exists d. Qed.

Lemma edited_trans x y z : edited x y -> edited y z -> edited x z.
Proof.
  intros H1 H2. assert (Hd : forall n, deferred_node x n -> deferred_node y n).
  { intros n (c & ev & Hi & E). exists c, ev. unfold deferred_cells in *. by rewrite (edited_deferred _ _ H1). }
  split; [try (etrans; [apply H2|apply H1])..| | |].
  - intros n k Hk. by apply H2, H1.
  - intros n Hn. rewrite (edited_par _ _ H2), (edited_par _ _ H1); [done..|]. rewrite (edited_stack _ _ H1). naive_solver.
  - intros n d Hn E. destruct (edited_data _ _ H1 n d Hn E) as (d1 & E1 & L1 & N1 & K1).
    destruct (edited_data _ _ H2 n d1 ltac:(by rewrite (edited_stack _ _ H1)) E1) as (d2 & E2 & L2 & N2 & K2).
    exists d2. split; [done|]. split; [congruence|]. split; congruence.
Qed.

Lemma open_edited x x' :
  edited x x' -> (forall n, n ∈ lexer_stack_ x -> exists d, data n x = Some d /\ is_live_ d = true /\ end_ d = None) ->
  forall n, n ∈ lexer_stack_ x' -> exists d, data n x' = Some d /\ is_live_ d = true /\ end_ d = None.
Proof.
  intros He H n. rewrite (edited_stack _ _ He). intros Hn. destruct (H n Hn) as (d & E & El & Ed).
  destruct (edited_data _ _ He n d Hn E) as (d' & E' & El' & Ed' & _). exists d'. split; [done|]. split; congruence.
Qed.

Lemma linked_once x (l : Cells) : NoDup l.*1 -> (forall c ev, (c, ev) ∈ l -> linked x c ev) -> once l.*2.
Proof.
  intros Hn Hl a ev n b E En. apply fmap_app_inv in E as (l1 & l2 & Ha & Hb & ->).
  destruct l2 as [|[c ev'] l2]; [done|]. cbn in Hb. injection Hb as <- ->.
  assert (Hu : forall c', (c', ev) ∈ l1 ++ (c, ev) :: l2 -> c' = c).
  { intros c' Hi. pose proof (Hl c' ev Hi) as H1. pose proof (Hl c ev ltac:(set_solver)) as H2.
    destruct ev as [| |m|m|m]; [done..| | |]; cbn in *; destruct H1 as [_ (d1 & E1 & _ & F1)], H2 as [_ (d2 & E2 & _ & F2)]; naive_solver congruence. }
  rewrite fmap_app, fmap_cons in Hn. apply NoDup_app in Hn as (_ & Hd & Hn). apply NoDup_cons in Hn as [Hn _]. rewrite Ha. split.
  - intros ([c' ev'] & Hev & Hi)%list_elem_of_fmap. cbn in Hev. subst ev'. assert (c' = c) as -> by (apply Hu; set_solver).
    apply (Hd c); [by apply (list_elem_of_fmap_2 fst) in Hi|by left].
  - intros ([c' ev'] & Hev & Hi)%list_elem_of_fmap. cbn in Hev. subst ev'. assert (c' = c) as -> by (apply Hu; set_solver).
    by apply (list_elem_of_fmap_2 fst) in Hi.
Qed.

Lemma pair_unique {A B} (l : list (A * B)) a b b' : NoDup l.*1 -> (a, b) ∈ l -> (a, b') ∈ l -> b = b'.
Proof.
  induction l as [|[a0 b0] l IH]; cbn; [by intros _ ?%elem_of_nil|]. intros [Hn Hl]%NoDup_cons.
  rewrite !elem_of_cons. intros [[= -> ->]|H1] [[= E2]|H2]; [done| |subst|by apply IH].
  - by apply (list_elem_of_fmap_2 fst) in H2.
  - by apply (list_elem_of_fmap_2 fst) in H1.
Qed.

Section core.
Context (x : HtmlParse) (S0 S1 : list nat).
Hypothesis HC : Core x S0 S1.
Let HW := Core_wf _ _ _ HC.

Lemma Core_queue_nodup : NoDup (queue_ x).*1.
Proof. pose proof (Wf_nodup x HW) as H. unfold cells in H. rewrite fmap_app in H. by apply NoDup_app_l in H. Qed.

Lemma queue_cells cell : cell ∈ queue_ x -> cell ∈ cells x.
Proof. intros H. apply elem_of_app. by left. Qed.

Lemma Core_link c ev : (c, ev) ∈ queue_ x -> linked x c ev.
Proof. intros H. by apply (Wf_link x HW), queue_cells. Qed.

Lemma Core_once : once (events x).
Proof. apply (linked_once x); [apply Core_queue_nodup|apply Core_link]. Qed.

(** The cell of an iterator that is in the queue has an event of the node. *)
Lemma begin_event n d b :
  data n x = Some d -> begin_ d = Some b -> b ∈ (queue_ x).*1 -> exists ev, (b, ev) ∈ queue_ x /\ first_event n ev.
Proof.
  intros E Eb ([b' ev] & -> & Hi)%list_elem_of_fmap. cbn in *. exists ev. split; [done|].
  destruct (Wf_begin x HW n d b' E Eb) as [_ Hb]. apply queue_cells in Hi.
  destruct Hb as [Hb|[Hb|Hb]]; [left|right|]; [by eapply pair_unique; [apply Wf_nodup, HW|..]..|].
  destruct (Wf_delayed x HW _ Hb) as (m & d0 & c0 & [= <-] & _ & E0 & Eb0 & Hi' & _). assert (c0 = b') as -> by congruence.
  destruct Hi'. by apply (list_elem_of_fmap_2 fst) in Hi.
Qed.

Lemma end_event n d e :
  data n x = Some d -> end_ d = Some e -> e ∈ (queue_ x).*1 -> exists ev, (e, ev) ∈ queue_ x /\ last_event n ev.
Proof.
  intros E Ee ([e' ev] & -> & Hi)%list_elem_of_fmap. cbn in *. exists ev. split; [done|].
  destruct (Wf_end x HW n d e' E Ee) as [_ Hb]. apply queue_cells in Hi.
  destruct Hb as [Hb|Hb]; [left|right]; by eapply pair_unique; [apply Wf_nodup, HW|..].
Qed.
End core.

(** ** A node and its cells *)

Definition in_queue (it : option nat) (x : HtmlParse) : bool :=
  match it with Some c => bool_decide (c ∈ (queue_ x).*1) | None => true end.
(** The node is alive and not in a part of the document that has been deferred. *)
Definition in_window (n : nat) (x : HtmlParse) : bool :=
  match data n x with Some d => is_live_ d && in_queue (begin_ d) x && in_queue (end_ d) x | None => false end.

(** The cells of a node that is complete in the window. *)
Record node_at (x : HtmlParse) (n : nat) (A s T : Cells) : Prop := {
  at_queue : queue_ x = A ++ s ++ T;
  at_first : exists c ev r, s = (c, ev) :: r /\ first_event n ev /\ begin n x = Some (Some c);
  at_last : exists r c ev, s = r ++ [(c, ev)] /\ last_event n ev /\ end_of n x = Some (Some c);
  at_segment : segment (par x) n s.*2;
}.

Lemma rewritable_data n x :
  IsRewritableIgnoringDeferral n x = true -> exists d b e, data n x = Some d /\ is_live_ d = true /\ begin_ d = Some b /\ end_ d = Some e.
Proof.
  unfold IsRewritableIgnoringDeferral, IsInEventWindow. destruct (data n x) as [d|]; [|done].
  intros [[Hl [b Hb]%bool_decide_eq_true]%andb_true_iff [e He]%bool_decide_eq_true]%andb_true_iff. by exists d, b, e.
Qed.

Lemma complete_node x S0 S1 n :
  Core x S0 S1 -> IsRewritableIgnoringDeferral n x = true -> in_window n x = true -> exists A s T, node_at x n A s T.
Proof.
  intros HC (d & b & e & E & Hl & Eb & Ee)%rewritable_data Hw. unfold in_window in Hw. rewrite E, Hl, Eb, Ee in Hw. cbn in Hw.
  apply andb_true_iff in Hw as [Hb%bool_decide_eq_true He%bool_decide_eq_true].
  destruct (begin_event _ _ _ HC n d b E Eb Hb) as (ev1 & H1 & F1), (end_event _ _ _ HC n d e E Ee He) as (ev2 & H2 & F2).
  assert (EB : begin n x = Some (Some b)) by (unfold begin; by rewrite E; cbn; rewrite Eb).
  assert (EE : end_of n x = Some (Some e)) by (unfold end_of; by rewrite E; cbn; rewrite Ee).
  pose proof (Core_once _ _ _ HC) as Ho. pose proof (Core_walk _ _ _ HC) as HW.
  assert (Hk : forall c ev, (c, ev) ∈ queue_ x -> linked x c ev) by apply (Core_link _ _ _ HC).
  destruct F1 as [->| ->].
  - assert (ev2 = EndElementEvent n) as ->.
    { destruct F2 as [->| ->]; [done|]. destruct (Hk _ _ H1) as [Hk1 _], (Hk _ _ H2) as [[k Hk2] _]. congruence. }
    apply list_elem_of_split in H1 as (A & R & HQ). unfold events in *. rewrite HQ in *.
    apply elem_of_app in H2 as [H2|[[=]|H2]%elem_of_cons].
    { exfalso. rewrite fmap_app in HW, Ho. cbn in HW, Ho. apply walk_app_Some in HW as (S & HA & _).
      apply (list_elem_of_fmap_2 snd) in H2. cbn in H2. apply (walk_stack _ _ _ _ _ n) in HA as (_ & _ & _ & Hs).
      destruct (Hs H2) as [Hs'|Hs'].
      - apply (Core_out _ _ _ HC n Hs'). unfold events. rewrite HQ, fmap_app. set_solver.
      - destruct (Ho A.*2 (StartElementEvent n) n R.*2 eq_refl eq_refl) as [Hno _]. done. }
    apply list_elem_of_split in H2 as (M & T & ->).
    rewrite fmap_app, fmap_cons, fmap_app, fmap_cons in HW, Ho. cbn in HW, Ho.
    destruct (walk_segment _ _ _ _ _ _ _ _ HW Ho) as (S & _ & _ & HM & _).
    exists A, ((b, StartElementEvent n) :: M ++ [(e, EndElementEvent n)]), T. split.
    + cbn. by rewrite HQ, <- app_assoc.
    + exists b, (StartElementEvent n), (M ++ [(e, EndElementEvent n)]). split; [done|]. split; [by left|done].
    + exists ((b, StartElementEvent n) :: M), e, (EndElementEvent n). split; [done|]. split; [by left|done].
    + right. exists M.*2. cbn. rewrite fmap_app. split; [done|]. split; [done|]. intros ev Hev Eq.
      destruct ev as [| |m|m|m]; try done; injection Eq as ->.
      * destruct (Ho A.*2 (StartElementEvent n) n _ eq_refl eq_refl) as [_ Hno]. apply Hno. apply elem_of_app. by left.
      * destruct (Ho (A.*2 ++ StartElementEvent n :: M.*2) (EndElementEvent n) n T.*2 ltac:(by rewrite <- app_assoc) eq_refl) as [Hno _].
        apply Hno. apply elem_of_app. right. by right.
      * apply list_elem_of_fmap in Hev as ([c ev] & Hev & Hi). cbn in Hev. subst ev. destruct (Hk c (LeafNodeEvent n) ltac:(set_solver)) as [[k Hk1] _].
        destruct (Hk b (StartElementEvent n) ltac:(set_solver)) as [Hk2 _]. congruence.
  - destruct (Hk _ _ H1) as [_ (d' & E' & _ & _ & Ee')]. assert (e = b) as -> by congruence.
    apply list_elem_of_split in H1 as (A & T & HQ). exists A, [(b, LeafNodeEvent n)], T. split; [done|..|by left].
    + exists b, (LeafNodeEvent n), []. split; [done|]. split; [by right|done].
    + exists [], b, (LeafNodeEvent n). split; [done|]. split; [by right|done].
Qed.

(** ** Deferred nodes and the stack of the lexer *)

Definition delayed_element (x : HtmlParse) : list nat :=
  match delayed_start_literal_ x with Some (StartElementEvent e) => [e] | _ => [] end.

Definition is_literal (n : nat) (x : HtmlParse) : bool := match element_keyword n x with Some k => IsLiteralTag k | None => false end.

Lemma in_deferred x d L c ev : deferred_nodes_ x !! d = Some L -> (c, ev) ∈ L -> (c, ev) ∈ deferred_cells x.
Proof.
  intros Hd Hi. unfold deferred_cells. apply list_elem_of_join. exists L. split; [done|]. apply list_elem_of_fmap.
  exists (d, L). split; [done|]. by apply elem_of_map_to_list.
Qed.

(** The window between two changes of the document, when no filter is deferring an element
    that has not ended: [base] are the elements that are open at its start. *)
Record Sound (x : HtmlParse) (base : list nat) : Prop := {
  Sound_core : exists S1, Core x base S1 /\ lexer_stack_ x = delayed_element x ++ S1;
  Sound_deferred d L : deferred_nodes_ x !! d = Some L -> segment (par x) d L.*2;
  Sound_open : open_deferred_nodes_ x = ∅;
  Sound_elems n : n ∈ lexer_stack_ x -> kind n x = Some ElementNode;
  Sound_chain : chained (par x) (lexer_stack_ x);
  Sound_literal n : n ∈ tail (lexer_stack_ x) -> is_literal n x = false;
  Sound_nodup : NoDup (lexer_stack_ x);
}.

Lemma Sound_edited x x' base S1 :
  Sound x base -> edited x x' -> Core x' base S1 -> lexer_stack_ x = delayed_element x ++ S1 -> Sound x' base.
Proof.
  intros [HC Hdf Hop Hel Hch Hli Hnd] He HC' HS. assert (Hs : lexer_stack_ x' = lexer_stack_ x) by apply He.
  assert (Hl : delayed_element x' = delayed_element x) by (unfold delayed_element; by rewrite (edited_delayed _ _ He)).
  split; rewrite ?Hs.
  - exists S1. by rewrite Hl.
  - intros d L. rewrite (edited_deferred _ _ He). intros Hd. eapply segment_ext; [|by apply Hdf].
    intros ev m ([c ev'] & -> & Hi)%list_elem_of_fmap Em _. symmetry. apply (edited_par _ _ He). right. exists c, ev'. split; [by eapply in_deferred|done].
  - by rewrite (edited_open _ _ He).
  - intros n Hn. by apply (edited_kind _ _ He), Hel.
  - eapply chained_ext; [|done]. intros n Hn. apply (edited_par _ _ He). by left.
  - intros n Hn. rewrite <- (Hli n Hn). unfold is_literal. assert (Hin : n ∈ lexer_stack_ x) by (destruct (lexer_stack_ x); [done|by right]).
    destruct HC as (T & HC & _). destruct (Core_open _ _ _ HC n Hin) as (d & E & _). by destruct (edited_data _ _ He n d Hin E) as (d' & _ & _ & _ & ->).
  - done.
Qed.

(** ** New nodes *)

(** A node that is not yet in the document. *)
Definition fresh (n : nat) (x : HtmlParse) : bool :=
  match data n x with
  | Some d => is_live_ d && negb (IsInEventWindow (begin_ d)) && negb (IsInEventWindow (end_ d)) && bool_decide (n ∉ lexer_stack_ x)
  | None => false
  end.

Lemma fresh_data n x : fresh n x = true -> exists d, data n x = Some d /\ is_live_ d = true /\ begin_ d = None /\ end_ d = None /\ n ∉ lexer_stack_ x.
Proof.
  unfold fresh, IsInEventWindow. destruct (data n x) as [d|]; [|done]. intros H. exists d. split; [done|].
  apply andb_true_iff in H as [[[Hl Hb]%andb_true_iff He]%andb_true_iff Hn%bool_decide_eq_true].
  destruct (begin_ d); [by rewrite bool_decide_eq_true_2 in Hb|]. destruct (end_ d); [by rewrite bool_decide_eq_true_2 in He|]. done.
Qed.

Lemma detached_unlisted x n d : Wf x -> data n x = Some d -> begin_ d = None -> end_ d = None -> unlisted n (cells x).
Proof.
  intros HW E Eb Ee c ev Hi En. pose proof (Wf_link x HW c ev Hi) as Hl.
  destruct ev as [| |m|m|m]; try done; injection En as ->; cbn in Hl; destruct Hl as [_ (d' & E' & _ & ?)]; naive_solver congruence.
Qed.

Lemma fresh_unlisted n x : fresh n x = true -> Wf x -> (n ∉ lexer_stack_ x) /\ ~ deferred_node x n /\ unlisted n (cells x).
Proof.
  intros (d & E & _ & Eb & Ee & Hn)%fresh_data HW. split; [done|]. pose proof (detached_unlisted x n d HW E Eb Ee) as Hu. split; [|done].
  intros (c & ev & Hi & En). apply (Hu c ev); [|done]. apply elem_of_app. by right.
Qed.

Lemma set_parent_edited n p x : n ∉ lexer_stack_ x -> ~ deferred_node x n -> edited x (set_parent n p x).
Proof.
  intros Hs Hd. split; try done.
  - intros m k. by rewrite kind_set_parent.
  - intros m Hm. unfold par. rewrite parent_set_parent. rewrite decide_False; [done|]. intros ->. by destruct Hm.
  - intros m d Hm E. exists d. rewrite data_set_parent. split; [done|]. split; [done|]. split; [done|].
    unfold element_keyword. by rewrite data_set_parent.
Qed.
