(* ===== verification/HtmlParseDoc.v ===== *)
(** * The HTML parser: the document that the filters edit

    What the editing operations promise, without cells and iterators: the events of the
    window, how many of them come before the current one, and whether the node at the
    current one has been taken away. *)

From S2P Require Import Prelude StringUtil HtmlKeywords HtmlLexer HtmlParse HtmlParseWalk HtmlParseInv.

Record Doc := mkDoc { doc : list HtmlEvent; here : nat; gone : bool }.

#[export] Instance first_event_dec n ev : Decision (first_event n ev).
Proof. unfold first_event. apply _. Defined.
#[export] Instance last_event_dec n ev : Decision (last_event n ev).
Proof. unfold last_event. apply _. Defined.

Definition first_at (n : nat) (d : Doc) : option nat := fst <$> list_find (first_event n) (doc d).
Definition last_at (n : nat) (d : Doc) : option nat := fst <$> list_find (last_event n) (doc d).

(** New events before the [i]th, the [k] events from the [i]th on taken away, and moved. *)
Definition d_insert (i : nat) (new : list HtmlEvent) (d : Doc) : Doc :=
  mkDoc (take i (doc d) ++ new ++ drop i (doc d)) (if decide (i <= here d)%nat then (here d + length new)%nat else here d) (gone d).
Definition d_remove (i k : nat) (d : Doc) : Doc :=
  let at_current := bool_decide (i <= here d < i + k)%nat in
  mkDoc (take i (doc d) ++ drop (i + k) (doc d))
    (if decide (here d < i)%nat then here d else if at_current then i else (here d - k)%nat) (gone d || at_current).

(** An element around [k] events from the [i]th on. *)
Definition d_wrap (i k p : nat) (d : Doc) : Doc :=
  mkDoc (take i (doc d) ++ StartElementEvent p :: take k (drop i (doc d)) ++ EndElementEvent p :: drop (i + k) (doc d))
    (if decide (here d < i)%nat then here d else if decide (here d < i + k)%nat then S (here d) else S (S (here d))) (gone d).

(** The first and the last of [k] events from the [i]th on taken away. *)
Definition d_unwrap (i k : nat) (d : Doc) : Doc :=
  mkDoc (take i (doc d) ++ take (k - 2) (drop (S i) (doc d)) ++ drop (i + k) (doc d))
    (if decide (here d <= i)%nat then here d
     else if decide (here d < i + k)%nat then (here d - 1)%nat else (here d - 2)%nat)
    (gone d || bool_decide (here d = i \/ here d = i + k - 1)%nat).

(** The [k] events from the [i]th on, of which the last is the current one, moved before
    the [j]th; the current event is then the one before those that were after them. *)
Definition d_move (i k j : nat) (d : Doc) : Doc :=
  let s := take k (drop i (doc d)) in
  if decide (j <= i)%nat then
    mkDoc (take j (doc d) ++ s ++ take (i - j) (drop j (doc d)) ++ drop (i + k) (doc d)) (i + k - 1) (gone d)
  else
    mkDoc (take i (doc d) ++ take (j - (i + k)) (drop (i + k) (doc d)) ++ s ++ drop j (doc d))
      (if decide (j = i + k)%nat then (i + k - 1)%nat else (i - 1)%nat) (gone d).

(** The node [n], if it ends at the current event and the [j]th event is not one of its
    own. *)
Definition d_move_current (n j : nat) (d : Doc) : Doc * bool :=
  match first_at n d, last_at n d with
  | Some i, Some l => if decide (l = here d /\ ~ (i <= j <= l)%nat) then (d_move i (S l - i) j d, true) else (d, false)
  | _, _ => (d, false)
  end.

(** The node of the current event, moved before the [j]th event, if there is one. *)
Definition d_move_here (j : option nat) (d : Doc) : Doc * bool :=
  match doc d !! here d ≫= GetNode, j with Some n, Some j => d_move_current n j d | _, _ => (d, false) end.

(** On to the next event. *)
Definition d_next (d : Doc) : Doc := mkDoc (doc d) (if gone d then here d else S (here d)) false.

(** ** What a state of the parser is *)

Definition place (x : HtmlParse) : nat := match split_iter (current_ x) (queue_ x) with Some (a, _) => length a | None => O end.
Definition view (x : HtmlParse) : Doc := mkDoc (events x) (place x) (skip_increment_ x).

Lemma place_eq x A R : NoDup (queue_ x).*1 -> queue_ x = A ++ R -> current_ x = front R -> place x = length A.
Proof. intros Hn HQ Hc. unfold place. rewrite Hc, HQ in *. by rewrite split_iter_app. Qed.

Lemma Wf_queue_nodup x : Wf x -> NoDup (queue_ x).*1.
Proof. intros HW. pose proof (Wf_nodup x HW) as H. unfold cells in H. rewrite fmap_app in H. by apply NoDup_app_l in H. Qed.

Lemma current_split x : Wf x -> exists A R, queue_ x = A ++ R /\ current_ x = front R /\ place x = length A.
Proof.
  intros HW. pose proof (Wf_queue_nodup x HW) as Hn.
  assert (H : exists A R, queue_ x = A ++ R /\ current_ x = front R).
  { destruct (current_ x) as [c|] eqn:Ec.
    - destruct (cell_split c (queue_ x)) as (A & ev & R & HQ); [by apply (Wf_current x HW)|]. by exists A, ((c, ev) :: R).
    - exists (queue_ x), []. by rewrite app_nil_r. }
  destruct H as (A & R & HQ & Hc). exists A, R. split; [done|]. split; [done|]. by eapply place_eq.
Qed.

Lemma take_drop_fmap {A B} (f : A -> B) (l k : list A) : take (length l) (f <$> l ++ k) = f <$> l /\ drop (length l) (f <$> l ++ k) = f <$> k.
Proof.
  rewrite fmap_app, <- (length_fmap f l), take_app_length, drop_app_length. done.
Qed.

(** The iterator [current_] is not affected by cells that come and go elsewhere. *)
Lemma view_insert x x' A s R :
  Wf x -> NoDup (queue_ x').*1 -> queue_ x = A ++ R -> queue_ x' = A ++ s ++ R ->
  current_ x' = current_ x -> skip_increment_ x' = skip_increment_ x -> view x' = d_insert (length A) s.*2 (view x).
Proof.
  intros HW Hn' HQ HQ' Hc Hs. destruct (current_split x HW) as (B & T & HB & HcB & Hp).
  unfold view, d_insert, events. cbn [doc here gone]. rewrite Hs, Hp. rewrite HQ at 1 2.
  destruct (take_drop_fmap snd A R) as [-> ->]. rewrite HQ', !fmap_app. f_equal. rewrite HQ in HB.
  apply app_eq_inv in HB as [(k & -> & ->)|(k & -> & ->)].
  - rewrite length_app. destruct k as [|cell k].
    + rewrite decide_True by (cbn; lia). rewrite length_fmap. cbn in *.
      rewrite (place_eq x' ((B ++ []) ++ s) R); [|done|by rewrite HQ', <- !app_assoc|congruence]. rewrite !length_app. cbn. lia.
    + rewrite decide_False by (cbn; lia). rewrite (place_eq x' B ((cell :: k) ++ s ++ R)); [done..| |by rewrite Hc, HcB].
      by rewrite HQ', <- app_assoc.
  - rewrite length_app, decide_True by lia. rewrite length_fmap.
    rewrite (place_eq x' (A ++ s ++ k) T); [|done|by rewrite HQ', <- !app_assoc|congruence]. rewrite !length_app. lia.
Qed.

(** ** Where a node is *)

Section at_.
Context (x : HtmlParse) (S0 S1 : list nat).
Hypothesis HC : Core x S0 S1.

Lemma event_at (P : HtmlEvent -> Prop) `{!forall ev, Decision (P ev)} A c ev R n :
  queue_ x = A ++ (c, ev) :: R -> P ev -> GetNode ev = Some n ->
  (forall c' ev', (c', ev') ∈ queue_ x -> P ev' -> ev' = ev) -> fst <$> list_find P (events x) = Some (length A).
Proof.
  intros HQ HP En Hu. pose proof (Core_once _ _ _ HC) as Ho.
  assert (Hf : list_find P (events x) = Some (length A, ev)); [|by rewrite Hf]. unfold events in *. apply list_find_Some.
  rewrite HQ, fmap_app. split; [|split; [done|]].
  - rewrite lookup_app_r by by rewrite length_fmap. by rewrite length_fmap, Nat.sub_diag.
  - intros j y Hj Hlt Hy. rewrite lookup_app_l in Hj by by rewrite length_fmap. apply list_elem_of_lookup_2 in Hj.
    destruct (Ho A.*2 ev n R.*2 ltac:(by rewrite HQ, fmap_app) En) as [Ha _]. apply Ha.
    apply list_elem_of_fmap in Hj as ([c' y'] & -> & Hi). cbn in *. rewrite <- (Hu c' y'); [by apply (list_elem_of_fmap_2 snd) in Hi| |done].
    rewrite HQ. apply elem_of_app. by left.
Qed.

Lemma first_unique c ev c' ev' n : (c, ev) ∈ queue_ x -> (c', ev') ∈ queue_ x -> first_event n ev -> first_event n ev' -> ev' = ev.
Proof.
  intros H1 H2 [-> | ->] [-> | ->]; try done; apply (Core_link _ _ _ HC) in H1, H2; cbn in *; naive_solver congruence.
Qed.
Lemma last_unique c ev c' ev' n : (c, ev) ∈ queue_ x -> (c', ev') ∈ queue_ x -> last_event n ev -> last_event n ev' -> ev' = ev.
Proof.
  intros H1 H2 [-> | ->] [-> | ->]; try done; apply (Core_link _ _ _ HC) in H1, H2; cbn in *; naive_solver congruence.
Qed.

Lemma first_at_app A c ev R n : queue_ x = A ++ (c, ev) :: R -> first_event n ev -> first_at n (view x) = Some (length A).
Proof.
  intros HQ HP. apply (event_at (first_event n) A c ev R n HQ HP); [by destruct HP as [-> | ->]|]. intros c' ev' Hi Hev.
  eapply (first_unique c); [|done..]. rewrite HQ. set_solver.
Qed.
Lemma last_at_app A c ev R n : queue_ x = A ++ (c, ev) :: R -> last_event n ev -> last_at n (view x) = Some (length A).
Proof.
  intros HQ HP. apply (event_at (last_event n) A c ev R n HQ HP); [by destruct HP as [-> | ->]|]. intros c' ev' Hi Hev.
  eapply (last_unique c); [|done..]. rewrite HQ. set_solver.
Qed.

Lemma find_at (P : HtmlEvent -> Prop) `{!forall ev, Decision (P ev)} i :
  fst <$> list_find P (events x) = Some i -> exists A c ev R, queue_ x = A ++ (c, ev) :: R /\ length A = i /\ P ev.
Proof.
  destruct (list_find P (events x)) as [[j ev]|] eqn:E; [|done]. intros [= <-]. apply list_find_Some in E as (Hi & HP & _).
  unfold events in Hi. rewrite list_lookup_fmap in Hi. destruct (queue_ x !! j) as [[c ev']|] eqn:Eq; [|done]. injection Hi as ->.
  apply list_elem_of_split_length in Eq as (A & R & HQ & ->). by exists A, c, ev, R.
Qed.

Lemma first_at_Some n i : first_at n (view x) = Some i ->
  exists A c ev R, queue_ x = A ++ (c, ev) :: R /\ length A = i /\ first_event n ev /\ begin n x = Some (Some c) /\ live n x = true.
Proof.
  intros (A & c & ev & R & HQ & Hl & HP)%find_at. exists A, c, ev, R. do 3 (split; [done|]).
  assert (Hi : (c, ev) ∈ queue_ x) by (rewrite HQ; set_solver). apply (Core_link _ _ _ HC) in Hi. unfold begin, live.
  destruct HP as [-> | ->]; cbn in Hi; destruct Hi as [_ (d & E & El & Eb)]; rewrite E; cbn; [by rewrite Eb|by rewrite (proj1 Eb)].
Qed.
Lemma last_at_Some n i : last_at n (view x) = Some i ->
  exists A c ev R, queue_ x = A ++ (c, ev) :: R /\ length A = i /\ last_event n ev /\ end_of n x = Some (Some c) /\ live n x = true.
Proof.
  intros (A & c & ev & R & HQ & Hl & HP)%find_at. exists A, c, ev, R. do 3 (split; [done|]).
  assert (Hi : (c, ev) ∈ queue_ x) by (rewrite HQ; set_solver). apply (Core_link _ _ _ HC) in Hi. unfold end_of, live.
  destruct HP as [-> | ->]; cbn in Hi; destruct Hi as [_ (d & E & El & Eb)]; rewrite E; cbn; [by rewrite Eb|by rewrite (proj2 Eb)].
Qed.
End at_.
