(* ===== verification/HtmlParseEdit.v ===== *)
(** * The HTML parser: editing the window

    Every edit of the window succeeds on nodes that are in it, keeps the invariant, and
    does to the list of events what it says. *)

From S2P Require Import Prelude StringUtil HtmlKeywords HtmlLexer HtmlParse HtmlParseWalk HtmlParseInv HtmlParseDoc.

(** ** Inserting a new node *)

Lemma insert_event_app x A R ev :
  NoDup (queue_ x).*1 -> queue_ x = A ++ R ->
  insert_event (front R) ev x = Some (set_fresh (S (fresh_ x)) (set_queue (A ++ (fresh_ x, ev) :: R) x), Some (fresh_ x)).
Proof. intros Hn Hq. unfold insert_event. rewrite Hq in *. by rewrite split_iter_app. Qed.

(** The events of a node without children. *)
Definition new_events (n : nat) (x : HtmlParse) : list HtmlEvent :=
  match kind n x with Some (LeafNode _) => [LeafNodeEvent n] | _ => [StartElementEvent n; EndElementEvent n] end.

(** The cells of a node without children. *)
Definition new_cells (x : HtmlParse) (n b e : nat) (s : Cells) : Prop :=
  (kind n x = Some ElementNode /\ s = [(b, StartElementEvent n); (e, EndElementEvent n)] /\ (b < e)%nat) \/
  ((exists k, kind n x = Some (LeafNode k)) /\ s = [(b, LeafNodeEvent n)] /\ e = b).

(** The state with the new node [n] between [A] and [R]. *)
Record inserted (x x' : HtmlParse) (n : nat) (A R s : Cells) : Prop := {
  inserted_at : node_at x' n A s R;
  inserted_events : s.*2 = new_events n x;
  inserted_fresh c : c ∈ s.*1 -> (fresh_ x <= c)%nat;
  inserted_wf : Wf x';
  inserted_par m : par x' m = par x m;
  inserted_kind m : kind m x' = kind m x;
  inserted_data m : m <> n -> data m x' = data m x;
  inserted_current : current_ x' = current_ x;
  inserted_skip : skip_increment_ x' = skip_increment_ x;
  inserted_edited : edited x x';
  inserted_new : exists d b e, data n x = Some d /\ new_cells x n b e s /\ (e < fresh_ x')%nat /\
    data n x' = Some (mkData (content_ d) (is_live_ d) (Some b) (Some e));
}.

Lemma cells_insert x A s R : queue_ x = A ++ R -> (A ++ s ++ R) ++ deferred_cells x ≡ₚ s ++ cells x.
Proof. intros HQ. unfold cells. rewrite HQ, <- !app_assoc. by rewrite (Permutation_app_swap_app A s). Qed.

Lemma edited_nodes x x' :
  current_filter_ x' = current_filter_ x -> delayed_start_literal_ x' = delayed_start_literal_ x ->
  open_deferred_nodes_ x' = open_deferred_nodes_ x -> deferred_nodes_ x' = deferred_nodes_ x -> lexer_stack_ x' = lexer_stack_ x ->
  (forall n k, kind n x = Some k -> kind n x' = Some k) ->
  (forall n, n ∈ lexer_stack_ x \/ deferred_node x n -> par x' n = par x n) ->
  (forall n, n ∈ lexer_stack_ x -> data n x' = data n x) -> edited x x'.
Proof.
  intros ? ? ? ? ? ? ? Hd. split; try done. intros n d Hn E. exists d. rewrite Hd by done. do 3 (split; [done|]).
  unfold element_keyword. by rewrite Hd.
Qed.

(** [x'] has the cells [s] of [n] more, and nothing else but its data has changed. *)
Lemma Wf_new x x' n s d b e :
  Wf x -> fresh n x = true -> data n x = Some d -> cells x' ≡ₚ s ++ cells x -> new_cells x n b e s ->
  (fresh_ x <= b)%nat -> (e < fresh_ x')%nat -> delayed_start_literal_ x' = delayed_start_literal_ x ->
  (forall m, data m x' = if decide (m = n) then Some (mkData (content_ d) (is_live_ d) (Some b) (Some e)) else data m x) ->
  (forall m, kind m x' = kind m x) -> (forall c, current_ x' = Some c -> c ∈ (queue_ x').*1) -> Wf x'.
Proof.
  intros HW Hf E HP Hs Hb He H2 Hdt Hk Hc. apply fresh_data in Hf as (d0 & E0 & El & Eb & Ee & _). assert (d0 = d) as -> by congruence. clear E0.
  assert (Edl : delayed_start_literal_ x <> Some (StartElementEvent n)).
  { intros Hd. destruct (Wf_delayed x HW _ Hd) as (m & d0 & c0 & [= <-] & _ & E0 & Eb0 & _). congruence. }
  assert (En : data n x' = Some (mkData (content_ d) (is_live_ d) (Some b) (Some e))) by (by rewrite Hdt, decide_True).
  assert (Hbe : (b <= e)%nat) by (destruct Hs as [(_ & _ & ?)|(_ & _ & ->)]; lia).
  assert (HN : NoDup s.*1 /\ (forall c, c ∈ s.*1 -> (fresh_ x <= c < fresh_ x')%nat) /\ (forall c ev, (c, ev) ∈ s -> GetNode ev = Some n)).
  { destruct Hs as [(_ & -> & Hlt)|(_ & -> & ->)]; cbn.
    - split; [repeat constructor; set_solver by lia|]. split; [intros c; rewrite !elem_of_cons, elem_of_nil; lia|].
      intros c ev. rewrite !elem_of_cons, elem_of_nil. by intros [[= _ ->]|[[= _ ->]|[]]].
    - split; [repeat constructor; set_solver|]. split; [intros c; rewrite !elem_of_cons, elem_of_nil; lia|].
      intros c ev. rewrite !elem_of_cons, elem_of_nil. by intros [[= _ ->]|[]]. }
  destruct HN as (HN1 & HN2 & HN3). apply (Wf_insert x x' s); [done..|lia| | | | | | |done].
  - intros ev. rewrite H2. intros Hev. split; [done|]. intros c Hi. apply HN3 in Hi.
    destruct (Wf_delayed x HW ev Hev) as (m & _ & _ & -> & _). injection Hi as ->. done.
  - destruct Hs as [(Hkn & -> & _)|([k Hkn] & -> & ->)]; intros c ev; rewrite !elem_of_cons, elem_of_nil.
    + intros [[= -> ->]|[[= -> ->]|[]]]; cbn; rewrite Hk; (split; [done|]); by eexists.
    + intros [[= -> ->]|[]]. cbn. rewrite Hk. split; [by exists k|]. by eexists.
  - intros m d'. rewrite Hdt. case_decide as Em; [subst m|]; intros Ed'.
    + injection Ed' as <-. exists d. split; [done|]. split; [done|]. destruct Hs as [(Hkn & -> & _)|([k Hkn] & -> & ->)];
        pose proof (Wf_shape x HW n _ d Hkn E) as Hsh; rewrite Hkn; cbn in *.
      * split; [done|]. split; right; eexists; (split; [done|]); (split; [done|]); left; set_solver.
      * unfold shaped in *. cbn. split; [by destruct (content_ d)|]. split; right; eexists; (split; [done|]); (split; [done|]); right; set_solver.
    + exists d'. split; [done|]. split; [done|]. split; [|by split; left]. destruct (kind m x) as [k|] eqn:Ekm; [by apply (Wf_shape x HW m)|].
      destruct (data_node _ _ _ Ed') as [nd End]. unfold kind in Ekm. by rewrite End in Ekm.
  - intros m. split; [apply Hk|]. rewrite Hdt. by case_decide.
  - intros m d1 d2. rewrite Hdt. case_decide as Em; [subst m|]; intros Ed1 Ed2.
    + assert (d1 = d) as -> by congruence. split; [intros _; by left|done].
    + assert (d1 = d2) as -> by congruence. by split.
  - intros m d'. rewrite Hdt. case_decide as Em; [subst m; done|]. intros Ed' Hd. left. congruence.
Qed.

Lemma inserted_intro x x' n A R s d b e :
  Wf x -> fresh n x = true -> data n x = Some d -> queue_ x = A ++ R -> queue_ x' = A ++ s ++ R -> new_cells x n b e s ->
  (fresh_ x <= b)%nat -> (e < fresh_ x')%nat ->
  current_filter_ x' = current_filter_ x -> delayed_start_literal_ x' = delayed_start_literal_ x ->
  open_deferred_nodes_ x' = open_deferred_nodes_ x -> deferred_nodes_ x' = deferred_nodes_ x -> lexer_stack_ x' = lexer_stack_ x ->
  current_ x' = current_ x -> skip_increment_ x' = skip_increment_ x ->
  (forall m, data m x' = if decide (m = n) then Some (mkData (content_ d) (is_live_ d) (Some b) (Some e)) else data m x) ->
  (forall m, parent m x' = parent m x) -> (forall m, kind m x' = kind m x) -> inserted x x' n A R s.
Proof.
  intros HW Hf E HQ HQ' Hs Hb He H1 H2 H3 H4 H5 H6 H7 Hdt Hp Hk. pose proof (fresh_unlisted n x Hf HW) as (HnK & Hnd & Hu).
  assert (En : data n x' = Some (mkData (content_ d) (is_live_ d) (Some b) (Some e))) by (by rewrite Hdt, decide_True).
  assert (Hpar : forall m, par x' m = par x m) by (intros m; unfold par; by rewrite Hp).
  assert (HW' : Wf x').
  { apply (Wf_new x x' n s d b e); try done.
    - unfold cells at 1, deferred_cells. rewrite H4, HQ'. by apply cells_insert.
    - intros c. rewrite H6, HQ', !fmap_app. intros Hc. apply (Wf_current x HW) in Hc. rewrite HQ, fmap_app in Hc. set_solver. }
  split; try done.
  - split; [done|..].
    + unfold begin. rewrite En. destruct Hs as [(Hkn & -> & _)|([k Hkn] & -> & _)].
      * eexists _, _, _. split; [done|]. split; [by left|done].
      * eexists _, _, _. split; [done|]. split; [by right|done].
    + unfold end_of. rewrite En. destruct Hs as [(Hkn & -> & _)|([k Hkn] & -> & ->)].
      * exists [(b, StartElementEvent n)], e, (EndElementEvent n). split; [done|]. split; [by left|done].
      * exists [], b, (LeafNodeEvent n). split; [done|]. split; [by right|done].
    + destruct Hs as [(_ & -> & _)|(_ & -> & _)]; [right|by left]. exists []. split; [done|]. split; [done|]. by intros ev ?%elem_of_nil.
  - destruct Hs as [(Hkn & -> & _)|([k Hkn] & -> & _)]; unfold new_events; by rewrite Hkn.
  - intros c. destruct Hs as [(_ & -> & ?)|(_ & -> & _)]; cbn; rewrite !elem_of_cons, elem_of_nil; lia.
  - intros m Hm. by rewrite Hdt, decide_False.
  - apply edited_nodes; try done; [intros m k; by rewrite Hk|]. intros m Hm. rewrite Hdt, decide_False; [done|]. by intros ->.
  - by exists d, b, e.
Qed.

Lemma NoDup_insert_cell (A R : Cells) c ev :
  NoDup (A ++ R).*1 -> (forall c', c' ∈ (A ++ R).*1 -> (c' < c)%nat) -> NoDup (A ++ (c, ev) :: R).*1.
Proof.
  intros Hn Hf. rewrite !fmap_app in *. cbn. apply NoDup_app in Hn as (H1 & H2 & H3). apply NoDup_app. split; [done|]. split.
  - intros c' Hi [->|Hi']%elem_of_cons; [|by apply (H2 c')]. pose proof (Hf c ltac:(set_solver)). lia.
  - constructor; [|done]. intros Hi. pose proof (Hf c ltac:(set_solver)). lia.
Qed.

Lemma queue_fresh x c : Wf x -> c ∈ (queue_ x).*1 -> (c < fresh_ x)%nat.
Proof. intros HW Hi. apply (Wf_fresh x HW). unfold cells. rewrite fmap_app. set_solver. Qed.

Lemma SynthesizeEvents_ok x n A R :
  Wf x -> fresh n x = true -> queue_ x = A ++ R ->
  exists x' s, SynthesizeEvents n (front R) x = Some x' /\ inserted x x' n A R s.
Proof.
  intros HW Hf HQ. destruct (fresh_data n x Hf) as (d & E & _). destruct (data_node _ _ _ E) as [nd End].
  assert (Ek : kind n x = Some (kind_ nd)) by (unfold kind; by rewrite End).
  pose proof (Wf_shape x HW n _ d Ek E) as Hsh. pose proof (Wf_queue_nodup x HW) as HnQ.
  unfold SynthesizeEvents. rewrite End. cbn [mbind option_bind]. destruct (kind_ nd) as [|k] eqn:Ekn; cbn in Hsh;
    rewrite (insert_event_app x A R) by done; cbn [mbind option_bind]; set (x1 := set_fresh _ _);
    assert (E1 : data n x1 = Some d) by done.
  - unfold set_begin. rewrite (modify_data_Some n _ x1 d E1). cbn [mbind option_bind].
    set (d2 := mkData _ _ _ _). set (x2 := modify_node n _ x1).
    assert (E2 : data n x2 = Some d2) by (unfold x2; rewrite data_with_data by (by exists nd); by rewrite decide_True).
    rewrite (insert_event_app x2 (A ++ [(fresh_ x, StartElementEvent n)]) R).
    2:{ cbn. rewrite HQ in HnQ. apply NoDup_insert_cell; [done|]. intros c'. rewrite <- HQ. by apply queue_fresh. }
    2:{ cbn. by rewrite <- app_assoc. }
    cbn [mbind option_bind]. set (x3 := set_fresh _ _). unfold set_end.
    rewrite (modify_data_Some n _ x3 d2 E2). eexists _, _. split; [done|].
    apply (inserted_intro x _ n A R [(fresh_ x, StartElementEvent n); (S (fresh_ x), EndElementEvent n)] d (fresh_ x) (S (fresh_ x))); try done.
    + cbn. by rewrite <- app_assoc.
    + left. split; [done|]. split; [done|lia].
    + cbn. lia.
    + intros m. rewrite data_with_data by (exists (with_data (Some d2) nd); cbn; rewrite list_lookup_alter_eq, End; done).
      case_decide as Em; [done|]. change (data m x3) with (data m x2). unfold x2. rewrite data_with_data by (by exists nd). by rewrite decide_False.
    + intros m. rewrite parent_with_data. change (parent m x3) with (parent m x2). unfold x2. by rewrite parent_with_data.
    + intros m. rewrite kind_with_data. change (kind m x3) with (kind m x2). unfold x2. by rewrite kind_with_data.
  - unfold set_iter. rewrite (modify_data_Some n _ x1 d E1). eexists _, _. split; [done|].
    apply (inserted_intro x _ n A R [(fresh_ x, LeafNodeEvent n)] d (fresh_ x) (fresh_ x)); try done.
    + right. split; [by exists k|done].
    + cbn. lia.
    + intros m. by rewrite data_with_data by (by exists nd).
    + intros m. by rewrite parent_with_data.
    + intros m. by rewrite kind_with_data.
Qed.

(** ** Inserting a node next to others *)

Lemma Wf_same x x' :
  Wf x -> queue_ x' = queue_ x -> deferred_nodes_ x' = deferred_nodes_ x -> fresh_ x' = fresh_ x ->
  delayed_start_literal_ x' = delayed_start_literal_ x -> (forall n, kind n x' = kind n x /\ data n x' = data n x) ->
  (forall c, current_ x' = Some c -> c ∈ (queue_ x').*1) -> Wf x'.
Proof.
  intros HW Hq Hd Hf Hl Hn Hc. eapply Wf_perm; [exact HW|unfold cells, deferred_cells; by rewrite Hq, Hd|by rewrite Hf|done..].
Qed.

(** The parent of a node that the window does not have is free. *)
Lemma par_set_parent_ne m n p x : m <> n -> par (set_parent n p x) m = par x m.
Proof. intros H. unfold par. by rewrite parent_set_parent, decide_False. Qed.

(** An element that is open at the start is still open or ends in the window. *)
Lemma Core_base x S0 S1 n : Core x S0 S1 -> n ∈ S0 -> n ∈ lexer_stack_ x \/ exists c, (c, EndElementEvent n) ∈ queue_ x.
Proof.
  intros HC Hi. destruct (walk_stack _ _ _ _ _ n (Core_walk _ _ _ HC)) as (_ & H & _). destruct (H Hi) as [H1|H1].
  - left. by apply (Core_top _ _ _ HC).
  - right. apply list_elem_of_fmap in H1 as ([c ev] & Hev & H1). cbn in Hev. subst ev. by exists c.
Qed.

Lemma Core_set_parent x S0 S1 n p :
  Core x S0 S1 -> n ∉ lexer_stack_ x -> unlisted n (queue_ x) -> Core (set_parent n p x) S0 S1.
Proof.
  intros HC Hs Hu. assert (Hb : n ∉ S0).
  { intros Hi. destruct (Core_base _ _ _ n HC Hi) as [?|[c Hc]]; [done|]. by apply (Hu c _ Hc). }
  destruct HC as [HW Hwk Hnd Hch Ho Htp Hop]. split; [|rewrite <- Hwk|done| |done..|intros m; rewrite data_set_parent; apply Hop].
  - apply (Wf_same x); try done; [|by apply HW]. intros m. by rewrite kind_set_parent, data_set_parent.
  - change (events (set_parent n p x)) with (events x). symmetry. apply walk_ext.
    intros ev m ([c ev'] & -> & Hi)%list_elem_of_fmap Em. symmetry. apply par_set_parent_ne. intros ->. by apply (Hu c ev').
  - eapply chained_ext; [|done]. intros m Hm. apply par_set_parent_ne. by intros ->.
Qed.

Lemma Core_touched x S0 S1 : Core x S0 S1 -> Core (touched x) S0 S1.
Proof. intros [HW Hwk Hnd Hch Ho Htp Hop]. split; [|done..]. apply (Wf_same x); try done. by apply HW. Qed.
Lemma edited_touched x : edited x (touched x).
Proof. apply edited_nodes; done. Qed.

(** A new node is not one of the open elements. *)
Lemma fresh_not_base x S0 S1 n : Core x S0 S1 -> fresh n x = true -> n ∉ S0.
Proof.
  intros HC Hf Hi. destruct (fresh_unlisted n x Hf (Core_wf _ _ _ HC)) as (HnK & _ & Hu).
  destruct (Core_base _ _ _ n HC Hi) as [?|[c Hc]]; [done|]. by apply (Hu c _ (queue_cells x _ Hc)).
Qed.

Lemma Core_inserted x x' S0 S1 n A R s S :
  Core x S0 S1 -> fresh n x = true -> queue_ x = A ++ R -> inserted x x' n A R s ->
  walk (par x) None S0 A.*2 = Some S -> par x n = top None S -> Core x' S0 S1.
Proof.
  intros HC Hf HQ [Hat Hev Hfr HW' Hp Hk Hd Hc Hsk Hed _] HA Ht. pose proof (fresh_not_base _ _ _ _ HC Hf) as Hn0.
  destruct HC as [HW Hwk Hnd Hch Ho Htp Hop]. pose proof (at_queue _ _ _ _ _ Hat) as HQ'.
  assert (Hx : forall U l, walk (par x') None U l = walk (par x) None U l) by (intros; apply walk_ext; intros; apply Hp).
  split; [done| |done| | | |by eapply open_edited].
  - unfold events in *. rewrite HQ in Hwk. rewrite HQ'. rewrite !fmap_app in *. rewrite walk_app, HA in Hwk.
    eapply walk_insert; [by rewrite Hx|by rewrite Hx|eapply at_segment, Hat|by rewrite Hp].
  - eapply chained_ext; [|done]. intros; apply Hp.
  - intros m Hm. specialize (Ho m Hm). unfold events in *. rewrite HQ in Ho. rewrite HQ', !fmap_app, Hev in *. unfold new_events.
    rewrite !elem_of_app in *. intros [?|[Hi|?]]; [tauto| |tauto].
    destruct (kind n x) as [[]|]; rewrite ?elem_of_cons, ?elem_of_nil in Hi; naive_solver.
  - intros m Hm. rewrite (edited_stack _ _ Hed). by apply Htp.
Qed.

Lemma InsertNodeBeforeEvent_ok x S0 S1 n A R S :
  Core x S0 S1 -> fresh n x = true -> queue_ x = A ++ R -> walk (par x) None S0 A.*2 = Some S -> par x n = top None S ->
  exists x' s, InsertNodeBeforeEvent (front R) n x = Some x' /\ Core x' S0 S1 /\ inserted (touched x) x' n A R s /\ edited x x'.
Proof.
  intros HC Hf HQ HA Hp. pose proof (Core_touched _ _ _ HC) as HC'.
  destruct (SynthesizeEvents_ok (touched x) n A R (Core_wf _ _ _ HC') Hf HQ) as (x' & s & Ex & Hi).
  exists x', s. split; [done|]. split; [by eapply (Core_inserted (touched x))|]. split; [done|].
  eapply edited_trans; [apply edited_touched|apply Hi].
Qed.

Lemma fresh_set_parent m n p x : fresh m (set_parent n p x) = fresh m x.
Proof. unfold fresh. by rewrite data_set_parent. Qed.
Lemma par_set_parent m n p x : is_Some (nodes_ x !! n) -> par (set_parent n p x) m = if decide (m = n) then p else par x m.
Proof. intros [nd E]. unfold par. rewrite parent_set_parent. case_decide; [|done]. unfold parent. by rewrite E. Qed.

(** ... whose parent is set to the innermost element that is open there. *)
Lemma insert_child_ok x S0 S1 n p A R S :
  Core x S0 S1 -> fresh n x = true -> queue_ x = A ++ R -> walk (par x) None S0 A.*2 = Some S -> p = top None S ->
  exists x' s, InsertNodeBeforeEvent (front R) n (set_parent n p x) = Some x' /\ Core x' S0 S1 /\
    inserted (touched (set_parent n p x)) x' n A R s /\ edited x x'.
Proof.
  intros HC Hf HQ HA Hp. destruct (fresh_unlisted n x Hf (Core_wf _ _ _ HC)) as (HnK & Hnd & Hu).
  destruct (fresh_data n x Hf) as (d & E & _). pose proof (data_node _ _ _ E) as Hnode.
  assert (Hu' : unlisted n (queue_ x)) by (intros c ev Hi; by apply (Hu c ev), (queue_cells x)).
  destruct (InsertNodeBeforeEvent_ok (set_parent n p x) S0 S1 n A R S) as (x' & s & Ex & HC' & Hi & He).
  - by apply Core_set_parent.
  - by rewrite fresh_set_parent.
  - done.
  - rewrite <- HA. symmetry. apply walk_ext. intros ev m ([c ev'] & -> & Hi)%list_elem_of_fmap Em. rewrite par_set_parent by done.
    rewrite decide_False; [done|]. intros ->. apply (Hu' c ev'); [|done]. rewrite HQ. apply elem_of_app. by left.
  - by rewrite par_set_parent, decide_True.
  - exists x', s. split; [done|]. split; [done|]. split; [done|]. eapply edited_trans; [by apply set_parent_edited|done].
Qed.

(** ** Where a node is *)

Lemma begin_Some n x b : begin n x = Some b -> exists d, data n x = Some d /\ begin_ d = b.
Proof. unfold begin. destruct (data n x) as [d|]; [|done]. intros [= <-]. by exists d. Qed.
Lemma end_Some n x e : end_of n x = Some e -> exists d, data n x = Some d /\ end_ d = e.
Proof. unfold end_of. destruct (data n x) as [d|]; [|done]. intros [= <-]. by exists d. Qed.

Lemma at_begin x S0 S1 n b :
  Core x S0 S1 -> begin n x = Some (Some b) -> b ∈ (queue_ x).*1 ->
  exists A ev R S, queue_ x = A ++ (b, ev) :: R /\ first_event n ev /\ walk (par x) None S0 A.*2 = Some S /\ par x n = top None S.
Proof.
  intros HC (d & E & Eb)%begin_Some Hb. destruct (begin_event _ _ _ HC n d b E Eb Hb) as (ev & Hi & Hev).
  apply list_elem_of_split in Hi as (A & R & HQ). pose proof (Core_walk _ _ _ HC) as HW. unfold events in HW.
  rewrite HQ, fmap_app, fmap_cons in HW. apply walk_app_Some in HW as (S & HA & HW). exists A, ev, R, S. do 3 (split; [done|]).
  destruct Hev as [->| ->]; cbn in HW; by case_decide.
Qed.

Lemma at_end x S0 S1 n e :
  Core x S0 S1 -> end_of n x = Some (Some e) -> e ∈ (queue_ x).*1 ->
  exists A ev R S, queue_ x = A ++ (e, ev) :: R /\ last_event n ev /\ walk (par x) None S0 (A ++ [(e, ev)]).*2 = Some S /\ par x n = top None S /\
    (kind n x = Some ElementNode -> ev = EndElementEvent n /\ walk (par x) None S0 A.*2 = Some (n :: S)).
Proof.
  intros HC (d & E & Ee)%end_Some He. destruct (end_event _ _ _ HC n d e E Ee He) as (ev & Hi & Hev).
  pose proof (Core_link _ _ _ HC _ _ Hi) as Hl. apply list_elem_of_split in Hi as (A & R & HQ).
  pose proof (Core_walk _ _ _ HC) as HW. unfold events in HW. rewrite HQ, fmap_app, fmap_cons in HW.
  apply walk_app_Some in HW as (V & HA & HW). destruct Hev as [->| ->]; cbn in HW.
  - destruct V as [|m V]; [done|]. case_decide as Hc; [|done]. destruct Hc as [-> Hc]. exists A, (EndElementEvent n), R, V.
    split; [done|]. split; [by left|]. rewrite fmap_app, walk_app, HA. cbn. by rewrite decide_True.
  - case_decide as Hc; [|done]. exists A, (LeafNodeEvent n), R, V. split; [done|]. split; [by right|].
    split; [rewrite fmap_app, walk_app, HA; cbn; by rewrite decide_True|]. split; [done|].
    intros Hk. destruct Hl as [[k Hk'] _]. congruence.
Qed.

(** ** The operations that insert *)

Lemma parent_par n x p : parent n x = Some p -> par x n = p.
Proof. intros H. unfold par. by rewrite H. Qed.
Lemma data_parent n x d : data n x = Some d -> parent n x = Some (par x n).
Proof. intros (nd & E)%data_node. unfold par, parent. by rewrite E. Qed.
Lemma begin_parent n x b : begin n x = Some b -> parent n x = Some (par x n).
Proof. intros (d & E & _)%begin_Some. by eapply data_parent. Qed.
Lemma end_parent n x b : end_of n x = Some b -> parent n x = Some (par x n).
Proof. intros (d & E & _)%end_Some. by eapply data_parent. Qed.

(** ** What an operation does *)

(** The result is a sound window that differs from the old one as [d] says. *)
Definition good (S0 S1 : list nat) (x : HtmlParse) (d : Doc) (x' : HtmlParse) : Prop :=
  Core x' S0 S1 /\ edited x x' /\ view x' = d.

Lemma first_GetNode n ev : first_event n ev -> GetNode ev = Some n.
Proof. by intros [->| ->]. Qed.
Lemma last_GetNode n ev : last_event n ev -> GetNode ev = Some n.
Proof. by intros [->| ->]. Qed.

Lemma new_events_parent n m p x : new_events n (touched (set_parent m p x)) = new_events n x.
Proof. unfold new_events. change (kind n (touched (set_parent m p x))) with (kind n (set_parent m p x)). by rewrite kind_set_parent. Qed.

(** Moving the iterator of the filters. *)
Lemma edited_set_current v x : edited x (set_current v x).
Proof. by apply edited_nodes. Qed.
Lemma Core_set_current x S0 S1 v : Core x S0 S1 -> (forall c, v = Some c -> c ∈ (queue_ x).*1) -> Core (set_current v x) S0 S1.
Proof. intros [HW Hwk Hnd Hch Ho Htp Hop] Hv. split; [|done..]. by apply (Wf_same x). Qed.
Lemma front_in (A R : Cells) c : front R = Some c -> c ∈ (A ++ R).*1.
Proof. destruct R as [|[d ev] R]; [done|]. intros [= ->]. rewrite fmap_app, fmap_cons. set_solver. Qed.
Lemma set_current_good x S0 S1 A R :
  Core x S0 S1 -> queue_ x = A ++ R -> good S0 S1 x (mkDoc (events x) (length A) (skip_increment_ x)) (set_current (front R) x).
Proof.
  intros HC HQ. split; [|split; [by apply edited_set_current|]].
  - apply Core_set_current; [done|]. intros c Hc. rewrite HQ. by apply front_in.
  - unfold view. by rewrite (place_eq (set_current (front R) x) A R); [|apply (Core_queue_nodup _ _ _ HC)|done..].
Qed.
Lemma good_trans S0 S1 x y z d d' : good S0 S1 x d y -> good S0 S1 y d' z -> good S0 S1 x d' z.
Proof. intros (_ & H1 & _) (H2 & H3 & H4). split; [done|]. split; [by eapply edited_trans|done]. Qed.

Section insertions.
Context (x : HtmlParse) (S0 S1 : list nat) (n : nat).
Hypothesis HC : Core x S0 S1.
Hypothesis Hf : fresh n x = true.

Lemma insert_at A R S p :
  queue_ x = A ++ R -> walk (par x) None S0 A.*2 = Some S -> p = top None S ->
  exists x' s, InsertNodeBeforeEvent (front R) n (set_parent n p x) = Some x' /\ node_at x' n A s R /\ s.*2 = new_events n x /\
    current_ x' = current_ x /\ (forall m, m <> n -> data m x' = data m x /\ par x' m = par x m /\ kind m x' = kind m x) /\
    good S0 S1 x (d_insert (length A) (new_events n x) (view x)) x'.
Proof.
  intros HQ HA Hp. destruct (insert_child_ok x S0 S1 n p A R S HC Hf HQ HA Hp) as (x' & s & Ex & HC' & [Hat Hev _ HW Hpar Hk Hd Hc Hs _ _] & He).
  exists x', s. rewrite new_events_parent in Hev. do 4 (split; [done|]). split.
  { intros m Hm. rewrite Hd, Hpar, Hk by done. change (data m (touched (set_parent n p x))) with (data m (set_parent n p x)).
    change (par (touched (set_parent n p x)) m) with (par (set_parent n p x) m).
    change (kind m (touched (set_parent n p x))) with (kind m (set_parent n p x)).
    by rewrite data_set_parent, kind_set_parent, par_set_parent_ne. }
  split; [done|]. split; [done|]. rewrite <- Hev.
  apply (view_insert x x' A s R); [apply HC|by apply Wf_queue_nodup|done|eapply at_queue, Hat|done..].
Qed.

Lemma insert_child_good A R S p :
  queue_ x = A ++ R -> walk (par x) None S0 A.*2 = Some S -> p = top None S ->
  exists x', InsertNodeBeforeEvent (front R) n (set_parent n p x) = Some x' /\ good S0 S1 x (d_insert (length A) (new_events n x) (view x)) x'.
Proof.
  intros HQ HA Hp. destruct (insert_at A R S p HQ HA Hp) as (x' & s & Ex & _ & _ & _ & _ & Hg). by exists x'.
Qed.

Lemma insert_good A R S :
  queue_ x = A ++ R -> walk (par x) None S0 A.*2 = Some S -> par x n = top None S ->
  exists x', InsertNodeBeforeEvent (front R) n x = Some x' /\ good S0 S1 x (d_insert (length A) (new_events n x) (view x)) x'.
Proof.
  intros HQ HA Hp. destruct (InsertNodeBeforeEvent_ok x S0 S1 n A R S HC Hf HQ HA Hp) as (x' & s & Ex & HC' & [Hat Hev _ HW _ _ _ Hc Hs _ _] & He).
  exists x'. split; [done|]. split; [done|]. split; [done|]. change (new_events n (touched x)) with (new_events n x) in Hev. rewrite <- Hev.
  apply (view_insert x x' A s R); [apply HC|by apply Wf_queue_nodup|done|eapply at_queue, Hat|done..].
Qed.

Lemma InsertNodeBeforeNode_good m b :
  begin m x = Some (Some b) -> b ∈ (queue_ x).*1 ->
  exists x' i, InsertNodeBeforeNode m n x = Some x' /\ first_at m (view x) = Some i /\ good S0 S1 x (d_insert i (new_events n x) (view x)) x'.
Proof.
  intros Eb Hb. destruct (at_begin x S0 S1 m b HC Eb Hb) as (A & ev & R & S & HQ & Hev & HA & Hp).
  destruct (insert_child_good A ((b, ev) :: R) S (par x m) HQ HA Hp) as (x' & Ex & Hg).
  exists x', (length A). unfold InsertNodeBeforeNode. rewrite Eb, (begin_parent _ _ _ Eb). split; [done|]. split; [|done].
  by eapply first_at_app.
Qed.

Lemma next_cell A c ev R p m : queue_ x = A ++ (c, ev) :: R -> next (Some c) (queue_ (set_parent m p x)) = Some (front R).
Proof. intros HQ. pose proof (Core_queue_nodup _ _ _ HC) as Hn. cbn [queue_ set_parent modify_node set_nodes]. rewrite HQ in *. by apply next_app. Qed.

Lemma InsertNodeAfterNode_good m e :
  end_of m x = Some (Some e) -> e ∈ (queue_ x).*1 ->
  exists x' i, InsertNodeAfterNode m n x = Some x' /\ last_at m (view x) = Some i /\ good S0 S1 x (d_insert (S i) (new_events n x) (view x)) x'.
Proof.
  intros Ee He. destruct (at_end x S0 S1 m e HC Ee He) as (A & ev & R & S & HQ & Hev & HA & Hp & _).
  destruct (insert_child_good (A ++ [(e, ev)]) R S (par x m)) as (x' & Ex & Hg); [by rewrite <- app_assoc|done..|].
  rewrite length_app, Nat.add_1_r in Hg.
  exists x', (length A). unfold InsertNodeAfterNode. rewrite Ee, (end_parent _ _ _ Ee). cbn [mbind option_bind InsertNodeAfterEvent].
  rewrite (next_cell A e ev R) by done. split; [done|]. split; [|done]. by eapply last_at_app.
Qed.

Lemma element_first m b ev : kind m x = Some ElementNode -> (b, ev) ∈ queue_ x -> first_event m ev -> ev = StartElementEvent m.
Proof. intros Hk Hi [->| ->]; [done|]. apply (Core_link _ _ _ HC) in Hi as [[k Hk'] _]. congruence. Qed.

Lemma PrependChild_good m b :
  kind m x = Some ElementNode -> begin m x = Some (Some b) -> b ∈ (queue_ x).*1 ->
  exists x' i, PrependChild m n x = Some x' /\ first_at m (view x) = Some i /\ good S0 S1 x (d_insert (S i) (new_events n x) (view x)) x'.
Proof.
  intros Hk Eb Hb. destruct (at_begin x S0 S1 m b HC Eb Hb) as (A & ev & R & S & HQ & Hev & HA & Hp).
  assert (ev = StartElementEvent m) as -> by (eapply (element_first m b); [done| |done]; rewrite HQ; set_solver).
  destruct (insert_child_good (A ++ [(b, StartElementEvent m)]) R (m :: S) (Some m)) as (x' & Ex & Hg).
  { by rewrite <- app_assoc. } { rewrite fmap_app, walk_app, HA. cbn. by rewrite decide_True. } { done. }
  rewrite length_app, Nat.add_1_r in Hg.
  exists x', (length A). unfold PrependChild. rewrite Eb. cbn [mbind option_bind InsertNodeAfterEvent].
  rewrite (next_cell A b (StartElementEvent m) R) by done. split; [done|]. split; [|done]. by eapply first_at_app.
Qed.

Lemma AppendChild_good m e :
  kind m x = Some ElementNode -> end_of m x = Some (Some e) -> e ∈ (queue_ x).*1 ->
  exists x' i, AppendChild (Some m) n x = Some x' /\ last_at m (view x) = Some i /\ good S0 S1 x (d_insert i (new_events n x) (view x)) x'.
Proof.
  intros Hk Ee He. destruct (at_end x S0 S1 m e HC Ee He) as (A & ev & R & S & HQ & Hev & _ & Hp & HA).
  destruct (HA Hk) as [-> HA']. destruct (insert_child_good A ((e, EndElementEvent m) :: R) (m :: S) (Some m) HQ HA' eq_refl) as (x' & Ex & Hg).
  exists x', (length A). unfold AppendChild. rewrite Ee. split; [done|]. split; [|done]. by eapply last_at_app.
Qed.

(** At the top of the document. *)
Lemma Append_top_good : par x n = top None S1 ->
  exists x', AppendChild None n x = Some x' /\ good S0 S1 x (d_insert (length (events x)) (new_events n x) (view x)) x'.
Proof.
  intros Hp. destruct (insert_good (queue_ x) [] S1) as (x' & Ex & Hg); [by rewrite app_nil_r|apply HC|done|].
  exists x'. split; [done|]. unfold events. by rewrite length_fmap.
Qed.
End insertions.

(** ** Inserting at the current event *)

Lemma at_cell x S0 S1 A c ev R :
  Core x S0 S1 -> queue_ x = A ++ (c, ev) :: R ->
  exists S S', walk (par x) None S0 A.*2 = Some S /\ walk (par x) None S0 (A ++ [(c, ev)]).*2 = Some S' /\
    match ev with
    | StartElementEvent n => par x n = top None S /\ S' = n :: S
    | EndElementEvent n => S = n :: S' /\ par x n = top None S'
    | LeafNodeEvent n => par x n = top None S /\ S' = S
    | _ => top None S = None /\ S' = S
    end.
Proof.
  intros HC HQ. pose proof (Core_walk _ _ _ HC) as HW. unfold events in HW. rewrite HQ, fmap_app, fmap_cons in HW.
  apply walk_app_Some in HW as (S & HA & HW). exists S. destruct ev as [| |n|n|n]; cbn in HW.
  1,2,3,5: case_decide as Hc; [|done]; eexists; (split; [done|]); (split; [|by split]); rewrite fmap_app, walk_app, HA; cbn;
    by rewrite decide_True.
  destruct S as [|m S]; [done|]. case_decide as Hc; [|done]. destruct Hc as [-> Hc]. exists S. split; [done|].
  split; [|done]. rewrite fmap_app, walk_app, HA. cbn. by rewrite decide_True.
Qed.

Definition current_event (x : HtmlParse) : option HtmlEvent := match current_ x with Some _ => deref (current_ x) (queue_ x) | None => None end.

(** The parents of nodes put before and after the current event. *)
Definition parent_before (S1 : list nat) (x : HtmlParse) : option nat :=
  match current_ x, current_event x with
  | None, _ => top None S1
  | _, Some (EndElementEvent n) => Some n
  | _, Some (StartElementEvent n) | _, Some (LeafNodeEvent n) => par x n
  | _, _ => None
  end.
Definition parent_after (x : HtmlParse) : option nat :=
  match current_event x with
  | Some (StartElementEvent n) => Some n
  | Some (EndElementEvent n) | Some (LeafNodeEvent n) => par x n
  | _ => None
  end.

Lemma current_cell x : Wf x -> is_Some (current_ x) ->
  exists A c ev R, queue_ x = A ++ (c, ev) :: R /\ current_ x = Some c /\ place x = length A /\ current_event x = Some ev.
Proof.
  intros HW [c Hc]. destruct (current_split x HW) as (A & R & HQ & HR & Hp). destruct R as [|[c' ev] R]; [cbn in HR; congruence|].
  cbn in HR. exists A, c', ev, R. do 3 (split; [done|]). pose proof (Wf_queue_nodup x HW) as Hn. unfold current_event. rewrite HR, HQ in *.
  by apply deref_app.
Qed.

Lemma set_parent_same n x : is_Some (nodes_ x !! n) -> set_parent n (par x n) x = x.
Proof.
  intros [nd E]. unfold set_parent, modify_node. replace (alter _ n (nodes_ x)) with (nodes_ x); [by destruct x|].
  apply list_eq. intros i. destruct (decide (i = n)) as [->|Hi]; [|by rewrite list_lookup_alter_ne].
  rewrite list_lookup_alter_eq, E. cbn. unfold par, parent. rewrite E. by destruct nd.
Qed.

Lemma fresh_node n x : fresh n x = true -> is_Some (nodes_ x !! n).
Proof. intros (d & E & _)%fresh_data. by eapply data_node. Qed.

Section at_current.
Context (x : HtmlParse) (S0 S1 : list nat) (n : nat).
Hypothesis HC : Core x S0 S1.
Hypothesis Hf : fresh n x = true.
Hypothesis Hskip : skip_increment_ x = false.

Lemma InsertNodeBeforeCurrent_good :
  (current_ x <> None /\ par x n = None) \/ par x n = parent_before S1 x ->
  exists x', InsertNodeBeforeCurrent n x = Some x' /\ good S0 S1 x (d_insert (here (view x)) (new_events n x) (view x)) x'.
Proof.
  intros Hp. destruct (fresh_node n x Hf) as [nd En]. unfold InsertNodeBeforeCurrent. rewrite Hskip. cbn [here view].
  assert (Epn : parent n x = Some (par x n)) by (unfold par, parent; by rewrite En). rewrite Epn. cbn [mbind option_bind].
  destruct (current_ x) as [c|] eqn:Ec.
  2:{ destruct Hp as [[[] _]|Hp]; [done|]. unfold parent_before in Hp. rewrite Ec in Hp.
      destruct (Append_top_good x S0 S1 n HC Hf Hp) as (x' & Ex & Hg). exists x'. rewrite (place_eq x (queue_ x) []);
        [|apply (Core_queue_nodup _ _ _ HC)|by rewrite app_nil_r|done]. unfold events in Hg. rewrite length_fmap in Hg.
      destruct (par x n); cbn; rewrite Ec; done. }
  destruct (current_cell x (Core_wf _ _ _ HC)) as (A & c' & ev & R & HQ & Hc & Hpl & Hev); [by rewrite Ec|].
  assert (c' = c) as -> by congruence. unfold parent_before in Hp. rewrite Ec, Hev in Hp.
  unfold current_event in Hev. rewrite Ec in Hev. rewrite Hev. cbn [mbind option_bind]. rewrite Hpl.
  destruct (at_cell x S0 S1 A c ev R HC HQ) as (S & S' & HA & _ & Hm).
  assert (Hp' : par x n = None \/ par x n = top None S).
  { destruct Hp as [[_ ?]|Hp]; [by left|right]. rewrite Hp. destruct ev; destruct Hm as [H1 H2]; try done. by rewrite H1. }
  destruct (par x n) as [q|] eqn:Eq.
  { destruct Hp' as [|Hp']; [done|]. cbn. rewrite Ec. apply (insert_good x S0 S1 n HC Hf A _ S HQ HA). congruence. }
  destruct ev as [| |m|m|m]; cbn [GetElementIfEndEvent GetNode mbind option_bind]; destruct Hm as [H1 H2].
  1,2: rewrite Ec; apply (insert_good x S0 S1 n HC Hf A _ S HQ HA); congruence.
  2: cbn; rewrite Ec; apply (insert_child_good x S0 S1 n HC Hf A _ S (Some m) HQ HA); by rewrite H1.
  all: assert (Hi : (c, _) ∈ queue_ x) by (rewrite HQ; apply elem_of_app; right; by left);
    apply (Core_link _ _ _ HC) in Hi as [_ (d & E & _)]; rewrite (data_parent _ _ _ E); cbn; rewrite Ec;
    apply (insert_child_good x S0 S1 n HC Hf A _ S (par x m) HQ HA); congruence.
Qed.

Lemma InsertNodeAfterCurrent_good :
  current_ x <> None -> par x n = None \/ par x n = parent_after x ->
  exists x' i, InsertNodeAfterCurrent n x = Some x' /\ i = here (view x) /\
    good S0 S1 x (let d := d_insert (S i) (new_events n x) (view x) in mkDoc (doc d) (i + length (new_events n x)) (gone d)) x'.
Proof.
  intros Hcur Hp. pose proof (Core_queue_nodup _ _ _ HC) as HN. destruct (fresh_node n x Hf) as [nd En].
  destruct (current_cell x (Core_wf _ _ _ HC)) as (A & c & ev & R & HQ & Hc & Hpl & Hev); [by destruct (current_ x)|].
  unfold InsertNodeAfterCurrent, parent_after in *. rewrite Hskip, Hev in *. unfold current_event in Hev. rewrite Hc in Hev |- *. rewrite Hev.
  assert (Epn : parent n x = Some (par x n)) by (unfold par, parent; by rewrite En). rewrite Epn. cbn [mbind option_bind here view]. rewrite Hpl.
  destruct (at_cell x S0 S1 A c ev R HC HQ) as (S & S' & HA & HA' & Hm).
  set (q := match par x n with Some p => Some p | None =>
     match ev with StartElementEvent m => Some m | EndElementEvent m | LeafNodeEvent m => par x m | _ => None end end).
  assert (Hq : q = top None S').
  { assert (Hx : (match ev with StartElementEvent m => Some m | EndElementEvent m | LeafNodeEvent m => par x m | _ => None end) = top None S').
    { destruct ev; destruct Hm as [H1 H2]; rewrite ?H2; try done. }
    unfold q. destruct Hp as [->|Hp]; [done|]. rewrite <- Hx, <- Hp. by destruct (par x n). }
  set (y := set_current (front R) x).
  assert (Hy : Core y S0 S1) by (apply (set_current_good x S0 S1 (A ++ [(c, ev)]) R HC); by rewrite HQ, <- app_assoc).
  destruct (insert_at y S0 S1 n Hy Hf (A ++ [(c, ev)]) R S' q) as (x' & s & Ex & Hat & Hs & Hcx & _ & Hg); [cbn; by rewrite HQ, <- app_assoc|done..|].
  set (x1 := match par x n with Some _ => x | None => set_parent n q x end).
  assert (Ex1 : set_current (front R) x1 = set_parent n q y).
  { unfold x1, q. destruct (par x n) as [p|] eqn:Ep; [|done]. rewrite <- Ep. change (par x n) with (par y n). symmetry. by apply set_parent_same. }
  assert (Em : match par x n with
               | Some _ => Some x
               | None => q ← (match ev with
                             | EndElementEvent n0 => parent n0 x
                             | StartElementEvent n0 => Some (Some n0)
                             | _ => match GetNode ev with Some n0 => parent n0 x | None => Some None end
                             end); Some (set_parent n q x) end = Some x1).
  { unfold x1, q. destruct (par x n); [done|]. assert (Hi : (c, ev) ∈ queue_ x) by (rewrite HQ; apply elem_of_app; right; by left).
    apply (Core_link _ _ _ HC) in Hi. destruct ev as [| |m|m|m]; try done; destruct Hi as [_ (d & E & _)]; cbn; by rewrite (data_parent _ _ _ E). }
  rewrite Em. cbn [mbind option_bind].
  assert (Enx : next (current_ x1) (queue_ x1) = Some (front R)).
  { assert (Hx1 : current_ x1 = Some c /\ queue_ x1 = queue_ x) by (unfold x1; by destruct (par x n)).
    destruct Hx1 as [-> ->]. rewrite HQ in *. by apply next_app. }
  rewrite Enx. cbn [mbind option_bind]. rewrite Ex1, Ex. cbn [mbind option_bind].
  destruct Hg as (HC' & He & Hv). pose proof (Core_queue_nodup _ _ _ HC') as HN'. pose proof (at_queue _ _ _ _ _ Hat) as HQ'.
  destruct (at_last _ _ _ _ _ Hat) as (r & e & eve & Hsr & Hle & Hend).
  assert (HQ2 : queue_ x' = ((A ++ [(c, ev)]) ++ r) ++ (e, eve) :: R) by (rewrite HQ', Hsr; by rewrite <- !app_assoc).
  rewrite HQ2 in *. rewrite prev_app by done. cbn [mbind option_bind]. rewrite deref_app by done. cbn [mbind option_bind].
  rewrite decide_True by by apply last_GetNode. eexists _, _. split; [done|]. split; [done|].
  destruct (set_current_good x' S0 S1 _ ((e, eve) :: R) HC' HQ2) as (HC2 & He2 & Hv2).
  split; [done|]. split; [eapply edited_trans; [apply edited_set_current|]; by eapply edited_trans|].
  change (front ((e, eve) :: R)) with (Some e) in Hv2. rewrite Hv2. apply (f_equal doc) in Hv as Hvd. apply (f_equal gone) in Hv as Hvg. cbn in Hvd, Hvg.
  f_equal.
  - by rewrite Hvd, length_app, Nat.add_1_r, <- Hpl.
  - change (new_events n x) with (new_events n y). rewrite Hpl, <- Hs, Hsr, length_fmap, !length_app. cbn. lia.
  - done.
Qed.
End at_current.
