(* ===== verification/HtmlParseDelete.v ===== *)
(** * The HTML parser: deleting nodes

    [DeleteNode] takes the events of the node and of everything in it out of the window,
    and every node that ends there is dead afterwards. *)

From S2P Require Import Prelude StringUtil HtmlKeywords HtmlLexer HtmlParse HtmlParseWalk HtmlParseInv HtmlParseDoc HtmlParseEdit.

(** ** What the loop does to the nodes *)

Definition ended (ev : HtmlEvent) : option nat := match ev with EndElementEvent n | LeafNodeEvent n => Some n | _ => None end.
Definition dead (nd : HtmlNode) : HtmlNode := with_data ((fun d => mkData (content_ d) false None None) <$> data_ nd) nd.

Fixpoint killed (evs : list HtmlEvent) (ns : list HtmlNode) : list HtmlNode :=
  match evs with
  | [] => ns
  | ev :: evs => killed evs (match ended ev with Some n => alter dead n ns | None => ns end)
  end.
Definition kill (s : Cells) (x : HtmlParse) : HtmlParse := set_nodes (killed s.*2 (nodes_ x)) x.

Lemma ended_last ev n : ended ev = Some n <-> last_event n ev.
Proof. unfold last_event. destruct ev; cbn; split; naive_solver. Qed.

Lemma ended_in (evs : list HtmlEvent) n : n ∈ omap ended evs <-> exists ev, ev ∈ evs /\ last_event n ev.
Proof. rewrite list_elem_of_omap. by setoid_rewrite ended_last. Qed.

Lemma killed_lookup (evs : list HtmlEvent) (ns : list HtmlNode) n :
  NoDup (omap ended evs) -> killed evs ns !! n = if decide (n ∈ omap ended evs) then dead <$> ns !! n else ns !! n.
Proof.
  revert ns. induction evs as [|ev evs IH]; intros ns Hn; cbn [killed omap list_omap] in *; [by rewrite decide_False by apply not_elem_of_nil|].
  destruct (ended ev) as [m|]; [|by apply IH]. apply NoDup_cons in Hn as [Hm Hn]. rewrite IH by done.
  destruct (decide (m = n)) as [->|Hne].
  - rewrite decide_False by done. rewrite (decide_True (P := n ∈ n :: _)) by by left. apply list_lookup_alter_eq.
  - rewrite list_lookup_alter_ne by done. apply decide_ext. rewrite elem_of_cons. naive_solver.
Qed.

Section kill.
Context (s : Cells) (x : HtmlParse) (n : nat).
Hypothesis Hn : NoDup (omap ended s.*2).

Lemma kill_data : data n (kill s x) =
  if decide (n ∈ omap ended s.*2) then (fun d => mkData (content_ d) false None None) <$> data n x else data n x.
Proof. unfold data. cbn. rewrite killed_lookup by done. case_decide; [|done]. by destruct (nodes_ x !! n). Qed.
Lemma kill_kind : kind n (kill s x) = kind n x.
Proof. unfold kind. cbn. rewrite killed_lookup by done. case_decide; [|done]. by destruct (nodes_ x !! n). Qed.
Lemma kill_parent : parent n (kill s x) = parent n x.
Proof. unfold parent. cbn. rewrite killed_lookup by done. case_decide; [|done]. by destruct (nodes_ x !! n). Qed.
End kill.

(** ** The loop *)

Definition at_current (s : Cells) (x : HtmlParse) : bool :=
  negb (skip_increment_ x) && match current_ x with Some c => bool_decide (c ∈ s.*1) | None => false end.

(** The state after the loop: the cells [s] are gone. *)
Definition removed (A s T : Cells) (x : HtmlParse) : HtmlParse :=
  set_current (if at_current s x then front T else current_ x)
    (set_skip_increment (skip_increment_ x || at_current s x) (set_queue (A ++ T) (kill s x))).

Lemma erase_app x A c ev R : NoDup (queue_ x).*1 -> queue_ x = A ++ (c, ev) :: R -> erase (Some c) x = Some (set_queue (A ++ R) x, front R).
Proof. intros Hn HQ. unfold erase. rewrite HQ in *. by rewrite (split_iter_app A ((c, ev) :: R) Hn : split_iter (Some c) _ = _). Qed.

Lemma NoDup_remove_cell (A R : Cells) c ev : NoDup (A ++ (c, ev) :: R).*1 -> NoDup (A ++ R).*1.
Proof.
  rewrite !fmap_app, fmap_cons. intros (H1 & H2 & [_ H3]%NoDup_cons)%NoDup_app. apply NoDup_app. split; [done|]. split; [|done].
  intros d Hd Hr. apply (H2 d Hd). by right.
Qed.

(** One round of the loop, [R] what is left of the cells of the node. *)
Lemma DeleteNode_step node e A c ev R T eve B x :
  queue_ x = A ++ (c, ev) :: R ++ T -> NoDup (queue_ x).*1 -> end_of node x = Some (Some e) -> ((c, ev) :: R) = B ++ [(e, eve)] ->
  (forall n, ended ev = Some n -> live n x = true) ->
  DeleteNode_loop ((c, ev) :: R ++ T) node x =
    (let x' := removed A [(c, ev)] (R ++ T) x in
     let x' := if at_current [(c, ev)] x then set_current (front T) x' else x' in
     if decide (Some e = Some c) then Some x' else DeleteNode_loop (R ++ T) node x').
Proof.
  intros HQ HN He HB Hlive. cbn [DeleteNode_loop]. rewrite He. cbn [mbind option_bind].
  assert (Hnext : next (Some e) (queue_ x) = Some (front T)).
  { replace (queue_ x) with ((A ++ B) ++ (e, eve) :: T) in *; [by apply next_app|]. rewrite HQ.
    change ((c, ev) :: R ++ T) with (((c, ev) :: R) ++ T). by rewrite HB, <- !app_assoc. }
  assert (Hat : negb (skip_increment_ x) && bool_decide (current_ x = Some c) = at_current [(c, ev)] x).
  { unfold at_current. f_equal. destruct (current_ x) as [c'|]; [|by rewrite bool_decide_eq_false_2].
    apply bool_decide_ext. cbn. rewrite list_elem_of_singleton. naive_solver. }
  rewrite Hat. clear Hat.
  set (x1 := if at_current [(c, ev)] x then set_current (front T) (set_skip_increment true x) else x).
  assert (E1 : (if at_current [(c, ev)] x then c ← next (Some e) (queue_ x); Some (set_current c (set_skip_increment true x)) else Some x) = Some x1).
  { unfold x1. rewrite Hnext. by case_match. }
  rewrite E1. cbn [mbind option_bind]. assert (HQ1 : queue_ x1 = queue_ x) by (unfold x1; by case_match).
  rewrite (erase_app x1 A c ev (R ++ T)); [|by rewrite HQ1|by rewrite HQ1]. cbn [mbind option_bind].
  assert (E2 : (match ev with
      | EndElementEvent n | LeafNodeEvent n => if live n (set_queue (A ++ R ++ T) x1) then Some (MarkAsDead n (set_queue (A ++ R ++ T) x1)) else None
      | _ => Some (set_queue (A ++ R ++ T) x1) end) = Some (kill [(c, ev)] (set_queue (A ++ R ++ T) x1))).
  { destruct ev as [| |n|n|n]; [unfold kill; cbn; f_equal; generalize x1; by intros []..| |];
      (assert (Hl : live n (set_queue (A ++ R ++ T) x1) = true); [rewrite <- (Hlive n eq_refl); unfold x1; by case_match|]; by rewrite Hl). }
  rewrite E2. cbn [mbind option_bind].
  assert (E3 : kill [(c, ev)] (set_queue (A ++ R ++ T) x1) =
    (if at_current [(c, ev)] x then set_current (front T) (removed A [(c, ev)] (R ++ T) x) else removed A [(c, ev)] (R ++ T) x)).
  { unfold removed, x1. destruct (at_current [(c, ev)] x) eqn:Ec; destruct x; cbn; [by rewrite orb_true_r|by rewrite orb_false_r]. }
  by rewrite E3.
Qed.

Lemma removed_cons A c ev s T x :
  removed A s T (set_current (if at_current [(c, ev)] x then front T else current_ x) (removed A [(c, ev)] (s ++ T) x)) =
  removed A ((c, ev) :: s) T x.
Proof.
  destruct x as [ns q fr cur sk ? ? ? ? ? ? ? ?]. unfold removed, at_current, kill. cbn. destruct sk; cbn; [done|].
  destruct cur as [c0|]; cbn; [|done]. destruct (decide (c0 = c)) as [->|Hc0].
  - rewrite !bool_decide_eq_true_2 by by left. done.
  - rewrite (bool_decide_eq_false_2 (c0 ∈ [c])) by by rewrite list_elem_of_singleton. cbn.
    rewrite (bool_decide_ext (c0 ∈ c :: s.*1) (c0 ∈ s.*1)) by (rewrite elem_of_cons; naive_solver). done.
Qed.

Lemma DeleteNode_loop_ok node e eve T l A x :
  queue_ x = A ++ (l ++ [(e, eve)]) ++ T -> NoDup (queue_ x).*1 -> end_of node x = Some (Some e) ->
  NoDup (omap ended (l ++ [(e, eve)]).*2) -> (forall n, n ∈ omap ended (l ++ [(e, eve)]).*2 -> live n x = true) ->
  node ∉ omap ended l.*2 ->
  DeleteNode_loop ((l ++ [(e, eve)]) ++ T) node x = Some (removed A (l ++ [(e, eve)]) T x).
Proof.
  revert x. induction l as [|[c ev] l IH]; intros x HQ HN He Hd Hlive Hnode.
  - cbn [app] in *. rewrite (DeleteNode_step node e A e eve [] T eve []) by (try done; intros n Hn; apply Hlive; cbn; rewrite Hn; by left).
    cbn [app]. rewrite decide_True by done. f_equal. unfold removed. destruct (at_current _ x); done.
  - set (s' := l ++ [(e, eve)]) in *. cbn [app fmap list_fmap omap list_omap snd] in Hd, Hlive, Hnode.
    change (((c, ev) :: l) ++ [(e, eve)]) with ((c, ev) :: s') in *. cbn [app].
    rewrite (DeleteNode_step node e A c ev s' T eve ((c, ev) :: l)); [|done..|intros n Hn; apply Hlive; fold s'; rewrite Hn; by left].
    assert (Hce : c <> e).
    { rewrite HQ, fmap_app in HN. apply NoDup_app_r in HN. cbn in HN. apply NoDup_cons in HN as [HN _]. intros ->. apply HN.
      unfold s'. rewrite !fmap_app. set_solver. }
    rewrite decide_False by congruence. cbn zeta.
    set (x1 := if at_current [(c, ev)] x then _ else _).
    assert (Hx1 : x1 = set_current (if at_current [(c, ev)] x then front T else current_ x) (removed A [(c, ev)] (s' ++ T) x)).
    { unfold x1, removed. destruct (at_current [(c, ev)] x); done. }
    assert (Hn1 : NoDup (omap ended [(c, ev)].*2)) by (cbn; destruct (ended ev); repeat constructor; by apply not_elem_of_nil).
    assert (Hdt : forall n, n ∉ omap ended [(c, ev)].*2 -> data n x1 = data n x).
    { intros n Hn. rewrite Hx1. change (data n (set_current _ _)) with (data n (kill [(c, ev)] x)). by rewrite kill_data, decide_False. }
    assert (Hd1 : NoDup (omap ended s'.*2)) by (destruct (ended ev); [by apply NoDup_cons in Hd as [_ Hd]|done]).
    rewrite IH; [..|destruct (ended ev); [by apply not_elem_of_cons in Hnode as [_ ?]|done]].
    + f_equal. rewrite Hx1. apply removed_cons.
    + by rewrite Hx1.
    + rewrite Hx1. cbn. rewrite HQ in HN. by eapply NoDup_remove_cell.
    + unfold end_of. rewrite Hdt; [done|]. cbn. destruct (ended ev); [|by apply not_elem_of_nil].
      rewrite list_elem_of_singleton. intros ->. apply Hnode. by left.
    + done.
    + intros n Hn. unfold live. rewrite Hdt; [apply Hlive; destruct (ended ev); [by right|done]|]. cbn.
      destruct (ended ev) as [m|]; [|by apply not_elem_of_nil]. rewrite list_elem_of_singleton. intros ->.
      by apply NoDup_cons in Hd as [? _].
Qed.

(** ** Deleting a complete node *)

Lemma NoDup_ended (l : list HtmlEvent) :
  once l -> (forall ev ev' n, ev ∈ l -> ev' ∈ l -> last_event n ev -> last_event n ev' -> ev = ev') -> NoDup (omap ended l).
Proof.
  induction l as [|ev l IH]; intros Ho Hu; [constructor|].
  assert (IH' : NoDup (omap ended l)) by (apply IH; [by apply (once_app_r [ev])|intros; eapply Hu; try done; by right]).
  cbn. destruct (ended ev) as [n|] eqn:E; [|done]. constructor; [|done]. intros (ev' & Hi & Hl)%ended_in.
  apply ended_last in E. rewrite (Hu ev' ev n) in Hi; [|by right|by left|done..].
  destruct (Ho [] ev n l eq_refl (last_GetNode _ _ E)) as [_ Hno]. done.
Qed.

(** Whatever begins in a segment ends there. *)
Lemma segment_balanced par n s m :
  segment par n s -> (exists ev, ev ∈ s /\ first_event m ev) <-> (exists ev, ev ∈ s /\ last_event m ev).
Proof.
  intros [-> | (M & -> & HM & _)].
  { split; intros (ev & ->%list_elem_of_singleton & H); destruct H as [[=] | [= ->]]; exists (LeafNodeEvent m); (split; [by left|by right]). }
  destruct (walk_stack _ _ _ _ _ m HM) as (_ & _ & H1 & H2). rewrite !elem_of_nil in H1, H2.
  split; intros (ev & Hi & Hev); apply elem_of_cons in Hi as [->|[Hi|Hi%list_elem_of_singleton]%elem_of_app]; subst.
  - destruct Hev as [[= ->]|[=]]. exists (EndElementEvent m). split; [set_solver|by left].
  - destruct Hev as [-> | ->]; [|exists (LeafNodeEvent m); split; [set_solver|by right]].
    destruct (H1 Hi) as [|H]; [done|]. exists (EndElementEvent m). split; [set_solver|by left].
  - by destruct Hev.
  - by destruct Hev.
  - destruct Hev as [-> | ->]; [|exists (LeafNodeEvent m); split; [set_solver|by right]].
    destruct (H2 Hi) as [|H]; [done|]. exists (StartElementEvent m). split; [set_solver|by left].
  - destruct Hev as [[= ->]|[=]]. exists (StartElementEvent m). split; [set_solver|by left].
Qed.

Lemma split3 {X} (B R A s T : list X) : B ++ R = A ++ s ++ T ->
  (exists c k, A = B ++ c :: k /\ R = c :: k ++ s ++ T) \/
  (exists k c k', B = A ++ k /\ s = k ++ c :: k' /\ R = c :: k' ++ T) \/ (exists k, B = A ++ s ++ k /\ T = k ++ R).
Proof.
  intros [(k & -> & HR)|(k & -> & HR)]%app_eq_inv.
  - symmetry in HR. apply app_eq_inv in HR as [(k' & -> & ->)|(k' & -> & ->)]; [by right; right; exists k'|].
    destruct k' as [|c k']; [right; right; exists []; by rewrite !app_nil_r|]. right; left. by exists k, c, k'.
  - destruct k as [|c k]; [|left; by exists c, k]. cbn in HR. rewrite app_nil_r. destruct s as [|c s]; cbn in HR.
    + right; right. exists []. by rewrite !app_nil_r.
    + right; left. exists [], c, s. by rewrite app_nil_r.
Qed.

Section delete.
Context (x : HtmlParse) (S0 S1 : list nat) (n : nat) (A s T : Cells).
Hypothesis HC : Core x S0 S1.
Hypothesis Hat : node_at x n A s T.

Let HW := Core_wf _ _ _ HC.
Let HQ := at_queue _ _ _ _ _ Hat.

Lemma in_segment cell : cell ∈ s -> cell ∈ queue_ x.
Proof. intros H. rewrite HQ. set_solver. Qed.

Lemma segment_ended : NoDup (omap ended s.*2).
Proof.
  pose proof (Core_once _ _ _ HC) as Ho. apply NoDup_ended.
  - unfold events in Ho. rewrite HQ, !fmap_app in Ho. by apply once_app_r, once_app_l in Ho.
  - intros ev ev' m ([c ?] & -> & H1)%list_elem_of_fmap ([c' ?] & -> & H2)%list_elem_of_fmap Hl Hl'.
    eapply (last_unique x S0 S1 HC c' _ c); try done; by apply in_segment.
Qed.

(** A node has all its events in the segment or none. *)
Lemma segment_node m : (exists c ev, (c, ev) ∈ s /\ GetNode ev = Some m) <-> m ∈ omap ended s.*2.
Proof.
  rewrite ended_in. split.
  - intros (c & ev & Hi & En). apply (list_elem_of_fmap_2 snd) in Hi. cbn in Hi. destruct ev as [| |k|k|k]; try done; injection En as ->.
    + apply (segment_balanced _ _ _ m (at_segment _ _ _ _ _ Hat)). exists (StartElementEvent m). split; [done|by left].
    + exists (EndElementEvent m). split; [done|by left].
    + exists (LeafNodeEvent m). split; [done|by right].
  - intros (ev & ([c ev'] & -> & Hi)%list_elem_of_fmap & Hl). exists c, ev'. split; [done|by apply last_GetNode].
Qed.

Lemma ended_data m : m ∈ omap ended s.*2 ->
  exists d b e evb eve, data m x = Some d /\ is_live_ d = true /\ begin_ d = Some b /\ end_ d = Some e /\ (b, evb) ∈ s /\ (e, eve) ∈ s.
Proof.
  intros Hm. pose proof Hm as Hm2. apply ended_in in Hm as H1. destruct (proj2 (segment_balanced _ _ _ m (at_segment _ _ _ _ _ Hat)) H1) as (evb & Hb & Hfb).
  destruct H1 as (eve & ([e ?] & -> & He)%list_elem_of_fmap & Hle). apply list_elem_of_fmap in Hb as ([b ?] & -> & Hb). cbn in *.
  pose proof (Core_link _ _ _ HC _ _ (in_segment _ Hb)) as L1. pose proof (Core_link _ _ _ HC _ _ (in_segment _ He)) as L2.
  destruct Hfb as [-> | ->], Hle as [-> | ->]; cbn in L1, L2; naive_solver congruence.
Qed.

(** Where the filter is after it. *)
Lemma removed_place B R :
  queue_ x = B ++ R -> current_ x = front R -> NoDup (queue_ (removed A s T x)).*1 ->
  (forall c, current_ x = Some c -> skip_increment_ x = true -> c ∉ s.*1) ->
  let inside := bool_decide (length A <= length B < length A + length s)%nat in
  at_current s x = negb (skip_increment_ x) && inside /\
  place (removed A s T x) = (if decide (length B < length A)%nat then length B else if inside then length A else (length B - length s)%nat) /\
  (skip_increment_ x = true -> inside = false).
Proof.
  intros HB HcB HNy Hsk inside. assert (HN : NoDup (A ++ s ++ T).*1) by (rewrite <- HQ; apply (Core_queue_nodup _ _ _ HC)).
  assert (Hout : forall c, (c ∈ A.*1 \/ c ∈ T.*1) -> c ∉ s.*1).
  { rewrite !fmap_app in HN. apply NoDup_app in HN as (_ & HA & HN). apply NoDup_app in HN as (_ & HsT & _).
    intros c [Hc|Hc] Hs; [apply (HA c Hc); set_solver|by apply (HsT c)]. }
  assert (HQy : queue_ (removed A s T x) = A ++ T) by done. rewrite HQy in HNy. rewrite HQ in HB.
  destruct (split3 B R A s T (eq_sym HB)) as [([c ev] & k & HA & HR)|[(k & [c ev] & k' & HBk & Hs & HR)|(k & HBk & HT)]].
  - assert (Ei : inside = false) by (unfold inside; rewrite HA, length_app; apply bool_decide_eq_false_2; cbn; lia).
    assert (Ea : at_current s x = false).
    { unfold at_current. rewrite HcB, HR. cbn. rewrite bool_decide_eq_false_2, andb_false_r; [done|]. apply Hout. left. rewrite HA, fmap_app. set_solver. }
    rewrite Ei, Ea, andb_false_r. split; [done|]. split; [|done]. rewrite decide_True by (rewrite HA, length_app; cbn; lia).
    apply (place_eq _ B ((c, ev) :: k ++ T)); [by rewrite HQy|by rewrite HQy, HA, <- app_assoc|].
    unfold removed. rewrite Ea. cbn. by rewrite HcB, HR.
  - assert (Ei : inside = true) by (unfold inside; rewrite HBk, Hs, !length_app; apply bool_decide_eq_true_2; cbn; lia).
    assert (Hcs : c ∈ s.*1) by (rewrite Hs, fmap_app; set_solver).
    assert (Es : skip_increment_ x = false).
    { destruct (skip_increment_ x) eqn:Es; [|done]. destruct (Hsk c); [by rewrite HcB, HR|done..]. }
    assert (Ea : at_current s x = true) by (unfold at_current; rewrite HcB, HR, Es; cbn; by rewrite bool_decide_eq_true_2).
    rewrite Ei, Ea, Es. split; [done|]. split; [|done]. rewrite decide_False by (rewrite HBk, length_app; lia).
    apply (place_eq _ A T); [by rewrite HQy|done|]. unfold removed. by rewrite Ea.
  - assert (Ei : inside = false) by (unfold inside; rewrite HBk, !length_app; apply bool_decide_eq_false_2; lia).
    assert (Ea : at_current s x = false).
    { unfold at_current. rewrite HcB. destruct R as [|[c ev] R]; cbn; [by rewrite andb_false_r|].
      rewrite bool_decide_eq_false_2, andb_false_r; [done|]. apply Hout. right. rewrite HT, fmap_app. set_solver. }
    rewrite Ei, Ea, andb_false_r. split; [done|]. split; [|done]. rewrite decide_False by (rewrite HBk, !length_app; lia).
    rewrite (place_eq _ (A ++ k) R); [|by rewrite HQy|by rewrite HQy, HT, <- app_assoc|unfold removed; by rewrite Ea].
    rewrite HBk, !length_app. lia.
Qed.

Lemma removed_core :
  (forall c, current_ x = Some c -> skip_increment_ x = true -> c ∉ s.*1) ->
  good S0 S1 x (d_remove (length A) (length s) (view x)) (removed A s T x).
Proof.
  intros Hsk. set (y := removed A s T x).
  assert (Hy : forall m, data m y = if decide (m ∈ omap ended s.*2) then (fun d => mkData (content_ d) false None None) <$> data m x else data m x).
  { intros m. change (data m y) with (data m (kill s x)). by apply kill_data, segment_ended. }
  assert (Hk : forall m, kind m y = kind m x) by (intros m; change (kind m y) with (kind m (kill s x)); by apply kill_kind, segment_ended).
  assert (Hp : forall m, parent m y = parent m x) by (intros m; change (parent m y) with (parent m (kill s x)); by apply kill_parent, segment_ended).
  assert (Hpar : forall m, par y m = par x m) by (intros m; unfold par; by rewrite Hp).
  assert (HN : NoDup (A ++ s ++ T).*1) by (rewrite <- HQ; apply (Core_queue_nodup _ _ _ HC)).
  assert (Hin : forall c, c ∈ (queue_ x).*1 -> c ∉ s.*1 -> c ∈ (A ++ T).*1) by (intros c; rewrite HQ, !fmap_app; set_solver).
  assert (HWy : Wf y).
  { apply (Wf_remove x y s); [done| |done|done| |].
    - unfold cells, deferred_cells. cbn. rewrite HQ, <- !app_assoc. by rewrite (Permutation_app_swap_app A s).
    - intros m. split; [done|]. rewrite Hy. case_decide as Hm.
      + right. destruct (ended_data m Hm) as (d & b & e & evb & eve & E & El & Eb & Ee & Hb & He). split; [|split; [|split]].
        * intros d'. rewrite Hy, decide_True by done. rewrite E. by intros [= <-].
        * intros c ev Hi En. assert (Hix : (c, ev) ∈ cells x).
          { unfold cells, deferred_cells in *. cbn in Hi. rewrite HQ. set_solver. }
          assert (Hc : c = b \/ c = e).
          { pose proof (Wf_link x HW c ev Hix) as Hl. destruct ev as [| |k|k|k]; try done; injection En as ->; cbn in Hl; naive_solver congruence. }
          assert (Hcs : c ∈ s.*1).
          { destruct Hc as [-> | ->]; [by apply (list_elem_of_fmap_2 fst) in Hb|by apply (list_elem_of_fmap_2 fst) in He]. }
          pose proof (Wf_nodup x HW) as Hnd. unfold cells in Hnd. rewrite HQ, fmap_app in Hnd. apply NoDup_app in Hnd as (_ & Hnd & _).
          unfold cells in Hi. apply elem_of_app in Hi as [Hi|Hi].
          -- cbn in Hi. clear Hnd. rewrite !fmap_app in HN. apply (list_elem_of_fmap_2 fst) in Hi. cbn in Hi.
             apply NoDup_app in HN as (_ & HA & HN). apply NoDup_app in HN as (_ & HsT & _). rewrite fmap_app in Hi.
             apply elem_of_app in Hi as [Hi|Hi]; [apply (HA c Hi); set_solver|by apply (HsT c)].
          -- apply (Hnd c); [set_solver|]. by apply (list_elem_of_fmap_2 fst) in Hi.
        * intros Hd. destruct (Wf_delayed x HW _ Hd) as (k & d0 & c0 & [= <-] & _ & E0 & Eb0 & Hni & _). assert (c0 = b) as -> by congruence.
          apply Hni. unfold cells. rewrite fmap_app. apply elem_of_app. left. apply (list_elem_of_fmap_2 fst) in Hb. rewrite HQ, !fmap_app. set_solver.
        * intros d'. rewrite E. intros [= <-]. by exists d.
      + left. split; [done|]. intros c ev Hi En. apply Hm. apply segment_node. by exists c, ev.
    - intros c. unfold y, removed. cbn. unfold at_current. destruct (current_ x) as [c0|] eqn:Ec; [|by rewrite andb_false_r].
      destruct (skip_increment_ x) eqn:Es; cbn.
      + intros [= <-]. apply Hin; [by apply (Wf_current x HW)|by apply Hsk].
      + case_bool_decide as Hc; [intros Hfr; by apply (front_in A T)|]. intros [= <-]. apply Hin; [by apply (Wf_current x HW)|done]. }
  assert (Hne : forall m, m ∈ lexer_stack_ x -> m ∉ omap ended s.*2).
  { intros m Hm Hi. destruct (ended_data m Hi) as (d & b & e & evb & eve & E & _ & _ & Ee & _). destruct (Core_open _ _ _ HC m Hm) as (d' & E' & _ & Ee'). congruence. }
  assert (He : edited x y).
  { apply edited_nodes; try done; [intros m k; by rewrite Hk|]. intros m Hm. rewrite Hy, decide_False; [done|]. by apply Hne. }
  split; [|split; [done|]].
  - split; [done| |apply HC| | | |by apply (open_edited x), HC].
    + rewrite <- (walk_remove (par x) None S0 A.*2 n s.*2 T.*2 S1); [| |apply Hat].
      * unfold events. cbn. rewrite fmap_app. apply walk_ext. intros; apply Hpar.
      * pose proof (Core_walk _ _ _ HC) as Hw. unfold events in Hw. by rewrite HQ, !fmap_app in Hw.
    + eapply chained_ext; [|apply HC]. intros; apply Hpar.
    + intros m Hm Hi. apply (Core_out _ _ _ HC m Hm). unfold events in *. cbn in Hi. rewrite HQ. rewrite !fmap_app in *. set_solver.
    + intros m Hm. by apply (Core_top _ _ _ HC).
  - destruct (current_split x HW) as (B & R & HB & HcB & Hpl). unfold view, d_remove. cbn [doc here gone]. rewrite Hpl.
    assert (Hdoc : events y = take (length A) (events x) ++ drop (length A + length s) (events x)).
    { unfold events. cbn. rewrite HQ. destruct (take_drop_fmap snd A (s ++ T)) as [-> _]. rewrite fmap_app. f_equal.
      rewrite app_assoc, <- length_app. by destruct (take_drop_fmap snd (A ++ s) T) as [_ ->]. }
    assert (HNy : NoDup (queue_ y).*1) by by apply Wf_queue_nodup. rewrite Hdoc. clear Hdoc.
    destruct (removed_place B R HB HcB HNy Hsk) as (H1 & H2 & H3). unfold y. rewrite H2. f_equal. cbn. rewrite H1.
    destruct (skip_increment_ x); [by rewrite H3|done].
Qed.
End delete.

Lemma good_touched S0 S1 x d y : good S0 S1 x d y -> good S0 S1 x d (touched y).
Proof. intros (H1 & H2 & <-). split; [by apply Core_touched|]. split; [eapply edited_trans; [done|apply edited_touched]|done]. Qed.

(** The filter is not where a node has been taken away from, if that is in the node too. *)
Definition clear_of (n : nat) (x : HtmlParse) : bool :=
  match first_at n (view x), last_at n (view x) with
  | Some i, Some j => negb (gone (view x) && bool_decide (i <= here (view x) <= j)%nat)
  | _, _ => true
  end.

Lemma node_at_span x S0 S1 n A s T :
  Core x S0 S1 -> node_at x n A s T ->
  first_at n (view x) = Some (length A) /\ last_at n (view x) = Some (length A + length s - 1)%nat /\ (0 < length s)%nat.
Proof.
  intros HC Hat. pose proof (at_queue _ _ _ _ _ Hat) as HQ.
  destruct (at_first _ _ _ _ _ Hat) as (c & ev & r & Hs & Hf & _), (at_last _ _ _ _ _ Hat) as (r' & c' & ev' & Hs' & Hl & _).
  split; [|split].
  - eapply (first_at_app x S0 S1 HC A c ev (r ++ T)); [by rewrite HQ, Hs|done].
  - rewrite (last_at_app x S0 S1 HC (A ++ r') c' ev' T); [|by rewrite HQ, Hs', <- !app_assoc|done]. f_equal. rewrite Hs', !length_app. cbn. lia.
  - rewrite Hs. cbn. lia.
Qed.

Lemma current_inside x S0 S1 n A s T c :
  Core x S0 S1 -> node_at x n A s T -> current_ x = Some c -> c ∈ s.*1 -> (length A <= place x < length A + length s)%nat.
Proof.
  intros HC Hat Hc Hi. pose proof (at_queue _ _ _ _ _ Hat) as HQ. pose proof (Core_queue_nodup _ _ _ HC) as HN. rewrite HQ, !fmap_app in HN.
  destruct (current_split x (Core_wf _ _ _ HC)) as (B & R & HB & HcB & ->). rewrite HQ in HB. rewrite HcB in Hc.
  apply NoDup_app in HN as (_ & HA & HN). apply NoDup_app in HN as (_ & HT & _).
  destruct (split3 B R A s T (eq_sym HB)) as [(cell & k & HAk & HR)|[(k & cell & k' & HBk & Hs & HR)|(k & HBk & HTk)]].
  - exfalso. subst R. cbn in Hc. injection Hc as Hc. apply (HA c); [rewrite HAk, fmap_app; cbn; rewrite Hc; set_solver|set_solver].
  - rewrite HBk, Hs, !length_app. cbn. lia.
  - exfalso. apply (HT c Hi). rewrite HTk. by apply front_in.
Qed.

Lemma clear_of_cells x S0 S1 n A s T :
  Core x S0 S1 -> node_at x n A s T -> clear_of n x = true -> forall c, current_ x = Some c -> skip_increment_ x = true -> c ∉ s.*1.
Proof.
  intros HC Hat Hcl c Hc Hs Hi. destruct (node_at_span x S0 S1 n A s T HC Hat) as (H1 & H2 & H3). unfold clear_of in Hcl.
  rewrite H1, H2 in Hcl. cbn [gone here view] in Hcl. rewrite Hs in Hcl. cbn in Hcl. apply negb_true_iff, bool_decide_eq_false in Hcl. apply Hcl.
  pose proof (current_inside x S0 S1 n A s T c HC Hat Hc Hi). lia.
Qed.

Lemma DeleteNode_at x S0 S1 n A s T :
  Core x S0 S1 -> IsRewritable n x = true -> node_at x n A s T -> (forall c, current_ x = Some c -> skip_increment_ x = true -> c ∉ s.*1) ->
  DeleteNode n x = Some (touched (removed A s T x), true).
Proof.
  intros HC Hr Hat Hsk. unfold DeleteNode. rewrite Hr. pose proof (at_queue _ _ _ _ _ Hat) as HQ. pose proof (Core_queue_nodup _ _ _ HC) as HN.
  destruct (at_first _ _ _ _ _ Hat) as (b & evb & r & Hs & Hf & Eb), (at_last _ _ _ _ _ Hat) as (l & e & eve & Hs' & Hl & Ee).
  pose proof (segment_ended x S0 S1 n A s T HC Hat) as Hnd. rewrite Eb. cbn [mbind option_bind].
  assert (Hsp : split_iter (Some b) (queue_ x) = Some (A, s ++ T)).
  { rewrite HQ in HN. rewrite HQ, Hs in *. by apply (split_iter_app A (((b, evb) :: r) ++ T)). }
  rewrite Hsp. cbn [mbind option_bind]. rewrite Hs' at 1. rewrite (DeleteNode_loop_ok n e eve T l A x).
  - rewrite <- Hs'. cbn [mbind option_bind]. assert (Hlv : live n (removed A s T x) = false); [|by rewrite Hlv].
    change (live n (removed A s T x)) with (live n (kill s x)). unfold live. rewrite kill_data by done.
    rewrite decide_True; [by destruct (data n x)|]. apply ended_in. exists eve. split; [|done]. rewrite Hs', fmap_app. set_solver.
  - by rewrite <- Hs'.
  - done.
  - done.
  - by rewrite <- Hs'.
  - intros m Hm. rewrite <- Hs' in Hm. destruct (ended_data x S0 S1 n A s T HC Hat m Hm) as (d & _ & _ & _ & _ & E & El & _). unfold live. by rewrite E.
  - rewrite Hs', fmap_app, omap_app in Hnd. apply NoDup_app in Hnd as (_ & Hnd & _). intros Hi. apply (Hnd n Hi). cbn.
    apply ended_last in Hl. rewrite Hl. by left.
Qed.

Lemma IsRewritable_and n x : IsRewritable n x = true <-> IsRewritableIgnoringDeferral n x = true /\ IsDeferred n x = false.
Proof. unfold IsRewritable. rewrite andb_true_iff, negb_true_iff. done. Qed.

Lemma DeleteNode_good x S0 S1 n :
  Core x S0 S1 -> IsRewritable n x = true -> in_window n x = true -> clear_of n x = true ->
  exists x' i j, DeleteNode n x = Some (x', true) /\ first_at n (view x) = Some i /\ last_at n (view x) = Some j /\
    good S0 S1 x (d_remove i (S j - i) (view x)) x'.
Proof.
  intros HC Hr Hw Hcl. apply IsRewritable_and in Hr as Hr'. destruct (complete_node x S0 S1 n HC) as (A & s & T & Hat); [by apply Hr'|done|].
  pose proof (clear_of_cells x S0 S1 n A s T HC Hat Hcl) as Hsk. destruct (node_at_span x S0 S1 n A s T HC Hat) as (H1 & H2 & H3).
  eexists _, _, _. split; [by eapply DeleteNode_at|]. split; [done|]. split; [done|]. apply good_touched.
  replace (S (length A + length s - 1) - length A)%nat with (length s) by lia. by apply (removed_core x S0 S1 n).
Qed.

(** ** Replacing a node *)

(** A node is where it was when the cells around it and the other nodes have changed. *)
Lemma node_at_other x x' m A s T A' T' :
  Wf x -> node_at x m A s T -> queue_ x' = A' ++ s ++ T' ->
  (forall k, (exists c ev, (c, ev) ∈ s /\ GetNode ev = Some k) -> data k x' = data k x) ->
  (forall k, k <> m -> (exists c ev, (c, ev) ∈ s /\ GetNode ev = Some k) -> par x' k = par x k) -> node_at x' m A' s T'.
Proof.
  intros HW [HQ Hfst Hlst Hseg] HQ' Hd Hp.
  assert (Hm : data m x' = data m x).
  { apply Hd. destruct Hfst as (c & ev & r & -> & Hf & _). exists c, ev. split; [by left|by apply first_GetNode]. }
  split; [done|..].
  - destruct Hfst as (c & ev & r & Hs & Hf & Eb). exists c, ev, r. split; [done|]. split; [done|]. unfold begin in *. by rewrite Hm.
  - destruct Hlst as (r & c & ev & Hs & Hf & Ee). exists r, c, ev. split; [done|]. split; [done|]. unfold end_of in *. by rewrite Hm.
  - eapply segment_ext; [|done]. intros ev k ([c ev'] & -> & Hi)%list_elem_of_fmap Ek Hne. symmetry. apply Hp; [done|]. by exists c, ev'.
Qed.

Lemma ReplaceNode_good x S0 S1 m n :
  Core x S0 S1 -> fresh n x = true -> IsRewritable m x = true -> in_window m x = true -> clear_of m x = true ->
  exists x' i j, ReplaceNode m n x = Some (x', true) /\ first_at m (view x) = Some i /\ last_at m (view x) = Some j /\
    good S0 S1 x (let new := new_events n x in d_remove (i + length new) (S j - i) (d_insert i new (view x))) x'.
Proof.
  intros HC Hf Hr Hw Hcl. pose proof (Core_wf _ _ _ HC) as HW. apply IsRewritable_and in Hr as [Hr1 Hr2].
  destruct (complete_node x S0 S1 m HC Hr1 Hw) as (A & s & T & Hat).
  pose proof (clear_of_cells x S0 S1 m A s T HC Hat Hcl) as Hsk. destruct (node_at_span x S0 S1 m A s T HC Hat) as (H1 & H2 & H3).
  pose proof (at_queue _ _ _ _ _ Hat) as HQ. destruct (at_first _ _ _ _ _ Hat) as (b & evb & r & Hs & Hfst & Eb).
  destruct (fresh_unlisted n x Hf HW) as (HnK & Hnd & Hu).
  assert (Hwalk : exists S, walk (par x) None S0 A.*2 = Some S /\ par x m = top None S).
  { pose proof (Core_walk _ _ _ HC) as Hwk. unfold events in Hwk. rewrite HQ, !fmap_app in Hwk.
    apply (walk_segment_parent _ _ _ _ m) in Hwk as (S & HA & Hp & _); [|apply Hat]. by exists S. }
  destruct Hwalk as (S & HA & Hp).
  destruct (insert_at x S0 S1 n HC Hf A (s ++ T) S (par x m) HQ HA Hp) as (y & s' & Ey & Haty & Hs' & Hcy & Hoth & Hg).
  assert (Hns : forall k, (exists c ev, (c, ev) ∈ s /\ GetNode ev = Some k) -> k <> n).
  { intros k (c & ev & Hi & Ek) ->. apply (Hu c ev); [|done]. apply queue_cells. rewrite HQ. set_solver. }
  assert (Hm : m <> n) by (apply Hns; exists b, evb; split; [rewrite Hs; by left|by apply first_GetNode]).
  pose proof (at_queue _ _ _ _ _ Haty) as HQy. rewrite app_assoc in HQy.
  assert (Hat' : node_at y m (A ++ s') s T).
  { eapply (node_at_other x); [done..| |]; [intros k Hk|intros k _ Hk]; by apply Hoth, Hns. }
  assert (Eg : skip_increment_ y = skip_increment_ x) by (destruct Hg as (_ & _ & Hv); by apply (f_equal gone) in Hv).
  assert (Hr' : IsRewritable m y = true).
  { apply IsRewritable_and. unfold IsRewritableIgnoringDeferral, IsDeferred in *. destruct (Hoth m Hm) as (-> & _ & _).
    by rewrite (edited_deferred _ _ (proj1 (proj2 Hg))). }
  assert (Hsk' : forall c, current_ y = Some c -> skip_increment_ y = true -> c ∉ s.*1) by (intros c; rewrite Hcy, Eg; apply Hsk).
  pose proof (removed_core y S0 S1 m (A ++ s') s T (proj1 Hg) Hat' Hsk') as Hg'.
  eexists _, _, _. unfold ReplaceNode. rewrite (proj2 (IsRewritable_and m x) (conj Hr1 Hr2)). unfold InsertNodeBeforeNode.
  rewrite Eb, (begin_parent _ _ _ Eb). cbn [mbind option_bind]. replace (Some b) with (front (s ++ T)) by by rewrite Hs. rewrite Ey. cbn [mbind option_bind].
  rewrite (DeleteNode_at y S0 S1 m (A ++ s') s T) by (try done; apply Hg). cbn [mbind option_bind]. split; [done|]. split; [done|]. split; [done|].
  apply good_touched. eapply good_trans; [exact Hg|]. replace (Datatypes.S (length A + length s - 1) - length A)%nat with (length s) by lia.
  cbn zeta. destruct Hg as (_ & _ & Hv). rewrite <- Hv, <- Hs', length_fmap, <- length_app. done.
Qed.
