(* ===== verification/HtmlParseUnwrap.v ===== *)
(** * The HTML parser: giving children another parent, and unwrapping an element

    [FixParents] gives the children of an element another parent; [DeleteSavingChildren]
    splices them out of the element and deletes what is left. *)

From S2P Require Import Prelude StringUtil HtmlKeywords HtmlLexer HtmlParse HtmlParseWalk HtmlParseInv HtmlParseDoc HtmlParseEdit HtmlParseDelete.

(** ** Balanced events *)

Lemma node_event ev m : GetNode ev = Some m -> first_event m ev \/ last_event m ev.
Proof. destruct ev; try done; intros [= ->]; [left; by left|right; by left|left; by right]. Qed.

Lemma balanced_ends par bot (M : list HtmlEvent) m :
  walk par bot [] M = Some [] -> (exists ev, ev ∈ M /\ first_event m ev) <-> (exists ev, ev ∈ M /\ last_event m ev).
Proof.
  intros HM. destruct (walk_stack _ _ _ _ _ m HM) as (_ & _ & H1 & H2). rewrite !elem_of_nil in H1, H2.
  split; intros (ev & Hi & [-> | ->]); try (exists (LeafNodeEvent m); split; [done|by right]).
  - exists (EndElementEvent m). split; [by destruct (H1 Hi)|by left].
  - exists (StartElementEvent m). split; [by destruct (H2 Hi)|by left].
Qed.

Section balanced.
Context (x : HtmlParse) (S0 S1 : list nat) (A M T : Cells) (bot : option nat).
Hypothesis HC : Core x S0 S1.
Hypothesis HQ : queue_ x = A ++ M ++ T.
Hypothesis HM : walk (par x) bot [] M.*2 = Some [].

Lemma balanced_data m : m ∈ omap GetNode M.*2 ->
  exists d b e evb eve, data m x = Some d /\ is_live_ d = true /\ begin_ d = Some b /\ end_ d = Some e /\
    (b, evb) ∈ M /\ (e, eve) ∈ M /\ first_event m evb /\ last_event m eve.
Proof.
  intros (ev & Hi & En)%list_elem_of_omap.
  assert (H : (exists ev, ev ∈ M.*2 /\ first_event m ev) /\ (exists ev, ev ∈ M.*2 /\ last_event m ev)).
  { destruct (node_event ev m En) as [H|H]; (assert (H' := balanced_ends _ _ _ m HM)); [split; [|apply H']|split; [apply H'|]]; by exists ev. }
  destruct H as [(evb & Hb & Hfb) (eve & He & Hle)]. apply list_elem_of_fmap in Hb as ([b ?] & -> & Hb), He as ([e ?] & -> & He). cbn in *.
  assert (Hq : forall cell, cell ∈ M -> cell ∈ queue_ x) by (intros cell Hc; rewrite HQ; set_solver).
  pose proof (Core_link _ _ _ HC _ _ (Hq _ Hb)) as L1. pose proof (Core_link _ _ _ HC _ _ (Hq _ He)) as L2.
  destruct Hfb as [-> | ->], Hle as [-> | ->]; cbn in L1, L2.
  - destruct L1 as [_ (d & E & El & Eb)], L2 as [_ (d' & E' & _ & Ee)]. exists d, b, e, (StartElementEvent m), (EndElementEvent m).
    do 3 (split; [done|]). split; [congruence|]. do 2 (split; [done|]). split; by left.
  - destruct L1 as [Hk _], L2 as [[k Hk'] _]. congruence.
  - destruct L1 as [[k Hk'] _], L2 as [Hk _]. congruence.
  - destruct L1 as [_ (d & E & El & Eb & Ee)], L2 as [_ (d' & E' & _ & Eb' & Ee')]. assert (e = b) as -> by congruence.
    exists d, b, b, (LeafNodeEvent m), (LeafNodeEvent m). do 6 (split; [done|]). split; by right.
Qed.

(** All the cells of a node are in the part. *)
Lemma balanced_cells m c ev : m ∈ omap GetNode M.*2 -> (c, ev) ∈ cells x -> GetNode ev = Some m -> c ∈ M.*1.
Proof.
  intros (d & b & e & evb & eve & E & El & Eb & Ee & Hb & He & _)%balanced_data Hi En.
  assert (Hc : c = b \/ c = e).
  { pose proof (Wf_link x (Core_wf _ _ _ HC) c ev Hi) as Hl. destruct ev as [| |k|k|k]; try done; injection En as ->; cbn in Hl; naive_solver congruence. }
  destruct Hc as [-> | ->]; [by apply (list_elem_of_fmap_2 fst) in Hb|by apply (list_elem_of_fmap_2 fst) in He].
Qed.

Lemma balanced_other m : m ∈ omap GetNode M.*2 ->
  (m ∉ S0) /\ (m ∉ lexer_stack_ x) /\ ~ deferred_node x m /\ unlisted m A /\ unlisted m T.
Proof.
  intros Hm. pose proof Hm as (d & b & e & evb & eve & E & El & Eb & Ee & Hb & He & Hfb & Hle)%balanced_data.
  pose proof (Wf_nodup x (Core_wf _ _ _ HC)) as HN. unfold cells in HN. rewrite HQ, !fmap_app in HN.
  apply NoDup_app in HN as (HN & HD & _). apply NoDup_app in HN as (_ & HA & HN). apply NoDup_app in HN as (_ & HT & _).
  assert (Hst : m ∉ lexer_stack_ x).
  { intros Hi. destruct (Core_open _ _ _ HC m Hi) as (d' & E' & _ & Ee'). congruence. }
  assert (HuA : unlisted m A).
  { intros c ev Hi En. assert (Hc : c ∈ M.*1) by (eapply (balanced_cells m c ev); [done| |done]; apply queue_cells; rewrite HQ; set_solver).
    apply (list_elem_of_fmap_2 fst) in Hi. apply (HA c Hi). set_solver. }
  assert (HuT : unlisted m T).
  { intros c ev Hi En. assert (Hc : c ∈ M.*1) by (eapply (balanced_cells m c ev); [done| |done]; apply queue_cells; rewrite HQ; set_solver).
    apply (list_elem_of_fmap_2 fst) in Hi. by apply (HT c Hc). }
  split; [|split; [done|split; [|done]]].
  - intros Hi. destruct (Core_base _ _ _ m HC Hi) as [|[c Hc]]; [done|].
    apply (Core_out _ _ _ HC m Hi). apply list_elem_of_fmap. exists (b, StartElementEvent m). split; [done|].
    destruct Hfb as [-> | ->]; [rewrite HQ; set_solver|]. exfalso. apply (Core_link _ _ _ HC) in Hc as [Hk _].
    assert (Hb' : (b, LeafNodeEvent m) ∈ queue_ x) by (rewrite HQ; set_solver). apply (Core_link _ _ _ HC) in Hb' as [[k Hk'] _]. congruence.
  - intros (c & ev & Hi & En). assert (Hc : c ∈ M.*1).
    { eapply (balanced_cells m c ev); [done| |done]. apply elem_of_app. by right. }
    apply (HD c); [set_solver|]. by apply (list_elem_of_fmap_2 fst) in Hi.
Qed.
End balanced.

(** ** [FixParents] *)

Lemma FixParents_fold op np (M : Cells) x :
  (forall m, m ∈ omap GetNode M.*2 -> is_Some (nodes_ x !! m)) ->
  exists ns, foldl (FixParent op np) x M = set_nodes ns x /\
    forall m, data m (set_nodes ns x) = data m x /\ kind m (set_nodes ns x) = kind m x /\
      par (set_nodes ns x) m = if decide (m ∈ omap GetNode M.*2 /\ par x m = op) then np else par x m.
Proof.
  revert x. induction M as [|[c ev] M IH]; intros x Hn.
  { exists (nodes_ x). split; [by destruct x|]. intros m. rewrite decide_False by by intros [?%elem_of_nil _]. by destruct x. }
  cbn [foldl]. set (y := FixParent op np x (c, ev)).
  assert (Hy : exists ns, y = set_nodes ns x /\ forall m, data m y = data m x /\ kind m y = kind m x /\ (is_Some (nodes_ x !! m) -> is_Some (nodes_ y !! m)) /\
    par y m = if decide (GetNode ev = Some m /\ par x m = op) then np else par x m).
  { unfold y, FixParent. cbn [snd]. destruct (GetNode ev) as [k|] eqn:Ek.
    2:{ exists (nodes_ x). split; [by destruct x|]. intros m. rewrite decide_False by by intros []. done. }
    destruct (Hn k) as [nd End]; [cbn; rewrite Ek; by left|]. assert (Epk : parent k x = Some (par x k)) by (unfold par, parent; by rewrite End).
    rewrite Epk. destruct (decide (par x k = op)) as [Ho|Ho].
    - rewrite decide_True by congruence. eexists. split; [done|]. intros m. rewrite data_set_parent, kind_set_parent, par_set_parent by done.
      split; [done|]. split; [done|]. split.
      { intros [nd' E']. cbn. destruct (decide (m = k)) as [->|]; [rewrite list_lookup_alter_eq, E'; by eexists|rewrite list_lookup_alter_ne by done; by eexists]. }
      destruct (decide (m = k)) as [->|Hm]; [by rewrite decide_True|]. rewrite decide_False; [done|]. intros [[= ->] _]. done.
    - rewrite decide_False by congruence. exists (nodes_ x). split; [by destruct x|]. intros m. do 3 (split; [done|]).
      rewrite decide_False; [done|]. intros [[= ->] ?]. done. }
  destruct Hy as (ns0 & Hy & Hm0). destruct (IH y) as (ns & Hf & Hm).
  { intros m Hm. apply Hm0, Hn. cbn. destruct (GetNode ev); [by right|done]. }
  exists ns. rewrite Hf, Hy. split; [done|]. intros m. destruct (Hm m) as (H1 & H2 & H3), (Hm0 m) as (H4 & H5 & _ & H6).
  rewrite Hy in H1, H2, H3. cbn in *. change (set_nodes ns (set_nodes ns0 x)) with (set_nodes ns x) in *.
  rewrite H1, H2, H3. rewrite <- Hy, H4, H5, H6. split; [done|]. split; [done|].
  cbn [fmap list_fmap omap list_omap snd]. destruct (GetNode ev) as [k|].
  - destruct (decide (par x m = op)) as [Ho|Ho]; [destruct (decide (m = k)) as [->|Hk]|].
    + rewrite (decide_True (P := Some k = Some k /\ _)) by done.
      rewrite (decide_True (P := k ∈ k :: _ /\ _)) by (split; [by left|done]). match goal with |- context [decide ?P] => by destruct (decide P) end.
    + rewrite (decide_False (P := Some k = Some m /\ _)) by (intros [[= ->] _]; done).
      apply decide_ext. rewrite elem_of_cons. split; [intros []; split; [by right|done]|intros [[?|?] ?]; [done|by split]].
    + rewrite (decide_False (P := Some k = Some m /\ _)) by (intros [_ ?]; done).
      by rewrite !decide_False by (intros [_ ?]; done).
  - by rewrite (decide_False (P := None = Some m /\ _)) by (intros [? _]; done).
Qed.

(** The loop of [FixParents] over the nodes of a part of the window. *)
Lemma FixParents_ok x A M T b ev r e l ev' f np :
  NoDup (queue_ x).*1 -> queue_ x = A ++ M ++ T -> M = (b, ev) :: r -> M = l ++ [(e, ev')] -> GetNode ev = Some f -> is_Some (nodes_ x !! f) ->
  FixParents (Some b) (Some e) np x = Some (foldl (FixParent (par x f) np) x M).
Proof.
  intros HN HQ H1 H2 Ef [nd End]. unfold FixParents.
  assert (Hd : deref (Some b) (queue_ x) = Some ev).
  { rewrite HQ, H1 in *. by apply (deref_app A b ev (r ++ T)). }
  assert (Hn : next (Some e) (queue_ x) = Some (front T)).
  { replace (queue_ x) with ((A ++ l) ++ (e, ev') :: T) in *; [by apply next_app|]. by rewrite HQ, H2, <- !app_assoc. }
  assert (Hr : range (Some b) (front T) (queue_ x) = Some (A, M, T)).
  { replace (Some b) with (front (M ++ T)) by by rewrite H1. rewrite HQ in *. by apply range_app. }
  rewrite Hd. cbn [mbind option_bind]. rewrite Ef. cbn [mbind option_bind].
  assert (Ep : parent f x = Some (par x f)) by (unfold par, parent; by rewrite End).
  rewrite Ep. cbn [mbind option_bind]. rewrite Hn. cbn [mbind option_bind]. by rewrite Hr.
Qed.

Section relabel.
Context (x : HtmlParse) (S0 S1 S : list nat) (A M T : Cells) (np : option nat) (par' : nat -> option nat).
Hypothesis HC : Core x S0 S1.
Hypothesis HQ : queue_ x = A ++ M ++ T.
Hypothesis HA : walk (par x) None S0 A.*2 = Some S.
Hypothesis HM : walk (par x) (top None S) [] M.*2 = Some [].
Hypothesis HD : forall ev, ev ∈ M.*2 -> GetNode ev <> None.
Hypothesis Hpar : forall m, par' m = if decide (m ∈ omap GetNode M.*2 /\ par x m = top None S) then np else par x m.

Lemma relabel_in : walk par' np [] M.*2 = Some [].
Proof.
  apply (walk_relabel (par x) par' (top None S) np); [done| | |done].
  - intros p Hp. split; [apply not_elem_of_nil|]. intros Hi.
    assert (Hm : p ∈ omap GetNode M.*2) by (apply list_elem_of_omap; by exists (StartElementEvent p)).
    destruct (balanced_other x S0 S1 A M T _ HC HQ HM p Hm) as (Hn0 & _ & _ & HuA & _).
    assert (HpS : p ∈ S) by (destruct S as [|q S']; [done|]; injection Hp as ->; by left).
    destruct (walk_stack _ _ _ _ _ p HA) as (H1 & _). destruct (H1 HpS) as [|Hs]; [done|].
    apply list_elem_of_fmap in Hs as ([c ev] & Hev & Hs). cbn in Hev. subst ev. by apply (HuA c _ Hs).
  - intros ev n Hi En. rewrite Hpar. apply decide_ext. split; [by intros []|]. intros Hp. split; [|done]. apply list_elem_of_omap. by exists ev.
Qed.

Lemma relabel_out bot U l : l = A \/ l = T -> walk par' bot U l.*2 = walk (par x) bot U l.*2.
Proof.
  intros Hl. apply walk_ext. intros ev n ([c ?] & -> & Hi)%list_elem_of_fmap En. rewrite Hpar, decide_False; [done|].
  intros [Hm _]. destruct (balanced_other x S0 S1 A M T _ HC HQ HM n Hm) as (_ & _ & _ & HuA & HuT).
  destruct Hl as [-> | ->]; [by apply (HuA c _ Hi)|by apply (HuT c _ Hi)].
Qed.

Lemma relabel_other m : m ∈ S0 \/ m ∈ lexer_stack_ x \/ deferred_node x m -> par' m = par x m.
Proof.
  intros Hm. rewrite Hpar, decide_False; [done|]. intros [Hi _].
  destruct (balanced_other x S0 S1 A M T _ HC HQ HM m Hi) as (H1 & H2 & H3 & _). tauto.
Qed.

Lemma relabel_unlisted m c ev l : (c, ev) ∈ l -> l = A \/ l = T -> GetNode ev = Some m -> par' m = par x m.
Proof.
  intros Hi Hl En. rewrite Hpar, decide_False; [done|].
  intros [Hm _]. destruct (balanced_other x S0 S1 A M T _ HC HQ HM m Hm) as (_ & _ & _ & HuA & HuT).
  destruct Hl as [-> | ->]; [by apply (HuA c _ Hi)|by apply (HuT c _ Hi)].
Qed.

(** What is balanced fits in any place with the right parent. *)
Lemma relabel_walk U : np = top None U -> walk par' None U M.*2 = Some U.
Proof. intros Hn. exact (walk_weaken par' np None [] U M.*2 [] (eq_sym Hn) relabel_in). Qed.
End relabel.

(** ** The cells in another order *)

Lemma Core_permuted x z S0 S1 :
  Core x S0 S1 -> queue_ x ≡ₚ queue_ z -> deferred_nodes_ z = deferred_nodes_ x -> fresh_ z = fresh_ x ->
  delayed_start_literal_ z = delayed_start_literal_ x -> lexer_stack_ z = lexer_stack_ x ->
  (forall n, kind n z = kind n x /\ data n z = data n x) -> (forall n, n ∈ S0 -> par z n = par x n) ->
  (forall c, current_ z = Some c -> c ∈ (queue_ z).*1) -> walk (par z) None S0 (events z) = Some S1 -> Core z S0 S1.
Proof.
  intros [HW Hwk Hnd Hch Ho Htp Hop] HP Hd Hf Hdl Hst Hn Hpar Hc Hw. split; [|done|done| | | |].
  - apply (Wf_perm x); [done| |by rewrite Hf|done..]. unfold cells, deferred_cells. by rewrite HP, Hd.
  - by eapply chained_ext.
  - intros n Hi Hs. apply (Ho n Hi). unfold events in *. by rewrite HP.
  - intros n. rewrite Hst. apply Htp.
  - intros n. rewrite Hst, (proj2 (Hn n)). apply Hop.
Qed.

Lemma place_lookup x c i : NoDup (queue_ x).*1 -> current_ x = Some c -> (queue_ x).*1 !! i = Some c -> place x = i.
Proof.
  intros HN Hc Hi. rewrite list_lookup_fmap in Hi. destruct (queue_ x !! i) as [[c' ev]|] eqn:E; [|done]. injection Hi as ->.
  apply list_elem_of_split_length in E as (A & R & HQ & ->). apply (place_eq x A ((c, ev) :: R)); done.
Qed.
Lemma lookup_place x c : Wf x -> current_ x = Some c -> (queue_ x).*1 !! place x = Some c.
Proof.
  intros HW Hc. destruct (current_split x HW) as (A & R & HQ & HcR & ->). rewrite HQ, fmap_app, lookup_app_r by by rewrite length_fmap.
  rewrite length_fmap, Nat.sub_diag. destruct R as [|[c' ev] R]; cbn in *; congruence.
Qed.
Lemma place_end x : current_ x = None -> place x = length (queue_ x).
Proof. intros Hc. unfold place. by rewrite Hc. Qed.

Lemma Doc_eq d d' : doc d = doc d' -> here d = here d' -> gone d = gone d' -> d = d'.
Proof. destruct d, d'. cbn. congruence. Qed.

(** ** Unwrapping an element *)

Lemma walk_no_doc par p U (M : list HtmlEvent) V ev : walk par (Some p) U M = Some V -> ev ∈ M -> GetNode ev <> None.
Proof.
  revert U. induction M as [|ev' M IH]; intros U; cbn; [by intros _ ?%elem_of_nil|]. intros H Hi.
  destruct ev' as [| |n|n|n]; [by destruct U; case_decide..| | |];
    (apply elem_of_cons in Hi as [->|Hi]; [done|]); [by case_decide; [eapply IH|]| |by case_decide; [eapply IH|]].
  destruct U as [|m U]; [done|]. case_decide; [by eapply IH|done].
Qed.

Lemma first_child par p ev (M : list HtmlEvent) V : walk par (Some p) [] (ev :: M) = Some V -> exists f, GetNode ev = Some f /\ par f = Some p.
Proof. destruct ev as [| |n|n|n]; cbn; try done; case_decide; try done; eauto. Qed.

Definition clear_ends (n : nat) (x : HtmlParse) : bool :=
  match first_at n (view x), last_at n (view x) with
  | Some i, Some j => negb (gone (view x) && bool_decide (here (view x) = i \/ here (view x) = j))
  | _, _ => true
  end.

Lemma lookup_after {A} (l k : list A) j i : i = (length l + j)%nat -> (l ++ k) !! i = k !! j.
Proof. intros ->. by rewrite lookup_app_r, Nat.add_sub' by lia. Qed.
Lemma lookup_after_cons {A} (l k : list A) a j i : i = (length l + S j)%nat -> (l ++ a :: k) !! i = k !! j.
Proof. intros ->. by rewrite lookup_app_r, Nat.add_sub' by lia. Qed.

(** Where a cell is when [b] has been moved behind [m]. *)
Lemma unwrap_lookup (a m t : list nat) b e c h : (a ++ b :: m ++ e :: t) !! h = Some c -> c <> b ->
  (a ++ m ++ b :: e :: t) !! (if decide (length a < h <= length a + length m)%nat then (h - 1)%nat else h) = Some c.
Proof.
  intros H Hb. destruct (decide (h < length a)%nat) as [H1|H1].
  { rewrite decide_False by lia. rewrite lookup_app_l in * by lia. done. }
  destruct (decide (h = length a)) as [H2|H2].
  { rewrite (lookup_after _ _ 0) in H by lia. by injection H as ->. }
  rewrite (lookup_after_cons _ _ _ (h - length a - 1)) in H by lia.
  destruct (decide (h <= length a + length m)%nat) as [H3|H3].
  - rewrite decide_True by lia. rewrite (lookup_after _ _ (h - length a - 1)) by lia. rewrite lookup_app_l in * by lia. done.
  - rewrite decide_False by lia. rewrite (lookup_after m _ (h - length a - 1 - length m)) in H by lia.
    rewrite app_assoc, (lookup_after_cons _ _ _ (h - length a - 1 - length m)); [done|]. rewrite length_app. lia.
Qed.

Section unwrap.
Context (x : HtmlParse) (S0 S1 : list nat) (el b e : nat) (A M T : Cells).
Hypothesis HC : Core x S0 S1.
Hypothesis Hr : IsRewritable el x = true.
Hypothesis Hat : node_at x el A ((b, StartElementEvent el) :: M ++ [(e, EndElementEvent el)]) T.
Hypothesis Hcl : forall c, current_ x = Some c -> skip_increment_ x = true -> c <> b /\ c <> e.

Let cb := (b, StartElementEvent el).
Let ce := (e, EndElementEvent el).

Lemma unwrap_queue : queue_ x = A ++ cb :: M ++ ce :: T /\ queue_ x = (A ++ [cb]) ++ M ++ (ce :: T).
Proof.
  pose proof (at_queue _ _ _ _ _ Hat) as HQ. split; rewrite HQ; [|rewrite <- app_assoc]; cbn; by rewrite <- app_assoc.
Qed.

Lemma unwrap_walks : exists S, walk (par x) None S0 A.*2 = Some S /\ par x el = top None S /\ walk (par x) (Some el) [] M.*2 = Some [] /\
  walk (par x) None S T.*2 = Some S1 /\ walk (par x) None S0 (A ++ [cb]).*2 = Some (el :: S).
Proof.
  pose proof (Core_walk _ _ _ HC) as Hw. pose proof (Core_once _ _ _ HC) as Ho. unfold events in *. destruct unwrap_queue as [HQ _].
  rewrite HQ in *. rewrite fmap_app, fmap_cons, fmap_app, fmap_cons in Hw, Ho.
  destruct (walk_segment _ _ _ _ _ _ _ _ Hw Ho) as (S & HA & Hp & HM & HT). exists S. do 4 (split; [done|]).
  rewrite fmap_app, walk_app, HA. cbn. by rewrite decide_True.
Qed.

(** The state in which the element is empty, and its children are before or after it. *)
Definition emptied (after : bool) (ns : list HtmlNode) : HtmlParse :=
  set_queue (if after then A ++ cb :: ce :: M ++ T else A ++ M ++ cb :: ce :: T) (set_nodes ns x).

Lemma emptied_core after ns S :
  walk (par x) None S0 A.*2 = Some S ->
  (forall m, data m (set_nodes ns x) = data m x /\ kind m (set_nodes ns x) = kind m x /\
     par (set_nodes ns x) m = if decide (m ∈ omap GetNode M.*2 /\ par x m = Some el) then par x el else par x m) ->
  let z := touched (emptied after ns) in
  Core z S0 S1 /\ edited x z /\ node_at z el (if after then A else A ++ M) [cb; ce] (if after then M ++ T else T).
Proof.
  intros HA Hns z. destruct unwrap_queue as [HQ HQ'], unwrap_walks as (S' & HA' & Hp & HM & HT & HAb).
  assert (S' = S) as -> by congruence. clear HA'.
  assert (Hd : forall m, kind m z = kind m x /\ data m z = data m x) by (intros m; by destruct (Hns m) as (? & ? & _)).
  assert (Hpz : forall m, par z m = if decide (m ∈ omap GetNode M.*2 /\ par x m = top None (el :: S)) then par x el else par x m).
  { intros m. by destruct (Hns m) as (_ & _ & ?). }
  assert (HMd : forall ev, ev ∈ M.*2 -> GetNode ev <> None) by (intros ev; by apply (walk_no_doc _ _ _ _ _ _ HM)).
  pose proof (relabel_other x S0 S1 (el :: S) (A ++ [cb]) M (ce :: T) (par x el) (par z) HC HQ' HM Hpz) as Hoth.
  pose proof (relabel_unlisted x S0 S1 (el :: S) (A ++ [cb]) M (ce :: T) (par x el) (par z) HC HQ' HM Hpz) as Hun.
  assert (Hel : par z el = par x el) by (apply (Hun el b (StartElementEvent el) (A ++ [cb])); [set_solver|by left|done]).
  assert (HAz : walk (par z) None S0 A.*2 = Some S).
  { rewrite <- HA. apply walk_ext. intros ev n ([c ?] & -> & Hi)%list_elem_of_fmap En.
    eapply (Hun n c); [|by left|done]. apply elem_of_app. by left. }
  assert (HTz : walk (par z) None S T.*2 = Some S1).
  { rewrite <- HT. apply walk_ext. intros ev n ([c ?] & -> & Hi)%list_elem_of_fmap En. eapply (Hun n c); [|by right|done]. by right. }
  pose proof (relabel_walk x S0 S1 (el :: S) (A ++ [cb]) M (ce :: T) (par x el) (par z) HC HQ' HAb HM HMd Hpz S Hp) as HMz.
  assert (Hseg : segment (par z) el [cb; ce].*2) by (right; exists []; split; [done|]; split; [done|by intros ev ?%elem_of_nil]).
  assert (Hs : walk (par z) None S [cb; ce].*2 = Some S) by (eapply segment_walk; [done|]; congruence).
  assert (HPm : queue_ x ≡ₚ queue_ z).
  { rewrite HQ. unfold z, emptied. cbn. destruct after; apply Permutation_app_head.
    - apply Permutation_skip. symmetry. apply Permutation_middle.
    - rewrite Permutation_middle. apply Permutation_app_head. done. }
  split; [|split].
  - apply (Core_permuted x); try done.
    + intros n Hn. apply Hoth. by left.
    + intros c Hc. change (current_ z) with (current_ x) in Hc. apply (Wf_current x (Core_wf _ _ _ HC)) in Hc. by rewrite <- HPm.
    + change (events z) with (if after then A ++ cb :: ce :: M ++ T else A ++ M ++ cb :: ce :: T).*2. destruct after.
      * rewrite fmap_app, walk_app, HAz. cbn [mbind option_bind]. change (cb :: ce :: M ++ T) with ([cb; ce] ++ M ++ T).
        rewrite fmap_app, walk_app, Hs. cbn [mbind option_bind]. by rewrite fmap_app, walk_app, HMz.
      * rewrite fmap_app, walk_app, HAz. cbn [mbind option_bind]. rewrite fmap_app, walk_app, HMz. cbn [mbind option_bind].
        change (cb :: ce :: T) with ([cb; ce] ++ T). by rewrite fmap_app, walk_app, Hs.
  - apply edited_nodes; try done.
    + intros n k. by rewrite (proj1 (Hd n)).
    + intros n Hn. apply Hoth. by right.
    + intros n _. apply Hd.
  - destruct (at_first _ _ _ _ _ Hat) as (c & ev & r & [= <- <- <-] & Hf & Eb), (at_last _ _ _ _ _ Hat) as (r' & c' & ev' & Hs' & Hl & Ee).
    assert (Hce : (c', ev') = ce) by by destruct (app_inj_tail (cb :: M) r' ce (c', ev') Hs') as [_ ->].
    injection Hce as -> ->. split; [|..|done].
    + unfold z, emptied. cbn. destruct after; [done|]. by rewrite <- app_assoc.
    + exists b, (StartElementEvent el), [ce]. split; [done|]. split; [done|]. unfold begin in *. by rewrite (proj2 (Hd el)).
    + exists [cb], e, (EndElementEvent el). split; [done|]. split; [done|]. unfold end_of in *. by rewrite (proj2 (Hd el)).
Qed.

Lemma unwrap_doc : doc (d_unwrap (length A) (length M + 2) (view x)) = A.*2 ++ M.*2 ++ T.*2.
Proof.
  destruct unwrap_queue as [HQ HQ']. cbn [doc d_unwrap view]. unfold events. rewrite HQ at 1. destruct (take_drop_fmap snd A (cb :: M ++ ce :: T)) as [-> _]. f_equal.
  replace (length M + 2 - 2)%nat with (length M) by lia. rewrite HQ' at 1.
  replace (Datatypes.S (length A)) with (length (A ++ [cb])) by (rewrite length_app; cbn; lia).
  destruct (take_drop_fmap snd (A ++ [cb]) (M ++ ce :: T)) as [_ ->]. destruct (take_drop_fmap snd M (ce :: T)) as [-> _]. f_equal.
  replace (queue_ x) with ((A ++ cb :: M ++ [ce]) ++ T) by (rewrite HQ, <- app_assoc; cbn; by rewrite <- app_assoc).
  replace (length A + (length M + 2))%nat with (length (A ++ cb :: M ++ [ce])) by (rewrite length_app; cbn; rewrite length_app; cbn; lia).
  by destruct (take_drop_fmap snd (A ++ cb :: M ++ [ce]) T) as [_ ->].
Qed.

Lemma emptied_place after ns :
  (current_ x = Some b <-> after = true) -> NoDup (queue_ (emptied after ns)).*1 ->
  place (emptied after ns) = (if decide (length A < place x <= length A + length M)%nat then (place x - 1)%nat else place x) /\
  (after = true <-> place x = length A).
Proof.
  intros Ha HN. destruct unwrap_queue as [HQ _]. pose proof (Core_wf _ _ _ HC) as HW. destruct (current_ x) as [c|] eqn:Ec.
  - assert (Hl : (A.*1 ++ b :: M.*1 ++ e :: T.*1) !! place x = Some c).
    { rewrite <- (lookup_place x c HW Ec), HQ. by rewrite fmap_app, fmap_cons, fmap_app, fmap_cons. }
    destruct after.
    + destruct Ha as [_ Ha]. injection (Ha eq_refl) as Hcb. subst c.
      assert (Hpl : place x = length A).
      { apply (place_lookup x b); [by apply Wf_queue_nodup|done|]. rewrite HQ, fmap_app, (lookup_after _ _ 0) by (rewrite length_fmap; lia). done. }
      rewrite Hpl, decide_False by lia. split; [|done]. apply (place_lookup _ b); [done|done|].
      cbn. rewrite fmap_app, (lookup_after _ _ 0) by (rewrite length_fmap; lia). done.
    + assert (Hcb : c <> b) by (intros ->; by destruct Ha as [Ha _]; specialize (Ha eq_refl)).
      pose proof (unwrap_lookup A.*1 M.*1 T.*1 b e c (place x) Hl Hcb) as Hl'. rewrite !length_fmap in Hl'. split.
      * apply (place_lookup _ c); [done|done|]. cbn. by rewrite fmap_app, fmap_app.
      * split; [done|]. intros Hpl. rewrite Hpl, (lookup_after _ _ 0) in Hl by (rewrite length_fmap; lia). by injection Hl as Hcb'.
  - assert (after = false) as -> by (destruct after; [by destruct Ha as [_ Ha]; specialize (Ha eq_refl)|done]).
    rewrite (place_end x Ec), (place_end (emptied false ns)) by done. rewrite HQ. cbn. rewrite !length_app. cbn. rewrite length_app. cbn.
    rewrite decide_False by lia. split; [lia|]. split; [done|lia].
Qed.

Lemma d_remove_unwrap i d : d_remove i 2 d = d_unwrap i 2 d.
Proof.
  unfold d_remove, d_unwrap. f_equal.
  - repeat case_decide; try lia; case_bool_decide; lia.
  - f_equal. apply bool_decide_ext. lia.
Qed.

Lemma unwrap_next c ev r A' T' : queue_ x = A' ++ (c, ev) :: T' -> T' = r -> next (Some c) (queue_ x) = Some (front r).
Proof. intros HQ <-. pose proof (Core_queue_nodup _ _ _ HC) as HN. rewrite HQ in *. by apply next_app. Qed.

(** The test for the start of the element. *)
Lemma at_start_eq :
  (match current_ x with
   | None => Some false
   | Some _ => ev ← deref (current_ x) (queue_ x); Some (bool_decide (GetElementIfStartEvent ev = Some el))
   end) = Some (bool_decide (current_ x = Some b)).
Proof.
  destruct (current_ x) as [c|] eqn:Ec; [|by rewrite bool_decide_eq_false_2].
  destruct (current_cell x (Core_wf _ _ _ HC)) as (B & c' & ev & R & HB & Hc & _ & Hev); [by rewrite Ec|]. assert (c' = c) by congruence. subst c'.
  unfold current_event in Hev. rewrite Ec in Hev. rewrite Hev. cbn. f_equal. apply bool_decide_ext.
  assert (Hi : (c, ev) ∈ queue_ x) by (rewrite HB; set_solver). destruct unwrap_queue as [HQ _].
  assert (Hb : (b, StartElementEvent el) ∈ queue_ x) by (rewrite HQ; set_solver). split.
  - intros Hg. destruct ev as [| |n|n|n]; try done. injection Hg as ->. f_equal.
    apply (Core_link _ _ _ HC) in Hi as [_ (d & E & _ & Eb)], Hb as [_ (d' & E' & _ & Eb')]. congruence.
  - intros [= Hcb]. subst c. assert (ev = StartElementEvent el) as -> by (eapply pair_unique; [apply (Core_queue_nodup _ _ _ HC)|done..]). done.
Qed.

Lemma DeleteSavingChildren_at :
  exists x', DeleteSavingChildren el x = Some (x', true) /\ good S0 S1 x (d_unwrap (length A) (length M + 2) (view x)) x'.
Proof.
  pose proof (Core_wf _ _ _ HC) as HW. pose proof (Core_queue_nodup _ _ _ HC) as HN.
  destruct unwrap_queue as [HQ HQ'], unwrap_walks as (S & HA & Hp & HM & HT & HAb).
  destruct (at_first _ _ _ _ _ Hat) as (c & ev & r & [= <- <- <-] & Hf & Eb), (at_last _ _ _ _ _ Hat) as (r' & c' & ev' & Hs' & Hl & Ee).
  destruct (app_inj_tail (cb :: M) r' ce (c', ev') Hs') as [_ Hce]. injection Hce as <- <-. clear Hs' Hl Hf.
  unfold DeleteSavingChildren. rewrite Hr, (begin_parent _ _ _ Eb), Eb, Ee. cbn [mbind option_bind].
  rewrite (unwrap_next b (StartElementEvent el) (M ++ ce :: T) A (M ++ ce :: T)) by done. cbn [mbind option_bind].
  assert (HMc : M = [] \/ exists c1 ev1 M1, M = (c1, ev1) :: M1) by (destruct M as [|[c1 ev1] M1]; eauto).
  destruct HMc as [EM|(c1 & ev1 & M1 & EM)].
  { rewrite EM. cbn [app front fst head fmap option_fmap option_map]. rewrite decide_True by done. cbn [mbind option_bind].
    pose proof Hat as Hat'. rewrite EM in Hat'.
    assert (Hcl' : forall c, current_ x = Some c -> skip_increment_ x = true -> c ∉ [cb; ce].*1).
    { intros c Hc Hs. destruct (Hcl c Hc Hs). cbn. rewrite !elem_of_cons, elem_of_nil. naive_solver. }
    exists (touched (removed A [cb; ce] T x)). split; [by eapply DeleteNode_at|]. apply good_touched. cbn [length]. change (0 + 2)%nat with 2%nat. rewrite <- d_remove_unwrap.
    by apply (removed_core x S0 S1 el A [cb; ce] T). }
  assert (Hc1 : c1 <> e).
  { intros Hce. rewrite HQ, EM, fmap_app in HN. apply NoDup_app_r in HN. cbn in HN. apply NoDup_cons in HN as [_ HN].
    apply NoDup_cons in HN as [HN _]. apply HN. rewrite fmap_app, fmap_cons. set_solver. }
  replace (front (M ++ ce :: T)) with (Some c1) by by rewrite EM. rewrite decide_False by congruence.
  destruct (exists_last (l := M)) as (l & [cl evl] & HMl); [by rewrite EM|].
  assert (Hprev : prev (Some e) (queue_ x) = Some (Some cl)).
  { replace (queue_ x) with (((A ++ [cb]) ++ l) ++ (cl, evl) :: ce :: T) in *; [by apply (prev_app ((A ++ [cb]) ++ l) cl evl (ce :: T))|].
    by rewrite HQ', HMl, <- !app_assoc. }
  rewrite Hprev. cbn [mbind option_bind].
  destruct (first_child (par x) el ev1 M1.*2 []) as (f & Ef & Hpf); [pose proof HM as HM'; rewrite EM in HM'; done|].
  assert (Hnodes : forall m, m ∈ omap GetNode M.*2 -> is_Some (nodes_ x !! m)).
  { intros m Hm. destruct (balanced_data x S0 S1 (A ++ [cb]) M (ce :: T) _ HC HQ' HM m Hm) as (d & _ & _ & _ & _ & E & _). by eapply data_node. }
  assert (Hfm : f ∈ omap GetNode M.*2) by (rewrite EM; cbn; rewrite Ef; by left).
  rewrite (FixParents_ok x (A ++ [cb]) M (ce :: T) c1 ev1 M1 cl l evl f (par x el)) by (try done; by apply Hnodes). cbn [mbind option_bind].
  destruct (FixParents_fold (par x f) (par x el) M x Hnodes) as (ns & Hfold & Hns). rewrite Hfold, Hpf in *.
  change (current_ (set_nodes ns x)) with (current_ x). change (queue_ (set_nodes ns x)) with (queue_ x).
  rewrite at_start_eq. cbn [mbind option_bind]. set (after := bool_decide (current_ x = Some b)).
  assert (Hsplice : (if after then af ← next (Some e) (queue_ x); splice af (Some c1) (Some e) (set_nodes ns x)
      else splice (Some b) (Some c1) (Some e) (set_nodes ns x)) = Some (emptied after ns)).
  { assert (Hrange : range (Some c1) (Some e) (queue_ x) = Some (A ++ [cb], M, ce :: T)).
    { replace (Some c1) with (front (M ++ ce :: T)) by by rewrite EM. rewrite HQ' in *. by apply range_app. }
    assert (HN2 : NoDup (A ++ cb :: ce :: T).*1).
    { rewrite HQ', (Permutation_app_swap_app (A ++ [cb])), fmap_app in HN. apply NoDup_app_r in HN. by rewrite <- app_assoc in HN. }
    destruct after; unfold splice; cbn [queue_ set_nodes].
    - rewrite (unwrap_next e (EndElementEvent el) T ((A ++ [cb]) ++ M) T) by (try done; by rewrite HQ', <- !app_assoc).
      cbn [mbind option_bind]. rewrite Hrange. cbn [mbind option_bind].
      replace ((A ++ [cb]) ++ ce :: T) with ((A ++ [cb; ce]) ++ T) in * by by rewrite <- !app_assoc.
      rewrite (split_iter_app (A ++ [cb; ce]) T); [cbn; unfold emptied; by rewrite <- app_assoc|]. by rewrite <- app_assoc.
    - rewrite Hrange. cbn [mbind option_bind]. rewrite <- app_assoc. cbn [app].
      by rewrite (split_iter_app A (cb :: ce :: T) HN2 : split_iter (Some b) _ = _). }
  change (emptied after ns) with (emptied after ns) in Hsplice. rewrite Hsplice. cbn [mbind option_bind].
  destruct (emptied_core after ns S HA) as (HCz & Hez & Hatz); [intros m; apply Hns|]. set (z := touched (emptied after ns)) in *.
  assert (HNz : NoDup (queue_ (emptied after ns)).*1) by apply (Core_queue_nodup _ _ _ HCz).
  destruct (emptied_place after ns) as [Hpl Hafter]; [unfold after; by rewrite bool_decide_eq_true|done|].
  assert (Hrz : IsRewritable el z = true).
  { rewrite <- Hr. unfold IsRewritable, IsRewritableIgnoringDeferral, IsDeferred. rewrite (edited_deferred _ _ Hez).
    change (data el z) with (data el (set_nodes ns x)). by rewrite (proj1 (Hns el)). }
  assert (Hclz : forall c, current_ z = Some c -> skip_increment_ z = true -> c ∉ [cb; ce].*1).
  { intros c Hc Hs. destruct (Hcl c Hc Hs). cbn. rewrite !elem_of_cons, elem_of_nil. naive_solver. }
  eexists. split; [by eapply DeleteNode_at|]. apply good_touched.
  destruct (removed_core z S0 S1 el _ _ _ HCz Hatz Hclz) as (HC' & He' & Hv'). split; [done|]. split; [by eapply edited_trans|].
  rewrite Hv'. clear Hv' He' HC'.
  assert (Hdocz : doc (d_remove (length (if after then A else A ++ M)) 2 (view z)) = A.*2 ++ M.*2 ++ T.*2).
  { cbn [doc d_remove view]. change (events z) with (if after then A ++ cb :: ce :: M ++ T else A ++ M ++ cb :: ce :: T).*2. destruct after.
    - destruct (take_drop_fmap snd A (cb :: ce :: M ++ T)) as [-> _].
      replace (A ++ cb :: ce :: M ++ T) with ((A ++ [cb; ce]) ++ M ++ T) by by rewrite <- app_assoc.
      replace (length A + 2)%nat with (length (A ++ [cb; ce])) by (rewrite length_app; cbn; lia).
      destruct (take_drop_fmap snd (A ++ [cb; ce]) (M ++ T)) as [_ ->]. by rewrite fmap_app.
    - rewrite (app_assoc A M). destruct (take_drop_fmap snd (A ++ M) (cb :: ce :: T)) as [-> _].
      replace ((A ++ M) ++ cb :: ce :: T) with (((A ++ M) ++ [cb; ce]) ++ T) by by rewrite <- app_assoc.
      replace (length (A ++ M) + 2)%nat with (length ((A ++ M) ++ [cb; ce])) by (rewrite !length_app; cbn; lia).
      destruct (take_drop_fmap snd ((A ++ M) ++ [cb; ce]) T) as [_ ->]. by rewrite fmap_app, <- app_assoc. }
  apply Doc_eq; [etrans; [exact Hdocz|by rewrite unwrap_doc]|..]; cbn [length].
  - cbn [here d_remove d_unwrap view]. change (place z) with (place (emptied after ns)). rewrite Hpl.
    destruct after; [assert (Hh : place x = length A) by by apply Hafter|assert (Hh : place x <> length A) by (intros Hh; by apply Hafter in Hh)];
      rewrite ?length_app; repeat case_decide; repeat case_bool_decide; lia.
  - cbn [gone d_remove d_unwrap view]. change (skip_increment_ z) with (skip_increment_ x). f_equal. apply bool_decide_ext.
    cbn [here view]. change (place z) with (place (emptied after ns)). rewrite Hpl.
    destruct after; [assert (Hh : place x = length A) by by apply Hafter|assert (Hh : place x <> length A) by (intros Hh; by apply Hafter in Hh)];
      rewrite ?length_app; repeat case_decide; lia.
Qed.
End unwrap.
