(* ===== verification/HtmlParseWrap.v ===== *)
(** * The HTML parser: wrapping a sequence of siblings

    [AddParentToSequence] inserts an empty element before the first node, puts a new cell
    for its end behind the last one, and gives the nodes between them to it. *)

From S2P Require Import Prelude StringUtil HtmlKeywords HtmlLexer HtmlParse HtmlParseWalk HtmlParseInv HtmlParseDoc HtmlParseEdit HtmlParseDelete HtmlParseUnwrap.

Section wrap.
Context (x : HtmlParse) (S0 S1 : list nat) (f l p : nat) (A M T : Cells) (U : list nat) (b e : nat) (evb eve : HtmlEvent) (M1 M2 : Cells).
Hypothesis HC : Core x S0 S1.
Hypothesis Hf : fresh p x = true.
Hypothesis Hk : kind p x = Some ElementNode.
Hypothesis HQ : queue_ x = A ++ M ++ T.
Hypothesis HA : walk (par x) None S0 A.*2 = Some U.
Hypothesis HM : walk (par x) (top None U) [] M.*2 = Some [].
Hypothesis HT : walk (par x) None U T.*2 = Some S1.
Hypothesis HD : forall ev, ev ∈ M.*2 -> GetNode ev <> None.
Hypothesis Hpar : par x p = top None U.
Hypothesis Hpf : par x f = top None U.
Hypothesis HM1 : M = (b, evb) :: M1.
Hypothesis HM2 : M = M2 ++ [(e, eve)].
Hypothesis Hfirst : first_event f evb.
Hypothesis Hb : begin f x = Some (Some b).
Hypothesis He : end_of l x = Some (Some e).

(** The new element with the cells [b] and [e]. *)
Record wrapped (z : HtmlParse) (c0 c2 : nat) : Prop := {
  wrapped_queue : queue_ z = A ++ (c0, StartElementEvent p) :: M ++ (c2, EndElementEvent p) :: T;
  wrapped_lt : (fresh_ x <= c0 < c2)%nat /\ (c2 < fresh_ z)%nat;
  wrapped_data m : exists d, data p x = Some d /\
    data m z = if decide (m = p) then Some (mkData (content_ d) (is_live_ d) (Some c0) (Some c2)) else data m x;
  wrapped_kind m : kind m z = kind m x;
  wrapped_par m : par z m = if decide (m ∈ omap GetNode M.*2 /\ par x m = top None U) then Some p else par x m;
  wrapped_rest : current_ z = current_ x /\ skip_increment_ z = skip_increment_ x /\ current_filter_ z = current_filter_ x /\
    delayed_start_literal_ z = delayed_start_literal_ x /\ open_deferred_nodes_ z = open_deferred_nodes_ x /\
    deferred_nodes_ z = deferred_nodes_ x /\ lexer_stack_ z = lexer_stack_ x;
}.

Lemma wrap_not_new m : m ∈ omap GetNode M.*2 -> m <> p.
Proof.
  intros Hm ->. destruct (balanced_data x S0 S1 A M T _ HC HQ HM p Hm) as (d & b0 & _ & _ & _ & E & _ & Eb & _).
  apply fresh_data in Hf as (d' & E' & _ & Eb' & _). congruence.
Qed.

Lemma wrapped_core z c0 c2 : wrapped z c0 c2 -> Core z S0 S1 /\ edited x z.
Proof.
  intros [HQz Hlt Hdt Hkd Hpz (Hcur & Hsk & Hcf & Hdl & Hod & Hdf & Hst)]. pose proof (Core_wf _ _ _ HC) as HW.
  destruct (fresh_unlisted p x Hf HW) as (HnK & Hnd & Hu). destruct (Hdt p) as (d & E & _).
  pose proof (relabel_other x S0 S1 U A M T (Some p) (par z) HC HQ HM Hpz) as Hoth.
  assert (Hpp : par z p = top None U).
  { rewrite Hpz, decide_False; [done|]. intros [Hi _]. by apply (wrap_not_new p Hi). }
  assert (HWz : Wf z).
  { apply (Wf_new x z p [(c0, StartElementEvent p); (c2, EndElementEvent p)] d c0 c2); try done; try lia.
    - unfold cells, deferred_cells. rewrite HQz, HQ, Hdf, <- !app_assoc. cbn [app]. rewrite <- app_assoc. cbn [app].
      by rewrite <- !Permutation_middle.
    - left. split; [done|]. split; [done|lia].
    - intros m. destruct (Hdt m) as (d' & E' & ->). assert (d' = d) as -> by congruence. done.
    - intros c. rewrite Hcur. intros Hc. apply (Wf_current x HW) in Hc. rewrite HQ in Hc. rewrite HQz.
      rewrite !fmap_app, fmap_cons, fmap_app, fmap_cons in *. set_solver. }
  assert (Hed : edited x z).
  { apply edited_nodes; try done; [intros n k; by rewrite Hkd|intros n Hn; apply Hoth; by right|].
    intros n Hn. destruct (Hdt n) as (d' & _ & ->). rewrite decide_False; [done|]. by intros ->. }
  split; [|done]. split; [done| |apply HC| | | |by apply (open_edited x), HC].
  - unfold events. rewrite HQz, fmap_app, fmap_cons, fmap_app, fmap_cons. cbn [snd].
    rewrite walk_app, (relabel_out x S0 S1 U A M T (Some p) (par z) HC HQ HM Hpz None S0 A) by by left. rewrite HA. cbn [mbind option_bind walk].
    rewrite decide_True by done.
    rewrite walk_app, (relabel_walk x S0 S1 U A M T (Some p) (par z) HC HQ HA HM HD Hpz (p :: U) eq_refl). cbn [mbind option_bind walk].
    rewrite decide_True by done. by rewrite (relabel_out x S0 S1 U A M T (Some p) (par z) HC HQ HM Hpz None U T) by by right.
  - eapply chained_ext; [|apply HC]. intros n Hn. apply Hoth. by left.
  - intros n Hn Hi. unfold events in Hi. rewrite HQz in Hi. apply list_elem_of_fmap in Hi as ([c ev] & Hev & Hi). cbn in Hev. subst ev.
    assert (Hnp : n <> p) by (intros ->; by apply (fresh_not_base _ _ _ _ HC Hf)).
    apply (Core_out _ _ _ HC n Hn). unfold events. rewrite HQ. apply list_elem_of_fmap. exists (c, StartElementEvent n). split; [done|].
    rewrite !elem_of_app, elem_of_cons, elem_of_app, elem_of_cons in *. naive_solver.
  - intros n Hn. rewrite Hst. by apply (Core_top _ _ _ HC).
Qed.

Lemma wrapped_view z c0 c2 : wrapped z c0 c2 -> view z = d_wrap (length A) (length M) p (view x).
Proof.
  intros Hz. destruct (wrapped_core z c0 c2 Hz) as [HCz _]. destruct Hz as [HQz _ _ _ _ (Hcur & Hsk & _)].
  pose proof (Core_queue_nodup _ _ _ HCz) as HNz. apply Doc_eq; [| |done].
  - cbn [doc d_wrap view]. unfold events. rewrite HQz, HQ. destruct (take_drop_fmap snd A (M ++ T)) as [-> ->]. destruct (take_drop_fmap snd M T) as [-> _].
    rewrite app_assoc, <- length_app. destruct (take_drop_fmap snd (A ++ M) T) as [_ ->]. by rewrite !fmap_app, !fmap_cons, fmap_app.
  - cbn [here d_wrap view]. destruct (current_ x) as [c|] eqn:Ec.
    + pose proof (lookup_place x c (Core_wf _ _ _ HC) Ec) as Hl. rewrite HQ in Hl. apply (place_lookup z c); [done|congruence|]. rewrite HQz.
      rewrite !fmap_app, !fmap_cons, fmap_app, fmap_cons in *. cbn [fst].
      destruct (decide (place x < length A)%nat) as [H1|H1].
      { rewrite lookup_app_l in * by (rewrite length_fmap; lia). done. }
      rewrite (lookup_after _ _ (place x - length A)) in Hl by (rewrite length_fmap; lia).
      destruct (decide (place x < length A + length M)%nat) as [H2|H2].
      * rewrite (lookup_after_cons _ _ _ (place x - length A)) by (rewrite length_fmap; lia).
        rewrite lookup_app_l in * by (rewrite length_fmap; lia). done.
      * rewrite (lookup_after _ _ (place x - length A - length M)) in Hl by (rewrite length_fmap; lia).
        rewrite (lookup_after_cons _ _ _ (Datatypes.S (place x - length A))) by (rewrite length_fmap; lia).
        rewrite (lookup_after_cons _ _ _ (place x - length A - length M)); [done|]. rewrite length_fmap. lia.
    + rewrite (place_end x Ec), (place_end z) by congruence. rewrite HQz, HQ, !length_app. cbn. rewrite length_app. cbn.
      rewrite decide_False by lia. rewrite decide_False by lia. lia.
Qed.

Hypothesis Hrf : IsRewritable f x = true.
Hypothesis Hrl : IsRewritable l x = true.
Hypothesis Hpl : par x l = par x f.

Lemma AddParentToSequence_at :
  exists x', AddParentToSequence f l p x = Some (x', true) /\ good S0 S1 x (d_wrap (length A) (length M) p (view x)) x'.
Proof.
  pose proof (Core_wf _ _ _ HC) as HW. destruct (fresh_data p x Hf) as (d & E & El & Eb & Ee & Hst).
  assert (Hnp : f <> p /\ l <> p).
  { split; intros ->.
    - apply begin_Some in Hb as (d' & E' & Eb'). congruence.
    - apply end_Some in He as (d' & E' & Ee'). congruence. }
  destruct Hnp as [Hnf Hnl].
  destruct (InsertNodeBeforeEvent_ok x S0 S1 p A (M ++ T) U HC Hf HQ HA Hpar) as (x1 & s & Ex & HC1 & [Hat1 Hev1 Hfr1 HW1 Hp1 Hk1 Hd1 Hc1 Hs1 He1 Hnew] & Hed1).
  change (data p (touched x)) with (data p x) in Hnew. destruct Hnew as (d' & c0 & c1 & E' & Hnew & Hlt1 & E1). assert (d' = d) as -> by congruence.
  change (fresh_ (touched x)) with (fresh_ x) in Hfr1.
  destruct Hnew as [(_ & -> & Hlt0)|([k Hk'] & _)]; [|change (kind p (touched x)) with (kind p x) in Hk'; congruence].
  assert (Hge : (fresh_ x <= c0)%nat) by (apply Hfr1; by left).
  pose proof (at_queue _ _ _ _ _ Hat1) as HQ1. cbn [app] in HQ1. pose proof (Core_queue_nodup _ _ _ HC1) as HN1.
  assert (Hdf : forall m, m <> p -> data m x1 = data m x) by (intros m Hm; by rewrite Hd1).
  assert (Ef1 : begin f x1 = Some (Some b)) by (unfold begin in *; by rewrite Hdf).
  assert (El1 : end_of l x1 = Some (Some e)) by (unfold end_of in *; by rewrite Hdf).
  assert (Ep1 : end_of p x1 = Some (Some c1)) by (unfold end_of; by rewrite E1).
  set (c2 := fresh_ x1) in *.
  set (xe := set_queue ((A ++ [(c0, StartElementEvent p)]) ++ M ++ T) x1).
  assert (HQ1' : queue_ x1 = (A ++ [(c0, StartElementEvent p)]) ++ (c1, EndElementEvent p) :: M ++ T) by (by rewrite HQ1, <- app_assoc).
  assert (HNe : NoDup (queue_ xe).*1) by (apply (NoDup_remove_cell _ _ c1 (EndElementEvent p)); by rewrite <- HQ1').
  assert (Herase : erase (Some c1) x1 = Some (xe, front (M ++ T))) by by apply (erase_app x1 _ c1 (EndElementEvent p)).
  assert (Hderef : deref (Some c1) (queue_ x1) = Some (EndElementEvent p)) by (rewrite HQ1' in *; by apply deref_app).
  assert (Hnext : next (Some e) (queue_ xe) = Some (front T)).
  { replace (queue_ xe) with (((A ++ [(c0, StartElementEvent p)]) ++ M2) ++ (e, eve) :: T) in *; [by apply next_app|].
    unfold xe. cbn. by rewrite HM2, <- !app_assoc. }
  set (xi := set_fresh (Datatypes.S c2) (set_queue (((A ++ [(c0, StartElementEvent p)]) ++ M) ++ (c2, EndElementEvent p) :: T) xe)).
  assert (Hins : insert_event (front T) (EndElementEvent p) xe = Some (xi, Some c2)).
  { apply (insert_event_app xe ((A ++ [(c0, StartElementEvent p)]) ++ M) T); [done|]. unfold xe. cbn. by rewrite <- !app_assoc. }
  set (dp := mkData (content_ d) (is_live_ d) (Some c0) (Some c2)).
  set (xs := modify_node p (with_data (Some dp)) xi).
  assert (Hset : set_end p (Some c2) xi = Some xs) by (unfold set_end; by rewrite (modify_data_Some _ _ xi _ E1)).
  assert (Hnode : is_Some (nodes_ xi !! p)) by (by apply data_node in E1).
  assert (Hds : forall m, data m xs = if decide (m = p) then Some dp else data m x).
  { intros m. unfold xs. rewrite data_with_data by done. case_decide; [done|]. change (data m xi) with (data m x1). by apply Hdf. }
  assert (Hks : forall m, kind m xs = kind m x) by (intros m; unfold xs; rewrite kind_with_data; change (kind m xi) with (kind m x1); by rewrite Hk1).
  assert (Hps : forall m, par xs m = par x m).
  { intros m. unfold par, xs. rewrite parent_with_data. change (parent m xi) with (parent m x1). apply Hp1. }
  assert (HQs : queue_ xs = (A ++ [(c0, StartElementEvent p)]) ++ M ++ (c2, EndElementEvent p) :: T).
  { unfold xs. cbn. by rewrite <- !app_assoc. }
  assert (HNs : NoDup (queue_ xs).*1).
  { rewrite HQs, app_assoc. apply NoDup_insert_cell; [rewrite <- app_assoc; exact HNe|].
    intros c Hc. apply (queue_fresh x1 c HW1). rewrite HQ1', fmap_app, fmap_cons, (fmap_app fst M).
    rewrite !fmap_app, !elem_of_app in Hc. rewrite fmap_app, elem_of_app, elem_of_cons, !elem_of_app. tauto. }
  assert (Hnodes : forall m, m ∈ omap GetNode M.*2 -> is_Some (nodes_ xs !! m)).
  { intros m Hm. pose proof (wrap_not_new m Hm) as Hmp. destruct (balanced_data x S0 S1 A M T _ HC HQ HM m Hm) as (d0 & _ & _ & _ & _ & E0 & _).
    apply (data_node m xs d0). by rewrite Hds, decide_False. }
  assert (Hfm : f ∈ omap GetNode M.*2) by (rewrite HM1; cbn; rewrite (first_GetNode f evb Hfirst); by left).
  destruct (FixParents_fold (top None U) (Some p) M xs Hnodes) as (ns & Hfold & Hns).
  assert (Hfix : FixParents (Some b) (Some e) (Some p) xs = Some (set_nodes ns xs)).
  { rewrite (FixParents_ok xs (A ++ [(c0, StartElementEvent p)]) M ((c2, EndElementEvent p) :: T) b evb M1 e M2 eve f (Some p));
      [by rewrite Hps, Hpf, Hfold|done..|by apply first_GetNode|by apply Hnodes]. }
  exists (touched (set_nodes ns xs)). split.
  - unfold AddParentToSequence. rewrite (begin_parent _ _ _ Hb), (end_parent _ _ _ He). cbn [mbind option_bind]. rewrite Hrf, Hrl, Hpl.
    rewrite bool_decide_eq_true_2 by done. cbn [andb].
    assert (Hbp : begin p x = Some None /\ end_of p x = Some None) by (unfold begin, end_of; rewrite E; cbn; by rewrite Eb, Ee).
    destruct Hbp as [-> ->]. cbn [mbind option_bind IsInEventWindow]. rewrite Hb. cbn [mbind option_bind].
    replace (Some b) with (front (M ++ T)) by by rewrite HM1. change (negb (IsInEventWindow None) && negb (IsInEventWindow None)) with true. cbn iota.
    rewrite Ex. cbn [mbind option_bind]. rewrite Ep1. cbn [mbind option_bind]. rewrite Hderef. cbn [mbind option_bind].
    rewrite Herase. cbn [mbind option_bind]. change (end_of l xe) with (end_of l x1). rewrite El1. cbn [mbind option_bind].
    rewrite Hnext. cbn [mbind option_bind]. rewrite Hins. cbn [mbind option_bind]. rewrite Hset. cbn [mbind option_bind].
    assert (Hb2 : begin f xs = Some (Some b)) by (unfold begin; rewrite Hds, decide_False by done; exact Hb).
    assert (He2 : end_of l xs = Some (Some e)) by (unfold end_of; rewrite Hds, decide_False by done; exact He).
    rewrite Hb2, He2. cbn [mbind option_bind]. by rewrite Hfix.
  - apply good_touched.
    assert (Hw : wrapped (set_nodes ns xs) c0 c2).
    { split.
      - cbn [queue_ set_nodes]. by rewrite HQs, <- app_assoc.
      - change (fresh_ (set_nodes ns xs)) with (Datatypes.S c2). lia.
      - intros m. exists d. split; [done|]. rewrite (proj1 (Hns m)). apply Hds.
      - intros m. rewrite (proj1 (proj2 (Hns m))). apply Hks.
      - intros m. rewrite (proj2 (proj2 (Hns m))), Hps. done.
      - destruct Hed1. cbn. by rewrite Hc1, Hs1. }
    destruct (wrapped_core _ _ _ Hw) as [HCz Hez]. split; [done|]. split; [done|]. by eapply wrapped_view.
Qed.
End wrap.

Lemma AddParentToSequence_good x S0 S1 f l p i j :
  Core x S0 S1 -> fresh p x = true -> kind p x = Some ElementNode -> IsRewritable f x = true -> IsRewritable l x = true ->
  in_window f x = true -> in_window l x = true -> par x l = par x f -> par x p = par x f ->
  first_at f (view x) = Some i -> last_at l (view x) = Some j -> (i <= j)%nat ->
  (forall ev, ev ∈ take (S j - i) (drop i (events x)) -> GetNode ev <> None) ->
  exists x', AddParentToSequence f l p x = Some (x', true) /\ good S0 S1 x (d_wrap i (S j - i) p (view x)) x'.
Proof.
  intros HC Hf Hk Hrf Hrl Hwf Hwl Hpl Hpp Hi Hj Hij HD.
  destruct (complete_node x S0 S1 f HC) as (Af & sf & Tf & Hatf); [by apply IsRewritable_and|done|].
  destruct (complete_node x S0 S1 l HC) as (Al & sl & Tl & Hatl); [by apply IsRewritable_and|done|].
  destruct (node_at_span x S0 S1 f Af sf Tf HC Hatf) as (Hfi & _ & _), (node_at_span x S0 S1 l Al sl Tl HC Hatl) as (_ & Hlj & Hls).
  assert (i = length Af) as -> by congruence. assert (j = length Al + length sl - 1)%nat as -> by congruence. clear Hi Hj.
  pose proof (at_queue _ _ _ _ _ Hatf) as HQf. pose proof (at_queue _ _ _ _ _ Hatl) as HQl.
  destruct (at_first _ _ _ _ _ Hatf) as (b & evb & rf & Hsf & Hfb & Eb), (at_last _ _ _ _ _ Hatl) as (rl & e & eve & Hsl & Hle & Ee).
  assert (HM : exists M, Al ++ sl = Af ++ M /\ sf ++ Tf = M ++ Tl /\ (0 < length M)%nat).
  { rewrite HQf, app_assoc in HQl. rewrite <- app_assoc in HQl. rewrite (app_assoc Al) in HQl. apply app_eq_inv in HQl as [(k & E1 & E2)|(k & E1 & E2)].
    - exfalso. apply (f_equal length) in E1. rewrite !length_app in E1. lia.
    - exists k. split; [done|]. split; [done|]. apply (f_equal length) in E1. rewrite !length_app in E1. lia. }
  destruct HM as (M & HM & HMT & HMl). assert (HQ : queue_ x = Af ++ M ++ Tl) by (by rewrite HQf, HMT).
  destruct M as [|[b' evb'] M1]; [cbn in HMl; lia|]. rewrite Hsf in HMT. injection HMT as <- <- HMT.
  destruct (exists_last (l := (b, evb) :: M1)) as (M2 & [e' eve'] & HM2); [done|].
  rewrite HM2, Hsl, !app_assoc in HM. apply app_inj_tail in HM as [_ [= <- <-]].
  pose proof (Core_walk _ _ _ HC) as Hw. pose proof (Core_once _ _ _ HC) as Ho. pose proof (Core_out _ _ _ HC) as Hout.
  unfold events in Hw, Ho, Hout. rewrite HQ in Hw, Ho, Hout. rewrite !fmap_app in Hw, Ho. setoid_rewrite fmap_app in Hout. setoid_rewrite fmap_app in Hout.
  destruct (walk_siblings (par x) S0 Af.*2 evb M1.*2 Tl.*2 S1 f l M2.*2 eve) as (U & HA & HpU & HMw & HT); [done|done|apply HC|done|done| |done|done|].
  { change (evb :: M1.*2) with ((b, evb) :: M1).*2. by rewrite HM2, fmap_app. }
  assert (Hlen : (S (length Al + length sl - 1) - length Af)%nat = length ((b, evb) :: M1)).
  { apply (f_equal length) in HQl. rewrite HQ, !length_app in HQl. lia. }
  rewrite Hlen in *.
  apply (AddParentToSequence_at x S0 S1 f l p Af ((b, evb) :: M1) Tl U b e evb eve M1 M2); try done.
  - by rewrite <- HpU.
  - intros ev Hev. apply HD. unfold events. rewrite HQ. destruct (take_drop_fmap snd Af (((b, evb) :: M1) ++ Tl)) as [_ ->].
    destruct (take_drop_fmap snd ((b, evb) :: M1) Tl) as [-> _]. done.
  - congruence.
Qed.
