(* ===== verification/HtmlParseMove.v ===== *)
(** * The HTML parser: moving the current node

    [MoveCurrentInto] and [MoveCurrentBefore] splice the cells of the node that ends at
    the current event to another place, if that is not in the node itself. *)

From S2P Require Import Prelude StringUtil HtmlKeywords HtmlLexer HtmlParse HtmlParseWalk HtmlParseInv HtmlParseDoc HtmlParseEdit HtmlParseDelete HtmlParseUnwrap.

(** ** [IsDescendantOf] *)

Lemma IsDescendantOf_stack x n V fuel :
  chained (par x) V -> (forall k, k ∈ V -> is_Some (nodes_ x !! k)) -> (length V <= fuel)%nat ->
  IsDescendantOf_loop fuel (top None V) n x = Some (bool_decide (n ∈ V)).
Proof.
  revert fuel. induction V as [|k V IH]; intros fuel Hch Hn Hf.
  { destruct fuel; cbn; by rewrite bool_decide_eq_false_2 by apply not_elem_of_nil. }
  destruct Hch as [Hk Hch]. destruct fuel as [|fuel]; [cbn in Hf; lia|]. cbn [top IsDescendantOf_loop]. destruct (decide (k = n)) as [->|Hkn].
  - by rewrite bool_decide_eq_true_2 by by left.
  - destruct (Hn k ltac:(by left)) as [nd E]. assert (Ep : parent k x = Some (par x k)) by (unfold par, parent; by rewrite E).
    rewrite Ep. cbn [mbind option_bind]. rewrite Hk, IH; [|done|intros m Hm; apply Hn; by right|cbn in Hf; lia].
    f_equal. apply bool_decide_ext. rewrite elem_of_cons. naive_solver.
Qed.

Section stack.
Context (x : HtmlParse) (S0 S1 : list nat).
Hypothesis HC : Core x S0 S1.

(** The elements that are open somewhere in the window. *)
Lemma stack_nodes A R S k : queue_ x = A ++ R -> walk (par x) None S0 A.*2 = Some S -> k ∈ S -> is_Some (nodes_ x !! k).
Proof.
  intros HQ HA Hk. destruct (walk_stack _ _ _ _ _ k HA) as (H & _). destruct (H Hk) as [Hi|Hi].
  - destruct (Core_base x S0 S1 k HC Hi) as [Hl|[c Hc]].
    + destruct (Core_open _ _ _ HC k Hl) as (d & E & _). by eapply data_node.
    + apply (Core_link _ _ _ HC) in Hc as [Hkd _]. by eapply kind_node.
  - apply list_elem_of_fmap in Hi as ([c ev] & Hev & Hi). cbn in Hev. subst ev.
    assert (Hq : (c, StartElementEvent k) ∈ queue_ x) by (rewrite HQ; apply elem_of_app; by left).
    apply (Core_link _ _ _ HC) in Hq as [Hkd _]. by eapply kind_node.
Qed.

Lemma stack_nodup A R S : queue_ x = A ++ R -> walk (par x) None S0 A.*2 = Some S -> NoDup S.
Proof.
  intros HQ HA. pose proof (Core_once _ _ _ HC) as Ho. pose proof (Core_out _ _ _ HC) as Hout. unfold events in *. rewrite HQ in *.
  eapply walk_NoDup; [exact HA|rewrite fmap_app in Ho; by eapply once_app_l|apply HC|].
  intros k Hk Hi. apply (Hout k Hk). rewrite fmap_app. apply elem_of_app. by left.
Qed.

Lemma stack_length A R S : queue_ x = A ++ R -> walk (par x) None S0 A.*2 = Some S -> (length S <= length (nodes_ x))%nat.
Proof.
  intros HQ HA. pose proof (stack_nodup A R S HQ HA) as HN.
  assert (Hsub : S ⊆+ seq 0 (length (nodes_ x))).
  { apply NoDup_submseteq; [done|]. intros k Hk. apply elem_of_seq. destruct (stack_nodes A R S k HQ HA Hk) as [nd E].
    apply lookup_lt_Some in E. lia. }
  apply submseteq_length in Hsub. by rewrite length_seq in Hsub.
Qed.

Lemma descendant_stack m n A R V :
  queue_ x = A ++ R -> walk (par x) None S0 A.*2 = Some V -> is_Some (nodes_ x !! m) -> par x m = top None V ->
  IsDescendantOf (Some m) n x = Some (bool_decide (n = m \/ n ∈ V)).
Proof.
  intros HQ HA [nd E] Hp. unfold IsDescendantOf. cbn [IsDescendantOf_loop]. destruct (decide (m = n)) as [->|Hmn].
  - rewrite bool_decide_eq_true_2; [done|by left].
  - assert (Ep : parent m x = Some (par x m)) by (unfold par, parent; by rewrite E). rewrite Ep. cbn [mbind option_bind]. rewrite Hp.
    rewrite IsDescendantOf_stack; [|eapply walk_chained; [apply HC|done]|intros k Hk; by apply (stack_nodes A R V k)|
      by apply (stack_length A R V)].
    f_equal. apply bool_decide_ext. naive_solver.
Qed.
End stack.

(** ** The place to move to *)

Section move.
Context (x : HtmlParse) (S0 S1 : list nat) (n : nat) (A s T : Cells).
Hypothesis HC : Core x S0 S1.
Hypothesis Hat : node_at x n A s T.

Let HQ := at_queue _ _ _ _ _ Hat.

Lemma node_walk : walk (par x) (par x n) [] s.*2 = Some [].
Proof. eapply segment_walk; [apply Hat|done]. Qed.

Lemma node_listed : n ∈ omap GetNode s.*2.
Proof.
  destruct (at_first _ _ _ _ _ Hat) as (c & ev & r & -> & Hf & _). apply list_elem_of_omap. exists ev. split; [by left|by apply first_GetNode].
Qed.

Lemma node_other : (n ∉ S0) /\ (n ∉ lexer_stack_ x) /\ ~ deferred_node x n /\ unlisted n A /\ unlisted n T.
Proof. exact (balanced_other x S0 S1 A s T _ HC HQ node_walk n node_listed). Qed.

Lemma node_walks : exists S, walk (par x) None S0 A.*2 = Some S /\ par x n = top None S /\ walk (par x) None S s.*2 = Some S /\ walk (par x) None S T.*2 = Some S1.
Proof.
  pose proof (Core_walk _ _ _ HC) as Hw. unfold events in Hw. rewrite HQ, !fmap_app in Hw.
  destruct (walk_segment_parent _ _ _ _ n _ _ _ Hw (at_segment _ _ _ _ _ Hat)) as (S & HA & Hp & HT). exists S. do 2 (split; [done|]). split; [|done].
  eapply segment_walk; [apply Hat|done].
Qed.

Section target.
Context (t : nat) (te : HtmlEvent) (X Y : Cells) (m : nat).
Hypothesis HX : queue_ x = X ++ (t, te) :: Y.
Hypothesis Hm : GetNode te = Some m.

Lemma target_node : is_Some (nodes_ x !! m).
Proof.
  assert (Hi : (t, te) ∈ queue_ x) by (rewrite HX; set_solver). apply (Core_link _ _ _ HC) in Hi.
  destruct te as [| |k|k|k]; try done; injection Hm as ->; destruct Hi as [_ (d & E & _)]; by eapply data_node.
Qed.

Lemma target_in : IsDescendantOf (Some m) n x = Some (bool_decide (t ∈ s.*1)).
Proof.
  destruct (at_cell x S0 S1 X t te Y HC HX) as (W & W' & HW & HW' & Hrel). destruct node_other as (Hn0 & _ & _ & HuA & HuT).
  assert (HV : exists P R V, queue_ x = P ++ R /\ walk (par x) None S0 P.*2 = Some V /\ par x m = top None V /\
    (P = X \/ P = X ++ [(t, te)]) /\ (V = W \/ W = m :: V)).
  { destruct te as [| |k|k|k]; try done; injection Hm as ->; destruct Hrel as [H1 H2].
    - exists X, ((t, StartElementEvent m) :: Y), W. do 3 (split; [done|]). split; by left.
    - exists (X ++ [(t, EndElementEvent m)]), Y, W'. split; [by rewrite <- app_assoc|]. do 2 (split; [done|]). split; by right.
    - exists X, ((t, LeafNodeEvent m) :: Y), W. do 3 (split; [done|]). split; by left. }
  destruct HV as (P & R & V & HP & HVw & Hpm & HPX & HVW).
  rewrite (descendant_stack x S0 S1 HC m n P R V HP HVw target_node Hpm). f_equal. apply bool_decide_ext.
  destruct node_walks as (S & HA & HpS & Hs & HT).
  assert (Hend : t ∈ s.*1 -> n = m \/ n ∈ V).
  { intros Hts. destruct (split3 X ((t, te) :: Y) A s T) as [([c ev] & k & HAk & HR)|[(k & [c ev] & k' & HXk & Hsk & HR)|(k & HXk & HTk)]];
      [by rewrite <- HX, HQ|..].
    - exfalso. injection HR as <- <- _. pose proof (Core_queue_nodup _ _ _ HC) as HN. rewrite HQ, HAk, !fmap_app in HN.
      apply NoDup_app in HN as (_ & HN & _). apply (HN t); [cbn; set_solver|]. apply elem_of_app. by left.
    - injection HR as <- <- _. pose proof (at_segment _ _ _ _ _ Hat) as Hseg. destruct Hseg as [Hl|(M & HM & HMw & _)].
      + left. assert (te = LeafNodeEvent n) as ->; [|by injection Hm as ->]. apply list_elem_of_singleton. rewrite <- Hl, Hsk, fmap_app. set_solver.
      + rewrite Hsk, fmap_app in HM. cbn in HM. destruct k as [|[c0 ev0] k]; cbn in HM.
        { injection HM as -> _. left. by injection Hm as ->. }
        injection HM as -> HM. destruct (exists_last (l := te :: k'.*2)) as (l & ev1 & Hl); [done|].
        rewrite Hl, app_assoc in HM. apply app_inj_tail in HM as [HM ->]. destruct l as [|te' l]; cbn in Hl.
        { injection Hl as -> _. left. by injection Hm as ->. }
        injection Hl as <- Hl. rewrite <- HM in HMw. apply walk_app_Some in HMw as (U & HU & _).
        pose proof (walk_weaken (par x) (Some n) None [] (n :: S) k.*2 U eq_refl HU) as HUw. cbn [app] in HUw.
        assert (HWU : W = U ++ n :: S).
        { rewrite HXk, fmap_app, walk_app, HA in HW. cbn in HW. rewrite decide_True in HW by done. congruence. }
        destruct HVW as [->|HVW]; [right; rewrite HWU; set_solver|]. rewrite HWU in HVW. destruct U as [|k0 U]; cbn in HVW.
        * left. by injection HVW as ->.
        * right. injection HVW as _ <-. set_solver.
    - exfalso. pose proof (Core_queue_nodup _ _ _ HC) as HN. rewrite HQ, HTk, !fmap_app in HN.
      apply NoDup_app in HN as (_ & _ & HN). apply NoDup_app in HN as (_ & HN & _). apply (HN t); [done|]. cbn. set_solver. }
  split; [|exact Hend]. intros Hor. destruct (decide (t ∈ s.*1)) as [|Hts]; [done|]. exfalso.
  assert (HSn : n ∉ S).
  { intros Hi. destruct (walk_stack _ _ _ _ _ n HA) as (H & _). destruct (H Hi) as [|Hi']; [done|].
    apply list_elem_of_fmap in Hi' as ([c ev] & Hev & Hi'). cbn in Hev. subst ev. by apply (HuA c _ Hi'). }
  destruct (split3 X ((t, te) :: Y) A s T) as [([c ev] & k & HAk & HR)|[(k & [c ev] & k' & HXk & Hsk & HR)|(k & HXk & HTk)]];
    [by rewrite <- HX, HQ|..].
  - injection HR as <- <- _. destruct Hor as [->|Hi]; [by apply (HuA t te); [rewrite HAk; set_solver|]|].
    destruct (walk_stack _ _ _ _ _ n HVw) as (H & _). destruct (H Hi) as [|Hi']; [done|].
    apply list_elem_of_fmap in Hi' as ([c ev] & Hev & Hi'). cbn in Hev. subst ev. apply (HuA c (StartElementEvent n)); [|done].
    rewrite HAk. destruct HPX as [-> | ->]; set_solver.
  - injection HR as <- <- _. apply Hts. rewrite Hsk, fmap_app. set_solver.
  - destruct Hor as [->|Hi]; [by apply (HuT t te); [rewrite HTk; set_solver|]|].
    assert (HP2 : exists k2, P = A ++ s ++ k2 /\ forall cell, cell ∈ k2 -> cell ∈ T).
    { destruct HPX as [-> | ->]; [exists k|exists (k ++ [(t, te)])]; (split; [by rewrite HXk, <- ?app_assoc|]); intros cell; rewrite HTk; set_solver. }
    destruct HP2 as (k2 & -> & Hk2). rewrite fmap_app, walk_app, HA in HVw. cbn [mbind option_bind] in HVw.
    rewrite fmap_app, walk_app, Hs in HVw. cbn [mbind option_bind] in HVw.
    destruct (walk_stack _ _ _ _ _ n HVw) as (H & _). destruct (H Hi) as [|Hi']; [done|].
    apply list_elem_of_fmap in Hi' as ([c ev] & Hev & Hi'). cbn in Hev. subst ev. by apply (HuT c _ (Hk2 _ Hi')).
Qed.
End target.

(** ** The cells of the node at another place *)

Definition moved_queue (P R : Cells) (c : nat) : HtmlParse := set_current (Some c) (set_queue (P ++ s ++ R) x).

Lemma moved_perm P R : P ++ R = A ++ T -> queue_ x ≡ₚ P ++ s ++ R.
Proof. intros HP. by rewrite HQ, (Permutation_app_swap_app A s), <- HP, (Permutation_app_swap_app P s). Qed.

Lemma moved_core P R c V np :
  P ++ R = A ++ T -> c ∈ (queue_ x).*1 -> walk (par x) None S0 P.*2 = Some V -> np = top None V ->
  Core (set_parent n np (touched (moved_queue P R c))) S0 S1 /\ edited x (set_parent n np (touched (moved_queue P R c))).
Proof.
  intros HP Hc HV Hnp. set (z := set_parent n np (touched (moved_queue P R c))). destruct node_other as (Hn0 & HnK & Hnd & HuA & HuT).
  assert (Hnode : is_Some (nodes_ x !! n)).
  { destruct (at_first _ _ _ _ _ Hat) as (? & ? & ? & _ & _ & Hb). apply begin_Some in Hb as (d & E & _). by eapply data_node. }
  assert (Hdt : forall m, kind m z = kind m x /\ data m z = data m x).
  { intros m. unfold z. rewrite kind_set_parent, data_set_parent. done. }
  assert (Hpz : forall m, m <> n -> par z m = par x m) by (intros m Hm; unfold z; rewrite par_set_parent_ne by done; done).
  assert (Hpn : par z n = np) by (unfold z; rewrite par_set_parent by done; by rewrite decide_True).
  assert (Hu : unlisted n (P ++ R)) by (rewrite HP; intros c' ev' [Hi|Hi]%elem_of_app; [by apply (HuA c')|by apply (HuT c')]).
  assert (Hext : forall l bot U, (forall cell, cell ∈ l -> cell ∈ P ++ R) -> walk (par z) bot U l.*2 = walk (par x) bot U l.*2).
  { intros l bot U Hl. apply walk_ext. intros ev m ([c' ev'] & -> & Hi)%list_elem_of_fmap Em. apply Hpz. intros ->. by apply (Hu c' ev' (Hl _ Hi)). }
  assert (Hseg : segment (par z) n s.*2).
  { eapply segment_ext; [|apply Hat]. intros ev m _ _ Hm. by rewrite Hpz. }
  assert (HR : walk (par x) None V R.*2 = Some S1).
  { pose proof (Core_walk _ _ _ HC) as Hw. unfold events in Hw. rewrite HQ, !fmap_app in Hw.
    apply (walk_remove _ _ _ _ n) in Hw; [|apply Hat]. rewrite <- fmap_app, <- HP, fmap_app, walk_app, HV in Hw. done. }
  split.
  - apply (Core_permuted x); try done.
    + by apply moved_perm.
    + intros m Hm. apply Hpz. by intros ->.
    + intros c' [= <-]. change (queue_ z) with (P ++ s ++ R). by rewrite <- (moved_perm P R HP).
    + change (events z) with (P ++ s ++ R).*2. rewrite !fmap_app, walk_app, (Hext P) by set_solver. rewrite HV. cbn [mbind option_bind].
      rewrite walk_app, (segment_walk (par z) None V n s.*2 Hseg) by congruence. cbn [mbind option_bind]. by rewrite (Hext R) by set_solver.
  - apply edited_nodes; try done.
    + intros m k. by rewrite (proj1 (Hdt m)).
    + intros m Hm. apply Hpz. intros ->. tauto.
    + intros m _. apply Hdt.
Qed.

(** The iterator of the filter is put before what came after the node. *)
Lemma moved_view P R c i :
  P ++ R = A ++ T -> c ∈ (queue_ x).*1 -> (P ++ s ++ R).*1 !! i = Some c ->
  view (moved_queue P R c) = mkDoc (P.*2 ++ s.*2 ++ R.*2) i (skip_increment_ x).
Proof.
  intros HP Hc Hi. unfold view. f_equal.
  - unfold events. cbn. by rewrite !fmap_app.
  - apply (place_lookup _ c); [|done|done]. cbn. rewrite <- (moved_perm P R HP). apply (Core_queue_nodup _ _ _ HC).
Qed.

(** Backwards: [A] is [P ++ B]. *)
Lemma d_move_back P B i : A = P ++ B -> B <> [] -> i = (length A + length s - 1)%nat ->
  d_move (length A) (length s) (length P) (view x) = mkDoc (P.*2 ++ s.*2 ++ (B ++ T).*2) i (skip_increment_ x).
Proof.
  intros HAB HB ->. unfold d_move. rewrite decide_True by (rewrite HAB, length_app; lia). apply Doc_eq; [|done|done]. cbn [doc view]. unfold events.
  rewrite HQ. destruct (take_drop_fmap snd A (s ++ T)) as [_ ->]. destruct (take_drop_fmap snd s T) as [-> _].
  rewrite (app_assoc A s T) at 3. rewrite <- length_app. destruct (take_drop_fmap snd (A ++ s) T) as [_ ->].
  rewrite HAB, <- !app_assoc. destruct (take_drop_fmap snd P (B ++ s ++ T)) as [-> ->]. rewrite length_app.
  replace (length P + length B - length P)%nat with (length B) by lia. destruct (take_drop_fmap snd B (s ++ T)) as [-> _]. by rewrite fmap_app.
Qed.

(** Forwards: [T] is [B ++ R]. *)
Lemma d_move_forth B R : T = B ++ R ->
  d_move (length A) (length s) (length A + length s + length B) (view x) =
  mkDoc ((A ++ B).*2 ++ s.*2 ++ R.*2) (match B with [] => (length A + length s - 1)%nat | _ => (length A - 1)%nat end) (skip_increment_ x).
Proof.
  intros HTB. assert (Hs : (0 < length s)%nat) by (destruct (at_first _ _ _ _ _ Hat) as (? & ? & ? & -> & _); cbn; lia).
  unfold d_move. rewrite decide_False by lia. apply Doc_eq; [| |done].
  - cbn [doc view]. unfold events. rewrite HQ, HTB. destruct (take_drop_fmap snd A (s ++ B ++ R)) as [-> ->]. destruct (take_drop_fmap snd s (B ++ R)) as [-> _].
    rewrite (app_assoc A s (B ++ R)), <- length_app. destruct (take_drop_fmap snd (A ++ s) (B ++ R)) as [_ ->].
    replace (length (A ++ s) + length B - length (A ++ s))%nat with (length B) by lia. destruct (take_drop_fmap snd B R) as [-> _].
    rewrite (app_assoc (A ++ s)), <- length_app. destruct (take_drop_fmap snd ((A ++ s) ++ B) R) as [_ ->]. by rewrite fmap_app, <- app_assoc.
  - cbn [here]. destruct B as [|cell B]; cbn; [by rewrite decide_True by lia|by rewrite decide_False by lia].
Qed.

Lemma splice_ok P R t te R' b :
  P ++ R = A ++ T -> R = (t, te) :: R' -> front (s ++ T) = Some b ->
  splice (Some t) (Some b) (front T) x = Some (set_queue (P ++ s ++ R) x).
Proof.
  intros HP HR Hb. pose proof (Core_queue_nodup _ _ _ HC) as HN. unfold splice. rewrite <- Hb.
  assert (Hr : range (front (s ++ T)) (front T) (queue_ x) = Some (A, s, T)) by (rewrite HQ in *; by apply range_app).
  rewrite Hr. cbn [mbind option_bind]. rewrite <- HP.
  assert (HN2 : NoDup (P ++ R).*1).
  { rewrite HP. rewrite HQ, (Permutation_app_swap_app A s), fmap_app in HN. by apply NoDup_app_r in HN. }
  replace (Some t) with (front R) by by rewrite HR. by rewrite split_iter_app.
Qed.

Lemma MoveCurrentBeforeEvent_ok t te X Y m W :
  queue_ x = X ++ (t, te) :: Y -> GetNode te = Some m -> walk (par x) None S0 X.*2 = Some W ->
  current_ x <> None -> end_of n x = Some (current_ x) -> t ∉ s.*1 -> ((length A + length s < length X)%nat -> A <> []) ->
  exists P R c, MoveCurrentBeforeEvent (Some t) x = Some (touched (moved_queue P R c), true) /\ P ++ R = A ++ T /\ c ∈ (queue_ x).*1 /\
    walk (par x) None S0 P.*2 = Some W /\ view (moved_queue P R c) = d_move (length A) (length s) (length X) (view x).
Proof.
  intros HX Hm HW Hcur Hend Ht HA0. pose proof (Core_queue_nodup _ _ _ HC) as HN. pose proof (target_in t te X Y m HX Hm) as Hdesc.
  rewrite bool_decide_eq_false_2 in Hdesc by done.
  destruct (at_first _ _ _ _ _ Hat) as (b & evb & r & Hs & Hfb & Eb), (at_last _ _ _ _ _ Hat) as (r' & e & eve & Hs' & Hle & Ee).
  assert (Hc : current_ x = Some e) by congruence.
  assert (Hte : deref (Some t) (queue_ x) = Some te) by (rewrite HX in *; by apply deref_app).
  assert (HQe : queue_ x = (A ++ r') ++ (e, eve) :: T) by (by rewrite HQ, Hs', <- !app_assoc).
  assert (Hce : deref (Some e) (queue_ x) = Some eve) by (rewrite HQe in *; by apply deref_app).
  assert (Hne : next (Some e) (queue_ x) = Some (front T)) by (rewrite HQe in *; by apply next_app).
  assert (Hgo : forall P R R' c, P ++ R = A ++ T -> R = (t, te) :: R' -> prev (front T) (P ++ s ++ R) = Some (Some c) ->
    MoveCurrentBeforeEvent (Some t) x = Some (touched (moved_queue P R c), true)).
  { intros P R R' c HP HR Hpr. unfold MoveCurrentBeforeEvent. rewrite Hc, Hte. cbn [mbind option_bind]. rewrite Hce. cbn [mbind option_bind].
    rewrite (last_GetNode _ _ Hle). cbn [mbind option_bind]. rewrite Eb, Ee. cbn [mbind option_bind]. rewrite bool_decide_eq_true_2 by done.
    change (true && IsInEventWindow (Some b) && IsInEventWindow (Some e)) with true. cbn iota. rewrite Hm, Hdesc. cbn [mbind option_bind].
    rewrite Hne. cbn [mbind option_bind]. rewrite (splice_ok P R t te R' b HP HR) by by rewrite Hs. cbn [mbind option_bind queue_ set_queue].
    rewrite Hpr. done. }
  assert (Hqin : forall cell, cell ∈ A ++ s ++ T -> cell.1 ∈ (queue_ x).*1) by (intros cell Hi; rewrite HQ; by apply list_elem_of_fmap_2).
  assert (HNz : forall P R, P ++ R = A ++ T -> NoDup (P ++ s ++ R).*1) by (intros P R HP; by rewrite <- (moved_perm P R HP)).
  destruct (split3 X ((t, te) :: Y) A s T) as [(cell & k & HAk & HR)|[(k & cell & k' & HXk & Hsk & HR)|(k & HXk & HTk)]]; [by rewrite <- HX, HQ|..].
  - injection HR as <- HYk. set (R := ((t, te) :: k) ++ T).
    assert (HP : X ++ R = A ++ T) by (unfold R; by rewrite HAk, <- app_assoc).
    destruct (exists_last (l := (t, te) :: k)) as (l & [c evc] & Hl); [done|].
    assert (HPq : X ++ s ++ R = (X ++ s ++ l) ++ (c, evc) :: T) by (unfold R; by rewrite Hl, <- !app_assoc).
    assert (Hcin : c ∈ (queue_ x).*1).
    { apply (Hqin (c, evc)). rewrite HAk, Hl. set_solver. }
    exists X, R, c. split; [|split; [done|split; [done|split; [done|]]]].
    + apply (Hgo X R (k ++ T) c HP eq_refl). rewrite HPq. pose proof (HNz X R HP) as Hnz. rewrite HPq in Hnz. by apply prev_app.
    + rewrite (moved_view X R c (length A + length s - 1) HP Hcin); [symmetry; by apply d_move_back|].
      rewrite HPq, fmap_app. rewrite (lookup_after _ _ 0); [done|]. rewrite length_fmap, !length_app, HAk, Hl, !length_app. cbn. lia.
  - injection HR as <- HYk. destruct Ht. rewrite Hsk, fmap_app. set_solver.
  - set (R := (t, te) :: Y) in *. assert (HP : (A ++ k) ++ R = A ++ T) by by rewrite HTk, <- app_assoc.
    assert (HWk : walk (par x) None S0 (A ++ k).*2 = Some W).
    { rewrite HXk, !fmap_app in HW. rewrite fmap_app. by eapply (walk_remove _ _ _ _ n); [|apply Hat]. }
    assert (Hlast : exists c l ev k2, (A ++ k) ++ s ++ R = l ++ (c, ev) :: k2 ++ R /\ front (k2 ++ R) = front T /\ c ∈ (queue_ x).*1 /\
      length l = (match k with [] => (length A + length s - 1)%nat | _ => (length A - 1)%nat end)).
    { destruct k as [|cell k].
      - exists e, (A ++ r'), eve, []. rewrite app_nil_r, Hs', <- !app_assoc, HTk. split; [done|]. split; [done|]. split.
        + apply (Hqin (e, eve)). rewrite Hs'. set_solver.
        + rewrite !length_app. cbn. lia.
      - assert (HAne : A <> []) by (apply HA0; rewrite HXk, !length_app; cbn; lia). destruct (exists_last HAne) as (A' & [c evc] & HA').
        exists c, A', evc, ((cell :: k) ++ s). rewrite HA', <- !app_assoc. split; [done|]. split; [by rewrite HTk|]. split.
        + apply (Hqin (c, evc)). rewrite HA'. set_solver.
        + rewrite length_app. cbn. lia. }
    destruct Hlast as (c & l & evc & k2 & Hl & Hf & Hcin & Hlen).
    exists (A ++ k), R, c. split; [|split; [done|split; [done|split; [done|]]]].
    + apply (Hgo (A ++ k) R Y c HP eq_refl). pose proof (HNz (A ++ k) R HP) as Hnz. rewrite Hl in *. rewrite <- Hf. by apply prev_app.
    + rewrite (moved_view (A ++ k) R c (length l) HP Hcin).
      * rewrite HXk, !length_app. rewrite Nat.add_assoc. rewrite (d_move_forth k R HTk). by rewrite Hlen.
      * rewrite Hl, fmap_app, (lookup_after _ _ 0) by (rewrite length_fmap; lia). done.
Qed.
End move.

(** ** Moving the current node *)

Lemma current_event_at x S0 S1 ev n :
  Core x S0 S1 -> current_event x = Some ev -> GetNode ev = Some n ->
  exists c A R, queue_ x = A ++ (c, ev) :: R /\ current_ x = Some c /\ place x = length A /\ is_Some (data n x) /\
    (last_event n ev -> end_of n x = Some (Some c)) /\ (end_of n x = Some (Some c) -> last_event n ev).
Proof.
  intros HC Hev En. assert (Hcur : is_Some (current_ x)) by (unfold current_event in Hev; destruct (current_ x); [by eexists|done]).
  destruct (current_cell x (Core_wf _ _ _ HC) Hcur) as (A & c & ev' & R & HQ & Hc & Hpl & Hev'). assert (ev' = ev) as -> by congruence.
  exists c, A, R. do 3 (split; [done|]). assert (Hi : (c, ev) ∈ queue_ x) by (rewrite HQ; set_solver).
  pose proof (Core_link _ _ _ HC _ _ Hi) as Hl. unfold end_of.
  assert (Hd : is_Some (data n x)) by (destruct ev as [| |k|k|k]; try done; injection En as ->; destruct Hl as [_ (d & E & _)]; by exists d).
  split; [done|]. split.
  - intros [-> | ->]; cbn in Hl; destruct Hl as [_ (d & E & _ & Ee)]; rewrite E; cbn; f_equal; tauto.
  - intros He. destruct Hd as [d E]. rewrite E in He. cbn in He. injection He as He.
    destruct (end_event x S0 S1 HC n d c E He) as (ev2 & Hi2 & Hl2); [by apply (list_elem_of_fmap_2 fst) in Hi|].
    assert (ev2 = ev) as -> by (eapply pair_unique; [apply (Core_queue_nodup _ _ _ HC)|done..]). done.
Qed.

(** No sequence of moves may step over the beginning of the window. *)
Definition move_inside (n j : nat) (d : Doc) : bool :=
  match first_at n d, last_at n d with Some O, Some l => bool_decide (j <= S l)%nat | _, _ => true end.

Lemma MoveCurrent_good x S0 S1 n ev t te X Y m W np :
  Core x S0 S1 -> current_event x = Some ev -> GetNode ev = Some n -> in_window n x = true ->
  queue_ x = X ++ (t, te) :: Y -> GetNode te = Some m -> walk (par x) None S0 X.*2 = Some W -> np = top None W ->
  move_inside n (length X) (view x) = true ->
  exists y r, MoveCurrentBeforeEvent (Some t) x = Some (y, r) /\ (r = false -> y = x) /\ (forall k, parent k y = parent k x) /\
    let z := if r then set_parent n np y else y in Core z S0 S1 /\ edited x z /\ (view z, r) = d_move_current n (length X) (view x).
Proof.
  intros HC Hev En Hw HX Hm HW Hnp Hin. destruct (current_event_at x S0 S1 ev n HC Hev En) as (c & B & R & HB & Hc & Hpl & [d E] & He1 & He2).
  pose proof (Core_queue_nodup _ _ _ HC) as HN. assert (Hde : deref (Some c) (queue_ x) = Some ev) by (rewrite HB in *; by apply deref_app).
  assert (Hte : deref (Some t) (queue_ x) = Some te) by (rewrite HX in *; by apply deref_app).
  destruct (decide (end_of n x = Some (Some c) /\ IsRewritableIgnoringDeferral n x = true)) as [[He Hr]|Hno].
  - destruct (complete_node x S0 S1 n HC Hr Hw) as (A & s & T & Hat). destruct (node_at_span x S0 S1 n A s T HC Hat) as (H1 & H2 & H3).
    assert (Hh : here (view x) = (length A + length s - 1)%nat).
    { cbn. rewrite (last_at_app x S0 S1 HC B c ev R n HB (He2 He)) in H2. injection H2 as <-. done. }
    assert (Hts : t ∈ s.*1 <-> (length A <= length X <= length A + length s - 1)%nat).
    { pose proof (at_queue _ _ _ _ _ Hat) as HQ. rewrite HQ in HX. assert (HNs : NoDup (A ++ s ++ T).*1) by by rewrite <- HQ. rewrite !fmap_app in HNs.
      apply NoDup_app in HNs as (_ & HNA & HNs). apply NoDup_app in HNs as (_ & HNT & _).
      destruct (split3 X ((t, te) :: Y) A s T (eq_sym HX)) as [(cell & k & HAk & HR)|[(k & cell & k' & HXk & Hsk & HR)|(k & HXk & HTk)]].
      - injection HR as <- _. split; [|rewrite HAk, length_app; cbn; lia]. intros Hi. exfalso. apply (HNA t); [rewrite HAk, fmap_app; cbn; set_solver|set_solver].
      - injection HR as <- _. split; [|intros _; rewrite Hsk, fmap_app; set_solver]. intros _. rewrite HXk, Hsk, !length_app. cbn. lia.
      - split; [|rewrite HXk, !length_app; lia]. intros Hi. exfalso. apply (HNT t Hi). rewrite HTk, fmap_app. set_solver. }
    unfold d_move_current. rewrite H1, H2. destruct (decide (t ∈ s.*1)) as [Hi|Hni].
    + exists x, false. rewrite decide_False by (intros [_ Hx]; by apply Hx, Hts). split; [|split; [done|split; [done|split; [done|split; [apply edited_refl|done]]]]].
      unfold MoveCurrentBeforeEvent. rewrite Hc, Hte. cbn [mbind option_bind]. rewrite Hde. cbn [mbind option_bind]. rewrite En. cbn [mbind option_bind].
      destruct (at_first _ _ _ _ _ Hat) as (b & ? & ? & _ & _ & Eb). rewrite Eb, He. cbn [mbind option_bind]. rewrite bool_decide_eq_true_2 by done.
      change (true && IsInEventWindow (Some b) && IsInEventWindow (Some c)) with true. cbn iota.
      rewrite Hm, (target_in x S0 S1 n A s T HC Hat t te X Y m HX Hm), bool_decide_eq_true_2 by done. done.
    + destruct (MoveCurrentBeforeEvent_ok x S0 S1 n A s T HC Hat t te X Y m W HX Hm HW) as (P & R' & c' & Ex & HP & Hcin & HWP & Hv);
        [by rewrite Hc|by rewrite Hc| done| |].
      { intros Hlt ->. unfold move_inside in Hin. rewrite H1, H2 in Hin. cbn in Hin, Hlt. apply bool_decide_eq_true in Hin. lia. }
      exists (touched (moved_queue x s P R' c')), true. split; [done|]. split; [done|]. split; [done|]. cbn zeta. cbn iota.
      destruct (moved_core x S0 S1 n A s T HC Hat P R' c' W np HP Hcin HWP Hnp) as [HCz Hez]. split; [done|]. split; [done|].
      rewrite decide_True by (split; [done|by rewrite <- Hts]).
      replace (S (length A + length s - 1) - length A)%nat with (length s) by lia. by rewrite <- Hv.
  - exists x, false. split; [|split; [done|split; [done|split; [done|split; [apply edited_refl|]]]]].
    + unfold MoveCurrentBeforeEvent. rewrite Hc, Hte. cbn [mbind option_bind]. rewrite Hde. cbn [mbind option_bind]. rewrite En. cbn [mbind option_bind].
      unfold IsRewritableIgnoringDeferral, begin, end_of in *. rewrite E in *. cbn [fmap option_fmap option_map mbind option_bind].
      destruct (bool_decide (Some c = end_ d)) eqn:Eb; [|done]. apply bool_decide_eq_true in Eb. cbn [andb].
      destruct (IsInEventWindow (begin_ d)) eqn:Ew; [|done]. destruct Hno. split; [cbn; congruence|]. unfold in_window in Hw. rewrite E in Hw.
      apply andb_true_iff in Hw as [[Hl _]%andb_true_iff _]. by rewrite Hl, <- Eb.
    + unfold d_move_current. destruct (first_at n (view x)) as [i|] eqn:E1; [|done]. destruct (last_at n (view x)) as [l|] eqn:E2; [|done].
      cbn iota. rewrite decide_False; [done|]. intros [Hl _]. apply Hno.
      destruct (first_at_Some x S0 S1 HC n i E1) as (? & b & ? & ? & _ & _ & _ & Eb & Hlv).
      destruct (last_at_Some x S0 S1 HC n l E2) as (A' & c' & ev' & R' & HQ' & Hl' & _ & Ee & _). cbn in Hl.
      assert (c' = c) as ->.
      { rewrite HB in HQ'. apply app_inj_1 in HQ' as [_ HQ']; [by injection HQ'|congruence]. }
      split; [done|]. unfold IsRewritableIgnoringDeferral, IsInEventWindow, begin, end_of, live in *. rewrite E in *. cbn in Eb, Ee.
      injection Eb as ->. injection Ee as ->. by rewrite Hlv.
Qed.

Lemma current_doc x S0 S1 ev : Core x S0 S1 -> current_event x = Some ev -> events x !! place x = Some ev.
Proof.
  intros HC Hev. assert (Hcur : is_Some (current_ x)) by (unfold current_event in Hev; destruct (current_ x); [by eexists|done]).
  destruct (current_cell x (Core_wf _ _ _ HC) Hcur) as (A & c & ev' & R & HQ & _ & -> & Hev'). assert (ev' = ev) as -> by congruence.
  unfold events. rewrite HQ, fmap_app, (lookup_after _ _ 0) by (rewrite length_fmap; lia). done.
Qed.

(** The result of both operations. *)
Definition move_good (S0 S1 : list nat) (x : HtmlParse) (r : option (HtmlParse * bool)) (d : Doc * bool) : Prop :=
  exists z b, r = Some (z, b) /\ Core z S0 S1 /\ edited x z /\ (view z, b) = d.

(** Where the node [m] ends, or where it begins, if it does in the window. *)
Definition target_ok (m : nat) (it : option nat) (j : option nat) (ev : HtmlEvent) (x : HtmlParse) : Prop :=
  live m x = true -> in_queue it x = true /\
  match GetNode ev, j with Some n, Some j => in_window n x = true /\ move_inside n j (view x) = true | _, _ => True end.

Lemma MoveCurrentInto_good x S0 S1 m ev n it :
  Core x S0 S1 -> current_event x = Some ev -> GetNode ev = Some n -> kind m x = Some ElementNode ->
  (live m x = true -> end_of m x = Some it) -> target_ok m it (last_at m (view x)) ev x ->
  move_good S0 S1 x (MoveCurrentInto m x) (d_move_here (last_at m (view x)) (view x)).
Proof.
  intros HC Hev En Hk Hit Hok. destruct (current_event_at x S0 S1 ev n HC Hev En) as (c & B & R & HB & Hc & Hpl & _).
  assert (Hde : deref (Some c) (queue_ x) = Some ev) by (pose proof (Core_queue_nodup _ _ _ HC) as HN; rewrite HB in *; by apply deref_app).
  unfold d_move_here. cbn [doc here view]. rewrite (current_doc x S0 S1 ev HC Hev). cbn [mbind option_bind]. rewrite En.
  unfold MoveCurrentInto, move_good. rewrite Hc. destruct (live m x) eqn:El.
  2:{ exists x, false. split; [done|]. split; [done|]. split; [apply edited_refl|].
      destruct (last_at m (view x)) as [j|] eqn:Ej; [|done]. destruct (last_at_Some x S0 S1 HC m j Ej) as (? & ? & ? & ? & _ & _ & _ & _ & El'). congruence. }
  specialize (Hit eq_refl). destruct (Hok El) as [Hq Hn]. rewrite En in Hn. rewrite Hde. cbn [mbind option_bind]. rewrite Hit. cbn [mbind option_bind].
  destruct it as [t|].
  2:{ exists x, false. split; [done|]. split; [done|]. split; [apply edited_refl|].
      destruct (last_at m (view x)) as [j|] eqn:Ej; [|done]. destruct (last_at_Some x S0 S1 HC m j Ej) as (? & ? & ? & ? & _ & _ & _ & Ee & _). congruence. }
  cbn in Hq. apply bool_decide_eq_true in Hq. destruct (at_end x S0 S1 m t HC Hit Hq) as (X & te & Y & W & HX & Hte & _ & Hp & HW).
  destruct (HW Hk) as [-> HW']. pose proof (last_at_app x S0 S1 HC X t _ Y m HX (or_introl eq_refl)) as Hj. rewrite Hj in *. destruct Hn as [Hn1 Hn2].
  destruct (MoveCurrent_good x S0 S1 n ev t (EndElementEvent m) X Y m (m :: W) (Some m)) as (y & r & Ey & Hy & _ & HCz & Hez & Hv); try done.
  rewrite Ey. cbn [mbind option_bind]. destruct r; [|rewrite Hy in * by done; by exists x, false]. rewrite En. cbn [mbind option_bind]. by eexists _, _.
Qed.

Lemma MoveCurrentBefore_good x S0 S1 m ev n it :
  Core x S0 S1 -> current_event x = Some ev -> GetNode ev = Some n ->
  (live m x = true -> begin m x = Some it) -> target_ok m it (first_at m (view x)) ev x ->
  move_good S0 S1 x (MoveCurrentBefore m x) (d_move_here (first_at m (view x)) (view x)).
Proof.
  intros HC Hev En Hit Hok. destruct (current_event_at x S0 S1 ev n HC Hev En) as (c & B & R & HB & Hc & Hpl & _).
  assert (Hde : deref (Some c) (queue_ x) = Some ev) by (pose proof (Core_queue_nodup _ _ _ HC) as HN; rewrite HB in *; by apply deref_app).
  unfold d_move_here. cbn [doc here view]. rewrite (current_doc x S0 S1 ev HC Hev). cbn [mbind option_bind]. rewrite En.
  unfold MoveCurrentBefore, move_good. rewrite Hc. destruct (live m x) eqn:El.
  2:{ exists x, false. split; [done|]. split; [done|]. split; [apply edited_refl|].
      destruct (first_at m (view x)) as [j|] eqn:Ej; [|done]. destruct (first_at_Some x S0 S1 HC m j Ej) as (? & ? & ? & ? & _ & _ & _ & _ & El'). congruence. }
  specialize (Hit eq_refl). destruct (Hok El) as [Hq Hn]. rewrite En in Hn. rewrite Hde. cbn [mbind option_bind]. rewrite Hit. cbn [mbind option_bind].
  destruct it as [t|].
  2:{ exists x, false. split; [done|]. split; [done|]. split; [apply edited_refl|].
      destruct (first_at m (view x)) as [j|] eqn:Ej; [|done]. destruct (first_at_Some x S0 S1 HC m j Ej) as (? & ? & ? & ? & _ & _ & _ & Ee & _). congruence. }
  cbn in Hq. apply bool_decide_eq_true in Hq. destruct (at_begin x S0 S1 m t HC Hit Hq) as (X & te & Y & W & HX & Hte & HW & Hp).
  pose proof (first_at_app x S0 S1 HC X t _ Y m HX Hte) as Hj. rewrite Hj in *. destruct Hn as [Hn1 Hn2].
  destruct (MoveCurrent_good x S0 S1 n ev t te X Y m W (par x m)) as (y & r & Ey & Hy & Hpy & HCz & Hez & Hv); try done; [by apply first_GetNode|].
  rewrite Ey. cbn [mbind option_bind]. destruct r; [|rewrite Hy in * by done; by exists x, false]. rewrite En, Hpy, (begin_parent _ _ _ Hit).
  cbn [mbind option_bind]. by eexists _, _.
Qed.
