(* ===== verification/HtmlParseDefer.v ===== *)
(** * The HTML parser: deferring a node

    [DeferCurrentNode] splices the cells of a node out of the window into a list of its
    own, and [RestoreDeferredNode] splices them in after the current event. *)

From S2P Require Import Prelude StringUtil HtmlKeywords HtmlLexer HtmlParse HtmlParseWalk HtmlParseInv HtmlParseDoc HtmlParseEdit HtmlParseDelete HtmlParseUnwrap HtmlParseMove.

(** ** Deferring *)

Section defer.
Context (x : HtmlParse) (S0 S1 : list nat) (n : nat) (A s T : Cells).
Hypothesis HC : Core x S0 S1.
Hypothesis Hat : node_at x n A s T.
Hypothesis Hnd : IsDeferred n x = false.

Definition deferred_state : HtmlParse :=
  touched (set_deferred_nodes (<[n := s]> (deferred_nodes_ x)) (set_queue (A ++ T) (set_skip_increment true (set_current (front T) x)))).

Lemma not_deferred : deferred_nodes_ x !! n = None.
Proof. unfold IsDeferred in Hnd. apply bool_decide_eq_false in Hnd. by apply eq_None_not_Some. Qed.

Lemma deferred_state_cells : cells x ≡ₚ cells deferred_state.
Proof.
  unfold cells, deferred_cells. change (queue_ deferred_state) with (A ++ T). change (deferred_nodes_ deferred_state) with (<[n := s]> (deferred_nodes_ x)).
  rewrite (map_to_list_insert _ _ _ not_deferred). cbn [fmap list_fmap snd mjoin list_join]. rewrite (at_queue _ _ _ _ _ Hat), <- !app_assoc.
  apply Permutation_app_head. by rewrite (Permutation_app_swap_app s T).
Qed.

Lemma deferred_state_core : Core deferred_state S0 S1.
Proof.
  pose proof HC as [HW Hwk HN0 Hch Ho Htp Hop]. split; [|rewrite <- Hwk|done|done| |done|done].
  - apply (Wf_perm x); try done; [apply deferred_state_cells|]. intros c Hc. by apply (front_in A).
  - unfold events in *. rewrite (at_queue _ _ _ _ _ Hat), !fmap_app in *. rewrite Hwk.
    change (queue_ deferred_state) with (A ++ T). rewrite fmap_app. eapply walk_remove; [exact Hwk|apply Hat].
  - intros m Hm Hi. apply (Ho m Hm). unfold events in *. change (queue_ deferred_state) with (A ++ T) in Hi.
    rewrite (at_queue _ _ _ _ _ Hat). rewrite !fmap_app in *. set_solver.
Qed.

Lemma deferred_state_view : (length A <= place x < length A + length s)%nat ->
  view deferred_state = d_remove (length A) (length s) (view x).
Proof.
  intros Hp. apply Doc_eq.
  - cbn [doc d_remove view]. unfold events. change (queue_ deferred_state) with (A ++ T). rewrite (at_queue _ _ _ _ _ Hat).
    destruct (take_drop_fmap snd A (s ++ T)) as [-> _]. rewrite app_assoc, <- length_app. destruct (take_drop_fmap snd (A ++ s) T) as [_ ->].
    by rewrite fmap_app.
  - cbn [here d_remove view]. rewrite decide_False by lia. rewrite bool_decide_eq_true_2 by done.
    apply (place_eq _ A T); [|done|done]. apply (Core_queue_nodup _ _ _ deferred_state_core).
  - cbn [gone d_remove view]. change (skip_increment_ deferred_state) with true. rewrite bool_decide_eq_true_2 by done. by rewrite orb_true_r.
Qed.

Lemma DeferCurrentNode_at c ev B R :
  queue_ x = B ++ (c, ev) :: R -> current_ x = Some c -> GetNode ev = Some n ->
  match current_filter_ x with Some f => open_deferred_nodes_ x !! f = None | None => True end ->
  DeferCurrentNode x = Some deferred_state /\ (length A <= place x < length A + length s)%nat.
Proof.
  intros HB Hc En Hf. pose proof (Core_queue_nodup _ _ _ HC) as HN.
  destruct (at_first _ _ _ _ _ Hat) as (b & evb & r & Hs & Hfb & Eb), (at_last _ _ _ _ _ Hat) as (r' & e & eve & Hs' & Hle & Ee).
  assert (Hde : deref (current_ x) (queue_ x) = Some ev) by (rewrite Hc, HB in *; by apply deref_app).
  assert (Hcells : c ∈ s.*1).
  { eapply (balanced_cells x S0 S1 A s T _ HC (at_queue _ _ _ _ _ Hat) (node_walk x n A s T Hat) n c ev); [by eapply node_listed| |done].
    apply queue_cells. rewrite HB. set_solver. }
  split; [|by eapply (current_inside x S0 S1 n A s T c)]. unfold DeferCurrentNode. rewrite Hde. cbn [mbind option_bind]. rewrite En. cbn [mbind option_bind].
  rewrite Eb, Ee. cbn [mbind option_bind]. assert (Hl : live n x = true).
  { assert (Hi : (b, evb) ∈ queue_ x) by (rewrite (at_queue _ _ _ _ _ Hat), Hs; set_solver). apply (Core_link _ _ _ HC) in Hi. unfold live.
    destruct Hfb as [-> | ->]; cbn in Hi; destruct Hi as [_ (d & -> & El & _)]; done. }
  rewrite Hl, Hnd. assert (Hfo : match current_filter_ x with Some f => bool_decide (is_Some (open_deferred_nodes_ x !! f)) | None => false end = false).
  { destruct (current_filter_ x) as [f|]; [|done]. rewrite Hf. by apply bool_decide_eq_false_2; intros [? ?]. }
  rewrite Hfo. change (true && negb false && negb false && IsInEventWindow (Some b)) with true. cbn iota.
  assert (Hne : next (Some e) (queue_ x) = Some (front T)).
  { replace (queue_ x) with ((A ++ r') ++ (e, eve) :: T) in *; [by apply next_app|]. by rewrite (at_queue _ _ _ _ _ Hat), Hs', <- !app_assoc. }
  rewrite Hne. cbn [mbind option_bind]. change (queue_ (set_skip_increment true (set_current (front T) x))) with (queue_ x).
  assert (Hr : range (Some b) (front T) (queue_ x) = Some (A, s, T)).
  { replace (Some b) with (front (s ++ T)) by by rewrite Hs. rewrite (at_queue _ _ _ _ _ Hat) in *. by apply range_app. }
  by rewrite Hr.
Qed.
End defer.

(** ** Restoring *)

Lemma segment_head par n (L : Cells) : segment par n L.*2 -> exists b ev r, L = (b, ev) :: r /\ first_event n ev.
Proof.
  intros [H|(M & H & _)]; destruct L as [|[b ev] r]; try done; injection H as -> _;
    [exists b, (LeafNodeEvent n), r|exists b, (StartElementEvent n), r]; (split; [done|]); [by right|by left].
Qed.
Lemma in_snd (L : Cells) ev : ev ∈ L.*2 -> exists c, (c, ev) ∈ L.
Proof. intros ([c ev'] & -> & Hi)%list_elem_of_fmap. by exists c. Qed.

Section restore.
Context (x : HtmlParse) (S0 S1 : list nat) (d : nat) (L : Cells).
Hypothesis HC : Core x S0 S1.
Hypothesis HL : deferred_nodes_ x !! d = Some L.
Hypothesis Hseg : segment (par x) d L.*2.

Lemma restore_cells : deferred_cells x ≡ₚ L ++ mjoin (map_to_list (delete d (deferred_nodes_ x))).*2.
Proof. unfold deferred_cells. rewrite <- (map_to_list_delete _ _ _ HL). done. Qed.

Lemma deferred_link c ev : (c, ev) ∈ L -> linked x c ev.
Proof. intros Hi. apply (Wf_link x (Core_wf _ _ _ HC)). apply elem_of_app. right. by eapply in_deferred. Qed.

(** The node has no other cells. *)
Lemma restore_only c ev : (c, ev) ∈ cells x -> GetNode ev = Some d -> c ∈ L.*1.
Proof.
  intros Hi En. pose proof (Wf_link x (Core_wf _ _ _ HC) c ev Hi) as Hl.
  destruct Hseg as [H|(M & H & _)].
  - destruct (in_snd L (LeafNodeEvent d)) as [b Hb]; [rewrite H; by left|]. pose proof (deferred_link _ _ Hb) as Hl0.
    destruct ev as [| |k|k|k]; try done; injection En as ->; cbn in *; try naive_solver congruence.
    assert (c = b) as -> by naive_solver congruence. by apply (list_elem_of_fmap_2 fst) in Hb.
  - destruct (in_snd L (StartElementEvent d)) as [b Hb]; [rewrite H; by left|].
    destruct (in_snd L (EndElementEvent d)) as [e He]; [rewrite H; set_solver|]. pose proof (deferred_link _ _ Hb) as L1. pose proof (deferred_link _ _ He) as L2.
    destruct ev as [| |k|k|k]; try done; injection En as ->; cbn in *.
    + assert (c = b) as -> by naive_solver congruence. by apply (list_elem_of_fmap_2 fst) in Hb.
    + assert (c = e) as -> by naive_solver congruence. by apply (list_elem_of_fmap_2 fst) in He.
    + naive_solver congruence.
Qed.

Lemma restore_unlisted c ev l : l ≡ₚ queue_ x \/ l ≡ₚ mjoin (map_to_list (delete d (deferred_nodes_ x))).*2 ->
  (c, ev) ∈ l -> GetNode ev <> Some d.
Proof.
  intros Hl Hi En. pose proof (Wf_nodup x (Core_wf _ _ _ HC)) as HN. unfold cells in HN. rewrite restore_cells, !fmap_app in HN.
  apply NoDup_app in HN as (_ & HN1 & HN). apply NoDup_app in HN as (_ & HN2 & _).
  assert (Hc : c ∈ L.*1).
  { apply (restore_only c ev); [|done]. unfold cells. rewrite restore_cells. destruct Hl as [Hl|Hl]; rewrite Hl in Hi; set_solver. }
  destruct Hl as [Hl|Hl]; rewrite Hl in Hi; apply (list_elem_of_fmap_2 fst) in Hi; cbn in Hi.
  - apply (HN1 c Hi). apply elem_of_app. by left.
  - by apply (HN2 c Hc).
Qed.

(** The state with the cells of the node between [P] and [R]. *)
Definition restored_state (P R : Cells) (np : option nat) : HtmlParse :=
  touched (set_current (front L) (set_queue (P ++ L ++ R)
    (set_skip_increment false (set_parent d np (set_deferred_nodes (delete d (deferred_nodes_ x)) x))))).

Lemma restored_core P R V np :
  queue_ x = P ++ R -> walk (par x) None S0 P.*2 = Some V -> np = top None V ->
  let z := restored_state P R np in
  Core z S0 S1 /\ (forall m, m <> d -> par z m = par x m) /\ (forall m, kind m z = kind m x /\ data m z = data m x) /\ d ∉ lexer_stack_ x.
Proof.
  intros HQ HV Hnp z. pose proof HC as [HW Hwk HN0 Hch Ho Htp Hop].
  destruct (segment_head _ _ _ Hseg) as (b & evb & r & HLb & Hfb).
  assert (Hd : forall m, kind m z = kind m x /\ data m z = data m x).
  { intros m. change (kind m z) with (kind m (set_parent d np x)). change (data m z) with (data m (set_parent d np x)).
    by rewrite kind_set_parent, data_set_parent. }
  assert (Hnode : is_Some (nodes_ x !! d)).
  { pose proof (deferred_link b evb ltac:(rewrite HLb; by left)) as Hl. destruct Hfb as [-> | ->]; cbn in Hl; destruct Hl as [_ (dd & E & _)]; by eapply data_node. }
  assert (Hpz : forall m, m <> d -> par z m = par x m).
  { intros m Hm. change (par z m) with (par (set_parent d np x) m). by apply par_set_parent_ne. }
  assert (Hpd : par z d = np) by (change (par z d) with (par (set_parent d np x) d); by rewrite par_set_parent, decide_True).
  assert (Hend : exists dd, data d x = Some dd /\ end_ dd <> None).
  { destruct Hseg as [H|(M & H & _)].
    - rewrite HLb in H. injection H as ->. pose proof (deferred_link b (LeafNodeEvent d) ltac:(rewrite HLb; by left)) as [_ (dd & E & _ & _ & Ee)]. exists dd.
      split; [done|congruence].
    - destruct (in_snd L (EndElementEvent d)) as [e Hi']; [rewrite H; set_solver|].
      destruct (deferred_link _ _ Hi') as [_ (dd & E & _ & Ee)]. exists dd. split; [done|congruence]. }
  assert (Hst : d ∉ lexer_stack_ x).
  { intros Hi. destruct (Hop d Hi) as (d1 & E1 & _ & Ee1), Hend as (d2 & E2 & Ee2). congruence. }
  assert (Hd0 : d ∉ S0).
  { intros Hi. destruct (Core_base x S0 S1 d HC Hi) as [|[c Hc]]; [done|]. by apply (restore_unlisted c _ (queue_ x) (or_introl (reflexivity _)) Hc). }
  assert (Hext : forall l bot U, (forall cell, cell ∈ l -> cell ∈ queue_ x) -> walk (par z) bot U l.*2 = walk (par x) bot U l.*2).
  { intros l bot U Hl. apply walk_ext. intros ev m ([c ev'] & -> & Hi)%list_elem_of_fmap Em. apply Hpz. intros ->.
    by apply (restore_unlisted c ev' (queue_ x) (or_introl (reflexivity _)) (Hl _ Hi)). }
  assert (Hsz : segment (par z) d L.*2) by (eapply segment_ext; [|done]; intros ev m _ _ Hm; by rewrite Hpz).
  split; [|split; [done|split; [done|done]]]. split; [| |done| | |done|].
  - apply (Wf_perm x); try done.
    + unfold cells. rewrite restore_cells. change (queue_ z) with (P ++ L ++ R).
      change (deferred_cells z) with (mjoin (map_to_list (delete d (deferred_nodes_ x))).*2). rewrite HQ, <- !app_assoc.
      apply Permutation_app_head. rewrite (Permutation_app_swap_app R L). done.
    + intros c Hc. change (current_ z) with (front L) in Hc. change (queue_ z) with (P ++ L ++ R). apply front_in. rewrite HLb in *. done.
  - change (events z) with (P ++ L ++ R).*2. unfold events in Hwk. rewrite HQ, fmap_app, walk_app, HV in Hwk. cbn in Hwk.
    rewrite !fmap_app, walk_app, (Hext P) by (intros cell Hi; rewrite HQ; set_solver). rewrite HV. cbn [mbind option_bind].
    rewrite walk_app, (segment_walk (par z) None V d L.*2 Hsz) by congruence. cbn [mbind option_bind].
    by rewrite (Hext R) by (intros cell Hi; rewrite HQ; set_solver).
  - eapply chained_ext; [|done]. intros m Hm. apply Hpz. by intros ->.
  - intros m Hm Hi. assert (Hmd : m <> d) by (by intros ->). change (events z) with (P ++ L ++ R).*2 in Hi.
    rewrite (Permutation_app_swap_app P L), fmap_app in Hi. apply elem_of_app in Hi as [Hi|Hi]; [|apply (Ho m Hm); unfold events; by rewrite HQ].
    destruct (Core_base x S0 S1 m HC Hm) as [Hl|[c Hc]].
    + assert (H2 : exists ev, ev ∈ L.*2 /\ last_event m ev).
      { apply (segment_balanced _ _ _ m Hseg). exists (StartElementEvent m). split; [done|by left]. }
      destruct H2 as (ev & [c Hi2]%in_snd & Hle). apply deferred_link in Hi2. destruct (Hop m Hl) as (d1 & E1 & _ & Ee1).
      destruct Hle as [-> | ->]; cbn in Hi2; naive_solver congruence.
    + assert (H2 : exists ev, ev ∈ L.*2 /\ last_event m ev).
      { apply (segment_balanced _ _ _ m Hseg). exists (StartElementEvent m). split; [done|by left]. }
      destruct H2 as (ev & [c' Hi2]%in_snd & Hle). pose proof (deferred_link _ _ Hi2) as Hl2. pose proof (Core_link _ _ _ HC _ _ Hc) as Hl.
      assert (c' = c) as -> by (destruct Hle as [-> | ->]; cbn in Hl, Hl2; naive_solver congruence).
      pose proof (Wf_nodup x HW) as HN. unfold cells in HN. rewrite restore_cells, !fmap_app in HN. apply NoDup_app in HN as (_ & HN & _).
      apply (list_elem_of_fmap_2 fst) in Hc, Hi2. apply (HN c Hc). apply elem_of_app. by left.
  - intros m Hm. change (lexer_stack_ z) with (lexer_stack_ x) in Hm. rewrite (proj2 (Hd m)). by apply Hop.
Qed.
End restore.

Lemma set_skip_same v x : skip_increment_ x = v -> set_skip_increment v x = x.
Proof. intros <-. by destruct x. Qed.

(** A node is put back after the current event, or, when the current node has just been
    taken away, before the event that followed it; then that may only be a leaf. *)
Definition restore_at (d : Doc) : nat := if gone d then here d else S (here d).

Lemma RestoreDeferredNode_good x S0 S1 d L ev k :
  Core x S0 S1 -> deferred_nodes_ x !! d = Some L -> segment (par x) d L.*2 -> d ∉ deferred_deleted_nodes_ x ->
  current_event x = Some ev -> GetNode ev = Some k -> (skip_increment_ x = true -> ev = LeafNodeEvent k) ->
  exists P R V np, RestoreDeferredNode d x = Some (restored_state x d L P R np) /\
    queue_ x = P ++ R /\ walk (par x) None S0 P.*2 = Some V /\ np = top None V /\
    view (restored_state x d L P R np) = (let i := restore_at (view x) in mkDoc (doc (d_insert i L.*2 (view x))) i false).
Proof.
  intros HC HL Hseg Hdel Hev Ek Hsk. destruct (current_event_at x S0 S1 ev k HC Hev Ek) as (c & A & T & HQ & Hc & Hpl & [dk Edk] & _ & _).
  pose proof (Core_queue_nodup _ _ _ HC) as HN. destruct (segment_head _ _ _ Hseg) as (b & evb & r & HLb & Hfb).
  assert (Hde : deref (current_ x) (queue_ x) = Some ev) by (rewrite Hc, HQ in *; by apply deref_app).
  destruct (at_cell x S0 S1 A c ev T HC HQ) as (U & U' & HU & HU' & Hrel).
  assert (Hbd : exists dd, data d x = Some dd /\ is_live_ dd = true /\ begin_ dd = Some b /\ end_ dd <> None).
  { destruct Hseg as [H|(M & H & _)].
    - assert (Hb : (b, LeafNodeEvent d) ∈ L) by (rewrite HLb in *; injection H as -> _; by left).
      destruct (deferred_link x S0 S1 d L HC HL _ _ Hb) as [_ (dd & E & El & Eb & Ee)]. exists dd. split; [done|]. split; [done|]. split; congruence.
    - assert (Hb : (b, StartElementEvent d) ∈ L) by (rewrite HLb in *; injection H as -> _; by left).
      destruct (deferred_link x S0 S1 d L HC HL _ _ Hb) as [_ (dd & E & El & Eb)].
      destruct (in_snd L (EndElementEvent d)) as [e He]; [rewrite H; set_solver|].
      destruct (deferred_link x S0 S1 d L HC HL _ _ He) as [_ (dd' & E' & _ & Ee)]. exists dd. split; [done|]. split; [done|]. split; congruence. }
  destruct Hbd as (dd & Ed & Eld & Ebd & Eed).
  set (np := match GetElementIfStartEvent ev with Some e => Some e | None => par x k end).
  assert (Hgo : forall P R, queue_ x = P ++ R ->
    (NextEvent (set_parent d np (set_deferred_nodes (delete d (deferred_nodes_ x)) x)) =
     Some (set_current (front R) (set_skip_increment false (set_parent d np (set_deferred_nodes (delete d (deferred_nodes_ x)) x))))) ->
    RestoreDeferredNode d x = Some (restored_state x d L P R np)).
  { intros P R HP Hnext. unfold RestoreDeferredNode. rewrite Hde. cbn [mbind option_bind].
    unfold IsRewritableIgnoringDeferral. rewrite Ed, Eld, Ebd. assert (Hee : IsInEventWindow (end_ dd) = true) by (unfold IsInEventWindow; by destruct (end_ dd)).
    rewrite Hee. rewrite bool_decide_eq_false_2 by done. change (true && IsInEventWindow (Some b) && true && negb false) with true. cbn iota.
    rewrite HL. cbn [mbind option_bind]. rewrite Ek. cbn [mbind option_bind].
    change (parent k (set_deferred_nodes (delete d (deferred_nodes_ x)) x)) with (parent k x). rewrite (data_parent _ _ _ Edk). cbn [mbind option_bind].
    fold np. rewrite Hnext. cbn [mbind option_bind]. cbn [current_ set_current queue_].
    assert (Hsp : split_iter (front R) (queue_ x) = Some (P, R)) by (rewrite HP in *; by apply split_iter_app).
    change (queue_ (set_skip_increment false (set_parent d np (set_deferred_nodes (delete d (deferred_nodes_ x)) x)))) with (queue_ x).
    rewrite Hsp. cbn [mbind option_bind].
    assert (Hb : begin d (set_current (front R) (set_skip_increment false (set_parent d np (set_deferred_nodes (delete d (deferred_nodes_ x)) x)))) = Some (Some b)).
    { unfold begin. change (data d _) with (data d (set_parent d np x)). rewrite data_set_parent, Ed. cbn. by rewrite Ebd. }
    rewrite Hb. cbn [mbind option_bind]. unfold restored_state. rewrite HLb. done. }
  assert (Hview : forall P R V, queue_ x = P ++ R -> walk (par x) None S0 P.*2 = Some V -> np = top None V -> restore_at (view x) = length P ->
    view (restored_state x d L P R np) = (let i := restore_at (view x) in mkDoc (doc (d_insert i L.*2 (view x))) i false)).
  { intros P R V HP HV Hnp Hi. destruct (restored_core x S0 S1 d L HC HL Hseg P R V np HP HV Hnp) as (HCz & _). cbn zeta. rewrite Hi.
    pose proof (Core_queue_nodup _ _ _ HCz) as HNz. apply Doc_eq; [| |done].
    - cbn [doc d_insert view]. unfold events. change (queue_ (restored_state x d L P R np)) with (P ++ L ++ R). rewrite HP.
      destruct (take_drop_fmap snd P R) as [-> ->]. by rewrite !fmap_app.
    - cbn [here view]. apply (place_eq _ P (L ++ R)); [done|done|]. rewrite HLb. done. }
  destruct (skip_increment_ x) eqn:Es.
  - pose proof (Hsk eq_refl) as Hleaf. subst ev. destruct Hrel as [Hp HU2]. exists A, ((c, LeafNodeEvent k) :: T), U, np.
    split; [|split; [done|split; [done|split; [exact Hp|]]]].
    + apply (Hgo A _ HQ). unfold NextEvent. cbn [skip_increment_ set_parent modify_node set_nodes set_deferred_nodes]. rewrite Es. f_equal.
      cbn [front head fst fmap option_fmap option_map]. rewrite <- Hc. done.
    + eapply Hview; [done|done|done|]. unfold restore_at. cbn. by rewrite Es.
  - exists (A ++ [(c, ev)]), T, U', np.
    assert (HP : queue_ x = (A ++ [(c, ev)]) ++ T) by (by rewrite HQ, <- app_assoc).
    assert (Hnp : np = top None U').
    { unfold np. destruct ev as [| |k'|k'|k']; try done; injection Ek as ->; destruct Hrel as [H1 H2]; cbn; [by rewrite H2|done|by rewrite H2]. }
    split; [|split; [done|split; [done|split; [done|]]]].
    + apply (Hgo _ _ HP). unfold NextEvent. cbn [skip_increment_ set_parent modify_node set_nodes set_deferred_nodes]. rewrite Es.
      change (next (current_ (set_parent d np (set_deferred_nodes (delete d (deferred_nodes_ x)) x)))
        (queue_ (set_parent d np (set_deferred_nodes (delete d (deferred_nodes_ x)) x)))) with (next (current_ x) (queue_ x)). rewrite Hc.
      assert (Hn : next (Some c) (queue_ x) = Some (front T)) by (rewrite HQ in *; by apply next_app).
      rewrite Hn. cbn [mbind option_bind]. f_equal. f_equal. symmetry. apply set_skip_same. done.
    + eapply Hview; [done|done|done|]. unfold restore_at. cbn. rewrite Es, Hpl, length_app. cbn. lia.
Qed.

(** ** Both keep the window sound *)

Lemma Sound_deferred_state x base S1 n A s T :
  Sound x base -> Core x base S1 -> lexer_stack_ x = delayed_element x ++ S1 -> node_at x n A s T -> IsDeferred n x = false ->
  Sound (deferred_state x n A s T) base.
Proof.
  intros [_ Hdf Hop Hel Hch Hli Hnd] HC HS Hat Hn. split; try done.
  - exists S1. split; [by eapply deferred_state_core|done].
  - intros d L. change (deferred_nodes_ (deferred_state x n A s T)) with (<[n := s]> (deferred_nodes_ x)).
    destruct (decide (d = n)) as [->|Hdn]; [rewrite lookup_insert_eq; intros [= <-]; apply Hat|rewrite lookup_insert_ne by done; apply Hdf].
Qed.

Lemma Sound_restored_state x base S1 d L P R V np :
  Sound x base -> Core x base S1 -> lexer_stack_ x = delayed_element x ++ S1 -> deferred_nodes_ x !! d = Some L ->
  queue_ x = P ++ R -> walk (par x) None base P.*2 = Some V -> np = top None V -> Sound (restored_state x d L P R np) base.
Proof.
  intros [_ Hdf Hop Hel Hch Hli Hnd] HC HS HL HQ HV Hnp.
  destruct (restored_core x base S1 d L HC HL (Hdf d L HL) P R V np HQ HV Hnp) as (HCz & Hpz & Hdz & Hst). set (z := restored_state x d L P R np) in *.
  split; try done.
  - by exists S1.
  - intros m M. change (deferred_nodes_ z) with (delete d (deferred_nodes_ x)). rewrite lookup_delete_Some. intros [Hmd HM].
    eapply segment_ext; [|by apply Hdf]. intros ev k ([c ev'] & -> & Hi)%list_elem_of_fmap Ek _. symmetry. apply Hpz. intros ->.
    apply (restore_unlisted x base S1 d L HC HL (Hdf d L HL) c ev' (mjoin (map_to_list (delete d (deferred_nodes_ x))).*2)); [by right| |done].
    apply list_elem_of_join. exists M. split; [done|]. apply list_elem_of_fmap. exists (m, M). split; [done|].
    apply elem_of_map_to_list. by rewrite lookup_delete_ne.
  - intros n Hn. rewrite (proj1 (Hdz n)). by apply Hel.
  - eapply chained_ext; [|exact Hch]. intros n Hn. apply Hpz. by intros ->.
  - intros n Hn. unfold is_literal, element_keyword. rewrite (proj2 (Hdz n)). by apply Hli.
Qed.
