(* ===== verification/HtmlParseOps.v ===== *)
(** * The HTML parser: the other operations of the filters

    Making nodes, the style of a tag, comments, and the filters' way through the window. *)

From S2P Require Import Prelude StringUtil HtmlKeywords HtmlLexer HtmlParse HtmlParseWalk HtmlParseInv HtmlParseDoc HtmlParseEdit HtmlParseDelete HtmlParseUnwrap.

(** ** Nodes *)

Lemma NewNode_good x S0 S1 k p c :
  Core x S0 S1 -> (match k, c with ElementNode, Tag _ _ _ | LeafNode _, Text _ => True | _, _ => False end) ->
  let '(x', n) := NewNode k p c x in good S0 S1 x (view x) x' /\ fresh n x' = true /\ par x' n = p /\ kind n x' = Some k.
Proof.
  intros HC Hkc. cbn [NewNode]. set (n := length (nodes_ x)). set (x' := set_nodes _ x).
  assert (Hold : forall m, (m < n)%nat -> nodes_ x' !! m = nodes_ x !! m) by (intros m Hm; unfold x'; cbn; by apply lookup_app_l).
  assert (Hnew : nodes_ x' !! n = Some (mkNode k p (Some (mkData c true None None)))).
  { unfold x'. cbn. rewrite lookup_app_r by done. by rewrite Nat.sub_diag. }
  assert (Hlt : forall m, is_Some (nodes_ x !! m) -> (m < n)%nat) by (intros m [nd E]; by apply lookup_lt_Some in E).
  assert (Hk : forall m, m <> n -> kind m x' = kind m x /\ data m x' = data m x /\ parent m x' = parent m x).
  { intros m Hm. unfold kind, data, parent. destruct (decide (m < n)%nat) as [Hl|Hl]; [by rewrite Hold|].
    assert (E1 : nodes_ x' !! m = None) by (apply lookup_ge_None; unfold x'; cbn; rewrite length_app; cbn; fold n; lia).
    assert (E2 : nodes_ x !! m = None) by (apply lookup_ge_None; lia). by rewrite E1, E2. }
  assert (Hx : forall c ev, (c, ev) ∈ cells x -> forall m, GetNode ev = Some m -> m <> n).
  { intros c0 ev Hi m Em ->. pose proof (Wf_link x (Core_wf _ _ _ HC) c0 ev Hi) as Hl.
    destruct ev as [| |q|q|q]; try done; injection Em as ->; destruct Hl as [_ (d & E & _)]; apply data_node in E; apply Hlt in E; lia. }
  assert (Hst : n ∉ lexer_stack_ x).
  { intros Hi. destruct (Core_open _ _ _ HC n Hi) as (d & E & _). apply data_node in E. apply Hlt in E. lia. }
  assert (Hp : forall m, m <> n -> par x' m = par x m) by (intros m Hm; unfold par; by rewrite (proj2 (proj2 (Hk m Hm)))).
  assert (He : edited x x').
  { split; try done.
    - intros m k0 Em. pose proof Em as Em'. apply kind_node, Hlt in Em'. rewrite (proj1 (Hk m ltac:(lia))). done.
    - intros m [Hm|(c0 & ev & Hi & Em)]; apply Hp; [by intros ->|]. eapply Hx; [|done]. apply elem_of_app. by right.
    - intros m d Hm E. exists d. assert (Hmn : m <> n) by (by intros ->). unfold element_keyword. rewrite (proj1 (proj2 (Hk m Hmn))). done. }
  assert (Hdn : data n x' = Some (mkData c true None None)) by (unfold data; by rewrite Hnew).
  assert (Hkn : kind n x' = Some k) by (unfold kind; by rewrite Hnew).
  assert (Hlink : forall c0 ev, (c0, ev) ∈ cells x -> linked x c0 ev -> linked x' c0 ev).
  { intros c0 ev Hi. apply linked_same. intros m Em. pose proof (Hx c0 ev Hi m Em) as Hm. destruct (Hk m Hm) as (? & ? & _). done. }
  pose proof HC as [HW Hwk HN0 Hch Ho Htp Hop].
  assert (HW' : Wf x').
  { split; try (by apply HW).
    - intros c0 ev Hi. apply Hlink; [done|]. by apply (Wf_link x HW).
    - intros m d c0 E Eb. destruct (decide (m = n)) as [->|Hm]; [rewrite Hdn in E; injection E as <-; done|].
      rewrite (proj1 (proj2 (Hk m Hm))) in E. by apply (Wf_begin x HW m d).
    - intros m d c0 E Eb. destruct (decide (m = n)) as [->|Hm]; [rewrite Hdn in E; injection E as <-; done|].
      rewrite (proj1 (proj2 (Hk m Hm))) in E. by apply (Wf_end x HW m d).
    - intros m k0 d Ek E. destruct (decide (m = n)) as [->|Hm].
      + rewrite Hkn in Ek. rewrite Hdn in E. injection Ek as <-. injection E as <-. unfold shaped. cbn. by destruct k, c.
      + destruct (Hk m Hm) as (Hk1 & Hk2 & _). rewrite Hk1 in Ek. rewrite Hk2 in E. by apply (Wf_shape x HW m).
    - intros ev Hev. destruct (Wf_delayed x HW ev Hev) as (m & d & c0 & -> & Em & E & Eb & Hi & Hl). exists m, d, c0. split; [done|].
      assert (Hm : m <> n) by (apply data_node, Hlt in E; lia). destruct (Hk m Hm) as (-> & -> & _). done. }
  split; [split; [|split; [done|done]]|split; [|split; [|done]]].
  - split; try done.
    + rewrite <- Hwk. symmetry. change (events x') with (events x). apply walk_ext. intros ev m ([c0 ev'] & -> & Hi)%list_elem_of_fmap Em.
      symmetry. apply Hp. eapply Hx; [apply queue_cells, Hi|done].
    + eapply chained_ext; [|done]. intros m Hm. apply Hp. intros ->. destruct (Core_base x S0 S1 n HC Hm) as [|[c0 Hc0]]; [done|].
      eapply (Hx c0 _ (queue_cells x _ Hc0) n); done.
    + by apply (open_edited x).
  - unfold fresh. rewrite Hdn. cbn. by apply bool_decide_eq_true_2.
  - unfold par, parent. by rewrite Hnew.
Qed.

(** Other content, of the same sort. *)
Lemma set_content_good x S0 S1 n d c :
  Core x S0 S1 -> data n x = Some d ->
  (match content_ d, c with Tag nm _ _, Tag nm' _ _ => nm' = nm | Text _, Text _ => True | _, _ => False end) ->
  exists x', set_content n c x = Some x' /\ good S0 S1 x (view x) x' /\
    (forall m, kind m x' = kind m x /\ par x' m = par x m) /\
    (forall m, data m x' = if decide (m = n) then Some (mkData c (is_live_ d) (begin_ d) (end_ d)) else data m x).
Proof.
  intros HC E Hcd. unfold set_content. rewrite (modify_data_Some _ _ _ _ E). set (d' := mkData c _ _ _). set (x' := modify_node _ _ _).
  exists x'. split; [done|]. pose proof (data_node _ _ _ E) as Hnode.
  assert (Hdt : forall m, data m x' = if decide (m = n) then Some d' else data m x) by (intros m; by apply data_with_data).
  assert (Hkd : forall m, kind m x' = kind m x) by (intros m; apply kind_with_data).
  assert (Hpr : forall m, par x' m = par x m) by (intros m; unfold par, x'; by rewrite parent_with_data).
  assert (Hd : forall m dm, data m x = Some dm -> exists dm', data m x' = Some dm' /\ is_live_ dm' = is_live_ dm /\ begin_ dm' = begin_ dm /\ end_ dm' = end_ dm).
  { intros m dm Em. rewrite Hdt. destruct (decide (m = n)) as [->|]; [|by exists dm]. exists d'. assert (dm = d) as -> by congruence. done. }
  assert (Hd' : forall m dm', data m x' = Some dm' -> exists dm, data m x = Some dm /\ is_live_ dm' = is_live_ dm /\ begin_ dm' = begin_ dm /\ end_ dm' = end_ dm).
  { intros m dm'. rewrite Hdt. destruct (decide (m = n)) as [->|]; [|by exists dm']. intros [= <-]. by exists d. }
  assert (Hkw : forall m, element_keyword m x' = element_keyword m x).
  { intros m. unfold element_keyword. rewrite Hdt. destruct (decide (m = n)) as [->|]; [|done]. rewrite E. cbn. unfold d'. cbn. destruct (content_ d), c; try done.
    by rewrite Hcd. }
  pose proof HC as [HW Hwk HN0 Hch Ho Htp Hop].
  assert (He : edited x x').
  { split; try done; [intros m k; by rewrite Hkd|]. intros m dm _ Em. destruct (Hd m dm Em) as (dm' & Em' & ? & ? & ?). exists dm'.
    do 3 (split; [done|]). apply Hkw. }
  assert (HW' : Wf x').
  { split; try (by apply HW).
    - intros c0 ev Hi. pose proof (Wf_link x HW c0 ev Hi) as Hl. destruct ev as [| |m|m|m]; cbn in *; try done; rewrite Hkd;
        destruct Hl as [Hk (dm & Em & H1)]; (split; [done|]); destruct (Hd m dm Em) as (dm' & Em' & E1 & E2 & E3);
        exists dm'; (split; [done|]); by rewrite ?E1, ?E2, ?E3.
    - intros m dm' c0 Em'. destruct (Hd' m dm' Em') as (dm & Em & -> & -> & _). by apply (Wf_begin x HW m dm).
    - intros m dm' c0 Em'. destruct (Hd' m dm' Em') as (dm & Em & -> & _ & ->). by apply (Wf_end x HW m dm).
    - intros m k dm'. rewrite Hkd, Hdt. destruct (decide (m = n)) as [->|]; [|by apply (Wf_shape x HW m)]. intros Ek [= <-].
      pose proof (Wf_shape x HW n k d Ek E) as Hs. unfold shaped in *. unfold d'. cbn. by destruct k, (content_ d), c.
    - intros ev Hev. destruct (Wf_delayed x HW ev Hev) as (m & dm & c0 & -> & Ek & Em & Eb & Hi & Hl). destruct (Hd m dm Em) as (dm' & Em' & _ & Eb' & _).
      exists m, dm', c0. split; [done|]. rewrite Hkd. do 2 (split; [done|]). split; [congruence|done]. }
  split; [|split; [|done]].
  - split; [|split; [done|done]]. split; try done.
    + rewrite <- Hwk. change (events x') with (events x). apply walk_ext. intros; by rewrite Hpr.
    + eapply chained_ext; [|done]. intros; by rewrite Hpr.
    + by apply (open_edited x).
  - intros m. by rewrite Hkd, Hpr.
Qed.

Lemma good_after S0 S1 x y d z : good S0 S1 x (view x) y -> good S0 S1 y d z -> good S0 S1 x d z.
Proof. intros (_ & H1 & _) (H2 & H3 & H4). split; [done|]. split; [by eapply edited_trans|done]. Qed.

(** The clone is an element of the same name and style with copies of the attributes. *)
Lemma CloneElement_good x S0 S1 n d name attrs style :
  Core x S0 S1 -> data n x = Some d -> content_ d = Tag name attrs style ->
  exists x' m d', CloneElement n x = Some (x', m) /\ good S0 S1 x (view x) x' /\ fresh m x' = true /\ kind m x' = Some ElementNode /\
    data m x' = Some d' /\ content_ d' = Tag name (map (fun a => mkAttribute (attr_name a) (escaped_value a) (quote_style_ a)) attrs) style.
Proof.
  intros HC E Ec. unfold CloneElement. rewrite E. cbn [mbind option_bind]. rewrite Ec.
  pose proof (NewNode_good x S0 S1 ElementNode None (Tag name [] (if IsOptionallyClosedTag (keyword_ name) then EXPLICIT_CLOSE else AUTO_CLOSE)) HC I) as Hn.
  unfold NewElement. destruct (NewNode ElementNode None _ x) as [y m] eqn:Ey. destruct Hn as (Hg & Hf & _ & Hk).
  destruct (fresh_data m y Hf) as (dm & Em & El & Eb & Ee & Hst). destruct Hg as (HCy & Hey & Hvy).
  assert (Ecm : exists at' st', content_ dm = Tag name at' st').
  { unfold NewNode in Ey. injection Ey as <- <-. unfold data in Em. cbn in Em. rewrite lookup_app_r, Nat.sub_diag in Em by done. cbn in Em.
    injection Em as <-. cbn. by eexists _, _. }
  destruct Ecm as (at' & st' & Ecm).
  destruct (set_content_good y S0 S1 m dm (Tag name (map (fun a => mkAttribute (attr_name a) (escaped_value a) (quote_style_ a)) attrs) style) HCy Em)
    as (z & Ez & Hgz & Hkz & Hdz); [by rewrite Ecm|].
  rewrite Ez. cbn [mbind option_bind]. eexists z, m, _. split; [done|]. split.
  { eapply good_after; [split; [exact HCy|split; [exact Hey|exact Hvy]]|]. destruct Hgz as (H1 & H2 & H3). split; [done|]. split; [done|congruence]. }
  split; [|split; [by rewrite (proj1 (Hkz m))|split; [rewrite Hdz; by rewrite decide_True|done]]].
  unfold fresh. rewrite Hdz, decide_True by done. cbn. rewrite El, Eb, Ee. cbn. apply bool_decide_eq_true_2.
  destruct Hgz as (_ & Hez & _). rewrite (edited_stack _ _ Hez). done.
Qed.

(** ** The filters' way *)

Lemma set_skip_good x S0 S1 v : Core x S0 S1 -> good S0 S1 x (mkDoc (events x) (place x) v) (set_skip_increment v x).
Proof.
  intros [HW Hwk HN Hch Ho Htp Hop]. split; [|split; [by apply edited_nodes|done]]. split; try done. apply (Wf_same x); try done. by apply HW.
Qed.

Lemma NextEvent_good x S0 S1 :
  Core x S0 S1 -> skip_increment_ x = true \/ is_Some (current_ x) ->
  exists x', NextEvent x = Some x' /\ good S0 S1 x (d_next (view x)) x'.
Proof.
  intros HC Hs. unfold NextEvent, d_next. cbn [gone doc here view]. destruct (skip_increment_ x) eqn:Es.
  - eexists. split; [done|]. by apply set_skip_good.
  - destruct Hs as [|Hc]; [done|]. destruct (current_cell x (Core_wf _ _ _ HC) Hc) as (A & c & ev & R & HQ & Ec & Hpl & _).
    pose proof (Core_queue_nodup _ _ _ HC) as HN. rewrite Ec. assert (Hn : next (Some c) (queue_ x) = Some (front R)) by (rewrite HQ in *; by apply next_app).
    rewrite Hn. cbn [mbind option_bind]. eexists. split; [done|]. rewrite Hpl, <- Es.
    replace (S (length A)) with (length (A ++ [(c, ev)])) by (rewrite length_app; cbn; lia).
    apply set_current_good; [done|]. by rewrite HQ, <- app_assoc.
Qed.

(** The event of a node of the window. *)
Lemma MakeElementInvisible_good x S0 S1 n :
  Core x S0 S1 -> kind n x = Some ElementNode ->
  exists x' r, MakeElementInvisible n x = Some (x', r) /\ good S0 S1 x (view x) x' /\ r = IsRewritableIgnoringEnd n x /\
    (r = true -> exists d name attrs, data n x' = Some d /\ content_ d = Tag name attrs INVISIBLE).
Proof.
  intros HC Hk. unfold MakeElementInvisible. destruct (IsRewritableIgnoringEnd n x) eqn:Er.
  2:{ exists x, false. split; [done|]. split; [|done]. split; [done|]. split; [apply edited_refl|done]. }
  unfold IsRewritableIgnoringEnd in Er. destruct (data n x) as [d|] eqn:E; [|done]. cbn [mbind option_bind].
  pose proof (Wf_shape x (Core_wf _ _ _ HC) n _ d Hk E) as Hs. unfold shaped in Hs. destruct (content_ d) as [name attrs st|] eqn:Ec; [|done].
  destruct (set_content_good x S0 S1 n d (Tag name attrs INVISIBLE) HC E) as (x' & Ex & Hg & _ & Hd); [by rewrite Ec|].
  rewrite Ex. cbn [mbind option_bind]. exists x', true. split; [done|]. split; [done|]. split; [done|]. intros _. rewrite Hd, decide_True by done.
  by eexists _, name, attrs.
Qed.

Lemma HasChildren_good x S0 S1 n :
  Core x S0 S1 -> (IsRewritable n x = true -> in_window n x = true) -> kind n x = Some ElementNode ->
  HasChildrenInFlushWindow n x = Some (IsRewritable n x && match first_at n (view x), last_at n (view x) with
    | Some i, Some j => bool_decide (j <> S i) | _, _ => false end).
Proof.
  intros HC Hw Hk. unfold HasChildrenInFlushWindow. destruct (IsRewritable n x) eqn:Er; [|done]. specialize (Hw eq_refl).
  apply IsRewritable_and in Er as [Er _]. destruct (complete_node x S0 S1 n HC Er Hw) as (A & s & T & Hat).
  destruct (node_at_span x S0 S1 n A s T HC Hat) as (H1 & H2 & _). rewrite H1, H2.
  destruct (at_first _ _ _ _ _ Hat) as (b & evb & r & Hs & Hf & Eb), (at_last _ _ _ _ _ Hat) as (r' & e & eve & Hs' & Hl & Ee).
  pose proof (at_queue _ _ _ _ _ Hat) as HQ. pose proof (Core_queue_nodup _ _ _ HC) as HN.
  rewrite Eb. cbn [mbind option_bind]. assert (Hn : next (Some b) (queue_ x) = Some (front (r ++ T))).
  { rewrite HQ, Hs in *. by apply (next_app A b evb (r ++ T)). }
  rewrite Hn, Ee. cbn [mbind option_bind andb]. f_equal. rewrite <- bool_decide_not. apply bool_decide_ext.
  assert (Hr : r <> []).
  { intros ->. assert (Hi : (b, evb) ∈ queue_ x) by (rewrite HQ, Hs; set_solver). assert (r' = [] /\ (b, evb) = (e, eve)) as [-> [= <- <-]].
    { rewrite Hs in Hs'. destruct r' as [|? [|]]; cbn in Hs'; try done. by injection Hs' as -> ->. }
    apply (Core_link _ _ _ HC) in Hi. destruct Hf as [-> | ->], Hl as [[=]|[=]]. destruct Hi as [[k Hk'] _]. congruence. }
  destruct r as [|[c1 ev1] r]; [done|]. cbn [app front head fst fmap option_fmap option_map].
  assert (Hlen : (length A + length s - 1 = S (length A))%nat <-> r = []).
  { rewrite Hs. cbn. destruct r; cbn; split; try done; intros; lia. }
  split.
  - intros Hne Hj. apply Hlen in Hj. subst r. apply Hne. rewrite Hs in Hs'. destruct r' as [|? [|? [|]]]; cbn in Hs'; try done. by injection Hs' as _ <- _.
  - intros Hj Hc. injection Hc as ->. apply Hj, Hlen. destruct r as [|cell r]; [done|]. exfalso.
    destruct (exists_last (l := cell :: r)) as (l & [e' ev'] & Hlst); [done|]. rewrite Hs, Hlst in Hs'.
    change ((b, evb) :: (e, ev1) :: l ++ [(e', ev')]) with (((b, evb) :: (e, ev1) :: l) ++ [(e', ev')]) in Hs'.
    apply app_inj_tail in Hs' as [_ [= -> ->]]. rewrite HQ, Hs, Hlst, fmap_app in HN. apply NoDup_app_r in HN. cbn in HN.
    apply NoDup_cons in HN as [_ HN]. apply NoDup_cons in HN as [HN _]. apply HN. rewrite !fmap_app. set_solver.
Qed.

(** ** A complete element *)

Lemma element_at x S0 S1 n A s T :
  Core x S0 S1 -> node_at x n A s T -> kind n x = Some ElementNode ->
  exists b e M, s = (b, StartElementEvent n) :: M ++ [(e, EndElementEvent n)].
Proof.
  intros HC Hat Hk. destruct (at_first _ _ _ _ _ Hat) as (b & evb & r & Hs & Hf & _), (at_last _ _ _ _ _ Hat) as (r' & e & eve & Hs' & Hl & _).
  assert (Hib : (b, evb) ∈ queue_ x) by (rewrite (at_queue _ _ _ _ _ Hat), Hs; set_solver).
  assert (Hie : (e, eve) ∈ queue_ x) by (rewrite (at_queue _ _ _ _ _ Hat), Hs'; set_solver).
  apply (Core_link _ _ _ HC) in Hib, Hie.
  destruct Hf as [-> | ->]; [|destruct Hib as [[k Hk'] _]; congruence]. destruct Hl as [-> | ->]; [|destruct Hie as [[k Hk'] _]; congruence].
  destruct r' as [|cell r']; [by rewrite Hs in Hs'; injection Hs'|]. exists b, e, r'. rewrite Hs in Hs'. injection Hs' as <- Hs'. by rewrite Hs, Hs'.
Qed.

Lemma DeleteSavingChildren_good x S0 S1 n :
  Core x S0 S1 -> kind n x = Some ElementNode -> IsRewritable n x = true -> in_window n x = true -> clear_ends n x = true ->
  exists x' i j, DeleteSavingChildren n x = Some (x', true) /\ first_at n (view x) = Some i /\ last_at n (view x) = Some j /\
    good S0 S1 x (d_unwrap i (S j - i) (view x)) x'.
Proof.
  intros HC Hk Hr Hw Hcl. apply IsRewritable_and in Hr as Hr'. destruct (complete_node x S0 S1 n HC) as (A & s & T & Hat); [by apply Hr'|done|].
  destruct (element_at x S0 S1 n A s T HC Hat Hk) as (b & e & M & ->). destruct (node_at_span x S0 S1 n _ _ T HC Hat) as (H1 & H2 & _).
  destruct (DeleteSavingChildren_at x S0 S1 n b e A M T HC Hr Hat) as (x' & Ex & Hg).
  - intros c Hc Hs. unfold clear_ends in Hcl. rewrite H1, H2 in Hcl. cbn [gone here view] in Hcl. rewrite Hs in Hcl. cbn [andb] in Hcl.
    apply negb_true_iff, bool_decide_eq_false in Hcl. cbn [length] in Hcl. rewrite length_app in Hcl. cbn [length] in Hcl.
    pose proof (Core_queue_nodup _ _ _ HC) as HN. pose proof (at_queue _ _ _ _ _ Hat) as HQ. split; intros ->; apply Hcl.
    + left. apply (place_lookup x b); [done|done|]. rewrite HQ, fmap_app, (lookup_after _ _ 0) by (rewrite length_fmap; lia). done.
    + right. apply (place_lookup x e); [done|done|].
      replace (queue_ x) with ((A ++ (b, StartElementEvent n) :: M) ++ (e, EndElementEvent n) :: T) by (rewrite HQ, <- app_assoc; cbn; by rewrite <- app_assoc).
      rewrite fmap_app, (lookup_after _ _ 0); [done|]. rewrite length_fmap, length_app. cbn. lia.
  - exists x', (length A), (length A + length ((b, StartElementEvent n) :: M ++ [(e, EndElementEvent n)]) - 1)%nat. do 3 (split; [done|]).
    replace (S (length A + length ((b, StartElementEvent n) :: M ++ [(e, EndElementEvent n)]) - 1) - length A)%nat with (length M + 2)%nat; [done|].
    cbn [length]. rewrite length_app. cbn. lia.
Qed.

(** ** Attributes and texts *)

Lemma modify_attributes_good x S0 S1 n f :
  Core x S0 S1 -> kind n x = Some ElementNode -> is_Some (data n x) ->
  exists x', modify_attributes n f x = Some x' /\ good S0 S1 x (view x) x'.
Proof.
  intros HC Hk [d E]. pose proof (Wf_shape x (Core_wf _ _ _ HC) n _ d Hk E) as Hs. unfold shaped in Hs.
  unfold modify_attributes. rewrite E. cbn [mbind option_bind]. destruct (content_ d) as [name attrs style|t] eqn:Ec; [|done].
  destruct (set_content_good x S0 S1 n d (Tag name (f attrs) style) HC E) as (x' & Hr & Hg & _); [by rewrite Ec|]. by exists x'.
Qed.

Lemma modify_contents_good x S0 S1 n f k :
  Core x S0 S1 -> kind n x = Some (LeafNode k) -> is_Some (data n x) ->
  exists x', modify_contents n f x = Some x' /\ good S0 S1 x (view x) x'.
Proof.
  intros HC Hk [d E]. pose proof (Wf_shape x (Core_wf _ _ _ HC) n _ d Hk E) as Hs. unfold shaped in Hs.
  unfold modify_contents. rewrite E. cbn [mbind option_bind]. destruct (content_ d) as [name attrs style|t] eqn:Ec; [done|].
  destruct (set_content_good x S0 S1 n d (Text (f t)) HC E) as (x' & Hr & Hg & _); [by rewrite Ec|]. by exists x'.
Qed.
