(* ===== verification/HtmlParseStep.v ===== *)
(** * The HTML parser: what the lexer adds

    [AddEvent] puts an event at the end of the window; the elements that the lexer has
    opened are the ones that are open there, but for a start tag that is held back. *)

From S2P Require Import Prelude StringUtil HtmlKeywords HtmlLexer HtmlParse HtmlParseWalk HtmlParseInv HtmlParseDoc HtmlParseEdit HtmlParseDelete HtmlParseUnwrap HtmlParseDefer HtmlParseOps.

Lemma Sound_view x base y : Sound x base -> good base (match delayed_start_literal_ x with Some (StartElementEvent _) => tail (lexer_stack_ x) | _ => lexer_stack_ x end) x (view x) y -> Sound y base.
Proof.
  intros HS (HC & He & _). destruct (Sound_core _ _ HS) as (S1 & HC1 & Hst). eapply (Sound_edited x y base S1); try done.
  unfold delayed_element in Hst. destruct (delayed_start_literal_ x) as [[| |e| |]|]; rewrite Hst in HC; done.
Qed.

(** A node with events in the window or in a list of its own has none in the lists of the
    deferred nodes. *)
Lemma not_in_deferred x base n L : Sound x base -> deferred_nodes_ x !! n = Some L -> exists c ev, (c, ev) ∈ cells x /\ GetNode ev = Some n.
Proof.
  intros HS HL. pose proof (Sound_deferred _ _ HS n L HL) as Hseg. destruct (segment_head _ _ _ Hseg) as (b & evb & r & HLb & Hf).
  exists b, evb. split; [|by apply first_GetNode]. apply elem_of_app. right. eapply in_deferred; [done|]. rewrite HLb. by left.
Qed.

Lemma fresh_not_deferred x base n : Sound x base -> fresh n x = true -> IsDeferred n x = false.
Proof.
  intros HS Hf. unfold IsDeferred. apply bool_decide_eq_false_2. intros [L HL]. destruct (not_in_deferred x base n L HS HL) as (c & ev & Hi & En).
  destruct (Sound_core _ _ HS) as (S1 & HC & _). destruct (fresh_unlisted n x Hf (Core_wf _ _ _ HC)) as (_ & _ & Hu). by apply (Hu c ev).
Qed.

(** ** A leaf *)

Lemma AddEvent_leaf x n k :
  kind n x = Some (LeafNode k) -> parent n x = Some (head (lexer_stack_ x)) ->
  AddEvent (LeafNodeEvent n) x = y ← InsertNodeBeforeEvent None n x; if IsRewritable n y then Some y else None.
Proof.
  intros Hk Hp. unfold AddEvent. cbn [GetNode]. rewrite Hp. cbn [mbind option_bind]. rewrite bool_decide_eq_true_2 by done.
  unfold kind in Hk. destruct (nodes_ x !! n) as [nd|] eqn:E; [|done]. injection Hk as Hk.
  unfold InsertNodeBeforeEvent, SynthesizeEvents. change (nodes_ (touched x)) with (nodes_ x). rewrite E. cbn [mbind option_bind]. rewrite Hk. cbn. done.
Qed.

Lemma leaf_added x base k contents :
  Sound x base -> delayed_start_literal_ x = None ->
  exists x', add_leaf k contents x = Some x' /\ Sound x' base /\
    view x' = d_insert (length (events x)) [LeafNodeEvent (length (nodes_ x))] (view x).
Proof.
  intros HS Hdl. destruct (Sound_core _ _ HS) as (S1 & HC & Hst). unfold delayed_element in Hst. rewrite Hdl in Hst. cbn in Hst.
  unfold add_leaf, NewLeafNode. pose proof (NewNode_good x base S1 (LeafNode k) (head (lexer_stack_ x)) (Text contents) HC I) as Hn.
  destruct (NewNode (LeafNode k) _ _ x) as [y n] eqn:Ey. destruct Hn as ((HCy & Hey & Hvy) & Hf & Hp & Hk).
  assert (Hnn : n = length (nodes_ x)) by (unfold NewNode in Ey; by injection Ey).
  assert (HSy : Sound y base) by (eapply (Sound_edited x y base S1); try done; unfold delayed_element; by rewrite Hdl).
  destruct (fresh_data n y Hf) as (d & Ed & _). rewrite (AddEvent_leaf y n k Hk) by (rewrite (data_parent _ _ _ Ed), Hp; by rewrite (edited_stack _ _ Hey)).
  destruct (Append_top_good y base S1 n HCy Hf) as (z & Ez & HCz & Hez & Hvz).
  { rewrite Hp, Hst. by destruct S1. }
  change (AppendChild None n y) with (InsertNodeBeforeEvent None n y) in Ez. rewrite Ez. cbn [mbind option_bind].
  assert (HSz : Sound z base).
  { eapply (Sound_edited y z base S1); try done. rewrite (edited_stack _ _ Hey), Hst. unfold delayed_element. by rewrite (edited_delayed _ _ Hey), Hdl. }
  assert (Hr : IsRewritable n z = true).
  { apply IsRewritable_and. split.
    - destruct (InsertNodeBeforeEvent_ok y base S1 n (queue_ y) [] S1 HCy Hf) as (z' & s & Ez' & _ & Hi & _);
        [by rewrite app_nil_r|apply HCy|rewrite Hp, Hst; by destruct S1|]. cbn [front head fmap option_fmap option_map] in Ez'. assert (z' = z) as -> by congruence.
      destruct (inserted_new _ _ _ _ _ _ Hi) as (d' & b & e & Ed' & _ & _ & En). unfold IsRewritableIgnoringDeferral. rewrite En. cbn.
      change (data n (touched y)) with (data n y) in Ed'. destruct (fresh_data n y Hf) as (d2 & E2 & El & _). assert (d' = d2) as -> by congruence. by rewrite El.
    - pose proof (fresh_not_deferred y base n HSy Hf) as Hnd. unfold IsDeferred in *. by rewrite (edited_deferred _ _ Hez). }
  rewrite Hr. exists z. split; [done|]. split; [done|]. rewrite Hvz, Hvy. apply (f_equal doc) in Hvy. cbn in Hvy. rewrite Hvy. f_equal.
  unfold new_events. by rewrite Hk, Hnn.
Qed.

(** ** A start tag *)

Lemma element_opened x base name attrs :
  Sound x base -> delayed_start_literal_ x = None -> (forall n, head (lexer_stack_ x) = Some n -> is_literal n x = false) ->
  exists x', open_element name attrs x = Some x' /\ Sound x' base /\
    view x' = d_insert (length (events x)) [StartElementEvent (length (nodes_ x))] (view x) /\ lexer_stack_ x' = length (nodes_ x) :: lexer_stack_ x /\
    delayed_start_literal_ x' = None.
Proof.
  intros HS Hdl Hlit. destruct (Sound_core _ _ HS) as (S1 & HC & Hst). unfold delayed_element in Hst. rewrite Hdl in Hst. cbn in Hst.
  unfold open_element, NewElement. set (content := Tag name attrs _).
  pose proof (NewNode_good x base S1 ElementNode (head (lexer_stack_ x)) content HC I) as Hn.
  destruct (NewNode ElementNode _ _ x) as [y n] eqn:Ey. destruct Hn as ((HCy & Hey & Hvy) & Hf & Hp & Hk).
  assert (Hnn : n = length (nodes_ x)) by (unfold NewNode in Ey; by injection Ey).
  assert (HSy : Sound y base) by (eapply (Sound_edited x y base S1); try done; unfold delayed_element; by rewrite Hdl).
  destruct (fresh_data n y Hf) as (d & Ed & Eld & Ebd & Eed & Hns). pose proof (Core_queue_nodup _ _ _ HCy) as HNy.
  assert (Hsty : lexer_stack_ y = lexer_stack_ x) by apply Hey.
  assert (Hdly : delayed_start_literal_ y = None) by by rewrite (edited_delayed _ _ Hey).
  set (y1 := touched (set_fresh (S (fresh_ y)) (set_queue (queue_ y ++ [(fresh_ y, StartElementEvent n)]) y))).
  assert (HAdd : AddEvent (StartElementEvent n) y = Some y1).
  { unfold AddEvent. cbn [GetNode]. rewrite (data_parent _ _ _ Ed), Hp. cbn [mbind option_bind]. rewrite bool_decide_eq_true_2 by by rewrite Hsty.
    unfold insert_event. cbn. done. }
  assert (HLast : Last y1 = Some (Some (fresh_ y))) by (unfold Last, y1; cbn; apply prev_back).
  set (d' := mkData (content_ d) (is_live_ d) (Some (fresh_ y)) (end_ d)). set (y2 := modify_node n (with_data (Some d')) y1).
  assert (Hset : set_begin n (Some (fresh_ y)) y1 = Some y2) by (unfold set_begin; by rewrite (modify_data_Some n _ y1 d Ed)).
  unfold AddElement. rewrite HAdd. cbn [mbind option_bind]. rewrite HLast. cbn [mbind option_bind]. rewrite Hset. cbn [mbind option_bind].
  set (z := set_lexer_stack (n :: lexer_stack_ y2) y2). exists z. split; [done|].
  assert (Hnode : is_Some (nodes_ y1 !! n)) by (by apply data_node in Ed).
  assert (Hdz : forall m, data m z = if decide (m = n) then Some d' else data m y).
  { intros m. change (data m z) with (data m y2). unfold y2. by rewrite data_with_data. }
  assert (Hkz : forall m, kind m z = kind m y) by (intros m; change (kind m z) with (kind m y2); unfold y2; by rewrite kind_with_data).
  assert (Hpz : forall m, par z m = par y m).
  { intros m. unfold par. change (parent m z) with (parent m y2). unfold y2. by rewrite parent_with_data. }
  assert (Hsz : lexer_stack_ z = n :: lexer_stack_ x) by (rewrite <- Hsty; done).
  assert (HWz : Wf z).
  { apply (Wf_insert y z [(fresh_ y, StartElementEvent n)]); [apply HCy|..].
    - unfold cells. change (queue_ z) with (queue_ y ++ [(fresh_ y, StartElementEvent n)]). change (deferred_cells z) with (deferred_cells y).
      rewrite <- app_assoc. cbn. by rewrite <- Permutation_middle.
    - cbn. repeat constructor. apply not_elem_of_nil.
    - intros c Hc%list_elem_of_singleton. subst c. change (fresh_ z) with (S (fresh_ y)). cbn [fst]. lia.
    - change (fresh_ z) with (S (fresh_ y)). lia.
    - intros ev. change (delayed_start_literal_ z) with (delayed_start_literal_ y). congruence.
    - intros c ev Hc%list_elem_of_singleton. injection Hc as -> ->. cbn. rewrite Hkz. split; [done|]. exists d'. rewrite Hdz, decide_True by done. done.
    - intros m dm. rewrite Hdz. destruct (decide (m = n)) as [->|Hm].
      + intros [= <-]. exists d. split; [done|]. split; [done|]. pose proof (Wf_shape y (Core_wf _ _ _ HCy) n _ d Hk Ed) as Hs.
        rewrite Hk. cbn. split; [done|]. split; [|by left]. right. exists (fresh_ y). split; [done|]. split; [done|]. left. by left.
      + intros Em. exists dm. split; [done|]. split; [done|]. split; [|by split; left]. destruct (kind m y) as [km|] eqn:Ekm; [by apply (Wf_shape y (Core_wf _ _ _ HCy) m)|].
        apply data_node in Em as [nd E]. unfold kind in Ekm. by rewrite E in Ekm.
    - intros m. rewrite Hkz, Hdz. split; [done|]. by case_decide.
    - intros m d1 d2 E1. rewrite Hdz. destruct (decide (m = n)) as [->|Hm]; intros E2.
      + assert (d1 = d) as -> by congruence. injection E2 as <-. split; [intros _; by left|done].
      + assert (d1 = d2) as -> by congruence. done.
    - intros m dm _. change (delayed_start_literal_ y) with (delayed_start_literal_ y). congruence.
    - intros c Hc. change (current_ z) with (current_ y) in Hc. change (queue_ z) with (queue_ y ++ [(fresh_ y, StartElementEvent n)]).
      apply (Wf_current y (Core_wf _ _ _ HCy)) in Hc. rewrite fmap_app. set_solver. }
  assert (Hn0 : n ∉ base) by (by apply (fresh_not_base y base S1)).
  assert (Hop : forall m, m ∈ lexer_stack_ z -> exists dm, data m z = Some dm /\ is_live_ dm = true /\ end_ dm = None).
  { intros m. rewrite Hsz, elem_of_cons, Hdz. destruct (decide (m = n)) as [->|Hm]; [intros _; by exists d'|]. intros [|Hi]; [done|].
    apply (Core_open _ _ _ HCy). by rewrite Hsty. }
  assert (Hwz : walk (par z) None base (events z) = Some (n :: S1)).
  { change (events z) with (queue_ y ++ [(fresh_ y, StartElementEvent n)]).*2. rewrite fmap_app, walk_app.
    rewrite (walk_ext _ (par y)) by (intros; apply Hpz). change (queue_ y).*2 with (events y). rewrite (Core_walk _ _ _ HCy). cbn.
    rewrite decide_True; [done|]. rewrite Hpz, Hp, Hst. by destruct S1. }
  split; [split|split; [|split; [by rewrite Hsz, Hnn|done]]].
  - exists (n :: S1). split; [|rewrite Hsz, Hst; unfold delayed_element; by change (delayed_start_literal_ z) with (delayed_start_literal_ y); rewrite Hdly].
    split; [done|done|apply HCy| | | |done].
    + eapply chained_ext; [|apply HCy]. intros; apply Hpz.
    + intros m Hm Hi. change (events z) with (queue_ y ++ [(fresh_ y, StartElementEvent n)]).*2 in Hi. rewrite fmap_app in Hi.
      apply elem_of_app in Hi as [Hi|Hi]; [by apply (Core_out _ _ _ HCy m Hm)|]. apply list_elem_of_singleton in Hi. injection Hi as ->. done.
    + intros m. rewrite Hsz, Hst, !elem_of_cons. tauto.
  - intros dn L HL. eapply segment_ext; [|by apply (Sound_deferred _ _ HSy)]. intros; by rewrite Hpz.
  - apply HSy.
  - intros m. rewrite Hsz, Hkz, elem_of_cons. intros [->|Hm]; [done|]. apply (Sound_elems _ _ HSy). by rewrite Hsty.
  - rewrite Hsz. cbn. rewrite Hpz, Hp. split; [by destruct (lexer_stack_ x)|]. rewrite <- Hsty. eapply chained_ext; [|apply HSy]. intros; apply Hpz.
  - intros m. rewrite Hsz. cbn. intros Hm. assert (Hmn : m <> n) by (intros ->; apply Hns; by rewrite Hsty).
    unfold is_literal, element_keyword. rewrite Hdz, decide_False by done. fold (element_keyword m y). fold (is_literal m y).
    assert (Hxy : is_literal m y = is_literal m x).
    { unfold is_literal. destruct (Core_open _ _ _ HC m Hm) as (dm & Em & _). by destruct (edited_data _ _ Hey m dm Hm Em) as (_ & _ & _ & _ & ->). }
    rewrite Hxy. pose proof (Sound_literal _ _ HS m) as Hl. destruct (lexer_stack_ x) as [|h st]; [by apply elem_of_nil in Hm|].
    apply elem_of_cons in Hm as [->|Hm]; [by apply Hlit|by apply Hl].
  - rewrite Hsz. constructor; [by rewrite <- Hsty|apply HS].
  - rewrite <- Hvy. change (length (events x)) with (length (doc (view x))). rewrite <- Hvy, <- Hnn. cbn [doc view]. unfold events. rewrite length_fmap.
    change ([StartElementEvent n]) with ([(fresh_ y, StartElementEvent n)].*2). apply (view_insert y z (queue_ y) [(fresh_ y, StartElementEvent n)] []);
      [apply HCy|by apply Wf_queue_nodup|by rewrite app_nil_r|done|done|done].
Qed.

(** ** An end tag *)

(** A node whose data has new iterators, all in the new cells. *)
Lemma Wf_insert_data x x' N :
  Wf x -> cells x' ≡ₚ N ++ cells x -> NoDup N.*1 -> (forall c, c ∈ N.*1 -> (fresh_ x <= c < fresh_ x')%nat) -> (fresh_ x <= fresh_ x')%nat ->
  delayed_start_literal_ x' = None -> (forall c ev, (c, ev) ∈ N -> linked x' c ev) -> (forall m, kind m x' = kind m x) ->
  (forall m d, data m x = Some d -> exists d', data m x' = Some d' /\ is_live_ d' = is_live_ d /\
     match content_ d, content_ d' with Tag _ _ _, Tag _ _ _ => True | Text _, Text _ => True | _, _ => False end /\
     (begin_ d' = begin_ d \/ ((begin_ d = None \/ delayed_start_literal_ x = Some (StartElementEvent m)) /\
        exists c, begin_ d' = Some c /\ is_live_ d = true /\ ((c, StartElementEvent m) ∈ N \/ (c, LeafNodeEvent m) ∈ N))) /\
     (end_ d' = end_ d \/ (end_ d = None /\ exists c, end_ d' = Some c /\ is_live_ d = true /\ ((c, EndElementEvent m) ∈ N \/ (c, LeafNodeEvent m) ∈ N))) /\
     (delayed_start_literal_ x = Some (StartElementEvent m) -> begin_ d' <> begin_ d) /\
     (begin_ d = end_ d -> begin_ d' = end_ d' \/ kind m x = Some ElementNode)) ->
  (forall m, data m x = None -> data m x' = None) -> (forall c, current_ x' = Some c -> c ∈ (queue_ x').*1) -> Wf x'.
Proof.
  intros HW HP HN HfN Hf Hdl Hl Hk Hd Hd0 Hc.
  assert (Hd' : forall m d', data m x' = Some d' -> exists d, data m x = Some d).
  { intros m d' E. destruct (data m x) as [d|] eqn:Ed; [by exists d|]. by rewrite Hd0 in E. }
  apply (Wf_insert x x' N); try done.
  - intros ev. by rewrite Hdl.
  - intros m d' E'. destruct (Hd' m d' E') as [d E]. destruct (Hd m d E) as (d2 & E2 & El & Hct & Hb & He & _ & Hbe). assert (d2 = d') as -> by congruence.
    exists d. split; [done|]. split; [done|]. split; [|split; [destruct Hb as [|[_ ?]]; tauto|destruct He as [|[_ ?]]; tauto]].
    destruct (kind m x) as [k|] eqn:Ek; [|apply data_node in E as [nd En]; unfold kind in Ek; by rewrite En in Ek].
    pose proof (Wf_shape x HW m k d Ek E) as Hs. unfold shaped in *. cbn. destruct k, (content_ d), (content_ d'); try done.
    destruct (Hbe Hs) as [|[=]]. done.
  - intros m. split; [done|]. intros [d E]. destruct (Hd m d E) as (d' & -> & _). by exists d'.
  - intros m d d' E E'. destruct (Hd m d E) as (d2 & E2 & _ & _ & Hb & He & _). assert (d2 = d') as -> by congruence.
    split; [destruct Hb as [?|[? _]]; [by intros|done]|destruct He as [?|[? _]]; [by intros|done]].
  - intros m d' E' Hdm. right. destruct (Hd' m d' E') as [d E]. destruct (Hd m d E) as (d2 & E2 & _ & _ & Hb & _ & Hne & _). assert (d2 = d') as -> by congruence.
    destruct Hb as [Hb|(_ & c & Hb & _ & [Hi|Hi])]; [by destruct (Hne Hdm)|by exists c|].
    apply Hl in Hi as [[k Hk'] _]. rewrite Hk in Hk'. destruct (Wf_delayed x HW _ Hdm) as (m' & ? & ? & [= <-] & Hkm & _). congruence.
Qed.

(** The end of [CloseElement], after the start tag that was held back. *)
Record closed (r z : HtmlParse) (e : nat) (d : Data) (name : HtmlName) (c : Content) : Prop := {
  closed_queue : queue_ z = queue_ r ++ [(fresh_ r, EndElementEvent e)];
  closed_fresh : fresh_ z = S (fresh_ r);
  closed_data m : data m z = if decide (m = e) then Some (mkData c (is_live_ d) (begin_ d) (Some (fresh_ r))) else data m r;
  closed_tag : exists attrs style, c = Tag name attrs style;
  closed_kind m : kind m z = kind m r;
  closed_par m : par z m = par r m;
  closed_rest : current_ z = current_ r /\ skip_increment_ z = skip_increment_ r /\ delayed_start_literal_ z = delayed_start_literal_ r /\
    open_deferred_nodes_ z = open_deferred_nodes_ r /\ deferred_nodes_ z = deferred_nodes_ r /\ lexer_stack_ z = lexer_stack_ r;
}.

Lemma CloseElement_tail r e style d name attrs sty :
  delayed_start_literal_ r = None -> data e r = Some d -> content_ d = Tag name attrs sty -> par r e = head (lexer_stack_ r) ->
  exists z c, CloseElement e style r = Some z /\ closed r z e d name c.
Proof.
  intros Hdl Ed Ect Hp. unfold CloseElement, RestoreDelayedLiteral. rewrite Hdl. cbn [mbind option_bind]. rewrite Ed. cbn [mbind option_bind]. rewrite Ect.
  pose proof (data_node _ _ _ Ed) as Hnode.
  assert (Hy : exists y c, (match sty with INVISIBLE => Some r | _ => set_content e (Tag name attrs style) r end) = Some y /\
    queue_ y = queue_ r /\ fresh_ y = fresh_ r /\
    (current_ y = current_ r /\ skip_increment_ y = skip_increment_ r /\ delayed_start_literal_ y = delayed_start_literal_ r /\
     open_deferred_nodes_ y = open_deferred_nodes_ r /\ deferred_nodes_ y = deferred_nodes_ r /\ lexer_stack_ y = lexer_stack_ r) /\
    (forall m, kind m y = kind m r /\ parent m y = parent m r) /\
    (forall m, data m y = if decide (m = e) then Some (mkData c (is_live_ d) (begin_ d) (end_ d)) else data m r) /\
    exists attrs style, c = Tag name attrs style).
  { destruct sty; [..|exists r, (Tag name attrs INVISIBLE); do 5 (split; [done|]); (split; [|by eexists _, _]); intros m;
      destruct (decide (m = e)) as [->|]; [rewrite Ed, <- Ect; by destruct d|done]].
    all: unfold set_content; rewrite (modify_data_Some e _ r d Ed); eexists _, (Tag name attrs style); (split; [done|]);
      do 3 (split; [done|]); (split; [intros m; rewrite kind_with_data, parent_with_data; done|]); (split; [|by eexists _, _]);
      intros m; by rewrite data_with_data. }
  destruct Hy as (y & c & Ey & HQy & Hfy & Hry & Hky & Hdy & Hct). rewrite Ey. cbn [mbind option_bind].
  set (y1 := touched (set_fresh (S (fresh_ y)) (set_queue (queue_ y ++ [(fresh_ y, EndElementEvent e)]) y))).
  assert (HAdd : AddEvent (EndElementEvent e) y = Some y1).
  { unfold AddEvent. cbn [GetNode]. rewrite (proj2 (Hky e)), (data_parent _ _ _ Ed). cbn [mbind option_bind].
    rewrite (proj2 (proj2 (proj2 (proj2 (proj2 Hry))))), Hp, bool_decide_eq_true_2 by done. unfold insert_event. cbn. done. }
  assert (HLast : Last y1 = Some (Some (fresh_ y))) by (unfold Last, y1; cbn; apply prev_back).
  assert (Edy : data e y1 = Some (mkData c (is_live_ d) (begin_ d) (end_ d))) by (change (data e y1) with (data e y); rewrite Hdy; by rewrite decide_True).
  set (d' := mkData c (is_live_ d) (begin_ d) (Some (fresh_ y))). set (z := modify_node e (with_data (Some d')) y1).
  assert (Hset : set_end e (Some (fresh_ y)) y1 = Some z) by (unfold set_end; by rewrite (modify_data_Some e _ y1 _ Edy)).
  assert (Hnode1 : is_Some (nodes_ y1 !! e)) by (by apply data_node in Edy).
  rewrite HAdd. cbn [mbind option_bind]. rewrite HLast. cbn [mbind option_bind]. exists z, c. split; [done|]. split.
  - unfold z. cbn. by rewrite HQy, Hfy.
  - unfold z. cbn. by rewrite Hfy.
  - intros m. unfold z. rewrite data_with_data by done. destruct (decide (m = e)) as [->|Hm]; [unfold d'; by rewrite Hfy|].
    change (data m y1) with (data m y). by rewrite Hdy, decide_False.
  - done.
  - intros m. unfold z. rewrite kind_with_data. apply Hky.
  - intros m. unfold par, z. rewrite parent_with_data. change (parent m y1) with (parent m y). by rewrite (proj2 (Hky m)).
  - done.
Qed.

Lemma element_closed x base style :
  Sound x base -> delayed_start_literal_ x = None -> lexer_stack_ x <> [] ->
  exists x' e st, close_element style x = Some x' /\ Sound x' base /\ lexer_stack_ x = e :: st /\ lexer_stack_ x' = st /\
    view x' = d_insert (length (events x)) [EndElementEvent e] (view x) /\ delayed_start_literal_ x' = None.
Proof.
  intros HS Hdl Hne. destruct (Sound_core _ _ HS) as (S1 & HC & Hst). unfold delayed_element in Hst. rewrite Hdl in Hst. cbn in Hst.
  unfold close_element. destruct (lexer_stack_ x) as [|e st] eqn:Es; [done|]. clear Hne.
  destruct (Core_open _ _ _ HC e) as (d & Ed & El & Eend); [rewrite Es; by left|]. pose proof (Core_wf _ _ _ HC) as HW. pose proof (Core_queue_nodup _ _ _ HC) as HN.
  assert (Hk : kind e x = Some ElementNode) by (apply (Sound_elems _ _ HS); rewrite Es; by left).
  pose proof (Wf_shape x HW e _ d Hk Ed) as Hsh. unfold shaped in Hsh. destruct (content_ d) as [name attrs sty|] eqn:Ect; [|done]. clear Hsh.
  pose proof (Sound_nodup _ _ HS) as Hnd. rewrite Es in Hnd. apply NoDup_cons in Hnd as [Hest Hnd].
  pose proof (Sound_chain _ _ HS) as Hch. rewrite Es in Hch. destruct Hch as [Hpe Hch].
  destruct (CloseElement_tail (set_lexer_stack st x) e style d name attrs sty Hdl Ed Ect) as (z & ct & Ez & [HQz Hfz Hdz (at' & st' & Hct) Hkz Hpz Hrest]).
  { change (par x e = head st). rewrite Hpe. by destruct st. }
  change (queue_ (set_lexer_stack st x)) with (queue_ x) in HQz. change (fresh_ (set_lexer_stack st x)) with (fresh_ x) in *.
  destruct Hrest as (Hcz & Hsz & Hdlz & Hopz & Hdfz & Hstz). cbn in Hcz, Hsz, Hdlz, Hopz, Hdfz, Hstz. rewrite Hdl in Hdlz.
  assert (Hdz' : forall m, data m z = if decide (m = e) then Some (mkData ct (is_live_ d) (begin_ d) (Some (fresh_ x))) else data m x) by exact Hdz.
  assert (Hkz' : forall m, kind m z = kind m x) by exact Hkz. assert (Hpz' : forall m, par z m = par x m) by exact Hpz. clear Hdz Hkz Hpz.
  set (d' := mkData ct (is_live_ d) (begin_ d) (Some (fresh_ x))) in *. rewrite Ez. exists z, e, st. split; [done|].
  assert (HWz : Wf z).
  { apply (Wf_insert_data x z [(fresh_ x, EndElementEvent e)]); [done|..].
    - unfold cells, deferred_cells. rewrite HQz, Hdfz, <- app_assoc. cbn. by rewrite <- Permutation_middle.
    - cbn. repeat constructor. apply not_elem_of_nil.
    - intros c Hc%list_elem_of_singleton. subst c. cbn [fst]. lia.
    - lia.
    - done.
    - intros c ev Hc%list_elem_of_singleton. injection Hc as -> ->. cbn. rewrite Hkz'. split; [done|]. exists d'. by rewrite Hdz', decide_True by done.
    - done.
    - intros m dm Em. rewrite Hdz'. destruct (decide (m = e)) as [->|Hm].
      + assert (dm = d) as -> by congruence. exists d'. split; [done|]. split; [done|]. split; [rewrite Ect; unfold d'; cbn; by rewrite Hct|]. split; [by left|].
        split; [|split; [by rewrite Hdl|by right]]. right. split; [done|]. exists (fresh_ x). split; [done|]. split; [done|]. left. by left.
      + exists dm. split; [done|]. split; [done|]. split; [by destruct (content_ dm)|]. split; [by left|]. split; [by left|]. split; [by rewrite Hdl|by left].
    - intros m Em. rewrite Hdz'. destruct (decide (m = e)) as [->|]; [congruence|done].
    - intros c Hc. rewrite Hcz in Hc. apply (Wf_current x HW) in Hc. rewrite HQz, fmap_app. set_solver. }
  assert (HSt1 : S1 = e :: st) by congruence.
  assert (Hwz : walk (par z) None base (events z) = Some st).
  { unfold events. rewrite HQz, fmap_app, walk_app, (walk_ext _ (par x)) by (intros; apply Hpz'). pose proof (Core_walk _ _ _ HC) as Hw. unfold events in Hw.
    rewrite Hw, HSt1. cbn. rewrite decide_True; [done|]. split; [done|]. by rewrite Hpz'. }
  assert (Hop : forall m, m ∈ st -> exists dm, data m z = Some dm /\ is_live_ dm = true /\ end_ dm = None).
  { intros m Hm. rewrite Hdz', decide_False by by intros ->. apply (Core_open _ _ _ HC). rewrite Es. by right. }
  split; [split; rewrite ?Hstz|].
  - exists st. split; [|unfold delayed_element; by rewrite Hdlz].
    split; [done|done|apply HC| | |by rewrite Hstz|by rewrite Hstz].
    + eapply chained_ext; [|apply HC]. intros; apply Hpz'.
    + intros m Hm Hi. unfold events in Hi. rewrite HQz, fmap_app in Hi. apply elem_of_app in Hi as [Hi|Hi]; [by apply (Core_out _ _ _ HC m Hm)|].
      by apply list_elem_of_singleton in Hi.
  - intros dn L. rewrite Hdfz. intros HL.
    eapply segment_ext; [|by apply (Sound_deferred _ _ HS)]. intros; by rewrite Hpz'.
  - rewrite Hopz. apply HS.
  - intros m Hm. rewrite Hkz'. apply (Sound_elems _ _ HS). rewrite Es. by right.
  - eapply chained_ext; [|exact Hch]. intros; apply Hpz'.
  - intros m Hm. assert (Hms : m ∈ st) by (destruct st; [done|by right]). assert (Hme : m <> e) by by intros ->.
    unfold is_literal, element_keyword. rewrite Hdz', decide_False by done. apply (Sound_literal _ _ HS). rewrite Es. done.
  - done.
  - split; [done|]. split; [done|]. split; [|done]. unfold events. rewrite length_fmap.
    change ([EndElementEvent e]) with ([(fresh_ x, EndElementEvent e)].*2). apply (view_insert x z (queue_ x) [(fresh_ x, EndElementEvent e)] []);
      [done|by apply Wf_queue_nodup|by rewrite app_nil_r|done|done|done].
Qed.

(** ** A literal element whose start tag is held back *)

(** Its characters, if any, and its end come into an empty window. *)
Definition literal_element (contents : option bytes) (style : Style) (x : HtmlParse) : option HtmlParse :=
  x ← match contents with Some t => add_leaf CharactersNode t x | None => Some x end; close_element style x.

Section literal.
Context (x : HtmlParse) (base S1 : list nat) (e c0 : nat) (d : Data) (name : HtmlName) (attrs : list Attribute) (sty : Style).
Hypothesis HS : Sound x base.
Hypothesis HC : Core x base S1.
Hypothesis Hdl : delayed_start_literal_ x = Some (StartElementEvent e).
Hypothesis HQ : queue_ x = [].
Hypothesis Hst : lexer_stack_ x = e :: S1.
Hypothesis Ed : data e x = Some d.
Hypothesis Ebd : begin_ d = Some c0.
Hypothesis Hlt : (c0 < fresh_ x)%nat.
Hypothesis Eend : end_ d = None.
Hypothesis El : is_live_ d = true.
Hypothesis Ect : content_ d = Tag name attrs sty.
Hypothesis Hk : kind e x = Some ElementNode.

(** The state in the end, [chars] the cell of the characters. *)
Record literal_state (z : HtmlParse) (b f : nat) (chars : Cells) (ct : Content) : Prop := {
  lit_queue : queue_ z = (b, StartElementEvent e) :: chars ++ [(f, EndElementEvent e)];
  lit_chars : chars = [] \/ exists c m k dm, chars = [(c, LeafNodeEvent m)] /\ m <> e /\ kind m x = Some (LeafNode k) /\ par x m = Some e /\
    data m x = Some dm /\ is_live_ dm = true /\ begin_ dm = None /\ end_ dm = None /\ (fresh_ x <= c)%nat /\ c <> b /\ c <> f /\ (c < fresh_ z)%nat /\
    data m z = Some (mkData (content_ dm) true (Some c) (Some c));
  lit_cells : (fresh_ x <= b < f)%nat /\ (f < fresh_ z)%nat;
  lit_data m : unlisted m chars -> data m z = if decide (m = e) then Some (mkData ct true (Some b) (Some f)) else data m x;
  lit_tag : exists attrs' sty', ct = Tag name attrs' sty';
  lit_kind m : kind m z = kind m x;
  lit_par m : par z m = par x m;
  lit_rest : delayed_start_literal_ z = None /\ lexer_stack_ z = S1 /\ deferred_nodes_ z = deferred_nodes_ x /\
    open_deferred_nodes_ z = open_deferred_nodes_ x /\ current_ z = current_ x;
}.

Lemma literal_sound z b f chars ct : literal_state z b f chars ct -> Sound z base.
Proof.
  intros [HQz Hch [Hb Hf] Hdz [at' [st' Hct]] Hkz Hpz (Hdlz & Hstz & Hdfz & Hopz & Hcz)]. pose proof (Core_wf _ _ _ HC) as HW.
  assert (Hbase : base = S1) by (pose proof (Core_walk _ _ _ HC) as Hw; unfold events in Hw; rewrite HQ in Hw; by injection Hw).
  pose proof (Sound_chain _ _ HS) as Hchn. rewrite Hst in Hchn. destruct Hchn as [Hpe Hchn].
  pose proof (Sound_nodup _ _ HS) as Hnd. rewrite Hst in Hnd. apply NoDup_cons in Hnd as [HeS Hnd].
  assert (Hue : unlisted e chars).
  { destruct Hch as [->|(c & m & k & dm & -> & Hme & _)]; intros c' ev Hi; [by apply elem_of_nil in Hi|].
    apply list_elem_of_singleton in Hi. injection Hi as -> ->. cbn. congruence. }
  assert (Hdze : data e z = Some (mkData ct true (Some b) (Some f))) by (by rewrite Hdz, decide_True).
  assert (Hother : forall m, m ∈ S1 -> data m z = data m x).
  { intros m Hm. assert (Hme : m <> e) by by intros ->. rewrite Hdz, decide_False; [done|done|].
    destruct Hch as [->|(c & m' & k & dm & -> & Hme' & Hk' & _)]; intros c' ev Hi; [by apply elem_of_nil in Hi|].
    apply list_elem_of_singleton in Hi. injection Hi as -> ->. cbn. intros [= ->].
    assert (Hkm : kind m x = Some ElementNode) by (apply (Sound_elems _ _ HS); rewrite Hst; by right). congruence. }
  assert (HWz : Wf z).
  { apply (Wf_insert_data x z (queue_ z)); [done|..].
    - unfold cells, deferred_cells. by rewrite HQ, Hdfz.
    - rewrite HQz. cbn. rewrite fmap_app. cbn. destruct Hch as [->|(c & m & k & dm & -> & _ & _ & _ & _ & _ & _ & _ & _ & Hcb & Hcf & _)]; cbn.
      + repeat constructor; rewrite ?elem_of_cons, ?elem_of_nil; lia.
      + repeat constructor; rewrite ?elem_of_cons, ?elem_of_nil; lia.
    - intros c. rewrite HQz. cbn. rewrite fmap_app. cbn. rewrite elem_of_cons, elem_of_app, list_elem_of_singleton.
      destruct Hch as [->|(c' & m & k & dm & -> & _ & _ & _ & _ & _ & _ & _ & Hc1 & _ & _ & Hc2 & _)]; cbn; rewrite ?elem_of_cons, ?elem_of_nil; lia.
    - lia.
    - done.
    - intros c ev. rewrite HQz, elem_of_cons, elem_of_app, list_elem_of_singleton. intros [Hi|[Hi|Hi]].
      + injection Hi as -> ->. cbn. rewrite Hkz. split; [done|]. eexists. split; [exact Hdze|done].
      + destruct Hch as [->|(c' & m & k & dm & -> & _ & Hkm & _ & _ & _ & _ & _ & _ & _ & _ & _ & Edz)]; [by apply elem_of_nil in Hi|].
        apply list_elem_of_singleton in Hi. injection Hi as -> ->. cbn. rewrite Hkz. split; [by exists k|]. eexists. split; [exact Edz|done].
      + injection Hi as -> ->. cbn. rewrite Hkz. split; [done|]. eexists. split; [exact Hdze|done].
    - done.
    - intros m dm Em. destruct (decide (m = e)) as [->|Hme].
      + assert (dm = d) as -> by congruence. eexists. split; [exact Hdze|]. cbn. rewrite El, Ect, Hct, Ebd, Eend. split; [done|]. split; [done|].
        split; [right; split; [by right|]; exists b; split; [done|]; split; [done|]; left; rewrite HQz; by left|].
        split; [right; split; [done|]; exists f; split; [done|]; split; [done|]; left; rewrite HQz; set_solver|].
        split; [intros _ [= ->]; lia|by right].
      + assert (Hnd' : delayed_start_literal_ x <> Some (StartElementEvent m)) by (rewrite Hdl; congruence).
        destruct (decide (LeafNodeEvent m ∈ chars.*2)) as [[c Hi]%in_snd|Hno].
        * destruct Hch as [->|(c' & m' & k & dm' & -> & _ & Hkm & _ & Em' & El' & Eb' & Ee' & _ & _ & _ & _ & Edz)]; [by apply elem_of_nil in Hi|].
          apply list_elem_of_singleton in Hi. injection Hi as -> ->. assert (dm' = dm) as -> by congruence. eexists. split; [exact Edz|]. cbn.
          rewrite El'. split; [done|]. split; [by destruct (content_ dm)|].
          split; [right; split; [by left|]; exists c'; split; [done|]; split; [done|]; right; rewrite HQz; set_solver|].
          split; [right; split; [done|]; exists c'; split; [done|]; split; [done|]; right; rewrite HQz; set_solver|]. split; [done|by left].
        * exists dm. rewrite Hdz, decide_False; [|done|].
          -- split; [done|]. split; [done|]. split; [by destruct (content_ dm)|]. split; [by left|]. split; [by left|]. split; [done|by left].
          -- intros c ev Hi En. apply Hno. destruct Hch as [->|(c' & m' & k & dm' & -> & _)]; [by apply elem_of_nil in Hi|].
             apply list_elem_of_singleton in Hi. injection Hi as -> ->. injection En as ->. by left.
    - intros m Em. rewrite Hdz; [rewrite decide_False; [done|]; intros ->; congruence|].
      destruct Hch as [->|(c' & m' & k & dm' & -> & _ & _ & _ & Em' & _)]; intros c ev Hi; [by apply elem_of_nil in Hi|].
      apply list_elem_of_singleton in Hi. injection Hi as -> ->. cbn. congruence.
    - intros c Hc. rewrite Hcz in Hc. apply (Wf_current x HW) in Hc. rewrite HQ in Hc. by apply elem_of_nil in Hc. }
  assert (Hwz : walk (par z) None base (events z) = Some S1).
  { unfold events. rewrite HQz. cbn. rewrite decide_True by (rewrite Hpz, Hbase; done). rewrite fmap_app.
    destruct Hch as [->|(c & m & k & dm & -> & _ & _ & Hpm & _)]; cbn.
    - rewrite decide_True; [by rewrite Hbase|]. split; [done|]. by rewrite Hpz, Hbase.
    - rewrite decide_True by by rewrite Hpz, Hpm. rewrite decide_True; [by rewrite Hbase|]. split; [done|]. by rewrite Hpz, Hbase. }
  split; rewrite ?Hstz.
  - exists S1. split; [|unfold delayed_element; by rewrite Hdlz]. split; [done|done|apply HC| | |intros m; by rewrite Hstz|].
    + eapply chained_ext; [|apply HC]. intros; apply Hpz.
    + intros m Hm Hi. unfold events in Hi. rewrite HQz in Hi. cbn in Hi. rewrite fmap_app in Hi. cbn in Hi.
      apply elem_of_cons in Hi as [Hi|[Hi|Hi%list_elem_of_singleton]%elem_of_app]; [|by destruct Hch as [->|(? & ? & ? & ? & -> & _)]; set_solver|done].
      injection Hi as ->. by rewrite Hbase in Hm.
    + intros m. rewrite Hstz. intros Hm. rewrite Hother by done. apply (Core_open _ _ _ HC). rewrite Hst. by right.
  - intros dn L. rewrite Hdfz. intros HL. eapply segment_ext; [|by apply (Sound_deferred _ _ HS)]. intros; by rewrite Hpz.
  - rewrite Hopz. apply HS.
  - intros m Hm. rewrite Hkz. apply (Sound_elems _ _ HS). rewrite Hst. by right.
  - eapply chained_ext; [|exact Hchn]. intros; apply Hpz.
  - intros m Hm. assert (Hms : m ∈ S1) by (destruct S1; [done|by right]). unfold is_literal, element_keyword. rewrite Hother by done.
    apply (Sound_literal _ _ HS). rewrite Hst. done.
  - done.
Qed.
End literal.

Lemma RestoreDelayedLiteral_ok r e d :
  delayed_start_literal_ r = Some (StartElementEvent e) -> data e r = Some d ->
  (queue_ r = [] \/ exists c m, queue_ r = [(c, LeafNodeEvent m)] /\ is_characters m r = true) ->
  exists r', RestoreDelayedLiteral r = Some r' /\ queue_ r' = (fresh_ r, StartElementEvent e) :: queue_ r /\ fresh_ r' = S (fresh_ r) /\
    (forall m, data m r' = if decide (m = e) then Some (mkData (content_ d) (is_live_ d) (Some (fresh_ r)) (end_ d)) else data m r) /\
    (forall m, kind m r' = kind m r /\ par r' m = par r m) /\ current_ r' = current_ r /\ skip_increment_ r' = skip_increment_ r /\
    delayed_start_literal_ r' = None /\ open_deferred_nodes_ r' = open_deferred_nodes_ r /\ deferred_nodes_ r' = deferred_nodes_ r /\
    lexer_stack_ r' = lexer_stack_ r.
Proof.
  intros Hdl Ed HQ. unfold RestoreDelayedLiteral. rewrite Hdl. cbn [GetElementIfStartEvent mbind option_bind].
  set (r0 := set_delayed_start_literal None r). set (r1 := set_fresh (S (fresh_ r)) (set_queue ((fresh_ r, StartElementEvent e) :: queue_ r) r0)).
  assert (Hpos : (match last (queue_ r0) with
     | None => Some None
     | Some (p, event) => match GetCharactersNode event r0 with
         | Some _ => if decide (Some p = front (queue_ r0)) then Some None else i ← prev (Some p) (queue_ r0); Some (Some i)
         | None => None end end) = Some None).
  { change (queue_ r0) with (queue_ r). destruct HQ as [->|(c & m & -> & Hm)]; [done|]. cbn [last]. unfold GetCharactersNode. cbn [GetLeafNode mbind option_bind].
    change (is_characters m r0) with (is_characters m r). rewrite Hm. by rewrite decide_True. }
  rewrite Hpos. cbn [mbind option_bind].
  assert (Hins : insert_event (front (queue_ r0)) (StartElementEvent e) r0 = Some (r1, Some (fresh_ r))).
  { unfold insert_event. change (queue_ r0) with (queue_ r). destruct HQ as [HQ|(c & m & HQ & _)]; rewrite HQ; cbn; [unfold r1; by rewrite HQ|].
    rewrite decide_True by done. unfold r1. by rewrite HQ. }
  rewrite Hins. cbn [mbind option_bind]. unfold set_begin. change (data e r) with (data e r1) in Ed. rewrite (modify_data_Some e _ r1 d Ed).
  pose proof (data_node _ _ _ Ed) as Hnode. eexists. split; [done|]. do 2 (split; [done|]). split.
  - intros m. by rewrite data_with_data.
  - split; [|done]. intros m. rewrite kind_with_data. unfold par. rewrite parent_with_data. done.
Qed.

Lemma CloseElement_restored r r' e style :
  RestoreDelayedLiteral r = Some r' -> delayed_start_literal_ r' = None -> CloseElement e style r = CloseElement e style r'.
Proof. intros H Hd. unfold CloseElement. rewrite H. cbn [mbind option_bind]. unfold RestoreDelayedLiteral. by rewrite Hd. Qed.

Lemma literal_closed x base contents style :
  Sound x base -> is_Some (delayed_start_literal_ x) -> queue_ x = [] ->
  exists x' e, literal_element contents style x = Some x' /\ Sound x' base /\ delayed_start_literal_ x = Some (StartElementEvent e) /\
    lexer_stack_ x = e :: lexer_stack_ x' /\ delayed_start_literal_ x' = None /\
    events x' = StartElementEvent e :: match contents with Some _ => [LeafNodeEvent (length (nodes_ x))] | None => [] end ++ [EndElementEvent e] /\
    current_ x' = current_ x.
Proof.
  intros HS [ev Hdl] HQ. destruct (Sound_core _ _ HS) as (S1 & HC & Hst). pose proof (Core_wf _ _ _ HC) as HW.
  destruct (Wf_delayed x HW ev Hdl) as (e & d & c0 & -> & Hk & Ed & Ebd & Hci & Hlt). unfold delayed_element in Hst. rewrite Hdl in Hst. cbn in Hst.
  destruct (Core_open _ _ _ HC e) as (d2 & Ed2 & El & Eend); [rewrite Hst; by left|]. assert (d2 = d) as -> by congruence. clear Ed2.
  pose proof (Wf_shape x HW e _ d Hk Ed) as Hsh. unfold shaped in Hsh. destruct (content_ d) as [name attrs sty|] eqn:Ect; [|done]. clear Hsh.
  pose proof (Sound_chain _ _ HS) as Hchn. rewrite Hst in Hchn. destruct Hchn as [Hpe _].
  assert (Hgo : forall y chars, Sound y base -> Core y base S1 -> queue_ y = [] -> lexer_stack_ y = e :: S1 -> data e y = Some d -> kind e y = Some ElementNode ->
    (fresh_ x <= fresh_ y)%nat -> par y e = par x e -> delayed_start_literal_ y = Some (StartElementEvent e) -> current_ y = current_ x ->
    forall z, queue_ z = chars -> data e z = Some d -> delayed_start_literal_ z = Some (StartElementEvent e) ->
    (chars = [] \/ exists c m k dm, chars = [(c, LeafNodeEvent m)] /\ m <> e /\ kind m y = Some (LeafNode k) /\ is_characters m z = true /\ par y m = Some e /\
      data m y = Some dm /\ is_live_ dm = true /\ begin_ dm = None /\ end_ dm = None /\ (fresh_ y <= c)%nat /\ (c < fresh_ z)%nat /\
      data m z = Some (mkData (content_ dm) true (Some c) (Some c))) ->
    (fresh_ y <= fresh_ z)%nat -> (forall m, unlisted m chars -> data m z = data m y) -> (forall m, kind m z = kind m y /\ par z m = par y m) ->
    open_deferred_nodes_ z = open_deferred_nodes_ y -> deferred_nodes_ z = deferred_nodes_ y -> lexer_stack_ z = lexer_stack_ y -> current_ z = current_ y ->
    exists x', close_element style z = Some x' /\ Sound x' base /\ lexer_stack_ x' = S1 /\ delayed_start_literal_ x' = None /\
      events x' = StartElementEvent e :: chars.*2 ++ [EndElementEvent e] /\ current_ x' = current_ x).
  { intros y chars HSy HCy HQy Hsty Edy Hky Hfy Hpy Hdly Hcy z HQz Edz Hdlz Hchars Hfz Hdz Hkz Hopz Hdfz Hstz Hcz.
    unfold close_element. rewrite Hstz, Hsty. set (r := set_lexer_stack S1 z).
    destruct (RestoreDelayedLiteral_ok r e d Hdlz Edz) as (r' & Er & HQr & Hfr & Hdr & Hkr & Hcr & Hskr & Hdlr & Hopr & Hdfr & Hstr).
    { change (queue_ r) with (queue_ z). rewrite HQz. destruct Hchars as [->|(c & m & k & dm & -> & _ & _ & Hm & _)]; [by left|right]. by exists c, m. }
    rewrite (CloseElement_restored r r' e style Er Hdlr).
    change (queue_ r) with (queue_ z) in *. change (fresh_ r) with (fresh_ z) in *. rewrite HQz in HQr.
    destruct (CloseElement_tail r' e style (mkData (content_ d) (is_live_ d) (Some (fresh_ z)) (end_ d)) name attrs sty Hdlr) as (w & ct & Ew & Hw).
    - by rewrite Hdr, decide_True.
    - done.
    - rewrite (proj2 (Hkr e)). change (par r e) with (par z e). rewrite (proj2 (Hkz e)), Hpy, Hpe, Hstr. by destruct S1.
    - rewrite Ew. exists w. split; [done|]. destruct Hw as [HQw Hfw Hdw (at' & st' & Hct) Hkw Hpw (Hcw & Hskw & Hdlw & Hopw & Hdfw & Hstw)].
      rewrite HQr, Hfr in *. cbn [begin_ is_live_] in Hdw. split.
      + destruct (Wf_delayed y (Core_wf _ _ _ HCy) _ Hdly) as (e' & d' & c1 & [= <-] & _ & Ed' & Eb' & _ & Hlt'). assert (d' = d) as -> by congruence.
        assert (c1 = c0) as -> by congruence.
        apply (literal_sound y base S1 e c0 d name attrs sty HSy HCy Hdly HQy Hsty Edy Ebd Hlt' Eend El Ect Hky w (fresh_ z) (S (fresh_ z)) chars ct). split.
        * by rewrite HQw.
        * destruct Hchars as [->|(c & m & k & dm & -> & Hme & Hkm & _ & Hpm & Em & Elm & Ebm & Eem & Hc1 & Hc2 & Emz)]; [by left|right].
          exists c, m, k, dm. do 9 (split; [done|]). split; [lia|]. split; [lia|]. split; [lia|]. rewrite Hdw, decide_False by done. rewrite Hdr, decide_False by done. done.
        * lia.
        * intros m Hm. rewrite Hdw. destruct (decide (m = e)) as [->|Hme]; [by rewrite El|]. rewrite Hdr, decide_False by done. by apply Hdz.
        * by exists at', st'.
        * intros m. rewrite Hkw, (proj1 (Hkr m)). apply Hkz.
        * intros m. rewrite Hpw, (proj2 (Hkr m)). apply Hkz.
        * rewrite Hdlw, Hstw, Hdfw, Hopw, Hcw, Hdlr, Hstr, Hdfr, Hopr, Hcr. done.
      + split; [by rewrite Hstw, Hstr|]. split; [by rewrite Hdlw|]. split; [unfold events; rewrite HQw; cbn; by rewrite fmap_app|].
        rewrite Hcw, Hcr. change (current_ r) with (current_ z). congruence. }
  unfold literal_element. destruct contents as [t|].
  2:{ cbn [mbind option_bind]. destruct (Hgo x [] HS HC HQ Hst Ed Hk ltac:(done) eq_refl Hdl eq_refl x) as (x' & Ex & HSx & Hsx & Hdx & Hev & Hcx);
        try done; [by left|]. exists x', e. rewrite Hsx. done. }
  unfold add_leaf, NewLeafNode. pose proof (NewNode_good x base S1 (LeafNode CharactersNode) (head (lexer_stack_ x)) (Text t) HC I) as Hn.
  destruct (NewNode _ _ _ x) as [y n] eqn:Ey. destruct Hn as ((HCy & Hey & Hvy) & Hf & Hp & Hkn).
  assert (Hnn : n = length (nodes_ x)) by (unfold NewNode in Ey; by injection Ey).
  assert (Hst2 : lexer_stack_ x = delayed_element x ++ S1) by (unfold delayed_element; by rewrite Hdl).
  assert (HSy : Sound y base) by (by eapply (Sound_edited x y base S1)).
  destruct (fresh_data n y Hf) as (dn & Edn & Eln & Ebn & Een & Hnst).
  assert (Hsy : lexer_stack_ y = e :: S1) by (by rewrite (edited_stack _ _ Hey)).
  assert (Hne : n <> e) by (intros ->; apply Hnst; rewrite Hsy; by left).
  assert (Hyx : y = set_nodes (nodes_ x ++ [mkNode (LeafNode CharactersNode) (head (lexer_stack_ x)) (Some (mkData (Text t) true None None))]) x)
    by (unfold NewNode in Ey; by injection Ey).
  assert (Edy : data e y = Some d).
  { unfold data. rewrite Hyx. cbn. destruct (data_node _ _ _ Ed) as [nd E]. rewrite lookup_app_l by (by apply lookup_lt_Some in E).
    unfold data in Ed. exact Ed. }
  assert (Hpey : par y e = par x e) by (apply (edited_par _ _ Hey); left; rewrite Hst; by left).
  assert (HQy : queue_ y = []) by by rewrite Hyx.
  rewrite (AddEvent_leaf y n _ Hkn) by (rewrite (data_parent _ _ _ Edn), Hp; by rewrite (edited_stack _ _ Hey)).
  destruct (SynthesizeEvents_ok (touched y) n [] []) as (z & s & Ez & Hi); [apply Core_touched in HCy; apply HCy|done|done|].
  assert (Ez' : InsertNodeBeforeEvent None n y = Some z) by exact Ez. rewrite Ez'. cbn [mbind option_bind].
  destruct (inserted_new _ _ _ _ _ _ Hi) as (dn' & b & f & Edn' & Hnc & Hfb & Enz). change (data n (touched y)) with (data n y) in Edn'.
  assert (dn' = dn) as -> by congruence.
  destruct Hnc as [(Hkk & _)|(_ & Hs & ->)]; [change (kind n (touched y)) with (kind n y) in Hkk; congruence|].
  assert (Hr : IsRewritable n z = true).
  { apply IsRewritable_and. split; [unfold IsRewritableIgnoringDeferral; rewrite Enz; cbn; by rewrite Eln|].
    pose proof (fresh_not_deferred y base n HSy Hf) as Hnd. unfold IsDeferred in *. rewrite (edited_deferred _ _ (inserted_edited _ _ _ _ _ _ Hi)). done. }
  rewrite Hr. cbn [mbind option_bind].
  destruct (Hgo y s HSy HCy HQy Hsy Edy) with (z := z) as (x' & Ex & HSx & Hsx & Hdx & Hev & Hcx).
  - apply (edited_kind _ _ Hey). done.
  - by rewrite Hyx.
  - done.
  - by rewrite (edited_delayed _ _ Hey).
  - by rewrite Hyx.
  - pose proof (at_queue _ _ _ _ _ (inserted_at _ _ _ _ _ _ Hi)) as HQz. cbn in HQz. by rewrite app_nil_r in HQz.
  - rewrite (inserted_data _ _ _ _ _ _ Hi) by done. done.
  - rewrite (edited_delayed _ _ (inserted_edited _ _ _ _ _ _ Hi)). change (delayed_start_literal_ (touched y)) with (delayed_start_literal_ y).
    by rewrite (edited_delayed _ _ Hey).
  - right. exists b, n, CharactersNode, dn. split; [done|]. split; [done|]. split; [done|]. split.
    { unfold is_characters. assert (Hkz : kind n z = Some (LeafNode CharactersNode)) by (rewrite (inserted_kind _ _ _ _ _ _ Hi); exact Hkn).
      unfold kind in Hkz. destruct (nodes_ z !! n) as [nd|]; [|done]. injection Hkz as Hkz. rewrite Hkz. by apply bool_decide_eq_true_2. }
    split; [rewrite Hp, Hst; done|]. do 4 (split; [done|]).
    split; [apply (inserted_fresh _ _ _ _ _ _ Hi b); rewrite Hs; by left|]. split; [done|]. by rewrite Enz, Eln.
  - assert (Hfr : (fresh_ (touched y) <= b)%nat) by (apply (inserted_fresh _ _ _ _ _ _ Hi b); rewrite Hs; by left). change (fresh_ (touched y)) with (fresh_ y) in Hfr. lia.
  - intros m Hm. rewrite (inserted_data _ _ _ _ _ _ Hi); [done|]. intros ->. apply (Hm b (LeafNodeEvent n)); [|done]. rewrite Hs. by left.
  - intros m. rewrite (inserted_kind _ _ _ _ _ _ Hi), (inserted_par _ _ _ _ _ _ Hi). done.
  - apply (edited_open _ _ (inserted_edited _ _ _ _ _ _ Hi)).
  - apply (edited_deferred _ _ (inserted_edited _ _ _ _ _ _ Hi)).
  - apply (edited_stack _ _ (inserted_edited _ _ _ _ _ _ Hi)).
  - apply (inserted_current _ _ _ _ _ _ Hi).
  - exists x', e. split; [done|]. split; [done|]. split; [done|]. rewrite Hsx. split; [done|]. split; [done|]. split; [|done].
    rewrite Hev, Hs, <- Hnn. done.
Qed.
