(* ===== verification/HtmlParseFlush.v ===== *)
(** * The HTML parser: around the filters

    Before a filter runs, adjacent characters are put together and a literal start tag at
    the end of the window is held back; after it [SanityCheck] walks the window; at the end
    of a flush the nodes lose their iterators, and those that have ended their data. *)

From S2P Require Import Prelude StringUtil HtmlKeywords HtmlLexer HtmlParse HtmlParseWalk HtmlParseInv HtmlParseDoc HtmlParseEdit HtmlParseDelete HtmlParseUnwrap HtmlParseDefer HtmlParseOps HtmlParseStep.

(** ** [SanityCheck] *)

(** Its stack has the elements that began in the window. *)
Lemma SanityCheck_walk x q W B U :
  (forall c ev, (c, ev) ∈ q -> linked x c ev) -> walk (par x) None (W ++ B) q.*2 = Some U -> SanityCheck_loop q W x = Some tt.
Proof.
  revert W B. induction q as [|[c ev] q IH]; intros W B Hl Hw; [done|].
  assert (Hl' : forall c ev, (c, ev) ∈ q -> linked x c ev) by (intros; apply Hl; by right). pose proof (Hl c ev ltac:(by left)) as Hc.
  assert (Hpar : forall n d, data n x = Some d -> parent n x = Some (par x n)) by (intros n d E; by eapply data_parent).
  assert (Hexp : forall n, par x n = top None (W ++ B) -> CheckEventParent (head W) (par x n) = true).
  { intros n ->. destruct W as [|w W]; [done|]. cbn. by apply bool_decide_eq_true_2. }
  destruct ev as [| |n|n|n]; cbn in Hw.
  1,2: case_decide; [|done]; by apply (IH W B).
  - case_decide as Hp; [|done]. destruct Hc as [_ (d & E & El & Eb)]. cbn [SanityCheck_loop]. rewrite (Hpar n d E). cbn [mbind option_bind].
    unfold begin, live. rewrite E. cbn. rewrite El, Eb, (Hexp n Hp), bool_decide_eq_true_2 by done. cbn. by apply (IH (n :: W) B).
  - destruct Hc as [_ (d & E & El & Ee)]. cbn [SanityCheck_loop]. rewrite (Hpar n d E). cbn [mbind option_bind].
    unfold end_of, live. rewrite E. cbn. rewrite El, Ee, bool_decide_eq_true_2 by done. cbn. destruct W as [|w W]; cbn in Hw.
    + destruct B as [|w B]; [done|]. case_decide as Hc; [|done]. cbn. by apply (IH [] B).
    + case_decide as Hc; [|done]. destruct Hc as [-> Hp]. rewrite bool_decide_eq_true_2 by done. cbn.
      assert (Hx : CheckEventParent (head W) (par x n) = true) by (rewrite Hp; destruct W as [|w W]; [done|]; cbn; by apply bool_decide_eq_true_2).
      rewrite Hx. by apply (IH W B).
  - case_decide as Hp; [|done]. destruct Hc as [_ (d & E & El & Eb & Ee)]. cbn [SanityCheck_loop]. rewrite (Hpar n d E). cbn [mbind option_bind].
    unfold end_of, live. rewrite E. cbn. rewrite El, Ee, (Hexp n Hp), bool_decide_eq_true_2 by done. cbn. by apply (IH W B).
Qed.

Lemma window_is_sane x S0 S1 : Core x S0 S1 -> SanityCheck x = Some (set_current None x).
Proof.
  intros HC. unfold SanityCheck. rewrite (SanityCheck_walk x (queue_ x) [] S0 S1); [done|apply (Core_link _ _ _ HC)|apply (Core_walk _ _ _ HC)].
Qed.

(** ** [CoalesceAdjacentCharactersNodes] *)

(** An event with its characters. *)
Definition text_of (x : HtmlParse) (ev : HtmlEvent) : option bytes :=
  n ← GetCharactersNode ev x; d ← data n x; match content_ d with Text t => Some t | Tag _ _ _ => None end.
Definition contents (x : HtmlParse) : list (HtmlEvent * option bytes) := (fun ev => (ev, text_of x ev)) <$> events x.

(** Characters that follow characters are appended to them. *)
Fixpoint coalesce (l : list (HtmlEvent * option bytes)) : list (HtmlEvent * option bytes) :=
  match l with
  | [] => []
  | (ev, Some t) :: l => match coalesce l with (ev', Some t') :: l' => (ev, Some (t ++ t')) :: l' | l' => (ev, Some t) :: l' end
  | (ev, None) :: l => (ev, None) :: coalesce l
  end.

Lemma coalesce_merge ev t ev' t' l : coalesce ((ev, Some t) :: (ev', Some t') :: l) = coalesce ((ev, Some (t ++ t')) :: l).
Proof.
  cbn. destruct (coalesce l) as [|[ev2 [t2|]] l2]; try done. by rewrite app_assoc.
Qed.

Lemma characters_kind n x : is_characters n x = true <-> kind n x = Some (LeafNode CharactersNode).
Proof.
  unfold is_characters, kind. destruct (nodes_ x !! n) as [nd|]; [|done]. rewrite bool_decide_eq_true. cbn. split; [by intros ->|by intros [= H]].
Qed.

Lemma GetCharactersNode_Some ev x n : GetCharactersNode ev x = Some n <-> ev = LeafNodeEvent n /\ kind n x = Some (LeafNode CharactersNode).
Proof.
  unfold GetCharactersNode. destruct ev as [| |m|m|m]; cbn; split; try done; try (by intros [[=] _]).
  - destruct (is_characters m x) eqn:E; [|done]. intros [= ->]. split; [done|]. by apply characters_kind.
  - intros [[= ->] E%characters_kind]. by rewrite E.
Qed.

(** One step of the loop that puts two nodes together. *)
Definition merged (p n c : nat) (dp : Data) (sp sn : bytes) (A T : Cells) (x z : HtmlParse) : Prop :=
  queue_ z = A ++ T /\ skip_increment_ z = skip_increment_ x /\
  (forall m, kind m z = kind m x /\ par z m = par x m) /\
  (forall m, data m z = if decide (m = n) then None else if decide (m = p) then Some (mkData (Text (sp ++ sn)) (is_live_ dp) (begin_ dp) (end_ dp)) else data m x).

Lemma merge_step x S0 S1 p n c ev A T dp dn sp sn :
  Core x S0 S1 -> current_ x = None -> queue_ x = A ++ (c, LeafNodeEvent n) :: T -> p <> n -> ev = LeafNodeEvent n ->
  data p x = Some dp -> data n x = Some dn -> content_ dp = Text sp -> content_ dn = Text sn ->
  exists z, (x1 ← set_content p (Text (sp ++ sn)) x; '(x2, _) ← erase (Some c) x1;
     Some (set_need_sanity_check true (FreeData n (MarkAsDead n x2)))) = Some z /\ merged p n c dp sp sn A T x z /\ good S0 S1 x (view z) z /\ current_ z = None.
Proof.
  intros HC Hcur HQ Hpn -> Ep En Ecp Ecn. pose proof (Core_wf _ _ _ HC) as HW. pose proof (Core_queue_nodup _ _ _ HC) as HN.
  destruct (set_content_good x S0 S1 p dp (Text (sp ++ sn)) HC Ep) as (y & Ey & (HCy & Hey & Hvy) & Hky & Hdy); [by rewrite Ecp|].
  rewrite Ey. cbn [mbind option_bind].
  assert (Hyx : y = set_nodes (nodes_ y) x) by (unfold set_content, modify_data in Ey; rewrite Ep in Ey; injection Ey as <-; done).
  assert (HQy : queue_ y = A ++ (c, LeafNodeEvent n) :: T) by (rewrite Hyx; done).
  rewrite (erase_app y A c (LeafNodeEvent n) T) by (rewrite HQy; by rewrite <- HQ || done). cbn [mbind option_bind].
  set (y2 := set_queue (A ++ T) y). set (z := set_need_sanity_check true (FreeData n (MarkAsDead n y2))). exists z. split; [done|].
  assert (Hn2 : data n y2 = Some dn) by (change (data n y2) with (data n y); rewrite Hdy, decide_False; [done|]; by intros ->).
  assert (Hdz : forall m, data m z = if decide (m = n) then None else data m y).
  { intros m. change (data m z) with (data m (FreeData n (MarkAsDead n y2))). unfold FreeData. rewrite data_with_data.
    - destruct (decide (m = n)); [done|]. unfold MarkAsDead. rewrite data_modify, decide_False by done. done.
    - unfold MarkAsDead, modify_node. cbn. rewrite list_lookup_alter_eq. destruct (data_node _ _ _ Hn2) as [nd E]. change (nodes_ y2) with (nodes_ y) in E. rewrite E. by eexists. }
  assert (Hkz : forall m, kind m z = kind m x).
  { intros m. rewrite <- (proj1 (Hky m)). change (kind m z) with (kind m (FreeData n (MarkAsDead n y2))). unfold FreeData. rewrite kind_with_data.
    unfold MarkAsDead. rewrite kind_modify. destruct (decide (m = n)) as [->|]; [|done]. unfold kind. change (nodes_ y2) with (nodes_ y). by destruct (nodes_ y !! n). }
  assert (Hpz : forall m, par z m = par x m).
  { intros m. rewrite <- (proj2 (Hky m)). unfold par. change (parent m z) with (parent m (FreeData n (MarkAsDead n y2))). unfold FreeData. rewrite parent_with_data.
    unfold MarkAsDead. rewrite parent_modify. destruct (decide (m = n)) as [->|]; [|done]. unfold parent. change (nodes_ y2) with (nodes_ y). by destruct (nodes_ y !! n). }
  split.
  { split; [done|]. split; [change (skip_increment_ z) with (skip_increment_ y); by rewrite Hyx|]. split; [done|].
    intros m. rewrite Hdz. destruct (decide (m = n)); [done|]. by rewrite Hdy. }
  assert (Hcz : current_ z = None) by (change (current_ z) with (current_ y); by rewrite Hyx). split; [|done].
  assert (Hi : (c, LeafNodeEvent n) ∈ queue_ y) by (rewrite HQy; set_solver). pose proof (Core_link _ _ _ HCy _ _ Hi) as [[k Hkn] (dn' & Edn' & Eln & Ebn & Een)].
  pose proof (Core_wf _ _ _ HCy) as HWy.
  assert (Huz : unlisted n (cells z)).
  { intros c' ev Hic Hen. assert (Hin : (c', ev) ∈ cells y) by (unfold cells in *; change (queue_ z) with (A ++ T) in Hic; change (deferred_cells z) with (deferred_cells y) in Hic; rewrite HQy; set_solver).
    assert (Hc' : c' = c).
    { pose proof (Wf_link y HWy c' ev Hin) as Hl. destruct ev as [| |m|m|m]; try done; injection Hen as ->; cbn in Hl; naive_solver congruence. }
    subst c'. pose proof (Wf_nodup y HWy) as HNc. unfold cells in HNc, Hic. rewrite HQy in HNc. change (queue_ z) with (A ++ T) in Hic. change (deferred_cells z) with (deferred_cells y) in Hic.
    rewrite <- app_assoc in HNc. cbn in HNc. rewrite <- Permutation_middle in HNc. cbn in HNc. apply NoDup_cons in HNc as [HNc _]. apply HNc. rewrite app_assoc.
    by apply (list_elem_of_fmap_2 fst) in Hic. }
  assert (Hst : n ∉ lexer_stack_ y) by (intros Hs; destruct (Core_open _ _ _ HCy n Hs) as (d2 & E2 & _ & Ee2); congruence).
  assert (Hez : edited y z).
  { apply edited_nodes; try done.
    - intros m k'. by rewrite Hkz, (proj1 (Hky m)).
    - intros m _. by rewrite Hpz, (proj2 (Hky m)).
    - intros m Hm. rewrite Hdz, decide_False; [done|]. by intros ->. }
  split; [|split; [by eapply edited_trans|done]]. split; [| |apply HC| | | |by apply (open_edited y), HCy].
  - apply (Wf_remove y z [(c, LeafNodeEvent n)]); try done.
    + unfold cells. rewrite HQy. change (queue_ z) with (A ++ T). change (deferred_cells z) with (deferred_cells y). rewrite <- app_assoc. cbn.
      rewrite <- Permutation_middle, <- app_assoc. done.
    + intros m. split; [by rewrite Hkz, (proj1 (Hky m))|]. rewrite Hdz. destruct (decide (m = n)) as [->|Hm].
      * right. split; [intros d'; by rewrite Hdz, decide_True|]. split; [done|]. split; [|by rewrite ?decide_True].
        intros Hd. destruct (Wf_delayed y HWy _ Hd) as (m & d0 & c0 & [= <-] & Hk0 & _). congruence.
      * left. split; [done|]. intros c' ev Hic. apply list_elem_of_singleton in Hic. injection Hic as -> ->. cbn. congruence.
    + intros c'. by rewrite Hcz.
  - pose proof (Core_walk _ _ _ HCy) as Hw. unfold events in Hw. rewrite HQy, fmap_app, fmap_cons in Hw.
    change (events z) with (A ++ T).*2. rewrite fmap_app. rewrite (walk_ext _ (par y)) by (intros; by rewrite Hpz, (proj2 (Hky _))).
    eapply (walk_remove (par y) None S0 A.*2 n [LeafNodeEvent n] T.*2); [exact Hw|by left].
  - eapply chained_ext; [|apply HC]. intros; apply Hpz.
  - intros m Hm Hs. apply (Core_out _ _ _ HCy m Hm). unfold events. rewrite HQy. change (events z) with (A ++ T).*2 in Hs. rewrite !fmap_app in *. set_solver.
  - intros m Hm. change (lexer_stack_ z) with (lexer_stack_ y). by apply (Core_top _ _ _ HCy).
Qed.

Lemma text_of_same x z ev : (forall n, GetNode ev = Some n -> kind n z = kind n x /\ data n z = data n x) -> text_of z ev = text_of x ev.
Proof.
  intros H. unfold text_of, GetCharactersNode. destruct ev as [| |n|n|n]; [done..|]. cbn. destruct (H n eq_refl) as [Hk Hd].
  assert (Hc : is_characters n z = is_characters n x); [|rewrite Hc; destruct (is_characters n x); [cbn; by rewrite Hd|done]].
  apply eq_bool_prop_intro. rewrite !Is_true_true, !characters_kind. by rewrite Hk.
Qed.

Lemma characters_text x S0 S1 c n :
  Core x S0 S1 -> (c, LeafNodeEvent n) ∈ queue_ x -> kind n x = Some (LeafNode CharactersNode) ->
  exists d t, data n x = Some d /\ content_ d = Text t /\ text_of x (LeafNodeEvent n) = Some t.
Proof.
  intros HC Hi Hk. destruct (Core_link _ _ _ HC _ _ Hi) as [_ (d & E & _)]. pose proof (Wf_shape x (Core_wf _ _ _ HC) n _ d Hk E) as Hs. unfold shaped in Hs.
  destruct (content_ d) as [|t] eqn:Ec; [done|]. exists d, t. split; [done|]. split; [done|]. unfold text_of.
  rewrite (proj2 (GetCharactersNode_Some (LeafNodeEvent n) x n)) by done. cbn. rewrite E. cbn. by rewrite Ec.
Qed.

Lemma coalesce_None ev l : coalesce ((ev, None) :: l) = (ev, None) :: coalesce l. Proof. done. Qed.
Lemma coalesce_Some_None ev t ev' l : coalesce ((ev, Some t) :: (ev', None) :: l) = (ev, Some t) :: (ev', None) :: coalesce l. Proof. done. Qed.
Lemma coalesce_Some_nil ev t : coalesce [(ev, Some t)] = [(ev, Some t)]. Proof. done. Qed.

(** The events before the one that is being collected, and it. *)
Definition collected (A : Cells) (prev : option nat) (x : HtmlParse) : list HtmlEvent -> list (HtmlEvent * option bytes) :=
  let f ev := (ev, text_of x ev) in
  match prev with
  | None => fun rest => (f <$> A.*2) ++ coalesce (f <$> rest)
  | Some p => fun rest => (f <$> removelast A.*2) ++ coalesce (f <$> LeafNodeEvent p :: rest)
  end.

Lemma Coalesce_loop_ok S0 S1 rest A pv x :
  Core x S0 S1 -> current_ x = None -> queue_ x = A ++ rest ->
  match pv with Some p => exists A' cp, A = A' ++ [(cp, LeafNodeEvent p)] /\ kind p x = Some (LeafNode CharactersNode) | None => True end ->
  exists z, Coalesce_loop rest pv x = Some z /\ good S0 S1 x (view z) z /\ current_ z = None /\ skip_increment_ z = skip_increment_ x /\
    contents z = collected A pv x rest.*2.
Proof.
  revert A pv x. induction rest as [|[c ev] rest IH]; intros A pv x HC Hcur HQ Hpv.
  { exists x. split; [done|]. split; [split; [done|]; split; [apply edited_refl|done]|]. split; [done|]. split; [done|]. rewrite app_nil_r in HQ.
    unfold contents, events, collected. rewrite HQ. destruct pv as [p|]; cbn [fmap list_fmap]; [|by rewrite app_nil_r].
    destruct Hpv as (A' & cp & -> & Hkp). destruct (characters_text x S0 S1 cp p HC) as (d & t & _ & _ & Ht); [rewrite HQ; set_solver|done|].
    rewrite Ht, fmap_app. cbn [fmap list_fmap snd]. rewrite removelast_last, fmap_app. cbn [fmap list_fmap]. by rewrite Ht. }
  assert (Hi : (c, ev) ∈ queue_ x) by (rewrite HQ; set_solver). pose proof (Core_once _ _ _ HC) as Ho. unfold events in Ho. rewrite HQ, fmap_app, fmap_cons in Ho.
  assert (HQ' : queue_ x = (A ++ [(c, ev)]) ++ rest) by by rewrite HQ, <- app_assoc.
  cbn [Coalesce_loop]. destruct (GetCharactersNode ev x) as [n|] eqn:En.
  - apply GetCharactersNode_Some in En as [-> Hkn]. destruct (characters_text x S0 S1 c n HC Hi Hkn) as (dn & sn & Edn & Ecn & Htn). destruct pv as [p|].
    + destruct Hpv as (A' & cp & -> & Hkp). assert (Hip : (cp, LeafNodeEvent p) ∈ queue_ x) by (rewrite HQ; set_solver).
      destruct (characters_text x S0 S1 cp p HC Hip Hkp) as (dp & sp & Edp & Ecp & Htp).
      assert (Hpn : p <> n).
      { intros ->. apply (once_disjoint (A' ++ [(cp, LeafNodeEvent n)]).*2 _ (LeafNodeEvent n) n Ho eq_refl); [rewrite fmap_app; set_solver|by left]. }
      destruct (merge_step x S0 S1 p n c _ (A' ++ [(cp, LeafNodeEvent p)]) rest dp dn sp sn HC Hcur HQ Hpn eq_refl Edp Edn Ecp Ecn) as (z & Ez & (HQz & Hsz & Hkz & Hdz) & Hgz & Hcz).
      rewrite Edn, Edp. cbn [mbind option_bind]. rewrite Ecn, Ecp.
      destruct (set_content p (Text (sp ++ sn)) x) as [x1|]; [|done]. cbn [mbind option_bind] in Ez |- *. destruct (erase (Some c) x1) as [[x2 it]|]; [|done].
      cbn [mbind option_bind] in Ez |- *. injection Ez as Ez. rewrite Ez.
      destruct (IH (A' ++ [(cp, LeafNodeEvent p)]) (Some p) z) as (w & Ew & Hgw & Hcw & Hsw & Hconw); [apply Hgz|done|done|exists A', cp; split; [done|by rewrite (proj1 (Hkz p))]|].
      exists w. split; [done|]. split; [destruct Hgw as (H1 & H2 & H3), Hgz as (_ & H4 & _); split; [done|]; split; [by eapply edited_trans|done]|].
      split; [done|]. split; [congruence|]. rewrite Hconw. unfold collected.
      assert (Hother : forall ev, ev ∈ A'.*2 \/ ev ∈ rest.*2 -> text_of z ev = text_of x ev).
      { intros ev Hev. apply text_of_same. intros m Em. split; [apply Hkz|].
        assert (Hiev : exists c', (c', ev) ∈ queue_ x) by (rewrite HQ; destruct Hev as [[c' Hev]%in_snd|[c' Hev]%in_snd]; exists c'; set_solver).
        destruct Hiev as [c' Hiev]. apply (Core_link _ _ _ HC) in Hiev as Hl. rewrite fmap_app in Ho. cbn in Ho.
        assert (Hleaf : forall k, m = k -> kind k x = Some (LeafNode CharactersNode) -> ev = LeafNodeEvent k).
        { intros k -> Hkk. destruct ev as [| |j|j|j]; try done; injection Em as ->; [destruct Hl as [Hk' _]; congruence..|done]. }
        assert (Hno : forall l1 k l2, A'.*2 ++ [LeafNodeEvent p] ++ LeafNodeEvent n :: rest.*2 = l1 ++ LeafNodeEvent k :: l2 ->
          (forall ev', ev' ∈ A'.*2 \/ ev' ∈ rest.*2 -> ev' ∈ l1 \/ ev' ∈ l2) -> ev <> LeafNodeEvent k).
        { intros l1 k l2 El Hin ->. rewrite <- app_assoc in Ho. rewrite El in Ho. destruct (Ho l1 (LeafNodeEvent k) k l2 eq_refl eq_refl) as [H1 H2].
          by destruct (Hin _ Hev). }
        rewrite Hdz, !decide_False; [done| |]; intros ->.
        - apply (Hno A'.*2 p (LeafNodeEvent n :: rest.*2)); [done|intros ev'; rewrite elem_of_cons; tauto|by apply Hleaf].
        - apply (Hno (A'.*2 ++ [LeafNodeEvent p]) n rest.*2); [by rewrite <- app_assoc|intros ev'; rewrite elem_of_app; tauto|by apply Hleaf]. }
      assert (Hmerged : text_of z (LeafNodeEvent p) = Some (sp ++ sn)).
      { unfold text_of. rewrite (proj2 (GetCharactersNode_Some (LeafNodeEvent p) z p)) by (split; [done|]; by rewrite (proj1 (Hkz p))).
        cbn. rewrite Hdz, decide_False, decide_True by done. done. }
      rewrite fmap_app. cbn [fmap list_fmap snd]. rewrite removelast_last, Hmerged, Htp, Htn, coalesce_merge. f_equal.
      * apply list_fmap_ext. intros i ev Hev. rewrite Hother; [done|]. left. by eapply list_elem_of_lookup_2.
      * f_equal. f_equal. apply list_fmap_ext. intros i ev Hev. rewrite Hother; [done|]. right. by eapply list_elem_of_lookup_2.
    + destruct (IH (A ++ [(c, LeafNodeEvent n)]) (Some n) x HC Hcur HQ') as (z & Ez & Hg & Hcz & Hs & Hcon); [by exists A, c|].
      exists z. do 4 (split; [done|]). rewrite Hcon. unfold collected. rewrite fmap_app. cbn [fmap list_fmap snd]. by rewrite removelast_last.
  - assert (Htx : text_of x ev = None) by (unfold text_of; by rewrite En).
    destruct (IH (A ++ [(c, ev)]) None x HC Hcur HQ' I) as (z & Ez & Hg & Hcz & Hs & Hcon).
    exists z. split; [by destruct pv|]. do 3 (split; [done|]). rewrite Hcon. unfold collected. destruct pv as [p|].
    + destruct Hpv as (A' & cp & -> & Hkp). destruct (characters_text x S0 S1 cp p HC) as (d & t & _ & _ & Ht); [rewrite HQ; set_solver|done|].
      rewrite !fmap_app. cbn [fmap list_fmap snd]. rewrite removelast_last, Ht, Htx, coalesce_Some_None, <- !app_assoc. done.
    + rewrite !fmap_app. cbn [fmap list_fmap snd]. by rewrite Htx, coalesce_None, <- app_assoc.
Qed.

Lemma CoalesceAdjacentCharactersNodes_ok x S0 S1 :
  Core x S0 S1 -> current_ x = None ->
  exists z, CoalesceAdjacentCharactersNodes x = Some z /\ good S0 S1 x (view z) z /\ current_ z = None /\ skip_increment_ z = skip_increment_ x /\
    contents z = coalesce (contents x).
Proof. intros HC Hc. exact (Coalesce_loop_ok S0 S1 (queue_ x) [] None x HC Hc eq_refl I). Qed.

(** What coalescing keeps, and what it brings about. *)
Fixpoint all_text (l : list (HtmlEvent * option bytes)) : bytes :=
  match l with [] => [] | (_, t) :: l => default [] t ++ all_text l end.
Definition others (l : list (HtmlEvent * option bytes)) : list HtmlEvent := (filter (fun c => c.2 = None) l).*1.
Fixpoint no_adjacent (l : list (HtmlEvent * option bytes)) : bool :=
  match l with (_, Some _) :: ((_, Some _) :: _) => false | _ :: l => no_adjacent l | [] => true end.

Lemma coalesce_text l : all_text (coalesce l) = all_text l.
Proof.
  induction l as [|[ev [t|]] l IH]; cbn; [done| |by rewrite IH].
  destruct (coalesce l) as [|[ev' [t'|]] l']; cbn in *; rewrite <- IH; [done|by rewrite app_assoc|done].
Qed.
Lemma coalesce_others l : others (coalesce l) = others l.
Proof.
  unfold others. induction l as [|[ev [t|]] l IH]; [done| |].
  - cbn [coalesce]. rewrite (filter_cons_False _ _ l) by done. rewrite <- IH. destruct (coalesce l) as [|[ev' [t'|]] l']; [done|..].
    + by rewrite !filter_cons_False by done.
    + by rewrite (filter_cons_False _ (ev, Some t)) by done.
  - cbn [coalesce]. rewrite !filter_cons_True by done. cbn. by rewrite IH.
Qed.
Lemma coalesce_no_adjacent l : no_adjacent (coalesce l) = true.
Proof.
  induction l as [|[ev [t|]] l IH]; cbn [coalesce]; [done| |done]. destruct (coalesce l) as [|[ev' [t'|]] l']; [done| |done].
  destruct l' as [|[ev2 [t2|]] l2]; [done|done|done].
Qed.

(** ** [DelayLiteralTag] *)

Lemma last_cell (q : Cells) : q = [] \/ exists A c ev, q = A ++ [(c, ev)] /\ last q = Some (c, ev).
Proof.
  destruct (decide (q = [])) as [->|Hne]; [by left|right]. destruct (exists_last Hne) as (A & [c ev] & ->). exists A, c, ev. by rewrite last_snoc.
Qed.

Lemma DelayLiteralTag_ok x base :
  Sound x base -> current_ x = None ->
  exists z, DelayLiteralTag x = Some z /\ Sound z base /\ current_ z = None /\ skip_increment_ z = skip_increment_ x /\
    (contents z = contents x /\ delayed_start_literal_ z = delayed_start_literal_ x \/
     exists e, contents x = contents z ++ [(StartElementEvent e, None)] /\ delayed_start_literal_ z = Some (StartElementEvent e) /\ is_literal e x = true).
Proof.
  intros HS Hcur. destruct (Sound_core _ _ HS) as (S1 & HC & Hst). unfold DelayLiteralTag.
  destruct (last_cell (queue_ x)) as [HQ|(A & c & ev & HQ & Hlast)].
  { rewrite HQ. cbn. exists x. do 4 (split; [done|]). by left. }
  rewrite Hlast. assert (Hi : (c, ev) ∈ queue_ x) by (rewrite HQ; set_solver). pose proof (Core_link _ _ _ HC _ _ Hi) as Hl.
  destruct (GetElementIfStartEvent ev) as [e|] eqn:Ee.
  2:{ cbn. exists x. do 4 (split; [done|]). by left. }
  destruct ev as [| |n|n|n]; try done. injection Ee as ->. cbn in Hl. destruct Hl as [Hk (d & Ed & El & Eb)].
  pose proof (Wf_shape x (Core_wf _ _ _ HC) e _ d Hk Ed) as Hsh. unfold shaped in Hsh. destruct (content_ d) as [name attrs sty|] eqn:Ect; [|done]. clear Hsh.
  assert (Hkw : element_keyword e x = Some (keyword_ name)) by (unfold element_keyword; rewrite Ed; cbn; by rewrite Ect).
  rewrite Hkw. cbn [mbind option_bind]. destruct (IsLiteralTag (keyword_ name)) eqn:Elit.
  2:{ exists x. do 4 (split; [done|]). by left. }
  assert (Hlit : is_literal e x = true) by (unfold is_literal; by rewrite Hkw).
  (* the element is the innermost one that is open *)
  pose proof (at_cell x base S1 A c _ [] HC HQ) as (S & S' & HA & HA' & Hp & HS').
  assert (HS1 : S1 = e :: S).
  { pose proof (Core_walk _ _ _ HC) as Hw. unfold events in Hw. rewrite HQ, HA' in Hw. congruence. }
  assert (Hdl : delayed_start_literal_ x = None).
  { destruct (delayed_start_literal_ x) as [ev|] eqn:Edl; [|done]. exfalso. destruct (Wf_delayed x (Core_wf _ _ _ HC) ev Edl) as (m & _ & _ & -> & _).
    unfold delayed_element in Hst. rewrite Edl, HS1 in Hst. rewrite (Sound_literal _ _ HS e) in Hlit; [done|]. rewrite Hst. by left. }
  unfold delayed_element in Hst. rewrite Hdl, HS1 in Hst. cbn in Hst.
  pose proof (Core_queue_nodup _ _ _ HC) as HN. rewrite (erase_app x A c _ [] HN HQ). cbn [mbind option_bind].
  set (z := set_delayed_start_literal (Some (StartElementEvent e)) (set_queue (A ++ []) x)). exists z. split; [done|].
  assert (HQz : queue_ z = A) by (unfold z; cbn; by rewrite app_nil_r). pose proof (Core_wf _ _ _ HC) as HW.
  pose proof (Wf_nodup x HW) as HNc. unfold cells in HNc. rewrite HQ, <- app_assoc in HNc. cbn in HNc. rewrite <- Permutation_middle in HNc. cbn in HNc.
  apply NoDup_cons in HNc as [Hnc HNc].
  assert (Hcz : cells z = A ++ deferred_cells x) by (unfold cells; by rewrite HQz).
  assert (Hcells : forall cell, cell ∈ cells x <-> cell = (c, StartElementEvent e) \/ cell ∈ cells z).
  { intros cell. rewrite Hcz. unfold cells. rewrite HQ, !elem_of_app, list_elem_of_singleton. tauto. }
  assert (HWz : Wf z).
  { split.
    - rewrite Hcz. done.
    - intros c' Hc'. apply (Wf_fresh x HW). apply list_elem_of_fmap in Hc' as (cell & -> & Hc'). apply list_elem_of_fmap_2. apply Hcells. by right.
    - intros c' ev' Hc'. apply (Wf_link x HW). apply Hcells. by right.
    - intros m dm c' Em Ebm. destruct (Wf_begin x HW m dm c' Em Ebm) as [Hlm Hb]. split; [done|]. destruct Hb as [Hb|[Hb|Hb]].
      + apply Hcells in Hb as [[= -> ->]|Hb]; [by right; right|by left].
      + apply Hcells in Hb as [[=]|Hb]. by right; left.
      + congruence.
    - intros m dm c' Em Eem. destruct (Wf_end x HW m dm c' Em Eem) as [Hlm [Hb|Hb]]; (split; [done|]); apply Hcells in Hb as [[=]|Hb]; [by left|by right].
    - apply HW.
    - intros c'. change (current_ z) with (current_ x). by rewrite Hcur.
    - intros ev [= <-]. exists e, d, c. split; [done|]. split; [done|]. split; [done|]. split; [done|]. split; [rewrite Hcz; done|].
      apply (Wf_fresh x HW). by apply (list_elem_of_fmap_2 fst), (queue_cells x) in Hi || (apply queue_cells in Hi; by apply (list_elem_of_fmap_2 fst) in Hi). }
  assert (HCz : Core z base S).
  { split; [done|unfold events; by rewrite HQz|apply HC|apply HC| | |apply HC].
    - intros m Hm Hs. apply (Core_out _ _ _ HC m Hm). unfold events in *. rewrite HQz in Hs. rewrite HQ, fmap_app. set_solver.
    - intros m Hm. change (lexer_stack_ z) with (lexer_stack_ x). rewrite Hst. by right. }
  split; [|split; [done|split; [done|]]].
  - split; try (by apply HS). exists S. split; [done|]. exact Hst.
  - right. exists e. split; [|done]. unfold contents, events. rewrite HQz, HQ, !fmap_app. done.
Qed.

(** ** Before and after a filter *)

Lemma Sound_set x base y :
  Sound x base -> nodes_ y = nodes_ x -> queue_ y = queue_ x -> fresh_ y = fresh_ x -> current_ y = None \/ current_ y = front (queue_ x) ->
  delayed_start_literal_ y = delayed_start_literal_ x -> open_deferred_nodes_ y = open_deferred_nodes_ x -> deferred_nodes_ y = deferred_nodes_ x ->
  lexer_stack_ y = lexer_stack_ x -> Sound y base.
Proof.
  intros [(S1 & [HW Hwk HN Hch Ho Htp Hop] & Hst) Hdf Hod Hel Hchn Hli Hnd] H1 H2 H3 H4 H5 H6 H7 H8.
  assert (Hd : forall n, kind n y = kind n x /\ data n y = data n x /\ parent n y = parent n x) by (intros n; unfold kind, data, parent; by rewrite H1).
  assert (Hp : forall n, par y n = par x n) by (intros n; unfold par, parent; by rewrite H1).
  split.
  - exists S1. split; [|unfold delayed_element; by rewrite H5, H8]. split.
    + apply (Wf_same x); try done; [intros n; destruct (Hd n) as (? & ? & _); done|]. intros c. rewrite H2. destruct H4 as [-> | ->]; [done|].
      intros Hc. by apply (front_in [] (queue_ x)).
    + unfold events in *. rewrite H2, <- Hwk. apply walk_ext. intros; apply Hp.
    + done.
    + eapply chained_ext; [|done]. intros; apply Hp.
    + intros n Hn. unfold events. rewrite H2. by apply Ho.
    + intros n Hn. rewrite H8. by apply Htp.
    + intros n. rewrite H8, (proj1 (proj2 (Hd n))). apply Hop.
  - intros d L. rewrite H7. intros HL. eapply segment_ext; [|by apply Hdf]. intros; by rewrite Hp.
  - by rewrite H6.
  - intros n. rewrite H8, (proj1 (Hd n)). apply Hel.
  - rewrite H8. eapply chained_ext; [|done]. intros; apply Hp.
  - intros n. rewrite H8. unfold is_literal, element_keyword. rewrite (proj1 (proj2 (Hd n))). apply Hli.
  - by rewrite H8.
Qed.

Lemma ApplyFilter_begin_ok x base f :
  Sound x base -> current_filter_ x = None -> current_ x = None ->
  exists z, ApplyFilter_begin f x = Some z /\ Sound z base /\ current_filter_ z = Some f /\ here (view z) = O /\ gone (view z) = gone (view x) /\
    (if need_coalesce_characters_ x
     then contents z = coalesce (contents x) /\ delayed_start_literal_ z = delayed_start_literal_ x \/
       exists e, coalesce (contents x) = contents z ++ [(StartElementEvent e, None)] /\ delayed_start_literal_ z = Some (StartElementEvent e)
     else contents z = contents x /\ delayed_start_literal_ z = delayed_start_literal_ x).
Proof.
  intros HS Hcf Hcur. unfold ApplyFilter_begin. rewrite Hcf. unfold take_deferred. set (x1 := set_current_filter (Some f) x).
  change (open_deferred_nodes_ x1) with (open_deferred_nodes_ x). rewrite (Sound_open _ _ HS), lookup_empty. cbn [mbind option_bind].
  assert (HS1 : Sound x1 base) by (apply (Sound_set x); try done; by left). change (need_coalesce_characters_ x1) with (need_coalesce_characters_ x).
  assert (Hfin : forall y, Sound y base -> current_filter_ y = Some f -> let z := set_current (front (queue_ y)) y in
    Sound z base /\ current_filter_ z = Some f /\ here (view z) = O /\ gone (view z) = gone (view y) /\ contents z = contents y /\ delayed_start_literal_ z = delayed_start_literal_ y).
  { intros y HSy Hcy z. assert (HSz : Sound z base) by (apply (Sound_set y); try done; by right). split; [done|]. split; [done|]. split; [|done].
    cbn. destruct (Sound_core _ _ HSz) as (S1 & HCz & _). apply (place_eq z [] (queue_ y)); [apply (Core_queue_nodup _ _ _ HCz)|done|done]. }
  destruct (need_coalesce_characters_ x).
  2:{ cbn [mbind option_bind]. eexists. split; [done|]. destruct (Hfin x1 HS1 eq_refl) as (H1 & H2 & H3 & H4 & H5 & H6). done. }
  destruct (Sound_core _ _ HS1) as (S1 & HC1 & Hst1). destruct (CoalesceAdjacentCharactersNodes_ok x1 base S1 HC1 Hcur) as (y & Ey & (HCy & Hey & _) & Hcy & Hsy & Hcon).
  rewrite Ey. cbn [mbind option_bind]. assert (HSy : Sound y base) by by eapply Sound_edited.
  destruct (DelayLiteralTag_ok y base HSy Hcy) as (w & Ew & HSw & Hcw & Hsw & Hdl). rewrite Ew. cbn [mbind option_bind].
  set (w1 := set_need_coalesce_characters false w). assert (HSw1 : Sound w1 base) by (apply (Sound_set w); try done; by left).
  assert (Hfw : current_filter_ w1 = Some f).
  { change (current_filter_ w1) with (current_filter_ w). assert (Hfy : current_filter_ y = Some f) by by rewrite (edited_filter _ _ Hey).
    unfold DelayLiteralTag in Ew. destruct (last (queue_ y)) as [[c ev]|]; [|by injection Ew as <-].
    destruct (match GetElementIfStartEvent ev with Some e => k ← element_keyword e y; Some (IsLiteralTag k) | None => Some false end) as [[|]|]; [| by injection Ew as <-|done].
    cbn [mbind option_bind] in Ew. unfold erase in Ew. destruct (split_iter (Some c) (queue_ y)) as [[a [|? t]]|]; try done. by injection Ew as <-. }
  destruct (Hfin w1 HSw1 Hfw) as (H1 & H2 & H3 & H4 & H5 & H6). eexists. split; [done|]. split; [done|]. split; [done|]. split; [done|].
  split; [rewrite H4; change (skip_increment_ w = skip_increment_ x); by rewrite Hsw, Hsy|]. rewrite H5, H6. change (contents w1) with (contents w). change (delayed_start_literal_ w1) with (delayed_start_literal_ w).
  change (contents x1) with (contents x) in Hcon. rewrite <- Hcon. destruct Hdl as [[-> ->]|(e & He1 & He2 & _)]; [left|right; by exists e].
  split; [done|]. by rewrite (edited_delayed _ _ Hey).
Qed.

Lemma ApplyFilter_end_ok x base :
  Sound x base -> current_ x = None ->
  exists z, ApplyFilter_end x = Some z /\ Sound z base /\ current_filter_ z = None /\ current_ z = None /\ contents z = contents x /\
    delayed_start_literal_ z = delayed_start_literal_ x /\ skip_increment_ z = skip_increment_ x.
Proof.
  intros HS Hcur. unfold ApplyFilter_end. rewrite Hcur. destruct (Sound_core _ _ HS) as (S1 & HC & _). destruct (need_sanity_check_ x).
  - rewrite (window_is_sane x base S1 HC). cbn [mbind option_bind]. eexists. split; [done|]. split; [|done]. apply (Sound_set x); try done. by left.
  - cbn [mbind option_bind]. eexists. split; [done|]. split; [|done]. apply (Sound_set x); try done. by left.
Qed.

(** ** [ClearEvents] *)

Definition clear_begin (d : Data) : Data := mkData (content_ d) (is_live_ d) None (end_ d).

(** What the loop leaves of the nodes of the events. *)
Definition cleared (evs : list HtmlEvent) (m : nat) (d : option Data) : option Data :=
  if decide (m ∈ omap ended evs) then None else if decide (StartElementEvent m ∈ evs) then clear_begin <$> d else d.

(** Nothing of a node comes after its last event. *)
Definition lasts (evs : list HtmlEvent) : Prop := forall a ev b n ev', evs = a ++ ev :: b -> ended ev = Some n -> ev' ∈ b -> GetNode ev' <> Some n.

Lemma ClearEvents_fold (q : Cells) x :
  (forall c ev n, (c, ev) ∈ q -> GetNode ev = Some n -> is_Some (data n x)) -> lasts q.*2 ->
  exists ns, foldl (fun x cell => x ← x; ClearEvent cell x) (Some x) q = Some (set_nodes ns x) /\
    forall m, kind m (set_nodes ns x) = kind m x /\ par (set_nodes ns x) m = par x m /\ data m (set_nodes ns x) = cleared q.*2 m (data m x).
Proof.
  revert x. induction q as [|[c ev] q IH]; intros x Hd Hl.
  { exists (nodes_ x). split; [by destruct x|]. intros m. unfold cleared. cbn.
    rewrite !decide_False by apply not_elem_of_nil. by destruct x. }
  cbn [foldl]. cbn [mbind option_bind].
  assert (Hstep : exists ns, ClearEvent (c, ev) x = Some (set_nodes ns x) /\
    forall m, kind m (set_nodes ns x) = kind m x /\ par (set_nodes ns x) m = par x m /\ data m (set_nodes ns x) = cleared [ev] m (data m x)).
  { unfold ClearEvent. cbn [snd]. unfold cleared. cbn. destruct ev as [| |n|n|n]; cbn.
    1,2: exists (nodes_ x); split; [by destruct x|]; intros m; rewrite !decide_False by (rewrite ?list_elem_of_singleton; try done; apply not_elem_of_nil); by destruct x.
    - destruct (Hd c _ n ltac:(by left) eq_refl) as [d E]. unfold set_begin. rewrite (modify_data_Some _ _ _ _ E). eexists. split; [done|]. pose proof (data_node _ _ _ E) as Hn. intros m.
      change (set_nodes _ x) with (modify_node n (with_data (Some (mkData (content_ d) (is_live_ d) None (end_ d)))) x).
      rewrite kind_with_data, data_with_data by done. unfold par. rewrite parent_with_data. split; [done|]. split; [done|].
      rewrite (decide_False (P := m ∈ [])) by apply not_elem_of_nil. destruct (decide (m = n)) as [->|Hm]; [rewrite (decide_True (P := StartElementEvent n ∈ _)) by (by left); by rewrite E|].
      rewrite decide_False; [done|]. rewrite list_elem_of_singleton. congruence.
    - destruct (Hd c _ n ltac:(by left) eq_refl) as [d E]. unfold set_end. rewrite (modify_data_Some _ _ _ _ E). cbn [mbind option_bind]. pose proof (data_node _ _ _ E) as Hn.
      set (x1 := modify_node n _ x). assert (Hn1 : is_Some (nodes_ x1 !! n)) by (unfold x1; cbn; rewrite list_lookup_alter_eq; destruct Hn as [nd ->]; by eexists).
      eexists. split; [done|]. intros m. change (set_nodes _ x) with (modify_node n (with_data None) x1).
      rewrite kind_with_data, data_with_data by done. unfold par, x1. rewrite !parent_with_data, kind_with_data, data_with_data by done. split; [done|]. split; [done|].
      destruct (decide (m = n)) as [->|Hm]; [by rewrite decide_True by by left|]. rewrite decide_False by (rewrite list_elem_of_singleton; congruence).
      rewrite decide_False; [done|]. rewrite list_elem_of_singleton. congruence.
    - destruct (Hd c _ n ltac:(by left) eq_refl) as [d E]. unfold set_iter. rewrite (modify_data_Some _ _ _ _ E). cbn [mbind option_bind]. pose proof (data_node _ _ _ E) as Hn.
      set (x1 := modify_node n _ x). assert (Hn1 : is_Some (nodes_ x1 !! n)) by (unfold x1; cbn; rewrite list_lookup_alter_eq; destruct Hn as [nd ->]; by eexists).
      eexists. split; [done|]. intros m. change (set_nodes _ x) with (modify_node n (with_data None) x1).
      rewrite kind_with_data, data_with_data by done. unfold par, x1. rewrite !parent_with_data, kind_with_data, data_with_data by done. split; [done|]. split; [done|].
      destruct (decide (m = n)) as [->|Hm]; [by rewrite decide_True by by left|]. rewrite decide_False by (rewrite list_elem_of_singleton; congruence).
      rewrite decide_False; [done|]. rewrite list_elem_of_singleton. congruence. }
  destruct Hstep as (ns1 & E1 & H1). rewrite E1.
  assert (Hnot : forall c' ev' n, (c', ev') ∈ q -> GetNode ev' = Some n -> ended ev <> Some n).
  { intros c' ev' n Hi En He. apply (list_elem_of_fmap_2 snd) in Hi. by apply (Hl [] ev q.*2 n ev' eq_refl He Hi). }
  destruct (IH (set_nodes ns1 x)) as (ns & E & H2).
  - intros c' ev' n Hi En. rewrite (proj2 (proj2 (H1 n))). destruct (Hd c' ev' n ltac:(by right) En) as [d ->]. unfold cleared.
    rewrite decide_False; [case_decide; by eexists|]. intros (ev0 & ->%list_elem_of_singleton & He)%list_elem_of_omap. by apply (Hnot c' ev' n).
  - intros a ev' b n ev'' El. apply (Hl (ev :: a) ev' b n ev''). cbn. by rewrite El.
  - exists ns. rewrite E. split; [done|]. intros m. destruct (H1 m) as (K1 & P1 & D1), (H2 m) as (K2 & P2 & D2).
    change (set_nodes ns (set_nodes ns1 x)) with (set_nodes ns x) in *. split; [congruence|]. split; [congruence|]. rewrite D2, D1. unfold cleared. cbn.
    destruct (decide (m ∈ omap ended q.*2)) as [Hq|Hq].
    + rewrite decide_True; [done|]. destruct (ended ev); [by right|done].
    + destruct (ended ev) as [n|] eqn:Ee; cbn.
      * destruct (decide (m = n)) as [->|Hm].
        -- rewrite (decide_True (P := n ∈ [n])) by by left. rewrite (decide_True (P := n ∈ n :: _)) by by left. by case_decide.
        -- rewrite (decide_False (P := m ∈ [n])) by (rewrite list_elem_of_singleton; done). rewrite (decide_False (P := m ∈ n :: _)) by (rewrite elem_of_cons; tauto).
           rewrite (decide_False (P := StartElementEvent m ∈ [ev])) by (rewrite list_elem_of_singleton; intros <-; done).
           apply decide_ext. rewrite elem_of_cons. split; [by right|]. intros [<-|]; [done|done].
      * rewrite (decide_False (P := m ∈ [])) by apply not_elem_of_nil. rewrite (decide_False (P := m ∈ omap ended q.*2)) by done.
        rewrite (decide_ext (StartElementEvent m ∈ [ev]) (StartElementEvent m = ev)) by by rewrite list_elem_of_singleton.
        destruct (decide (StartElementEvent m = ev)) as [Hs|Hs].
        -- rewrite (decide_True (P := StartElementEvent m ∈ ev :: _)) by (rewrite Hs; by left). case_decide; [|done]. by destruct (data m x).
        -- apply decide_ext. rewrite elem_of_cons. tauto.
Qed.

(** A node with an event in the window has none in the lists of deferred nodes. *)
Lemma deferred_disjoint x base S1 c ev c' ev' m :
  Sound x base -> Core x base S1 -> (c, ev) ∈ queue_ x -> GetNode ev = Some m -> (c', ev') ∈ deferred_cells x -> GetNode ev' = Some m -> False.
Proof.
  intros HS HC Hi Em Hi' Em'. pose proof (Core_wf _ _ _ HC) as HW.
  apply list_elem_of_join in Hi' as (L & HiL & HL). apply list_elem_of_fmap in HL as ([d L'] & -> & HL). apply elem_of_map_to_list in HL. cbn in HiL.
  pose proof (Sound_deferred _ _ HS d L' HL) as Hseg. assert (Hlk : forall cell, cell ∈ L' -> linked x cell.1 cell.2).
  { intros [c0 ev0] Hc0. apply (Wf_link x HW). apply elem_of_app. right. by eapply in_deferred. }
  assert (Hboth : (exists ev0, ev0 ∈ L'.*2 /\ first_event m ev0) /\ (exists ev0, ev0 ∈ L'.*2 /\ last_event m ev0)).
  { apply (list_elem_of_fmap_2 snd) in HiL. cbn in HiL. destruct (node_event ev' m Em') as [H|H];
      (assert (Hb := segment_balanced _ _ _ m Hseg)); [split; [|apply Hb]|split; [apply Hb|]]; by exists ev'. }
  destruct Hboth as [(evb & [b Hb]%in_snd & Hfb) (eve & [e He]%in_snd & Hle)]. pose proof (Core_link _ _ _ HC _ _ Hi) as Hl.
  pose proof (Hlk _ Hb) as L1. pose proof (Hlk _ He) as L2. cbn in L1, L2.
  assert (Hc : c = b \/ c = e).
  { destruct ev as [| |k|k|k]; try done; injection Em as ->; destruct Hfb as [-> | ->], Hle as [-> | ->]; cbn in *; naive_solver congruence. }
  assert (Hin : c ∈ (deferred_cells x).*1).
  { destruct Hc as [-> | ->]; [apply (in_deferred x d L' b evb HL), (list_elem_of_fmap_2 fst) in Hb|apply (in_deferred x d L' e eve HL), (list_elem_of_fmap_2 fst) in He]; done. }
  pose proof (Wf_nodup x HW) as HN. unfold cells in HN. rewrite fmap_app in HN. apply NoDup_app in HN as (_ & HN & _).
  apply (HN c); [by apply (list_elem_of_fmap_2 fst) in Hi|done].
Qed.

Lemma Core_lasts x S0 S1 : Core x S0 S1 -> lasts (events x).
Proof.
  intros HC a ev b n ev' El He Hi En. apply ended_last in He as Hl. pose proof (Core_once _ _ _ HC) as Ho. rewrite El in Ho.
  destruct (Ho a ev n b eq_refl (last_GetNode _ _ Hl)) as [Ha Hb].
  assert (Hall : forall ev0, ev0 ∈ a ++ ev :: b -> exists c, (c, ev0) ∈ queue_ x) by (intros ev0; rewrite <- El; apply in_snd).
  destruct (Hall ev) as [c Hc]; [set_solver|]. destruct (Hall ev') as [c' Hc']; [set_solver|].
  destruct (node_event ev' n En) as [Hf|Hl'].
  2:{ apply Hb. by rewrite (last_unique x S0 S1 HC c ev c' ev' n Hc Hc' Hl Hl') in Hi. }
  apply (Core_link _ _ _ HC) in Hc, Hc'. destruct Hf as [-> | ->].
  2:{ destruct Hl as [-> | ->]; [|done]. destruct Hc as [Hk _], Hc' as [[k Hk'] _]. congruence. }
  destruct Hl as [-> | ->]; [|destruct Hc as [[k Hk] _], Hc' as [Hk' _]; congruence].
  pose proof (Core_walk _ _ _ HC) as Hw. rewrite El in Hw. apply walk_app_Some in Hw as (V & Hw & HV). cbn in HV. destruct V as [|m V]; [done|].
  case_decide as Hcd; [|done]. destruct Hcd as [-> _]. destruct (walk_stack _ _ _ _ _ n Hw) as (H & _). destruct (H ltac:(by left)) as [Hs|Hs].
  - apply (Core_out _ _ _ HC n Hs). rewrite El. set_solver.
  - apply (once_disjoint a (EndElementEvent n :: b) (StartElementEvent n) n Ho eq_refl Hs). by right.
Qed.

(** A node with an event in the window is freed, or keeps no iterator of its first event. *)
Lemma cleared_begin evs ev n d (b : bool) :
  ev ∈ evs -> GetNode ev = Some n ->
  match cleared evs n d with Some d => is_live_ d && b && IsInEventWindow (begin_ d) | None => false end = false.
Proof.
  intros Hev En. unfold cleared. destruct (decide (n ∈ omap ended evs)) as [|He]; [done|]. rewrite decide_True.
  - destruct d as [d|]; [|done]. cbn. by rewrite andb_false_r.
  - destruct ev as [| |k|k|k]; try done; injection En as ->; [done|destruct He; apply ended_in..]; eexists; (split; [exact Hev|]); [by left|by right].
Qed.

Lemma ClearEvents_ok x base :
  Sound x base ->
  exists z base', Core x base base' /\ lexer_stack_ x = delayed_element x ++ base' /\ ClearEvents x = Some z /\ Sound z base' /\ queue_ z = [] /\ current_ z = None /\ lexer_stack_ z = lexer_stack_ x /\
    delayed_start_literal_ z = delayed_start_literal_ x /\ current_filter_ z = current_filter_ x /\ deferred_nodes_ z = deferred_nodes_ x /\
    (forall ev n, ev ∈ events x -> GetNode ev = Some n -> IsRewritableIgnoringEnd n z = false).
Proof.
  intros HS. destruct (Sound_core _ _ HS) as (S1 & HC & Hst). pose proof (Core_wf _ _ _ HC) as HW. unfold ClearEvents.
  destruct (ClearEvents_fold (queue_ x) x) as (ns & E & Hns).
  { intros c ev n Hi En. apply (Core_link _ _ _ HC) in Hi. destruct ev as [| |k|k|k]; try done; injection En as ->; destruct Hi as [_ (d & E & _)]; by exists d. }
  { by apply (Core_lasts x base S1). }
  rewrite E. cbn [mbind option_bind]. set (z := set_need_sanity_check false _). exists z, S1. do 3 (split; [done|]).
  assert (Hkz : forall m, kind m z = kind m x) by (intros m; apply (Hns m)).
  assert (Hpz : forall m, par z m = par x m) by (intros m; apply (Hns m)).
  assert (Hdz : forall m, data m z = cleared (events x) m (data m x)) by (intros m; apply (Hns m)). clear Hns E.
  assert (Hopen : forall m, m ∈ lexer_stack_ x -> m ∉ omap ended (events x)).
  { intros m Hm (ev & [c Hi]%in_snd & Hl)%ended_in. destruct (Core_open _ _ _ HC m Hm) as (d & Ed & _ & Ee). apply (Core_link _ _ _ HC) in Hi.
    destruct Hl as [-> | ->]; cbn in Hi; naive_solver congruence. }
  assert (Hdo : forall m d, m ∈ lexer_stack_ x -> data m x = Some d -> exists d', data m z = Some d' /\ is_live_ d' = is_live_ d /\ end_ d' = end_ d /\ content_ d' = content_ d).
  { intros m d Hm Ed. rewrite Hdz, Ed. unfold cleared. rewrite decide_False by by apply Hopen. case_decide; [|by exists d]. by exists (clear_begin d). }
  assert (HWz : Wf z).
  { apply (Wf_remove x z (queue_ x)); [done| |done|done| |by intros c].
    - unfold cells, deferred_cells. by cbn.
    - intros m. split; [done|]. destruct (decide (m ∈ omap GetNode (events x))) as [Hl|Hl].
      + right. apply list_elem_of_omap in Hl as (ev & [c Hi]%in_snd & Em).
        assert (Hu : unlisted m (deferred_cells x)) by (intros c' ev' Hi' Em'; by apply (deferred_disjoint x base S1 c ev c' ev' m)).
        split; [|split; [by cbn|split]].
        * intros d'. rewrite Hdz. unfold cleared. destruct (decide (m ∈ omap ended (events x))) as [|He]; [done|].
          assert (Hs : StartElementEvent m ∈ events x).
          { apply (list_elem_of_fmap_2 snd) in Hi. cbn in Hi. destruct ev as [| |k|k|k]; try done; injection Em as ->; [done|..];
              destruct He; apply ended_in; eexists; (split; [exact Hi|]); [by left|by right]. }
          rewrite decide_True by done. destruct (data m x) as [d|] eqn:Ed; [|done]. intros [= <-]. cbn. split; [done|].
          destruct (end_ d) as [c'|] eqn:Ee; [|done]. exfalso. destruct (Wf_end x HW m d c' Ed Ee) as [_ Hends].
          assert (Hcell : exists ev', (c', ev') ∈ cells x /\ last_event m ev').
          { destruct Hends as [H|H]; [exists (EndElementEvent m)|exists (LeafNodeEvent m)]; (split; [done|]); [by left|by right]. }
          destruct Hcell as (ev' & Hc' & Hle). apply elem_of_app in Hc' as [Hc'|Hc']; [|by apply (Hu c' ev'); [|apply last_GetNode]].
          apply He, ended_in. exists ev'. split; [by apply (list_elem_of_fmap_2 snd) in Hc'|done].
        * intros Hd. destruct (Wf_delayed x HW _ Hd) as (k & d & c0 & [= <-] & Hk & Ed & Eb & Hn & _). pose proof (Core_link _ _ _ HC _ _ Hi) as Hlk.
          destruct ev as [| |k|k|k]; try done; injection Em as ->; cbn in Hlk.
          -- destruct Hlk as [_ (d' & Ed' & _ & Eb')]. assert (c = c0) as -> by congruence. apply Hn. apply queue_cells in Hi. by apply (list_elem_of_fmap_2 fst) in Hi.
          -- assert (Hm : m ∈ lexer_stack_ x) by (rewrite Hst; unfold delayed_element; rewrite Hd; by left). apply (Hopen m Hm), ended_in.
             exists (EndElementEvent m). split; [by apply (list_elem_of_fmap_2 snd) in Hi|by left].
          -- destruct Hlk as [[k Hk'] _]. congruence.
        * intros d'. rewrite Hdz. unfold cleared. case_decide; [done|]. destruct (data m x) as [d|]; [|by case_decide].
          case_decide; intros [= <-]; by exists d.
      + left. assert (Hno : forall ev, ev ∈ events x -> GetNode ev <> Some m) by (intros ev Hi Em; apply Hl, list_elem_of_omap; by exists ev). split.
        * rewrite Hdz. unfold cleared. rewrite !decide_False; [done|by intros Hi; apply (Hno _ Hi)|]. intros (ev & Hi & He)%ended_in. apply (Hno _ Hi). by apply last_GetNode.
        * intros c ev Hi. apply Hno. by apply (list_elem_of_fmap_2 snd) in Hi. }
  assert (Hop : forall m, m ∈ lexer_stack_ z -> exists d, data m z = Some d /\ is_live_ d = true /\ end_ d = None).
  { intros m Hm. destruct (Core_open _ _ _ HC m Hm) as (d & Ed & El & Ee). destruct (Hdo m d Hm Ed) as (d' & Ed' & El' & Ee' & _). exists d'. split; [done|]. split; congruence. }
  assert (Hch : chained (par x) S1) by (eapply walk_chained; [apply HC|apply (Core_walk _ _ _ HC)]).
  assert (HN1 : NoDup S1) by (pose proof (Sound_nodup _ _ HS) as HN; rewrite Hst in HN; by apply NoDup_app_r in HN).
  split; [|repeat (split; [done|]); intros ev n Hev En; unfold IsRewritableIgnoringEnd; rewrite Hdz; by eapply cleared_begin].
  split; try (by apply HS).
  - exists S1. split; [|done]. split; [done|done|done| | |apply HC|done].
    + eapply chained_ext; [|done]. intros; apply Hpz.
    + intros n _. apply not_elem_of_nil.
  - intros d L HL. eapply segment_ext; [|by apply (Sound_deferred _ _ HS)]. intros; by rewrite Hpz.
  - intros n Hn. rewrite Hkz. by apply (Sound_elems _ _ HS).
  - eapply chained_ext; [|apply (Sound_chain _ _ HS)]. intros; apply Hpz.
  - intros n Hn. change (lexer_stack_ z) with (lexer_stack_ x) in Hn. rewrite <- (Sound_literal _ _ HS n Hn). unfold is_literal, element_keyword.
    assert (Hin : n ∈ lexer_stack_ x) by (destruct (lexer_stack_ x); [done|by right]). destruct (Core_open _ _ _ HC n Hin) as (d & Ed & _).
    destruct (Hdo n d Hin Ed) as (d' & -> & _ & _ & Ec). rewrite Ed. cbn. by rewrite Ec.
Qed.

(** ** The document begins and ends *)

(** A parser without nodes. *)
Lemma Sound_no_nodes x :
  nodes_ x = [] -> deferred_nodes_ x = ∅ -> (forall cell, cell ∈ queue_ x -> cell = (O, StartDocumentEvent) /\ (0 < fresh_ x)%nat) -> NoDup (queue_ x).*1 ->
  current_ x = None -> delayed_start_literal_ x = None -> open_deferred_nodes_ x = ∅ -> lexer_stack_ x = [] -> Sound x [].
Proof.
  intros Hns Hdf Hq HN Hc Hdl Hop Hst.
  assert (Hd : forall n, data n x = None) by (intros n; unfold data; by rewrite Hns, lookup_nil).
  assert (Hk : forall n, kind n x = None) by (intros n; unfold kind; by rewrite Hns, lookup_nil).
  assert (Hcl : cells x = queue_ x) by (unfold cells, deferred_cells; rewrite Hdf, map_to_list_empty; cbn; by rewrite app_nil_r).
  assert (Hev : forall ev, ev ∈ events x -> ev = StartDocumentEvent) by (intros ev ([c ev'] & -> & Hi)%list_elem_of_fmap; by destruct (Hq _ Hi) as [[= -> ->] _]).
  assert (HW : Wf x).
  { split; rewrite ?Hcl; try done.
    - intros c ([c' ev] & -> & Hi)%list_elem_of_fmap. by destruct (Hq _ Hi) as [[= -> ->] ?].
    - intros c ev Hi. by destruct (Hq _ Hi) as [[= -> ->] _].
    - intros n d c. by rewrite Hd.
    - intros n d c. by rewrite Hd.
    - intros n k d. by rewrite Hk.
    - intros c. by rewrite Hc.
    - intros ev. by rewrite Hdl. }
  assert (Hw : walk (par x) None [] (events x) = Some []).
  { clear HN. induction (events x) as [|ev l IH]; [done|]. rewrite (Hev ev) by by left. cbn. apply IH. intros; apply Hev. by right. }
  assert (Hnil : forall n : nat, n ∉ []) by (intros n; apply not_elem_of_nil).
  split; rewrite ?Hst; try done; [|intros d L; by rewrite Hdf|intros n Hn; by destruct (Hnil n)|intros n Hn; by destruct (Hnil n)|constructor].
  exists []. unfold delayed_element. rewrite Hdl. split; [|done]. split; rewrite ?Hst; try done; [constructor|intros n Hn; by destruct (Hnil n)..].
Qed.

Lemma StartParse_sound : Sound StartParse [].
Proof.
  apply Sound_no_nodes; try done; [intros cell ->%list_elem_of_singleton; cbn; split; [done|lia]|repeat constructor; apply not_elem_of_nil].
Qed.

(** What is left of the document is given up at its end. *)
Lemma ClearElements_ok x base :
  Sound x base -> queue_ x = [] -> lexer_stack_ x = [] -> delayed_start_literal_ x = None ->
  exists z, ClearElements x = Some z /\ Sound z [] /\ base = [] /\ queue_ z = [] /\ nodes_ z = [] /\ deferred_nodes_ z = ∅ /\ deferred_deleted_nodes_ z = ∅.
Proof.
  intros HS HQ Hst Hdl. destruct (Sound_core _ _ HS) as (S1 & HC & Hs). rewrite Hst in Hs. unfold delayed_element in Hs. rewrite Hdl in Hs. cbn in Hs. subst S1.
  pose proof (Core_walk _ _ _ HC) as Hw. unfold events in Hw. rewrite HQ in Hw. cbn in Hw. injection Hw as ->.
  assert (Hp : ClearDeferredNodes x = Some (set_open_deferred_nodes ∅ (set_deferred_deleted_nodes ∅ (set_deferred_nodes ∅ x)))).
  { unfold ClearDeferredNodes. assert (H : forallb (fun cell => bool_decide (cell.1 ∈ deferred_deleted_nodes_ x) || bool_decide (is_Some (data cell.1 x)))
      (map_to_list (deferred_nodes_ x)) = true); [|by rewrite H].
    apply forallb_forall. intros [n L] Hi. apply list_elem_of_In, elem_of_map_to_list in Hi. cbn.
    destruct (not_in_deferred x [] n L HS Hi) as (c & ev & Hc & En). apply (Wf_link x (Core_wf _ _ _ HC)) in Hc.
    rewrite (bool_decide_eq_true_2 (is_Some (data n x))); [by rewrite orb_true_r|].
    destruct ev; try done; injection En as ->; destruct Hc as (_ & d & E & _); by eexists. }
  unfold ClearElements. rewrite Hp. cbn [mbind option_bind]. eexists. split; [done|]. split; [|done].
  apply Sound_no_nodes; cbn; rewrite ?HQ; try done; [intros cell Hi; by apply not_elem_of_nil in Hi|constructor|].
  destruct (current_ x) as [c|] eqn:Ec; [|done]. apply (Wf_current x (Core_wf _ _ _ HC)) in Ec. rewrite HQ in Ec. by apply not_elem_of_nil in Ec.
Qed.

Lemma BeginFinishParse_ok x base :
  Sound x base -> lexer_stack_ x = [] -> delayed_start_literal_ x = None ->
  exists z, BeginFinishParse x = Some z /\ Sound z base /\ events z = events x ++ [EndDocumentEvent] /\ current_ z = current_ x /\ current_filter_ z = current_filter_ x.
Proof.
  intros HS Hst Hdl. destruct (Sound_core _ _ HS) as (S1 & HC & Hs). rewrite Hst in Hs. unfold delayed_element in Hs. rewrite Hdl in Hs. cbn in Hs. subst S1.
  unfold BeginFinishParse. rewrite Hst, Hdl. unfold AddEvent, insert_event. cbn [GetNode split_iter mbind option_bind GetLeafNode].
  set (z := touched _). exists z. split; [done|]. pose proof (Core_wf _ _ _ HC) as HW.
  assert (HQz : queue_ z = queue_ x ++ [(fresh_ x, EndDocumentEvent)]) by done.
  assert (HWz : Wf z).
  { apply (Wf_insert_data x z [(fresh_ x, EndDocumentEvent)]); [done|..]; try done.
    - unfold cells. rewrite HQz. change (deferred_cells z) with (deferred_cells x). rewrite <- app_assoc. cbn. by rewrite <- Permutation_middle.
    - cbn. repeat constructor. apply not_elem_of_nil.
    - intros c Hc%list_elem_of_singleton. subst c. change (fresh_ z) with (S (fresh_ x)). cbn [fst]. lia.
    - change (fresh_ z) with (S (fresh_ x)). lia.
    - intros c ev Hc%list_elem_of_singleton. by injection Hc as -> ->.
    - intros m d Em. exists d. split; [done|]. split; [done|]. split; [by destruct (content_ d)|]. split; [by left|]. split; [by left|]. split; [by rewrite Hdl|by left].
    - intros c Hc. change (current_ z) with (current_ x) in Hc. apply (Wf_current x HW) in Hc. rewrite HQz, fmap_app. set_solver. }
  split; [|split; [unfold events; by rewrite HQz, fmap_app|done]]. split; try (by apply HS).
  exists []. split; [|unfold delayed_element; change (delayed_start_literal_ z) with (delayed_start_literal_ x); rewrite Hdl; done].
  split; [done| |apply HC|apply HC| |apply HC|apply HC].
  - unfold events. rewrite HQz, fmap_app, walk_app. pose proof (Core_walk _ _ _ HC) as Hw. unfold events in Hw. change (par z) with (par x). rewrite Hw. done.
  - intros n Hn Hi. unfold events in Hi. rewrite HQz, fmap_app in Hi. apply elem_of_app in Hi as [Hi|Hi]; [by apply (Core_out _ _ _ HC n Hn)|].
    by apply list_elem_of_singleton in Hi.
Qed.
