(* ===== verification/HtmlParseSpec.v ===== *)
(** * The HTML parser: what the filters can do to the window

    The operations of the filters, when they may be used, and what each of them does to
    the document; every step of the parser that keeps to this succeeds and leaves the
    window sound. *)

From S2P Require Import Prelude StringUtil HtmlKeywords HtmlLexer HtmlParse HtmlParseWalk HtmlParseInv HtmlParseDoc HtmlParseEdit HtmlParseDelete HtmlParseUnwrap HtmlParseWrap HtmlParseMove HtmlParseDefer HtmlParseOps HtmlParseStep HtmlParseFlush.

(** ** Operations *)

Inductive Op :=
| New (k : NodeKind) (p : option nat) (c : Content)
| Clone (n : nat)
| BeforeNode (m n : nat)
| AfterNode (m n : nat)
| Prepend (p n : nat)
| Append (p : option nat) (n : nat)
| BeforeCurrent (n : nat)
| AfterCurrent (n : nat)
| AddParent (f l p : nat)
| MoveInto (p : nat)
| MoveBefore (m : nat)
| Next
| Defer
| Restore (d : nat)
| Delete (n : nat)
| DeleteSaving (n : nat)
| Replace (m n : nat)
| Invisible (n : nat)
| Attributes (n : nat) (f : list Attribute -> list Attribute)
| Contents (n : nat) (f : bytes -> bytes)
| Comment (text : bytes).

Definition ran (r : option HtmlParse) : option (HtmlParse * bool) := x ← r; Some (x, true).

Definition run_op (op : Op) (x : HtmlParse) : option (HtmlParse * bool) :=
  match op with
  | New k p c => Some (fst (NewNode k p c x), true)
  | Clone n => '(x, _) ← CloneElement n x; Some (x, true)
  | BeforeNode m n => ran (InsertNodeBeforeNode m n x)
  | AfterNode m n => ran (InsertNodeAfterNode m n x)
  | Prepend p n => ran (PrependChild p n x)
  | Append p n => ran (AppendChild p n x)
  | BeforeCurrent n => ran (InsertNodeBeforeCurrent n x)
  | AfterCurrent n => ran (InsertNodeAfterCurrent n x)
  | AddParent f l p => AddParentToSequence f l p x
  | MoveInto p => MoveCurrentInto p x
  | MoveBefore m => MoveCurrentBefore m x
  | Next => ran (NextEvent x)
  | Defer => ran (DeferCurrentNode x)
  | Restore d => ran (RestoreDeferredNode d x)
  | Delete n => DeleteNode n x
  | DeleteSaving n => DeleteSavingChildren n x
  | Replace m n => ReplaceNode m n x
  | Invisible n => '(x, _) ← MakeElementInvisible n x; Some (x, true)
  | Attributes n f => ran (modify_attributes n f x)
  | Contents n f => ran (modify_contents n f x)
  | Comment text => InsertComment text x
  end.

(** ** When they may be used *)

(** The elements that are open at the end of the window. *)
Definition opened (x : HtmlParse) : list nat := match delayed_start_literal_ x with Some (StartElementEvent _) => tail (lexer_stack_ x) | _ => lexer_stack_ x end.

Definition is_element (n : nat) (x : HtmlParse) : bool := bool_decide (kind n x = Some ElementNode).
Definition in_list (it : option (option nat)) (x : HtmlParse) : bool := match it with Some (Some c) => bool_decide (c ∈ (queue_ x).*1) | _ => false end.
Definition current_node (x : HtmlParse) : option nat := ev ← current_event x; GetNode ev.

(** A node that the code takes for rewritable is in the window, and not in what has been
    deferred. *)
Definition settled (n : nat) (x : HtmlParse) : bool := implb (IsRewritable n x) (in_window n x).

Definition no_document (i j : nat) (evs : list HtmlEvent) : bool := forallb (fun ev => match GetNode ev with Some _ => true | None => false end) (take (S j - i) (drop i evs)).

Definition siblings (f l : nat) (x : HtmlParse) : bool :=
  match first_at f (view x), last_at l (view x) with
  | Some i, Some j => bool_decide (i <= j)%nat && no_document i j (events x)
  | _, _ => false
  end.

Definition movable (m : nat) (it : option (option nat)) (j : option nat) (x : HtmlParse) : bool :=
  match current_node x with
  | Some n => implb (live m x) (match it with Some it => in_queue it x | None => false end &&
      match j with Some j => in_window n x && move_inside n j (view x) | None => true end)
  | None => false
  end.

Definition allowed (op : Op) (x : HtmlParse) : bool :=
  match op with
  | New k _ c => match k, c with ElementNode, Tag _ _ _ | LeafNode _, Text _ => true | _, _ => false end
  | Clone n => is_element n x && bool_decide (is_Some (data n x))
  | BeforeNode m n => fresh n x && in_list (begin m x) x
  | AfterNode m n => fresh n x && in_list (end_of m x) x
  | Prepend p n => fresh n x && is_element p x && in_list (begin p x) x
  | Append (Some p) n => fresh n x && is_element p x && in_list (end_of p x) x
  | Append None n => fresh n x && bool_decide (par x n = top None (opened x))
  | BeforeCurrent n => fresh n x && negb (skip_increment_ x) &&
      (bool_decide (is_Some (current_ x) /\ par x n = None) || bool_decide (par x n = parent_before (opened x) x))
  | AfterCurrent n => fresh n x && negb (skip_increment_ x) && bool_decide (is_Some (current_ x)) &&
      (bool_decide (par x n = None) || bool_decide (par x n = parent_after x))
  | AddParent f l p => fresh p x && is_element p x && IsRewritable f x && IsRewritable l x && in_window f x && in_window l x &&
      bool_decide (par x l = par x f) && bool_decide (par x p = par x f) && siblings f l x
  | MoveInto p => is_element p x && movable p (end_of p x) (last_at p (view x)) x
  | MoveBefore m => movable m (begin m x) (first_at m (view x)) x
  | Next => skip_increment_ x || bool_decide (is_Some (current_ x))
  | Defer => match current_node x with Some n => IsRewritableIgnoringDeferral n x && in_window n x | None => false end
  | Restore d => bool_decide (is_Some (deferred_nodes_ x !! d)) && bool_decide (d ∉ deferred_deleted_nodes_ x) &&
      match current_event x with
      | Some ev => bool_decide (is_Some (GetNode ev)) && implb (skip_increment_ x) (bool_decide (is_Some (GetLeafNode ev)))
      | None => false
      end
  | Delete n => settled n x && implb (IsRewritable n x) (clear_of n x) &&
      implb (IsRewritableIgnoringEnd n x && negb (IsRewritable n x)) (bool_decide (current_node x <> Some n))
  | DeleteSaving n => is_element n x && settled n x && implb (IsRewritable n x) (clear_ends n x)
  | Replace m n => fresh n x && settled m x && implb (IsRewritable m x) (clear_of m x)
  | Invisible n => is_element n x
  | Attributes n _ => is_element n x && bool_decide (is_Some (data n x))
  | Contents n _ => match kind n x with Some (LeafNode _) => bool_decide (is_Some (data n x)) | _ => false end
  | Comment _ => bool_decide (queue_ x <> [])
  end.

(** ** What they do to the document *)

Definition new_of (kinds : nat -> option NodeKind) (n : nat) : list HtmlEvent :=
  match kinds n with Some (LeafNode _) => [LeafNodeEvent n] | _ => [StartElementEvent n; EndElementEvent n] end.

(** The first event of a node and the number of its events, when all are there. *)
Definition span (n : nat) (d : Doc) : option (nat * nat) := i ← first_at n d; j ← last_at n d; Some (i, S j - i)%nat.

Definition on_span (n : nat) (f : nat -> nat -> Doc) (d : Doc) : Doc * bool := match span n d with Some (i, k) => (f i k, true) | None => (d, false) end.
Definition at_event (i : option nat) (f : nat -> Doc) (d : Doc) : Doc * bool := (match i with Some i => f i | None => d end, true).

(** The document after an operation; [kinds] are the kinds of the nodes, [count] their
    number, and [held] the events of the deferred nodes. What [MakeElementInvisible]
    returns does not depend on the document, and is left out. *)
Definition spec_op (op : Op) (kinds : nat -> option NodeKind) (count : nat) (held : nat -> list HtmlEvent) (d : Doc) : Doc * bool :=
  let new n := new_of kinds n in
  match op with
  | New _ _ _ | Clone _ => (d, true)
  | BeforeNode m n => at_event (first_at m d) (fun i => d_insert i (new n) d) d
  | AfterNode m n => at_event (last_at m d) (fun i => d_insert (S i) (new n) d) d
  | Prepend p n => at_event (first_at p d) (fun i => d_insert (S i) (new n) d) d
  | Append (Some p) n => at_event (last_at p d) (fun i => d_insert i (new n) d) d
  | Append None n => (d_insert (length (doc d)) (new n) d, true)
  | BeforeCurrent n => (d_insert (here d) (new n) d, true)
  | AfterCurrent n => (mkDoc (doc (d_insert (S (here d)) (new n) d)) (here d + length (new n)) (gone d), true)
  | AddParent f l p => (match first_at f d, last_at l d with Some i, Some j => d_wrap i (S j - i) p d | _, _ => d end, true)
  | MoveInto p => d_move_here (last_at p d) d
  | MoveBefore m => d_move_here (first_at m d) d
  | Next => (d_next d, true)
  | Defer => (match doc d !! here d ≫= GetNode with Some n => fst (on_span n (fun i k => d_remove i k d) d) | None => d end, true)
  | Restore n => (let i := restore_at d in mkDoc (doc (d_insert i (held n) d)) i false, true)
  | Delete n => on_span n (fun i k => d_remove i k d) d
  | DeleteSaving n => on_span n (fun i k => d_unwrap i k d) d
  | Replace m n => on_span m (fun i k => d_remove (i + length (new n)) k (d_insert i (new n) d)) d
  | Invisible _ | Attributes _ _ | Contents _ _ => (d, true)
  | Comment _ =>
      let i := if decide (here d < length (doc d))%nat then here d else (length (doc d) - 1)%nat in
      (match doc d !! i with
       | Some (StartElementEvent _) => d_insert i [LeafNodeEvent count] d
       | Some (EndElementEvent _) => d_insert (S i) [LeafNodeEvent count] d
       | _ => d_insert (if decide (here d < length (doc d))%nat then i else S i) [LeafNodeEvent count] d
       end, true)
  end.

Definition held (x : HtmlParse) (n : nat) : list HtmlEvent := match deferred_nodes_ x !! n with Some L => L.*2 | None => [] end.
Definition spec_of (op : Op) (x : HtmlParse) : Doc * bool := spec_op op (fun n => kind n x) (length (nodes_ x)) (held x) (view x).

(** ** The operations keep to it *)

Lemma Sound_opened x base : Sound x base -> Core x base (opened x) /\ lexer_stack_ x = delayed_element x ++ opened x.
Proof.
  intros HS. destruct (Sound_core _ _ HS) as (S1 & HC & Hst). unfold opened, delayed_element in *.
  destruct (delayed_start_literal_ x) as [[| |e| |]|]; rewrite Hst; cbn [app tail]; (split; [exact HC|reflexivity]).
Qed.

Lemma Sound_good x base d y : Sound x base -> good base (opened x) x d y -> Sound y base /\ view y = d.
Proof.
  intros HS (HC & He & Hv). destruct (Sound_opened x base HS) as [_ Hst]. split; [|done]. by apply (Sound_edited x y base (opened x)).
Qed.

Lemma span_rewritable x base n : Sound x base -> is_Some (span n (view x)) -> IsRewritable n x = true.
Proof.
  intros HS [[i k] Hs]. destruct (Sound_opened x base HS) as [HC _]. unfold span in Hs.
  destruct (first_at n (view x)) as [i'|] eqn:Ei, (last_at n (view x)) as [j|] eqn:Ej; try done.
  destruct (first_at_Some x base (opened x) HC n i' Ei) as (A & c & ev & R & HQ & _ & Hf & Hb & Hl).
  destruct (last_at_Some x base (opened x) HC n j Ej) as (_ & e & _ & _ & _ & _ & _ & He & _).
  apply IsRewritable_and. split.
  - unfold IsRewritableIgnoringDeferral, begin, end_of, live in *. destruct (data n x) as [d|]; [|done].
    cbn in *. injection Hb as ->. injection He as ->. by rewrite Hl.
  - unfold IsDeferred. apply bool_decide_eq_false_2. intros [L HL].
    destruct (Sound_deferred _ _ HS n L HL) as [HL'|(M & HL' & _)];
      (destruct L as [|[c' ev'] L]; [done|]); injection HL' as -> _;
      (eapply (deferred_disjoint x base (opened x) c ev c' _ n HS HC);
        [rewrite HQ; apply elem_of_app; right; by left|by apply first_GetNode|eapply in_deferred; [done|by left]|done]).
Qed.

Lemma settled_window n x : settled n x = true -> IsRewritable n x = true -> in_window n x = true.
Proof. unfold settled. intros H Hr. by rewrite Hr in H. Qed.

(** An operation of a node that is either complete in the window, or not done. *)
Lemma on_span_good x base n (r : option (HtmlParse * bool)) f :
  Sound x base ->
  (IsRewritable n x = true -> exists x' i j, r = Some (x', true) /\ first_at n (view x) = Some i /\ last_at n (view x) = Some j /\
     good base (opened x) x (f i (S j - i)%nat) x') ->
  (IsRewritable n x = false -> r = Some (x, false)) ->
  exists x' b, r = Some (x', b) /\ Sound x' base /\ (view x', b) = on_span n f (view x).
Proof.
  intros HS Ht Hf. destruct (IsRewritable n x) eqn:Er.
  - destruct (Ht eq_refl) as (x' & i & j & -> & Hi & Hj & Hg). exists x', true. split; [done|].
    destruct (Sound_good x base _ x' HS Hg) as [HS' Hv]. split; [done|]. unfold on_span, span. by rewrite Hi, Hj, Hv.
  - rewrite (Hf eq_refl). exists x, false. split; [done|]. split; [done|]. unfold on_span.
    destruct (span n (view x)) as [[i k]|] eqn:Es; [|done]. rewrite (span_rewritable x base n HS) in Er; [done|by rewrite Es].
Qed.

Definition keeps (op : Op) (x : HtmlParse) (base : list nat) : Prop :=
  exists x' r, run_op op x = Some (x', r) /\ Sound x' base /\ (view x', r) = spec_of op x.

Lemma in_list_Some it x : in_list it x = true -> exists c, it = Some (Some c) /\ c ∈ (queue_ x).*1.
Proof. destruct it as [[c|]|]; try done. cbn. intros H%bool_decide_eq_true_1. by exists c. Qed.

Ltac split_allowed H := unfold is_element in *; repeat (apply andb_true_iff in H as [H ?]); repeat match goal with H : bool_decide _ = true |- _ => apply bool_decide_eq_true_1 in H end.

Section spec.
Context (x : HtmlParse) (base : list nat).
Hypothesis HS : Sound x base.
Let HC : Core x base (opened x) := proj1 (Sound_opened x base HS).

Lemma keeps_good op x' d :
  run_op op x = Some (x', true) -> good base (opened x) x d x' -> (d, true) = spec_of op x -> keeps op x base.
Proof.
  intros Hr Hg Hd. destruct (Sound_good x base d x' HS Hg) as [HS' Hv]. exists x', true. by rewrite Hv.
Qed.

Lemma New_keeps k p c : allowed (New k p c) x = true -> keeps (New k p c) x base.
Proof.
  intros H. pose proof (NewNode_good x base (opened x) k p c HC) as Hg. cbn in H.
  destruct Hg as (Hg & _); [by destruct k, c|]. eapply keeps_good; [|exact Hg|]; done.
Qed.

Lemma Clone_keeps n : allowed (Clone n) x = true -> keeps (Clone n) x base.
Proof.
  intros H. cbn in H. split_allowed H. destruct H0 as [d Ed].
  pose proof (Wf_shape x (Core_wf _ _ _ HC) n ElementNode d H Ed) as Hsh. unfold shaped in Hsh.
  destruct (content_ d) as [name attrs style|t] eqn:Ec; [|done].
  destruct (CloneElement_good x base (opened x) n d name attrs style HC Ed Ec) as (x' & m & d' & Hr & Hg & _).
  eapply keeps_good; [|exact Hg|done]. cbn. by rewrite Hr.
Qed.

(** Where a new node goes beside a node or into one. *)
Lemma placed_keeps op (g : option HtmlParse) at_ f :
  run_op op x = ran g -> spec_of op x = at_event at_ f (view x) ->
  (exists x' i, g = Some x' /\ at_ = Some i /\ good base (opened x) x (f i) x') -> keeps op x base.
Proof.
  intros Hr Hs (x' & i & -> & -> & Hg). eapply keeps_good; [exact Hr|exact Hg|]. by rewrite Hs.
Qed.

Lemma BeforeNode_keeps m n : allowed (BeforeNode m n) x = true -> keeps (BeforeNode m n) x base.
Proof.
  intros H. cbn in H. split_allowed H. destruct (in_list_Some _ _ H0) as (c & Ec & Hc).
  eapply placed_keeps; [done..|]. by apply (InsertNodeBeforeNode_good x base (opened x) n HC H m c).
Qed.

Lemma AfterNode_keeps m n : allowed (AfterNode m n) x = true -> keeps (AfterNode m n) x base.
Proof.
  intros H. cbn in H. split_allowed H. destruct (in_list_Some _ _ H0) as (c & Ec & Hc).
  eapply placed_keeps; [done..|]. by apply (InsertNodeAfterNode_good x base (opened x) n HC H m c).
Qed.

Lemma Prepend_keeps p n : allowed (Prepend p n) x = true -> keeps (Prepend p n) x base.
Proof.
  intros H. cbn in H. split_allowed H. destruct (in_list_Some _ _ H0) as (c & Ec & Hc).
  eapply placed_keeps; [done..|]. by apply (PrependChild_good x base (opened x) n HC H p c).
Qed.

Lemma Append_keeps p n : allowed (Append p n) x = true -> keeps (Append p n) x base.
Proof.
  intros H. destruct p as [p|]; cbn in H; split_allowed H.
  - destruct (in_list_Some _ _ H0) as (c & Ec & Hc).
    eapply placed_keeps; [done..|]. by apply (AppendChild_good x base (opened x) n HC H p c).
  - destruct (Append_top_good x base (opened x) n HC H H0) as (x' & Hr & Hg). eapply keeps_good; [unfold run_op, ran; by rewrite Hr|exact Hg|done].
Qed.

Lemma BeforeCurrent_keeps n : allowed (BeforeCurrent n) x = true -> keeps (BeforeCurrent n) x base.
Proof.
  intros H. cbn in H. apply andb_true_iff in H as [H Hp]. apply andb_true_iff in H as [H Hs]. apply negb_true_iff in Hs.
  destruct (InsertNodeBeforeCurrent_good x base (opened x) n HC H Hs) as (x' & Hr & Hg).
  { apply orb_true_iff in Hp as [[? ?]%bool_decide_eq_true_1|Hp%bool_decide_eq_true_1]; [left|by right]. split; [|done]. by destruct (current_ x), H0. }
  eapply keeps_good; [unfold run_op, ran; by rewrite Hr|exact Hg|done].
Qed.

Lemma AfterCurrent_keeps n : allowed (AfterCurrent n) x = true -> keeps (AfterCurrent n) x base.
Proof.
  intros H. cbn in H. apply andb_true_iff in H as [H Hp]. apply andb_true_iff in H as [H Hc%bool_decide_eq_true_1].
  apply andb_true_iff in H as [H Hs]. apply negb_true_iff in Hs.
  destruct (InsertNodeAfterCurrent_good x base (opened x) n HC H Hs) as (x' & i & Hr & -> & Hg).
  { by destruct (current_ x), Hc. }
  { by apply orb_true_iff in Hp as [Hp%bool_decide_eq_true_1|Hp%bool_decide_eq_true_1]; [left|right]. }
  eapply keeps_good; [unfold run_op, ran; by rewrite Hr|exact Hg|done].
Qed.

Lemma siblings_Some f l : siblings f l x = true ->
  exists i j, first_at f (view x) = Some i /\ last_at l (view x) = Some j /\ (i <= j)%nat /\
    (forall ev, ev ∈ take (S j - i) (drop i (events x)) -> GetNode ev <> None).
Proof.
  unfold siblings. destruct (first_at f (view x)) as [i|], (last_at l (view x)) as [j|]; try done.
  intros [Hij%bool_decide_eq_true_1 Hd]%andb_true_iff. exists i, j. do 3 (split; [done|]). intros ev Hev.
  unfold no_document in Hd. rewrite forallb_forall in Hd. specialize (Hd ev). rewrite list_elem_of_In in Hev. apply Hd in Hev. by destruct (GetNode ev).
Qed.

Lemma AddParent_keeps f l p : allowed (AddParent f l p) x = true -> keeps (AddParent f l p) x base.
Proof.
  intros H. cbn in H. split_allowed H. destruct (siblings_Some f l) as (i & j & Hi & Hj & Hij & Hd); [done|].
  destruct (AddParentToSequence_good x base (opened x) f l p i j HC) as (x' & Hr & Hg); try done.
  eapply keeps_good; [exact Hr|exact Hg|]. unfold spec_of, spec_op. by rewrite Hi, Hj.
Qed.

Lemma DeleteNode_keeps n : allowed (Delete n) x = true -> keeps (Delete n) x base.
Proof.
  intros H. cbn in H. apply andb_true_iff in H as [H Hn]. apply andb_true_iff in H as [Hs Hcl].
  apply (on_span_good x base n (DeleteNode n x) (fun i k => d_remove i k (view x)) HS).
  - intros Hr. rewrite Hr in Hcl. cbn in Hcl. apply (DeleteNode_good x base (opened x)); try done. by apply settled_window.
  - intros Hr. unfold DeleteNode. rewrite Hr in *. cbn [negb] in Hn. rewrite andb_true_r in Hn.
    destruct (IsRewritableIgnoringEnd n x); [|done]. cbn in Hn. apply bool_decide_eq_true_1 in Hn. cbn [andb].
    case_bool_decide as Hc; [|done]. destruct (current_cell x (Core_wf _ _ _ HC) Hc) as (A & c & ev & R & HQ & Ec & _ & Hev).
    unfold current_node in Hn. rewrite Hev in Hn. unfold current_event in Hev. rewrite Ec in Hev |- *. rewrite Hev. cbn in Hn |- *.
    by rewrite decide_False.
Qed.

Lemma DeleteSaving_keeps n : allowed (DeleteSaving n) x = true -> keeps (DeleteSaving n) x base.
Proof.
  intros H. cbn in H. split_allowed H. apply (on_span_good x base n (DeleteSavingChildren n x) (fun i k => d_unwrap i k (view x)) HS).
  - intros Hr. rewrite Hr in *. apply (DeleteSavingChildren_good x base (opened x)); try done. by apply settled_window.
  - intros Hr. unfold DeleteSavingChildren. by rewrite Hr.
Qed.

Lemma Replace_keeps m n : allowed (Replace m n) x = true -> keeps (Replace m n) x base.
Proof.
  intros H. cbn in H. split_allowed H.
  apply (on_span_good x base m (ReplaceNode m n x) (fun i k => let new := new_events n x in d_remove (i + length new) k (d_insert i new (view x))) HS).
  - intros Hr. rewrite Hr in *. apply (ReplaceNode_good x base (opened x)); try done. by apply settled_window.
  - intros Hr. unfold ReplaceNode. by rewrite Hr.
Qed.

Lemma Invisible_keeps n : allowed (Invisible n) x = true -> keeps (Invisible n) x base.
Proof.
  intros H. cbn in H. split_allowed H. destruct (MakeElementInvisible_good x base (opened x) n HC H) as (x' & r & Hr & Hg & _).
  eapply keeps_good; [unfold run_op, ran; by rewrite Hr|exact Hg|done].
Qed.

Lemma Attributes_keeps n f : allowed (Attributes n f) x = true -> keeps (Attributes n f) x base.
Proof.
  intros H. cbn in H. split_allowed H. destruct (modify_attributes_good x base (opened x) n f HC) as (x' & Hr & Hg); [done..|].
  eapply keeps_good; [unfold run_op, ran; by rewrite Hr|exact Hg|done].
Qed.

Lemma Contents_keeps n f : allowed (Contents n f) x = true -> keeps (Contents n f) x base.
Proof.
  intros H. cbn in H. destruct (kind n x) as [[|k]|] eqn:Ek; try done. split_allowed H.
  destruct (modify_contents_good x base (opened x) n f k HC) as (x' & Hr & Hg); [done..|].
  eapply keeps_good; [unfold run_op, ran; by rewrite Hr|exact Hg|done].
Qed.

Lemma Next_keeps : allowed Next x = true -> keeps Next x base.
Proof.
  intros H. cbn in H. destruct (NextEvent_good x base (opened x) HC) as (x' & Hr & Hg).
  { apply orb_true_iff in H as [H|H%bool_decide_eq_true_1]; [by left|by right]. }
  eapply keeps_good; [unfold run_op, ran; by rewrite Hr|exact Hg|done].
Qed.

Lemma movable_Some m it j :
  movable m it j x = true -> exists ev n, current_event x = Some ev /\ GetNode ev = Some n /\
    (live m x = true -> it = Some (default None it)) /\ target_ok m (default None it) j ev x.
Proof.
  unfold movable, current_node. destruct (current_event x) as [ev|]; [|done]. cbn. destruct (GetNode ev) as [n|] eqn:En; [|done].
  intros H. exists ev, n. do 2 (split; [done|]). unfold target_ok. rewrite En. destruct (live m x); [|split; by intros].
  cbn in H. apply andb_true_iff in H as [H1 H2]. destruct it as [it|]; [|done]. split; [done|]. intros _. split; [done|].
  destruct j; [|done]. by apply andb_true_iff.
Qed.

Lemma move_keeps op r d : run_op op x = r -> spec_of op x = d -> move_good base (opened x) x r d -> keeps op x base.
Proof.
  intros Hr Hd (x' & b & -> & HC' & He & Hv). exists x', b. split; [done|]. split; [|by rewrite Hd].
  by apply (Sound_good x base (view x') x' HS).
Qed.

Lemma MoveInto_keeps p : allowed (MoveInto p) x = true -> keeps (MoveInto p) x base.
Proof.
  intros H. cbn in H. split_allowed H. destruct (movable_Some _ _ _ H0) as (ev & n & Hev & Hn & Hl & Ht).
  eapply move_keeps; [done..|]. by eapply MoveCurrentInto_good.
Qed.

Lemma MoveBefore_keeps m : allowed (MoveBefore m) x = true -> keeps (MoveBefore m) x base.
Proof.
  intros H. cbn in H. destruct (movable_Some _ _ _ H) as (ev & n & Hev & Hn & Hl & Ht).
  eapply move_keeps; [done..|]. by eapply MoveCurrentBefore_good.
Qed.

Lemma Restore_at d : allowed (Restore d) x = true ->
  exists x', RestoreDeferredNode d x = Some x' /\ Sound x' base /\
    view x' = (let i := restore_at (view x) in mkDoc (doc (d_insert i (held x d) (view x))) i false).
Proof.
  intros H. cbn in H. destruct (current_event x) as [ev|] eqn:Hev; [|by rewrite andb_false_r in H]. split_allowed H.
  apply andb_true_iff in H0 as [Hk Hs]. apply bool_decide_eq_true_1 in Hk as [k Hk].
  destruct H as [L HL].
  destruct (RestoreDeferredNode_good x base (opened x) d L ev k HC HL) as (P & R & V & np & Hr & HQ & HV & Hnp & Hv); try done.
  { by apply (Sound_deferred _ _ HS). }
  { intros Hsk. rewrite Hsk in Hs. apply bool_decide_eq_true_1 in Hs as [m Hm]. destruct ev; try done. cbn in *. congruence. }
  eexists. split; [exact Hr|]. split; [|unfold held; by rewrite HL].
  eapply (Sound_restored_state x base (opened x)); try done. exact (proj2 (Sound_opened x base HS)).
Qed.
Lemma Restore_keeps d : allowed (Restore d) x = true -> keeps (Restore d) x base.
Proof.
  intros H. destruct (Restore_at d H) as (x' & Hr & HS' & Hv). exists x', true. unfold run_op, ran. rewrite Hr, Hv. done.
Qed.

(** The node of the current event, when it can be deferred. *)
Lemma Defer_at : allowed Defer x = true ->
  exists n A s T, current_node x = Some n /\ node_at x n A s T /\ IsDeferred n x = false /\ (length A <= place x < length A + length s)%nat /\
    DeferCurrentNode x = Some (deferred_state x n A s T).
Proof.
  intros H. cbn in H. unfold current_node in *. destruct (current_event x) as [ev|] eqn:Hev; [|done]. cbn in *.
  destruct (GetNode ev) as [n|] eqn:Hn; [|done]. split_allowed H.
  destruct (complete_node x base (opened x) n HC) as (A & s & T & Hat); [done..|].
  destruct (node_at_span x base (opened x) n A s T HC Hat) as (Hi & Hj & _).
  assert (Hd : IsDeferred n x = false).
  { apply IsRewritable_and. apply (span_rewritable x base n HS). unfold span. rewrite Hi, Hj. by eexists. }
  assert (Hc : is_Some (current_ x)) by (unfold current_event in Hev; by destruct (current_ x)).
  destruct (current_cell x (Core_wf _ _ _ HC) Hc) as (B & c & ev' & R & HQ & Ec & _ & Hev'). assert (ev' = ev) as -> by congruence.
  destruct (DeferCurrentNode_at x base (opened x) n A s T HC Hat Hd c ev B R) as [Hr Hp]; try done.
  { destruct (current_filter_ x); [|done]. by rewrite (Sound_open _ _ HS). }
  by exists n, A, s, T.
Qed.

Lemma Defer_keeps : allowed Defer x = true -> keeps Defer x base.
Proof.
  intros H. destruct (Defer_at H) as (n & A & s & T & Hn & Hat & Hd & Hp & Hr).
  destruct (node_at_span x base (opened x) n A s T HC Hat) as (Hi & Hj & Hl).
  eexists _, true. split; [unfold run_op, ran; by rewrite Hr|]. split.
  - eapply (Sound_deferred_state x base (opened x)); try done. exact (proj2 (Sound_opened x base HS)).
  - rewrite (deferred_state_view x base (opened x) n A s T) by done. unfold spec_of, spec_op. unfold current_node in Hn.
    destruct (current_event x) as [ev|] eqn:Hev; [|done]. cbn [mbind option_bind] in Hn.
    change (doc (view x) !! here (view x)) with (events x !! place x). rewrite (current_doc x base (opened x) ev HC Hev). cbn [mbind option_bind]. rewrite Hn.
    unfold on_span, span. rewrite Hi, Hj. cbn. do 2 f_equal. lia.
Qed.

(** A new comment between two events. *)
Lemma comment_good t p A R V :
  queue_ x = A ++ R -> walk (par x) None base A.*2 = Some V -> p = top None V ->
  let '(x1, m) := NewLeafNode CommentNode p t x in
  exists x', InsertNodeBeforeEvent (front R) m x1 = Some x' /\ good base (opened x) x (d_insert (length A) [LeafNodeEvent m] (view x)) x'.
Proof.
  intros HQ HV Hp. destruct (NewNode_good x base (opened x) (LeafNode CommentNode) p (Text t) HC I) as (Hg & Hf & Hpar & Hk).
  unfold NewLeafNode. set (x1 := fst (NewNode (LeafNode CommentNode) p (Text t) x)). set (m := length (nodes_ x)). cbn [NewNode]. fold x1 m.
  assert (HV1 : walk (par x1) None base A.*2 = Some V).
  { rewrite <- HV. apply walk_ext. intros ev k ([c ev'] & -> & Hi)%list_elem_of_fmap Ek. cbn in Ek.
    assert (Hq : (c, ev') ∈ queue_ x) by (rewrite HQ; apply elem_of_app; by left). apply (Core_link _ _ _ HC) in Hq.
    assert (Hn : is_Some (nodes_ x !! k)).
    { destruct ev'; try done; cbn in Ek; injection Ek as ->; destruct Hq as (_ & d & E & _); by eapply data_node. }
    unfold par, parent, x1. cbn. by rewrite lookup_app_l by (by apply lookup_lt_is_Some). }
  destruct (insert_good x1 base (opened x) m (proj1 Hg) Hf A R V HQ HV1) as (x' & Hr & Hg'); [exact (eq_trans Hpar Hp)|].
  exists x'. split; [exact Hr|]. assert (Hk1 : kind m x1 = Some (LeafNode CommentNode)) by exact Hk.
  assert (He : new_events m x1 = [LeafNodeEvent m]) by (unfold new_events; by rewrite Hk1).
  rewrite He in Hg'. by apply (good_after base (opened x) x x1).
Qed.

(** The event that [InsertComment] goes by: the current one, or the last one. *)
Lemma comment_position :
  queue_ x <> [] -> exists A c ev R, queue_ x = A ++ (c, ev) :: R /\ (current_ x = Some c /\ place x = length A \/
    current_ x = None /\ R = [] /\ place x = length (queue_ x)).
Proof.
  intros Hne. destruct (current_ x) as [c0|] eqn:Ec.
  - destruct (current_cell x (Core_wf _ _ _ HC)) as (A & c & ev & R & HQ & Hc & Hpl & _); [by rewrite Ec|].
    exists A, c, ev, R. split; [done|]. left. split; [congruence|done].
  - destruct (exists_last Hne) as (A & [c ev] & HQ). exists A, c, ev, []. split; [done|]. right. do 2 (split; [done|]).
    apply (place_eq x (queue_ x) []); [apply (Core_queue_nodup _ _ _ HC)|by rewrite app_nil_r|done].
Qed.

Definition comment_at (text : bytes) (p : option nat) (at_ : option nat -> nat -> HtmlParse -> option HtmlParse) (c : nat) : option (HtmlParse * bool) :=
  x' ← at_ (Some c) (length (nodes_ x)) (fst (NewLeafNode CommentNode p (Escape text) x)); Some (x', true).

Lemma InsertComment_at text c ev :
  queue_ x <> [] -> match current_ x with Some c => Some (Some c) | None => prev None (queue_ x) end = Some (Some c) ->
  deref (Some c) (queue_ x) = Some ev ->
  InsertComment text x =
    (p ← match GetNode ev with Some n => parent n x | None => Some None end;
     match ev with
     | StartElementEvent _ => comment_at text p InsertNodeBeforeEvent c
     | EndElementEvent _ => comment_at text p InsertNodeAfterEvent c
     | _ => match current_ x with None => comment_at text p InsertNodeAfterEvent c | Some _ => comment_at text p InsertNodeBeforeEvent c end
     end).
Proof.
  intros Hne Hp Hd. unfold InsertComment, comment_at. destruct (queue_ x) as [|cell q] eqn:EQ; [done|].
  rewrite Hp. cbn [mbind option_bind]. rewrite Hd. cbn [mbind option_bind]. destruct ev; cbn [GetNode]; try done; by destruct (current_ x).
Qed.

Lemma comment_at_keeps text p at_ c d :
  (exists x', at_ (Some c) (length (nodes_ x)) (fst (NewLeafNode CommentNode p (Escape text) x)) = Some x' /\ good base (opened x) x d x') ->
  exists x' r, comment_at text p at_ c = Some (x', r) /\ Sound x' base /\ (view x', r) = (d, true).
Proof.
  intros (x' & Hr & Hg). destruct (Sound_good x base d x' HS Hg) as [HS' <-]. exists x', true. unfold comment_at. by rewrite Hr.
Qed.

Lemma queue_parent c ev n : (c, ev) ∈ queue_ x -> GetNode ev = Some n -> parent n x = Some (par x n).
Proof.
  intros Hq Hn. apply (Core_link _ _ _ HC) in Hq. destruct ev; try done; injection Hn as ->; destruct Hq as (_ & d & E & _); by apply (data_parent _ _ _ E).
Qed.

Lemma Comment_keeps text : allowed (Comment text) x = true -> keeps (Comment text) x base.
Proof.
  intros H. cbn in H. apply bool_decide_eq_true_1 in H. pose proof (Core_queue_nodup _ _ _ HC) as HN.
  destruct (comment_position H) as (A & c & ev & R & HQ & Hpos). rewrite HQ in HN.
  destruct (at_cell x base (opened x) A c ev R HC HQ) as (V & V' & HV & HV' & Hm).
  set (m := length (nodes_ x)).
  assert (Hb : forall p, p = top None V -> exists x', InsertNodeBeforeEvent (Some c) m (fst (NewLeafNode CommentNode p (Escape text) x)) = Some x' /\
      good base (opened x) x (d_insert (length A) [LeafNodeEvent m] (view x)) x').
  { intros p Hp. exact (comment_good (Escape text) p A ((c, ev) :: R) V HQ HV Hp). }
  assert (Ha : forall p, p = top None V' -> exists x', InsertNodeAfterEvent (Some c) m (fst (NewLeafNode CommentNode p (Escape text) x)) = Some x' /\
      good base (opened x) x (d_insert (S (length A)) [LeafNodeEvent m] (view x)) x').
  { intros p Hp. unfold InsertNodeAfterEvent. change (queue_ (fst _)) with (queue_ x). rewrite HQ. rewrite next_app by done. cbn [mbind option_bind].
    destruct (comment_good (Escape text) p (A ++ [(c, ev)]) R V') as (x' & Hr & Hg); [by rewrite <- app_assoc|done..|].
    rewrite length_app, Nat.add_comm in Hg. exists x'. split; [exact Hr|exact Hg]. }
  assert (Hev : doc (view x) !! length A = Some ev) by (cbn; unfold events; by rewrite HQ, fmap_app, (lookup_after _ _ 0) by (rewrite length_fmap; lia)).
  assert (Hlen : length (doc (view x)) = S (length A + length R)) by (cbn; unfold events; rewrite length_fmap, HQ, length_app; cbn; lia).
  assert (Hde : deref (Some c) (queue_ x) = Some ev) by (rewrite HQ; by apply deref_app).
  assert (Hp : match current_ x with Some c => Some (Some c) | None => prev None (queue_ x) end = Some (Some c)).
  { destruct Hpos as [[-> _]|(-> & -> & _)]; [done|]. rewrite HQ. cbn. by rewrite last_snoc. }
  assert (Hi : (if decide (here (view x) < length (doc (view x)))%nat then here (view x) else (length (doc (view x)) - 1)%nat) = length A).
  { cbn [here view]. destruct Hpos as [[_ ->]|(_ & -> & ->)]; [by rewrite decide_True by lia|].
    rewrite decide_False, Hlen; [cbn; lia|]. rewrite Hlen, HQ, length_app. cbn. lia. }
  unfold keeps, spec_of, spec_op. rewrite Hi, Hev. fold m. unfold run_op. rewrite (InsertComment_at text c ev H Hp Hde).
  assert (Hq : (c, ev) ∈ queue_ x) by (rewrite HQ; apply elem_of_app; right; by left).
  destruct ev as [| |n|n|n]; cbn [GetNode]; rewrite ?(queue_parent _ _ n Hq eq_refl); cbn [mbind option_bind]; destruct Hm as [Hm1 Hm2].
  3: apply comment_at_keeps; by apply Hb.
  3: apply comment_at_keeps; by apply Ha.
  all: cbn [here] in Hpos |- *; destruct Hpos as [[-> Hpl]|(-> & -> & Hpl)]; apply comment_at_keeps.
  1,3,5: rewrite decide_True; [by apply Hb|]; rewrite Hlen; cbn; lia.
  all: rewrite decide_False; [apply Ha; by rewrite ?Hm2|]; rewrite Hlen; cbn; rewrite Hpl, HQ, length_app; cbn; lia.
Qed.

(** Every operation that is allowed succeeds, leaves the window sound, and does to the
    document what the specification says. *)
Lemma op_keeps op : allowed op x = true -> keeps op x base.
Proof.
  destruct op; [apply New_keeps|apply Clone_keeps|apply BeforeNode_keeps|apply AfterNode_keeps|apply Prepend_keeps|apply Append_keeps
    |apply BeforeCurrent_keeps|apply AfterCurrent_keeps|apply AddParent_keeps|apply MoveInto_keeps|apply MoveBefore_keeps|intros; by apply Next_keeps
    |intros; by apply Defer_keeps|apply Restore_keeps|apply DeleteNode_keeps|apply DeleteSaving_keeps|apply Replace_keeps|apply Invisible_keeps
    |apply Attributes_keeps|apply Contents_keeps|apply Comment_keeps].
Qed.
End spec.

(** ** The steps of a parse *)

(** What the lexer adds to the window, the filters one after the other with their
    operations, the end of a flush window, and the end of the document. *)
Inductive Step :=
| Open (name : HtmlName) (attrs : list Attribute)
| Leaf (k : LeafKind) (text : bytes)
| Close (style : Style)
| Literal (text : option bytes) (style : Style)
| Filter (f : nat)
| Do (op : Op)
| FilterDone
| Flush
| Finish
| Forget.

Definition run_step (s : Step) (x : HtmlParse) : option HtmlParse :=
  match s with
  | Open name attrs => open_element name attrs x
  | Leaf k text => add_leaf k text x
  | Close style => close_element style x
  | Literal text style => literal_element text style x
  | Filter f => ApplyFilter_begin f x
  | Do op => fst <$> run_op op x
  | FilterDone => ApplyFilter_end x
  | Flush => ClearEvents x
  | Finish => BeginFinishParse x
  | Forget => ClearElements x
  end.

(** The lexer adds nothing below a literal element but its characters; while the start
    tag of one is held back, it comes next and its characters and its end tag follow. *)
Definition allowed_step (s : Step) (x : HtmlParse) : bool :=
  let held_back := bool_decide (is_Some (delayed_start_literal_ x)) in
  match s with
  | Open _ _ => negb held_back && match lexer_stack_ x with n :: _ => negb (is_literal n x) | [] => true end
  | Leaf _ _ => negb held_back
  | Close _ => negb held_back && bool_decide (lexer_stack_ x <> [])
  | Literal _ _ => held_back && bool_decide (queue_ x = [])
  | Filter _ => bool_decide (current_filter_ x = None) && bool_decide (current_ x = None)
  | Do op => allowed op x
  | FilterDone => bool_decide (current_ x = None)
  | Flush => true
  | Finish => negb held_back && bool_decide (lexer_stack_ x = [])
  | Forget => negb held_back && bool_decide (lexer_stack_ x = []) && bool_decide (queue_ x = [])
  end.

(** The events that leave the window with a step: the writer has seen them last. *)
Definition written (s : Step) (x : HtmlParse) : list HtmlEvent := match s with Flush => events x | _ => [] end.

Fixpoint run_steps (ss : list Step) (x : HtmlParse) (out : list HtmlEvent) : option (HtmlParse * list HtmlEvent) :=
  match ss with
  | [] => Some (x, out)
  | s :: ss => let out := out ++ written s x in x ← run_step s x; run_steps ss x out
  end.
Fixpoint orderly (ss : list Step) (x : HtmlParse) : bool :=
  match ss with
  | [] => true
  | s :: ss => allowed_step s x && match run_step s x with Some x => orderly ss x | None => true end
  end.

(** The elements left open by well nested events after the open elements [st]. *)
Fixpoint nest (st : list nat) (evs : list HtmlEvent) : option (list nat) :=
  match evs with
  | [] => Some st
  | StartElementEvent n :: evs => nest (n :: st) evs
  | EndElementEvent n :: evs => match st with m :: st => if decide (m = n) then nest st evs else None | [] => None end
  | (LeafNodeEvent _ | StartDocumentEvent | EndDocumentEvent) :: evs => nest st evs
  end.

Lemma walk_nest par bot evs U V : walk par bot U evs = Some V -> nest U evs = Some V.
Proof.
  revert U. induction evs as [|ev evs IH]; intros U; [done|]. destruct ev as [| |n|n|n]; cbn.
  1,2,3,5: case_decide; [apply IH|done].
  destruct U as [|m U]; [done|]. case_decide as H; [|done]. rewrite decide_True by apply H. apply IH.
Qed.

Lemma nest_app st a b : nest st (a ++ b) = (st' ← nest st a; nest st' b).
Proof.
  revert st. induction a as [|ev a IH]; intros st; [done|]. destruct ev as [| |n|n|n]; cbn; try apply IH.
  destruct st as [|m st]; [done|]. case_decide; [apply IH|done].
Qed.

Definition step_ok (s : Step) (x : HtmlParse) (base : list nat) : Prop :=
  exists x' base', run_step s x = Some x' /\ Sound x' base' /\ nest base (written s x) = Some base'.

(** Every step that is allowed succeeds and leaves the window sound. *)
Lemma allowed_step_ok s x base : Sound x base -> allowed_step s x = true -> step_ok s x base.
Proof.
  intros HS H. unfold step_ok. assert (Hg : forall x', run_step s x = Some x' -> written s x = [] -> Sound x' base -> step_ok s x base).
  { intros x' Hr Hw HS'. exists x', base. by rewrite Hw. }
  destruct s as [name attrs|k t|style|t style|f|op| | | |]; cbn [allowed_step] in H; split_allowed H;
    repeat match goal with H : negb (bool_decide _) = true |- _ => apply negb_true_iff, bool_decide_eq_false_1, eq_None_not_Some in H end.
  - destruct (element_opened x base name attrs HS H) as (x' & Hr & HS' & _); [|by apply (Hg x')].
    intros n Hn. destruct (lexer_stack_ x) as [|m st]; [done|]. injection Hn as ->. by apply negb_true_iff.
  - destruct (leaf_added x base k t HS H) as (x' & Hr & HS' & _). by apply (Hg x').
  - destruct (element_closed x base style HS H) as (x' & e & st & Hr & HS' & _); [done|]. by apply (Hg x').
  - destruct (literal_closed x base t style HS H) as (x' & e & Hr & HS' & _); [done|]. by apply (Hg x').
  - destruct (ApplyFilter_begin_ok x base f HS H) as (x' & Hr & HS' & _); [done|]. by apply (Hg x').
  - destruct (op_keeps x base HS op H) as (x' & r & Hr & HS' & _). apply (Hg x'); [cbn; by rewrite Hr|done..].
  - destruct (ApplyFilter_end_ok x base HS H) as (x' & Hr & HS' & _). by apply (Hg x').
  - destruct (ClearEvents_ok x base HS) as (z & base' & HC & _ & Hr & HS' & _). exists z, base'. split; [done|]. split; [done|].
    eapply walk_nest, HC.
  - destruct (BeginFinishParse_ok x base HS) as (z & Hr & HS' & _); [done..|]. by apply (Hg z).
  - destruct (ClearElements_ok x base HS) as (z & Hr & HS' & -> & _); [done..|]. by apply (Hg z).
Qed.

Lemma orderly_ok ss : forall x base out, Sound x base -> nest [] out = Some base -> orderly ss x = true ->
  exists x' base' out', run_steps ss x out = Some (x', out') /\ Sound x' base' /\ nest [] out' = Some base'.
Proof.
  induction ss as [|s ss IH]; intros x base out HS Hn H; [by exists x, base, out|].
  cbn in H. apply andb_true_iff in H as [H1 H2]. destruct (allowed_step_ok s x base HS H1) as (x' & base' & Hr & HS' & Hw).
  rewrite Hr in H2. destruct (IH x' base' (out ++ written s x) HS') as (x'' & base'' & out' & Hr' & HS'' & Hn'); [by rewrite nest_app, Hn|done|].
  exists x'', base'', out'. split; [|done]. cbn. by rewrite Hr.
Qed.

(** The states of the parser in its use. *)
Definition reached (x : HtmlParse) : Prop := exists ss out, orderly ss StartParse = true /\ run_steps ss StartParse [] = Some (x, out).

Lemma reached_sound x : reached x -> exists base, Sound x base.
Proof.
  intros (ss & out & Ho & Hr). destruct (orderly_ok ss StartParse [] [] StartParse_sound eq_refl Ho) as (x' & base & out' & Hr' & HS & _).
  exists base. congruence.
Qed.

Lemma run_steps_app ss ss' x out : run_steps (ss ++ ss') x out = ('(x, out) ← run_steps ss x out; run_steps ss' x out).
Proof. revert x out. induction ss as [|s ss IH]; intros x out; [done|]. cbn. destruct (run_step s x); [apply IH|done]. Qed.
Lemma orderly_app ss ss' x out x' out' :
  orderly ss x = true -> run_steps ss x out = Some (x', out') -> orderly ss' x' = true -> orderly (ss ++ ss') x = true.
Proof.
  revert x out. induction ss as [|s ss IH]; intros x out; cbn; [by intros _ [= -> _]|]. rewrite !andb_true_iff.
  destruct (run_step s x) as [y|]; [|done]. cbn. intros [-> Ho] Hr Hs. split; [done|]. by eapply IH.
Qed.

Lemma reached_step s x x' : reached x -> allowed_step s x = true -> run_step s x = Some x' -> reached x'.
Proof.
  intros (ss & out & Ho & Hr) Ha Hs. exists (ss ++ [s]), (out ++ written s x). split.
  - eapply orderly_app; [done..|]. cbn. by rewrite Ha, Hs.
  - rewrite run_steps_app, Hr. cbn. by rewrite Hs.
Qed.

Lemma op_step x base op :
  reached x -> Sound x base -> allowed op x = true ->
  exists x' r, run_op op x = Some (x', r) /\ (view x', r) = spec_of op x /\ reached x' /\ Sound x' base.
Proof.
  intros Hx HS Ha. destruct (op_keeps x base HS op Ha) as (x' & r & Hr & HS' & Hv).
  exists x', r. do 2 (split; [done|]). split; [|done]. apply (reached_step (Do op) x x' Hx Ha). cbn. by rewrite Hr.
Qed.

(** ** Scripts *)

Lemma end_at x S0 S1 n i :
  Core x S0 S1 -> events x !! i = Some (EndElementEvent n) ->
  kind n x = Some ElementNode /\ is_Some (data n x) /\ in_list (end_of n x) x = true /\ last_at n (view x) = Some i.
Proof.
  intros HC Hi. unfold events in Hi. apply list_lookup_fmap_Some in Hi as ([c ev] & Hev & Hi). cbn in Hev. subst ev.
  pose proof (list_elem_of_lookup_2 _ _ _ Hi) as Hc. pose proof (Core_link _ _ _ HC _ _ Hc) as (Hk & d & E & _ & Ee).
  split; [done|]. split; [by eexists|]. split.
  - unfold in_list, end_of. rewrite E. cbn. rewrite Ee. apply bool_decide_eq_true_2. by apply (list_elem_of_fmap_2 fst) in Hc.
  - rewrite <- (take_drop_middle _ _ _ Hi) in Hc. apply take_drop_middle in Hi as HQ. symmetry in HQ.
    rewrite (last_at_app x S0 S1 HC _ _ _ _ n HQ) by by left. f_equal. rewrite length_take. apply lookup_lt_Some in Hi. lia.
Qed.

Lemma d_insert_inside h a b n d :
  (h <= length (doc d))%nat -> d_insert (S h) [n] (d_insert h [a; b] d) = d_insert h [a; n; b] d.
Proof.
  intros Hh. unfold d_insert. cbn [doc here gone length]. f_equal.
  - rewrite take_app_ge, drop_app_ge by (rewrite length_take; lia). rewrite length_take, Nat.min_l by lia.
    replace (S h - h)%nat with 1%nat by lia. cbn. by rewrite <- app_assoc.
  - repeat case_decide; lia.
Qed.

(** The script is put before the current event as a whole: its two tags with the text, or
    with the attribute, between them. *)
Lemma SetupScript_ok x base text (external : bool) n i h d :
  reached x -> Sound x base -> view x = d_insert h [StartElementEvent n; EndElementEvent n] d -> (h <= length (doc d))%nat -> i = length (nodes_ x) ->
  exists x', SetupScript text external n x = Some x' /\ reached x' /\
    view x' = d_insert h (if external then [StartElementEvent n; EndElementEvent n] else [StartElementEvent n; LeafNodeEvent i; EndElementEvent n]) d.
Proof.
  intros Hx HS Hv Hh ->. destruct (Sound_opened x base HS) as [HC _].
  assert (Hend : events x !! S h = Some (EndElementEvent n)).
  { change (events x) with (doc (view x)). rewrite Hv. cbn [doc d_insert]. rewrite lookup_app_r; rewrite length_take, Nat.min_l by lia; [|lia].
    by replace (S h - h)%nat with 1%nat by lia. }
  destruct (end_at x base (opened x) n (S h) HC Hend) as (Hk & Hd & _). unfold SetupScript. destruct external.
  - destruct (op_step x base (Attributes n (fun a => a ++ [mkAttribute (keyword_name "src") (Some (Escape text)) DOUBLE_QUOTE])) Hx HS) as (x' & r & Hr & Hs & Hx' & _).
    { cbn. unfold is_element. by rewrite !bool_decide_eq_true_2. }
    exists x'. unfold run_op, ran in Hr. unfold AddAttribute. destruct (modify_attributes _ _ x) as [y|]; [|done]. injection Hr as -> _.
    split; [done|]. split; [done|]. apply (f_equal fst) in Hs. cbn in Hs. by rewrite Hs.
  - destruct (op_step x base (New (LeafNode CharactersNode) (Some n) (Text text)) Hx HS eq_refl) as (x1 & r1 & Hr1 & Hs1 & Hx1 & HS1).
    pose proof (NewNode_good x base (opened x) (LeafNode CharactersNode) (Some n) (Text text) HC I) as (_ & Hf & _ & Hk1).
    injection Hr1 as <- _. apply (f_equal fst) in Hs1. cbn [fst spec_of spec_op] in Hs1.
    unfold NewLeafNode. set (m := length (nodes_ x)) in *. cbn [NewNode fst] in *. set (x1 := set_nodes _ x) in *.
    destruct (Sound_opened x1 base HS1) as [HC1 _]. destruct (end_at x1 base (opened x1) n (S h) HC1 Hend) as (Hkn & _ & Hin & Hla).
    destruct (op_step x1 base (Append (Some n) m) Hx1 HS1) as (x' & r & Hr & Hs & Hx' & _).
    { cbn. unfold is_element. rewrite Hin, andb_true_r. apply andb_true_iff. split; [exact Hf|by apply bool_decide_eq_true_2]. }
    exists x'. unfold run_op, ran in Hr. destruct (AppendChild _ _ x1) as [y|]; [|done]. injection Hr as -> _. split; [done|]. split; [done|].
    apply (f_equal fst) in Hs. cbn [fst spec_of spec_op] in Hs. rewrite Hs, Hla, Hs1, Hv. cbn [at_event fst]. unfold new_of. rewrite Hk1.
    by apply d_insert_inside.
Qed.

(** No node is made by putting one into the window. *)
Lemma modify_data_length n f x x' : modify_data n f x = Some x' -> length (nodes_ x') = length (nodes_ x).
Proof. unfold modify_data. intros (d & _ & [= <-])%bind_Some. cbn. by rewrite length_alter. Qed.
Lemma insert_event_length it ev x x' i : insert_event it ev x = Some (x', i) -> length (nodes_ x') = length (nodes_ x).
Proof. unfold insert_event. by intros ([A R] & _ & [= <- _])%bind_Some. Qed.
Lemma SynthesizeEvents_length n it x x' : SynthesizeEvents n it x = Some x' -> length (nodes_ x') = length (nodes_ x).
Proof.
  unfold SynthesizeEvents. intros (nd & _ & H)%bind_Some. destruct (kind_ nd).
  - apply bind_Some in H as ([x1 b] & H1 & H). apply bind_Some in H as (x2 & H2 & H). apply bind_Some in H as ([x3 e] & H3 & H4).
    apply insert_event_length in H1, H3. apply modify_data_length in H2, H4. congruence.
  - apply bind_Some in H as ([x1 b] & H1 & H2). apply insert_event_length in H1. apply modify_data_length in H2. congruence.
Qed.
Lemma InsertNodeBeforeCurrent_length n x x' : InsertNodeBeforeCurrent n x = Some x' -> length (nodes_ x') = length (nodes_ x).
Proof.
  unfold InsertNodeBeforeCurrent, InsertNodeBeforeEvent. destruct (skip_increment_ x); [done|].
  intros (p & _ & (y & Hy & H)%bind_Some)%bind_Some. apply SynthesizeEvents_length in H. change (nodes_ (touched y)) with (nodes_ y) in H. rewrite H.
  assert (Hsp : forall q, length (nodes_ (set_parent n q x)) = length (nodes_ x)) by (intros q; cbn; by rewrite length_alter).
  destruct p as [p|]; [by injection Hy as <-|]. destruct (current_ x) as [c|]; [|by injection Hy as <-].
  apply bind_Some in Hy as (ev & _ & Hy). destruct (GetElementIfEndEvent ev); [by injection Hy as <-|].
  destruct (GetNode ev); [|by injection Hy as <-]. by apply bind_Some in Hy as (q & _ & [= <-]).
Qed.

(** A script is put before the current event as a whole: its two tags, and between them
    the text, or nothing when it is an external one. *)
Lemma InsertScriptBeforeCurrent_ok x text external :
  reached x -> skip_increment_ x = false -> is_Some (current_ x) ->
  exists x', InsertScriptBeforeCurrent text external x = Some x' /\ reached x' /\
    view x' = (let s := length (nodes_ x) in
      d_insert (here (view x)) (if external : bool then [StartElementEvent s; EndElementEvent s] else [StartElementEvent s; LeafNodeEvent (S s); EndElementEvent s]) (view x)).
Proof.
  intros Hx Hsk Hc. destruct (reached_sound x Hx) as [base HS]. destruct (Sound_opened x base HS) as [HC _].
  unfold InsertScriptBeforeCurrent, NewElement. set (c := Tag _ [] _).
  destruct (op_step x base (New ElementNode None c) Hx HS eq_refl) as (x1 & r1 & Hr1 & Hs1 & Hx1 & HS1).
  pose proof (NewNode_good x base (opened x) ElementNode None c HC I) as (_ & Hf & Hp & Hk).
  injection Hr1 as <- _. apply (f_equal fst) in Hs1. cbn [fst spec_of spec_op] in Hs1.
  set (s := length (nodes_ x)) in *. cbn [NewNode fst] in *. set (x1 := set_nodes _ x) in *.
  destruct (op_step x1 base (BeforeCurrent s) Hx1 HS1) as (x2 & r2 & Hr2 & Hs2 & Hx2 & HS2).
  { cbn [allowed]. apply andb_true_iff. split; [apply andb_true_iff; split; [exact Hf|]|].
    - apply negb_true_iff. exact Hsk.
    - apply orb_true_iff. left. apply bool_decide_eq_true_2. split; [exact Hc|exact Hp]. }
  unfold run_op, ran in Hr2. destruct (InsertNodeBeforeCurrent s x1) as [y|] eqn:Ey; [|done]. injection Hr2 as -> _. fold s. rewrite Ey. cbn [mbind option_bind].
  apply (f_equal fst) in Hs2. cbn [fst spec_of spec_op] in Hs2. rewrite Hs1 in Hs2. unfold new_of in Hs2. rewrite Hk in Hs2.
  apply InsertNodeBeforeCurrent_length in Ey. unfold x1 in Ey. cbn in Ey. rewrite length_app in Ey. cbn in Ey.
  apply (SetupScript_ok x2 base text external s (S s) (here (view x)) (view x) Hx2 HS2 Hs2).
  - destruct (current_cell x (Core_wf _ _ _ HC) Hc) as (A & c' & ev & R & HQ & _ & Hpl & _). cbn. rewrite Hpl. unfold events. rewrite length_fmap, HQ, length_app. lia.
  - fold s in Ey. lia.
Qed.

(** ** The theorems *)

Lemma all_text_app a b : all_text (a ++ b) = all_text a ++ all_text b.
Proof. induction a as [|[ev t] a IH]; cbn; [done|]. by rewrite IH, app_assoc. Qed.
Lemma others_app a b : others (a ++ b) = others a ++ others b.
Proof. unfold others. by rewrite filter_app, fmap_app. Qed.
Lemma no_adjacent_app a b : no_adjacent (a ++ b) = true -> no_adjacent a = true.
Proof.
  induction a as [|[ev [t|]] a IH]; cbn [app no_adjacent]; [done| |done]. destruct a as [|[ev' [t'|]] a]; cbn [app no_adjacent] in *; done.
Qed.

(** C8: the parser keeps its window in order: whatever the lexer adds, whatever the
    filters insert, wrap, move, defer, restore, replace and delete, as long as every step
    is one that may be taken, no step fails, the events written so far and those in the
    window are well nested, with the elements left open that the lexer still has to
    close, and [SanityCheck] finds nothing wrong. *)
Theorem parse_ok ss :
  orderly ss StartParse = true ->
  exists x out, run_steps ss StartParse [] = Some (x, out) /\ nest [] (out ++ events x) = Some (opened x) /\
    SanityCheck x = Some (set_current None x).
Proof.
  intros H. destruct (orderly_ok ss StartParse [] [] StartParse_sound eq_refl H) as (x & base & out & Hr & HS & Hn). exists x, out.
  destruct (Sound_opened x base HS) as [HC _]. split; [done|]. split; [|by apply (window_is_sane x base (opened x))].
  rewrite nest_app, Hn. cbn. eapply walk_nest, HC.
Qed.

(** C9: every operation of a filter that may be used succeeds and does to the list of
    events exactly what the abstract document operation does, with the same result: the
    iterators that the nodes keep always lead to the right places. *)
Theorem operation_ok x op :
  reached x -> allowed op x = true ->
  exists x' r, run_op op x = Some (x', r) /\ (view x', r) = spec_of op x /\ reached x'.
Proof.
  intros Hx Ha. destruct (reached_sound x Hx) as [base HS]. destruct (op_step x base op Hx HS Ha) as (x' & r & ? & ? & ? & _). by exists x', r.
Qed.


(** A flush empties the window and forgets its events; from then on no node that had
    an event in the window can be edited, not even an element that is still open, while
    the deferred nodes and the open elements are kept. *)
Lemma flush_ok x :
  reached x ->
  exists z, ClearEvents x = Some z /\ events z = [] /\ opened z = opened x /\ deferred_nodes_ z = deferred_nodes_ x /\ reached z /\
    (forall ev n, ev ∈ events x -> GetNode ev = Some n -> IsRewritableIgnoringEnd n z = false /\ IsRewritable n z = false).
Proof.
  intros Hx. destruct (reached_sound x Hx) as [base HS].
  destruct (ClearEvents_ok x base HS) as (z & base' & _ & _ & Hr & _ & Hq & _ & Hs & Hd & _ & Hdn & Hrw). exists z. split; [done|].
  split; [unfold events; by rewrite Hq|]. split; [unfold opened; by rewrite Hs, Hd|]. split; [done|].
  split; [by apply (reached_step Flush x z Hx)|]. intros ev n Hi En. pose proof (Hrw ev n Hi En) as H. split; [done|].
  destruct (IsRewritable n z) eqn:Er; [|done]. apply IsRewritable_and in Er as [E1 E2]. unfold IsRewritableIgnoringEnd, IsRewritableIgnoringDeferral in *.
  destruct (data n z) as [d|]; [|done]. rewrite E2 in H. cbn in H. destruct (is_live_ d), (IsInEventWindow (begin_ d)); done.
Qed.

Lemma d_put_back i k d :
  (i <= here d < i + k)%nat -> (i + k <= length (doc d))%nat ->
  (let j := restore_at (d_remove i k d) in mkDoc (doc (d_insert j (take k (drop i (doc d))) (d_remove i k d))) j false) = mkDoc (doc d) i false.
Proof.
  intros Hh Hl. assert (Hj : restore_at (d_remove i k d) = i).
  { unfold restore_at, d_remove. cbn [gone here]. rewrite !bool_decide_eq_true_2 by exact Hh. rewrite orb_true_r. by rewrite decide_False by lia. }
  cbn zeta. rewrite Hj. f_equal. cbn [doc d_insert d_remove]. rewrite take_app_length', drop_app_length' by (rewrite length_take; lia).
  rewrite <- drop_drop, (take_drop k), (take_drop i). done.
Qed.

(** a node that a filter defers and restores at once, while the event after it is a
    text, a comment or a directive, is back where it was: the document is what it was
    before, and the filter goes on at the node's first event. *)
Lemma defer_restore x x' n :
  reached x -> allowed Defer x = true -> current_node x = Some n -> DeferCurrentNode x = Some x' -> allowed (Restore n) x' = true ->
  exists x'' i, RestoreDeferredNode n x' = Some x'' /\ first_at n (view x) = Some i /\ view x'' = mkDoc (doc (view x)) i false.
Proof.
  intros Hx Ha Hn Hr Ha'. destruct (reached_sound x Hx) as [base HS]. destruct (Sound_opened x base HS) as [HC Hst].
  destruct (Defer_at x base HS Ha) as (n' & A & s & T & Hn' & Hat & Hd & Hp & Hr'). assert (n' = n) as -> by congruence.
  assert (x' = deferred_state x n A s T) as -> by congruence.
  pose proof (Sound_deferred_state x base (opened x) n A s T HS HC Hst Hat Hd) as HS'.
  destruct (Restore_at _ base HS' n Ha') as (x'' & Hr2 & _ & Hv). exists x'', (length A).
  destruct (node_at_span x base (opened x) n A s T HC Hat) as (Hi & _).
  split; [|split; [done|]].
  - exact Hr2.
  - rewrite Hv, (deferred_state_view x base (opened x) n A s T HC Hat Hd Hp).
    assert (Hs : held (deferred_state x n A s T) n = take (length s) (drop (length A) (doc (view x)))).
    { unfold held. cbn [deferred_state deferred_nodes_ touched set_deferred_nodes set_need_coalesce_characters set_need_sanity_check].
      rewrite lookup_insert_eq. cbn [doc view]. unfold events. rewrite (at_queue _ _ _ _ _ Hat), !fmap_app.
      by rewrite <- (length_fmap snd A), <- (length_fmap snd s), drop_app_length, take_app_length. }
    rewrite Hs. apply d_put_back; [exact Hp|]. cbn [doc view]. unfold events. rewrite (at_queue _ _ _ _ _ Hat), length_fmap, !length_app. lia.
Qed.

(** ** A parse *)

Definition state_after (ss : list Step) : HtmlParse := match run_steps ss StartParse [] with Some (x, _) => x | None => StartParse end.

Lemma reached_after ss : orderly ss StartParse = true -> reached (state_after ss).
Proof.
  intros H. destruct (orderly_ok ss StartParse [] [] StartParse_sound eq_refl H) as (x & _ & out & Hr & _).
  exists ss, out. split; [done|]. unfold state_after. by rewrite Hr.
Qed.

Definition tag (name : string) : HtmlName := mkName (Lookup (lit name)) (lit name).

(** [<div>ab<p><!--c--></p><script>], the text in two parts: the nodes are [div] 0, the
    texts 1 and 2, [p] 3, the comment 4 and [script] 5. *)
Definition parsed : list Step :=
  [Open (tag "div") []; Leaf CharactersNode (lit "a"); Leaf CharactersNode (lit "b"); Open (tag "p") []; Leaf CommentNode (lit "c");
   Close EXPLICIT_CLOSE; Open (tag "script") []].
Definition edited_by (ops : list Op) : list Step := parsed ++ Filter 1 :: (Do <$> ops).

(** A filter puts [b], node 6, around the text and [p], takes the comment out of [p] and
    puts it back after [p], moves it to the front, adds a comment 7 after the text, deletes
    [p], adds a comment 8 before the end of [b] and takes [b] away again. *)
Definition wrapping : list Op := [Next; Next; New ElementNode (Some O) (Tag (tag "b") [] AUTO_CLOSE); AddParent 1 3 6; Next; Next].
Definition moving : list Op := [MoveBefore 1; New (LeafNode CommentNode) None (Text (lit "d")); AfterNode 1 7].
Definition deleting : list Op := [Delete 3; Next; Comment (lit "e"); DeleteSaving 6; Next; Next].
Definition whole : list Step :=
  edited_by (wrapping ++ [Defer; Next; Restore 4] ++ moving ++ deleting) ++
  [FilterDone; Flush; Literal (Some (lit "x")) EXPLICIT_CLOSE; Close AUTO_CLOSE; Finish; Flush; Forget].

Example whole_parse :
  ('(x, out) ← run_steps whole StartParse []; Some (out ++ events x)) =
  Some [StartDocumentEvent; StartElementEvent 0; LeafNodeEvent 4; LeafNodeEvent 1; LeafNodeEvent 7; LeafNodeEvent 8;
        StartElementEvent 5; LeafNodeEvent 9; EndElementEvent 5; EndElementEvent 0; EndDocumentEvent].
Proof. by vm_compute. Qed.

Lemma parse_ok_witness :
  orderly whole StartParse = true /\
  exists x out, run_steps whole StartParse [] = Some (x, out) /\ nest [] (out ++ events x) = Some (opened x) /\ SanityCheck x = Some (set_current None x).
Proof.
  assert (H : orderly whole StartParse = true) by (vm_compute; reflexivity). split; [exact H|]. exact (parse_ok whole H).
Defined.

Lemma operation_ok_witness :
  let x := state_after (edited_by (wrapping ++ [Defer; Next; Restore 4])) in
  allowed (MoveBefore 1) x = true /\ view x = mkDoc (events x) 6 false /\
  exists x' r, run_op (MoveBefore 1) x = Some (x', r) /\ (view x', r) = spec_of (MoveBefore 1) x /\ reached x'.
Proof.
  set (x := state_after _). assert (H : allowed (MoveBefore 1) x = true) by (vm_compute; reflexivity).
  split; [exact H|]. split; [vm_compute; reflexivity|]. apply (operation_ok x (MoveBefore 1)); [|exact H].
  apply reached_after. vm_compute. reflexivity.
Defined.


Lemma flush_ok_witness :
  let x := state_after parsed in
  length (events x) = 8%nat /\ opened x = [5; 0]%nat /\
  exists z, ClearEvents x = Some z /\ events z = [] /\ opened z = opened x /\ deferred_nodes_ z = deferred_nodes_ x /\ reached z /\
    (forall ev n, ev ∈ events x -> GetNode ev = Some n -> IsRewritableIgnoringEnd n z = false /\ IsRewritable n z = false).
Proof.
  set (x := state_after parsed). split; [vm_compute; reflexivity|]. split; [vm_compute; reflexivity|].
  apply (flush_ok x). apply reached_after. vm_compute. reflexivity.
Defined.

(** [a<!--c-->b]: the comment is deferred before [b]. *)
Definition comment_between : list Step :=
  [Leaf CharactersNode (lit "a"); Leaf CommentNode (lit "c"); Leaf CharactersNode (lit "b"); Filter 1; Do Next; Do Next].

Lemma defer_restore_witness :
  let x := state_after comment_between in
  doc (view x) = [StartDocumentEvent; LeafNodeEvent 0; LeafNodeEvent 1; LeafNodeEvent 2] /\
  exists x', DeferCurrentNode x = Some x' /\ doc (view x') = [StartDocumentEvent; LeafNodeEvent 0; LeafNodeEvent 2] /\
  exists x'' i, RestoreDeferredNode 1 x' = Some x'' /\ first_at 1 (view x) = Some i /\ view x'' = mkDoc (doc (view x)) i false.
Proof.
  set (x := state_after comment_between). split; [vm_compute; reflexivity|]. eexists. split; [vm_compute; reflexivity|]. split; [vm_compute; reflexivity|].
  apply (defer_restore x _ 1); [apply reached_after|..]; vm_compute; reflexivity.
Defined.

(** ** What goes wrong outside these bounds *)

(** When the current node, the last child of its parent, has been deleted and then its
    parent is deleted, [current_] is left at an event that is gone. *)
Example deleted_twice :
  let x := state_after [Open (tag "div") []; Leaf CharactersNode (lit "a"); Close EXPLICIT_CLOSE; Filter 1; Do Next; Do Next; Do (Delete 1)] in
  allowed (Delete 0) x = false /\ IsRewritable 0 x = true /\
  ('(y, _) ← DeleteNode 0 x; Some (current_ y, queue_ y)) = Some (Some 3%nat, [(O, StartDocumentEvent)]).
Proof. by vm_compute. Qed.

(** A node that comes first in the window cannot be moved further back: [--current_]
    then steps before the beginning of the list. *)
Example moved_from_front :
  let x := state_after [Flush; Leaf CommentNode (lit "a"); Leaf CommentNode (lit "b"); Leaf CommentNode (lit "c"); Filter 1] in
  live 2 x = true /\ MoveCurrentBefore 2 x = None.
Proof. by vm_compute. Qed.

(** A node below a deferred one still counts as rewritable, but its events are not in the
    window. *)
Example below_deferred :
  let x := state_after [Open (tag "div") []; Leaf CharactersNode (lit "a"); Close EXPLICIT_CLOSE; Filter 1; Do Next; Do Defer] in
  IsRewritable 1 x = true /\ DeleteNode 1 x = None.
Proof. by vm_compute. Qed.

(** After the current node was deleted, a deferred node is put before the start tag that
    follows, but is made a child of it: [SanityCheck] fails. *)
Example restored_outside :
  let x := state_after [Open (tag "div") []; Leaf CommentNode (lit "c"); Leaf CharactersNode (lit "a"); Open (tag "p") []; Close EXPLICIT_CLOSE; Close EXPLICIT_CLOSE;
    Filter 1; Do Next; Do Next; Do Defer; Do Next; Do (Delete 2)] in
  ('(y : HtmlParse) ← RestoreDeferredNode 1 x; Some (events y, parent 1 y, SanityCheck y)) =
  Some ([StartDocumentEvent; StartElementEvent 0; LeafNodeEvent 1; StartElementEvent 3; EndElementEvent 3; EndElementEvent 0], Some (Some 3%nat), None).
Proof. by vm_compute. Qed.

(** A comment at the text of a literal element goes into the element. *)
Example comment_in_script :
  let x := state_after [Open (tag "script") []; Leaf CharactersNode (lit "a"); Close EXPLICIT_CLOSE; Filter 1; Do Next; Do Next; Do (Comment (lit "c"))] in
  events x = [StartDocumentEvent; StartElementEvent 0; LeafNodeEvent 2; LeafNodeEvent 1; EndElementEvent 0].
Proof. by vm_compute. Qed.
