(* ===== verification/HtmlAttribute.v ===== *)
(** * HTML: the attributes of an element

    src/pagespeed/kernel/html/html_element.cc: an attribute keeps the value as it stands in
    the document and, once it has been asked for, the decoded value; setting either keeps
    the other in step and puts quotes around a value that needs them.

    [raw] is what the lexer reads and the writer writes; a pointer to a value is an
    [option]. A value is kept with its length and read as a C string. *)

From S2P Require Import Prelude StringUtil HtmlKeywords HtmlLexer HtmlEvents.

(** ** Attributes *)

Record CachedAttribute := mkCached {
  raw : Attribute;
  decoding_error_ : bool;
  decoded_value_computed_ : bool;
  decoded_value_ : option bytes;
}.

Definition new_Attribute (name : HtmlName) (escaped : option bytes) (quote : QuoteStyle) : CachedAttribute :=
  mkCached (mkAttribute name escaped quote) false false None.

Definition needs_quotes_char (c : ascii) : bool :=
  one_of [" "%char; tab; nl; ff; cr; dquote; squote; "<"%char; ">"%char; "`"%char] c.
Definition EscapedValueNeedsQuotes (escaped : bytes) : bool :=
  match escaped with [] => true | _ => existsb needs_quotes_char escaped end.

Definition QuoteStyleForEscapedValue (style : QuoteStyle) (escaped : option bytes) : QuoteStyle :=
  match style, c_str <$> escaped with
  | NO_QUOTE, Some v =>
      if EscapedValueNeedsQuotes v then
        if bool_decide (dquote ∈ v) && negb (bool_decide (squote ∈ v)) then SINGLE_QUOTE else DOUBLE_QUOTE
      else NO_QUOTE
  | _, _ => style
  end.

Definition ComputeDecodedValue (a : CachedAttribute) : CachedAttribute :=
  match escaped_value (raw a) with
  | None => mkCached (raw a) false true None
  | Some v =>
      match Unescape v with
      | Some decoded => mkCached (raw a) false true (Some decoded)
      | None => mkCached (raw a) true true None
      end
  end.
Definition compute (a : CachedAttribute) : CachedAttribute := if decoded_value_computed_ a then a else ComputeDecodedValue a.

(** [DecodedValueOrNull] and [decoding_error] *)
Definition cached_DecodedValueOrNull (a : CachedAttribute) : CachedAttribute * option bytes := let a := compute a in (a, c_str <$> decoded_value_ a).
Definition decoding_error (a : CachedAttribute) : CachedAttribute * bool := let a := compute a in (a, decoding_error_ a).

Definition SetValue (decoded : option bytes) (a : CachedAttribute) : CachedAttribute :=
  let escaped := Escape <$> decoded in
  mkCached (mkAttribute (attr_name (raw a)) escaped (QuoteStyleForEscapedValue (quote_style_ (raw a)) escaped)) false true decoded.
Definition SetEscapedValue (escaped : option bytes) (a : CachedAttribute) : CachedAttribute :=
  mkCached (mkAttribute (attr_name (raw a)) escaped (QuoteStyleForEscapedValue (quote_style_ (raw a)) escaped)) false false None.
Definition set_name (name : HtmlName) (a : CachedAttribute) : CachedAttribute :=
  mkCached (mkAttribute name (escaped_value_ (raw a)) (quote_style_ (raw a))) (decoding_error_ a) (decoded_value_computed_ a) (decoded_value_ a).
Definition set_quote_style (quote : QuoteStyle) (a : CachedAttribute) : CachedAttribute :=
  mkCached (mkAttribute (attr_name (raw a)) (escaped_value_ (raw a)) quote) (decoding_error_ a) (decoded_value_computed_ a) (decoded_value_ a).

(** ** The attributes of an element *)

Abbreviation Attributes := (list CachedAttribute) (only parsing).

(** The copy of an attribute; a [StringPiece] of a null pointer is undefined. *)
Definition copy_Attribute (src : CachedAttribute) : option CachedAttribute :=
  let a := new_Attribute (attr_name (raw src)) (escaped_value (raw src)) (quote_style_ (raw src)) in
  if decoded_value_computed_ src then
    v ← c_str <$> decoded_value_ src; Some (mkCached (raw a) (decoding_error_ src) true (Some v))
  else Some a.

(** The overloads of [AddAttribute] *)
Definition AddCopy (src : CachedAttribute) (attrs : Attributes) : option (list CachedAttribute) := a ← copy_Attribute src; Some (attrs ++ [a]).
Definition AddAttribute (name : HtmlName) (decoded : option bytes) (quote : QuoteStyle) (attrs : Attributes) : list CachedAttribute :=
  attrs ++ [mkCached (mkAttribute name (Escape <$> decoded) quote) false true decoded].
Definition AddEscapedAttribute (name : HtmlName) (escaped : option bytes) (quote : QuoteStyle) (attrs : Attributes) : list CachedAttribute :=
  attrs ++ [new_Attribute name escaped quote].

(** [DeleteAttribute] and [FindAttribute], by keyword or by name: the first one counts. *)
Definition by_keyword (k : Keyword) (a : CachedAttribute) : bool := bool_decide (keyword_ (attr_name (raw a)) = k).
Definition by_name (name : bytes) (a : CachedAttribute) : bool := bool_decide (str_ (attr_name (raw a)) = name).

Fixpoint DeleteAttribute (p : CachedAttribute -> bool) (attrs : Attributes) : list CachedAttribute * bool :=
  match attrs with
  | [] => ([], false)
  | a :: attrs => if p a then (attrs, true) else let '(attrs, deleted) := DeleteAttribute p attrs in (a :: attrs, deleted)
  end.
Definition FindAttribute (p : CachedAttribute -> bool) (attrs : Attributes) : option CachedAttribute := snd <$> list_find (fun a => p a = true) attrs.
Definition HasAttribute (k : Keyword) (attrs : Attributes) : bool := bool_decide (is_Some (FindAttribute (by_keyword k) attrs)).
Definition EscapedAttributeValue (k : Keyword) (attrs : Attributes) : option bytes := a ← FindAttribute (by_keyword k) attrs; escaped_value (raw a).

(** The attribute that is looked at keeps its decoded value. *)
Fixpoint AttributeValue (k : Keyword) (attrs : Attributes) : list CachedAttribute * option bytes :=
  match attrs with
  | [] => ([], None)
  | a :: attrs =>
      if by_keyword k a then let '(a, v) := cached_DecodedValueOrNull a in (a :: attrs, v)
      else let '(attrs, v) := AttributeValue k attrs in (a :: attrs, v)
  end.

(** ** What escaping leaves *)

Definition plain_char (c : ascii) : bool := negb (c =c chr 0) && negb (c =c dquote) && negb (c =c squote) && negb (c =c "<"%char) && negb (c =c ">"%char).

Lemma Escape_char_chars c : forallb plain_char (Escape_char c) = true.
Proof. destruct c as [[] [] [] [] [] [] [] []]; reflexivity. Qed.

Lemma Escape_chars s c : c ∈ Escape s -> plain_char c = true.
Proof.
  unfold Escape. rewrite list_elem_of_bind. intros (c' & Hc & _). pose proof (Escape_char_chars c') as H.
  rewrite forallb_forall in H. by apply H, list_elem_of_In.
Qed.

Lemma c_str_id s : chr 0 ∉ s -> c_str s = s.
Proof.
  induction s as [|c s IH]; cbn; [done|]. rewrite not_elem_of_cons. intros [Hc Hs].
  rewrite bool_decide_eq_false_2 by congruence. by rewrite IH.
Qed.

Lemma c_str_no_nul s : chr 0 ∉ c_str s.
Proof.
  induction s as [|c s IH]; cbn; [apply not_elem_of_nil|]. case_bool_decide as Hc; [apply not_elem_of_nil|].
  apply not_elem_of_cons. split; [congruence|done].
Qed.

Lemma c_str_idemp s : c_str (c_str s) = c_str s.
Proof. apply c_str_id, c_str_no_nul. Qed.

Lemma plain_Escape s c : plain_char c = false -> c ∉ Escape s.
Proof. intros Hc Hi. apply Escape_chars in Hi. congruence. Qed.

Lemma c_str_Escape s : c_str (Escape s) = Escape s.
Proof. apply c_str_id, plain_Escape. reflexivity. Qed.

(** ** The decoded value is kept in step *)

Definition undecodable (r : Attribute) : bool := match escaped_value r with Some v => bool_decide (Unescape v = None) | None => false end.

Definition coherent (a : CachedAttribute) : Prop :=
  decoded_value_computed_ a = true -> c_str <$> decoded_value_ a = DecodedValueOrNull (raw a) /\ decoding_error_ a = undecodable (raw a).

Lemma compute_raw a : raw (compute a) = raw a.
Proof.
  unfold compute. destruct (decoded_value_computed_ a); [done|]. unfold ComputeDecodedValue.
  destruct (escaped_value (raw a)) as [v|]; [|done]. by destruct (Unescape v).
Qed.

Lemma compute_coherent a : coherent a -> coherent (compute a) /\ decoded_value_computed_ (compute a) = true.
Proof.
  intros Ha. unfold compute. destruct (decoded_value_computed_ a) eqn:E; [done|]. unfold ComputeDecodedValue, coherent, DecodedValueOrNull, undecodable.
  destruct (escaped_value (raw a)) as [v|] eqn:Ev; cbn; rewrite ?Ev; [|done]. cbn. destruct (Unescape v) eqn:Eu; cbn; by rewrite ?Ev; cbn; rewrite ?Eu.
Qed.

Lemma coherent_look a : coherent a ->
  let '(a', v) := cached_DecodedValueOrNull a in coherent a' /\ raw a' = raw a /\ v = DecodedValueOrNull (raw a) /\
    decoding_error a = (a', undecodable (raw a)).
Proof.
  intros Ha. destruct (compute_coherent a Ha) as [Hc Ec]. unfold cached_DecodedValueOrNull, decoding_error.
  destruct (Hc Ec) as [H1 H2]. rewrite compute_raw in *. split; [done|]. split; [done|]. split; [done|]. by rewrite H2.
Qed.

Lemma DecodedValue_Escape name v q : DecodedValueOrNull (mkAttribute name (Escape <$> v) q) = c_str <$> v /\ undecodable (mkAttribute name (Escape <$> v) q) = false.
Proof.
  unfold DecodedValueOrNull, undecodable, escaped_value. cbn. destruct v as [v|]; [|done]. cbn. rewrite c_str_Escape.
  pose proof (Unescape_Escape v) as H. rewrite H. split; [done|]. by apply bool_decide_eq_false_2.
Qed.

Lemma coherent_new name e q : coherent (new_Attribute name e q).
Proof. done. Qed.
Lemma coherent_SetValue v a : coherent (SetValue v a).
Proof. intros _. split; symmetry; apply DecodedValue_Escape. Qed.
Lemma coherent_same a r : coherent a -> escaped_value_ r = escaped_value_ (raw a) -> coherent (mkCached r (decoding_error_ a) (decoded_value_computed_ a) (decoded_value_ a)).
Proof. intros Ha Hr E. unfold coherent, DecodedValueOrNull, undecodable, escaped_value in *. cbn in *. rewrite Hr. by apply Ha. Qed.

Lemma coherent_copy a a' : coherent a -> copy_Attribute a = Some a' ->
  coherent a' /\ raw a' = mkAttribute (attr_name (raw a)) (escaped_value (raw a)) (quote_style_ (raw a)).
Proof.
  unfold copy_Attribute. intros Ha. destruct (decoded_value_computed_ a) eqn:E; [|by intros [= <-]].
  destruct (Ha E) as [H1 H2]. destruct (decoded_value_ a) as [d|]; [|done]. cbn. intros [= <-]. split; [|done]. intros _.
  cbn in *. unfold DecodedValueOrNull, undecodable, escaped_value in *. cbn. rewrite c_str_idemp, H1, H2.
  destruct (escaped_value_ (raw a)) as [v|]; [|done]. cbn. by rewrite c_str_idemp.
Qed.

(** ** Without the decoded value

    The operations on what the writer sees alone. *)

Inductive AttrOp :=
| Value_set (i : nat) (decoded : option bytes)
| Escaped_set (i : nat) (escaped : option bytes)
| Renamed (i : nat) (name : HtmlName)
| Requoted (i : nat) (quote : QuoteStyle)
| Looked_at (i : nat)
| Asked_error (i : nat)
| Copied (i : nat)
| Added (name : HtmlName) (decoded : option bytes) (quote : QuoteStyle)
| Added_escaped (name : HtmlName) (escaped : option bytes) (quote : QuoteStyle)
| Deleted (k : Keyword + bytes)
| Asked (k : Keyword)
| Asked_escaped (k : Keyword).

Inductive Answer := Nothing | Value (v : option bytes) | Flag (b : bool).

Definition chosen (k : Keyword + bytes) : CachedAttribute -> bool := match k with inl k => by_keyword k | inr name => by_name name end.
Definition update (i : nat) (f : CachedAttribute -> CachedAttribute) (attrs : list CachedAttribute) : option (list CachedAttribute * Answer) :=
  a ← attrs !! i; Some (<[i := f a]> attrs, Nothing).

Definition attr_op (op : AttrOp) (attrs : list CachedAttribute) : option (list CachedAttribute * Answer) :=
  match op with
  | Value_set i v => update i (SetValue v) attrs
  | Escaped_set i e => update i (SetEscapedValue e) attrs
  | Renamed i n => update i (set_name n) attrs
  | Requoted i q => update i (set_quote_style q) attrs
  | Looked_at i => a ← attrs !! i; let '(a, v) := cached_DecodedValueOrNull a in Some (<[i := a]> attrs, Value v)
  | Asked_error i => a ← attrs !! i; let '(a, b) := decoding_error a in Some (<[i := a]> attrs, Flag b)
  | Copied i => a ← attrs !! i; attrs ← AddCopy a attrs; Some (attrs, Nothing)
  | Added n v q => Some (AddAttribute n v q attrs, Nothing)
  | Added_escaped n e q => Some (AddEscapedAttribute n e q attrs, Nothing)
  | Deleted k => let '(attrs, b) := DeleteAttribute (chosen k) attrs in Some (attrs, Flag b)
  | Asked k => let '(attrs, v) := AttributeValue k attrs in Some (attrs, Value v)
  | Asked_escaped k => Some (attrs, Value (EscapedAttributeValue k attrs))
  end.

Definition raw_by (k : Keyword + bytes) (r : Attribute) : bool :=
  match k with inl k => bool_decide (keyword_ (attr_name r) = k) | inr name => bool_decide (str_ (attr_name r) = name) end.
Definition raw_find (k : Keyword + bytes) (l : list Attribute) : option (nat * Attribute) := list_find (fun r => raw_by k r = true) l.
Definition raw_update (i : nat) (f : Attribute -> Attribute) (l : list Attribute) : option (list Attribute * Answer) := r ← l !! i; Some (<[i := f r]> l, Nothing).
Definition raw_escaped (escaped : option bytes) (r : Attribute) : Attribute :=
  mkAttribute (attr_name r) escaped (QuoteStyleForEscapedValue (quote_style_ r) escaped).

Definition raw_op (op : AttrOp) (l : list Attribute) : option (list Attribute * Answer) :=
  match op with
  | Value_set i v => raw_update i (raw_escaped (Escape <$> v)) l
  | Escaped_set i e => raw_update i (raw_escaped e) l
  | Renamed i n => raw_update i (fun r => mkAttribute n (escaped_value_ r) (quote_style_ r)) l
  | Requoted i q => raw_update i (fun r => mkAttribute (attr_name r) (escaped_value_ r) q) l
  | Looked_at i => r ← l !! i; Some (l, Value (DecodedValueOrNull r))
  | Asked_error i => r ← l !! i; Some (l, Flag (undecodable r))
  | Copied i => r ← l !! i; Some (l ++ [mkAttribute (attr_name r) (escaped_value r) (quote_style_ r)], Nothing)
  | Added n v q => Some (l ++ [mkAttribute n (Escape <$> v) q], Nothing)
  | Added_escaped n e q => Some (l ++ [mkAttribute n e q], Nothing)
  | Deleted k => match raw_find k l with Some (i, _) => Some (take i l ++ drop (S i) l, Flag true) | None => Some (l, Flag false) end
  | Asked k => Some (l, Value (r ← raw_find (inl k) l; DecodedValueOrNull r.2))
  | Asked_escaped k => Some (l, Value (r ← raw_find (inl k) l; escaped_value r.2))
  end.

Lemma chosen_raw k a : chosen k a = raw_by k (raw a).
Proof. by destruct k. Qed.

Lemma update_ok i f g attrs attrs' out :
  (forall a, raw (f a) = g (raw a)) -> (forall a, coherent a -> coherent (f a)) -> Forall coherent attrs -> update i f attrs = Some (attrs', out) ->
  Forall coherent attrs' /\ raw_update i g (raw <$> attrs) = Some (raw <$> attrs', out).
Proof.
  intros Hf Hc Ha (a & Hi & [= <- <-])%bind_Some. unfold raw_update. rewrite list_lookup_fmap, Hi. cbn. rewrite list_fmap_insert, Hf.
  split; [|done]. apply Forall_insert; [done|]. apply Hc. by apply (Forall_lookup_1 _ _ _ _ Ha Hi).
Qed.

Lemma look_ok i a a' attrs : attrs !! i = Some a -> raw a' = raw a -> coherent a' -> Forall coherent attrs ->
  Forall coherent (<[i := a']> attrs) /\ raw <$> <[i := a']> attrs = raw <$> attrs.
Proof.
  intros Hi Hr Hc Ha. split; [by apply Forall_insert|]. rewrite list_fmap_insert, Hr. apply list_insert_id. by rewrite list_lookup_fmap, Hi.
Qed.

Lemma raw_find_cons k r l : raw_find k (r :: l) = if raw_by k r then Some (O, r) else prod_map S id <$> raw_find k l.
Proof. unfold raw_find. cbn. destruct (raw_by k r); [by rewrite decide_True|by rewrite decide_False]. Qed.

Lemma DeleteAttribute_ok k attrs attrs' b :
  Forall coherent attrs -> DeleteAttribute (chosen k) attrs = (attrs', b) ->
  Forall coherent attrs' /\ raw_op (Deleted k) (raw <$> attrs) = Some (raw <$> attrs', Flag b).
Proof.
  intros Ha. revert attrs' b. induction Ha as [|a attrs Hc Ha IH]; intros attrs' b; cbn [DeleteAttribute]; [by intros [= <- <-]|].
  cbn [raw_op fmap list_fmap]. rewrite raw_find_cons, <- chosen_raw. destruct (chosen k a); [by intros [= <- <-]|].
  destruct (DeleteAttribute (chosen k) attrs) as [attrs1 b1]. intros [= <- <-]. destruct (IH attrs1 b1 eq_refl) as [H1 H2].
  split; [by constructor|]. cbn [raw_op] in H2. destruct (raw_find k (raw <$> attrs)) as [[i r]|]; cbn; injection H2 as <- <-; done.
Qed.

Lemma AttributeValue_ok k attrs attrs' v :
  Forall coherent attrs -> AttributeValue k attrs = (attrs', v) ->
  Forall coherent attrs' /\ raw_op (Asked k) (raw <$> attrs) = Some (raw <$> attrs', Value v).
Proof.
  intros Ha. revert attrs' v. induction Ha as [|a attrs Hc Ha IH]; intros attrs' v; cbn [AttributeValue]; [by intros [= <- <-]|].
  cbn [raw_op fmap list_fmap]. rewrite raw_find_cons. change (raw_by (inl k) (raw a)) with (by_keyword k a). destruct (by_keyword k a).
  - pose proof (coherent_look a Hc) as Hl. destruct (cached_DecodedValueOrNull a) as [a' v']. destruct Hl as (H1 & H2 & H3 & _).
    intros [= <- <-]. split; [by constructor|]. cbn. by rewrite H2, H3.
  - destruct (AttributeValue k attrs) as [attrs1 v1]. intros [= <- <-]. destruct (IH attrs1 v1 eq_refl) as [H1 H2]. split; [by constructor|].
    cbn [raw_op] in H2. injection H2 as H2 H3. cbn. rewrite <- H2, <- H3. by destruct (raw_find (inl k) (raw <$> attrs)) as [[i r]|].
Qed.

Lemma EscapedAttributeValue_ok k attrs : EscapedAttributeValue k attrs = (r ← raw_find (inl k) (raw <$> attrs); escaped_value r.2).
Proof.
  unfold EscapedAttributeValue, FindAttribute. induction attrs as [|a attrs IH]; [done|]. cbn [fmap list_fmap]. rewrite raw_find_cons.
  change (raw_by (inl k) (raw a)) with (by_keyword k a). cbn [list_find]. destruct (by_keyword k a); [by rewrite decide_True|].
  rewrite decide_False by done. destruct (list_find _ attrs) as [[i b]|]; cbn in *; rewrite IH; by destruct (raw_find (inl k) (raw <$> attrs)) as [[? ?]|].
Qed.

Lemma attr_op_ok op attrs attrs' out :
  Forall coherent attrs -> attr_op op attrs = Some (attrs', out) ->
  Forall coherent attrs' /\ raw_op op (raw <$> attrs) = Some (raw <$> attrs', out).
Proof.
  intros Ha H. destruct op as [i v|i e|i n|i q|i|i|i|n v q|n e q|k|k|k]; cbn [attr_op] in H.
  - eapply update_ok; [..|exact H]; [done|intros; apply coherent_SetValue|done].
  - eapply update_ok; [..|exact H]; done.
  - eapply update_ok; [..|exact H]; [done|intros; by apply coherent_same|done].
  - eapply update_ok; [..|exact H]; [done|intros; by apply coherent_same|done].
  - apply bind_Some in H as (a & Hi & H). pose proof (coherent_look a (Forall_lookup_1 _ _ _ _ Ha Hi)) as Hl.
    destruct (cached_DecodedValueOrNull a) as [a' v]. destruct Hl as (H1 & H2 & -> & _). injection H as <- <-.
    destruct (look_ok i a a' attrs Hi H2 H1 Ha) as [? ->]. split; [done|]. cbn. by rewrite list_lookup_fmap, Hi.
  - apply bind_Some in H as (a & Hi & H). pose proof (coherent_look a (Forall_lookup_1 _ _ _ _ Ha Hi)) as Hl.
    destruct (cached_DecodedValueOrNull a) as [a' v]. destruct Hl as (H1 & H2 & _ & H3). rewrite H3 in H. injection H as <- <-.
    destruct (look_ok i a a' attrs Hi H2 H1 Ha) as [? ->]. split; [done|]. cbn. by rewrite list_lookup_fmap, Hi.
  - apply bind_Some in H as (a & Hi & H). apply bind_Some in H as (attrs1 & Hc & [= <- <-]). apply bind_Some in Hc as (a' & Hc & [= <-]).
    destruct (coherent_copy a a' (Forall_lookup_1 _ _ _ _ Ha Hi) Hc) as [H1 H2]. split; [apply Forall_app; split; [done|by apply Forall_singleton]|].
    cbn. rewrite list_lookup_fmap, Hi, fmap_app. cbn. by rewrite H2.
  - injection H as <- <-. unfold AddAttribute. split; [|by rewrite fmap_app]. apply Forall_app. split; [done|]. apply Forall_singleton. intros _. split; symmetry; apply DecodedValue_Escape.
  - injection H as <- <-. unfold AddEscapedAttribute. split; [|by rewrite fmap_app]. apply Forall_app. split; [done|]. by apply Forall_singleton.
  - destruct (DeleteAttribute (chosen k) attrs) as [attrs1 b] eqn:E. injection H as <- <-. by apply DeleteAttribute_ok.
  - destruct (AttributeValue k attrs) as [attrs1 v] eqn:E. injection H as <- <-. by apply AttributeValue_ok.
  - injection H as <- <-. split; [done|]. cbn. by rewrite EscapedAttributeValue_ok.
Qed.

Fixpoint run_attrs (ops : list AttrOp) (attrs : list CachedAttribute) : option (list CachedAttribute * list Answer) :=
  match ops with
  | [] => Some (attrs, [])
  | op :: ops => '(attrs, a) ← attr_op op attrs; '(attrs, answers) ← run_attrs ops attrs; Some (attrs, a :: answers)
  end.
Fixpoint raw_run (ops : list AttrOp) (l : list Attribute) : option (list Attribute * list Answer) :=
  match ops with
  | [] => Some (l, [])
  | op :: ops => '(l, a) ← raw_op op l; '(l, answers) ← raw_run ops l; Some (l, a :: answers)
  end.

Lemma run_attrs_ok ops attrs attrs' answers :
  Forall coherent attrs -> run_attrs ops attrs = Some (attrs', answers) ->
  Forall coherent attrs' /\ raw_run ops (raw <$> attrs) = Some (raw <$> attrs', answers).
Proof.
  revert attrs answers. induction ops as [|op ops IH]; intros attrs answers Ha; cbn; [by intros [= -> <-]|].
  intros ([attrs1 a] & H1 & ([attrs2 l] & H2 & [= -> <-])%bind_Some)%bind_Some.
  destruct (attr_op_ok op attrs attrs1 a Ha H1) as [Ha1 ->]. destruct (IH attrs1 l Ha1 H2) as [Ha2 H]. cbn. by rewrite H.
Qed.

(** What can go wrong: an attribute that was asked for its value, and has none that can be
    decoded, is copied. *)
Lemma attr_op_None op attrs :
  Forall coherent attrs -> attr_op op attrs = None ->
  raw_op op (raw <$> attrs) = None \/
  exists i a, op = Copied i /\ attrs !! i = Some a /\ decoded_value_computed_ a = true /\ DecodedValueOrNull (raw a) = None.
Proof.
  intros Ha H. destruct op as [i v|i e|i n|i q|i|i|i|n v q|n e q|k|k|k]; cbn [attr_op raw_op] in *; unfold update, raw_update in *;
    rewrite ?list_lookup_fmap; try (destruct (attrs !! i) as [a|] eqn:Hi; cbn in H; [|by left]); try done.
  - right. exists i, a. do 2 (split; [done|]). unfold AddCopy, copy_Attribute in H. pose proof (Forall_lookup_1 _ _ _ _ Ha Hi) as Hc. unfold coherent in Hc.
    destruct (decoded_value_computed_ a); [|done]. split; [done|]. destruct (Hc eq_refl) as [<- _]. by destruct (decoded_value_ a).
  - by destruct (DeleteAttribute (chosen k) attrs).
  - by destruct (AttributeValue k attrs).
Qed.

(** Some operation of the sequence copies an attribute that was asked for its value and has
    none that can be decoded. *)
Definition copies_valueless (ops : list AttrOp) (attrs : list CachedAttribute) : Prop :=
  exists before i more attrs' out a, ops = before ++ Copied i :: more /\ run_attrs before attrs = Some (attrs', out) /\
    attrs' !! i = Some a /\ decoded_value_computed_ a = true /\ DecodedValueOrNull (raw a) = None.

Lemma run_attrs_None ops : forall attrs,
  Forall coherent attrs -> run_attrs ops attrs = None -> raw_run ops (raw <$> attrs) = None \/ copies_valueless ops attrs.
Proof.
  induction ops as [|op ops IH]; intros attrs Ha H; [done|]. cbn in H |- *. destruct (attr_op op attrs) as [[attrs1 out]|] eqn:E; cbn in H.
  - destruct (attr_op_ok op attrs attrs1 out Ha E) as [Ha1 ->]. cbn. destruct (run_attrs ops attrs1) as [[attrs2 outs]|] eqn:E1; [done|].
    destruct (IH attrs1 Ha1 E1) as [->|(before & i & more & attrs' & outs & a & -> & Hr & H1)]; [by left|right].
    exists (op :: before), i, more, attrs', (out :: outs), a. split; [done|]. split; [|done]. cbn. by rewrite E; cbn; rewrite Hr.
  - destruct (attr_op_None op attrs Ha E) as [->|(i & a & -> & H1)]; [by left|right]. by exists [], i, ops, attrs, [], a.
Qed.


Definition some_ops : list AttrOp :=
  [Added_escaped (MakeName (lit "href")) (Some (lit "a?b&amp;c")) DOUBLE_QUOTE; Added (MakeName (lit "alt")) (Some (lit "<")) NO_QUOTE; Looked_at 0; Copied 0;
   Added_escaped (MakeName (lit "disabled")) None NO_QUOTE; Escaped_set 0 (Some (lit "x y")); Looked_at 0; Value_set 2 (Some (lit "'")); Asked (Some (lit "alt"));
   Deleted (inl (Some (lit "href"))); Asked_error 2].

Example some_ops_run :
  exists attrs, length attrs = 3%nat /\
    run_attrs some_ops [] = Some (attrs, [Nothing; Nothing; Value (Some (lit "a?b&c")); Nothing; Nothing; Nothing; Value (Some (lit "x y")); Nothing;
      Value (Some (lit "<")); Flag true; Flag false]).
Proof. eexists. split; [|vm_compute; reflexivity]. reflexivity. Qed.

(** An attribute without a value is copied after it was asked for its value: the null
    pointer becomes a string. *)
Example copy_of_valueless_attribute :
  attr_op (Copied 0) [new_Attribute (MakeName (lit "disabled")) None NO_QUOTE] <> None /\
  run_attrs [Added_escaped (MakeName (lit "disabled")) None NO_QUOTE; Looked_at 0; Copied 0] [] = None.
Proof. split; [discriminate|reflexivity]. Qed.

(** ** Values fit their quotes *)

Lemma Escape_value q s : q <> NO_QUOTE -> attribute_value q (Escape s).
Proof. destruct q; [done|..]; intros _; cbn; apply plain_Escape; reflexivity. Qed.

Lemma needs_no_quotes v : EscapedValueNeedsQuotes v = false -> v <> [] /\ attribute_value NO_QUOTE v.
Proof.
  unfold EscapedValueNeedsQuotes. destruct v as [|c v]; [done|]. intros H. split; [done|].
  assert (Hn : forall c', c' ∈ c :: v -> needs_quotes_char c' = false).
  { intros c' Hc. destruct (needs_quotes_char c') eqn:E; [|done]. rewrite <- H. symmetry. apply existsb_exists. exists c'. split; [by apply list_elem_of_In|done]. }
  assert (Hv : forall c', needs_quotes_char c' = false -> ends_value c' = false /\ c' <> dquote /\ c' <> squote).
  { intros c' Hc. destruct c' as [[] [] [] [] [] [] [] []]; try done; repeat split; discriminate. }
  split; [apply Forall_forall; intros c' Hc; by apply Hv, Hn|]. intros c0 v' [= <- <-]. apply Hv, Hn. by left.
Qed.

(** The style that is chosen for a value suits it, whether the value was escaped here or
    comes with at most one kind of quote. *)
Lemma QuoteStyle_suits q v :
  (q <> NO_QUOTE -> attribute_value q v) -> dquote ∉ v \/ squote ∉ v -> chr 0 ∉ v ->
  attribute_value (QuoteStyleForEscapedValue q (Some v)) v /\ (QuoteStyleForEscapedValue q (Some v) = NO_QUOTE -> v <> []).
Proof.
  intros Hq Hv Hn. unfold QuoteStyleForEscapedValue. cbn. rewrite c_str_id by done. destruct q; [|split; [by apply Hq|done]..].
  destruct (EscapedValueNeedsQuotes v) eqn:E; [|split; [by apply needs_no_quotes|intros _; by apply needs_no_quotes]].
  repeat case_bool_decide; cbn; split; try done. by destruct Hv.
Qed.
