(* ===== verification/HtmlAttributeRead.v ===== *)
(** * HTML: attributes are read back as they were written

    The text that the writer makes of the attributes of an element, given to the lexer
    inside a start tag, is read as the same attributes. *)

From S2P Require Import Prelude StringUtil HtmlKeywords HtmlLexer HtmlWriter HtmlEvents HtmlStack HtmlTags HtmlLexerInv HtmlTagStates HtmlChunks HtmlLexerSpec HtmlWriterSpec HtmlAttribute.

(** ** Attributes that can be read *)

Definition plain_name (n : bytes) : Prop := n <> [] /\ Forall (fun c => ends_attr_name c || (c =c "="%char) = false) n.

Definition readable (a : Attribute) : Prop :=
  attr_name a = MakeName (str_ (attr_name a)) /\ plain_name (str_ (attr_name a)) /\
  match escaped_value a with
  | Some v => attribute_value (quote_style_ a) v /\ (quote_style_ a = NO_QUOTE -> v <> [])
  | None => True
  end.

(** What of an attribute can be seen in its text. *)
Definition visible (a : Attribute) : Attribute :=
  mkAttribute (attr_name a) (escaped_value a) (match escaped_value a with Some _ => quote_style_ a | None => NO_QUOTE end).

(** ** The lexer in a tag *)

Section read.
Context (x : HtmlLexer) (e : nat) (el : HtmlElement).
Hypothesis Hel : element_ x = Some e.
Hypothesis Hn : nodes_ x !! e = Some el.
Hypothesis Hd : discard_until_start_state_for_error_recovery_ x = false.
Hypothesis Hskip : skip_parsing_ x = false.
Hypothesis Htok : token_ x = [].

Definition add_attributes (attrs : list Attribute) (el : HtmlElement) : HtmlElement :=
  mkElement (parent_ el) (name_ el) (attributes_ el ++ attrs) (style_ el).
Definition with_attributes (attrs : list Attribute) : list HtmlElement := alter (add_attributes attrs) e (nodes_ x).

(** The lexer in the tag of [e], with [attrs] added to it and [l] read so far. *)
Definition in_tag (st : State) (n v : bytes) (q : QuoteStyle) (hv : bool) (l : bytes) (attrs : list Attribute) : HtmlLexer :=
  mkLexer (queue_ x) (with_attributes attrs) st [] l n v q hv (Some e) (literal_close_ x) (script_escape_state_ x) false (element_stack_ x)
    (size_limit_exceeded_ x) false (num_bytes_parsed_ x) (size_limit_ x).
Definition between (l : bytes) (attrs : list Attribute) (n v : bytes) : HtmlLexer := in_tag TAG_ATTRIBUTE n v NO_QUOTE false l attrs.

Lemma with_attributes_lookup attrs : with_attributes attrs !! e = Some (add_attributes attrs el).
Proof. unfold with_attributes. by rewrite list_lookup_alter_eq, Hn. Qed.

Lemma with_attributes_more attrs a : alter (HtmlLexer.AddEscapedAttribute a) e (with_attributes attrs) = with_attributes (attrs ++ [a]).
Proof.
  unfold with_attributes. rewrite list_alter_alter_eq. apply list_alter_ext; [|done]. intros el' _. unfold compose, add_attributes, HtmlLexer.AddEscapedAttribute. cbn.
  by rewrite app_assoc.
Qed.

Lemma MakeAttribute_in_tag st n v q (hv : bool) l attrs :
  (hv = false -> v = []) ->
  MakeAttribute hv (in_tag st n v q hv l attrs) =
  Some (between l (attrs ++ [mkAttribute (MakeName n) (if hv then Some v else None) q]) [] []).
Proof.
  intros Hv. unfold MakeAttribute. cbn [has_attr_value_ attr_value_ discard_until_start_state_for_error_recovery_ in_tag].
  rewrite Bool.eqb_reflx. cbn [negb]. assert (Hb : negb hv && negb (bool_decide (v = [])) = false).
  { destruct hv; [done|]. rewrite bool_decide_eq_true_2 by auto. done. }
  rewrite Hb. unfold in_tag, modify. cbn [mbind option_bind element_ nodes_]. rewrite with_attributes_lookup. cbn [mbind option_bind nodes_].
  rewrite with_attributes_more. done.
Qed.

(** ** Byte by byte *)

Definition kept (c : ascii) : bool := negb (ends_attr_name c || (c =c "="%char)).

Lemma kept_char c : kept c = true ->
  (c =c "="%char) = false /\ IsHtmlSpace c = false /\ (c =c ">"%char) = false /\ (c =c "/"%char) = false.
Proof. unfold kept, ends_attr_name. rewrite negb_true_iff, !orb_false_iff. tauto. Qed.

Lemma space_char c : IsHtmlSpace c = true ->
  (c =c "="%char) = false /\ (c =c ">"%char) = false /\ (c =c "/"%char) = false /\ IsLegalAttrNameChar c = false /\ (c =c dquote) = false /\ (c =c squote) = false.
Proof. destruct c as [[] [] [] [] [] [] [] []]; done. Qed.

Lemma MakeElement_between l attrs n v : MakeElement (between l attrs n v) = Some (between l attrs n v).
Proof. done. Qed.

Lemma step_space l attrs n v c : IsHtmlSpace c = true ->
  Eval c (append_literal c (between l attrs n v)) = Some (between (l ++ [c]) attrs [] []).
Proof.
  intros Hc. destruct (space_char c Hc) as (_ & H1 & H2 & H3 & _). change (append_literal c (between l attrs n v)) with (between (l ++ [c]) attrs n v).
  unfold Eval. cbn [state_ between in_tag]. unfold EvalAttribute. cbn [discard_until_start_state_for_error_recovery_ between in_tag].
  rewrite MakeElement_between. cbn [mbind option_bind]. rewrite H1, H2, H3, Hc. done.
Qed.

Lemma step_first l attrs n v c : kept c = true ->
  Eval c (append_literal c (between l attrs n v)) = Some (in_tag TAG_ATTR_NAME [c] [] NO_QUOTE false (l ++ [c]) attrs).
Proof.
  intros Hc. destruct (kept_char c Hc) as (_ & H1 & H2 & H3). change (append_literal c (between l attrs n v)) with (between (l ++ [c]) attrs n v).
  unfold Eval. cbn [state_ between in_tag]. unfold EvalAttribute. cbn [discard_until_start_state_for_error_recovery_ between in_tag].
  rewrite MakeElement_between. cbn [mbind option_bind]. rewrite H2, H3, H1, orb_true_r. done.
Qed.

Lemma step_name l attrs n c : kept c = true ->
  Eval c (append_literal c (in_tag TAG_ATTR_NAME n [] NO_QUOTE false l attrs)) = Some (in_tag TAG_ATTR_NAME (n ++ [c]) [] NO_QUOTE false (l ++ [c]) attrs).
Proof.
  intros Hc. destruct (kept_char c Hc) as (H0 & H1 & H2 & H3). unfold Eval. cbn [state_ append_literal set_literal in_tag].
  unfold EvalAttrName, HandleAttributeEnd. rewrite H0, H1, H2, H3. done.
Qed.

Lemma step_equals l attrs n :
  Eval "=" (append_literal "=" (in_tag TAG_ATTR_NAME n [] NO_QUOTE false l attrs)) = Some (in_tag TAG_ATTR_EQ n [] NO_QUOTE true (l ++ ["="%char]) attrs).
Proof. done. Qed.

Lemma step_bare l attrs n c : IsHtmlSpace c = true ->
  Eval c (append_literal c (in_tag TAG_ATTR_NAME n [] NO_QUOTE false l attrs)) = Some (in_tag TAG_ATTR_NAME_SPACE n [] NO_QUOTE false (l ++ [c]) attrs).
Proof.
  intros Hc. destruct (space_char c Hc) as (H0 & _). unfold Eval. cbn [state_ append_literal set_literal in_tag].
  unfold EvalAttrName, HandleAttributeEnd. rewrite H0, Hc. done.
Qed.

(** After a name without a value the next name begins. *)
Lemma step_next l attrs n c : kept c = true ->
  Eval c (append_literal c (in_tag TAG_ATTR_NAME_SPACE n [] NO_QUOTE false l attrs)) =
  Some (in_tag TAG_ATTR_NAME [c] [] NO_QUOTE false (l ++ [c]) (attrs ++ [mkAttribute (MakeName n) None NO_QUOTE])).
Proof.
  intros Hc. destruct (kept_char c Hc) as (H0 & H1 & H2 & H3). unfold Eval. cbn [state_ append_literal set_literal in_tag].
  unfold EvalAttrNameSpace, HandleAttributeEnd. rewrite H0, H1, H2, H3. cbn [mbind option_bind].
  change (append_literal c (in_tag TAG_ATTR_NAME_SPACE n [] NO_QUOTE false l attrs)) with (in_tag TAG_ATTR_NAME_SPACE n [] NO_QUOTE false (l ++ [c]) attrs).
  rewrite MakeAttribute_in_tag by done. done.
Qed.

Lemma step_value l attrs n v c : ends_value c = false -> v <> [] \/ (c <> dquote /\ c <> squote) ->
  Eval c (append_literal c (in_tag (if decide (v = []) then TAG_ATTR_EQ else TAG_ATTR_VAL) n v NO_QUOTE true l attrs)) =
  Some (in_tag TAG_ATTR_VAL n (v ++ [c]) NO_QUOTE true (l ++ [c]) attrs).
Proof.
  intros Hc Hv. assert (Hval : forall y, EvalAttrVal c y = Some (set_attr_value (attr_value_ y ++ [c]) y)).
  { intros y. unfold EvalAttrVal. unfold ends_value in Hc. by rewrite Hc. }
  unfold ends_value in Hc. apply orb_false_iff in Hc as [H1 H2]. unfold Eval. destruct (decide (v = [])) as [->|Hd0]; cbn [state_ append_literal set_literal in_tag].
  - destruct Hv as [[]|[Hq1 Hq2]]; [done|]. unfold EvalAttrEq. rewrite !bool_decide_eq_false_2 by done. rewrite H1.
    rewrite bool_decide_eq_false in H2. rewrite bool_decide_eq_false_2 by done. by rewrite Hval.
  - by rewrite Hval.
Qed.

Lemma step_value_end l attrs n v c : IsHtmlSpace c = true -> v <> [] ->
  Eval c (append_literal c (in_tag TAG_ATTR_VAL n v NO_QUOTE true l attrs)) =
  Some (between (l ++ [c]) (attrs ++ [mkAttribute (MakeName n) (Some v) NO_QUOTE]) [] []).
Proof.
  intros Hc Hv. unfold Eval. cbn [state_ append_literal set_literal in_tag]. unfold EvalAttrVal, FinishAttribute. rewrite Hc. cbn [orb].
  change (append_literal c (in_tag TAG_ATTR_VAL n v NO_QUOTE true l attrs)) with (in_tag TAG_ATTR_VAL n v NO_QUOTE true (l ++ [c]) attrs).
  rewrite MakeAttribute_in_tag by done. done.
Qed.

Definition quoted_state (q : QuoteStyle) : State := match q with SINGLE_QUOTE => TAG_ATTR_VALSQ | _ => TAG_ATTR_VALDQ end.
Definition quote_char (q : QuoteStyle) : ascii := match q with SINGLE_QUOTE => squote | _ => dquote end.

Lemma step_quote l attrs n q : q <> NO_QUOTE ->
  Eval (quote_char q) (append_literal (quote_char q) (in_tag TAG_ATTR_EQ n [] NO_QUOTE true l attrs)) =
  Some (in_tag (quoted_state q) n [] q true (l ++ [quote_char q]) attrs).
Proof. destruct q; done. Qed.

Lemma step_quoted l attrs n v q c : q <> NO_QUOTE -> c <> quote_char q ->
  Eval c (append_literal c (in_tag (quoted_state q) n v q true l attrs)) = Some (in_tag (quoted_state q) n (v ++ [c]) q true (l ++ [c]) attrs).
Proof.
  intros Hq Hc. destruct q; [done|..]; unfold Eval; cbn [state_ append_literal set_literal in_tag quoted_state]; unfold EvalAttrValQuoted;
    cbn in Hc; by rewrite bool_decide_eq_false_2.
Qed.

Lemma step_unquote l attrs n v q : q <> NO_QUOTE ->
  Eval (quote_char q) (append_literal (quote_char q) (in_tag (quoted_state q) n v q true l attrs)) =
  Some (between (l ++ [quote_char q]) (attrs ++ [mkAttribute (MakeName n) (Some v) q]) [] []).
Proof.
  intros Hq. destruct q; [done|..]; unfold Eval; cbn [state_ append_literal set_literal in_tag quoted_state quote_char]; unfold EvalAttrValQuoted;
    rewrite bool_decide_eq_true_2 by done; match goal with |- MakeAttribute true ?y = _ => change y with (in_tag (state_ y) n v (attr_quote_ y) true (literal_ y) attrs) end;
    by rewrite MakeAttribute_in_tag.
Qed.
(** ** Attribute by attribute *)

Definition parses (s : bytes) (y z : HtmlLexer) : Prop := forall t, Parse_loop (s ++ t) y = Parse_loop t z.

Lemma parses_app s t y z w : parses s y z -> parses t z w -> parses (s ++ t) y w.
Proof. intros H1 H2 u. by rewrite <- app_assoc, H1, H2. Qed.
Lemma parses_cons c s y z w : parses [c] y z -> parses s z w -> parses (c :: s) y w.
Proof. apply (parses_app [c]). Qed.

Lemma Parse_in_tag st n v q hv l attrs c t :
  (length n <= length l)%nat -> (length v <= length l)%nat -> Z.of_nat (length l) <= kMaxTokenSize ->
  Parse_loop (c :: t) (in_tag st n v q hv l attrs) = (z ← Eval c (append_literal c (in_tag st n v q hv l attrs)); Parse_loop t z).
Proof.
  intros Hn' Hv Hl. cbn [Parse_loop]. change (skip_parsing_ (in_tag st n v q hv l attrs)) with false.
  assert (Hb : forall s : bytes, (length s <= length l)%nat -> too_long s = false) by (intros s Hs; unfold too_long; apply Z.ltb_ge; lia).
  cbn [token_ attr_value_ literal_ attr_name_ in_tag]. by rewrite !Hb by (cbn; lia).
Qed.

Lemma parses_step st n v q hv l attrs c z :
  (length n <= length l)%nat -> (length v <= length l)%nat -> Z.of_nat (length l) <= kMaxTokenSize ->
  Eval c (append_literal c (in_tag st n v q hv l attrs)) = Some z -> parses [c] (in_tag st n v q hv l attrs) z.
Proof. intros Hn' Hv Hl HE t. cbn [app]. by rewrite Parse_in_tag, HE. Qed.

(** A run of bytes that are added to one buffer. *)
Lemma parses_run (f : bytes -> bytes -> HtmlLexer) (P : bytes -> ascii -> Prop) m s acc l :
  (forall acc c l, (m <= length l)%nat -> (length acc <= length l)%nat -> Z.of_nat (length l) <= kMaxTokenSize -> P acc c ->
     parses [c] (f acc l) (f (acc ++ [c]) (l ++ [c]))) ->
  (m <= length l)%nat -> (length acc <= length l)%nat -> Z.of_nat (length l + length s) <= kMaxTokenSize ->
  (forall i c, s !! i = Some c -> P (acc ++ take i s) c) -> parses s (f acc l) (f (acc ++ s) (l ++ s)).
Proof.
  intros Hf. revert acc l. induction s as [|c s IH]; intros acc l Hm Ha Hl HP; [by rewrite !app_nil_r|]. cbn [length] in Hl.
  eapply parses_cons; [apply Hf; [done|done|lia|]; specialize (HP O c eq_refl); by rewrite app_nil_r in HP|].
  replace (acc ++ c :: s) with ((acc ++ [c]) ++ s) by by rewrite <- app_assoc. replace (l ++ c :: s) with ((l ++ [c]) ++ s) by by rewrite <- app_assoc.
  apply IH; rewrite ?length_app; cbn; [lia..|]. intros i c' Hi. rewrite <- app_assoc. apply (HP (S i) c' Hi).
Qed.

(** What comes after the attributes: a value that is over, a name or a bare value. *)
Inductive settled (l : bytes) : list Attribute -> HtmlLexer -> Prop :=
| settled_between attrs n v : (length n <= length l)%nat -> (length v <= length l)%nat -> settled l attrs (between l attrs n v)
| settled_name attrs n : (length n <= length l)%nat ->
    settled l (attrs ++ [mkAttribute (MakeName n) None NO_QUOTE]) (in_tag TAG_ATTR_NAME n [] NO_QUOTE false l attrs)
| settled_value attrs n v : n <> [] -> v <> [] -> (length n <= length l)%nat -> (length v <= length l)%nat ->
    settled l (attrs ++ [mkAttribute (MakeName n) (Some v) NO_QUOTE]) (in_tag TAG_ATTR_VAL n v NO_QUOTE true l attrs).

Inductive spaced (l : bytes) : list Attribute -> HtmlLexer -> Prop :=
| spaced_between attrs : spaced l attrs (between l attrs [] [])
| spaced_name attrs n : (length n <= length l)%nat ->
    spaced l (attrs ++ [mkAttribute (MakeName n) None NO_QUOTE]) (in_tag TAG_ATTR_NAME_SPACE n [] NO_QUOTE false l attrs).

Lemma settled_space l attrs y : Z.of_nat (length l) <= kMaxTokenSize -> settled l attrs y ->
  exists z, spaced (l ++ [" "%char]) attrs z /\ parses [" "%char] y z.
Proof.
  intros Hl H. destruct H as [attrs n v Hn' Hv|attrs n Hn'|attrs n v _ Hv0 Hn' Hv].
  - exists (between (l ++ [" "%char]) attrs [] []). split; [constructor|]. apply parses_step; [done..|]. by apply step_space.
  - eexists. split; [apply (spaced_name _ attrs n); rewrite length_app; lia|]. apply parses_step; [done|cbn; lia|done|]. by apply step_bare.
  - eexists. split; [apply spaced_between|]. apply parses_step; [done..|]. by apply step_value_end.
Qed.

Lemma spaced_first l attrs y c : Z.of_nat (length l) <= kMaxTokenSize -> kept c = true -> spaced l attrs y ->
  parses [c] y (in_tag TAG_ATTR_NAME [c] [] NO_QUOTE false (l ++ [c]) attrs).
Proof.
  intros Hl Hc H. destruct H as [attrs|attrs n Hn'].
  - apply parses_step; [cbn; lia..|done|]. by apply step_first.
  - apply parses_step; [done|cbn; lia|done|]. by apply step_next.
Qed.

Lemma name_read l attrs y n : plain_name n -> Z.of_nat (length l + length n) <= kMaxTokenSize -> spaced l attrs y ->
  parses n y (in_tag TAG_ATTR_NAME n [] NO_QUOTE false (l ++ n) attrs).
Proof.
  intros [Hne Hk] Hl Hs. destruct n as [|c n]; [done|]. cbn [length] in Hl.
  assert (Hk' : Forall (fun c => kept c = true) (c :: n)) by (eapply Forall_impl; [exact Hk|]; intros c' Hc'; unfold kept; by rewrite Hc').
  apply Forall_cons in Hk' as [Hc Hn'].
  eapply parses_cons; [apply (spaced_first l); [lia|done|exact Hs]|].
  replace (l ++ c :: n) with ((l ++ [c]) ++ n) by by rewrite <- app_assoc.
  apply (parses_run (fun acc l => in_tag TAG_ATTR_NAME acc [] NO_QUOTE false l attrs) (fun _ c => kept c = true) O); rewrite ?length_app; cbn; [|lia..|].
  - intros acc c' l' _ Ha Hl' Hc'. apply parses_step; [done|cbn; lia|done|]. by apply step_name.
  - intros i c' Hi. by apply (Forall_lookup_1 _ _ _ _ Hn' Hi).
Qed.

Lemma bare_value_read l attrs n v : attribute_value NO_QUOTE v -> v <> [] -> (length n <= length l)%nat -> Z.of_nat (length l + length v) <= kMaxTokenSize ->
  parses v (in_tag TAG_ATTR_EQ n [] NO_QUOTE true l attrs) (in_tag TAG_ATTR_VAL n v NO_QUOTE true (l ++ v) attrs).
Proof.
  intros [Hf Hq] Hv Hn' Hl.
  pose proof (parses_run (fun acc l => in_tag (if decide (acc = []) then TAG_ATTR_EQ else TAG_ATTR_VAL) n acc NO_QUOTE true l attrs)
    (fun acc c => ends_value c = false /\ (acc <> [] \/ c <> dquote /\ c <> squote)) (length n) v [] l) as H.
  cbn [app] in H. rewrite (decide_True (P := [] = [])), decide_False in H by done. apply H; [|done|cbn; lia|done|].
  - intros acc c l' Hm Ha Hl' [Hc1 Hc2]. apply parses_step; [done..|]. rewrite (decide_False (P := acc ++ [c] = [])) by by destruct acc. by apply step_value.
  - intros i c Hi. split; [by apply (Forall_lookup_1 _ _ _ _ Hf Hi)|]. destruct i as [|i]; [right|left]; destruct v as [|c' v]; try done.
    injection Hi as ->. by apply (Hq c v).
Qed.

Lemma quoted_value_read l attrs n v q : q <> NO_QUOTE -> quote_char q ∉ v -> (length n <= length l)%nat -> Z.of_nat (length l + length v) <= kMaxTokenSize ->
  parses v (in_tag (quoted_state q) n [] q true l attrs) (in_tag (quoted_state q) n v q true (l ++ v) attrs).
Proof.
  intros Hq Hv Hn' Hl. apply (parses_run (fun acc l => in_tag (quoted_state q) n acc q true l attrs) (fun _ c => c <> quote_char q) (length n)); [|done|cbn; lia|done|].
  - intros acc c l' Hm Ha Hl' Hc. apply parses_step; [done..|]. by apply step_quoted.
  - intros i c Hi ->. apply Hv. by eapply list_elem_of_lookup_2.
Qed.

Lemma attribute_value_quote q v : q <> NO_QUOTE -> attribute_value q v <-> quote_char q ∉ v.
Proof. by destruct q. Qed.
Lemma quote_str_char q : q <> NO_QUOTE -> quote_str q = [quote_char q].
Proof. by destruct q. Qed.

Lemma equals_read l attrs n : (length n <= length l)%nat -> Z.of_nat (length l) <= kMaxTokenSize ->
  parses ["="%char] (in_tag TAG_ATTR_NAME n [] NO_QUOTE false l attrs) (in_tag TAG_ATTR_EQ n [] NO_QUOTE true (l ++ ["="%char]) attrs).
Proof. intros Hn' Hl. apply parses_step; [done|cbn; lia|done|apply step_equals]. Qed.

Lemma value_read l attrs n q v :
  attribute_value q v -> (q = NO_QUOTE -> v <> []) -> n <> [] -> (length n <= length l)%nat -> Z.of_nat (length l + length (quote_str q ++ v ++ quote_str q)) <= kMaxTokenSize ->
  exists z, settled (l ++ quote_str q ++ v ++ quote_str q) (attrs ++ [mkAttribute (MakeName n) (Some v) q]) z /\
    parses (quote_str q ++ v ++ quote_str q) (in_tag TAG_ATTR_EQ n [] NO_QUOTE true l attrs) z.
Proof.
  intros Hv Hv0 Hn0 Hn' Hl. assert (q = NO_QUOTE \/ q <> NO_QUOTE) as [->|Hq] by (destruct q; auto).
  - cbn [quote_str app] in *. rewrite app_nil_r in *. eexists. split; [|by apply bare_value_read; [|apply Hv0|..]].
    apply settled_value; [done|by apply Hv0|rewrite length_app; lia..].
  - rewrite (quote_str_char q Hq) in *. rewrite !length_app in Hl. cbn [length] in Hl. apply attribute_value_quote in Hv; [|done].
    exists (between (l ++ [quote_char q] ++ v ++ [quote_char q]) (attrs ++ [mkAttribute (MakeName n) (Some v) q]) [] []).
    split; [apply settled_between; cbn; lia|]. eapply parses_cons; [apply parses_step; [done|cbn; lia|lia|by apply step_quote]|].
    eapply parses_app; [apply quoted_value_read; rewrite ?length_app; cbn [length]; [done|done|lia..]|].
    replace (l ++ [quote_char q] ++ v ++ [quote_char q]) with (((l ++ [quote_char q]) ++ v) ++ [quote_char q]) by by rewrite <- !app_assoc.
    apply parses_step; rewrite ?length_app; cbn [length]; [lia..|by apply step_unquote].
Qed.

Lemma attribute_read l attrs y a : readable a -> Z.of_nat (length l + length (attr_text a)) <= kMaxTokenSize -> settled l attrs y ->
  exists z, settled (l ++ attr_text a) (attrs ++ [visible a]) z /\ parses (attr_text a) y z.
Proof.
  intros (Hname & Hplain & Hval) Hl Hs. 
  replace (visible a) with (mkAttribute (MakeName (str_ (attr_name a))) (escaped_value a) (match escaped_value a with Some _ => quote_style_ a | None => NO_QUOTE end))
    by (unfold visible; by rewrite <- Hname).
  clear Hname. unfold attr_text in *. set (n := str_ (attr_name a)) in *.
  rewrite !length_app in Hl. cbn [length] in Hl. destruct (settled_space l attrs y) as (y1 & Hs1 & Hp1); [lia|done|].
  assert (Hp2 : parses ([" "%char] ++ n) y (in_tag TAG_ATTR_NAME n [] NO_QUOTE false (l ++ [" "%char] ++ n) attrs)).
  { eapply parses_app; [exact Hp1|]. rewrite app_assoc. apply name_read; [done|rewrite length_app; cbn [length]; lia|done]. }
  destruct (escaped_value a) as [v|].
  - destruct Hval as [Hv Hv0]. rewrite length_app in Hl. cbn [length] in Hl.
    destruct (value_read (l ++ [" "%char] ++ n ++ ["="%char]) attrs n (quote_style_ a) v) as (z & Hz & Hp); rewrite ?length_app; cbn [length]; [done|done|apply Hplain|lia|rewrite ?length_app in *; lia|].
    exists z. split; [by rewrite <- !app_assoc in Hz|]. rewrite app_assoc. eapply parses_app; [exact Hp2|].
    eapply parses_app; [|exact Hp]. rewrite !app_assoc. rewrite <- (app_assoc l). apply equals_read; rewrite ?length_app; cbn [length]; lia.
  - rewrite app_nil_r. eexists. split; [|exact Hp2]. apply settled_name. rewrite !length_app. lia.
Qed.

Lemma attributes_read l attrs y more : Forall readable more -> Z.of_nat (length l + length (concat (map attr_text more))) <= kMaxTokenSize -> settled l attrs y ->
  exists z, settled (l ++ concat (map attr_text more)) (attrs ++ map visible more) z /\ parses (concat (map attr_text more)) y z.
Proof.
  intros Hr. revert l attrs y. induction Hr as [|a more Ha Hr IH]; intros l attrs y Hl Hs.
  - exists y. cbn. rewrite !app_nil_r. split; [done|]. by intros t.
  - cbn [map concat] in *. rewrite length_app in Hl. destruct (attribute_read l attrs y a) as (z & Hz & Hp); [done|lia|done|].
    destruct (IH (l ++ attr_text a) (attrs ++ [visible a]) z) as (w & Hw & Hp'); [rewrite length_app; lia|done|].
    exists w. rewrite <- !app_assoc in Hw. split; [done|]. by eapply parses_app.
Qed.

(** The end of the tag. *)
Definition attributes_done (l : bytes) (attrs : list Attribute) : HtmlLexer := between l attrs [] [].

Lemma tag_end_read l attrs y t : Z.of_nat (length l) <= kMaxTokenSize -> settled l attrs y ->
  Parse_loop (">"%char :: t) y = (z ← EmitTagOpen true (attributes_done (l ++ [">"%char]) attrs); Parse_loop t z).
Proof.
  intros Hl Hs. destruct Hs as [attrs n v Hn' Hv|attrs n Hn'|attrs n v Hn0 Hv0 Hn' Hv].
  - unfold between. rewrite Parse_in_tag by done. done.
  - rewrite Parse_in_tag by (cbn; lia || done). unfold Eval. cbn [state_ append_literal set_literal in_tag].
    unfold EvalAttrName, HandleAttributeEnd. change (">"%char =c "="%char) with false. change (IsHtmlSpace ">") with false. change (">"%char =c ">"%char) with true.
    cbv iota. change (append_literal ">" (in_tag TAG_ATTR_NAME n [] NO_QUOTE false l attrs)) with (in_tag TAG_ATTR_NAME n [] NO_QUOTE false (l ++ [">"%char]) attrs).
    rewrite MakeAttribute_in_tag by done. cbn [mbind option_bind]. unfold attributes_done. by destruct (EmitTagOpen true _).
  - rewrite Parse_in_tag by done. unfold Eval. cbn [state_ append_literal set_literal in_tag].
    unfold EvalAttrVal, FinishAttribute. change (IsHtmlSpace ">") with false. change (">"%char =c ">"%char) with true. cbn [orb].
    change (append_literal ">" (in_tag TAG_ATTR_VAL n v NO_QUOTE true l attrs)) with (in_tag TAG_ATTR_VAL n v NO_QUOTE true (l ++ [">"%char]) attrs).
    cbn [attr_name_ in_tag negb]. rewrite bool_decide_eq_false_2 by done. rewrite MakeAttribute_in_tag by done. cbn [mbind option_bind]. unfold attributes_done.
    destruct (EmitTagOpen true _) as [z|] eqn:E; [|done]. cbn [mbind option_bind].
    pose proof (EmitTagOpen_config true _ _ _ E) as Hc. injection Hc as Hc _. cbn in Hc. by replace (set_has_attr_value false z) with z by (rewrite <- Hc; by destruct z).
Qed.
End read.

(** ** A start tag *)

Section tag.
Context (x : HtmlLexer).
Hypothesis Hstate : state_ x = START.
Hypothesis Hlit : literal_ x = [].
Hypothesis Hquiet : quiet x.
Hypothesis Hclean : clean x.
Hypothesis Hskip : skip_parsing_ x = false.

(** After [n], the name of the tag; and with the element made. *)
Definition tag_open (st : State) (n l : bytes) : HtmlLexer :=
  mkLexer (queue_ x) (nodes_ x) st n l [] [] NO_QUOTE false None (literal_close_ x) (script_escape_state_ x) false (element_stack_ x)
    (size_limit_exceeded_ x) false (num_bytes_parsed_ x) (size_limit_ x).
Definition with_element (n : bytes) : HtmlLexer :=
  set_element (Some (length (nodes_ x))) (set_nodes (NewElement (Parent x) (MakeName n) x).1.(nodes_) x).
Definition in_element (n : bytes) : State -> bytes -> bytes -> QuoteStyle -> bool -> bytes -> list Attribute -> HtmlLexer :=
  in_tag (with_element n) (length (nodes_ x)).

Definition new_element (n : bytes) : HtmlElement :=
  mkElement (Parent x) (MakeName n) [] (if IsOptionallyClosedTag (keyword_ (MakeName n)) then EXPLICIT_CLOSE else AUTO_CLOSE).

Lemma with_element_nodes n : nodes_ (with_element n) = nodes_ x ++ [new_element n].
Proof. done. Qed.
Lemma with_element_node n : nodes_ (with_element n) !! length (nodes_ x) = Some (new_element n).
Proof. rewrite with_element_nodes. by apply list_lookup_middle. Qed.

Lemma MakeElement_open st n l : MakeElement (tag_open st n l) = Some (in_element n st [] [] NO_QUOTE false l []).
Proof.
  unfold in_element, in_tag, with_attributes. rewrite with_element_nodes.
  assert (alter (add_attributes []) (length (nodes_ x)) (nodes_ x ++ [new_element n]) = nodes_ x ++ [new_element n]) as ->; [|done].
  apply list_alter_id. intros el. unfold add_attributes. rewrite app_nil_r. by destruct el.
Qed.

Lemma Parse_tag_open st n l c t : (length n <= length l)%nat -> Z.of_nat (length l) <= kMaxTokenSize ->
  Parse_loop (c :: t) (tag_open st n l) = (z ← Eval c (append_literal c (tag_open st n l)); Parse_loop t z).
Proof.
  intros Hn Hl. cbn [Parse_loop]. change (skip_parsing_ (tag_open st n l)) with false.
  assert (Hb : forall s : bytes, (length s <= length l)%nat -> too_long s = false) by (intros s Hs; unfold too_long; apply Z.ltb_ge; lia).
  cbn [token_ attr_value_ literal_ attr_name_ tag_open]. by rewrite !Hb by (cbn; lia).
Qed.

Lemma tag_starts : Eval "<" (append_literal "<" x) = Some (tag_open TAG [] ["<"%char]).
Proof.
  destruct Hquiet as [Ht He], Hclean as (Hn & Hv & Hq & Hh). unfold Eval. cbn [state_ append_literal set_literal]. rewrite Hstate.
  unfold EvalStart, chop_literal. change ("<"%char =c "<"%char) with true. cbn [literal_ append_literal set_literal]. rewrite Hlit. cbn. f_equal.
  unfold set_discard, set_state, set_literal, tag_open. cbn. by rewrite Ht, He, Hn, Hv, Hq, Hh, Hskip.
Qed.

Lemma tag_begins c : IsLegalTagFirstChar c = true -> parses ["<"%char; c] x (tag_open TAG_OPEN [c] ["<"%char; c]).
Proof.
  intros Hc t. destruct Hquiet as [Ht He], Hclean as (Hn & Hv & Hq & Hh). cbn [app]. change (Parse_loop ("<"%char :: c :: t) x) with
    (if skip_parsing_ x then Some x
     else if too_long (token_ x) || too_long (attr_value_ x) || too_long (literal_ x) || too_long (attr_name_ x) then
       Some (set_skip_parsing true (set_size_limit_exceeded true x))
     else x ← Eval "<" (append_literal "<" x); Parse_loop (c :: t) x).
  rewrite Hskip, Ht, Hv, Hlit, Hn, tag_starts. change (too_long []) with false. cbn [orb mbind option_bind].
  rewrite Parse_tag_open by (cbn; lia || done). unfold Eval. cbn [state_ append_literal set_literal tag_open]. unfold EvalTag.
  assert (Hs : (c =c "/"%char) = false) by (destruct c as [[] [] [] [] [] [] [] []]; done).
  by rewrite Hs, Hc.
Qed.

Lemma tag_name_read n : tag_name n -> Z.of_nat (1 + length n) <= kMaxTokenSize ->
  parses (["<"%char] ++ n) x (tag_open TAG_OPEN n (["<"%char] ++ n)).
Proof.
  intros Hn Hl. destruct n as [|c n]; [done|]. destruct Hn as [Hc Hn]. change (["<"%char] ++ c :: n) with (["<"%char; c] ++ n). cbn [length] in Hl.
  eapply parses_app; [by apply tag_begins|]. change (c :: n) with ([c] ++ n). change (["<"%char] ++ [c] ++ n) with (["<"%char; c] ++ n).
  apply (parses_run (fun acc l => tag_open TAG_OPEN acc l) (fun _ c => IsLegalTagChar c = true) O); cbn [length]; [|lia..|].
  - intros acc c' l _ Ha Hl' Hc' t. cbn [app]. rewrite Parse_tag_open by done. unfold Eval. cbn [state_ append_literal set_literal tag_open].
    unfold EvalTagOpen. by rewrite Hc'.
  - intros i c' Hi. by apply (Forall_lookup_1 _ _ _ _ Hn Hi).
Qed.

Lemma first_space n l c t : (length n <= length l)%nat -> Z.of_nat (S (length l)) <= kMaxTokenSize ->
  Parse_loop (" "%char :: c :: t) (tag_open TAG_OPEN n l) = Parse_loop (" "%char :: c :: t) (in_element n TAG_ATTRIBUTE [] [] NO_QUOTE false l []).
Proof.
  intros Hn Hl. rewrite Parse_tag_open by lia. unfold in_element.
  assert (Parse_loop (" "%char :: c :: t) (in_tag (with_element n) (length (nodes_ x)) TAG_ATTRIBUTE [] [] NO_QUOTE false l []) =
    Parse_loop (c :: t) (in_element n TAG_ATTRIBUTE [] [] NO_QUOTE false (l ++ [" "%char]) [])) as ->.
  { apply (parses_step (with_element n) (length (nodes_ x)) TAG_ATTRIBUTE [] [] NO_QUOTE false l [] " "); [cbn; lia..|by apply step_space]. }
  change (Eval " " (append_literal " " (tag_open TAG_OPEN n l))) with (Some (tag_open TAG_ATTRIBUTE n (l ++ [" "%char]))). cbn [mbind option_bind].
  rewrite Parse_tag_open by (rewrite length_app; cbn; lia). unfold in_element. rewrite Parse_in_tag by (rewrite ?length_app; cbn; lia). f_equal.
  unfold Eval. cbn [state_ append_literal set_literal tag_open in_tag]. unfold EvalAttribute.
  change (append_literal c (tag_open TAG_ATTRIBUTE n (l ++ [" "%char]))) with (tag_open TAG_ATTRIBUTE n ((l ++ [" "%char]) ++ [c])).
  cbn [discard_until_start_state_for_error_recovery_ tag_open in_tag]. by rewrite MakeElement_open.
Qed.

(** What [EmitTagOpen] is given. *)
Definition tag_read (el : HtmlElement) : HtmlLexer :=
  in_element (name_str el) (if bool_decide (attributes_ el = []) then TAG_OPEN else TAG_ATTRIBUTE) [] [] NO_QUOTE false
    (open_text el ++ [">"%char]) (map visible (attributes_ el)).

Lemma start_tag_read el t : tag_name (name_str el) -> Forall readable (attributes_ el) -> Z.of_nat (length (open_text el)) <= kMaxTokenSize ->
  Parse_loop (open_text el ++ ">"%char :: t) x = (z ← EmitTagOpen true (tag_read el); Parse_loop t z).
Proof.
  intros Hn Hr Hl. unfold tag_read, open_text in *. set (n := name_str el) in *. rewrite !length_app in Hl. cbn [length] in Hl.
  rewrite <- !app_assoc. rewrite (app_assoc ["<"%char]). rewrite tag_name_read by (done || lia).
  destruct (attributes_ el) as [|a more] eqn:Ea.
  - cbn [map concat app]. rewrite Parse_tag_open by (cbn; lia). unfold Eval. cbn [state_ append_literal set_literal tag_open].
    unfold EvalTagOpen. change (IsLegalTagChar ">") with false. change (">"%char =c ">"%char) with true. cbv iota.
    change (append_literal ">" (tag_open TAG_OPEN n ("<"%char :: n))) with (tag_open TAG_OPEN n ("<"%char :: n ++ [">"%char])).
    rewrite MakeElement_open. done.
  - rewrite bool_decide_eq_false_2 by done. set (l := ["<"%char] ++ n) in *.
    destruct (attributes_read (with_element n) (length (nodes_ x)) (new_element n) (with_element_node n) l []
      (in_element n TAG_ATTRIBUTE [] [] NO_QUOTE false l []) (a :: more)) as (z & Hz & Hp); [done|cbn [length app l]; lia|by apply settled_between; cbn; lia|].
    assert (exists c t', concat (map attr_text (a :: more)) ++ ">"%char :: t = " "%char :: c :: t') as (c & t' & Et).
    { apply Forall_cons in Hr as [(_ & [Hne _] & _) _]. cbn [map concat]. unfold attr_text at 1.
      destruct (str_ (attr_name a)) as [|c s]; [done|]. by eexists c, _. }
    assert (Hl' : (length (attr_text a) + length (concat (map attr_text more)) = length (concat (map attr_text (a :: more))))%nat) by (cbn [map concat]; by rewrite length_app).
    assert (Ha : (0 < length (attr_text a))%nat) by (cbn; lia).
    rewrite Et. rewrite first_space; [|cbn; lia|cbn [length app l] in *; rewrite <- Hl' in Hl; lia]. rewrite <- Et, Hp.
    rewrite (tag_end_read (with_element n) (length (nodes_ x)) (new_element n) (with_element_node n) (l ++ concat (map attr_text (a :: more))) (map visible (a :: more)) z t); [|rewrite length_app; cbn [length app l]; lia|exact Hz].
    unfold attributes_done, l. by rewrite <- !app_assoc.
Qed.
End tag.

(** The text of a start tag is read between two tags. *)
Lemma open_text_read size_limit before x el :
  ParseChunks size_limit before = Some x -> state_ x = START -> literal_ x = [] -> skip_parsing_ x = false ->
  tag_name (name_str el) -> Forall readable (attributes_ el) -> Z.of_nat (length (open_text el)) <= kMaxTokenSize ->
  exists y, ParseChunks size_limit (before ++ [open_text el ++ [">"%char]]) = Some y /\
    attribute_lists (nodes_ y) = attribute_lists (nodes_ x) ++ [map visible (attributes_ el)].
Proof.
  intros Hx Hst Hlit Hsk Hn Hr Hl. destruct (ParseChunks_ok size_limit before) as (x' & read & rest & E & _ & HR & _). assert (x' = x) as -> by congruence.
  rewrite ParseChunks_snoc, Hx. cbn [mbind option_bind]. destruct (Parse_ok (open_text el ++ [">"%char]) _ read rest x HR) as (y & _ & _ & Ey & _).
  exists y. split; [done|]. destruct HR as [(t & HI & _) _ _ _ _]. pose proof (Inv_bufs _ _ HI) as Hb. pose proof (Inv_shape _ _ HI) as Hsh.
  unfold attr_bufs in Hb. unfold shape in Hsh. rewrite Hst in Hb, Hsh. unfold Parse in Ey.
  assert (Hy : forall x', state_ x' = START -> literal_ x' = [] -> quiet x' -> clean x' -> skip_parsing_ x' = false ->
    Parse_loop (open_text el ++ [">"%char]) x' = Some y -> attribute_lists (nodes_ y) = attribute_lists (nodes_ x') ++ [map visible (attributes_ el)]).
  { intros x' H1 H2 H3 H4 H5 E'. rewrite start_tag_read in E' by done. destruct (EmitTagOpen true (tag_read x' el)) as [z|] eqn:Ez; [|done]. injection E' as ->.
    pose proof (EmitTagOpen_config true _ _ _ Ez) as Hc. unfold config in Hc. injection Hc as _ Hc _ _ _. rewrite Hc.
    unfold tag_read, in_element, in_tag, with_attributes. cbn [nodes_]. rewrite with_element_nodes. unfold attribute_lists.
    rewrite alter_app_r_alt, Nat.sub_diag by done. cbn. by rewrite map_app. }
  destruct ((0 <? _) && _); by apply Hy in Ey.
Qed.

(** What the writer puts out for a start tag, once something follows it. *)
Definition start_tag (el : HtmlElement) : bytes :=
  output_ (EmitBytes [] (StartElement_event (-1) false O el (mkWriter [] None 0))).

Lemma start_tag_text el : style_ el <> INVISIBLE -> start_tag el = open_text el ++ [">"%char].
Proof.
  intros Hi. unfold start_tag. rewrite EmitBytes_output, app_nil_r. destruct (StartElement_ok O el (mkWriter [] None 0) Hi) as [-> _].
  unfold flushed, start_text. cbn [output_ lazy_close_element_ app]. by destruct (GetElementStyle el).
Qed.

(** C21: the attributes that the writer puts into a start tag are read back as they are:
    when the lexer stands between two tags and is given what the writer makes of an
    element's start tag, the new element has the same attributes in the same order, with
    the same names, escaped values up to the first NUL byte and quotes, and the other
    elements keep theirs. An attribute can be read if its name has no character that ends
    it and its value fits its quotes. *)
Theorem attributes_are_read_back size_limit before x el :
  ParseChunks size_limit before = Some x -> state_ x = START -> literal_ x = [] -> skip_parsing_ x = false ->
  style_ el <> INVISIBLE -> tag_name (name_str el) -> Forall readable (attributes_ el) -> Z.of_nat (length (start_tag el)) <= kMaxTokenSize + 1 ->
  exists y, ParseChunks size_limit (before ++ [start_tag el]) = Some y /\
    attribute_lists (nodes_ y) = attribute_lists (nodes_ x) ++ [map visible (attributes_ el)].
Proof.
  intros Hx Hst Hlit Hsk Hi Hn Hr Hl. rewrite start_tag_text in * by done. rewrite length_app in Hl. cbn [length] in Hl.
  apply (open_text_read size_limit before x el); (done || lia).
Qed.

Definition written : HtmlElement :=
  mkElement None (MakeName (lit "img"))
    [mkAttribute (MakeName (lit "src")) (Some (lit "a.png?x=1/")) NO_QUOTE; mkAttribute (MakeName (lit "hidden")) None DOUBLE_QUOTE;
     mkAttribute (MakeName (lit "alt")) (Some (lit "an " ++ [dquote] ++ lit "image" ++ [dquote])) SINGLE_QUOTE; mkAttribute (MakeName (lit "class")) (Some []) DOUBLE_QUOTE] AUTO_CLOSE.

Lemma attributes_are_read_back_witness : exists x, ParseChunks 0 [lit "<p>"] = Some x /\ exists y,
  ParseChunks 0 ([lit "<p>"] ++ [start_tag written]) = Some y /\
  attribute_lists (nodes_ y) = attribute_lists (nodes_ x) ++ [map visible (attributes_ written)].
Proof.
  eexists. split; [vm_compute; reflexivity|]. apply attributes_are_read_back; [vm_compute; reflexivity|reflexivity..|done| | |by vm_compute].
  - split; [reflexivity|]. repeat constructor.
  - repeat apply List.Forall_cons; try apply List.Forall_nil; (split; [vm_compute; reflexivity|split; [split; [done|repeat constructor]|]]).
    + split; [|done]. split; [repeat constructor|]. intros c v [= <- <-]. done.
    + done.
    + split; [|done]. refine (bool_decide_unpack (squote ∉ _) _). by vm_compute.
    + split; [|done]. apply not_elem_of_nil.
Defined.

(** A value that is set can be read, whatever bytes it has. *)
Lemma SetValue_readable v a :
  attr_name (raw a) = MakeName (str_ (attr_name (raw a))) -> plain_name (str_ (attr_name (raw a))) -> readable (raw (SetValue (Some v) a)).
Proof.
  intros Hn Hp. split; [done|]. split; [done|]. unfold escaped_value. cbn. rewrite c_str_Escape.
  assert (forall c, plain_char c = false -> c ∉ Escape v) as Hc by (intros; by apply plain_Escape).
  destruct (QuoteStyle_suits (quote_style_ (raw a)) (Escape v)) as [H1 H2]; [by apply Escape_value|left; by apply Hc|by apply Hc|]. done.
Qed.

(** A name that begins with [=] is read after a slash, but not after the space that the
    writer puts before it: two attributes become one. *)
Example slash_before_equals :
  (attribute_lists <$> (nodes_ <$> ParseDocument 0 [lit "<p x/=b>"])) = Some [[mkAttribute (MakeName (lit "x")) None NO_QUOTE; mkAttribute (MakeName (lit "=b")) None NO_QUOTE]] /\
  Reserialize 0 [lit "<p x/=b>"] = Some (lit "<p x =b>") /\
  (attribute_lists <$> (nodes_ <$> ParseDocument 0 [lit "<p x =b>"])) = Some [[mkAttribute (MakeName (lit "x")) (Some (lit "b")) NO_QUOTE]].
Proof. split; [|split]; vm_compute; reflexivity. Qed.
