(* ===== verification/Doctype.v ===== *)
(** * HTML: the doctype of a document

    src/pagespeed/kernel/html/doctype.cc: which standard a [<!DOCTYPE ...>] directive
    names. *)

From S2P Require Import Prelude StringUtil ContentType.

Inductive DocType :=
| UNKNOWN | HTML_5 | HTML_4_STRICT | HTML_4_TRANSITIONAL | XHTML_5 | XHTML_1_1 | XHTML_1_0_STRICT | XHTML_1_0_TRANSITIONAL | OTHER_XHTML.

#[export] Instance DocType_eq_dec : EqDecision DocType.
Proof. solve_decision. Defined.

Definition IsXhtml (d : DocType) : bool :=
  match d with XHTML_5 | XHTML_1_1 | XHTML_1_0_STRICT | XHTML_1_0_TRANSITIONAL | OTHER_XHTML => true | _ => false end.
Definition IsVersion5 (d : DocType) : bool := match d with HTML_5 | XHTML_5 => true | _ => false end.

(** The words of the directive after [doctype]. *)
Definition is_legacy_compat (parts : list bytes) : bool :=
  match parts with
  | [_; _; system; id] => StringCaseEqual system (lit "system") && StringCaseEqual id (lit "about:legacy-compat")
  | _ => false
  end.

Definition public_doctype (id : bytes) : DocType :=
  if StringCaseStartsWith id (lit "-//W3C//DTD XHTML") then
    if StringCaseEqual id (lit "-//W3C//DTD XHTML 1.1//EN") then XHTML_1_1
    else if StringCaseEqual id (lit "-//W3C//DTD XHTML 1.0 Strict//EN") then XHTML_1_0_STRICT
    else if StringCaseEqual id (lit "-//W3C//DTD XHTML 1.0 Transitional//EN") then XHTML_1_0_TRANSITIONAL
    else OTHER_XHTML
  else if StringCaseEqual id (lit "-//W3C//DTD HTML 4.01//EN") then HTML_4_STRICT
  else if StringCaseEqual id (lit "-//W3C//DTD HTML 4.01 Transitional//EN") then HTML_4_TRANSITIONAL
  else UNKNOWN.

Definition doctype_of (parts : list bytes) (content_type : ContentType) : DocType :=
  match parts with
  | _ :: html :: rest =>
      if StringCaseEqual html (lit "html") then
        if bool_decide (rest = []) || is_legacy_compat parts then if IsXmlLike content_type then XHTML_5 else HTML_5
        else match rest with
             | [public; id; _] => if StringCaseEqual public (lit "public") then public_doctype id else UNKNOWN
             | _ => UNKNOWN
             end
      else UNKNOWN
  | _ => UNKNOWN
  end.

(** [None]: [parts[0]] of an empty vector. *)
Definition Parse (directive : bytes) (content_type : ContentType) (doctype : DocType) : option (DocType * bool) :=
  if negb (StringCaseStartsWith directive (lit "doctype")) then Some (doctype, false)
  else
    parts ← ParseShellLikeString directive;
    first ← head parts;
    if negb (StringCaseEqual first (lit "doctype")) then Some (doctype, false)
    else Some (doctype_of parts content_type, true).

(** The doctype that the lexer ends with: [EmitDirective] offers it every directive. *)
Definition doctype_after (directives : list bytes) (content_type : ContentType) (doctype : DocType) : option DocType :=
  foldl (fun d directive => d ← d; fst <$> Parse directive content_type d) (Some doctype) directives.

(** ** Letter case *)

Lemma UpperChar_idemp c : UpperChar (UpperChar c) = UpperChar c.
Proof. destruct c as [[] [] [] [] [] [] [] []]; reflexivity. Qed.
Lemma UpperChar_space c : IsHtmlSpace (UpperChar c) = IsHtmlSpace c.
Proof. destruct c as [[] [] [] [] [] [] [] []]; reflexivity. Qed.

(** A character that is no letter is the same in both cases. *)
Definition caseless (q : ascii) : Prop := forall c, (UpperChar c =c q) = (c =c q).
Lemma caseless_dquote : caseless dquote.
Proof. intros c. destruct c as [[] [] [] [] [] [] [] []]; reflexivity. Qed.
Lemma caseless_squote : caseless squote.
Proof. intros c. destruct c as [[] [] [] [] [] [] [] []]; reflexivity. Qed.
Lemma caseless_backslash : caseless backslash.
Proof. intros c. destruct c as [[] [] [] [] [] [] [] []]; reflexivity. Qed.

Lemma quoted_part_Upper q s : caseless q -> quoted_part q (UpperString s) = prod_map UpperString UpperString (quoted_part q s).
Proof.
  intros Hq. remember (length s) as k eqn:Hk. revert s Hk. induction (lt_wf k) as [k _ IH]; intros s Hk. destruct s as [|c s]; [done|].
  cbn [UpperString map quoted_part]. fold (UpperString s). rewrite Hq, caseless_backslash. destruct (c =c q); [done|]. destruct (c =c backslash).
  - destruct s as [|d s]; [done|]. cbn [UpperString map]. fold (UpperString s). rewrite (IH (length s)) by (subst k; cbn; lia || done).
    by destruct (quoted_part q s).
  - rewrite (IH (length s)) by (subst k; cbn; lia || done). by destruct (quoted_part q s).
Qed.

Lemma unquoted_part_Upper s : unquoted_part (UpperString s) = prod_map UpperString UpperString (unquoted_part s).
Proof.
  induction s as [|c s IH]; [done|]. cbn [UpperString map unquoted_part]. fold (UpperString s). rewrite UpperChar_space.
  destruct (IsHtmlSpace c); [done|]. rewrite IH. by destruct (unquoted_part s).
Qed.

Lemma ParseShell_loop_Upper fuel s out :
  ParseShell_loop fuel (UpperString s) (map UpperString out) = map UpperString <$> ParseShell_loop fuel s out.
Proof.
  revert s out. induction fuel as [|fuel IH]; intros s out; [done|]. destruct s as [|c s]; [done|].
  cbn [UpperString map ParseShell_loop]. fold (UpperString s). rewrite caseless_dquote, caseless_squote, UpperChar_space.
  assert (Hout : forall part, map UpperString out ++ [UpperString part] = map UpperString (out ++ [part])) by (intros; by rewrite map_app).
  destruct ((c =c dquote) || (c =c squote)) eqn:Eq.
  - assert (UpperChar c = c /\ caseless c) as [-> Hq].
    { apply orb_true_iff in Eq as [->%bool_decide_eq_true| ->%bool_decide_eq_true]; [split; [done|apply caseless_dquote]|split; [done|apply caseless_squote]]. }
    rewrite quoted_part_Upper by done. destruct (quoted_part c s) as [part rest]. cbn [prod_map]. by rewrite Hout, IH.
  - destruct (IsHtmlSpace c) eqn:Es; cbn [negb]; [apply IH|]. change (UpperChar c :: UpperString s) with (UpperString (c :: s)).
    rewrite unquoted_part_Upper. destruct (unquoted_part (c :: s)) as [part rest]. cbn [prod_map]. by rewrite Hout, IH.
Qed.

Lemma ParseShell_Upper s : ParseShellLikeString (UpperString s) = map UpperString <$> ParseShellLikeString s.
Proof. unfold ParseShellLikeString. rewrite <- (ParseShell_loop_Upper _ s []). unfold UpperString. by rewrite length_map. Qed.

Lemma UpperString_idemp s : UpperString (UpperString s) = UpperString s.
Proof. unfold UpperString. rewrite map_map. apply map_ext. apply UpperChar_idemp. Qed.

Lemma CaseEqual_Upper s t : StringCaseEqual (UpperString s) t = StringCaseEqual s t.
Proof. apply eq_true_iff_eq. by rewrite !StringCaseEqual_Upper, UpperString_idemp. Qed.

Lemma CaseStartsWith_Upper s p : StringCaseStartsWith (UpperString s) p = StringCaseStartsWith s p.
Proof.
  assert (Ht : forall n s, UpperString (take n s) = take n (UpperString s)) by (intros; unfold UpperString; by rewrite firstn_map).
  unfold StringCaseStartsWith. assert (length (UpperString s) = length s) as -> by (unfold UpperString; by rewrite length_map).
  f_equal. apply eq_true_iff_eq. by rewrite !Z.eqb_eq, !StringCaseCompare_0, !Ht, UpperString_idemp.
Qed.

Lemma doctype_of_Upper parts ct : doctype_of (map UpperString parts) ct = doctype_of parts ct.
Proof.
  destruct parts as [|p0 [|p1 rest]]; [done..|]. cbn [map doctype_of]. rewrite CaseEqual_Upper. destruct (StringCaseEqual p1 (lit "html")); [|done].
  destruct rest as [|p2 [|p3 [|p4 [|p5 rest]]]]; try done; cbn [map is_legacy_compat public_doctype]; rewrite ?CaseEqual_Upper; try done.
  unfold public_doctype. by rewrite CaseStartsWith_Upper, !CaseEqual_Upper.
Qed.

Lemma Parse_Upper d ct t : Parse (UpperString d) ct t = Parse d ct t.
Proof.
  unfold Parse. rewrite CaseStartsWith_Upper, ParseShell_Upper. destruct (StringCaseStartsWith d (lit "doctype")); [|done]. cbn [negb].
  destruct (ParseShellLikeString d) as [[|p parts]|]; [done| |done]. cbn [fmap option_fmap option_map mbind option_bind map head].
  change (UpperString p :: map UpperString parts) with (map UpperString (p :: parts)). by rewrite CaseEqual_Upper, doctype_of_Upper.
Qed.

(** A directive that starts with [doctype] has a first word. *)
Lemma ParseShell_loop_output fuel s out words : ParseShell_loop fuel s out = Some words -> exists more, words = out ++ more.
Proof.
  revert s out. induction fuel as [|fuel IH]; intros s out; [done|]. destruct s as [|c s]; cbn [ParseShell_loop]; [intros [= <-]; exists []; by rewrite app_nil_r|].
  assert (Hstep : forall part rest, ParseShell_loop fuel rest (out ++ [part]) = Some words -> exists more, words = out ++ more).
  { intros part rest H. apply IH in H as [more ->]. exists (part :: more). by rewrite <- app_assoc. }
  destruct (_ || _); [destruct (quoted_part c s); apply Hstep|]. destruct (negb _); [|apply IH].
  destruct (unquoted_part (c :: s)); apply Hstep.
Qed.

Lemma Parse_total d ct t : exists t' b, Parse d ct t = Some (t', b) /\ (b = false -> t' = t).
Proof.
  unfold Parse. destruct (StringCaseStartsWith d (lit "doctype")) eqn:E; cbn [negb]; [|by eexists _, _].
  destruct (ParseShell_loop_total (S (length d)) d [] ltac:(lia)) as [words Hw]. unfold ParseShellLikeString. rewrite Hw. cbn [mbind option_bind].
  destruct d as [|c d]; [done|]. set (fuel := length (c :: d)) in Hw. clearbody fuel. cbn [ParseShell_loop] in Hw.
  assert (Hc : ((c =c dquote) || (c =c squote) = false) /\ IsHtmlSpace c = false).
  { unfold StringCaseStartsWith in E. apply andb_true_iff in E as [_ E]. destruct c as [[] [] [] [] [] [] [] []]; try done; by vm_compute in E. }
  destruct Hc as [Hc1 Hc2]. rewrite Hc1, Hc2 in Hw. cbn [negb] in Hw. destruct (unquoted_part (c :: d)) as [part rest].
  apply ParseShell_loop_output in Hw as [more ->]. cbn [app head mbind option_bind].
  destruct (StringCaseEqual part (lit "doctype")); by eexists _, _.
Qed.

(** Reading a directive never fails; a directive that is no doctype leaves the doctype
    alone; and letter case does not matter, not even in the public identifier. *)
Lemma doctype_ignores_case d d' ct t :
  UpperString d = UpperString d' ->
  exists t' b, Parse d ct t = Some (t', b) /\ Parse d' ct t = Some (t', b) /\ (b = false -> t' = t).
Proof.
  intros H. destruct (Parse_total d ct t) as (t' & b & Hp & Hb). exists t', b. split; [done|]. split; [|done].
  by rewrite <- (Parse_Upper d'), <- H, Parse_Upper.
Qed.

Lemma doctype_ignores_case_witness :
  UpperString (lit "DOCTYPE html PUBLIC '-//w3c//dtd xhtml 1.1//en' ''") = UpperString (lit "doctype HTML public '-//W3C//DTD XHTML 1.1//EN' ''") /\
  exists t' b, Parse (lit "DOCTYPE html PUBLIC '-//w3c//dtd xhtml 1.1//en' ''") (row "text/html" ".html" ContentType.kHtml) UNKNOWN = Some (t', b) /\
    Parse (lit "doctype HTML public '-//W3C//DTD XHTML 1.1//EN' ''") (row "text/html" ".html" ContentType.kHtml) UNKNOWN = Some (t', b) /\ (b = false -> t' = UNKNOWN).
Proof. split; [vm_compute; reflexivity|]. apply doctype_ignores_case. vm_compute. reflexivity. Defined.

Example doctypes :
  (fun d => fst <$> Parse (lit d) (row "text/html" ".html" ContentType.kHtml) UNKNOWN) <$>
    ["doctype html"; "DOCTYPE HTML SYSTEM 'about:legacy-compat'"; "doctype html public '-//W3C//DTD XHTML 1.0 Strict//EN' 'x'";
     "doctype html public '-//W3C//DTD XHTML+RDFa 1.0//EN' ''"; "doctype html public '-//W3C//DTD HTML 4.01//EN'"; "doctypehtml"; "doctype svg"]%string =
  Some <$> [HTML_5; HTML_5; XHTML_1_0_STRICT; OTHER_XHTML; UNKNOWN; UNKNOWN; UNKNOWN].
Proof. vm_compute. reflexivity. Qed.
