(* ===== verification/HtmlFilter.v ===== *)
(** * HTML filters: the callbacks, and a filter's run over the window

    src/pagespeed/kernel/html/html_filter.h, html_event.h and [ApplyFilter] of
    html_parse.cc: the events of the window are shown to a filter one by one, and its
    callbacks edit the window they are called from.

    A filter is a record of callbacks on its own state [S] and the parser. What many
    filters do is simple: they look at the event, change what is in its node, or take the
    node away. For these the run over the window is a fold over the list of events. *)

From S2P Require Import Prelude StringUtil HtmlKeywords HtmlLexer HtmlParse HtmlParseWalk HtmlParseInv HtmlParseDoc HtmlParseEdit HtmlParseDelete HtmlParseOps HtmlParseFlush HtmlParseSpec.

(** ** Filters *)

Definition Handler (S : Type) : Type := S -> HtmlParse -> option (S * HtmlParse).

Record HtmlFilter (S : Type) := mkFilter {
  on_StartDocument : Handler S;
  on_EndDocument : Handler S;
  on_StartElement : nat -> Handler S;
  on_EndElement : nat -> Handler S;
  on_Cdata : nat -> Handler S;
  on_Comment : nat -> Handler S;
  on_IEDirective : nat -> Handler S;
  on_Characters : nat -> Handler S;
  on_Directive : nat -> Handler S;
  on_Flush : Handler S;
}.
Arguments mkFilter {S}.
Arguments on_StartDocument {S}.
Arguments on_EndDocument {S}.
Arguments on_StartElement {S}.
Arguments on_EndElement {S}.
Arguments on_Cdata {S}.
Arguments on_Comment {S}.
Arguments on_IEDirective {S}.
Arguments on_Characters {S}.
Arguments on_Directive {S}.
Arguments on_Flush {S}.

(** The callbacks of [EmptyHtmlFilter]. *)
Definition idle {S} : Handler S := fun s x => Some (s, x).
Definition EmptyHtmlFilter {S} : HtmlFilter S :=
  mkFilter idle idle (fun _ => idle) (fun _ => idle) (fun _ => idle) (fun _ => idle) (fun _ => idle) (fun _ => idle) (fun _ => idle) idle.

(** [HtmlEvent::Run] *)
Definition Run {S} (filter : HtmlFilter S) (event : HtmlEvent) : Handler S := fun s x =>
  match event with
  | StartDocumentEvent => on_StartDocument filter s x
  | EndDocumentEvent => on_EndDocument filter s x
  | StartElementEvent n => on_StartElement filter n s x
  | EndElementEvent n => on_EndElement filter n s x
  | LeafNodeEvent n =>
      match kind n x with
      | Some (LeafNode CharactersNode) => on_Characters filter n s x
      | Some (LeafNode CommentNode) => on_Comment filter n s x
      | Some (LeafNode CdataNode) => on_Cdata filter n s x
      | Some (LeafNode IEDirectiveNode) => on_IEDirective filter n s x
      | Some (LeafNode DirectiveNode) => on_Directive filter n s x
      | _ => None
      end
  end.

(** The loop of [ApplyFilter], with fuel: a filter could add events for ever. *)
Fixpoint ApplyFilter_loop {S} (fuel : nat) (filter : HtmlFilter S) (s : S) (x : HtmlParse) : option (S * HtmlParse) :=
  match current_ x with
  | None => Some (s, x)
  | Some _ =>
      match fuel with
      | O => None
      | Datatypes.S fuel =>
          event ← deref (current_ x) (queue_ x);
          '(s, x) ← Run filter event s x;
          x ← NextEvent x;
          ApplyFilter_loop fuel filter s x
      end
  end.

(** [id] is the filter's place in [filters_]. *)
Definition ApplyFilter {S} (id fuel : nat) (filter : HtmlFilter S) (s : S) (x : HtmlParse) : option (S * HtmlParse) :=
  x ← ApplyFilter_begin id x;
  '(s, x) ← ApplyFilter_loop fuel filter s x;
  '(s, x) ← on_Flush filter s x;
  x ← ApplyFilter_end x;
  Some (s, x).

(** ** Filters that edit one node at a time *)

Definition content (x : HtmlParse) (n : nat) : option Content := content_ <$> data n x.

(** What such a filter does at an event: nothing but to its own state at the ends of the
    document; elsewhere it gives the node a new content, or takes it away. *)
Record NodeSpec (S : Type) := mkSpec {
  doc_step : S -> HtmlEvent -> S;
  node_step : S -> HtmlEvent -> NodeKind -> Content -> option (S * option Content);
}.
Arguments mkSpec {S}.
Arguments doc_step {S}.
Arguments node_step {S}.

Definition with_content (n : nat) (c : Content) (cs : nat -> option Content) : nat -> option Content :=
  fun m => if decide (m = n) then Some c else cs m.

(** The state, the contents and the events after all of [evs]. *)
Fixpoint filtered {S} (sp : NodeSpec S) (kinds : nat -> option NodeKind) (s : S) (cs : nat -> option Content) (evs : list HtmlEvent)
    : option (S * (nat -> option Content) * list HtmlEvent) :=
  match evs with
  | [] => Some (s, cs, [])
  | ev :: evs =>
      match GetNode ev with
      | None => '(s, cs, evs) ← filtered sp kinds (doc_step sp s ev) cs evs; Some (s, cs, ev :: evs)
      | Some n =>
          k ← kinds n;
          c ← cs n;
          '(s, c) ← node_step sp s ev k c;
          match c with
          | Some c => '(s, cs, evs) ← filtered sp kinds s (with_content n c cs) evs; Some (s, cs, ev :: evs)
          | None => filtered sp kinds s cs evs
          end
      end
  end.

(** A content of the same sort, with the same tag. *)
Definition same_tag (c c' : Content) : Prop :=
  match c, c' with Tag name _ _, Tag name' _ _ => name' = name | Text _, Text _ => True | _, _ => False end.
Definition event_kind (ev : HtmlEvent) (k : NodeKind) : Prop :=
  match ev, k with
  | (StartElementEvent _ | EndElementEvent _), ElementNode | LeafNodeEvent _, LeafNode _ => True
  | _, _ => False
  end.

Record Implements {S} (F : HtmlFilter S) (sp : NodeSpec S) : Prop := {
  impl_doc s ev x : GetNode ev = None -> Run F ev s x = Some (doc_step sp s ev, x);
  impl_node s ev n k d x : GetNode ev = Some n -> kind n x = Some k -> data n x = Some d -> shaped k d -> event_kind ev k ->
    match node_step sp s ev k (content_ d) with
    | Some (s', Some c) => same_tag (content_ d) c /\ Run F ev s x = (x ← set_content n c x; Some (s', x))
    | Some (s', None) => (exists k', k = LeafNode k') /\ Run F ev s x = ('(x, _) ← DeleteNode n x; Some (s', x))
    | None => True
    end;
  impl_flush s x : on_Flush F s x = Some (s, x);
}.

(** ** The run *)

Lemma set_content_same n d x : data n x = Some d -> set_content n (content_ d) x = Some x.
Proof.
  intros E. unfold set_content. rewrite (modify_data_Some _ _ _ _ E). f_equal. unfold modify_node.
  replace (alter _ n (nodes_ x)) with (nodes_ x); [by destruct x|]. apply list_eq. intros i.
  destruct (decide (i = n)) as [->|Hi]; [|by rewrite list_lookup_alter_ne]. rewrite list_lookup_alter_eq.
  unfold data in E. destruct (nodes_ x !! n) as [[k p dt]|]; [|done]. cbn in E. subst dt. by destruct d.
Qed.

Lemma NextEvent_nodes x x' : NextEvent x = Some x' -> nodes_ x' = nodes_ x.
Proof. unfold NextEvent. destruct (skip_increment_ x); [by intros [= <-]|]. by intros (c & _ & [= <-])%bind_Some. Qed.

Lemma content_nodes x x' : nodes_ x' = nodes_ x -> forall n, content x' n = content x n.
Proof. intros E n. unfold content, data. by rewrite E. Qed.

Lemma place_at_end x : current_ x = None -> place x = length (events x).
Proof. intros E. unfold place, events. rewrite E. cbn. by rewrite length_fmap. Qed.

Section run.
Context {S : Type} (F : HtmlFilter S) (sp : NodeSpec S).
Hypothesis HF : Implements F sp.

(** The node of the current event, and its data. *)
Lemma current_data x base ev n :
  Sound x base -> current_event x = Some ev -> GetNode ev = Some n ->
  exists k d, kind n x = Some k /\ data n x = Some d /\ shaped k d /\ event_kind ev k.
Proof.
  intros HS Hev Hn. destruct (Sound_opened x base HS) as [HC _]. pose proof (Core_wf _ _ _ HC) as HW.
  assert (Hcur : is_Some (current_ x)) by (unfold current_event in Hev; destruct (current_ x); [by eexists|done]).
  destruct (current_cell x HW Hcur) as (A & c & ev' & R & HQ & _ & _ & Hev'). assert (ev' = ev) as -> by congruence.
  assert (Hq : (c, ev) ∈ queue_ x) by (rewrite HQ; apply elem_of_app; right; by left). apply (Core_link _ _ _ HC) in Hq.
  destruct ev as [| |m|m|m]; try done; injection Hn as ->; cbn in Hq.
  1,2: destruct Hq as (Hk & d & E & _); exists ElementNode, d; do 2 (split; [done|]); split; [by apply (Wf_shape x HW n)|done].
  destruct Hq as ([k Hk] & d & E & _). exists (LeafNode k), d. do 2 (split; [done|]). split; [by apply (Wf_shape x HW n)|done].
Qed.

(** The leaf of the current event is taken away. *)
Lemma delete_current x base n k A c R :
  Sound x base -> skip_increment_ x = false -> queue_ x = A ++ (c, LeafNodeEvent n) :: R -> current_ x = Some c -> place x = length A ->
  kind n x = Some (LeafNode k) ->
  exists x', DeleteNode n x = Some (x', true) /\ Sound x' base /\ edited x x' /\ view x' = mkDoc (A.*2 ++ R.*2) (length A) true /\ forall m, content x' m = content x m.
Proof.
  intros HS Hs HQ Hc Hp Hk. destruct (Sound_opened x base HS) as [HC Hst].
  assert (H1 : first_at n (view x) = Some (length A)) by (eapply (first_at_app x base _ HC A c); [done|by right]).
  assert (H2 : last_at n (view x) = Some (length A)) by (eapply (last_at_app x base _ HC A c); [done|by right]).
  assert (Hr : IsRewritable n x = true) by (apply (span_rewritable x base n HS); unfold span; rewrite H1, H2; by eexists).
  assert (Hq : (c, LeafNodeEvent n) ∈ queue_ x) by (rewrite HQ; apply elem_of_app; right; by left).
  pose proof (Core_link _ _ _ HC _ _ Hq) as (_ & d & E & Hl & Hb & He).
  assert (Hin : c ∈ (queue_ x).*1) by by apply (list_elem_of_fmap_2 fst) in Hq.
  assert (Hw : in_window n x = true).
  { unfold in_window. rewrite E, Hl, Hb, He. cbn. unfold in_queue. by rewrite bool_decide_eq_true_2. }
  assert (Hcl : clear_of n x = true) by (unfold clear_of; rewrite H1, H2; cbn; by rewrite Hs).
  destruct (DeleteNode_good x base _ n HC Hr Hw Hcl) as (x' & i & j & Hd & Hi & Hj & Hg). exists x'. split; [done|].
  assert (i = length A /\ j = length A) as [-> ->] by (split; congruence).
  destruct (Sound_good x base _ x' HS Hg) as [HS' Hv]. split; [done|]. split; [apply Hg|]. split.
  - rewrite Hv. unfold d_remove, view, events. cbn [doc here gone]. rewrite Hp, HQ, Nat.sub_succ_l, Nat.sub_diag by done.
    rewrite decide_False, bool_decide_eq_true_2 by lia. rewrite orb_true_r. f_equal. rewrite fmap_app. cbn.
    rewrite take_app_length' by by rewrite length_fmap. f_equal.
    rewrite drop_app_ge by (rewrite length_fmap; lia). rewrite length_fmap. by replace (length A + 1 - length A)%nat with 1%nat by lia.
  - intros m. apply IsRewritable_and in Hr as Hr'. destruct (complete_node x base _ n HC) as (A' & s & T & Hat); [by apply Hr'|done|].
    rewrite (DeleteNode_at x base _ n A' s T HC Hr Hat) in Hd; [|by apply (clear_of_cells x base _ n A' s T HC Hat Hcl)].
    injection Hd as <-. unfold content. change (data m (touched (removed A' s T x))) with (data m (kill s x)).
    rewrite kill_data by by apply (segment_ended x base _ n A' s T HC Hat). destruct (decide _); [|done]. by destruct (data m x).
Qed.

(** The state of the parser between two events of the loop, and what is left of the run. *)
Record between_events (base : list nat) (kinds : nat -> option NodeKind) (cs : nat -> option Content) (x : HtmlParse) : Prop := {
  be_sound : Sound x base;
  be_skip : skip_increment_ x = false;
  be_content n : content x n = cs n;
  be_kind n k : kinds n = Some k -> kind n x = Some k;
}.

(** On to the next event. *)
Lemma advance_current base kinds cs x x1 d :
  Sound x1 base -> edited x x1 -> (forall n, content x1 n = cs n) -> (forall n k, kinds n = Some k -> kind n x = Some k) -> view x1 = d ->
  skip_increment_ x1 = true \/ is_Some (current_ x1) ->
  exists x2, NextEvent x1 = Some x2 /\ between_events base kinds cs x2 /\ edited x x2 /\ view x2 = d_next d.
Proof.
  intros HS He Hct Hk Hv Hs. destruct (Sound_opened x1 base HS) as [HC _]. destruct (NextEvent_good x1 base _ HC Hs) as (x2 & Hr & Hg).
  destruct (Sound_good x1 base _ x2 HS Hg) as [HS2 Hv2]. destruct Hg as (_ & He2 & _). assert (He' : edited x x2) by by eapply edited_trans.
  exists x2. split; [done|]. split; [|split; [done|by rewrite Hv2, Hv]]. split; [done| | |].
  - change (skip_increment_ x2) with (gone (view x2)). by rewrite Hv2.
  - intros n. rewrite <- Hct. apply content_nodes. by apply (NextEvent_nodes x1).
  - intros n k E. by apply He', Hk.
Qed.

(** The first event of the rest and what the filter does at it. *)
Lemma event_step base kinds cs s x A c ev R s' cs' evs' :
  between_events base kinds cs x -> queue_ x = A ++ (c, ev) :: R -> current_ x = Some c -> place x = length A -> current_event x = Some ev ->
  filtered sp kinds s cs (ev :: R.*2) = Some (s', cs', evs') ->
  exists s1 x1 x2 cs1 kept evs1, Run F ev s x = Some (s1, x1) /\ NextEvent x1 = Some x2 /\ between_events base kinds cs1 x2 /\ edited x x2 /\
    view x2 = mkDoc ((A.*2 ++ kept) ++ R.*2) (length (A.*2 ++ kept)) false /\ filtered sp kinds s1 cs1 R.*2 = Some (s', cs', evs1) /\ evs' = kept ++ evs1.
Proof.
  intros [HS Hs Hct Hk] HQ Hc Hp Hev H. destruct (Sound_opened x base HS) as [HC _].
  assert (Hview : d_next (view x) = mkDoc ((A.*2 ++ [ev]) ++ R.*2) (length (A.*2 ++ [ev])) false).
  { unfold d_next, view, events. cbn [gone doc here]. rewrite Hs, HQ, Hp, fmap_app, fmap_cons, length_app, length_fmap. cbn.
    rewrite <- app_assoc. f_equal; lia. }
  cbn [filtered] in H. destruct (GetNode ev) as [n|] eqn:En.
  - destruct (current_data x base ev n HS Hev En) as (k & d & Ek & Ed & Hsh & Hek). apply bind_Some in H as (k' & Ek' & H).
    pose proof (Hk n k' Ek') as Hk'. assert (k' = k) as -> by congruence. assert (Hcs : cs n = Some (content_ d)) by (rewrite <- Hct; unfold content; by rewrite Ed).
    rewrite Hcs in H. cbn [mbind option_bind] in H. pose proof (impl_node F sp HF s ev n k d x En Ek Ed Hsh Hek) as Hi.
    destruct (node_step sp s ev k (content_ d)) as [[s1 [c1|]]|]; [| |done]; cbn [mbind option_bind] in H.
    + destruct Hi as [Htag Hrun]. destruct (set_content_good x base _ n d c1 HC Ed) as (x1 & Hset & Hg & _ & Hdt).
      { destruct (content_ d), c1; done. }
      rewrite Hset in Hrun. cbn [mbind option_bind] in Hrun. destruct (Sound_good x base _ x1 HS Hg) as [HS1 Hv1].
      assert (Hc1 : is_Some (current_ x1)).
      { assert (current_ x1 = current_ x) as ->; [|by rewrite Hc]. unfold set_content, modify_data in Hset. apply bind_Some in Hset as (d0 & _ & [= <-]). done. }
      destruct (advance_current base kinds (with_content n c1 cs) x x1 (view x)) as (x2 & Hn & Hb & He & Hv); [done|apply Hg| |done..|by right|].
      { intros m. unfold with_content, content. rewrite Hdt. case_decide; [done|apply Hct]. }
      apply bind_Some in H as ([[s0 cs0] evs0] & Hf & [= <- <- <-]). exists s1, x1, x2, (with_content n c1 cs), [ev], evs0.
      do 4 (split; [done|]). by rewrite Hv.
    + destruct Hi as [[k' ->] Hrun]. assert (ev = LeafNodeEvent n) as -> by (destruct ev; try done; by injection En as ->).
      destruct (delete_current x base n k' A c R HS Hs HQ Hc Hp Ek) as (x1 & Hd & HS1 & He1 & Hv1 & Hc1). rewrite Hd in Hrun. cbn [mbind option_bind] in Hrun.
      destruct (advance_current base kinds cs x x1 (mkDoc (A.*2 ++ R.*2) (length A) true)) as (x2 & Hn & Hb & He & Hv); [done..| |done|done| |].
      { intros m. by rewrite Hc1. }
      { left. change (skip_increment_ x1) with (gone (view x1)). by rewrite Hv1. }
      exists s1, x1, x2, cs, [], evs'. do 4 (split; [done|]). rewrite app_nil_r, length_fmap. by rewrite Hv.
  - rewrite (impl_doc F sp HF s ev x En).
    destruct (advance_current base kinds cs x x (view x)) as (x2 & Hn & Hb & He & Hv); [done|apply edited_refl|done..|by right; rewrite Hc|].
    apply bind_Some in H as ([[s0 cs0] evs0] & Hf & [= <- <- <-]). exists (doc_step sp s ev), x, x2, cs, [ev], evs0.
    do 4 (split; [done|]). by rewrite Hv.
Qed.

Lemma loop_ok base kinds fuel : forall cs s x s' cs' evs',
  between_events base kinds cs x -> (length (events x) - place x <= fuel)%nat ->
  filtered sp kinds s cs (drop (place x) (events x)) = Some (s', cs', evs') ->
  exists x', ApplyFilter_loop fuel F s x = Some (s', x') /\ between_events base kinds cs' x' /\ edited x x' /\ current_ x' = None /\
    events x' = take (place x) (events x) ++ evs'.
Proof.
  induction fuel as [|fuel IH]; intros cs s x s' cs' evs' Hb Hf H; cbn [ApplyFilter_loop]; destruct (current_ x) as [c0|] eqn:Ec.
  2,4: rewrite place_at_end in H |- * by done; rewrite drop_all in H; cbn in H; injection H as <- <- <-; exists x;
    split; [done|]; split; [done|]; split; [apply edited_refl|]; split; [done|]; by rewrite firstn_all, app_nil_r.
  1: destruct Hb as [HS _ _ _]. 2: pose proof (be_sound _ _ _ _ Hb) as HS.
  all: destruct (Sound_opened x base HS) as [HC _]; destruct (current_cell x (Core_wf _ _ _ HC)) as (A & c & ev & R & HQ & Hc & Hp & Hev); [by rewrite Ec|].
  all: assert (HE : events x = A.*2 ++ ev :: R.*2) by (unfold events; by rewrite HQ, fmap_app).
  - rewrite HE, length_app, length_fmap in Hf. cbn in Hf. lia.
  - rewrite HE, Hp in H |- *. rewrite <- (length_fmap snd A) in H |- *. rewrite drop_app_length in H. rewrite take_app_length.
    destruct (event_step base kinds cs s x A c ev R s' cs' evs') as (s1 & x1 & x2 & cs1 & kept & evs1 & Hr & Hn & Hb2 & He & Hv & Hf2 & ->); [done..|].
    assert (Hd : deref (Some c0) (queue_ x) = Some ev) by (unfold current_event in Hev; by rewrite Ec in Hev).
    rewrite Hd. cbn [mbind option_bind]. rewrite Hr. cbn [mbind option_bind]. rewrite Hn. cbn [mbind option_bind].
    pose proof (f_equal doc Hv) as Hv1. pose proof (f_equal here Hv) as Hv2. cbn [doc here view] in Hv1, Hv2.
    destruct (IH cs1 s1 x2 s' cs' evs1 Hb2) as (x' & Hl & Hb' & He' & Hc' & HE').
    { rewrite Hv1, Hv2, !length_app. rewrite HE, Hp, !length_app, !length_fmap in Hf. cbn [length] in Hf. rewrite !length_fmap in *. lia. }
    { by rewrite Hv1, Hv2, drop_app_length. }
    exists x'. split; [done|]. split; [done|]. split; [by eapply edited_trans|]. split; [done|]. rewrite HE', Hv1, Hv2, take_app_length. by rewrite <- app_assoc.
Qed.

Lemma ApplyFilter_end_nodes x x' : ApplyFilter_end x = Some x' -> nodes_ x' = nodes_ x.
Proof.
  unfold ApplyFilter_end. destruct (current_ x); [done|]. intros (y & Hy & [= <-])%bind_Some. change (nodes_ y = nodes_ x).
  destruct (need_sanity_check_ x); [|by injection Hy as ->]. apply bind_Some in Hy as (w & Hw & [= <-]). unfold SanityCheck in Hw.
  by apply bind_Some in Hw as (_ & _ & [= <-]).
Qed.

(** A filter's run over the window is the fold of its steps over the events that
    [ApplyFilter] starts with. *)
Lemma ApplyFilter_run id x base s :
  Sound x base -> current_filter_ x = None -> current_ x = None -> skip_increment_ x = false ->
  exists z, ApplyFilter_begin id x = Some z /\ Sound z base /\ forall fuel s' cs' evs',
    filtered sp (fun n => kind n z) s (content z) (events z) = Some (s', cs', evs') -> (length (events z) <= fuel)%nat ->
    exists x', ApplyFilter id fuel F s x = Some (s', x') /\ Sound x' base /\ current_filter_ x' = None /\ current_ x' = None /\
      skip_increment_ x' = false /\ events x' = evs' /\ (forall n, content x' n = cs' n) /\ (forall n k, kind n z = Some k -> kind n x' = Some k).
Proof.
  intros HS Hf Hc Hs. destruct (ApplyFilter_begin_ok x base id HS Hf Hc) as (z & Hz & HSz & Hfz & Hh & Hg & _).
  exists z. split; [done|]. split; [done|]. intros fuel s' cs' evs' H Hfuel.
  assert (Hb : between_events base (fun n => kind n z) (content z) z) by (split; [done|by change (skip_increment_ z) with (gone (view z)); rewrite Hg|done..]).
  change (place z = O) in Hh.
  destruct (loop_ok base (fun n => kind n z) fuel (content z) s z s' cs' evs' Hb) as (y & Hl & Hby & He & Hcy & HE); [lia|by rewrite Hh|].
  unfold ApplyFilter. rewrite Hz. cbn [mbind option_bind]. rewrite Hl. cbn [mbind option_bind]. rewrite (impl_flush F sp HF). cbn [mbind option_bind].
  destruct (ApplyFilter_end_ok y base (be_sound _ _ _ _ Hby) Hcy) as (x' & Hx & HS' & Hf' & Hc' & Hct & _ & Hsk). rewrite Hx. exists x'.
  pose proof (ApplyFilter_end_nodes y x' Hx) as Hn. do 4 (split; [done|]). split; [by rewrite Hsk, (be_skip _ _ _ _ Hby)|]. split; [|split].
  - rewrite Hh in HE. change (events y = evs') in HE. rewrite <- HE. apply (f_equal (fmap fst)) in Hct. unfold contents in Hct. rewrite <- !list_fmap_compose in Hct.
    unfold compose in Hct. cbn in Hct. by rewrite !list_fmap_id in Hct.
  - intros n. rewrite (content_nodes _ _ Hn). apply Hby.
  - intros n k Hk. unfold kind. rewrite Hn. by apply (be_kind _ _ _ _ Hby).
Qed.
End run.

(** ** Runs that change each node on its own *)

Section pointwise.
Context {S : Type} (sp : NodeSpec S) (f : S -> HtmlEvent -> NodeKind -> Content -> S) (g : HtmlEvent -> NodeKind -> Content -> Content).
Hypothesis Hstep : forall s ev k c, node_step sp s ev k c = Some (f s ev k c, Some (g ev k c)).
Variable kinds : nat -> option NodeKind.

(** Every event has a node with a content. *)
Definition covers (cs : nat -> option Content) (evs : list HtmlEvent) : Prop :=
  forall ev n, ev ∈ evs -> GetNode ev = Some n -> is_Some (kinds n) /\ is_Some (cs n).

Definition change (n : nat) (ev : HtmlEvent) (c : option Content) : option Content :=
  if decide (GetNode ev = Some n) then k ← kinds n; g ev k <$> c else c.

Lemma filtered_each evs : forall s cs, covers cs evs ->
  exists s' cs', filtered sp kinds s cs evs = Some (s', cs', evs) /\ forall n, cs' n = foldl (fun c ev => change n ev c) (cs n) evs.
Proof.
  induction evs as [|ev evs IH]; intros s cs Hc; [by exists s, cs|]. cbn [filtered]. destruct (GetNode ev) as [n|] eqn:En.
  - destruct (Hc ev n) as [[k Hk] [c Hcn]]; [by left|done|]. rewrite Hk, Hcn. cbn [mbind option_bind]. rewrite Hstep. cbn [mbind option_bind].
    destruct (IH (f s ev k c) (with_content n (g ev k c) cs)) as (s' & cs' & -> & Hcs).
    { intros ev' m Hi Hm. destruct (Hc ev' m) as [H1 H2]; [by right|done|]. split; [done|]. unfold with_content. case_decide; [by eexists|done]. }
    exists s', cs'. split; [done|]. intros m. rewrite Hcs. cbn [foldl]. f_equal. unfold with_content, change. rewrite En.
    destruct (decide (m = n)) as [->|Hm]; [by rewrite decide_True, Hk, Hcn|by rewrite decide_False by congruence].
  - destruct (IH (doc_step sp s ev) cs) as (s' & cs' & -> & Hcs); [intros ev' m Hi; apply Hc; by right|].
    exists s', cs'. split; [done|]. intros m. rewrite Hcs. cbn [foldl]. assert (change m ev (cs m) = cs m) as ->; [|done]. unfold change. by rewrite decide_False by congruence.
Qed.

(** Only one of the events of a node changes it. *)
Lemma changed_once (P : HtmlEvent -> Prop) `{!forall ev, Decision (P ev)} evs n k c :
  kinds n = Some k -> (forall ev c, GetNode ev = Some n -> ~ P ev -> g ev k c = c) -> (forall ev ev', P ev -> P ev' -> GetNode ev = Some n -> GetNode ev' = Some n -> ev' = ev) -> once evs ->
  foldl (fun c ev => change n ev c) (Some c) evs =
  Some match list_find (fun ev => P ev /\ GetNode ev = Some n) evs with Some (_, ev) => g ev k c | None => c end.
Proof.
  intros Hk Hid Hu. revert c. induction evs as [|ev evs IH]; intros c Ho; [done|]. cbn [foldl list_find].
  assert (Hni : GetNode ev = Some n -> ev ∉ evs) by (intros En; by apply (Ho [] ev n evs eq_refl En)).
  assert (Ho' : once evs) by by eapply (once_app_r [ev]).
  unfold change at 2. rewrite Hk. destruct (decide (GetNode ev = Some n)) as [En|En].
  - cbn [mbind option_bind fmap option_fmap option_map]. destruct (decide (P ev)) as [HP|HP].
    + rewrite decide_True by done. rewrite IH by done. destruct (list_find _ evs) as [[i ev']|] eqn:Ef; [|done].
      apply list_find_Some in Ef as (Hi & [HP' En'] & _). apply list_elem_of_lookup_2 in Hi. rewrite (Hu ev ev') in Hi by done. by destruct (Hni En).
    + rewrite decide_False by tauto. rewrite Hid by done. rewrite IH by done. by destruct (list_find _ evs) as [[i ev']|].
  - rewrite decide_False by tauto. rewrite IH by done. by destruct (list_find _ evs) as [[i ev']|].
Qed.
End pointwise.

(** The events of a sound window have nodes. *)
Lemma window_covers x base : Sound x base -> covers (fun n => kind n x) (content x) (events x).
Proof.
  intros HS ev n ([c ev'] & -> & Hq)%list_elem_of_fmap Hn. destruct (Sound_opened x base HS) as [HC _]. apply (Core_link _ _ _ HC) in Hq. cbn in *.
  unfold content. destruct ev' as [| |m|m|m]; try done; injection Hn as ->.
  1,2: destruct Hq as (Hk & d & E & _); rewrite E; split; by eexists.
  destruct Hq as ([k Hk] & d & E & _). rewrite E. split; by eexists.
Qed.

Lemma window_once x base : Sound x base -> once (events x).
Proof. intros HS. destruct (Sound_opened x base HS) as [HC _]. by apply (Core_once _ _ _ HC). Qed.
