(* ===== verification/HtmlFilters.v ===== *)
(** * HTML filters: six of them

    src/pagespeed/kernel/html/: html_attribute_quote_removal.cc, remove_comments_filter.cc,
    explicit_close_tag.cc, canonical_attributes.cc, elide_attributes_filter.cc and
    collapse_whitespace_filter.cc. The callbacks that a filter does not have are those of
    [EmptyHtmlFilter].

    The doctype is the one the parser answers; an attribute decodes its value each time it
    is asked (HtmlAttribute shows that keeping it makes no difference). *)

From S2P Require Import Prelude StringUtil HtmlKeywords HtmlLexer HtmlParse HtmlParseInv HtmlAttribute Doctype HtmlFilter.

(** ** What a callback sees of a node *)

Definition element (n : nat) (x : HtmlParse) : option (HtmlName * list Attribute * Style) :=
  d ← data n x; match content_ d with Tag name attrs style => Some (name, attrs, style) | Text _ => None end.
Definition text (n : nat) (x : HtmlParse) : option bytes := d ← data n x; match content_ d with Text t => Some t | Tag _ _ _ => None end.
Definition set_style (n : nat) (style : Style) (x : HtmlParse) : option HtmlParse :=
  '(name, attrs, _) ← element n x; set_content n (Tag name attrs style) x.

(** ** [HtmlAttributeQuoteRemoval] *)

Definition kNoQuoteChars : bytes := lit "abcdefghijklmnopqrstuvwxyzABCDEFGHIJKLMNOPQRSTUVWXYZ0123456789-._:/".

(** The loop leaves [i] at 0 when the string is empty or its first byte needs quotes. *)
Definition NeedsQuotes (val : option bytes) : bool :=
  match val with
  | Some (c :: s) => existsb (fun c => negb (one_of kNoQuoteChars c)) (c :: s)
  | _ => true
  end.

Definition removes_quotes (a : Attribute) : bool :=
  match quote_style_ a with NO_QUOTE => false | _ => negb (NeedsQuotes (escaped_value a)) end.
Definition remove_quotes (a : Attribute) : Attribute :=
  if removes_quotes a then mkAttribute (attr_name a) (escaped_value_ a) NO_QUOTE else a.

Section doctype.
Variable doctype : DocType.

(** The state is [total_quotes_removed_]. *)
Definition quote_removal_StartElement (n : nat) : Handler Z := fun total x =>
  if IsXhtml doctype then Some (total, x)
  else
    '(_, attrs, _) ← element n x;
    let rewritten := Z.of_nat (length (filter (fun a => removes_quotes a = true) attrs)) in
    x ← modify_attributes n (map remove_quotes) x;
    Some (if 0 <? rewritten then total + rewritten else total, x).
Definition HtmlAttributeQuoteRemoval : HtmlFilter Z :=
  mkFilter idle idle quote_removal_StartElement (fun _ => idle) (fun _ => idle) (fun _ => idle) (fun _ => idle) (fun _ => idle) (fun _ => idle) idle.

(** ** [RemoveCommentsFilter] *)

Definition is_retained (options : option (bytes -> bool)) (comment : bytes) : bool :=
  match options with Some IsRetainedComment => IsRetainedComment comment | None => false end.
Definition remove_comments_Comment (options : option (bytes -> bool)) (n : nat) : Handler unit := fun s x =>
  comment ← text n x;
  if is_retained options comment then Some (s, x) else '(x, _) ← DeleteNode n x; Some (s, x).
Definition RemoveCommentsFilter (options : option (bytes -> bool)) : HtmlFilter unit :=
  mkFilter idle idle (fun _ => idle) (fun _ => idle) (fun _ => idle) (remove_comments_Comment options) (fun _ => idle) (fun _ => idle) (fun _ => idle) idle.

(** ** [ExplicitCloseTag] *)

Definition explicit_style (style : Style) : Style := match style with AUTO_CLOSE | UNCLOSED => EXPLICIT_CLOSE | _ => style end.
Definition explicit_close_EndElement (n : nat) : Handler unit := fun s x =>
  '(_, _, style) ← element n x;
  match style with
  | AUTO_CLOSE | UNCLOSED => x ← set_style n EXPLICIT_CLOSE x; Some (s, x)
  | _ => Some (s, x)
  end.
Definition ExplicitCloseTag : HtmlFilter unit :=
  mkFilter idle idle (fun _ => idle) explicit_close_EndElement (fun _ => idle) (fun _ => idle) (fun _ => idle) (fun _ => idle) (fun _ => idle) idle.

(** ** [CanonicalAttributes] *)

Record Counts := mkCounts { num_changes_ : Z; num_errors_ : Z }.

Definition canonical (a : Attribute) : Attribute :=
  if undecodable a then a else match DecodedValueOrNull a with Some value => raw_escaped (Some (Escape value)) a | None => a end.
Definition count_attribute (c : Counts) (a : Attribute) : Counts :=
  if undecodable a then mkCounts (num_changes_ c) (num_errors_ c + 1)
  else match DecodedValueOrNull a with Some _ => mkCounts (num_changes_ c + 1) (num_errors_ c) | None => c end.
Definition canonical_StartElement (n : nat) : Handler Counts := fun c x =>
  '(_, attrs, _) ← element n x;
  x ← modify_attributes n (map canonical) x;
  Some (fold_left count_attribute attrs c, x).
Definition CanonicalAttributes : HtmlFilter Counts :=
  mkFilter (fun _ x => Some (mkCounts 0 0, x)) idle canonical_StartElement (fun _ => idle) (fun _ => idle) (fun _ => idle) (fun _ => idle) (fun _ => idle) (fun _ => idle) idle.

(** ** [ElideAttributesFilter] *)

Definition kBooleanAttrs : list (string * string) :=
  [
   ("audio", "autoplay"); ("audio", "controls"); ("audio", "loop"); ("audio", "muted"); ("button", "autofocus"); ("button", "disabled");
   ("details", "open"); ("dialog", "open"); ("fieldset", "disabled"); ("form", "novalidate"); ("frame", "noresize");
   ("iframe", "allowfullscreen"); ("img", "ismap"); ("input", "autofocus"); ("input", "checked"); ("input", "disabled");
   ("input", "formnovalidate"); ("input", "multiple"); ("input", "readonly"); ("input", "required"); ("ol", "reversed");
   ("optgroup", "disabled"); ("option", "disabled"); ("option", "selected"); ("script", "async"); ("script", "defer");
   ("select", "autofocus"); ("select", "disabled"); ("select", "multiple"); ("select", "required"); ("textarea", "autofocus");
   ("textarea", "disabled"); ("textarea", "readonly"); ("textarea", "required"); ("video", "autoplay"); ("video", "controls");
   ("video", "loop"); ("video", "muted"); ("video", "playsinline")
  ]%string.

Definition kDefaultList : list (string * string * string * bool) :=
  [
   ("a", "shape", "rect", false); ("area", "shape", "rect", false); ("form", "autocomplete", "on", true);
   ("form", "enctype", "application/x-www-form-urlencoded", false); ("form", "method", "get", false); ("frame", "frameborder", "1", false);
   ("frame", "scrolling", "auto", false); ("iframe", "frameborder", "1", false); ("iframe", "scrolling", "auto", false);
   ("img", "loading", "eager", true); ("img", "decoding", "auto", true); ("img", "fetchpriority", "auto", true);
   ("link", "media", "all", true); ("link", "fetchpriority", "auto", true); ("menu", "type", "list", true);
   ("param", "valuetype", "data", false); ("script", "language", "javascript", true); ("script", "type", "text/javascript", true);
   ("script", "fetchpriority", "auto", true); ("source", "media", "all", true); ("style", "type", "text/css", true);
   ("style", "media", "all", true); ("textarea", "wrap", "soft", true); ("col", "span", "1", false); ("colgroup", "span", "1", false);
   ("td", "colspan", "1", false); ("td", "rowspan", "1", false); ("th", "colspan", "1", false); ("th", "rowspan", "1", false)
  ]%string.

Definition kw (s : string) : Keyword := Some (lit s).

(** The maps of the constructor; a later entry of a table replaces an earlier one. *)
Definition one_value_attrs_map_ : list (Keyword * Keyword) := (fun '(tag, attr) => (kw tag, kw attr)) <$> kBooleanAttrs.
Record AttrValue := mkAttrValue { attr_value : bytes; requires_version_5 : bool }.
Definition default_value_map_ : list (Keyword * Keyword * AttrValue) :=
  (fun '(tag, attr, value, five) => (kw tag, kw attr, mkAttrValue (lit value) five)) <$> reverse kDefaultList.
Definition find_default (tag attr : Keyword) : option AttrValue :=
  (fun '(_, (_, v)) => v) <$> list_find (fun e => e.1 = (tag, attr)) default_value_map_.

Definition elide_value (tag : Keyword) (a : Attribute) : Attribute :=
  match escaped_value a with
  | Some _ => if bool_decide ((tag, keyword_ (attr_name a)) ∈ one_value_attrs_map_) then raw_escaped None a else a
  | None => a
  end.
Definition is_default (tag : Keyword) (a : Attribute) : bool :=
  match DecodedValueOrNull a with
  | Some value =>
      match find_default tag (keyword_ (attr_name a)) with
      | Some v => (negb (requires_version_5 v) || IsVersion5 doctype) && StringCaseEqual value (attr_value v)
      | None => false
      end
  | None => false
  end.
Definition elide (tag : Keyword) (attrs : list Attribute) : list Attribute :=
  let attrs := if IsXhtml doctype then attrs else map (elide_value tag) attrs in
  filter (fun a => is_default tag a = false) attrs.
Definition elide_StartElement (n : nat) : Handler unit := fun s x =>
  '(name, _, _) ← element n x;
  x ← modify_attributes n (elide (keyword_ name)) x;
  Some (s, x).
Definition ElideAttributesFilter : HtmlFilter unit :=
  mkFilter idle idle elide_StartElement (fun _ => idle) (fun _ => idle) (fun _ => idle) (fun _ => idle) (fun _ => idle) (fun _ => idle) idle.
End doctype.

(** ** [CollapseWhitespaceFilter] *)

(** Sorted, so the binary search finds every one. *)
Definition kSensitiveTags : list bytes := [lit "code"; lit "pre"; lit "script"; lit "style"; lit "textarea"].
Definition IsSensitiveKeyword (keyword : Keyword) : bool := match keyword with Some k => bool_decide (k ∈ kSensitiveTags) | None => false end.
Definition IsSensitiveElement (name : HtmlName) : bool :=
  match keyword_ name with
  | Some _ => IsSensitiveKeyword (keyword_ name)
  | None => StringCaseEqual (str_ name) (lit "script") || StringCaseEqual (str_ name) (lit "style")
  end.

(** The state is [sensitive_stack_], its back first. *)
Definition collapse_StartElement (n : nat) : Handler (list nat) := fun s x =>
  '(name, _, _) ← element n x; Some (if IsSensitiveElement name then n :: s else s, x).
Definition collapse_EndElement (n : nat) : Handler (list nat) := fun s x =>
  '(name, _, _) ← element n x;
  match s with
  | m :: s' => if decide (n = m) then Some (s', x) else if IsSensitiveElement name then None else Some (s, x)
  | [] => if IsSensitiveElement name then None else Some (s, x)
  end.

Definition collapsible (c : ascii) : bool := one_of [" "%char; tab; cr; ff] c.

(** The loop over the buffer: [read] and [write] are the offsets of its pointers. *)
Fixpoint collapse_loop (fuel : nat) (contents : bytes) (read write in_whitespace : nat) : bytes :=
  match fuel with
  | O => take write contents
  | S fuel =>
      match contents !! read with
      | None => take write contents
      | Some ch =>
          if collapsible ch then
            if decide (in_whitespace = 0%nat) then collapse_loop fuel (<[write := ch]> contents) (S read) (S write) 1
            else collapse_loop fuel contents (S read) write in_whitespace
          else if ch =c nl then
            collapse_loop fuel (<[(write - in_whitespace)%nat := ch]> contents) (S read) (S (write - in_whitespace)) 1
          else collapse_loop fuel (<[write := ch]> contents) (S read) (S write) 0
      end
  end.
Definition collapse (contents : bytes) : bytes := collapse_loop (length contents) contents 0 0 0.

Definition collapse_Characters (n : nat) : Handler (list nat) := fun s x =>
  match s with
  | [] => x ← modify_contents n collapse x; Some (s, x)
  | _ => Some (s, x)
  end.
Definition CollapseWhitespaceFilter : HtmlFilter (list nat) :=
  mkFilter (fun _ x => Some ([], x)) idle collapse_StartElement collapse_EndElement (fun _ => idle) (fun _ => idle) (fun _ => idle) collapse_Characters (fun _ => idle) idle.
