(* ===== verification/HtmlFiltersSpec.v ===== *)
(** * HTML filters: what they do to a page *)

From S2P Require Import Prelude StringUtil HtmlKeywords HtmlLexer HtmlWriter HtmlEvents HtmlParse HtmlParseWalk HtmlParseInv HtmlParseDoc HtmlParseOps HtmlParseFlush HtmlParseSpec HtmlWriterSpec HtmlAttribute HtmlAttributeRead Doctype HtmlFilter HtmlFilters.

(** ** Filters of elements *)

(** A filter that acts when an element starts, or when it ends: it gives the element the
    attributes and the style [h], and its own state [g]. *)
Section elements.
Context {S : Type} (F : HtmlFilter S) (on_doc : S -> HtmlEvent -> S) (mine : nat -> HtmlEvent) (g : S -> list Attribute -> S)
  (h : HtmlName -> list Attribute -> Style -> list Attribute * Style).
Hypothesis Hmine : mine = StartElementEvent \/ mine = EndElementEvent.

Definition edited_tag (name : HtmlName) (attrs : list Attribute) (style : Style) : Content := let '(attrs, style) := h name attrs style in Tag name attrs style.
Definition is_mine (ev : HtmlEvent) : Prop := exists n, GetNode ev = Some n /\ ev = mine n.
#[local] Instance is_mine_dec ev : Decision (is_mine ev).
Proof.
  destruct (GetNode ev) as [n|] eqn:E; [destruct (decide (ev = mine n)) as [H|H]|]; [left; by exists n|right..]; intros (m & Em & Hm); congruence.
Defined.

Definition element_spec : NodeSpec S :=
  mkSpec on_doc (fun s ev _ c =>
    match c with
    | Tag name attrs style => if decide (is_mine ev) then Some (g s attrs, Some (edited_tag name attrs style)) else Some (s, Some c)
    | Text _ => Some (s, Some c)
    end).

Record element_filter : Prop := {
  ef_doc s ev x : GetNode ev = None -> Run F ev s x = Some (on_doc s ev, x);
  ef_other s ev x k n : GetNode ev = Some n -> kind n x = Some k -> event_kind ev k -> ev <> mine n -> Run F ev s x = Some (s, x);
  ef_mine s n x name attrs style d : data n x = Some d -> content_ d = Tag name attrs style ->
    Run F (mine n) s x = (x ← set_content n (edited_tag name attrs style) x; Some (g s attrs, x));
  ef_flush s x : on_Flush F s x = Some (s, x);
}.
Hypothesis HF : element_filter.

Lemma mine_node n : GetNode (mine n) = Some n.
Proof. by destruct Hmine as [-> | ->]. Qed.

Lemma element_implements : Implements F element_spec.
Proof.
  split; [apply HF| |apply HF]. intros s ev n k d x En Ek Ed Hsh Hk. unfold element_spec. cbn [node_step].
  destruct (content_ d) as [name attrs style|t] eqn:Ec.
  - destruct (decide (is_mine ev)) as [(m & Em & ->)|Hm].
    + assert (m = n) as -> by congruence. split; [unfold edited_tag; by destruct (h name attrs style)|]. by eapply ef_mine.
    + split; [done|]. rewrite <- Ec, (set_content_same n d x Ed). eapply (ef_other HF); [done..|]. intros ->. apply Hm. by exists n.
  - split; [done|]. rewrite <- Ec, (set_content_same n d x Ed). eapply (ef_other HF); [done..|]. intros ->.
    unfold shaped in Hsh. rewrite Ec in Hsh. destruct Hmine as [-> | ->]; by destruct k.
Qed.

(** The elements whose start, or end, is in the window. *)
Definition acts_on (n : nat) (evs : list HtmlEvent) : bool := bool_decide (mine n ∈ evs).

Lemma element_run id x base s :
  Sound x base -> current_filter_ x = None -> current_ x = None -> skip_increment_ x = false ->
  exists z s' x', ApplyFilter_begin id x = Some z /\ ApplyFilter id (length (events z)) F s x = Some (s', x') /\ Sound x' base /\ events x' = events z /\
    forall n, content x' n = match content z n with
      | Some (Tag name attrs style) => Some (if acts_on n (events z) then edited_tag name attrs style else Tag name attrs style)
      | c => c
      end.
Proof.
  intros HS H1 H2 H3. destruct (ApplyFilter_run F element_spec element_implements id x base s HS H1 H2 H3) as (z & Hz & HSz & Hrun).
  set (gc := fun ev (_ : NodeKind) c => match c with Tag name attrs style => if decide (is_mine ev) then edited_tag name attrs style else c | Text _ => c end).
  destruct (filtered_each element_spec (fun s ev _ c => match c with Tag _ attrs _ => if decide (is_mine ev) then g s attrs else s | Text _ => s end) gc) with
    (kinds := fun n => kind n z) (evs := events z) (s := s) (cs := content z) as (s' & cs' & Hf & Hcs).
  { intros s0 ev k c. unfold element_spec, gc. cbn. destruct c; [by case_decide|done]. }
  { by eapply window_covers. }
  destruct (Hrun _ s' cs' _ Hf (le_n _)) as (x' & Ha & HS' & _ & _ & _ & He & Hc & _). exists z, s', x'. do 4 (split; [done|]).
  intros n. rewrite Hc, Hcs. destruct (content z n) as [c|] eqn:Ec.
  - assert (exists k, kind n z = Some k) as [k Hk].
    { unfold content, data, kind in *. destruct (nodes_ z !! n) as [nd|]; [by eexists|done]. }
    rewrite (changed_once gc (fun n => kind n z) is_mine (events z) n k c Hk).
    + unfold acts_on. destruct (list_find _ (events z)) as [[i ev]|] eqn:Ef.
      * apply list_find_Some in Ef as (Hi & [(m & Em & ->) En] & _). assert (m = n) as -> by congruence. apply list_elem_of_lookup_2 in Hi.
        rewrite bool_decide_eq_true_2 by done. unfold gc. destruct c; [|done]. rewrite decide_True; [done|]. by exists n.
      * rewrite bool_decide_eq_false_2; [by destruct c|]. intros Hi. apply list_find_None in Ef. rewrite Forall_forall in Ef.
        apply (Ef _ Hi). split; [|apply mine_node]. exists n. split; [apply mine_node|done].
    + intros ev c' En Hne. unfold gc. destruct c'; [|done]. by rewrite decide_False.
    + intros ev ev' (m & Em & ->) (m' & Em' & ->) E E'. congruence.
    + by eapply window_once.
  - clear. induction (events z) as [|ev evs IH]; [done|]. cbn [foldl]. unfold change at 2. case_decide; [|done]. by destruct (kind n z).
Qed.
End elements.

Lemma element_Some n x d name attrs style : data n x = Some d -> content_ d = Tag name attrs style ->
  element n x = Some (name, attrs, style) /\ forall f, modify_attributes n f x = set_content n (Tag name (f attrs) style) x.
Proof. intros E Ec. unfold element, modify_attributes. rewrite E. cbn. by rewrite Ec. Qed.
Lemma text_Some n x d t : data n x = Some d -> content_ d = Text t -> text n x = Some t /\ forall f, modify_contents n f x = set_content n (Text (f t)) x.
Proof. intros E Ec. unfold text, modify_contents. rewrite E. cbn. by rewrite Ec. Qed.

(** The callbacks that a filter does not have. *)
Ltac idle_event := intros s ev x k n En Ek Hk Hne; destruct ev as [| |m|m|m]; try done; cbn in En; injection En as ->; first [by destruct Hne|cbn; rewrite ?Ek; by destruct k as [|[]]].

Section doctype.
Variable doctype : DocType.

Definition without_quotes (_ : Keyword) (attrs : list Attribute) : list Attribute := if IsXhtml doctype then attrs else map remove_quotes attrs.
Definition quotes_counted (total : Z) (attrs : list Attribute) : Z :=
  if IsXhtml doctype then total else
    let rewritten := Z.of_nat (length (filter (fun a => removes_quotes a = true) attrs)) in if 0 <? rewritten then total + rewritten else total.

Lemma quote_removal_ok : element_filter (HtmlAttributeQuoteRemoval doctype) (fun s _ => s) StartElementEvent quotes_counted
  (fun name attrs style => (without_quotes (keyword_ name) attrs, style)).
Proof.
  split; [by intros s []|idle_event| |done]. intros s n x name attrs style d E Ec. cbn. unfold quote_removal_StartElement, quotes_counted, without_quotes.
  destruct (element_Some n x d name attrs style E Ec) as [He Hm]. destruct (IsXhtml doctype).
  - by rewrite <- Ec, (set_content_same n d x E).
  - rewrite He. cbn [mbind option_bind]. by rewrite Hm.
Qed.

Lemma elide_filter_ok : element_filter (ElideAttributesFilter doctype) (fun s _ => s) StartElementEvent (fun s _ => s)
  (fun name attrs style => (elide doctype (keyword_ name) attrs, style)).
Proof.
  split; [by intros s []|idle_event| |done]. intros s n x name attrs style d E Ec. cbn. unfold elide_StartElement.
  destruct (element_Some n x d name attrs style E Ec) as [He Hm]. rewrite He. cbn [mbind option_bind]. by rewrite Hm.
Qed.
End doctype.

Lemma canonical_ok : element_filter CanonicalAttributes (fun s ev => match ev with StartDocumentEvent => mkCounts 0 0 | _ => s end) StartElementEvent
  (fun c attrs => fold_left count_attribute attrs c) (fun _ attrs style => (map canonical attrs, style)).
Proof.
  split; [by intros s []|idle_event| |done]. intros s n x name attrs style d E Ec. cbn. unfold canonical_StartElement.
  destruct (element_Some n x d name attrs style E Ec) as [He Hm]. rewrite He. cbn [mbind option_bind]. by rewrite Hm.
Qed.

(** ** Removing quotes *)

(** Attributes that read the same. *)
Definition same_attribute (a b : Attribute) : Prop := attr_name b = attr_name a /\ escaped_value b = escaped_value a /\ (readable a -> readable b).

Lemma no_quote_char c : one_of kNoQuoteChars c = true -> ends_value c = false /\ c <> dquote /\ c <> squote.
Proof. unfold one_of. intros Hc. destruct c as [[] [] [] [] [] [] [] []]; try (by vm_compute in Hc); repeat split; try discriminate; by vm_compute. Qed.

Lemma remove_quotes_same a : same_attribute a (remove_quotes a).
Proof.
  unfold remove_quotes, removes_quotes, same_attribute. destruct (quote_style_ a); [done|..].
  all: destruct (NeedsQuotes (escaped_value a)) eqn:En; cbn [negb]; [done|]; do 2 (split; [done|]); intros (Hn & Hp & Hv).
  all: split; [done|]; split; [done|]; change (escaped_value (mkAttribute _ _ _)) with (escaped_value a); destruct (escaped_value a) as [[|c v]|]; try done.
  all: cbn [NeedsQuotes] in En; assert (Hc : forall c', c' ∈ c :: v -> one_of kNoQuoteChars c' = true).
  1,3: intros c' Hc'; destruct (one_of kNoQuoteChars c') eqn:E'; [done|]; rewrite <- not_true_iff_false in En; destruct En; apply existsb_exists;
    exists c'; split; [by apply list_elem_of_In|by rewrite E'].
  all: split; [|done]; cbn; split; [apply Forall_forall; intros c' Hc'; by apply no_quote_char, Hc|intros c' v' [= <- <-]; apply no_quote_char, Hc; by left].
Qed.

Lemma same_attributes attrs : Forall2 same_attribute attrs attrs.
Proof. induction attrs; by constructor. Qed.

Lemma without_quotes_same doctype k attrs : Forall2 same_attribute attrs (without_quotes doctype k attrs).
Proof.
  unfold without_quotes. destruct (IsXhtml doctype); [apply same_attributes|].
  induction attrs as [|a attrs IH]; constructor; [apply remove_quotes_same|done].
Qed.

(** When a filter can run: another one does not. *)
Definition no_filter (x : HtmlParse) : Prop := current_filter_ x = None /\ current_ x = None /\ skip_increment_ x = false.

(** Quote removal ends on every page and removes no event; every element that starts
    in the window keeps the names and values of its attributes in their order, and those
    that could be read back can still be, with or without their quotes. All other nodes stay
    as they are, and in an XHTML document all do. *)
Lemma quotes_removed doctype id x total :
  reached x -> no_filter x ->
  exists z total' x', ApplyFilter_begin id x = Some z /\
    ApplyFilter id (length (events z)) (HtmlAttributeQuoteRemoval doctype) total x = Some (total', x') /\ events x' = events z /\
    forall n, match content z n with
      | Some (Tag name attrs style) => exists attrs', content x' n = Some (Tag name attrs' style) /\ Forall2 same_attribute attrs attrs' /\
          (IsXhtml doctype = true \/ acts_on StartElementEvent n (events z) = false -> attrs' = attrs) /\
          (IsXhtml doctype = false -> acts_on StartElementEvent n (events z) = true -> Forall (fun a => removes_quotes a = false) attrs')
      | c => content x' n = c
      end.
Proof.
  intros Hx (H1 & H2 & H3). destruct (reached_sound x Hx) as [base HS].
  destruct (element_run _ _ _ _ _ (or_introl eq_refl) (quote_removal_ok doctype) id x base total HS H1 H2 H3) as (z & total' & x' & Hz & Ha & _ & He & Hc).
  exists z, total', x'. do 3 (split; [done|]). intros n. rewrite Hc. destruct (content z n) as [[name attrs style|t]|]; [|done..].
  exists (if acts_on StartElementEvent n (events z) then without_quotes doctype (keyword_ name) attrs else attrs).
  destruct (acts_on StartElementEvent n (events z)); (split; [done|]); [|split; [apply same_attributes|by split]].
  split; [apply without_quotes_same|]. unfold without_quotes. split; [by intros [-> |?]|]. intros -> _. rewrite Forall_map. apply Forall_true. intros a.
  unfold remove_quotes. destruct (removes_quotes a) eqn:E; [done|exact E].
Qed.

(** ** Other filters of elements *)

Lemma explicit_close_ok : element_filter ExplicitCloseTag (fun s _ => s) EndElementEvent (fun s _ => s) (fun _ attrs style => (attrs, explicit_style style)).
Proof.
  split; [by intros s []|idle_event| |done]. intros s n x name attrs style d E Ec. cbn. unfold explicit_close_EndElement, set_style.
  destruct (element_Some n x d name attrs style E Ec) as [He _]. rewrite He. cbn [mbind option_bind]. unfold edited_tag.
  destruct style; cbn [explicit_style]; rewrite <- ?Ec, ?(set_content_same n d x E); done.
Qed.

(** Every element that ends in the window gets an end tag that is written, or a brief one. *)
Lemma tags_closed id x s :
  reached x -> no_filter x ->
  exists z s' x', ApplyFilter_begin id x = Some z /\ ApplyFilter id (length (events z)) ExplicitCloseTag s x = Some (s', x') /\ events x' = events z /\
    forall n name attrs style, content z n = Some (Tag name attrs style) ->
      content x' n = Some (Tag name attrs (if acts_on EndElementEvent n (events z) then explicit_style style else style)).
Proof.
  intros Hx (H1 & H2 & H3). destruct (reached_sound x Hx) as [base HS].
  destruct (element_run _ _ _ _ _ (or_intror eq_refl) explicit_close_ok id x base s HS H1 H2 H3) as (z & s' & x' & Hz & Ha & _ & He & Hc).
  exists z, s', x'. do 3 (split; [done|]). intros n name attrs style Ec. rewrite Hc, Ec. by destruct (acts_on _ n _).
Qed.

(** An attribute with its canonical value decodes as before, and can be read back. *)
Lemma canonical_value a : DecodedValueOrNull (canonical a) = DecodedValueOrNull a.
Proof.
  unfold canonical. destruct (undecodable a); [done|]. destruct (DecodedValueOrNull a) as [v|] eqn:E; [|done].
  destruct (DecodedValue_Escape (attr_name a) (Some v) (QuoteStyleForEscapedValue (quote_style_ a) (Some (Escape v)))) as [H _].
  cbn [fmap option_fmap option_map] in H. unfold raw_escaped. rewrite H. unfold DecodedValueOrNull in E.
  apply bind_Some in E as (w & _ & (u & _ & ->)%fmap_Some). by rewrite c_str_idemp.
Qed.

(** ** Eliding attributes *)

(** Attributes are left out if they have their default value, and lose their value if it
    is the only one that they can have. *)
Inductive elided (doctype : DocType) (tag : Keyword) : list Attribute -> list Attribute -> Prop :=
| elided_nil : elided doctype tag [] []
| elided_default a attrs attrs' : is_default doctype tag a = true -> elided doctype tag attrs attrs' -> elided doctype tag (a :: attrs) attrs'
| elided_boolean a attrs attrs' : IsXhtml doctype = false -> (tag, keyword_ (attr_name a)) ∈ one_value_attrs_map_ ->
    elided doctype tag attrs attrs' -> elided doctype tag (a :: attrs) (raw_escaped None a :: attrs')
| elided_other a attrs attrs' : elided doctype tag attrs attrs' -> elided doctype tag (a :: attrs) (a :: attrs').

Lemma elide_elided doctype tag attrs : elided doctype tag attrs (elide doctype tag attrs) /\ Forall (fun a => is_default doctype tag a = false) (elide doctype tag attrs).
Proof.
  split; [|by apply Forall_forall; intros a [? _]%list_elem_of_filter]. unfold elide. induction attrs as [|a attrs IH]; [destruct (IsXhtml doctype); constructor|].
  destruct (IsXhtml doctype) eqn:Ex.
  - rewrite filter_cons. case_decide as Hd; [by apply elided_other|]. apply not_false_iff_true in Hd. by apply elided_default.
  - cbn [map]. rewrite filter_cons. assert (elide_value tag a = a \/ elide_value tag a = raw_escaped None a /\ (tag, keyword_ (attr_name a)) ∈ one_value_attrs_map_) as [->|[-> Hm]].
    { unfold elide_value. destruct (escaped_value a); [|by left]. case_bool_decide; [by right|by left]. }
    + case_decide as Hd; [by apply elided_other|]. apply not_false_iff_true in Hd. by apply elided_default.
    + rewrite decide_True by done. by apply elided_boolean.
Qed.

(** Eliding ends on every page and removes no event; of the attributes of an element
    that starts in the window it leaves out just those with their default value, and takes
    the value from some of those that can only have one (unless the document is XHTML); the
    others, and all other nodes, stay as they are. *)
Lemma default_attributes_elided doctype id x s :
  reached x -> no_filter x ->
  exists z s' x', ApplyFilter_begin id x = Some z /\
    ApplyFilter id (length (events z)) (ElideAttributesFilter doctype) s x = Some (s', x') /\ events x' = events z /\
    forall n, match content z n with
      | Some (Tag name attrs style) => exists attrs', content x' n = Some (Tag name attrs' style) /\
          if acts_on StartElementEvent n (events z)
          then elided doctype (keyword_ name) attrs attrs' /\ Forall (fun a => is_default doctype (keyword_ name) a = false) attrs'
          else attrs' = attrs
      | c => content x' n = c
      end.
Proof.
  intros Hx (H1 & H2 & H3). destruct (reached_sound x Hx) as [base HS].
  destruct (element_run _ _ _ _ _ (or_introl eq_refl) (elide_filter_ok doctype) id x base s HS H1 H2 H3) as (z & s' & x' & Hz & Ha & _ & He & Hc).
  exists z, s', x'. do 3 (split; [done|]). intros n. rewrite Hc. destruct (content z n) as [[name attrs style|t]|]; [|done..].
  destruct (acts_on StartElementEvent n (events z)); [|by eexists]. eexists. split; [done|]. apply elide_elided.
Qed.

(** ** Removing comments *)

Section comments.
Variable options : option (bytes -> bool).

Definition removed (kinds : nat -> option NodeKind) (cs : nat -> option Content) (ev : HtmlEvent) : bool :=
  match ev with
  | LeafNodeEvent n =>
      match kinds n, cs n with Some (LeafNode CommentNode), Some (Text t) => negb (is_retained options t) | _, _ => false end
  | _ => false
  end.
Definition comment_spec : NodeSpec unit :=
  mkSpec (fun s _ => s) (fun s ev k c =>
    match ev, k, c with
    | LeafNodeEvent _, LeafNode CommentNode, Text t => Some (s, if is_retained options t then Some c else None)
    | _, _, _ => Some (s, Some c)
    end).

Lemma comment_implements : Implements (RemoveCommentsFilter options) comment_spec.
Proof.
  split; [by intros s []| |done]. intros s ev n k d x En Ek Ed Hsh Hk.
  assert (Hidle : Run (RemoveCommentsFilter options) ev s x = Some (s, x) -> same_tag (content_ d) (content_ d) /\
    Run (RemoveCommentsFilter options) ev s x = (x ← set_content n (content_ d) x; Some (s, x))).
  { intros H. split; [by destruct (content_ d)|]. by rewrite (set_content_same n d x Ed). }
  destruct ev as [| |m|m|m]; try done; injection En as ->; destruct k as [|k]; try done; [by apply Hidle..|].
  unfold comment_spec. cbn [node_step]. destruct k; try (apply Hidle; cbn; by rewrite Ek).
  unfold shaped in Hsh. destruct (content_ d) as [|t] eqn:Ec; [done|]. destruct (text_Some n x d t Ed Ec) as [Ht _].
  cbn. rewrite Ek. unfold remove_comments_Comment. rewrite Ht. cbn [mbind option_bind]. destruct (is_retained options t).
  - split; [done|]. by rewrite <- Ec, (set_content_same n d x Ed).
  - split; [by eexists|]. done.
Qed.

Lemma comments_filtered kinds evs : forall s cs, covers kinds cs evs ->
  exists s' cs', filtered comment_spec kinds s cs evs = Some (s', cs', filter (fun ev => removed kinds cs ev = false) evs) /\ forall n, cs' n = cs n.
Proof.
  induction evs as [|ev evs IH]; intros s cs Hc; [by exists s, cs|]. rewrite filter_cons. cbn [filtered].
  assert (Hc' : covers kinds cs evs) by (intros ev' m Hi; apply Hc; by right).
  destruct (GetNode ev) as [n|] eqn:En.
  - destruct (Hc ev n) as [[k Hk] [c Hcn]]; [by left|done|]. rewrite Hk, Hcn. cbn [mbind option_bind].
    destruct (removed kinds cs ev) eqn:Er.
    + rewrite decide_False by done. assert (node_step comment_spec s ev k c = Some (s, None)) as ->; [|by apply IH].
      destruct ev as [| |m|m|m]; try done. injection En as ->. cbn in Er |- *. rewrite Hk, Hcn in Er. destruct k as [|[]], c; try done.
      apply negb_true_iff in Er. by rewrite Er.
    + rewrite decide_True by done. assert (node_step comment_spec s ev k c = Some (s, Some c)) as ->.
      { destruct ev as [| |m|m|m]; try done. injection En as ->. cbn in Er |- *. rewrite Hk, Hcn in Er. destruct k as [|[]], c; try done.
        apply negb_false_iff in Er. by rewrite Er. }
      cbn [mbind option_bind]. set (cs1 := with_content n c cs). assert (Hcs1 : forall m, cs1 m = cs m) by (intros m; unfold cs1, with_content; case_decide; congruence).
      destruct (IH s cs1) as (s' & cs' & -> & He); [intros ev' m Hi Hm; rewrite Hcs1; by apply (Hc' ev' m)|]. exists s', cs'. split; [|intros m; by rewrite He].
      cbn [mbind option_bind]. do 3 f_equal. apply list_filter_iff. intros ev'. unfold removed. by destruct ev'; rewrite ?Hcs1.
  - rewrite decide_True by by destruct ev. change (doc_step comment_spec s ev) with s. destruct (IH s cs Hc') as (s' & cs' & -> & He). by exists s', cs'.
Qed.
End comments.

(** Removing comments ends on every page: what is left of the window is its events
    without the comments that are not retained, in their order, with their contents. *)
Lemma comments_removed options id x s :
  reached x -> no_filter x ->
  exists z s' x', ApplyFilter_begin id x = Some z /\
    ApplyFilter id (length (events z)) (RemoveCommentsFilter options) s x = Some (s', x') /\
    events x' = filter (fun ev => removed options (fun n => kind n z) (content z) ev = false) (events z) /\
    forall n, content x' n = content z n.
Proof.
  intros Hx (H1 & H2 & H3). destruct (reached_sound x Hx) as [base HS].
  destruct (ApplyFilter_run _ _ (comment_implements options) id x base s HS H1 H2 H3) as (z & Hz & HSz & Hrun).
  destruct (comments_filtered options (fun n => kind n z) (events z) s (content z)) as (s' & cs' & Hf & Hcs); [by eapply window_covers|].
  destruct (Hrun _ s' cs' _ Hf (le_n _)) as (x' & Ha & _ & _ & _ & _ & He & Hc & _). exists z, s', x'. do 3 (split; [done|]).
  intros n. by rewrite Hc, Hcs.
Qed.

(** ** A page *)

(** [<form method="GET" class='big'><!--x--><input disabled="disabled" alt="a b"></form>],
    with another comment. *)
Definition page : list Step :=
  [Open (tag "form") [mkAttribute (MakeName (lit "method")) (Some (lit "GET")) DOUBLE_QUOTE; mkAttribute (MakeName (lit "class")) (Some (lit "big")) SINGLE_QUOTE];
   Leaf CommentNode (lit "x");
   Open (tag "input") [mkAttribute (MakeName (lit "disabled")) (Some (lit "disabled")) DOUBLE_QUOTE; mkAttribute (MakeName (lit "alt")) (Some (lit "a b")) DOUBLE_QUOTE];
   Close BRIEF_CLOSE; Leaf CommentNode (lit "keep"); Close EXPLICIT_CLOSE].

Lemma page_ready : reached (state_after page) /\ no_filter (state_after page).
Proof. split; [apply reached_after|split]; vm_compute; [reflexivity..|by split]. Qed.

Definition attributes_after {S} (F : HtmlFilter S) (s : S) : option (list (list (bytes * option bytes * QuoteStyle))) :=
  '(_, x) ← ApplyFilter 1 9 F s (state_after page);
  Some (omap (fun ev => match ev with
    | StartElementEvent n => '(_, attrs, _) ← element n x; Some (map (fun a => (str_ (attr_name a), escaped_value_ a, quote_style_ a)) attrs)
    | _ => None
    end) (events x)).

Example page_without_quotes :
  attributes_after (HtmlAttributeQuoteRemoval Doctype.UNKNOWN) 0 =
  Some [[(lit "method", Some (lit "GET"), NO_QUOTE); (lit "class", Some (lit "big"), NO_QUOTE)];
        [(lit "disabled", Some (lit "disabled"), NO_QUOTE); (lit "alt", Some (lit "a b"), DOUBLE_QUOTE)]].
Proof. vm_compute. reflexivity. Qed.

Example page_elided :
  attributes_after (ElideAttributesFilter Doctype.UNKNOWN) tt =
  Some [[(lit "class", Some (lit "big"), SINGLE_QUOTE)]; [(lit "disabled", None, DOUBLE_QUOTE); (lit "alt", Some (lit "a b"), DOUBLE_QUOTE)]].
Proof. vm_compute. reflexivity. Qed.

Lemma quotes_removed_witness :
  let x := state_after page in
  length (events x) = 7%nat /\
  exists z total' x', ApplyFilter_begin 1 x = Some z /\
    ApplyFilter 1 (length (events z)) (HtmlAttributeQuoteRemoval Doctype.UNKNOWN) 0 x = Some (total', x') /\ events x' = events z /\
    forall n name attrs style, content z n = Some (Tag name attrs style) -> exists attrs', content x' n = Some (Tag name attrs' style) /\ Forall2 same_attribute attrs attrs'.
Proof.
  set (x := state_after page). split; [vm_compute; reflexivity|].
  destruct (quotes_removed Doctype.UNKNOWN 1 x 0 (proj1 page_ready) (proj2 page_ready)) as (z & total' & x' & Hz & Ha & He & Hc).
  exists z, total', x'. split; [exact Hz|]. split; [exact Ha|]. split; [exact He|]. intros n name attrs style Hn.
  specialize (Hc n). rewrite Hn in Hc. destruct Hc as (attrs' & Hn' & Hs & _). exists attrs'. split; [exact Hn'|exact Hs].
Defined.

Lemma default_attributes_elided_witness :
  let x := state_after page in
  is_default Doctype.UNKNOWN (kw "form") (mkAttribute (MakeName (lit "method")) (Some (lit "GET")) DOUBLE_QUOTE) = true /\
  exists z s' x', ApplyFilter_begin 1 x = Some z /\
    ApplyFilter 1 (length (events z)) (ElideAttributesFilter Doctype.UNKNOWN) tt x = Some (s', x') /\ events x' = events z /\
    forall n t, content z n = Some (Text t) -> content x' n = Some (Text t).
Proof.
  set (x := state_after page). split; [vm_compute; reflexivity|].
  destruct (default_attributes_elided Doctype.UNKNOWN 1 x tt (proj1 page_ready) (proj2 page_ready)) as (z & s' & x' & Hz & Ha & He & Hc).
  exists z, s', x'. split; [exact Hz|]. split; [exact Ha|]. split; [exact He|]. intros n t Hn. specialize (Hc n). rewrite Hn in Hc. exact Hc.
Defined.

Lemma comments_removed_witness :
  let x := state_after page in let options := Some (fun comment => bool_decide (comment = lit "keep")) in
  events x = [StartDocumentEvent; StartElementEvent 0; LeafNodeEvent 1; StartElementEvent 2; EndElementEvent 2; LeafNodeEvent 3; EndElementEvent 0] /\
  exists z s' x', ApplyFilter_begin 1 x = Some z /\
    ApplyFilter 1 (length (events z)) (RemoveCommentsFilter options) tt x = Some (s', x') /\
    events x' = filter (fun ev => removed options (fun n => kind n z) (content z) ev = false) (events z) /\
    forall n, content x' n = content z n.
Proof.
  set (x := state_after page). split; [vm_compute; reflexivity|].
  apply (comments_removed _ 1 x tt); apply page_ready.
Defined.

Example page_without_comments :
  ('(_, x) ← ApplyFilter 1 9 (RemoveCommentsFilter (Some (fun comment => bool_decide (comment = lit "keep")))) tt (state_after page); Some (events x)) =
  Some [StartDocumentEvent; StartElementEvent 0; StartElementEvent 2; EndElementEvent 2; LeafNodeEvent 3; EndElementEvent 0].
Proof. vm_compute. reflexivity. Qed.
