(* ===== verification/HtmlCollapse.v ===== *)
(** * HTML filters: collapsing white space

    collapse_whitespace_filter.cc: the loop over the buffer does what [squeeze] says, and
    the stack of the filter is the sensitive part of the open elements. *)

From S2P Require Import Prelude StringUtil HtmlKeywords HtmlLexer HtmlEvents HtmlParse HtmlParseWalk HtmlParseInv HtmlParseDoc HtmlParseOps HtmlParseFlush HtmlParseSpec HtmlFilter HtmlFilters HtmlFiltersSpec.

(** ** Runs of white space *)

Definition is_ws (c : ascii) : bool := collapsible c || (c =c nl).

(** Every run becomes one character: a newline if the run has one, and otherwise its
    first. *)
Fixpoint squeeze (s : bytes) : bytes :=
  match s with
  | [] => []
  | c :: s =>
      if is_ws c then
        match squeeze s with
        | d :: t => if is_ws d then (if (c =c nl) || (d =c nl) then nl else c) :: t else c :: d :: t
        | [] => [c]
        end
      else c :: squeeze s
  end.

Lemma nl_ws : is_ws nl = true.
Proof. reflexivity. Qed.

Lemma squeeze_same_run w c s : is_ws w = true -> collapsible c = true -> (c =c nl) = false -> squeeze (w :: c :: s) = squeeze (w :: s).
Proof.
  intros Hw Hc Hn. assert (Hc' : is_ws c = true) by (unfold is_ws; by rewrite Hc). cbn [squeeze]. rewrite Hw, Hc'.
  destruct (squeeze s) as [|d t]; rewrite ?Hc', ?Hn, ?orb_false_r; [by destruct (w =c nl) eqn:E; [apply bool_decide_eq_true in E as ->|]|].
  destruct (is_ws d) eqn:Ed; cbn [orb].
  - destruct (d =c nl); cbn [orb]; [by rewrite nl_ws, !orb_true_r|]. by rewrite Hc', Hn, !orb_false_r.
  - rewrite Hc', Hn, orb_false_r. by destruct (w =c nl) eqn:E; [apply bool_decide_eq_true in E as ->|].
Qed.

Lemma squeeze_newline w s : is_ws w = true -> squeeze (w :: nl :: s) = squeeze (nl :: s).
Proof.
  intros Hw. assert (E : exists t, squeeze (nl :: s) = nl :: t).
  { cbn [squeeze]. rewrite nl_ws. destruct (squeeze s) as [|d t]; [by eexists|]. destruct (is_ws d); by eexists. }
  destruct E as [t E]. cbn [squeeze] in E |- *. rewrite E, Hw, nl_ws. by rewrite (bool_decide_eq_true_2 (nl = nl)), orb_true_r.
Qed.

Lemma squeeze_other w c s : is_ws w = true -> is_ws c = false -> squeeze (w :: c :: s) = w :: c :: squeeze s.
Proof. intros Hw Hc. cbn [squeeze]. rewrite Hw, Hc. cbn beta iota. by rewrite Hc. Qed.

Lemma write_at (out g rest : bytes) (c ch : ascii) :
  exists g', <[length out := ch]> (out ++ g ++ c :: rest) = (out ++ [ch]) ++ g' ++ rest /\ length g' = length g.
Proof.
  destruct g as [|x g].
  - exists []. split; [|done]. rewrite insert_app_r_alt, Nat.sub_diag by done. cbn. by rewrite <- app_assoc.
  - exists (g ++ [c]). split; [|rewrite length_app; cbn; lia]. rewrite insert_app_r_alt, Nat.sub_diag by done. cbn. by rewrite <- !app_assoc.
Qed.

(** The buffer holds what has been written, bytes that are not needed any more, and the
    bytes that are still to be read. *)
Lemma collapse_loop_ok fuel : forall out g rest,
  (length rest <= fuel)%nat ->
  collapse_loop fuel (out ++ g ++ rest) (length out + length g) (length out) 0 = out ++ squeeze rest /\
  forall o w, is_ws w = true -> out = o ++ [w] -> collapse_loop fuel (out ++ g ++ rest) (length out + length g) (length out) 1 = o ++ squeeze (w :: rest).
Proof.
  induction fuel as [|fuel IH]; intros out g rest Hf.
  { destruct rest; [|cbn in Hf; lia]. cbn [collapse_loop squeeze]. rewrite take_app_length, app_nil_r. split; [done|]. intros o w -> ->. done. }
  cbn [collapse_loop]. replace ((out ++ g ++ rest) !! (length out + length g)%nat) with (head rest).
  2: { rewrite app_assoc, lookup_app_r by (rewrite length_app; lia). rewrite length_app, Nat.sub_diag. by destruct rest. }
  destruct rest as [|c rest]; cbn [head].
  { rewrite take_app_length. cbn [squeeze]. rewrite app_nil_r. split; [done|]. intros o w -> ->. done. }
  cbn [length] in Hf. destruct (write_at out g rest c c) as (g1 & E1 & L1).
  destruct (IH (out ++ [c]) g1 rest ltac:(lia)) as [IH0 IH1]. rewrite length_app, L1, <- E1 in IH0, IH1. cbn [length] in IH0, IH1.
  replace (length out + 1 + length g)%nat with (S (length out + length g)) in IH0, IH1 by lia. replace (length out + 1)%nat with (S (length out)) in IH0, IH1 by lia.
  destruct (collapsible c) eqn:Ec.
  - assert (Hc : is_ws c = true) by (unfold is_ws; by rewrite Ec). assert (Hn : (c =c nl) = false) by (destruct c as [[] [] [] [] [] [] [] []]; try done; by vm_compute in Ec).
    split; [rewrite decide_True by done; by apply IH1|]. intros o w Hw ->. rewrite decide_False by done. rewrite squeeze_same_run by done.
    destruct (IH (o ++ [w]) (g ++ [c]) rest ltac:(lia)) as [_ H]. rewrite <- H by done. rewrite <- !app_assoc. f_equal. rewrite !length_app. cbn. lia.
  - destruct (c =c nl) eqn:En.
    + apply bool_decide_eq_true in En as ->. split; [rewrite Nat.sub_0_r; by apply IH1|]. intros o w Hw ->. rewrite squeeze_newline by done.
      rewrite length_app. cbn [length]. replace (length o + 1 - 1)%nat with (length o) by lia.
      assert (E : <[length o := nl]> ((o ++ [w]) ++ g ++ nl :: rest) = (o ++ [nl]) ++ (g ++ [nl]) ++ rest).
      { rewrite <- !app_assoc. rewrite insert_app_r_alt, Nat.sub_diag by done. done. }
      rewrite E. destruct (IH (o ++ [nl]) (g ++ [nl]) rest ltac:(lia)) as [_ H]. rewrite <- (H o nl) by done. rewrite !length_app. cbn [length]. f_equal; lia.
    + assert (Hc : is_ws c = false) by (unfold is_ws; by rewrite Ec, En). assert (E0 : (out ++ [c]) ++ squeeze rest = out ++ c :: squeeze rest) by by rewrite <- app_assoc.
      rewrite E0 in IH0. split; [cbn [squeeze]; rewrite Hc; exact IH0|]. intros o w Hw ->. rewrite IH0, squeeze_other by done. by rewrite <- app_assoc.
Qed.

Lemma collapse_squeeze s : collapse s = squeeze s.
Proof. by destruct (collapse_loop_ok (length s) [] [] s (le_n _)) as [H _]. Qed.

(** Nothing but white space is lost, no white space stays together, and there is nothing
    more to do. *)
Fixpoint no_runs (s : bytes) : bool :=
  match s with c :: ((d :: _) as s') => negb (is_ws c && is_ws d) && no_runs s' | _ => true end.

Abbreviation not_ws := (fun c => is_ws c = false).

Lemma squeeze_chars s : filter not_ws (squeeze s) = filter not_ws s.
Proof.
  assert (Hd : forall c t, is_ws c = true -> filter not_ws (c :: t) = filter not_ws t) by (intros c t Hc; apply filter_cons_False; congruence).
  induction s as [|c s IH]; [done|]. cbn [squeeze]. destruct (is_ws c) eqn:Ec; [|by rewrite !filter_cons_True, IH by done].
  rewrite (Hd c s) by done. rewrite <- IH. destruct (squeeze s) as [|d t]; [by apply Hd|].
  destruct (is_ws d) eqn:Ed; [|by rewrite Hd by done]. rewrite !Hd; [done..|]. by destruct (_ || _).
Qed.

Lemma no_runs_cons c d t : no_runs (c :: d :: t) = negb (is_ws c && is_ws d) && no_runs (d :: t).
Proof. done. Qed.

Lemma no_runs_other c s : is_ws c = false -> no_runs s = true -> no_runs (c :: s) = true.
Proof. intros Hc Hs. destruct s as [|d t]; [done|]. by rewrite no_runs_cons, Hc. Qed.

Lemma no_runs_replace d e t : is_ws d = true -> is_ws e = true -> no_runs (d :: t) = true -> no_runs (e :: t) = true.
Proof. intros Hd He. destruct t as [|c t]; [done|]. by rewrite !no_runs_cons, Hd, He. Qed.

Lemma squeeze_no_runs s : no_runs (squeeze s) = true.
Proof.
  induction s as [|c s IH]; [done|]. cbn [squeeze]. destruct (is_ws c) eqn:Ec; [|by apply no_runs_other].
  destruct (squeeze s) as [|d t]; [done|]. destruct (is_ws d) eqn:Ed.
  - apply (no_runs_replace d); [done| |done]. by destruct (_ || _).
  - by rewrite no_runs_cons, Ed, andb_false_r.
Qed.

Lemma no_runs_squeeze s : no_runs s = true -> squeeze s = s.
Proof.
  induction s as [|c [|d s] IH]; [done|intros _; cbn [squeeze]; by destruct (is_ws c)|]. rewrite no_runs_cons. intros [H Hs]%andb_true_iff.
  assert (Hq : squeeze (c :: d :: s) = if is_ws c then match squeeze (d :: s) with
    | e :: t => if is_ws e then (if (c =c nl) || (e =c nl) then nl else c) :: t else c :: e :: t | [] => [c] end else c :: squeeze (d :: s)) by done.
  rewrite Hq, IH by done. destruct (is_ws c); [|done]. by destruct (is_ws d).
Qed.

Lemma squeeze_idemp s : squeeze (squeeze s) = squeeze s.
Proof. apply no_runs_squeeze, squeeze_no_runs. Qed.

(** ** The filter *)

Definition is_sensitive (cs : nat -> option Content) (n : nat) : bool :=
  match cs n with Some (Tag name _ _) => IsSensitiveElement name | _ => false end.
Definition sensitive_of (sens : nat -> bool) (st : list nat) : list nat := filter (fun n => sens n = true) st.

Definition collapse_step (s : list nat) (ev : HtmlEvent) (k : NodeKind) (c : Content) : option (list nat * option Content) :=
  match ev, k, c with
  | StartElementEvent n, _, Tag name _ _ => Some (if IsSensitiveElement name then n :: s else s, Some c)
  | EndElementEvent n, _, Tag name _ _ =>
      match s with
      | m :: s' => if decide (n = m) then Some (s', Some c) else if IsSensitiveElement name then None else Some (s, Some c)
      | [] => if IsSensitiveElement name then None else Some (s, Some c)
      end
  | LeafNodeEvent n, LeafNode CharactersNode, Text t => Some (s, Some (Text (match s with [] => collapse t | _ => t end)))
  | _, _, _ => Some (s, Some c)
  end.
Definition collapse_spec : NodeSpec (list nat) := mkSpec (fun s ev => match ev with StartDocumentEvent => [] | _ => s end) collapse_step.

Lemma collapse_implements : Implements CollapseWhitespaceFilter collapse_spec.
Proof.
  split; [by intros s []| |done]. intros s ev n k d x En Ek Ed Hsh Hk. cbn [node_step collapse_spec].
  assert (Htag : same_tag (content_ d) (content_ d)) by by destruct (content_ d).
  assert (Hset : forall s' : list nat, Some (s', x) = (x ← set_content n (content_ d) x; Some (s', x))) by (intros s'; by rewrite (set_content_same n d x Ed)).
  destruct ev as [| |m|m|m]; try done; injection En as ->; destruct k as [|k]; try done; unfold shaped in Hsh.
  - destruct (content_ d) as [name attrs style|t] eqn:Ec; [|done]. destruct (element_Some n x d name attrs style Ed Ec) as [He _].
    cbn. split; [done|]. unfold collapse_StartElement. rewrite He. apply Hset.
  - destruct (content_ d) as [name attrs style|t] eqn:Ec; [|done]. destruct (element_Some n x d name attrs style Ed Ec) as [He _].
    cbn. unfold collapse_EndElement. rewrite He. cbn [mbind option_bind].
    destruct s as [|m s]; [|destruct (decide (n = m)); [split; [done|apply Hset]|]]; (destruct (IsSensitiveElement name); [done|split; [done|apply Hset]]).
  - destruct (content_ d) as [|t] eqn:Ec; [done|]. destruct (text_Some n x d t Ed Ec) as [_ Hm]. cbn [collapse_step Run]. rewrite Ek.
    destruct k; (split; [done|]); [|apply Hset..]. cbn. unfold collapse_Characters. destruct s; [by rewrite Hm|apply Hset].
Qed.

Section stack.
Variables (kinds : nat -> option NodeKind) (sens : nat -> bool).

Definition named (cs : nat -> option Content) : Prop := forall n, sens n = is_sensitive cs n.
Definition is_text (n : nat) (evs : list HtmlEvent) : Prop := kinds n = Some (LeafNode CharactersNode) /\ LeafNodeEvent n ∈ evs.

(** The texts of the events, from a stack of open elements on. *)
Definition collapsed (U : list nat) (cs cs' : nat -> option Content) (evs : list HtmlEvent) : Prop :=
  (forall i n t U', evs !! i = Some (LeafNodeEvent n) -> kinds n = Some (LeafNode CharactersNode) -> cs n = Some (Text t) -> nest U (take i evs) = Some U' ->
    cs' n = Some (Text (if existsb sens U' then t else collapse t))) /\
  forall n, ~ is_text n evs -> cs' n = cs n.

Lemma sensitive_nil U : sensitive_of sens U = [] <-> existsb sens U = false.
Proof.
  unfold sensitive_of. induction U as [|n U IH]; [done|]. rewrite filter_cons. cbn [existsb]. destruct (sens n); cbn [orb]; [by rewrite decide_True|by rewrite decide_False].
Qed.

Lemma collapsed_skip U V ev cs cs' evs :
  nest U [ev] = Some V -> (forall n, ev = LeafNodeEvent n -> kinds n <> Some (LeafNode CharactersNode)) -> collapsed V cs cs' evs -> collapsed U cs cs' (ev :: evs).
Proof.
  intros Hn Hl [H1 H2]. split.
  - intros [|i] n t U' Hi Hk Hc HU; [injection Hi as ->; by destruct (Hl n)|]. eapply (H1 i); [done..|]. cbn [take] in HU.
    by rewrite (nest_app U [ev] (take i evs) : nest U (ev :: take i evs) = _), Hn in HU.
  - intros n Hn'. apply H2. intros [Hk Hi]. apply Hn'. split; [done|]. by right.
Qed.

Lemma with_content_same n c cs m : cs n = Some c -> with_content n c cs m = cs m.
Proof. unfold with_content. case_decide; congruence. Qed.

(** The filter's stack after an event, and the content that it gives the node. *)
Definition text_after (U : list nat) (ev : HtmlEvent) (k : NodeKind) (c : Content) : Content :=
  match ev, k, c with
  | LeafNodeEvent _, LeafNode CharactersNode, Text t => Text (if existsb sens U then t else collapse t)
  | _, _, _ => c
  end.

Lemma step_stack U V cs ev n k c :
  GetNode ev = Some n -> nest U [ev] = Some V -> named cs -> cs n = Some c ->
  collapse_step (sensitive_of sens U) ev k c = Some (sensitive_of sens V, Some (text_after U ev k c)).
Proof.
  intros En Hn Hs Hc. specialize (Hs n). unfold is_sensitive in Hs. rewrite Hc in Hs.
  destruct ev as [| |m|m|m]; try done; injection En as ->; cbn in Hn.
  - injection Hn as <-. unfold sensitive_of. rewrite filter_cons. destruct c as [name attrs style|t]; cbn [collapse_step text_after].
    + rewrite <- Hs. by destruct (sens n); [rewrite decide_True|rewrite decide_False].
    + rewrite Hs, decide_False by done. done.
  - destruct U as [|m U]; [done|]. case_decide; [|done]. injection Hn as <-. subst m. unfold sensitive_of. rewrite filter_cons.
    destruct c as [name attrs style|t]; cbn [collapse_step text_after]; [rewrite <- Hs|rewrite Hs, decide_False by done; by destruct k as [|[]]].
    destruct (sens n) eqn:E; [by rewrite !decide_True|]. rewrite decide_False by done.
    destruct (filter _ U) as [|m U'] eqn:Ef; [done|]. rewrite decide_False; [done|]. intros ->.
    assert (Hm : m ∈ filter (fun n => sens n = true) U) by (rewrite Ef; by left). apply list_elem_of_filter in Hm as [Hm _]. congruence.
  - injection Hn as <-. cbn [collapse_step text_after]. destruct k as [|[]], c; try done. do 4 f_equal.
    destruct (sensitive_of sens U) as [|m s] eqn:E; [by apply sensitive_nil in E as ->|]. destruct (existsb sens U) eqn:E'; [done|].
    apply sensitive_nil in E'. congruence.
Qed.

Lemma text_after_other U ev n k c : GetNode ev = Some n -> kinds n = Some k -> ~ is_text n [ev] -> text_after U ev k c = c.
Proof.
  intros En Hk Ht. destruct ev as [| |m|m|m]; try done. injection En as ->. destruct k as [|[]], c; try done. destruct Ht. split; [done|by left].
Qed.

Lemma collapsed_text U n k c cs cs' evs :
  kinds n = Some k -> cs n = Some c -> LeafNodeEvent n ∉ evs ->
  collapsed U (with_content n (text_after U (LeafNodeEvent n) k c) cs) cs' evs -> collapsed U cs cs' (LeafNodeEvent n :: evs).
Proof.
  intros Hk Hc Hni [H1 H2]. assert (Hn : cs' n = Some (text_after U (LeafNodeEvent n) k c)).
  { rewrite H2; [unfold with_content; by rewrite decide_True|]. by intros [_ ?]. }
  split.
  - intros [|i] m t U' Hi Hkm Hcm HU; cbn [lookup list_lookup] in Hi.
    + injection Hi as <-. injection HU as <-. rewrite Hn. rewrite Hk in Hkm. injection Hkm as ->. rewrite Hc in Hcm. by injection Hcm as ->.
    + apply (H1 i); [done|done| |done]. unfold with_content. rewrite decide_False; [done|]. intros ->. apply Hni. by apply (list_elem_of_lookup_2 _ i).
  - intros m Hm. destruct (decide (m = n)) as [->|Hne].
    + rewrite Hn, Hc. f_equal. apply (text_after_other U _ n); [done..|]. intros [Hk' _]. apply Hm. split; [done|by left].
    + rewrite H2; [unfold with_content; by rewrite decide_False|]. intros [Hk' Hi]. apply Hm. split; [done|by right].
Qed.

Lemma stack_ok par evs : forall U U1 cs,
  walk par None U evs = Some U1 -> once evs -> covers kinds cs evs -> named cs ->
  exists cs', filtered collapse_spec kinds (sensitive_of sens U) cs evs = Some (sensitive_of sens U1, cs', evs) /\ collapsed U cs cs' evs.
Proof.
  induction evs as [|ev evs IH]; intros U U1 cs Hw Ho Hc Hs; [injection Hw as <-; by exists cs|].
  destruct (walk_app_Some par None U [ev] evs U1 Hw) as (V & HV & Hw'). pose proof (walk_nest _ _ _ _ _ HV) as Hn.
  assert (Ho' : once evs) by by apply (once_app_r [ev]).
  assert (Hc' : forall cs1, (forall m, is_Some (cs m) -> is_Some (cs1 m)) -> covers kinds cs1 evs).
  { intros cs1 H1 ev' m Hi Hm. destruct (Hc ev' m) as [? ?]; [by right|done|]. auto. }
  cbn [filtered]. destruct (GetNode ev) as [n|] eqn:En.
  - destruct (Hc ev n) as [[k Hk] [c Hcn]]; [by left|done|]. rewrite Hk, Hcn. cbn [mbind option_bind collapse_spec node_step].
    rewrite (step_stack U V cs ev n k c) by done. cbn [mbind option_bind]. set (cs1 := with_content n (text_after U ev k c) cs).
    assert (Hni : ev ∉ evs) by by apply (Ho [] ev n evs eq_refl En).
    destruct (IH V U1 cs1) as (cs' & -> & Hcol); [done..| | |].
    { apply Hc'. intros m Hm. unfold cs1, with_content. by case_decide; [eexists|]. }
    { intros m. rewrite (Hs m). unfold cs1, is_sensitive, with_content. case_decide; [subst m; rewrite Hcn|done].
      unfold text_after. destruct ev, k as [|[]], c; done. }
    exists cs'. split; [done|]. destruct ev as [| |m|m|m]; try done; injection En as ->.
    3: { injection Hn as <-. by apply (collapsed_text U n k c). }
    all: apply (collapsed_skip U V); [done..|]. all: destruct Hcol as [H1 H2]; split.
    2,4: intros m Hm; rewrite H2 by done; by apply with_content_same.
    all: intros i m t U' Hi Hkm Hcm HU; apply (H1 i); [done..| |done]; by rewrite (with_content_same n c cs).
  - assert (U = [] /\ V = []) as [-> ->].
    { destruct ev as [| |m|m|m]; try done; cbn in HV; case_decide as Ht; try done; injection HV as <-; by destruct U. }
    change (doc_step collapse_spec (sensitive_of sens []) ev) with (match ev with StartDocumentEvent => [] | _ => @nil nat end).
    assert (match ev with StartDocumentEvent => [] | _ => @nil nat end = sensitive_of sens []) as -> by by destruct ev.
    destruct (IH [] U1 cs) as (cs' & -> & Hcol); [done..|by apply Hc'|done|]. exists cs'. split; [done|]. apply (collapsed_skip [] []); [done| |done].
    intros n ->. done.
Qed.
End stack.

(** C22: collapsing ends on every page and never finds an element that is closed out of
    turn; it removes no event and keeps, from window to window, the stack of the sensitive
    elements that are open. A text outside all of them becomes itself with every run of
    white space squeezed to one character, a newline if there is one; a text inside one, and
    all other nodes, stay as they are. *)
Theorem whitespace_collapsed ss id x out base :
  orderly ss StartParse = true -> run_steps ss StartParse [] = Some (x, out) -> nest [] out = Some base -> no_filter x ->
  exists z base' x', ApplyFilter_begin id x = Some z /\ nest base (events z) = Some base' /\
    let sensitive := sensitive_of (is_sensitive (content z)) in
    ApplyFilter id (length (events z)) CollapseWhitespaceFilter (sensitive base) x = Some (sensitive base', x') /\ events x' = events z /\
    (forall i n t st, events z !! i = Some (LeafNodeEvent n) -> kind n z = Some (LeafNode CharactersNode) -> content z n = Some (Text t) ->
      nest base (take i (events z)) = Some st -> content x' n = Some (Text (match sensitive st with [] => squeeze t | _ => t end))) /\
    forall n, ~ (kind n z = Some (LeafNode CharactersNode) /\ LeafNodeEvent n ∈ events z) -> content x' n = content z n.
Proof.
  intros Ho Hr Hn (H1 & H2 & H3). destruct (orderly_ok ss StartParse [] [] StartParse_sound eq_refl Ho) as (x0 & base0 & out0 & Hr0 & HS & Hn0).
  assert (x0 = x /\ base0 = base) as [-> ->] by by split; congruence.
  destruct (ApplyFilter_run _ _ collapse_implements id x base (sensitive_of (is_sensitive (content x)) base) HS H1 H2 H3) as (z & Hz & HSz & _).
  destruct (ApplyFilter_run _ _ collapse_implements id x base (sensitive_of (is_sensitive (content z)) base) HS H1 H2 H3) as (z' & Hz' & _ & Hrun).
  assert (z' = z) as -> by congruence. destruct (Sound_opened z base HSz) as [HC _].
  destruct (stack_ok (fun n => kind n z) (is_sensitive (content z)) (par z) (events z) base (opened z) (content z)) as (cs' & Hf & Ht & Hc);
    [apply HC|by eapply window_once|by eapply window_covers|done|].
  destruct (Hrun _ _ _ _ Hf (le_n _)) as (x' & Ha & _ & _ & _ & _ & He & Hcx & _).
  exists z, (opened z), x'. split; [done|]. split; [eapply walk_nest, HC|]. do 2 (split; [done|]). split; [|intros n Hn'; rewrite Hcx; by apply Hc].
  intros i n t st Hi Hk Hcn Hst. rewrite Hcx, (Ht i n t st) by done. do 2 f_equal. rewrite collapse_squeeze.
  destruct (sensitive_of _ st) as [|m s] eqn:E; [by apply sensitive_nil in E as ->|]. destruct (existsb _ st) eqn:E'; [done|].
  apply sensitive_nil in E'. congruence.
Qed.

(** [<div>a CR NL b<pre>c  d</pre>]: only the text outside [pre] is squeezed. *)
Definition spaced : list Step :=
  [Open (tag "div") []; Leaf CharactersNode (lit "a " ++ [cr; nl] ++ lit " b"); Open (tag "pre") []; Leaf CharactersNode (lit "c  d"); Close EXPLICIT_CLOSE].

Example spaced_collapsed :
  ('(s, x) ← ApplyFilter 1 9 CollapseWhitespaceFilter [] (state_after spaced); Some (s, omap (fun n => text n x) [1; 3]%nat)) =
  Some ([], [lit "a" ++ [nl] ++ lit "b"; lit "c  d"]).
Proof. vm_compute. reflexivity. Qed.

Lemma whitespace_collapsed_witness :
  let x := state_after (spaced ++ [Flush]) in
  exists out, run_steps (spaced ++ [Flush]) StartParse [] = Some (x, out) /\ nest [] out = Some [0%nat] /\
  exists z base' x', ApplyFilter_begin 1 x = Some z /\ nest [0%nat] (events z) = Some base' /\
    ApplyFilter 1 (length (events z)) CollapseWhitespaceFilter (sensitive_of (is_sensitive (content z)) [0%nat]) x =
      Some (sensitive_of (is_sensitive (content z)) base', x') /\ events x' = events z.
Proof.
  set (x := state_after _). eexists. split; [vm_compute; reflexivity|]. split; [vm_compute; reflexivity|].
  destruct (whitespace_collapsed (spaced ++ [Flush]) 1 x [StartDocumentEvent; StartElementEvent 0; LeafNodeEvent 1; StartElementEvent 2; LeafNodeEvent 3; EndElementEvent 2] [0%nat])
    as (z & base' & x' & Hz & Hn & Ha & He & _); [vm_compute; reflexivity..|repeat split; vm_compute; reflexivity|].
  exists z, base', x'. split; [exact Hz|]. split; [exact Hn|]. split; [exact Ha|exact He].
Defined.
